(* ===== verification/_CoqProject ===== *)
-Q . S2P
Prelude.v
SortedLists.v
Status.v
Slice.v
Coding.v
Comparator.v
DbFormat.v
IterKey.v
BlockHashIndex.v
BlockBuilder.v
Block.v
BlockLayout.v
BlockScan.v
BlockCursor.v
BlockCorrect.v
BlockGet.v
BlockMeta.v
BlockEdge.v
WideColumns.v
WriteBatch.v
WriteBatchCorrect.v
WriteBatchCompose.v
Heap.v
RangeTombstones.v
RangeTombstonesCorrect.v
RangeTombstonesIter.v
RangeTombstonesScan.v
Crc32cTables.v
Crc32c.v
LogFormat.v
LogWriter.v
LogReader.v
LogRecord.v
LogRoundTrip.v
LogCorrect.v
WalBatch.v
WalEdit.v
VersionEdit.v
VersionEditCorrect.v
Manifest.v
FileIndexer.v
FileIndexerCorrect.v
VersionStorage.v
VersionStorageCorrect.v
VersionPrepare.v
VersionPrepareCorrect.v
FilePicker.v
FilePickerCorrect.v
CompactionInputs.v
CompactionPicker.v
CompactionInputsCorrect.v
CompactionPickerCorrect.v
BlobIndex.v
CompactionIterator.v
CompactionViews.v
CompactionIteratorCorrect.v
CompactionBeyond.v
CompactionRun.v
VersionBuilder.v
VersionBuilderCorrect.v
VersionBuilderBlobs.v
VersionBuilderSave.v
VersionBuilderRefines.v
VersionBuilderTables.v
VersionRecovery.v
VersionRecoveryEpochs.v
VersionRecoveryCorrect.v
VersionRecoveryRefines.v
