(* ===== verification/Prelude.v ===== *)
(** * A verification development for the RocksDB storage engine (rocksdb-rs)

    ** The program

    RocksDB keeps a sorted map on disk. A write is appended to a write-ahead log
    and inserted into a memory table; full memory tables are written to table
    files, which are made of sorted blocks. This development models the layers
    on which the others are built, in the C++ of src/rocksdb-cxx and in the Rust
    of src/src that replaced parts of it:

    - byte coding (util/coding.h, src/coding.rs, src/coding_lean.rs), status
      codes (src/status.rs), slices and prefix extractors
      (include/rocksdb/slice.h, util/slice.cc), CRC-32C (util/crc32c.cc);
    - comparators (util/comparator.cc) and internal keys (db/dbformat.h,
      db/dbformat.cc, db/lookup_key.h): the keys of all memory tables and blocks,
      and the total order on them;
    - the write-ahead log (db/log_format.h, db/log_writer.cc, db/log_reader.cc),
      which frames records with the coding and the checksum;
    - write batches (db/write_batch.cc, db/write_batch_internal.h,
      include/rocksdb/write_batch.h), the contents of the log's records, with the
      wide columns they may hold (db/wide/wide_column_serialization.cc);
    - the manifest, a log of version edits that says which files the database is
      made of: the edits (db/version_edit.cc, db/wal_edit.cc,
      db/blob/blob_file_addition.cc, db/blob/blob_file_garbage.cc), and their
      replay (db/version_edit_handler.cc, the atomic groups of db/version_set.cc);
    - the version builder (db/version_builder.cc), which applies edits to the files
      of a version (db/version_set.cc, db/blob/blob_file_meta.h) and saves them as
      a new one;
    - recovery, which replays a manifest into the versions of the column families
      (db/version_edit_handler.cc, db/version_set.cc, db/column_family.cc);
    - versions: what is derived from the files of a version (db/version_set.cc,
      db/file_indexer.cc), the enumeration of the files that may hold a key, and
      the inputs of a compaction, which must leave no version of a key behind
      (db/version_set.cc, db/compaction/compaction_picker.cc);
    - the iterator of a compaction, which reads the entries of its inputs in order
      and drops those that no snapshot needs (db/compaction/compaction_iterator.cc,
      db/compaction/compaction.cc, db/blob/blob_index.h);
    - the binary heap of the merging iterators (util/heap.h);
    - range tombstones (db/range_tombstone_fragmenter.cc), the deletions of whole
      ranges of keys, cut into fragments that do not overlap, with the iterator
      that readers and compactions search;
    - blocks (table/block_based/block_builder.cc, block.cc,
      data_block_hash_index.cc, data_block_footer.cc): sorted entries, delta
      encoded with restart points, searched through an iterator.

    ** The files

    - [Prelude]: machine integers, byte strings, the [RoundTrip] and
      [CompareOrder] classes and the tactics of the development.
    - [Status], [Slice], [Coding]: the component of the same name. A decoder
      returns the value and the rest of its input, or [None].
    - [Comparator]: a [Comparator] is a record of the virtual methods; the class
      [ComparatorLaws] is the contract of comparator.h, against which the clients
      are proved and which the built-in comparators implement.
    - [DbFormat], [IterKey]: internal keys, lookup keys, range tombstones, and the
      key buffer of iterators, with its inline array, its heap buffer and its
      pinned keys.
    - [Crc32cTables], [Crc32c]: the table driven implementation, and the
      combination of two checksums by polynomial arithmetic.
    - [LogFormat], [LogWriter], [LogReader]: the log. The destination and source
      files and the streaming (de)compressors are reached through virtual
      interfaces in the code and are classes here, with their documented
      behaviour as laws. [LogRecord], [LogRoundTrip], [LogCorrect]: the layout
      of a log as a list of fragments, and the theorems.
    - [BlockHashIndex], [BlockBuilder], [Block]: blocks, one definition for each
      operation. [BlockLayout]: a block as a list of items; [BlockScan]: the
      iterator over it, for any kind of block; [BlockCursor]: the two kinds;
      [BlockCorrect], [BlockMeta], [BlockGet], [BlockEdge]: the theorems.
    - [SortedLists]: lists sorted by a relation, shared by the searches.
    - [WideColumns], [WriteBatch]: one definition for each operation. The handler
      of [Iterate] is a record of its virtual methods on a state of any type.
      [WriteBatchCorrect]: a batch as a list of records, and iteration as a replay
      of it; [WriteBatchCompose]: appending, preparing, truncation and the content
      flags; [WalBatch]: batches in a log.
    - [WalEdit]: the logs in the manifest. [VersionEdit]: version edits, their
      encoder and decoder; [VersionEditCorrect]: an edit as a list of fields, and
      the theorems. [Manifest]: the replay, for a handler that is a record of its
      virtual methods on a state of any type, with two handlers.
    - [VersionStorage]: the files of a version and the consistency checks;
      [VersionStorageCorrect]: a version as a map from file numbers to levels and
      files, well-formed versions. [VersionBuilder]: the builder. How its state
      corresponds to the map of table files is in [VersionBuilderCorrect], to that
      of blob files in [VersionBuilderBlobs]; saving is in [VersionBuilderSave],
      and [VersionBuilderRefines] composes them. [VersionBuilderTables]: which
      tables are opened; the table cache is a parameter of which nothing is assumed.
    - [VersionRecovery]: column families, the version set, the handler that builds
      it and recovery. [VersionRecoveryEpochs]: epoch numbers;
      [VersionRecoveryCorrect]: the database as maps, and that the handler follows
      them; [VersionRecoveryRefines]: from the bytes of a manifest to versions.
    - [FileIndexer]: for each file the files of the next level that a key beside
      it can be in; [VersionPrepare]: the files of a level in brief, the searches
      of a level, and what a version derives before it is installed; [FilePicker]:
      the walk through the levels for a key. [FileIndexerCorrect],
      [VersionPrepareCorrect], [FilePickerCorrect]: the theorems. A failed
      assertion or an index out of range is [None], so that these also say that
      there is none.
    - [CompactionInputs]: the order of file boundaries, the files that overlap a
      range and those within it; [CompactionPicker]: clean cuts, and the inputs of
      both levels of a compaction. [CompactionInputsCorrect],
      [CompactionPickerCorrect]: the theorems.
    - [BlobIndex]: references to blobs. [CompactionIterator]: the iterator, with
      one definition for each rule; the compaction filter, merges, range
      tombstones, blob files and the flags of other threads are arguments.
      [CompactionViews]: what a reader at a sequence number sees of a list of
      entries, and the ways to change the list that it cannot notice;
      [CompactionIteratorCorrect]: the invariant of the loop, rule by rule;
      [CompactionBeyond]: the searches for what is below the output;
      [CompactionRun]: a whole run.
    - [Heap]: the heap, for any strict weak order.
    - [RangeTombstones]: fragmenting, and the iterator over the fragments.
      [RangeTombstonesCorrect]: the invariant of the loop that cuts the ranges;
      [RangeTombstonesIter]: the fragments and the lookup of a key;
      [RangeTombstonesScan]: the movements of the iterator.

    ** What the theorems show

    - Coding, hexadecimal printing and the log are inverted by their readers
      ([varint_round_trips], [GetVarsignedint64_Put], [DecodeHex_ToString],
      [wide_columns_round_trip], [log_round_trip]): the records that were added
      to a log, in either format and without compression, are read back; a log
      that was cut anywhere yields a prefix of them ([log_cut_recovers_prefix]),
      and one that was written over an older log ends where the old records
      begin ([recycled_log_stops]).
    - Every operation on a write batch is an operation on its list of records,
      save points and the limit on its size included, and iterating hands exactly
      these records to the handler ([write_batch_refines_records]); iterating
      returns for every byte string ([Iterate_terminates]) and notices a batch
      that was cut off ([truncated_batch_corrupt]); [Append_concatenates] and
      [prepared_batch_replays] are about joining and preparing batches. A log of
      batches that was cut anywhere replays complete batches only
      ([wal_replays_complete_batches]).
    - A version edit is read back as it was written, and is written exactly if its
      new files have valid keys and epoch numbers ([version_edit_round_trip]),
      decoding returns for every byte string ([DecodeFrom_terminates]) and deals
      with the fields of later versions, those inside new files and blob files
      included, as their tags ask ([unknown_fields_skipped_or_refused]). A manifest that was cut anywhere
      replays complete atomic groups only ([manifest_replays_complete_groups]).
      The set of logs in the manifest depends only on the additions and on the
      largest deletion, not on their order, unless a log is created again, which
      is refused ([wal_set_replay]).
    - The consistency checks accept exactly the well-formed versions
      ([consistency_checks_exact]). The builder refines two maps, of table files
      and of blob files, on which an edit adds and removes entries; saving produces
      the levels of the map in order and drops no blob file that is referred to
      ([version_builder_refines]). Recovery from a manifest that was cut anywhere
      yields exactly the column families and versions of its complete groups, or an
      error, and what it yields can be edited further; it is said when it is an
      error, whatever opening the tables returns ([recovery_refines]).
    - The files that [FilePicker] hands out for a key are exactly those whose range
      has it, level by level and newest first at level 0, although the bounds of
      the file indexer leave out most comparisons ([file_picker_exact]). The
      bottommost files are exactly those with no older file below that overlaps
      them ([bottommost_files_exact]).
    - The search for overlapping inputs finds exactly the files that touch a range,
      at level 0 the least set closed under overlap ([overlapping_inputs_exact]).
      Clean cuts are found, least around the inputs and largest within a range
      ([clean_cuts_exact]). The inputs of a compaction of two levels are closed:
      every file of the output level that overlaps an input is taken, also after
      the inputs have grown ([setup_other_inputs_closed]). Timestamps are excluded
      here.
    - A compaction changes nothing that a snapshot or a later reader can see, and
      puts out its entries in order ([compaction_keeps_views]). This is proved for
      runs without merges, filters, timestamps, a snapshot checker, blobs to
      rewrite, cancellation and input errors; the definitions have them. A snapshot
      of number zero requires that no entry of the input has this number. What the iterator relies on below its
      output is a class, [BeyondOutputLevel], and the searches that keep an index
      for every level implement it, since they answer as searches of all the files
      would ([beyond_output_level_exact]).
    - The heap refines a priority queue, with its cache of the larger child of
      the root ([heap_refines_priority_queue]).
    - Fragments of range tombstones are in order and do not overlap
      ([fragments_disjoint]), and the newest tombstone that covers a key is the
      same as before fragmenting, for every snapshot even after a compaction has
      dropped what no snapshot can see ([newest_covering_preserved]). The iterator
      is a cursor over all of them ([tombstone_cursor_refines]) and its seeks and
      [Top] movements find what a search through all fragments finds
      ([top_movements_refine_search]). These are about comparators without
      timestamps; the definitions are not restricted to them.
    - The checksum is the CRC of the specification ([ExtendImpl_correct]) and the
      combination of two checksums is the checksum of the concatenation
      ([Crc32cCombine_correct]).
    - Internal keys are ordered by user key, then downwards by sequence number
      and type ([internal_key_order]), all variants of the comparison agree, and
      the seek keys and bounds built of user keys are where they should be
      ([LookupKey_finds_visible], [InternalKey_min_max], ...).
    - The iterators over data and meta blocks refine a cursor over the list of
      the entries that were added ([data_block_refines_cursor],
      [meta_block_refines_cursor]); point lookups through the hash index agree
      with [Seek] ([SeekForGet_correct]).
    - Where the code departs from its documentation, a theorem says how
      ([recycled_log_skip_any_diverges], [large_log_number_reads_nothing],
      [timestamp_record_overruns_block], [max_sequence_keys_below_bounds],
      [SeekForGet_false_past_last], [CheckAndDecodeEntry_wraps],
      [NewBlock_restarts_wrap], [Reset_keeps_hash_index_off],
      [deferred_flags_stop_at_noop], [round_robin_grows_left],
      [zero_snapshot_loses_key]).

    ** Conventions

    Bytes are lists of [Z] in [0, 256); integers are [Z] with their wrap-around
    written out ([wrap], [swrap]) where the code's arithmetic can overflow. A
    pointer into a buffer is the rest of the buffer or an offset. [assert]s are
    not part of a release build: they are the preconditions of the theorems, or,
    in the files on versions and compactions, steps whose failure is [None].
    Loops that are not structural take fuel: the block iterators as much as the
    block has bytes, since every entry takes one, the log reader and the iteration
    over a batch twice as much as there are bytes, the heap as much as its index
    or its size, the tombstone iterator one more than there are fragments, the
    decoder of edits one more than there are bytes, the searches for files and
    clean cuts one more than there are files in the level or levels in the version,
    the compaction iterator two more than there are entries left, since every turn
    but the last takes one; the theorems show that the result is there, so the fuel is enough.

    ** What is not modelled

    The SSE, ARM and PowerPC kernels of the checksum; per key checksums of
    blocks, read amplification bitmaps and index blocks; the tailing log reader
    (FragmentBufferedReader); the protection information of write batches, the
    update of their timestamps and their insertion into memory tables; the merging
    of range tombstones of many files (db/range_del_aggregator.cc); names, debug
    strings, statistics and the object registry; of manifests the handlers that
    restore a point in time or follow a growing file; of versions the writing of
    edits, the scores of levels, the reading of tables and FilePickerMultiGet; of
    compactions the styles that choose the first inputs, manual compactions, the
    registration of running ones, the merging of operands, the division of the
    output into files and the writing of it. Above these layers:
    table files and their filters, memory tables, caches and the database itself,
    which is the orchestration of threads and files around them. *)

From stdpp Require Export base list option numbers tactics.
From Stdlib Require Export ZArith Lia.

#[global] Open Scope Z_scope.

(** ** Machine integers *)

(** A [w]-bit unsigned integer is a [Z] in [0, 2^w); [wrap w] is the
    conversion [static_cast<uintw_t>]. *)
Definition wrap (w z : Z) : Z := z mod 2 ^ w.

(** [static_cast<intw_t>] of a [w]-bit pattern. *)
Definition swrap (w z : Z) : Z := (z + 2 ^ (w - 1)) mod 2 ^ w - 2 ^ (w - 1).

Abbreviation u8 := (wrap 8).
Abbreviation u16 := (wrap 16).
Abbreviation u32 := (wrap 32).
Abbreviation u64 := (wrap 64).
Abbreviation i64 := (swrap 64).

Definition is_u (w z : Z) : Prop := 0 <= z < 2 ^ w.

(** Byte strings: [std::string], [Slice] and [char*] buffers. A byte is an
    unsigned 8-bit [Z]. *)
Abbreviation bytes := (list Z).
Definition bytes_ok (bs : bytes) : Prop := Forall (is_u 8) bs.
#[export] Instance is_u_dec w z : Decision (is_u w z).
Proof. unfold is_u. apply _. Defined.
#[export] Instance bytes_ok_dec bs : Decision (bytes_ok bs).
Proof. unfold bytes_ok. apply _. Defined.

(** [char] is signed on the modelled platform (x86-64 Linux): a byte read
    through a [char] and widened to a [w]-bit unsigned integer is sign
    extended. *)
Definition char_as_u (w b : Z) : Z := wrap w (swrap 8 b).

(** Linear arithmetic with [/] and [mod] by constants. *)
Ltac zlia := Z.to_euclidean_division_equations; lia.

(** ** Sizes *)

Definition Zlen {A} (l : list A) : Z := Z.of_nat (length l).
Definition ztake {A} (n : Z) (l : list A) : list A := take (Z.to_nat n) l.
Definition zdrop {A} (n : Z) (l : list A) : list A := drop (Z.to_nat n) l.
(** [l[i]] for an in-range index; the default is never observed by the code. *)
Definition znth (l : bytes) (i : Z) : Z := nth (Z.to_nat i) l 0.

Create Rewrite HintDb bytes.
Create HintDb bytes discriminated.

Ltac zsimp := autorewrite with bytes in *; cbn [length app] in *.

Lemma Zlen_nil {A} : Zlen (@nil A) = 0.
Proof. done. Qed.
Lemma Zlen_cons {A} (x : A) l : Zlen (x :: l) = 1 + Zlen l.
Proof. unfold Zlen. cbn [length]. lia. Qed.
Lemma Zlen_app {A} (l1 l2 : list A) : Zlen (l1 ++ l2) = Zlen l1 + Zlen l2.
Proof. unfold Zlen. rewrite length_app. lia. Qed.
Lemma Zlen_nonneg {A} (l : list A) : 0 <= Zlen l.
Proof. unfold Zlen. lia. Qed.
(** Sizes that occur in the goal are not negative. *)
Ltac zpos :=
  repeat match goal with
  | |- context [Zlen ?l] =>
      lazymatch goal with H : 0 <= Zlen l |- _ => fail | _ => pose proof (Zlen_nonneg l) end
  end.
Lemma Zlen_replicate {A} n (x : A) : Zlen (replicate n x) = Z.of_nat n.
Proof. unfold Zlen. by rewrite length_replicate. Qed.
#[export] Hint Rewrite @Zlen_nil @Zlen_cons @Zlen_app @Zlen_replicate : bytes.
#[export] Hint Resolve Zlen_nonneg : bytes.

Lemma Zlen_0_nil {A} (l : list A) : Zlen l = 0 → l = [].
Proof. destruct l; [done|]. unfold Zlen. cbn. lia. Qed.

Lemma Zlen_ztake {A} n (l : list A) : 0 <= n <= Zlen l → Zlen (ztake n l) = n.
Proof. unfold Zlen, ztake. rewrite length_take. lia. Qed.
Lemma Zlen_ztake_min {A} n (l : list A) : 0 <= n → Zlen (ztake n l) = Z.min n (Zlen l).
Proof. unfold Zlen, ztake. rewrite length_take. lia. Qed.
Lemma Zlen_zdrop {A} n (l : list A) : 0 <= n <= Zlen l → Zlen (zdrop n l) = Zlen l - n.
Proof. unfold Zlen, zdrop. rewrite length_drop. lia. Qed.
Lemma Zlen_length {A} (l : list A) : Zlen l = Z.of_nat (length l).
Proof. done. Qed.
Lemma ztake_zdrop {A} n (l : list A) : ztake n l ++ zdrop n l = l.
Proof. apply take_drop. Qed.

Lemma ztake_app {A} n (l1 l2 : list A) : n = Zlen l1 → ztake n (l1 ++ l2) = l1.
Proof. intros ->. unfold ztake, Zlen. rewrite Nat2Z.id. apply take_app_length. Qed.
Lemma zdrop_app {A} n (l1 l2 : list A) : n = Zlen l1 → zdrop n (l1 ++ l2) = l2.
Proof. intros ->. unfold zdrop, Zlen. rewrite Nat2Z.id. apply drop_app_length. Qed.
Lemma ztake_all {A} n (l : list A) : Zlen l <= n → ztake n l = l.
Proof. intros. unfold ztake, Zlen in *. apply take_ge. lia. Qed.
Lemma zdrop_all {A} n (l : list A) : Zlen l <= n → zdrop n l = [].
Proof. intros. unfold zdrop, Zlen in *. apply drop_ge. lia. Qed.
Lemma ztake_0 {A} (l : list A) : ztake 0 l = [].
Proof. done. Qed.
Lemma zdrop_0 {A} (l : list A) : zdrop 0 l = l.
Proof. done. Qed.
Lemma zdrop_zdrop {A} n m (l : list A) : 0 <= n → 0 <= m → zdrop n (zdrop m l) = zdrop (m + n) l.
Proof. intros. unfold zdrop. rewrite drop_drop. f_equal. lia. Qed.
#[export] Hint Rewrite @ztake_0 @zdrop_0 : bytes.

(** Prefixes of a concatenation. *)
Lemma ztake_app_le {A} n (l1 l2 : list A) : n <= Zlen l1 → ztake n (l1 ++ l2) = ztake n l1.
Proof. intros. unfold ztake, Zlen in *. by rewrite take_app_le by lia. Qed.
Lemma ztake_app_ge {A} n (l1 l2 : list A) : Zlen l1 <= n →
  ztake n (l1 ++ l2) = l1 ++ ztake (n - Zlen l1) l2.
Proof.
  intros. unfold ztake, Zlen in *. rewrite take_app_ge by lia. do 2 f_equal. lia.
Qed.
Lemma zdrop_app_le {A} n (l1 l2 : list A) : n <= Zlen l1 → zdrop n (l1 ++ l2) = zdrop n l1 ++ l2.
Proof. intros. unfold zdrop, Zlen in *. by rewrite drop_app_le by lia. Qed.
Lemma zdrop_app_ge {A} n (l1 l2 : list A) : Zlen l1 <= n → zdrop n (l1 ++ l2) = zdrop (n - Zlen l1) l2.
Proof.
  intros. unfold zdrop, Zlen in *. rewrite drop_app_ge by lia. f_equal. lia.
Qed.
Lemma ztake_ztake {A} n m (l : list A) : n <= m → ztake n (ztake m l) = ztake n l.
Proof. intros. unfold ztake. rewrite take_take. f_equal. lia. Qed.
Lemma zdrop_ztake_app {A} m n (l1 l2 : list A) : m = Zlen l1 → m <= n →
  zdrop m (ztake n (l1 ++ l2)) = ztake (n - m) l2.
Proof. intros -> ?. rewrite ztake_app_ge by done. by apply zdrop_app. Qed.

Lemma znth_app_l l1 l2 i : 0 <= i < Zlen l1 → znth (l1 ++ l2) i = znth l1 i.
Proof. intros. unfold znth, Zlen in *. apply app_nth1. lia. Qed.
Lemma znth_app_r l1 l2 i : Zlen l1 <= i → znth (l1 ++ l2) i = znth l2 (i - Zlen l1).
Proof.
  intros. unfold znth, Zlen in *. rewrite app_nth2 by lia. f_equal. lia.
Qed.

Lemma znth_zeros n i : znth (replicate n 0) i = 0.
Proof.
  unfold znth. generalize (Z.to_nat i) as k. induction n as [|n IH]; intros [|k]; cbn; auto.
Qed.

(** ** Ranges *)

Lemma wrap_range w z : 0 <= w → is_u w (wrap w z).
Proof. intros. apply Z.mod_pos_bound, Z.pow_pos_nonneg; lia. Qed.
Lemma wrap_small w z : is_u w z → wrap w z = z.
Proof. intros. by apply Z.mod_small. Qed.
Lemma wrap_idemp w z : 0 <= w → wrap w (wrap w z) = wrap w z.
Proof. intros. apply wrap_small, wrap_range. done. Qed.
#[export] Hint Resolve wrap_range : bytes.

Lemma is_u_mono w w' z : is_u w z → 0 <= w <= w' → is_u w' z.
Proof.
  unfold is_u. intros [? ?] ?. split; [done|].
  eapply Z.lt_le_trans; [done|]. apply Z.pow_le_mono_r; lia.
Qed.

Lemma bytes_ok_app l1 l2 : bytes_ok (l1 ++ l2) ↔ bytes_ok l1 ∧ bytes_ok l2.
Proof. apply Forall_app. Qed.
Lemma bytes_ok_nil : bytes_ok [].
Proof. constructor. Qed.
Lemma bytes_ok_replicate n b : is_u 8 b → bytes_ok (replicate n b).
Proof. intros. by apply Forall_replicate. Qed.
Lemma bytes_ok_ztake n l : bytes_ok l → bytes_ok (ztake n l).
Proof. apply Forall_take. Qed.
Lemma bytes_ok_zdrop n l : bytes_ok l → bytes_ok (zdrop n l).
Proof. apply Forall_drop. Qed.
#[export] Hint Resolve bytes_ok_nil bytes_ok_replicate bytes_ok_ztake bytes_ok_zdrop : bytes.

Lemma is_u_znth l i : bytes_ok l → is_u 8 (znth l i).
Proof.
  intros H. unfold znth. generalize (Z.to_nat i) as k. induction H; intros [|k]; cbn; auto; by split.
Qed.

(** ** Bit-level reasoning *)

Lemma testbit_above w z i : is_u w z → 0 <= w <= i → Z.testbit z i = false.
Proof.
  intros Hz Hi. rewrite <- (wrap_small w z Hz). unfold wrap.
  apply Z.mod_pow2_bits_high. lia.
Qed.

Lemma testbit_wrap w z i :
  0 <= w → 0 <= i → Z.testbit (wrap w z) i = (i <? w) && Z.testbit z i.
Proof.
  intros. unfold wrap. destruct (Z.ltb_spec i w); cbn.
  - apply Z.mod_pow2_bits_low. lia.
  - apply Z.mod_pow2_bits_high. lia.
Qed.

Lemma testbit_ones w i : 0 <= w → 0 <= i → Z.testbit (Z.ones w) i = (i <? w).
Proof.
  intros. destruct (Z.ltb_spec i w).
  - apply Z.ones_spec_low. lia.
  - apply Z.ones_spec_high. lia.
Qed.

Lemma is_u_testbit w z :
  0 <= w → 0 <= z → (∀ i, w <= i → Z.testbit z i = false) → is_u w z.
Proof.
  intros Hw Hz Hb. split; [done|].
  assert (z = wrap w z) as ->; [|by apply wrap_range].
  apply Z.bits_inj'. intros i Hi. rewrite testbit_wrap by done.
  destruct (Z.ltb_spec i w); cbn; [done|]. by apply Hb.
Qed.

Lemma is_u_lxor w a b : 0 <= w → is_u w a → is_u w b → is_u w (Z.lxor a b).
Proof.
  intros Hw Ha Hb. apply is_u_testbit; [done| |].
  - apply Z.lxor_nonneg. unfold is_u in *. lia.
  - intros i Hi. by rewrite Z.lxor_spec, !(testbit_above w).
Qed.
Lemma is_u_lor w a b : 0 <= w → is_u w a → is_u w b → is_u w (Z.lor a b).
Proof.
  intros Hw Ha Hb. apply is_u_testbit; [done| |].
  - apply Z.lor_nonneg. unfold is_u in *. lia.
  - intros i Hi. by rewrite Z.lor_spec, !(testbit_above w).
Qed.
Lemma is_u_land w a b : 0 <= w → is_u w a → 0 <= b → is_u w (Z.land a b).
Proof.
  intros Hw Ha Hb. apply is_u_testbit; [done| |].
  - apply Z.land_nonneg. lia.
  - intros i Hi. by rewrite Z.land_spec, (testbit_above w).
Qed.
Lemma is_u_shiftr w a n : 0 <= w → 0 <= n → is_u w a → is_u w (Z.shiftr a n).
Proof.
  intros Hw Hn Ha. apply is_u_testbit; [done| |].
  - apply Z.shiftr_nonneg. unfold is_u in *. lia.
  - intros i Hi. rewrite Z.shiftr_spec by lia. apply (testbit_above w); [done|lia].
Qed.
#[export] Hint Resolve is_u_lxor is_u_lor is_u_land is_u_shiftr : bytes.

(** Complementing the [w] bits of a word. *)
Lemma lxor_ones w x : 0 <= w → is_u w x → Z.lxor x (Z.ones w) = 2 ^ w - 1 - x.
Proof.
  intros Hw Hx. replace (2 ^ w - 1 - x) with (Z.ones w - x) by (rewrite Z.ones_equiv; lia).
  rewrite Z.sub_nocarry_ldiff; apply Z.bits_inj'; intros i Hi;
    rewrite ?Z.lxor_spec, Z.ldiff_spec, testbit_ones, ?Z.bits_0 by lia;
    destruct (Z.ltb_spec i w); rewrite ?(testbit_above w x i) by done; cbn [andb negb];
    by rewrite ?xorb_true_r, ?andb_false_r.
Qed.

(** [zbits] proves equalities of bit expressions by comparing them bit by bit;
    the [is_u] hypotheses bound the bits that can be set. *)
Ltac zbits_step i :=
  first
    [ rewrite Z.lxor_spec | rewrite Z.lor_spec | rewrite Z.land_spec
    | rewrite Z.shiftr_spec by lia | rewrite Z.shiftl_spec by lia
    | rewrite testbit_wrap by lia | rewrite testbit_ones by lia
    | rewrite Z.bits_0 ].
Ltac zbits_case :=
  match goal with
  | |- context [Z.ltb ?a ?b] => destruct (Z.ltb_spec a b); cbn [andb orb xorb negb]
  | H : is_u ?w ?z |- context [Z.testbit ?z ?i] =>
      rewrite (testbit_above w z i) by (first [exact H | lia])
  | |- context [Z.testbit ?z ?i] => rewrite (Z.testbit_neg_r z i) by lia
  | |- context [Z.testbit _ ?i] =>
      tryif assert (0 <= i) by lia then fail else destruct (Z.lt_ge_cases i 0)
  end.
(** Makes the indices of the bits of one word syntactically equal. *)
Ltac zbits_index :=
  match goal with
  | |- context [Z.testbit ?z ?a] =>
      match goal with
      | |- context [Z.testbit z ?b] => tryif constr_eq a b then fail else replace a with b by lia
      end
  end.
Ltac zbits :=
  apply Z.bits_inj'; let i := fresh "i" in intros i ?;
  repeat (first [zbits_step i | zbits_case]; cbn [andb orb xorb negb]);
  rewrite ?andb_true_r, ?andb_false_r, ?orb_false_r, ?orb_true_r, ?xorb_false_r;
  repeat zbits_index; rewrite <- ?orb_assoc, ?orb_diag, ?andb_diag, ?xorb_nilpotent;
  try reflexivity; try lia.

(** ** Three-way comparisons

    An [int] whose sign says how two values compare. [CompareOrder wf cmp]: on
    the values that satisfy [wf], [cmp] is a total preorder. *)
Class CompareOrder {A} (wf : A → Prop) (cmp : A → A → Z) : Prop := {
  cmp_antisym : ∀ a b, wf a → wf b → Z.sgn (cmp b a) = - Z.sgn (cmp a b);
  cmp_le_trans : ∀ a b c, wf a → wf b → wf c → cmp a b <= 0 → cmp b c <= 0 → cmp a c <= 0
}.

Section CompareOrder.
Context {A} {wf : A → Prop} {cmp : A → A → Z} `{!CompareOrder wf cmp}.

Lemma cmp_refl a : wf a → cmp a a = 0.
Proof. intros Ha. pose proof (cmp_antisym a a Ha Ha). lia. Qed.
Lemma cmp_flip_le a b : wf a → wf b → cmp a b <= 0 ↔ 0 <= cmp b a.
Proof. intros Ha Hb. pose proof (cmp_antisym a b Ha Hb). lia. Qed.
Lemma cmp_flip_lt a b : wf a → wf b → cmp a b < 0 ↔ 0 < cmp b a.
Proof. intros Ha Hb. pose proof (cmp_antisym a b Ha Hb). lia. Qed.
Lemma cmp_flip_eq a b : wf a → wf b → cmp a b = 0 → cmp b a = 0.
Proof. intros Ha Hb. pose proof (cmp_antisym a b Ha Hb). lia. Qed.
Lemma cmp_lt_le_trans a b c : wf a → wf b → wf c → cmp a b < 0 → cmp b c <= 0 → cmp a c < 0.
Proof.
  intros Ha Hb Hc Hab Hbc. destruct (Z.lt_ge_cases (cmp a c) 0) as [|Hac]; [done|exfalso].
  apply cmp_flip_le in Hac; [|done..]. pose proof (cmp_le_trans b c a Hb Hc Ha Hbc Hac).
  apply cmp_flip_lt in Hab; [|done..]. lia.
Qed.
Lemma cmp_le_lt_trans a b c : wf a → wf b → wf c → cmp a b <= 0 → cmp b c < 0 → cmp a c < 0.
Proof.
  intros Ha Hb Hc Hab Hbc. destruct (Z.lt_ge_cases (cmp a c) 0) as [|Hac]; [done|exfalso].
  apply cmp_flip_le in Hac; [|done..]. pose proof (cmp_le_trans c a b Hc Ha Hb Hac Hab).
  apply cmp_flip_lt in Hbc; [|done..]. lia.
Qed.
Lemma cmp_lt_trans a b c : wf a → wf b → wf c → cmp a b < 0 → cmp b c < 0 → cmp a c < 0.
Proof. intros. apply (cmp_lt_le_trans a b c); auto. lia. Qed.
(** Equivalent values compare alike. *)
Lemma cmp_eq_l a b c : wf a → wf b → wf c → cmp a b = 0 → Z.sgn (cmp a c) = Z.sgn (cmp b c).
Proof.
  intros Ha Hb Hc Hab. pose proof (cmp_flip_eq a b Ha Hb Hab) as Hba.
  pose proof (cmp_le_trans a b c Ha Hb Hc). pose proof (cmp_le_trans b a c Hb Ha Hc).
  pose proof (cmp_le_lt_trans a b c Ha Hb Hc). pose proof (cmp_le_lt_trans b a c Hb Ha Hc). lia.
Qed.
End CompareOrder.
