(* ===== verification/SortedLists.v ===== *)
(** * Searching and sorted lists

    What the standard library's searches over sorted ranges return. *)

From Stdlib Require Import Sorting.Sorted.
From S2P Require Import Prelude.
From stdpp Require Import gmap.
#[local] Open Scope Z_scope.

(** [std::lower_bound] over a range that is partitioned by [p]. *)

Fixpoint count_while {A} (p : A → bool) (l : list A) : nat :=
  match l with
  | [] => 0
  | x :: l => if p x then S (count_while p l) else 0
  end.

Lemma count_while_le {A} (p : A → bool) l : (count_while p l <= length l)%nat.
Proof. induction l as [|x l IH]; cbn; [done|]. destruct (p x); lia. Qed.
Lemma count_while_before {A} (p : A → bool) l i x : l !! i = Some x → (i < count_while p l)%nat → p x = true.
Proof.
  revert i. induction l as [|y l IH]; intros i Hi Hc; [done|]. cbn in Hc. destruct (p y) eqn:E; [|lia].
  destruct i as [|i]; [by injection Hi as <-|]. apply (IH i); [done|lia].
Qed.
Lemma count_while_at {A} (p : A → bool) l x : l !! count_while p l = Some x → p x = false.
Proof.
  induction l as [|y l IH]; cbn; [done|]. destruct (p y) eqn:E; [exact IH|]. by intros [= <-].
Qed.
Lemma count_while_unique {A} (p : A → bool) l n : (n <= length l)%nat →
  (∀ i x, l !! i = Some x → (i < n)%nat → p x = true) → (∀ x, l !! n = Some x → p x = false) → count_while p l = n.
Proof.
  revert n. induction l as [|y l IH]; intros n Hn H1 H2; [cbn in *; lia|]. cbn [count_while].
  destruct n as [|n].
  - by rewrite (H2 y eq_refl).
  - rewrite (H1 0%nat y eq_refl) by lia. f_equal. apply IH; [cbn in *; lia| |done].
    intros i x Hi Hlt. apply (H1 (S i)); [done|lia].
Qed.
Lemma count_while_map {A B} (f : A → B) (p : B → bool) l : count_while p (map f l) = count_while (λ x, p (f x)) l.
Proof. induction l as [|x l IH]; cbn; [done|]. by rewrite IH. Qed.

Lemma count_while_app {A} (p : A → bool) l1 l2 : Forall (λ x, p x = true) l1 →
  count_while p (l1 ++ l2) = (length l1 + count_while p l2)%nat.
Proof. induction 1 as [|x l1 Hx _ IH]; cbn; [done|]. by rewrite Hx, IH. Qed.

Lemma sorted_lookup {A} (R : A → A → Prop) l : StronglySorted R l → ∀ i j x y, l !! i = Some x → l !! j = Some y →
  (i < j)%nat → R x y.
Proof.
  induction 1 as [|a l Hl IH Ha]; intros [|i] [|j] x y Hx Hy Hij; cbn in *; try done; try lia.
  - injection Hx as <-. by apply (proj1 (Forall_lookup _ _) Ha j).
  - apply (IH i j); [done..|lia].
Qed.

Lemma count_while_ext {A} (p q : A → bool) l : (∀ x, p x = q x) → count_while p l = count_while q l.
Proof. intros E. induction l as [|x l IH]; [done|]. cbn. by rewrite E, IH. Qed.
Lemma count_while_ext_in {A} (p q : A → bool) l : (∀ x, x ∈ l → p x = q x) → count_while p l = count_while q l.
Proof.
  induction l as [|x l IH]; intros E; [done|]. cbn. rewrite (E x) by by left. destruct (q x); [|done].
  f_equal. apply IH. intros y Hy. apply E. by right.
Qed.

(** ** Sorting

    [std::sort] by a comparison, as an insertion sort. The comparison need only be
    an order on the elements of the list. *)
Fixpoint insert_by {A} (le : A → A → bool) (x : A) (l : list A) : list A :=
  match l with
  | [] => [x]
  | y :: tl => if le x y then x :: l else y :: insert_by le x tl
  end.
Definition sort_by {A} (le : A → A → bool) (l : list A) : list A := foldr (insert_by le) [] l.

Lemma insert_by_perm {A} (le : A → A → bool) x l : insert_by le x l ≡ₚ x :: l.
Proof.
  induction l as [|y l IH]; [done|]. cbn. destruct (le x y); [done|]. rewrite IH. apply Permutation_swap.
Qed.

Lemma sort_by_perm {A} (le : A → A → bool) l : sort_by le l ≡ₚ l.
Proof. induction l as [|x l IH]; [done|]. cbn. by rewrite insert_by_perm, IH. Qed.

Section Sorting.
Context {A} (P : A → Prop) (le : A → A → bool).
Context (Htotal : ∀ x y, P x → P y → le x y = true ∨ le y x = true).
Context (Htrans : ∀ x y z, P x → P y → P z → le x y = true → le y z = true → le x z = true).

Lemma insert_by_sorted x l : P x → Forall P l → StronglySorted (λ a b, le a b = true) l →
  StronglySorted (λ a b, le a b = true) (insert_by le x l).
Proof using Htotal Htrans.
  intros Hx. induction l as [|y l IH]; intros HP Hs; cbn; [by repeat constructor|].
  apply Forall_cons_iff in HP as [Hy HP]. apply StronglySorted_inv in Hs as [Hs Hall].
  destruct (le x y) eqn:E.
  - constructor; [by constructor|]. constructor; [done|]. rewrite Forall_forall in *. intros z Hz. apply (Htrans x y z); auto.
  - constructor; [by apply IH|]. rewrite insert_by_perm. constructor; [|done].
    destruct (Htotal x y Hx Hy); [congruence|done].
Qed.

Lemma sort_by_sorted l : Forall P l → StronglySorted (λ a b, le a b = true) (sort_by le l).
Proof using Htotal Htrans.
  induction 1 as [|x l Hx HP IH]; [constructor|]. cbn. apply insert_by_sorted; [done| |done]. fold (sort_by le l). by rewrite sort_by_perm.
Qed.
End Sorting.

Lemma Sorted_StronglySorted_on {A} (P : A → Prop) (R : A → A → Prop) l :
  (∀ x y z, P x → P y → P z → R x y → R y z → R x z) → Forall P l → Sorted R l → StronglySorted R l.
Proof.
  intros Ht. induction l as [|x l IH]; intros HP Hs; [constructor|]. apply Forall_cons_iff in HP as [Hx HP].
  apply Sorted_inv in Hs as [Hs Hh]. specialize (IH HP Hs). constructor; [done|]. destruct l as [|y l]; [constructor|].
  apply HdRel_inv in Hh. apply StronglySorted_inv in IH as [_ Hy]. apply Forall_cons_iff in HP as [HPy HP].
  constructor; [done|]. rewrite Forall_forall in *. intros z Hz. apply (Ht x y z); auto.
Qed.

(** ** Filtering *)
Lemma StronglySorted_drop {A} (R : A → A → Prop) k l : StronglySorted R l → StronglySorted R (drop k l).
Proof. revert k. induction l as [|x l IH]; intros [|k] Hs; [done..|]. inversion_clear Hs. by apply IH. Qed.
Lemma StronglySorted_snoc {A} (R : A → A → Prop) l y : StronglySorted R l → (∀ x, x ∈ l → R x y) → StronglySorted R (l ++ [y]).
Proof.
  induction 1 as [|x l _ IH Hx]; intros Hy; cbn; [by repeat constructor|]. constructor; [apply IH; intros z Hz; apply Hy; by right|].
  apply Forall_app. split; [done|]. constructor; [apply Hy; left|constructor].
Qed.
Lemma StronglySorted_list_filter {A} (R : A → A → Prop) (p : A → bool) l : StronglySorted R l → StronglySorted R (List.filter p l).
Proof.
  induction 1 as [|x l Hl IH Hx]; [constructor|]. cbn. destruct (p x); [|done]. constructor; [done|].
  rewrite Forall_forall in *. intros y Hy. apply list_elem_of_In, filter_In in Hy as [Hy _]. by apply Hx, list_elem_of_In.
Qed.
Lemma elem_of_list_filter_bool {A} (p : A → bool) l x : x ∈ List.filter p l ↔ x ∈ l ∧ p x = true.
Proof. by rewrite !list_elem_of_In, filter_In. Qed.

Lemma StronglySorted_weaken {A} (R R' : A → A → Prop) l : (∀ x y, R x y → R' x y) → StronglySorted R l → StronglySorted R' l.
Proof. intros HR. induction 1 as [|x l Hl IH Hx]; constructor; [done|]. eapply Forall_impl; [exact Hx|]. intros y. apply HR. Qed.
Lemma StronglySorted_NoDup {A} (R : A → A → Prop) l : (∀ x, x ∈ l → ¬ R x x) → StronglySorted R l → NoDup l.
Proof.
  intros HR Hl. induction Hl as [|x l Hl IH Hx]; [constructor|]. apply NoDup_cons. rewrite Forall_forall in Hx. split; [|set_solver].
  intros H. apply (HR x); [set_solver|by apply Hx].
Qed.
Lemma StronglySorted_map_in {A B} (R : A → A → Prop) (R' : B → B → Prop) (f : A → B) l :
  (∀ x y, x ∈ l → y ∈ l → R x y → R' (f x) (f y)) → StronglySorted R l → StronglySorted R' (map f l).
Proof.
  intros Hf Hl. induction Hl as [|x l Hl IH Hx]; cbn; [constructor|]. constructor.
  - apply IH. intros y z Hy Hz. apply Hf; by right.
  - apply Forall_map. rewrite Forall_forall in *. intros y Hy. apply Hf; [left|by right|by apply Hx].
Qed.

(** ** Ordered maps

    The entries of a [std::map] in the order in which they are iterated over. *)
Definition map_entries {A} (m : gmap Z A) : list (Z * A) := sort_by (λ a b, fst a <=? fst b) (map_to_list m).
Lemma map_entries_perm {A} (m : gmap Z A) : map_entries m ≡ₚ map_to_list m.
Proof. apply sort_by_perm. Qed.
Lemma elem_of_map_entries {A} (m : gmap Z A) k x : (k, x) ∈ map_entries m ↔ m !! k = Some x.
Proof. rewrite map_entries_perm. apply elem_of_map_to_list. Qed.
Lemma map_entries_sorted {A} (m : gmap Z A) : StronglySorted (λ a b, fst a < fst b) (map_entries m).
Proof.
  assert (StronglySorted (λ a b, (fst a <=? fst b) = true) (map_entries m)) as Hs.
  { apply (sort_by_sorted (λ _, True)); [lia..|]. by apply Forall_true. }
  assert (NoDup (map fst (map_entries m))) as Hn by (rewrite map_entries_perm; apply NoDup_fst_map_to_list).
  induction Hs as [|x l Hl IH Hx]; [constructor|]. cbn in Hn. apply NoDup_cons in Hn as [Hn1 Hn2].
  constructor; [by apply IH|]. rewrite Forall_forall in *. intros y Hy. specialize (Hx y Hy).
  assert (fst y ∈ map fst l) by (apply list_elem_of_fmap; eauto). destruct (Z.eq_dec (fst x) (fst y)) as [E|]; [congruence|lia].
Qed.

(** A list that is sorted by a key is determined by its elements. *)
Lemma sorted_key_ext {A} (f : A → Z) l1 l2 : StronglySorted (λ x y, f x < f y) l1 → StronglySorted (λ x y, f x < f y) l2 →
  (∀ x, x ∈ l1 ↔ x ∈ l2) → l1 = l2.
Proof.
  intros H1. revert l2. induction H1 as [|x l1 H1 IH Hx]; intros l2 H2 He.
  - destruct l2 as [|y l2]; [done|]. assert (y ∈ []) as ?%elem_of_nil by (apply He; left). done.
  - destruct H2 as [|y l2 H2 Hy]; [assert (x ∈ []) as ?%elem_of_nil by (apply He; left); done|].
    rewrite Forall_forall in Hx, Hy. assert (x = y) as ->.
    { assert (x ∈ y :: l2) as [|Hx2]%elem_of_cons by (apply He; left); [done|].
      assert (y ∈ x :: l1) as [|Hy1]%elem_of_cons by (apply He; left); [done|]. specialize (Hx y Hy1). specialize (Hy x Hx2). lia. }
    f_equal. apply IH; [done|]. intros z. split; intros Hz.
    + assert (z ∈ y :: l2) as [-> |]%elem_of_cons by (apply He; by right); [|done]. specialize (Hx y Hz). lia.
    + assert (z ∈ y :: l1) as [-> |]%elem_of_cons by (apply He; by right); [|done]. specialize (Hy y Hz). lia.
Qed.

(** ** Filters *)

Lemma filter_drops {A} (P : A → Prop) `{!∀ x, Decision (P x)} (l : list A) : (∀ x, x ∈ l → ¬ P x) → filter P l = [].
Proof.
  induction l as [|x l IH]; intros Hl; [done|]. rewrite filter_cons_False by (apply Hl; left). apply IH. intros y Hy. apply Hl. by right.
Qed.
Lemma filter_keeps {A} (P : A → Prop) `{!∀ x, Decision (P x)} (l : list A) : (∀ x, x ∈ l → P x) → filter P l = l.
Proof.
  induction l as [|x l IH]; intros Hl; [done|]. rewrite filter_cons_True by (apply Hl; left). f_equal. apply IH. intros y Hy. apply Hl. by right.
Qed.
