(* ===== verification/Status.v ===== *)
(** * Status codes

    [Status] and [IOStatus] ([src/status.rs], [src/io_status.rs]): a code, the
    message and the data-loss flag, which is what the modelled callers look
    at. *)

From S2P Require Import Prelude.
From stdpp Require Export strings.
#[local] Open Scope string_scope.

Inductive Code :=
  | kOk | kNotFound | kCorruption | kNotSupported | kInvalidArgument | kIOError
  | kMergeInProgress | kIncomplete | kShutdownInProgress | kTimedOut | kAborted
  | kBusy | kExpired | kTryAgain | kCompactionTooLarge | kColumnFamilyDropped | kMaxCode.

#[export] Instance Code_eq_dec : EqDecision Code.
Proof. solve_decision. Defined.

Record Status := mkStatus { code_ : Code; state_ : string; data_loss_ : bool }.

#[export] Instance Status_eq_dec : EqDecision Status.
Proof. solve_decision. Defined.

Definition Status_OK : Status := mkStatus kOk "" false.
Definition Status_Corruption (msg : string) : Status := mkStatus kCorruption msg false.
Definition Status_NotSupported (msg : string) : Status := mkStatus kNotSupported msg false.
Definition Status_InvalidArgument (msg : string) : Status := mkStatus kInvalidArgument msg false.
Definition Status_NotFound (msg : string) : Status := mkStatus kNotFound msg false.
(** An aborted operation with the subcode [kMemoryLimit]. *)
Definition Status_MemoryLimit : Status := mkStatus kAborted "" false.
Definition Status_TryAgain : Status := mkStatus kTryAgain "" false.
Definition Status_IOError (msg : string) : Status := mkStatus kIOError msg false.
Definition Status_ShutdownInProgress : Status := mkStatus kShutdownInProgress "" false.
(** [Status_Incomplete(SubCode::kManualCompactionPaused)] *)
Definition Status_ManualCompactionPaused : Status := mkStatus kIncomplete "" false.
Definition IOStatus_IOError (msg : string) : Status := mkStatus kIOError msg false.
Definition SetDataLoss (s : Status) (b : bool) : Status := mkStatus (code_ s) (state_ s) b.
Definition ok (s : Status) : bool := match code_ s with kOk => true | _ => false end.
Definition IsTryAgain (s : Status) : bool := match code_ s with kTryAgain => true | _ => false end.
Definition IsMergeInProgress (s : Status) : bool := match code_ s with kMergeInProgress => true | _ => false end.
Definition IsCorruption (s : Status) : bool := match code_ s with kCorruption => true | _ => false end.

#[global] Open Scope Z_scope.
