(* ===== verification/Slice.v ===== *)
(** * Slices

    [include/rocksdb/slice.h] and [util/slice.cc]: comparison, hexadecimal
    conversion and the built-in prefix extractors. A [Slice] is the byte
    sequence it refers to. *)

From S2P Require Import Prelude.

(** [memcmp(a, b, n)] of the C library: bytes compare as unsigned. Only the
    sign of its result is specified; the model returns -1, 0 or 1. *)
Fixpoint memcmp (n : nat) (a b : bytes) : Z :=
  match n, a, b with
  | S n, x :: a, y :: b => if x =? y then memcmp n a b else if x <? y then -1 else 1
  | _, _, _ => 0
  end.

Definition slice_eq (x y : bytes) : bool :=
  (Zlen x =? Zlen y) && (memcmp (length x) x y =? 0).

(** [Slice::compare] *)
Definition slice_compare (a b : bytes) : Z :=
  let min_len := if (length a <? length b)%nat then length a else length b in
  let r := memcmp min_len a b in
  if r =? 0 then
    if Zlen a <? Zlen b then -1 else if Zlen b <? Zlen a then 1 else r
  else r.

Definition starts_with (s x : bytes) : bool :=
  (Zlen x <=? Zlen s) && (memcmp (length x) s x =? 0).
Definition ends_with (s x : bytes) : bool :=
  (Zlen x <=? Zlen s) && (memcmp (length x) (zdrop (Zlen s - Zlen x) s) x =? 0).

(** The loop of [Slice::difference_offset]. *)
Fixpoint difference_offset (a b : bytes) : Z :=
  match a, b with
  | x :: a, y :: b => if x =? y then 1 + difference_offset a b else 0
  | _, _ => 0
  end.

(** ** Hexadecimal *)

Definition toHex (v : Z) : Z := if v <=? 9 then 48 + v else 65 + v - 10.

Definition fromHex (c : Z) : Z :=
  let c := if (97 <=? c) && (c <=? 102) then c - 32 else c in
  if (c <? 48) || ((57 <? c) && ((c <? 65) || (70 <? c))) then -1
  else if c <=? 57 then c - 48
  else c - 65 + 10.

(** [Slice::ToString] *)
Definition ToString (hex : bool) (s : bytes) : bytes :=
  if hex then concat (map (λ c, [toHex (Z.shiftr c 4); toHex (Z.land c 0xf)]) s) else s.

Fixpoint DecodeHex_loop (s : bytes) : option bytes :=
  match s with
  | c1 :: c2 :: s =>
      let h1 := fromHex (swrap 8 c1) in
      if h1 <? 0 then None
      else
        let h2 := fromHex (swrap 8 c2) in
        if h2 <? 0 then None
        else
          match DecodeHex_loop s with
          | Some r => Some (u8 (Z.lor (Z.shiftl h1 4) h2) :: r)
          | None => None
          end
  | _ => Some []
  end.
(** [Slice::DecodeHex]; [None] is [false]. *)
Definition DecodeHex (s : bytes) : option bytes :=
  if negb (Zlen s mod 2 =? 0) then None else DecodeHex_loop s.

(** ** Prefix extractors *)

Record SliceTransform := mkTransform {
  Transform : bytes → bytes;
  InDomain : bytes → bool;
  InRange : bytes → bool;
  FullLengthEnabled : option Z;
  SameResultWhenAppended : bytes → bool
}.

Definition NewFixedPrefixTransform (prefix_len : Z) : SliceTransform := {|
  Transform src := ztake prefix_len src;
  InDomain src := prefix_len <=? Zlen src;
  InRange dst := Zlen dst =? prefix_len;
  FullLengthEnabled := Some prefix_len;
  SameResultWhenAppended prefix := prefix_len <=? Zlen prefix
|}.

Definition NewCappedPrefixTransform (cap_len : Z) : SliceTransform := {|
  Transform src := ztake (Z.min cap_len (Zlen src)) src;
  InDomain _ := true;
  InRange dst := Zlen dst <=? cap_len;
  FullLengthEnabled := Some cap_len;
  SameResultWhenAppended prefix := cap_len <=? Zlen prefix
|}.

Definition NewNoopTransform : SliceTransform := {|
  Transform src := src;
  InDomain _ := true;
  InRange _ := true;
  FullLengthEnabled := None;
  SameResultWhenAppended _ := false
|}.

(** ** The order on slices *)

(** Lexicographic comparison, the reference. *)
Fixpoint lexcmp (a b : bytes) : Z :=
  match a, b with
  | [], [] => 0
  | [], _ :: _ => -1
  | _ :: _, [] => 1
  | x :: a, y :: b => if x =? y then lexcmp a b else if x <? y then -1 else 1
  end.

Lemma slice_compare_lex a b : slice_compare a b = lexcmp a b.
Proof.
  unfold slice_compare. revert b.
  induction a as [|x a IH]; intros [|y b]; [done..|]. cbn [length lexcmp].
  specialize (IH b). rewrite !Zlen_cons.
  replace (1 + Zlen a <? 1 + Zlen b) with (Zlen a <? Zlen b) by (unfold Zlen; lia).
  replace (1 + Zlen b <? 1 + Zlen a) with (Zlen b <? Zlen a) by (unfold Zlen; lia).
  replace (S (length a) <? S (length b))%nat with (length a <? length b)%nat by done.
  destruct (length a <? length b)%nat; cbn [memcmp]; destruct (x =? y); auto;
    by destruct (x <? y).
Qed.

Lemma lexcmp_refl a : lexcmp a a = 0.
Proof. induction a; cbn; [done|]. by rewrite Z.eqb_refl. Qed.
Lemma lexcmp_eq a b : lexcmp a b = 0 ↔ a = b.
Proof.
  split; [|intros ->; apply lexcmp_refl]. revert b.
  induction a as [|x a IH]; intros [|y b]; cbn; try done.
  destruct (Z.eqb_spec x y) as [->|]; [intros E; f_equal; auto|]. by destruct (x <? y).
Qed.
Lemma lexcmp_antisym a b : lexcmp b a = - lexcmp a b.
Proof.
  revert b. induction a as [|x a IH]; intros [|y b]; cbn; try done.
  rewrite Z.eqb_sym. destruct (Z.eqb_spec x y); [apply IH|].
  destruct (Z.ltb_spec x y), (Z.ltb_spec y x); lia.
Qed.
Lemma lexcmp_le_trans a b c : lexcmp a b <= 0 → lexcmp b c <= 0 → lexcmp a c <= 0.
Proof.
  revert b c. induction a as [|x a IH]; intros [|y b] [|z c]; cbn; try lia.
  destruct (Z.eqb_spec x y), (Z.eqb_spec y z), (Z.eqb_spec x z), (Z.ltb_spec x y),
    (Z.ltb_spec y z), (Z.ltb_spec x z); try lia; eauto.
Qed.
#[export] Instance lexcmp_order : CompareOrder (λ _ : bytes, True) lexcmp.
Proof.
  split; [intros a b _ _; rewrite lexcmp_antisym; lia|]. intros a b c _ _ _. apply lexcmp_le_trans.
Qed.
#[export] Instance slice_compare_order : CompareOrder (λ _ : bytes, True) slice_compare.
Proof.
  split; intros; rewrite ?slice_compare_lex in *; [rewrite lexcmp_antisym; lia|].
  by eapply lexcmp_le_trans.
Qed.

Lemma memcmp_prefix x s : memcmp (length x) s x = 0 → (length x <= length s)%nat → ∃ t, s = x ++ t.
Proof.
  revert s. induction x as [|a x IH]; intros [|b s]; cbn; intros; try lia; [by exists []|by eexists|].
  destruct (Z.eqb_spec b a) as [->|]; [|case_match; done].
  destruct (IH s) as [t ->]; [done|lia|]. by exists t.
Qed.
Lemma memcmp_app x t : memcmp (length x) (x ++ t) x = 0.
Proof. induction x; cbn; [done|]. by rewrite Z.eqb_refl. Qed.

Lemma slice_eq_spec a b : slice_eq a b = true ↔ a = b.
Proof.
  unfold slice_eq. rewrite andb_true_iff, !Z.eqb_eq. split.
  - intros [Hl Hm]. unfold Zlen in Hl. replace (length a) with (length b) in Hm by lia.
    destruct (memcmp_prefix b a Hm) as [t ->]; [lia|].
    rewrite length_app in Hl. destruct t; [by rewrite app_nil_r|cbn in Hl; lia].
  - intros ->. split; [done|]. rewrite <- (app_nil_r b) at 2. apply memcmp_app.
Qed.

Lemma starts_with_spec s x : starts_with s x = true ↔ ∃ t, s = x ++ t.
Proof.
  unfold starts_with. rewrite andb_true_iff, Z.leb_le, Z.eqb_eq. unfold Zlen. split.
  - intros [? ?]. apply memcmp_prefix; [done|lia].
  - intros [t ->]. rewrite length_app, memcmp_app. split; [lia|done].
Qed.

(** ** Prefix extractors keep groups of keys together

    What [ColumnFamilyOptions::prefix_extractor] asks of an extractor used with
    the bytewise order: the essential property (contiguity) and the recommended
    ones, and what [SameResultWhenAppended] promises. *)
Record PrefixExtractorLaws (t : SliceTransform) : Prop := {
  pe_contiguous : ∀ k1 k2 k3, slice_compare k1 k2 <= 0 → slice_compare k2 k3 <= 0 →
    InDomain t k1 = true → InDomain t k3 = true → Transform t k1 = Transform t k3 →
    InDomain t k2 = true ∧ Transform t k2 = Transform t k1;
  pe_prefix : ∀ k, InDomain t k = true → starts_with k (Transform t k) = true;
  pe_order : ∀ k1 k2, InDomain t k1 = true → InDomain t k2 = true → slice_compare k1 k2 <= 0 →
    slice_compare (Transform t k1) (Transform t k2) <= 0;
  pe_starts : ∀ k, InDomain t k = true → slice_compare (Transform t k) k <= 0;
  pe_idemp : ∀ k, InDomain t k = true →
    InDomain t (Transform t k) = true ∧ Transform t (Transform t k) = Transform t k;
  pe_range : ∀ k, InDomain t k = true → InRange t (Transform t k) = true;
  pe_appended : ∀ p s, SameResultWhenAppended t p = true →
    InDomain t (p ++ s) = true ∧ Transform t (p ++ s) = Transform t p
}.

Lemma lexcmp_take n a b : lexcmp a b <= 0 → lexcmp (take n a) (take n b) <= 0.
Proof.
  revert a b. induction n as [|n IH]; intros a b; [done|]. destruct a, b; cbn; try lia.
  destruct (_ =? _); [apply IH|done].
Qed.
Lemma lexcmp_take_l n a : lexcmp (take n a) a <= 0.
Proof.
  revert a. induction n as [|n IH]; intros [|x a]; cbn; try lia. by rewrite Z.eqb_refl.
Qed.
Lemma lexcmp_le_antisym a b : lexcmp a b <= 0 → lexcmp b a <= 0 → a = b.
Proof. intros. apply lexcmp_eq. pose proof (lexcmp_antisym a b). lia. Qed.
Lemma take_between n k1 k2 k3 : lexcmp k1 k2 <= 0 → lexcmp k2 k3 <= 0 →
  take n k1 = take n k3 → take n k2 = take n k1.
Proof.
  intros H1 H2 E. apply lexcmp_le_antisym; [rewrite E|]; by apply lexcmp_take.
Qed.

(** The laws of any extractor that takes the first [n] bytes of the keys whose
    prefix determines whether they are in the domain. *)
Lemma prefix_laws (t : SliceTransform) (n : nat) :
  (∀ k, InDomain t k = true → Transform t k = take n k) →
  (∀ k k', InDomain t k = true → take n k = take n k' → InDomain t k' = true) →
  (∀ k, InDomain t k = true → InRange t (take n k) = true) →
  (∀ p s, SameResultWhenAppended t p = true → InDomain t p = true ∧ take n (p ++ s) = take n p) →
  PrefixExtractorLaws t.
Proof.
  intros HT HD HR HA. split.
  - intros k1 k2 k3 H1 H2 D1 D3 E. rewrite !slice_compare_lex in *.
    rewrite (HT k1), (HT k3) in E by done.
    assert (take n k2 = take n k1) as E2 by (by apply (take_between n k1 k2 k3)).
    assert (InDomain t k2 = true) as D2 by (by apply (HD k1)). by rewrite !HT.
  - intros k Hk. rewrite starts_with_spec, HT by done. exists (drop n k). by rewrite take_drop.
  - intros k1 k2 D1 D2 H. rewrite !HT, !slice_compare_lex in * by done. by apply lexcmp_take.
  - intros k Hk. rewrite HT, slice_compare_lex by done. apply lexcmp_take_l.
  - intros k Hk. assert (take n (take n k) = take n k) as E by (rewrite take_take; f_equal; lia).
    assert (InDomain t (take n k) = true) by (by apply (HD k)). by rewrite (HT k), (HT (take n k)), E.
  - intros k Hk. rewrite HT by done. auto.
  - intros p s Hp. destruct (HA p s Hp) as [Hd E].
    assert (InDomain t (p ++ s) = true) by (by apply (HD p)). by rewrite !HT, E.
Qed.

(** The built-in prefix extractors satisfy, under the bytewise order, all
    that a prefix extractor must satisfy: keys with the same prefix are
    contiguous, prefixes are prefixes, preserve the order, start their group and
    are idempotent, and [SameResultWhenAppended] tells the truth. *)
Theorem builtin_prefix_extractors n : 0 <= n →
  PrefixExtractorLaws (NewFixedPrefixTransform n) ∧
  PrefixExtractorLaws (NewCappedPrefixTransform n) ∧
  PrefixExtractorLaws NewNoopTransform.
Proof.
  intros Hn. split_and!.
  - apply (prefix_laws _ (Z.to_nat n)); cbn; try done.
    + intros k k' Hk E. apply (f_equal length) in E. rewrite !length_take in E. unfold Zlen in *. lia.
    + intros k Hk. apply Z.leb_le in Hk. apply Z.eqb_eq. unfold Zlen in *. rewrite length_take. lia.
    + intros p s Hp. split; [done|]. unfold Zlen in *. rewrite take_app_le by lia. done.
  - apply (prefix_laws _ (Z.to_nat n)); cbn; try done.
    + intros k _. unfold ztake, Zlen. destruct (Z.min_spec n (Z.of_nat (length k))) as [[? ->]|[? ->]];
        [done|]. rewrite !take_ge by lia. done.
    + intros k _. apply Z.leb_le. unfold Zlen in *. rewrite length_take. lia.
    + intros p s Hp. split; [done|]. unfold Zlen in *. rewrite take_app_le by lia. done.
  - split; cbn; intros; rewrite ?slice_compare_lex in *; auto; try (by discriminate).
    + split; [done|]. subst. by apply lexcmp_le_antisym.
    + apply starts_with_spec. exists []. by rewrite app_nil_r.
    + by rewrite lexcmp_refl.
Qed.

Lemma builtin_prefix_extractors_witness : PrefixExtractorLaws (NewFixedPrefixTransform 3).
Proof. apply (builtin_prefix_extractors 3). lia. Defined.

(** ** Hexadecimal strings *)

Lemma fromHex_toHex v : 0 <= v < 16 → fromHex (swrap 8 (toHex v)) = v.
Proof.
  intros Hv. assert (v = 0 ∨ v = 1 ∨ v = 2 ∨ v = 3 ∨ v = 4 ∨ v = 5 ∨ v = 6 ∨ v = 7 ∨ v = 8 ∨ v = 9
    ∨ v = 10 ∨ v = 11 ∨ v = 12 ∨ v = 13 ∨ v = 14 ∨ v = 15) as Hc by lia.
  destruct_or! Hc; by subst v.
Qed.

Lemma nibbles c : is_u 8 c → 0 <= Z.shiftr c 4 < 16 ∧ 0 <= Z.land c 0xf < 16 ∧
  u8 (Z.lor (Z.shiftl (Z.shiftr c 4) 4) (Z.land c 0xf)) = c.
Proof.
  intros Hc. change 0xf with (Z.ones 4). split_and!.
  1,2: rewrite Z.shiftr_div_pow2 by lia; change (2 ^ 4) with 16; unfold is_u in *; zlia.
  1,2: rewrite Z.land_ones by lia; change (2 ^ 4) with 16; zlia.
  zbits.
Qed.

(** Decoding the hexadecimal form of a slice gives the slice back. *)
Theorem DecodeHex_ToString s : bytes_ok s → DecodeHex (ToString true s) = Some s.
Proof.
  intros Hs. unfold DecodeHex, ToString.
  assert (Zlen (concat (map (λ c, [toHex (Z.shiftr c 4); toHex (Z.land c 0xf)]) s)) = 2 * Zlen s) as ->.
  { induction s as [|c s IH]; [done|]. cbn. inversion Hs; subst. rewrite !Zlen_cons, IH by done. lia. }
  replace (negb (2 * Zlen s mod 2 =? 0)) with false by (rewrite Z.mul_comm, Z.mod_mul; done).
  induction Hs as [|c s Hc Hs IH]; [done|]. cbn [map concat app DecodeHex_loop].
  destruct (nibbles c Hc) as (H1 & H2 & H3). rewrite !fromHex_toHex by done.
  destruct (Z.ltb_spec (Z.shiftr c 4) 0); [lia|]. destruct (Z.ltb_spec (Z.land c 0xf) 0); [lia|].
  by rewrite IH, H3.
Qed.
Lemma DecodeHex_ToString_witness : DecodeHex (ToString true [0; 171; 255]) = Some [0; 171; 255].
Proof. apply DecodeHex_ToString. repeat constructor; by compute. Defined.
