(* ===== verification/Coding.v ===== *)
(** * Integer and string coding

    [util/coding.h] and the Rust routines it calls through the bridge
    ([src/coding.rs], [src/coding_lean.rs]). A [char* dst] the code writes
    through is the list of bytes written; a [Put...] routine returns the
    extended string. A [Slice* input] a [Get...] routine advances is returned
    with the value: [None] is the [false] (or [nullptr]) result, whose callers
    discard the input. *)

From S2P Require Import Prelude.

(** What an encoder promises to a decoder reading a longer input: decoding
    returns the value and exactly the bytes that follow it. *)
Class RoundTrip {A} (wf : A → Prop) (enc : A → bytes)
    (dec : bytes → option (A * bytes)) : Prop :=
  round_trip : ∀ a rest, wf a → dec (enc a ++ rest) = Some (a, rest).

(** ** Fixed width, little endian *)

Fixpoint le_bytes (n : nat) (z : Z) : bytes :=
  match n with
  | O => []
  | S n => u8 z :: le_bytes n (Z.shiftr z 8)
  end.

Fixpoint le_value (bs : bytes) : Z :=
  match bs with
  | [] => 0
  | b :: r => b + 256 * le_value r
  end.

Definition EncodeFixed16 (v : Z) : bytes := le_bytes 2 v.
Definition EncodeFixed32 (v : Z) : bytes := le_bytes 4 v.
Definition EncodeFixed64 (v : Z) : bytes := le_bytes 8 v.

(** The pointer variants read without bounds checking: the callers check. *)
Definition DecodeFixed16 (p : bytes) : Z := le_value (ztake 2 p).
Definition DecodeFixed32 (p : bytes) : Z := le_value (ztake 4 p).
Definition DecodeFixed64 (p : bytes) : Z := le_value (ztake 8 p).

Definition PutFixed16 (dst : bytes) (v : Z) : bytes := dst ++ EncodeFixed16 v.
Definition PutFixed32 (dst : bytes) (v : Z) : bytes := dst ++ EncodeFixed32 v.
Definition PutFixed64 (dst : bytes) (v : Z) : bytes := dst ++ EncodeFixed64 v.

Definition GetFixed16 (input : bytes) : option (Z * bytes) :=
  if Zlen input <? 2 then None else Some (DecodeFixed16 input, zdrop 2 input).
Definition GetFixed32 (input : bytes) : option (Z * bytes) :=
  if Zlen input <? 4 then None else Some (DecodeFixed32 input, zdrop 4 input).
Definition GetFixed64 (input : bytes) : option (Z * bytes) :=
  if Zlen input <? 8 then None else Some (DecodeFixed64 input, zdrop 8 input).

(** ** Variable length *)

Definition kMaxVarint64Length : Z := 10.

Definition EncodeVarint32 (v : Z) : bytes :=
  if v <? Z.shiftl 1 7 then [u8 v]
  else if v <? Z.shiftl 1 14 then [u8 (Z.lor v 128); u8 (Z.shiftr v 7)]
  else if v <? Z.shiftl 1 21 then
    [u8 (Z.lor v 128); u8 (Z.lor (Z.shiftr v 7) 128); u8 (Z.shiftr v 14)]
  else if v <? Z.shiftl 1 28 then
    [u8 (Z.lor v 128); u8 (Z.lor (Z.shiftr v 7) 128);
     u8 (Z.lor (Z.shiftr v 14) 128); u8 (Z.shiftr v 21)]
  else
    [u8 (Z.lor v 128); u8 (Z.lor (Z.shiftr v 7) 128);
     u8 (Z.lor (Z.shiftr v 14) 128); u8 (Z.lor (Z.shiftr v 21) 128);
     u8 (Z.shiftr v 28)].

(** The loop [while (v >= B)] of [EncodeVarint64]; [fuel] bounds the number
    of iterations, and [kMaxVarint64Length] of them are enough for 64 bits
    ([EncodeVarint64_unfold]). *)
Fixpoint EncodeVarint64_loop (fuel : nat) (v : Z) : bytes :=
  match fuel with
  | O => []
  | S fuel =>
      if v >=? 128 then Z.lor (Z.land v (128 - 1)) 128 :: EncodeVarint64_loop fuel (Z.shiftr v 7)
      else [u8 v]
  end.
Definition EncodeVarint64 (v : Z) : bytes :=
  EncodeVarint64_loop (Z.to_nat kMaxVarint64Length) v.

Definition PutVarint32 (dst : bytes) (v : Z) : bytes := dst ++ EncodeVarint32 v.
Definition PutVarint32Varint32 (dst : bytes) (v1 v2 : Z) : bytes :=
  dst ++ (EncodeVarint32 v1 ++ EncodeVarint32 v2).
Definition PutVarint32Varint32Varint32 (dst : bytes) (v1 v2 v3 : Z) : bytes :=
  dst ++ (EncodeVarint32 v1 ++ EncodeVarint32 v2 ++ EncodeVarint32 v3).
Definition PutVarint64 (dst : bytes) (v : Z) : bytes := dst ++ EncodeVarint64 v.
Definition PutVarint64Varint64 (dst : bytes) (v1 v2 : Z) : bytes :=
  dst ++ (EncodeVarint64 v1 ++ EncodeVarint64 v2).
Definition PutVarint32Varint64 (dst : bytes) (v1 v2 : Z) : bytes :=
  dst ++ (EncodeVarint32 v1 ++ EncodeVarint64 v2).
Definition PutVarint32Varint32Varint64 (dst : bytes) (v1 v2 v3 : Z) : bytes :=
  dst ++ (EncodeVarint32 v1 ++ EncodeVarint32 v2 ++ EncodeVarint64 v3).

(** [while shift <= last && p < limit] of the two varint readers, which differ
    in the width of the accumulator and in the last shift. The byte is read
    through a [c_char], hence sign extended. *)
Fixpoint varint_loop (w last shift result : Z) (p : bytes) : option (Z * bytes) :=
  match p with
  | [] => None
  | c :: p =>
      if shift <=? last then
        let byte := char_as_u w c in
        if Z.land byte 128 =? 0 then
          Some (Z.lor result (wrap w (Z.shiftl byte shift)), p)
        else
          varint_loop w last (shift + 7)
            (Z.lor result (wrap w (Z.shiftl (Z.land byte 127) shift))) p
      else None
  end.
Definition GetVarint64Ptr (p : bytes) : option (Z * bytes) := varint_loop 64 63 0 0 p.
Definition GetVarint32PtrFallback (p : bytes) : option (Z * bytes) := varint_loop 32 28 0 0 p.
Definition GetVarint32Ptr (p : bytes) : option (Z * bytes) :=
  match p with
  | c :: r =>
      let result := char_as_u 32 c in
      if Z.land result 128 =? 0 then Some (result, r) else GetVarint32PtrFallback p
  | [] => GetVarint32PtrFallback p
  end.

Definition GetVarint32 (input : bytes) : option (Z * bytes) := GetVarint32Ptr input.
Definition GetVarint64 (input : bytes) : option (Z * bytes) := GetVarint64Ptr input.

(** [VarintLength]: the loop counts the 7-bit groups. *)
Fixpoint VarintLength_loop (fuel : nat) (len v : Z) : Z :=
  match fuel with
  | O => len
  | S fuel => if v >=? 128 then VarintLength_loop fuel (len + 1) (Z.shiftr v 7) else len
  end.
Definition VarintLength (v : Z) : Z := VarintLength_loop (Z.to_nat kMaxVarint64Length) 1 v.

(** ** Zig-zag coding of signed integers *)

Definition i64ToZigzag (v : Z) : Z := Z.lxor (u64 (Z.shiftl (u64 v) 1)) (u64 (Z.shiftr v 63)).
Definition zigzagToI64 (n : Z) : Z := Z.lxor (i64 (Z.shiftr n 1)) (- Z.land n 1).

Definition PutVarsignedint64 (dst : bytes) (v : Z) : bytes :=
  dst ++ EncodeVarint64 (i64ToZigzag v).
Definition GetVarsignedint64Ptr (p : bytes) : option (Z * bytes) :=
  match GetVarint64Ptr p with
  | Some (u, q) => Some (zigzagToI64 u, q)
  | None => None
  end.
Definition GetVarsignedint64 (input : bytes) : option (Z * bytes) := GetVarsignedint64Ptr input.

(** ** Length-prefixed slices *)

Definition PutLengthPrefixedSlice (dst value : bytes) : bytes :=
  PutVarint32 dst (u32 (Zlen value)) ++ value.

Definition PutLengthPrefixedSliceParts_total (dst : bytes) (total_bytes : Z)
    (slice_parts : list bytes) : bytes :=
  let total_bytes := fold_left (λ n part, n + Zlen part) slice_parts total_bytes in
  fold_left (λ dst part, dst ++ part) slice_parts (PutVarint32 dst (u32 total_bytes)).
Definition PutLengthPrefixedSliceParts (dst : bytes) (slice_parts : list bytes) : bytes :=
  PutLengthPrefixedSliceParts_total dst 0 slice_parts.
Definition PutLengthPrefixedSlicePartsWithPadding (dst : bytes) (slice_parts : list bytes)
    (pad_sz : Z) : bytes :=
  PutLengthPrefixedSliceParts_total dst pad_sz slice_parts ++ replicate (Z.to_nat pad_sz) 0.

Definition GetLengthPrefixedSlice (input : bytes) : option (bytes * bytes) :=
  match GetVarint32 input with
  | Some (len, input) =>
      if Zlen input >=? len then Some (ztake len input, zdrop len input) else None
  | None => None
  end.

(** The [const char*] overload assumes well-formed data: it gives the varint
    reader five bytes and takes [len] bytes after it unchecked. *)
Definition GetLengthPrefixedSlice_ptr (data : bytes) : bytes :=
  match GetVarint32Ptr (ztake 5 data) with
  | Some (len, q) => ztake len (zdrop (Zlen (ztake 5 data) - Zlen q) data)
  | None => []
  end.

(** ** Lemmas: fixed width *)

Lemma length_le_bytes n z : length (le_bytes n z) = n.
Proof. revert z. induction n; intros; cbn; [done|]. by rewrite IHn. Qed.
Lemma Zlen_le_bytes n z : Zlen (le_bytes n z) = Z.of_nat n.
Proof. unfold Zlen. by rewrite length_le_bytes. Qed.
#[export] Hint Rewrite Zlen_le_bytes : bytes.

Lemma le_value_bytes n z : le_value (le_bytes n z) = z mod 2 ^ (8 * Z.of_nat n).
Proof.
  revert z. induction n as [|n IH]; intros z; [by rewrite Z.mod_1_r|].
  cbn [le_bytes le_value]. rewrite IH. unfold wrap.
  replace (8 * Z.of_nat (S n)) with (8 + 8 * Z.of_nat n) by lia.
  rewrite Z.pow_add_r, Z.shiftr_div_pow2 by lia.
  rewrite Z.rem_mul_r by (try apply Z.pow_nonzero; lia). lia.
Qed.

Lemma bytes_ok_le_bytes n z : bytes_ok (le_bytes n z).
Proof. revert z. induction n; intros; cbn; constructor; [by apply wrap_range|apply IHn]. Qed.
#[export] Hint Resolve bytes_ok_le_bytes : bytes.

Lemma le_value_range bs : bytes_ok bs → is_u (8 * Zlen bs) (le_value bs).
Proof.
  induction 1 as [|b bs Hb _ IH]; [by compute|].
  unfold is_u in *. cbn [le_value]. rewrite Zlen_cons.
  replace (8 * (1 + Zlen bs)) with (8 + 8 * Zlen bs) by lia.
  rewrite Z.pow_add_r by (pose proof (Zlen_nonneg bs); lia).
  change (2 ^ 8) with 256 in *. lia.
Qed.

Lemma le_bytes_value bs : bytes_ok bs → le_bytes (length bs) (le_value bs) = bs.
Proof.
  induction 1 as [|b bs Hb _ IH]; [done|]. cbn [length le_value le_bytes].
  unfold is_u in Hb. change (2 ^ 8) with 256 in Hb. f_equal.
  - unfold wrap. change (2 ^ 8) with 256. rewrite Z.mul_comm, Z.mod_add by lia.
    by apply Z.mod_small.
  - rewrite Z.shiftr_div_pow2 by lia. change (2 ^ 8) with 256.
    rewrite Z.mul_comm, Z.div_add, Z.div_small by lia. done.
Qed.

Lemma DecodeFixed16_Encode v rest : is_u 16 v → DecodeFixed16 (EncodeFixed16 v ++ rest) = v.
Proof.
  intros. unfold DecodeFixed16, EncodeFixed16.
  rewrite ztake_app, le_value_bytes by (by zsimp). by apply Z.mod_small.
Qed.
Lemma DecodeFixed32_Encode v rest : is_u 32 v → DecodeFixed32 (EncodeFixed32 v ++ rest) = v.
Proof.
  intros. unfold DecodeFixed32, EncodeFixed32.
  rewrite ztake_app, le_value_bytes by (by zsimp). by apply Z.mod_small.
Qed.
Lemma DecodeFixed64_Encode v rest : is_u 64 v → DecodeFixed64 (EncodeFixed64 v ++ rest) = v.
Proof.
  intros. unfold DecodeFixed64, EncodeFixed64.
  rewrite ztake_app, le_value_bytes by (by zsimp). by apply Z.mod_small.
Qed.

Lemma Zlen_EncodeFixed32 v : Zlen (EncodeFixed32 v) = 4.
Proof. done. Qed.
Lemma Zlen_EncodeFixed64 v : Zlen (EncodeFixed64 v) = 8.
Proof. done. Qed.
#[export] Hint Rewrite Zlen_EncodeFixed32 Zlen_EncodeFixed64 : bytes.
Lemma bytes_ok_EncodeFixed32 v : bytes_ok (EncodeFixed32 v).
Proof. apply bytes_ok_le_bytes. Qed.
Lemma bytes_ok_EncodeFixed64 v : bytes_ok (EncodeFixed64 v).
Proof. apply bytes_ok_le_bytes. Qed.
#[export] Hint Resolve bytes_ok_EncodeFixed32 bytes_ok_EncodeFixed64 : bytes.

#[export] Instance Fixed32_RoundTrip : RoundTrip (is_u 32) EncodeFixed32 GetFixed32.
Proof.
  intros v rest Hv. unfold GetFixed32. rewrite Zlen_app. zsimp.
  destruct (Z.ltb_spec (4 + Zlen rest) 4); [pose proof (Zlen_nonneg rest); lia|].
  by rewrite DecodeFixed32_Encode, zdrop_app by (done || by zsimp).
Qed.
#[export] Instance Fixed64_RoundTrip : RoundTrip (is_u 64) EncodeFixed64 GetFixed64.
Proof.
  intros v rest Hv. unfold GetFixed64. rewrite Zlen_app. zsimp.
  destruct (Z.ltb_spec (8 + Zlen rest) 8); [pose proof (Zlen_nonneg rest); lia|].
  by rewrite DecodeFixed64_Encode, zdrop_app by (done || by zsimp).
Qed.

(** ** Lemmas: varints *)

Lemma land_127 z : Z.land z 127 = z mod 128.
Proof. change 127 with (Z.ones 7). by rewrite Z.land_ones. Qed.

Lemma land_1 z : Z.land z 1 = z mod 2.
Proof. change 1 with (Z.ones 1). by rewrite Z.land_ones. Qed.

Lemma land_128_eqb z : (Z.land z 128 =? 0) = negb (Z.testbit z 7).
Proof.
  change 128 with (2 ^ 7). destruct (Z.testbit z 7) eqn:E; cbn.
  - apply Z.eqb_neq. intros H. apply (f_equal (λ x, Z.testbit x 7)) in H.
    rewrite Z.land_spec, E, Z.pow2_bits_true, Z.bits_0 in H by lia. done.
  - apply Z.eqb_eq. apply Z.bits_inj'. intros i Hi.
    rewrite Z.land_spec, Z.pow2_bits_eqb, Z.bits_0 by lia.
    destruct (Z.eqb_spec 7 i); subst; [by rewrite E|apply andb_false_r].
Qed.

Lemma swrap8 b : is_u 8 b → swrap 8 b = if b <? 128 then b else b - 256.
Proof.
  unfold is_u, swrap. change (2 ^ 8) with 256. change (2 ^ (8 - 1)) with 128. intros.
  destruct (Z.ltb_spec b 128).
  - rewrite Z.mod_small; lia.
  - rewrite <- (Z.mod_add _ (-1)) by lia. rewrite Z.mod_small; lia.
Qed.

Lemma char_low b w : 8 <= w → 0 <= b < 128 → char_as_u w b = b.
Proof.
  intros Hw Hb. unfold char_as_u. rewrite swrap8 by (unfold is_u; lia).
  destruct (Z.ltb_spec b 128); [|lia]. apply wrap_small.
  apply (is_u_mono 8); [unfold is_u; lia|lia].
Qed.

Lemma testbit7_small b : 0 <= b < 128 → Z.testbit b 7 = false.
Proof. intros. apply (testbit_above 7); [unfold is_u|]; lia. Qed.

Lemma testbit7_cont v : Z.testbit (v mod 128 + 128) 7 = true.
Proof.
  apply Z.testbit_true; [lia|]. change (2 ^ 7) with 128.
  pose proof (Z.mod_pos_bound v 128). rewrite <- (Z.mul_1_l 128) at 2.
  rewrite Z.div_add, Z.div_small by lia. done.
Qed.

Lemma char_cont w m : 8 <= w → 0 <= m < 128 →
  Z.testbit (char_as_u w (m + 128)) 7 = true ∧ Z.land (char_as_u w (m + 128)) 127 = m.
Proof.
  intros Hw Hm. unfold char_as_u. rewrite swrap8 by (unfold is_u; lia).
  destruct (Z.ltb_spec (m + 128) 128); [lia|]. split.
  - rewrite testbit_wrap by lia. destruct (Z.ltb_spec 7 w); [|lia]. cbn [andb].
    replace (m + 128 - 256) with (m + (-1) * 2 ^ 7) by lia.
    rewrite Z.testbit_true by lia. rewrite Z.div_add by lia.
    rewrite Z.div_small by (change (2 ^ 7) with 128; lia). done.
  - change 127 with (Z.ones 7). rewrite Z.land_ones by lia. unfold wrap.
    rewrite Z.mod_mod_divide.
    + change (2 ^ 7) with 128. rewrite <- (Z.mod_add _ 1) by lia.
      rewrite Z.mod_small; lia.
    + exists (2 ^ (w - 7)). rewrite <- Z.pow_add_r by lia. f_equal. lia.
Qed.

(** The bytes of a continued group: 7 low bits and the continuation flag. *)
Lemma lor_128 z : 0 <= z < 128 → Z.lor z 128 = z + 128.
Proof.
  intros. symmetry. apply Z.add_nocarry_lor, Z.bits_inj'. intros i Hi.
  rewrite Z.land_spec, Z.bits_0. change 128 with (2 ^ 7). rewrite Z.pow2_bits_eqb by lia.
  destruct (Z.eqb_spec 7 i); [|apply andb_false_r]. subst. by rewrite testbit7_small.
Qed.
Lemma cont_byte64 v : Z.lor (Z.land v (128 - 1)) 128 = v mod 128 + 128.
Proof.
  change (128 - 1) with 127. rewrite land_127. apply lor_128, Z.mod_pos_bound. lia.
Qed.
Lemma cont_byte32 v : 0 <= v → u8 (Z.lor v 128) = v mod 128 + 128.
Proof.
  intros. rewrite <- cont_byte64. change (128 - 1) with (Z.ones 7). change 128 with (2 ^ 7).
  apply Z.bits_inj'. intros i Hi. rewrite testbit_wrap, !Z.lor_spec, Z.land_spec by lia.
  rewrite testbit_ones, Z.pow2_bits_eqb by lia.
  destruct (Z.ltb_spec i 8), (Z.ltb_spec i 7), (Z.eqb_spec 7 i); try lia;
    cbn [andb orb]; rewrite ?andb_true_r, ?andb_false_r, ?orb_true_r; done.
Qed.

Lemma EncodeVarint64_loop_S f v :
  EncodeVarint64_loop (S f) v =
    if v >=? 128 then Z.lor (Z.land v (128 - 1)) 128 :: EncodeVarint64_loop f (Z.shiftr v 7)
    else [u8 v].
Proof. done. Qed.

(** Ten iterations are enough for every 64-bit value: the encoder unfolds to
    itself without its fuel. *)
Lemma EncodeVarint64_loop_fuel f f' v :
  0 <= v < 2 ^ (7 * Z.of_nat f) → 0 <= v < 2 ^ (7 * Z.of_nat f') →
  EncodeVarint64_loop f v = EncodeVarint64_loop f' v ∨ f = O ∨ f' = O.
Proof.
  revert f' v. induction f as [|f IH]; intros f' v Hv Hv'; [auto|].
  destruct f' as [|f']; [auto|]. left. cbn [EncodeVarint64_loop].
  destruct (Z.geb_spec v 128); [|done]. f_equal.
  assert (∀ k, 0 <= v < 2 ^ (7 * Z.of_nat (S k)) →
    0 <= Z.shiftr v 7 < 2 ^ (7 * Z.of_nat k) ∧ k ≠ O) as Hs.
  { intros k Hk. rewrite Z.shiftr_div_pow2 by lia. split; [split|].
    - apply Z.div_pos; lia.
    - apply Z.div_lt_upper_bound; [lia|]. rewrite <- Z.pow_add_r by lia.
      replace (7 + 7 * Z.of_nat k) with (7 * Z.of_nat (S k)) by lia. lia.
    - intros ->. change (2 ^ (7 * Z.of_nat 1)) with 128 in Hk. lia. }
  destruct (Hs f Hv), (Hs f' Hv'), (IH f' (Z.shiftr v 7)) as [?|[?|?]]; done.
Qed.

Lemma EncodeVarint64_unfold v : is_u 64 v →
  EncodeVarint64 v =
    if v >=? 128 then (v mod 128 + 128) :: EncodeVarint64 (Z.shiftr v 7) else [v].
Proof.
  intros Hv. unfold is_u in Hv. unfold EncodeVarint64 at 1.
  change (Z.to_nat kMaxVarint64Length) with 10%nat. rewrite EncodeVarint64_loop_S.
  destruct (Z.geb_spec v 128).
  - rewrite cont_byte64. f_equal.
    assert (0 <= Z.shiftr v 7 < 2 ^ 57).
    { rewrite Z.shiftr_div_pow2 by lia. split; [apply Z.div_pos; lia|].
      apply Z.div_lt_upper_bound; lia. }
    destruct (EncodeVarint64_loop_fuel 9 10 (Z.shiftr v 7)) as [E|[E|E]]; try done;
      change (7 * Z.of_nat 9) with 63; change (7 * Z.of_nat 10) with 70; lia.
  - f_equal. apply wrap_small. unfold is_u. lia.
Qed.

Lemma u8_small v : 0 <= v < 128 → u8 v = v.
Proof. intros. apply wrap_small. unfold is_u. lia. Qed.

Lemma shiftr7_range v n : 0 <= v < 2 ^ (n + 7) → 0 <= n → 0 <= Z.shiftr v 7 < 2 ^ n.
Proof.
  intros Hv Hn. rewrite Z.shiftr_div_pow2 by lia. split; [apply Z.div_pos; lia|].
  apply Z.div_lt_upper_bound; [lia|]. rewrite <- Z.pow_add_r by lia.
  replace (7 + n) with (n + 7) by lia. lia.
Qed.

(** The same, by division: [lia] decides the comparisons. *)
Lemma EncodeVarint64_div v : 0 <= v < 2 ^ 64 →
  EncodeVarint64 v = if v >=? 128 then (v mod 128 + 128) :: EncodeVarint64 (v / 128) else [v].
Proof. intros. rewrite EncodeVarint64_unfold by done. by rewrite Z.shiftr_div_pow2. Qed.

(** The unrolled 32-bit encoder and the 64-bit loop produce the same bytes. *)
Lemma EncodeVarint32_64 v : is_u 32 v → EncodeVarint32 v = EncodeVarint64 v.
Proof.
  unfold is_u, EncodeVarint32. intros Hv.
  rewrite !cont_byte32, !Z.shiftr_div_pow2 by (lia || (apply Z.shiftr_nonneg; lia)).
  change (2 ^ 7) with 128. change (2 ^ 14) with 16384. change (2 ^ 21) with 2097152.
  change (2 ^ 28) with 268435456. change (2 ^ 32) with 4294967296 in Hv.
  change (Z.shiftl 1 7) with 128. change (Z.shiftl 1 14) with 16384.
  change (Z.shiftl 1 21) with 2097152. change (Z.shiftl 1 28) with 268435456.
  unfold wrap. change (2 ^ 8) with 256.
  repeat match goal with |- context [v <? ?b] => destruct (Z.ltb_spec v b) end.
  all: repeat (match goal with |- context [EncodeVarint64 ?x] =>
                 rewrite (EncodeVarint64_div x) by zlia;
                 destruct (Z.geb_spec x 128); try zlia end).
  all: rewrite ?Z.div_div by lia.
  all: repeat (apply (f_equal2 cons); [zlia|]).
  all: reflexivity.
Qed.

(** The reader inverts the encoder from any accumulated prefix. *)
Lemma varint_loop_encode w last k v res rest :
  8 <= w <= 64 → w <= last + 7 → (7 | last) → is_u 64 v →
  0 <= k → 7 * k < w → 0 <= v < 2 ^ (w - 7 * k) →
  varint_loop w last (7 * k) res (EncodeVarint64 v ++ rest)
  = Some (Z.lor res (Z.shiftl v (7 * k)), rest).
Proof.
  intros Hw Hlast [q Hq] Hu Hk Hkw Hv. revert k res Hk Hkw Hv Hu.
  induction v as [v IH] using (well_founded_induction (Z.lt_wf 0)). intros.
  rewrite EncodeVarint64_unfold by done.
  destruct (Z.geb_spec v 128); cbn [app varint_loop];
    destruct (Z.leb_spec (7 * k) last); try lia; rewrite land_128_eqb.
  - pose proof (Z.mod_pos_bound v 128 ltac:(lia)).
    destruct (char_cont w (v mod 128)) as [-> ->]; [lia..|]. cbn [negb].
    assert (7 < w - 7 * k).
    { destruct (Z.le_gt_cases (w - 7 * k) 7) as [Hc|]; [|done].
      apply (Z.pow_le_mono_r 2) in Hc; [|lia]. change (2 ^ 7) with 128 in Hc. lia. }
    assert (0 <= Z.shiftr v 7 < 2 ^ (w - 7 * k - 7)) as Hr.
    { apply shiftr7_range; [|lia]. by replace (w - 7 * k - 7 + 7) with (w - 7 * k) by lia. }
    replace (7 * k + 7) with (7 * (k + 1)) by lia. rewrite IH; clear IH.
    + f_equal. f_equal. rewrite <- land_127. change 127 with (Z.ones 7).
      zbits.
    + rewrite Z.shiftr_div_pow2 by lia. change (2 ^ 7) with 128. zlia.
    + lia.
    + lia.
    + by replace (w - 7 * (k + 1)) with (w - 7 * k - 7) by lia.
    + by apply is_u_shiftr.
  - unfold is_u in Hu. rewrite char_low by lia. rewrite testbit7_small by lia. cbn [negb].
    f_equal. f_equal. rewrite wrap_small; [done|]. unfold is_u.
    rewrite Z.shiftl_mul_pow2 by lia. split; [lia|].
    replace w with ((w - 7 * k) + 7 * k) at 1 by lia. rewrite Z.pow_add_r by lia.
    apply Z.mul_lt_mono_pos_r; lia.
Qed.

#[export] Instance Varint64_RoundTrip : RoundTrip (is_u 64) EncodeVarint64 GetVarint64.
Proof.
  intros v rest Hv. unfold GetVarint64, GetVarint64Ptr.
  rewrite (varint_loop_encode 64 63 0) by (try done; try lia; by exists 9).
  by rewrite Z.lor_0_l, Z.shiftl_0_r.
Qed.

#[export] Instance Varint32_RoundTrip : RoundTrip (is_u 32) EncodeVarint32 GetVarint32.
Proof.
  intros v rest Hv. assert (is_u 64 v) as Hv' by (by apply (is_u_mono 32)).
  rewrite EncodeVarint32_64 by done.
  assert (GetVarint32PtrFallback (EncodeVarint64 v ++ rest) = Some (v, rest)) as Hf.
  { unfold GetVarint32PtrFallback.
    rewrite (varint_loop_encode 32 28 0) by (try done; try lia; by exists 4).
    by rewrite Z.lor_0_l, Z.shiftl_0_r. }
  revert Hf. rewrite EncodeVarint64_unfold by done. unfold GetVarint32, GetVarint32Ptr.
  unfold is_u in Hv. destruct (Z.geb_spec v 128); cbn [app]; intros Hf; rewrite land_128_eqb.
  - pose proof (Z.mod_pos_bound v 128 ltac:(lia)).
    destruct (char_cont 32 (v mod 128)) as [-> _]; [lia..|]. done.
  - rewrite char_low, testbit7_small by lia. done.
Qed.

Lemma zigzag_range v : - 2 ^ 63 <= v < 2 ^ 63 →
  i64ToZigzag v = if v <? 0 then - 2 * v - 1 else 2 * v.
Proof.
  intros Hv. unfold i64ToZigzag. rewrite Z.shiftl_mul_pow2, Z.shiftr_div_pow2 by lia.
  change (2 ^ 1) with 2. destruct (Z.ltb_spec v 0).
  - assert (v / 2 ^ 63 = -1) as -> by zlia. change (u64 (-1)) with (Z.ones 64).
    assert (u64 (u64 v * 2) = 2 ^ 64 + 2 * v) as ->.
    { unfold wrap. change (2 ^ 64) with 18446744073709551616 in *. zlia. }
    rewrite lxor_ones by (unfold is_u; lia). lia.
  - assert (v / 2 ^ 63 = 0) as -> by zlia. change (u64 0) with 0.
    rewrite Z.lxor_0_r, (wrap_small 64 v), wrap_small by (unfold is_u; lia). lia.
Qed.

Lemma i64ToZigzag_u64 v : - 2 ^ 63 <= v < 2 ^ 63 → is_u 64 (i64ToZigzag v).
Proof. intros. rewrite zigzag_range by done. unfold is_u. destruct (Z.ltb_spec v 0); lia. Qed.

Lemma zigzag_inverse v : - 2 ^ 63 <= v < 2 ^ 63 → zigzagToI64 (i64ToZigzag v) = v.
Proof.
  intros Hv. rewrite zigzag_range by done. unfold zigzagToI64.
  rewrite land_1. rewrite Z.shiftr_div_pow2 by lia. change (2 ^ 1) with 2.
  assert (∀ x, 0 <= x < 2 ^ 63 → i64 x = x) as Hi.
  { intros x Hx. unfold swrap. change (64 - 1) with 63. rewrite Z.mod_small; lia. }
  destruct (Z.ltb_spec v 0).
  - assert ((- 2 * v - 1) mod 2 = 1) as -> by zlia. rewrite Hi by zlia.
    rewrite Z.lxor_m1_r. unfold Z.lnot. zlia.
  - assert ((2 * v) mod 2 = 0) as -> by zlia. rewrite Hi by zlia.
    rewrite Z.lxor_0_r. zlia.
Qed.

(** A signed 64-bit value written in zig-zag varint form is read back by
    [GetVarsignedint64], with exactly the encoded bytes consumed. *)
Theorem GetVarsignedint64_Put v rest :
  - 2 ^ 63 <= v < 2 ^ 63 →
  GetVarsignedint64 (PutVarsignedint64 [] v ++ rest) = Some (v, rest).
Proof.
  intros Hv. unfold GetVarsignedint64, GetVarsignedint64Ptr, PutVarsignedint64. cbn [app].
  pose proof (round_trip (i64ToZigzag v) rest (i64ToZigzag_u64 v Hv)) as H.
  unfold GetVarint64 in H. by rewrite H, zigzag_inverse.
Qed.
Lemma GetVarsignedint64_Put_witness :
  - 2 ^ 63 <= -5 < 2 ^ 63 ∧
  GetVarsignedint64 (PutVarsignedint64 [] (-5) ++ [1; 2]) = Some (-5, [1; 2]).
Proof. split; [lia|]. apply GetVarsignedint64_Put. lia. Defined.

(** [VarintLength] is the length of the encoding. *)
Lemma VarintLength_loop_spec f n v : 0 <= v < 2 ^ (7 * Z.of_nat f) → (0 < f)%nat →
  VarintLength_loop f n v = n - 1 + Zlen (EncodeVarint64_loop f v).
Proof.
  revert n v. induction f as [|f IH]; intros n v Hv Hf; [lia|].
  cbn [VarintLength_loop EncodeVarint64_loop]. destruct (Z.geb_spec v 128); zsimp; [|lia].
  replace (7 * Z.of_nat (S f)) with (7 * Z.of_nat f + 7) in Hv by lia.
  rewrite IH; [lia|by apply shiftr7_range; [|lia]|].
  destruct f; [|lia]. cbn in Hv. lia.
Qed.
Lemma VarintLength_spec v : is_u 64 v → VarintLength v = Zlen (EncodeVarint64 v).
Proof.
  unfold is_u, VarintLength, EncodeVarint64. intros Hv.
  rewrite VarintLength_loop_spec; [lia| |vm_compute; lia].
  change (7 * _) with 70. lia.
Qed.

Lemma Zlen_EncodeVarint64_loop f v : 1 <= Zlen (EncodeVarint64_loop (S f) v) <= Z.of_nat (S f).
Proof.
  revert v. induction f as [|f IH]; intros v; rewrite EncodeVarint64_loop_S.
  - destruct (v >=? 128); zsimp; cbn; lia.
  - destruct (v >=? 128); zsimp; [|lia]. specialize (IH (Z.shiftr v 7)). lia.
Qed.
Lemma Zlen_EncodeVarint64 v : 1 <= Zlen (EncodeVarint64 v) <= 10.
Proof. apply (Zlen_EncodeVarint64_loop 9). Qed.
Lemma Zlen_EncodeVarint32 v : 1 <= Zlen (EncodeVarint32 v) <= 5.
Proof. unfold EncodeVarint32. repeat case_match; zsimp; lia. Qed.

Lemma bytes_ok_EncodeVarint64 v : bytes_ok (EncodeVarint64 v).
Proof.
  unfold EncodeVarint64. generalize (Z.to_nat kMaxVarint64Length) as f. intros f.
  revert v. induction f as [|f IH]; intros; [constructor|]. rewrite EncodeVarint64_loop_S.
  destruct (v >=? 128); constructor; try done.
  - rewrite cont_byte64. pose proof (Z.mod_pos_bound v 128). unfold is_u. lia.
  - apply IH.
  - by apply wrap_range.
Qed.
Lemma bytes_ok_EncodeVarint32 v : bytes_ok (EncodeVarint32 v).
Proof. unfold EncodeVarint32. repeat case_match; repeat constructor; by apply wrap_range. Qed.
#[export] Hint Resolve bytes_ok_EncodeVarint64 bytes_ok_EncodeVarint32 : bytes.

(** ** Lemmas: slices *)

#[export] Instance LengthPrefixedSlice_RoundTrip :
  RoundTrip (λ s, Zlen s < 2 ^ 32) (PutLengthPrefixedSlice []) GetLengthPrefixedSlice.
Proof.
  intros s rest Hs. pose proof (Zlen_nonneg s). pose proof (Zlen_nonneg rest).
  unfold PutLengthPrefixedSlice, PutVarint32, GetLengthPrefixedSlice. cbn [app].
  rewrite wrap_small by (unfold is_u; lia). rewrite <- app_assoc.
  rewrite round_trip by (unfold is_u; lia). zsimp.
  destruct (Z.geb_spec (Zlen s + Zlen rest) (Zlen s)); [|lia].
  by rewrite ztake_app, zdrop_app.
Qed.

Lemma PutLengthPrefixedSlice_app dst s :
  PutLengthPrefixedSlice dst s = dst ++ PutLengthPrefixedSlice [] s.
Proof. unfold PutLengthPrefixedSlice, PutVarint32. cbn [app]. by rewrite app_assoc. Qed.

Lemma fold_parts_length (l : list bytes) n : fold_left (λ n part, n + Zlen part) l n = n + Zlen (concat l).
Proof. revert n. induction l as [|x l IH]; intros n; cbn; zsimp; [lia|]. rewrite IH. lia. Qed.

(** Writing the parts of a value gives the encoding of their concatenation. *)
Lemma PutLengthPrefixedSliceParts_concat dst parts :
  PutLengthPrefixedSliceParts dst parts = PutLengthPrefixedSlice dst (concat parts).
Proof.
  unfold PutLengthPrefixedSliceParts, PutLengthPrefixedSliceParts_total, PutLengthPrefixedSlice.
  rewrite fold_parts_length.
  assert (∀ (l : list bytes) d, fold_left (λ d part, d ++ part) l d = d ++ concat l) as ->; [|done].
  induction l as [|x l IH]; intros d; cbn; [by rewrite app_nil_r|]. by rewrite IH, app_assoc.
Qed.

(** A reader gives back at most its input; and a reader of a prefix of its input
    either reads the same or fails, which it does only if it would have read
    beyond the prefix. *)
Class PrefixReader {A} (dec : bytes → option (A * bytes)) : Prop := {
  reader_le p x rest : dec p = Some (x, rest) → Zlen rest <= Zlen p;
  prefix_reader q t x rest : dec (q ++ t) = Some (x, rest) →
    (∃ rest', dec q = Some (x, rest') ∧ rest = rest' ++ t) ∨ (dec q = None ∧ Zlen rest < Zlen t)
}.

(** Readers that need a byte. *)
Lemma prefix_reader_intro {A} (dec : bytes → option (A * bytes)) : dec [] = None →
  (∀ q t x rest, dec (q ++ t) = Some (x, rest) →
    (∃ rest', dec q = Some (x, rest') ∧ rest = rest' ++ t) ∨ (dec q = None ∧ Zlen rest < Zlen t)) → PrefixReader dec.
Proof.
  intros E0 Hd. split; [|done]. intros p x rest E. destruct (Hd [] p x rest E) as [(? & ? & _)|[_ ?]]; [congruence|lia].
Qed.
Lemma prefix_reader_ret {A} (x : A) : PrefixReader (λ p, Some (x, p)).
Proof. split; [by intros p y rest [= _ <-]|]. intros q t y rest [= <- <-]. left. eauto. Qed.
Lemma prefix_reader_bind {A B} (d1 : bytes → option (A * bytes)) (d2 : A → bytes → option (B * bytes)) :
  PrefixReader d1 → (∀ x, PrefixReader (d2 x)) → PrefixReader (λ p, '(x, p) ← d1 p; d2 x p).
Proof.
  intros H1 H2. split.
  - intros p y rest. destruct (d1 p) as [[x p1]|] eqn:E; [|done]. cbn. intros E2.
    apply (reader_le (PrefixReader := H1)) in E. apply (reader_le (PrefixReader := H2 x)) in E2. lia.
  - intros q t y rest. cbn. destruct (d1 (q ++ t)) as [[x p]|] eqn:E; [|done]. cbn. intros E2.
    destruct (prefix_reader q t x p E) as [(p' & -> & ->)|[-> Hlt]]; cbn; [by apply prefix_reader|].
    right. split; [done|]. apply (reader_le (PrefixReader := H2 x)) in E2. lia.
Qed.

Lemma varint_loop_prefix w last q t : ∀ shift result v rest, varint_loop w last shift result (q ++ t) = Some (v, rest) →
  (∃ rest', varint_loop w last shift result q = Some (v, rest') ∧ rest = rest' ++ t) ∨
  (varint_loop w last shift result q = None ∧ Zlen rest < Zlen t).
Proof.
  induction q as [|c q IH]; intros shift result v rest; cbn [varint_loop app].
  - intros E. right. split; [done|]. revert shift result E. induction t as [|c t IH]; intros shift result; [done|].
    cbn [varint_loop]. rewrite Zlen_cons. destruct (shift <=? last); [|done].
    destruct (_ =? 0); [intros [= _ <-]; lia|intros E%IH; lia].
  - destruct (shift <=? last); [|done]. destruct (_ =? 0); [intros [= <- <-]; left; eauto|apply IH].
Qed.

#[export] Instance GetVarint32_prefix : PrefixReader GetVarint32.
Proof.
  apply prefix_reader_intro; [done|]. intros q t v rest. unfold GetVarint32, GetVarint32Ptr, GetVarint32PtrFallback. destruct q as [|c q].
  - cbn [app]. destruct t as [|c t]; [done|]. destruct (Z.land (char_as_u 32 c) 128 =? 0).
    + intros [= _ <-]. right. split; [done|]. rewrite Zlen_cons. lia.
    + apply (varint_loop_prefix 32 28 []).
  - cbn [app]. destruct (Z.land (char_as_u 32 c) 128 =? 0); [intros [= <- <-]; left; eauto|].
    apply (varint_loop_prefix 32 28 (c :: q)).
Qed.

#[export] Instance GetVarint64_prefix : PrefixReader GetVarint64.
Proof. apply prefix_reader_intro; [done|]. intros q t v rest. apply varint_loop_prefix. Qed.

#[export] Instance GetLengthPrefixedSlice_prefix : PrefixReader GetLengthPrefixedSlice.
Proof.
  apply prefix_reader_intro; [done|]. intros q t s rest. unfold GetLengthPrefixedSlice. destruct (GetVarint32 (q ++ t)) as [[len p]|] eqn:E; [|done].
  destruct (Z.geb_spec (Zlen p) len); [|done]. intros [= <- <-].
  destruct (prefix_reader q t len p E) as [(p' & -> & ->)|[-> Hlt]].
  - rewrite Zlen_app in *. destruct (Z.geb_spec (Zlen p') len).
    + left. rewrite ztake_app_le, zdrop_app_le by lia. eauto.
    + right. split; [done|]. rewrite zdrop_app_ge by lia. rewrite Zlen_zdrop by lia. lia.
  - right. split; [done|]. pose proof (ztake_zdrop len p) as Hp. apply (f_equal Zlen) in Hp. rewrite Zlen_app in Hp.
    pose proof (Zlen_nonneg (ztake len p)). lia.
Qed.

(** The fast path is the first turn of the loop. *)
Lemma GetVarint32Ptr_fallback p : GetVarint32Ptr p = GetVarint32PtrFallback p.
Proof.
  destruct p as [|c p]; [done|]. unfold GetVarint32Ptr, GetVarint32PtrFallback. cbn [varint_loop Z.leb Z.compare].
  destruct (Z.land (char_as_u 32 c) 128 =? 0); [|done]. unfold char_as_u. rewrite Z.shiftl_0_r, Z.lor_0_l.
  by rewrite wrap_idemp by lia.
Qed.

(** C38: variable length integers and length-prefixed slices are read back, and
    what follows them is left: the unrolled 32-bit encoder and the looping 64-bit
    one agree, [VarintLength] is the length they produce (at most 10 bytes), and
    the fast path of the 32-bit decoder agrees with its fallback, on what the
    encoder writes and on every other input. *)
Theorem varint_round_trips v s rest input : is_u 64 v → is_u 32 (Zlen s) →
  GetVarint64 (EncodeVarint64 v ++ rest) = Some (v, rest) ∧
  VarintLength v = Zlen (EncodeVarint64 v) ∧ 1 <= Zlen (EncodeVarint64 v) <= kMaxVarint64Length ∧
  (is_u 32 v → EncodeVarint32 v = EncodeVarint64 v ∧
               GetVarint32 (EncodeVarint32 v ++ rest) = Some (v, rest) ∧
               GetVarint32PtrFallback (EncodeVarint32 v ++ rest) = Some (v, rest) ∧
               1 <= Zlen (EncodeVarint32 v) <= 5) ∧
  GetVarint32Ptr input = GetVarint32PtrFallback input ∧
  GetLengthPrefixedSlice (PutLengthPrefixedSlice [] s ++ rest) = Some (s, rest).
Proof.
  intros Hv Hs. split_and!.
  - by apply round_trip.
  - by apply VarintLength_spec.
  - apply Zlen_EncodeVarint64.
  - apply Zlen_EncodeVarint64.
  - intros Hv32. split_and!; [by apply EncodeVarint32_64|by apply round_trip| |apply Zlen_EncodeVarint32..].
    rewrite <- GetVarint32Ptr_fallback. by apply (round_trip (dec := GetVarint32)).
  - apply GetVarint32Ptr_fallback.
  - apply round_trip. apply Hs.
Qed.
Lemma varint_round_trips_witness :
  GetVarint64 (EncodeVarint64 18446744073709551615 ++ [7]) = Some (18446744073709551615, [7]) ∧
  GetVarint32PtrFallback (EncodeVarint32 300 ++ [7]) = Some (300, [7]).
Proof.
  split; [apply (varint_round_trips 18446744073709551615 [1; 2] [7] []); by compute|].
  apply (varint_round_trips 300 [1; 2] [7] []); by compute.
Defined.
