(* ===== verification/Comparator.v ===== *)
(** * Comparators

    [include/rocksdb/comparator.h] and [util/comparator.cc]: the bytewise
    comparators and the comparator with 64-bit timestamps. A comparator is a
    record of its virtual methods; [ComparatorLaws] states what the rest of the
    engine relies on, and each built-in comparator is proved to provide it. *)

From S2P Require Import Prelude Slice Coding.

Record Comparator := mkComparator {
  Compare : bytes → bytes → Z;
  Equal : bytes → bytes → bool;
  FindShortestSeparator : bytes → bytes → bytes;
  FindShortSuccessor : bytes → bytes;
  IsSameLengthImmediateSuccessor : bytes → bytes → bool;
  CanKeysWithDifferentByteContentsBeEqual : bool;
  timestamp_size : Z;
  CompareTimestamp : bytes → bytes → Z;
  (** [CompareWithoutTimestamp(a, a_has_ts, b, b_has_ts)] *)
  CompareWithoutTimestamp4 : bytes → bool → bytes → bool → Z;
  EqualWithoutTimestamp : bytes → bytes → bool
}.

Definition CompareWithoutTimestamp (c : Comparator) (a b : bytes) : Z :=
  CompareWithoutTimestamp4 c a true b true.

(** ** Bytewise order *)

(** [start[i]++; start.resize(i + 1)] *)
Definition increment_at (s : bytes) (i : Z) : bytes := ztake i s ++ [u8 (znth s i + 1)].

(** The search for a byte below 0xff from index [i] on. *)
Fixpoint skip_ff_loop (fuel : nat) (start : bytes) (i : Z) : bytes :=
  match fuel with
  | O => start
  | S fuel =>
      if i <? Zlen start then
        if znth start i <? 0xff then increment_at start i else skip_ff_loop fuel start (i + 1)
      else start
  end.

Definition Bytewise_FindShortestSeparator (start limit : bytes) : bytes :=
  let min_length := Z.min (Zlen start) (Zlen limit) in
  let diff_index := difference_offset start limit in
  if min_length <=? diff_index then start
  else
    let start_byte := znth start diff_index in
    let limit_byte := znth limit diff_index in
    if limit_byte <=? start_byte then start
    else if (diff_index <? Zlen limit - 1) || (start_byte + 1 <? limit_byte) then
      increment_at start diff_index
    else skip_ff_loop (length start) start (diff_index + 1).

Fixpoint FindShortSuccessor_loop (fuel : nat) (key : bytes) (i : Z) : bytes :=
  match fuel with
  | O => key
  | S fuel =>
      if i <? Zlen key then
        let byte := znth key i in
        if negb (byte =? 0xff) then increment_at key i else FindShortSuccessor_loop fuel key (i + 1)
      else key
  end.
Definition Bytewise_FindShortSuccessor (key : bytes) : bytes :=
  FindShortSuccessor_loop (length key) key 0.

Definition Bytewise_IsSameLengthImmediateSuccessor (s t : bytes) : bool :=
  if negb (Zlen s =? Zlen t) || (Zlen s =? 0) then false
  else
    let diff_ind := difference_offset s t in
    if Zlen s <=? diff_ind then false
    else
      let byte_s := znth s diff_ind in
      let byte_t := znth t diff_ind in
      if negb (byte_s =? 0xff) && (byte_s + 1 =? byte_t) then
        forallb (λ b, b =? 0xff) (zdrop (diff_ind + 1) s) && forallb (λ b, b =? 0) (zdrop (diff_ind + 1) t)
      else false.

Definition BytewiseComparator : Comparator := {|
  Compare := slice_compare;
  Equal := slice_eq;
  FindShortestSeparator := Bytewise_FindShortestSeparator;
  FindShortSuccessor := Bytewise_FindShortSuccessor;
  IsSameLengthImmediateSuccessor := Bytewise_IsSameLengthImmediateSuccessor;
  CanKeysWithDifferentByteContentsBeEqual := false;
  timestamp_size := 0;
  CompareTimestamp _ _ := 0;
  CompareWithoutTimestamp4 a _ b _ := slice_compare a b;
  EqualWithoutTimestamp := slice_eq
|}.

Definition Reverse_FindShortestSeparator (start limit : bytes) : bytes :=
  let min_length := Z.min (Zlen start) (Zlen limit) in
  let diff_index := difference_offset start limit in
  if diff_index =? min_length then start
  else
    let start_byte := znth start diff_index in
    let limit_byte := znth limit diff_index in
    if (limit_byte <? start_byte) && (diff_index <? Zlen start - 1) then ztake (diff_index + 1) start
    else start.

(** [ReverseBytewiseComparatorImpl] inherits [Equal] and [EqualWithoutTimestamp]. *)
Definition ReverseBytewiseComparator : Comparator := {|
  Compare a b := - slice_compare a b;
  Equal := slice_eq;
  FindShortestSeparator := Reverse_FindShortestSeparator;
  FindShortSuccessor key := key;
  IsSameLengthImmediateSuccessor _ _ := false;
  CanKeysWithDifferentByteContentsBeEqual := false;
  timestamp_size := 0;
  CompareTimestamp _ _ := 0;
  CompareWithoutTimestamp4 a _ b _ := - slice_compare a b;
  EqualWithoutTimestamp := slice_eq
|}.

(** ** 64-bit timestamps *)

(** [db/dbformat.h] *)
Definition StripTimestampFromUserKey (user_key : bytes) (ts_sz : Z) : bytes :=
  ztake (Zlen user_key - ts_sz) user_key.
Definition ExtractTimestampFromUserKey (user_key : bytes) (ts_sz : Z) : bytes :=
  zdrop (Zlen user_key - ts_sz) user_key.

Definition U64Ts_CompareTimestamp (ts1 ts2 : bytes) : Z :=
  let lhs := DecodeFixed64 ts1 in
  let rhs := DecodeFixed64 ts2 in
  if lhs <? rhs then -1 else if rhs <? lhs then 1 else 0.

Definition U64Ts_CompareWithoutTimestamp (cmp_without_ts_ : Comparator) (a : bytes) (a_has_ts : bool)
    (b : bytes) (b_has_ts : bool) : Z :=
  let ts_sz := 8 in
  let lhs := if a_has_ts then StripTimestampFromUserKey a ts_sz else a in
  let rhs := if b_has_ts then StripTimestampFromUserKey b ts_sz else b in
  Compare cmp_without_ts_ lhs rhs.

Definition U64Ts_Compare (cmp_without_ts_ : Comparator) (a b : bytes) : Z :=
  let ret := U64Ts_CompareWithoutTimestamp cmp_without_ts_ a true b true in
  let ts_sz := 8 in
  if negb (ret =? 0) then ret
  else - U64Ts_CompareTimestamp (ExtractTimestampFromUserKey a ts_sz)
           (ExtractTimestampFromUserKey b ts_sz).

(** [ComparatorWithU64TsImpl<TComparator>]; [Equal], [EqualWithoutTimestamp] and
    [IsSameLengthImmediateSuccessor] are the defaults of [Comparator]. *)
Definition ComparatorWithU64Ts (cmp_without_ts_ : Comparator) : Comparator := {|
  Compare := U64Ts_Compare cmp_without_ts_;
  Equal a b := U64Ts_Compare cmp_without_ts_ a b =? 0;
  FindShortestSeparator start _ := start;
  FindShortSuccessor key := key;
  IsSameLengthImmediateSuccessor _ _ := false;
  CanKeysWithDifferentByteContentsBeEqual := true;
  timestamp_size := 8;
  CompareTimestamp := U64Ts_CompareTimestamp;
  CompareWithoutTimestamp4 := U64Ts_CompareWithoutTimestamp cmp_without_ts_;
  EqualWithoutTimestamp a b := 0 =? U64Ts_CompareWithoutTimestamp cmp_without_ts_ a true b true
|}.

Definition BytewiseComparatorWithU64Ts : Comparator := ComparatorWithU64Ts BytewiseComparator.

(** ** What the engine relies on

    On the keys that satisfy [wf]: a total preorder, [Equal] consistent with it,
    separators and successors in their intervals and no longer than the key;
    without their timestamps the keys are still ordered, more coarsely. *)
Class ComparatorLaws (wf : bytes → Prop) (c : Comparator) : Prop := {
  cl_order :: CompareOrder wf (Compare c);
  cl_equal : ∀ a b, wf a → wf b → Equal c a b = (Compare c a b =? 0);
  cl_separator : ∀ start limit, wf start → wf limit → Compare c start limit < 0 →
    let s := FindShortestSeparator c start limit in
    wf s ∧ Compare c start s <= 0 ∧ Compare c s limit < 0 ∧ Zlen s <= Zlen start;
  cl_successor : ∀ key, wf key →
    let s := FindShortSuccessor c key in wf s ∧ Compare c key s <= 0 ∧ Zlen s <= Zlen key;
  cl_no_ts : CompareOrder wf (CompareWithoutTimestamp c);
  cl_no_ts_coarser : ∀ a b, wf a → wf b → CompareWithoutTimestamp c a b < 0 → Compare c a b < 0;
  cl_no_ts_plain : timestamp_size c = 0 → ∀ a b, CompareWithoutTimestamp c a b = Compare c a b;
  cl_equal_no_ts : ∀ a b, wf a → wf b →
    EqualWithoutTimestamp c a b = (CompareWithoutTimestamp c a b =? 0);
  cl_ts_size : ∀ a, wf a → 0 <= timestamp_size c <= Zlen a;
  (** the order is that of the keys without timestamps, then newest first *)
  cl_decompose : ∀ a b, wf a → wf b → CompareWithoutTimestamp c a b = 0 →
    Compare c a b = - CompareTimestamp c (ExtractTimestampFromUserKey a (timestamp_size c))
                        (ExtractTimestampFromUserKey b (timestamp_size c))
}.

(** ** Separators and successors *)

Lemma difference_offset_cases a b :
  (difference_offset a b = Z.min (Zlen a) (Zlen b)) ∨
  ∃ c x a' y b', a = c ++ x :: a' ∧ b = c ++ y :: b' ∧ x ≠ y ∧ difference_offset a b = Zlen c.
Proof.
  revert b. induction a as [|x a IH]; intros [|y b]; try (left; cbn; unfold Zlen; cbn; lia).
  cbn [difference_offset]. destruct (Z.eqb_spec x y) as [->|Hne].
  - destruct (IH b) as [E|(c & x' & a' & y' & b' & -> & -> & Hne & E)].
    + left. rewrite E, !Zlen_cons. lia.
    + right. exists (y :: c), x', a', y', b'. rewrite E, Zlen_cons. split_and!; try done.
  - right. by exists [], x, a, y, b.
Qed.

Lemma lexcmp_app c a b : lexcmp (c ++ a) (c ++ b) = lexcmp a b.
Proof. induction c; cbn; [done|]. by rewrite Z.eqb_refl. Qed.

Lemma znth_mid c x l : znth (c ++ x :: l) (Zlen c) = x.
Proof. rewrite znth_app_r by lia. by rewrite Z.sub_diag. Qed.

Lemma increment_at_mid c x l : 0 <= x < 255 → increment_at (c ++ x :: l) (Zlen c) = c ++ [x + 1].
Proof.
  intros. unfold increment_at. rewrite znth_mid, ztake_app by done.
  by rewrite wrap_small by (unfold is_u; lia).
Qed.

(** Incrementing the first byte below 0xff. *)
Fixpoint inc_first (a : bytes) : bytes :=
  match a with
  | [] => []
  | x :: a => if x <? 0xff then [x + 1] else x :: inc_first a
  end.

Lemma inc_first_spec a : bytes_ok a →
  bytes_ok (inc_first a) ∧ lexcmp a (inc_first a) <= 0 ∧ Zlen (inc_first a) <= Zlen a.
Proof.
  induction 1 as [|x a Hx Ha (IH1 & IH2 & IH3)]; [split_and!; [constructor|done..]|]. cbn [inc_first].
  unfold is_u in Hx. destruct (Z.ltb_spec x 0xff).
  - pose proof (Zlen_nonneg a). split_and!; [|cbn|unfold Zlen; cbn [length]; lia].
    + repeat constructor; unfold is_u; lia.
    + destruct (Z.eqb_spec x (x + 1)); [lia|]. destruct (Z.ltb_spec x (x + 1)); lia.
  - split_and!; [by constructor|cbn; by rewrite Z.eqb_refl|rewrite !Zlen_cons; lia].
Qed.

Lemma skip_ff_loop_spec fuel c a : bytes_ok a → (length a <= fuel)%nat →
  skip_ff_loop fuel (c ++ a) (Zlen c) = c ++ inc_first a.
Proof.
  revert c a. induction fuel as [|fuel IH]; intros c a Ha Hf.
  - destruct a; [by cbn|cbn in Hf; lia].
  - cbn [skip_ff_loop]. destruct a as [|x a]; [cbn [inc_first]; by rewrite !app_nil_r, Z.ltb_irrefl|].
    rewrite Zlen_app, Zlen_cons. pose proof (Zlen_nonneg a). inversion Ha as [|? ? Hx Ha']; subst.
    destruct (Z.ltb_spec (Zlen c) (Zlen c + (1 + Zlen a))); [|lia].
    rewrite znth_mid. cbn [inc_first]. unfold is_u in Hx. destruct (Z.ltb_spec x 0xff).
    + by rewrite increment_at_mid by lia.
    + replace (c ++ x :: a) with ((c ++ [x]) ++ a) by (by rewrite <- app_assoc).
      replace (Zlen c + 1) with (Zlen (c ++ [x])) by (rewrite Zlen_app; done).
      cbn in Hf. rewrite IH by (done || lia). by rewrite <- app_assoc.
Qed.

Lemma FindShortSuccessor_loop_skip fuel key i : bytes_ok key → 0 <= i →
  FindShortSuccessor_loop fuel key i = skip_ff_loop fuel key i.
Proof.
  intros Hk. revert i. induction fuel as [|fuel IH]; intros i Hi; [done|].
  cbn [FindShortSuccessor_loop skip_ff_loop]. destruct (Z.ltb_spec i (Zlen key)) as [Hlt|]; [|done].
  pose proof (is_u_znth key i Hk) as Hz. unfold is_u in Hz. rewrite IH by lia.
  destruct (Z.eqb_spec (znth key i) 0xff), (Z.ltb_spec (znth key i) 0xff); cbn; done || lia.
Qed.

Lemma Bytewise_separator start limit : bytes_ok start → bytes_ok limit → lexcmp start limit < 0 →
  let s := Bytewise_FindShortestSeparator start limit in
  bytes_ok s ∧ lexcmp start s <= 0 ∧ lexcmp s limit < 0 ∧ Zlen s <= Zlen start.
Proof.
  intros Hs Hl Hlt. cbv zeta. unfold Bytewise_FindShortestSeparator.
  destruct (difference_offset_cases start limit) as [->|(c & x & a & y & b & -> & -> & Hne & ->)].
  { rewrite Z.leb_refl. rewrite lexcmp_refl. split_and!; done || lia. }
  rewrite !Zlen_app, !Zlen_cons, !znth_mid, lexcmp_app in *.
  pose proof (Zlen_nonneg a). pose proof (Zlen_nonneg b).
  apply bytes_ok_app in Hs as [Hc Hs]. apply bytes_ok_app in Hl as [_ Hl].
  inversion Hs as [|? ? Hx Ha]; inversion Hl as [|? ? Hy Hb]; subst. unfold is_u in Hx, Hy.
  destruct (Z.leb_spec (Z.min (Zlen c + (1 + Zlen a)) (Zlen c + (1 + Zlen b))) (Zlen c)); [lia|].
  cbn [lexcmp] in Hlt. destruct (Z.eqb_spec x y); [done|]. destruct (Z.ltb_spec x y); [|lia].
  destruct (Z.leb_spec y x); [lia|].
  destruct ((Zlen c <? Zlen c + (1 + Zlen b) - 1) || (x + 1 <? y)) eqn:E.
  - rewrite increment_at_mid, !lexcmp_app, Zlen_app, Zlen_cons by lia. change (Zlen []) with 0. cbn [lexcmp].
    split_and!; [| | |lia].
    + apply bytes_ok_app. split; [done|]. repeat constructor; unfold is_u; lia.
    + destruct (Z.eqb_spec x (x + 1)), (Z.ltb_spec x (x + 1)); lia.
    + destruct (Z.eqb_spec (x + 1) y), (Z.ltb_spec (x + 1) y); try lia.
      destruct b; [change (Zlen []) with 0 in E; lia|done].
  - replace (c ++ x :: a) with ((c ++ [x]) ++ a) by (by rewrite <- app_assoc).
    replace (Zlen c + 1) with (Zlen (c ++ [x])) by (rewrite Zlen_app; done).
    rewrite skip_ff_loop_spec by (try done; rewrite length_app; lia).
    destruct (inc_first_spec a Ha) as (? & ? & ?). rewrite <- !app_assoc, !lexcmp_app. cbn [app lexcmp].
    rewrite ?Z.eqb_refl. destruct (Z.eqb_spec x y); [done|]. destruct (Z.ltb_spec x y); [|lia].
    rewrite Zlen_app, Zlen_cons. split_and!; try lia. apply bytes_ok_app. split; [done|by constructor].
Qed.

Lemma Bytewise_successor key : bytes_ok key →
  let s := Bytewise_FindShortSuccessor key in bytes_ok s ∧ lexcmp key s <= 0 ∧ Zlen s <= Zlen key.
Proof.
  intros Hk. cbv zeta. unfold Bytewise_FindShortSuccessor.
  rewrite FindShortSuccessor_loop_skip by done. rewrite (skip_ff_loop_spec _ [] key) by done.
  by apply inc_first_spec.
Qed.

Lemma Reverse_separator start limit : bytes_ok start → 0 < lexcmp start limit →
  let s := Reverse_FindShortestSeparator start limit in
  bytes_ok s ∧ 0 <= lexcmp start s ∧ 0 < lexcmp s limit ∧ Zlen s <= Zlen start.
Proof.
  intros Hs Hlt. cbv zeta. unfold Reverse_FindShortestSeparator.
  destruct (difference_offset_cases start limit) as [->|(c & x & a & y & b & -> & -> & Hne & ->)].
  { rewrite Z.eqb_refl, lexcmp_refl. split_and!; done || lia. }
  rewrite !Zlen_app, !Zlen_cons, !znth_mid, lexcmp_app in *.
  pose proof (Zlen_nonneg a). pose proof (Zlen_nonneg b). apply bytes_ok_app in Hs as [Hc Hs].
  inversion Hs as [|? ? Hx Ha]; subst.
  destruct (Z.eqb_spec (Zlen c) (Z.min (Zlen c + (1 + Zlen a)) (Zlen c + (1 + Zlen b)))); [lia|].
  destruct ((y <? x) && _) eqn:E.
  - apply andb_true_iff in E as [E _]. apply Z.ltb_lt in E.
    replace (c ++ x :: a) with ((c ++ [x]) ++ a) by (by rewrite <- app_assoc).
    rewrite ztake_app by (rewrite Zlen_app; done).
    assert (lexcmp ((c ++ [x]) ++ a) (c ++ [x]) = lexcmp a []) as ->.
    { rewrite <- (app_nil_r (c ++ [x])) at 2. apply lexcmp_app. }
    rewrite lexcmp_app, Zlen_app. cbn [lexcmp].
    destruct (Z.eqb_spec x y); [lia|]. destruct (Z.ltb_spec x y); [lia|].
    change (Zlen [x]) with 1. split_and!; [apply bytes_ok_app; split; [done|constructor; [done|constructor]]| |lia..].
    destruct a; cbn; lia.
  - rewrite lexcmp_refl, lexcmp_app. split_and!; try lia; [by apply bytes_ok_app|].
    rewrite Zlen_app, Zlen_cons. lia.
Qed.

Lemma slice_eq_compare a b : slice_eq a b = (slice_compare a b =? 0).
Proof.
  apply eq_true_iff_eq. rewrite slice_eq_spec, Z.eqb_eq, slice_compare_lex. by rewrite lexcmp_eq.
Qed.

(** ** The built-in comparators keep their promises *)

Lemma order_weaken {A} (wf wf' : A → Prop) cmp : (∀ a, wf' a → wf a) → CompareOrder wf cmp →
  CompareOrder wf' cmp.
Proof. intros H []. split; eauto. Qed.
Lemma order_opp {A} (wf : A → Prop) cmp : CompareOrder wf cmp → CompareOrder wf (λ a b, - cmp a b).
Proof.
  intros Ho. split.
  - intros a b Ha Hb. pose proof (cmp_antisym a b Ha Hb). lia.
  - intros a b c Ha Hb Hc H1 H2.
    assert (cmp c a <= 0); [|pose proof (cmp_antisym a c Ha Hc); lia].
    apply (cmp_le_trans c b a); try done; [pose proof (cmp_antisym b c Hb Hc)|pose proof (cmp_antisym a b Ha Hb)]; lia.
Qed.
Lemma order_map {A B} (wf : A → Prop) (wf' : B → Prop) (f : A → B) cmp : (∀ a, wf a → wf' (f a)) →
  CompareOrder wf' cmp → CompareOrder wf (λ a b, cmp (f a) (f b)).
Proof. intros H []. split; intros; eauto. Qed.

(** Lexicographic combination of two orders. *)
Lemma order_lex {A} (wf : A → Prop) (c1 c2 : A → A → Z) : CompareOrder wf c1 → CompareOrder wf c2 →
  CompareOrder wf (λ a b, if negb (c1 a b =? 0) then c1 a b else c2 a b).
Proof.
  intros H1 H2. split.
  - intros a b Ha Hb. pose proof (cmp_antisym (cmp:=c1) a b Ha Hb). pose proof (cmp_antisym (cmp:=c2) a b Ha Hb).
    destruct (Z.eqb_spec (c1 a b) 0), (Z.eqb_spec (c1 b a) 0); cbn [negb]; lia.
  - intros a b c Ha Hb Hc.
    pose proof (cmp_le_trans (cmp:=c1) a b c Ha Hb Hc). pose proof (cmp_le_trans (cmp:=c2) a b c Ha Hb Hc).
    pose proof (cmp_lt_le_trans (cmp:=c1) a b c Ha Hb Hc). pose proof (cmp_le_lt_trans (cmp:=c1) a b c Ha Hb Hc).
    destruct (Z.eqb_spec (c1 a b) 0), (Z.eqb_spec (c1 b c) 0), (Z.eqb_spec (c1 a c) 0); cbn [negb]; lia.
Qed.

#[export] Instance Bytewise_laws : ComparatorLaws bytes_ok BytewiseComparator.
Proof.
  assert (CompareOrder bytes_ok slice_compare) as Ho by (eapply order_weaken; [|apply _]; done).
  split; try done; cbn; intros.
  - apply slice_eq_compare.
  - rewrite !slice_compare_lex in *. by apply Bytewise_separator.
  - rewrite !slice_compare_lex in *. by apply Bytewise_successor.
  - apply slice_eq_compare.
  - pose proof (Zlen_nonneg a). lia.
Qed.

#[export] Instance Reverse_laws : ComparatorLaws bytes_ok ReverseBytewiseComparator.
Proof.
  assert (CompareOrder bytes_ok (λ a b, - slice_compare a b)) as Ho
    by (apply order_opp; eapply order_weaken; [|apply _]; done).
  split; try done; cbn; intros.
  - rewrite slice_eq_compare. apply eq_true_iff_eq. rewrite !Z.eqb_eq. lia.
  - rewrite !slice_compare_lex in *. destruct (Reverse_separator start limit) as (?&?&?&?); [done|lia|].
    split_and!; done || lia.
  - rewrite slice_compare_lex, lexcmp_refl. split_and!; done || lia.
  - rewrite slice_eq_compare. unfold CompareWithoutTimestamp. cbn. apply eq_true_iff_eq. rewrite !Z.eqb_eq. lia.
  - pose proof (Zlen_nonneg a). lia.
Qed.

(** The keys of the comparator with timestamps end with a 64-bit timestamp. *)
Definition ts_key (wf : bytes → Prop) (k : bytes) : Prop :=
  8 <= Zlen k ∧ wf (StripTimestampFromUserKey k 8).

Lemma U64Ts_timestamp_order : CompareOrder (λ _ : bytes, True) U64Ts_CompareTimestamp.
Proof.
  unfold U64Ts_CompareTimestamp.
  split; intros; repeat (case_match; try lia).
Qed.

Lemma U64Ts_laws wf c : ComparatorLaws wf c → ComparatorLaws (ts_key wf) (ComparatorWithU64Ts c).
Proof.
  intros Hc.
  assert (CompareOrder (ts_key wf) (λ a b, U64Ts_CompareWithoutTimestamp c a true b true)) as H1.
  { unfold U64Ts_CompareWithoutTimestamp.
    apply (order_map _ wf (λ a, StripTimestampFromUserKey a 8)); [by intros ? []|apply _]. }
  assert (CompareOrder (ts_key wf) (λ a b, - U64Ts_CompareTimestamp (ExtractTimestampFromUserKey a 8)
      (ExtractTimestampFromUserKey b 8))) as H2.
  { apply order_opp, (order_map _ (λ _, True) (λ a, ExtractTimestampFromUserKey a 8));
      [done|apply U64Ts_timestamp_order]. }
  assert (CompareOrder (ts_key wf) (U64Ts_Compare c)) as H3 by (by apply order_lex).
  split; try done; cbn; intros.
  - rewrite (cmp_refl (cmp:=U64Ts_Compare c)) by done. split_and!; done || lia.
  - rewrite (cmp_refl (cmp:=U64Ts_Compare c)) by done. split_and!; done || lia.
  - unfold CompareWithoutTimestamp in *. cbn in *. unfold U64Ts_Compare.
    destruct (Z.eqb_spec (U64Ts_CompareWithoutTimestamp c a true b true) 0); cbn [negb]; lia.
  - destruct H. lia.
  - unfold U64Ts_Compare. unfold CompareWithoutTimestamp in *. cbn in *.
    by replace (U64Ts_CompareWithoutTimestamp c a true b true) with 0.
Qed.

(** The built-in comparators are total orders on their keys, [Equal] agrees
    with the order, the separator of [start < limit] lies in [[start, limit)],
    the short successor of a key is not before it, and neither is longer than
    the key it replaces; keys with timestamps are ordered by user key and, for
    equal user keys, newest first. *)
Theorem builtin_comparators :
  ComparatorLaws bytes_ok BytewiseComparator ∧
  ComparatorLaws bytes_ok ReverseBytewiseComparator ∧
  ComparatorLaws (ts_key bytes_ok) BytewiseComparatorWithU64Ts.
Proof.
  split_and!; [apply Bytewise_laws|apply Reverse_laws|]. apply U64Ts_laws, Bytewise_laws.
Qed.

(** ** Immediate successors *)

(** A key as a big-endian number. *)
Fixpoint be_value (s : bytes) : Z :=
  match s with [] => 0 | x :: s => x * 256 ^ Zlen s + be_value s end.

Lemma pow256_pos (s : bytes) : 0 < 256 ^ Zlen s.
Proof. apply Z.pow_pos_nonneg; [lia|apply Zlen_nonneg]. Qed.
Lemma pow256_cons (x : Z) (s : bytes) : 256 ^ Zlen (x :: s) = 256 * 256 ^ Zlen s.
Proof. rewrite Zlen_cons, Z.pow_add_r by (try apply Zlen_nonneg; lia). done. Qed.

Lemma be_value_range s : bytes_ok s → 0 <= be_value s <= 256 ^ Zlen s - 1.
Proof.
  induction 1 as [|x s Hx Hs IH]; [done|]. cbn [be_value]. rewrite pow256_cons.
  unfold is_u in Hx. pose proof (pow256_pos s). nia.
Qed.
Lemma be_value_zero s : bytes_ok s → be_value s = 0 ↔ forallb (λ b, b =? 0) s = true.
Proof.
  induction 1 as [|x s Hx Hs IH]; [done|]. cbn [be_value forallb]. rewrite andb_true_iff, <- IH, Z.eqb_eq.
  unfold is_u in Hx. pose proof (pow256_pos s). pose proof (be_value_range s Hs). nia.
Qed.
Lemma be_value_max s : bytes_ok s → be_value s = 256 ^ Zlen s - 1 ↔ forallb (λ b, b =? 0xff) s = true.
Proof.
  induction 1 as [|x s Hx Hs IH]; [done|]. cbn [be_value forallb].
  rewrite andb_true_iff, <- IH, Z.eqb_eq, pow256_cons. unfold is_u in Hx.
  pose proof (pow256_pos s). pose proof (be_value_range s Hs). nia.
Qed.
Lemma be_value_app c s t : Zlen s = Zlen t →
  be_value (c ++ t) - be_value (c ++ s) = be_value t - be_value s.
Proof.
  intros E. induction c as [|x c IH]; [done|]. cbn [app be_value]. rewrite !Zlen_app, E. lia.
Qed.

Lemma difference_offset_all s t : Zlen s = Zlen t → difference_offset s t = Zlen s → s = t.
Proof.
  unfold Zlen. revert t. induction s as [|x s IH]; intros [|y t]; cbn [length difference_offset]; try lia; [done|].
  intros El. destruct (Z.eqb_spec x y) as [->|]; [|lia]. intros E. f_equal. apply IH; lia.
Qed.

(** [IsSameLengthImmediateSuccessor(s, t)] of the bytewise comparator holds
    exactly when [s] and [t] are non-empty keys of the same length and [t],
    read as a number, is [s] plus one. *)
Theorem IsSameLengthImmediateSuccessor_spec s t : bytes_ok s → bytes_ok t →
  Bytewise_IsSameLengthImmediateSuccessor s t = true ↔
  Zlen s = Zlen t ∧ s ≠ [] ∧ be_value t = be_value s + 1.
Proof.
  intros Hs Ht. unfold Bytewise_IsSameLengthImmediateSuccessor.
  destruct (Z.eqb_spec (Zlen s) (Zlen t)) as [El|El]; cbn [negb orb]; [|by split; [done|lia]].
  destruct (Z.eqb_spec (Zlen s) 0) as [E0|E0].
  { apply Zlen_0_nil in E0 as ->. by split; [done|intros (_ & ? & _)]. }
  assert (s ≠ []) as Hne by (by intros ->).
  destruct (difference_offset_cases s t) as [E|(c & x & s' & y & t' & -> & -> & Hxy & ->)].
  { rewrite E, <- El, Z.min_id, Z.leb_refl. split; [done|]. intros (_ & _ & Hv). exfalso.
    enough (s = t) as -> by lia. apply difference_offset_all; lia. }
  rewrite !Zlen_app, !Zlen_cons in *. assert (Zlen s' = Zlen t') as El' by lia.
  pose proof (Zlen_nonneg s'). destruct (Z.leb_spec (Zlen c + (1 + Zlen s')) (Zlen c)); [lia|].
  rewrite !znth_mid. apply bytes_ok_app in Hs as [_ Hs]. apply bytes_ok_app in Ht as [_ Ht].
  inversion Hs as [|? ? Hx Hs']; inversion Ht as [|? ? Hy Ht']; subst. unfold is_u in Hx, Hy.
  assert (∀ z l, zdrop (Zlen c + 1) (c ++ z :: l) = l) as Hdrop.
  { intros z l. rewrite <- zdrop_zdrop by (lia || apply Zlen_nonneg). by rewrite zdrop_app. }
  rewrite !Hdrop. pose proof (be_value_app c (x :: s') (y :: t')) as Hv. rewrite !Zlen_cons in Hv.
  specialize (Hv ltac:(lia)). cbn [be_value] in Hv. rewrite <- El' in Hv.
  pose proof (be_value_max s' Hs') as Hmax. pose proof (be_value_zero t' Ht') as Hzero.
  pose proof (be_value_range s' Hs'). pose proof (be_value_range t' Ht'). pose proof (pow256_pos s').
  rewrite <- El' in *.
  assert (Zlen c + (1 + Zlen s') = Zlen c + (1 + Zlen s') ∧ c ++ x :: s' ≠ [] ∧
    be_value (c ++ y :: t') = be_value (c ++ x :: s') + 1 ↔
    y = x + 1 ∧ be_value s' = 256 ^ Zlen s' - 1 ∧ be_value t' = 0) as ->.
  { split; [intros (_ & _ & E)|intros (-> & E1 & E2); split_and!; [done|done|nia]].
    assert (y = x + 1) as -> by nia. split; [done|]. nia. }
  rewrite Hmax, Hzero. destruct (Z.eqb_spec x 0xff); cbn [negb andb].
  - split; [done|]. lia.
  - destruct (Z.eqb_spec (x + 1) y); [subst y|by split; [done|intros [? _]; lia]].
    rewrite andb_true_iff. tauto.
Qed.
Lemma IsSameLengthImmediateSuccessor_spec_witness :
  Bytewise_IsSameLengthImmediateSuccessor [7; 0; 255] [7; 1; 0] = true ↔
  Zlen [7; 0; 255] = Zlen [7; 1; 0] ∧ [7; 0; 255] ≠ [] ∧ be_value [7; 1; 0] = be_value [7; 0; 255] + 1.
Proof. apply IsSameLengthImmediateSuccessor_spec; repeat constructor; by compute. Defined.
