(* ===== verification/DbFormat.v ===== *)
(** * Internal keys

    [db/dbformat.h], [db/dbformat.cc] and [db/lookup_key.h]: value types, the
    encoding of internal keys and the operations on their timestamps, the
    internal key comparator, range tombstones and lookup keys. [IterKey] is in
    [IterKey.v]. *)

From S2P Require Import Prelude Status Slice Coding Comparator.
#[local] Open Scope Z_scope.

(** ** Value types

    A [ValueType] is the low byte of the footer of an internal key: a reader
    meets arbitrary bytes, so the enumerators are integers. *)
Definition kTypeDeletion : Z := 0x0.
Definition kTypeValue : Z := 0x1.
Definition kTypeMerge : Z := 0x2.
Definition kTypeLogData : Z := 0x3.
Definition kTypeColumnFamilyDeletion : Z := 0x4.
Definition kTypeColumnFamilyValue : Z := 0x5.
Definition kTypeColumnFamilyMerge : Z := 0x6.
Definition kTypeSingleDeletion : Z := 0x7.
Definition kTypeColumnFamilySingleDeletion : Z := 0x8.
Definition kTypeBeginPrepareXID : Z := 0x9.
Definition kTypeEndPrepareXID : Z := 0xA.
Definition kTypeCommitXID : Z := 0xB.
Definition kTypeRollbackXID : Z := 0xC.
Definition kTypeNoop : Z := 0xD.
Definition kTypeColumnFamilyRangeDeletion : Z := 0xE.
Definition kTypeRangeDeletion : Z := 0xF.
Definition kTypeColumnFamilyBlobIndex : Z := 0x10.
Definition kTypeBlobIndex : Z := 0x11.
Definition kTypeBeginPersistedPrepareXID : Z := 0x12.
Definition kTypeBeginUnprepareXID : Z := 0x13.
Definition kTypeDeletionWithTimestamp : Z := 0x14.
Definition kTypeCommitXIDAndTimestamp : Z := 0x15.
Definition kTypeWideColumnEntity : Z := 0x16.
Definition kTypeColumnFamilyWideColumnEntity : Z := 0x17.
Definition kTypeMaxValid : Z := 0x18.
Definition kMaxValue : Z := 0x7F.

Definition kValueTypeForSeek : Z := kTypeWideColumnEntity.
Definition kValueTypeForSeekForPrev : Z := kTypeDeletion.

Definition IsValueType (t : Z) : bool :=
  (t <=? kTypeMerge) || (kTypeSingleDeletion =? t) || (kTypeBlobIndex =? t)
  || (kTypeDeletionWithTimestamp =? t) || (kTypeWideColumnEntity =? t).
Definition IsExtendedValueType (t : Z) : bool :=
  IsValueType t || (t =? kTypeRangeDeletion) || (t =? kTypeMaxValid).

Inductive EntryType :=
  | kEntryPut | kEntryDelete | kEntrySingleDelete | kEntryMerge | kEntryRangeDeletion
  | kEntryBlobIndex | kEntryDeleteWithTimestamp | kEntryWideColumnEntity | kEntryOther.

Definition GetEntryType (value_type : Z) : EntryType :=
  if value_type =? kTypeValue then kEntryPut
  else if value_type =? kTypeDeletion then kEntryDelete
  else if value_type =? kTypeDeletionWithTimestamp then kEntryDeleteWithTimestamp
  else if value_type =? kTypeSingleDeletion then kEntrySingleDelete
  else if value_type =? kTypeMerge then kEntryMerge
  else if value_type =? kTypeRangeDeletion then kEntryRangeDeletion
  else if value_type =? kTypeBlobIndex then kEntryBlobIndex
  else if value_type =? kTypeWideColumnEntity then kEntryWideColumnEntity
  else kEntryOther.

(** ** Sequence numbers *)

Definition kMaxSequenceNumber : Z := Z.shiftl 1 56 - 1.
Definition kDisableGlobalSequenceNumber : Z := 2 ^ 64 - 1.
Definition kNumInternalBytes : Z := 8.

Record ParsedInternalKey := mkParsed { user_key : bytes; sequence : Z; type : Z }.

Definition clear_parsed : ParsedInternalKey := mkParsed [] 0 kTypeDeletion.
(** [SetTimestamp] overwrites the last bytes of the user key in place. *)
Definition SetTimestamp (k : ParsedInternalKey) (ts : bytes) : ParsedInternalKey :=
  mkParsed (ztake (Zlen (user_key k) - Zlen ts) (user_key k) ++ ts) (sequence k) (type k).
Definition GetTimestamp (k : ParsedInternalKey) (ts_sz : Z) : bytes :=
  zdrop (Zlen (user_key k) - ts_sz) (user_key k).

Definition InternalKeyEncodingLength (key : ParsedInternalKey) : Z :=
  Zlen (user_key key) + kNumInternalBytes.

Definition PackSequenceAndType (seq t : Z) : Z := Z.lor (u64 (Z.shiftl seq 8)) t.
Definition UnPackSequenceAndType (packed : Z) : Z * Z := (Z.shiftr packed 8, Z.land packed 0xff).

(** ** Building internal keys *)

Definition AppendInternalKey (result : bytes) (key : ParsedInternalKey) : bytes :=
  PutFixed64 (result ++ user_key key) (PackSequenceAndType (sequence key) (type key)).
Definition AppendInternalKeyWithDifferentTimestamp (result : bytes) (key : ParsedInternalKey)
    (ts : bytes) : bytes :=
  PutFixed64 ((result ++ ztake (Zlen (user_key key) - Zlen ts) (user_key key)) ++ ts)
    (PackSequenceAndType (sequence key) (type key)).
Definition AppendInternalKeyFooter (result : bytes) (s t : Z) : bytes :=
  PutFixed64 result (PackSequenceAndType s t).

Definition AppendKeyWithMinTimestamp (result key : bytes) (ts_sz : Z) : bytes :=
  let kTsMin := replicate (Z.to_nat ts_sz) 0 in (result ++ key) ++ kTsMin.
Definition AppendKeyWithMaxTimestamp (result key : bytes) (ts_sz : Z) : bytes :=
  let kTsMax := replicate (Z.to_nat ts_sz) 0xff in (result ++ key) ++ kTsMax.
(** The nine bytes of the static [kTsMax]. *)
Definition kTsMax9 : bytes := replicate 9 0xff.
Definition AppendUserKeyWithMaxTimestamp (result key : bytes) (ts_sz : Z) : bytes :=
  let result := result ++ ztake (Zlen key - ts_sz) key in
  if ts_sz <? Zlen kTsMax9 then result ++ ztake ts_sz kTsMax9
  else result ++ replicate (Z.to_nat ts_sz) 0xff.

Definition PadInternalKeyWithMinTimestamp (result key : bytes) (ts_sz : Z) : bytes :=
  let user_key_size := Zlen key - kNumInternalBytes in
  ((result ++ ztake user_key_size key) ++ replicate (Z.to_nat ts_sz) 0)
    ++ ztake kNumInternalBytes (zdrop user_key_size key).
Definition StripTimestampFromInternalKey (result key : bytes) (ts_sz : Z) : bytes :=
  (result ++ ztake (Zlen key - kNumInternalBytes - ts_sz) key)
    ++ zdrop (Zlen key - kNumInternalBytes) key.
Definition ReplaceInternalKeyWithMinTimestamp (result key : bytes) (ts_sz : Z) : bytes :=
  let key_sz := Zlen key in
  ((result ++ ztake (key_sz - kNumInternalBytes - ts_sz) key) ++ replicate (Z.to_nat ts_sz) 0)
    ++ zdrop (key_sz - kNumInternalBytes) key.

(** ** Taking internal keys apart *)

Definition ExtractUserKey (internal_key : bytes) : bytes :=
  ztake (Zlen internal_key - kNumInternalBytes) internal_key.
Definition ExtractUserKeyAndStripTimestamp (internal_key : bytes) (ts_sz : Z) : bytes :=
  ztake (Zlen internal_key - (kNumInternalBytes + ts_sz)) internal_key.
Definition ExtractTimestampFromKey (internal_key : bytes) (ts_sz : Z) : bytes :=
  ztake ts_sz (zdrop (Zlen internal_key - ts_sz - kNumInternalBytes) internal_key).
Definition ExtractInternalKeyFooter (internal_key : bytes) : Z :=
  DecodeFixed64 (zdrop (Zlen internal_key - kNumInternalBytes) internal_key).
Definition ExtractValueType (internal_key : bytes) : Z :=
  let num := ExtractInternalKeyFooter internal_key in
  Z.land num 0xff.
Definition GetInternalKeySeqno (internal_key : bytes) : Z :=
  let num := DecodeFixed64 (zdrop (Zlen internal_key - kNumInternalBytes) internal_key) in
  Z.shiftr num 8.

(** [ParseInternalKey]: the message of an unknown type shows the parsed key,
    which is left out of the state string. *)
Definition ParseInternalKey (internal_key : bytes) : Status * ParsedInternalKey :=
  let n := Zlen internal_key in
  if n <? kNumInternalBytes then
    (Status_Corruption "Corrupted Key: Internal Key too small.", mkParsed [] kMaxSequenceNumber kTypeDeletion)
  else
    let num := DecodeFixed64 (zdrop (n - kNumInternalBytes) internal_key) in
    let c := Z.land num 0xff in
    let result := mkParsed (ztake (n - kNumInternalBytes) internal_key) (Z.shiftr num 8) c in
    if IsExtendedValueType c then (Status_OK, result)
    else (Status_Corruption "Corrupted Key", result).

Definition UpdateInternalKey (ikey : bytes) (seq t : Z) : bytes :=
  let newval := Z.lor (u64 (Z.shiftl seq 8)) t in
  ztake (Zlen ikey - kNumInternalBytes) ikey ++ EncodeFixed64 newval.

(** ** [InternalKey]: the encoded form, [rep_] *)

Module InternalKey.
Definition Empty : bytes := [].
Definition New (user_key : bytes) (s t : Z) : bytes := AppendInternalKey [] (mkParsed user_key s t).
Definition NewTs (user_key : bytes) (s t : Z) (ts : bytes) : bytes :=
  AppendInternalKeyWithDifferentTimestamp [] (mkParsed user_key s t) ts.
(** These two append to what [rep_] holds. *)
Definition SetMaxPossibleForUserKey (rep_ user_key : bytes) : bytes :=
  AppendInternalKey rep_ (mkParsed user_key 0 0).
Definition SetMinPossibleForUserKey (rep_ user_key : bytes) : bytes :=
  AppendInternalKey rep_ (mkParsed user_key kMaxSequenceNumber kValueTypeForSeek).
Definition Valid (rep_ : bytes) : bool := ok (fst (ParseInternalKey rep_)).
Definition DecodeFrom (s : bytes) : bytes := s.
Definition Encode (rep_ : bytes) : bytes := rep_.
Definition SetFrom (p : ParsedInternalKey) : bytes := AppendInternalKey [] p.
Definition SetFromTs (p : ParsedInternalKey) (ts : bytes) : bytes :=
  AppendInternalKeyWithDifferentTimestamp [] p ts.
Definition Set_ (user_key : bytes) (s t : Z) : bytes := SetFrom (mkParsed user_key s t).
Definition SetTs (user_key_with_ts : bytes) (s t : Z) (ts : bytes) : bytes :=
  SetFromTs (mkParsed user_key_with_ts s t) ts.
Definition ConvertFromUserKey (rep_ : bytes) (s t : Z) : bytes := AppendInternalKeyFooter rep_ s t.
End InternalKey.

(** ** [InternalKeyComparator] *)

Module InternalKeyComparator.
Section Compare.
Context (user_comparator_ : Comparator).

(** Larger footers first. *)
Definition footer_compare (anum bnum : Z) : Z :=
  if bnum <? anum then -1 else if anum <? bnum then 1 else 0.

Definition Compare (akey bkey : bytes) : Z :=
  let r := Comparator.Compare user_comparator_ (ExtractUserKey akey) (ExtractUserKey bkey) in
  if r =? 0 then
    let anum := DecodeFixed64 (zdrop (Zlen akey - kNumInternalBytes) akey) in
    let bnum := DecodeFixed64 (zdrop (Zlen bkey - kNumInternalBytes) bkey) in
    footer_compare anum bnum
  else r.
Definition Equal (a b : bytes) : bool := Compare a b =? 0.

Definition CompareKeySeq (akey bkey : bytes) : Z :=
  let r := Comparator.Compare user_comparator_ (ExtractUserKey akey) (ExtractUserKey bkey) in
  if r =? 0 then
    let anum := Z.shiftr (DecodeFixed64 (zdrop (Zlen akey - kNumInternalBytes) akey)) 8 in
    let bnum := Z.shiftr (DecodeFixed64 (zdrop (Zlen bkey - kNumInternalBytes) bkey)) 8 in
    footer_compare anum bnum
  else r.

Definition CompareGlobalSeqno (a : bytes) (a_global_seqno : Z) (b : bytes) (b_global_seqno : Z) : Z :=
  let r := Comparator.Compare user_comparator_ (ExtractUserKey a) (ExtractUserKey b) in
  if r =? 0 then
    let footer k g :=
      if g =? kDisableGlobalSequenceNumber then ExtractInternalKeyFooter k
      else PackSequenceAndType g (ExtractValueType k) in
    footer_compare (footer a a_global_seqno) (footer b b_global_seqno)
  else r.

Definition CompareParsed (a b : ParsedInternalKey) : Z :=
  let r := Comparator.Compare user_comparator_ (user_key a) (user_key b) in
  if r =? 0 then
    if sequence b <? sequence a then -1
    else if sequence a <? sequence b then 1
    else if type b <? type a then -1
    else if type a <? type b then 1
    else r
  else r.

Definition CompareSliceParsed (a : bytes) (b : ParsedInternalKey) : Z :=
  let r := Comparator.Compare user_comparator_ (ExtractUserKey a) (user_key b) in
  if r =? 0 then
    let anum := DecodeFixed64 (zdrop (Zlen a - kNumInternalBytes) a) in
    let bnum := Z.lor (u64 (Z.shiftl (sequence b) 8)) (type b) in
    footer_compare anum bnum
  else r.
Definition CompareParsedSlice (a : ParsedInternalKey) (b : bytes) : Z := - CompareSliceParsed b a.

(** [ParsedInternalKeyComparator::operator()] *)
Definition ParsedLess (a b : ParsedInternalKey) : bool := CompareParsed a b <? 0.
End Compare.
End InternalKeyComparator.

(** ** Range tombstones *)

Record RangeTombstone := mkTombstone { start_key_ : bytes; end_key_ : bytes; seq_ : Z; ts_ : bytes }.

Definition NewRangeTombstone (sk ek : bytes) (sn : Z) : RangeTombstone := mkTombstone sk ek sn [].
(** The constructor that replaces the timestamps of both keys. *)
Definition NewRangeTombstoneTs (sk ek : bytes) (sn : Z) (ts : bytes) : RangeTombstone :=
  let pinned_start_key_ := ztake (Zlen sk - Zlen ts) sk ++ ts in
  let pinned_end_key_ := ztake (Zlen ek - Zlen ts) ek ++ ts in
  mkTombstone pinned_start_key_ pinned_end_key_ sn ts.
Definition RangeTombstoneOfEntry (parsed_key : ParsedInternalKey) (value : bytes) : RangeTombstone :=
  mkTombstone (user_key parsed_key) value (sequence parsed_key) [].

Definition SerializeKey (t : RangeTombstone) : bytes :=
  InternalKey.New (start_key_ t) (seq_ t) kTypeRangeDeletion.
Definition Serialize (t : RangeTombstone) : bytes * bytes := (SerializeKey t, end_key_ t).
Definition SerializeEndKey (t : RangeTombstone) : bytes :=
  if negb (Zlen (ts_ t) =? 0) then
    if Zlen (ts_ t) <=? Zlen kTsMax9 then
      InternalKey.NewTs (end_key_ t) kMaxSequenceNumber kTypeRangeDeletion (ztake (Zlen (ts_ t)) kTsMax9)
    else
      InternalKey.NewTs (end_key_ t) kMaxSequenceNumber kTypeRangeDeletion
        (replicate (length (ts_ t)) 0xff)
  else InternalKey.New (end_key_ t) kMaxSequenceNumber kTypeRangeDeletion.

(** ** Prefix extractors of internal keys *)

Definition InternalKeySliceTransform (transform_ : SliceTransform) : SliceTransform := {|
  Transform src := Transform transform_ (ExtractUserKey src);
  InDomain src := InDomain transform_ (ExtractUserKey src);
  InRange dst := InRange transform_ (ExtractUserKey dst);
  FullLengthEnabled := None;
  SameResultWhenAppended _ := false
|}.

(** ** Lookup keys

    The array a [LookupKey] builds; [kstart_] is the offset of the user key in
    it, [space_needed] the size that is allocated. *)
Record LookupKey := mkLookupKey { lk_array : bytes; kstart_ : Z; lk_allocated : Z }.

Definition NewLookupKey (_user_key : bytes) (s : Z) (ts : option bytes) : LookupKey :=
  let usize := Zlen _user_key in
  let ts_sz := match ts with None => 0 | Some ts => Zlen ts end in
  let needed := usize + ts_sz + 13 in
  let klength := EncodeVarint32 (u32 (usize + ts_sz + 8)) in
  mkLookupKey
    (klength ++ _user_key ++ default [] ts ++ EncodeFixed64 (PackSequenceAndType s kValueTypeForSeek))
    (Zlen klength)
    (if needed <=? 200 then 200 else needed).

Definition memtable_key (k : LookupKey) : bytes := lk_array k.
Definition internal_key (k : LookupKey) : bytes := zdrop (kstart_ k) (lk_array k).
Definition lookup_user_key (k : LookupKey) : bytes :=
  ztake (Zlen (lk_array k) - kstart_ k - 8) (zdrop (kstart_ k) (lk_array k)).

(** ** Well-formed keys *)

Definition parsed_ok (p : ParsedInternalKey) : Prop :=
  bytes_ok (user_key p) ∧ is_u 56 (sequence p) ∧ is_u 8 (type p).

Lemma kMaxSequenceNumber_val : kMaxSequenceNumber = 2 ^ 56 - 1.
Proof. done. Qed.

Lemma Pack_val seq t : is_u 56 seq → is_u 8 t → PackSequenceAndType seq t = 256 * seq + t.
Proof.
  intros Hs Ht. unfold PackSequenceAndType. rewrite Z.shiftl_mul_pow2 by lia. change (2 ^ 8) with 256.
  unfold is_u in *. rewrite wrap_small by (unfold is_u; lia).
  rewrite <- Z.add_nocarry_lor; [lia|]. apply Z.bits_inj'. intros i Hi.
  rewrite Z.land_spec, Z.bits_0. change 256 with (2 ^ 8). rewrite <- Z.shiftl_mul_pow2 by lia.
  destruct (Z.lt_ge_cases i 8); [by rewrite Z.shiftl_spec_low|].
  rewrite (testbit_above 8 t) by (unfold is_u; lia). apply andb_false_r.
Qed.
Lemma Pack_range seq t : is_u 56 seq → is_u 8 t → is_u 64 (PackSequenceAndType seq t).
Proof. intros Hs Ht. rewrite Pack_val by done. unfold is_u in *. lia. Qed.
Lemma UnPack_val n : UnPackSequenceAndType n = (n / 256, n mod 256).
Proof.
  unfold UnPackSequenceAndType. rewrite Z.shiftr_div_pow2 by lia. change 0xff with (Z.ones 8).
  by rewrite Z.land_ones by lia.
Qed.
Lemma UnPack_Pack seq t : is_u 56 seq → is_u 8 t →
  UnPackSequenceAndType (PackSequenceAndType seq t) = (seq, t).
Proof. intros. rewrite Pack_val, UnPack_val by done. unfold is_u in *. f_equal; zlia. Qed.
Lemma Pack_UnPack n : is_u 64 n → 
  let '(seq, t) := UnPackSequenceAndType n in is_u 56 seq ∧ is_u 8 t ∧ PackSequenceAndType seq t = n.
Proof.
  intros Hn. rewrite UnPack_val. unfold is_u in Hn.
  assert (is_u 56 (n / 256) ∧ is_u 8 (n mod 256)) as [] by (unfold is_u; zlia).
  split_and!; [done..|]. rewrite Pack_val by done. zlia.
Qed.

(** An internal key is a user key and a footer. *)
Lemma ikey_split k : kNumInternalBytes <= Zlen k → bytes_ok k →
  k = ExtractUserKey k ++ EncodeFixed64 (ExtractInternalKeyFooter k) ∧
  is_u 64 (ExtractInternalKeyFooter k).
Proof.
  unfold kNumInternalBytes. intros Hl Hk.
  set (f := zdrop (Zlen k - 8) k).
  assert (length f = 8%nat) as Hf.
  { pose proof (Zlen_zdrop (Zlen k - 8) k). unfold f, Zlen in *. lia. }
  assert (bytes_ok f) as Hfb by (by apply bytes_ok_zdrop).
  assert (ztake 8 f = f) as Ht by (apply ztake_all; unfold Zlen; lia).
  unfold ExtractUserKey, ExtractInternalKeyFooter, kNumInternalBytes. fold f.
  unfold EncodeFixed64, DecodeFixed64. rewrite Ht. split.
  - replace 8%nat with (length f). rewrite le_bytes_value by done. symmetry. apply ztake_zdrop.
  - replace 64 with (8 * Zlen f) by (unfold Zlen; lia). by apply le_value_range.
Qed.

Lemma ExtractUserKey_app u n : ExtractUserKey (u ++ EncodeFixed64 n) = u.
Proof.
  unfold ExtractUserKey, kNumInternalBytes. apply ztake_app. rewrite Zlen_app, Zlen_EncodeFixed64. lia.
Qed.
Lemma footer_app u n : is_u 64 n → ExtractInternalKeyFooter (u ++ EncodeFixed64 n) = n.
Proof.
  intros Hn. unfold ExtractInternalKeyFooter, kNumInternalBytes.
  rewrite zdrop_app by (rewrite Zlen_app, Zlen_EncodeFixed64; lia).
  rewrite <- (app_nil_r (EncodeFixed64 n)). by apply DecodeFixed64_Encode.
Qed.
Lemma AppendInternalKey_eq p : AppendInternalKey [] p =
  user_key p ++ EncodeFixed64 (PackSequenceAndType (sequence p) (type p)).
Proof. done. Qed.

Lemma ikey_of_parsed p : parsed_ok p →
  let k := AppendInternalKey [] p in
  ExtractUserKey k = user_key p ∧
  ExtractInternalKeyFooter k = PackSequenceAndType (sequence p) (type p) ∧
  bytes_ok k ∧ kNumInternalBytes <= Zlen k ∧ Zlen k = InternalKeyEncodingLength p.
Proof.
  intros (Hu & Hs & Ht). cbv zeta. rewrite AppendInternalKey_eq.
  rewrite ExtractUserKey_app, footer_app by (by apply Pack_range).
  pose proof (Zlen_nonneg (user_key p)). unfold InternalKeyEncodingLength, kNumInternalBytes.
  rewrite Zlen_app, Zlen_EncodeFixed64. split_and!; try done; [|lia].
  apply bytes_ok_app. auto with bytes.
Qed.

(** Every well-sized key is the encoding of what its parts parse to. *)
Definition parsed_of (k : bytes) : ParsedInternalKey :=
  let '(s, t) := UnPackSequenceAndType (ExtractInternalKeyFooter k) in mkParsed (ExtractUserKey k) s t.

Lemma parsed_of_ok k : bytes_ok k → kNumInternalBytes <= Zlen k →
  parsed_ok (parsed_of k) ∧ AppendInternalKey [] (parsed_of k) = k.
Proof.
  intros Hk Hl. destruct (ikey_split k Hl Hk) as [E Hf]. pose proof (Pack_UnPack _ Hf) as Hp.
  unfold parsed_of. destruct (UnPackSequenceAndType _) as [s t]. destruct Hp as (Hs & Ht & Ep).
  split; [split_and!; try done; by apply bytes_ok_ztake|]. rewrite AppendInternalKey_eq. cbn [user_key sequence type].
  by rewrite Ep.
Qed.

Lemma ParseInternalKey_parsed k : bytes_ok k → kNumInternalBytes <= Zlen k →
  ParseInternalKey k =
    (if IsExtendedValueType (type (parsed_of k)) then Status_OK else Status_Corruption "Corrupted Key",
     parsed_of k).
Proof.
  intros Hk Hl. unfold ParseInternalKey. destruct (Z.ltb_spec (Zlen k) kNumInternalBytes); [lia|].
  unfold parsed_of, UnPackSequenceAndType. cbn [type]. unfold ExtractInternalKeyFooter, ExtractUserKey.
  by destruct (IsExtendedValueType _).
Qed.

(** [ParseInternalKey] accepts exactly the encodings of parsed keys of a
    known type, and returns what was encoded; a shorter key or one of another
    type is refused as a corruption. *)
Theorem ParseInternalKey_spec k p : bytes_ok k →
  (∃ s, ParseInternalKey k = (s, p) ∧ ok s = true) ↔
  parsed_ok p ∧ IsExtendedValueType (type p) = true ∧ k = AppendInternalKey [] p.
Proof.
  intros Hk. split.
  - intros (s & E & Hs). destruct (Z.lt_ge_cases (Zlen k) kNumInternalBytes) as [Hl|Hl].
    { unfold ParseInternalKey in E. destruct (Z.ltb_spec (Zlen k) kNumInternalBytes); [|lia].
      by simplify_eq. }
    destruct (parsed_of_ok k Hk Hl) as [Hp Ek]. rewrite ParseInternalKey_parsed in E by done.
    destruct (IsExtendedValueType (type (parsed_of k))) eqn:Et; simplify_eq. done.
  - intros (Hp & Ht & ->). destruct (ikey_of_parsed p Hp) as (E1 & E2 & E3 & E4 & _).
    exists Status_OK. rewrite ParseInternalKey_parsed by done.
    assert (parsed_of (AppendInternalKey [] p) = p) as ->; [|by rewrite Ht].
    unfold parsed_of. rewrite E1, E2. destruct Hp as (_ & Hs & Hty).
    rewrite UnPack_Pack by done. by destruct p.
Qed.
Lemma ParseInternalKey_spec_witness :
  (∃ s, ParseInternalKey (InternalKey.New [97; 98] 7 kTypeValue) = (s, mkParsed [97; 98] 7 kTypeValue)
        ∧ ok s = true) ↔
  parsed_ok (mkParsed [97; 98] 7 kTypeValue) ∧ IsExtendedValueType kTypeValue = true ∧
  InternalKey.New [97; 98] 7 kTypeValue = AppendInternalKey [] (mkParsed [97; 98] 7 kTypeValue).
Proof. apply ParseInternalKey_spec. repeat constructor; by compute. Defined.

(** ** The order of internal keys *)

Module InternalKeyOrder.
Import InternalKeyComparator.
Section Order.
Context (wf : bytes → Prop) (c : Comparator) `{!ComparatorLaws wf c}.

(** An internal key whose user key the user comparator can order. *)
Definition ikey_ok (k : bytes) : Prop :=
  kNumInternalBytes <= Zlen k ∧ bytes_ok k ∧ wf (ExtractUserKey k).

Lemma footer_compare_order : CompareOrder (λ _ : Z, True) footer_compare.
Proof. unfold footer_compare. split; intros; repeat (case_match; try lia). Qed.

Lemma Compare_lex a b : Compare c a b =
  (λ a b, if negb (Comparator.Compare c (ExtractUserKey a) (ExtractUserKey b) =? 0)
      then Comparator.Compare c (ExtractUserKey a) (ExtractUserKey b)
      else footer_compare (ExtractInternalKeyFooter a) (ExtractInternalKeyFooter b)) a b.
Proof. unfold Compare. cbv beta. by destruct (_ =? 0). Qed.

#[export] Instance Compare_order : CompareOrder ikey_ok (Compare c).
Proof.
    assert (CompareOrder ikey_ok (λ a b, if negb (Comparator.Compare c (ExtractUserKey a) (ExtractUserKey b) =? 0)
        then Comparator.Compare c (ExtractUserKey a) (ExtractUserKey b)
        else footer_compare (ExtractInternalKeyFooter a) (ExtractInternalKeyFooter b))) as Ho.
    { apply (order_lex ikey_ok (λ a b, Comparator.Compare c (ExtractUserKey a) (ExtractUserKey b))
           (λ a b, footer_compare (ExtractInternalKeyFooter a) (ExtractInternalKeyFooter b))).
  - apply (order_map _ wf ExtractUserKey); [by intros ? (_ & _ & ?)|apply _].
  - apply (order_map _ (λ _, True) ExtractInternalKeyFooter); [done|apply footer_compare_order]. }
    destruct Ho as [Ha Ht].
    split; [intros a b|intros a b d]; rewrite !Compare_lex; [apply Ha|apply Ht].
Qed.

Definition key_ok (p : ParsedInternalKey) : Prop := parsed_ok p ∧ wf (user_key p).

Lemma ikey_ok_parsed p : key_ok p → ikey_ok (AppendInternalKey [] p).
Proof.
  intros [Hp Hw]. destruct (ikey_of_parsed p Hp) as (E & _ & Hb & Hl & _). split_and!; [done..|by rewrite E].
Qed.

Lemma footer_compare_pack p q : parsed_ok p → parsed_ok q →
  footer_compare (PackSequenceAndType (sequence p) (type p)) (PackSequenceAndType (sequence q) (type q)) =
  if sequence q <? sequence p then -1 else if sequence p <? sequence q then 1
  else if type q <? type p then -1 else if type p <? type q then 1 else 0.
Proof.
  intros (_ & Hs1 & Ht1) (_ & Hs2 & Ht2). rewrite !Pack_val by done. unfold footer_compare, is_u in *.
  repeat (case_match; try lia).
Qed.

Lemma Compare_parsed p q : parsed_ok p → parsed_ok q →
  Compare c (AppendInternalKey [] p) (AppendInternalKey [] q) = CompareParsed c p q.
Proof.
  intros Hp Hq. rewrite Compare_lex. cbv beta.
  destruct (ikey_of_parsed p Hp) as (-> & -> & _). destruct (ikey_of_parsed q Hq) as (-> & -> & _).
  rewrite footer_compare_pack by done. unfold CompareParsed.
  destruct (Z.eqb_spec (Comparator.Compare c (user_key p) (user_key q)) 0) as [->|]; done.
Qed.

Lemma CompareSliceParsed_eq p q : parsed_ok p → parsed_ok q →
  CompareSliceParsed c (AppendInternalKey [] p) q = CompareParsed c p q.
Proof.
  intros Hp Hq. rewrite <- Compare_parsed by done.
  destruct (ikey_of_parsed q Hq) as (E & F & _). unfold CompareSliceParsed, Compare. rewrite E.
  fold (ExtractInternalKeyFooter (AppendInternalKey [] q)). by rewrite F.
Qed.

(** Overriding the sequence number of a key. *)
Definition override (k : bytes) (g : Z) : bytes :=
  if g =? kDisableGlobalSequenceNumber then k else UpdateInternalKey k g (ExtractValueType k).

Lemma override_spec k g : kNumInternalBytes <= Zlen k → bytes_ok k →
  g = kDisableGlobalSequenceNumber ∨ is_u 56 g →
  ExtractUserKey (override k g) = ExtractUserKey k ∧
  ExtractInternalKeyFooter (override k g) =
    if g =? kDisableGlobalSequenceNumber then ExtractInternalKeyFooter k
    else PackSequenceAndType g (ExtractValueType k).
Proof.
  intros Hl Hk Hg. unfold override. destruct (Z.eqb_spec g kDisableGlobalSequenceNumber); [done|].
  destruct Hg as [|Hg]; [done|]. fold (PackSequenceAndType g (ExtractValueType k)) in *.
  unfold UpdateInternalKey. fold (PackSequenceAndType g (ExtractValueType k)). fold (ExtractUserKey k).
  rewrite ExtractUserKey_app. split; [done|]. apply footer_app, Pack_range; [done|].
  unfold ExtractValueType. change 0xff with (Z.ones 8). rewrite Z.land_ones by lia. by apply wrap_range.
Qed.

(** C39: internal keys are totally ordered, by user key, then newest first: among
    keys with equal user keys the one with the larger sequence number, and for
    equal sequence numbers the larger type, comes first; [CompareKeySeq] is the
    same order without the type. *)
Theorem internal_key_order :
  CompareOrder ikey_ok (Compare c) ∧
  (∀ p q, key_ok p → key_ok q →
    let a := AppendInternalKey [] p in let b := AppendInternalKey [] q in
    (Compare c a b < 0 ↔
      Comparator.Compare c (user_key p) (user_key q) < 0 ∨
      Comparator.Compare c (user_key p) (user_key q) = 0 ∧
        (sequence q < sequence p ∨ sequence p = sequence q ∧ type q < type p)) ∧
    (Compare c a b = 0 ↔
      Comparator.Compare c (user_key p) (user_key q) = 0 ∧ sequence p = sequence q ∧ type p = type q) ∧
    (CompareKeySeq c a b < 0 ↔
      Comparator.Compare c (user_key p) (user_key q) < 0 ∨
      Comparator.Compare c (user_key p) (user_key q) = 0 ∧ sequence q < sequence p)).
Proof.
    split; [apply _|]. intros p q [Hp Hwp] [Hq Hwq]. cbv zeta. rewrite Compare_parsed by done.
    unfold CompareParsed. destruct (ikey_of_parsed p Hp) as (E1 & F1 & _).
    destruct (ikey_of_parsed q Hq) as (E2 & F2 & _). unfold CompareKeySeq. rewrite E1, E2.
    fold (ExtractInternalKeyFooter (AppendInternalKey [] p)). fold (ExtractInternalKeyFooter (AppendInternalKey [] q)).
    rewrite F1, F2. destruct Hp as (_ & Hs1 & Ht1). destruct Hq as (_ & Hs2 & Ht2).
    pose proof (UnPack_Pack _ _ Hs1 Ht1) as U1. pose proof (UnPack_Pack _ _ Hs2 Ht2) as U2.
    injection U1 as U1 _. injection U2 as U2 _. rewrite U1, U2. unfold footer_compare.
    destruct (Z.eqb_spec (Comparator.Compare c (user_key p) (user_key q)) 0) as [E|E];
  [rewrite E|]; split_and!; repeat case_match; lia.
Qed.

(** All ways of comparing internal keys agree: parsed keys, an encoded and a
    parsed key, and encoded keys whose sequence numbers are overridden by a
    global one (which compare like the keys rewritten with it). *)
Theorem internal_key_compare_variants p q ga gb : key_ok p → key_ok q →
  ga = kDisableGlobalSequenceNumber ∨ is_u 56 ga → gb = kDisableGlobalSequenceNumber ∨ is_u 56 gb →
  let a := AppendInternalKey [] p in let b := AppendInternalKey [] q in
  CompareParsed c p q = Compare c a b ∧
  CompareSliceParsed c a q = Compare c a b ∧
  Z.sgn (CompareParsedSlice c p b) = Z.sgn (Compare c a b) ∧
  ParsedLess c p q = (Compare c a b <? 0) ∧
  CompareGlobalSeqno c a ga b gb = Compare c (override a ga) (override b gb).
Proof.
    intros Hp Hq Hga Hgb. cbv zeta. pose proof Hp as [Hp' _]. pose proof Hq as [Hq' _].
    unfold ParsedLess, CompareParsedSlice. rewrite !CompareSliceParsed_eq, <- !Compare_parsed by done.
    split_and!; try done.
    - pose proof (cmp_antisym (cmp:=Compare c) _ _ (ikey_ok_parsed p Hp) (ikey_ok_parsed q Hq)). lia.
    - destruct (ikey_of_parsed p Hp') as (_ & _ & Hb1 & Hl1 & _).
  destruct (ikey_of_parsed q Hq') as (_ & _ & Hb2 & Hl2 & _).
  destruct (override_spec _ ga Hl1 Hb1 Hga) as [E1 F1]. destruct (override_spec _ gb Hl2 Hb2 Hgb) as [E2 F2].
  rewrite Compare_lex. cbv beta. rewrite E1, E2, F1, F2. unfold CompareGlobalSeqno. by destruct (_ =? 0).
Qed.
End Order.

Lemma internal_key_order_witness : CompareOrder (ikey_ok bytes_ok) (Compare BytewiseComparator).
Proof. apply (internal_key_order bytes_ok BytewiseComparator). Defined.

Lemma internal_key_compare_variants_witness :
  CompareParsed BytewiseComparator (mkParsed [97] 5 kTypeValue) (mkParsed [97] 9 kTypeDeletion) =
  Compare BytewiseComparator (AppendInternalKey [] (mkParsed [97] 5 kTypeValue))
    (AppendInternalKey [] (mkParsed [97] 9 kTypeDeletion)).
Proof.
  apply (internal_key_compare_variants bytes_ok BytewiseComparator (mkParsed [97] 5 kTypeValue)
    (mkParsed [97] 9 kTypeDeletion) 3 kDisableGlobalSequenceNumber).
  - repeat constructor; by compute.
  - repeat constructor; by compute.
  - right. by compute.
  - by left.
Defined.
End InternalKeyOrder.

(** ** Lookup keys *)

Lemma NewLookupKey_array u s ts : Zlen u + Zlen (default [] ts) + 8 < 2 ^ 32 →
  let k := NewLookupKey u s ts in
  internal_key k = AppendInternalKey [] (mkParsed (u ++ default [] ts) s kValueTypeForSeek) ∧
  memtable_key k = PutLengthPrefixedSlice [] (internal_key k) ∧
  lookup_user_key k = u ++ default [] ts ∧ Zlen (memtable_key k) <= lk_allocated k.
Proof.
  intros Hlen. cbv zeta. pose proof (Zlen_nonneg u). pose proof (Zlen_nonneg (default [] ts)).
  assert (match ts with None => 0 | Some ts => Zlen ts end = Zlen (default [] ts)) as Ets by (by destruct ts).
  unfold NewLookupKey, internal_key, memtable_key, lookup_user_key. rewrite Ets. cbn [lk_array kstart_ lk_allocated].
  set (kl := EncodeVarint32 _). set (tag := EncodeFixed64 _). set (t := default [] ts).
  assert (Zlen tag = 8) as Htag by apply Zlen_EncodeFixed64.
  rewrite !zdrop_app by done. rewrite AppendInternalKey_eq. cbn [user_key sequence type]. fold tag.
  rewrite <- app_assoc. split_and!; [done| | |].
  - unfold PutLengthPrefixedSlice, PutVarint32. cbn [app]. f_equal. unfold kl. f_equal. f_equal.
    rewrite !Zlen_app, Htag. unfold t. lia.
  - rewrite (app_assoc u). apply ztake_app. rewrite !Zlen_app. lia.
  - pose proof (Zlen_EncodeVarint32 (u32 (Zlen u + Zlen (default [] ts) + 8))). fold kl in H1. fold t in H0.
    rewrite !Zlen_app, Htag. fold t. destruct (Z.leb_spec (Zlen u + Zlen t + 13) 200); lia.
Qed.

(** C40: a [LookupKey] for a user key at a sequence number is its internal key
    prefixed by its length (as the memtable stores keys), fits in the memory that
    is allocated for it, and as an internal key sorts before exactly the entries
    with a larger user key and the entries of the same user key that are visible
    at that sequence number: seeking to it finds the newest visible entry. *)
Theorem LookupKey_finds_visible wf c `{!ComparatorLaws wf c} u s ts p :
  Zlen u + Zlen (default [] ts) + 8 < 2 ^ 32 → is_u 56 s → bytes_ok (u ++ default [] ts) →
  wf (u ++ default [] ts) → InternalKeyOrder.key_ok wf p → type p <= kValueTypeForSeek →
  let k := NewLookupKey u s ts in
  GetLengthPrefixedSlice (memtable_key k) = Some (internal_key k, []) ∧
  ExtractUserKey (internal_key k) = lookup_user_key k ∧ lookup_user_key k = u ++ default [] ts ∧
  Zlen (memtable_key k) <= lk_allocated k ∧
  (InternalKeyComparator.Compare c (internal_key k) (AppendInternalKey [] p) <= 0 ↔
     Compare c (u ++ default [] ts) (user_key p) < 0 ∨
     Compare c (u ++ default [] ts) (user_key p) = 0 ∧ sequence p <= s).
Proof.
  intros Hlen Hs Hb Hw [Hp Hwp] Ht. cbv zeta. destruct (NewLookupKey_array u s ts Hlen) as (E1 & E2 & E3 & E4).
  set (lk := mkParsed (u ++ default [] ts) s kValueTypeForSeek) in *.
  assert (parsed_ok lk) as Hlk by (split_and!; done).
  destruct (ikey_of_parsed lk Hlk) as (Eu & _ & _ & _ & El). split_and!; try done.
  - rewrite E2, <- (app_nil_r (PutLengthPrefixedSlice _ _)). apply round_trip. rewrite E1, El.
    unfold InternalKeyEncodingLength, kNumInternalBytes. cbn [user_key lk]. rewrite Zlen_app. lia.
  - by rewrite E1, Eu, E3.
  - rewrite E1, InternalKeyOrder.Compare_parsed by done. unfold InternalKeyComparator.CompareParsed.
    change (user_key lk) with (u ++ default [] ts). change (sequence lk) with s.
    change (type lk) with kValueTypeForSeek.
    destruct (Z.eqb_spec (Compare c (u ++ default [] ts) (user_key p)) 0) as [E|E]; [rewrite E|];
      repeat case_match; lia.
Qed.
Lemma LookupKey_finds_visible_witness :
  GetLengthPrefixedSlice (memtable_key (NewLookupKey [97; 98] 12 None)) =
  Some (internal_key (NewLookupKey [97; 98] 12 None), []).
Proof.
  apply (LookupKey_finds_visible bytes_ok BytewiseComparator [97; 98] 12 None (mkParsed [97; 98] 9 kTypeValue)).
  - by compute.
  - by compute.
  - repeat constructor; by compute.
  - repeat constructor; by compute.
  - repeat constructor; by compute.
  - by compute.
Defined.

(** ** Smallest and largest keys of a user key *)

(** On an empty [InternalKey], [SetMinPossibleForUserKey] and
    [SetMaxPossibleForUserKey] give a lower and an upper bound of all internal
    keys of the user key whose type is one that is written to tables. *)
Theorem InternalKey_min_max wf c `{!ComparatorLaws wf c} u s t :
  bytes_ok u → wf u → is_u 56 s → 0 <= t <= kValueTypeForSeek →
  InternalKeyComparator.Compare c (InternalKey.SetMinPossibleForUserKey InternalKey.Empty u)
    (InternalKey.New u s t) <= 0 ∧
  InternalKeyComparator.Compare c (InternalKey.New u s t)
    (InternalKey.SetMaxPossibleForUserKey InternalKey.Empty u) <= 0.
Proof.
  intros Hu Hw Hs Ht. unfold kValueTypeForSeek, kTypeWideColumnEntity in *.
  unfold InternalKey.SetMinPossibleForUserKey, InternalKey.SetMaxPossibleForUserKey, InternalKey.Empty,
    InternalKey.New, kValueTypeForSeek, kTypeWideColumnEntity.
  assert (∀ s t, is_u 56 s → 0 <= t <= 22 → parsed_ok (mkParsed u s t)) as Hp.
  { intros s' t' ??. split_and!; [done..|]. unfold is_u. cbn. lia. }
  assert (is_u 56 kMaxSequenceNumber) by (by compute). assert (is_u 56 0) by (by compute).
  rewrite !InternalKeyOrder.Compare_parsed by (apply Hp; done || lia).
  unfold InternalKeyComparator.CompareParsed. cbn [user_key sequence type].
  rewrite (cmp_refl (cmp:=Compare c)) by done. rewrite Z.eqb_refl. unfold is_u in *.
  rewrite kMaxSequenceNumber_val in *. split; repeat case_match; lia.
Qed.
Lemma InternalKey_min_max_witness :
  InternalKeyComparator.Compare BytewiseComparator
    (InternalKey.SetMinPossibleForUserKey InternalKey.Empty [97]) (InternalKey.New [97] 4 kTypeValue) <= 0.
Proof.
  apply (InternalKey_min_max bytes_ok BytewiseComparator [97] 4 kTypeValue);
    try (repeat constructor; by compute); by compute.
Defined.

(** ** Range tombstones *)

(** A range tombstone is recovered from the entry it is stored as, and its
    end key sorts after every entry of smaller user keys and before every entry
    that a write can give the end user key (a sequence number below the maximum):
    the tombstone does not cover its end key. *)
Theorem RangeTombstone_serialized wf c `{!ComparatorLaws wf c} t p :
  bytes_ok (start_key_ t) → bytes_ok (end_key_ t) → wf (end_key_ t) → is_u 56 (seq_ t) → ts_ t = [] →
  InternalKeyOrder.key_ok wf p → sequence p < kMaxSequenceNumber →
  (∃ s q, ParseInternalKey (fst (Serialize t)) = (s, q) ∧ ok s = true ∧
          RangeTombstoneOfEntry q (snd (Serialize t)) = t) ∧
  (InternalKeyComparator.Compare c (SerializeEndKey t) (AppendInternalKey [] p) < 0 ↔
     Compare c (end_key_ t) (user_key p) <= 0).
Proof.
  intros Hs He Hw Hseq Hts [Hp Hwp] Hmax.
  assert (parsed_ok (mkParsed (start_key_ t) (seq_ t) kTypeRangeDeletion)) as Hk by (split_and!; done).
  split.
  - destruct (ikey_of_parsed _ Hk) as (E1 & E2 & E3 & E4 & _).
    exists Status_OK, (mkParsed (start_key_ t) (seq_ t) kTypeRangeDeletion). cbn [fst snd Serialize].
    unfold SerializeKey, InternalKey.New. rewrite ParseInternalKey_parsed by done.
    assert (parsed_of (AppendInternalKey [] (mkParsed (start_key_ t) (seq_ t) kTypeRangeDeletion)) =
            mkParsed (start_key_ t) (seq_ t) kTypeRangeDeletion) as ->.
    { unfold parsed_of. rewrite E1, E2. by rewrite UnPack_Pack. }
    split_and!; try done. destruct t. cbn in *. by subst.
  - unfold SerializeEndKey. rewrite Hts. change (negb (Zlen (@nil Z) =? 0)) with false. cbn match.
    assert (parsed_ok (mkParsed (end_key_ t) kMaxSequenceNumber kTypeRangeDeletion)) as He'
      by (split_and!; [done|by compute..]).
    unfold InternalKey.New. rewrite InternalKeyOrder.Compare_parsed by done.
    unfold InternalKeyComparator.CompareParsed. cbn [user_key sequence type].
    destruct (Z.eqb_spec (Compare c (end_key_ t) (user_key p)) 0) as [E|E]; [rewrite E|];
      repeat case_match; lia.
Qed.
Lemma RangeTombstone_serialized_witness :
  ∃ s q, ParseInternalKey (fst (Serialize (NewRangeTombstone [97] [98] 7))) = (s, q) ∧ ok s = true ∧
         RangeTombstoneOfEntry q (snd (Serialize (NewRangeTombstone [97] [98] 7))) = NewRangeTombstone [97] [98] 7.
Proof.
  apply (RangeTombstone_serialized bytes_ok BytewiseComparator (NewRangeTombstone [97] [98] 7)
    (mkParsed [98] 3 kTypeValue)); try (repeat constructor; by compute); by compute.
Defined.

(** Neither bound is absolute. The key with the largest sequence number and
    type [kTypeMaxValid], which range tombstone iterators build, sorts before the
    smallest possible key of its user key; and the serialized end key of a
    tombstone sorts after that smallest possible key, although it is documented to
    sort before every other key of its user key. *)
Theorem max_sequence_keys_below_bounds u s :
  InternalKeyComparator.Compare BytewiseComparator (InternalKey.New u kMaxSequenceNumber kTypeMaxValid)
    (InternalKey.SetMinPossibleForUserKey InternalKey.Empty u) < 0 ∧
  InternalKeyComparator.Compare BytewiseComparator (InternalKey.SetMinPossibleForUserKey InternalKey.Empty u)
    (SerializeEndKey (NewRangeTombstone s u 1)) < 0.
Proof.
  unfold SerializeEndKey. cbn [ts_ NewRangeTombstone]. change (negb (Zlen (@nil Z) =? 0)) with false. cbn match.
  unfold InternalKey.New, InternalKey.SetMinPossibleForUserKey, InternalKey.Empty,
    InternalKeyComparator.Compare. rewrite !AppendInternalKey_eq, !ExtractUserKey_app.
  cbn [user_key sequence type end_key_ NewRangeTombstone Compare BytewiseComparator].
  rewrite slice_compare_lex, lexcmp_refl. rewrite Z.eqb_refl.
  assert (∀ n, is_u 64 n → DecodeFixed64 (zdrop (Zlen (u ++ EncodeFixed64 n) - kNumInternalBytes)
    (u ++ EncodeFixed64 n)) = n) as E by (intros; by apply footer_app).
  rewrite !E by (by vm_compute). by vm_compute.
Qed.

(** ** Timestamps *)

(** A user key with a timestamp of [n] bytes and a footer. *)
Lemma ts_key_split (k : bytes) n : 0 <= n → kNumInternalBytes + n <= Zlen k →
  ∃ u ts f, k = u ++ ts ++ f ∧ Zlen ts = n ∧ Zlen f = kNumInternalBytes.
Proof.
  unfold kNumInternalBytes. intros Hn Hl.
  exists (ztake (Zlen k - 8 - n) k), (ztake n (zdrop (Zlen k - 8 - n) k)), (zdrop (Zlen k - 8) k).
  split_and!.
  - rewrite <- (ztake_zdrop (Zlen k - 8 - n) k) at 1. f_equal.
    rewrite <- (ztake_zdrop n (zdrop (Zlen k - 8 - n) k)) at 1. f_equal.
    rewrite zdrop_zdrop by lia. f_equal. lia.
  - apply Zlen_ztake. rewrite Zlen_zdrop; lia.
  - rewrite Zlen_zdrop; lia.
Qed.

Section Surgery.
Context (u ts f : bytes) (Hf : Zlen f = kNumInternalBytes).

Lemma Pad_app n : PadInternalKeyWithMinTimestamp [] (u ++ f) n = u ++ replicate (Z.to_nat n) 0 ++ f.
Proof using Hf.
  unfold PadInternalKeyWithMinTimestamp. rewrite Zlen_app, Hf. cbn [app].
  rewrite ztake_app, zdrop_app, ztake_all by lia. by rewrite <- app_assoc.
Qed.
Lemma Strip_app : StripTimestampFromInternalKey [] (u ++ ts ++ f) (Zlen ts) = u ++ f.
Proof using Hf.
  unfold StripTimestampFromInternalKey. rewrite !Zlen_app, Hf. cbn [app].
  rewrite ztake_app by lia. f_equal. rewrite app_assoc. apply zdrop_app. rewrite Zlen_app. lia.
Qed.
Lemma Replace_app : ReplaceInternalKeyWithMinTimestamp [] (u ++ ts ++ f) (Zlen ts) =
  u ++ replicate (length ts) 0 ++ f.
Proof using Hf.
  unfold ReplaceInternalKeyWithMinTimestamp. rewrite !Zlen_app, Hf. cbn [app].
  rewrite ztake_app by lia. rewrite <- app_assoc. f_equal. unfold Zlen at 1. rewrite Nat2Z.id. f_equal.
  rewrite app_assoc. apply zdrop_app. rewrite Zlen_app. lia.
Qed.
Lemma ExtractTs_app : ExtractTimestampFromKey (u ++ ts ++ f) (Zlen ts) = ts ∧
  ExtractUserKey (u ++ ts ++ f) = u ++ ts ∧
  ExtractUserKeyAndStripTimestamp (u ++ ts ++ f) (Zlen ts) = u.
Proof using Hf.
  unfold ExtractTimestampFromKey, ExtractUserKey, ExtractUserKeyAndStripTimestamp.
  rewrite !Zlen_app, Hf. split_and!.
  - rewrite zdrop_app by lia. by apply ztake_app.
  - rewrite app_assoc. apply ztake_app. rewrite Zlen_app. lia.
  - apply ztake_app. lia.
Qed.
End Surgery.

Lemma StripExtract_app u ts : StripTimestampFromUserKey (u ++ ts) (Zlen ts) = u ∧
  ExtractTimestampFromUserKey (u ++ ts) (Zlen ts) = ts.
Proof.
  unfold StripTimestampFromUserKey, ExtractTimestampFromUserKey. rewrite Zlen_app.
  split; [apply ztake_app|apply zdrop_app]; lia.
Qed.

(** The operations on the timestamps of internal keys are consistent:
    stripping what was padded gives the key back, replacing a timestamp by the
    minimal one is stripping and padding, the two ways of reaching user key and
    timestamp agree, and the two branches of [AppendUserKeyWithMaxTimestamp] do
    the same. *)
Theorem timestamp_operations k n : 0 <= n → kNumInternalBytes + n <= Zlen k →
  StripTimestampFromInternalKey [] (PadInternalKeyWithMinTimestamp [] k n) n = k ∧
  ReplaceInternalKeyWithMinTimestamp [] k n =
    PadInternalKeyWithMinTimestamp [] (StripTimestampFromInternalKey [] k n) n ∧
  ExtractTimestampFromKey (PadInternalKeyWithMinTimestamp [] k n) n = replicate (Z.to_nat n) 0 ∧
  ExtractUserKeyAndStripTimestamp k n = StripTimestampFromUserKey (ExtractUserKey k) n ∧
  ExtractTimestampFromKey k n = ExtractTimestampFromUserKey (ExtractUserKey k) n ∧
  AppendUserKeyWithMaxTimestamp [] (ExtractUserKey k) n =
    AppendKeyWithMaxTimestamp [] (ExtractUserKeyAndStripTimestamp k n) n.
Proof.
  intros Hn Hl. destruct (ts_key_split k n Hn Hl) as (u & ts & f & -> & <- & Hf).
  set (z := replicate (Z.to_nat (Zlen ts)) 0).
  assert (Zlen z = Zlen ts) as Hz by (unfold z; rewrite Zlen_replicate; lia).
  destruct (ExtractTs_app u ts f Hf) as (E1 & E2 & E3). destruct (StripExtract_app u ts) as [E4 E5].
  rewrite E1, E2, E3, E4, E5, (Strip_app u ts f Hf), (Replace_app u ts f Hf), (Pad_app u f Hf).
  split_and!; try done.
  - rewrite (app_assoc u), Pad_app by done. fold z. rewrite <- Hz, Strip_app by done. by rewrite <- app_assoc.
  - unfold Zlen. by rewrite Nat2Z.id.
  - rewrite (app_assoc u), Pad_app by done. fold z. rewrite <- Hz. by destruct (ExtractTs_app (u ++ ts) z f Hf).
  - unfold AppendUserKeyWithMaxTimestamp, AppendKeyWithMaxTimestamp. cbn [app].
    unfold StripTimestampFromUserKey in E4. rewrite E4. change (Zlen kTsMax9) with 9.
    destruct (Z.ltb_spec (Zlen ts) 9); [|done]. f_equal. unfold kTsMax9, ztake. rewrite take_replicate.
    f_equal. lia.
Qed.
Lemma timestamp_operations_witness :
  StripTimestampFromInternalKey [] (PadInternalKeyWithMinTimestamp []
    [1; 2; 3; 4; 5; 6; 7; 8; 9; 10; 11; 12] 2) 2 = [1; 2; 3; 4; 5; 6; 7; 8; 9; 10; 11; 12].
Proof. apply (timestamp_operations [1; 2; 3; 4; 5; 6; 7; 8; 9; 10; 11; 12] 2); by compute. Defined.

(** Under the comparator with 64-bit timestamps, the key with the maximal
    timestamp sorts first and the key with the minimal timestamp last among the
    versions of a user key. *)
Theorem timestamp_bounds u ts : bytes_ok u → bytes_ok ts → Zlen ts = 8 →
  Compare BytewiseComparatorWithU64Ts (AppendKeyWithMaxTimestamp [] u 8) (u ++ ts) <= 0 ∧
  Compare BytewiseComparatorWithU64Ts (u ++ ts) (AppendKeyWithMinTimestamp [] u 8) <= 0.
Proof.
  intros Hu Hts Hl. unfold AppendKeyWithMaxTimestamp, AppendKeyWithMinTimestamp. cbn [app].
  assert (∀ a b, Zlen a = 8 → Zlen b = 8 → Compare BytewiseComparatorWithU64Ts (u ++ a) (u ++ b) =
    - U64Ts_CompareTimestamp a b) as E.
  { intros a b Ha Hb. cbn [Compare BytewiseComparatorWithU64Ts ComparatorWithU64Ts]. unfold U64Ts_Compare,
      U64Ts_CompareWithoutTimestamp.
    destruct (StripExtract_app u a) as [S1 X1]. destruct (StripExtract_app u b) as [S2 X2].
    rewrite Ha in S1, X1. rewrite Hb in S2, X2. rewrite S1, X1, S2, X2.
    cbn [Compare BytewiseComparator]. by rewrite slice_compare_lex, lexcmp_refl. }
  rewrite !E by done. unfold U64Ts_CompareTimestamp.
  change (DecodeFixed64 (replicate (Z.to_nat 8) 255)) with (2 ^ 64 - 1).
  change (DecodeFixed64 (replicate (Z.to_nat 8) 0)) with 0.
  assert (is_u 64 (DecodeFixed64 ts)) as Hd.
  { unfold DecodeFixed64. rewrite ztake_all by lia. replace 64 with (8 * Zlen ts) by lia. by apply le_value_range. }
  unfold is_u in Hd. split; repeat case_match; lia.
Qed.
Lemma timestamp_bounds_witness :
  Compare BytewiseComparatorWithU64Ts (AppendKeyWithMaxTimestamp [] [97] 8) ([97] ++ EncodeFixed64 5) <= 0.
Proof. apply timestamp_bounds; repeat constructor; by compute. Defined.
