(* ===== verification/IterKey.v ===== *)
(** * [IterKey]

    [db/dbformat.h], class [IterKey] (with [IterKey::EnlargeBuffer] of
    [db/dbformat.cc]): the key of an iterator, either copied into a buffer that
    grows or pointing to external memory. The buffer is modelled with its
    contents, so that every copy is seen to stay inside it. *)

From S2P Require Import Prelude Slice Coding Comparator DbFormat.
#[local] Open Scope Z_scope.

(** [memcpy(buf + off, data, |data|)] *)
Definition splice (buf : bytes) (off : Z) (data : bytes) : bytes :=
  ztake off buf ++ data ++ zdrop (off + Zlen data) buf.

Record IterKey := mkIterKey {
  (** the memory at [buf_]; its length is [buf_size_] *)
  buf_ : bytes;
  (** [None]: [key_ == buf_]; [Some s]: [key_] points to external memory [s] *)
  key_ : option bytes;
  key_size_ : Z;
  is_user_key_ : bool
}.

Section IterKey.
(** The bytes of a freshly allocated array of [n] characters, and of [space_]. *)
Context (new_char : Z → bytes).

Definition buf_size_ (k : IterKey) : Z := Zlen (buf_ k).
Definition NewIterKey : IterKey := mkIterKey (new_char 39) None 0 true.
Definition SetIsUserKey (k : IterKey) (b : bool) : IterKey := mkIterKey (buf_ k) (key_ k) (key_size_ k) b.

Definition key_data (k : IterKey) : bytes := default (buf_ k) (key_ k).
Definition GetKey (k : IterKey) : bytes := ztake (key_size_ k) (key_data k).
Definition GetInternalKey (k : IterKey) : bytes := ztake (key_size_ k) (key_data k).
Definition GetUserKey (k : IterKey) : bytes :=
  if is_user_key_ k then ztake (key_size_ k) (key_data k)
  else ztake (key_size_ k - kNumInternalBytes) (key_data k).
Definition Size (k : IterKey) : Z := key_size_ k.
Definition Clear (k : IterKey) : IterKey := mkIterKey (buf_ k) (key_ k) 0 (is_user_key_ k).
Definition IsUserKey (k : IterKey) : bool := is_user_key_ k.
Definition IsKeyPinned (k : IterKey) : bool := bool_decide (is_Some (key_ k)).

Definition with_buf (k : IterKey) (buf : bytes) : IterKey :=
  mkIterKey buf (key_ k) (key_size_ k) (is_user_key_ k).

(** [EnlargeBufferIfNeeded], with [EnlargeBuffer] and [ResetBuffer]: a larger
    buffer is allocated and the key size reset. *)
Definition EnlargeBuffer (k : IterKey) (key_size : Z) : IterKey :=
  mkIterKey (new_char key_size) (key_ k) 0 (is_user_key_ k).
Definition EnlargeBufferIfNeeded (k : IterKey) (key_size : Z) : IterKey :=
  if buf_size_ k <? key_size then EnlargeBuffer k key_size else k.

Definition TrimAppend (k : IterKey) (shared_len : Z) (non_shared_data : bytes) : IterKey :=
  let non_shared_len := Zlen non_shared_data in
  let total_size := shared_len + non_shared_len in
  let buf :=
    if IsKeyPinned k then
      let k' := EnlargeBufferIfNeeded k total_size in
      splice (buf_ k') 0 (ztake shared_len (key_data k))
    else if buf_size_ k <? total_size then
      splice (new_char total_size) 0 (ztake shared_len (key_data k))
    else buf_ k in
  mkIterKey (splice buf shared_len non_shared_data) None total_size (is_user_key_ k).

Definition SetKeyImpl (k : IterKey) (key : bytes) (copy : bool) : IterKey :=
  let size := Zlen key in
  if copy then
    let k' := EnlargeBufferIfNeeded k size in
    mkIterKey (splice (buf_ k') 0 key) None size (is_user_key_ k)
  else mkIterKey (buf_ k) (Some key) size (is_user_key_ k).

Definition SetKey (k : IterKey) (key : bytes) (copy : bool) : IterKey := SetKeyImpl k key copy.
Definition SetUserKey (k : IterKey) (key : bytes) (copy : bool) : IterKey :=
  SetKeyImpl (SetIsUserKey k true) key copy.
Definition SetInternalKey (k : IterKey) (key : bytes) (copy : bool) : IterKey :=
  SetKeyImpl (SetIsUserKey k false) key copy.
(** [SetInternalKey(key, ikey)] also points the user key of [ikey] into the copy. *)
Definition SetInternalKeyUpdating (k : IterKey) (key : bytes) (ikey : ParsedInternalKey) :
    IterKey * ParsedInternalKey :=
  let k := SetInternalKey k key true in
  (k, mkParsed (ztake (Zlen key - kNumInternalBytes) (key_data k)) (sequence ikey) (type ikey)).

Definition Reserve (k : IterKey) (size : Z) : IterKey :=
  let k := EnlargeBufferIfNeeded k size in mkIterKey (buf_ k) (key_ k) size (is_user_key_ k).
Definition OwnKey (k : IterKey) : IterKey :=
  let k' := Reserve k (key_size_ k) in
  mkIterKey (splice (buf_ k') 0 (ztake (key_size_ k) (key_data k))) None (key_size_ k') (is_user_key_ k).

Definition UpdateInternalKey (k : IterKey) (seq t : Z) (ts : option bytes) : IterKey :=
  let buf := match ts with
             | Some ts => splice (buf_ k) (key_size_ k - kNumInternalBytes - Zlen ts) ts
             | None => buf_ k
             end in
  let newval := Z.lor (u64 (Z.shiftl seq 8)) t in
  with_buf k (splice buf (key_size_ k - kNumInternalBytes) (EncodeFixed64 newval)).

(** [SetInternalKey(key_prefix, user_key, s, value_type, ts)]; the other
    overloads call it. *)
Definition SetInternalKeyParts (k : IterKey) (key_prefix user_key : bytes) (s value_type : Z)
    (ts : option bytes) : IterKey :=
  let psize := Zlen key_prefix in
  let usize := Zlen user_key in
  let ts_sz := match ts with Some ts => Zlen ts | None => 0 end in
  let k' := EnlargeBufferIfNeeded k (psize + usize + 8 + ts_sz) in
  let buf := if 0 <? psize then splice (buf_ k') 0 key_prefix else buf_ k' in
  let buf := splice buf psize user_key in
  let buf := match ts with Some ts => splice buf (psize + usize) ts | None => buf end in
  let buf := splice buf (usize + psize + ts_sz) (EncodeFixed64 (PackSequenceAndType s value_type)) in
  mkIterKey buf None (psize + usize + 8 + ts_sz) false.
Definition SetInternalKeyParsed (k : IterKey) (key_prefix : bytes) (parsed : ParsedInternalKey) : IterKey :=
  SetInternalKeyParts k key_prefix (user_key parsed) (sequence parsed) (type parsed) None.

(** [key_size_] is not set here. *)
Definition EncodeLengthPrefixedKey (k : IterKey) (key : bytes) : IterKey :=
  let size := Zlen key in
  let k' := EnlargeBufferIfNeeded k (size + VarintLength size) in
  let prefix := EncodeVarint32 (u32 size) in
  mkIterKey (splice (splice (buf_ k') 0 prefix) (Zlen prefix) key) None (key_size_ k') true.

(** [MaybeAddKeyPartsWithTimestamp]: the parts of a key and whether the
    timestamp has been added. [left_sz] is only looked at when it is. *)
Definition MaybeAddKeyPartsWithTimestamp (slice : bytes) (add_timestamp : bool) (left_sz : Z)
    (min_timestamp : bytes) (acc : list bytes * bool) : list bytes * bool :=
  let '(key_parts, ts_added) := acc in
  if add_timestamp && negb ts_added then
    (key_parts ++ [ztake left_sz slice; min_timestamp; zdrop left_sz slice], true)
  else (key_parts ++ [slice], ts_added).

Definition TrimAppendWithTimestamp (k : IterKey) (shared_len : Z) (non_shared_data : bytes)
    (ts_sz : Z) : IterKey :=
  let non_shared_len := Zlen non_shared_data in
  let kTsMin := replicate (Z.to_nat ts_sz) 0 in
  let key_parts_with_ts :=
    if is_user_key_ k then [ztake shared_len (key_data k); non_shared_data; kTsMin]
    else
      let user_key_len := key_size_ k - kNumInternalBytes in
      let sharable_user_key_len := user_key_len - ts_sz in
      let shared_user_key_len := Z.min shared_len sharable_user_key_len in
      let shared_internal_bytes_len := shared_len - shared_user_key_len in
      let acc := MaybeAddKeyPartsWithTimestamp (ztake shared_user_key_len (key_data k))
                   (shared_internal_bytes_len + non_shared_len <? kNumInternalBytes)
                   (shared_len + non_shared_len - kNumInternalBytes) kTsMin ([], false) in
      let acc := MaybeAddKeyPartsWithTimestamp
                   (ztake shared_internal_bytes_len (zdrop user_key_len (key_data k)))
                   (non_shared_len <? kNumInternalBytes)
                   (shared_internal_bytes_len + non_shared_len - kNumInternalBytes) kTsMin acc in
      let acc := MaybeAddKeyPartsWithTimestamp non_shared_data
                   (kNumInternalBytes <=? non_shared_len)
                   (non_shared_len - kNumInternalBytes) kTsMin acc in
      fst acc in
  SetKey k (concat key_parts_with_ts) true.

(** ** What the operations do *)

Context (new_char_len : ∀ n, 0 <= n → Zlen (new_char n) = n).

Definition iter_ok (k : IterKey) : Prop :=
  0 <= key_size_ k <= Zlen (key_data k) ∧ 39 <= Zlen (buf_ k).

Lemma Zlen_splice buf off data : 0 <= off → off + Zlen data <= Zlen buf →
  Zlen (splice buf off data) = Zlen buf.
Proof using.
  intros. pose proof (Zlen_nonneg data). unfold splice.
  rewrite !Zlen_app, Zlen_ztake, Zlen_zdrop by lia. lia.
Qed.
Lemma ztake_splice_end buf off data : 0 <= off → off + Zlen data <= Zlen buf →
  ztake (off + Zlen data) (splice buf off data) = ztake off buf ++ data.
Proof using.
  intros. pose proof (Zlen_nonneg data). unfold splice. rewrite app_assoc. apply ztake_app.
  rewrite Zlen_app, Zlen_ztake; lia.
Qed.
Lemma ztake_splice0 buf data : Zlen data <= Zlen buf → ztake (Zlen data) (splice buf 0 data) = data.
Proof using. intros. rewrite <- (Z.add_0_l (Zlen data)) at 1. by rewrite ztake_splice_end by lia. Qed.

Lemma Enlarge_spec k n : 39 <= Zlen (buf_ k) → 0 <= n →
  n <= Zlen (buf_ (EnlargeBufferIfNeeded k n)) ∧ 39 <= Zlen (buf_ (EnlargeBufferIfNeeded k n)).
Proof using new_char_len.
  intros Hk Hn. unfold EnlargeBufferIfNeeded, EnlargeBuffer, buf_size_.
  destruct (Z.ltb_spec (Zlen (buf_ k)) n); cbn [buf_]; rewrite ?new_char_len by done; lia.
Qed.

Lemma GetKey_len k : iter_ok k → Zlen (GetKey k) = key_size_ k.
Proof using. intros [? _]. by apply Zlen_ztake. Qed.

Lemma TrimAppend_append k shared_len data : iter_ok k → 0 <= shared_len <= key_size_ k →
  GetKey (TrimAppend k shared_len data) = ztake shared_len (GetKey k) ++ data ∧
  IsKeyPinned (TrimAppend k shared_len data) = false ∧ iter_ok (TrimAppend k shared_len data) ∧
  Size (TrimAppend k shared_len data) = shared_len + Zlen data.
Proof using new_char_len.
  intros [Hk Hbuf] Hsh. pose proof (Zlen_nonneg data).
  assert (ztake shared_len (GetKey k) = ztake shared_len (key_data k)) as ->
    by (apply ztake_ztake; lia).
  set (total := shared_len + Zlen data). set (pre := ztake shared_len (key_data k)).
  assert (Zlen pre = shared_len) as Hpre by (apply Zlen_ztake; lia).
  unfold TrimAppend. fold total. fold pre.
  set (buf := if IsKeyPinned k then _ else _).
  assert (total <= Zlen buf ∧ 39 <= Zlen buf ∧ ztake shared_len buf = pre) as (Hb1 & Hb2 & Hb3).
  { unfold buf. destruct (IsKeyPinned k) eqn:Hpin; [|destruct (Z.ltb_spec (buf_size_ k) total) as [Hlt|]].
    - destruct (Enlarge_spec k total Hbuf) as [Hl1 Hl2]; [unfold total; lia|].
      rewrite Zlen_splice by (unfold total in *; lia). split_and!; [done..|].
      rewrite <- Hpre at 1. apply ztake_splice0. unfold total in *. lia.
    - assert (Zlen (new_char total) = total) as Hn by (apply new_char_len; unfold total; lia).
      unfold buf_size_ in *. rewrite Zlen_splice by (unfold total in *; lia). split_and!; [lia..|].
      rewrite <- Hpre at 1. apply ztake_splice0. unfold total in *. lia.
    - unfold IsKeyPinned in Hpin. apply bool_decide_eq_false in Hpin. unfold pre, key_data.
      destruct (key_ k); [exfalso; eauto|]. unfold buf_size_ in *. split_and!; [done..|reflexivity]. }
  clearbody buf. unfold GetKey, iter_ok, Size, key_data, IsKeyPinned. cbn [key_ key_size_ buf_ default].
  unfold total at 1. rewrite ztake_splice_end, Hb3, Zlen_splice by (unfold total in *; lia).
  split_and!; try done; unfold total in *; lia.
Qed.

Lemma SetKeyImpl_spec k key copy : 39 <= Zlen (buf_ k) →
  GetKey (SetKeyImpl k key copy) = key ∧ iter_ok (SetKeyImpl k key copy) ∧
  IsKeyPinned (SetKeyImpl k key copy) = negb copy.
Proof using new_char_len.
  intros Hk. pose proof (Zlen_nonneg key). unfold SetKeyImpl.
  destruct (Enlarge_spec k (Zlen key) Hk) as [H1 H2]; [done|].
  unfold GetKey, iter_ok, key_data, IsKeyPinned.
  destruct copy; cbn [key_ key_size_ buf_ default negb].
  - rewrite ztake_splice0, Zlen_splice by lia. split_and!; done || lia.
  - rewrite (ztake_all _ key) by lia. split_and!; done || lia.
Qed.

(** Inserting [z] into [a ++ b ++ d] eight bytes before its end. *)
Lemma insert_parts (a b d z : bytes) : kNumInternalBytes <= Zlen a + Zlen b + Zlen d →
  concat (fst (MaybeAddKeyPartsWithTimestamp d (kNumInternalBytes <=? Zlen d) (Zlen d - kNumInternalBytes) z
    (MaybeAddKeyPartsWithTimestamp b (Zlen d <? kNumInternalBytes) (Zlen b + Zlen d - kNumInternalBytes) z
      (MaybeAddKeyPartsWithTimestamp a (Zlen b + Zlen d <? kNumInternalBytes)
         (Zlen a + Zlen b + Zlen d - kNumInternalBytes) z ([], false))))) =
  let n := Zlen (a ++ b ++ d) - kNumInternalBytes in
  ztake n (a ++ b ++ d) ++ z ++ zdrop n (a ++ b ++ d).
Proof using.
  intros H8. cbv zeta. unfold MaybeAddKeyPartsWithTimestamp, kNumInternalBytes in *.
  pose proof (Zlen_nonneg a). pose proof (Zlen_nonneg b). pose proof (Zlen_nonneg d). rewrite !Zlen_app.
  destruct (Z.ltb_spec (Zlen b + Zlen d) 8); cbn [andb negb app fst concat].
  - rewrite !andb_false_r. cbn [fst app concat]. rewrite ztake_app_le, zdrop_app_le by lia.
    rewrite app_nil_r, <- ?app_assoc. by rewrite !Z.add_assoc.
  - rewrite ztake_app_ge, zdrop_app_ge by lia.
    replace (Zlen a + (Zlen b + Zlen d) - 8 - Zlen a) with (Zlen b + Zlen d - 8) by lia.
    destruct (Z.ltb_spec (Zlen d) 8); cbn [andb negb app fst concat].
    + rewrite !andb_false_r. cbn [fst app concat]. rewrite ztake_app_le, zdrop_app_le by lia.
      by rewrite app_nil_r, <- ?app_assoc.
    + rewrite ztake_app_ge, zdrop_app_ge by lia. destruct (Z.leb_spec 8 (Zlen d)); [|lia].
      cbn [andb negb app fst concat]. replace (Zlen b + Zlen d - 8 - Zlen b) with (Zlen d - 8) by lia.
      by rewrite app_nil_r, <- ?app_assoc.
Qed.

Lemma TrimAppendWithTimestamp_internal k shared_len data ts_sz u ts f :
  iter_ok k → is_user_key_ k = false → GetKey k = u ++ ts ++ f → Zlen ts = ts_sz →
  Zlen f = kNumInternalBytes → 0 <= shared_len <= Zlen (u ++ f) →
  kNumInternalBytes <= shared_len + Zlen data →
  let stored := StripTimestampFromInternalKey [] (GetKey k) ts_sz in
  GetKey (TrimAppendWithTimestamp k shared_len data ts_sz) =
    PadInternalKeyWithMinTimestamp [] (ztake shared_len stored ++ data) ts_sz ∧
  iter_ok (TrimAppendWithTimestamp k shared_len data ts_sz).
Proof using new_char_len.
  intros Hk Huser Hkey Hts Hf Hsh H8. cbv zeta. pose proof (Zlen_nonneg u). pose proof (Zlen_nonneg ts).
  pose proof (GetKey_len k Hk) as Hsize. destruct Hk as [Hks Hbuf].
  rewrite Hkey, <- Hts, Strip_app by done. rewrite Zlen_app, Hf in Hsh. unfold kNumInternalBytes in *.
  rewrite Hkey, !Zlen_app, Hf in Hsize.
  assert (key_data k = u ++ ts ++ f ++ zdrop (key_size_ k) (key_data k)) as Hdata.
  { rewrite <- (ztake_zdrop (key_size_ k) (key_data k)) at 1. fold (GetKey k). rewrite Hkey.
    by rewrite <- !app_assoc. }
  set (su := Z.min shared_len (Zlen u)). set (si := shared_len - su).
  unfold TrimAppendWithTimestamp, SetKey. rewrite Huser. unfold kNumInternalBytes.
  replace (key_size_ k - 8 - Zlen ts) with (Zlen u) by lia. fold su. fold si.
  assert (ztake su (key_data k) = ztake su u) as -> by (rewrite Hdata; apply ztake_app_le; lia).
  assert (ztake si (zdrop (key_size_ k - 8) (key_data k)) = ztake si f) as ->.
  { rewrite Hdata, app_assoc, zdrop_app by (rewrite Zlen_app; lia). apply ztake_app_le. lia. }
  assert (Zlen (ztake su u) = su) as Hsu by (apply Zlen_ztake; lia).
  assert (Zlen (ztake si f) = si) as Hsi by (apply Zlen_ztake; lia).
  assert (ztake shared_len (u ++ f) = ztake su u ++ ztake si f) as ->.
  { unfold si, su. destruct (Z.min_spec shared_len (Zlen u)) as [[? ->]|[? ->]].
    - rewrite ztake_app_le, Z.sub_diag, ztake_0 by lia. by rewrite app_nil_r.
    - rewrite ztake_app_ge by lia. by rewrite (ztake_all (Zlen u)). }
  set (z := replicate (Z.to_nat (Zlen ts)) 0).
  pose proof (insert_parts (ztake su u) (ztake si f) data z) as Hins. rewrite Hsu, Hsi in Hins.
  unfold kNumInternalBytes in Hins. specialize (Hins ltac:(lia)).
  replace (su + si + Zlen data - 8) with (shared_len + Zlen data - 8) in Hins by lia.
  rewrite Hins. set (new := ztake su u ++ ztake si f ++ data).
  assert (PadInternalKeyWithMinTimestamp [] ((ztake su u ++ ztake si f) ++ data) (Zlen ts) =
    ztake (Zlen new - 8) new ++ z ++ zdrop (Zlen new - 8) new) as ->.
  { rewrite <- app_assoc. fold new. unfold PadInternalKeyWithMinTimestamp, kNumInternalBytes. cbn [app].
    rewrite <- app_assoc. fold z. do 2 f_equal. apply ztake_all.
    assert (8 <= Zlen new) by (unfold new; rewrite !Zlen_app; lia). rewrite Zlen_zdrop; lia. }
  destruct (SetKeyImpl_spec k (ztake (Zlen new - 8) new ++ z ++ zdrop (Zlen new - 8) new) true Hbuf)
    as (-> & Hok & _). done.
Qed.

Lemma SetInternalKeyParts_spec k prefix u s t ts : iter_ok k →
  GetKey (SetInternalKeyParts k prefix u s t ts) =
    AppendInternalKey prefix (mkParsed (u ++ default [] ts) s t) ∧
  iter_ok (SetInternalKeyParts k prefix u s t ts).
Proof using new_char_len.
  intros [_ Hbuf]. pose proof (Zlen_nonneg prefix). pose proof (Zlen_nonneg u).
  unfold SetInternalKeyParts.
  assert (match ts with Some ts => Zlen ts | None => 0 end = Zlen (default [] ts)) as -> by (by destruct ts).
  set (t0 := default [] ts). pose proof (Zlen_nonneg t0). set (foot := EncodeFixed64 _).
  assert (Zlen foot = 8) as Hfoot by apply Zlen_EncodeFixed64.
  set (total := Zlen prefix + Zlen u + 8 + Zlen t0).
  destruct (Enlarge_spec k total Hbuf) as [Hl Hl39]; [unfold total; lia|].
  set (b := buf_ (EnlargeBufferIfNeeded k total)) in *.
  assert (Zlen prefix + Zlen u + Zlen t0 + 8 <= Zlen b) as Hroom by (unfold total in *; lia).
  set (b1 := if 0 <? Zlen prefix then splice b 0 prefix else b).
  assert (Zlen b1 = Zlen b ∧ ztake (Zlen prefix) b1 = prefix) as [L1 E1].
  { unfold b1. destruct (Z.ltb_spec 0 (Zlen prefix)).
    - rewrite Zlen_splice, ztake_splice0 by lia. done.
    - split; [done|]. replace (Zlen prefix) with 0 by lia. symmetry. apply Zlen_0_nil. lia. }
  set (b2 := splice b1 (Zlen prefix) u).
  assert (Zlen b2 = Zlen b ∧ ztake (Zlen prefix + Zlen u) b2 = prefix ++ u) as [L2 E2].
  { unfold b2. rewrite Zlen_splice, ztake_splice_end, E1 by lia. done. }
  set (b3 := match ts with Some ts => _ | None => b2 end).
  assert (Zlen b3 = Zlen b ∧ ztake (Zlen prefix + Zlen u + Zlen t0) b3 = prefix ++ u ++ t0) as [L3 E3].
  { unfold b3. clearbody b total. destruct ts as [ts|]; subst t0; cbn [from_option id] in *.
    - rewrite Zlen_splice, ztake_splice_end, E2 by lia. by rewrite <- app_assoc.
    - change (Zlen (@nil Z)) with 0. by rewrite Z.add_0_r, app_nil_r. }
  replace (Zlen u + Zlen prefix + Zlen t0) with (Zlen prefix + Zlen u + Zlen t0) by lia.
  unfold GetKey, iter_ok, key_data. cbn [key_ key_size_ buf_ default]. change (from_option id ?a None) with a.
  rewrite Zlen_splice by lia. split; [|unfold total; lia].
  replace total with (Zlen prefix + Zlen u + Zlen t0 + Zlen foot) by (unfold total; lia).
  rewrite ztake_splice_end, E3 by lia.
  unfold AppendInternalKey, PutFixed64. cbn [user_key sequence type]. fold foot. by rewrite <- !app_assoc.
Qed.

Lemma EncodeLengthPrefixedKey_spec k key : iter_ok k → Zlen key < 2 ^ 32 →
  ztake (VarintLength (Zlen key) + Zlen key) (key_data (EncodeLengthPrefixedKey k key)) =
    PutLengthPrefixedSlice [] key.
Proof using new_char_len.
  intros [_ Hbuf] Hkey. pose proof (Zlen_nonneg key).
  assert (is_u 32 (Zlen key)) as Hu by (unfold is_u; lia).
  assert (is_u 64 (Zlen key)) as Hu64 by (unfold is_u; lia).
  unfold EncodeLengthPrefixedKey. rewrite wrap_small by done.
  rewrite EncodeVarint32_64 by done. rewrite VarintLength_spec by done.
  set (pre := EncodeVarint64 (Zlen key)). pose proof (Zlen_nonneg pre).
  destruct (Enlarge_spec k (Zlen key + Zlen pre) Hbuf) as [Hl _]; [lia|].
  set (b := buf_ (EnlargeBufferIfNeeded k (Zlen key + Zlen pre))) in *.
  unfold key_data. cbn [key_ buf_ default]. change (from_option id ?a None) with a.
  rewrite ztake_splice_end, ztake_splice0 by (rewrite ?Zlen_splice; lia).
  unfold PutLengthPrefixedSlice, PutVarint32. rewrite wrap_small by done. by rewrite EncodeVarint32_64.
Qed.

(** The same for keys without a footer. *)
Lemma TrimAppendWithTimestamp_user k shared_len data ts_sz : iter_ok k → is_user_key_ k = true →
  0 <= shared_len <= key_size_ k →
  GetKey (TrimAppendWithTimestamp k shared_len data ts_sz) =
    AppendKeyWithMinTimestamp [] (ztake shared_len (GetKey k) ++ data) ts_sz ∧
  iter_ok (TrimAppendWithTimestamp k shared_len data ts_sz).
Proof using new_char_len.
  intros [_ Hbuf] Hu Hsh. unfold TrimAppendWithTimestamp, SetKey. rewrite Hu.
  destruct (SetKeyImpl_spec k (concat [ztake shared_len (key_data k); data; replicate (Z.to_nat ts_sz) 0]) true Hbuf)
    as (-> & Hok & _). split; [|done]. unfold AppendKeyWithMinTimestamp, GetKey.
  rewrite ztake_ztake by lia. cbn [concat app]. by rewrite app_nil_r, <- app_assoc.
Qed.

(** [TrimAppend] keeps the shared prefix of the current key and appends the
    new bytes, whether the key was pinned, the buffer had to grow, or the bytes
    are written in place; the copies stay inside the buffer and the key ends up
    owned. *)
Theorem TrimAppend_spec k shared_len data : iter_ok k → 0 <= shared_len <= key_size_ k →
  GetKey (TrimAppend k shared_len data) = ztake shared_len (GetKey k) ++ data ∧
  IsKeyPinned (TrimAppend k shared_len data) = false ∧ iter_ok (TrimAppend k shared_len data) ∧
  Size (TrimAppend k shared_len data) = shared_len + Zlen data.
Proof using new_char_len. apply TrimAppend_append. Qed.

(** When the keys of a block were stored without their timestamps, [k] holds
    an internal key with its timestamp put back, and the next stored key shares
    [shared_len] bytes with the stored form of [k], [TrimAppendWithTimestamp]
    produces the next key with a minimal timestamp in front of its footer,
    wherever the timestamp falls among shared and new bytes. *)
Theorem TrimAppendWithTimestamp_spec k shared_len data ts_sz u ts f :
  iter_ok k → is_user_key_ k = false → GetKey k = u ++ ts ++ f → Zlen ts = ts_sz →
  Zlen f = kNumInternalBytes → 0 <= shared_len <= Zlen (u ++ f) →
  kNumInternalBytes <= shared_len + Zlen data →
  let stored := StripTimestampFromInternalKey [] (GetKey k) ts_sz in
  GetKey (TrimAppendWithTimestamp k shared_len data ts_sz) =
    PadInternalKeyWithMinTimestamp [] (ztake shared_len stored ++ data) ts_sz ∧
  iter_ok (TrimAppendWithTimestamp k shared_len data ts_sz).
Proof using new_char_len. apply TrimAppendWithTimestamp_internal. Qed.

(** The other ways of filling an [IterKey]. A key that is set is returned,
    copied or pinned, and owning a pinned key keeps it; the parts of an internal
    key are laid out as [AppendInternalKey] would; updating the sequence number
    and type rewrites the footer only; [EncodeLengthPrefixedKey] leaves the
    encoded key at [key_] (but not its size). *)
Theorem IterKey_setters k key prefix u s t ts copy : iter_ok k → Zlen key < 2 ^ 32 →
  GetKey (SetKey k key copy) = key ∧
  GetKey (OwnKey (SetKey k key false)) = key ∧ IsKeyPinned (OwnKey (SetKey k key false)) = false ∧
  GetUserKey (SetUserKey k key copy) = key ∧
  (kNumInternalBytes <= Zlen key → GetUserKey (SetInternalKey k key copy) = ExtractUserKey key) ∧
  GetKey (SetInternalKeyParts k prefix u s t ts) =
    AppendInternalKey prefix (mkParsed (u ++ default [] ts) s t) ∧
  (kNumInternalBytes <= Zlen key →
    GetKey (UpdateInternalKey (SetInternalKey k key true) s t None) = DbFormat.UpdateInternalKey key s t) ∧
  ztake (VarintLength (Zlen key) + Zlen key) (key_data (EncodeLengthPrefixedKey k key)) =
    PutLengthPrefixedSlice [] key.
Proof using new_char_len.
  intros Hk Hkey. pose proof Hk as [_ Hbuf]. pose proof (Zlen_nonneg key).
  destruct (SetKeyImpl_spec k key copy Hbuf) as (E1 & _ & _).
  destruct (SetKeyImpl_spec (SetIsUserKey k true) key copy Hbuf) as (E2 & _ & _).
  destruct (SetKeyImpl_spec (SetIsUserKey k false) key copy Hbuf) as (E3 & Hok3 & _).
  split_and!; try done.
  - unfold SetKey, SetKeyImpl, OwnKey, Reserve. cbn [key_ key_size_ buf_].
    destruct (Enlarge_spec (mkIterKey (buf_ k) (Some key) (Zlen key) (is_user_key_ k)) (Zlen key) Hbuf)
      as [Hl _]; [done|].
    unfold GetKey, key_data. cbn [key_ key_size_ buf_ default]. change (from_option id ?a None) with a.
    change (from_option id ?a (Some key)) with key. rewrite (ztake_all _ key) by lia. by apply ztake_splice0.
  - unfold GetUserKey, SetUserKey. unfold GetKey in E2. unfold SetKeyImpl in *. destruct copy; done.
  - intros _. transitivity (ExtractUserKey (GetKey (SetInternalKey k key copy))); [|by unfold SetInternalKey; rewrite E3].
    unfold GetUserKey, SetInternalKey, ExtractUserKey. rewrite GetKey_len by done. unfold GetKey. rewrite ztake_ztake by (unfold kNumInternalBytes; lia).
    unfold SetKeyImpl. destruct copy; done.
  - by apply SetInternalKeyParts_spec.
  - intros H8. unfold DbFormat.UpdateInternalKey, UpdateInternalKey, SetInternalKey.
    destruct (SetKeyImpl_spec (SetIsUserKey k false) key true Hbuf) as (E4 & Hok4 & _).
    set (k1 := SetKeyImpl _ key true) in *. pose proof (GetKey_len k1 Hok4) as Hl. rewrite E4 in Hl.
    assert (key_data k1 = buf_ k1) as Hd by done. destruct Hok4 as [Hs _]. rewrite Hd in Hs.
    set (foot := EncodeFixed64 _). assert (Zlen foot = 8) as Hf by apply Zlen_EncodeFixed64.
    unfold GetKey, with_buf, key_data. cbn [key_ key_size_ buf_].
    change (key_ k1) with (@None bytes). change (from_option id ?a None) with a.
    unfold kNumInternalBytes in *. rewrite <- Hl.
    replace (Zlen key) with (Zlen key - 8 + Zlen foot) at 1 by lia.
    rewrite ztake_splice_end by lia. f_equal. transitivity (ztake (Zlen key - 8) (GetKey k1)); [|by rewrite E4].
    unfold GetKey. rewrite Hd, <- Hl. symmetry. apply ztake_ztake. lia.
  - by apply EncodeLengthPrefixedKey_spec.
Qed.
End IterKey.

(** ** A concrete buffer *)

Module IterKeyExample.
Definition new_char (n : Z) : bytes := replicate (Z.to_nat n) 0.
Lemma new_char_len n : 0 <= n → Zlen (new_char n) = n.
Proof. intros. unfold new_char, Zlen. rewrite length_replicate. lia. Qed.

(** A pinned internal key: user key [7 8], timestamp [1 2], footer of nine. *)
Definition key : bytes := [7; 8; 1; 2; 1; 9; 0; 0; 0; 0; 0; 0].
Definition pinned : IterKey := SetInternalKey new_char (NewIterKey new_char) key false.
Lemma pinned_ok : iter_ok pinned.
Proof. by vm_compute. Qed.

Lemma TrimAppend_spec_witness :
  GetKey (TrimAppend new_char pinned 2 [5; 6]) = ztake 2 (GetKey pinned) ++ [5; 6] ∧
  IsKeyPinned (TrimAppend new_char pinned 2 [5; 6]) = false ∧ iter_ok (TrimAppend new_char pinned 2 [5; 6]) ∧
  Size (TrimAppend new_char pinned 2 [5; 6]) = 4.
Proof. apply (TrimAppend_spec new_char new_char_len pinned 2 [5; 6] pinned_ok). by vm_compute. Defined.

Lemma TrimAppendWithTimestamp_spec_witness :
  GetKey (TrimAppendWithTimestamp new_char pinned 4 [3; 4; 5; 6; 7; 8] 2) =
    PadInternalKeyWithMinTimestamp []
      (ztake 4 (StripTimestampFromInternalKey [] key 2) ++ [3; 4; 5; 6; 7; 8]) 2 ∧
  iter_ok (TrimAppendWithTimestamp new_char pinned 4 [3; 4; 5; 6; 7; 8] 2).
Proof.
  apply (TrimAppendWithTimestamp_spec new_char new_char_len pinned 4 [3; 4; 5; 6; 7; 8] 2
    [7; 8] [1; 2] [1; 9; 0; 0; 0; 0; 0; 0] pinned_ok); by vm_compute.
Defined.

Lemma IterKey_setters_witness :
  GetKey (SetKey new_char pinned key true) = key ∧
  GetKey (SetInternalKeyParts new_char pinned [3] [4; 5] 6 1 (Some [7])) =
    AppendInternalKey [3] (mkParsed ([4; 5] ++ [7]) 6 1).
Proof.
  destruct (IterKey_setters new_char new_char_len pinned key [3] [4; 5] 6 1 (Some [7]) true pinned_ok)
    as (H1 & _ & _ & _ & _ & H2 & _); [by vm_compute|]. by split.
Defined.
End IterKeyExample.
