(* ===== verification/BlockHashIndex.v ===== *)
(** * The hash index of a data block

    [table/block_based/data_block_hash_index.h] and [.cc], with the hash
    function of [util/hash.cc] it uses: the builder collects the hash and the
    restart index of every user key of a block and appends a table of one byte
    buckets; the reader looks a user key up in the table. The number of buckets
    is estimated in doubles, which are the binary64 numbers of [SpecFloat]. *)

From Stdlib Require Import SpecFloat.
From S2P Require Import Prelude Coding.
#[local] Open Scope Z_scope.

(** ** The hash *)

Definition hash_m : Z := 0xc6a4a793.

(** [while (data + 4 <= limit)]: the hash and the bytes that remain. *)
Fixpoint Hash_loop (fuel : nat) (h : Z) (data : bytes) : Z * bytes :=
  match fuel with
  | O => (h, data)
  | S fuel =>
      if 4 <=? Zlen data then
        let h := u32 (h + DecodeFixed32 data) in
        let h := u32 (h * hash_m) in
        Hash_loop fuel (Z.lxor h (Z.shiftr h 16)) (zdrop 4 data)
      else (h, data)
  end.

(** The [switch] on the number of remaining bytes, cases falling through. A
    byte is converted to [int8_t] and then to [uint32_t]. *)
Definition Hash (data : bytes) (seed : Z) : Z :=
  let h := u32 (Z.lxor seed (u64 (Zlen data * hash_m))) in
  let '(h, data) := Hash_loop (length data) h data in
  let n := Zlen data in
  let h := if n =? 3 then u32 (h + u32 (Z.shiftl (char_as_u 32 (znth data 2)) 16)) else h in
  let h := if (n =? 3) || (n =? 2) then u32 (h + u32 (Z.shiftl (char_as_u 32 (znth data 1)) 8)) else h in
  if (n =? 3) || (n =? 2) || (n =? 1) then
    let h := u32 (h + char_as_u 32 (znth data 0)) in
    let h := u32 (h * hash_m) in
    Z.lxor h (Z.shiftr h 24)
  else h.

Definition GetSliceHash (s : bytes) : Z := Hash s 397.

(** ** Building *)

Definition kNoEntry : Z := 255.
Definition kCollision : Z := 254.
Definition kMaxRestartSupportedByHashIndex : Z := 253.
Definition kMaxBlockSizeSupportedByHashIndex : Z := Z.shiftl 1 16.

(** [double] *)
Definition double : Set := spec_float.
Definition kDefaultUtilRatio : double := S754_finite false 3 (-2).
Definition double_of_int (z : Z) : double :=
  match z with Z0 => S754_zero false | Zpos p => S754_finite false p 0 | Zneg p => S754_finite true p 0 end.
Definition double_add : double → double → double := SFadd 53 1024.
Definition double_div : double → double → double := SFdiv 53 1024.

(** [static_cast<uint16_t>] of a double that is not negative: truncation.
    (Outside of the range of the type the result is not specified.) *)
Definition double_to_u16 (d : double) : Z :=
  match d with
  | S754_finite false m e => u16 (Z.shiftl (Zpos m) e)
  | _ => 0
  end.

Record DataBlockHashIndexBuilder := mkHashBuilder {
  bucket_per_key_ : double;
  estimated_num_buckets_ : double;
  valid_ : bool;
  hash_and_restart_pairs_ : list (Z * Z)
}.

Definition NewDataBlockHashIndexBuilder : DataBlockHashIndexBuilder :=
  mkHashBuilder (double_of_int (-1)) (double_of_int 0) false [].

Definition HashIndex_Initialize (b : DataBlockHashIndexBuilder) (util_ratio : double) :
    DataBlockHashIndexBuilder :=
  let util_ratio := if SFleb util_ratio (double_of_int 0) then kDefaultUtilRatio else util_ratio in
  mkHashBuilder (double_div (double_of_int 1) util_ratio) (estimated_num_buckets_ b) true
    (hash_and_restart_pairs_ b).

Definition HashIndex_Valid (b : DataBlockHashIndexBuilder) : bool :=
  valid_ b && SFltb (double_of_int 0) (bucket_per_key_ b).

Definition HashIndex_Add (b : DataBlockHashIndexBuilder) (key : bytes) (restart_index : Z) :
    DataBlockHashIndexBuilder :=
  if kMaxRestartSupportedByHashIndex <? restart_index then
    mkHashBuilder (bucket_per_key_ b) (estimated_num_buckets_ b) false (hash_and_restart_pairs_ b)
  else
    mkHashBuilder (bucket_per_key_ b) (double_add (estimated_num_buckets_ b) (bucket_per_key_ b)) (valid_ b)
      (hash_and_restart_pairs_ b ++ [(GetSliceHash key, u8 restart_index)]).

(** The number of buckets that [Finish] makes of the estimate. *)
Definition num_buckets (b : DataBlockHashIndexBuilder) : Z :=
  let n := double_to_u16 (estimated_num_buckets_ b) in
  let n := if n =? 0 then 1 else n in
  Z.lor n 1.

(** [for (auto& entry : hash_and_restart_pairs_)] *)
Definition fill_bucket (n : Z) (buckets : bytes) (entry : Z * Z) : bytes :=
  let '(hash_value, restart_index) := entry in
  let buck_idx := Z.to_nat (u16 (hash_value mod n)) in
  let v := nth buck_idx buckets 0 in
  if v =? kNoEntry then <[buck_idx := restart_index]> buckets
  else if negb (v =? restart_index) then <[buck_idx := kCollision]> buckets
  else buckets.
Definition fill_buckets (n : Z) (pairs : list (Z * Z)) : bytes :=
  fold_left (fill_bucket n) pairs (replicate (Z.to_nat n) kNoEntry).

Definition HashIndex_Finish (b : DataBlockHashIndexBuilder) (buffer : bytes) : bytes :=
  let n := num_buckets b in
  PutFixed16 (buffer ++ fill_buckets n (hash_and_restart_pairs_ b)) n.

Definition HashIndex_Reset (b : DataBlockHashIndexBuilder) : DataBlockHashIndexBuilder :=
  mkHashBuilder (bucket_per_key_ b) (double_of_int 0) true [].

Definition HashIndex_EstimateSize (b : DataBlockHashIndexBuilder) : Z :=
  2 + Z.lor (double_to_u16 (estimated_num_buckets_ b)) 1.

(** ** Reading *)

(** [DataBlockHashIndex::Initialize]: [num_buckets_] and the offset of the
    table in [data], whose first [size] bytes end with the index. *)
Definition HashIndex_Open (data : bytes) (size : Z) : Z * Z :=
  let num_buckets_ := DecodeFixed16 (zdrop (size - 2) data) in
  (num_buckets_, u16 (size - 2 - num_buckets_)).

Definition HashIndex_Lookup (num_buckets_ : Z) (data : bytes) (map_offset : Z) (key : bytes) : Z :=
  let idx := u16 (GetSliceHash key mod num_buckets_) in
  znth data (map_offset + idx).

(** ** What a lookup returns *)

Lemma num_buckets_range b : is_u 16 (num_buckets b) ∧ 1 <= num_buckets b.
Proof.
  unfold num_buckets. set (n := double_to_u16 _).
  assert (is_u 16 n) as Hn.
  { unfold n, double_to_u16. destruct (estimated_num_buckets_ b) as [| | |[]]; try done. by apply wrap_range. }
  set (n' := if n =? 0 then 1 else n). assert (is_u 16 n') by (unfold n'; by case_match).
  split; [by apply is_u_lor|].
  assert (0 <= Z.lor n' 1) by (apply Z.lor_nonneg; unfold is_u in *; lia).
  assert (Z.testbit (Z.lor n' 1) 0 = true) as Hb by (by rewrite Z.lor_spec, orb_true_r).
  destruct (Z.eq_dec (Z.lor n' 1) 0) as [E|]; [by rewrite E in Hb|lia].
Qed.

Lemma length_fill_bucket n bs e : length (fill_bucket n bs e) = length bs.
Proof. unfold fill_bucket. repeat case_match; by rewrite ?length_insert. Qed.
Lemma length_fold_fill n pairs bs : length (fold_left (fill_bucket n) pairs bs) = length bs.
Proof. revert bs. induction pairs; intros; cbn; [done|]. by rewrite IHpairs, length_fill_bucket. Qed.
Lemma Zlen_fill_buckets n pairs : 0 <= n → Zlen (fill_buckets n pairs) = n.
Proof. intros. unfold Zlen, fill_buckets. rewrite length_fold_fill, length_replicate. lia. Qed.

Lemma nth_insert_eq (bs : bytes) i v : (i < length bs)%nat → nth i (<[i := v]> bs) 0 = v.
Proof. intros. apply nth_lookup_Some. by rewrite list_lookup_insert_eq. Qed.
Lemma nth_insert_ne (bs : bytes) i j v : i ≠ j → nth j (<[i := v]> bs) 0 = nth j bs 0.
Proof. intros. by rewrite !nth_lookup, list_lookup_insert_ne. Qed.

Definition bucket_of (n : Z) (h : Z) : nat := Z.to_nat (u16 (h mod n)).
(** A bucket that has taken [r] keeps it or marks a collision. *)
Definition settled (r v : Z) : Prop := v = r ∨ v = kCollision.

Lemma fill_bucket_own n bs h r : (bucket_of n h < length bs)%nat →
  settled r (nth (bucket_of n h) (fill_bucket n bs (h, r)) 0).
Proof.
  intros Hi. unfold fill_bucket. fold (bucket_of n h). set (i := bucket_of n h) in *.
  destruct (Z.eqb_spec (nth i bs 0) kNoEntry); [left; by apply nth_insert_eq|].
  destruct (Z.eqb_spec (nth i bs 0) r); cbn [negb]; [by left|right; by apply nth_insert_eq].
Qed.
Lemma fill_bucket_settled n bs h r r' i : r <= 253 → r' <= 253 → (i < length bs)%nat →
  settled r (nth i bs 0) → settled r (nth i (fill_bucket n bs (h, r')) 0).
Proof.
  intros Hr Hr' Hi Hs. unfold fill_bucket. fold (bucket_of n h). set (k := bucket_of n h).
  destruct (decide (k = i)) as [->|Hne]; [|by repeat case_match; rewrite ?nth_insert_ne].
  unfold settled, kCollision, kNoEntry in *.
  destruct (Z.eqb_spec (nth i bs 0) 255); [lia|].
  destruct (Z.eqb_spec (nth i bs 0) r'); cbn [negb]; [done|]. right. by apply nth_insert_eq.
Qed.
Lemma fold_fill_settled n pairs bs r i : Forall (λ p, snd p <= 253) pairs → r <= 253 → (i < length bs)%nat →
  settled r (nth i bs 0) → settled r (nth i (fold_left (fill_bucket n) pairs bs) 0).
Proof.
  intros Hp Hr. revert bs. induction Hp as [|[h r'] pairs Hr' Hp IH]; intros bs Hi Hs; [done|].
  cbn [fold_left]. apply IH; [by rewrite length_fill_bucket|]. by apply fill_bucket_settled.
Qed.
Lemma fold_fill_added n pairs bs h r : Forall (λ p, snd p <= 253) pairs → (h, r) ∈ pairs →
  (bucket_of n h < length bs)%nat →
  settled r (nth (bucket_of n h) (fold_left (fill_bucket n) pairs bs) 0).
Proof.
  intros Hp Hin. revert bs. induction Hp as [|[h' r'] pairs Hr' Hp IH]; intros bs Hi; [by inversion Hin|].
  cbn [fold_left]. apply elem_of_cons in Hin as [[= -> ->]|Hin].
  - apply fold_fill_settled; try done; [by rewrite length_fill_bucket|]. by apply fill_bucket_own.
  - apply IH; [done|]. by rewrite length_fill_bucket.
Qed.

(** Every bucket is empty, a collision, or an index that was added. *)
Lemma fold_fill_range n pairs bs i : let v := nth i (fold_left (fill_bucket n) pairs bs) 0 in
  v = nth i bs 0 ∨ v = kCollision ∨ ∃ h, (h, v) ∈ pairs.
Proof.
  cbv zeta. revert bs. induction pairs as [|[h r] pairs IH]; intros bs; cbn [fold_left]; [by left|].
  destruct (IH (fill_bucket n bs (h, r))) as [->|[->|(h' & Hin)]]; [|by right; left|].
  - unfold fill_bucket. set (k := Z.to_nat _).
    assert (∀ x, nth i (<[k:=x]> bs) 0 = nth i bs 0 ∨ nth i (<[k:=x]> bs) 0 = x) as Hx.
    { intros x. destruct (decide (k = i)) as [->|]; [|left; by apply nth_insert_ne].
      destruct (decide (i < length bs)%nat); [right; by apply nth_insert_eq|].
      left. by rewrite list_insert_ge by lia. }
    repeat case_match; [| |by left].
    + destruct (Hx r) as [->| ->]; [by left|]. right; right. exists h. by left.
    + destruct (Hx kCollision) as [->| ->]; [by left|by right; left].
  - right; right. exists h'. by right.
Qed.

(** Adding the entries of a block, in order. *)
Definition AddKeys (b : DataBlockHashIndexBuilder) (adds : list (bytes * Z)) : DataBlockHashIndexBuilder :=
  fold_left (λ b '(key, restart_index), HashIndex_Add b key restart_index) adds b.

Lemma AddKeys_app b adds1 adds2 : AddKeys b (adds1 ++ adds2) = AddKeys (AddKeys b adds1) adds2.
Proof. apply fold_left_app. Qed.
Lemma AddKeys_pairs b adds : Forall (λ a, 0 <= snd a <= kMaxRestartSupportedByHashIndex) adds →
  hash_and_restart_pairs_ (AddKeys b adds) =
    hash_and_restart_pairs_ b ++ map (λ a, (GetSliceHash (fst a), snd a)) adds ∧
  HashIndex_Valid (AddKeys b adds) = HashIndex_Valid b.
Proof.
  intros H. revert b. induction H as [|[k r] adds Hr Hadds IH]; intros b; [by rewrite app_nil_r|].
  cbn [AddKeys fold_left map fst snd] in *. unfold kMaxRestartSupportedByHashIndex in Hr.
  destruct (IH (HashIndex_Add b k r)) as [E V]. unfold AddKeys in *. rewrite E, V.
  unfold HashIndex_Add, HashIndex_Valid, kMaxRestartSupportedByHashIndex.
  destruct (Z.ltb_spec 253 r); [lia|]. cbn [hash_and_restart_pairs_ valid_ bucket_per_key_].
  rewrite <- app_assoc. cbn [app]. by rewrite wrap_small by (unfold is_u; lia).
Qed.

Lemma znth_middle (a b c : bytes) i : 0 <= i < Zlen b → znth (a ++ b ++ c) (Zlen a + i) = nth (Z.to_nat i) b 0.
Proof.
  intros. rewrite znth_app_r by lia. replace (Zlen a + i - Zlen a) with i by lia. by rewrite znth_app_l.
Qed.

Lemma HashIndex_table b buffer rest : Zlen (HashIndex_Finish b buffer) < 2 ^ 16 →
  let data := HashIndex_Finish b buffer ++ rest in
  HashIndex_Open data (Zlen (HashIndex_Finish b buffer)) = (num_buckets b, Zlen buffer) ∧
  ∀ key, HashIndex_Lookup (num_buckets b) data (Zlen buffer) key =
    nth (bucket_of (num_buckets b) (GetSliceHash key))
      (fill_buckets (num_buckets b) (hash_and_restart_pairs_ b)) 0.
Proof.
  intros Hlen. cbv zeta. destruct (num_buckets_range b) as [Hn Hn1].
  unfold HashIndex_Finish, PutFixed16 in *. set (n := num_buckets b) in *.
  set (t := fill_buckets n _). assert (Zlen t = n) as Ht by (apply Zlen_fill_buckets; lia).
  assert (Zlen (EncodeFixed16 n) = 2) as H2 by apply Zlen_le_bytes.
  fold t in Hlen. rewrite !Zlen_app, Ht, H2 in Hlen. pose proof (Zlen_nonneg buffer).
  split.
  - unfold HashIndex_Open. rewrite !Zlen_app, Ht, H2, <- (app_assoc _ (EncodeFixed16 n)).
    rewrite zdrop_app by (rewrite Zlen_app; lia). rewrite DecodeFixed16_Encode by done.
    f_equal. rewrite wrap_small; [lia|unfold is_u; lia].
  - intros key. unfold HashIndex_Lookup. rewrite <- !app_assoc.
    pose proof (Z.mod_pos_bound (GetSliceHash key) n ltac:(lia)).
    assert (is_u 16 (GetSliceHash key mod n)) by (unfold is_u in *; lia).
    rewrite znth_middle by (rewrite wrap_small by done; lia). done.
Qed.

Lemma HashIndex_lookup_added b adds buffer rest key r :
  hash_and_restart_pairs_ b = [] → Forall (λ a, 0 <= snd a <= kMaxRestartSupportedByHashIndex) adds →
  Zlen (HashIndex_Finish (AddKeys b adds) buffer) < 2 ^ 16 → (key, r) ∈ adds →
  settled r (HashIndex_Lookup (num_buckets (AddKeys b adds)) (HashIndex_Finish (AddKeys b adds) buffer ++ rest)
    (Zlen buffer) key).
Proof.
  intros Hb Hadds Hlen Hin. destruct (HashIndex_table _ buffer rest Hlen) as [_ ->].
  destruct (AddKeys_pairs b adds Hadds) as [-> _]. rewrite Hb. cbn [app].
  destruct (num_buckets_range (AddKeys b adds)) as [Hn Hn1]. set (n := num_buckets _) in *.
  apply fold_fill_added.
  - apply Forall_map. revert Hadds. apply Forall_impl. intros [k x]. cbn. unfold kMaxRestartSupportedByHashIndex. lia.
  - apply (list_elem_of_fmap_2 (λ a : bytes * Z, (GetSliceHash a.1, a.2)) _ _ Hin).
  - rewrite length_replicate. unfold bucket_of.
    pose proof (Z.mod_pos_bound (GetSliceHash key) n ltac:(lia)).
    rewrite wrap_small by (unfold is_u in *; lia). lia.
Qed.

Lemma HashIndex_lookup_range b adds buffer rest key :
  hash_and_restart_pairs_ b = [] → Forall (λ a, 0 <= snd a <= kMaxRestartSupportedByHashIndex) adds →
  Zlen (HashIndex_Finish (AddKeys b adds) buffer) < 2 ^ 16 →
  let v := HashIndex_Lookup (num_buckets (AddKeys b adds)) (HashIndex_Finish (AddKeys b adds) buffer ++ rest)
    (Zlen buffer) key in
  v = kNoEntry ∨ v = kCollision ∨ ∃ k, (k, v) ∈ adds.
Proof.
  intros Hb Hadds Hlen. cbv zeta. destruct (HashIndex_table _ buffer rest Hlen) as [_ ->].
  destruct (AddKeys_pairs b adds Hadds) as [-> _]. rewrite Hb. cbn [app].
  destruct (num_buckets_range (AddKeys b adds)) as [Hn Hn1]. set (n := num_buckets _) in *.
  set (i := bucket_of n _). unfold fill_buckets.
  destruct (fold_fill_range n (map (λ a, (GetSliceHash a.1, a.2)) adds) (replicate (Z.to_nat n) kNoEntry) i)
    as [->|[->|(h & Hin)]]; [left|by right; left|right; right].
  - apply nth_lookup_Some, lookup_replicate_2. unfold i, bucket_of.
    pose proof (Z.mod_pos_bound (GetSliceHash key) n ltac:(lia)).
    rewrite wrap_small by (unfold is_u in *; lia). lia.
  - apply list_elem_of_fmap in Hin as ([k r] & [= _ E] & Hin). exists k. by rewrite E.
Qed.
