(* ===== verification/BlockBuilder.v ===== *)
(** * Building blocks

    [table/block_based/block_builder.h] and [.cc] and
    [table/block_based/data_block_footer.cc]: keys are stored without the prefix
    they share with the previous key, except at the restart points, whose
    offsets follow the entries; a footer packs their number with the kind of
    index. Sizes are [size_t]s and are not wrapped; the narrowing casts are. *)

From S2P Require Import Prelude Coding Slice DbFormat BlockHashIndex.
#[local] Open Scope Z_scope.

(** ** The footer of a block *)

Inductive DataBlockIndexType := kDataBlockBinarySearch | kDataBlockBinaryAndHash.
#[export] Instance DataBlockIndexType_eq_dec : EqDecision DataBlockIndexType.
Proof. solve_decision. Defined.

Definition kDataBlockIndexTypeBitShift : Z := 31.
Definition kMaxNumRestarts : Z := Z.shiftl 1 kDataBlockIndexTypeBitShift - 1.
Definition kNumRestartsMask : Z := Z.shiftl 1 kDataBlockIndexTypeBitShift - 1.

Definition PackIndexTypeAndNumRestarts (index_type : DataBlockIndexType) (num_restarts : Z) : Z :=
  match index_type with
  | kDataBlockBinaryAndHash => Z.lor num_restarts (Z.shiftl 1 kDataBlockIndexTypeBitShift)
  | kDataBlockBinarySearch => num_restarts
  end.

Definition UnPackIndexTypeAndNumRestarts (block_footer : Z) : DataBlockIndexType * Z :=
  (if Z.land block_footer (Z.shiftl 1 kDataBlockIndexTypeBitShift) =? 0
   then kDataBlockBinarySearch else kDataBlockBinaryAndHash,
   Z.land block_footer kNumRestartsMask).

(** ** The builder *)

Record BlockBuilder := mkBuilder {
  block_restart_interval_ : Z;
  use_delta_encoding_ : bool;
  use_value_delta_encoding_ : bool;
  strip_ts_sz_ : Z;
  builder_is_user_key_ : bool;
  buffer_ : bytes;
  restarts_ : list Z;
  estimate_ : Z;
  counter_ : Z;
  finished_ : bool;
  last_key_ : bytes;
  data_block_hash_index_builder_ : DataBlockHashIndexBuilder
}.

Definition NewBlockBuilder (block_restart_interval : Z) (use_delta_encoding use_value_delta_encoding : bool)
    (index_type : DataBlockIndexType) (data_block_hash_table_util_ratio : double) (ts_sz : Z)
    (persist_user_defined_timestamps is_user_key : bool) : BlockBuilder :=
  mkBuilder block_restart_interval use_delta_encoding use_value_delta_encoding
    (if persist_user_defined_timestamps then 0 else ts_sz) is_user_key [] [0] (4 + 4) 0 false []
    (match index_type with
     | kDataBlockBinarySearch => NewDataBlockHashIndexBuilder
     | kDataBlockBinaryAndHash =>
         HashIndex_Initialize NewDataBlockHashIndexBuilder data_block_hash_table_util_ratio
     end).

(** [restarts_.resize(1)] keeps the first restart point. *)
Definition Reset (b : BlockBuilder) : BlockBuilder :=
  mkBuilder (block_restart_interval_ b) (use_delta_encoding_ b) (use_value_delta_encoding_ b)
    (strip_ts_sz_ b) (builder_is_user_key_ b) [] (take 1 (restarts_ b)) (4 + 4) 0 false []
    (if HashIndex_Valid (data_block_hash_index_builder_ b)
     then HashIndex_Reset (data_block_hash_index_builder_ b) else data_block_hash_index_builder_ b).

(** The builder and the bytes swapped into the argument. *)
Definition SwapAndReset (b : BlockBuilder) : bytes * BlockBuilder := (buffer_ b, Reset b).

Definition CurrentSizeEstimate (b : BlockBuilder) : Z :=
  estimate_ b + (if HashIndex_Valid (data_block_hash_index_builder_ b)
                 then HashIndex_EstimateSize (data_block_hash_index_builder_ b) else 0).

Definition EstimateSizeAfterKV (b : BlockBuilder) (key value : bytes) : Z :=
  let restart := block_restart_interval_ b <=? counter_ b in
  let estimate := CurrentSizeEstimate b + Zlen key in
  let estimate := if 0 <? strip_ts_sz_ b then estimate - strip_ts_sz_ b else estimate in
  let estimate := estimate + (if negb (use_value_delta_encoding_ b) || restart
                              then Zlen value else Zlen value / 2) in
  let estimate := if restart then estimate + 4 else estimate in
  let estimate := estimate + 4 in
  let estimate := estimate + VarintLength (Zlen key) in
  if negb (use_value_delta_encoding_ b) || restart then estimate + VarintLength (Zlen value) else estimate.

Definition builder_empty (b : BlockBuilder) : bool := Zlen (buffer_ b) =? 0.

Definition MaybeStripTimestampFromKey (b : BlockBuilder) (key : bytes) : bytes :=
  if 0 <? strip_ts_sz_ b then
    if builder_is_user_key_ b then ztake (Zlen key - strip_ts_sz_ b) key
    else StripTimestampFromInternalKey [] key (strip_ts_sz_ b)
  else key.

Definition AddWithLastKeyImpl (b : BlockBuilder) (key value last_key : bytes) (delta_value : option bytes)
    (buffer_size : Z) : BlockBuilder :=
  let key_to_persist := MaybeStripTimestampFromKey b key in
  let last_key_persisted :=
    if Zlen last_key =? 0 then last_key else MaybeStripTimestampFromKey b last_key in
  let restart := block_restart_interval_ b <=? counter_ b in
  let restarts := if restart then restarts_ b ++ [u32 buffer_size] else restarts_ b in
  let estimate := if restart then estimate_ b + 4 else estimate_ b in
  let counter := if restart then 0 else counter_ b in
  let shared := if restart then 0
                else if use_delta_encoding_ b then difference_offset key_to_persist last_key_persisted
                else 0 in
  let non_shared := Zlen key_to_persist - shared in
  let buffer :=
    if use_value_delta_encoding_ b then PutVarint32Varint32 (buffer_ b) (u32 shared) (u32 non_shared)
    else PutVarint32Varint32Varint32 (buffer_ b) (u32 shared) (u32 non_shared) (u32 (Zlen value)) in
  let buffer := buffer ++ zdrop shared key_to_persist in
  let buffer :=
    buffer ++ (if negb (shared =? 0) && use_value_delta_encoding_ b then default [] delta_value else value) in
  let hash :=
    if HashIndex_Valid (data_block_hash_index_builder_ b) then
      HashIndex_Add (data_block_hash_index_builder_ b) (ExtractUserKey key) (Zlen restarts - 1)
    else data_block_hash_index_builder_ b in
  mkBuilder (block_restart_interval_ b) (use_delta_encoding_ b) (use_value_delta_encoding_ b)
    (strip_ts_sz_ b) (builder_is_user_key_ b) buffer restarts (estimate + (Zlen buffer - buffer_size))
    (counter + 1) (finished_ b) (last_key_ b) hash.

Definition set_last_key (b : BlockBuilder) (last_key : bytes) : BlockBuilder :=
  mkBuilder (block_restart_interval_ b) (use_delta_encoding_ b) (use_value_delta_encoding_ b)
    (strip_ts_sz_ b) (builder_is_user_key_ b) (buffer_ b) (restarts_ b) (estimate_ b) (counter_ b)
    (finished_ b) last_key (data_block_hash_index_builder_ b).

Definition Add (b : BlockBuilder) (key value : bytes) (delta_value : option bytes) : BlockBuilder :=
  let b := AddWithLastKeyImpl b key value (last_key_ b) delta_value (Zlen (buffer_ b)) in
  if use_delta_encoding_ b then set_last_key b key else b.

Definition AddWithLastKey (b : BlockBuilder) (key value last_key_param : bytes)
    (delta_value : option bytes) : BlockBuilder :=
  let buffer_size := Zlen (buffer_ b) in
  let last_key := ztake (if 0 <? buffer_size then Zlen last_key_param else 0) last_key_param in
  AddWithLastKeyImpl b key value last_key delta_value buffer_size.

(** [Finish] returns the contents of the buffer; they are also the new buffer. *)
Definition put_restarts (buffer : bytes) (restarts : list Z) : bytes := fold_left PutFixed32 restarts buffer.
Definition Finish (b : BlockBuilder) : bytes * BlockBuilder :=
  let buffer := put_restarts (buffer_ b) (restarts_ b) in
  let num_restarts := u32 (Zlen (restarts_ b)) in
  let '(buffer, index_type) :=
    if HashIndex_Valid (data_block_hash_index_builder_ b)
       && (CurrentSizeEstimate b <=? kMaxBlockSizeSupportedByHashIndex)
    then (HashIndex_Finish (data_block_hash_index_builder_ b) buffer, kDataBlockBinaryAndHash)
    else (buffer, kDataBlockBinarySearch) in
  let buffer := PutFixed32 buffer (PackIndexTypeAndNumRestarts index_type num_restarts) in
  (buffer, mkBuilder (block_restart_interval_ b) (use_delta_encoding_ b) (use_value_delta_encoding_ b)
             (strip_ts_sz_ b) (builder_is_user_key_ b) buffer (restarts_ b) (estimate_ b) (counter_ b) true
             (last_key_ b) (data_block_hash_index_builder_ b)).
