(* ===== verification/Block.v ===== *)
(** * Blocks and their iterators

    [table/block_based/block.h] and [.cc]: [Block] finds the restart array of
    the contents that [BlockBuilder] produced; [BlockIter] walks and searches the
    entries. [DataBlockIter] (internal keys, a cache for backward iteration, the
    hash index) and [MetaBlockIter] (user keys, checked decoding) are modelled on
    their common base. A pointer into the block is an offset in [data_], a slice
    of it a pair of an offset and a size. The asserts of the code are
    preconditions. Per key-value checksums, which are off unless configured, and
    read amplification statistics are left out. *)

From S2P Require Import Prelude Status Coding Slice Comparator DbFormat IterKey BlockHashIndex BlockBuilder.
#[local] Open Scope Z_scope.

(** ** Decoding an entry *)

(** The bytes from [p] to [limit] are decoded to the shared and non-shared key
    sizes, the value size and the bytes that follow; [None] is [nullptr]. *)
Definition DecodeEntry (p : bytes) : option (Z * Z * Z * bytes) :=
  let shared := znth p 0 in
  let non_shared := znth p 1 in
  let value_length := znth p 2 in
  if Z.lor (Z.lor shared non_shared) value_length <? 128 then Some (shared, non_shared, value_length, zdrop 3 p)
  else
    '(shared, p) ← GetVarint32Ptr p;
    '(non_shared, p) ← GetVarint32Ptr p;
    '(value_length, p) ← GetVarint32Ptr p;
    Some (shared, non_shared, value_length, p).

(** The sum of the two sizes is a [uint32_t]. *)
Definition CheckAndDecodeEntry (p : bytes) : option (Z * Z * Z * bytes) :=
  if Zlen p <? 3 then None
  else
    '(shared, non_shared, value_length, p) ← DecodeEntry p;
    if u32 (Zlen p) <? u32 (non_shared + value_length) then None
    else Some (shared, non_shared, value_length, p).

Definition DecodeKey (p : bytes) : option (Z * Z * bytes) :=
  '(shared, non_shared, _, p) ← DecodeEntry p; Some (shared, non_shared, p).

(** ** The block *)

Record Block := mkBlock {
  contents_ : bytes;
  size_ : Z;
  restart_offset_ : Z;
  block_num_restarts_ : Z;
  num_buckets_ : Z
}.

Definition NumRestarts (data : bytes) (size : Z) : Z :=
  let block_footer := DecodeFixed32 (zdrop (size - 4) data) in
  if kMaxBlockSizeSupportedByHashIndex <? size then block_footer
  else snd (UnPackIndexTypeAndNumRestarts block_footer).

Definition IndexType (data : bytes) (size : Z) : DataBlockIndexType :=
  if kMaxBlockSizeSupportedByHashIndex <? size then kDataBlockBinarySearch
  else fst (UnPackIndexTypeAndNumRestarts (DecodeFixed32 (zdrop (size - 4) data))).

(** [1 + num_restarts_] is a [uint32_t], its product with [sizeof(uint32_t)] a
    [size_t], and the offset is narrowed to a [uint32_t] again. *)
Definition NewBlock (contents : bytes) : Block :=
  let size := Zlen contents in
  if size <? 4 then mkBlock contents 0 0 0 0
  else
    let num_restarts := NumRestarts contents size in
    match IndexType contents size with
    | kDataBlockBinarySearch =>
        let restart_offset := u32 (u32 size - u32 (1 + num_restarts) * 4) in
        mkBlock contents (if size - 4 <? restart_offset then 0 else size) restart_offset num_restarts 0
    | kDataBlockBinaryAndHash =>
        if size <? 4 + 2 then mkBlock contents 0 0 num_restarts 0
        else
          let '(num_buckets, map_offset) := HashIndex_Open contents (u16 (size - 4)) in
          let restart_offset := u32 (map_offset - num_restarts * 4) in
          mkBlock contents (if map_offset <? restart_offset then 0 else size) restart_offset num_restarts
            num_buckets
    end.

(** ** The iterator *)

(** What [InitializeBase] sets once. *)
Record BlockSource := mkSource {
  icmp_ : Comparator;
  data_ : option bytes;
  num_restarts_ : Z;
  iter_restarts_ : Z;
  global_seqno_ : Z;
  ts_sz_ : Z;
  pad_min_timestamp_ : bool;
  block_contents_pinned_ : bool;
  iter_restart_interval_ : Z
}.

Record BlockIter := mkIter {
  source_ : BlockSource;
  restart_index_ : Z;
  current_ : Z;
  raw_key_ : IterKey;
  key_buf_ : IterKey;
  value_ : Z * Z;
  status_ : Status;
  iter_key_ : bytes;
  cur_entry_idx_ : Z;
  key_pinned_ : bool
}.

Section BlockIter.
Context (new_char : Z → bytes).

Definition set_raw_key (it : BlockIter) (k : IterKey) : BlockIter :=
  mkIter (source_ it) (restart_index_ it) (current_ it) k (key_buf_ it) (value_ it) (status_ it)
    (iter_key_ it) (cur_entry_idx_ it) (key_pinned_ it).
Definition set_position (it : BlockIter) (current restart_index : Z) : BlockIter :=
  mkIter (source_ it) restart_index current (raw_key_ it) (key_buf_ it) (value_ it) (status_ it)
    (iter_key_ it) (cur_entry_idx_ it) (key_pinned_ it).
Definition set_value (it : BlockIter) (v : Z * Z) : BlockIter :=
  mkIter (source_ it) (restart_index_ it) (current_ it) (raw_key_ it) (key_buf_ it) v (status_ it)
    (iter_key_ it) (cur_entry_idx_ it) (key_pinned_ it).
Definition set_idx (it : BlockIter) (i : Z) : BlockIter :=
  mkIter (source_ it) (restart_index_ it) (current_ it) (raw_key_ it) (key_buf_ it) (value_ it) (status_ it)
    (iter_key_ it) i (key_pinned_ it).

(** The constructor leaves most fields uninitialised; they are zero here. *)
Definition NewBlockIter (is_user_key : bool) : BlockIter :=
  mkIter (mkSource BytewiseComparator None 0 0 0 0 false false 0) 0 0
    (SetIsUserKey (NewIterKey new_char) is_user_key) (NewIterKey new_char) (0, 0) Status_OK [] 0 false.

Definition Invalidate (it : BlockIter) (s : Status) : BlockIter :=
  let src := source_ it in
  mkIter (mkSource (icmp_ src) None (num_restarts_ src) (iter_restarts_ src) (global_seqno_ src) (ts_sz_ src)
            (pad_min_timestamp_ src) (block_contents_pinned_ src) (iter_restart_interval_ src))
    (restart_index_ it) (iter_restarts_ src) (raw_key_ it) (key_buf_ it) (value_ it) s (iter_key_ it)
    (cur_entry_idx_ it) (key_pinned_ it).

Definition InitializeBase (it : BlockIter) (raw_ucmp : Comparator) (data : bytes)
    (restarts num_restarts global_seqno : Z) (block_contents_pinned user_defined_timestamp_persisted : bool)
    (block_restart_interval : Z) : BlockIter :=
  let ts_sz := timestamp_size raw_ucmp in
  mkIter (mkSource raw_ucmp (Some data) num_restarts restarts global_seqno ts_sz
            ((0 <? ts_sz) && negb user_defined_timestamp_persisted) block_contents_pinned block_restart_interval)
    num_restarts restarts (raw_key_ it) (key_buf_ it) (value_ it) (status_ it) (iter_key_ it) (-1)
    (key_pinned_ it).

Definition Valid (it : BlockIter) : bool := current_ it <? iter_restarts_ (source_ it).

Definition the_data (it : BlockIter) : bytes := default [] (data_ (source_ it)).
Definition NextEntryOffset (it : BlockIter) : Z := u32 (fst (value_ it) + snd (value_ it)).
Definition GetRestartPoint (it : BlockIter) (index : Z) : Z :=
  DecodeFixed32 (zdrop (iter_restarts_ (source_ it) + index * 4) (the_data it)).

(** [value_.clear()]; nothing reads the cleared slice before it is set again. *)
Definition CorruptionError (it : BlockIter) (msg : string) : BlockIter :=
  mkIter (source_ it) (num_restarts_ (source_ it)) (iter_restarts_ (source_ it)) (Clear (raw_key_ it))
    (key_buf_ it) (0, 0) (Status_Corruption msg) (iter_key_ it) (cur_entry_idx_ it) (key_pinned_ it).

Definition UpdateRawKeyAndMaybePadMinTimestamp (it : BlockIter) (key : bytes) : BlockIter :=
  let src := source_ it in
  if pad_min_timestamp_ src then
    let buf := if IsUserKey (raw_key_ it) then AppendKeyWithMinTimestamp [] key (ts_sz_ src)
               else PadInternalKeyWithMinTimestamp [] key (ts_sz_ src) in
    set_raw_key it (SetKey new_char (raw_key_ it) buf true)
  else set_raw_key it (SetKey new_char (raw_key_ it) key false).

Definition UpdateKey (it : BlockIter) : BlockIter :=
  let src := source_ it in
  let update key_buf key pinned :=
    mkIter src (restart_index_ it) (current_ it) (raw_key_ it) key_buf (value_ it) (status_ it) key
      (cur_entry_idx_ it) pinned in
  let key_buf := Clear (key_buf_ it) in
  if negb (Valid it) then update key_buf (iter_key_ it) (key_pinned_ it)
  else if IsUserKey (raw_key_ it) then update key_buf (GetUserKey (raw_key_ it)) (IsKeyPinned (raw_key_ it))
  else if global_seqno_ src =? kDisableGlobalSequenceNumber then
    update key_buf (GetInternalKey (raw_key_ it)) (IsKeyPinned (raw_key_ it))
  else
    let key_buf := SetInternalKeyParts new_char key_buf [] (GetUserKey (raw_key_ it)) (global_seqno_ src)
                     (ExtractValueType (GetInternalKey (raw_key_ it))) None in
    update key_buf (GetInternalKey key_buf) false.

Definition CompareCurrentKey (it : BlockIter) (other : bytes) : Z :=
  let src := source_ it in
  if IsUserKey (raw_key_ it) then Compare (icmp_ src) (GetUserKey (raw_key_ it)) other
  else if global_seqno_ src =? kDisableGlobalSequenceNumber then
    InternalKeyComparator.Compare (icmp_ src) (GetInternalKey (raw_key_ it)) other
  else
    InternalKeyComparator.CompareGlobalSeqno (icmp_ src) (GetInternalKey (raw_key_ it)) (global_seqno_ src)
      other kDisableGlobalSequenceNumber.

Definition SeekToRestartPoint (it : BlockIter) (index : Z) : BlockIter :=
  let it := set_position (set_raw_key it (Clear (raw_key_ it))) (current_ it) index in
  set_value it (GetRestartPoint it index, 0).

(** [while (restart_index_ + 1 < num_restarts_ && ...) ++restart_index_] *)
Fixpoint advance_restart (fuel : nat) (it : BlockIter) (current restart_index : Z) : Z :=
  match fuel with
  | O => restart_index
  | S fuel =>
      if (restart_index + 1 <? num_restarts_ (source_ it)) && (GetRestartPoint it (restart_index + 1) <? current)
      then advance_restart fuel it current (restart_index + 1)
      else restart_index
  end.

(** [ParseNextKey<DecodeEntryFunc>]: whether there is an entry. *)
Definition ParseNextKey (decode : bytes → option (Z * Z * Z * bytes)) (it : BlockIter) : bool * BlockIter :=
  let src := source_ it in
  let limit := iter_restarts_ src in
  let current := NextEntryOffset it in
  if limit <=? current then (false, set_position it limit (num_restarts_ src))
  else
    match decode (zdrop current (ztake limit (the_data it))) with
    | None => (false, CorruptionError it "bad entry in block")
    | Some (shared, non_shared, value_length, p) =>
        if Size (raw_key_ it) <? shared then (false, CorruptionError it "bad entry in block")
        else
          let it := set_position it current (restart_index_ it) in
          let delta := ztake non_shared p in
          let it :=
            if shared =? 0 then UpdateRawKeyAndMaybePadMinTimestamp it delta
            else if pad_min_timestamp_ src then
              set_raw_key it (TrimAppendWithTimestamp new_char (raw_key_ it) shared delta (ts_sz_ src))
            else set_raw_key it (TrimAppend new_char (raw_key_ it) shared delta) in
          let it := set_value it (limit - Zlen p + non_shared, value_length) in
          (true,
           if shared =? 0 then
             set_position it current (advance_restart (Z.to_nat (num_restarts_ src)) it current (restart_index_ it))
           else it)
    end.

(** ** Searching, the same for data and meta blocks *)

(** Loops over the entries run at most once per byte of the block: [scan_fuel]
    iterations are enough for a block that is well formed, where every entry
    makes progress; [None] is running out of them. *)
Definition scan_fuel (it : BlockIter) : nat := S (Z.to_nat (iter_restarts_ (source_ it))).

(** [++cur_entry_idx_] after an entry has been parsed. *)
Definition NextImpl (decode : bytes → option (Z * Z * Z * bytes)) (it : BlockIter) : BlockIter :=
  let it := snd (ParseNextKey decode it) in set_idx it (cur_entry_idx_ it + 1).

(** [while (left != right)]: the result is [*index] before the last adjustment
    and [*skip_linear_scan], or [None] for a corrupted restart key. The interval
    shrinks in every iteration, so its length bounds their number. *)
Fixpoint BinarySeek_loop (fuel : nat) (it : BlockIter) (target : bytes) (left_ right_ : Z)
    (skip_linear_scan : bool) : option (Z * bool) * BlockIter :=
  match fuel with
  | O => (Some (left_, skip_linear_scan), it)
  | S fuel =>
      if left_ =? right_ then (Some (left_, skip_linear_scan), it)
      else
        let mid := left_ + (right_ - left_ + 1) / 2 in
        let region_offset := GetRestartPoint it (u32 mid) in
        match DecodeKey (zdrop region_offset (ztake (iter_restarts_ (source_ it)) (the_data it))) with
        | Some (0, non_shared, key_ptr) =>
            let it := UpdateRawKeyAndMaybePadMinTimestamp it (ztake non_shared key_ptr) in
            let cmp := CompareCurrentKey it target in
            if cmp <? 0 then BinarySeek_loop fuel it target mid right_ skip_linear_scan
            else if 0 <? cmp then BinarySeek_loop fuel it target left_ (mid - 1) skip_linear_scan
            else BinarySeek_loop fuel it target mid mid true
        | _ => (None, CorruptionError it "bad entry in block")
        end
  end.

Definition BinarySeek (it : BlockIter) (target : bytes) : option (Z * bool) * BlockIter :=
  if iter_restarts_ (source_ it) =? 0 then (None, it)
  else
    let right_ := num_restarts_ (source_ it) - 1 in
    match BinarySeek_loop (Z.to_nat (right_ + 1)) it target (-1) right_ false with
    | (Some (left_, skip), it) => (Some (if left_ =? -1 then (0, true) else (left_, skip)), it)
    | (None, it) => (None, it)
    end.

(** [while (true)] of [FindKeyAfterBinarySeek] *)
Fixpoint linear_scan (fuel : nat) (decode : bytes → option (Z * Z * Z * bytes)) (it : BlockIter)
    (target : bytes) (max_offset : Z) : option BlockIter :=
  match fuel with
  | O => None
  | S fuel =>
      let it := NextImpl decode it in
      if negb (Valid it) then Some it
      else if current_ it =? max_offset then Some it
      else if 0 <=? CompareCurrentKey it target then Some it
      else linear_scan fuel decode it target max_offset
  end.

Definition FindKeyAfterBinarySeek (decode : bytes → option (Z * Z * Z * bytes)) (it : BlockIter)
    (target : bytes) (index : Z) (skip_linear_scan : bool) : option BlockIter :=
  let it := SeekToRestartPoint it index in
  let it := set_idx it (swrap 32 (u32 (index * iter_restart_interval_ (source_ it))) - 1) in
  let it := NextImpl decode it in
  if skip_linear_scan then Some it
  else
    let max_offset := if index + 1 <? num_restarts_ (source_ it) then GetRestartPoint it (index + 1)
                      else 2 ^ 32 - 1 in
    linear_scan (scan_fuel it) decode it target max_offset.

Definition SeekImpl (decode : bytes → option (Z * Z * Z * bytes)) (it : BlockIter) (target : bytes) :
    option BlockIter :=
  match data_ (source_ it) with
  | None => Some it
  | Some _ =>
      match BinarySeek it target with
      | (None, it) => Some it
      | (Some (index, skip_linear_scan), it) => FindKeyAfterBinarySeek decode it target index skip_linear_scan
      end
  end.

Definition SeekToFirstImpl (decode : bytes → option (Z * Z * Z * bytes)) (it : BlockIter) : BlockIter :=
  match data_ (source_ it) with
  | None => it
  | Some _ => set_idx (snd (ParseNextKey decode (SeekToRestartPoint it 0))) 0
  end.

(** [while (ParseNextKey() && NextEntryOffset() < limit)]; [count] says whether
    the body is [++cur_entry_idx_] or empty. *)
Fixpoint skip_to (fuel : nat) (decode : bytes → option (Z * Z * Z * bytes)) (it : BlockIter) (limit : Z)
    (count : bool) : option BlockIter :=
  match fuel with
  | O => None
  | S fuel =>
      let '(found, it) := ParseNextKey decode it in
      if found && (NextEntryOffset it <? limit) then
        skip_to fuel decode (if count then set_idx it (cur_entry_idx_ it + 1) else it) limit count
      else Some it
  end.

Definition SeekToLastImpl (decode : bytes → option (Z * Z * Z * bytes)) (it : BlockIter) : option BlockIter :=
  match data_ (source_ it) with
  | None => Some it
  | Some _ =>
      let index := num_restarts_ (source_ it) - 1 in
      let it := SeekToRestartPoint it index in
      let it := set_idx it (swrap 32 (u32 (index * iter_restart_interval_ (source_ it)))) in
      skip_to (scan_fuel it) decode it (iter_restarts_ (source_ it)) true
  end.

(** The last restart point at or before [index] that lies before [original]. *)
Fixpoint restart_before (index : nat) (it : BlockIter) (original : Z) : option Z :=
  if original <=? GetRestartPoint it (Z.of_nat index) then
    match index with O => None | S index => restart_before index it original end
  else Some (Z.of_nat index).

Definition PastTheEnd (it : BlockIter) : BlockIter :=
  set_position it (iter_restarts_ (source_ it)) (num_restarts_ (source_ it)).

(** ** MetaBlockIter *)

Definition MetaPrevImpl (it : BlockIter) : option BlockIter :=
  let original := current_ it in
  match restart_before (Z.to_nat (restart_index_ it)) it original with
  | None => Some (PastTheEnd it)
  | Some index =>
      it ← skip_to (scan_fuel it) CheckAndDecodeEntry (SeekToRestartPoint it index) original false;
      Some (set_idx it (cur_entry_idx_ it - 1))
  end.

(** [while (Valid() && CompareCurrentKey(seek_key) > 0) PrevImpl()] *)
Fixpoint MetaSeekForPrev_loop (fuel : nat) (it : BlockIter) (target : bytes) : option BlockIter :=
  match fuel with
  | O => None
  | S fuel =>
      if Valid it && (0 <? CompareCurrentKey it target) then
        it ← MetaPrevImpl it; MetaSeekForPrev_loop fuel it target
      else Some it
  end.

Definition MetaSeekForPrevImpl (it : BlockIter) (target : bytes) : option BlockIter :=
  match data_ (source_ it) with
  | None => Some it
  | Some _ =>
      match BinarySeek it target with
      | (None, it) => Some it
      | (Some (index, skip_linear_scan), it) =>
          it ← FindKeyAfterBinarySeek CheckAndDecodeEntry it target index skip_linear_scan;
          if negb (Valid it) then
            if ok (status_ it) then SeekToLastImpl CheckAndDecodeEntry it else Some it
          else MetaSeekForPrev_loop (scan_fuel it) it target
      end
  end.

(** [NewMetaIterator] *)
Definition NewMetaIterator (b : Block) (block_contents_pinned : bool) : BlockIter :=
  let it := NewBlockIter true in
  if size_ b <? 2 * 4 then Invalidate it (Status_Corruption "bad block contents")
  else if block_num_restarts_ b =? 0 then Invalidate it Status_OK
  else
    let it := InitializeBase it BytewiseComparator (contents_ b) (restart_offset_ b) (block_num_restarts_ b)
                kDisableGlobalSequenceNumber block_contents_pinned true 0 in
    set_raw_key it (SetIsUserKey (raw_key_ it) true).

(** ** DataBlockIter *)

Record CachedPrevEntry := mkCached {
  offset : Z;
  key_ptr : option bytes;
  key_offset : Z;
  key_size : Z;
  cached_value : Z * Z
}.

Record DataBlockIter := mkDataIter {
  base : BlockIter;
  prev_entries_keys_buff_ : bytes;
  prev_entries_ : list CachedPrevEntry;
  prev_entries_idx_ : Z;
  data_block_hash_index_ : option Z
}.

Definition set_base (d : DataBlockIter) (it : BlockIter) : DataBlockIter :=
  mkDataIter it (prev_entries_keys_buff_ d) (prev_entries_ d) (prev_entries_idx_ d) (data_block_hash_index_ d).

(** The fields that [Initialize] copies from the block. *)
Definition NewDataIterator (b : Block) (raw_ucmp : Comparator) (global_seqno : Z)
    (block_contents_pinned user_defined_timestamps_persisted : bool) : DataBlockIter :=
  let it := NewBlockIter true in
  if size_ b <? 2 * 4 then
    mkDataIter (Invalidate it (Status_Corruption "bad block contents")) [] [] (-1) None
  else if block_num_restarts_ b =? 0 then mkDataIter (Invalidate it Status_OK) [] [] (-1) None
  else
    let it := InitializeBase it raw_ucmp (contents_ b) (restart_offset_ b) (block_num_restarts_ b) global_seqno
                block_contents_pinned user_defined_timestamps_persisted 0 in
    mkDataIter (set_raw_key it (SetIsUserKey (raw_key_ it) false)) [] [] (-1)
      (if num_buckets_ b =? 0 then None else Some (num_buckets_ b)).

(** The [do ... while] loop of [PrevImpl], which caches the entries it passes. *)
Fixpoint DataPrev_loop (fuel : nat) (d : DataBlockIter) (original : Z) : option DataBlockIter :=
  match fuel with
  | O => None
  | S fuel =>
      let '(found, it) := ParseNextKey DecodeEntry (base d) in
      let d := set_base d it in
      if negb found then Some d
      else
        let current_key := GetKey (raw_key_ it) in
        let d :=
          if IsKeyPinned (raw_key_ it) then
            mkDataIter it (prev_entries_keys_buff_ d)
              (prev_entries_ d ++ [mkCached (current_ it) (Some current_key) 0 (Zlen current_key) (value_ it)])
              (prev_entries_idx_ d) (data_block_hash_index_ d)
          else
            let new_key_offset := Zlen (prev_entries_keys_buff_ d) in
            mkDataIter it (prev_entries_keys_buff_ d ++ current_key)
              (prev_entries_ d ++ [mkCached (current_ it) None new_key_offset (Zlen current_key) (value_ it)])
              (prev_entries_idx_ d) (data_block_hash_index_ d) in
        if NextEntryOffset it <? original then DataPrev_loop fuel d original else Some d
  end.

(** [PrevImpl] when the cache does not help. *)
Definition DataPrev_scan (d : DataBlockIter) : option DataBlockIter :=
  let it := base d in
  let original := current_ it in
  let d := mkDataIter it [] [] (-1) (data_block_hash_index_ d) in
  match restart_before (Z.to_nat (restart_index_ it)) it original with
  | None => Some (set_base d (PastTheEnd it))
  | Some index =>
      d ← DataPrev_loop (scan_fuel it) (set_base d (SeekToRestartPoint it index)) original;
      Some (mkDataIter (base d) (prev_entries_keys_buff_ d) (prev_entries_ d) (Zlen (prev_entries_ d) - 1)
              (data_block_hash_index_ d))
  end.

Definition DataPrevImpl (d : DataBlockIter) : option DataBlockIter :=
  let it := set_idx (base d) (cur_entry_idx_ (base d) - 1) in
  let idx := prev_entries_idx_ d in
  match (if 0 <? idx then prev_entries_ d !! Z.to_nat idx else None) with
  | Some e =>
      if offset e =? current_ it then
        match prev_entries_ d !! Z.to_nat (idx - 1) with
        | Some current_prev_entry =>
            let '(current_key, raw_key_cached) :=
              match key_ptr current_prev_entry with
              | Some p => (ztake (key_size current_prev_entry) p, false)
              | None => (ztake (key_size current_prev_entry)
                           (zdrop (key_offset current_prev_entry) (prev_entries_keys_buff_ d)), true)
              end in
            let it := set_position it (offset current_prev_entry) (restart_index_ it) in
            let it := set_raw_key it (SetKey new_char (raw_key_ it) current_key raw_key_cached) in
            Some (mkDataIter (set_value it (cached_value current_prev_entry)) (prev_entries_keys_buff_ d)
                    (prev_entries_ d) (idx - 1) (data_block_hash_index_ d))
        | None => None (* an index below one that is in range is in range *)
        end
      else DataPrev_scan (set_base d it)
  | None => DataPrev_scan (set_base d it)
  end.

Definition DataNextImpl (d : DataBlockIter) : DataBlockIter := set_base d (NextImpl DecodeEntry (base d)).
Definition DataSeekToFirstImpl (d : DataBlockIter) : DataBlockIter :=
  set_base d (SeekToFirstImpl DecodeEntry (base d)).
Definition DataSeekToLastImpl (d : DataBlockIter) : option DataBlockIter :=
  set_base d <$> SeekToLastImpl DecodeEntry (base d).
Definition DataSeekImpl (d : DataBlockIter) (target : bytes) : option DataBlockIter :=
  set_base d <$> SeekImpl DecodeEntry (base d) target.

Fixpoint DataSeekForPrev_loop (fuel : nat) (d : DataBlockIter) (target : bytes) : option DataBlockIter :=
  match fuel with
  | O => None
  | S fuel =>
      if Valid (base d) && (0 <? CompareCurrentKey (base d) target) then
        d ← DataPrevImpl d; DataSeekForPrev_loop fuel d target
      else Some d
  end.

Definition DataSeekForPrevImpl (d : DataBlockIter) (target : bytes) : option DataBlockIter :=
  match data_ (source_ (base d)) with
  | None => Some d
  | Some _ =>
      match BinarySeek (base d) target with
      | (None, it) => Some (set_base d it)
      | (Some (index, skip_linear_scan), it) =>
          it ← FindKeyAfterBinarySeek DecodeEntry it target index skip_linear_scan;
          let d := set_base d it in
          if negb (Valid it) then
            if ok (status_ it) then DataSeekToLastImpl d else Some d
          else DataSeekForPrev_loop (scan_fuel it) d target
      end
  end.

(** [while (current_ < limit)] of [SeekForGetImpl] *)
Fixpoint SeekForGet_loop (fuel : nat) (it : BlockIter) (target : bytes) (limit : Z) : option BlockIter :=
  match fuel with
  | O => None
  | S fuel =>
      if current_ it <? limit then
        let it := set_idx it (cur_entry_idx_ it + 1) in
        let '(found, it) := ParseNextKey DecodeEntry it in
        if negb found || (0 <=? CompareCurrentKey it target) then Some it
        else SeekForGet_loop fuel it target limit
      else Some it
  end.

Definition point_lookup_type (t : Z) : bool :=
  (t =? kTypeValue) || (t =? kTypeDeletion) || (t =? kTypeMerge) || (t =? kTypeSingleDeletion)
  || (t =? kTypeBlobIndex) || (t =? kTypeWideColumnEntity).

Definition SeekForGetImpl (d : DataBlockIter) (num_buckets : Z) (target : bytes) :
    option (bool * DataBlockIter) :=
  let it := base d in
  let src := source_ it in
  let target_user_key := ExtractUserKey target in
  let map_offset := u32 (iter_restarts_ src + num_restarts_ src * 4) in
  let entry := HashIndex_Lookup num_buckets (the_data it) map_offset target_user_key in
  if entry =? kCollision then d ← DataSeekImpl d target; Some (true, d)
  else
    let restart_index := if entry =? kNoEntry then u8 (num_restarts_ src - 1) else entry in
    let it := SeekToRestartPoint it restart_index in
    let it := set_position it (GetRestartPoint it restart_index) (restart_index_ it) in
    let it := set_idx it (swrap 32 (u32 (restart_index * iter_restart_interval_ src)) - 1) in
    let limit := if restart_index + 1 <? num_restarts_ src then GetRestartPoint it (restart_index + 1)
                 else iter_restarts_ src in
    it ← SeekForGet_loop (S (scan_fuel it)) it target limit;
    let d := set_base d it in
    if current_ it =? iter_restarts_ src then Some (true, d)
    else if negb (Compare (icmp_ src) (GetUserKey (raw_key_ it)) target_user_key =? 0) then Some (false, d)
    else if negb (point_lookup_type (ExtractValueType (GetInternalKey (raw_key_ it)))) then
      d ← DataSeekImpl d target; Some (true, d)
    else Some (true, d).

(** ** The public operations: the movement, then [UpdateKey] *)

Definition update_key (d : DataBlockIter) : DataBlockIter := set_base d (UpdateKey (base d)).

Definition SeekToFirst (d : DataBlockIter) : DataBlockIter := update_key (DataSeekToFirstImpl d).
Definition SeekToLast (d : DataBlockIter) : option DataBlockIter := update_key <$> DataSeekToLastImpl d.
Definition Seek (d : DataBlockIter) (target : bytes) : option DataBlockIter := update_key <$> DataSeekImpl d target.
Definition SeekForPrev (d : DataBlockIter) (target : bytes) : option DataBlockIter :=
  update_key <$> DataSeekForPrevImpl d target.
Definition Next (d : DataBlockIter) : DataBlockIter := update_key (DataNextImpl d).
Definition Prev (d : DataBlockIter) : option DataBlockIter := update_key <$> DataPrevImpl d.
Definition SeekForGet (d : DataBlockIter) (target : bytes) : option (bool * DataBlockIter) :=
  match data_block_hash_index_ d with
  | None => d ← DataSeekImpl d target; Some (true, update_key d)
  | Some num_buckets =>
      '(res, d) ← SeekForGetImpl d num_buckets target; Some (res, update_key d)
  end.

Definition iter_key (d : DataBlockIter) : bytes := iter_key_ (base d).
Definition iter_value (d : DataBlockIter) : bytes :=
  let '(off, n) := value_ (base d) in ztake n (zdrop off (the_data (base d))).

Definition MetaSeekToFirst (it : BlockIter) : BlockIter := UpdateKey (SeekToFirstImpl CheckAndDecodeEntry it).
Definition MetaSeekToLast (it : BlockIter) : option BlockIter :=
  UpdateKey <$> SeekToLastImpl CheckAndDecodeEntry it.
Definition MetaSeek (it : BlockIter) (target : bytes) : option BlockIter :=
  UpdateKey <$> SeekImpl CheckAndDecodeEntry it target.
Definition MetaSeekForPrev (it : BlockIter) (target : bytes) : option BlockIter :=
  UpdateKey <$> MetaSeekForPrevImpl it target.
Definition MetaNext (it : BlockIter) : BlockIter := UpdateKey (NextImpl CheckAndDecodeEntry it).
Definition MetaPrev (it : BlockIter) : option BlockIter := UpdateKey <$> MetaPrevImpl it.
End BlockIter.
