(* ===== verification/BlockLayout.v ===== *)
(** * The layout of a block

    The entries of a block as a list of items, what [BlockBuilder] makes of the
    keys and values that are added to it, and what [NewBlock] and the entry
    decoders read back. *)

From S2P Require Import Prelude Status Coding Slice Comparator DbFormat IterKey BlockHashIndex BlockBuilder Block.
#[local] Open Scope Z_scope.
#[local] Opaque ztake zdrop Zlen.

(** ** Items *)

(** A stored entry: how many bytes its key takes from the previous one, the
    stored key and the stored value. With delta encoded values ([vd]) the size of
    the value is not stored. *)
Record item := mkItem { it_shared : Z; it_key : bytes; it_val : bytes }.

Definition item_ok (x : item) : Prop :=
  0 <= it_shared x <= Zlen (it_key x) ∧ Zlen (it_key x) < 2 ^ 32 ∧ Zlen (it_val x) < 2 ^ 32 ∧
  bytes_ok (it_key x) ∧ bytes_ok (it_val x).

Definition enc_item (vd : bool) (x : item) : bytes :=
  EncodeVarint32 (it_shared x) ++ EncodeVarint32 (Zlen (it_key x) - it_shared x) ++
  (if vd then [] else EncodeVarint32 (Zlen (it_val x))) ++ zdrop (it_shared x) (it_key x) ++ it_val x.
Definition enc_items (vd : bool) (xs : list item) : bytes := concat (map (enc_item vd) xs).

(** The offset of the [i]th item. *)
Definition item_off (vd : bool) (xs : list item) (i : nat) : Z := Zlen (enc_items vd (take i xs)).

Lemma enc_items_app vd xs ys : enc_items vd (xs ++ ys) = enc_items vd xs ++ enc_items vd ys.
Proof. unfold enc_items. by rewrite map_app, concat_app. Qed.
Lemma enc_items_cons vd x xs : enc_items vd (x :: xs) = enc_item vd x ++ enc_items vd xs.
Proof. done. Qed.
Lemma enc_items_split vd xs i x : xs !! i = Some x →
  enc_items vd xs = enc_items vd (take i xs) ++ enc_item vd x ++ enc_items vd (drop (S i) xs).
Proof.
  intros Hi. rewrite <- (take_drop_middle xs i x) at 1 by done. by rewrite enc_items_app, enc_items_cons.
Qed.
Lemma item_off_0 vd xs : item_off vd xs 0 = 0.
Proof. done. Qed.
Lemma item_off_S vd xs i x : xs !! i = Some x → item_off vd xs (S i) = item_off vd xs i + Zlen (enc_item vd x).
Proof.
  intros Hi. unfold item_off. rewrite (take_S_r _ _ _ Hi), enc_items_app, Zlen_app.
  rewrite enc_items_cons. cbn [enc_items map concat]. by rewrite app_nil_r.
Qed.
Lemma item_off_end vd xs i : (length xs <= i)%nat → item_off vd xs i = Zlen (enc_items vd xs).
Proof. intros. unfold item_off. by rewrite take_ge. Qed.
Lemma item_off_app vd xs ys i : (i <= length xs)%nat → item_off vd (xs ++ ys) i = item_off vd xs i.
Proof. intros. unfold item_off. by rewrite take_app_le. Qed.
Lemma item_off_nonneg vd xs i : 0 <= item_off vd xs i.
Proof. apply Zlen_nonneg. Qed.

Lemma Zlen_enc_item vd x : 0 <= it_shared x <= Zlen (it_key x) →
  2 <= Zlen (enc_item vd x) ∧ Zlen (it_key x) - it_shared x + Zlen (it_val x) < Zlen (enc_item vd x).
Proof.
  intros H. unfold enc_item. rewrite !Zlen_app, Zlen_zdrop by done.
  pose proof (Zlen_EncodeVarint32 (it_shared x)). pose proof (Zlen_EncodeVarint32 (Zlen (it_key x) - it_shared x)).
  pose proof (Zlen_nonneg (it_val x)). pose proof (Zlen_nonneg (if vd then [] else EncodeVarint32 (Zlen (it_val x)))).
  lia.
Qed.

Section Offsets.
Context (vd : bool) (xs : list item) (Hok : Forall item_ok xs).

Lemma item_off_lt_S i : (i < length xs)%nat → item_off vd xs i < item_off vd xs (S i).
Proof using Hok.
  intros Hi. destruct (lookup_lt_is_Some_2 xs i Hi) as [x Hx]. rewrite (item_off_S _ _ _ _ Hx).
  destruct (proj1 (Forall_lookup _ _) Hok i x Hx) as [Hsh _]. pose proof (Zlen_enc_item vd x Hsh). lia.
Qed.
Lemma item_off_mono i j : (i <= j)%nat → item_off vd xs i <= item_off vd xs j.
Proof using Hok.
  induction 1 as [|j Hij IH]; [lia|]. destruct (decide (j < length xs)%nat) as [Hj|Hj].
  - pose proof (item_off_lt_S j Hj). lia.
  - rewrite (item_off_end vd xs (S j)), <- (item_off_end vd xs j) by lia. done.
Qed.
Lemma item_off_lt i j : (i < j)%nat → (i < length xs)%nat → item_off vd xs i < item_off vd xs j.
Proof using Hok. intros. pose proof (item_off_lt_S i). pose proof (item_off_mono (S i) j). lia. Qed.
Lemma item_off_lt_iff i j : (i <= length xs)%nat → (j <= length xs)%nat →
  item_off vd xs i < item_off vd xs j ↔ (i < j)%nat.
Proof using Hok.
  intros Hi Hj. split; [|intros; apply item_off_lt; lia].
  intros H. destruct (decide (i < j)%nat); [done|]. pose proof (item_off_mono j i). lia.
Qed.
Lemma item_off_inj i j : (i <= length xs)%nat → (j <= length xs)%nat →
  item_off vd xs i = item_off vd xs j → i = j.
Proof using Hok.
  intros Hi Hj E. pose proof (item_off_lt_iff i j Hi Hj). pose proof (item_off_lt_iff j i Hj Hi). lia.
Qed.
Lemma item_off_bound i : item_off vd xs i <= Zlen (enc_items vd xs).
Proof using Hok.
  rewrite <- (item_off_end vd xs (i + length xs)) by lia. apply item_off_mono. lia.
Qed.
Lemma item_off_index i : (i <= length xs)%nat → Z.of_nat i <= item_off vd xs i.
Proof using Hok.
  induction i as [|i IH]; intros Hi; [pose proof (item_off_nonneg vd xs 0); lia|].
  pose proof (item_off_lt_S i). lia.
Qed.
End Offsets.

(** ** Decoding an item *)

Lemma EncodeVarint32_small v : 0 <= v < 128 → EncodeVarint32 v = [v].
Proof.
  intros. unfold EncodeVarint32. change (Z.shiftl 1 7) with 128.
  destruct (Z.ltb_spec v 128); [by rewrite u8_small|lia].
Qed.
Lemma EncodeVarint32_large v : is_u 32 v → 128 <= v → ∃ r, EncodeVarint32 v = (v mod 128 + 128) :: r.
Proof.
  intros Hv H. rewrite EncodeVarint32_64 by done. rewrite EncodeVarint64_unfold by (by apply (is_u_mono 32)).
  destruct (Z.geb_spec v 128); [|lia]. eauto.
Qed.

Lemma lor_bit7 a b c : Z.testbit a 7 = true ∨ Z.testbit b 7 = true ∨ Z.testbit c 7 = true →
  0 <= Z.lor (Z.lor a b) c → (Z.lor (Z.lor a b) c <? 128) = false.
Proof.
  intros H H0. apply Z.ltb_ge. destruct (Z.le_gt_cases 128 (Z.lor (Z.lor a b) c)) as [|Hlt]; [done|].
  assert (Z.testbit (Z.lor (Z.lor a b) c) 7 = false) as E by (apply (testbit_above 7); [unfold is_u; lia|lia]).
  rewrite !Z.lor_spec in E. destruct H as [->|[->| ->]] in E; by rewrite ?orb_true_r in E.
Qed.

Lemma znth_cons0 x (l : bytes) : znth (x :: l) 0 = x.
Proof. done. Qed.
Lemma znth_cons1 x y (l : bytes) : znth (x :: y :: l) 1 = y.
Proof. done. Qed.

(** The fast path is taken exactly when all three numbers take one byte. *)
Lemma DecodeEntry_varints a b c rest : is_u 32 a → is_u 32 b → is_u 32 c → bytes_ok rest →
  DecodeEntry (EncodeVarint32 a ++ EncodeVarint32 b ++ EncodeVarint32 c ++ rest) = Some (a, b, c, rest).
Proof.
  intros Ha Hb Hc Hrest. set (p := EncodeVarint32 a ++ EncodeVarint32 b ++ EncodeVarint32 c ++ rest).
  assert (bytes_ok p) as Hp.
  { unfold p. rewrite !bytes_ok_app. split_and!; try apply bytes_ok_EncodeVarint32; done. }
  assert (('(shared, p) ← GetVarint32Ptr p; '(non_shared, p) ← GetVarint32Ptr p;
           '(value_length, p) ← GetVarint32Ptr p; Some (shared, non_shared, value_length, p)) = Some (a, b, c, rest))
    as Hslow.
  { unfold p. fold GetVarint32. change GetVarint32Ptr with GetVarint32.
    rewrite (round_trip (dec := GetVarint32) a) by done. cbn [mbind option_bind].
    rewrite (round_trip (dec := GetVarint32) b) by done. cbn [mbind option_bind].
    by rewrite (round_trip (dec := GetVarint32) c). }
  unfold DecodeEntry. rewrite Hslow.
  assert (0 <= Z.lor (Z.lor (znth p 0) (znth p 1)) (znth p 2)) as Hpos.
  { rewrite !Z.lor_nonneg. pose proof (is_u_znth p 0 Hp). pose proof (is_u_znth p 1 Hp).
    pose proof (is_u_znth p 2 Hp). unfold is_u in *. lia. }
  destruct (Z.lt_ge_cases a 128) as [Ha'|Ha'].
  2: { destruct (EncodeVarint32_large a Ha Ha') as [r E].
       rewrite lor_bit7; [done| |done]. left. unfold p. rewrite E. apply testbit7_cont. }
  destruct (Z.lt_ge_cases b 128) as [Hb'|Hb'].
  2: { destruct (EncodeVarint32_large b Hb Hb') as [r E].
       rewrite lor_bit7; [done| |done]. right; left. unfold p.
       rewrite E, (EncodeVarint32_small a) by (unfold is_u in *; lia). apply testbit7_cont. }
  destruct (Z.lt_ge_cases c 128) as [Hc'|Hc'].
  2: { destruct (EncodeVarint32_large c Hc Hc') as [r E].
       rewrite lor_bit7; [done| |done]. right; right. unfold p.
       rewrite E, (EncodeVarint32_small a), (EncodeVarint32_small b) by (unfold is_u in *; lia).
       apply testbit7_cont. }
  unfold p. rewrite !EncodeVarint32_small by (unfold is_u in *; lia).
  assert (is_u 7 (Z.lor (Z.lor a b) c)) as [_ Hlt]
    by (apply is_u_lor; [lia|apply is_u_lor; [lia|unfold is_u in *; lia..]|unfold is_u in *; lia]).
  cbn [app]. change (znth _ 0) with a. change (znth _ 1) with b. change (znth _ 2) with c.
  change (2 ^ 7) with 128 in Hlt. destruct (Z.ltb_spec (Z.lor (Z.lor a b) c) 128); [done|lia].
Qed.

Lemma bytes_ok_enc_items vd xs : Forall item_ok xs → bytes_ok (enc_items vd xs).
Proof.
  induction 1 as [|x xs (_ & _ & _ & Hk & Hv) Hxs IH]; [by apply bytes_ok_nil|].
  rewrite enc_items_cons. unfold enc_item. rewrite !bytes_ok_app.
  split_and!; try apply bytes_ok_EncodeVarint32; try done; [|by apply bytes_ok_zdrop].
  destruct vd; [by apply bytes_ok_nil|apply bytes_ok_EncodeVarint32].
Qed.

Lemma zdrop_item_off vd xs i x : xs !! i = Some x →
  zdrop (item_off vd xs i) (enc_items vd xs) = enc_item vd x ++ enc_items vd (drop (S i) xs).
Proof. intros Hi. rewrite (enc_items_split vd xs i x Hi). by apply zdrop_app. Qed.

(** What decoding finds at the offset of an item: the three sizes, the rest of
    the key, the value, and then the next items. *)
Definition item_decoded (xs : list item) (i : nat) (x : item) : Z * Z * Z * bytes :=
  (it_shared x, Zlen (it_key x) - it_shared x, Zlen (it_val x),
   zdrop (it_shared x) (it_key x) ++ it_val x ++ enc_items false (drop (S i) xs)).

Section Decode.
Context (xs : list item) (Hok : Forall item_ok xs) (Hsize : Zlen (enc_items false xs) < 2 ^ 32).

Lemma DecodeEntry_item i x : xs !! i = Some x →
  DecodeEntry (zdrop (item_off false xs i) (enc_items false xs)) = Some (item_decoded xs i x).
Proof using Hok.
  intros Hi. destruct (proj1 (Forall_lookup _ _) Hok i x Hi) as (Hsh & Hk & Hv & Bk & Bv).
  rewrite (zdrop_item_off _ _ _ _ Hi). unfold enc_item. rewrite <- !app_assoc.
  pose proof (Zlen_nonneg (it_val x)).
  rewrite DecodeEntry_varints; [done|unfold is_u; lia..|]. rewrite !bytes_ok_app.
  split_and!; [by apply bytes_ok_zdrop|done|]. apply bytes_ok_enc_items. by apply Forall_drop.
Qed.

Lemma CheckAndDecodeEntry_item i x : xs !! i = Some x →
  CheckAndDecodeEntry (zdrop (item_off false xs i) (enc_items false xs)) = Some (item_decoded xs i x).
Proof using Hok Hsize.
  intros Hi. destruct (proj1 (Forall_lookup _ _) Hok i x Hi) as (Hsh & Hk & Hv & Bk & Bv).
  unfold CheckAndDecodeEntry. rewrite (DecodeEntry_item i x Hi). cbn [mbind option_bind item_decoded].
  rewrite (zdrop_item_off _ _ _ _ Hi).
  pose proof (f_equal Zlen (enc_items_split false xs i x Hi)) as E. rewrite !Zlen_app in E |- *.
  pose proof (Zlen_nonneg (enc_items false (take i xs))). pose proof (Zlen_nonneg (enc_items false (drop (S i) xs))).
  unfold enc_item in E |- *. rewrite !Zlen_app in E |- *.
  pose proof (Zlen_EncodeVarint32 (it_shared x)). pose proof (Zlen_EncodeVarint32 (Zlen (it_key x) - it_shared x)).
  pose proof (Zlen_EncodeVarint32 (Zlen (it_val x))). pose proof (Zlen_nonneg (it_val x)).
  rewrite Zlen_zdrop in E |- * by done.
  rewrite !Zlen_app, !wrap_small by (done || unfold is_u; lia).
  repeat case_match; done || lia.
Qed.
End Decode.

(** ** What the builder writes *)

(** The bytes that two keys have in common at the start. *)
Lemma difference_offset_prefix a b :
  0 <= difference_offset a b <= Zlen a ∧ difference_offset a b <= Zlen b ∧
  ztake (difference_offset a b) a = ztake (difference_offset a b) b.
Proof.
  assert (∀ a b : bytes, 0 <= 0 <= Zlen a ∧ 0 <= Zlen b ∧ ztake 0 a = ztake 0 b) as H0.
  { intros a' b'. pose proof (Zlen_nonneg a'). pose proof (Zlen_nonneg b'). by rewrite !ztake_0. }
  revert b. induction a as [|x a IH]; intros [|y b]; cbn [difference_offset]; try apply H0.
  destruct (Z.eqb_spec x y) as [->|]; [|apply H0]. rewrite !Zlen_cons.
  destruct (IH b) as (? & ? & E). split_and!; [lia..|].
  change (y :: a) with ([y] ++ a). change (y :: b) with ([y] ++ b).
  rewrite !ztake_app_ge by (rewrite Zlen_cons, Zlen_nil; lia). rewrite Zlen_cons, Zlen_nil.
  replace (1 + difference_offset a b - (1 + 0)) with (difference_offset a b) by lia. by rewrite E.
Qed.

Definition last_stored (xs : list item) : bytes := from_option it_key [] (last xs).
Definition prev_stored (xs : list item) (i : nat) : bytes :=
  match i with O => [] | S j => from_option it_key [] (xs !! j) end.

(** An item can be decoded after the previous key. *)
Definition follows (prev : bytes) (x : item) : Prop :=
  it_shared x <= Zlen prev ∧ ztake (it_shared x) (it_key x) = ztake (it_shared x) prev.

Definition interval (b : BlockBuilder) : nat := Z.to_nat (block_restart_interval_ b).

Record built (b : BlockBuilder) (xs : list item) : Prop := {
  bt_interval : 1 <= block_restart_interval_ b;
  bt_buffer : buffer_ b = enc_items (use_value_delta_encoding_ b) xs;
  bt_restarts : restarts_ b = map (λ j, item_off (use_value_delta_encoding_ b) xs (j * interval b))
                                (seq 0 (length (restarts_ b)));
  bt_nonempty : (1 <= length (restarts_ b))%nat;
  bt_count : Z.of_nat (length xs) = (Z.of_nat (length (restarts_ b)) - 1) * block_restart_interval_ b + counter_ b;
  bt_counter : 0 <= counter_ b <= block_restart_interval_ b;
  bt_started : xs ≠ [] → 1 <= counter_ b;
  bt_items : Forall item_ok xs;
  bt_chain : ∀ i x, xs !! i = Some x → follows (prev_stored xs i) x;
  bt_restart_items : ∀ i x, xs !! i = Some x → (i mod interval b = 0)%nat → it_shared x = 0;
  bt_estimate : estimate_ b = 4 + 4 * Z.of_nat (length (restarts_ b)) + Zlen (buffer_ b)
}.

(** The item that the builder makes of an entry after [xs]. *)
Definition next_item (b : BlockBuilder) (xs : list item) (key value : bytes) (delta_value : option bytes) : item :=
  let stored := MaybeStripTimestampFromKey b key in
  let shared := if (length xs mod interval b =? 0)%nat then 0
                else if use_delta_encoding_ b then difference_offset stored (last_stored xs) else 0 in
  mkItem shared stored
    (if negb (shared =? 0) && use_value_delta_encoding_ b then default [] delta_value else value).

(** An entry that can be added: sizes fit in 32 bits and there is a timestamp
    to strip where one is stripped. *)
Definition entry_ok (b : BlockBuilder) (e : bytes * bytes * option bytes) : Prop :=
  let '(key, value, delta_value) := e in
  bytes_ok key ∧ bytes_ok value ∧ bytes_ok (default [] delta_value) ∧
  Zlen key < 2 ^ 32 ∧ Zlen value < 2 ^ 32 ∧ Zlen (default [] delta_value) < 2 ^ 32 ∧ 0 <= strip_ts_sz_ b ∧
  (0 < strip_ts_sz_ b → strip_ts_sz_ b + (if builder_is_user_key_ b then 0 else kNumInternalBytes) <= Zlen key).

Lemma stored_ok b key : bytes_ok key → Zlen key < 2 ^ 32 → 0 <= strip_ts_sz_ b →
  (0 < strip_ts_sz_ b → strip_ts_sz_ b + (if builder_is_user_key_ b then 0 else kNumInternalBytes) <= Zlen key) →
  bytes_ok (MaybeStripTimestampFromKey b key) ∧ Zlen (MaybeStripTimestampFromKey b key) < 2 ^ 32.
Proof.
  intros Hk Hl H0 Hs. unfold MaybeStripTimestampFromKey.
  destruct (Z.ltb_spec 0 (strip_ts_sz_ b)) as [Hlt|]; [|done]. specialize (Hs Hlt).
  destruct (builder_is_user_key_ b).
  - split; [by apply bytes_ok_ztake|]. rewrite Zlen_ztake; lia.
  - unfold StripTimestampFromInternalKey, kNumInternalBytes in *. cbn [app].
    split; [apply bytes_ok_app; split; auto using bytes_ok_ztake, bytes_ok_zdrop|].
    rewrite Zlen_app, Zlen_ztake by lia. rewrite Zlen_zdrop; lia.
Qed.

Lemma next_item_ok b xs key value dv : entry_ok b (key, value, dv) → item_ok (next_item b xs key value dv) ∧
  (xs = [] → it_shared (next_item b xs key value dv) = 0).
Proof.
  intros (Bk & Bv & Bd & Hk & Hv & Hd & H0 & Hs). destruct (stored_ok b key Bk Hk H0 Hs) as [Bs Hl].
  split; [|intros ->; unfold next_item; cbn [length it_shared]; by rewrite Nat.Div0.mod_0_l].
  unfold item_ok, next_item. cbn [it_shared it_key it_val]. set (stored := MaybeStripTimestampFromKey b key) in *.
  destruct (difference_offset_prefix stored (last_stored xs)) as ([? ?] & ? & ?). pose proof (Zlen_nonneg stored).
  split_and!; try done; repeat case_match; done || lia.
Qed.

Lemma next_item_follows b xs key value dv : follows (last_stored xs) (next_item b xs key value dv).
Proof.
  unfold follows, next_item. cbn [it_shared it_key]. set (stored := MaybeStripTimestampFromKey b key).
  destruct (difference_offset_prefix stored (last_stored xs)) as ([? ?] & ? & E).
  pose proof (Zlen_nonneg (last_stored xs)). repeat case_match; rewrite ?ztake_0; done.
Qed.

(** The settings of two builders agree. *)
Definition same_settings (b b' : BlockBuilder) : Prop :=
  block_restart_interval_ b = block_restart_interval_ b' ∧ use_delta_encoding_ b = use_delta_encoding_ b' ∧
  use_value_delta_encoding_ b = use_value_delta_encoding_ b' ∧ strip_ts_sz_ b = strip_ts_sz_ b' ∧
  builder_is_user_key_ b = builder_is_user_key_ b'.

Lemma same_settings_next b b' xs key value dv : same_settings b b' →
  next_item b xs key value dv = next_item b' xs key value dv.
Proof. intros (E1 & E2 & E3 & E4 & E5). unfold next_item, MaybeStripTimestampFromKey, interval. by rewrite E1, E2, E3, E4, E5. Qed.
Lemma same_settings_entry b b' e : same_settings b b' → entry_ok b e → entry_ok b' e.
Proof. intros (_ & _ & _ & E4 & E5). unfold entry_ok. by rewrite E4, E5. Qed.

(** Whether the next entry starts a restart interval. *)
Lemma built_restart b xs : built b xs →
  (block_restart_interval_ b <= counter_ b ↔ xs ≠ [] ∧ (length xs mod interval b = 0)%nat) ∧
  (block_restart_interval_ b <= counter_ b → (length xs = length (restarts_ b) * interval b)%nat).
Proof.
  intros [Hn _ _ Hne Hc Hcnt Hst _ _ _ _]. unfold interval.
  set (n := block_restart_interval_ b) in *. set (R := length (restarts_ b)) in *.
  assert (n <= counter_ b → (length xs = R * Z.to_nat n)%nat) as Hlen by (intros; nia).
  split; [|done]. split.
  - intros H. specialize (Hlen H). split; [intros ->; cbn in *; lia|].
    rewrite Hlen. apply Nat.Div0.mod_mul.
  - intros [Hxs Hmod]. specialize (Hst Hxs). destruct (Z.le_gt_cases n (counter_ b)) as [|Hlt]; [done|].
    assert (Z.of_nat (length xs) mod n = counter_ b) as E.
    { rewrite Hc, Z.add_comm, Z.mod_add by lia. apply Z.mod_small. lia. }
    assert (Z.of_nat (length xs) mod n = 0) as E0.
    { rewrite <- (Z2Nat.id n) by lia. rewrite <- Nat2Z.inj_mod, Hmod. done. }
    lia.
Qed.

Lemma seq_snoc k : seq 0 (S k) = seq 0 k ++ [k].
Proof. by rewrite seq_S. Qed.

Lemma restart_points_app vd xs x n R : (∀ j, (j < R)%nat → (j * n <= length xs)%nat) →
  map (λ j, item_off vd (xs ++ [x]) (j * n)) (seq 0 R) = map (λ j, item_off vd xs (j * n)) (seq 0 R).
Proof. intros H. apply map_ext_in. intros j Hj. apply in_seq in Hj. apply item_off_app, H. lia. Qed.

(** The last key as the builder sees it. *)
Definition last_persisted (b : BlockBuilder) (last_key : bytes) : bytes :=
  if Zlen last_key =? 0 then last_key else MaybeStripTimestampFromKey b last_key.

Lemma AddWithLastKeyImpl_fields b xs key value last_key dv : built b xs →
  (use_delta_encoding_ b = true → last_persisted b last_key = last_stored xs) →
  entry_ok b (key, value, dv) → Zlen (buffer_ b) < 2 ^ 32 →
  let x := next_item b xs key value dv in
  let restart := block_restart_interval_ b <=? counter_ b in
  let b' := AddWithLastKeyImpl b key value last_key dv (Zlen (buffer_ b)) in
  buffer_ b' = enc_items (use_value_delta_encoding_ b) (xs ++ [x]) ∧
  restarts_ b' = restarts_ b ++ (if restart then [Zlen (buffer_ b)] else []) ∧
  counter_ b' = (if restart then 0 else counter_ b) + 1 ∧
  estimate_ b' = estimate_ b + (if restart then 4 else 0) + Zlen (enc_item (use_value_delta_encoding_ b) x).
Proof.
  intros Hb Hlast Hentry Hbuf. cbv zeta. pose proof (next_item_ok b xs key value dv Hentry) as [Hx Hx0].
  destruct Hx as (Hsh & Hk & Hv & _). destruct (built_restart b xs Hb) as [Hr _].
  set (x := next_item b xs key value dv) in *. set (restart := block_restart_interval_ b <=? counter_ b).
  assert ((if restart then 0 else if use_delta_encoding_ b
           then difference_offset (MaybeStripTimestampFromKey b key) (last_persisted b last_key) else 0) = it_shared x)
    as Hshared.
  { unfold x, next_item, restart in *. cbn [it_shared] in *.
    destruct (Z.leb_spec (block_restart_interval_ b) (counter_ b)) as [Hle|Hgt].
    - destruct (proj1 Hr Hle) as [_ ->]. by rewrite Nat.eqb_refl.
    - destruct (Nat.eqb_spec (length xs mod interval b) 0) as [E|E].
      + destruct xs as [|y ys]; [|assert (block_restart_interval_ b <= counter_ b) by (by apply Hr); lia].
        destruct (use_delta_encoding_ b); [|done]. rewrite Hlast by done.
        destruct (MaybeStripTimestampFromKey b key); done.
      + destruct (use_delta_encoding_ b); [|done]. by rewrite Hlast. }
  unfold AddWithLastKeyImpl. fold restart. fold (last_persisted b last_key).
  rewrite Hshared. change (MaybeStripTimestampFromKey b key) with (it_key x).
  set (v := if negb (it_shared x =? 0) && _ then _ else value). assert (v = it_val x) as Ev by done.
  cbn [buffer_ restarts_ counter_ estimate_].
  set (buf := _ ++ v). assert (buf = buffer_ b ++ enc_item (use_value_delta_encoding_ b) x) as ->.
  { unfold buf, enc_item. rewrite Ev. pose proof (Zlen_nonneg (it_val x)).
    assert (Zlen value < 2 ^ 32) by (by destruct Hentry as (_ & _ & _ & _ & ? & _)).
    pose proof (Zlen_nonneg value). rewrite !wrap_small by (unfold is_u; lia).
    destruct (use_value_delta_encoding_ b) eqn:Evd.
    - unfold PutVarint32Varint32. by rewrite <- !app_assoc.
    - unfold PutVarint32Varint32Varint32. rewrite <- Ev. unfold v. rewrite andb_false_r, <- !app_assoc. done. }
  destruct Hb as [_ Hbuffer _ _ _ _ _ _ _ _ _].
  rewrite enc_items_app, enc_items_cons, Hbuffer, Zlen_app. cbn [enc_items map concat].
  rewrite <- Hbuffer, app_nil_r, wrap_small by (split; [apply Zlen_nonneg|done]).
  split_and!; [done|by destruct restart; rewrite ?app_nil_r|by destruct restart|destruct restart; lia].
Qed.

Lemma lookup_snoc {A} (l : list A) y i x : (l ++ [y]) !! i = Some x →
  ((i < length l)%nat ∧ l !! i = Some x) ∨ (i = length l ∧ x = y).
Proof.
  intros H. apply lookup_app_Some in H as [H|[Hi H]]; [left; split; [by eapply lookup_lt_Some|done]|].
  right. apply list_lookup_singleton_Some in H as [E ->]. split; [lia|done].
Qed.
Lemma prev_stored_snoc xs x i : (i <= length xs)%nat →
  prev_stored (xs ++ [x]) i = if decide (i = length xs) then last_stored xs else prev_stored xs i.
Proof.
  intros Hi. unfold prev_stored, last_stored. destruct i as [|j].
  - destruct (decide (0%nat = length xs)) as [E|]; [|done]. by destruct xs.
  - rewrite lookup_app_l by lia. destruct (decide (S j = length xs)) as [E|]; [|done].
    by rewrite last_lookup, <- E.
Qed.

Lemma AddWithLastKeyImpl_built b xs key value last_key dv : built b xs →
  (use_delta_encoding_ b = true → last_persisted b last_key = last_stored xs) →
  entry_ok b (key, value, dv) → Zlen (buffer_ b) < 2 ^ 32 →
  let b' := AddWithLastKeyImpl b key value last_key dv (Zlen (buffer_ b)) in
  built b' (xs ++ [next_item b xs key value dv]) ∧ same_settings b b' ∧ last_key_ b' = last_key_ b.
Proof.
  intros Hb Hlast Hentry Hbuf. cbv zeta.
  destruct (AddWithLastKeyImpl_fields b xs key value last_key dv Hb Hlast Hentry Hbuf) as (E1 & E2 & E3 & E4).
  cbv zeta in *. destruct (next_item_ok b xs key value dv Hentry) as [Hx Hx0].
  pose proof (next_item_follows b xs key value dv) as Hfol. destruct (built_restart b xs Hb) as [Hr Hlen].
  set (b' := AddWithLastKeyImpl b key value last_key dv (Zlen (buffer_ b))) in *.
  assert (same_settings b b') as Hsame by done. split; [|done].
  assert (interval b' = interval b) as Ei by done. change (use_value_delta_encoding_ b) with (use_value_delta_encoding_ b') in *.
  assert ((length xs mod interval b = 0)%nat → it_shared (next_item b xs key value dv) = 0) as Hmod.
  { intros E. unfold next_item. cbn [it_shared]. by rewrite E. }
  set (x := next_item b xs key value dv) in *.
  destruct Hb as [Hn Hbuffer Hres Hne Hc Hcnt Hst Hit Hch Hri Hest].
  change (use_value_delta_encoding_ b) with (use_value_delta_encoding_ b') in *.
  change (block_restart_interval_ b) with (block_restart_interval_ b') in *.
  assert (∀ j, (j < length (restarts_ b))%nat → (j * interval b <= length xs)%nat) as Hj.
  { intros j Hj. unfold interval. change (block_restart_interval_ b) with (block_restart_interval_ b'). nia. }
  constructor; rewrite ?length_app, ?E1, ?Ei; cbn [length].
  - done.
  - done.
  - rewrite E2. destruct (Z.leb_spec (block_restart_interval_ b') (counter_ b)) as [Hle|Hgt].
    + rewrite length_app, Nat.add_1_r, seq_snoc, map_app. cbn [map].
      rewrite restart_points_app, <- Hres by done. do 2 f_equal.
      rewrite <- Hlen by done. rewrite item_off_app, item_off_end by lia. by rewrite Hbuffer.
    + rewrite app_nil_r, restart_points_app by done. done.
  - rewrite E2, length_app. lia.
  - rewrite E2, E3, length_app. destruct (Z.leb_spec (block_restart_interval_ b') (counter_ b)); cbn [length]; nia.
  - rewrite E3. destruct (Z.leb_spec (block_restart_interval_ b') (counter_ b)); lia.
  - rewrite E3. destruct (Z.leb_spec (block_restart_interval_ b') (counter_ b)); lia.
  - apply Forall_app. split; [done|]. constructor; [done|constructor].
  - intros i y Hy. apply lookup_snoc in Hy as [[Hi Hy]|[-> ->]].
    + rewrite prev_stored_snoc by lia. rewrite decide_False by lia. by apply Hch.
    + rewrite prev_stored_snoc by lia. by rewrite decide_True.
  - intros i y Hy Hm. apply lookup_snoc in Hy as [[Hi Hy]|[-> ->]]; [by eapply Hri|by apply Hmod].
  - rewrite E2, E4, Hest, enc_items_app, enc_items_cons, length_app, Hbuffer. cbn [enc_items map concat].
    rewrite app_nil_r, Zlen_app.
    destruct (Z.leb_spec (block_restart_interval_ b') (counter_ b)); cbn [length]; lia.
Qed.

(** ** Whole blocks *)

Abbreviation entry := (bytes * bytes * option bytes)%type.

Definition AddAll (b : BlockBuilder) (es : list entry) : BlockBuilder :=
  fold_left (λ b '(key, value, dv), Add b key value dv) es b.
(** Adding with [AddWithLastKey], from some last key. *)
Fixpoint AddAllWithLastKey (b : BlockBuilder) (last_key : bytes) (es : list entry) : BlockBuilder :=
  match es with
  | [] => b
  | (key, value, dv) :: es => AddAllWithLastKey (AddWithLastKey b key value last_key dv) key es
  end.
Definition items_of (b : BlockBuilder) (es : list entry) : list item :=
  fold_left (λ xs '(key, value, dv), xs ++ [next_item b xs key value dv]) es [].

Lemma items_of_snoc b es key value dv :
  items_of b (es ++ [(key, value, dv)]) = items_of b es ++ [next_item b (items_of b es) key value dv].
Proof. unfold items_of. by rewrite fold_left_app. Qed.
Lemma length_items_of b es : length (items_of b es) = length es.
Proof.
  induction es as [|[[key value] dv] es IH] using rev_ind; [done|].
  rewrite items_of_snoc, !length_app, IH. done.
Qed.
Lemma items_of_lookup b es i key value dv : es !! i = Some (key, value, dv) →
  ∃ x, items_of b es !! i = Some x ∧ it_key x = MaybeStripTimestampFromKey b key ∧
    (use_value_delta_encoding_ b = false → it_val x = value).
Proof.
  induction es as [|[[k v] d] es IH] using rev_ind; [done|].
  intros H. rewrite items_of_snoc. apply lookup_snoc in H as [[Hi H]|[-> [= -> -> ->]]].
  - destruct (IH H) as (x & Hx & ?). exists x. split; [|done]. rewrite lookup_app_l; [done|]. by rewrite length_items_of.
  - eexists. rewrite <- (length_items_of b es) at 1. rewrite lookup_app_r, Nat.sub_diag by done.
    split_and!; [done..|]. intros E. unfold next_item. cbn [it_val]. by rewrite E, andb_false_r.
Qed.
Lemma same_settings_items b b' es : same_settings b b' → items_of b es = items_of b' es.
Proof.
  intros H. induction es as [|[[k v] d] es IH] using rev_ind; [done|].
  rewrite !items_of_snoc, IH. by rewrite (same_settings_next b b').
Qed.

(** A builder as it is constructed. *)
Definition fresh (b : BlockBuilder) : Prop :=
  1 <= block_restart_interval_ b ∧ buffer_ b = [] ∧ restarts_ b = [0] ∧ estimate_ b = 8 ∧ counter_ b = 0 ∧
  last_key_ b = [].

Lemma NewBlockBuilder_fresh n delta vd index ratio ts persist user : 1 <= n →
  fresh (NewBlockBuilder n delta vd index ratio ts persist user).
Proof. done. Qed.
Lemma Reset_fresh b xs : built b xs → fresh (Reset b).
Proof.
  intros [Hn _ Hres Hne _ _ _ _ _ _ _]. unfold fresh, Reset. cbn.
  rewrite Hres. destruct (length (restarts_ b)); [lia|]. done.
Qed.

Lemma fresh_built b : fresh b → built b [].
Proof.
  intros (Hn & E1 & E2 & E3 & E4 & E5). constructor; rewrite ?E1, ?E2, ?E3, ?E4; try done; lia.
Qed.

Lemma last_persisted_stored b key value dv : entry_ok b (key, value, dv) →
  last_persisted b key = MaybeStripTimestampFromKey b key.
Proof.
  intros (_ & _ & _ & _ & _ & _ & H0 & Hs). unfold last_persisted.
  destruct (Z.eqb_spec (Zlen key) 0) as [E|]; [|done]. unfold MaybeStripTimestampFromKey.
  destruct (Z.ltb_spec 0 (strip_ts_sz_ b)) as [Hlt|]; [|done]. specialize (Hs Hlt).
  unfold kNumInternalBytes in Hs. destruct (builder_is_user_key_ b); lia.
Qed.

Lemma AddAll_built b es : fresh b → Forall (entry_ok b) es →
  Zlen (enc_items (use_value_delta_encoding_ b) (items_of b es)) < 2 ^ 32 →
  built (AddAll b es) (items_of b es) ∧ same_settings b (AddAll b es) ∧
  (use_delta_encoding_ b = true →
    last_persisted (AddAll b es) (last_key_ (AddAll b es)) = last_stored (items_of b es)).
Proof.
  intros Hf. induction es as [|[[key value] dv] es IH] using rev_ind; intros Hes Hsize.
  - split_and!; [by apply fresh_built|done|]. destruct Hf as (_ & _ & _ & _ & _ & E). cbn. by rewrite E.
  - apply Forall_app in Hes as [Hes He]. inversion He as [|? ? Hkv _]; subst.
    rewrite items_of_snoc in *. rewrite enc_items_app, Zlen_app in Hsize.
    pose proof (Zlen_nonneg (enc_items (use_value_delta_encoding_ b)
      [next_item b (items_of b es) key value dv])).
    destruct IH as (Hb & Hsame & Hlast); [done|lia|].
    unfold AddAll in *. rewrite fold_left_app. cbn [fold_left].
    set (b1 := fold_left _ es b) in *. pose proof Hsame as (S1 & S2 & S3 & S4 & S5).
    assert (entry_ok b1 (key, value, dv)) as Hkv1 by (by eapply same_settings_entry).
    assert (Zlen (buffer_ b1) < 2 ^ 32) as Hbuf by (rewrite (bt_buffer _ _ Hb), <- S3; lia).
    destruct (AddWithLastKeyImpl_built b1 (items_of b es) key value (last_key_ b1) dv Hb) as (Hb2 & Hs2 & El);
      [by intros E; apply Hlast; congruence|done|done|].
    rewrite <- (same_settings_next b b1) in Hb2 by done.
    set (b2 := AddWithLastKeyImpl b1 key value (last_key_ b1) dv (Zlen (buffer_ b1))) in *.
    assert (same_settings b b2) as Hs by (destruct Hs2 as (? & ? & ? & ? & ?); unfold same_settings; split_and!; congruence).
    unfold Add. fold b2. destruct (use_delta_encoding_ b2) eqn:Ed.
    + split_and!; [by destruct Hb2; constructor|done|]. intros _. unfold last_stored. rewrite last_snoc.
      cbn [from_option set_last_key last_key_]. transitivity (last_persisted b2 key); [done|].
      rewrite (last_persisted_stored b2 key value dv) by (by eapply same_settings_entry).
      unfold next_item, MaybeStripTimestampFromKey. destruct Hs as (_ & _ & _ & -> & ->). done.
    + split_and!; [done..|]. intros E. destruct Hs as (_ & E' & _). congruence.
Qed.

(** Adding with an explicit last key does the same, but for the copy of the key. *)
Lemma AddWithLastKeyImpl_last b key value l1 l2 dv n :
  (use_delta_encoding_ b = true → last_persisted b l1 = last_persisted b l2) →
  AddWithLastKeyImpl b key value l1 dv n = AddWithLastKeyImpl b key value l2 dv n.
Proof.
  intros H. unfold AddWithLastKeyImpl. fold (last_persisted b l1). fold (last_persisted b l2).
  destruct (use_delta_encoding_ b); [by rewrite H|done].
Qed.

Lemma AddAllWithLastKey_AddAll b b' last_key es es' : fresh b → Forall (entry_ok b) (es ++ es') →
  Zlen (enc_items (use_value_delta_encoding_ b) (items_of b (es ++ es'))) < 2 ^ 32 →
  b' = set_last_key (AddAll b es) [] →
  (es ≠ [] → last_persisted b last_key = last_stored (items_of b es)) →
  set_last_key (AddAllWithLastKey b' last_key es') [] = set_last_key (AddAll b (es ++ es')) [].
Proof.
  intros Hf. revert es b' last_key. induction es' as [|[[key value] dv] es' IH];
    intros es b' last_key Hes Hsize Eb' Hlk; [by rewrite app_nil_r, Eb'|].
  cbn [AddAllWithLastKey].
  change ((key, value, dv) :: es') with ([(key, value, dv)] ++ es') in *. rewrite app_assoc in *.
  pose proof Hes as Hes0. apply Forall_app in Hes0 as [Hes1 _]. pose proof Hes1 as Hes2.
  apply Forall_app in Hes2 as [Hes0 He]. inversion He as [|? ? Hkv _]; subst.
  assert (∀ l l', Zlen (enc_items (use_value_delta_encoding_ b) (items_of b l)) <=
    Zlen (enc_items (use_value_delta_encoding_ b) (items_of b (l ++ l')))) as Hmono.
  { intros l l'. induction l' as [|[[k v] d] l' IHl] using rev_ind; [by rewrite app_nil_r|].
    rewrite app_assoc, items_of_snoc, enc_items_app, Zlen_app.
    pose proof (Zlen_nonneg (enc_items (use_value_delta_encoding_ b) [next_item b (items_of b (l ++ l')) k v d])). lia. }
  pose proof (Hmono es [(key, value, dv)]). pose proof (Hmono (es ++ [(key, value, dv)]) es').
  destruct (AddAll_built b es Hf Hes0) as (Hb & Hs & Hl); [lia|].
  apply IH; [done..| |].
  - unfold AddAll. rewrite fold_left_app. cbn [fold_left]. fold (AddAll b es).
    set (b1 := AddAll b es) in *. unfold AddWithLastKey, Add.
    set (l := ztake _ last_key). cbn [buffer_ set_last_key].
    transitivity (set_last_key (AddWithLastKeyImpl b1 key value l dv (Zlen (buffer_ b1))) []); [done|].
    rewrite (AddWithLastKeyImpl_last b1 key value l (last_key_ b1)); [by case_match|].
    intros Ed. destruct Hs as (S1 & S2 & S3 & S4 & S5). rewrite Hl by congruence.
    destruct es as [|e es].
    + assert (Zlen (buffer_ b1) = 0) as E0 by (rewrite (bt_buffer _ _ Hb); done).
      unfold l. cbn [buffer_ set_last_key]. rewrite E0. by rewrite ztake_0.
    + assert (0 < Zlen (buffer_ b1)) as Hpos.
      { rewrite (bt_buffer _ _ Hb). rewrite <- (item_off_end _ _ (length (items_of b (e :: es)))) by done.
        pose proof (item_off_index (use_value_delta_encoding_ b1) _ (bt_items _ _ Hb) _ (le_n _)) as Hi.
        rewrite length_items_of in Hi at 1. cbn [length] in Hi. lia. }
      unfold l. cbn [buffer_ set_last_key]. destruct (Z.ltb_spec 0 (Zlen (buffer_ b1))); [|lia].
      rewrite ztake_all by done. rewrite <- Hlk by done.
      unfold last_persisted, MaybeStripTimestampFromKey. by rewrite S4, S5.
  - intros _. rewrite items_of_snoc. unfold last_stored. rewrite last_snoc. cbn [from_option].
    by rewrite (last_persisted_stored b key value dv).
Qed.

(** The hash index of the builder, as long as it is valid, holds the user keys
    with the indices of their restart intervals. *)
Definition restart_of (b : BlockBuilder) (i : nat) : Z := Z.of_nat (i / interval b).
Definition hash_adds (b : BlockBuilder) (es : list entry) : list (bytes * Z) :=
  imap (λ i e, (ExtractUserKey (fst (fst e)), restart_of b i)) es.

Lemma built_restart_of b b2 xs x : built b2 (xs ++ [x]) → interval b2 = interval b →
  Zlen (restarts_ b2) - 1 = restart_of b (length xs).
Proof.
  intros [Hn _ _ Hne Hc Hcnt Hst _ _ _ _] Ei. specialize (Hst ltac:(by destruct xs)).
  rewrite length_app in Hc. cbn [length] in Hc. unfold restart_of. rewrite <- Ei. unfold interval.
  set (n := block_restart_interval_ b2) in *. set (R := length (restarts_ b2)) in *.
  rewrite Nat2Z.inj_div, Z2Nat.id by lia.
  replace (Z.of_nat (length xs)) with (counter_ b2 - 1 + (Z.of_nat R - 1) * n) by lia.
  rewrite Z.div_add, Z.div_small by lia. done.
Qed.

Lemma AddAll_hash b es : fresh b → Forall (entry_ok b) es →
  Zlen (enc_items (use_value_delta_encoding_ b) (items_of b es)) < 2 ^ 32 →
  HashIndex_Valid (data_block_hash_index_builder_ (AddAll b es)) = true →
  data_block_hash_index_builder_ (AddAll b es) = AddKeys (data_block_hash_index_builder_ b) (hash_adds b es) ∧
  Forall (λ a, 0 <= snd a <= kMaxRestartSupportedByHashIndex) (hash_adds b es).
Proof.
  intros Hf. induction es as [|[[key value] dv] es IH] using rev_ind; intros Hes Hsize Hv; [done|].
  apply Forall_app in Hes as [Hes He]. inversion He as [|? ? Hkv _]; subst.
  rewrite items_of_snoc, enc_items_app, Zlen_app in Hsize.
  pose proof (Zlen_nonneg (enc_items (use_value_delta_encoding_ b) [next_item b (items_of b es) key value dv])).
  destruct (AddAll_built b es Hf Hes) as (Hb & Hs & Hlast); [lia|].
  unfold AddAll in Hv |- *. rewrite fold_left_app in Hv |- *. cbn [fold_left] in Hv |- *. fold (AddAll b es) in *.
  set (b1 := AddAll b es) in *. unfold hash_adds. rewrite imap_app, AddKeys_app. fold (hash_adds b es).
  set (h1 := data_block_hash_index_builder_ b1) in *.
  pose proof Hs as (S1 & S2 & S3 & S4 & S5).
  destruct (AddWithLastKeyImpl_fields b1 (items_of b es) key value (last_key_ b1) dv Hb) as (_ & E2 & E3 & _);
    [by intros E; apply Hlast; congruence|by eapply same_settings_entry|rewrite (bt_buffer _ _ Hb), <- S3; lia|].
  destruct (AddWithLastKeyImpl_built b1 (items_of b es) key value (last_key_ b1) dv Hb) as (Hb2 & _ & _);
    [by intros E; apply Hlast; congruence|by eapply same_settings_entry|rewrite (bt_buffer _ _ Hb), <- S3; lia|].
  cbv zeta in *. set (b2 := AddWithLastKeyImpl b1 key value (last_key_ b1) dv (Zlen (buffer_ b1))) in *.
  assert (data_block_hash_index_builder_ b2 =
    if HashIndex_Valid h1 then HashIndex_Add h1 (ExtractUserKey key) (restart_of b (length es)) else h1) as Eh.
  { unfold b2, AddWithLastKeyImpl. cbn [data_block_hash_index_builder_]. fold h1.
    assert (Zlen (restarts_ b2) - 1 = restart_of b (length es)) as E.
    { rewrite <- (length_items_of b es). apply (built_restart_of b b2 _ _ Hb2). unfold interval. by rewrite S1. }
    unfold b2 in E. cbn [AddWithLastKeyImpl restarts_] in E. by rewrite E. }
  assert (data_block_hash_index_builder_ (Add b1 key value dv) = data_block_hash_index_builder_ b2) as Ea
    by (unfold Add; fold b2; by destruct (use_delta_encoding_ b2)).
  rewrite Ea, Eh in *. destruct (HashIndex_Valid h1) eqn:Ev; [|congruence].
  destruct IH as [IH1 IH2]; [done|lia|done|]. rewrite <- IH1. cbn [imap AddKeys fold_left fst].
  rewrite Nat.add_0_r. split; [done|]. apply Forall_app. split; [done|]. constructor; [|constructor].
  cbn [snd]. split; [unfold restart_of; lia|]. unfold HashIndex_Valid, HashIndex_Add in Hv.
  destruct (Z.ltb_spec kMaxRestartSupportedByHashIndex (restart_of b (length es))); [done|lia].
Qed.

(** ** The finished block and its parsed form *)

Definition restart_array (restarts : list Z) : bytes := concat (map EncodeFixed32 restarts).

Lemma put_restarts_app buffer restarts : put_restarts buffer restarts = buffer ++ restart_array restarts.
Proof.
  unfold put_restarts, restart_array. revert buffer. induction restarts as [|r rs IH]; intros buffer; cbn.
  - by rewrite app_nil_r.
  - rewrite IH. unfold PutFixed32. by rewrite <- app_assoc.
Qed.
Lemma Zlen_restart_array rs : Zlen (restart_array rs) = 4 * Zlen rs.
Proof.
  induction rs as [|r rs IH]; [done|]. unfold restart_array in *. cbn [map concat].
  rewrite Zlen_app, IH, Zlen_EncodeFixed32, Zlen_cons. lia.
Qed.
Lemma restart_array_lookup rs j r rest : rs !! j = Some r → is_u 32 r →
  DecodeFixed32 (zdrop (Z.of_nat j * 4) (restart_array rs ++ rest)) = r.
Proof.
  intros Hj Hr. rewrite <- (take_drop_middle rs j r Hj). unfold restart_array.
  rewrite map_app, concat_app. cbn [map concat]. rewrite <- !app_assoc.
  rewrite zdrop_app; [by apply DecodeFixed32_Encode|].
  pose proof (Zlen_restart_array (take j rs)) as E. unfold restart_array in E. rewrite E.
  rewrite Zlen_length, length_take. apply lookup_lt_Some in Hj. lia.
Qed.

Definition has_hash_index (b : BlockBuilder) : bool :=
  HashIndex_Valid (data_block_hash_index_builder_ b)
  && (CurrentSizeEstimate b <=? kMaxBlockSizeSupportedByHashIndex).

(** What follows the restart array. *)
Definition block_tail (b : BlockBuilder) : bytes :=
  (if has_hash_index b then
     HashIndex_Finish (data_block_hash_index_builder_ b) [] else []) ++
  EncodeFixed32 (PackIndexTypeAndNumRestarts
    (if has_hash_index b then kDataBlockBinaryAndHash else kDataBlockBinarySearch) (u32 (Zlen (restarts_ b)))).

Lemma HashIndex_Finish_app h buffer : HashIndex_Finish h buffer = buffer ++ HashIndex_Finish h [].
Proof. unfold HashIndex_Finish, PutFixed16. cbn [app]. by rewrite <- app_assoc. Qed.

Lemma Finish_layout b xs : built b xs →
  fst (Finish b) = enc_items (use_value_delta_encoding_ b) xs ++ restart_array (restarts_ b) ++ block_tail b.
Proof.
  intros Hb. rewrite <- (bt_buffer _ _ Hb). unfold Finish, block_tail. fold (has_hash_index b).
  rewrite put_restarts_app. destruct (has_hash_index b); cbn [fst].
  - rewrite HashIndex_Finish_app. unfold PutFixed32. by rewrite <- !app_assoc.
  - unfold PutFixed32. cbn [app]. by rewrite <- !app_assoc.
Qed.

Lemma Zlen_HashIndex_Finish h : Zlen (HashIndex_Finish h []) = HashIndex_EstimateSize h.
Proof.
  unfold HashIndex_Finish, PutFixed16, HashIndex_EstimateSize. cbn [app].
  destruct (num_buckets_range h) as [Hr Hn]. rewrite Zlen_app, Zlen_fill_buckets by lia.
  unfold EncodeFixed16. rewrite Zlen_le_bytes. unfold num_buckets. cbv zeta.
  destruct (Z.eqb_spec (double_to_u16 (estimated_num_buckets_ h)) 0) as [->|]; [done|]. change (Z.of_nat 2) with 2. lia.
Qed.

Lemma Finish_size b xs : built b xs → Zlen (fst (Finish b)) =
  if has_hash_index b then CurrentSizeEstimate b else estimate_ b.
Proof.
  intros Hb. rewrite (Finish_layout b xs Hb), (bt_estimate _ _ Hb), <- (bt_buffer _ _ Hb).
  unfold block_tail. rewrite !Zlen_app, Zlen_restart_array, Zlen_EncodeFixed32.
  unfold CurrentSizeEstimate. rewrite (bt_estimate _ _ Hb). change (Z.of_nat (length (restarts_ b))) with (Zlen (restarts_ b)).
  destruct (has_hash_index b) eqn:E.
  - unfold has_hash_index in E. apply andb_true_iff in E as [-> _]. rewrite Zlen_HashIndex_Finish. lia.
  - change (Zlen (@nil Z)) with 0. lia.
Qed.

Lemma UnPack_footer index n : is_u 31 n →
  UnPackIndexTypeAndNumRestarts (PackIndexTypeAndNumRestarts index n) = (index, n) ∧
  is_u 32 (PackIndexTypeAndNumRestarts index n).
Proof.
  intros Hn. unfold UnPackIndexTypeAndNumRestarts, kNumRestartsMask, kDataBlockIndexTypeBitShift,
    PackIndexTypeAndNumRestarts, kDataBlockIndexTypeBitShift. change (Z.shiftl 1 31) with (2 ^ 31).
  change (2 ^ 31 - 1) with (Z.ones 31).
  assert (Z.land n (2 ^ 31) = 0) as E0.
  { apply Z.bits_inj'. intros i Hi. rewrite Z.land_spec, Z.pow2_bits_eqb, Z.bits_0 by lia.
    destruct (Z.eqb_spec 31 i) as [<-|]; [|by rewrite andb_false_r]. by rewrite (testbit_above 31) by (done || lia). }
  assert (Z.land n (Z.ones 31) = n) as E1 by (rewrite Z.land_ones by lia; by apply Z.mod_small).
  destruct index.
  - rewrite E0, E1. split; [done|]. by apply (is_u_mono 31).
  - rewrite !Z.land_lor_distr_l, E0, E1, Z.land_diag. split; [|by apply is_u_lor; [|apply (is_u_mono 31)|]].
    change (Z.land (2 ^ 31) (Z.ones 31)) with 0. by rewrite Z.lor_0_r.
Qed.

Lemma restarts_fit b xs : built b xs → Zlen (fst (Finish b)) < 2 ^ 32 →
  1 <= Zlen (restarts_ b) ∧ is_u 30 (Zlen (restarts_ b)).
Proof.
  intros Hb Hs. pose proof (bt_nonempty _ _ Hb) as Hne.
  rewrite (Finish_layout b xs Hb), !Zlen_app, Zlen_restart_array in Hs.
  pose proof (Zlen_nonneg (enc_items (use_value_delta_encoding_ b) xs)). pose proof (Zlen_nonneg (block_tail b)).
  assert (1 <= Zlen (restarts_ b)) by (rewrite Zlen_length; lia). unfold is_u. lia.
Qed.

(** The parsed form of a finished block. *)
Lemma NewBlock_Finish b xs : built b xs → Zlen (fst (Finish b)) < 2 ^ 32 →
  NewBlock (fst (Finish b)) =
    mkBlock (fst (Finish b)) (Zlen (fst (Finish b))) (Zlen (enc_items (use_value_delta_encoding_ b) xs))
      (Zlen (restarts_ b))
      (if has_hash_index b then num_buckets (data_block_hash_index_builder_ b) else 0).
Proof.
  intros Hb Hs. destruct (restarts_fit b xs Hb Hs) as [HR1 HR]. pose proof (Finish_size b xs Hb) as Hsz.
  pose proof (Finish_layout b xs Hb) as Hl. set (c := fst (Finish b)) in *.
  assert (is_u 31 (Zlen (restarts_ b))) as HR31 by (by apply (is_u_mono 30)).
  assert (is_u 32 (Zlen (restarts_ b))) as HR32 by (by apply (is_u_mono 30)).
  set (E := enc_items _ xs) in *. set (A := restart_array (restarts_ b)) in *.
  assert (Zlen A = 4 * Zlen (restarts_ b)) as HA by apply Zlen_restart_array.
  pose proof (Zlen_nonneg E) as HE. unfold block_tail in Hl. rewrite wrap_small in Hl by done.
  set (footer := PackIndexTypeAndNumRestarts _ _) in Hl.
  destruct (UnPack_footer (if has_hash_index b then kDataBlockBinaryAndHash else kDataBlockBinarySearch)
    (Zlen (restarts_ b)) HR31) as [Hunpack Hfooter]. fold footer in Hunpack, Hfooter.
  set (H := if has_hash_index b then HashIndex_Finish _ [] else []) in Hl.
  assert (Zlen c = Zlen E + Zlen A + Zlen H + 4) as Hc by (rewrite Hl, !Zlen_app, Zlen_EncodeFixed32; lia).
  pose proof (Zlen_nonneg H) as HH.
  assert (DecodeFixed32 (zdrop (Zlen c - 4) c) = footer) as Hfoot.
  { rewrite Hl at 2. rewrite !app_assoc, zdrop_app by (rewrite !Zlen_app; lia).
    rewrite <- (app_nil_r (EncodeFixed32 footer)). by apply DecodeFixed32_Encode. }
  unfold NewBlock, NumRestarts, IndexType. rewrite Hfoot, Hunpack. cbn [fst snd].
  destruct (Z.ltb_spec (Zlen c) 4); [lia|].
  destruct (has_hash_index b) eqn:Eh.
  - (* with a hash index *)
    assert (Zlen c <= 2 ^ 16) as Hc16.
    { unfold has_hash_index in Eh. apply andb_true_iff in Eh as [_ Eh]. apply Z.leb_le in Eh.
      rewrite Hsz. done. }
    destruct (Z.ltb_spec kMaxBlockSizeSupportedByHashIndex (Zlen c)) as [Hgt|_];
      [change kMaxBlockSizeSupportedByHashIndex with (2 ^ 16) in Hgt; lia|].
    assert (2 <= Zlen H) as HH2.
    { unfold H. rewrite Zlen_HashIndex_Finish. unfold HashIndex_EstimateSize.
      assert (0 <= Z.lor (double_to_u16 (estimated_num_buckets_ (data_block_hash_index_builder_ b))) 1); [|lia].
      apply Z.lor_nonneg. split; [|lia]. unfold double_to_u16. repeat case_match; try lia.
      by destruct (wrap_range 16 (Z.shiftl (Zpos m) e)). }
    destruct (Z.ltb_spec (Zlen c) (4 + 2)); [lia|].
    destruct (HashIndex_table (data_block_hash_index_builder_ b) (E ++ A) (EncodeFixed32 footer)) as [Hopen _].
    { rewrite HashIndex_Finish_app, !Zlen_app. fold H. lia. }
    rewrite (HashIndex_Finish_app _ (E ++ A)), <- !app_assoc in Hopen. fold H in Hopen. rewrite <- Hl in Hopen.
    replace (u16 (Zlen c - 4)) with (Zlen (E ++ A ++ H)) by (rewrite wrap_small, !Zlen_app; unfold is_u; lia).
    rewrite Hopen, Zlen_app, HA.
    rewrite (wrap_small 32) by (unfold is_u; lia).
    replace (Zlen E + 4 * Zlen (restarts_ b) - Zlen (restarts_ b) * 4) with (Zlen E) by lia.
    destruct (Z.ltb_spec (Zlen E + 4 * Zlen (restarts_ b)) (Zlen E)); [lia|done].
  - (* without *)
    change H with (@nil Z) in *. change (Zlen (@nil Z)) with 0 in *.
    assert ((if kMaxBlockSizeSupportedByHashIndex <? Zlen c then footer else Zlen (restarts_ b)) = Zlen (restarts_ b))
      as -> by (by case_match).
    assert ((if kMaxBlockSizeSupportedByHashIndex <? Zlen c then kDataBlockBinarySearch else kDataBlockBinarySearch)
      = kDataBlockBinarySearch) as -> by (by case_match).
    unfold is_u in HR. rewrite !(wrap_small 32) by (unfold is_u; rewrite ?wrap_small by (unfold is_u; lia); lia).
    replace (Zlen c - (1 + Zlen (restarts_ b)) * 4) with (Zlen E) by lia.
    destruct (Z.ltb_spec (Zlen c - 4) (Zlen E)); [lia|done].
Qed.

Lemma buffer_grows b key value dv : Zlen (buffer_ b) <= Zlen (buffer_ (Add b key value dv)).
Proof.
  assert (Zlen (buffer_ b) <= Zlen (buffer_ (AddWithLastKeyImpl b key value (last_key_ b) dv (Zlen (buffer_ b))))) as H.
  { unfold AddWithLastKeyImpl. cbn [buffer_]. set (v := if negb _ && _ then _ else value).
    set (k := zdrop _ _). set (h := if use_value_delta_encoding_ b then _ else _).
    assert (Zlen (buffer_ b) <= Zlen h) as Hh.
    { unfold h, PutVarint32Varint32Varint32, PutVarint32Varint32.
      destruct (use_value_delta_encoding_ b); rewrite (Zlen_app (buffer_ b)); zpos; lia. }
    rewrite !Zlen_app. zpos. lia. }
  unfold Add. by destruct (use_delta_encoding_ _).
Qed.

Lemma AddAll_fits b es : fresh b → Forall (entry_ok b) es → Zlen (buffer_ (AddAll b es)) < 2 ^ 32 →
  Zlen (enc_items (use_value_delta_encoding_ b) (items_of b es)) < 2 ^ 32.
Proof.
  intros Hf. induction es as [|[[key value] dv] es IH] using rev_ind; intros Hes Hsize; [done|].
  apply Forall_app in Hes as [Hes He]. inversion He as [|? ? Hkv _]; subst.
  unfold AddAll in Hsize. rewrite fold_left_app in Hsize. cbn [fold_left] in Hsize. fold (AddAll b es) in Hsize.
  pose proof (buffer_grows (AddAll b es) key value dv) as Hg. specialize (IH Hes ltac:(lia)).
  destruct (AddAll_built b es Hf Hes IH) as (Hb & Hs & Hlast). pose proof Hs as (S1 & S2 & S3 & S4 & S5).
  set (b1 := AddAll b es) in *. rewrite items_of_snoc, (same_settings_next b b1), S3 by done.
  destruct (AddWithLastKeyImpl_fields b1 (items_of b es) key value (last_key_ b1) dv Hb) as (E1 & _);
    [by intros E; apply Hlast; congruence|by eapply same_settings_entry|lia|]. cbv zeta in E1. rewrite <- E1.
  unfold Add in Hsize. by destruct (use_delta_encoding_ _).
Qed.

Lemma Finish_contains b : Zlen (buffer_ b) <= Zlen (fst (Finish b)).
Proof.
  unfold Finish. rewrite put_restarts_app. destruct (_ && _); cbn [fst]; unfold PutFixed32.
  - rewrite HashIndex_Finish_app, !Zlen_app. zpos. lia.
  - rewrite !Zlen_app. zpos. lia.
Qed.

(** Whatever fits in a block of 32-bit offsets is built right. *)
Lemma AddAll_built_fits b es : fresh b → Forall (entry_ok b) es → Zlen (fst (Finish (AddAll b es))) < 2 ^ 32 →
  built (AddAll b es) (items_of b es) ∧ same_settings b (AddAll b es) ∧
  Zlen (enc_items (use_value_delta_encoding_ b) (items_of b es)) < 2 ^ 32.
Proof.
  intros Hf Hes Hsize. pose proof (Finish_contains (AddAll b es)).
  assert (Zlen (enc_items (use_value_delta_encoding_ b) (items_of b es)) < 2 ^ 32) as Hfit
    by (apply AddAll_fits; [done..|lia]).
  destruct (AddAll_built b es Hf Hes Hfit) as (? & ? & _). done.
Qed.
