(* ===== verification/BlockScan.v ===== *)
(** * Walking a well formed block

    The steps of [BlockIter] on a block that holds a list of items: parsing the
    next entry, moving forwards and backwards, and searching. The lemmas are for
    any entry decoder that reads well formed items, so that they serve data and
    meta blocks. *)

From S2P Require Import Prelude Status Coding Slice Comparator DbFormat IterKey.
From S2P Require Import BlockHashIndex BlockBuilder Block BlockLayout.
#[local] Open Scope Z_scope.
#[local] Opaque ztake zdrop Zlen.

(** A source whose data are the items [xs], with restart points at the items
    [rs]. [user] says that the keys are user keys. *)
Record block_ok (src : BlockSource) (user : bool) (xs : list item) (rs : list nat) : Prop := {
  bk_data : ∃ rest, data_ src = Some (enc_items false xs ++ restart_array (map (item_off false xs) rs) ++ rest);
  bk_restarts : iter_restarts_ src = Zlen (enc_items false xs);
  bk_num : num_restarts_ src = Zlen rs;
  bk_size : Zlen (enc_items false xs) < 2 ^ 32;
  bk_items : Forall item_ok xs;
  bk_chain : ∀ i x, xs !! i = Some x → follows (prev_stored xs i) x;
  bk_first : rs !! 0%nat = Some 0%nat;
  bk_sorted : ∀ j j' i i', rs !! j = Some i → rs !! j' = Some i' → (j < j')%nat → (i < i')%nat;
  bk_within : xs ≠ [] → Forall (λ i, (i < length xs)%nat) rs;
  bk_none : xs = [] → rs = [0%nat];
  bk_restart_items : ∀ j i x, rs !! j = Some i → xs !! i = Some x → it_shared x = 0;
  bk_num_fits : Zlen rs < 2 ^ 31;
  bk_ts : 0 <= ts_sz_ src;
  bk_internal : user = false → Forall (λ x, kNumInternalBytes <= Zlen (it_key x)) xs
}.

Section Scan.
Context (new_char : Z → bytes) (new_char_len : ∀ n, 0 <= n → Zlen (new_char n) = n).
Context (src : BlockSource) (user : bool) (xs : list item) (rs : list nat).
Context (HB : block_ok src user xs rs).

Abbreviation off := (item_off false xs).

(** The key of the block that a stored key stands for. *)
Definition decoded_key (stored : bytes) : bytes :=
  if pad_min_timestamp_ src then
    if user then AppendKeyWithMinTimestamp [] stored (ts_sz_ src)
    else PadInternalKeyWithMinTimestamp [] stored (ts_sz_ src)
  else stored.

Definition key_ok (k : IterKey) : Prop := iter_ok k ∧ is_user_key_ k = user.
Definition holds_key (k : IterKey) (stored : bytes) : Prop := key_ok k ∧ GetKey k = decoded_key stored.

(** The parts of an iterator that every step preserves. *)
Record iter_sane (it : BlockIter) : Prop := {
  is_source : source_ it = src;
  is_raw : key_ok (raw_key_ it);
  is_buf : iter_ok (key_buf_ it);
  is_status : ok (status_ it) = true;
  is_current : 0 <= current_ it
}.

Definition in_restarts (it : BlockIter) : Prop := 0 <= restart_index_ it < Zlen rs.

(** The next entry to be parsed is the [i]th item. *)
Record before (it : BlockIter) (i : nat) : Prop := {
  bf_sane : iter_sane it;
  bf_next : NextEntryOffset it = off i;
  bf_bound : (i <= length xs)%nat;
  bf_key : ∀ x, xs !! i = Some x → it_shared x = 0 ∨ holds_key (raw_key_ it) (prev_stored xs i);
  bf_index : in_restarts it
}.

(** The iterator is at the [i]th item. *)
Record at_item (it : BlockIter) (i : nat) (x : item) : Prop := {
  ai_sane : iter_sane it;
  ai_item : xs !! i = Some x;
  ai_current : current_ it = off i;
  ai_key : holds_key (raw_key_ it) (it_key x);
  ai_value : value_ it = (off (S i) - Zlen (it_val x), Zlen (it_val x));
  ai_index : in_restarts it
}.

Lemma off_u32 i : is_u 32 (off i).
Proof using HB.
  pose proof (item_off_nonneg false xs i). pose proof (item_off_bound false xs (bk_items _ _ _ _ HB) i).
  pose proof (bk_size _ _ _ _ HB). unfold is_u. lia.
Qed.

Lemma at_before it i x : at_item it i x → before it (S i).
Proof using HB.
  intros [Hs Hi Hc Hk Hv Hr]. constructor; [done|..].
  - unfold NextEntryOffset. rewrite Hv. cbn [fst snd]. rewrite wrap_small; [lia|].
    replace (off (S i) - Zlen (it_val x) + Zlen (it_val x)) with (off (S i)) by lia. apply off_u32.
  - apply lookup_lt_Some in Hi. lia.
  - intros y Hy. right. cbn [prev_stored]. by rewrite Hi.
  - done.
Qed.

Lemma at_valid it i x : at_item it i x → Valid it = true.
Proof using HB.
  intros [Hs Hi Hc _ _ _]. unfold Valid. rewrite (is_source _ Hs), Hc, (bk_restarts _ _ _ _ HB).
  apply Z.ltb_lt. rewrite <- (item_off_end false xs (length xs)) by done.
  apply item_off_lt; [by apply (bk_items _ _ _ _ HB)|by eapply lookup_lt_Some..].
Qed.

(** ** Keys *)

Lemma key_ok_clear k : key_ok k → key_ok (Clear k).
Proof using.
  intros [[H1 H2] H3]. split; [|done]. split; [|done]. unfold Clear, key_data in *. cbn [key_size_ key_ buf_].
  pose proof (Zlen_nonneg (default (buf_ k) (key_ k))). lia.
Qed.

Lemma set_whole_key it stored : source_ it = src → key_ok (raw_key_ it) →
  ∃ k, UpdateRawKeyAndMaybePadMinTimestamp new_char it stored = set_raw_key it k ∧ holds_key k stored.
Proof using new_char_len.
  intros Es [[_ Hbuf] Hu]. unfold UpdateRawKeyAndMaybePadMinTimestamp, holds_key, decoded_key, IsUserKey, SetKey.
  rewrite Es, Hu. destruct (pad_min_timestamp_ src).
  - set (b := if user then _ else _). eexists. split; [reflexivity|].
    destruct (SetKeyImpl_spec new_char new_char_len (raw_key_ it) b true Hbuf) as (E & Hok & _).
    split; [split; [done|exact Hu]|exact E].
  - eexists. split; [reflexivity|].
    destruct (SetKeyImpl_spec new_char new_char_len (raw_key_ it) stored false Hbuf) as (E & Hok & _).
    split; [split; [done|exact Hu]|exact E].
Qed.

Lemma extend_key k prev x : item_ok x → follows prev x → holds_key k prev →
  (user = false → kNumInternalBytes <= Zlen prev ∧ kNumInternalBytes <= Zlen (it_key x)) →
  it_shared x <= Size k ∧
  let delta := zdrop (it_shared x) (it_key x) in
  holds_key (if pad_min_timestamp_ src then TrimAppendWithTimestamp new_char k (it_shared x) delta (ts_sz_ src)
             else TrimAppend new_char k (it_shared x) delta) (it_key x).
Proof using new_char_len HB.
  intros (Hsh & _) [Hf1 Hf2] [[Hk Hu] Hkey] Hint. cbv zeta. pose proof (GetKey_len k Hk) as Hlen.
  assert (ztake (it_shared x) prev ++ zdrop (it_shared x) (it_key x) = it_key x) as Ekey
    by (rewrite <- Hf2; apply ztake_zdrop).
  pose proof (bk_ts _ _ _ _ HB) as Hts.
  unfold holds_key, key_ok, decoded_key, Size in *. destruct (pad_min_timestamp_ src).
  2: { rewrite Hkey in Hlen. split; [lia|].
       destruct (TrimAppend_append new_char new_char_len k (it_shared x) (zdrop (it_shared x) (it_key x)) Hk)
         as (E & _ & Hok & _); [lia|]. split; [split; [done|exact Hu]|]. by rewrite E, Hkey, Ekey. }
  set (z := replicate (Z.to_nat (ts_sz_ src)) 0).
  assert (Zlen z = ts_sz_ src) as Hz by (unfold z; rewrite Zlen_replicate; lia).
  destruct user.
  - rewrite Hkey in Hlen. unfold AppendKeyWithMinTimestamp in Hlen, Hkey. cbn [app] in Hlen, Hkey. fold z in Hlen, Hkey.
    rewrite Zlen_app in Hlen. split; [lia|].
    destruct (TrimAppendWithTimestamp_user new_char new_char_len k (it_shared x) (zdrop (it_shared x) (it_key x))
      (ts_sz_ src) Hk Hu) as (E & Hok); [lia|]. split; [split; [done|exact Hu]|].
    rewrite E, Hkey, ztake_app_le by lia. by rewrite Ekey.
  - destruct (Hint eq_refl) as [H8 H8']. unfold kNumInternalBytes in *.
    assert (∃ u f, prev = u ++ f ∧ Zlen f = 8) as (u & f & -> & Hf8).
    { exists (ztake (Zlen prev - 8) prev), (zdrop (Zlen prev - 8) prev).
      split; [by rewrite ztake_zdrop|rewrite Zlen_zdrop; lia]. }
    rewrite (Pad_app u f Hf8 (ts_sz_ src)) in Hkey. fold z in Hkey.
    rewrite Hkey, !Zlen_app in Hlen. rewrite Zlen_app in Hf1. split; [lia|].
    destruct (TrimAppendWithTimestamp_internal new_char new_char_len k (it_shared x)
      (zdrop (it_shared x) (it_key x)) (ts_sz_ src) u z f) as (E & Hok); try done.
    + rewrite Zlen_app. lia.
    + unfold kNumInternalBytes. rewrite Zlen_zdrop by done. lia.
    + split; [split; [done|exact Hu]|]. rewrite E, Hkey, <- Hz, (Strip_app u z f Hf8). by rewrite Ekey.
Qed.

(** ** Parsing the next entry *)

Context (decode : bytes → option (Z * Z * Z * bytes)).
Context (Hdec : ∀ i x, xs !! i = Some x →
           decode (zdrop (off i) (enc_items false xs)) = Some (item_decoded xs i x)).

Lemma block_data it : source_ it = src → ztake (iter_restarts_ src) (the_data it) = enc_items false xs.
Proof using HB.
  intros Es. unfold the_data. rewrite Es. destruct (bk_data _ _ _ _ HB) as [rest ->]. cbn [from_option id].
  rewrite (bk_restarts _ _ _ _ HB). by apply ztake_app.
Qed.

Lemma advance_restart_range fuel it current r : source_ it = src → 0 <= r < Zlen rs →
  0 <= advance_restart fuel it current r < Zlen rs.
Proof using HB.
  intros Es. revert r. induction fuel as [|fuel IH]; intros r Hr; [done|]. cbn [advance_restart].
  rewrite Es, (bk_num _ _ _ _ HB). destruct (Z.ltb_spec (r + 1) (Zlen rs)); cbn [andb]; [|done].
  destruct (_ <? current); [apply IH; lia|done].
Qed.

Lemma parse_item it i x : before it i → xs !! i = Some x →
  ∃ it', ParseNextKey new_char decode it = (true, it') ∧ at_item it' i x ∧
    cur_entry_idx_ it' = cur_entry_idx_ it.
Proof using new_char_len HB Hdec.
  intros [[Es Hraw Hbuf Hst Hcur] Hnext Hi Hkey Hidx] Hx. pose proof (bk_items _ _ _ _ HB) as Hok.
  pose proof (proj1 (Forall_lookup _ _) Hok i x Hx) as Hxok. pose proof Hxok as (Hsh & _).
  assert (off (S i) = off i + Zlen (enc_item false x)) as HS by (by apply item_off_S).
  unfold ParseNextKey. rewrite Hnext, Es, block_data by done.
  rewrite (bk_restarts _ _ _ _ HB), (Hdec i x Hx). unfold item_decoded.
  destruct (Z.leb_spec (Zlen (enc_items false xs)) (off i)) as [Hle|_].
  { rewrite <- (item_off_end false xs (length xs)) in Hle by done. apply lookup_lt_Some in Hx.
    pose proof (item_off_lt false xs Hok i (length xs) Hx Hx). lia. }
  assert (ztake (Zlen (it_key x) - it_shared x)
    (zdrop (it_shared x) (it_key x) ++ it_val x ++ enc_items false (drop (S i) xs)) = zdrop (it_shared x) (it_key x))
    as -> by (apply ztake_app; rewrite Zlen_zdrop; lia).
  set (p := zdrop (it_shared x) (it_key x) ++ it_val x ++ enc_items false (drop (S i) xs)).
  assert (Zlen (enc_items false xs) - Zlen p + (Zlen (it_key x) - it_shared x) = off (S i) - Zlen (it_val x)) as ->.
  { rewrite (enc_items_split false xs i x Hx), !Zlen_app, HS. unfold p. rewrite !Zlen_app, Zlen_zdrop by lia.
    unfold item_off. lia. }
  destruct (Z.eqb_spec (it_shared x) 0) as [E0|E0].
  - rewrite E0. destruct (Z.ltb_spec (Size (raw_key_ it)) 0) as [Hlt|_].
    { destruct Hraw as [[[? _] _] _]. unfold Size in Hlt. lia. }
    change (zdrop 0 (it_key x)) with (it_key x).
    destruct (set_whole_key (set_position it (off i) (restart_index_ it)) (it_key x)) as (k & -> & Hk); [done..|].
    eexists. split; [reflexivity|]. split; [|done].
    constructor; [constructor; [done|by destruct Hk|done|done|by apply off_u32]|done..|].
    unfold in_restarts. cbn [restart_index_ set_position]. apply advance_restart_range; [done|done].
  - destruct (Hkey x Hx) as [?|Hprev]; [done|].
    destruct (extend_key (raw_key_ it) (prev_stored xs i) x Hxok) as [Hsz Hk]; [by apply (bk_chain _ _ _ _ HB)|done| |].
    { intros Eu. pose proof (bk_internal _ _ _ _ HB Eu) as H8. split; [|by eapply (proj1 (Forall_lookup _ _) H8)].
      destruct i as [|j]; [exfalso; apply E0; by apply (bk_restart_items _ _ _ _ HB 0 0 x (bk_first _ _ _ _ HB))|].
      cbn [prev_stored]. apply lookup_lt_Some in Hx. destruct (lookup_lt_is_Some_2 xs j) as [y Hy]; [lia|].
      rewrite Hy. by eapply (proj1 (Forall_lookup _ _) H8). }
    destruct (Z.ltb_spec (Size (raw_key_ it)) (it_shared x)) as [Hlt|_]; [lia|]. cbv zeta in Hk.
    eexists. split; [reflexivity|]. cbn [restart_index_ raw_key_ set_position].
    split; [|by destruct (pad_min_timestamp_ src)].
    destruct (pad_min_timestamp_ src); (constructor; [constructor; [done|by destruct Hk|done|done|by apply off_u32]|done..]).
Qed.

Lemma parse_end it : before it (length xs) → ParseNextKey new_char decode it = (false, PastTheEnd it).
Proof using HB.
  intros [[Es Hraw Hbuf Hst Hcur] Hnext Hi Hkey Hidx]. unfold ParseNextKey, PastTheEnd.
  rewrite Hnext, item_off_end, Es, (bk_restarts _ _ _ _ HB) by done. by rewrite Z.leb_refl.
Qed.

(** ** Positions *)

Definition at_end (it : BlockIter) : Prop := iter_sane it ∧ Valid it = false.
Definition positioned (it : BlockIter) (pos : option nat) : Prop :=
  match pos with Some i => ∃ x, at_item it i x | None => at_end it end.
(** The position of index [i], which may be just past the last item. *)
Definition pos_of (i : nat) : option nat := if decide (i < length xs)%nat then Some i else None.

Lemma positioned_sane it pos : positioned it pos → iter_sane it.
Proof using. destruct pos; [intros (x & []); done|by intros []]. Qed.
Lemma positioned_valid it pos : positioned it pos → Valid it = bool_decide (is_Some pos).
Proof using HB.
  destruct pos; [intros (x & H); by rewrite (at_valid _ _ _ H)|by intros [_ ->]].
Qed.

Lemma past_the_end it : iter_sane it → at_end (PastTheEnd it).
Proof using HB.
  intros [Es ? ? ? ?]. split.
  - constructor; [done..|]. cbn. rewrite Es, (bk_restarts _ _ _ _ HB). apply Zlen_nonneg.
  - unfold Valid, PastTheEnd. cbn. rewrite Es. apply Z.ltb_irrefl.
Qed.

Lemma parse_pos it i : before it i → ∃ it', ParseNextKey new_char decode it =
  (bool_decide (i < length xs)%nat, it') ∧ positioned it' (pos_of i).
Proof using new_char_len HB Hdec.
  intros H. unfold pos_of. destruct (decide (i < length xs)%nat) as [Hi|Hi].
  - destruct (lookup_lt_is_Some_2 xs i Hi) as [x Hx]. destruct (parse_item it i x H Hx) as (it' & E & Hat & _).
    exists it'. rewrite bool_decide_eq_true_2 by done. split; [done|]. by exists x.
  - assert (i = length xs) as -> by (pose proof (bf_bound _ _ H); lia).
    exists (PastTheEnd it). rewrite bool_decide_eq_false_2 by lia. split; [by apply parse_end|].
    by apply past_the_end, (bf_sane _ _ H).
Qed.

Lemma set_idx_at it i x n : at_item it i x → at_item (set_idx it n) i x.
Proof using. intros [[? ? ? ? ?] ? ? ? ? ?]. by constructor. Qed.
Lemma set_idx_positioned it pos n : positioned it pos → positioned (set_idx it n) pos.
Proof using.
  destruct pos; [intros (x & H); exists x; by apply set_idx_at|]. intros [[? ? ? ? ?] ?]. by split; [constructor|].
Qed.
Lemma set_idx_before it i n : before it i → before (set_idx it n) i.
Proof using. intros [[? ? ? ? ?] ? ? ? ?]. by constructor. Qed.

Lemma NextImpl_before it i : before it i → positioned (NextImpl new_char decode it) (pos_of i).
Proof using new_char_len HB Hdec.
  intros H. destruct (parse_pos it i H) as (it' & E & Hp). unfold NextImpl. rewrite E. by apply set_idx_positioned.
Qed.

Lemma restart_point it j i : source_ it = src → rs !! j = Some i → GetRestartPoint it (Z.of_nat j) = off i.
Proof using HB.
  intros Es Hj. unfold GetRestartPoint, the_data. rewrite Es. destruct (bk_data _ _ _ _ HB) as [rest ->].
  cbn [from_option id]. rewrite (bk_restarts _ _ _ _ HB), <- zdrop_zdrop by (apply Zlen_nonneg || lia).
  rewrite zdrop_app by done. apply restart_array_lookup; [|apply off_u32].
  change (map (item_off false xs) rs) with ((item_off false xs) <$> rs). by rewrite list_lookup_fmap, Hj.
Qed.

Lemma seek_restart it j i : iter_sane it → rs !! j = Some i →
  before (SeekToRestartPoint it (Z.of_nat j)) i.
Proof using HB.
  intros [Es Hraw Hbuf Hst Hcur] Hj. pose proof (lookup_lt_Some _ _ _ Hj) as Hlt. unfold SeekToRestartPoint.
  constructor.
  - constructor; try done. cbn. by apply key_ok_clear.
  - unfold NextEntryOffset. cbn [value_ set_value fst snd]. rewrite (restart_point _ j i) by done.
    rewrite Z.add_0_r. apply wrap_small, off_u32.
  - destruct (decide (xs = [])) as [E|E].
    + rewrite (bk_none _ _ _ _ HB E) in Hj. apply list_lookup_singleton_Some in Hj as [_ <-]. lia.
    + pose proof (bk_within _ _ _ _ HB E) as Hw. pose proof (proj1 (Forall_lookup _ _) Hw j i Hj). cbn in *. lia.
  - intros x Hx. left. by eapply (bk_restart_items _ _ _ _ HB).
  - unfold in_restarts. cbn. rewrite Zlen_length. lia.
Qed.

(** ** Moving *)

Lemma data_some it : iter_sane it → ∃ d, data_ (source_ it) = Some d.
Proof using HB. intros [-> _ _ _ _]. destruct (bk_data _ _ _ _ HB) as [rest ->]. eauto. Qed.

Lemma SeekToFirstImpl_pos it : iter_sane it → positioned (SeekToFirstImpl new_char decode it) (pos_of 0).
Proof using new_char_len HB Hdec.
  intros Hs. destruct (data_some it Hs) as [d Hd]. unfold SeekToFirstImpl. rewrite Hd.
  destruct (parse_pos _ 0 (seek_restart it 0 0 Hs (bk_first _ _ _ _ HB))) as (it' & E & Hp).
  change (Z.of_nat 0) with 0 in E. rewrite E. by apply set_idx_positioned.
Qed.

Lemma NextImpl_pos it i x : at_item it i x → positioned (NextImpl new_char decode it) (pos_of (S i)).
Proof using new_char_len HB Hdec. intros H. by apply NextImpl_before, (at_before _ _ _ H). Qed.

Lemma fuel_enough it i : iter_sane it → (i <= length xs)%nat → (i < scan_fuel it)%nat.
Proof using HB.
  intros [Es _ _ _ _] Hi. unfold scan_fuel. rewrite Es, (bk_restarts _ _ _ _ HB).
  pose proof (item_off_index false xs (bk_items _ _ _ _ HB) i Hi).
  pose proof (item_off_bound false xs (bk_items _ _ _ _ HB) i). lia.
Qed.

(** Skipping until the entry that ends at [off (S j)]. *)
Lemma skip_to_item count j : (j < length xs)%nat → ∀ fuel it i, before it i → (i <= j)%nat →
  (j - i < fuel)%nat → ∃ it' x, skip_to new_char fuel decode it (off (S j)) count = Some it' ∧ at_item it' j x.
Proof using new_char_len HB Hdec.
  intros Hj. induction fuel as [|fuel IH]; intros it i Hb Hij Hf; [lia|]. cbn [skip_to].
  destruct (lookup_lt_is_Some_2 xs i) as [x Hx]; [lia|].
  destruct (parse_item it i x Hb Hx) as (it' & -> & Hat & _). pose proof (at_before _ _ _ Hat) as Hb'.
  rewrite (bf_next _ _ Hb'). cbn [andb]. pose proof (bk_items _ _ _ _ HB) as Hok.
  destruct (Z.ltb_spec (off (S i)) (off (S j))) as [Hlt|Hge].
  - apply (item_off_lt_iff false xs Hok) in Hlt; [|lia..]. apply (IH _ (S i)); [|lia..].
    destruct count; [by apply set_idx_before|done].
  - assert (¬ (S i < S j)%nat) by (intros H; apply (item_off_lt_iff false xs Hok) in H; lia).
    assert (i = j) as -> by lia. by exists it', x.
Qed.

Lemma last_restart : rs !! (length rs - 1)%nat = last rs ∧ is_Some (last rs) ∧ (1 <= length rs)%nat.
Proof using HB.
  pose proof (bk_first _ _ _ _ HB) as H0. pose proof (lookup_lt_Some _ _ _ H0).
  rewrite last_lookup, Nat.sub_1_r. split_and!; [done| |lia]. apply lookup_lt_is_Some. lia.
Qed.

Lemma restart_within j i : rs !! j = Some i → xs ≠ [] → (i < length xs)%nat.
Proof using HB. intros Hj Hx. by apply (proj1 (Forall_lookup _ _) (bk_within _ _ _ _ HB Hx) j i Hj). Qed.

Lemma SeekToLastImpl_pos it : iter_sane it → ∃ it', SeekToLastImpl new_char decode it = Some it' ∧
  positioned it' (if decide (xs = []) then None else Some (length xs - 1)%nat).
Proof using new_char_len HB Hdec.
  intros Hs. destruct (data_some it Hs) as [d Hd]. unfold SeekToLastImpl. rewrite Hd.
  destruct last_restart as (El & [i Hi] & Hne). rewrite Hi in El.
  rewrite (is_source _ Hs), (bk_num _ _ _ _ HB).
  replace (Zlen rs - 1) with (Z.of_nat (length rs - 1)) by (rewrite Zlen_length; lia).
  pose proof (seek_restart it _ i Hs El) as Hb. set (it1 := SeekToRestartPoint it _) in *.
  set (it2 := set_idx it1 _). assert (before it2 i) as Hb2 by (by apply set_idx_before).
  rewrite (is_source _ (bf_sane _ _ Hb2)), (bk_restarts _ _ _ _ HB).
  destruct (decide (xs = [])) as [E|E].
  - assert (i = length xs) as -> by (pose proof (bf_bound _ _ Hb2) as Hbd; rewrite E in Hbd |- *; cbn in *; lia).
    pose proof (parse_end it2 Hb2) as Ep. exists (PastTheEnd it2). split; [|apply past_the_end, Hb2].
    destruct (scan_fuel it2) eqn:Ef; [by unfold scan_fuel in Ef|]. cbn [skip_to]. by rewrite Ep.
  - pose proof (restart_within _ _ El E). rewrite <- (item_off_end false xs (S (length xs - 1))) by lia.
    destruct (skip_to_item true (length xs - 1) ltac:(lia) (scan_fuel it2) it2 i Hb2) as (it' & x & Es & Hat);
      [lia|pose proof (fuel_enough it2 (length xs) (bf_sane _ _ Hb2) (le_n _)); lia|].
    exists it'. split; [done|]. by exists x.
Qed.

(** The search for a restart point before the [i]th item. *)
Lemma restart_before_spec it i r : source_ it = src → (i < length xs)%nat → (r < length rs)%nat →
  match restart_before r it (off i) with
  | None => i = 0%nat
  | Some j => ∃ k m, j = Z.of_nat k ∧ rs !! k = Some m ∧ (m < i)%nat
  end.
Proof using HB.
  intros Es Hi. induction r as [|r IH]; intros Hr; cbn [restart_before];
    destruct (lookup_lt_is_Some_2 rs _ Hr) as [m Hm]; rewrite (restart_point it _ m Es Hm);
    pose proof (bk_items _ _ _ _ HB) as Hok;
    (assert (m < length xs)%nat as Hml by (eapply restart_within; [done|intros E; rewrite E in Hi; cbn in Hi; lia]));
    destruct (Z.leb_spec (off i) (off m)) as [Hle|Hgt].
  - rewrite (bk_first _ _ _ _ HB) in Hm. injection Hm as <-.
    destruct (decide (i = 0%nat)) as [|Hne]; [done|]. pose proof (item_off_lt false xs Hok 0 i). lia.
  - exists 0%nat, m. split_and!; [done..|]. apply (item_off_lt_iff false xs Hok); lia.
  - apply IH. lia.
  - exists (S r), m. split_and!; [done..|]. apply (item_off_lt_iff false xs Hok); lia.
Qed.

(** ** Searching *)

(** [CompareCurrentKey] as a function of the key. *)
Definition key_compare (key target : bytes) : Z :=
  if user then Compare (icmp_ src) key target
  else if global_seqno_ src =? kDisableGlobalSequenceNumber then InternalKeyComparator.Compare (icmp_ src) key target
  else InternalKeyComparator.CompareGlobalSeqno (icmp_ src) key (global_seqno_ src) target
         kDisableGlobalSequenceNumber.

Lemma CompareCurrentKey_key it stored target : source_ it = src → holds_key (raw_key_ it) stored →
  CompareCurrentKey it target = key_compare (decoded_key stored) target.
Proof using.
  intros Es [[_ Hu] <-]. unfold CompareCurrentKey, key_compare, IsUserKey, GetUserKey, GetInternalKey, GetKey.
  rewrite Es, <- Hu. by destruct (is_user_key_ (raw_key_ it)).
Qed.

Context (target : bytes).
Definition cmp (x : item) : Z := key_compare (decoded_key (it_key x)) target.

(** Once an item is not smaller than the target, no later item is. *)
Context (Hsorted : ∀ i j x y, xs !! i = Some x → xs !! j = Some y → (i < j)%nat → cmp y <= 0 → cmp x < 0).

(** The index of the first item that is not smaller than the target. *)
Definition seek_index (i : nat) : Prop :=
  (i <= length xs)%nat ∧ (∀ j x, xs !! j = Some x → (j < i)%nat → cmp x < 0) ∧
  (∀ x, xs !! i = Some x → 0 <= cmp x).

Lemma seek_index_unique i j : seek_index i → seek_index j → i = j.
Proof using.
  intros (Hi & Hi1 & Hi2) (Hj & Hj1 & Hj2). destruct (lt_eq_lt_dec i j) as [[H|H]|H]; [|done|].
  - destruct (lookup_lt_is_Some_2 xs i) as [x Hx]; [lia|]. pose proof (Hj1 i x Hx H). pose proof (Hi2 x Hx). lia.
  - destruct (lookup_lt_is_Some_2 xs j) as [x Hx]; [lia|]. pose proof (Hi1 j x Hx H). pose proof (Hj2 x Hx). lia.
Qed.
Lemma seek_index_here i x : xs !! i = Some x → 0 <= cmp x → (∀ j y, xs !! j = Some y → (S j = i)%nat → cmp y < 0) →
  seek_index i.
Proof using Hsorted.
  intros Hx Hc Hp. split_and!; [apply lookup_lt_Some in Hx; lia| |congruence].
  intros j y Hy Hj. destruct (decide (S j = i)) as [|Hne]; [by eapply Hp|].
  destruct (lookup_lt_is_Some_2 xs (i - 1)) as [z Hz]; [apply lookup_lt_Some in Hx; lia|].
  assert (cmp z < 0) by (apply (Hp _ _ Hz); lia). apply (Hsorted j (i - 1) y z); try done; lia.
Qed.
Lemma seek_index_equal i x : xs !! i = Some x → cmp x = 0 → seek_index i.
Proof using Hsorted.
  intros Hx Hc. split_and!; [apply lookup_lt_Some in Hx; lia| |intros y Hy; assert (y = x) as -> by congruence; lia].
  intros j y Hy Hj. apply (Hsorted j i y x); [done..|lia].
Qed.
Lemma seek_index_end : (∀ j y, xs !! j = Some y → (S j = length xs)%nat → cmp y < 0) → seek_index (length xs).
Proof using Hsorted.
  intros Hp. split_and!; [done| |intros x Hx; apply lookup_lt_Some in Hx; lia].
  intros j y Hy Hj. destruct (decide (S j = length xs)) as [|Hne]; [by eapply Hp|].
  destruct (lookup_lt_is_Some_2 xs (length xs - 1)) as [z Hz]; [lia|].
  assert (cmp z < 0) by (apply (Hp _ _ Hz); lia). apply (Hsorted j (length xs - 1) y z); try done; lia.
Qed.

(** The key of a restart point, decoded by the binary search. *)
Lemma restart_item j : xs ≠ [] → (j < length rs)%nat → ∃ i x, rs !! j = Some i ∧ xs !! i = Some x ∧ it_shared x = 0.
Proof using HB.
  intros Hx Hj. destruct (lookup_lt_is_Some_2 rs j Hj) as [i Hi].
  destruct (lookup_lt_is_Some_2 xs i (restart_within _ _ Hi Hx)) as [x Hxi].
  exists i, x. split_and!; [done..|]. by eapply (bk_restart_items _ _ _ _ HB).
Qed.

Lemma binary_step it j i x : iter_sane it → rs !! j = Some i → xs !! i = Some x → it_shared x = 0 →
  ∃ key_ptr it', DecodeKey (zdrop (GetRestartPoint it (u32 (Z.of_nat j))) (ztake (iter_restarts_ src) (the_data it)))
    = Some (0, Zlen (it_key x), key_ptr) ∧
  UpdateRawKeyAndMaybePadMinTimestamp new_char it (ztake (Zlen (it_key x)) key_ptr) = it' ∧
  iter_sane it' ∧ CompareCurrentKey it' target = cmp x.
Proof using new_char_len HB.
  intros Hs Hj Hx E0. pose proof Hs as [Es Hraw Hbuf Hst Hcur]. pose proof (lookup_lt_Some _ _ _ Hj) as Hlt.
  pose proof (bk_num_fits _ _ _ _ HB) as Hfit. rewrite Zlen_length in Hfit.
  rewrite wrap_small by (unfold is_u; lia). rewrite (restart_point it j i Es Hj), block_data by done.
  unfold DecodeKey. rewrite (DecodeEntry_item xs (bk_items _ _ _ _ HB) i x Hx). unfold item_decoded.
  cbn [mbind option_bind]. rewrite E0, Z.sub_0_r. change (zdrop 0 (it_key x)) with (it_key x).
  eexists _, _. split_and!; [reflexivity|reflexivity|..]; rewrite ztake_app by done;
    destruct (set_whole_key it (it_key x) Es Hraw) as (k & -> & Hk).
  - constructor; [done|by destruct Hk|done..].
  - by apply CompareCurrentKey_key.
Qed.

(** The restart key of index [j] compares to the target like [P] says. *)
Definition restart_cmp (j : Z) (P : Z → Prop) : Prop :=
  ∃ i x, rs !! Z.to_nat j = Some i ∧ xs !! i = Some x ∧ P (cmp x).

Definition bounds (left_ right_ : Z) : Prop :=
  (left_ = -1 ∨ 0 <= left_ ∧ restart_cmp left_ (λ c, c < 0)) ∧
  (right_ + 1 < Zlen rs → restart_cmp (right_ + 1) (λ c, 0 < c)).

Lemma BinarySeek_loop_spec fuel it left_ right_ : xs ≠ [] → iter_sane it → -1 <= left_ <= right_ →
  right_ < Zlen rs → bounds left_ right_ → right_ - left_ <= Z.of_nat fuel →
  ∃ l skip it', BinarySeek_loop new_char fuel it target left_ right_ false = (Some (l, skip), it') ∧ iter_sane it' ∧
    -1 <= l < Zlen rs ∧ (if skip : bool then 0 <= l ∧ restart_cmp l (λ c, c = 0) else bounds l l).
Proof using new_char_len HB.
  intros Hx. revert it left_ right_. induction fuel as [|fuel IH]; intros it left_ right_ Hs Hlr Hr Hb Hf.
  - exists left_, false, it. assert (left_ = right_) as -> by lia. split_and!; done || lia.
  - cbn [BinarySeek_loop]. destruct (Z.eqb_spec left_ right_) as [->|Hne].
    { exists right_, false, it. split_and!; done || lia. }
    set (mid := left_ + (right_ - left_ + 1) / 2).
    assert (left_ < mid <= right_) as Hmid by (unfold mid; zlia).
    destruct (restart_item (Z.to_nat mid) Hx) as (i & x & Hi & Hxi & E0); [rewrite Zlen_length in *; lia|].
    destruct (binary_step it _ i x Hs Hi Hxi E0) as (p & it1 & Ed & Eu & Hs1 & Ec).
    rewrite Z2Nat.id in Ed by lia. rewrite (is_source _ Hs), Ed. cbv zeta. rewrite Eu, Ec.
    assert (∀ P : Z → Prop, P (cmp x) → restart_cmp mid P) as Hrc by (intros P HP; by exists i, x).
    destruct (Z.ltb_spec (cmp x) 0) as [Hlt|Hge]; [|destruct (Z.ltb_spec 0 (cmp x)) as [Hgt|Hle]].
    + apply IH; [done|lia..| |lia]. split; [right; split; [lia|by apply Hrc]|apply Hb].
    + apply IH; [done|lia..| |lia]. split; [apply Hb|]. intros _. replace (mid - 1 + 1) with mid by lia. by apply Hrc.
    + exists mid, true, it1. split_and!; [|done|lia|lia|lia|apply Hrc; lia].
      destruct fuel; cbn [BinarySeek_loop]; [done|]. by rewrite Z.eqb_refl.
Qed.

Lemma BinarySeek_spec it : xs ≠ [] → iter_sane it →
  ∃ l skip it' i x, BinarySeek new_char it target = (Some (Z.of_nat l, skip), it') ∧ iter_sane it' ∧
    rs !! l = Some i ∧ xs !! i = Some x ∧
    (if skip : bool then seek_index i
     else cmp x < 0 ∧ ∀ i' y, rs !! S l = Some i' → xs !! i' = Some y → 0 < cmp y).
Proof using new_char_len HB Hsorted.
  intros Hx Hs. unfold BinarySeek. rewrite (is_source _ Hs), (bk_restarts _ _ _ _ HB), (bk_num _ _ _ _ HB).
  destruct (Z.eqb_spec (Zlen (enc_items false xs)) 0) as [E|_].
  { pose proof (item_off_index false xs (bk_items _ _ _ _ HB) (length xs) (le_n _)) as Hi.
    rewrite item_off_end in Hi by done. assert (length xs ≠ 0%nat) by (by rewrite length_zero_iff_nil). lia. }
  destruct last_restart as (_ & _ & Hne).
  destruct (BinarySeek_loop_spec (Z.to_nat (Zlen rs - 1 + 1)) it (-1) (Zlen rs - 1) Hx Hs)
    as (l & skip & it' & -> & Hs' & Hl & Hres); [rewrite Zlen_length; lia|lia| |rewrite Zlen_length; lia|].
  { split; [by left|]. lia. }
  destruct (Z.eqb_spec l (-1)) as [->|Hl1].
  - destruct skip; [lia|]. destruct Hres as [_ Hright].
    destruct Hright as (i & x & Hi & Hxi & Hc); [rewrite Zlen_length; lia|].
    exists 0%nat, true, it', i, x. split_and!; [done..|]. apply (seek_index_here i x); [done|lia|].
    change (Z.to_nat (-1 + 1)) with 0%nat in Hi. rewrite (bk_first _ _ _ _ HB) in Hi. injection Hi as <-. lia.
  - exists (Z.to_nat l), skip, it'. rewrite Z2Nat.id by lia. destruct skip.
    + destruct Hres as (_ & i & x & Hi & Hxi & Hc). exists i, x. split_and!; [done..|]. by eapply seek_index_equal.
    + destruct Hres as [[?|(_ & i & x & Hi & Hxi & Hc)] Hright]; [done|]. exists i, x. split_and!; [done..|].
      intros i' y Hi' Hy. pose proof (lookup_lt_Some _ _ _ Hi').
      destruct Hright as (i2 & y2 & Hi2 & Hy2 & Hc2); [rewrite Zlen_length; lia|].
      replace (Z.to_nat (l + 1)) with (S (Z.to_nat l)) in Hi2 by lia.
      assert (i2 = i') as -> by congruence. by assert (y2 = y) as -> by congruence.
Qed.

(** The linear scan from an item that is smaller than the target. *)
Lemma linear_scan_spec max_offset m fuel : ∀ it i x, at_item it i x → cmp x < 0 →
  (∀ k y, xs !! k = Some y → (i < k)%nat → off k = max_offset → 0 < cmp y) →
  m = length xs → (m - i <= fuel)%nat →
  ∃ it' k, linear_scan new_char fuel decode it target max_offset = Some it' ∧ seek_index k ∧ positioned it' (pos_of k).
Proof using new_char_len HB Hdec Hsorted.
  induction fuel as [|fuel IH]; intros it i x Hat Hc Hmax Hm Hf; pose proof (ai_item _ _ _ Hat) as Hx;
    pose proof (lookup_lt_Some _ _ _ Hx) as Hlt; [lia|].
  cbn [linear_scan]. pose proof (NextImpl_pos it i x Hat) as Hp. set (it1 := NextImpl new_char decode it) in *.
  rewrite (positioned_valid _ _ Hp). unfold pos_of in Hp |- *. destruct (decide (S i < length xs)%nat) as [Hi|Hi].
  2: { exists it1, (length xs). rewrite bool_decide_eq_false_2 by (by intros []). split_and!; [done| |].
       - apply seek_index_end. intros j y Hy Hj. assert (j = i) as -> by lia. congruence.
       - by rewrite decide_False by lia. }
  destruct Hp as [y Hat1]. pose proof (ai_item _ _ _ Hat1) as Hy.
  assert (0 <= cmp y → seek_index (S i)) as Hhere.
  { intros Hge. apply (seek_index_here _ y Hy Hge). intros j z Hz Hj. assert (j = i) as -> by lia. congruence. }
  rewrite bool_decide_eq_true_2 by done. cbn [negb]. rewrite (ai_current _ _ _ Hat1).
  rewrite (CompareCurrentKey_key it1 (it_key y)) by (apply Hat1). fold (cmp y).
  assert (∃ x, at_item it1 (S i) x) as Hpos by eauto.
  destruct (Z.eqb_spec (off (S i)) max_offset) as [E|_].
  { exists it1, (S i). split_and!; [done| |by rewrite decide_True].
    apply Hhere. pose proof (Hmax (S i) y Hy). lia. }
  destruct (Z.leb_spec 0 (cmp y)).
  { exists it1, (S i). split_and!; [done|auto|by rewrite decide_True]. }
  apply (IH it1 (S i) y Hat1); [lia| |done|lia]. intros k z Hz Hk. apply Hmax; [done|lia].
Qed.

Lemma FindKey_spec it l skip i x : iter_sane it → rs !! l = Some i → xs !! i = Some x →
  (if skip : bool then seek_index i
   else cmp x < 0 ∧ ∀ i' y, rs !! S l = Some i' → xs !! i' = Some y → 0 < cmp y) →
  ∃ it' k, FindKeyAfterBinarySeek new_char decode it target (Z.of_nat l) skip = Some it' ∧ seek_index k ∧
    positioned it' (pos_of k).
Proof using new_char_len HB Hdec Hsorted.
  intros Hs Hl Hx Hc. unfold FindKeyAfterBinarySeek.
  pose proof (seek_restart it l i Hs Hl) as Hb. set (it1 := SeekToRestartPoint it _) in *.
  set (it2 := set_idx it1 _). assert (before it2 i) as Hb2 by (by apply set_idx_before).
  pose proof (NextImpl_before it2 i Hb2) as Hp. set (it3 := NextImpl new_char decode it2) in *.
  unfold pos_of in Hp |- *. rewrite decide_True in Hp by (by eapply lookup_lt_Some). destruct Hp as [x' Hat].
  assert (x' = x) as -> by (pose proof (ai_item _ _ _ Hat); congruence).
  destruct skip.
  { exists it3, i. rewrite decide_True by (by eapply lookup_lt_Some). split_and!; [done..|]. by exists x. }
  destruct Hc as [Hc Hnext]. pose proof (bk_items _ _ _ _ HB) as Hok.
  pose proof (lookup_lt_Some _ _ _ Hx) as Hlt.
  eapply (linear_scan_spec _ (length xs)); [done|done| |done|].
  2: { pose proof (fuel_enough it3 (length xs) (ai_sane _ _ _ Hat) (le_n _)). lia. }
  rewrite (is_source _ (ai_sane _ _ _ Hat)), (bk_num _ _ _ _ HB). intros k y Hy Hk.
  pose proof (lookup_lt_Some _ _ _ Hy). destruct (Z.ltb_spec (Z.of_nat l + 1) (Zlen rs)) as [Hin|Hout].
  - destruct (lookup_lt_is_Some_2 rs (S l)) as [i' Hi']; [rewrite Zlen_length in Hin; lia|].
    replace (Z.of_nat l + 1) with (Z.of_nat (S l)) by lia.
    rewrite (restart_point it3 (S l) i') by (done || apply Hat). intros E.
    apply (item_off_inj false xs Hok) in E as ->; [by apply (Hnext i')|lia|].
    destruct (decide (xs = [])) as [E0|E0]; [by rewrite E0 in Hy|]. pose proof (restart_within _ _ Hi' E0). lia.
  - pose proof (item_off_lt false xs Hok k (length xs)). rewrite (item_off_end false xs (length xs)) in * by done.
    pose proof (bk_size _ _ _ _ HB). lia.
Qed.

Lemma SeekImpl_spec it : iter_sane it →
  ∃ it' k, SeekImpl new_char decode it target = Some it' ∧ seek_index k ∧ positioned it' (pos_of k).
Proof using new_char_len HB Hdec Hsorted.
  intros Hs. destruct (data_some it Hs) as [d Hd]. unfold SeekImpl. rewrite Hd.
  destruct (decide (xs = [])) as [E|E].
  - unfold BinarySeek. rewrite (is_source _ Hs), (bk_restarts _ _ _ _ HB), E. cbn.
    exists it, 0%nat. split_and!; [done|split_and!; [lia|lia|intros x Hx; by rewrite E in Hx]|].
    unfold pos_of. rewrite E, decide_False by (cbn; lia). split; [done|].
    unfold Valid. rewrite (is_source _ Hs), (bk_restarts _ _ _ _ HB), E. apply Z.ltb_ge.
    change (Zlen (enc_items false [])) with 0. apply (is_current _ Hs).
  - destruct (BinarySeek_spec it E Hs) as (l & skip & it1 & i & x & -> & Hs1 & Hl & Hx & Hc).
    by apply (FindKey_spec it1 l skip i x).
Qed.
End Scan.
