(* ===== verification/BlockCursor.v ===== *)
(** * Block iterators as cursors

    [DataBlockIter], with its cache for backward iteration, and [MetaBlockIter] on
    a well formed block: every operation moves to the item that a cursor over
    the list of items would move to. *)

From S2P Require Import Prelude SortedLists Status Coding Slice Comparator DbFormat IterKey.
From S2P Require Import BlockHashIndex BlockBuilder Block BlockLayout BlockScan.
#[local] Open Scope Z_scope.
#[local] Opaque ztake zdrop Zlen.

(** The position before index [i]. *)
Definition pred_pos (i : nat) : option nat := match i with O => None | S j => Some j end.

(** The indices that searches for a target end at. *)
Section Bounds.
Context (src : BlockSource) (user : bool) (xs : list item) (target : bytes).
Abbreviation cmp := (cmp src user target).
Context (Hsorted : ∀ i j x y, xs !! i = Some x → xs !! j = Some y → (i < j)%nat → cmp y <= 0 → cmp x < 0).

Definition lower_idx : nat := count_while (λ x, cmp x <? 0) xs.
Definition upper_idx : nat := count_while (λ x, cmp x <=? 0) xs.

Lemma seek_index_lower k : seek_index src user xs target k → k = lower_idx.
Proof using.
  intros (H1 & H2 & H3). symmetry. apply count_while_unique; [done|..].
  - intros i x Hx Hi. apply Z.ltb_lt. by apply (H2 i).
  - intros x Hx. apply Z.ltb_ge. by apply H3.
Qed.

(** The last item that is not larger than the target, from the first that is
    not smaller. *)
Lemma upper_cases : (upper_idx = lower_idx ∧ ∀ x, xs !! lower_idx = Some x → 0 < cmp x) ∨
  ∃ x, xs !! lower_idx = Some x ∧ cmp x = 0 ∧ upper_idx = S lower_idx.
Proof using Hsorted.
  assert (∀ i x, xs !! i = Some x → (i < lower_idx)%nat → cmp x < 0) as Hbefore.
  { intros i x Hx Hi. apply Z.ltb_lt. by apply (count_while_before _ _ i x Hx Hi). }
  destruct (xs !! lower_idx) as [x|] eqn:Hx.
  - pose proof (count_while_at _ _ _ Hx) as Hc. apply Z.ltb_ge in Hc. pose proof (lookup_lt_Some _ _ _ Hx) as Hl.
    destruct (Z.eq_dec (cmp x) 0) as [E|E].
    + right. exists x. split_and!; [done..|]. apply count_while_unique; [lia|..].
      * intros i y Hy Hi. apply Z.leb_le. destruct (decide (i = lower_idx)) as [->|]; [|pose proof (Hbefore i y Hy); lia].
        assert (y = x) as -> by congruence. lia.
      * intros y Hy. apply Z.leb_gt. destruct (Z.le_gt_cases (cmp y) 0) as [Hle|]; [|done].
        pose proof (Hsorted lower_idx (S lower_idx) x y Hx Hy ltac:(lia) Hle). lia.
    + left. split; [|intros y [= <-]; lia]. apply count_while_unique; [lia|..].
      * intros i y Hy Hi. apply Z.leb_le. pose proof (Hbefore i y Hy). lia.
      * intros y Hy. assert (y = x) as -> by congruence. apply Z.leb_gt. lia.
  - left. split; [|done]. apply count_while_unique; [apply count_while_le|..].
    + intros i y Hy Hi. apply Z.leb_le. pose proof (Hbefore i y Hy). lia.
    + intros y Hy. congruence.
Qed.

End Bounds.

Section Data.
Context (new_char : Z → bytes) (new_char_len : ∀ n, 0 <= n → Zlen (new_char n) = n).
Context (src : BlockSource) (xs : list item) (rs : list nat).
Context (HB : block_ok src false xs rs).

Abbreviation off := (item_off false xs).
Abbreviation at_item := (at_item src false xs rs).
Abbreviation positioned := (positioned src false xs rs).
Abbreviation sane := (iter_sane src false).
Abbreviation dkey := (decoded_key src false).

Lemma data_decode i x : xs !! i = Some x →
  DecodeEntry (zdrop (off i) (enc_items false xs)) = Some (item_decoded xs i x).
Proof using HB. apply DecodeEntry_item, (bk_items _ _ _ _ HB). Qed.

(** ** The cache of previous entries *)

Definition cached_key (d : DataBlockIter) (e : CachedPrevEntry) : bytes :=
  match key_ptr e with
  | Some p => ztake (key_size e) p
  | None => ztake (key_size e) (zdrop (key_offset e) (prev_entries_keys_buff_ d))
  end.

(** The entry describes the [i]th item. *)
Definition describes (d : DataBlockIter) (e : CachedPrevEntry) (i : nat) : Prop :=
  ∃ x, xs !! i = Some x ∧ offset e = off i ∧ cached_key d e = dkey (it_key x) ∧
    cached_value e = (off (S i) - Zlen (it_val x), Zlen (it_val x)).

(** The cache holds consecutive items from the [a]th on. *)
Definition cache_from (d : DataBlockIter) (a : nat) : Prop :=
  (∀ j e, prev_entries_ d !! j = Some e → describes d e (a + j)) ∧
  Forall (λ e, key_ptr e = None → 0 <= key_offset e ∧ 0 <= key_size e ∧
                 key_offset e + key_size e <= Zlen (prev_entries_keys_buff_ d)) (prev_entries_ d).

Record cache_ok (d : DataBlockIter) : Prop := {
  ch_entries : ∃ a, cache_from d a;
  ch_idx : -1 <= prev_entries_idx_ d < Z.max 1 (Zlen (prev_entries_ d))
}.

Definition data_pos (d : DataBlockIter) (pos : option nat) : Prop := positioned (base d) pos ∧ cache_ok d.

Lemma set_base_cache d it : cache_ok d → cache_ok (set_base d it).
Proof using. by intros []. Qed.

(** Caching the item that has just been parsed. *)
Lemma cache_push d it i x a : at_item it i x → cache_from d a → i = (a + length (prev_entries_ d))%nat →
  let key := GetKey (raw_key_ it) in
  cache_from
    (if IsKeyPinned (raw_key_ it) then
       mkDataIter it (prev_entries_keys_buff_ d)
         (prev_entries_ d ++ [mkCached (current_ it) (Some key) 0 (Zlen key) (value_ it)])
         (prev_entries_idx_ d) (data_block_hash_index_ d)
     else
       mkDataIter it (prev_entries_keys_buff_ d ++ key)
         (prev_entries_ d ++ [mkCached (current_ it) None (Zlen (prev_entries_keys_buff_ d)) (Zlen key) (value_ it)])
         (prev_entries_idx_ d) (data_block_hash_index_ d)) a.
Proof using.
  intros Hat [Hc Hr] Hi. cbv zeta. set (key := GetKey (raw_key_ it)).
  assert (key = dkey (it_key x)) as Ekey by (apply Hat).
  pose proof (Zlen_nonneg key). pose proof (Zlen_nonneg (prev_entries_keys_buff_ d)).
  destruct (IsKeyPinned (raw_key_ it)).
  - split.
    + intros j e He. cbn [prev_entries_] in He. apply lookup_snoc in He as [[_ He]|[-> ->]]; [by apply Hc|].
      rewrite <- Hi. exists x. unfold cached_key. cbn. rewrite ztake_all by done.
      split_and!; [apply Hat..|done|apply Hat].
    + apply Forall_app. split; [done|]. by constructor; [|constructor].
  - split.
    + intros j e He. cbn [prev_entries_] in He. apply lookup_snoc in He as [[_ He]|[-> ->]].
      * destruct (Hc j e He) as (y & Hy & Ho & Hk & Hv). exists y. split_and!; [done..| |done].
        rewrite <- Hk. unfold cached_key. cbn [prev_entries_keys_buff_]. destruct (key_ptr e) eqn:Ep; [done|].
        destruct (proj1 (Forall_lookup _ _) Hr j e He Ep) as (? & ? & ?).
        rewrite zdrop_app_le, ztake_app_le by (rewrite ?Zlen_zdrop; lia). done.
      * rewrite <- Hi. exists x. unfold cached_key. cbn [key_ptr key_size key_offset prev_entries_keys_buff_].
        rewrite zdrop_app, ztake_all by done. split_and!; [apply Hat..|done|apply Hat].
    + cbn [prev_entries_]. apply Forall_app. split.
      * eapply Forall_impl; [exact Hr|]. intros e He Ep. specialize (He Ep). cbn. rewrite Zlen_app. lia.
      * constructor; [|constructor]. intros _. cbn. rewrite Zlen_app. lia.
Qed.

Lemma DataPrev_loop_spec j a : (j < length xs)%nat → ∀ fuel d i, before src false xs rs (base d) i → (i <= j)%nat →
  (j - i < fuel)%nat → cache_from d a → i = (a + length (prev_entries_ d))%nat →
  ∃ d' x, DataPrev_loop new_char fuel d (off (S j)) = Some d' ∧ at_item (base d') j x ∧ cache_from d' a.
Proof using new_char_len HB.
  intros Hj. induction fuel as [|fuel IH]; intros d i Hb Hij Hf Hc Hi; [lia|]. cbn [DataPrev_loop].
  destruct (lookup_lt_is_Some_2 xs i) as [x Hx]; [lia|].
  destruct (parse_item new_char new_char_len src false xs rs HB DecodeEntry data_decode _ i x Hb Hx)
    as (it & -> & Hat & _). cbn [negb].
  pose proof (at_before _ _ _ _ HB _ _ _ Hat) as Hb'. rewrite (bf_next _ _ _ _ _ _ Hb').
  pose proof (cache_push (set_base d it) it i x a Hat Hc Hi) as Hpush. cbv zeta in Hpush.
  set (d1 := if IsKeyPinned (raw_key_ it) then _ else _) in *.
  assert (base d1 = it ∧ length (prev_entries_ d1) = S (length (prev_entries_ d))) as [Eb El].
  { unfold d1. destruct (IsKeyPinned _); cbn [base prev_entries_ set_base]; rewrite length_app; cbn; split; lia || done. }
  pose proof (bk_items _ _ _ _ HB) as Hok.
  destruct (Z.ltb_spec (off (S i)) (off (S j))) as [Hlt|Hge].
  - apply (item_off_lt_iff false xs Hok) in Hlt; [|lia..]. apply (IH d1 (S i)); [by rewrite Eb|lia|lia|done|lia].
  - assert (¬ (S i < S j)%nat) by (intros H; apply (item_off_lt_iff false xs Hok) in H; lia).
    assert (i = j) as -> by lia. exists d1, x. by rewrite Eb.
Qed.

(** ** Moving backwards *)

Lemma DataPrev_scan_spec d i x : at_item (base d) i x →
  ∃ d', DataPrev_scan new_char d = Some d' ∧ data_pos d' (pred_pos i).
Proof using new_char_len HB.
  intros Hat. pose proof (ai_sane _ _ _ _ _ _ _ Hat) as Hs. pose proof (ai_item _ _ _ _ _ _ _ Hat) as Hx.
  pose proof (lookup_lt_Some _ _ _ Hx) as Hlt. pose proof (ai_index _ _ _ _ _ _ _ Hat) as Hidx.
  unfold DataPrev_scan. rewrite (ai_current _ _ _ _ _ _ _ Hat).
  assert (Z.to_nat (restart_index_ (base d)) < length rs)%nat as Hr
    by (unfold in_restarts in Hidx; rewrite Zlen_length in Hidx; lia).
  pose proof (restart_before_spec src false xs rs HB (base d) i _ (is_source _ _ _ Hs) Hlt Hr) as Hrb.
  set (d0 := mkDataIter (base d) [] [] (-1) (data_block_hash_index_ d)).
  assert (∀ it a, cache_from (set_base d0 it) a) as Hempty.
  { intros it a. split; [intros j e He; cbn in He; by rewrite lookup_nil in He|by constructor]. }
  destruct (restart_before _ (base d) (off i)) as [j|].
  - destruct Hrb as (k & m & -> & Hk & Hm). destruct i as [|i']; [lia|].
    pose proof (seek_restart src false xs rs HB (base d) k m Hs Hk) as Hb.
    set (it1 := SeekToRestartPoint (base d) (Z.of_nat k)) in *.
    destruct (DataPrev_loop_spec i' m ltac:(lia) (scan_fuel (base d)) (set_base d0 it1) m) as (d' & y & -> & Hat' & Hc');
      [done|lia| |apply Hempty|cbn; lia|].
    { pose proof (fuel_enough _ _ _ _ HB (base d) (length xs) Hs (le_n _)). lia. }
    eexists. split; [reflexivity|]. split; [by exists y|]. split; [by exists m|]. cbn.
    pose proof (Zlen_nonneg (prev_entries_ d')). lia.
  - subst i. eexists. split; [reflexivity|]. cbn [pred_pos]. split.
    + by apply (past_the_end _ _ _ _ HB).
    + split; [exists 0%nat; by apply Hempty|]. cbn. lia.
Qed.

Lemma DataPrevImpl_spec d i x : at_item (base d) i x → cache_ok d →
  ∃ d', DataPrevImpl new_char d = Some d' ∧ data_pos d' (pred_pos i).
Proof using new_char_len HB.
  intros Hat [[a [Hc Hr]] Hidx]. unfold DataPrevImpl. set (it := set_idx (base d) _).
  assert (at_item it i x) as Hat1 by (by apply set_idx_at).
  assert (∃ d', DataPrev_scan new_char (set_base d it) = Some d' ∧ data_pos d' (pred_pos i)) as Hscan
    by (by eapply DataPrev_scan_spec).
  set (idx := prev_entries_idx_ d) in *. destruct (Z.ltb_spec 0 idx) as [Hpos|]; [|done].
  destruct (prev_entries_ d !! Z.to_nat idx) as [e|] eqn:He; [|done].
  destruct (Z.eqb_spec (offset e) (current_ it)) as [Eo|]; [|done].
  destruct (Hc _ _ He) as (y & Hy & Ho & _). rewrite Ho, (ai_current _ _ _ _ _ _ _ Hat1) in Eo.
  apply (item_off_inj false xs (bk_items _ _ _ _ HB)) in Eo;
    [|apply lookup_lt_Some in Hy; lia|pose proof (lookup_lt_Some _ _ _ (ai_item _ _ _ _ _ _ _ Hat1)); lia].
  destruct (lookup_lt_is_Some_2 (prev_entries_ d) (Z.to_nat (idx - 1))) as [p Hp];
    [apply lookup_lt_Some in He; lia|]. rewrite Hp.
  destruct (Hc _ _ Hp) as (z & Hz & Hoz & Hkz & Hvz). replace (a + Z.to_nat (idx - 1))%nat with (i - 1)%nat in * by lia.
  destruct i as [|i']; [lia|]. cbn [pred_pos]. replace (S i' - 1)%nat with i' in * by lia.
  destruct (ai_sane _ _ _ _ _ _ _ Hat1) as [Es [[Hko Hkb] Hku] Hbuf Hst Hcur].
  unfold cached_key in Hkz. set (kc := match key_ptr p with Some p' => _ | None => _ end).
  assert (fst kc = dkey (it_key z)) as Ekc by (unfold kc; by destruct (key_ptr p)).
  destruct kc as [key cached]. cbn [fst] in Ekc.
  destruct (SetKeyImpl_spec new_char new_char_len (raw_key_ it) key cached Hkb) as (Eg & Hg & _).
  eexists. split; [reflexivity|]. split; [|split; [exists a; by split|]].
  - assert (key_ok false (SetKeyImpl new_char (raw_key_ it) key cached)) as Hk by (split; [done|by destruct cached]).
    exists z. cbn [base]. constructor; [constructor; try done|done..| |done|apply Hat1].
    + cbn. rewrite Hoz. apply item_off_nonneg.
    + split; [done|]. cbn [raw_key_ set_raw_key set_value]. unfold SetKey. by rewrite <- Ekc.
  - cbn [prev_entries_idx_ prev_entries_]. apply lookup_lt_Some in He. rewrite Zlen_length. lia.
Qed.

(** ** Searching *)

Context (target : bytes).
Abbreviation cmp := (cmp src false target).
Context (Hsorted : ∀ i j x y, xs !! i = Some x → xs !! j = Some y → (i < j)%nat → cmp y <= 0 → cmp x < 0).

Abbreviation lower := (lower_idx src false xs target).
Abbreviation upper := (upper_idx src false xs target).

Lemma DataSeekImpl_spec d : sane (base d) → cache_ok d →
  ∃ d', DataSeekImpl new_char d target = Some d' ∧ data_pos d' (pos_of xs lower).
Proof using new_char_len HB Hsorted.
  intros Hs Hc. unfold DataSeekImpl.
  destruct (SeekImpl_spec new_char new_char_len src false xs rs HB DecodeEntry data_decode target Hsorted (base d) Hs)
    as (it' & k & -> & Hk & Hp). apply seek_index_lower in Hk as ->.
  eexists. split; [reflexivity|]. split; [done|by apply set_base_cache].
Qed.

Lemma DataSeekForPrev_down d : data_pos d (pos_of xs lower) → (lower < length xs)%nat →
  ∀ fuel, (2 <= fuel)%nat →
  ∃ d', DataSeekForPrev_loop new_char fuel d target = Some d' ∧ data_pos d' (pred_pos upper).
Proof using new_char_len HB Hsorted.
  unfold pos_of. intros [Hp Hc] Hl [|[|fuel]] Hf; [lia..|]. rewrite decide_True in Hp by done.
  destruct Hp as [x Hat]. pose proof (ai_item _ _ _ _ _ _ _ Hat) as Hx. cbn [DataSeekForPrev_loop].
  rewrite (at_valid _ _ _ _ HB _ _ _ Hat). cbn [andb].
  rewrite (CompareCurrentKey_key src false _ (it_key x)) by (apply Hat). fold (cmp x).
  destruct (upper_cases src false xs target Hsorted) as [[Eu Hgt]|(y & Hy & E0 & Eu)].
  - specialize (Hgt x Hx). destruct (Z.ltb_spec 0 (cmp x)); [|lia].
    destruct (DataPrevImpl_spec d _ x Hat Hc) as (d' & -> & Hp' & Hc'). cbn [mbind option_bind].
    rewrite Eu. exists d'. split; [|done]. destruct lower as [|i] eqn:El; cbn [pred_pos] in Hp'.
    + destruct Hp' as [_ ->]. done.
    + destruct Hp' as [z Hat']. rewrite (at_valid _ _ _ _ HB _ _ _ Hat'). cbn [andb].
      rewrite (CompareCurrentKey_key src false _ (it_key z)) by (apply Hat'). fold (cmp z).
      destruct (Z.ltb_spec 0 (cmp z)) as [Hlt|]; [|done].
      assert ((cmp z <? 0) = true) as Hz.
      { apply (count_while_before (λ x, cmp x <? 0) xs i z); [apply Hat'|]. unfold lower_idx in El. lia. }
      apply Z.ltb_lt in Hz. lia.
  - assert (y = x) as -> by congruence. rewrite E0. exists d. split; [done|]. rewrite Eu. by split; [exists x|].
Qed.

Lemma DataSeekForPrevImpl_spec d : sane (base d) → cache_ok d →
  ∃ d', DataSeekForPrevImpl new_char d target = Some d' ∧ data_pos d' (pred_pos upper).
Proof using new_char_len HB Hsorted.
  intros Hs Hc. destruct (data_some src false xs rs HB (base d) Hs) as [dat Hd].
  unfold DataSeekForPrevImpl. rewrite Hd.
  destruct (decide (xs = [])) as [E|E].
  - unfold BinarySeek. rewrite (is_source _ _ _ Hs), (bk_restarts _ _ _ _ HB), E. cbn. eexists. split; [done|].
    split; [|by apply set_base_cache].
    split; [done|]. unfold Valid. cbn [base set_base]. rewrite (is_source _ _ _ Hs), (bk_restarts _ _ _ _ HB), E.
    apply Z.ltb_ge. apply (is_current _ _ _ Hs).
  - destruct (BinarySeek_spec new_char new_char_len src false xs rs HB target Hsorted (base d) E Hs)
      as (l & skip & it1 & i & x & -> & Hs1 & Hl & Hx & Hcx).
    destruct (FindKey_spec new_char new_char_len src false xs rs HB DecodeEntry data_decode target Hsorted it1 l skip i x)
      as (it2 & k & -> & Hk & Hp); [done..|]. apply seek_index_lower in Hk as ->. cbn [mbind option_bind].
    rewrite (positioned_valid _ _ _ _ HB _ _ Hp). pose proof (positioned_sane _ _ _ _ _ _ Hp) as Hs2.
    assert (data_pos (set_base d it2) (pos_of xs lower)) as Hdp by (split; [done|by apply set_base_cache]).
    unfold pos_of in Hp |- *. destruct (decide (lower < length xs)%nat) as [Hlt|Hge].
    + rewrite bool_decide_eq_true_2 by done. cbn [negb]. apply DataSeekForPrev_down; [done|done|].
      pose proof (fuel_enough _ _ _ _ HB it2 (length xs) Hs2 (le_n _)). lia.
    + rewrite bool_decide_eq_false_2 by (by intros []). cbn [negb]. rewrite (is_status _ _ _ Hs2).
      unfold DataSeekToLastImpl. cbn [base set_base].
      destruct (SeekToLastImpl_pos new_char new_char_len src false xs rs HB DecodeEntry data_decode it2 Hs2)
        as (it3 & -> & Hp3). rewrite decide_False in Hp3 by done.
      eexists. split; [reflexivity|]. split; [|by apply set_base_cache, set_base_cache]. cbn [base set_base].
      pose proof (count_while_le (λ x, cmp x <? 0) xs) as Hle. change (count_while _ xs) with lower in Hle.
      destruct (upper_cases src false xs target Hsorted) as [[-> _]|(y & Hy & _)]; [|apply lookup_lt_Some in Hy; lia].
      replace lower with (S (length xs - 1)); [done|]. assert (length xs ≠ 0%nat) by (by rewrite length_zero_iff_nil). lia.
Qed.
End Data.

(** ** What the iterator shows *)

Section Shown.
Context (new_char : Z → bytes) (new_char_len : ∀ n, 0 <= n → Zlen (new_char n) = n).
Context (src : BlockSource) (user : bool) (xs : list item) (rs : list nat).
Context (HB : block_ok src user xs rs).

(** The key that is shown for a stored key: with its minimal timestamp and the
    global sequence number. *)
Definition shown_key (stored : bytes) : bytes :=
  let k := decoded_key src user stored in
  if user then k else InternalKeyOrder.override k (global_seqno_ src).
Definition shown (x : item) : bytes * bytes := (shown_key (it_key x), it_val x).

Definition value_of (it : BlockIter) : bytes :=
  let '(off, n) := value_ it in ztake n (zdrop off (the_data it)).

Lemma value_shown it i x : at_item src user xs rs it i x → value_of it = it_val x.
Proof using HB.
  intros [Hs Hx _ _ Hv _]. unfold value_of, the_data. rewrite Hv, (is_source _ _ _ Hs).
  destruct (bk_data _ _ _ _ HB) as [rest ->]. cbn [from_option id].
  rewrite (item_off_S _ _ _ _ Hx). unfold item_off. rewrite (enc_items_split false xs i x Hx).
  set (pre := enc_items false (take i xs)). unfold enc_item. set (v := it_val x).
  set (h := EncodeVarint32 (it_shared x)). set (h1 := EncodeVarint32 (Zlen (it_key x) - it_shared x)).
  set (h2 := EncodeVarint32 (Zlen v)). set (k := zdrop (it_shared x) (it_key x)).
  rewrite !Zlen_app. rewrite <- !app_assoc.
  set (tl := enc_items false (drop (S i) xs) ++ _).
  transitivity (ztake (Zlen v) (zdrop (Zlen (pre ++ h ++ h1 ++ h2 ++ k)) ((pre ++ h ++ h1 ++ h2 ++ k) ++ v ++ tl))).
  - rewrite !Zlen_app, <- !app_assoc. do 2 f_equal. lia.
  - rewrite zdrop_app by done. by apply ztake_app.
Qed.

Lemma UpdateKey_pos it pos : positioned src user xs rs it pos →
  positioned src user xs rs (UpdateKey new_char it) pos ∧
  ∀ i x, pos = Some i → xs !! i = Some x → iter_key_ (UpdateKey new_char it) = shown_key (it_key x).
Proof using new_char_len HB.
  intros Hp. pose proof (positioned_valid _ _ _ _ HB _ _ Hp) as Hv.
  pose proof (positioned_sane _ _ _ _ _ _ Hp) as [Es Hraw Hbuf Hst Hcur].
  assert (iter_ok (Clear (key_buf_ it))) as Hclear.
  { destruct Hbuf as [? ?]. split; [|done]. unfold Clear, key_data in *. cbn [key_size_ key_ buf_].
    pose proof (Zlen_nonneg (default (buf_ (key_buf_ it)) (key_ (key_buf_ it)))). lia. }
  destruct (SetInternalKeyParts_spec new_char new_char_len (Clear (key_buf_ it)) [] (GetUserKey (raw_key_ it))
    (global_seqno_ src) (ExtractValueType (GetInternalKey (raw_key_ it))) None Hclear) as [Eparts Hparts].
  unfold UpdateKey. rewrite Hv, Es. set (kb := SetInternalKeyParts _ _ _ _ _ _ _) in *.
  assert (∀ kb key p, iter_ok kb → positioned src user xs rs
    (mkIter src (restart_index_ it) (current_ it) (raw_key_ it) kb (value_ it) (status_ it) key (cur_entry_idx_ it) p) pos)
    as Hgen.
  { intros kb' key p Hkb. destruct pos as [i|].
    - destruct Hp as (x & [[? ? ? ? ?] ? ? ? ? ?]). exists x. by constructor.
    - destruct Hp as [[? ? ? ? ?] Hval]. split; [by constructor|]. unfold Valid in *. cbn [current_ source_]. by rewrite Es in Hval. }
  destruct pos as [i|]; [rewrite bool_decide_eq_true_2 by done; cbn [negb]|
    rewrite bool_decide_eq_false_2 by (by intros []); cbn [negb]; split; [by apply Hgen|done]].
  destruct Hp as (x & Hat). pose proof (ai_key _ _ _ _ _ _ _ Hat) as [[Hko Hku] Hkey].
  assert (∀ j y, Some i = Some j → xs !! j = Some y → y = x) as Hyx.
  { intros j y [= <-] Hy. pose proof (ai_item _ _ _ _ _ _ _ Hat). congruence. }
  unfold IsUserKey, shown_key. rewrite Hku. destruct user.
  - split; [by apply Hgen|]. intros j y Ej Hy. rewrite (Hyx j y Ej Hy), <- Hkey. cbn.
    unfold GetUserKey. by rewrite Hku.
  - destruct (Z.eqb_spec (global_seqno_ src) kDisableGlobalSequenceNumber) as [Eg|Eg].
    + split; [by apply Hgen|]. intros j y Ej Hy. rewrite (Hyx j y Ej Hy), <- Hkey, Eg. done.
    + split; [by apply Hgen|]. intros j y Ej Hy. rewrite (Hyx j y Ej Hy), <- Hkey. cbn [iter_key_].
      change (GetInternalKey kb) with (GetKey kb). rewrite Eparts. unfold InternalKeyOrder.override.
      destruct (Z.eqb_spec (global_seqno_ src) kDisableGlobalSequenceNumber); [done|].
      rewrite AppendInternalKey_eq. cbn [user_key sequence type default]. rewrite app_nil_r.
      unfold DbFormat.UpdateInternalKey. change (GetInternalKey (raw_key_ it)) with (GetKey (raw_key_ it)).
      unfold PackSequenceAndType. f_equal. unfold GetUserKey. rewrite Hku, GetKey_len by done.
      unfold GetKey, kNumInternalBytes. symmetry. apply ztake_ztake. lia.
Qed.

(** Comparing with a target: the shown key is what is compared. *)
Lemma key_compare_shown x target : user = false → global_seqno_ src = kDisableGlobalSequenceNumber ∨
    is_u 56 (global_seqno_ src) →
  kNumInternalBytes <= Zlen (decoded_key src user (it_key x)) → bytes_ok (decoded_key src user (it_key x)) →
  cmp src user target x = InternalKeyComparator.Compare (icmp_ src) (shown_key (it_key x)) target.
Proof using.
  intros Eu Hg Hl Hk. unfold cmp, key_compare, shown_key. rewrite Eu in Hl, Hk |- *.
  destruct (InternalKeyOrder.override_spec _ _ Hl Hk Hg) as [E1 E2].
  destruct (Z.eqb_spec (global_seqno_ src) kDisableGlobalSequenceNumber) as [E|E].
  - rewrite E. done.
  - unfold InternalKeyComparator.CompareGlobalSeqno, InternalKeyComparator.Compare. rewrite E1.
    destruct (_ =? 0); [|done]. fold (ExtractInternalKeyFooter target).
    destruct (Z.eqb_spec (global_seqno_ src) kDisableGlobalSequenceNumber); [done|]. rewrite Z.eqb_refl, <- E2. done.
Qed.
End Shown.

(** ** Meta blocks *)

Section Meta.
Context (new_char : Z → bytes) (new_char_len : ∀ n, 0 <= n → Zlen (new_char n) = n).
Context (src : BlockSource) (xs : list item) (rs : list nat).
Context (HB : block_ok src true xs rs).

Lemma meta_decode i x : xs !! i = Some x →
  CheckAndDecodeEntry (zdrop (item_off false xs i) (enc_items false xs)) = Some (item_decoded xs i x).
Proof using HB. apply CheckAndDecodeEntry_item; [apply (bk_items _ _ _ _ HB)|apply (bk_size _ _ _ _ HB)]. Qed.

Lemma MetaPrevImpl_spec it i x : at_item src true xs rs it i x →
  ∃ it', MetaPrevImpl new_char it = Some it' ∧ positioned src true xs rs it' (pred_pos i).
Proof using new_char_len HB.
  intros Hat. pose proof (ai_sane _ _ _ _ _ _ _ Hat) as Hs. pose proof (ai_item _ _ _ _ _ _ _ Hat) as Hx.
  pose proof (lookup_lt_Some _ _ _ Hx) as Hlt. pose proof (ai_index _ _ _ _ _ _ _ Hat) as Hidx.
  unfold MetaPrevImpl. rewrite (ai_current _ _ _ _ _ _ _ Hat).
  assert (Z.to_nat (restart_index_ it) < length rs)%nat as Hr
    by (unfold in_restarts in Hidx; rewrite Zlen_length in Hidx; lia).
  pose proof (restart_before_spec src true xs rs HB it i _ (is_source _ _ _ Hs) Hlt Hr) as Hrb.
  destruct (restart_before _ it (item_off false xs i)) as [j|].
  - destruct Hrb as (k & m & -> & Hk & Hm). destruct i as [|i']; [lia|].
    pose proof (seek_restart src true xs rs HB it k m Hs Hk) as Hb.
    destruct (skip_to_item new_char new_char_len src true xs rs HB CheckAndDecodeEntry meta_decode false i' ltac:(lia)
      (scan_fuel it) _ m Hb) as (it' & y & -> & Hat'); [lia| |].
    { pose proof (fuel_enough _ _ _ _ HB it (length xs) Hs (le_n _)). lia. }
    eexists. split; [reflexivity|]. exists y. by apply set_idx_at.
  - subst i. eexists. split; [reflexivity|]. by apply (past_the_end _ _ _ _ HB).
Qed.

Context (target : bytes).
Abbreviation cmp := (cmp src true target).
Context (Hsorted : ∀ i j x y, xs !! i = Some x → xs !! j = Some y → (i < j)%nat → cmp y <= 0 → cmp x < 0).

Abbreviation lower := (lower_idx src true xs target).
Abbreviation upper := (upper_idx src true xs target).

Lemma MetaSeekForPrev_down it : positioned src true xs rs it (pos_of xs lower) → (lower < length xs)%nat →
  ∀ fuel, (2 <= fuel)%nat →
  ∃ it', MetaSeekForPrev_loop new_char fuel it target = Some it' ∧ positioned src true xs rs it' (pred_pos upper).
Proof using new_char_len HB Hsorted.
  unfold pos_of. intros Hp Hl [|[|fuel]] Hf; [lia..|]. rewrite decide_True in Hp by done.
  destruct Hp as [x Hat]. pose proof (ai_item _ _ _ _ _ _ _ Hat) as Hx. cbn [MetaSeekForPrev_loop].
  rewrite (at_valid _ _ _ _ HB _ _ _ Hat). cbn [andb].
  rewrite (CompareCurrentKey_key src true _ (it_key x)) by (apply Hat). fold (cmp x).
  destruct (upper_cases src true xs target Hsorted) as [[Eu Hgt]|(y & Hy & E0 & Eu)].
  - specialize (Hgt x Hx). destruct (Z.ltb_spec 0 (cmp x)); [|lia].
    destruct (MetaPrevImpl_spec it _ x Hat) as (it' & -> & Hp'). cbn [mbind option_bind].
    rewrite Eu. exists it'. split; [|done]. destruct lower as [|i] eqn:El; cbn [pred_pos] in Hp'.
    + destruct Hp' as [_ ->]. done.
    + destruct Hp' as [z Hat']. rewrite (at_valid _ _ _ _ HB _ _ _ Hat'). cbn [andb].
      rewrite (CompareCurrentKey_key src true _ (it_key z)) by (apply Hat'). fold (cmp z).
      destruct (Z.ltb_spec 0 (cmp z)) as [Hlt|]; [|done].
      assert ((cmp z <? 0) = true) as Hz.
      { apply (count_while_before (λ x, cmp x <? 0) xs i z); [apply Hat'|]. unfold lower_idx in El. lia. }
      apply Z.ltb_lt in Hz. lia.
  - assert (y = x) as -> by congruence. rewrite E0. exists it. split; [done|]. rewrite Eu. by exists x.
Qed.

Lemma MetaSeekForPrevImpl_spec it : iter_sane src true it →
  ∃ it', MetaSeekForPrevImpl new_char it target = Some it' ∧ positioned src true xs rs it' (pred_pos upper).
Proof using new_char_len HB Hsorted.
  intros Hs. destruct (data_some src true xs rs HB it Hs) as [dat Hd]. unfold MetaSeekForPrevImpl. rewrite Hd.
  destruct (decide (xs = [])) as [E|E].
  - unfold BinarySeek. rewrite (is_source _ _ _ Hs), (bk_restarts _ _ _ _ HB), E. cbn. eexists. split; [done|].
    split; [done|]. unfold Valid. rewrite (is_source _ _ _ Hs), (bk_restarts _ _ _ _ HB), E.
    apply Z.ltb_ge. apply (is_current _ _ _ Hs).
  - destruct (BinarySeek_spec new_char new_char_len src true xs rs HB target Hsorted it E Hs)
      as (l & skip & it1 & i & x & -> & Hs1 & Hl & Hx & Hcx).
    destruct (FindKey_spec new_char new_char_len src true xs rs HB CheckAndDecodeEntry meta_decode target Hsorted
      it1 l skip i x) as (it2 & k & -> & Hk & Hp); [done..|]. apply seek_index_lower in Hk as ->. cbn [mbind option_bind].
    rewrite (positioned_valid _ _ _ _ HB _ _ Hp). pose proof (positioned_sane _ _ _ _ _ _ Hp) as Hs2.
    pose proof Hp as Hp0. unfold pos_of in Hp |- *. destruct (decide (lower < length xs)%nat) as [Hlt|Hge].
    + rewrite bool_decide_eq_true_2 by done. cbn [negb]. apply MetaSeekForPrev_down; [done|done|].
      pose proof (fuel_enough _ _ _ _ HB it2 (length xs) Hs2 (le_n _)). lia.
    + rewrite bool_decide_eq_false_2 by (by intros []). cbn [negb]. rewrite (is_status _ _ _ Hs2).
      destruct (SeekToLastImpl_pos new_char new_char_len src true xs rs HB CheckAndDecodeEntry meta_decode it2 Hs2)
        as (it3 & -> & Hp3). rewrite decide_False in Hp3 by done.
      eexists. split; [reflexivity|]. pose proof (count_while_le (λ x, cmp x <? 0) xs) as Hle.
      change (count_while _ xs) with lower in Hle.
      destruct (upper_cases src true xs target Hsorted) as [[-> _]|(y & Hy & _)]; [|apply lookup_lt_Some in Hy; lia].
      replace lower with (S (length xs - 1)); [done|]. assert (length xs ≠ 0%nat) by (by rewrite length_zero_iff_nil). lia.
Qed.
End Meta.
