(* ===== verification/BlockCorrect.v ===== *)
(** * Blocks are read as they were built

    The specification of a block iterator, a cursor over the list of entries, and
    the theorems that the iterators over the blocks that [BlockBuilder] builds
    implement it; the lookup through the hash index; and where the code departs
    from its documentation. *)

From Stdlib Require Import Sorting.Sorted.
From S2P Require Import Prelude SortedLists Status Coding Slice Comparator DbFormat IterKey.
From S2P Require Import BlockHashIndex BlockBuilder Block BlockLayout BlockScan BlockCursor.
#[local] Open Scope Z_scope.
#[local] Opaque ztake zdrop Zlen.

(** ** The specification *)

Inductive cursor_op :=
  | OpSeekToFirst | OpSeekToLast | OpSeek (target : bytes) | OpSeekForPrev (target : bytes) | OpNext | OpPrev.

(** A cursor is at an entry or at none. [Next] and [Prev] may only be called at
    an entry. *)
Section Cursor.
Context (compare : bytes → bytes → Z) (entries : list (bytes * bytes)).

Definition at_index (i : nat) : option nat := if decide (i < length entries)%nat then Some i else None.

Definition cursor_move (op : cursor_op) (pos : option nat) : option (option nat) :=
  match op, pos with
  | OpSeekToFirst, _ => Some (at_index 0)
  | OpSeekToLast, _ => Some (pred_pos (length entries))
  | OpSeek target, _ => Some (at_index (count_while (λ e, compare (fst e) target <? 0) entries))
  | OpSeekForPrev target, _ => Some (pred_pos (count_while (λ e, compare (fst e) target <=? 0) entries))
  | OpNext, Some i => Some (at_index (S i))
  | OpPrev, Some i => Some (pred_pos i)
  | _, None => None
  end.

Fixpoint cursor_run (ops : list cursor_op) (pos : option nat) : option (option nat) :=
  match ops with
  | [] => Some pos
  | op :: ops => pos ← cursor_move op pos; cursor_run ops pos
  end.

Definition cursor_shows (pos : option nat) : option (bytes * bytes) := i ← pos; entries !! i.
End Cursor.

(** Positions and searches are the same over the items of a block and over the
    list of what they show. *)
Section Entries.
Context (src : BlockSource) (user : bool) (xs : list item).
Context (compare : bytes → bytes → Z) (good : bytes → Prop).
Context (Hcmp : ∀ x target, x ∈ xs → good target → cmp src user target x = compare (shown_key src user (it_key x)) target).

Abbreviation entries := (map (shown src user) xs).

Lemma pos_of_entries i : pos_of xs i = at_index entries i.
Proof using. unfold pos_of, at_index. by rewrite length_map. Qed.
Lemma count_entries (p : Z → bool) target : good target →
  count_while (λ e, p (compare (fst e) target)) entries = count_while (λ x, p (cmp src user target x)) xs.
Proof using Hcmp.
  intros Ht. rewrite count_while_map.
  assert (∀ l, (∀ x, x ∈ l → x ∈ xs) → count_while (λ x, p (compare (shown src user x).1 target)) l =
    count_while (λ x, p (cmp src user target x)) l) as H; [|by apply H].
  induction l as [|x l IH]; intros Hl; [done|]. cbn [count_while]. rewrite IH by (intros y Hy; apply Hl; by right).
  rewrite Hcmp; [done|apply Hl; by left|done].
Qed.
End Entries.

(** ** Data blocks *)

Section DataBlocks.
Context (new_char : Z → bytes) (new_char_len : ∀ n, 0 <= n → Zlen (new_char n) = n).

Definition data_op (op : cursor_op) (d : DataBlockIter) : option DataBlockIter :=
  match op with
  | OpSeekToFirst => Some (SeekToFirst new_char d)
  | OpSeekToLast => SeekToLast new_char d
  | OpSeek target => Seek new_char d target
  | OpSeekForPrev target => SeekForPrev new_char d target
  | OpNext => Some (Next new_char d)
  | OpPrev => Prev new_char d
  end.
Fixpoint data_run (ops : list cursor_op) (d : DataBlockIter) : option DataBlockIter :=
  match ops with
  | [] => Some d
  | op :: ops => d ← data_op op d; data_run ops d
  end.
Definition data_shows (d : DataBlockIter) : option (bytes * bytes) :=
  if Valid (base d) then Some (iter_key d, iter_value d) else None.

Section Simulation.
Context (src : BlockSource) (xs : list item) (rs : list nat) (HB : block_ok src false xs rs).
Context (compare : bytes → bytes → Z) (good : bytes → Prop).
Context (Hcmp : ∀ x target, x ∈ xs → good target → cmp src false target x = compare (shown_key src false (it_key x)) target).
Context (Hsorted : ∀ target, good target → ∀ i j x y, xs !! i = Some x → xs !! j = Some y → (i < j)%nat →
           cmp src false target y <= 0 → cmp src false target x < 0).

Abbreviation entries := (map (shown src false) xs).

Definition sim (d : DataBlockIter) (pos : option nat) : Prop :=
  data_pos src xs rs d pos ∧
  ∀ i x, pos = Some i → xs !! i = Some x → iter_key d = shown_key src false (it_key x).

Lemma sim_update d pos : data_pos src xs rs d pos → sim (update_key new_char d) pos.
Proof using new_char_len HB.
  intros [Hp Hc]. destruct (UpdateKey_pos new_char new_char_len src false xs rs HB (base d) pos Hp) as [Hp' Hk].
  split; [split; [done|by apply set_base_cache]|]. intros i x Hi Hx. by apply (Hk i x).
Qed.
Lemma sim_shows d pos : sim d pos → data_shows d = cursor_shows entries pos ∧ ok (status_ (base d)) = true.
Proof using HB.
  intros [[Hp _] Hk]. split; [|by apply (is_status _ _ _ (positioned_sane _ _ _ _ _ _ Hp))].
  unfold data_shows. rewrite (positioned_valid _ _ _ _ HB _ _ Hp). destruct pos as [i|].
  - destruct Hp as [x Hat]. pose proof (ai_item _ _ _ _ _ _ _ Hat) as Hx. rewrite bool_decide_eq_true_2 by done.
    cbn [cursor_shows mbind option_bind]. change (map (shown src false) xs) with (shown src false <$> xs).
    rewrite list_lookup_fmap, Hx. cbn [fmap option_fmap option_map]. unfold shown.
    rewrite (Hk i x eq_refl Hx). pose proof (value_shown _ _ _ _ HB _ _ _ Hat) as Hv.
    unfold value_of in Hv. unfold iter_value. by rewrite Hv.
  - by rewrite bool_decide_eq_false_2 by (by intros []).
Qed.

Definition op_good (op : cursor_op) : Prop :=
  match op with OpSeek target | OpSeekForPrev target => good target | _ => True end.

Lemma sim_step op d pos pos' : op_good op → sim d pos → cursor_move compare entries op pos = Some pos' →
  ∃ d', data_op op d = Some d' ∧ sim d' pos'.
Proof using new_char_len HB Hcmp Hsorted.
  intros Hop [[Hp Hc] _] Hm. pose proof (positioned_sane _ _ _ _ _ _ Hp) as Hs.
  pose proof (data_decode src xs rs HB) as Hdec.
  destruct op as [| |target|target| |]; cbn [cursor_move data_op op_good] in *.
  - injection Hm as <-. eexists. split; [reflexivity|]. apply sim_update. rewrite <- pos_of_entries.
    split; [by apply (SeekToFirstImpl_pos new_char new_char_len src false xs rs HB)|by apply set_base_cache].
  - injection Hm as <-. unfold SeekToLast, DataSeekToLastImpl.
    destruct (SeekToLastImpl_pos new_char new_char_len src false xs rs HB DecodeEntry Hdec _ Hs) as (it & -> & Hp').
    eexists. split; [reflexivity|]. apply sim_update. split; [|by apply set_base_cache]. rewrite length_map.
    cbn [base set_base]. destruct (decide (xs = [])) as [->|]; [done|].
    destruct (length xs) as [|m] eqn:El; [by apply length_zero_iff_nil in El|]. cbn [pred_pos].
    by replace (S m - 1)%nat with m in Hp' by lia.
  - injection Hm as <-. rewrite (count_entries src false xs compare good Hcmp (λ c, c <? 0)), <- pos_of_entries by done.
    destruct (DataSeekImpl_spec new_char new_char_len src xs rs HB target (Hsorted target Hop) d Hs Hc) as (d' & E & Hd).
    unfold Seek. rewrite E. eexists. split; [reflexivity|]. by apply sim_update.
  - injection Hm as <-. rewrite (count_entries src false xs compare good Hcmp (λ c, c <=? 0)) by done.
    destruct (DataSeekForPrevImpl_spec new_char new_char_len src xs rs HB target (Hsorted target Hop) d Hs Hc)
      as (d' & E & Hd).
    unfold SeekForPrev. rewrite E. eexists. split; [reflexivity|]. by apply sim_update.
  - destruct pos as [i|]; [|done]. injection Hm as <-. destruct Hp as [x Hat]. eexists. split; [reflexivity|].
    apply sim_update. rewrite <- pos_of_entries.
    split; [by eapply (NextImpl_pos new_char new_char_len src false xs rs HB)|by apply set_base_cache].
  - destruct pos as [i|]; [|done]. injection Hm as <-. destruct Hp as [x Hat].
    destruct (DataPrevImpl_spec new_char new_char_len src xs rs HB d i x Hat Hc) as (d' & E & Hd).
    unfold Prev. rewrite E. eexists. split; [reflexivity|]. by apply sim_update.
Qed.

Lemma sim_run ops : Forall op_good ops → ∀ d pos pos', sim d pos → cursor_run compare entries ops pos = Some pos' →
  ∃ d', data_run ops d = Some d' ∧ sim d' pos'.
Proof using new_char_len HB Hcmp Hsorted.
  induction 1 as [|op ops Hop Hops IH]; intros d pos pos' Hs Hr; cbn [cursor_run data_run] in *.
  - injection Hr as <-. eauto.
  - destruct (cursor_move compare entries op pos) as [p|] eqn:Em; [|done].
    destruct (sim_step op d pos p Hop Hs Em) as (d1 & -> & Hs1). cbn [mbind option_bind] in *. by apply (IH d1 p).
Qed.
End Simulation.

End DataBlocks.

(** ** The block of a builder *)

Definition restart_items (b : BlockBuilder) : list nat :=
  map (λ j, (j * interval b)%nat) (seq 0 (length (restarts_ b))).

(** The source that an iterator over the finished block gets. *)
Lemma built_block_ok b xs src user : built b xs → use_value_delta_encoding_ b = false →
  Zlen (fst (Finish b)) < 2 ^ 32 → data_ src = Some (fst (Finish b)) → iter_restarts_ src = Zlen (enc_items false xs) →
  num_restarts_ src = Zlen (restarts_ b) → 0 <= ts_sz_ src →
  (user = false → Forall (λ x, kNumInternalBytes <= Zlen (it_key x)) xs) →
  block_ok src user xs (restart_items b).
Proof.
  intros Hb Hvd Hsize Hd Hr Hn Hts H8. pose proof (Finish_layout b xs Hb) as Hl. rewrite Hvd in Hl.
  destruct (restarts_fit b xs Hb Hsize) as [HR1 HR]. destruct Hb as [Hi Hbuf Hres Hne Hc Hcnt Hst Hit Hch Hri Hest].
  rewrite Hvd in *. unfold restart_items. set (R := length (restarts_ b)) in *. set (n := interval b) in *.
  assert (Z.of_nat n = block_restart_interval_ b) as En by (unfold n, interval; lia).
  assert (∀ j i, map (λ j, (j * n)%nat) (seq 0 R) !! j = Some i → (j < R)%nat ∧ i = (j * n)%nat) as Hlk.
  { intros j i H. change (map (λ j, (j * n)%nat) (seq 0 R)) with ((λ j, (j * n)%nat) <$> seq 0 R) in H.
    apply list_lookup_fmap_Some in H as (k & -> & Hk). apply lookup_seq in Hk as [-> ?]. split; [lia|done]. }
  assert (∀ j, (j < R)%nat → xs ≠ [] → (j * n < length xs)%nat) as Hwithin.
  { intros j Hj Hx. specialize (Hst Hx). nia. }
  constructor; try done.
  - exists (block_tail b). rewrite Hd, Hl, map_map. do 3 f_equal. unfold R. by rewrite Hres at 1.
  - rewrite Hn, !Zlen_length, length_map, length_seq. done.
  - rewrite Hl, Zlen_app in Hsize. pose proof (Zlen_nonneg (restart_array (restarts_ b) ++ block_tail b)). lia.
  - destruct R; [lia|done].
  - intros j j' i i' Hj Hj' Hlt. apply Hlk in Hj as [? ->]. apply Hlk in Hj' as [? ->].
    assert (1 <= n)%nat by lia. nia.
  - intros Hx. apply Forall_lookup. intros j i Hj. apply Hlk in Hj as [? ->]. by apply Hwithin.
  - intros ->. cbn [length] in Hc. assert (R = 1%nat) as -> by nia. done.
  - intros j i x Hj Hx. apply Hlk in Hj as [? ->]. apply (Hri _ x Hx). unfold n. apply Nat.Div0.mod_mul.
  - rewrite Zlen_length, length_map, length_seq. rewrite Zlen_length in HR. fold R in HR. unfold is_u in HR. lia.
Qed.

Lemma Finish_min_size b xs : built b xs → 8 <= Zlen (fst (Finish b)).
Proof.
  intros Hb. rewrite (Finish_layout _ _ Hb), !Zlen_app, Zlen_restart_array. unfold block_tail.
  rewrite Zlen_app, Zlen_EncodeFixed32. pose proof (bt_nonempty _ _ Hb) as Hr. rewrite (Zlen_length (restarts_ b)).
  pose proof (Zlen_nonneg (if has_hash_index b then HashIndex_Finish (data_block_hash_index_builder_ b) [] else [])).
  pose proof (Zlen_nonneg (enc_items (use_value_delta_encoding_ b) xs)). lia.
Qed.

(** ** Data blocks are cursors over what was added *)

(** What a reader sees of a key: a timestamp that was not persisted is minimal,
    and the sequence number is the global one of the file, if it has one. *)
Definition visible_key (c : Comparator) (persisted : bool) (global_seqno : Z) (key : bytes) : bytes :=
  let ts_sz := timestamp_size c in
  InternalKeyOrder.override
    (if (0 <? ts_sz) && negb persisted then ReplaceInternalKeyWithMinTimestamp [] key ts_sz else key) global_seqno.
Definition visible (c : Comparator) (persisted : bool) (global_seqno : Z) (e : entry) : bytes * bytes :=
  let '(key, value, _) := e in (visible_key c persisted global_seqno key, value).

(** Entries that a data block can be built of: internal keys, in the order in
    which they will be seen. *)
Record data_entries (wf : bytes → Prop) (c : Comparator) (persisted : bool) (g : Z) (b : BlockBuilder)
    (es : list entry) : Prop := {
  de_fresh : fresh b;
  de_values : use_value_delta_encoding_ b = false;
  de_internal : builder_is_user_key_ b = false;
  de_strip : strip_ts_sz_ b = if persisted then 0 else timestamp_size c;
  de_ts : 0 <= timestamp_size c;
  de_entries : Forall (entry_ok b) es;
  de_keys : Forall (λ e : entry, kNumInternalBytes <= Zlen (fst (fst e))) es;
  de_size : Zlen (fst (Finish (AddAll b es))) < 2 ^ 32;
  de_seqno : g = kDisableGlobalSequenceNumber ∨ is_u 56 g;
  de_wf : Forall (λ e, InternalKeyOrder.ikey_ok wf (fst (visible c persisted g e))) es;
  de_sorted : StronglySorted (λ e e', InternalKeyComparator.Compare c (fst (visible c persisted g e))
    (fst (visible c persisted g e')) < 0) es
}.

Section DataBlockTheorem.
Context (new_char : Z → bytes) (new_char_len : ∀ n, 0 <= n → Zlen (new_char n) = n).
Context (wf : bytes → Prop) (c : Comparator) `{!ComparatorLaws wf c}.
Context (persisted : bool) (g : Z) (b : BlockBuilder) (es : list entry) (Hes : data_entries wf c persisted g b es).
Context (pinned : bool).

Abbreviation block := (NewBlock (fst (Finish (AddAll b es)))).
Abbreviation new_iter := (NewDataIterator new_char block c g pinned persisted).
Abbreviation src := (source_ (base new_iter)).
Abbreviation xs := (items_of b es).

Lemma new_iter_fields :
  size_ block = Zlen (fst (Finish (AddAll b es))) ∧
  new_iter = mkDataIter (set_raw_key (InitializeBase (NewBlockIter new_char true) c (fst (Finish (AddAll b es)))
      (Zlen (enc_items false xs)) (Zlen (restarts_ (AddAll b es))) g pinned persisted 0)
      (SetIsUserKey (NewIterKey new_char) false)) [] [] (-1)
    (if has_hash_index (AddAll b es) then Some (num_buckets (data_block_hash_index_builder_ (AddAll b es))) else None).
Proof using Hes.
  destruct Hes as [Hf Hvd Hin Hst Hts Hen H8 Hsz Hg Hwf Hso].
  destruct (AddAll_built_fits b es Hf Hen Hsz) as (Hb & Hs & Hfit). pose proof Hs as (S1 & S2 & S3 & S4 & S5).
  rewrite (NewBlock_Finish _ _ Hb Hsz), <- S3, Hvd. split; [done|].
  destruct (restarts_fit _ _ Hb Hsz) as [HR1 HR]. pose proof (Finish_min_size _ _ Hb).
  unfold NewDataIterator. cbn [size_ block_num_restarts_ contents_ restart_offset_ num_buckets_].
  destruct (Z.ltb_spec (Zlen (fst (Finish (AddAll b es)))) (2 * 4)) as [Hlt|_]; [lia|].
  destruct (Z.eqb_spec (Zlen (restarts_ (AddAll b es))) 0); [lia|]. f_equal.
  destruct (has_hash_index (AddAll b es)); [|done].
  destruct (num_buckets_range (data_block_hash_index_builder_ (AddAll b es))).
  by destruct (Z.eqb_spec (num_buckets (data_block_hash_index_builder_ (AddAll b es))) 0); [lia|].
Qed.

Lemma src_fields : icmp_ src = c ∧ global_seqno_ src = g ∧ ts_sz_ src = timestamp_size c ∧
  pad_min_timestamp_ src = ((0 <? timestamp_size c) && negb persisted) ∧
  data_ src = Some (fst (Finish (AddAll b es))) ∧ iter_restarts_ src = Zlen (enc_items false xs) ∧
  num_restarts_ src = Zlen (restarts_ (AddAll b es)).
Proof using Hes. destruct new_iter_fields as [_ ->]. done. Qed.

(** The keys that come back. *)
Lemma shown_visible i e : es !! i = Some e → ∃ x, xs !! i = Some x ∧
  shown src false x = visible c persisted g e ∧
  kNumInternalBytes <= Zlen (decoded_key src false (it_key x)) ∧ bytes_ok (decoded_key src false (it_key x)) ∧
  kNumInternalBytes <= Zlen (it_key x).
Proof using Hes.
  destruct e as [[key value] dv]. intros He. destruct Hes as [Hf Hvd Hin Hst Hts Hen H8 Hsz Hg Hwf Hso].
  destruct (items_of_lookup b es i key value dv He) as (x & Hx & Hk & Hv). exists x. split; [done|].
  destruct src_fields as (_ & Eg & Ets & Epad & _). unfold shown, visible, visible_key, shown_key, decoded_key.
  rewrite Eg, Ets, Epad, Hk, Hv by done. unfold MaybeStripTimestampFromKey. rewrite Hst, Hin.
  pose proof (proj1 (Forall_lookup _ _) H8 i _ He) as Hlen. cbn in Hlen. unfold kNumInternalBytes in *.
  destruct (proj1 (Forall_lookup _ _) Hen i _ He) as (Bk & _ & _ & _ & _ & _ & H0 & Hroom).
  rewrite Hst, Hin in Hroom. unfold kNumInternalBytes in Hroom.
  destruct persisted; [by rewrite andb_false_r|]. cbn [negb]. rewrite andb_true_r.
  destruct (Z.ltb_spec 0 (timestamp_size c)) as [Hpos|]; [|done]. specialize (Hroom Hpos).
  destruct (ts_key_split key (timestamp_size c) Hts) as (u & ts & f & -> & <- & Hf8); [unfold kNumInternalBytes; lia|].
  rewrite (Strip_app u ts f Hf8), (Replace_app u ts f Hf8), (Pad_app u f Hf8).
  replace (Z.to_nat (Zlen ts)) with (length ts) by (rewrite Zlen_length; lia).
  rewrite !bytes_ok_app in Bk. unfold kNumInternalBytes in Hf8. rewrite !Zlen_app, Hf8.
  pose proof (Zlen_nonneg u). pose proof (Zlen_nonneg (replicate (length ts) 0)).
  split_and!; [done|lia| |lia]. rewrite !bytes_ok_app. split_and!; [apply Bk| |apply Bk]. by apply bytes_ok_replicate.
Qed.

Lemma visible_items : map (shown src false) xs = map (visible c persisted g) es.
Proof using Hes.
  apply list_eq. intros i. rewrite !list_lookup_fmap.
  destruct (es !! i) as [e|] eqn:He.
  - destruct (shown_visible i e He) as (x & -> & Hs & _). cbn. by rewrite Hs.
  - apply lookup_ge_None in He. rewrite <- (length_items_of b es) in He. by apply lookup_ge_None in He as ->.
Qed.

Lemma item_entry i x : xs !! i = Some x → ∃ e, es !! i = Some e ∧ shown src false x = visible c persisted g e ∧
  kNumInternalBytes <= Zlen (decoded_key src false (it_key x)) ∧ bytes_ok (decoded_key src false (it_key x)) ∧
  kNumInternalBytes <= Zlen (it_key x).
Proof using Hes.
  intros Hx. pose proof (lookup_lt_Some _ _ _ Hx) as Hlt. rewrite length_items_of in Hlt.
  destruct (lookup_lt_is_Some_2 es i Hlt) as [e He]. exists e. split; [done|].
  destruct (shown_visible i e He) as (y & Hy & ?). by assert (y = x) as -> by congruence.
Qed.

Lemma data_block_ok : block_ok src false xs (restart_items (AddAll b es)).
Proof using Hes.
  destruct src_fields as (_ & _ & Ets & _ & Ed & Er & En). pose proof Hes as [Hf Hvd Hin Hst Hts Hen H8 Hsz Hg Hwf Hso].
  destruct (AddAll_built_fits b es Hf Hen Hsz) as (Hb & Hs & Hfit). pose proof Hs as (S1 & S2 & S3 & S4 & S5).
  apply built_block_ok; try done; [congruence|by rewrite Ets|]. intros _. apply Forall_lookup.
  intros i x Hx. by destruct (item_entry i x Hx) as (e & _ & _ & _ & _ & ?).
Qed.

Lemma data_cmp x target : x ∈ xs → InternalKeyOrder.ikey_ok wf target →
  cmp src false target x = InternalKeyComparator.Compare c (shown_key src false (it_key x)) target.
Proof using Hes.
  intros Hx _. apply list_elem_of_lookup in Hx as [i Hx].
  destruct (item_entry i x Hx) as (e & _ & _ & Hl & Hk & _). destruct src_fields as (Ec & Eg & _).
  rewrite <- Ec at 2. apply key_compare_shown; [done| |done..]. rewrite Eg. apply (de_seqno _ _ _ _ _ _ Hes).
Qed.

Lemma data_sorted target : InternalKeyOrder.ikey_ok wf target → ∀ i j x y, xs !! i = Some x → xs !! j = Some y →
  (i < j)%nat → cmp src false target y <= 0 → cmp src false target x < 0.
Proof using Hes ComparatorLaws0.
  intros Ht i j x y Hx Hy Hij. rewrite !data_cmp by (done || by eapply list_elem_of_lookup_2).
  destruct (item_entry i x Hx) as (e & He & Es & _). destruct (item_entry j y Hy) as (e' & He' & Es' & _).
  change (shown_key src false (it_key x)) with (fst (shown src false x)).
  change (shown_key src false (it_key y)) with (fst (shown src false y)). rewrite Es, Es'.
  pose proof (de_wf _ _ _ _ _ _ Hes) as Hwf. pose proof (proj1 (Forall_lookup _ _) Hwf i e He) as W1.
  pose proof (proj1 (Forall_lookup _ _) Hwf j e' He') as W2. cbn beta in W1, W2.
  pose proof (InternalKeyOrder.Compare_order wf c) as Ho.
  apply (cmp_lt_le_trans (wf := InternalKeyOrder.ikey_ok wf)); [done..|].
  exact (sorted_lookup _ _ (de_sorted _ _ _ _ _ _ Hes) i j e e' He He' Hij).
Qed.

Lemma new_iter_sim : sim src xs (restart_items (AddAll b es)) new_iter None.
Proof using Hes new_char_len.
  assert (iter_ok (NewIterKey new_char)) as Hk.
  { unfold NewIterKey, iter_ok, key_data. cbn. rewrite new_char_len by lia. lia. }
  destruct src_fields as (_ & _ & _ & _ & _ & Er & _). split; [|done]. split.
  - split; [|unfold Valid; rewrite Er; destruct new_iter_fields as [_ ->]; apply Z.ltb_irrefl].
    constructor; [done|..]; destruct new_iter_fields as [_ ->]; [by split|done|done|apply Zlen_nonneg].
  - destruct new_iter_fields as [_ ->]. split; [|cbn; lia]. exists 0%nat. split; [|by constructor].
    intros j e He. cbn in He. by rewrite lookup_nil in He.
Qed.

(** C1: an iterator over the data block that was built of some entries, whatever
    the restart interval, the delta encoding of keys, the hash index, the
    stripping of timestamps and the global sequence number, behaves under every
    sequence of movements (where Next and Prev are only called on a valid
    iterator) like a cursor over the list of these entries: searches end at the
    first entry that is not smaller and at the last that is not larger, and the
    keys and values it shows are those that were added. *)
Theorem data_block_refines_cursor ops pos :
  Forall (op_good (InternalKeyOrder.ikey_ok wf)) ops →
  let entries := map (visible c persisted g) es in
  cursor_run (InternalKeyComparator.Compare c) entries ops None = Some pos →
  ∃ d, data_run new_char ops new_iter = Some d ∧ data_shows d = cursor_shows entries pos ∧
    ok (status_ (base d)) = true.
Proof using new_char_len Hes ComparatorLaws0.
  intros Hops. cbv zeta. rewrite <- visible_items. intros Hr.
  destruct (sim_run new_char new_char_len src xs _ data_block_ok (InternalKeyComparator.Compare c)
    (InternalKeyOrder.ikey_ok wf) data_cmp data_sorted ops Hops _ _ _ new_iter_sim Hr) as (d & E & Hs).
  exists d. split; [done|]. by apply (sim_shows src xs _ data_block_ok).
Qed.
End DataBlockTheorem.

#[local] Transparent ztake zdrop Zlen.

(** A block with two restart points, a hash index and stripped timestamps. *)
Module BlockExample.
Import IterKeyExample (new_char, new_char_len).

Definition ikey (user : bytes) (ts seq type : Z) : bytes :=
  AppendInternalKey [] (mkParsed (user ++ EncodeFixed64 ts) seq type).
Definition es : list entry :=
  [ (ikey [97] 5 9 1, [1], None); (ikey [97; 98] 7 8 1, [2; 2], None);
    (ikey [97; 98] 3 4 0, [], None); (ikey [99] 1 2 1, [3], None) ].
Definition builder : BlockBuilder :=
  NewBlockBuilder 2 true false kDataBlockBinaryAndHash kDefaultUtilRatio 8 false false.

Lemma es_ok : data_entries (ts_key bytes_ok) BytewiseComparatorWithU64Ts false kDisableGlobalSequenceNumber builder es.
Proof.
  constructor; try done; [| |by left| |].
  - apply (bool_decide_unpack _). vm_compute. exact I.
  - apply (bool_decide_unpack _). vm_compute. exact I.
  - apply (bool_decide_unpack _). vm_compute. exact I.
  - repeat constructor; by vm_compute.
Qed.

#[local] Instance laws : ComparatorLaws (ts_key bytes_ok) BytewiseComparatorWithU64Ts.
Proof. apply U64Ts_laws, _. Qed.

Definition target : bytes := ikey [97; 98] 0 5 1.
Definition iter : DataBlockIter :=
  NewDataIterator new_char (NewBlock (fst (Finish (AddAll builder es)))) BytewiseComparatorWithU64Ts
    kDisableGlobalSequenceNumber true false.

Lemma data_block_refines_cursor_witness :
  ∃ d, data_run new_char [OpSeek target; OpPrev; OpSeekForPrev target; OpNext] iter = Some d ∧
    data_shows d = Some (ikey [97; 98] 0 4 0, []) ∧ ok (status_ (base d)) = true.
Proof.
  apply (data_block_refines_cursor new_char new_char_len (ts_key bytes_ok) BytewiseComparatorWithU64Ts
    false kDisableGlobalSequenceNumber builder es es_ok true [OpSeek target; OpPrev; OpSeekForPrev target; OpNext]
    (Some 2%nat)); [|by vm_compute].
  repeat constructor; by vm_compute.
Defined.
End BlockExample.
