(* ===== verification/BlockGet.v ===== *)
(** * Point lookups through the hash index of a data block

    [DataBlockIter::SeekForGetImpl] looks a user key up in the hash index and
    scans one restart interval. *)

From Stdlib Require Import Sorting.Sorted.
From S2P Require Import Prelude SortedLists Status Coding Slice Comparator DbFormat IterKey.
From S2P Require Import BlockHashIndex BlockBuilder Block BlockLayout BlockScan BlockCursor BlockCorrect.
#[local] Open Scope Z_scope.
#[local] Opaque ztake zdrop Zlen.

Section Get.
Context (new_char : Z → bytes) (new_char_len : ∀ n, 0 <= n → Zlen (new_char n) = n).
Context (src : BlockSource) (xs : list item) (rs : list nat).
Context (HB : block_ok src false xs rs) (target : bytes).
Abbreviation off := (item_off false xs).
Abbreviation cmp := (cmp src false target).
Context (Hsorted : ∀ i j x y, xs !! i = Some x → xs !! j = Some y → (i < j)%nat → cmp y <= 0 → cmp x < 0).

Lemma off_lt_iff i j : (i <= length xs)%nat → (j <= length xs)%nat → (off i <? off j) = bool_decide (i < j)%nat.
Proof using HB.
  intros Hi Hj. pose proof (bk_items _ _ _ _ HB) as Hok. destruct (decide (i < j)%nat) as [Hlt|Hge].
  - rewrite bool_decide_eq_true_2 by done. apply Z.ltb_lt. apply item_off_lt; [done|lia|lia].
  - rewrite bool_decide_eq_false_2 by done. apply Z.ltb_ge. destruct (decide (i = j)) as [->|]; [lia|].
    pose proof (item_off_lt false xs Hok j i). lia.
Qed.

Lemma SeekForGet_loop_spec l fuel : (l <= length xs)%nat → ∀ it i c, before src false xs rs it i →
  current_ it = off c → (c <= i <= S c)%nat → (c < l ∨ c = length xs ∨ i = S c ∧ ∃ x, at_item src false xs rs it c x)%nat →
  (c <= l)%nat → (S l - i < fuel)%nat →
  ∃ it' k, SeekForGet_loop new_char fuel it target (off l) = Some it' ∧ positioned src false xs rs it' (pos_of xs k) ∧
    current_ it' = off k ∧     (c <= k <= l)%nat ∧ (∀ j x, xs !! j = Some x → (i <= j < k)%nat → cmp x < 0) ∧
    (∀ x, (i <= k < l)%nat → xs !! k = Some x → 0 <= cmp x) ∧ (i <= k ∨ k = l)%nat.
Proof using new_char_len HB.
  intros Hl. induction fuel as [|fuel IH]; intros it i c Hb Hc Hci Hat Hcl Hf; [lia|]. cbn [SeekForGet_loop].
  rewrite Hc, off_lt_iff by lia. destruct (decide (c < l)%nat) as [Hlt|Hge].
  - rewrite bool_decide_eq_true_2 by done.
    pose proof (set_idx_before _ _ _ _ it i (cur_entry_idx_ it + 1) Hb) as Hb'. pose proof (bf_bound _ _ _ _ _ _ Hb).
    destruct (decide (i = length xs)) as [Ei|Hi].
    { rewrite Ei in Hb'. rewrite (parse_end new_char src false xs rs HB DecodeEntry) by done. cbn [negb orb].
      eexists _, i. split; [reflexivity|]. unfold pos_of. rewrite decide_False by lia.
      split; [by apply (past_the_end _ _ _ _ HB), (bf_sane _ _ _ _ _ _ Hb')|]. cbn.
      rewrite (is_source _ _ _ (bf_sane _ _ _ _ _ _ Hb)), (bk_restarts _ _ _ _ HB), item_off_end by lia.
      split_and!; try done; intros; lia. }
    destruct (lookup_lt_is_Some_2 xs i) as [x Ex0]; [lia|].
    destruct (parse_item new_char new_char_len src false xs rs HB DecodeEntry (data_decode src xs rs HB) _ i x Hb' Ex0)
      as (it1 & -> & Hx & _). cbn [negb orb].
    assert (positioned src false xs rs it1 (pos_of xs i)) as Hp0.
    { unfold pos_of. rewrite decide_True by lia. by exists x. }
    pose proof (ai_item _ _ _ _ _ _ _ Hx) as Ex.
    rewrite (CompareCurrentKey_key src false it1 (it_key x)) by (apply Hx). fold (cmp x).
    destruct (Z.leb_spec 0 (cmp x)) as [Hge|Hlt'].
    + exists it1, i. split_and!; try done; try (intros; lia); [apply Hx|]. intros y _ Hy. congruence.
    + destruct (IH it1 (S i) i) as (it' & k & E & Hp' & Hcur & Hk & H1 & H2 & H3); [by eapply at_before|apply Hx|lia| |lia|lia|].
      { right. right. split; [done|]. by exists x. }
      exists it', k. split_and!; try done; try (intros; lia).
      * intros j y Hy Hj. destruct (decide (j = i)) as [->|]; [congruence|]. apply (H1 j y Hy). lia.
      * intros y Hk' Hy. destruct H3 as [H3|H3]; [apply H2; [lia|done]|lia].
  - rewrite bool_decide_eq_false_2 by done. exists it, c. assert (c = l) as -> by lia.
    split_and!; try done; try (intros; lia). unfold pos_of. destruct Hat as [?|[->|[-> [x Hx]]]]; [lia| |].
    + rewrite decide_False by lia. split; [apply Hb|]. unfold Valid. rewrite Hc, (is_source _ _ _ (bf_sane _ _ _ _ _ _ Hb)).
      rewrite (bk_restarts _ _ _ _ HB), item_off_end by done. apply Z.ltb_irrefl.
    + pose proof (lookup_lt_Some _ _ _ (ai_item _ _ _ _ _ _ _ Hx)). rewrite decide_True by done. by exists x.
Qed.

(** The item has the user key that is looked up. *)
Definition same_user (x : item) : Prop :=
  Compare (icmp_ src) (ExtractUserKey (decoded_key src false (it_key x))) (ExtractUserKey target) = 0.
Definition interval_end (r : nat) : nat := default (length xs) (rs !! S r).

(** The outcome of a lookup: the position of a [Seek], or no entry. *)
Definition found (r : option (bool * DataBlockIter)) : Prop :=
  ∃ res d' pos, r = Some (res, d') ∧ data_pos src xs rs d' pos ∧
    if res : bool then pos = pos_of xs (lower_idx src false xs target)
    else ∀ m y, xs !! m = Some y → same_user y → cmp y < 0.

Context (Huser : ∀ i j x y, xs !! i = Some x → xs !! j = Some y → (i < j)%nat → 0 <= cmp x → same_user y → same_user x).

Lemma GetUserKey_key it i x : at_item src false xs rs it i x →
  GetUserKey (raw_key_ it) = ExtractUserKey (decoded_key src false (it_key x)).
Proof using.
  intros Hat. destruct (ai_key _ _ _ _ _ _ _ Hat) as [[Hok Hu] <-]. unfold GetUserKey, ExtractUserKey.
  rewrite Hu, GetKey_len by done. unfold GetKey, kNumInternalBytes. symmetry. apply ztake_ztake. lia.
Qed.

(** What the scan of the interval [r], which starts at [i], finds: [k]. *)
Lemma scan_outcome r i k : xs ≠ [] → rs !! r = Some i → (i <= k <= interval_end r)%nat →
  (∀ j x, xs !! j = Some x → (i <= j < k)%nat → cmp x < 0) →
  (∀ x, (i <= k < interval_end r)%nat → xs !! k = Some x → 0 <= cmp x) →
  (∀ m y, xs !! m = Some y → same_user y → (i <= m < interval_end r)%nat) →
  match xs !! k with
  | None => lower_idx src false xs target = k ∧ k = length xs
  | Some x => (same_user x → lower_idx src false xs target = k) ∧
      (¬ same_user x → ∀ m y, xs !! m = Some y → same_user y → cmp y < 0)
  end.
Proof using HB Hsorted Huser.
  intros Hne Hr Hk H1 H2 Hin. pose proof (restart_within _ _ _ _ HB _ _ Hr Hne) as Hi.
  destruct (xs !! k) as [x|] eqn:Ex.
  - pose proof (lookup_lt_Some _ _ _ Ex) as Hlt. split.
    + intros Hs. pose proof (Hin k x Ex Hs) as Hkl. symmetry. apply seek_index_lower.
      apply (seek_index_here src false xs target Hsorted k x Ex); [by apply H2|].
      intros j y Hy Ej. destruct (decide (i <= j)%nat) as [Hij|Hij]; [apply (H1 j y Hy); lia|].
      destruct (Z.lt_ge_cases (cmp y) 0) as [|Hge]; [done|]. exfalso.
      pose proof (Hin j y Hy (Huser j k y x Hy Ex ltac:(lia) Hge Hs)). lia.
    + intros Hs m y Hy Hsy. pose proof (Hin m y Hy Hsy) as Hm. destruct (decide (m < k)%nat); [apply (H1 m y Hy); lia|].
      destruct (Z.lt_ge_cases (cmp y) 0) as [|Hge]; [done|]. destruct Hs.
      assert (0 <= cmp x) by (apply H2; [lia|done]).
      destruct (decide (m = k)) as [->|]; [congruence|]. by apply (Huser k m x y Ex Hy ltac:(lia)).
  - apply lookup_ge_None in Ex.
    assert (interval_end r <= length xs)%nat.
    { unfold interval_end. destruct (rs !! S r) eqn:E; [|done]. pose proof (restart_within _ _ _ _ HB _ _ E Hne). cbn. lia. }
    assert (k = length xs) as -> by lia. split; [|done]. symmetry. apply seek_index_lower.
    apply (seek_index_end src false xs target Hsorted). intros j y Hy Hj. apply (H1 j y Hy). lia.
Qed.

Lemma interval_end_le r : (interval_end r <= length xs)%nat.
Proof using HB.
  unfold interval_end. destruct (rs !! S r) as [i|] eqn:E; [|done]. cbn. destruct (decide (xs = [])) as [E0|E0].
  - rewrite (bk_none _ _ _ _ HB E0) in E. done.
  - pose proof (restart_within _ _ _ _ HB _ _ E E0). lia.
Qed.
Lemma interval_limit it r : source_ it = src →
  (if Z.of_nat r + 1 <? num_restarts_ src then GetRestartPoint it (Z.of_nat r + 1) else iter_restarts_ src) =
    off (interval_end r).
Proof using HB.
  intros Es. rewrite (bk_num _ _ _ _ HB), Zlen_length. unfold interval_end.
  replace (Z.of_nat r + 1) with (Z.of_nat (S r)) by lia. destruct (rs !! S r) as [i|] eqn:E.
  - apply lookup_lt_Some in E as Hlt. destruct (Z.ltb_spec (Z.of_nat (S r)) (Z.of_nat (length rs))); [|lia].
    by rewrite (restart_point src false xs rs HB it (S r) i).
  - apply lookup_ge_None in E. destruct (Z.ltb_spec (Z.of_nat (S r)) (Z.of_nat (length rs))); [lia|].
    cbn. by rewrite item_off_end, (bk_restarts _ _ _ _ HB).
Qed.
Lemma interval_nonempty r i : rs !! r = Some i → (i < interval_end r ∨ i = length xs)%nat.
Proof using HB.
  intros Hr. destruct (decide (xs = [])) as [E|E].
  - right. rewrite (bk_none _ _ _ _ HB E) in Hr. apply list_lookup_singleton_Some in Hr as [_ <-]. by rewrite E.
  - left. unfold interval_end. destruct (rs !! S r) as [j|] eqn:Ej; cbn.
    + by apply (bk_sorted _ _ _ _ HB r (S r)); [| |lia].
    + by apply (restart_within _ _ _ _ HB r).
Qed.

(** The end of [SeekForGetImpl], once the scan of the interval has stopped. *)
Lemma get_result r i k d it : rs !! r = Some i → (i <= k <= interval_end r)%nat →
  (∀ j x, xs !! j = Some x → (i <= j < k)%nat → cmp x < 0) →
  (∀ x, (i <= k < interval_end r)%nat → xs !! k = Some x → 0 <= cmp x) →
  (∀ m y, xs !! m = Some y → same_user y → (i <= m < interval_end r)%nat) →
  positioned src false xs rs it (pos_of xs k) → cache_ok src xs d →
  (cache_ok src xs (set_base d it) → found (d ← DataSeekImpl new_char (set_base d it) target; Some (true, d))) →
  found (if off k =? iter_restarts_ src then Some (true, set_base d it)
    else if negb (Compare (icmp_ src) (GetUserKey (raw_key_ it)) (ExtractUserKey target) =? 0)
    then Some (false, set_base d it)
    else if negb (point_lookup_type (ExtractValueType (GetInternalKey (raw_key_ it))))
    then d ← DataSeekImpl new_char (set_base d it) target; Some (true, d) else Some (true, set_base d it)).
Proof using HB Hsorted Huser.
  intros Hr Hk H1 H2 Hin Hp Hc Hseek. pose proof (interval_end_le r) as Hle.
  assert (data_pos src xs rs (set_base d it) (pos_of xs k)) as Hd by (split; [done|by apply set_base_cache]).
  rewrite (bk_restarts _ _ _ _ HB), <- (item_off_end false xs (length xs)) by done.
  destruct (decide (xs = [])) as [E0|E0].
  { assert (length xs = 0%nat) by (by rewrite E0). assert (k = 0%nat) as -> by lia.
    assert (length xs = 0%nat) as -> by done. rewrite Z.eqb_refl. eexists true, _, _. split_and!; [done|done|]. cbn.
    unfold lower_idx. by rewrite E0. }
  pose proof (scan_outcome r i k E0 Hr Hk H1 H2 Hin) as Ho. destruct (xs !! k) as [x|] eqn:Ex.
  - pose proof (lookup_lt_Some _ _ _ Ex) as Hlt. pose proof (item_off_lt false xs (bk_items _ _ _ _ HB) k (length xs)).
    destruct (Z.eqb_spec (off k) (off (length xs))); [lia|].
    unfold pos_of in Hp. rewrite decide_True in Hp by done. destruct Hp as [y Hat].
    assert (y = x) as -> by (pose proof (ai_item _ _ _ _ _ _ _ Hat); congruence).
    rewrite (GetUserKey_key it k x Hat). fold (same_user x). destruct Ho as [Ho1 Ho2].
    destruct (Z.eqb_spec (Compare (icmp_ src) (ExtractUserKey (decoded_key src false (it_key x))) (ExtractUserKey target)) 0)
      as [E|E]; cbn [negb].
    + destruct (point_lookup_type _); cbn [negb]; [|by apply Hseek, set_base_cache].
      eexists true, _, _. split_and!; [done|done|]. by rewrite Ho1.
    + eexists false, _, _. split_and!; [done|done|]. by apply Ho2.
  - destruct Ho as [Ho ->]. rewrite Z.eqb_refl. eexists true, _, _. split_and!; [done|done|]. by rewrite Ho.
Qed.

Lemma SeekForGetImpl_spec d nb : iter_sane src false (base d) → cache_ok src xs d →
  let e := HashIndex_Lookup nb (the_data (base d)) (u32 (iter_restarts_ src + num_restarts_ src * 4))
             (ExtractUserKey target) in
  (e ≠ kCollision → ∃ r i, (if e =? kNoEntry then u8 (num_restarts_ src - 1) else e) = Z.of_nat r ∧ rs !! r = Some i ∧
     ∀ m y, xs !! m = Some y → same_user y → (i <= m < interval_end r)%nat) →
  found (SeekForGetImpl new_char d nb target).
Proof using new_char_len HB Hsorted Huser.
  intros Hs Hc e He. unfold SeekForGetImpl. rewrite (is_source _ _ _ Hs). fold e.
  assert (∀ d, iter_sane src false (base d) → cache_ok src xs d →
    found (d ← DataSeekImpl new_char d target; Some (true, d))) as Hseek.
  { intros d1 Hs1 Hc1. destruct (DataSeekImpl_spec new_char new_char_len src xs rs HB target Hsorted d1 Hs1 Hc1)
      as (d2 & -> & Hd2). by exists true, d2, (pos_of xs (lower_idx src false xs target)). }
  destruct (Z.eqb_spec e kCollision) as [|Hne]; [by apply Hseek|]. destruct (He Hne) as (r & i & -> & Hr & Hin).
  cbv zeta. set (it1 := set_idx _ _).
  assert (before src false xs rs it1 i ∧ current_ it1 = off i ∧ source_ it1 = src) as (Hb & Hcur & Esrc).
  { pose proof (seek_restart src false xs rs HB (base d) r i Hs Hr) as [[? ? ? ? ?] ? ? ? ?].
    pose proof (restart_point src false xs rs HB (SeekToRestartPoint (base d) (Z.of_nat r)) r i ltac:(done) Hr) as Hp.
    unfold it1. cbn [current_ set_idx set_position source_]. rewrite Hp. split_and!; [|done|done].
    constructor; try done. constructor; try done. cbn. apply (item_off_nonneg false xs). }
  rewrite interval_limit by done. pose proof (interval_nonempty r i Hr) as Hne'. pose proof (interval_end_le r) as Hle.
  assert (i <= length xs)%nat as Hil by (apply Hb).
  destruct (SeekForGet_loop_spec (interval_end r) (S (scan_fuel it1)) Hle it1 i i)
    as (it' & k & -> & Hp & Hk & Hik & H1 & H2 & _); [done|done|lia|lia| | |].
  { destruct Hne' as [|Hl]; [lia|]. unfold interval_end. destruct (rs !! S r) as [j|] eqn:Ej; cbn; [|lia].
    pose proof (bk_sorted _ _ _ _ HB r (S r) i j Hr Ej). lia. }
  { pose proof (fuel_enough _ _ _ _ HB it1 (length xs) (bf_sane _ _ _ _ _ _ Hb) (le_n _)). lia. }
  cbn [mbind option_bind]. rewrite Hk. apply (get_result r i); try done. intros _.
  apply Hseek; [by eapply positioned_sane|by apply set_base_cache].
Qed.
End Get.

(** ** Restart intervals of a built block *)

Lemma restart_items_lookup b j : restart_items b !! j = if decide (j < length (restarts_ b))%nat
  then Some (j * interval b)%nat else None.
Proof.
  unfold restart_items. change (map ?f ?l) with (f <$> l). rewrite list_lookup_fmap. case_decide.
  - by rewrite lookup_seq_lt.
  - by rewrite lookup_seq_ge by lia.
Qed.

Lemma built_restart_index b xs m : built b xs → (m < length xs)%nat →
  (m / interval b < length (restarts_ b))%nat ∧
  (m / interval b * interval b <= m)%nat ∧
  (m < default (length xs) (restart_items b !! S (m / interval b)))%nat.
Proof.
  intros [Hn _ _ Hne Hc Hcnt _ _ _ _ _] Hm.
  assert (Z.of_nat (interval b) = block_restart_interval_ b) as En by (unfold interval; lia).
  set (n := interval b) in *. set (R := length (restarts_ b)) in *. assert (1 <= n)%nat by lia.
  pose proof (Nat.div_mod_eq m n) as Hd. pose proof (Nat.mod_upper_bound m n ltac:(lia)).
  set (q := (m / n)%nat) in *. split_and!.
  - nia.
  - nia.
  - rewrite restart_items_lookup. fold R n. case_decide; cbn; nia.
Qed.

Lemma built_last_restart b xs : built b xs → xs ≠ [] →
  Z.of_nat (length (restarts_ b)) - 1 = restart_of b (length xs - 1).
Proof.
  intros [Hn _ _ Hne Hc Hcnt Hst _ _ _ _] Hx. specialize (Hst Hx). unfold restart_of.
  assert (Z.of_nat (interval b) = block_restart_interval_ b) as En by (unfold interval; lia).
  set (n := interval b) in *. set (R := length (restarts_ b)) in *.
  assert (length xs ≠ 0%nat) by (by rewrite length_zero_iff_nil). rewrite Nat2Z.inj_div, En.
  replace (Z.of_nat (length xs - 1)) with (counter_ b - 1 + (Z.of_nat R - 1) * block_restart_interval_ b) by lia.
  rewrite Z.div_add, Z.div_small by lia. lia.
Qed.

Section GetTheorem.
Context (new_char : Z → bytes) (new_char_len : ∀ n, 0 <= n → Zlen (new_char n) = n).
Context (wf : bytes → Prop) (c : Comparator) `{!ComparatorLaws wf c}.
Context (g : Z) (b : BlockBuilder) (es : list entry) (Hes : data_entries wf c true g b es).
Context (Hfresh : hash_and_restart_pairs_ (data_block_hash_index_builder_ b) = []).
Context (pinned : bool) (target : bytes) (Ht : InternalKeyOrder.ikey_ok wf target).
(** User keys that are equal are the same bytes. *)
Context (Hexact : ∀ e : entry, e ∈ es → Compare c (ExtractUserKey (fst (fst e))) (ExtractUserKey target) = 0 →
           ExtractUserKey (fst (fst e)) = ExtractUserKey target).

Abbreviation new_iter := (NewDataIterator new_char (NewBlock (fst (Finish (AddAll b es)))) c g pinned true).
Abbreviation src := (source_ (base new_iter)).
Abbreviation xs := (items_of b es).
Abbreviation rs := (restart_items (AddAll b es)).

Lemma same_user_entry m x : xs !! m = Some x → ∃ e : entry, es !! m = Some e ∧ decoded_key src false (it_key x) = fst (fst e) ∧
  (same_user src target x ↔ Compare c (ExtractUserKey (fst (fst e))) (ExtractUserKey target) = 0).
Proof using Hes.
  intros Hx. pose proof (lookup_lt_Some _ _ _ Hx) as Hlt. rewrite length_items_of in Hlt.
  destruct (lookup_lt_is_Some_2 es m Hlt) as [[[key value] dv] He]. exists (key, value, dv). split; [done|].
  destruct (items_of_lookup b es m key value dv He) as (y & Hy & Hk & _). assert (y = x) as -> by congruence.
  destruct (src_fields new_char wf c true g b es Hes pinned) as (Ec & _ & _ & Ep & _).
  assert (decoded_key src false (it_key x) = key) as E.
  { unfold decoded_key. rewrite Ep, andb_false_r, Hk. unfold MaybeStripTimestampFromKey.
    by rewrite (de_strip _ _ _ _ _ _ Hes). }
  split; [done|]. unfold same_user. by rewrite Ec, E.
Qed.

(** The bucket of the target: free, shared by several intervals, or the interval
    in which every entry with the target's user key is. *)
Lemma lookup_bucket : has_hash_index (AddAll b es) = true →
  let e := HashIndex_Lookup (num_buckets (data_block_hash_index_builder_ (AddAll b es))) (fst (Finish (AddAll b es)))
    (u32 (iter_restarts_ src + num_restarts_ src * 4)) (ExtractUserKey target) in
  Forall (λ a, 0 <= snd a <= kMaxRestartSupportedByHashIndex) (hash_adds b es) ∧
  (e = kNoEntry ∨ e = kCollision ∨ ∃ k, (k, e) ∈ hash_adds b es) ∧
  ∀ m y, xs !! m = Some y → same_user src target y → settled (restart_of b m) e.
Proof using Hes Hfresh Hexact.
  intros Hh e. destruct (src_fields new_char wf c true g b es Hes pinned) as (_ & _ & _ & _ & _ & Er & En).
  assert (∀ m y, xs !! m = Some y → same_user src target y → (ExtractUserKey target, restart_of b m) ∈ hash_adds b es)
    as Hadded.
  { intros m y Hy Hu. destruct (same_user_entry m y Hy) as (e0 & He & _ & Hue). apply Hue in Hu.
    rewrite <- (Hexact e0) by (done || by eapply list_elem_of_lookup_2).
    apply list_elem_of_lookup. exists m. unfold hash_adds. rewrite list_lookup_imap, He. done. }
  enough (Forall (λ a, 0 <= snd a <= kMaxRestartSupportedByHashIndex) (hash_adds b es) ∧
    (e = kNoEntry ∨ e = kCollision ∨ ∃ k, (k, e) ∈ hash_adds b es) ∧
    ∀ r, (ExtractUserKey target, r) ∈ hash_adds b es → settled r e) as (H1 & H2 & H3) by eauto. clear Hadded. subst e.
  destruct Hes as [Hf Hvd Hin Hst Hts Hen H8 Hsz Hg Hwf Hso].
  destruct (AddAll_built_fits b es Hf Hen Hsz) as (Hb & (S1 & S2 & S3 & S4 & S5) & Hfit).
  pose proof Hh as Hv. unfold has_hash_index in Hv. apply andb_true_iff in Hv as [Hv Hsize].
  destruct (AddAll_hash b es Hf Hen Hfit Hv) as [Eh Hadds]. split; [done|]. rewrite Er, En.
  pose proof (Finish_layout _ _ Hb) as Hl. pose proof (Finish_size _ _ Hb) as Hlen. rewrite Hh in Hlen.
  rewrite <- S3, Hvd in Hl. set (E := enc_items false xs) in *. set (A := restart_array (restarts_ (AddAll b es))) in *.
  unfold block_tail in Hl. rewrite Hh in Hl. set (h := data_block_hash_index_builder_ (AddAll b es)) in *.
  set (foot := EncodeFixed32 _) in Hl. assert (Zlen A = Zlen (restarts_ (AddAll b es)) * 4) as HA.
  { unfold A. rewrite Zlen_restart_array. lia. }
  assert (fst (Finish (AddAll b es)) = HashIndex_Finish h (E ++ A) ++ foot) as Hd.
  { rewrite HashIndex_Finish_app, Hl, <- !app_assoc. done. }
  apply Z.leb_le in Hsize. unfold kMaxBlockSizeSupportedByHashIndex in Hsize. change (Z.shiftl 1 16) with (2 ^ 16) in Hsize.
  assert (Zlen foot = 4) as Hfoot by apply Zlen_EncodeFixed32. rewrite Hd in Hlen |- *. rewrite Zlen_app in Hlen.
  pose proof (Zlen_nonneg E). pose proof (Zlen_nonneg (HashIndex_Finish h [])). pose proof (Zlen_nonneg A).
  assert (Zlen (E ++ A) + Zlen (HashIndex_Finish h []) = Zlen (HashIndex_Finish h (E ++ A))) as Hsplit
    by (rewrite <- Zlen_app, <- HashIndex_Finish_app; done).
  rewrite Zlen_app in Hsplit. rewrite <- HA, <- Zlen_app, wrap_small by (unfold is_u; rewrite Zlen_app; lia).
  rewrite Eh in *. split.
  - apply HashIndex_lookup_range; [done|done|lia].
  - intros r Hr. apply HashIndex_lookup_added; [done|done|lia|done].
Qed.

Lemma lookup_interval : has_hash_index (AddAll b es) = true →
  let e := HashIndex_Lookup (num_buckets (data_block_hash_index_builder_ (AddAll b es))) (fst (Finish (AddAll b es)))
    (u32 (iter_restarts_ src + num_restarts_ src * 4)) (ExtractUserKey target) in
  e ≠ kCollision → ∃ r i, (if e =? kNoEntry then u8 (num_restarts_ src - 1) else e) = Z.of_nat r ∧ rs !! r = Some i ∧
    ∀ m y, xs !! m = Some y → same_user src target y → (i <= m < interval_end xs rs r)%nat.
Proof using Hes Hfresh Hexact.
  intros Hh e He. destruct (lookup_bucket Hh) as (Hadds & Hrange & Hset). fold e in Hrange, Hset.
  destruct (src_fields new_char wf c true g b es Hes pinned) as (_ & _ & _ & _ & _ & _ & En). rewrite En.
  destruct Hes as [Hf Hvd Hin Hst Hts Hen H8 Hsz Hg Hwf Hso].
  destruct (AddAll_built_fits b es Hf Hen Hsz) as (Hb & (S1 & S2 & S3 & S4 & S5) & Hfit).
  assert (interval b = interval (AddAll b es)) as Ei by (unfold interval; by rewrite S1).
  assert (∀ m y, xs !! m = Some y → 0 <= restart_of b m <= 253) as Hmax.
  { intros m y Hy. destruct (same_user_entry m y Hy) as (e0 & He0 & _).
    apply (proj1 (Forall_lookup _ _) Hadds m (ExtractUserKey (fst (fst e0)), restart_of b m)).
    unfold hash_adds. by rewrite list_lookup_imap, He0. }
  assert (∀ m y, xs !! m = Some y → same_user src target y → e = restart_of b m) as Hset'.
  { intros m y Hy Hu. by destruct (Hset m y Hy Hu). }
  destruct (Z.eqb_spec e kNoEntry) as [E|E].
  - exists (length (restarts_ (AddAll b es)) - 1)%nat. eexists. rewrite restart_items_lookup.
    pose proof (bt_nonempty _ _ Hb). rewrite decide_True by lia. split_and!; [|done|].
    + rewrite Zlen_length, wrap_small; [lia|]. destruct (decide (xs = [])) as [E0|E0].
      * pose proof (bt_count _ _ Hb) as Hc. pose proof (bt_counter _ _ Hb). pose proof (bt_interval _ _ Hb).
        rewrite E0 in Hc. cbn [length] in Hc. unfold is_u. nia.
      * rewrite (built_last_restart _ _ Hb E0). unfold restart_of. rewrite <- Ei. fold (restart_of b (length xs - 1)).
        destruct (lookup_lt_is_Some_2 xs (length xs - 1)) as [y Hy].
        { assert (length xs ≠ 0%nat) by (by rewrite length_zero_iff_nil). lia. }
        pose proof (Hmax _ y Hy). unfold is_u. lia.
    + intros m y Hy Hu. pose proof (Hset' m y Hy Hu). pose proof (Hmax m y Hy). unfold kNoEntry in *. lia.
  - destruct Hrange as [|[|[k Hk]]]; [done|done|]. unfold hash_adds in Hk. apply list_elem_of_lookup in Hk as [j Hj].
    rewrite list_lookup_imap in Hj. destruct (es !! j) as [e0|] eqn:Ej; [|done]. injection Hj as _ Ee.
    apply lookup_lt_Some in Ej. rewrite <- (length_items_of b es) in Ej.
    destruct (built_restart_index _ _ j Hb Ej) as (Hr & _). exists (j / interval b)%nat. eexists.
    rewrite restart_items_lookup, Ei, decide_True by done. split_and!; [by rewrite <- Ee, <- Ei|done|].
    intros m y Hy Hu. pose proof (Hset' m y Hy Hu) as Em. rewrite <- Ee in Em. unfold restart_of in Em.
    assert (m / interval b = j / interval b)%nat as Emj by lia. rewrite Ei in Emj.
    destruct (built_restart_index _ _ m Hb (lookup_lt_Some _ _ _ Hy)) as (_ & H1 & H2).
    unfold interval_end. rewrite <- Emj. split; lia.
Qed.

Lemma shown_user m x : xs !! m = Some x → ∃ e, es !! m = Some e ∧ shown src false x = visible c true g e ∧
  InternalKeyOrder.ikey_ok wf (fst (visible c true g e)) ∧
  ExtractUserKey (fst (visible c true g e)) = ExtractUserKey (fst (fst e)).
Proof using Hes target.
  intros Hx. destruct (item_entry new_char wf c true g b es Hes pinned m x Hx) as (e & He & Es & Hl & Hk & _).
  exists e. split_and!; [done|done|by apply (proj1 (Forall_lookup _ _) (de_wf _ _ _ _ _ _ Hes) m e He)|].
  destruct (same_user_entry m x Hx) as (e' & He' & Ed & _). assert (e' = e) as -> by congruence. rewrite Ed in Hl, Hk.
  destruct e as [[key value] dv]. cbn [visible fst] in *. unfold visible_key. rewrite andb_false_r.
  by apply InternalKeyOrder.override_spec; [..|apply Hes].
Qed.

Lemma user_between i j x y : xs !! i = Some x → xs !! j = Some y → (i < j)%nat → 0 <= cmp src false target x →
  same_user src target y → same_user src target x.
Proof using Hes Ht ComparatorLaws0.
  intros Hx Hy Hij Hge Hu. destruct (same_user_entry i x Hx) as (e & He & _ & ->).
  destruct (same_user_entry j y Hy) as (e' & He' & _ & Hu'). apply Hu' in Hu.
  destruct (shown_user i x Hx) as (e1 & He1 & Es & W1 & U1). assert (e1 = e) as -> by congruence.
  destruct (shown_user j y Hy) as (e2 & He2 & Es' & W2 & U2). assert (e2 = e') as -> by congruence.
  rewrite (data_cmp new_char wf c true g b es Hes pinned) in Hge by (done || by eapply list_elem_of_lookup_2).
  change (shown_key src false (it_key x)) with (fst (shown src false x)) in Hge. rewrite Es in Hge.
  pose proof (sorted_lookup _ _ (de_sorted _ _ _ _ _ _ Hes) i j e e' He He' Hij) as Hlt. cbv beta in Hlt.
  rewrite InternalKeyOrder.Compare_lex, U1 in Hge. rewrite InternalKeyOrder.Compare_lex, U1, U2 in Hlt. cbv beta in Hge, Hlt.
  destruct W1 as (_ & _ & W1), W2 as (_ & _ & W2), Ht as (_ & _ & Wt). rewrite U1 in W1. rewrite U2 in W2.
  set (u := ExtractUserKey (fst (fst e))) in *. set (u' := ExtractUserKey (fst (fst e'))) in *.
  set (ut := ExtractUserKey target) in *.
  assert (Compare c u u' <= 0) by (destruct (Z.eqb_spec (Compare c u u') 0); cbn [negb] in Hlt; lia).
  assert (0 <= Compare c u ut) by (destruct (Z.eqb_spec (Compare c u ut) 0); cbn [negb] in Hge; lia).
  pose proof (cmp_le_trans (cmp := Compare c) u u' ut W1 W2 Wt). lia.
Qed.

(** C23: a point lookup through the hash index of a data block. If it returns
    true the iterator is where [Seek] puts it; if it returns false the block has
    no entry with the user key of the target at or after the target. Blocks
    without a hash index are searched with [Seek]. *)
Theorem SeekForGet_correct :
  let entries := map (visible c true g) es in
  let compare := InternalKeyComparator.Compare c in
  let pos := at_index entries (count_while (λ e, compare (fst e) target <? 0) entries) in
  ∃ res d, SeekForGet new_char new_iter target = Some (res, d) ∧ ok (status_ (base d)) = true ∧
    if res : bool then data_shows d = cursor_shows entries pos
    else ∀ e, e ∈ entries → Compare c (ExtractUserKey (fst e)) (ExtractUserKey target) = 0 → compare (fst e) target < 0.
Proof using new_char_len Hes Hfresh Ht Hexact ComparatorLaws0.
  cbv zeta. rewrite <- (visible_items new_char wf c true g b es Hes pinned).
  pose proof (data_block_ok new_char wf c true g b es Hes pinned) as HB.
  pose proof (data_cmp new_char wf c true g b es Hes pinned) as Hcmp.
  pose proof (data_sorted new_char wf c true g b es Hes pinned target Ht) as Hsorted.
  destruct (new_iter_sim new_char new_char_len wf c true g b es Hes pinned) as [[Hp Hc] _].
  pose proof (positioned_sane _ _ _ _ _ _ Hp) as Hs.
  assert (∃ res d pos, SeekForGet new_char new_iter target = Some (res, update_key new_char d) ∧
    data_pos src xs rs d pos ∧ if res : bool then pos = pos_of xs (lower_idx src false xs target)
      else ∀ m y, xs !! m = Some y → same_user src target y → cmp src false target y < 0) as (res & d & pos & E & Hd & Hres).
  { unfold SeekForGet. destruct (data_block_hash_index_ new_iter) as [nb|] eqn:Eh.
    - destruct (new_iter_fields new_char wf c true g b es Hes pinned) as [_ Ef]. pose proof Eh as Eh'.
      rewrite Ef in Eh'. cbn [data_block_hash_index_] in Eh'. destruct (has_hash_index (AddAll b es)) eqn:Hh; [|done].
      injection Eh' as <-. pose proof (lookup_interval Hh) as Hi.
      destruct (SeekForGetImpl_spec new_char new_char_len src xs rs HB target Hsorted user_between new_iter
        (num_buckets (data_block_hash_index_builder_ (AddAll b es))) Hs Hc) as (res & d & pos & -> & Hd & Hres).
      + unfold the_data. destruct (src_fields new_char wf c true g b es Hes pinned) as (_ & _ & _ & _ & -> & _). done.
      + by exists res, d, pos.
    - destruct (DataSeekImpl_spec new_char new_char_len src xs rs HB target Hsorted new_iter Hs Hc) as (d & -> & Hd).
      by exists true, d, (pos_of xs (lower_idx src false xs target)). }
  exists res, (update_key new_char d). split; [done|].
  pose proof (sim_update new_char new_char_len src xs rs HB d pos Hd) as Hsim.
  destruct (sim_shows src xs rs HB _ _ Hsim) as [Hshow Hok]. split; [done|]. destruct res.
  - rewrite Hshow, Hres, (pos_of_entries src false xs).
    by rewrite (count_entries src false xs _ _ Hcmp (λ z, z <? 0) target Ht).
  - intros e He Hu. apply list_elem_of_fmap in He as (x & -> & Hx). apply list_elem_of_lookup in Hx as [m Hx].
    destruct (shown_user m x Hx) as (e & He & Es & _ & U). rewrite Es, U in Hu.
    destruct (same_user_entry m x Hx) as (e' & He' & _ & Hse). assert (e' = e) as -> by congruence.
    specialize (Hres m x Hx (proj2 Hse Hu)). by rewrite Hcmp in Hres by (done || by eapply list_elem_of_lookup_2).
Qed.
End GetTheorem.

#[local] Transparent ztake zdrop Zlen.

(** Six restart intervals of one entry each. *)
Module GetExample.
Import IterKeyExample (new_char, new_char_len).

Definition get_key (user : bytes) (seq : Z) : bytes := AppendInternalKey [] (mkParsed user seq kTypeValue).
Definition es : list entry := map (λ u, (get_key [u] 9, [u], None)) [10; 20; 30; 40; 50; 60].
Definition builder : BlockBuilder :=
  NewBlockBuilder 1 true false kDataBlockBinaryAndHash kDefaultUtilRatio 0 true false.
Definition iter : DataBlockIter :=
  NewDataIterator new_char (NewBlock (fst (Finish (AddAll builder es)))) BytewiseComparator
    kDisableGlobalSequenceNumber true true.

Lemma es_get_ok : data_entries bytes_ok BytewiseComparator true kDisableGlobalSequenceNumber builder es.
Proof.
  constructor; try done; [| |by left| |].
  - apply (bool_decide_unpack _). vm_compute. exact I.
  - apply (bool_decide_unpack _). vm_compute. exact I.
  - apply (bool_decide_unpack _). vm_compute. exact I.
  - repeat constructor; by vm_compute.
Qed.
Lemma es_exact (e : entry) : e ∈ es →
  Compare BytewiseComparator (ExtractUserKey (fst (fst e))) (ExtractUserKey (get_key [30] 12)) = 0 →
  ExtractUserKey (fst (fst e)) = ExtractUserKey (get_key [30] 12).
Proof.
  intros He. apply list_elem_of_fmap in He as (u & -> & Hu).
  repeat (apply elem_of_cons in Hu as [->|Hu]; [by vm_compute|]). by apply not_elem_of_nil in Hu.
Qed.

Lemma SeekForGet_correct_witness :
  ∃ res d, SeekForGet new_char iter (get_key [30] 12) = Some (res, d) ∧ ok (status_ (base d)) = true ∧
    if res : bool then data_shows d = Some (get_key [30] 9, [30])
    else ∀ e, e ∈ map (visible BytewiseComparator true kDisableGlobalSequenceNumber) es →
      Compare BytewiseComparator (ExtractUserKey (fst e)) (ExtractUserKey (get_key [30] 12)) = 0 →
      InternalKeyComparator.Compare BytewiseComparator (fst e) (get_key [30] 12) < 0.
Proof.
  apply (SeekForGet_correct new_char new_char_len bytes_ok BytewiseComparator kDisableGlobalSequenceNumber builder es
    es_get_ok eq_refl true (get_key [30] 12)); [repeat constructor; by vm_compute|exact es_exact].
Defined.

(** [SeekForGet] may return false although the target's user key is larger
    than every user key of the block, so that the entry may be in the next
    block: the bucket of the target belongs to another user key, whose interval
    is not the last. *)
Theorem SeekForGet_false_past_last :
  ∃ d, SeekForGet new_char iter (get_key [100] 7) = Some (false, d) ∧
    ∀ e : entry, e ∈ es → Compare BytewiseComparator (ExtractUserKey (fst (fst e))) [100] < 0.
Proof.
  eexists. split; [by vm_compute|]. intros e He. apply list_elem_of_fmap in He as (u & -> & Hu).
  repeat (apply elem_of_cons in Hu as [->|Hu]; [by vm_compute|]). by apply not_elem_of_nil in Hu.
Qed.
End GetExample.
