(* ===== verification/BlockMeta.v ===== *)
(** * Meta blocks

    The iterator over a meta block (the index of meta blocks, the table
    properties), whose keys are plain byte strings, implements the cursor of
    [BlockCorrect] over the entries that were added. *)

From Stdlib Require Import Sorting.Sorted.
From S2P Require Import Prelude SortedLists Status Coding Slice Comparator DbFormat IterKey.
From S2P Require Import BlockHashIndex BlockBuilder Block BlockLayout BlockScan BlockCursor BlockCorrect.
#[local] Open Scope Z_scope.
#[local] Opaque ztake zdrop Zlen.

Section MetaBlocks.
Context (new_char : Z → bytes) (new_char_len : ∀ n, 0 <= n → Zlen (new_char n) = n).

Definition meta_op (op : cursor_op) (it : BlockIter) : option BlockIter :=
  match op with
  | OpSeekToFirst => Some (MetaSeekToFirst new_char it)
  | OpSeekToLast => MetaSeekToLast new_char it
  | OpSeek target => MetaSeek new_char it target
  | OpSeekForPrev target => MetaSeekForPrev new_char it target
  | OpNext => Some (MetaNext new_char it)
  | OpPrev => MetaPrev new_char it
  end.
Fixpoint meta_run (ops : list cursor_op) (it : BlockIter) : option BlockIter :=
  match ops with
  | [] => Some it
  | op :: ops => it ← meta_op op it; meta_run ops it
  end.
Definition meta_shows (it : BlockIter) : option (bytes * bytes) :=
  if Valid it then Some (iter_key_ it, value_of it) else None.

Section Simulation.
Context (src : BlockSource) (xs : list item) (rs : list nat) (HB : block_ok src true xs rs).
Context (compare : bytes → bytes → Z) (good : bytes → Prop).
Context (Hcmp : ∀ x target, x ∈ xs → good target → cmp src true target x = compare (shown_key src true (it_key x)) target).
Context (Hsorted : ∀ target, good target → ∀ i j x y, xs !! i = Some x → xs !! j = Some y → (i < j)%nat →
           cmp src true target y <= 0 → cmp src true target x < 0).

Abbreviation entries := (map (shown src true) xs).

Definition meta_sim (it : BlockIter) (pos : option nat) : Prop :=
  positioned src true xs rs it pos ∧
  ∀ i x, pos = Some i → xs !! i = Some x → iter_key_ it = shown_key src true (it_key x).

Lemma meta_sim_update it pos : positioned src true xs rs it pos → meta_sim (UpdateKey new_char it) pos.
Proof using new_char_len HB. intros Hp. by apply (UpdateKey_pos new_char new_char_len src true xs rs HB). Qed.

Lemma meta_sim_shows it pos : meta_sim it pos → meta_shows it = cursor_shows entries pos ∧ ok (status_ it) = true.
Proof using HB.
  intros [Hp Hk]. split; [|by apply (is_status _ _ _ (positioned_sane _ _ _ _ _ _ Hp))].
  unfold meta_shows. rewrite (positioned_valid _ _ _ _ HB _ _ Hp). destruct pos as [i|].
  - destruct Hp as [x Hat]. pose proof (ai_item _ _ _ _ _ _ _ Hat) as Hx. rewrite bool_decide_eq_true_2 by done.
    cbn [cursor_shows mbind option_bind]. change (map (shown src true) xs) with (shown src true <$> xs).
    rewrite list_lookup_fmap, Hx. cbn [fmap option_fmap option_map]. unfold shown.
    by rewrite (Hk i x eq_refl Hx), (value_shown _ _ _ _ HB _ _ _ Hat).
  - by rewrite bool_decide_eq_false_2 by (by intros []).
Qed.

Lemma meta_sim_step op it pos pos' : op_good good op → meta_sim it pos →
  cursor_move compare entries op pos = Some pos' → ∃ it', meta_op op it = Some it' ∧ meta_sim it' pos'.
Proof using new_char_len HB Hcmp Hsorted.
  intros Hop [Hp _] Hm. pose proof (positioned_sane _ _ _ _ _ _ Hp) as Hs.
  pose proof (meta_decode src xs rs HB) as Hdec.
  destruct op as [| |target|target| |]; cbn [cursor_move meta_op op_good] in *.
  - injection Hm as <-. eexists. split; [reflexivity|]. apply meta_sim_update. rewrite <- pos_of_entries.
    by apply (SeekToFirstImpl_pos new_char new_char_len src true xs rs HB).
  - injection Hm as <-. unfold MetaSeekToLast.
    destruct (SeekToLastImpl_pos new_char new_char_len src true xs rs HB CheckAndDecodeEntry Hdec _ Hs) as (it' & -> & Hp').
    eexists. split; [reflexivity|]. apply meta_sim_update. rewrite length_map.
    destruct (decide (xs = [])) as [->|]; [done|].
    destruct (length xs) as [|m] eqn:El; [by apply length_zero_iff_nil in El|]. cbn [pred_pos].
    by replace (S m - 1)%nat with m in Hp' by lia.
  - injection Hm as <-. rewrite (count_entries src true xs compare good Hcmp (λ c, c <? 0)), <- pos_of_entries by done.
    destruct (SeekImpl_spec new_char new_char_len src true xs rs HB CheckAndDecodeEntry Hdec target (Hsorted target Hop) it Hs)
      as (it' & k & E & Hk & Hp'). apply seek_index_lower in Hk as ->.
    unfold MetaSeek. rewrite E. eexists. split; [reflexivity|]. by apply meta_sim_update.
  - injection Hm as <-. rewrite (count_entries src true xs compare good Hcmp (λ c, c <=? 0)) by done.
    destruct (MetaSeekForPrevImpl_spec new_char new_char_len src xs rs HB target (Hsorted target Hop) it Hs)
      as (it' & E & Hp').
    unfold MetaSeekForPrev. rewrite E. eexists. split; [reflexivity|]. by apply meta_sim_update.
  - destruct pos as [i|]; [|done]. injection Hm as <-. destruct Hp as [x Hat]. eexists. split; [reflexivity|].
    apply meta_sim_update. rewrite <- pos_of_entries.
    by eapply (NextImpl_pos new_char new_char_len src true xs rs HB).
  - destruct pos as [i|]; [|done]. injection Hm as <-. destruct Hp as [x Hat].
    destruct (MetaPrevImpl_spec new_char new_char_len src xs rs HB it i x Hat) as (it' & E & Hp').
    unfold MetaPrev. rewrite E. eexists. split; [reflexivity|]. by apply meta_sim_update.
Qed.

Lemma meta_sim_run ops : Forall (op_good good) ops → ∀ it pos pos', meta_sim it pos →
  cursor_run compare entries ops pos = Some pos' → ∃ it', meta_run ops it = Some it' ∧ meta_sim it' pos'.
Proof using new_char_len HB Hcmp Hsorted.
  induction 1 as [|op ops Hop Hops IH]; intros it pos pos' Hs Hr; cbn [cursor_run meta_run] in *.
  - injection Hr as <-. eauto.
  - destruct (cursor_move compare entries op pos) as [p|] eqn:Em; [|done].
    destruct (meta_sim_step op it pos p Hop Hs Em) as (it1 & -> & Hs1). cbn [mbind option_bind] in *. by apply (IH it1 p).
Qed.
End Simulation.
End MetaBlocks.

(** Entries that a meta block can be built of, in the order of their bytes. *)
Record meta_entries (b : BlockBuilder) (es : list entry) : Prop := {
  me_fresh : fresh b;
  me_values : use_value_delta_encoding_ b = false;
  me_strip : strip_ts_sz_ b = 0;
  me_entries : Forall (entry_ok b) es;
  me_size : Zlen (fst (Finish (AddAll b es))) < 2 ^ 32;
  me_sorted : StronglySorted (λ e e' : entry, slice_compare (fst (fst e)) (fst (fst e')) < 0) es
}.

Section MetaBlockTheorem.
Context (new_char : Z → bytes) (new_char_len : ∀ n, 0 <= n → Zlen (new_char n) = n).
Context (b : BlockBuilder) (es : list entry) (Hes : meta_entries b es).
Context (pinned : bool).

Abbreviation new_iter := (NewMetaIterator new_char (NewBlock (fst (Finish (AddAll b es)))) pinned).
Abbreviation src := (source_ new_iter).
Abbreviation xs := (items_of b es).

Lemma meta_iter_fields :
  new_iter = set_raw_key (InitializeBase (NewBlockIter new_char true) BytewiseComparator (fst (Finish (AddAll b es)))
    (Zlen (enc_items false xs)) (Zlen (restarts_ (AddAll b es))) kDisableGlobalSequenceNumber pinned true 0)
    (SetIsUserKey (NewIterKey new_char) true).
Proof using Hes.
  destruct Hes as [Hf Hvd Hst Hen Hsz Hso].
  destruct (AddAll_built_fits b es Hf Hen Hsz) as (Hb & Hs & Hfit). pose proof Hs as (S1 & S2 & S3 & S4 & S5).
  rewrite (NewBlock_Finish _ _ Hb Hsz), <- S3, Hvd.
  destruct (restarts_fit _ _ Hb Hsz) as [HR1 HR]. pose proof (Finish_min_size _ _ Hb).
  unfold NewMetaIterator. cbn [size_ block_num_restarts_ contents_ restart_offset_ num_buckets_].
  destruct (Z.ltb_spec (Zlen (fst (Finish (AddAll b es)))) (2 * 4)) as [Hlt|_]; [lia|].
  destruct (Z.eqb_spec (Zlen (restarts_ (AddAll b es))) 0); [lia|]. done.
Qed.

Lemma meta_src_fields : icmp_ src = BytewiseComparator ∧ pad_min_timestamp_ src = false ∧ ts_sz_ src = 0 ∧
  data_ src = Some (fst (Finish (AddAll b es))) ∧ iter_restarts_ src = Zlen (enc_items false xs) ∧
  num_restarts_ src = Zlen (restarts_ (AddAll b es)).
Proof using Hes. by rewrite meta_iter_fields. Qed.

Lemma meta_shown i e : es !! i = Some e → ∃ x, xs !! i = Some x ∧ shown src true x = fst e ∧
  shown_key src true (it_key x) = it_key x.
Proof using Hes.
  destruct e as [[key value] dv]. intros He.
  destruct (items_of_lookup b es i key value dv He) as (x & Hx & Hk & Hv). exists x. split; [done|].
  destruct meta_src_fields as (_ & Epad & _). unfold shown, shown_key, decoded_key. rewrite Epad. split; [|done].
  rewrite Hv by apply Hes. rewrite Hk. unfold MaybeStripTimestampFromKey. by rewrite (me_strip _ _ Hes).
Qed.
Lemma meta_visible : map (shown src true) xs = map fst es.
Proof using Hes.
  apply list_eq. intros i. rewrite !list_lookup_fmap.
  destruct (es !! i) as [e|] eqn:He.
  - destruct (meta_shown i e He) as (x & -> & Hs & _). cbn. by rewrite Hs.
  - apply lookup_ge_None in He. rewrite <- (length_items_of b es) in He. by apply lookup_ge_None in He as ->.
Qed.

Lemma meta_block_ok : block_ok src true xs (restart_items (AddAll b es)).
Proof using Hes.
  destruct meta_src_fields as (_ & _ & Ets & Ed & Er & En). pose proof Hes as [Hf Hvd Hst Hen Hsz Hso].
  destruct (AddAll_built_fits b es Hf Hen Hsz) as (Hb & Hs & Hfit). pose proof Hs as (S1 & S2 & S3 & S4 & S5).
  apply built_block_ok; try done; [congruence|by rewrite Ets].
Qed.

Lemma meta_cmp x target : x ∈ xs → bytes_ok target →
  cmp src true target x = slice_compare (shown_key src true (it_key x)) target.
Proof using Hes. intros _ _. unfold cmp, key_compare. by destruct meta_src_fields as (-> & _). Qed.

Lemma meta_sorted target : bytes_ok target → ∀ i j x y, xs !! i = Some x → xs !! j = Some y → (i < j)%nat →
  cmp src true target y <= 0 → cmp src true target x < 0.
Proof using Hes.
  intros Ht i j x y Hx Hy Hij. rewrite !meta_cmp by (done || by eapply list_elem_of_lookup_2).
  assert (∀ i x, xs !! i = Some x → ∃ e, es !! i = Some e ∧ shown_key src true (it_key x) = fst (fst e) ∧
    bytes_ok (fst (fst e))) as Hlk.
  { intros k z Hz. pose proof (lookup_lt_Some _ _ _ Hz) as Hlt. rewrite length_items_of in Hlt.
    destruct (lookup_lt_is_Some_2 es k Hlt) as [e He]. exists e. split; [done|].
    destruct (meta_shown k e He) as (z' & Hz' & Es & _). assert (z' = z) as -> by congruence. split.
    - by rewrite <- Es.
    - pose proof (proj1 (Forall_lookup _ _) (me_entries _ _ Hes) k e He) as Hok. destruct e as [[? ?] ?]. apply Hok. }
  destruct (Hlk i x Hx) as (e & He & -> & B1). destruct (Hlk j y Hy) as (e' & He' & -> & B2).
  apply (cmp_lt_le_trans (wf := bytes_ok) (cmp := Compare BytewiseComparator)); [done..|].
  exact (sorted_lookup _ _ (me_sorted _ _ Hes) i j e e' He He' Hij).
Qed.

Lemma meta_iter_sim : meta_sim src xs (restart_items (AddAll b es)) new_iter None.
Proof using Hes new_char_len.
  assert (iter_ok (NewIterKey new_char)) as Hk.
  { unfold NewIterKey, iter_ok, key_data. cbn. rewrite new_char_len by lia. lia. }
  destruct meta_src_fields as (_ & _ & _ & _ & Er & _). split; [|done].
  split; [|unfold Valid; rewrite Er, meta_iter_fields; apply Z.ltb_irrefl].
  constructor; [done|..]; rewrite meta_iter_fields; [by split|done|done|apply Zlen_nonneg].
Qed.

(** C24: an iterator over a meta block behaves under every sequence of movements
    (where Next and Prev are only called on a valid iterator) like a cursor over
    the list of the entries that were added to the block, in the order of their
    bytes, and never reports an error. *)
Theorem meta_block_refines_cursor ops pos :
  Forall (op_good bytes_ok) ops →
  let entries := map fst es in
  cursor_run slice_compare entries ops None = Some pos →
  ∃ it, meta_run new_char ops new_iter = Some it ∧ meta_shows it = cursor_shows entries pos ∧
    ok (status_ it) = true.
Proof using new_char_len Hes.
  intros Hops. cbv zeta. rewrite <- meta_visible. intros Hr.
  destruct (meta_sim_run new_char new_char_len src xs _ meta_block_ok slice_compare bytes_ok meta_cmp meta_sorted
    ops Hops _ _ _ meta_iter_sim Hr) as (it & E & Hs).
  exists it. split; [done|]. by apply (meta_sim_shows src xs _ meta_block_ok).
Qed.
End MetaBlockTheorem.

#[local] Transparent ztake zdrop Zlen.

(** A meta index block, with a restart point for every entry. *)
Module MetaExample.
Import IterKeyExample (new_char, new_char_len).

Definition es : list entry := [([97; 46], [1], None); ([97; 46; 98], [2; 2], None); ([99], [], None)].
Definition builder : BlockBuilder := NewBlockBuilder 1 true false kDataBlockBinarySearch kDefaultUtilRatio 0 true false.

Lemma es_meta_ok : meta_entries builder es.
Proof.
  constructor; try done.
  - apply (bool_decide_unpack _). vm_compute. exact I.
  - repeat constructor; by vm_compute.
Qed.

Definition iter : BlockIter := NewMetaIterator new_char (NewBlock (fst (Finish (AddAll builder es)))) true.

Lemma meta_block_refines_cursor_witness :
  ∃ it, meta_run new_char [OpSeek [97; 47]; OpPrev; OpPrev; OpNext] iter = Some it ∧
    meta_shows it = Some ([97; 46; 98], [2; 2]) ∧ ok (status_ it) = true.
Proof.
  apply (meta_block_refines_cursor new_char new_char_len builder es es_meta_ok true
    [OpSeek [97; 47]; OpPrev; OpPrev; OpNext] (Some 1%nat)); [|by vm_compute].
  repeat constructor; by vm_compute.
Defined.
End MetaExample.
