(* ===== verification/BlockEdge.v ===== *)
(** * Blocks: sizes, and the edges of the format

    The size estimate of a builder is the size of the block; and three places
    where the code does not do what is said of it: a builder that is reset, an
    entry and a footer whose lengths wrap around. *)

From S2P Require Import Prelude Status Coding Slice Comparator DbFormat IterKey.
From S2P Require Import BlockHashIndex BlockBuilder Block BlockLayout.
#[local] Open Scope Z_scope.
#[local] Opaque ztake zdrop Zlen.

Lemma Finish_set_last_key b l : fst (Finish (set_last_key b l)) = fst (Finish b).
Proof.
  unfold Finish. change (CurrentSizeEstimate (set_last_key b l)) with (CurrentSizeEstimate b).
  cbn [set_last_key data_block_hash_index_builder_ buffer_ restarts_]. by destruct (_ && _).
Qed.

(** The block that is built of some entries does not depend on whether the
    caller passes the last key or the builder keeps it, and the builder's size
    estimate is the size of the finished block, unless the block became too
    large for the hash index it was to have. *)
Theorem builder_size_estimate b es : fresh b → Forall (entry_ok b) es →
  Zlen (fst (Finish (AddAll b es))) < 2 ^ 32 →
  fst (Finish (AddAllWithLastKey b [] es)) = fst (Finish (AddAll b es)) ∧
  Zlen (fst (Finish (AddAll b es))) =
    if HashIndex_Valid (data_block_hash_index_builder_ (AddAll b es))
       && negb (CurrentSizeEstimate (AddAll b es) <=? kMaxBlockSizeSupportedByHashIndex)
    then CurrentSizeEstimate (AddAll b es) - HashIndex_EstimateSize (data_block_hash_index_builder_ (AddAll b es))
    else CurrentSizeEstimate (AddAll b es).
Proof.
  intros Hf Hes Hsize. destruct (AddAll_built_fits b es Hf Hes Hsize) as (Hb & _ & Hfit). split.
  - assert (b = set_last_key b []) as Eb.
    { unfold set_last_key. destruct Hf as (_ & _ & _ & _ & _ & E5). destruct b. cbn in *. by rewrite E5. }
    pose proof (AddAllWithLastKey_AddAll b b [] [] es Hf Hes Hfit Eb ltac:(done)) as E.
    apply (f_equal (λ b, fst (Finish b))) in E. by rewrite !Finish_set_last_key in E.
  - rewrite (Finish_size _ _ Hb). unfold has_hash_index, CurrentSizeEstimate.
    destruct (HashIndex_Valid _); cbn [andb]; [|lia]. destruct (_ <=? _); cbn [negb]; lia.
Qed.

(** A builder whose hash index was given up, because the block got more than
    253 restart points, does not use one again after [Reset], while a new
    builder with the same options does: [Reset] is not "as if the BlockBuilder
    was just constructed". *)
Theorem Reset_keeps_hash_index_off b key r : kMaxRestartSupportedByHashIndex < r →
  let b' := Reset (mkBuilder (block_restart_interval_ b) (use_delta_encoding_ b) (use_value_delta_encoding_ b)
    (strip_ts_sz_ b) (builder_is_user_key_ b) (buffer_ b) (restarts_ b) (estimate_ b) (counter_ b) (finished_ b)
    (last_key_ b) (HashIndex_Add (data_block_hash_index_builder_ b) key r)) in
  HashIndex_Valid (data_block_hash_index_builder_ b') = false ∧
  HashIndex_Valid (data_block_hash_index_builder_
    (NewBlockBuilder 1 true false kDataBlockBinaryAndHash kDefaultUtilRatio 0 true false)) = true.
Proof.
  intros Hr. cbv zeta. split; [|by vm_compute]. unfold Reset. cbn [data_block_hash_index_builder_].
  unfold HashIndex_Add. destruct (Z.ltb_spec kMaxRestartSupportedByHashIndex r); [|lia]. done.
Qed.

(** [CheckAndDecodeEntry] accepts an entry whose key runs past the end of the
    block: the sum of the two lengths is a 32-bit number that wraps around. *)
Theorem CheckAndDecodeEntry_wraps value_length rest : 1 <= value_length < 2 ^ 32 → bytes_ok rest →
  Zlen rest < 2 ^ 32 - value_length →
  CheckAndDecodeEntry (EncodeVarint32 0 ++ EncodeVarint32 (2 ^ 32 - value_length) ++ EncodeVarint32 value_length ++ rest)
    = Some (0, 2 ^ 32 - value_length, value_length, rest).
Proof.
  intros Hv Hrest Hlen. unfold CheckAndDecodeEntry.
  rewrite DecodeEntry_varints by (done || unfold is_u; lia). cbn [mbind option_bind].
  rewrite !Zlen_app. pose proof (Zlen_EncodeVarint32 0). pose proof (Zlen_EncodeVarint32 (2 ^ 32 - value_length)).
  pose proof (Zlen_EncodeVarint32 value_length). pose proof (Zlen_nonneg rest).
  destruct (Z.ltb_spec (Zlen (EncodeVarint32 0) + (Zlen (EncodeVarint32 (2 ^ 32 - value_length)) +
    (Zlen (EncodeVarint32 value_length) + Zlen rest))) 3); [lia|].
  replace (2 ^ 32 - value_length + value_length) with (2 ^ 32) by lia. change (u32 (2 ^ 32)) with 0.
  destruct (Z.ltb_spec (u32 (Zlen rest)) 0) as [Hneg|]; [|done].
  pose proof (wrap_range 32 (Zlen rest) ltac:(lia)). unfold is_u in *. lia.
Qed.

(** A small block whose footer says that it has a billion restart points is
    accepted: four times their number wraps around. *)
Theorem NewBlock_restarts_wrap pre n : 0 <= n → (1 + n) * 4 <= Zlen pre + 4 <= kMaxBlockSizeSupportedByHashIndex →
  bytes_ok pre →
  let block := NewBlock (pre ++ EncodeFixed32 (2 ^ 30 + n)) in
  size_ block = Zlen pre + 4 ∧ block_num_restarts_ block = 2 ^ 30 + n ∧ size_ block < block_num_restarts_ block.
Proof.
  intros Hn Hsize Hpre. cbv zeta. unfold kMaxBlockSizeSupportedByHashIndex in Hsize. change (Z.shiftl 1 16) with 65536 in Hsize.
  assert (PackIndexTypeAndNumRestarts kDataBlockBinarySearch (2 ^ 30 + n) = 2 ^ 30 + n) as Hpack by done.
  assert (is_u 31 (2 ^ 30 + n)) as H31 by (unfold is_u; lia).
  destruct (UnPack_footer kDataBlockBinarySearch (2 ^ 30 + n) H31) as [Hun _]. rewrite Hpack in Hun.
  set (contents := pre ++ EncodeFixed32 (2 ^ 30 + n)).
  assert (Zlen contents = Zlen pre + 4) as Hlen by (unfold contents; by rewrite Zlen_app, Zlen_EncodeFixed32).
  assert (DecodeFixed32 (zdrop (Zlen contents - 4) contents) = 2 ^ 30 + n) as Hfoot.
  { rewrite Hlen. unfold contents. rewrite zdrop_app by lia. rewrite <- (app_nil_r (EncodeFixed32 _)).
    apply DecodeFixed32_Encode. unfold is_u. lia. }
  pose proof (Zlen_nonneg pre) as Hp0.
  unfold NewBlock, IndexType, NumRestarts, kMaxBlockSizeSupportedByHashIndex. rewrite Hfoot, Hlen, Hun.
  change (Z.shiftl 1 16) with 65536. destruct (Z.ltb_spec (Zlen pre + 4) 4); [lia|].
  destruct (Z.ltb_spec 65536 (Zlen pre + 4)); [lia|]. cbn [fst snd size_ block_num_restarts_].
  assert (u32 (u32 (Zlen pre + 4) - u32 (1 + (2 ^ 30 + n)) * 4) = Zlen pre + 4 - (1 + n) * 4) as ->.
  { rewrite (wrap_small 32 (Zlen pre + 4)), (wrap_small 32 (1 + _)) by (unfold is_u; lia).
    replace (Zlen pre + 4 - (1 + (2 ^ 30 + n)) * 4) with (Zlen pre + 4 - (1 + n) * 4 + (-1) * 2 ^ 32) by lia.
    unfold wrap. rewrite Z.mod_add by lia. apply Z.mod_small. lia. }
  destruct (Z.ltb_spec (Zlen pre + 4 - 4) (Zlen pre + 4 - (1 + n) * 4)); [lia|]. lia.
Qed.

#[local] Transparent ztake zdrop Zlen.

Module EdgeExample.
Definition builder : BlockBuilder :=
  NewBlockBuilder 2 true false kDataBlockBinaryAndHash kDefaultUtilRatio 0 true false.
Definition es : list entry := [([97], [1], None); ([97; 98], [2; 2], None); ([99], [], None)].

Lemma builder_size_estimate_witness :
  fst (Finish (AddAllWithLastKey builder [] es)) = fst (Finish (AddAll builder es)) ∧
  Zlen (fst (Finish (AddAll builder es))) = CurrentSizeEstimate (AddAll builder es).
Proof.
  apply (builder_size_estimate builder es); [done| |by vm_compute].
  apply (bool_decide_unpack _). by vm_compute.
Defined.

Lemma Reset_keeps_hash_index_off_witness :
  HashIndex_Valid (HashIndex_Add (data_block_hash_index_builder_ builder) [97] 254) = false ∧
  HashIndex_Valid (data_block_hash_index_builder_
    (NewBlockBuilder 1 true false kDataBlockBinaryAndHash kDefaultUtilRatio 0 true false)) = true.
Proof. apply (Reset_keeps_hash_index_off builder [97] 254). by vm_compute. Defined.

Lemma CheckAndDecodeEntry_wraps_witness :
  CheckAndDecodeEntry ([0; 253; 255; 255; 255; 15; 3] ++ [1; 2; 3]) = Some (0, 2 ^ 32 - 3, 3, [1; 2; 3]).
Proof.
  apply (CheckAndDecodeEntry_wraps 3 [1; 2; 3]); [done| |by vm_compute]. apply (bool_decide_unpack _). by vm_compute.
Defined.

Lemma NewBlock_restarts_wrap_witness :
  let block := NewBlock ([0; 0; 0; 0] ++ [1; 0; 0; 64]) in
  size_ block = 8 ∧ block_num_restarts_ block = 2 ^ 30 + 1 ∧ size_ block < block_num_restarts_ block.
Proof.
  apply (NewBlock_restarts_wrap [0; 0; 0; 0] 1); [done|by vm_compute|]. apply (bool_decide_unpack _). by vm_compute.
Defined.
End EdgeExample.
