(* ===== verification/WideColumns.v ===== *)
(** * Wide columns

    [WideColumnSerialization] (db/wide/wide_column_serialization.cc): the value
    of an entity, a list of named columns in the order of their names. *)

From Stdlib Require Import Sorting.Sorted.
From S2P Require Import Prelude SortedLists Status Slice Coding.
#[local] Open Scope Z_scope.

Record WideColumn := mkColumn { column_name : bytes; column_value : bytes }.

Definition kDefaultWideColumnName : bytes := [].
Definition kCurrentVersion : Z := 1.
Definition uint32_max : Z := 2 ^ 32 - 1.

(** [SerializeImpl] writes an index of names and sizes, then the values. After an
    error the output holds what was written before it. *)
Fixpoint put_index (prev_name : option bytes) (columns : list WideColumn) (output : bytes) : Status * bytes :=
  match columns with
  | [] => (Status_OK, output)
  | column :: columns =>
      let name := column_name column in
      let value := column_value column in
      if uint32_max <? Zlen name then (Status_InvalidArgument "Wide column name too long", output)
      else if match prev_name with Some prev => 0 <=? slice_compare prev name | None => false end
      then (Status_Corruption "Wide columns out of order", output)
      else if uint32_max <? Zlen value then (Status_InvalidArgument "Wide column value too long", output)
      else put_index (Some name) columns (PutVarint32 (PutLengthPrefixedSlice output name) (u32 (Zlen value)))
  end.

Definition SerializeImpl (value_of_default : option bytes) (columns : list WideColumn) (output : bytes) :
    Status * bytes :=
  let num_columns := match value_of_default with Some _ => Zlen columns + 1 | None => Zlen columns end in
  if uint32_max <? num_columns then (Status_InvalidArgument "Too many wide columns", output)
  else
    let output := PutVarint32 output kCurrentVersion in
    let output := PutVarint32 output (u32 num_columns) in
    let '(s, prev_name, output) :=
      match value_of_default with
      | Some value =>
          if uint32_max <? Zlen value then (Status_InvalidArgument "Wide column value too long", None, output)
          else (Status_OK, Some kDefaultWideColumnName,
                PutVarint32 (PutLengthPrefixedSlice output kDefaultWideColumnName) (u32 (Zlen value)))
      | None => (Status_OK, None, output)
      end in
    if negb (ok s) then (s, output)
    else
      let '(s, output) := put_index prev_name columns output in
      if negb (ok s) then (s, output)
      else
        let output := output ++ default [] value_of_default in
        (Status_OK, fold_left (λ output column, output ++ column_value column) columns output).

Definition Serialize (columns : list WideColumn) (output : bytes) : Status * bytes :=
  SerializeImpl None columns output.
Definition Serialize_default (value_of_default : bytes) (other_columns : list WideColumn) (output : bytes) :
    Status * bytes := SerializeImpl (Some value_of_default) other_columns output.

(** The first loop of [Deserialize]: the names, with empty values, and the sizes. *)
Fixpoint read_index (n : nat) (columns : list WideColumn) (sizes : list Z) (input : bytes) :
    Status * list WideColumn * list Z * bytes :=
  match n with
  | O => (Status_OK, columns, sizes, input)
  | S n =>
      match GetLengthPrefixedSlice input with
      | None => (Status_Corruption "Error decoding wide column name", columns, sizes, input)
      | Some (name, input) =>
          if match last columns with Some prev => 0 <=? slice_compare (column_name prev) name | None => false end
          then (Status_Corruption "Wide columns out of order", columns, sizes, input)
          else
            let columns := columns ++ [mkColumn name []] in
            match GetVarint32 input with
            | None => (Status_Corruption "Error decoding wide column value size", columns, sizes, input)
            | Some (value_size, input) => read_index n columns (sizes ++ [value_size]) input
            end
      end
  end.

(** The second loop, over the columns and their sizes. *)
Fixpoint read_values (columns : list WideColumn) (sizes : list Z) (data : bytes) (pos : Z) : Status * list WideColumn :=
  match columns, sizes with
  | column :: columns, value_size :: sizes =>
      if Zlen data <? pos + value_size
      then (Status_Corruption "Error decoding wide column value payload", column :: columns)
      else
        let '(s, columns) := read_values columns sizes data (pos + value_size) in
        (s, mkColumn (column_name column) (ztake value_size (zdrop pos data)) :: columns)
  | _, _ => (Status_OK, columns)
  end.

(** The status, the rest of the input and the columns. After an error the input
    is given as it was before the read that failed. *)
Definition Deserialize (input : bytes) : Status * bytes * list WideColumn :=
  match GetVarint32 input with
  | None => (Status_Corruption "Error decoding wide column version", input, [])
  | Some (version, input) =>
      if kCurrentVersion <? version then (Status_NotSupported "Unsupported wide column version", input, [])
      else
        match GetVarint32 input with
        | None => (Status_Corruption "Error decoding number of wide columns", input, [])
        | Some (num_columns, input) =>
            if num_columns =? 0 then (Status_OK, input, [])
            else
              let '(s, columns, sizes, input) := read_index (Z.to_nat num_columns) [] [] input in
              if negb (ok s) then (s, input, columns)
              else let '(s, columns) := read_values columns sizes input 0 in (s, input, columns)
        end
  end.

(** [None] is [columns.cend()]. *)
Definition Find (columns : list WideColumn) (column_name_ : bytes) : option nat :=
  let it := count_while (λ lhs, slice_compare (column_name lhs) column_name_ <? 0) columns in
  match columns !! it with
  | None => None
  | Some c => if negb (slice_eq (column_name c) column_name_) then None else Some it
  end.

Definition GetValueOfDefaultColumn (input : bytes) : Status * bytes * bytes :=
  let '(s, input, columns) := Deserialize input in
  if negb (ok s) then (s, input, [])
  else match columns with
       | c :: _ => if negb (slice_eq (column_name c) kDefaultWideColumnName) then (Status_OK, input, [])
                   else (Status_OK, input, column_value c)
       | [] => (Status_OK, input, [])
       end.

(** ** Lemmas *)

Definition column_ok (c : WideColumn) : Prop := Zlen (column_name c) < 2 ^ 32 ∧ Zlen (column_value c) < 2 ^ 32.
Definition name_lt (a b : WideColumn) : Prop := slice_compare (column_name a) (column_name b) < 0.
Definition after (prev : option bytes) (columns : list WideColumn) : Prop :=
  match prev, columns with
  | Some n, c :: _ => slice_compare n (column_name c) < 0
  | _, _ => True
  end.
(** Columns that have an encoding. *)
Definition columns_ok (columns : list WideColumn) : Prop := Forall column_ok columns ∧ Sorted name_lt columns.

Definition enc_index (columns : list WideColumn) : bytes :=
  concat (map (λ c, PutLengthPrefixedSlice [] (column_name c) ++ EncodeVarint32 (Zlen (column_value c))) columns).
Definition payload (columns : list WideColumn) : bytes := concat (map column_value columns).
Definition blank (c : WideColumn) : WideColumn := mkColumn (column_name c) [].

Lemma put_index_spec prev columns output :
  (ok (fst (put_index prev columns output)) = true ↔ columns_ok columns ∧ after prev columns) ∧
  (columns_ok columns → after prev columns → put_index prev columns output = (Status_OK, output ++ enc_index columns)).
Proof.
  revert prev output. induction columns as [|c columns IH]; intros prev output; cbn [put_index].
  { split; [|by rewrite app_nil_r]. split; [|done]. intros _. by repeat constructor; destruct prev. }
  unfold uint32_max in *. pose proof (Zlen_nonneg (column_name c)). pose proof (Zlen_nonneg (column_value c)).
  set (out' := PutVarint32 (PutLengthPrefixedSlice output (column_name c)) (u32 (Zlen (column_value c)))).
  destruct (IH (Some (column_name c)) out') as [IH1 IH2].
  assert (columns_ok (c :: columns) ↔ column_ok c ∧ columns_ok columns ∧ after (Some (column_name c)) columns) as Hcons.
  { unfold columns_ok. rewrite Forall_cons. split.
    - intros ((? & ?) & Hs). apply Sorted_inv in Hs as [? Hr]. split_and!; [done..|]. by destruct Hr.
    - intros (? & (? & ?) & Ha). split; [done|]. constructor; [done|]. destruct columns; by constructor. }
  rewrite Hcons. unfold column_ok. destruct (Z.ltb_spec (2 ^ 32 - 1) (Zlen (column_name c))).
  { split; [split; [done|lia]|lia]. }
  destruct (match prev with Some prev => 0 <=? slice_compare prev (column_name c) | None => false end) eqn:Eb.
  { assert (¬ after prev (c :: columns)) by (destruct prev; cbn; [apply Z.leb_le in Eb; lia|done]).
    split; [|tauto]. split; [done|tauto]. }
  assert (after prev (c :: columns)) as Ha by (destruct prev; cbn; [apply Z.leb_gt in Eb; lia|done]).
  destruct (Z.ltb_spec (2 ^ 32 - 1) (Zlen (column_value c))).
  { split; [split; [done|lia]|lia]. }
  split; [rewrite IH1; intuition lia|]. intros (_ & Hc & Hn) _. rewrite (IH2 Hc Hn). f_equal.
  unfold out', PutVarint32. rewrite PutLengthPrefixedSlice_app, wrap_small by (unfold is_u; lia).
  cbn [enc_index map concat]. by rewrite <- !app_assoc.
Qed.

Lemma read_index_enc columns acc sizes rest : columns_ok columns →
  after (column_name <$> last acc) columns →
  read_index (length columns) acc sizes (enc_index columns ++ rest) =
    (Status_OK, acc ++ map blank columns, sizes ++ map (λ c, Zlen (column_value c)) columns, rest).
Proof.
  revert acc sizes. induction columns as [|c columns IH]; intros acc sizes [Hok Hs] Ha.
  { cbn. by rewrite !app_nil_r. }
  apply Forall_cons in Hok as [[Hn Hv] Hok]. apply Sorted_inv in Hs as [Hs Hr].
  pose proof (Zlen_nonneg (column_value c)).
  cbn [length read_index enc_index map concat]. fold (enc_index columns). rewrite <- !app_assoc.
  rewrite (round_trip (dec := GetLengthPrefixedSlice) (column_name c)) by done.
  replace (match last acc with Some prev => 0 <=? slice_compare (column_name prev) (column_name c) | None => false end)
    with false.
  2: { destruct (last acc) as [p|]; [|done]. cbn in Ha. symmetry. apply Z.leb_gt. lia. }
  rewrite (round_trip (dec := GetVarint32) (Zlen (column_value c))) by (unfold is_u; lia).
  rewrite IH; [by rewrite <- !app_assoc|by split|]. rewrite last_snoc. cbn. by destruct Hr.
Qed.

Lemma read_values_payload columns pre rest :
  read_values (map blank columns) (map (λ c, Zlen (column_value c)) columns) (pre ++ payload columns ++ rest) (Zlen pre) =
    (Status_OK, columns).
Proof.
  revert pre. induction columns as [|c columns IH]; intros pre; [done|].
  cbn [map read_values payload concat]. fold (payload columns). set (v := column_value c).
  pose proof (Zlen_nonneg (payload columns)). pose proof (Zlen_nonneg rest).
  destruct (Z.ltb_spec (Zlen (pre ++ (v ++ payload columns) ++ rest)) (Zlen pre + Zlen v)) as [Hlt|_];
    [rewrite !Zlen_app in Hlt; lia|].
  replace (pre ++ (v ++ payload columns) ++ rest) with ((pre ++ v) ++ payload columns ++ rest) by (by rewrite <- !app_assoc).
  rewrite <- Zlen_app, IH. f_equal. destruct c as [n v']. cbn in v. unfold v, blank. cbn.
  rewrite <- !app_assoc, zdrop_app by done. by rewrite ztake_app.
Qed.

Lemma fold_values columns output : fold_left (λ output column, output ++ column_value column) columns output =
  output ++ payload columns.
Proof.
  revert output. induction columns as [|c columns IH]; intros output; [by rewrite app_nil_r|]. cbn [fold_left].
  rewrite IH. cbn [payload map concat]. by rewrite <- app_assoc.
Qed.

Definition encoded (columns : list WideColumn) : bytes :=
  EncodeVarint32 kCurrentVersion ++ EncodeVarint32 (Zlen columns) ++ enc_index columns ++ payload columns.

Lemma Serialize_spec columns output :
  (ok (fst (Serialize columns output)) = true ↔ Zlen columns < 2 ^ 32 ∧ columns_ok columns) ∧
  (Zlen columns < 2 ^ 32 → columns_ok columns → Serialize columns output = (Status_OK, output ++ encoded columns)).
Proof.
  unfold Serialize, SerializeImpl, uint32_max. pose proof (Zlen_nonneg columns).
  destruct (Z.ltb_spec (2 ^ 32 - 1) (Zlen columns)); [split; [split; [done|lia]|lia]|]. cbn [ok Status_OK code_ negb].
  set (out := PutVarint32 _ _). destruct (put_index_spec None columns out) as [H1 H2].
  destruct (put_index None columns out) as [s out'] eqn:E. cbn [fst] in H1. split.
  - split; [|intros [_ Hc]; by rewrite (proj2 H1 ltac:(by split))]. intros Hs. split; [lia|].
    destruct (ok s) eqn:Es; [by apply H1|]. cbn in Hs. congruence.
  - intros Hn Hc. specialize (H2 Hc I). injection H2 as -> ->. cbn [ok Status_OK code_ negb default].
    rewrite fold_values, app_nil_r. unfold out, encoded, PutVarint32. rewrite wrap_small by (unfold is_u; lia).
    by rewrite <- !app_assoc.
Qed.

Lemma Deserialize_encoded columns : Zlen columns < 2 ^ 32 → columns_ok columns →
  Deserialize (encoded columns) = (Status_OK, payload columns, columns).
Proof.
  intros Hn Hc. unfold Deserialize, encoded. pose proof (Zlen_nonneg columns).
  rewrite (round_trip (dec := GetVarint32) kCurrentVersion) by done.
  change (kCurrentVersion <? kCurrentVersion) with false. cbn match.
  rewrite (round_trip (dec := GetVarint32) (Zlen columns)) by (unfold is_u; lia).
  destruct (Z.eqb_spec (Zlen columns) 0) as [E|_].
  { rewrite Zlen_length in E. destruct columns; [done|cbn in E; lia]. }
  rewrite Zlen_length, Nat2Z.id. rewrite read_index_enc by done. cbn [app ok Status_OK code_ negb].
  pose proof (read_values_payload columns [] []) as Hv. rewrite app_nil_r in Hv. cbn [app] in Hv.
  change (Zlen []) with 0 in Hv. by rewrite Hv.
Qed.

Lemma Find_spec columns n i : Sorted name_lt columns →
  Find columns n = Some i ↔ ∃ c, columns !! i = Some c ∧ column_name c = n.
Proof.
  intros Hs. apply Sorted_StronglySorted in Hs; [|intros a b c; unfold name_lt;
    by apply (cmp_lt_trans (cmp := slice_compare) (wf := λ _ : bytes, True))].
  unfold Find. set (p := λ lhs, slice_compare (column_name lhs) n <? 0). split.
  - destruct (columns !! count_while p columns) as [c|] eqn:E; [|done].
    destruct (slice_eq (column_name c) n) eqn:En; [|done]. intros [= <-]. exists c. split; [done|]. by apply slice_eq_spec.
  - intros (c & Hc & <-). pose proof (cmp_refl (cmp := slice_compare) (wf := λ _ : bytes, True) (column_name c) I) as Hrefl.
    assert (count_while p columns = i) as ->.
    { apply count_while_unique; [by apply Nat.lt_le_incl, lookup_lt_is_Some; eauto| |].
      - intros j x Hj Hlt. apply Z.ltb_lt. exact (sorted_lookup _ _ Hs j i x c Hj Hc Hlt).
      - intros x Hx. assert (x = c) as -> by congruence. unfold p. by rewrite Hrefl. }
    rewrite Hc, (proj2 (slice_eq_spec _ _) eq_refl). done.
Qed.

(** C32: wide columns are serialised exactly when there are less than 2^32 of
    them, their names ascend strictly and every name and value is shorter than
    2^32 bytes; they are read back; giving the default column apart is the same
    as putting it first; and a column is found by its name. *)
Theorem wide_columns_round_trip columns output :
  (ok (fst (Serialize columns output)) = true ↔ Zlen columns < 2 ^ 32 ∧ columns_ok columns) ∧
  (∀ value, Serialize_default value columns output = Serialize (mkColumn kDefaultWideColumnName value :: columns) output) ∧
  (Zlen columns < 2 ^ 32 → columns_ok columns →
    Serialize columns output = (Status_OK, output ++ snd (Serialize columns [])) ∧
    Deserialize (snd (Serialize columns [])) = (Status_OK, payload columns, columns) ∧
    (∀ name i, Find columns name = Some i ↔ ∃ c, columns !! i = Some c ∧ column_name c = name) ∧
    snd (GetValueOfDefaultColumn (snd (Serialize columns []))) =
      from_option column_value [] (Find columns kDefaultWideColumnName ≫= λ i, columns !! i)).
Proof.
  split_and!.
  - apply Serialize_spec.
  - intros value. unfold Serialize_default, Serialize, SerializeImpl.
    replace (Zlen (mkColumn kDefaultWideColumnName value :: columns)) with (Zlen columns + 1)
      by (rewrite !Zlen_length; cbn; lia).
    destruct (uint32_max <? Zlen columns + 1); [done|]. cbn [put_index column_name column_value ok Status_OK code_ negb].
    change (uint32_max <? Zlen kDefaultWideColumnName) with false. cbn match.
    destruct (uint32_max <? Zlen value); [done|]. cbn [ok Status_OK code_ negb].
    destruct (put_index _ columns _) as [s out]. destruct (ok s); [|done]. cbn [negb default fold_left column_value].
    by rewrite app_nil_r.
  - intros Hn Hc. destruct (Serialize_spec columns output) as [_ E1]. destruct (Serialize_spec columns []) as [_ E2].
    rewrite (E1 Hn Hc), (E2 Hn Hc). cbn [snd app]. split_and!; [done|by apply Deserialize_encoded| |].
    + intros name i. apply Find_spec, Hc.
    + unfold GetValueOfDefaultColumn. rewrite (Deserialize_encoded columns Hn Hc). cbn [ok Status_OK code_ negb].
      destruct Hc as [_ Hs]. destruct columns as [|c columns]; [done|].
      destruct (slice_eq (column_name c) kDefaultWideColumnName) eqn:E; cbn [negb snd].
      * apply slice_eq_spec in E. rewrite (proj2 (Find_spec (c :: columns) kDefaultWideColumnName 0 Hs)) by eauto. done.
      * destruct (Find (c :: columns) kDefaultWideColumnName) as [i|] eqn:Ef; [|done].
        apply (Find_spec _ _ _ Hs) in Ef as (c' & Hi & En). destruct i as [|i]; [injection Hi as <-|].
        { rewrite En in E. by rewrite (proj2 (slice_eq_spec _ _) eq_refl) in E. }
        apply Sorted_StronglySorted in Hs; [|intros x y z; unfold name_lt;
          by apply (cmp_lt_trans (cmp := slice_compare) (wf := λ _ : bytes, True))].
        pose proof (sorted_lookup _ _ Hs 0 (S i) c c' eq_refl Hi ltac:(lia)) as Hlt. unfold name_lt in Hlt.
        rewrite En, slice_compare_lex in Hlt. by destruct (column_name c).
Qed.

Module WideColumnsExample.
Definition columns : list WideColumn := [mkColumn [] [1]; mkColumn [97] [2; 3]; mkColumn [97; 98] []].

Lemma columns_example_ok : columns_ok columns.
Proof. split; [|repeat constructor; by vm_compute]. apply (bool_decide_unpack _). by vm_compute. Qed.

Lemma wide_columns_round_trip_witness :
  Deserialize (snd (Serialize columns [])) = (Status_OK, payload columns, columns) ∧
  snd (GetValueOfDefaultColumn (snd (Serialize columns []))) = [1].
Proof.
  destruct (wide_columns_round_trip columns []) as (_ & _ & H).
  destruct (H ltac:(by vm_compute) columns_example_ok) as (_ & H1 & _ & H2). split; [exact H1|exact H2].
Defined.
End WideColumnsExample.
