(* ===== verification/WriteBatch.v ===== *)
(** * Write batches

    [WriteBatch] and [WriteBatchInternal] (db/write_batch.cc,
    db/write_batch_internal.h, include/rocksdb/write_batch.h): updates that are
    applied together, in one byte string with a header of a sequence number and
    the number of updates. A write batch is what a record of the write-ahead log
    holds. The protection information of [ProtectionInfo64] is left out. *)

From S2P Require Import Prelude SortedLists Status Slice Coding DbFormat WideColumns.
From stdpp Require Import sorting.
#[local] Open Scope Z_scope.

(** ** Content flags *)

Definition DEFERRED : Z := Z.shiftl 1 0.
Definition HAS_PUT : Z := Z.shiftl 1 1.
Definition HAS_DELETE : Z := Z.shiftl 1 2.
Definition HAS_SINGLE_DELETE : Z := Z.shiftl 1 3.
Definition HAS_MERGE : Z := Z.shiftl 1 4.
Definition HAS_BEGIN_PREPARE : Z := Z.shiftl 1 5.
Definition HAS_END_PREPARE : Z := Z.shiftl 1 6.
Definition HAS_COMMIT : Z := Z.shiftl 1 7.
Definition HAS_ROLLBACK : Z := Z.shiftl 1 8.
Definition HAS_DELETE_RANGE : Z := Z.shiftl 1 9.
Definition HAS_BLOB_INDEX : Z := Z.shiftl 1 10.
Definition HAS_BEGIN_UNPREPARE : Z := Z.shiftl 1 11.
Definition HAS_PUT_ENTITY : Z := Z.shiftl 1 12.

(** ** The batch *)

(** [count] is an [int]. *)
Record SavePoint := mkSavePoint { sp_size : Z; sp_count : Z; sp_content_flags : Z }.
Definition cleared : SavePoint := mkSavePoint 0 0 0.
Definition is_cleared (p : SavePoint) : bool :=
  Z.lor (Z.lor (sp_size p) (wrap 64 (sp_count p))) (sp_content_flags p) =? 0.

(** [save_points_] is the stack, top first; it is empty if the pointer is null. *)
Record WriteBatch := mkBatch {
  save_points_ : list SavePoint;
  wal_term_point_ : SavePoint;
  is_latest_persistent_state_ : bool;
  needs_in_place_update_ts_ : bool;
  has_key_with_ts_ : bool;
  content_flags_ : Z;
  max_bytes_ : Z;
  default_cf_ts_sz_ : Z;
  rep_ : bytes
}.

Definition set_rep (b : WriteBatch) (rep : bytes) : WriteBatch :=
  mkBatch (save_points_ b) (wal_term_point_ b) (is_latest_persistent_state_ b) (needs_in_place_update_ts_ b)
    (has_key_with_ts_ b) (content_flags_ b) (max_bytes_ b) (default_cf_ts_sz_ b) rep.
Definition set_content_flags (b : WriteBatch) (flags : Z) : WriteBatch :=
  mkBatch (save_points_ b) (wal_term_point_ b) (is_latest_persistent_state_ b) (needs_in_place_update_ts_ b)
    (has_key_with_ts_ b) flags (max_bytes_ b) (default_cf_ts_sz_ b) (rep_ b).
Definition set_save_points (b : WriteBatch) (points : list SavePoint) : WriteBatch :=
  mkBatch points (wal_term_point_ b) (is_latest_persistent_state_ b) (needs_in_place_update_ts_ b)
    (has_key_with_ts_ b) (content_flags_ b) (max_bytes_ b) (default_cf_ts_sz_ b) (rep_ b).
Definition set_ts_flags (b : WriteBatch) (needs has : bool) : WriteBatch :=
  mkBatch (save_points_ b) (wal_term_point_ b) (is_latest_persistent_state_ b) needs
    has (content_flags_ b) (max_bytes_ b) (default_cf_ts_sz_ b) (rep_ b).

Definition kHeader : Z := 12.

Definition NewWriteBatch (max_bytes default_cf_ts_sz : Z) : WriteBatch :=
  mkBatch [] cleared false false false 0 max_bytes default_cf_ts_sz (replicate (Z.to_nat kHeader) 0).
(** The constructor from the contents of another batch. *)
Definition WriteBatch_of_rep (rep : bytes) : WriteBatch := mkBatch [] cleared false false false DEFERRED 0 0 rep.

(** The copy and the move constructor: the flags about timestamps and the
    persistent state are those of a new batch. *)
Definition WriteBatch_copy (src : WriteBatch) : WriteBatch :=
  mkBatch (save_points_ src) (wal_term_point_ src) false false false (content_flags_ src) (max_bytes_ src)
    (default_cf_ts_sz_ src) (rep_ src).
Definition IsLatestPersistentState (b : WriteBatch) : bool := is_latest_persistent_state_ b.
Definition TimestampsUpdateNeeded (b : WriteBatch) : bool := needs_in_place_update_ts_ b.
Definition HasKeyWithTimestamp (b : WriteBatch) : bool := has_key_with_ts_ b.

Definition GetDataSize (b : WriteBatch) : Z := Zlen (rep_ b).
(** Writing bytes over those at an offset of [rep_]. *)
Definition overwrite (rep : bytes) (offset : Z) (bs : bytes) : bytes :=
  ztake offset rep ++ bs ++ zdrop (offset + Zlen bs) rep.

Definition Count (b : WriteBatch) : Z := DecodeFixed32 (zdrop 8 (rep_ b)).
Definition SetCount (b : WriteBatch) (n : Z) : WriteBatch := set_rep b (overwrite (rep_ b) 8 (EncodeFixed32 (u32 n))).
Definition Sequence (b : WriteBatch) : Z := DecodeFixed64 (rep_ b).
Definition SetSequence (b : WriteBatch) (seq : Z) : WriteBatch := set_rep b (overwrite (rep_ b) 0 (EncodeFixed64 seq)).
Definition GetFirstOffset (b : WriteBatch) : Z := kHeader.
Definition Contents (b : WriteBatch) : bytes := rep_ b.
Definition ByteSize (b : WriteBatch) : Z := Zlen (rep_ b).
Definition SetContents (b : WriteBatch) (contents : bytes) : WriteBatch := set_content_flags (set_rep b contents) DEFERRED.

(** Clearing keeps the flags that are not in the list of [Clear]. *)
Definition Clear (b : WriteBatch) : WriteBatch :=
  mkBatch [] cleared (is_latest_persistent_state_ b) (needs_in_place_update_ts_ b) (has_key_with_ts_ b) 0
    (max_bytes_ b) 0 (replicate (Z.to_nat kHeader) 0).
Definition Release (b : WriteBatch) : bytes * WriteBatch := (rep_ b, Clear b).
Definition MarkWalTerminationPoint (b : WriteBatch) : WriteBatch :=
  mkBatch (save_points_ b) (mkSavePoint (GetDataSize b) (swrap 32 (Count b)) (content_flags_ b))
    (is_latest_persistent_state_ b) (needs_in_place_update_ts_ b) (has_key_with_ts_ b) (content_flags_ b)
    (max_bytes_ b) (default_cf_ts_sz_ b) (rep_ b).
Definition SetAsLatestPersistentState (b : WriteBatch) : WriteBatch :=
  mkBatch (save_points_ b) (wal_term_point_ b) true (needs_in_place_update_ts_ b) (has_key_with_ts_ b)
    (content_flags_ b) (max_bytes_ b) (default_cf_ts_sz_ b) (rep_ b).
Definition SetMaxBytes (b : WriteBatch) (max_bytes : Z) : WriteBatch :=
  mkBatch (save_points_ b) (wal_term_point_ b) (is_latest_persistent_state_ b) (needs_in_place_update_ts_ b)
    (has_key_with_ts_ b) (content_flags_ b) max_bytes (default_cf_ts_sz_ b) (rep_ b).

(** ** Adding updates *)

(** [LocalSavePoint]: its constructor and its [commit], which takes back an update
    that makes the batch too large. *)
Definition LocalSavePoint (b : WriteBatch) : SavePoint :=
  mkSavePoint (GetDataSize b) (swrap 32 (Count b)) (content_flags_ b).
(** [rep_.resize(n)] *)
Definition resize (rep : bytes) (n : Z) : bytes :=
  if n <=? Zlen rep then ztake n rep else rep ++ replicate (Z.to_nat (n - Zlen rep)) 0.
Definition commit (savepoint : SavePoint) (b : WriteBatch) : Status * WriteBatch :=
  if negb (max_bytes_ b =? 0) && (max_bytes_ b <? Zlen (rep_ b)) then
    let b := set_rep b (resize (rep_ b) (sp_size savepoint)) in
    let b := SetCount b (sp_count savepoint) in
    (Status_MemoryLimit, set_content_flags b (sp_content_flags savepoint))
  else (Status_OK, b).

Definition add_flags (b : WriteBatch) (flags : Z) : WriteBatch := set_content_flags b (Z.lor (content_flags_ b) flags).
(** The tag, followed by the column family unless it is the default one. *)
Definition push_tag (b : WriteBatch) (column_family_id tag cf_tag : Z) : WriteBatch :=
  set_rep b (if column_family_id =? 0 then rep_ b ++ [tag] else PutVarint32 (rep_ b ++ [cf_tag]) column_family_id).
Definition push_slice (b : WriteBatch) (s : bytes) : WriteBatch := set_rep b (PutLengthPrefixedSlice (rep_ b) s).
Definition push_parts (b : WriteBatch) (parts : list bytes) : WriteBatch :=
  set_rep b (PutLengthPrefixedSliceParts (rep_ b) parts).

(** The overloads that take a [Slice]. *)
Definition Put (b : WriteBatch) (column_family_id : Z) (key value : bytes) : Status * WriteBatch :=
  if uint32_max <? Zlen key then (Status_InvalidArgument "key is too large", b)
  else if uint32_max <? Zlen value then (Status_InvalidArgument "value is too large", b)
  else
    let save := LocalSavePoint b in
    let b := SetCount b (Count b + 1) in
    let b := push_tag b column_family_id kTypeValue kTypeColumnFamilyValue in
    let b := push_slice (push_slice b key) value in
    commit save (add_flags b HAS_PUT).

Definition Delete (b : WriteBatch) (column_family_id : Z) (key : bytes) : Status * WriteBatch :=
  let save := LocalSavePoint b in
  let b := SetCount b (Count b + 1) in
  let b := push_tag b column_family_id kTypeDeletion kTypeColumnFamilyDeletion in
  let b := push_slice b key in
  commit save (add_flags b HAS_DELETE).

Definition SingleDelete (b : WriteBatch) (column_family_id : Z) (key : bytes) : Status * WriteBatch :=
  let save := LocalSavePoint b in
  let b := SetCount b (Count b + 1) in
  let b := push_tag b column_family_id kTypeSingleDeletion kTypeColumnFamilySingleDeletion in
  let b := push_slice b key in
  commit save (add_flags b HAS_SINGLE_DELETE).

Definition DeleteRange (b : WriteBatch) (column_family_id : Z) (begin_key end_key : bytes) : Status * WriteBatch :=
  let save := LocalSavePoint b in
  let b := SetCount b (Count b + 1) in
  let b := push_tag b column_family_id kTypeRangeDeletion kTypeColumnFamilyRangeDeletion in
  let b := push_slice (push_slice b begin_key) end_key in
  commit save (add_flags b HAS_DELETE_RANGE).

Definition Merge (b : WriteBatch) (column_family_id : Z) (key value : bytes) : Status * WriteBatch :=
  if uint32_max <? Zlen key then (Status_InvalidArgument "key is too large", b)
  else if uint32_max <? Zlen value then (Status_InvalidArgument "value is too large", b)
  else
    let save := LocalSavePoint b in
    let b := SetCount b (Count b + 1) in
    let b := push_tag b column_family_id kTypeMerge kTypeColumnFamilyMerge in
    let b := push_slice (push_slice b key) value in
    commit save (add_flags b HAS_MERGE).

Definition PutBlobIndex (b : WriteBatch) (column_family_id : Z) (key value : bytes) : Status * WriteBatch :=
  let save := LocalSavePoint b in
  let b := SetCount b (Count b + 1) in
  let b := push_tag b column_family_id kTypeBlobIndex kTypeColumnFamilyBlobIndex in
  let b := push_slice (push_slice b key) value in
  commit save (add_flags b HAS_BLOB_INDEX).

Definition PutLogData (b : WriteBatch) (blob : bytes) : Status * WriteBatch :=
  let save := LocalSavePoint b in
  let b := set_rep b (rep_ b ++ [kTypeLogData]) in
  commit save (push_slice b blob).

(** [std::sort] by name. *)
Definition name_le (a b : WideColumn) : Prop := slice_compare (column_name a) (column_name b) <= 0.
#[export] Instance name_le_dec a b : Decision (name_le a b).
Proof. unfold name_le. apply _. Defined.
Definition sort_columns (columns : list WideColumn) : list WideColumn := merge_sort name_le columns.

Definition PutEntity (b : WriteBatch) (column_family_id : Z) (key : bytes) (columns : list WideColumn) :
    Status * WriteBatch :=
  if uint32_max <? Zlen key then (Status_InvalidArgument "key is too large", b)
  else
    let '(s, entity) := Serialize (sort_columns columns) [] in
    if negb (ok s) then (s, b)
    else if uint32_max <? Zlen entity then (Status_InvalidArgument "wide column entity is too large", b)
    else
      let save := LocalSavePoint b in
      let b := SetCount b (Count b + 1) in
      let b := push_tag b column_family_id kTypeWideColumnEntity kTypeColumnFamilyWideColumnEntity in
      let b := push_slice (push_slice b key) entity in
      commit save (add_flags b HAS_PUT_ENTITY).

(** ** The overloads that take [SliceParts] *)

Definition CheckSlicePartsLength (key value : list bytes) : Status :=
  let total_key_bytes := fold_left (λ n part, n + Zlen part) key 0 in
  if uint32_max <=? total_key_bytes then Status_InvalidArgument "key is too large"
  else
    let total_value_bytes := fold_left (λ n part, n + Zlen part) value 0 in
    if uint32_max <=? total_value_bytes then Status_InvalidArgument "value is too large" else Status_OK.

Definition Put_parts (b : WriteBatch) (column_family_id : Z) (key value : list bytes) : Status * WriteBatch :=
  let s := CheckSlicePartsLength key value in
  if negb (ok s) then (s, b)
  else
    let save := LocalSavePoint b in
    let b := SetCount b (Count b + 1) in
    let b := push_tag b column_family_id kTypeValue kTypeColumnFamilyValue in
    let b := push_parts (push_parts b key) value in
    commit save (add_flags b HAS_PUT).

Definition Delete_parts (b : WriteBatch) (column_family_id : Z) (key : list bytes) : Status * WriteBatch :=
  let save := LocalSavePoint b in
  let b := SetCount b (Count b + 1) in
  let b := push_tag b column_family_id kTypeDeletion kTypeColumnFamilyDeletion in
  let b := push_parts b key in
  commit save (add_flags b HAS_DELETE).

Definition SingleDelete_parts (b : WriteBatch) (column_family_id : Z) (key : list bytes) : Status * WriteBatch :=
  let save := LocalSavePoint b in
  let b := SetCount b (Count b + 1) in
  let b := push_tag b column_family_id kTypeSingleDeletion kTypeColumnFamilySingleDeletion in
  let b := push_parts b key in
  commit save (add_flags b HAS_SINGLE_DELETE).

Definition DeleteRange_parts (b : WriteBatch) (column_family_id : Z) (begin_key end_key : list bytes) :
    Status * WriteBatch :=
  let save := LocalSavePoint b in
  let b := SetCount b (Count b + 1) in
  let b := push_tag b column_family_id kTypeRangeDeletion kTypeColumnFamilyRangeDeletion in
  let b := push_parts (push_parts b begin_key) end_key in
  commit save (add_flags b HAS_DELETE_RANGE).

Definition Merge_parts (b : WriteBatch) (column_family_id : Z) (key value : list bytes) : Status * WriteBatch :=
  let s := CheckSlicePartsLength key value in
  if negb (ok s) then (s, b)
  else
    let save := LocalSavePoint b in
    let b := SetCount b (Count b + 1) in
    let b := push_tag b column_family_id kTypeMerge kTypeColumnFamilyMerge in
    let b := push_parts (push_parts b key) value in
    commit save (add_flags b HAS_MERGE).

(** ** The public methods, with a column family handle *)

(** [cf_comparator_ts_sz] is [None] if the handle has no comparator. *)
Record ColumnFamilyHandle := mkHandle { GetID : Z; cf_comparator_ts_sz : option Z }.

Definition GetColumnFamilyIdAndTimestampSize (b : WriteBatch) (column_family : option ColumnFamilyHandle) :
    Status * Z * Z :=
  match column_family with
  | Some cf =>
      let cf_id := GetID cf in
      match cf_comparator_ts_sz cf with
      | Some ts_sz =>
          (if (0 =? cf_id) && negb (default_cf_ts_sz_ b =? ts_sz)
           then Status_InvalidArgument "Default cf timestamp size mismatch" else Status_OK, cf_id, ts_sz)
      | None => (Status_OK, cf_id, 0)
      end
  | None => (Status_OK, 0, if 0 <? default_cf_ts_sz_ b then default_cf_ts_sz_ b else 0)
  end.

(** The comparator is not null here. *)
Definition CheckColumnFamilyTimestampSize (column_family : option ColumnFamilyHandle) (ts : bytes) : Status :=
  match column_family with
  | None => Status_InvalidArgument "column family handle cannot be null"
  | Some cf =>
      let cf_ts_sz := default 0 (cf_comparator_ts_sz cf) in
      if 0 =? cf_ts_sz then Status_InvalidArgument "timestamp disabled"
      else if negb (cf_ts_sz =? Zlen ts) then Status_InvalidArgument "timestamp size mismatch"
      else Status_OK
  end.

(** What the methods without a timestamp argument have in common: [add] for a
    column family without timestamps, and [add_ts] with a placeholder for the
    timestamp otherwise. *)
Definition with_placeholder_ts (b : WriteBatch) (column_family : option ColumnFamilyHandle)
    (add : WriteBatch → Z → Status * WriteBatch) (add_ts : WriteBatch → Z → bytes → Status * WriteBatch) :
    Status * WriteBatch :=
  let '(s, cf_id, ts_sz) := GetColumnFamilyIdAndTimestampSize b column_family in
  if negb (ok s) then (s, b)
  else if 0 =? ts_sz then add b cf_id
  else add_ts (set_ts_flags b true true) cf_id (replicate (Z.to_nat ts_sz) 0).
Definition with_given_ts (b : WriteBatch) (column_family : option ColumnFamilyHandle) (ts : bytes)
    (add_ts : WriteBatch → Z → bytes → Status * WriteBatch) : Status * WriteBatch :=
  let s := CheckColumnFamilyTimestampSize column_family ts in
  if negb (ok s) then (s, b)
  else add_ts (set_ts_flags b (needs_in_place_update_ts_ b) true) (from_option GetID 0 column_family) ts.
Definition without_ts (b : WriteBatch) (column_family : option ColumnFamilyHandle)
    (add : WriteBatch → Z → Status * WriteBatch) : Status * WriteBatch :=
  let '(s, cf_id, ts_sz) := GetColumnFamilyIdAndTimestampSize b column_family in
  if negb (ok s) then (s, b)
  else if ts_sz =? 0 then add b cf_id
  else (Status_InvalidArgument "Cannot call this method on column family enabling timestamp", b).

Definition WriteBatch_Put b column_family (key value : bytes) : Status * WriteBatch :=
  with_placeholder_ts b column_family (λ b cf_id, Put b cf_id key value)
    (λ b cf_id ts, Put_parts b cf_id [key; ts] [value]).
Definition WriteBatch_Put_ts b column_family (key ts value : bytes) : Status * WriteBatch :=
  with_given_ts b column_family ts (λ b cf_id ts, Put_parts b cf_id [key; ts] [value]).
Definition WriteBatch_Put_parts b column_family (key value : list bytes) : Status * WriteBatch :=
  without_ts b column_family (λ b cf_id, Put_parts b cf_id key value).

Definition WriteBatch_Delete b column_family (key : bytes) : Status * WriteBatch :=
  with_placeholder_ts b column_family (λ b cf_id, Delete b cf_id key) (λ b cf_id ts, Delete_parts b cf_id [key; ts]).
Definition WriteBatch_Delete_ts b column_family (key ts : bytes) : Status * WriteBatch :=
  with_given_ts b column_family ts (λ b cf_id ts, Delete_parts b cf_id [key; ts]).
Definition WriteBatch_Delete_parts b column_family (key : list bytes) : Status * WriteBatch :=
  without_ts b column_family (λ b cf_id, Delete_parts b cf_id key).

Definition WriteBatch_SingleDelete b column_family (key : bytes) : Status * WriteBatch :=
  with_placeholder_ts b column_family (λ b cf_id, SingleDelete b cf_id key)
    (λ b cf_id ts, SingleDelete_parts b cf_id [key; ts]).
Definition WriteBatch_SingleDelete_ts b column_family (key ts : bytes) : Status * WriteBatch :=
  with_given_ts b column_family ts (λ b cf_id ts, SingleDelete_parts b cf_id [key; ts]).
Definition WriteBatch_SingleDelete_parts b column_family (key : list bytes) : Status * WriteBatch :=
  without_ts b column_family (λ b cf_id, SingleDelete_parts b cf_id key).

Definition WriteBatch_DeleteRange b column_family (begin_key end_key : bytes) : Status * WriteBatch :=
  with_placeholder_ts b column_family (λ b cf_id, DeleteRange b cf_id begin_key end_key)
    (λ b cf_id ts, DeleteRange_parts b cf_id [begin_key; ts] [end_key; ts]).
Definition WriteBatch_DeleteRange_ts b column_family (begin_key end_key ts : bytes) : Status * WriteBatch :=
  with_given_ts b column_family ts (λ b cf_id ts, DeleteRange_parts b cf_id [begin_key; ts] [end_key; ts]).
Definition WriteBatch_DeleteRange_parts b column_family (begin_key end_key : list bytes) : Status * WriteBatch :=
  without_ts b column_family (λ b cf_id, DeleteRange_parts b cf_id begin_key end_key).

Definition WriteBatch_Merge b column_family (key value : bytes) : Status * WriteBatch :=
  with_placeholder_ts b column_family (λ b cf_id, Merge b cf_id key value)
    (λ b cf_id ts, Merge_parts b cf_id [key; ts] [value]).
Definition WriteBatch_Merge_ts b column_family (key ts value : bytes) : Status * WriteBatch :=
  with_given_ts b column_family ts (λ b cf_id ts, Merge_parts b cf_id [key; ts] [value]).
Definition WriteBatch_Merge_parts b column_family (key value : list bytes) : Status * WriteBatch :=
  without_ts b column_family (λ b cf_id, Merge_parts b cf_id key value).

Definition WriteBatch_PutEntity b (column_family : option ColumnFamilyHandle) (key : bytes)
    (columns : list WideColumn) : Status * WriteBatch :=
  match column_family with
  | None => (Status_InvalidArgument "Cannot call this method without a column family handle", b)
  | Some _ => without_ts b column_family (λ b cf_id, PutEntity b cf_id key columns)
  end.

(** ** Transaction markers *)

Definition InsertNoop (b : WriteBatch) : WriteBatch := set_rep b (rep_ b ++ [kTypeNoop]).

Definition MarkEndPrepare (b : WriteBatch) (xid : bytes) (write_after_commit unprepared_batch : bool) : WriteBatch :=
  let b := set_save_points b [] in
  let b := set_rep b (overwrite (rep_ b) 12
    [if write_after_commit then kTypeBeginPrepareXID
     else if unprepared_batch then kTypeBeginUnprepareXID else kTypeBeginPersistedPrepareXID]) in
  let b := push_slice (set_rep b (rep_ b ++ [kTypeEndPrepareXID])) xid in
  let b := add_flags b (Z.lor HAS_END_PREPARE HAS_BEGIN_PREPARE) in
  if unprepared_batch then add_flags b HAS_BEGIN_UNPREPARE else b.

Definition MarkCommit (b : WriteBatch) (xid : bytes) : WriteBatch :=
  add_flags (push_slice (set_rep b (rep_ b ++ [kTypeCommitXID])) xid) HAS_COMMIT.
Definition MarkCommitWithTimestamp (b : WriteBatch) (xid commit_ts : bytes) : WriteBatch :=
  let b := set_rep b (rep_ b ++ [kTypeCommitXIDAndTimestamp]) in
  add_flags (push_slice (push_slice b commit_ts) xid) HAS_COMMIT.
Definition MarkRollback (b : WriteBatch) (xid : bytes) : WriteBatch :=
  add_flags (push_slice (set_rep b (rep_ b ++ [kTypeRollbackXID])) xid) HAS_ROLLBACK.

(** ** Save points *)

Definition SetSavePoint (b : WriteBatch) : WriteBatch := set_save_points b (LocalSavePoint b :: save_points_ b).

Definition RollbackToSavePoint (b : WriteBatch) : Status * WriteBatch :=
  match save_points_ b with
  | [] => (Status_NotFound "", b)
  | savepoint :: points =>
      let b := set_save_points b points in
      if sp_size savepoint =? Zlen (rep_ b) then (Status_OK, b)
      else if sp_size savepoint =? 0 then (Status_OK, Clear b)
      else
        let b := set_rep b (resize (rep_ b) (sp_size savepoint)) in
        let b := SetCount b (sp_count savepoint) in
        (Status_OK, set_content_flags b (sp_content_flags savepoint))
  end.

Definition PopSavePoint (b : WriteBatch) : Status * WriteBatch :=
  match save_points_ b with
  | [] => (Status_NotFound "", b)
  | _ :: points => (Status_OK, set_save_points b points)
  end.

(** ** Appending a batch *)

Definition Append (dst src : WriteBatch) (wal_only : bool) : Status * WriteBatch :=
  let batch_end := wal_term_point_ src in
  let '(src_len, src_count, src_flags) :=
    if wal_only && negb (is_cleared batch_end)
    then (sp_size batch_end - kHeader, sp_count batch_end, sp_content_flags batch_end)
    else (Zlen (rep_ src) - kHeader, swrap 32 (Count src), content_flags_ src) in
  let dst := SetCount dst (Count dst + src_count) in
  let dst := set_rep dst (rep_ dst ++ ztake src_len (zdrop kHeader (rep_ src))) in
  (Status_OK, add_flags dst src_flags).

Definition AppendedByteSize (leftByteSize rightByteSize : Z) : Z :=
  if (leftByteSize =? 0) || (rightByteSize =? 0) then leftByteSize + rightByteSize
  else leftByteSize + rightByteSize - kHeader.

(** ** Reading records *)

(** The out parameters of [ReadRecordFromWriteBatch] other than the tag and the
    column family: a record that does not have a field leaves the old value. *)
Record Fields := mkFields { f_key : bytes; f_value : bytes; f_blob : bytes; f_xid : bytes }.

Definition read_cf (cf_record : bool) (input : bytes) : option (Z * bytes) :=
  if cf_record then GetVarint32 input else Some (0, input).
(** [[varint32] varstring varstring] and [[varint32] varstring] *)
Definition read_key_value (cf_record : bool) (f : Fields) (input : bytes) : option (Z * Fields * bytes) :=
  '(column_family, input) ← read_cf cf_record input;
  '(key, input) ← GetLengthPrefixedSlice input;
  '(value, input) ← GetLengthPrefixedSlice input;
  Some (column_family, mkFields key value (f_blob f) (f_xid f), input).
Definition read_key (cf_record : bool) (f : Fields) (input : bytes) : option (Z * Fields * bytes) :=
  '(column_family, input) ← read_cf cf_record input;
  '(key, input) ← GetLengthPrefixedSlice input;
  Some (column_family, mkFields key (f_value f) (f_blob f) (f_xid f), input).
Definition read_xid (f : Fields) (input : bytes) : option (Z * Fields * bytes) :=
  '(xid, input) ← GetLengthPrefixedSlice input;
  Some (0, mkFields (f_key f) (f_value f) (f_blob f) xid, input).
Definition read_blob (f : Fields) (input : bytes) : option (Z * Fields * bytes) :=
  '(blob, input) ← GetLengthPrefixedSlice input;
  Some (0, mkFields (f_key f) (f_value f) blob (f_xid f), input).

(** The tag, column family and fields of the first record, and the rest of the
    input; or an error. *)
Definition ReadRecord_switch (tag : Z) (f : Fields) (input : bytes) : Status + (Z * Z * Fields * bytes) :=
  let parsed (r : option (Z * Fields * bytes)) (msg : string) :=
    match r with
    | Some (column_family, f, input) => inr (tag, column_family, f, input)
    | None => inl (Status_Corruption msg)
    end in
  if (tag =? kTypeColumnFamilyValue) || (tag =? kTypeValue)
  then parsed (read_key_value (tag =? kTypeColumnFamilyValue) f input) "bad WriteBatch Put"
  else if (tag =? kTypeColumnFamilyDeletion) || (tag =? kTypeColumnFamilySingleDeletion)
          || (tag =? kTypeDeletion) || (tag =? kTypeSingleDeletion)
  then parsed (read_key ((tag =? kTypeColumnFamilyDeletion) || (tag =? kTypeColumnFamilySingleDeletion)) f input)
         "bad WriteBatch Delete"
  else if (tag =? kTypeColumnFamilyRangeDeletion) || (tag =? kTypeRangeDeletion)
  then parsed (read_key_value (tag =? kTypeColumnFamilyRangeDeletion) f input) "bad WriteBatch DeleteRange"
  else if (tag =? kTypeColumnFamilyMerge) || (tag =? kTypeMerge)
  then parsed (read_key_value (tag =? kTypeColumnFamilyMerge) f input) "bad WriteBatch Merge"
  else if (tag =? kTypeColumnFamilyBlobIndex) || (tag =? kTypeBlobIndex)
  then parsed (read_key_value (tag =? kTypeColumnFamilyBlobIndex) f input) "bad WriteBatch BlobIndex"
  else if tag =? kTypeLogData then parsed (read_blob f input) "bad WriteBatch Blob"
  else if (tag =? kTypeNoop) || (tag =? kTypeBeginPrepareXID) || (tag =? kTypeBeginPersistedPrepareXID)
          || (tag =? kTypeBeginUnprepareXID)
  then inr (tag, 0, f, input)
  else if tag =? kTypeEndPrepareXID then parsed (read_xid f input) "bad EndPrepare XID"
  else if tag =? kTypeCommitXIDAndTimestamp then
    match GetLengthPrefixedSlice input with
    | None => inl (Status_Corruption "bad commit timestamp")
    | Some (key, input) =>
        parsed (read_xid (mkFields key (f_value f) (f_blob f) (f_xid f)) input) "bad Commit XID"
    end
  else if tag =? kTypeCommitXID then parsed (read_xid f input) "bad Commit XID"
  else if tag =? kTypeRollbackXID then parsed (read_xid f input) "bad Rollback XID"
  else if (tag =? kTypeColumnFamilyWideColumnEntity) || (tag =? kTypeWideColumnEntity)
  then parsed (read_key_value (tag =? kTypeColumnFamilyWideColumnEntity) f input) "bad WriteBatch PutEntity"
  else inl (Status_Corruption "unknown WriteBatch tag").
Definition ReadRecordFromWriteBatch (input : bytes) (f : Fields) : Status + (Z * Z * Fields * bytes) :=
  ReadRecord_switch (znth input 0) f (zdrop 1 input).

Definition ReadKeyFromWriteBatchEntry (input : bytes) (cf_record : bool) : option (bytes * bytes) :=
  '(_, input) ← read_cf cf_record (zdrop 1 input); GetLengthPrefixedSlice input.

(** ** Iteration *)

Inductive OptionState := kUnknown | kDisabled | kEnabled.

(** [WriteBatch::Handler]: the virtual methods on a state. *)
Record Handler (H : Type) := {
  PutCF : H → Z → bytes → bytes → Status * H;
  PutEntityCF : H → Z → bytes → bytes → Status * H;
  DeleteCF : H → Z → bytes → Status * H;
  SingleDeleteCF : H → Z → bytes → Status * H;
  DeleteRangeCF : H → Z → bytes → bytes → Status * H;
  MergeCF : H → Z → bytes → bytes → Status * H;
  PutBlobIndexCF : H → Z → bytes → bytes → Status * H;
  LogData : H → bytes → H;
  OnBeginPrepare : H → bool → Status * H;
  OnEndPrepare : H → bytes → Status * H;
  OnNoop : H → bool → Status * H;
  OnRollback : H → bytes → Status * H;
  OnCommit : H → bytes → Status * H;
  OnCommitWithTimestamp : H → bytes → bytes → Status * H;
  Continue : H → bool * H;
  WriteAfterCommit : H → OptionState;
  WriteBeforePrepare : H → OptionState
}.
Arguments PutCF {H}. Arguments PutEntityCF {H}. Arguments DeleteCF {H}. Arguments SingleDeleteCF {H}.
Arguments DeleteRangeCF {H}. Arguments MergeCF {H}. Arguments PutBlobIndexCF {H}. Arguments LogData {H}.
Arguments OnBeginPrepare {H}. Arguments OnEndPrepare {H}. Arguments OnNoop {H}. Arguments OnRollback {H}.
Arguments OnCommit {H}. Arguments OnCommitWithTimestamp {H}. Arguments Continue {H}.
Arguments WriteAfterCommit {H}. Arguments WriteBeforePrepare {H}.

Section Iteration.
Context {H : Type} (handler : Handler H).

(** What a turn of the loop changes besides the input. *)
Record Progress := mkProgress { it_status : Status; empty_batch : bool; found : Z; it_handler : H }.

(** An update: it counts, and the batch is not empty any more, unless the handler
    fails. *)
Definition counted (p : Progress) (r : Status * H) : Progress :=
  let '(s, h) := r in
  if ok s then mkProgress s false (u32 (found p + 1)) h else mkProgress s (empty_batch p) (found p) h.

(** The [switch]; [None] is its default. *)
Definition dispatch (tag column_family : Z) (f : Fields) (p : Progress) : option Progress :=
  let h := it_handler p in
  let eqt (t : Z) := tag =? t in
  if eqt kTypeColumnFamilyValue || eqt kTypeValue
  then Some (counted p (PutCF handler h column_family (f_key f) (f_value f)))
  else if eqt kTypeColumnFamilyDeletion || eqt kTypeDeletion
  then Some (counted p (DeleteCF handler h column_family (f_key f)))
  else if eqt kTypeColumnFamilySingleDeletion || eqt kTypeSingleDeletion
  then Some (counted p (SingleDeleteCF handler h column_family (f_key f)))
  else if eqt kTypeColumnFamilyRangeDeletion || eqt kTypeRangeDeletion
  then Some (counted p (DeleteRangeCF handler h column_family (f_key f) (f_value f)))
  else if eqt kTypeColumnFamilyMerge || eqt kTypeMerge
  then Some (counted p (MergeCF handler h column_family (f_key f) (f_value f)))
  else if eqt kTypeColumnFamilyBlobIndex || eqt kTypeBlobIndex then
    let '(s, h) := PutBlobIndexCF handler h column_family (f_key f) (f_value f) in
    Some (mkProgress s (empty_batch p) (if ok s then u32 (found p + 1) else found p) h)
  else if eqt kTypeLogData then Some (mkProgress (it_status p) false (found p) (LogData handler h (f_blob f)))
  else if eqt kTypeBeginPrepareXID then
    let '(s, h) := OnBeginPrepare handler h false in
    let s := match WriteAfterCommit handler h with
             | kDisabled => Status_NotSupported "WriteCommitted txn tag when write_after_commit_ is disabled"
             | _ => s end in
    let s := match WriteBeforePrepare handler h with
             | kEnabled => Status_NotSupported "WriteCommitted txn tag when write_before_prepare_ is enabled"
             | _ => s end in
    Some (mkProgress s false (found p) h)
  else if eqt kTypeBeginPersistedPrepareXID then
    let '(s, h) := OnBeginPrepare handler h false in
    let s := match WriteAfterCommit handler h with
             | kEnabled =>
                 Status_NotSupported "WritePrepared/WriteUnprepared txn tag when write_after_commit_ is enabled"
             | _ => s end in
    Some (mkProgress s false (found p) h)
  else if eqt kTypeBeginUnprepareXID then
    let '(s, h) := OnBeginPrepare handler h true in
    let s := match WriteAfterCommit handler h with
             | kEnabled => Status_NotSupported "WriteUnprepared txn tag when write_after_commit_ is enabled"
             | _ => s end in
    let s := match WriteBeforePrepare handler h with
             | kDisabled => Status_NotSupported "WriteUnprepared txn tag when write_before_prepare_ is disabled"
             | _ => s end in
    Some (mkProgress s false (found p) h)
  else if eqt kTypeEndPrepareXID then
    let '(s, h) := OnEndPrepare handler h (f_xid f) in Some (mkProgress s true (found p) h)
  else if eqt kTypeCommitXID then
    let '(s, h) := OnCommit handler h (f_xid f) in Some (mkProgress s true (found p) h)
  else if eqt kTypeCommitXIDAndTimestamp then
    let '(s, h) := OnCommitWithTimestamp handler h (f_xid f) (f_key f) in
    Some (mkProgress s (if ok s then true else empty_batch p) (found p) h)
  else if eqt kTypeRollbackXID then
    let '(s, h) := OnRollback handler h (f_xid f) in Some (mkProgress s true (found p) h)
  else if eqt kTypeNoop then
    let '(s, h) := OnNoop handler h (empty_batch p) in Some (mkProgress s true (found p) h)
  else if eqt kTypeWideColumnEntity || eqt kTypeColumnFamilyWideColumnEntity
  then Some (counted p (PutEntityCF handler h column_family (f_key f) (f_value f)))
  else None.

(** The loop: an early return, or the progress and whether the handler wanted to
    go on. [None] is out of fuel. A handler that answers [TryAgain] is given the
    same record again, once. *)
Fixpoint Iterate_loop (fuel : nat) (input : bytes) (tag column_family : Z) (f : Fields) (last_was_try_again : bool)
    (p : Progress) : option ((Status * H) + (Progress * bool)) :=
  match fuel with
  | O => None
  | S fuel =>
      let s := it_status p in
      if (ok s && negb (Zlen input =? 0)) || IsTryAgain s then
        let '(go_on, h) := Continue handler (it_handler p) in
        let p := mkProgress s (empty_batch p) (found p) h in
        if negb go_on then Some (inr (p, false))
        else if negb (IsTryAgain s) then
          match ReadRecordFromWriteBatch input f with
          | inl s => Some (inl (s, h))
          | inr (tag, column_family, f, input) =>
              match dispatch tag column_family f (mkProgress Status_OK (empty_batch p) (found p) h) with
              | None => Some (inl (Status_Corruption "unknown WriteBatch tag", h))
              | Some p => Iterate_loop fuel input tag column_family f false p
              end
          end
        else if last_was_try_again then Some (inl (Status_Corruption "two consecutive TryAgain in WriteBatch handler", h))
        else
          match dispatch tag column_family f (mkProgress Status_OK (empty_batch p) (found p) h) with
          | None => Some (inl (Status_Corruption "unknown WriteBatch tag", h))
          | Some p => Iterate_loop fuel input tag column_family f true p
          end
      else Some (inr (p, true))
  end.

(** Every two turns take a byte. *)
Definition iterate_fuel (n : Z) : nat := S (S (2 * Z.to_nat n)).

Definition Iterate_range (wb : WriteBatch) (h : H) (begin_ end_ : Z) : option (Status * H) :=
  if (Zlen (rep_ wb) <? begin_) || (Zlen (rep_ wb) <? end_) || (end_ <? begin_)
  then Some (Status_Corruption "Invalid start/end bounds for Iterate", h)
  else
    let input := ztake (end_ - begin_) (zdrop begin_ (rep_ wb)) in
    let whole_batch := (begin_ =? kHeader) && (end_ =? Zlen (rep_ wb)) in
    r ← Iterate_loop (iterate_fuel (Zlen input)) input 0 0 (mkFields [] [] [] []) false (mkProgress Status_OK true 0 h);
    Some match r with
         | inl (s, h) => (s, h)
         | inr (p, handler_continue) =>
             (if negb (ok (it_status p)) then it_status p
              else if handler_continue && whole_batch && negb (found p =? Count wb)
              then Status_Corruption "WriteBatch has wrong count" else Status_OK, it_handler p)
         end.

Definition Iterate (wb : WriteBatch) (h : H) : option (Status * H) :=
  if Zlen (rep_ wb) <? kHeader then Some (Status_Corruption "malformed WriteBatch (too small)", h)
  else Iterate_range wb h kHeader (Zlen (rep_ wb)).
End Iteration.

(** ** Content flags, computed *)

(** [BatchContentClassifier], whose state is its [content_flags]; the methods it
    does not override are those of [WriteBatch::Handler]. *)
Definition BatchContentClassifier : Handler Z :=
  let add (flag content_flags : Z) := (Status_OK, Z.lor content_flags flag) in
  {| PutCF content_flags _ _ _ := add HAS_PUT content_flags;
     PutEntityCF content_flags _ _ _ := add HAS_PUT_ENTITY content_flags;
     DeleteCF content_flags _ _ := add HAS_DELETE content_flags;
     SingleDeleteCF content_flags _ _ := add HAS_SINGLE_DELETE content_flags;
     DeleteRangeCF content_flags _ _ _ := add HAS_DELETE_RANGE content_flags;
     MergeCF content_flags _ _ _ := add HAS_MERGE content_flags;
     PutBlobIndexCF content_flags _ _ _ := add HAS_BLOB_INDEX content_flags;
     LogData content_flags _ := content_flags;
     OnBeginPrepare content_flags unprepare :=
       let content_flags := Z.lor content_flags HAS_BEGIN_PREPARE in
       (Status_OK, if unprepare then Z.lor content_flags HAS_BEGIN_UNPREPARE else content_flags);
     OnEndPrepare content_flags _ := add HAS_END_PREPARE content_flags;
     OnNoop content_flags _ := (Status_InvalidArgument "MarkNoop() handler not defined.", content_flags);
     OnRollback content_flags _ := add HAS_ROLLBACK content_flags;
     OnCommit content_flags _ := add HAS_COMMIT content_flags;
     OnCommitWithTimestamp content_flags _ _ := add HAS_COMMIT content_flags;
     Continue content_flags := (true, content_flags);
     WriteAfterCommit _ := kUnknown;
     WriteBeforePrepare _ := kUnknown |}.

(** The flags, and the batch, which keeps them. *)
Definition ComputeContentFlags (b : WriteBatch) : Z * WriteBatch :=
  let rv := content_flags_ b in
  if negb (Z.land rv DEFERRED =? 0) then
    let rv := match Iterate BatchContentClassifier b 0 with Some (_, content_flags) => content_flags | None => 0 end in
    (rv, set_content_flags b rv)
  else (rv, b).

Definition has (flag : Z) (b : WriteBatch) : bool := negb (Z.land (fst (ComputeContentFlags b)) flag =? 0).
Definition HasPut := has HAS_PUT.
Definition HasPutEntity := has HAS_PUT_ENTITY.
Definition HasDelete := has HAS_DELETE.
Definition HasSingleDelete := has HAS_SINGLE_DELETE.
Definition HasDeleteRange := has HAS_DELETE_RANGE.
Definition HasMerge := has HAS_MERGE.
Definition HasBeginPrepare := has HAS_BEGIN_PREPARE.
Definition HasEndPrepare := has HAS_END_PREPARE.
Definition HasCommit := has HAS_COMMIT.
Definition HasRollback := has HAS_ROLLBACK.
