(* ===== verification/WriteBatchCorrect.v ===== *)
(** * Write batches are lists of records

    What the byte string of a write batch means: the list of its records. The
    updates, the transaction markers, the save points and [Append] are operations
    on that list; [Iterate] hands the records to the handler in order, whatever
    the handler answers; and it returns for every byte string. *)

From S2P Require Import Prelude SortedLists Status Slice Coding DbFormat WideColumns WriteBatch.
#[local] Open Scope Z_scope.

(** ** Records *)

Inductive KeyValueKind := KPut | KEntity | KDeleteRange | KMerge | KBlobIndex.
Inductive KeyKind := KDelete | KSingleDelete.
Inductive MarkKind := KNoop | KBeginPrepare | KBeginPersistedPrepare | KBeginUnprepare.
Inductive XidKind := KEndPrepare | KCommit | KRollback.

Inductive Rec :=
  | RKeyValue (k : KeyValueKind) (cf : Z) (key value : bytes)
  | RKey (k : KeyKind) (cf : Z) (key : bytes)
  | RLogData (blob : bytes)
  | RMark (k : MarkKind)
  | RXid (k : XidKind) (xid : bytes)
  | RCommitTs (xid ts : bytes).

(** The tag of a record of the default column family, and of another one. *)
Definition kv_tags (k : KeyValueKind) : Z * Z :=
  match k with
  | KPut => (kTypeValue, kTypeColumnFamilyValue)
  | KEntity => (kTypeWideColumnEntity, kTypeColumnFamilyWideColumnEntity)
  | KDeleteRange => (kTypeRangeDeletion, kTypeColumnFamilyRangeDeletion)
  | KMerge => (kTypeMerge, kTypeColumnFamilyMerge)
  | KBlobIndex => (kTypeBlobIndex, kTypeColumnFamilyBlobIndex)
  end.
Definition key_tags (k : KeyKind) : Z * Z :=
  match k with
  | KDelete => (kTypeDeletion, kTypeColumnFamilyDeletion)
  | KSingleDelete => (kTypeSingleDeletion, kTypeColumnFamilySingleDeletion)
  end.
Definition mark_tag (k : MarkKind) : Z :=
  match k with
  | KNoop => kTypeNoop
  | KBeginPrepare => kTypeBeginPrepareXID
  | KBeginPersistedPrepare => kTypeBeginPersistedPrepareXID
  | KBeginUnprepare => kTypeBeginUnprepareXID
  end.
Definition xid_tag (k : XidKind) : Z :=
  match k with KEndPrepare => kTypeEndPrepareXID | KCommit => kTypeCommitXID | KRollback => kTypeRollbackXID end.
Definition pick (cf : Z) (tags : Z * Z) : Z := if cf =? 0 then fst tags else snd tags.

Definition rec_tag (r : Rec) : Z :=
  match r with
  | RKeyValue k cf _ _ => pick cf (kv_tags k)
  | RKey k cf _ => pick cf (key_tags k)
  | RLogData _ => kTypeLogData
  | RMark k => mark_tag k
  | RXid k _ => xid_tag k
  | RCommitTs _ _ => kTypeCommitXIDAndTimestamp
  end.
Definition rec_cf (r : Rec) : Z := match r with RKeyValue _ cf _ _ | RKey _ cf _ => cf | _ => 0 end.
Definition rec_fields (r : Rec) (f : Fields) : Fields :=
  match r with
  | RKeyValue _ _ key value => mkFields key value (f_blob f) (f_xid f)
  | RKey _ _ key => mkFields key (f_value f) (f_blob f) (f_xid f)
  | RLogData blob => mkFields (f_key f) (f_value f) blob (f_xid f)
  | RMark _ => f
  | RXid _ xid => mkFields (f_key f) (f_value f) (f_blob f) xid
  | RCommitTs xid ts => mkFields ts (f_value f) (f_blob f) xid
  end.

(** The bytes of a record. *)
Definition enc_slice (s : bytes) : bytes := EncodeVarint32 (Zlen s) ++ s.
Definition enc_cf (cf : Z) : bytes := if cf =? 0 then [] else EncodeVarint32 cf.
Definition enc_body (r : Rec) : bytes :=
  match r with
  | RKeyValue _ cf key value => enc_cf cf ++ enc_slice key ++ enc_slice value
  | RKey _ cf key => enc_cf cf ++ enc_slice key
  | RLogData blob => enc_slice blob
  | RMark _ => []
  | RXid _ xid => enc_slice xid
  | RCommitTs xid ts => enc_slice ts ++ enc_slice xid
  end.
Definition enc (r : Rec) : bytes := rec_tag r :: enc_body r.
Definition enc_all (rs : list Rec) : bytes := concat (map enc rs).

(** Lengths and column families that fit their fields. *)
Definition short (s : bytes) : Prop := Zlen s < 2 ^ 32.
Definition rec_ok (r : Rec) : Prop :=
  match r with
  | RKeyValue _ cf key value => is_u 32 cf ∧ short key ∧ short value
  | RKey _ cf key => is_u 32 cf ∧ short key
  | RLogData s | RXid _ s => short s
  | RMark _ => True
  | RCommitTs xid ts => short xid ∧ short ts
  end.

(** Whether the record is one of the [Count] updates, and its content flag. *)
Definition counts (r : Rec) : Z := match r with RKeyValue _ _ _ _ | RKey _ _ _ => 1 | _ => 0 end.
Definition rec_flags (r : Rec) : Z :=
  match r with
  | RKeyValue KPut _ _ _ => HAS_PUT
  | RKeyValue KEntity _ _ _ => HAS_PUT_ENTITY
  | RKeyValue KDeleteRange _ _ _ => HAS_DELETE_RANGE
  | RKeyValue KMerge _ _ _ => HAS_MERGE
  | RKeyValue KBlobIndex _ _ _ => HAS_BLOB_INDEX
  | RKey KDelete _ _ => HAS_DELETE
  | RKey KSingleDelete _ _ => HAS_SINGLE_DELETE
  | RMark KNoop | RLogData _ => 0
  | RMark KBeginUnprepare => Z.lor HAS_BEGIN_PREPARE HAS_BEGIN_UNPREPARE
  | RMark _ => HAS_BEGIN_PREPARE
  | RXid KEndPrepare _ => HAS_END_PREPARE
  | RXid KCommit _ | RCommitTs _ _ => HAS_COMMIT
  | RXid KRollback _ => HAS_ROLLBACK
  end.
Definition total (rs : list Rec) : Z := foldr (λ r n, counts r + n) 0 rs.
Definition flags (rs : list Rec) : Z := fold_left (λ f r, Z.lor f (rec_flags r)) rs 0.

Lemma enc_all_app rs1 rs2 : enc_all (rs1 ++ rs2) = enc_all rs1 ++ enc_all rs2.
Proof. unfold enc_all. by rewrite map_app, concat_app. Qed.

Lemma total_app rs1 rs2 : total (rs1 ++ rs2) = total rs1 + total rs2.
Proof. unfold total. induction rs1 as [|r rs1 IH]; [done|]. cbn [app foldr]. rewrite IH. lia. Qed.

Lemma flags_from rs f : fold_left (λ f r, Z.lor f (rec_flags r)) rs f = Z.lor f (flags rs).
Proof.
  unfold flags. revert f. induction rs as [|r rs IH]; intros f; [by rewrite Z.lor_0_r|]. cbn [fold_left].
  rewrite (IH (Z.lor f _)), (IH (Z.lor 0 _)), Z.lor_0_l. by rewrite Z.lor_assoc.
Qed.

Lemma flags_app rs1 rs2 : flags (rs1 ++ rs2) = Z.lor (flags rs1) (flags rs2).
Proof. unfold flags at 1. by rewrite fold_left_app, flags_from. Qed.

(** ** A record is read back *)

#[local] Opaque ztake zdrop Zlen EncodeVarint32.

Lemma PutLengthPrefixedSlice_enc dst s : short s → PutLengthPrefixedSlice dst s = dst ++ enc_slice s.
Proof.
  intros Hs. pose proof (Zlen_nonneg s). unfold PutLengthPrefixedSlice, PutVarint32, enc_slice.
  rewrite wrap_small by (unfold is_u, short in *; lia). by rewrite <- app_assoc.
Qed.

Lemma read_slice s rest : short s → GetLengthPrefixedSlice (enc_slice s ++ rest) = Some (s, rest).
Proof.
  intros Hs. pose proof (round_trip (dec := GetLengthPrefixedSlice) s rest Hs) as Hr.
  by rewrite PutLengthPrefixedSlice_enc in Hr.
Qed.

Lemma read_cf_enc cf rest : is_u 32 cf → read_cf (negb (cf =? 0)) (enc_cf cf ++ rest) = Some (cf, rest).
Proof.
  intros Hu. unfold read_cf, enc_cf. destruct (Z.eqb_spec cf 0) as [->|]; [done|]. cbn [negb].
  by rewrite (round_trip (dec := GetVarint32) cf).
Qed.

Lemma read_key_value_enc cf key value f rest : is_u 32 cf → short key → short value →
  read_key_value (negb (cf =? 0)) f (enc_cf cf ++ enc_slice key ++ enc_slice value ++ rest) =
    Some (cf, mkFields key value (f_blob f) (f_xid f), rest).
Proof. intros. unfold read_key_value. rewrite read_cf_enc by done. cbn. rewrite read_slice by done. cbn. by rewrite read_slice. Qed.

Lemma read_key_enc cf key f rest : is_u 32 cf → short key →
  read_key (negb (cf =? 0)) f (enc_cf cf ++ enc_slice key ++ rest) = Some (cf, mkFields key (f_value f) (f_blob f) (f_xid f), rest).
Proof. intros. unfold read_key. rewrite read_cf_enc by done. cbn. by rewrite read_slice. Qed.

Lemma zdrop_1 {A} (x : A) l : zdrop 1 (x :: l) = l.
Proof. by apply (zdrop_app 1 [x] l). Qed.

Lemma ReadRecord_enc r f rest : rec_ok r →
  ReadRecordFromWriteBatch (enc r ++ rest) f = inr (rec_tag r, rec_cf r, rec_fields r f, rest).
Proof.
  unfold ReadRecordFromWriteBatch, enc. cbn [app]. rewrite zdrop_1. change (znth (rec_tag r :: _) 0) with (rec_tag r).
  unfold ReadRecord_switch.
  destruct r as [k cf key value|k cf key|blob|k|k xid|xid ts]; cbn [rec_ok rec_tag rec_cf enc_body rec_fields].
  - intros (Hu & Hk & Hv). rewrite <- !app_assoc. pose proof (read_key_value_enc cf key value f rest Hu Hk Hv) as E.
    unfold pick. destruct (cf =? 0), k; cbn [fst snd kv_tags negb] in *; cbn -[read_key_value enc_cf]; by rewrite E.
  - intros (Hu & Hk). rewrite <- !app_assoc. pose proof (read_key_enc cf key f rest Hu Hk) as E.
    unfold pick. destruct (cf =? 0), k; cbn [fst snd key_tags negb] in *; cbn -[read_key enc_cf]; by rewrite E.
  - intros Hs. cbn -[enc_slice read_blob]. unfold read_blob. by rewrite read_slice.
  - by destruct k.
  - intros Hs. destruct k; cbn -[enc_slice read_xid]; unfold read_xid; by rewrite read_slice.
  - intros [Hx Ht]. rewrite <- app_assoc. cbn -[enc_slice GetLengthPrefixedSlice read_xid].
    rewrite read_slice by done. unfold read_xid. by rewrite read_slice.
Qed.

(** ** Iteration is a replay of the records *)

Section Replay.
Context {H : Type} (handler : Handler H).
Abbreviation Progress := (@Progress H).

(** Which method of the handler a record is for, and what its answer changes. *)
Definition deliver (r : Rec) (p : Progress) : Progress :=
  let h := it_handler p in
  let then_empty (x : Status * H) := mkProgress (fst x) true (found p) (snd x) in
  let prepare (unprepare : bool) (refuse : H → option string) :=
    let '(s, h) := OnBeginPrepare handler h unprepare in
    mkProgress (from_option Status_NotSupported s (refuse h)) false (found p) h in
  let after_commit_disabled := "WriteCommitted txn tag when write_after_commit_ is disabled"%string in
  let before_prepare_enabled := "WriteCommitted txn tag when write_before_prepare_ is enabled"%string in
  let persisted_enabled :=
    "WritePrepared/WriteUnprepared txn tag when write_after_commit_ is enabled"%string in
  let unprepare_enabled := "WriteUnprepared txn tag when write_after_commit_ is enabled"%string in
  let unprepare_disabled := "WriteUnprepared txn tag when write_before_prepare_ is disabled"%string in
  match r with
  | RKeyValue KPut cf key value => counted p (PutCF handler h cf key value)
  | RKeyValue KEntity cf key value => counted p (PutEntityCF handler h cf key value)
  | RKeyValue KDeleteRange cf key value => counted p (DeleteRangeCF handler h cf key value)
  | RKeyValue KMerge cf key value => counted p (MergeCF handler h cf key value)
  | RKeyValue KBlobIndex cf key value =>
      let p' := counted p (PutBlobIndexCF handler h cf key value) in
      mkProgress (it_status p') (empty_batch p) (found p') (it_handler p')
  | RKey KDelete cf key => counted p (DeleteCF handler h cf key)
  | RKey KSingleDelete cf key => counted p (SingleDeleteCF handler h cf key)
  | RLogData blob => mkProgress (it_status p) false (found p) (LogData handler h blob)
  | RMark KNoop => then_empty (OnNoop handler h (empty_batch p))
  | RMark KBeginPrepare =>
      prepare false (λ h, match WriteBeforePrepare handler h, WriteAfterCommit handler h with
                          | kEnabled, _ => Some before_prepare_enabled
                          | _, kDisabled => Some after_commit_disabled
                          | _, _ => None end)
  | RMark KBeginPersistedPrepare =>
      prepare false (λ h, match WriteAfterCommit handler h with kEnabled => Some persisted_enabled | _ => None end)
  | RMark KBeginUnprepare =>
      prepare true (λ h, match WriteBeforePrepare handler h, WriteAfterCommit handler h with
                         | kDisabled, _ => Some unprepare_disabled
                         | _, kEnabled => Some unprepare_enabled
                         | _, _ => None end)
  | RXid KEndPrepare xid => then_empty (OnEndPrepare handler h xid)
  | RXid KCommit xid => then_empty (OnCommit handler h xid)
  | RXid KRollback xid => then_empty (OnRollback handler h xid)
  | RCommitTs xid ts =>
      let '(s, h) := OnCommitWithTimestamp handler h xid ts in
      mkProgress s (ok s || empty_batch p) (found p) h
  end.

(** The same after the status is reset, and the question whether to go on. *)
Definition give (r : Rec) (p : Progress) : Progress :=
  deliver r (mkProgress Status_OK (empty_batch p) (found p) (it_handler p)).
Definition ask (p : Progress) : bool * Progress :=
  let '(go_on, h) := Continue handler (it_handler p) in (go_on, mkProgress (it_status p) (empty_batch p) (found p) h).

(** The records one after the other; each is given once more if the handler
    answers [TryAgain], and the iteration stops at the first other error. *)
Fixpoint replay (rs : list Rec) (p : Progress) : (Status * H) + (Progress * bool) :=
  match rs with
  | [] => inr (p, true)
  | r :: rs =>
      let '(go_on, p) := ask p in
      if negb go_on then inr (p, false)
      else
        let p := give r p in
        if ok (it_status p) then replay rs p
        else if negb (IsTryAgain (it_status p)) then inr (p, true)
        else
          let '(go_on, p) := ask p in
          if negb go_on then inr (p, false)
          else
            let p := give r p in
            if ok (it_status p) then replay rs p
            else if negb (IsTryAgain (it_status p)) then inr (p, true)
            else
              let '(go_on, p) := ask p in
              if negb go_on then inr (p, false)
              else inl (Status_Corruption "two consecutive TryAgain in WriteBatch handler", it_handler p)
  end.

(** The status of the iteration; [right_count] is whether the header has the
    number of the updates. *)
Definition outcome (right_count : bool) (r : (Status * H) + (Progress * bool)) : Status * H :=
  match r with
  | inl x => x
  | inr (p, go_on) =>
      (if negb (ok (it_status p)) then it_status p
       else if go_on && negb right_count then Status_Corruption "WriteBatch has wrong count" else Status_OK,
       it_handler p)
  end.

Lemma dispatch_rec r f p : dispatch handler (rec_tag r) (rec_cf r) (rec_fields r f) p = Some (deliver r p).
Proof using.
  destruct r as [k cf key value|k cf key|blob|k|k xid|xid ts]; cbn [rec_tag rec_cf rec_fields].
  - unfold pick. destruct (cf =? 0), k; cbn -[ok wrap]; try done; destruct (PutBlobIndexCF _ _ _ _ _) as [s h];
      cbn -[ok wrap]; by destruct (ok s).
  - unfold pick. by destruct (cf =? 0), k.
  - done.
  - destruct k; cbn -[ok];
      [by destruct (OnNoop _ _ _)|destruct (OnBeginPrepare _ _ _) as [s h]; cbn -[ok]..].
    + by destruct (WriteBeforePrepare handler h), (WriteAfterCommit handler h).
    + by destruct (WriteAfterCommit handler h).
    + by destruct (WriteBeforePrepare handler h), (WriteAfterCommit handler h).
  - destruct k; cbn -[ok];
      [by destruct (OnEndPrepare _ _ _)|by destruct (OnCommit _ _ _)|by destruct (OnRollback _ _ _)].
  - cbn -[ok]. destruct (OnCommitWithTimestamp _ _ _ _) as [s h]. by destruct (ok s).
Qed.

Lemma dispatch_give r f s e n h :
  dispatch handler (rec_tag r) (rec_cf r) (rec_fields r f) (mkProgress Status_OK e n h) =
    Some (give r (mkProgress s e n h)).
Proof using. apply dispatch_rec. Qed.

Lemma ok_not_TryAgain s : ok s = true → IsTryAgain s = false.
Proof using. unfold ok, IsTryAgain. by destruct (code_ s). Qed.

Lemma Zlen_enc r : 1 <= Zlen (enc r).
Proof using. unfold enc. rewrite Zlen_cons. pose proof (Zlen_nonneg (enc_body r)). lia. Qed.

Lemma Iterate_loop_replay rs : Forall rec_ok rs → ∀ fuel tag cf f last p, ok (it_status p) = true →
  (S (2 * length rs) <= fuel)%nat → Iterate_loop handler fuel (enc_all rs) tag cf f last p = Some (replay rs p).
Proof using.
  induction 1 as [|r rs Hr Hrs IH]; intros fuel tag cf f last p Hp Hf; (destruct fuel as [|fuel]; [lia|]);
    cbn [Iterate_loop replay]; rewrite Hp, (ok_not_TryAgain _ Hp), orb_false_r; cbn [andb].
  { change (enc_all []) with (@nil Z). by rewrite Zlen_nil. }
  change (enc_all (r :: rs)) with (enc r ++ enc_all rs). pose proof (Zlen_enc r). pose proof (Zlen_nonneg (enc_all rs)).
  destruct (Z.eqb_spec (Zlen (enc r ++ enc_all rs)) 0) as [E0|_]; [rewrite Zlen_app in E0; lia|]. cbn [negb].
  unfold ask at 1. destruct (Continue handler (it_handler p)) as [[] h]; cbn [negb]; [|done].
  rewrite ReadRecord_enc by done. cbn [empty_batch found].
  rewrite (dispatch_give r f (it_status p)). set (p1 := give r _).
  cbn [length] in Hf. destruct (ok (it_status p1)) eqn:E1; [apply IH; [done|lia]|].
  destruct fuel as [|fuel]; [lia|]. cbn [Iterate_loop]. rewrite E1. cbn [andb orb].
  destruct (IsTryAgain (it_status p1)) eqn:T1; cbn [negb]; [|done].
  unfold ask at 1. destruct (Continue handler (it_handler p1)) as [[] h']; cbn [negb]; [|done].
  cbn [empty_batch found].
  rewrite (dispatch_give r f (it_status p1)). set (p2 := give r _).
  destruct (ok (it_status p2)) eqn:E2; [apply IH; [done|lia]|].
  destruct fuel as [|fuel]; [lia|]. cbn [Iterate_loop]. rewrite E2. cbn [andb orb].
  destruct (IsTryAgain (it_status p2)) eqn:T2; cbn [negb]; [|done].
  unfold ask. by destruct (Continue handler (it_handler p2)) as [[] h''].
Qed.

Lemma deliver_found r p : is_u 32 (found p) →
  found (deliver r p) = if ok (it_status (deliver r p)) then u32 (found p + counts r) else found p.
Proof using.
  intros Hu. assert (u32 (found p + 0) = found p) as E0 by (rewrite Z.add_0_r; by apply wrap_small).
  assert (∀ x : Status * H, found (counted p x) =
    if ok (it_status (counted p x)) then u32 (found p + 1) else found p) as Hc.
  { intros [s h]. unfold counted. destruct (ok s) eqn:E; cbn; by rewrite E. }
  assert (∀ s e h, found (@mkProgress H s e (found p) h) = if ok s then u32 (found p + 0) else found p) as Hn.
  { intros s e h. rewrite E0. by destruct (ok s). }
  destruct r as [[] cf key value|[] cf key|blob|[]|[] xid|xid ts]; cbn [deliver counts]; try apply Hc; try apply Hn;
    [destruct (OnBeginPrepare _ _ _); apply Hn..|destruct (OnCommitWithTimestamp _ _ _ _); apply Hn].
Qed.

Lemma give_found r p : is_u 32 (found p) →
  is_u 32 (found (give r p)) ∧ found (give r p) = if ok (it_status (give r p)) then u32 (found p + counts r) else found p.
Proof using.
  intros Hu. unfold give. set (q := mkProgress _ _ _ _). pose proof (deliver_found r q Hu) as E. split; [|exact E].
  rewrite E. destruct (ok _); [by apply wrap_range|done].
Qed.

Lemma replay_found rs : ∀ p p', is_u 32 (found p) → replay rs p = inr (p', true) → ok (it_status p') = true →
  found p' = u32 (found p + total rs).
Proof using.
  induction rs as [|r rs IH]; intros p p' Hu; cbn [replay total foldr].
  { intros [= <-] _. rewrite Z.add_0_r. symmetry. by apply wrap_small. }
  assert (∀ (p1 : Progress) h1, found p1 = found p → ok (it_status (give r (mkProgress (it_status p1) (empty_batch p1) (found p1) h1))) = true →
    replay rs (give r (mkProgress (it_status p1) (empty_batch p1) (found p1) h1)) = inr (p', true) →
    ok (it_status p') = true → found p' = u32 (found p + (counts r + total rs))) as Hgo.
  { intros p1 h1 Ef Hok Hr Hp. set (q := mkProgress _ _ _ _) in *. assert (is_u 32 (found q)) as Hq by (cbn; by rewrite Ef).
    destruct (give_found r q Hq) as [Hq' E]. rewrite Hok in E. rewrite (IH _ _ Hq' Hr Hp), E. cbn [q found]. rewrite Ef.
    unfold u32, wrap. rewrite Zplus_mod_idemp_l. f_equal. lia. }
  unfold ask at 1. destruct (Continue handler (it_handler p)) as [[] h]; cbn [negb]; [|done].
  set (q := mkProgress (it_status p) (empty_batch p) (found p) h) in *. destruct (ok (it_status (give r q))) eqn:E1; [by apply Hgo|].
  destruct (IsTryAgain (it_status (give r q))); cbn [negb]; [|intros [= <-]; congruence].
  assert (found (give r q) = found p) as Ef by (destruct (give_found r q Hu) as [_ ->]; by rewrite E1).
  unfold ask at 1. destruct (Continue handler (it_handler (give r q))) as [[] h']; cbn [negb]; [|done].
  set (q' := mkProgress (it_status (give r q)) _ _ h') in *. destruct (ok (it_status (give r q'))) eqn:E2; [by apply Hgo|].
  destruct (IsTryAgain (it_status (give r q'))); cbn [negb]; [|intros [= <-]; congruence].
  unfold ask. destruct (Continue handler _) as [[] ?]; done.
Qed.

(** The bytes of a batch. *)
Definition batch_bytes (seq count : Z) (rs : list Rec) : bytes := EncodeFixed64 seq ++ EncodeFixed32 count ++ enc_all rs.

Lemma Count_batch b seq count rs : is_u 32 count → rep_ b = batch_bytes seq count rs → Count b = count.
Proof using.
  intros Hc E. unfold Count. rewrite E. unfold batch_bytes. rewrite zdrop_app by by rewrite Zlen_EncodeFixed64.
  by apply DecodeFixed32_Encode.
Qed.

Lemma enc_all_length rs : Z.of_nat (length rs) <= Zlen (enc_all rs).
Proof using.
  induction rs as [|r rs IH]; [done|]. change (enc_all (r :: rs)) with (enc r ++ enc_all rs). rewrite Zlen_app.
  pose proof (Zlen_enc r). cbn [length]. lia.
Qed.

Lemma Iterate_batch b seq count rs h : is_u 32 count → Forall rec_ok rs → rep_ b = batch_bytes seq count rs →
  Iterate handler b h = Some (outcome (count =? u32 (total rs)) (replay rs (mkProgress Status_OK true 0 h))).
Proof using.
  intros Hc Hrs E. assert (Zlen (rep_ b) = kHeader + Zlen (enc_all rs)) as El.
  { rewrite E. unfold batch_bytes. rewrite !Zlen_app, Zlen_EncodeFixed64, Zlen_EncodeFixed32. unfold kHeader. lia. }
  assert (zdrop kHeader (rep_ b) = enc_all rs) as Ed.
  { rewrite E. unfold batch_bytes. rewrite app_assoc. apply zdrop_app. by rewrite Zlen_app, Zlen_EncodeFixed64, Zlen_EncodeFixed32. }
  pose proof (Zlen_nonneg (enc_all rs)). pose proof (enc_all_length rs).
  unfold Iterate, Iterate_range. rewrite !(proj2 (Z.ltb_ge _ _)) by lia. cbn [orb].
  rewrite Ed, ztake_all, !Z.eqb_refl by lia. cbn [andb].
  rewrite Iterate_loop_replay by (try done; unfold iterate_fuel; lia). cbn.
  pose proof (replay_found rs (mkProgress Status_OK true 0 h)) as Hf.
  destruct (replay rs _) as [[s h']|[p go_on]]; [done|]. cbn [outcome]. f_equal. f_equal.
  destruct (ok (it_status p)) eqn:Ep; [|done]. cbn [negb]. destruct go_on; [|done]. cbn [andb].
  rewrite (Count_batch b seq count rs Hc E), (Hf p) by (done || by vm_compute). cbn [found]. rewrite Z.add_0_l.
  by rewrite (Z.eqb_sym count).
Qed.
End Replay.

(** ** Iteration returns *)

#[local] Instance read_cf_prefix b : PrefixReader (read_cf b).
Proof. destruct b; [exact GetVarint32_prefix|apply prefix_reader_ret]. Qed.
#[local] Instance read_key_value_prefix b f : PrefixReader (read_key_value b f).
Proof.
  refine (prefix_reader_bind (read_cf b) (λ cf p, _) _ _). intros cf.
  refine (prefix_reader_bind GetLengthPrefixedSlice (λ key p, _) _ _). intros key.
  refine (prefix_reader_bind GetLengthPrefixedSlice (λ value p, _) _ _). intros value. apply prefix_reader_ret.
Qed.
#[local] Instance read_key_prefix b f : PrefixReader (read_key b f).
Proof.
  refine (prefix_reader_bind (read_cf b) (λ cf p, _) _ _). intros cf.
  refine (prefix_reader_bind GetLengthPrefixedSlice (λ key p, _) _ _). intros key. apply prefix_reader_ret.
Qed.
#[local] Instance read_xid_prefix f : PrefixReader (read_xid f).
Proof. refine (prefix_reader_bind GetLengthPrefixedSlice (λ xid p, _) _ _). intros xid. apply prefix_reader_ret. Qed.
#[local] Instance read_blob_prefix f : PrefixReader (read_blob f).
Proof. refine (prefix_reader_bind GetLengthPrefixedSlice (λ xid p, _) _ _). intros xid. apply prefix_reader_ret. Qed.

(** [ReadRecordFromWriteBatch] after the tag is such a reader. *)
Lemma ReadRecord_reader tag f : ∃ dec : bytes → option (Z * Fields * bytes), PrefixReader dec ∧ ∀ p,
  match dec p with
  | Some (cf, f', rest) => ReadRecordFromWriteBatch (tag :: p) f = inr (tag, cf, f', rest)
  | None => ∃ msg, ReadRecordFromWriteBatch (tag :: p) f = inl (Status_Corruption msg)
  end.
Proof.
  assert (∀ dec msg, PrefixReader dec → ∀ g : bytes → Status + (Z * Z * Fields * bytes), (∀ p, g p = match dec p with
    | Some (cf, f', rest) => inr (tag, cf, f', rest) | None => inl (Status_Corruption msg) end) →
    ∃ dec : bytes → option (Z * Fields * bytes), PrefixReader dec ∧ ∀ p, match dec p with
    | Some (cf, f', rest) => g p = inr (tag, cf, f', rest)
    | None => ∃ msg, g p = inl (Status_Corruption msg) end) as Hex.
  { intros dec msg Hd g Hg. exists dec. split; [done|]. intros p. rewrite Hg. destruct (dec p) as [[[cf f'] rest]|]; eauto. }
  assert (∃ dec : bytes → option (Z * Fields * bytes), PrefixReader dec ∧ ∀ p, match dec p with
    | Some (cf, f', rest) => ReadRecord_switch tag f p = inr (tag, cf, f', rest)
    | None => ∃ msg, ReadRecord_switch tag f p = inl (Status_Corruption msg) end) as (dec & Hd & Hp).
  2: { exists dec. split; [done|]. intros p. unfold ReadRecordFromWriteBatch. rewrite zdrop_1. apply Hp. }
  unfold ReadRecord_switch.
  repeat match goal with |- context [if ?b then _ else _] => match b with _ || _ => destruct b | _ =? _ => destruct b end end.
  all: try (eapply Hex; [|by intros p; eauto]; apply _).
  - exists (λ p, Some (0, f, p)). split; [apply prefix_reader_ret|done].
  - exists (λ p, '(key, p) ← GetLengthPrefixedSlice p; read_xid (mkFields key (f_value f) (f_blob f) (f_xid f)) p). split.
    + apply prefix_reader_bind; apply _.
    + intros p. destruct (GetLengthPrefixedSlice p) as [[key q]|]; cbn -[read_xid]; [|eauto].
      destruct (read_xid _ q) as [[[cf f'] rest]|]; eauto.
  - exists (λ _, None). split; [by split|eauto].
Qed.

Lemma ReadRecord_shorter input f tag cf f' rest : Zlen input ≠ 0 →
  ReadRecordFromWriteBatch input f = inr (tag, cf, f', rest) → Zlen rest < Zlen input.
Proof.
  destruct input as [|c p]; [done|]. intros _ E. destruct (ReadRecord_reader c f) as (dec & Hd & Hp). specialize (Hp p).
  destruct (dec p) as [[[cf' f''] rest']|] eqn:Ed; [|destruct Hp; congruence].
  assert (rest' = rest) as -> by congruence. apply reader_le in Ed. rewrite Zlen_cons. lia.
Qed.

Lemma ReadRecord_truncated r f q t : rec_ok r → enc r = q ++ t → q ≠ [] → t ≠ [] →
  ∃ msg, ReadRecordFromWriteBatch q f = inl (Status_Corruption msg).
Proof.
  intros Hr E Hq Ht. destruct q as [|c q]; [done|]. destruct (ReadRecord_reader c f) as (dec & Hd & Hp).
  pose proof (ReadRecord_enc r f [] Hr) as Er. rewrite app_nil_r, E in Er. cbn [app] in Er.
  pose proof (Hp (q ++ t)) as Hqt. destruct (dec (q ++ t)) as [[[cf f'] rest]|] eqn:Ed; [|destruct Hqt; congruence].
  assert (rest = []) as -> by congruence. pose proof (Hp q) as Hq'.
  destruct (prefix_reader q t _ _ Ed) as [(rest' & _ & E2)|[E2 _]]; [by destruct rest', t|]. by rewrite E2 in Hq'.
Qed.

Section Terminates.
Context {H : Type} (handler : Handler H).

Lemma Iterate_loop_total fuel : ∀ input tag cf f (last : bool) (p : @Progress H),
  (2 * Z.to_nat (Zlen input) + (if IsTryAgain (it_status p) then if last then 1 else 2 else 1) <= fuel)%nat →
  is_Some (Iterate_loop handler fuel input tag cf f last p).
Proof using.
  induction fuel as [|fuel IH]; intros input tag cf f last p Hf; [destruct (IsTryAgain (it_status p)), last; lia|].
  cbn [Iterate_loop]. destruct (ok (it_status p) && negb (Zlen input =? 0) || IsTryAgain (it_status p)) eqn:Ec; [|by eexists].
  destruct (Continue handler (it_handler p)) as [[] h]; cbn [negb]; [|by eexists].
  destruct (IsTryAgain (it_status p)) eqn:Et; cbn [negb].
  - destruct last; [by eexists|]. destruct (dispatch _ _ _ _ _) as [p'|]; [|by eexists]. apply IH.
    destruct (IsTryAgain (it_status p')); lia.
  - rewrite orb_false_r in Ec. apply andb_true_iff in Ec as [_ Ez]. destruct (Z.eqb_spec (Zlen input) 0); [done|].
    destruct (ReadRecordFromWriteBatch input f) as [|[[[tag' cf'] f'] rest]] eqn:Er; [by eexists|].
    destruct (dispatch _ _ _ _ _) as [p'|]; [|by eexists]. apply ReadRecord_shorter in Er; [|done].
    pose proof (Zlen_nonneg rest). apply IH. destruct (IsTryAgain (it_status p')); lia.
Qed.

(** C26: iterating over a batch returns, whatever the bytes of the batch and
    whatever the handler answers, and also for a part of the batch: the loop reads
    a byte at least every other turn. *)
Theorem Iterate_terminates wb h begin_ end_ :
  is_Some (Iterate handler wb h) ∧ is_Some (Iterate_range handler wb h begin_ end_).
Proof using.
  assert (∀ b e, is_Some (Iterate_range handler wb h b e)) as Hr; [|split; [|done]].
  - intros b e. unfold Iterate_range. destruct (_ || _); [by eexists|].
    destruct (Iterate_loop_total (iterate_fuel (Zlen (ztake (e - b) (zdrop b (rep_ wb))))) (ztake (e - b) (zdrop b (rep_ wb)))
      0 0 (mkFields [] [] [] []) false (mkProgress Status_OK true 0 h)) as [r ->]; [unfold iterate_fuel; cbn; lia|by eexists].
  - unfold Iterate. destruct (_ <? _); [by eexists|done].
Qed.
End Terminates.

(** ** The operations on the list of records *)

(** The save point of a batch that holds [rs]; save points are taken of prefixes
    of the batch. *)
Definition point (rs : list Rec) : SavePoint :=
  mkSavePoint (kHeader + Zlen (enc_all rs)) (swrap 32 (u32 (total rs))) (flags rs).
Fixpoint nested (saved : list (list Rec)) (rs : list Rec) : Prop :=
  match saved with
  | [] => True
  | s :: saved => s `prefix_of` rs ∧ nested saved s
  end.

(** The batch is the encoding of [rs], and its save points are those of [saved]. *)
Record batch_holds (b : WriteBatch) (seq : Z) (rs : list Rec) (saved : list (list Rec)) : Prop := {
  holds_rep : rep_ b = batch_bytes seq (u32 (total rs)) rs;
  holds_flags : content_flags_ b = flags rs;
  holds_ok : Forall rec_ok rs;
  holds_points : save_points_ b = map point saved;
  holds_nested : nested saved rs
}.

Inductive Update :=
  | OPut (cf : Z) (key value : bytes)
  | OPutParts (cf : Z) (key value : list bytes)
  | OPutEntity (cf : Z) (key : bytes) (columns : list WideColumn)
  | ODelete (cf : Z) (key : bytes)
  | ODeleteParts (cf : Z) (key : list bytes)
  | OSingleDelete (cf : Z) (key : bytes)
  | OSingleDeleteParts (cf : Z) (key : list bytes)
  | ODeleteRange (cf : Z) (begin_key end_key : bytes)
  | ODeleteRangeParts (cf : Z) (begin_key end_key : list bytes)
  | OMerge (cf : Z) (key value : bytes)
  | OMergeParts (cf : Z) (key value : list bytes)
  | OPutBlobIndex (cf : Z) (key value : bytes)
  | OLogData (blob : bytes).

Inductive Op :=
  | OUpdate (u : Update)
  | ONoop
  | OCommit (xid : bytes)
  | OCommitTs (xid ts : bytes)
  | ORollback (xid : bytes)
  | OSetSavePoint
  | ORollbackToSavePoint
  | OPopSavePoint.

Definition update (b : WriteBatch) (u : Update) : Status * WriteBatch :=
  match u with
  | OPut cf key value => Put b cf key value
  | OPutParts cf key value => Put_parts b cf key value
  | OPutEntity cf key columns => PutEntity b cf key columns
  | ODelete cf key => Delete b cf key
  | ODeleteParts cf key => Delete_parts b cf key
  | OSingleDelete cf key => SingleDelete b cf key
  | OSingleDeleteParts cf key => SingleDelete_parts b cf key
  | ODeleteRange cf begin_key end_key => DeleteRange b cf begin_key end_key
  | ODeleteRangeParts cf begin_key end_key => DeleteRange_parts b cf begin_key end_key
  | OMerge cf key value => Merge b cf key value
  | OMergeParts cf key value => Merge_parts b cf key value
  | OPutBlobIndex cf key value => PutBlobIndex b cf key value
  | OLogData blob => PutLogData b blob
  end.
Definition step (b : WriteBatch) (o : Op) : Status * WriteBatch :=
  match o with
  | OUpdate u => update b u
  | ONoop => (Status_OK, InsertNoop b)
  | OCommit xid => (Status_OK, MarkCommit b xid)
  | OCommitTs xid ts => (Status_OK, MarkCommitWithTimestamp b xid ts)
  | ORollback xid => (Status_OK, MarkRollback b xid)
  | OSetSavePoint => (Status_OK, SetSavePoint b)
  | ORollbackToSavePoint => RollbackToSavePoint b
  | OPopSavePoint => PopSavePoint b
  end.

(** The record of an update, or why it is refused. *)
Definition checked (key value : bytes) (r : Rec) : Status + Rec :=
  if uint32_max <? Zlen key then inl (Status_InvalidArgument "key is too large")
  else if uint32_max <? Zlen value then inl (Status_InvalidArgument "value is too large") else inr r.
Definition checked_parts (key value : list bytes) (r : Rec) : Status + Rec :=
  if uint32_max <=? Zlen (concat key) then inl (Status_InvalidArgument "key is too large")
  else if uint32_max <=? Zlen (concat value) then inl (Status_InvalidArgument "value is too large") else inr r.
Definition update_rec (u : Update) : Status + Rec :=
  match u with
  | OPut cf key value => checked key value (RKeyValue KPut cf key value)
  | OPutParts cf key value => checked_parts key value (RKeyValue KPut cf (concat key) (concat value))
  | OPutEntity cf key columns =>
      let '(s, entity) := Serialize (sort_columns columns) [] in
      if uint32_max <? Zlen key then inl (Status_InvalidArgument "key is too large")
      else if negb (ok s) then inl s
      else if uint32_max <? Zlen entity then inl (Status_InvalidArgument "wide column entity is too large")
      else inr (RKeyValue KEntity cf key entity)
  | ODelete cf key => inr (RKey KDelete cf key)
  | ODeleteParts cf key => inr (RKey KDelete cf (concat key))
  | OSingleDelete cf key => inr (RKey KSingleDelete cf key)
  | OSingleDeleteParts cf key => inr (RKey KSingleDelete cf (concat key))
  | ODeleteRange cf begin_key end_key => inr (RKeyValue KDeleteRange cf begin_key end_key)
  | ODeleteRangeParts cf begin_key end_key => inr (RKeyValue KDeleteRange cf (concat begin_key) (concat end_key))
  | OMerge cf key value => checked key value (RKeyValue KMerge cf key value)
  | OMergeParts cf key value => checked_parts key value (RKeyValue KMerge cf (concat key) (concat value))
  | OPutBlobIndex cf key value => inr (RKeyValue KBlobIndex cf key value)
  | OLogData blob => inr (RLogData blob)
  end.

(** The operations of the abstract batch: the records, and the lists of records
    at the save points. *)
Definition abstract_step (max_bytes : Z) (st : list Rec * list (list Rec)) (o : Op) :
    Status * (list Rec * list (list Rec)) :=
  let '(rs, saved) := st in
  match o with
  | OUpdate u =>
      match update_rec u with
      | inl s => (s, st)
      | inr r =>
          if negb (max_bytes =? 0) && (max_bytes <? kHeader + Zlen (enc_all (rs ++ [r])))
          then (Status_MemoryLimit, st) else (Status_OK, (rs ++ [r], saved))
      end
  | ONoop => (Status_OK, (rs ++ [RMark KNoop], saved))
  | OCommit xid => (Status_OK, (rs ++ [RXid KCommit xid], saved))
  | OCommitTs xid ts => (Status_OK, (rs ++ [RCommitTs xid ts], saved))
  | ORollback xid => (Status_OK, (rs ++ [RXid KRollback xid], saved))
  | OSetSavePoint => (Status_OK, (rs, rs :: saved))
  | ORollbackToSavePoint =>
      match saved with [] => (Status_NotFound "", st) | s :: saved => (Status_OK, (s, saved)) end
  | OPopSavePoint => match saved with [] => (Status_NotFound "", st) | _ :: saved => (Status_OK, (rs, saved)) end
  end.

(** What the callers see to: column families have 32 bits, and the methods that
    do not look at the lengths get slices whose length has. *)
Definition op_ok (o : Op) : Prop :=
  match o with
  | OUpdate u => match update_rec u with inl _ => True | inr r => rec_ok r end
  | OCommit xid | ORollback xid => short xid
  | OCommitTs xid ts => short xid ∧ short ts
  | _ => True
  end.

(** Sequences of operations, with the statuses they return. *)
Fixpoint run {A} (step : A → Op → Status * A) (a : A) (os : list Op) : list Status * A :=
  match os with
  | [] => ([], a)
  | o :: os => let '(s, a) := step a o in let '(ss, a) := run step a os in (s :: ss, a)
  end.

Lemma wrap_swrap w z : 0 <= w → wrap w (swrap w z) = wrap w z.
Proof.
  intros Hw. unfold wrap, swrap. rewrite Zminus_mod_idemp_l. f_equal. lia.
Qed.

Lemma Zlen_batch_bytes seq c rs : Zlen (batch_bytes seq c rs) = kHeader + Zlen (enc_all rs).
Proof. unfold batch_bytes. rewrite !Zlen_app, Zlen_EncodeFixed64, Zlen_EncodeFixed32. unfold kHeader. lia. Qed.

Lemma batch_bytes_snoc seq c rs r : batch_bytes seq c (rs ++ [r]) = batch_bytes seq c rs ++ enc r.
Proof.
  unfold batch_bytes. rewrite enc_all_app. unfold enc_all at 2. cbn [map concat]. by rewrite app_nil_r, <- !app_assoc.
Qed.

Lemma overwrite_count seq c rs n : overwrite (batch_bytes seq c rs) 8 (EncodeFixed32 n) = batch_bytes seq n rs.
Proof.
  unfold overwrite, batch_bytes. rewrite ztake_app, Zlen_EncodeFixed32 by by rewrite Zlen_EncodeFixed64.
  f_equal.
Qed.

(** The batch with one more record. *)
Definition extend (b : WriteBatch) (r : Rec) : WriteBatch :=
  set_content_flags (set_rep b (rep_ (if counts r =? 0 then b else SetCount b (Count b + 1)) ++ enc r))
    (Z.lor (content_flags_ b) (rec_flags r)).

Lemma extend_rep b seq rs saved r : batch_holds b seq rs saved →
  rep_ (extend b r) = batch_bytes seq (u32 (total (rs ++ [r]))) rs ++ enc r.
Proof.
  intros Hb. cbn [extend rep_ set_content_flags set_rep]. f_equal. rewrite total_app. cbn [total foldr]. rewrite Z.add_0_r.
  assert (Count b = u32 (total rs)) as Ec by (eapply Count_batch; [by apply wrap_range|apply Hb]).
  assert (counts r = 0 ∨ counts r = 1) as [-> | ->] by (destruct r; cbn; auto).
  - rewrite Z.add_0_r. apply Hb.
  - cbn [SetCount set_rep rep_]. change (1 =? 0) with false. cbn match. rewrite Ec. cbn [SetCount set_rep rep_].
    rewrite (holds_rep _ _ _ _ Hb), overwrite_count. f_equal. unfold u32, wrap. by rewrite Zplus_mod_idemp_l.
Qed.

Lemma nested_app saved rs rs' : nested saved rs → nested saved (rs ++ rs').
Proof. destruct saved as [|s saved]; [done|]. cbn. intros [? ?]. split; [by apply prefix_app_r|done]. Qed.

Lemma holds_extend b seq rs saved r : batch_holds b seq rs saved → rec_ok r →
  batch_holds (extend b r) seq (rs ++ [r]) saved.
Proof.
  intros Hb Hr. split.
  - rewrite (extend_rep b seq rs saved r Hb). by rewrite batch_bytes_snoc.
  - cbn [extend content_flags_ set_content_flags]. rewrite flags_app, (holds_flags _ _ _ _ Hb).
    change (flags [r]) with (Z.lor 0 (rec_flags r)). by rewrite Z.lor_0_l.
  - apply Forall_app. split; [apply Hb|by constructor].
  - apply Hb.
  - apply nested_app, Hb.
Qed.

(** An update that makes the batch too large is taken back. *)
Lemma commit_extend b seq rs saved r : batch_holds b seq rs saved →
  commit (LocalSavePoint b) (extend b r) =
    if negb (max_bytes_ b =? 0) && (max_bytes_ b <? kHeader + Zlen (enc_all (rs ++ [r])))
    then (Status_MemoryLimit, b) else (Status_OK, extend b r).
Proof.
  intros Hb. unfold commit. pose proof (extend_rep b seq rs saved r Hb) as Er.
  assert (Count b = u32 (total rs)) as Ec by (eapply Count_batch; [by apply wrap_range|apply Hb]).
  rewrite Er. rewrite Zlen_app, Zlen_batch_bytes. rewrite enc_all_app, Zlen_app. change (enc_all [r]) with (enc r ++ []).
  rewrite app_nil_r, Z.add_assoc. change (max_bytes_ (extend b r)) with (max_bytes_ b). destruct (_ && _); [|done]. f_equal.
  pose proof (Zlen_nonneg (enc r)). destruct Hb as [Hrep Hfl _ _ _].
  assert (GetDataSize b = kHeader + Zlen (enc_all rs)) as Es by (unfold GetDataSize; by rewrite Hrep, Zlen_batch_bytes).
  unfold SetCount. cbn [LocalSavePoint sp_size sp_count sp_content_flags rep_ set_rep]. unfold resize.
  rewrite Es, Zlen_app, Zlen_batch_bytes, (proj2 (Z.leb_le _ _)), ztake_app by (rewrite ?Zlen_batch_bytes; lia).
  rewrite overwrite_count, wrap_swrap, Ec, wrap_idemp by lia. rewrite <- Hrep. by destruct b.
Qed.

(** What the updates write. *)
Ltac fields := cbn [save_points_ wal_term_point_ is_latest_persistent_state_ needs_in_place_update_ts_
  has_key_with_ts_ content_flags_ max_bytes_ default_cf_ts_sz_ rep_ fst snd].

Lemma push_key b cf key tag cf_tag : short key →
  push_slice (push_tag b cf tag cf_tag) key =
    set_rep b (rep_ b ++ pick cf (tag, cf_tag) :: enc_cf cf ++ enc_slice key).
Proof.
  intros Hk. unfold push_slice, push_tag, set_rep. fields. rewrite PutLengthPrefixedSlice_enc by done. f_equal.
  unfold pick, enc_cf, PutVarint32. destruct (cf =? 0); fields; cbn [app]; by rewrite <- ?app_assoc.
Qed.
Lemma push_value b s value : short value → push_slice (set_rep b s) value = set_rep b (s ++ enc_slice value).
Proof. intros Hv. unfold push_slice, set_rep. fields. by rewrite PutLengthPrefixedSlice_enc. Qed.

Lemma extend_key_value b k cf key value : short key → short value →
  add_flags (push_slice (push_slice (push_tag (SetCount b (Count b + 1)) cf (fst (kv_tags k)) (snd (kv_tags k))) key) value)
    (rec_flags (RKeyValue k cf key value)) = extend b (RKeyValue k cf key value).
Proof.
  intros Hk Hv. rewrite push_key, push_value by done. unfold add_flags, extend, set_content_flags, SetCount, set_rep. fields.
  f_equal. change (counts _ =? 0) with false. fields. rewrite <- !app_assoc. cbn [app]. rewrite <- app_assoc. unfold enc, rec_tag, enc_body. by destruct (kv_tags k).
Qed.
Lemma extend_key_only b k cf key : short key →
  add_flags (push_slice (push_tag (SetCount b (Count b + 1)) cf (fst (key_tags k)) (snd (key_tags k))) key)
    (rec_flags (RKey k cf key)) = extend b (RKey k cf key).
Proof.
  intros Hk. rewrite push_key by done. unfold add_flags, extend, set_content_flags, SetCount, set_rep. fields.
  f_equal.
Qed.
Lemma push_parts_concat b parts : push_parts b parts = push_slice b (concat parts).
Proof. unfold push_parts, push_slice. by rewrite PutLengthPrefixedSliceParts_concat. Qed.

Lemma CheckSlicePartsLength_concat key value r :
  checked_parts key value r = if ok (CheckSlicePartsLength key value) then inr r else inl (CheckSlicePartsLength key value).
Proof. unfold CheckSlicePartsLength, checked_parts. rewrite !fold_parts_length. do 2 (destruct (_ <=? _); [done|]). done. Qed.

Lemma update_extend b u : op_ok (OUpdate u) →
  update b u = match update_rec u with inl s => (s, b) | inr r => commit (LocalSavePoint b) (extend b r) end.
Proof.
  destruct u as [cf key value|cf key value|cf key columns|cf key|cf key|cf key|cf key|cf key value|cf key value|cf key value|
    cf key value|cf key value|blob]; cbn [op_ok update update_rec].
  - unfold Put, checked. do 2 (destruct (_ <? _); [done|]). intros (_ & Hk & Hv). f_equal.
    exact (extend_key_value b KPut cf key value Hk Hv).
  - rewrite CheckSlicePartsLength_concat. unfold Put_parts. destruct (ok _); [|done]. intros (_ & Hk & Hv). f_equal.
    rewrite !push_parts_concat. exact (extend_key_value b KPut cf _ _ Hk Hv).
  - unfold PutEntity. destruct (Serialize _ _) as [s entity]. destruct (_ <? _); [done|]. destruct (ok s); [|done]. cbn [negb].
    destruct (_ <? _); [done|]. intros (_ & Hk & Hv). f_equal. exact (extend_key_value b KEntity cf key entity Hk Hv).
  - intros (_ & Hk). unfold Delete. f_equal. exact (extend_key_only b KDelete cf key Hk).
  - intros (_ & Hk). unfold Delete_parts. rewrite push_parts_concat. f_equal. exact (extend_key_only b KDelete cf _ Hk).
  - intros (_ & Hk). unfold SingleDelete. f_equal. exact (extend_key_only b KSingleDelete cf key Hk).
  - intros (_ & Hk). unfold SingleDelete_parts. rewrite push_parts_concat. f_equal. exact (extend_key_only b KSingleDelete cf _ Hk).
  - intros (_ & Hk & Hv). unfold DeleteRange. f_equal. exact (extend_key_value b KDeleteRange cf key value Hk Hv).
  - intros (_ & Hk & Hv). unfold DeleteRange_parts. rewrite !push_parts_concat. f_equal.
    exact (extend_key_value b KDeleteRange cf _ _ Hk Hv).
  - unfold Merge, checked. do 2 (destruct (_ <? _); [done|]). intros (_ & Hk & Hv). f_equal.
    exact (extend_key_value b KMerge cf key value Hk Hv).
  - rewrite CheckSlicePartsLength_concat. unfold Merge_parts. destruct (ok _); [|done]. intros (_ & Hk & Hv). f_equal.
    rewrite !push_parts_concat. exact (extend_key_value b KMerge cf _ _ Hk Hv).
  - intros (_ & Hk & Hv). unfold PutBlobIndex. f_equal. exact (extend_key_value b KBlobIndex cf key value Hk Hv).
  - intros Hs. unfold PutLogData. f_equal. rewrite push_value by done. unfold extend, set_content_flags, set_rep. fields.
    cbn [rec_flags]. rewrite Z.lor_0_r. f_equal. by rewrite <- app_assoc.
Qed.

(** The markers write their record without looking at the size of the batch. *)
Lemma mark_extend b :
  InsertNoop b = extend b (RMark KNoop) ∧
  (∀ xid, short xid → MarkCommit b xid = extend b (RXid KCommit xid) ∧ MarkRollback b xid = extend b (RXid KRollback xid)) ∧
  (∀ xid ts, short xid → short ts → MarkCommitWithTimestamp b xid ts = extend b (RCommitTs xid ts)).
Proof.
  unfold MarkCommit, MarkRollback, MarkCommitWithTimestamp, InsertNoop.
  split_and!; [|intros xid Hx; rewrite !push_value by done; split|intros xid ts Hx Ht; rewrite !push_value by done];
    unfold extend, add_flags, set_content_flags, set_rep; fields; f_equal.
  - cbn [rec_flags]. by rewrite Z.lor_0_r.
  - by rewrite <- app_assoc.
  - by rewrite <- app_assoc.
  - by rewrite <- !app_assoc.
Qed.

Lemma enc_all_nil rs : Zlen (enc_all rs) = 0 → rs = [].
Proof. intros E. pose proof (enc_all_length rs). destruct rs; [done|cbn [length] in *; lia]. Qed.

Lemma rollback_holds b seq rs s saved : batch_holds b seq rs (s :: saved) →
  ∃ b', RollbackToSavePoint b = (Status_OK, b') ∧ batch_holds b' seq s saved ∧ max_bytes_ b' = max_bytes_ b.
Proof.
  intros [Hrep Hfl Hok Hsp [[t ->] Hn]]. unfold RollbackToSavePoint. rewrite Hsp. cbn [map]. fields.
  change (sp_size (point s)) with (kHeader + Zlen (enc_all s)). change (rep_ (set_save_points b _)) with (rep_ b).
  pose proof (Zlen_nonneg (enc_all s)). pose proof (Zlen_nonneg (enc_all t)).
  destruct (Z.eqb_spec (kHeader + Zlen (enc_all s)) (Zlen (rep_ b))) as [E|_].
  { rewrite Hrep, Zlen_batch_bytes, enc_all_app, Zlen_app in E. assert (t = []) as -> by (apply enc_all_nil; lia).
    rewrite app_nil_r in *. eexists. split; [done|]. split; [by split|done]. }
  destruct (Z.eqb_spec (kHeader + Zlen (enc_all s)) 0) as [E|_]; [unfold kHeader in E; lia|].
  eexists. split; [done|]. split; [|done]. apply Forall_app in Hok as [Hok _].
  split; [|done|done|done|done]. unfold SetCount, set_content_flags, set_rep, set_save_points. fields. unfold resize.
  assert (rep_ b = batch_bytes seq (u32 (total (s ++ t))) s ++ enc_all t) as ->.
  { rewrite Hrep. unfold batch_bytes. by rewrite enc_all_app, <- !app_assoc. }
  rewrite Zlen_app, Zlen_batch_bytes, (proj2 (Z.leb_le _ _)), ztake_app by (rewrite ?Zlen_batch_bytes; lia).
  rewrite overwrite_count. cbn [point sp_count]. by rewrite wrap_swrap, wrap_idemp.
Qed.

Lemma step_refines b seq rs saved o : batch_holds b seq rs saved → op_ok o →
  ∃ s b' rs' saved', step b o = (s, b') ∧ abstract_step (max_bytes_ b) (rs, saved) o = (s, (rs', saved')) ∧
    batch_holds b' seq rs' saved' ∧ max_bytes_ b' = max_bytes_ b.
Proof.
  intros Hb Ho. destruct (mark_extend b) as (E1 & E2 & E3).
  assert (∀ r, rec_ok r → batch_holds (extend b r) seq (rs ++ [r]) saved ∧ max_bytes_ (extend b r) = max_bytes_ b) as Hx
    by (intros r Hr; split; [by apply holds_extend|done]).
  destruct o as [u| |xid|xid ts|xid| | |]; cbn [step abstract_step].
  - rewrite update_extend by done. cbn [op_ok] in Ho. destruct (update_rec u) as [s|r]; [by do 4 eexists|].
    rewrite (commit_extend b seq rs saved r Hb). destruct (_ && _); [by do 4 eexists|]. do 4 eexists. do 2 (split; [done|]). by apply Hx.
  - rewrite E1. do 4 eexists. do 2 (split; [done|]). by apply Hx.
  - rewrite (proj1 (E2 xid Ho)). do 4 eexists. do 2 (split; [done|]). by apply Hx.
  - rewrite E3 by apply Ho. do 4 eexists. do 2 (split; [done|]). by apply Hx.
  - rewrite (proj2 (E2 xid Ho)). do 4 eexists. do 2 (split; [done|]). by apply Hx.
  - do 4 eexists. do 2 (split; [done|]). split; [|done]. destruct Hb as [Hrep Hfl Hok Hsp Hn]. split; [done..| |by split].
    cbn [SetSavePoint set_save_points save_points_ map]. rewrite Hsp. f_equal. unfold LocalSavePoint, point, GetDataSize.
    rewrite (Count_batch b seq (u32 (total rs)) rs) by (done || by apply wrap_range). by rewrite Hrep, Zlen_batch_bytes, Hfl.
  - destruct saved as [|s saved].
    + unfold RollbackToSavePoint. rewrite (holds_points _ _ _ _ Hb). by do 4 eexists.
    + destruct (rollback_holds b seq rs s saved Hb) as (b' & -> & Hb' & Hm). by do 4 eexists.
  - unfold PopSavePoint. rewrite (holds_points _ _ _ _ Hb). destruct saved as [|s saved]; [by do 4 eexists|].
    do 4 eexists. do 2 (split; [done|]). split; [|done]. destruct Hb as [Hrep Hfl Hok Hsp [Hp Hn]]. split; [done..|].
    fields. destruct saved; [done|]. destruct Hn as [Hp' ?]. split; [by etrans|done].
Qed.

Lemma holds_new max_bytes ts_sz : batch_holds (NewWriteBatch max_bytes ts_sz) 0 [] [].
Proof. by split. Qed.

Lemma run_refines os : ∀ b seq rs saved, batch_holds b seq rs saved → Forall op_ok os →
  ∃ ss b' rs' saved', run step b os = (ss, b') ∧ run (abstract_step (max_bytes_ b)) (rs, saved) os = (ss, (rs', saved')) ∧
    batch_holds b' seq rs' saved'.
Proof.
  induction os as [|o os IH]; intros b seq rs saved Hb Hos; [by do 4 eexists|]. apply Forall_cons in Hos as [Ho Hos].
  destruct (step_refines b seq rs saved o Hb Ho) as (s & b1 & rs1 & saved1 & E1 & E2 & Hb1 & Hm).
  destruct (IH b1 seq rs1 saved1 Hb1 Hos) as (ss & b' & rs' & saved' & E3 & E4 & Hb'). rewrite Hm in E4.
  exists (s :: ss), b', rs', saved'. cbn [run]. by rewrite E1, E2, E3, E4.
Qed.

(** C4: a write batch is a list of records with the lists at its save points.
    After any sequence of updates, transaction markers and save point operations
    on a new batch, the operations have returned the statuses of the abstract
    batch, and the bytes, the header's count, the content flags and the save
    points are those of its records; so an update that is refused, or that would
    make the batch larger than [max_bytes], changes nothing. Iterating over the
    batch then hands exactly these records to the handler, whatever the handler
    answers, and never reports a wrong count. *)
Theorem write_batch_refines_records {H} (handler : Handler H) max_bytes ts_sz os h : Forall op_ok os →
  ∃ statuses b rs saved,
    run step (NewWriteBatch max_bytes ts_sz) os = (statuses, b) ∧
    run (abstract_step max_bytes) ([], []) os = (statuses, (rs, saved)) ∧
    batch_holds b 0 rs saved ∧
    Iterate handler b h = Some (outcome true (replay handler rs (mkProgress Status_OK true 0 h))).
Proof.
  intros Hos. destruct (run_refines os _ 0 [] [] (holds_new max_bytes ts_sz) Hos) as (ss & b & rs & saved & E1 & E2 & Hb).
  exists ss, b, rs, saved. do 3 (split; [done|]).
  rewrite (Iterate_batch handler b 0 (u32 (total rs)) rs h) by (apply Hb || by apply wrap_range). by rewrite Z.eqb_refl.
Qed.

#[local] Transparent ztake zdrop Zlen EncodeVarint32.

Module BatchExample.
(** Two updates, one of them taken back, and one that is too large. *)
Definition ops : list Op :=
  [OUpdate (OPut 0 [1; 2] [3]); OSetSavePoint; OUpdate (ODelete 7 [4]); ORollbackToSavePoint; OPopSavePoint;
   OUpdate (OMergeParts 5 [[1]; [2]] [[6; 6]]); OUpdate (OLogData (replicate 20 0))].

Lemma ops_ok : Forall op_ok ops.
Proof. by repeat constructor. Qed.

Lemma write_batch_refines_records_witness :
  ∃ statuses b rs saved, run step (NewWriteBatch 30 0) ops = (statuses, b) ∧
    rs = [RKeyValue KPut 0 [1; 2] [3]; RKeyValue KMerge 5 [1; 2] [6; 6]] ∧ batch_holds b 0 rs saved ∧
    fst <$> Iterate BatchContentClassifier b 0 = Some Status_OK.
Proof.
  destruct (write_batch_refines_records BatchContentClassifier 30 0 ops 0 ops_ok) as (ss & b & rs & saved & E1 & E2 & Hb & E3).
  exists ss, b, rs, saved. assert (rs = [RKeyValue KPut 0 [1; 2] [3]; RKeyValue KMerge 5 [1; 2] [6; 6]]) as ->.
  { vm_compute in E2. by injection E2. }
  by rewrite E3.
Defined.
End BatchExample.
