(* ===== verification/WriteBatchCompose.v ===== *)
(** * Write batches: appending, preparing, truncation, content flags

    The operations that join or finish batches, seen as operations on the lists
    of records of [WriteBatchCorrect]; what iterating over a batch that was cut
    off reports; and the content flags that are computed from the bytes. *)

From S2P Require Import Prelude SortedLists Status Slice Coding DbFormat WideColumns WriteBatch WriteBatchCorrect.
#[local] Open Scope Z_scope.

#[local] Opaque ztake zdrop Zlen EncodeVarint32.

(** ** Appending *)

Lemma wrap_add_swrap w a b : 0 <= w → wrap w (wrap w a + swrap w (wrap w b)) = wrap w (a + b).
Proof.
  intros Hw. assert (0 < 2 ^ w) by lia. unfold wrap, swrap.
  rewrite <- (Zplus_mod_idemp_r (_ - _)), Zminus_mod_idemp_l, Zplus_mod_idemp_r.
  replace (b mod 2 ^ w + 2 ^ (w - 1) - 2 ^ (w - 1)) with (b mod 2 ^ w) by lia.
  by rewrite <- Zplus_mod.
Qed.

(** Joining the bytes, the counts and the flags joins the records. *)
Lemma append_holds dst seq rs1 saved n rest c f rs2 :
  batch_holds dst seq rs1 saved → Forall rec_ok rs2 → n = Zlen (enc_all rs2) → c = swrap 32 (u32 (total rs2)) →
  f = flags rs2 →
  batch_holds (add_flags (set_rep (SetCount dst (Count dst + c)) (rep_ (SetCount dst (Count dst + c)) ++
    ztake n (enc_all rs2 ++ rest))) f) seq (rs1 ++ rs2) saved.
Proof.
  intros [Hrep Hfl Hok Hsp Hn] Hok2 -> -> ->. rewrite ztake_app by done.
  rewrite (Count_batch dst seq (u32 (total rs1)) rs1) by (done || by apply wrap_range). split.
  - unfold add_flags, set_content_flags, SetCount, set_rep. fields. rewrite Hrep, overwrite_count, wrap_add_swrap, total_app by lia.
    unfold batch_bytes. by rewrite enc_all_app, <- !app_assoc.
  - cbn [add_flags set_content_flags content_flags_ set_rep SetCount]. by rewrite Hfl, flags_app.
  - by apply Forall_app.
  - done.
  - by apply nested_app.
Qed.

Lemma body_of_batch b seq rs saved : batch_holds b seq rs saved → zdrop kHeader (rep_ b) = enc_all rs.
Proof.
  intros [-> _ _ _ _]. unfold batch_bytes. rewrite app_assoc. apply zdrop_app.
  by rewrite Zlen_app, Zlen_EncodeFixed64, Zlen_EncodeFixed32.
Qed.

(** The operations that only add to the batch, and leave the termination point. *)
Definition adds (o : Op) : bool :=
  match o with ORollbackToSavePoint => false | _ => true end.

Lemma commit_term sp b : wal_term_point_ (snd (commit sp b)) = wal_term_point_ b.
Proof. unfold commit. by destruct (_ && _). Qed.

Lemma step_term b o : adds o = true → op_ok o → wal_term_point_ (snd (step b o)) = wal_term_point_ b.
Proof.
  intros Ha Ho. destruct o as [u| |xid|xid ts|xid| | |]; try done; cbn [step].
  - rewrite update_extend by done. destruct (update_rec u); [done|]. by rewrite commit_term.
  - unfold PopSavePoint. by destruct (save_points_ b).
Qed.

Lemma abstract_step_adds max_bytes rs saved o : adds o = true →
  rs `prefix_of` fst (snd (abstract_step max_bytes (rs, saved) o)).
Proof.
  destruct o as [u| |xid|xid ts|xid| | |]; intros Ha; try done; cbn [abstract_step]; try by apply prefix_app_r.
  - destruct (update_rec u); [done|]. destruct (_ && _); [done|by apply prefix_app_r].
  - by destruct saved.
Qed.

Lemma run_adds os : ∀ b seq rs saved, batch_holds b seq rs saved → Forall op_ok os → Forall (λ o, adds o = true) os →
  ∃ t saved', batch_holds (snd (run step b os)) seq (rs ++ t) saved' ∧
    wal_term_point_ (snd (run step b os)) = wal_term_point_ b.
Proof.
  induction os as [|o os IH]; intros b seq rs saved Hb Hos Ha; [exists [], saved; by rewrite app_nil_r|].
  apply Forall_cons in Hos as [Ho Hos]. apply Forall_cons in Ha as [Hao Ha].
  destruct (step_refines b seq rs saved o Hb Ho) as (s & b1 & rs1 & saved1 & E1 & E2 & Hb1 & _).
  pose proof (abstract_step_adds (max_bytes_ b) rs saved o Hao) as Hp. rewrite E2 in Hp. cbn [fst snd] in Hp. destruct Hp as [t1 ->].
  pose proof (step_term b o Hao Ho) as Ht. rewrite E1 in Ht. cbn [snd] in *.
  destruct (IH b1 seq _ saved1 Hb1 Hos Ha) as (t & saved' & Hb' & Ht'). exists (t1 ++ t), saved'.
  cbn [run]. rewrite E1. destruct (run step b1 os) as [ss b']. cbn [snd] in *. rewrite app_assoc. by rewrite Ht', Ht.
Qed.

(** ** The end of the prepare section *)

Lemma overwrite_mark seq c k rs k' :
  overwrite (batch_bytes seq c (RMark k :: rs)) 12 [mark_tag k'] = batch_bytes seq c (RMark k' :: rs).
Proof.
  unfold overwrite, batch_bytes. change (enc_all (RMark k :: rs)) with ([mark_tag k] ++ enc_all rs).
  change (enc_all (RMark k' :: rs)) with ([mark_tag k'] ++ enc_all rs). rewrite !app_assoc.
  assert (Zlen (EncodeFixed64 seq ++ EncodeFixed32 c) = 12) as El by by rewrite Zlen_app, Zlen_EncodeFixed64, Zlen_EncodeFixed32.
  rewrite <- !(app_assoc _ [_]), ztake_app by done.
  rewrite zdrop_app_ge, El by (rewrite El; done). by rewrite <- app_assoc.
Qed.

Definition prepare_kind (write_after_commit unprepared_batch : bool) : MarkKind :=
  if write_after_commit then KBeginPrepare else if unprepared_batch then KBeginUnprepare else KBeginPersistedPrepare.

Lemma mark_end_prepare_holds b seq rs saved xid write_after_commit unprepared_batch :
  batch_holds b seq (RMark KNoop :: rs) saved → short xid → write_after_commit && unprepared_batch = false →
  batch_holds (MarkEndPrepare b xid write_after_commit unprepared_batch) seq
    (RMark (prepare_kind write_after_commit unprepared_batch) :: rs ++ [RXid KEndPrepare xid]) [].
Proof.
  intros [Hrep Hfl Hok _ _] Hx Hm. apply Forall_cons in Hok as [_ Hok]. set (k := prepare_kind _ _).
  assert (rep_ (MarkEndPrepare b xid write_after_commit unprepared_batch) =
    PutLengthPrefixedSlice (overwrite (rep_ b) 12 [mark_tag k] ++ [kTypeEndPrepareXID]) xid) as Er
    by (unfold k; by destruct write_after_commit, unprepared_batch).
  split; [| | |by destruct unprepared_batch|done].
  - rewrite Er, PutLengthPrefixedSlice_enc, Hrep, overwrite_mark by done. rewrite app_comm_cons, batch_bytes_snoc, <- app_assoc.
    f_equal. f_equal. rewrite total_app. change (total [_]) with 0. by rewrite Z.add_0_r.
  - change (RMark k :: rs ++ _) with ([RMark k] ++ rs ++ [RXid KEndPrepare xid]). rewrite !flags_app.
    change (flags (RMark KNoop :: rs)) with (flags ([RMark KNoop] ++ rs)) in Hfl. rewrite flags_app, Z.lor_0_l in Hfl.
    change (flags [RMark k]) with (rec_flags (RMark k)). change (flags [_]) with HAS_END_PREPARE.
    rewrite (Z.lor_comm _ HAS_END_PREPARE), Z.lor_assoc, (Z.lor_comm _ (flags rs)).
    unfold MarkEndPrepare, k. destruct write_after_commit, unprepared_batch; try done;
      cbn [add_flags set_content_flags content_flags_ push_slice set_rep set_save_points prepare_kind]; rewrite Hfl;
      by rewrite <- ?Z.lor_assoc.
  - constructor; [done|]. apply Forall_app. split; [done|by constructor].
Qed.

(** C31: the end of a prepare section turns the leading [Noop] into the begin marker
    of its kind and adds the transaction id: the handler sees the section between
    its markers, and the save points are gone. *)
Theorem prepared_batch_replays {H} (handler : Handler H) b seq rs saved xid write_after_commit unprepared_batch h :
  batch_holds b seq (RMark KNoop :: rs) saved → short xid → write_after_commit && unprepared_batch = false →
  Iterate handler (MarkEndPrepare b xid write_after_commit unprepared_batch) h =
    Some (outcome true (replay handler
      (RMark (prepare_kind write_after_commit unprepared_batch) :: rs ++ [RXid KEndPrepare xid])
      (mkProgress Status_OK true 0 h))) ∧
  save_points_ (MarkEndPrepare b xid write_after_commit unprepared_batch) = [].
Proof.
  intros Hb Hx Hm. pose proof (mark_end_prepare_holds b seq rs saved xid _ _ Hb Hx Hm) as Hp. split; [|apply Hp].
  set (rs' := RMark (prepare_kind _ _) :: _) in *. rewrite (Iterate_batch handler _ seq (u32 (total rs')) rs' h) by (apply Hp || by apply wrap_range).
  by rewrite Z.eqb_refl.
Qed.

(** ** Appending, in full *)

Lemma Append_all dst src seq1 rs1 saved1 seq2 rs2 saved2 wal_only :
  batch_holds dst seq1 rs1 saved1 → batch_holds src seq2 rs2 saved2 →
  wal_only && negb (is_cleared (wal_term_point_ src)) = false →
  batch_holds (snd (Append dst src wal_only)) seq1 (rs1 ++ rs2) saved1.
Proof.
  intros Hd Hs Hw. unfold Append. rewrite Hw. cbn [snd]. rewrite (body_of_batch src seq2 rs2 saved2 Hs).
  rewrite <- (app_nil_r (enc_all rs2)). apply append_holds; [done|apply Hs| | |apply Hs].
  - rewrite (holds_rep _ _ _ _ Hs), Zlen_batch_bytes. lia.
  - by rewrite (Count_batch src seq2 (u32 (total rs2)) rs2) by (apply Hs || by apply wrap_range).
Qed.

Lemma Append_wal_only dst src seq1 rs1 saved1 seq2 rs2 saved2 t :
  batch_holds dst seq1 rs1 saved1 → batch_holds src seq2 (rs2 ++ t) saved2 → wal_term_point_ src = point rs2 →
  batch_holds (snd (Append dst src true)) seq1 (rs1 ++ rs2) saved1.
Proof.
  intros Hd Hs Hw. unfold Append. rewrite Hw. cbn [andb].
  assert (is_cleared (point rs2) = false) as ->.
  { unfold is_cleared. apply Z.eqb_neq. rewrite !Z.lor_eq_0_iff. cbn [point sp_size]. pose proof (Zlen_nonneg (enc_all rs2)).
    unfold kHeader. lia. }
  cbn [negb snd]. rewrite (body_of_batch src seq2 _ saved2 Hs), enc_all_app.
  pose proof (holds_ok _ _ _ _ Hs) as Hok. apply Forall_app in Hok as [Hok _].
  apply append_holds; [done|done| |done|done]. cbn [point sp_size]. lia.
Qed.

(** C30: appending a batch appends its records: the count, the flags and the bytes
    are those of the two lists one after the other, and the size is
    [AppendedByteSize]. If only the part for the write-ahead log is appended, it
    is the records the batch had at [MarkWalTerminationPoint], whatever was added
    to it since. *)
Theorem Append_concatenates dst src seq1 rs1 saved1 seq2 rs2 saved2 os :
  batch_holds dst seq1 rs1 saved1 → batch_holds src seq2 rs2 saved2 →
  Forall op_ok os → Forall (λ o, adds o = true) os →
  (∃ b, Append dst src false = (Status_OK, b) ∧ batch_holds b seq1 (rs1 ++ rs2) saved1 ∧
    ByteSize b = AppendedByteSize (ByteSize dst) (ByteSize src)) ∧
  (∃ b, Append dst (snd (run step (MarkWalTerminationPoint src) os)) true = (Status_OK, b) ∧
    batch_holds b seq1 (rs1 ++ rs2) saved1).
Proof.
  intros Hd Hs Hos Ha. split.
  - exists (snd (Append dst src false)). pose proof (Append_all dst src seq1 rs1 saved1 seq2 rs2 saved2 false Hd Hs eq_refl) as Hb.
    split_and!; [done|done|]. unfold ByteSize, AppendedByteSize.
    rewrite (holds_rep _ _ _ _ Hb), (holds_rep _ _ _ _ Hd), (holds_rep _ _ _ _ Hs), !Zlen_batch_bytes, enc_all_app, Zlen_app.
    pose proof (Zlen_nonneg (enc_all rs1)). pose proof (Zlen_nonneg (enc_all rs2)). unfold kHeader.
    rewrite !(proj2 (Z.eqb_neq _ _)) by lia. cbn [orb]. lia.
  - assert (batch_holds (MarkWalTerminationPoint src) seq2 rs2 saved2) as Hm by (by destruct Hs).
    destruct (run_adds os _ seq2 rs2 saved2 Hm Hos Ha) as (t & saved' & Hb & Ht).
    eexists. split; [|eapply (Append_wal_only dst _ seq1 rs1 saved1 seq2 rs2 saved' t Hd Hb)].
    + unfold Append. by destruct (_ && _).
    + rewrite Ht. cbn [MarkWalTerminationPoint wal_term_point_]. unfold point, GetDataSize.
      rewrite (Count_batch src seq2 (u32 (total rs2)) rs2) by (apply Hs || by apply wrap_range).
      by rewrite (holds_rep _ _ _ _ Hs), Zlen_batch_bytes, (holds_flags _ _ _ _ Hs).
Qed.

(** ** Batches that were cut off *)

Section Truncated.
Context {H : Type} (handler : Handler H).

(** A handler that takes every record. *)
Definition accepting : Prop :=
  (∀ h, fst (Continue handler h) = true) ∧ ∀ r (p : @Progress H), ok (it_status (give handler r p)) = true.
Context (Hacc : accepting).

Lemma ask_accepting (p : @Progress H) : ∃ h, ask handler p = (true, mkProgress (it_status p) (empty_batch p) (found p) h).
Proof using Hacc.
  unfold ask. destruct Hacc as [Hc _]. specialize (Hc (it_handler p)). destruct (Continue _ _) as [go h]. cbn in Hc.
  subst. eauto.
Qed.

Lemma replay_accepting rs : ∀ p : @Progress H, ok (it_status p) = true →
  ∃ p', replay handler rs p = inr (p', true) ∧ ok (it_status p') = true.
Proof using Hacc.
  induction rs as [|r rs IH]; intros p Hp; cbn [replay]; [eauto|]. destruct (ask_accepting p) as [h ->]. cbn [negb].
  destruct Hacc as [_ Hg]. rewrite Hg. apply IH, Hg.
Qed.

Lemma Iterate_loop_truncated rs r q t : Forall rec_ok rs → rec_ok r → enc r = q ++ t → q ≠ [] → t ≠ [] →
  ∀ fuel tag cf f last (p : @Progress H), ok (it_status p) = true → (length rs < fuel)%nat →
  ∃ msg h, Iterate_loop handler fuel (enc_all rs ++ q) tag cf f last p = Some (inl (Status_Corruption msg, h)).
Proof using Hacc.
  intros Hrs Hr Er Hq Ht. induction Hrs as [|r0 rs Hr0 Hrs IH]; intros fuel tag cf f last p Hp Hf;
    (destruct fuel as [|fuel]; [lia|]); cbn [Iterate_loop length] in *;
    rewrite Hp, (ok_not_TryAgain _ Hp), orb_false_r; cbn [andb negb].
  - change (enc_all [] ++ q) with q. destruct (Z.eqb_spec (Zlen q) 0) as [E|_]; [by apply Zlen_0_nil in E|]. cbn [negb].
    pose proof (proj1 Hacc (it_handler p)) as Hc. destruct (Continue handler _) as [go h]. cbn [fst] in Hc. subst go. cbn [negb].
    destruct (ReadRecord_truncated r f q t Hr Er Hq Ht) as [msg ->]. eauto.
  - change (enc_all (r0 :: rs)) with (enc r0 ++ enc_all rs). rewrite <- app_assoc. pose proof (Zlen_enc r0).
    pose proof (Zlen_nonneg (enc_all rs ++ q)).
    destruct (Z.eqb_spec (Zlen (enc r0 ++ enc_all rs ++ q)) 0) as [E|_]; [rewrite Zlen_app in E; lia|]. cbn [negb].
    pose proof (proj1 Hacc (it_handler p)) as Hc. destruct (Continue handler _) as [go h]. cbn [fst] in Hc. subst go. cbn [negb].
    rewrite ReadRecord_enc by done. cbn [empty_batch found]. rewrite (dispatch_give handler r0 f Status_OK).
    apply IH; [apply (proj2 Hacc)|lia].
Qed.

(** C27: a batch that was cut off is reported: if the bytes of a batch end within a
    record, or at the end of a record while updates are missing, a handler that
    takes everything gets a corruption in the end. *)
Theorem truncated_batch_corrupt b seq rs r rs' q t h :
  Forall rec_ok (rs ++ r :: rs') → enc r = q ++ t → t ≠ [] →
  q ≠ [] ∨ 0 < total (r :: rs') < 2 ^ 32 →
  rep_ b = batch_bytes seq (u32 (total (rs ++ r :: rs'))) rs ++ q →
  ∃ s h', Iterate handler b h = Some (s, h') ∧ IsCorruption s = true.
Proof using Hacc.
  intros Hok Er Ht Hcut Hrep. apply Forall_app in Hok as [Hok1 Hok2]. apply Forall_cons in Hok2 as [Hr _].
  destruct (decide (q = [])) as [->|Hq].
  - rewrite app_nil_r in Hrep. rewrite (Iterate_batch handler b seq _ rs h (wrap_range 32 _ ltac:(lia)) Hok1 Hrep).
    destruct (replay_accepting rs (mkProgress Status_OK true 0 h) eq_refl) as (p' & -> & Hp'). cbn [outcome].
    rewrite Hp'. cbn [negb andb]. rewrite (proj2 (Z.eqb_neq _ _)); [by do 2 eexists|]. destruct Hcut as [?|Hlt]; [done|].
    rewrite total_app. unfold u32, wrap. intros E. apply (f_equal (λ z, (z - total rs) mod 2 ^ 32)) in E. cbn beta in E.
    rewrite !Zminus_mod_idemp_l, Z.sub_diag, Z.add_simpl_l in E. rewrite Z.mod_small in E by lia. rewrite Z.mod_0_l in E; lia.
  - assert (Zlen (rep_ b) = kHeader + Zlen (enc_all rs ++ q)) as El by (rewrite Hrep, !Zlen_app, Zlen_batch_bytes; lia).
    assert (zdrop kHeader (rep_ b) = enc_all rs ++ q) as Ed.
    { rewrite Hrep. unfold batch_bytes. rewrite (app_assoc (EncodeFixed64 _)), <- app_assoc. apply zdrop_app.
      by rewrite Zlen_app, Zlen_EncodeFixed64, Zlen_EncodeFixed32. }
    pose proof (Zlen_nonneg (enc_all rs ++ q)). pose proof (enc_all_length rs). pose proof (Zlen_nonneg q).
    unfold Iterate, Iterate_range. rewrite !(proj2 (Z.ltb_ge _ _)) by lia. cbn [orb]. rewrite Ed, ztake_all by lia.
    destruct (Iterate_loop_truncated rs r q t Hok1 Hr Er Hq Ht (iterate_fuel (Zlen (enc_all rs ++ q))) 0 0 (mkFields [] [] [] [])
      false (mkProgress Status_OK true 0 h) eq_refl) as (msg & h' & ->); [|by do 2 eexists].
    rewrite Zlen_app in *. unfold iterate_fuel. lia.
Qed.
End Truncated.

(** ** The flags that are computed from the bytes *)

Definition is_noop (r : Rec) : bool := match r with RMark KNoop => true | _ => false end.
Fixpoint before_noop (rs : list Rec) : list Rec :=
  match rs with
  | [] => []
  | r :: rs => if is_noop r then [] else r :: before_noop rs
  end.

Lemma give_classifier r p :
  ok (it_status (give BatchContentClassifier r p)) = negb (is_noop r) ∧
  it_handler (give BatchContentClassifier r p) = if is_noop r then it_handler p else Z.lor (it_handler p) (rec_flags r).
Proof.
  destruct r as [[] cf key value|[] cf key|blob|[]|[] xid|xid ts]; try done.
  - split; [done|]. cbn. by rewrite Z.lor_0_r.
  - split; [done|]. cbn [give deliver BatchContentClassifier OnBeginPrepare it_handler rec_flags is_noop].
    by rewrite Z.lor_assoc.
Qed.

Lemma replay_classifier rs : ∀ p, ∃ p' go_on,
  replay BatchContentClassifier rs p = inr (p', go_on) ∧ it_handler p' = Z.lor (it_handler p) (flags (before_noop rs)).
Proof.
  induction rs as [|r rs IH]; intros p; cbn [replay].
  { do 2 eexists. split; [done|]. cbn. by rewrite Z.lor_0_r. }
  change (ask BatchContentClassifier p) with (true, mkProgress (it_status p) (empty_batch p) (found p) (it_handler p)).
  cbn [negb before_noop]. set (q := mkProgress _ _ _ _). destruct (give_classifier r q) as [E1 E2]. rewrite E1.
  destruct (is_noop r) eqn:En; cbn [negb] in *.
  - destruct r as [| | |[]| |]; try done. do 2 eexists. split; [done|]. cbn. by rewrite Z.lor_0_r.
  - destruct (IH (give BatchContentClassifier r q)) as (p' & go_on & -> & E). do 2 eexists. split; [done|]. rewrite E, E2.
    change (r :: before_noop rs) with ([r] ++ before_noop rs). rewrite flags_app. change (flags [r]) with (Z.lor 0 (rec_flags r)).
    by rewrite Z.lor_0_l, Z.lor_assoc.
Qed.

Lemma flags_not_deferred rs : Z.land (flags rs) DEFERRED = 0.
Proof.
  induction rs as [|r rs IH]; [done|]. change (r :: rs) with ([r] ++ rs). rewrite flags_app, Z.land_lor_distr_l, IH, Z.lor_0_r.
  by destruct r as [[] cf key value|[] cf key|blob|[]|[] xid|xid ts].
Qed.

(** A batch that was built by its operations knows its content flags, and
    computing them from its bytes, as is done for a batch made from the contents of
    another one, gives the same flags as long as the batch has no [Noop]. The
    computation ends at the first [Noop], which the classifier does not handle: the
    updates after it are not seen, so that a batch that begins with a [Noop] has no
    flags at all. *)
Theorem deferred_flags_stop_at_noop b seq rs saved : batch_holds b seq rs saved →
  ComputeContentFlags b = (flags rs, b) ∧
  fst (ComputeContentFlags (WriteBatch_of_rep (rep_ b))) = flags (before_noop rs) ∧
  (forallb (λ r, negb (is_noop r)) rs = true →
    ∀ flag, has flag (WriteBatch_of_rep (rep_ b)) = has flag b) ∧
  (∀ rs', rs = RMark KNoop :: rs' → ∀ flag, has flag (WriteBatch_of_rep (rep_ b)) = false).
Proof.
  intros Hb. assert (ComputeContentFlags b = (flags rs, b)) as E1.
  { unfold ComputeContentFlags. by rewrite (holds_flags _ _ _ _ Hb), flags_not_deferred. }
  assert (fst (ComputeContentFlags (WriteBatch_of_rep (rep_ b))) = flags (before_noop rs)) as E2.
  { unfold ComputeContentFlags. cbn [content_flags_ WriteBatch_of_rep]. change (negb (Z.land DEFERRED DEFERRED =? 0)) with true.
    cbn match. rewrite (Iterate_batch BatchContentClassifier _ seq (u32 (total rs)) rs 0)
      by (apply Hb || by apply wrap_range).
    destruct (replay_classifier rs (mkProgress Status_OK true 0 0)) as (p' & go_on & -> & E). cbn [outcome fst]. exact E. }
  split_and!; [done|done| |].
  - intros Hn flag. unfold has. rewrite E1, E2. cbn [fst]. do 4 f_equal. clear -Hn. induction rs as [|r rs IH]; [done|].
    cbn in *. apply andb_true_iff in Hn as [Hr Hn]. destruct (is_noop r); [done|]. by rewrite IH.
  - intros rs' -> flag. unfold has. by rewrite E2.
Qed.

#[local] Transparent ztake zdrop Zlen EncodeVarint32.

Module ComposeExample.
(** A handler that keeps what it is given. *)
Definition recorder : Handler (list Rec) :=
  let keep (h : list Rec) (r : Rec) := (Status_OK, h ++ [r]) in
  {| PutCF h cf key value := keep h (RKeyValue KPut cf key value);
     PutEntityCF h cf key value := keep h (RKeyValue KEntity cf key value);
     DeleteCF h cf key := keep h (RKey KDelete cf key);
     SingleDeleteCF h cf key := keep h (RKey KSingleDelete cf key);
     DeleteRangeCF h cf key value := keep h (RKeyValue KDeleteRange cf key value);
     MergeCF h cf key value := keep h (RKeyValue KMerge cf key value);
     PutBlobIndexCF h cf key value := keep h (RKeyValue KBlobIndex cf key value);
     LogData h blob := h ++ [RLogData blob];
     OnBeginPrepare h unprepare := keep h (RMark (if unprepare then KBeginUnprepare else KBeginPrepare));
     OnEndPrepare h xid := keep h (RXid KEndPrepare xid);
     OnNoop h _ := keep h (RMark KNoop);
     OnRollback h xid := keep h (RXid KRollback xid);
     OnCommit h xid := keep h (RXid KCommit xid);
     OnCommitWithTimestamp h xid ts := keep h (RCommitTs xid ts);
     Continue h := (true, h);
     WriteAfterCommit _ := kUnknown;
     WriteBeforePrepare _ := kUnknown |}.

Lemma recorder_accepting : accepting recorder.
Proof. split; [done|]. by intros [[] cf key value|[] cf key|blob|[]|[] xid|xid ts] p. Qed.

Definition r1 : Rec := RKeyValue KPut 0 [1; 2] [3].
Definition r2 : Rec := RKey KDelete 7 [4].
Definition built (rs : list Rec) : WriteBatch := fold_left extend rs (NewWriteBatch 0 0).

Lemma built_holds rs : Forall rec_ok rs → batch_holds (built rs) 0 rs [].
Proof.
  intros Hrs. unfold built. assert (∀ rs b rs0, Forall rec_ok rs → batch_holds b 0 rs0 [] →
    batch_holds (fold_left extend rs b) 0 (rs0 ++ rs) []) as Hf; [|by apply (Hf rs (NewWriteBatch 0 0) [] Hrs), holds_new].
  clear. induction rs as [|r rs IH]; intros b rs0 Hrs Hb; [by rewrite app_nil_r|]. apply Forall_cons in Hrs as [Hr Hrs].
  cbn [fold_left]. replace (rs0 ++ r :: rs) with ((rs0 ++ [r]) ++ rs) by by rewrite <- app_assoc.
  apply IH; [done|]. by apply holds_extend.
Qed.

Lemma examples_ok : Forall rec_ok [RMark KNoop; r1; r2].
Proof. by repeat constructor. Qed.

Lemma Append_concatenates_witness :
  ∃ b, Append (built [r1; r2]) (snd (run step (MarkWalTerminationPoint (built [r1])) [OUpdate (ODelete 7 [4])])) true =
    (Status_OK, b) ∧ batch_holds b 0 [r1; r2; r1] [].
Proof.
  assert (Forall rec_ok [r1; r2]) as Ha by by repeat constructor.
  assert (Forall rec_ok [r1]) as Hb by by repeat constructor.
  apply (Append_concatenates _ _ 0 [r1; r2] [] 0 [r1] [] [OUpdate (ODelete 7 [4])] (built_holds _ Ha) (built_holds _ Hb)).
  - by repeat constructor.
  - by repeat constructor.
Defined.

Lemma prepared_batch_replays_witness :
  Iterate recorder (MarkEndPrepare (built [RMark KNoop; r1; r2]) [9] true false) [] =
    Some (Status_OK, [RMark KBeginPrepare; r1; r2; RXid KEndPrepare [9]]).
Proof.
  destruct (prepared_batch_replays recorder (built [RMark KNoop; r1; r2]) 0 [r1; r2] [] [9] true false []
    (built_holds _ examples_ok) ltac:(by vm_compute) eq_refl) as [E _]. exact E.
Defined.

Lemma truncated_batch_corrupt_witness :
  ∃ s h', Iterate recorder (WriteBatch_of_rep (ztake 19 (rep_ (built [r1; r2])))) [] = Some (s, h') ∧ IsCorruption s = true.
Proof.
  apply (truncated_batch_corrupt recorder recorder_accepting _ 0 [r1] r2 [] [kTypeColumnFamilyDeletion] [7; 1; 4]).
  - by repeat constructor.
  - by vm_compute.
  - done.
  - by left.
  - by vm_compute.
Defined.

Lemma deferred_flags_stop_at_noop_witness :
  HasPut (built [RMark KNoop; r1; r2]) = true ∧ HasPut (WriteBatch_of_rep (rep_ (built [RMark KNoop; r1; r2]))) = false.
Proof.
  destruct (deferred_flags_stop_at_noop _ _ _ _ (built_holds _ examples_ok)) as (_ & _ & _ & Hn).
  split; [by vm_compute|exact (Hn _ eq_refl HAS_PUT)].
Defined.
End ComposeExample.
