(* ===== verification/Heap.v ===== *)
(** * The binary heap of the merging iterators

    [BinaryHeap] of util/heap.h: a heap in an array whose top is the maximum,
    with a replace-top operation and a cache of the larger child of the root.
    The theorem at the end says that it is a priority queue. *)

From Stdlib Require Import Sorting.Sorted.
From S2P Require Import Prelude.
#[local] Open Scope nat_scope.

Section BinaryHeap.
Context {T : Type} (cmp_ : T → T → bool).

(** [root_cmp_cache_] is [None] for [std::numeric_limits<size_t>::max()]. *)
Record BinaryHeap := mkHeap {
  data_ : list T;
  root_cmp_cache_ : option nat
}.

Definition NewBinaryHeap : BinaryHeap := mkHeap [] None.
Definition empty (h : BinaryHeap) : bool := length (data_ h) =? 0.
Definition size (h : BinaryHeap) : nat := length (data_ h).
Definition clear (h : BinaryHeap) : BinaryHeap := mkHeap [] None.
Definition reset_root_cmp_cache (h : BinaryHeap) : BinaryHeap := mkHeap (data_ h) None.

Definition get_root : nat := 0.
Definition get_parent (index : nat) : nat := (index - 1) / 2.
Definition get_left (index : nat) : nat := 2 * index + 1.
Definition get_right (index : nat) : nat := 2 * index + 2.

(** The loops return [None] when they run out of fuel or index out of bounds. *)
Fixpoint upheap_loop (fuel : nat) (data : list T) (index : nat) (v : T) : option (list T) :=
  match fuel with
  | O => None
  | S fuel =>
      if get_root <? index then
        let parent := get_parent index in
        p ← data !! parent;
        if negb (cmp_ p v) then Some (<[index := v]> data)
        else upheap_loop fuel (<[index := p]> data) parent v
      else Some (<[index := v]> data)
  end.

Definition upheap (h : BinaryHeap) (index : nat) : option BinaryHeap :=
  v ← data_ h !! index;
  data ← upheap_loop (S index) (data_ h) index v;
  Some (reset_root_cmp_cache (mkHeap data (root_cmp_cache_ h))).

(** The child that the downheap compares with, of two or one. *)
Definition pick_child (data : list T) (cache : option nat) (index : nat) : option nat :=
  let left_child := get_left index in
  let right_child := left_child + 1 in
  let compared :=
    if right_child <? length data then
      l ← data !! left_child; r ← data !! right_child; Some (if cmp_ l r then right_child else left_child)
    else Some left_child in
  match (if index =? 0 then cache else None) with
  | Some c => if c <? length data then Some c else compared
  | None => compared
  end.

Fixpoint downheap_loop (fuel : nat) (data : list T) (cache : option nat) (index : nat) (picked_child : option nat)
    (v : T) : option (list T * nat * option nat) :=
  match fuel with
  | O => None
  | S fuel =>
      if length data <=? get_left index then Some (data, index, picked_child)
      else
        picked_child ← pick_child data cache index;
        p ← data !! picked_child;
        if negb (cmp_ v p) then Some (data, index, Some picked_child)
        else downheap_loop fuel (<[index := p]> data) cache picked_child (Some picked_child) v
  end.

Definition downheap (h : BinaryHeap) (index : nat) : option BinaryHeap :=
  v ← data_ h !! index;
  '(data, index, picked_child) ← downheap_loop (S (length (data_ h))) (data_ h) (root_cmp_cache_ h) index None v;
  Some (mkHeap (<[index := v]> data) (if index =? 0 then picked_child else None)).

Definition push (h : BinaryHeap) (value : T) : option BinaryHeap :=
  let h := mkHeap (data_ h ++ [value]) (root_cmp_cache_ h) in upheap h (size h - 1).
Definition top (h : BinaryHeap) : option T := data_ h !! 0.
Definition replace_top (h : BinaryHeap) (value : T) : option BinaryHeap :=
  downheap (mkHeap (<[0 := value]> (data_ h)) (root_cmp_cache_ h)) get_root.
Definition pop (h : BinaryHeap) : option BinaryHeap :=
  let data := match data_ h !! (size h - 1) with
              | Some back => if 1 <? size h then <[0 := back]> (data_ h) else data_ h
              | None => data_ h
              end in
  let h := mkHeap (removelast data) (root_cmp_cache_ h) in
  if negb (empty h) then downheap h get_root else Some (reset_root_cmp_cache h).

(** ** The invariant *)

Definition parent_ok (l : list T) (j : nat) : Prop :=
  ∀ x y, l !! get_parent j = Some x → l !! j = Some y → cmp_ x y = false.
Definition heap_order (l : list T) : Prop := ∀ j, 0 < j → parent_ok l j.
(** The child [c] of [i] is not smaller than any child of [i]. *)
Definition max_child (l : list T) (i c : nat) : Prop :=
  0 < c ∧ get_parent c = i ∧
  ∀ d x y, 0 < d → get_parent d = i → l !! c = Some x → l !! d = Some y → cmp_ x y = false.
Definition cache_ok (l : list T) (cache : option nat) : Prop :=
  ∀ c, cache = Some c → c < length l → max_child l 0 c.
Definition heap_ok (h : BinaryHeap) : Prop := heap_order (data_ h) ∧ cache_ok (data_ h) (root_cmp_cache_ h).
End BinaryHeap.

(** [Compare] is a strict weak order. *)
Class StrictWeakOrder {T} (cmp : T → T → bool) : Prop := {
  swo_asym a b : cmp a b = true → cmp b a = false;
  swo_not_trans a b c : cmp a b = false → cmp b c = false → cmp a c = false
}.

Section HeapProofs.
Context {T : Type} (cmp_ : T → T → bool) `{!StrictWeakOrder cmp_}.
Implicit Types (l data : list T).
Abbreviation parent_ok := (parent_ok cmp_).
Abbreviation heap_order := (heap_order cmp_).
Abbreviation max_child := (max_child cmp_).

Lemma parent_lt j : 0 < j → get_parent j < j.
Proof. intros Hj. unfold get_parent. pose proof (Nat.Div0.div_le_upper_bound (j - 1) 2 (j - 1)). lia. Qed.
Lemma parent_cases i j : 0 < j → get_parent j = i ↔ j = get_left i ∨ j = get_right i.
Proof.
  intros Hj. unfold get_parent, get_left, get_right.
  pose proof (Nat.div_mod_eq (j - 1) 2). pose proof (Nat.mod_upper_bound (j - 1) 2). lia.
Qed.

(** The array with [v] at the index [i], which may be out of order there: all
    pairs of parent and child but those with [i] as the child (going up) or as
    the parent (going down) are in order, and the parent of [i] is not smaller
    than the children of [i]. *)
Definition around (l : list T) (i : nat) : Prop :=
  ∀ j x y, 0 < i → 0 < j → get_parent j = i → l !! get_parent i = Some x → l !! j = Some y → cmp_ x y = false.
Definition up_inv (l : list T) (i : nat) : Prop := (∀ j, 0 < j → j ≠ i → parent_ok l j) ∧ around l i.
Definition down_inv (l : list T) (i : nat) : Prop := (∀ j, 0 < j → get_parent j ≠ i → parent_ok l j) ∧ around l i.

(** Moving the value [p] of the other index [k] into [i] and [v] to [k]. *)
Lemma moved_lookup data i k v p j x : data !! k = Some p → i ≠ k → i < length data →
  <[k := v]> (<[i := p]> data) !! j = Some x ↔
    (j = k ∧ x = v ∨ j = i ∧ x = p ∨ j ≠ k ∧ j ≠ i ∧ <[i := v]> data !! j = Some x).
Proof.
  intros Hk Hne Hi. pose proof (lookup_lt_Some _ _ _ Hk) as Hkl.
  rewrite !list_lookup_insert_Some, length_insert.
  destruct (decide (j = k)), (decide (j = i)); subst; naive_solver.
Qed.

Lemma up_step data i v p : 0 < i → i < length data → data !! get_parent i = Some p → cmp_ p v = true →
  up_inv (<[i := v]> data) i → up_inv (<[get_parent i := v]> (<[i := p]> data)) (get_parent i).
Proof using StrictWeakOrder0.
  intros Hi Hl Hp Hc [H1 H2]. pose proof (parent_lt i Hi) as Hlt. set (k := get_parent i) in *.
  assert (<[i := v]> data !! k = Some p) as Hk by (rewrite list_lookup_insert_ne; [done|lia]).
  split.
  - intros j Hj Hjk x y. rewrite !(moved_lookup data i k v p) by (done || lia).
    intros [[Ek ->]|[[Ei ->]|(Hk' & Hi' & Hx)]] [[? ->]|[[Ej ->]|(_ & Hji & Hy)]]; try done.
    + by apply swo_asym.
    + apply (swo_not_trans v p y); [by apply swo_asym|]. apply (H1 j Hj Hji p y); [by rewrite Ek|done].
    + subst j. lia.
    + by apply (H2 j p y).
    + subst j. done.
    + by apply (H1 j Hj Hji).
  - intros j x y Hk0 Hj Ej. pose proof (parent_lt k Hk0). rewrite !(moved_lookup data i k v p) by (done || lia).
    intros [[? ->]|[[? ->]|(_ & _ & Hx)]] Hy; [lia|lia|].
    assert (cmp_ x p = false) as Hxp by (by apply (H1 k Hk0 ltac:(lia))).
    destruct Hy as [[-> _]|[[-> ->]|(_ & Hji & Hy)]]; [pose proof (parent_lt k Hk0); lia|done|].
    apply (swo_not_trans x p y); [done|]. apply (H1 j Hj Hji); [by rewrite Ej|done].
Qed.

Lemma upheap_loop_spec fuel data i v : i < fuel → i < length data → up_inv (<[i := v]> data) i →
  ∃ d, upheap_loop cmp_ fuel data i v = Some d ∧ heap_order d ∧ d ≡ₚ <[i := v]> data.
Proof using StrictWeakOrder0.
  revert data i. induction fuel as [|fuel IH]; intros data i Hf Hl Hinv; [lia|]. cbn [upheap_loop]. unfold get_root.
  destruct (Nat.ltb_spec 0 i) as [Hi|Hi].
  - pose proof (parent_lt i Hi) as Hlt. destruct (lookup_lt_is_Some_2 data (get_parent i)) as [p Hp]; [lia|].
    rewrite Hp. cbn [mbind option_bind]. destruct (cmp_ p v) eqn:Hc; cbn [negb].
    + destruct (IH (<[i := p]> data) (get_parent i)) as (d & -> & Hd & Hperm);
        [lia|rewrite length_insert; lia|by apply up_step|].
      exists d. split_and!; [done|done|]. rewrite Hperm.
      rewrite <- (Permutation_insert_swap (<[i := v]> data) i (get_parent i) v p), list_insert_insert_eq.
      * done.
      * by apply list_lookup_insert_eq.
      * rewrite list_lookup_insert_ne; [done|lia].
    + eexists. split_and!; [done| |done]. intros j Hj. destruct (decide (j = i)) as [->|]; [|by apply Hinv].
      intros x y Hx Hy. rewrite list_lookup_insert_eq in Hy by done. rewrite list_lookup_insert_ne in Hx by lia. congruence.
  - eexists. split_and!; [done| |done]. intros j Hj. apply Hinv; lia.
Qed.

Lemma down_step data i c v p : 0 < c → get_parent c = i → data !! c = Some p → cmp_ v p = true →
  max_child data i c → down_inv (<[i := v]> data) i → down_inv (<[c := v]> (<[i := p]> data)) c.
Proof using StrictWeakOrder0.
  intros Hc Ec Hp Hv (_ & _ & Hmax) [H1 H2]. pose proof (parent_lt c Hc) as Hlt. rewrite Ec in Hlt.
  pose proof (lookup_lt_Some _ _ _ Hp) as Hcl.
  assert (<[i := v]> data !! c = Some p) as Hk by (rewrite list_lookup_insert_ne; [done|lia]).
  split.
  - intros j Hj Hjc x y. pose proof (parent_lt j Hj). rewrite !(moved_lookup data i c v p) by (done || lia).
    intros [[? _]|[[Ei ->]|(Hk' & Hi' & Hx)]] [[Ejc ->]|[[Eji ->]|(Hjc' & Hji & Hy)]]; try done.
    + by apply swo_asym.
    + lia.
    + rewrite list_lookup_insert_ne in Hy by done. by apply (Hmax j).
    + subst j. by rewrite Ec in Hi'.
    + subst j. by apply (H2 c).
    + by apply (H1 j Hj).
  - intros j x y _ Hj Ej. pose proof (parent_lt j Hj). rewrite Ec, !(moved_lookup data i c v p) by (done || lia).
    intros [[? _]|[[_ ->]|(_ & ? & _)]] [[? _]|[[? _]|(_ & _ & Hy)]]; try (done || lia).
    apply (H1 j Hj); [lia|by rewrite Ej|done].
Qed.

Lemma pick_child_spec data cache i v : get_left i < length data → (i = 0 → cache_ok cmp_ data cache) →
  ∃ c, pick_child cmp_ data cache i = Some c ∧ c < length data ∧ max_child data i c ∧ max_child (<[i := v]> data) i c.
Proof using StrictWeakOrder0.
  intros Hl Hcache.
  assert (∀ c, max_child data i c → max_child (<[i := v]> data) i c) as Hins.
  { intros c (Hc & Ec & Hmax). split_and!; [done..|]. intros d x y Hd Ed Hx Hy.
    pose proof (parent_lt c Hc). pose proof (parent_lt d Hd).
    rewrite list_lookup_insert_ne in Hx, Hy by lia. by apply (Hmax d). }
  enough (∃ c, pick_child cmp_ data cache i = Some c ∧ c < length data ∧ max_child data i c)
    as (c & ? & ? & ?) by (exists c; auto).
  assert (0 < get_left i ∧ get_parent (get_left i) = i) as [Hl0 Hlp]
    by (split; [unfold get_left; lia|by apply parent_cases; [unfold get_left; lia|left]]).
  assert (0 < get_right i ∧ get_parent (get_right i) = i) as [Hr0 Hrp]
    by (split; [unfold get_right; lia|by apply parent_cases; [unfold get_right; lia|right]]).
  assert (∃ c, (if get_left i + 1 <? length data then
      l ← data !! get_left i; r ← data !! (get_left i + 1); Some (if cmp_ l r then get_left i + 1 else get_left i)
    else Some (get_left i)) = Some c ∧ c < length data ∧ max_child data i c) as Hcomp.
  { replace (get_left i + 1) with (get_right i) by (unfold get_left, get_right; lia).
    destruct (lookup_lt_is_Some_2 data (get_left i) Hl) as [l Hll].
    assert (cmp_ l l = false) as Hrefl by (destruct (cmp_ l l) eqn:E; [rewrite (swo_asym l l E) in E|]; done).
    destruct (Nat.ltb_spec (get_right i) (length data)) as [Hr|Hr].
    - destruct (lookup_lt_is_Some_2 data (get_right i) Hr) as [r Hrr]. rewrite Hll, Hrr. cbn [mbind option_bind].
      assert (cmp_ r r = false) as Hrefl' by (destruct (cmp_ r r) eqn:E; [rewrite (swo_asym r r E) in E|]; done).
      eexists. split; [done|]. destruct (cmp_ l r) eqn:Elr; (split; [done|]); (split; [done|]); (split; [done|]);
        intros d x y Hd Ed Hx Hy; apply parent_cases in Ed as [->| ->]; try done; simplify_eq; try done.
      by apply swo_asym.
    - eexists. split; [done|]. split; [done|]. split; [done|]. split; [done|]. intros d x y Hd Ed Hx Hy. apply parent_cases in Ed as [->| ->]; [congruence| |done].
      apply lookup_lt_Some in Hy. lia. }
  unfold pick_child. destruct (Nat.eqb_spec i 0) as [->|]; [|done]. destruct cache as [c|]; [|done].
  destruct (Nat.ltb_spec c (length data)) as [Hc|]; [|done]. exists c. split_and!; [done..|]. by apply Hcache.
Qed.

(** The index never returns to the root. *)
Lemma downheap_loop_spec fuel data cache i picked v : length data - i < fuel → i < length data →
  (i = 0 → cache_ok cmp_ data cache ∧ picked = None) → down_inv (<[i := v]> data) i →
  ∃ d k picked', downheap_loop cmp_ fuel data cache i picked v = Some (d, k, picked') ∧
    heap_order (<[k := v]> d) ∧ <[k := v]> d ≡ₚ <[i := v]> data ∧
    (k = 0 → cache_ok cmp_ (<[k := v]> d) picked') .
Proof using StrictWeakOrder0.
  revert data i picked. induction fuel as [|fuel IH]; intros data i picked Hf Hi Hroot Hinv; [lia|]. cbn [downheap_loop].
  destruct (Nat.leb_spec (length data) (get_left i)) as [Hleaf|Hleft].
  { exists data, i, picked. split_and!; [done| |done|].
    - intros j Hj. destruct (decide (get_parent j = i)) as [Ej|]; [|by apply Hinv].
      intros x y _ Hy. apply lookup_lt_Some in Hy. rewrite length_insert in Hy.
      apply parent_cases in Ej as [->| ->]; [lia|unfold get_left, get_right in *; lia|done].
    - intros ->. destruct (Hroot eq_refl) as [_ ->]. intros c Hc. done. }
  destruct (pick_child_spec data cache i v Hleft) as (c & -> & Hcl & Hm & Hm').
  { intros E. by apply Hroot. }
  cbn [mbind option_bind]. destruct (lookup_lt_is_Some_2 data c Hcl) as [p Hp]. rewrite Hp. cbn [mbind option_bind].
  destruct Hm as (Hc0 & Ec & Hmax). pose proof (parent_lt c Hc0) as Hlt. rewrite Ec in Hlt.
  destruct (cmp_ v p) eqn:Hv; cbn [negb].
  - destruct (IH (<[i := p]> data) c (Some c)) as (d & k & pk & -> & Ho & Hperm & Hcache);
      [rewrite length_insert; lia|by rewrite length_insert|lia|by apply down_step|].
    exists d, k, pk. split_and!; [done|done| |done]. rewrite Hperm.
    rewrite <- (Permutation_insert_swap (<[i := v]> data) i c v p), list_insert_insert_eq.
    + done.
    + by apply list_lookup_insert_eq.
    + rewrite list_lookup_insert_ne; [done|lia].
  - exists data, i, (Some c). split_and!; [done| |done|by intros -> c' [= <-] _].
    intros j Hj. destruct (decide (get_parent j = i)) as [Ej|]; [|by apply Hinv].
    intros x y Hx Hy. rewrite Ej, list_lookup_insert_eq in Hx by done. injection Hx as <-.
    pose proof (parent_lt j Hj). rewrite list_lookup_insert_ne in Hy by lia.
    apply (swo_not_trans v p y); [done|by apply (Hmax j)].
Qed.

Lemma heap_order_max l m i y : heap_order l → l !! 0 = Some m → l !! i = Some y → cmp_ m y = false.
Proof using StrictWeakOrder0.
  intros Ho Hm. revert y. induction i as [i IH] using lt_wf_ind. intros y Hy.
  destruct (decide (i = 0)) as [->|Hi].
  - simplify_eq. destruct (cmp_ m m) eqn:E; [rewrite (swo_asym m m E) in E|]; done.
  - pose proof (parent_lt i ltac:(lia)) as Hlt. pose proof (lookup_lt_Some _ _ _ Hy).
    destruct (lookup_lt_is_Some_2 l (get_parent i)) as [p Hp]; [lia|].
    apply (swo_not_trans m p y); [by apply (IH (get_parent i))|]. by apply (Ho i ltac:(lia)).
Qed.

(** ** The operations *)

Lemma push_spec h v : heap_ok cmp_ h →
  ∃ h', push cmp_ h v = Some h' ∧ heap_ok cmp_ h' ∧ data_ h' ≡ₚ v :: data_ h.
Proof using StrictWeakOrder0.
  intros [Ho _]. unfold push, upheap, size. cbn [data_]. rewrite length_app. cbn [length].
  replace (length (data_ h) + 1 - 1) with (length (data_ h)) by lia. set (n := length (data_ h)).
  assert ((data_ h ++ [v]) !! n = Some v) as Hv by (by apply list_lookup_middle).
  rewrite Hv. cbn [mbind option_bind].
  destruct (upheap_loop_spec (S n) (data_ h ++ [v]) n v) as (d & -> & Hd & Hperm).
  - lia.
  - rewrite length_app. cbn. lia.
  - rewrite list_insert_id by done. split.
    + intros j Hj Hne x y Hx Hy. pose proof (parent_lt j Hj). pose proof (lookup_lt_Some _ _ _ Hy) as Hl.
      rewrite length_app in Hl. cbn in Hl. fold n in Hl. rewrite lookup_app_l in Hx, Hy by lia. by apply (Ho j Hj).
    + intros j x y _ Hj Ej _ Hy. apply lookup_lt_Some in Hy. rewrite length_app in Hy. cbn in Hy. fold n in Hy.
      pose proof (parent_lt j Hj). lia.
  - eexists. split; [reflexivity|]. split; [by split|]. cbn [data_ reset_root_cmp_cache].
    rewrite Hperm, list_insert_id by done. by rewrite Permutation_app_comm.
Qed.

Lemma downheap_root data cache : data ≠ [] → (∀ j, 0 < j → get_parent j ≠ 0 → parent_ok data j) →
  cache_ok cmp_ data cache →
  ∃ h', downheap cmp_ (mkHeap data cache) get_root = Some h' ∧ heap_ok cmp_ h' ∧ data_ h' ≡ₚ data.
Proof using StrictWeakOrder0.
  intros Hne Hj Hc. unfold downheap, get_root. cbn [data_ root_cmp_cache_].
  destruct data as [|v l] eqn:E; [done|]. rewrite <- E in *. assert (data !! 0 = Some v) as Hv by (by rewrite E).
  rewrite Hv. cbn [mbind option_bind].
  destruct (downheap_loop_spec (S (length data)) data cache 0 None v) as (d & k & pk & -> & Ho & Hperm & Hcache).
  - lia.
  - rewrite E. cbn. lia.
  - done.
  - rewrite list_insert_id by done. split; [done|]. intros j x y ?. lia.
  - eexists. split; [reflexivity|]. rewrite (list_insert_id data) in Hperm by done. split; [|done]. split; [done|].
    cbn [data_ root_cmp_cache_]. destruct (Nat.eqb_spec k 0) as [Ek|]; [by apply Hcache|done].
Qed.

Lemma replace_top_spec h v m r : heap_ok cmp_ h → data_ h = m :: r →
  ∃ h', replace_top cmp_ h v = Some h' ∧ heap_ok cmp_ h' ∧ data_ h' ≡ₚ v :: r.
Proof using StrictWeakOrder0.
  intros [Ho Hc] E. unfold replace_top. rewrite E in *. cbn [insert list_insert]. apply downheap_root; [done| |].
  - intros j Hj Hp x y. specialize (Ho j Hj x y). destruct j; [lia|]. by destruct (get_parent (S j)).
  - intros c Ec Hl. destruct (Hc c Ec Hl) as (H1 & H2 & H3). split_and!; [done..|]. intros d x y Hd Ed.
    specialize (H3 d x y Hd Ed). destruct c, d; [lia..|]. done.
Qed.

Lemma pop_spec h m r : heap_ok cmp_ h → data_ h = m :: r →
  ∃ h', pop cmp_ h = Some h' ∧ heap_ok cmp_ h' ∧ data_ h' ≡ₚ r.
Proof using StrictWeakOrder0.
  intros [Ho Hc] E. unfold pop, size, empty. rewrite E in *.
  destruct r as [|b mid _] using rev_ind.
  - cbn. eexists. split; [reflexivity|]. split; [|done]. split; [|done]. intros j _ x y Hx. cbn in Hx. by rewrite lookup_nil in Hx.
  - assert ((m :: mid ++ [b]) !! (length (m :: mid ++ [b]) - 1) = Some b) as ->.
    { cbn [length]. rewrite length_app, Nat.sub_1_r. cbn. replace (length mid + 1) with (S (length mid)) by lia. cbn.
      by apply list_lookup_middle. }
    destruct (Nat.ltb_spec 1 (length (m :: mid ++ [b]))) as [_|Hbad];
      [|cbn [length] in Hbad; rewrite length_app in Hbad; cbn in Hbad; lia].
    cbn [insert list_insert]. change (b :: mid ++ [b]) with ((b :: mid) ++ [b]). rewrite removelast_last. cbn [data_ length].
    cbn [Nat.eqb negb].
    assert (∀ j, j ≠ 0 → ∀ x, (b :: mid) !! j = Some x → (m :: mid ++ [b]) !! j = Some x) as Hlk.
    { intros [|j] Hj x Hx; [done|]. cbn in *. by apply lookup_app_l_Some. }
    destruct (downheap_root (b :: mid) (root_cmp_cache_ h)) as (h' & E' & Hh' & Hp).
    + done.
    + intros j Hj Hp x y Hx Hy. apply (Ho j Hj); apply Hlk; (done || lia).
    + intros c Ec Hl. destruct (Hc c Ec) as (H1 & H2 & H3); [cbn in *; rewrite length_app; lia|].
      split_and!; [done..|]. intros d x y Hd Ed Hx Hy. apply (H3 d x y Hd Ed); apply Hlk; (done || lia).
    + exists h'. split_and!; [done|done|]. rewrite Hp. by rewrite Permutation_app_comm.
Qed.

(** ** The specification: a priority queue *)

Inductive heap_op := Push (v : T) | Pop | ReplaceTop (v : T).

(** The contents of a queue in any order. *)
Definition is_max (s : list T) (m : T) : Prop := m ∈ s ∧ ∀ y, y ∈ s → cmp_ m y = false.
Inductive queue_step (s : list T) : heap_op → list T → Prop :=
  | step_push v : queue_step s (Push v) (v :: s)
  | step_pop m r : is_max s m → s ≡ₚ m :: r → queue_step s Pop r
  | step_replace m r v : is_max s m → s ≡ₚ m :: r → queue_step s (ReplaceTop v) (v :: r).
Inductive queue_run : list T → list heap_op → list T → Prop :=
  | run_done s : queue_run s [] s
  | run_step s op s' ops s'' : queue_step s op s' → queue_run s' ops s'' → queue_run s (op :: ops) s''.

(** [pop] and [replace_top] are not called on an empty heap. *)
Fixpoint ops_ok (n : nat) (ops : list heap_op) : bool :=
  match ops, n with
  | [], _ => true
  | Push _ :: ops, n => ops_ok (S n) ops
  | Pop :: ops, S n => ops_ok n ops
  | ReplaceTop _ :: ops, S n => ops_ok (S n) ops
  | _, O => false
  end.

Definition heap_step (h : BinaryHeap) (op : heap_op) : option BinaryHeap :=
  match op with
  | Push v => push cmp_ h v
  | Pop => pop cmp_ h
  | ReplaceTop v => replace_top cmp_ h v
  end.
Fixpoint heap_run (h : BinaryHeap) (ops : list heap_op) : option BinaryHeap :=
  match ops with
  | [] => Some h
  | op :: ops => h ← heap_step h op; heap_run h ops
  end.

Lemma top_is_max h m r s : heap_ok cmp_ h → data_ h = m :: r → data_ h ≡ₚ s → is_max s m.
Proof using StrictWeakOrder0.
  intros [Ho _] E Hp. split; [rewrite <- Hp, E; by left|]. intros y Hy. rewrite <- Hp in Hy.
  apply list_elem_of_lookup in Hy as [i Hi]. apply (heap_order_max (data_ h) m i); [done|by rewrite E|done].
Qed.

Lemma heap_step_sim h s op ops : heap_ok cmp_ h → data_ h ≡ₚ s → ops_ok (length s) (op :: ops) = true →
  ∃ h' s', heap_step h op = Some h' ∧ queue_step s op s' ∧ heap_ok cmp_ h' ∧ data_ h' ≡ₚ s' ∧
    ops_ok (length s') ops = true.
Proof using StrictWeakOrder0.
  intros Hh Hp Hok. destruct op as [v| |v]; cbn [heap_step ops_ok] in *.
  { destruct (push_spec h v Hh) as (h' & -> & Hh' & Hp'). exists h', (v :: s).
    split_and!; [done|constructor|done|by rewrite Hp', Hp|done]. }
  all: assert (data_ h ≠ []) as Hne by (intros E; rewrite E in Hp; apply Permutation_nil_l in Hp; by subst s).
  all: destruct (data_ h) as [|m r] eqn:E; [done|]; rewrite <- E in Hp.
  all: pose proof (top_is_max h m r s Hh E Hp) as Hm; rewrite E in Hp.
  all: assert (length s = S (length r)) as El by (by rewrite <- Hp); rewrite El in Hok; cbn in Hok.
  - destruct (pop_spec h m r Hh E) as (h' & -> & Hh' & Hp'). exists h', r.
    split_and!; [done|by apply (step_pop s m)|done|done|done].
  - destruct (replace_top_spec h v m r Hh E) as (h' & -> & Hh' & Hp'). exists h', (v :: r).
    split_and!; [done|by apply (step_replace s m)|done|done|done].
Qed.

(** C25: the heap is a priority queue: every sequence of pushes, pops and
    replacements of the top, in which the last two are never applied to an empty
    heap, succeeds and does to the contents what it does to a queue that gives
    up a maximal element; the top of the heap is a maximal element. The cache of
    the root's larger child never goes stale. *)
Theorem heap_refines_priority_queue ops : ops_ok 0 ops = true →
  ∃ h s, heap_run NewBinaryHeap ops = Some h ∧ queue_run [] ops s ∧ data_ h ≡ₚ s ∧ size h = length s ∧
    (s ≠ [] → ∃ m, top h = Some m ∧ is_max s m).
Proof using StrictWeakOrder0.
  intros Hok. assert (heap_ok cmp_ NewBinaryHeap) as Hh.
  { split; [|done]. intros j _ x y Hx. cbn in Hx. by rewrite lookup_nil in Hx. }
  cut (∀ h s, heap_ok cmp_ h → data_ h ≡ₚ s → ops_ok (length s) ops = true →
    ∃ h' s', heap_run h ops = Some h' ∧ queue_run s ops s' ∧ heap_ok cmp_ h' ∧ data_ h' ≡ₚ s').
  - intros H. destruct (H NewBinaryHeap [] Hh ltac:(done) Hok) as (h' & s' & E & Hr & Hh' & Hp). exists h', s'.
    split_and!; [done..|by unfold size; rewrite Hp|]. intros Hne. unfold top. destruct (data_ h') as [|m r] eqn:Ed.
    + apply Permutation_nil_l in Hp. done.
    + exists m. split; [done|]. rewrite <- Ed in Hp. by apply (top_is_max h' m r).
  - clear Hok Hh. induction ops as [|op ops IH]; intros h s Hh Hp Hok; [exists h, s; split_and!; [done|constructor|done|done]|].
    destruct (heap_step_sim h s op ops Hh Hp Hok) as (h1 & s1 & E & Hs & Hh1 & Hp1 & Hok1). cbn [heap_run].
    rewrite E. cbn [mbind option_bind]. destruct (IH h1 s1 Hh1 Hp1 Hok1) as (h2 & s2 & -> & Hr & Hh2 & Hp2).
    exists h2, s2. split_and!; [done| |done|done]. by econstructor.
Qed.
End HeapProofs.

Module HeapExample.
#[local] Instance ltb_order : StrictWeakOrder Nat.ltb.
Proof.
  split; [intros a b H|intros a b c H1 H2].
  - apply Nat.ltb_lt in H. apply Nat.ltb_ge. lia.
  - apply Nat.ltb_ge in H1, H2. apply Nat.ltb_ge. lia.
Qed.

Definition ops : list heap_op := [Push 3; Push 9; Push 4; ReplaceTop 2; ReplaceTop 1; Push 7; Pop; Pop].

Lemma heap_refines_priority_queue_witness :
  ∃ h s, heap_run Nat.ltb NewBinaryHeap ops = Some h ∧ queue_run Nat.ltb [] ops s ∧ data_ h ≡ₚ s ∧ size h = length s ∧
    (s ≠ [] → ∃ m, top h = Some m ∧ is_max Nat.ltb s m).
Proof. apply (heap_refines_priority_queue Nat.ltb ops). by vm_compute. Defined.
End HeapExample.
