(* ===== verification/RangeTombstones.v ===== *)
(** * Fragmented range tombstones

    [FragmentedRangeTombstoneList] and [FragmentedRangeTombstoneIterator]
    (db/range_tombstone_fragmenter.cc and .h): overlapping range deletions are cut
    into fragments that do not overlap, each with the sequence numbers of the
    deletions that cover it, newest first. The iterator that gives the deletions
    is the list of its entries: an internal key and the end of the range. Pinned
    slices are the values they hold. *)

From S2P Require Import Prelude SortedLists Status Slice Coding Comparator DbFormat.
#[local] Open Scope Z_scope.

(** ** The list of fragments *)

Record RangeTombstoneStack := mkStack {
  start_key : bytes; end_key : bytes; seq_start_idx : nat; seq_end_idx : nat
}.

Record FragmentedRangeTombstoneList := mkFragments {
  tombstones_ : list RangeTombstoneStack;
  tombstone_seqs_ : list Z;
  tombstone_timestamps_ : list bytes;
  num_unfragmented_tombstones_ : Z;
  total_tombstone_payload_bytes_ : Z
}.

Definition NoFragments : FragmentedRangeTombstoneList := mkFragments [] [] [] 0 0.
Definition empty (l : FragmentedRangeTombstoneList) : bool := match tombstones_ l with [] => true | _ => false end.

(** The sequence numbers of a fragment that a compaction keeps. *)
Fixpoint snapshot_seqs (snapshots : list Z) (next_snapshot : Z) (seqs : list Z) : list Z :=
  match seqs with
  | [] => []
  | seq :: seqs =>
      if seq <=? next_snapshot then
        match count_while (λ s, s <? seq) snapshots with
        | O => [seq]
        | S i => seq :: snapshot_seqs snapshots (default 0 (snapshots !! i)) seqs
        end
      else snapshot_seqs snapshots next_snapshot seqs
  end.

Section Fragment.
Context (ucmp : Comparator) (for_compaction : bool) (snapshots : list Z).

(** [std::sort] with [std::greater], and by [CompareTimestamp]. *)
Definition sort_seqs (seqs : list Z) : list Z := sort_by (λ a b, b <=? a) seqs.
Definition sort_timestamps (ts : list bytes) : list bytes := sort_by (λ a b, 0 <=? CompareTimestamp ucmp a b) ts.

(** Flushes the fragment [[cur_start_key, cur_end_key)] of the tombstones whose
    end keys are [keys]. *)
Definition flush_fragment (cur_start_key cur_end_key : bytes) (keys : list ParsedInternalKey)
    (l : FragmentedRangeTombstoneList) : FragmentedRangeTombstoneList :=
  let ts_sz := timestamp_size ucmp in
  let seqnums_to_flush := sort_seqs (map sequence keys) in
  let timestamps_to_flush :=
    if ts_sz =? 0 then []
    else sort_timestamps (map (λ k, ExtractTimestampFromUserKey (user_key k) ts_sz) keys) in
  let start_idx := length (tombstone_seqs_ l) in
  let '(seqs, timestamps) :=
    if for_compaction && (ts_sz =? 0)
    then (tombstone_seqs_ l ++ snapshot_seqs snapshots kMaxSequenceNumber seqnums_to_flush, tombstone_timestamps_ l)
    else (tombstone_seqs_ l ++ seqnums_to_flush, tombstone_timestamps_ l ++ timestamps_to_flush) in
  let end_idx := length seqs in
  let stack :=
    if ts_sz =? 0 then mkStack cur_start_key cur_end_key start_idx end_idx
    else mkStack (AppendUserKeyWithMaxTimestamp [] cur_start_key ts_sz)
           (AppendUserKeyWithMaxTimestamp [] cur_end_key ts_sz) start_idx end_idx in
  mkFragments (tombstones_ l ++ [stack]) seqs timestamps (num_unfragmented_tombstones_ l)
    (total_tombstone_payload_bytes_ l).

(** [flush_current_tombstones], from an iterator of [cur_end_keys] on: the list
    and what is left of [cur_end_keys]. *)
Fixpoint flush_loop (next_start_key cur_start_key : bytes) (it : list ParsedInternalKey)
    (l : FragmentedRangeTombstoneList) : FragmentedRangeTombstoneList * list ParsedInternalKey :=
  match it with
  | [] => (l, [])
  | k :: tl =>
      let cur_end_key := user_key k in
      if CompareWithoutTimestamp ucmp cur_start_key cur_end_key =? 0 then flush_loop next_start_key cur_start_key tl l
      else if CompareWithoutTimestamp ucmp next_start_key cur_end_key <=? 0
      then (flush_fragment cur_start_key next_start_key it l, it)
      else flush_loop next_start_key cur_end_key tl (flush_fragment cur_start_key cur_end_key it l)
  end.

(** [std::set::emplace] *)
Fixpoint set_emplace (k : ParsedInternalKey) (s : list ParsedInternalKey) : list ParsedInternalKey :=
  match s with
  | [] => [k]
  | x :: tl =>
      if InternalKeyComparator.ParsedLess ucmp k x then k :: s
      else if InternalKeyComparator.ParsedLess ucmp x k then x :: set_emplace k tl
      else s
  end.

(** A turn of the loop over the tombstones: the current start key, the end keys
    and the list. *)
Definition fragment_step (st : bytes * list ParsedInternalKey * FragmentedRangeTombstoneList) (e : bytes * bytes) :
    bytes * list ParsedInternalKey * FragmentedRangeTombstoneList :=
  let '(cur_start_key, cur_end_keys, l) := st in
  let '(ikey, tombstone_end_key) := e in
  let tombstone_start_key := ExtractUserKey ikey in
  let tombstone_seq := GetInternalKeySeqno ikey in
  let '(l, cur_end_keys) :=
    match cur_end_keys with
    | _ :: _ =>
        if negb (CompareWithoutTimestamp ucmp cur_start_key tombstone_start_key =? 0)
        then flush_loop tombstone_start_key cur_start_key cur_end_keys l else (l, cur_end_keys)
    | [] => (l, cur_end_keys)
    end in
  (tombstone_start_key, set_emplace (mkParsed tombstone_end_key tombstone_seq kTypeRangeDeletion) cur_end_keys, l).

Definition FragmentTombstones (entries : list (bytes * bytes)) (l : FragmentedRangeTombstoneList) :
    FragmentedRangeTombstoneList :=
  let '(cur_start_key, cur_end_keys, l) := fold_left fragment_step entries ([], [], l) in
  match last cur_end_keys with
  | Some last_end_key => fst (flush_loop (user_key last_end_key) cur_start_key cur_end_keys l)
  | None => l
  end.

(** The first pass of the constructor: whether the keys ascend, with the number
    and the bytes of the tombstones it has seen. *)
Fixpoint check_sorted (last_start_key : bytes) (entries : list (bytes * bytes)) (num payload : Z) : bool * Z * Z :=
  match entries with
  | [] => (true, num, payload)
  | (key, value) :: entries =>
      let payload := payload + (Zlen key + Zlen value) in
      if (0 <? num) && (0 <? InternalKeyComparator.Compare ucmp last_start_key key) then (false, num, payload)
      else check_sorted key entries (num + 1) payload
  end.

(** [VectorIterator] sorts its entries by key. *)
Definition VectorIterator (entries : list (bytes * bytes)) : list (bytes * bytes) :=
  sort_by (λ a b, InternalKeyComparator.Compare ucmp (fst a) (fst b) <=? 0) entries.

Definition NewFragmentedRangeTombstoneList (entries : list (bytes * bytes)) : FragmentedRangeTombstoneList :=
  let '(is_sorted, num, payload) := check_sorted [] entries 0 0 in
  if is_sorted then FragmentTombstones entries (mkFragments [] [] [] num payload)
  else
    let payload := fold_left (λ n e, n + (Zlen (fst e) + Zlen (snd e))) entries 0 in
    FragmentTombstones (VectorIterator entries) (mkFragments [] [] [] num payload).
End Fragment.

(** [lower_bound] in the set of all sequence numbers. *)
Definition ContainsRange (l : FragmentedRangeTombstoneList) (lower upper : Z) : bool :=
  match sort_by Z.leb (filter (λ s, lower <= s) (tombstone_seqs_ l)) with
  | seq :: _ => seq <=? upper
  | [] => false
  end.

(** ** The iterator *)

Module FragmentedRangeTombstoneIterator.
(** [pos_] and [seq_pos_] are indices; the end is the length. *)
Record t := mkIter {
  list_ : FragmentedRangeTombstoneList;
  upper_bound_ : Z;
  lower_bound_ : Z;
  ts_upper_bound_ : option bytes;
  pos_ : nat;
  seq_pos_ : nat
}.

Section Iterator.
Context (ucmp : Comparator).

Definition set_pos (it : t) (pos seq_pos : nat) : t :=
  mkIter (list_ it) (upper_bound_ it) (lower_bound_ it) (ts_upper_bound_ it) pos seq_pos.
Definition tombs (it : t) : list RangeTombstoneStack := tombstones_ (list_ it).
Definition seqs (it : t) : list Z := tombstone_seqs_ (list_ it).
Definition at_pos (it : t) : RangeTombstoneStack := default (mkStack [] [] 0 0) (tombs it !! pos_ it).
Definition at_end (it : t) : bool := (pos_ it =? length (tombs it))%nat.

Definition Invalidate (it : t) : t := set_pos it (length (tombs it)) (length (seqs it)).
Definition New (l : FragmentedRangeTombstoneList) (upper : Z) (ts_upper : option bytes) (lower : Z) : t :=
  Invalidate (mkIter l upper lower ts_upper 0 0).

Definition Valid (it : t) : bool := negb (at_end it).
Definition ValidPos (it : t) : bool := Valid it && negb (seq_pos_ it =? seq_end_idx (at_pos it))%nat.
Definition seq (it : t) : Z := default 0 (seqs it !! seq_pos_ it).
Definition start_key (it : t) : bytes := RangeTombstones.start_key (at_pos it).
Definition end_key (it : t) : bytes := RangeTombstones.end_key (at_pos it).
Definition timestamp (it : t) : bytes := default [] (tombstone_timestamps_ (list_ it) !! seq_pos_ it).
Definition key (it : t) : bytes := InternalKey.Set_ (start_key it) (seq it) kTypeRangeDeletion.
Definition value (it : t) : bytes := end_key it.
Definition Tombstone (it : t) : RangeTombstone :=
  if timestamp_size ucmp =? 0 then NewRangeTombstone (start_key it) (end_key it) (seq it)
  else NewRangeTombstoneTs (start_key it) (end_key it) (seq it) (timestamp it).
Definition SetTimestampUpperBound (it : t) (ts_upper_bound : option bytes) : t :=
  mkIter (list_ it) (upper_bound_ it) (lower_bound_ it) ts_upper_bound (pos_ it) (seq_pos_ it).
Definition parsed_start_key (it : t) : ParsedInternalKey := mkParsed (start_key it) (seq it) kTypeRangeDeletion.
Definition parsed_end_key (it : t) : ParsedInternalKey := mkParsed (end_key it) kMaxSequenceNumber kTypeRangeDeletion.

(** The elements from [i] up to [j] of a vector. *)
Definition slice_of {A} (l : list A) (i j : nat) : list A := take (j - i) (drop i l).

Definition SetMaxVisibleSeqAndTimestamp (it : t) : t :=
  let s := at_pos it in
  let seq_idx := count_while (λ x, upper_bound_ it <? x) (slice_of (seqs it) (seq_start_idx s) (seq_end_idx s)) in
  let idx :=
    match ts_upper_bound_ it with
    | Some ((_ :: _) as bound) =>
        let ts_idx := count_while (λ ts, 0 <? CompareTimestamp ucmp ts bound)
                        (slice_of (tombstone_timestamps_ (list_ it)) (seq_start_idx s) (seq_end_idx s)) in
        if (seq_idx <? ts_idx)%nat then ts_idx else seq_idx
    | _ => seq_idx
    end in
  set_pos it (pos_ it) (seq_start_idx s + idx).

(** [upper_bound] by end key and by start key *)
Definition SeekToCoveringTombstone (it : t) (target : bytes) : t :=
  let pos := count_while (λ s, negb (CompareWithoutTimestamp ucmp target (RangeTombstones.end_key s) <? 0)) (tombs it) in
  if (pos =? length (tombs it))%nat then set_pos it pos (length (seqs it))
  else SetMaxVisibleSeqAndTimestamp (set_pos it pos (seq_pos_ it)).
Definition SeekForPrevToCoveringTombstone (it : t) (target : bytes) : t :=
  if empty (list_ it) then Invalidate it
  else
    let pos := count_while (λ s, negb (CompareWithoutTimestamp ucmp target (RangeTombstones.start_key s) <? 0)) (tombs it) in
    match pos with
    | O => Invalidate it
    | S pos => SetMaxVisibleSeqAndTimestamp (set_pos it pos (seq_pos_ it))
    end.

(** The condition of the loops below: nothing of the stack is visible. *)
Definition invisible (it : t) : bool :=
  negb (at_end it) && ((seq_pos_ it =? seq_end_idx (at_pos it))%nat || (seq it <? lower_bound_ it)).

(** [None] is out of fuel. *)
Fixpoint ScanForward_loop (fuel : nat) (it : t) : option t :=
  match fuel with
  | O => None
  | S fuel =>
      if invisible it then
        let it := set_pos it (S (pos_ it)) (seq_pos_ it) in
        if at_end it then Some (Invalidate it) else ScanForward_loop fuel (SetMaxVisibleSeqAndTimestamp it)
      else Some it
  end.
Fixpoint ScanBackward_loop (fuel : nat) (it : t) : option t :=
  match fuel with
  | O => None
  | S fuel =>
      if invisible it then
        match pos_ it with
        | O => Some (Invalidate it)
        | S pos => ScanBackward_loop fuel (SetMaxVisibleSeqAndTimestamp (set_pos it pos (seq_pos_ it)))
        end
      else Some it
  end.
Definition ScanForwardToVisibleTombstone (it : t) : option t := ScanForward_loop (S (length (tombs it))) it.
Definition ScanBackwardToVisibleTombstone (it : t) : option t := ScanBackward_loop (S (length (tombs it))) it.

Definition SeekToFirst (it : t) : t := set_pos it 0 0.
Definition SeekToTopFirst (it : t) : option t :=
  if empty (list_ it) then Some (Invalidate it)
  else ScanForwardToVisibleTombstone (SetMaxVisibleSeqAndTimestamp (set_pos it 0 (seq_pos_ it))).
(** The list is not empty. *)
Definition SeekToLast (it : t) : t := set_pos it (length (tombs it) - 1) (length (seqs it) - 1).
Definition SeekToTopLast (it : t) : option t :=
  if empty (list_ it) then Some (Invalidate it)
  else ScanBackwardToVisibleTombstone (SetMaxVisibleSeqAndTimestamp (set_pos it (length (tombs it) - 1) (seq_pos_ it))).
Definition Seek (it : t) (target : bytes) : option t :=
  if empty (list_ it) then Some (Invalidate it)
  else ScanForwardToVisibleTombstone (SeekToCoveringTombstone it target).
Definition SeekForPrev (it : t) (target : bytes) : option t :=
  if empty (list_ it) then Some (Invalidate it)
  else ScanBackwardToVisibleTombstone (SeekForPrevToCoveringTombstone it target).

Definition Next (it : t) : t :=
  let seq_pos := S (seq_pos_ it) in
  set_pos it (if (seq_pos =? seq_end_idx (at_pos it))%nat then S (pos_ it) else pos_ it) seq_pos.
Definition TopNext (it : t) : option t :=
  let it := set_pos it (S (pos_ it)) (seq_pos_ it) in
  if at_end it then Some it else ScanForwardToVisibleTombstone (SetMaxVisibleSeqAndTimestamp it).
Definition Prev (it : t) : t :=
  match seq_pos_ it with
  | O => Invalidate it
  | S seq_pos =>
      set_pos it (if at_end it || (S seq_pos =? seq_start_idx (at_pos it))%nat then pos_ it - 1 else pos_ it) seq_pos
  end.
Definition TopPrev (it : t) : option t :=
  match pos_ it with
  | O => Some (Invalidate it)
  | S pos => ScanBackwardToVisibleTombstone (SetMaxVisibleSeqAndTimestamp (set_pos it pos (seq_pos_ it)))
  end.

(** The new position, and the answer. *)
Definition MaxCoveringTombstoneSeqnum (it : t) (target_user_key : bytes) : t * Z :=
  let it := SeekToCoveringTombstone it target_user_key in
  (it, if ValidPos it && (CompareWithoutTimestamp ucmp (start_key it) target_user_key <=? 0) then seq it else 0).

(** The iterators with their upper bounds, in order. *)
Fixpoint SplitBySnapshot_loop (it : t) (lower : Z) (snapshots : list Z) : list (Z * t) :=
  let split upper :=
    if ContainsRange (list_ it) lower upper then [(upper, New (list_ it) upper (ts_upper_bound_ it) lower)] else [] in
  match snapshots with
  | [] => split kMaxSequenceNumber
  | upper :: snapshots => split upper ++ SplitBySnapshot_loop it (upper + 1) snapshots
  end.
Definition SplitBySnapshot (it : t) (snapshots : list Z) : list (Z * t) := SplitBySnapshot_loop it 0 snapshots.
End Iterator.
End FragmentedRangeTombstoneIterator.
