(* ===== verification/RangeTombstonesCorrect.v ===== *)
(** * Fragmentation keeps what is deleted

    For a comparator without timestamps: the fragments do not overlap, and the
    newest deletion that covers a key, seen from a snapshot, is the same for the
    fragments as for the deletions they were made of. *)

From S2P Require Import Prelude SortedLists Status Slice Coding Comparator DbFormat RangeTombstones.
From Stdlib Require Import Sorting.Sorted.
#[local] Open Scope Z_scope.
#[local] Opaque ztake zdrop Zlen.

(** ** The largest of some sequence numbers *)

Definition max_seq (l : list Z) : Z := foldr Z.max 0 l.

Lemma max_seq_le l x : x ∈ l → x <= max_seq l.
Proof. unfold max_seq. induction 1; cbn; lia. Qed.
Lemma max_seq_nonneg l : 0 <= max_seq l.
Proof. unfold max_seq. induction l; cbn; lia. Qed.
Lemma max_seq_elem l : max_seq l = 0 ∨ max_seq l ∈ l.
Proof.
  unfold max_seq. induction l as [|x l IH]; cbn; [by left|]. rewrite elem_of_cons.
  destruct (Z.max_spec x (foldr Z.max 0 l)) as [[_ ->]|[_ ->]]; [|auto]. destruct IH; auto.
Qed.
Lemma max_seq_mono l1 l2 : (∀ x, x ∈ l1 → x ∈ l2) → max_seq l1 <= max_seq l2.
Proof.
  intros Hl. destruct (max_seq_elem l1) as [->|He]; [apply max_seq_nonneg|]. by apply max_seq_le, Hl.
Qed.
Lemma max_seq_ext l1 l2 : (∀ x, x ∈ l1 ↔ x ∈ l2) → max_seq l1 = max_seq l2.
Proof. intros Hl. apply Z.le_antisymm; apply max_seq_mono; naive_solver. Qed.

(** What is visible at [upper]. *)
Definition visible (upper : Z) (l : list Z) : list Z := filter (λ x, x <= upper) l.

Definition descending : list Z → Prop := StronglySorted Z.ge.

Lemma visible_head upper y l l' : Forall (Z.ge y) l → (∀ x, x ∈ l' → x ∈ l) → y <= upper →
  max_seq (visible upper (y :: l')) = Z.max 0 y.
Proof.
  unfold visible. intros Hy Hl' Hu. rewrite filter_cons_True by done. cbn.
  assert (max_seq (filter (λ x, x <= upper) l') <= Z.max 0 y);
    [|pose proof (max_seq_nonneg (filter (λ x, x <= upper) l')); unfold max_seq in *; lia].
  destruct (max_seq_elem (filter (λ x, x <= upper) l')) as [->|He]; [lia|]. apply list_elem_of_filter in He as [_ He].
  rewrite Forall_forall in Hy. apply Hl', Hy in He. lia.
Qed.

(** The first element at most [upper] of a descending list. *)
Lemma first_visible upper l : descending l → Forall (Z.le 0) l →
  default 0 (l !! count_while (λ x, upper <? x) l) = max_seq (visible upper l).
Proof.
  induction 1 as [|x l Hl IH Hx]; intros Hp; [done|]. apply Forall_cons in Hp as [Hx0 Hp]. cbn [count_while].
  unfold visible in *. destruct (Z.ltb_spec upper x).
  - rewrite filter_cons_False by lia. by apply IH.
  - pose proof (visible_head upper x l l Hx ltac:(done) ltac:(lia)) as E. unfold visible in E. rewrite E. cbn. lia.
Qed.

Lemma sort_seqs_descending l : descending (sort_seqs l).
Proof.
  unfold sort_seqs, descending.
  assert (StronglySorted (λ a b, (b <=? a) = true) (sort_by (λ a b, b <=? a) l)) as Hs.
  { apply (sort_by_sorted (λ _, True)); [intros; lia|intros; lia|by apply Forall_true]. }
  induction Hs as [|x l' Hl IH Hx]; constructor; [done|]. apply (Forall_impl _ _ _ Hx). intros y Hy. lia.
Qed.

Lemma elem_of_sort_seqs x l : x ∈ sort_seqs l ↔ x ∈ l.
Proof. unfold sort_seqs. by rewrite sort_by_perm. Qed.

(** ** What a compaction keeps *)

Section Snapshots.
Context (snapshots : list Z) (Hsorted : StronglySorted Z.le snapshots).

Lemma snapshot_seqs_subset next l x : x ∈ snapshot_seqs snapshots next l → x ∈ l.
Proof using.
  revert next. induction l as [|y l IH]; intros next; cbn; [done|]. destruct (y <=? next).
  - destruct (count_while _ _); rewrite !elem_of_cons; [intros [->|Hn]; [by left|by apply elem_of_nil in Hn]|].
    intros [->|Hx]; [by left|right; by eapply IH].
  - rewrite elem_of_cons. intros Hx. right. by eapply IH.
Qed.

Lemma snapshot_seqs_descending next l : descending l → descending (snapshot_seqs snapshots next l).
Proof using.
  unfold descending. intros Hd. revert next. induction Hd as [|y l Hl IH Hy]; intros next; cbn; [constructor|].
  destruct (y <=? next); [|apply IH]. destruct (count_while _ _); [by repeat constructor|].
  constructor; [apply IH|]. rewrite Forall_forall in *. intros z Hz%snapshot_seqs_subset. by apply Hy.
Qed.

(** The largest snapshot below a sequence number. *)
Lemma snapshot_below seq s : s ∈ snapshots → s < seq →
  ∃ i p, count_while (λ s, s <? seq) snapshots = S i ∧ snapshots !! i = Some p ∧ s <= p.
Proof using Hsorted.
  intros Hs Hlt. apply list_elem_of_lookup in Hs as [j Hj]. set (c := count_while (λ s, s <? seq) snapshots).
  assert (j < c)%nat as Hc.
  { destruct (Nat.lt_ge_cases j c) as [|Hge]; [done|]. destruct (snapshots !! c) as [x|] eqn:E.
    - pose proof (count_while_at _ _ _ E) as Hx. cbn in Hx.
      destruct (decide (j = c)) as [->|Hne]; [assert (x = s) by congruence; lia|].
      pose proof (sorted_lookup _ _ Hsorted _ _ _ _ E Hj ltac:(lia)). lia.
    - apply lookup_ge_None in E. apply lookup_lt_Some in Hj. lia. }
  pose proof (count_while_le (λ s, s <? seq) snapshots) as Hle. fold c in Hle. destruct c as [|i]; [lia|].
  destruct (lookup_lt_is_Some_2 snapshots i) as [p Hp]; [lia|].
  exists i, p. split_and!; [done|done|]. destruct (decide (j = i)) as [->|Hne]; [assert (p = s) by congruence; lia|].
  exact (sorted_lookup _ _ Hsorted _ _ _ _ Hj Hp ltac:(lia)).
Qed.

(** Seen from a snapshot, the newest sequence number is kept. *)
Lemma snapshot_seqs_visible next l s : descending l → s ∈ snapshots → s <= next →
  max_seq (visible s (snapshot_seqs snapshots next l)) = max_seq (visible s l).
Proof using Hsorted.
  intros Hd Hs. revert next. induction Hd as [|y l Hl IH Hy]; intros next Hn; cbn [snapshot_seqs]; [done|].
  unfold visible in *. destruct (Z.leb_spec y next).
  - destruct (Z.le_gt_cases y s) as [Hys|Hys].
    + fold (visible s (y :: l)). rewrite (visible_head s y l l Hy) by done.
      destruct (count_while _ _); [apply (visible_head s y l [] Hy); [by intros ? ?%elem_of_nil|done]|].
      apply (visible_head s y l _ Hy); [apply snapshot_seqs_subset|done].
    + destruct (snapshot_below y s Hs Hys) as (i & p & -> & -> & Hp). cbn [default].
      rewrite !filter_cons_False by lia. by apply IH.
  - rewrite (filter_cons_False _ y) by lia. by apply IH.
Qed.

Lemma snapshot_seqs_all next l u : descending l → Forall (λ x, x <= next) l → Forall (λ x, x <= u) l →
  max_seq (visible u (snapshot_seqs snapshots next l)) = max_seq (visible u l).
Proof using.
  destruct 1 as [|y l Hl Hy]; intros Hn Hu; [done|]. apply Forall_cons in Hn as [Hn _]. apply Forall_cons in Hu as [Hyu Hu].
  cbn [snapshot_seqs]. rewrite (proj2 (Z.leb_le _ _)), (visible_head u y l l Hy) by done.
  destruct (count_while _ _); [apply (visible_head u y l [] Hy); [by intros ? ?%elem_of_nil|done]|].
  apply (visible_head u y l _ Hy); [apply snapshot_seqs_subset|done].
Qed.
End Snapshots.

Section Fragments.
Context (wf : bytes → Prop) (ucmp : Comparator) `{!ComparatorLaws wf ucmp} (Hts : timestamp_size ucmp = 0).
Context (for_compaction : bool) (snapshots : list Z).

#[local] Abbreviation kle a b := (Compare ucmp a b <= 0).
#[local] Abbreviation klt a b := (Compare ucmp a b < 0).

Lemma no_ts a b : CompareWithoutTimestamp ucmp a b = Compare ucmp a b.
Proof using ComparatorLaws0 Hts. by apply (cl_no_ts_plain (wf := wf)). Qed.

Lemma not_klt a b : wf a → wf b → ¬ klt a b → kle b a.
Proof using ComparatorLaws0. intros Ha Hb Hn. apply (cmp_flip_le (wf := wf)); [done..|lia]. Qed.
Lemma klt_not_le a b : wf a → wf b → klt a b → ¬ kle b a.
Proof using ComparatorLaws0. intros Ha Hb Hl Hn. apply (cmp_flip_le (wf := wf)) in Hn; [lia|done..]. Qed.
Lemma keq_le a b : wf a → wf b → Compare ucmp a b = 0 → kle b a.
Proof using ComparatorLaws0. intros Ha Hb E. apply (cmp_flip_le (wf := wf)); [done..|lia]. Qed.

(** ** Fragments *)

(** A fragment with the sequence numbers of all the tombstones that cover it. *)
Record frag := mkFrag { f_start : bytes; f_end : bytes; f_seqs : list Z }.

Definition stored (q : list Z) : list Z :=
  if for_compaction then snapshot_seqs snapshots kMaxSequenceNumber (sort_seqs q) else sort_seqs q.
Fixpoint stacks (off : nat) (G : list frag) : list RangeTombstoneStack :=
  match G with
  | [] => []
  | f :: G =>
      let n := length (stored (f_seqs f)) in
      mkStack (f_start f) (f_end f) off (off + n) :: stacks (off + n) G
  end.
Definition stored_seqs (G : list frag) : list Z := concat (map (λ f, stored (f_seqs f)) G).
Definition rendered (l : FragmentedRangeTombstoneList) (G : list frag) : Prop :=
  tombstones_ l = stacks 0 G ∧ tombstone_seqs_ l = stored_seqs G.

Lemma stored_seqs_app G1 G2 : stored_seqs (G1 ++ G2) = stored_seqs G1 ++ stored_seqs G2.
Proof using. unfold stored_seqs. by rewrite map_app, concat_app. Qed.

Lemma stacks_app off G1 G2 : stacks off (G1 ++ G2) = stacks off G1 ++ stacks (off + length (stored_seqs G1)) G2.
Proof using.
  revert off. induction G1 as [|f G1 IH]; intros off; cbn [app stacks]; [by rewrite Nat.add_0_r|].
  rewrite IH. do 3 f_equal. unfold stored_seqs. cbn [map concat]. rewrite length_app. lia.
Qed.

Lemma flush_fragment_rendered c e A l G : rendered l G →
  rendered (flush_fragment ucmp for_compaction snapshots c e A l) (G ++ [mkFrag c e (map sequence A)]).
Proof using Hts.
  intros [Ht Hq]. unfold rendered, flush_fragment. rewrite stacks_app, stored_seqs_app, Hts, <- Hq, <- Ht.
  change (stored_seqs [mkFrag c e (map sequence A)]) with (stored (map sequence A) ++ []). rewrite app_nil_r.
  unfold stored. cbn [stacks f_seqs f_start f_end]. unfold stored.
  destruct for_compaction; cbn; by rewrite ?app_nil_r, ?length_app.
Qed.

(** Fragments in order, which end at [c] at the latest. *)
Definition frag_ok (f : frag) : Prop := wf (f_start f) ∧ wf (f_end f) ∧ klt (f_start f) (f_end f) ∧ f_seqs f ≠ [].
Definition before (f g : frag) : Prop := kle (f_end f) (f_start g).
Definition frags_ok (G : list frag) (c : bytes) : Prop :=
  Forall frag_ok G ∧ StronglySorted before G ∧ Forall (λ f, kle (f_end f) c) G.

Lemma frags_ok_mono G c d : wf c → wf d → kle c d → frags_ok G c → frags_ok G d.
Proof using ComparatorLaws0.
  intros Hc Hd Hcd (Hf & Hs & He). split_and!; [done|done|]. rewrite Forall_forall in *. intros f Hin.
  apply (cmp_le_trans (f_end f) c d); [apply Hf, Hin|done|done|by apply He|done].
Qed.

Lemma frags_ok_snoc G f : frags_ok G (f_start f) → frag_ok f → frags_ok (G ++ [f]) (f_end f).
Proof using ComparatorLaws0.
  intros (Hf & Hs & He) Hok. split_and!.
  - apply Forall_app. split; [done|by constructor].
  - clear Hf. induction G as [|g G IH]; cbn; [by repeat constructor|]. apply StronglySorted_inv in Hs as [Hs Hg].
    apply Forall_cons in He as [Hge He]. constructor; [by apply IH|]. apply Forall_app. split; [done|by constructor].
  - apply Forall_app. split; [|constructor; [|done]].
    + rewrite Forall_forall in *. intros g Hin. destruct Hok as (Hw1 & Hw2 & Hlt & _).
      apply (cmp_le_trans (f_end g) (f_start f) (f_end f)); [apply Hf, Hin|done|done|by apply He|lia].
    + rewrite (cmp_refl (wf := wf)); [done|apply Hok].
Qed.

(** ** Which sequence numbers cover a key *)

Definition covered_by (G : list frag) (k : bytes) (q : Z) : Prop :=
  ∃ f, f ∈ G ∧ kle (f_start f) k ∧ klt k (f_end f) ∧ q ∈ f_seqs f.
Definition active (A : list ParsedInternalKey) (k : bytes) (q : Z) : Prop :=
  ∃ a, a ∈ A ∧ klt k (user_key a) ∧ q = sequence a.

Lemma covered_app G1 G2 k q : covered_by (G1 ++ G2) k q ↔ covered_by G1 k q ∨ covered_by G2 k q.
Proof using. unfold covered_by. setoid_rewrite elem_of_app. naive_solver. Qed.

(** The end keys in order, none before [c]. *)
Definition key_le (a b : ParsedInternalKey) : Prop := kle (user_key a) (user_key b).
Definition keys_ok (A : list ParsedInternalKey) (c : bytes) : Prop :=
  StronglySorted key_le A ∧ Forall (λ a, wf (user_key a) ∧ kle c (user_key a)) A.

Lemma covers_before G c k q : wf c → wf k → kle c k → frags_ok G c → ¬ covered_by G k q.
Proof using ComparatorLaws0.
  intros Hc Hk Hck (Hf & _ & He) (f & Hin & _ & Hlt & _). rewrite Forall_forall in *.
  destruct (Hf f Hin) as (_ & Hw & _). apply (klt_not_le k (f_end f)); [done..|].
  apply (cmp_le_trans (f_end f) c k); [done..|by apply He|done].
Qed.

(** A fragment of all the tombstones [k :: tl], from [c] to [n]. *)
Lemma covered_fragment A c n k q : wf c → wf n → wf k → keys_ok A n → kle c k → klt k n →
  covered_by [mkFrag c n (map sequence A)] k q ↔ active A k q.
Proof using ComparatorLaws0.
  intros Hc Hn Hk [_ HA] H1 H2. rewrite Forall_forall in HA. unfold covered_by, active. split.
  - intros (f & Hf%list_elem_of_singleton & _ & _ & Hq). subst f. cbn in Hq.
    apply list_elem_of_fmap in Hq as (a & -> & Ha). exists a. split_and!; [done| |done]. destruct (HA a Ha).
    by apply (cmp_lt_le_trans k n (user_key a)).
  - intros (a & Ha & _ & ->). eexists. split; [by apply list_elem_of_singleton|]. cbn. split_and!; [done|done|].
    apply list_elem_of_fmap. eauto.
Qed.

Lemma keys_ok_tail a A c : keys_ok (a :: A) c → keys_ok A c ∧ keys_ok (a :: A) (user_key a) ∧ keys_ok A (user_key a).
Proof using ComparatorLaws0.
  intros [Hs Hf]. apply StronglySorted_inv in Hs as [Hs Ha]. apply Forall_cons in Hf as [[Hwa Hca] Hf].
  assert (Forall (λ b, wf (user_key b) ∧ kle (user_key a) (user_key b)) A) as Hf'.
  { rewrite Forall_forall in *. intros b Hb. split; [by apply Hf|by apply Ha]. }
  split_and!; [done| |done]. split; [by constructor|]. constructor; [|done]. split; [done|]. by rewrite (cmp_refl (wf := wf)).
Qed.

Lemma active_cons_gone a A k q : wf k → wf (user_key a) → kle (user_key a) k → active (a :: A) k q ↔ active A k q.
Proof using ComparatorLaws0.
  intros Hk Ha Hle. unfold active. setoid_rewrite elem_of_cons. split; [|naive_solver].
  intros (b & [->|Hb] & Hlt & ->); [|eauto]. exfalso. by apply (klt_not_le k (user_key a)).
Qed.

Lemma covered_after G c k q : wf c → wf k → klt k c → Forall (λ f, wf (f_start f) ∧ kle c (f_start f)) G → ¬ covered_by G k q.
Proof using ComparatorLaws0.
  intros Hc Hk Hlt HG (f & Hin & Hle & _). rewrite Forall_forall in HG. destruct (HG f Hin) as [Hw Hcf].
  apply (klt_not_le k c); [done..|]. by apply (cmp_le_trans c (f_start f) k).
Qed.

(** What a flush up to [n] has done from [c], with the end keys [A]: it appended
    fragments [G'] that cover what [A] covers before [n], and kept the end keys that
    still matter from [n] on. *)
Definition flushed (A : list ParsedInternalKey) (n c : bytes) (G : list frag)
    (r : FragmentedRangeTombstoneList * list ParsedInternalKey) : Prop :=
  ∃ G', rendered (fst r) (G ++ G') ∧ frags_ok (G ++ G') n ∧ Forall (λ f, wf (f_start f) ∧ kle c (f_start f)) G' ∧
    (∀ k q, wf k → kle c k → klt k n → covered_by G' k q ↔ active A k q) ∧
    keys_ok (snd r) n ∧ (∀ k q, wf k → kle n k → active (snd r) k q ↔ active A k q).

(** An end key at [c] covers nothing any more. *)
Lemma flushed_skip a A n c G r : wf c → wf n → kle c n → wf (user_key a) → Compare ucmp c (user_key a) = 0 →
  flushed A n c G r → flushed (a :: A) n c G r.
Proof using ComparatorLaws0.
  intros Hc Hn Hcn Hwa E (G' & H1 & H2 & H3 & H4 & H5 & H6). exists G'. split_and!; try done.
  - intros k q Hk H7 H8. rewrite H4 by done. symmetry. apply active_cons_gone; [done..|].
    apply (cmp_le_trans (user_key a) c k); [done..|by apply keq_le|done].
  - intros k q Hk H7. rewrite H6 by done. symmetry. apply active_cons_gone; [done..|].
    apply (cmp_le_trans (user_key a) c k); [done..|by apply keq_le|by apply (cmp_le_trans c n k)].
Qed.

(** An end key from [n] on: the last fragment ends at [n]. *)
Lemma flushed_stop a A n c l G : wf c → wf n → keys_ok (a :: A) (user_key a) → wf (user_key a) → klt c n →
  kle n (user_key a) → rendered l G → frags_ok G c →
  flushed (a :: A) n c G (flush_fragment ucmp for_compaction snapshots c n (a :: A) l, a :: A).
Proof using All.
  intros Hc Hn HA2 Hwa Hltn Hna Hr HG. assert (keys_ok (a :: A) n) as HAn.
  { destruct HA2 as [Hs Hf]. split; [done|]. rewrite Forall_forall in *. intros b Hb. destruct (Hf b Hb). split; [done|].
    by apply (cmp_le_trans n (user_key a) (user_key b)). }
  exists [mkFrag c n (map sequence (a :: A))]. split_and!.
  - by apply flush_fragment_rendered.
  - apply (frags_ok_snoc G (mkFrag c n _)); [done|by split_and!].
  - constructor; [|done]. split; [done|]. cbn. by rewrite (cmp_refl (wf := wf)).
  - intros k q Hk H1 H2. by apply covered_fragment.
  - done.
  - done.
Qed.

(** An end key before [n]: a fragment ends there, and the others go on from it. *)
Lemma flushed_more a A n c G r : let f := mkFrag c (user_key a) (map sequence (a :: A)) in
  wf c → wf n → keys_ok (a :: A) (user_key a) → wf (user_key a) → klt c (user_key a) → klt (user_key a) n →
  flushed A n (user_key a) (G ++ [f]) r → flushed (a :: A) n c G r.
Proof using All.
  intros f Hc Hn HA2 Hwa Hlt Hna (G' & H1 & H2 & H3 & H4 & H5 & H6).
  rewrite <- app_assoc in H1, H2. exists ([f] ++ G'). split_and!; try done.
  - constructor; [split; [done|cbn; by rewrite (cmp_refl (wf := wf))]|]. rewrite Forall_forall in *. intros g Hg.
    destruct (H3 g Hg). split; [done|]. apply (cmp_le_trans c (user_key a) (f_start g)); [done..|lia|done].
  - intros k q Hk H7 H8. rewrite covered_app. destruct (Z.lt_ge_cases (Compare ucmp k (user_key a)) 0) as [Hka|Hka].
    + pose proof (covered_after G' (user_key a) k q Hwa Hk Hka H3). unfold f. rewrite covered_fragment by done. tauto.
    + apply (cmp_flip_le (wf := wf)) in Hka; [|done..]. rewrite active_cons_gone, H4 by done.
      assert (¬ covered_by [f] k q); [|tauto]. apply (covers_before [f] (user_key a)); [done..|].
      split; [|split]; [by apply Forall_singleton; split_and!|by repeat constructor|]. apply Forall_singleton. cbn. by rewrite (cmp_refl (wf := wf)).
  - intros k q Hk H7. rewrite H6 by done. symmetry. apply active_cons_gone; [done..|].
    apply (cmp_le_trans (user_key a) n k); [done..|lia|done].
Qed.

Lemma flush_loop_spec A : ∀ n c l G, wf c → wf n → keys_ok A c → kle c n →
  klt c n ∨ Forall (λ a, kle (user_key a) n) A → rendered l G → frags_ok G c →
  flushed A n c G (flush_loop ucmp for_compaction snapshots n c A l).
Proof using All.
  induction A as [|a A IH]; intros n c l G Hc Hn HA Hcn Hor Hr HG; cbn [flush_loop].
  { exists []. rewrite app_nil_r. split; [done|]. split; [by apply (frags_ok_mono G c n)|].
    split; [constructor|]. split; [|by split; [split; constructor|]].
    intros k q _ _ _. split; by intros (? & ?%elem_of_nil & _). }
  destruct (keys_ok_tail a A c HA) as (HA1 & HA2 & HA3). destruct HA as [_ Hf]. apply Forall_cons in Hf as [[Hwa Hca] _].
  rewrite !no_ts. destruct (Z.eqb_spec (Compare ucmp c (user_key a)) 0) as [E|Hne].
  { apply flushed_skip; try done. apply IH; try done.
    destruct Hor as [|Hor]; [by left|right]. by apply Forall_cons in Hor as [_ ?]. }
  assert (klt c (user_key a)) as Hlt by lia. destruct (Z.leb_spec (Compare ucmp n (user_key a)) 0) as [Hna|Hna].
  - apply flushed_stop; try done. destruct Hor as [|Hor]; [done|]. apply Forall_cons in Hor as [Han _].
    by apply (cmp_lt_le_trans c (user_key a) n).
  - apply (cmp_flip_lt (wf := wf)) in Hna; [|done..]. apply flushed_more; try done.
    apply IH; try done; [lia|by left|by apply flush_fragment_rendered|]. apply frags_ok_snoc; [done|by split_and!].
Qed.

(** ** The tombstones *)

Definition e_start (e : bytes * bytes) : bytes := ExtractUserKey (fst e).
Definition e_end (e : bytes * bytes) : bytes := snd e.
Definition e_seq (e : bytes * bytes) : Z := GetInternalKeySeqno (fst e).
Definition entry_ok (e : bytes * bytes) : Prop :=
  InternalKeyOrder.ikey_ok wf (fst e) ∧ wf (e_end e) ∧ kle (e_start e) (e_end e).
Definition e_covers (e : bytes * bytes) (k : bytes) : Prop := kle (e_start e) k ∧ klt k (e_end e).
Definition covered_in (E : list (bytes * bytes)) (k : bytes) (q : Z) : Prop :=
  ∃ e, e ∈ E ∧ e_covers e k ∧ q = e_seq e.
Definition end_key_of (e : bytes * bytes) : ParsedInternalKey := mkParsed (e_end e) (e_seq e) kTypeRangeDeletion.

Lemma covered_in_snoc E e k q : covered_in (E ++ [e]) k q ↔ covered_in E k q ∨ (e_covers e k ∧ q = e_seq e).
Proof using.
  unfold covered_in. setoid_rewrite elem_of_app. setoid_rewrite list_elem_of_singleton. naive_solver.
Qed.

(** *** The set of end keys *)

Lemma ParsedLess_le a b : wf (user_key a) → wf (user_key b) → InternalKeyComparator.ParsedLess ucmp a b = true → key_le a b.
Proof using.
  unfold InternalKeyComparator.ParsedLess, InternalKeyComparator.CompareParsed, key_le. intros _ _.
  destruct (Z.eqb_spec (Compare ucmp (user_key a) (user_key b)) 0); lia.
Qed.
Lemma ParsedLess_neither a b : wf (user_key a) → wf (user_key b) →
  InternalKeyComparator.ParsedLess ucmp a b = false → InternalKeyComparator.ParsedLess ucmp b a = false →
  Compare ucmp (user_key a) (user_key b) = 0 ∧ sequence a = sequence b.
Proof using ComparatorLaws0.
  unfold InternalKeyComparator.ParsedLess, InternalKeyComparator.CompareParsed. intros Ha Hb.
  pose proof (cmp_antisym (wf := wf) (cmp := Compare ucmp) (user_key a) (user_key b) Ha Hb).
  destruct (Z.eqb_spec (Compare ucmp (user_key a) (user_key b)) 0), (Z.eqb_spec (Compare ucmp (user_key b) (user_key a)) 0); try lia.
  repeat case_match; lia.
Qed.

Lemma elem_of_set_emplace x a A : x ∈ set_emplace ucmp a A → x = a ∨ x ∈ A.
Proof using.
  induction A as [|b A IH]; cbn; [intros ->%list_elem_of_singleton; by left|]. repeat case_match; rewrite !elem_of_cons; tauto.
Qed.

Lemma set_emplace_sorted a A c : wf (user_key a) → kle c (user_key a) → keys_ok A c → keys_ok (set_emplace ucmp a A) c.
Proof using ComparatorLaws0.
  intros Ha Hca [Hs Hf]. split.
  - induction Hs as [|b A Hs IH Hb]; cbn; [by repeat constructor|]. apply Forall_cons in Hf as [[Hwb Hcb] Hf].
    destruct (InternalKeyComparator.ParsedLess ucmp a b) eqn:E1.
    { apply ParsedLess_le in E1; [|done..]. constructor; [by constructor|]. constructor; [done|]. rewrite Forall_forall in *. intros d Hd.
      destruct (Hf d Hd). apply (cmp_le_trans (user_key a) (user_key b) (user_key d)); [done..|by apply Hb]. }
    destruct (InternalKeyComparator.ParsedLess ucmp b a) eqn:E2; [|by constructor]. apply ParsedLess_le in E2; [|done..].
    constructor; [by apply IH|]. apply Forall_forall. intros d [->|Hd]%elem_of_set_emplace; [done|]. rewrite Forall_forall in Hb. by apply Hb.
  - apply Forall_forall. intros d [->|Hd]%elem_of_set_emplace; [done|]. rewrite Forall_forall in Hf. by apply Hf.
Qed.

Lemma active_set_emplace a A k q : wf k → wf (user_key a) → Forall (λ b, wf (user_key b)) A →
  active (set_emplace ucmp a A) k q ↔ active A k q ∨ (klt k (user_key a) ∧ q = sequence a).
Proof using ComparatorLaws0.
  intros Hk Ha Hf. unfold active. induction Hf as [|b A Hb Hf IH]; cbn [set_emplace].
  { setoid_rewrite list_elem_of_singleton. split; [naive_solver|]. intros [(? & ?%elem_of_nil & _)|?]; [done|eauto]. }
  destruct (InternalKeyComparator.ParsedLess ucmp a b) eqn:E1; [setoid_rewrite elem_of_cons at 1; naive_solver|].
  destruct (InternalKeyComparator.ParsedLess ucmp b a) eqn:E2.
  { setoid_rewrite elem_of_cons. naive_solver. }
  destruct (ParsedLess_neither a b Ha Hb E1 E2) as [E3 E4]. split; [naive_solver|]. intros [?|[Hlt ->]]; [done|].
  exists b. split_and!; [apply elem_of_cons; by left|by apply (cmp_lt_le_trans k (user_key a) (user_key b)); [..|lia]|done].
Qed.

(** *** The loop over the tombstones *)

Record Inv (E : list (bytes * bytes)) (c : bytes) (A : list ParsedInternalKey) (l : FragmentedRangeTombstoneList)
    (G : list frag) : Prop := {
  inv_rendered : rendered l G;
  inv_frags : frags_ok G c;
  inv_start : wf c;
  inv_keys : keys_ok A c;
  inv_before : ∀ k q, wf k → klt k c → covered_by G k q ↔ covered_in E k q;
  inv_after : ∀ k q, wf k → kle c k → active A k q ↔ covered_in E k q
}.

Lemma no_active k q : ¬ active [] k q.
Proof using. by intros (? & ?%elem_of_nil & _). Qed.

(** Going on to a start key without flushing, if there is nothing to flush. *)
Lemma Inv_move E c A l G s : Inv E c A l G → wf s → kle c s → A = [] ∨ kle s c → Inv E s A l G.
Proof using ComparatorLaws0.
  intros [Hr HG Hc HA H1 H2] Hs Hcs Hor. split; try done.
  - by apply (frags_ok_mono G c s).
  - destruct HA as [HsA HfA]. split; [done|]. destruct Hor as [->|Hsc]; [constructor|]. rewrite Forall_forall in *. intros a Ha.
    destruct (HfA a Ha). split; [done|]. by apply (cmp_le_trans s c (user_key a)).
  - intros k q Hk Hks. destruct (Z.lt_ge_cases (Compare ucmp k c) 0) as [Hkc|Hkc]; [by apply H1|].
    apply (cmp_flip_le (wf := wf)) in Hkc; [|done..]. destruct Hor as [->|Hsc].
    + rewrite <- H2 by done. pose proof (covers_before G c k q Hc Hk Hkc HG). pose proof (no_active k q). tauto.
    + exfalso. apply (klt_not_le k s Hk Hs Hks). by apply (cmp_le_trans s c k).
  - intros k q Hk Hsk. apply H2; [done|]. by apply (cmp_le_trans c s k).
Qed.

(** Going on to a start key after flushing. *)
Lemma Inv_flush E c A l G s : Inv E c A l G → wf s → kle c s → klt c s ∨ Forall (λ a, kle (user_key a) s) A →
  ∃ l' A' G', flush_loop ucmp for_compaction snapshots s c A l = (l', A') ∧ Inv E s A' l' G'.
Proof using All.
  intros [Hr HG Hc HA H1 H2] Hs Hcs Hor.
  destruct (flush_loop_spec A s c l G Hc Hs HA Hcs Hor Hr HG) as (G' & Hr' & HG' & Hf & H3 & HA' & H4).
  destruct (flush_loop ucmp for_compaction snapshots s c A l) as [l' A']. cbn [fst snd] in *.
  exists l', A', (G ++ G'). split; [done|]. split; try done.
  - intros k q Hk Hks. rewrite covered_app. destruct (Z.lt_ge_cases (Compare ucmp k c) 0) as [Hkc|Hkc].
    + pose proof (covered_after G' c k q Hc Hk Hkc Hf). rewrite H1 by done. tauto.
    + apply (cmp_flip_le (wf := wf)) in Hkc; [|done..]. rewrite H3, H2 by done.
      pose proof (covers_before G c k q Hc Hk Hkc HG). tauto.
  - intros k q Hk Hsk. rewrite H4 by done. apply H2; [done|]. by apply (cmp_le_trans c s k).
Qed.

Lemma Inv_add E A l G e : entry_ok e → Inv E (e_start e) A l G →
  Inv (E ++ [e]) (e_start e) (set_emplace ucmp (end_key_of e) A) l G.
Proof using ComparatorLaws0.
  intros (_ & Hwe & Hse) [Hr HG Hc HA H1 H2]. split; try done.
  - by apply set_emplace_sorted.
  - intros k q Hk Hlt. rewrite H1, covered_in_snoc by done. split; [by left|]. intros [?|[[Hle _] _]]; [done|].
    exfalso. by apply (klt_not_le k (e_start e)).
  - intros k q Hk Hle. rewrite active_set_emplace, covered_in_snoc, H2; [|done..|]; [|destruct HA as [_ Hf]; by eapply Forall_impl; [exact Hf|intros ? []]].
    unfold e_covers. cbn [end_key_of user_key sequence]. tauto.
Qed.

Lemma step_inv E c A l G e : Inv E c A l G → entry_ok e → kle c (e_start e) →
  ∃ A' l' G', fragment_step ucmp for_compaction snapshots (c, A, l) e = (e_start e, A', l') ∧ Inv (E ++ [e]) (e_start e) A' l' G' ∧ A' ≠ [].
Proof using All.
  intros HI He Hcs. assert (wf (e_start e)) as Hs by apply He.
  assert (∀ A, set_emplace ucmp (end_key_of e) A ≠ []) as Hne by (intros [|b B]; cbn; repeat case_match; done).
  assert (∃ A1 l1 G1, match A with
    | _ :: _ => if negb (CompareWithoutTimestamp ucmp c (e_start e) =? 0)
                then flush_loop ucmp for_compaction snapshots (e_start e) c A l else (l, A)
    | [] => (l, A) end = (l1, A1) ∧ Inv E (e_start e) A1 l1 G1) as (A1 & l1 & G1 & E1 & HI1).
  { destruct A as [|a A]; [exists [], l, G; split; [done|by apply (Inv_move E c); auto]|]. rewrite no_ts.
    destruct (Z.eqb_spec (Compare ucmp c (e_start e)) 0) as [Eq|Hne0]; cbn [negb].
    - exists (a :: A), l, G. split; [done|]. apply (Inv_move E c); [done..|]. right. apply keq_le; [apply HI|done..].
    - destruct (Inv_flush E c (a :: A) l G (e_start e)) as (l' & A' & G' & -> & HI'); [done..|left; lia|]. eauto. }
  destruct e as [ik en]. unfold fragment_step. change (e_start (ik, en)) with (ExtractUserKey ik) in E1. rewrite E1.
  do 3 eexists. split; [done|]. split; [by apply (Inv_add E A1 l1 G1 (ik, en))|apply Hne].
Qed.

Definition start_le (e e' : bytes * bytes) : Prop := kle (e_start e) (e_start e').

Lemma fold_inv es : ∀ E c A l G, Inv E c A l G → A ≠ [] → Forall entry_ok es → StronglySorted start_le es →
  Forall (λ e, kle c (e_start e)) es →
  ∃ c' A' l' G', fold_left (fragment_step ucmp for_compaction snapshots) es (c, A, l) = (c', A', l') ∧
    Inv (E ++ es) c' A' l' G' ∧ A' ≠ [].
Proof using All.
  induction es as [|e es IH]; intros E c A l G HI HA Hok Hs Hc; [rewrite app_nil_r; by do 4 eexists|].
  apply Forall_cons in Hok as [He Hok]. apply Forall_cons in Hc as [Hce Hc]. apply StronglySorted_inv in Hs as [Hs Hle].
  destruct (step_inv E c A l G e HI He Hce) as (A1 & l1 & G1 & E1 & HI1 & HA1).
  destruct (IH _ _ _ _ _ HI1 HA1 Hok Hs Hle) as (c' & A' & l' & G' & E2 & HI2 & HA2).
  exists c', A', l', G'. cbn [fold_left]. rewrite E1, E2. by rewrite <- app_assoc in HI2.
Qed.

(** The fragments of all the tombstones. *)
Definition fragments_of (es : list (bytes * bytes)) (G : list frag) : Prop :=
  Forall frag_ok G ∧ StronglySorted before G ∧ ∀ k q, wf k → covered_by G k q ↔ covered_in es k q.

Lemma keys_ok_last A c z : keys_ok A c → last A = Some z → wf (user_key z) ∧ kle c (user_key z) ∧ Forall (λ a, kle (user_key a) (user_key z)) A.
Proof using ComparatorLaws0.
  intros [Hs Hf] Hz. pose proof (last_Some_elem_of _ _ Hz) as Hin. rewrite Forall_forall in Hf. destruct (Hf z Hin) as [Hw Hc].
  split_and!; [done|done|]. apply last_Some in Hz as [A' ->]. apply Forall_forall. intros a Ha.
  apply elem_of_app in Ha as [Ha| ->%list_elem_of_singleton]; [|by rewrite (cmp_refl (wf := wf))].
  apply list_elem_of_lookup in Ha as [i Hi]. apply (sorted_lookup _ _ Hs i (length A')); [by apply lookup_app_l_Some| |].
  - rewrite lookup_app_r, Nat.sub_diag by lia. done.
  - by eapply lookup_lt_Some.
Qed.

Lemma FragmentTombstones_spec es l0 : rendered l0 [] → Forall entry_ok es → StronglySorted start_le es →
  ∃ G, rendered (FragmentTombstones ucmp for_compaction snapshots es l0) G ∧ fragments_of es G.
Proof using All.
  intros Hr0 Hok Hs. destruct es as [|e es].
  { exists []. split; [done|]. split_and!; [constructor|constructor|]. intros k q _. split; by intros (? & ?%elem_of_nil & _). }
  apply Forall_cons in Hok as [He Hok]. apply StronglySorted_inv in Hs as [Hs Hle].
  assert (Inv [] (e_start e) [] l0 []) as H0.
  { split; try done; [split_and!; constructor|apply He|split; constructor| |]; intros k q _ _;
      split; by intros (? & ?%elem_of_nil & _). }
  pose proof (Inv_add [] [] l0 [] e He H0) as H1. cbn [app] in H1.
  destruct (fold_inv es _ _ _ _ _ H1 ltac:(done) Hok Hs Hle) as (c & A & l & G & E2 & HI & HA).
  unfold FragmentTombstones. cbn [fold_left]. replace (fragment_step ucmp for_compaction snapshots ([], [], l0) e)
    with (e_start e, set_emplace ucmp (end_key_of e) [], l0) by by destruct e.
  rewrite E2. destruct (last A) as [z|] eqn:Ez; [|by apply last_None in Ez].
  destruct (keys_ok_last A c z (inv_keys _ _ _ _ _ HI) Ez) as (Hwz & Hcz & Hzs).
  destruct (Inv_flush _ c A l G (user_key z) HI Hwz Hcz) as (l' & A' & G' & -> & HI'); [by right|].
  exists G'. destruct HI' as [Hr' HG' _ _ H2 _]. destruct (HG') as (Hf & Hst & _). split; [done|]. split_and!; [done|done|].
  intros k q Hk. destruct (Z.lt_ge_cases (Compare ucmp k (user_key z)) 0) as [Hkz|Hkz]; [by apply H2|].
  apply (cmp_flip_le (wf := wf)) in Hkz; [|done..]. pose proof (covers_before G' (user_key z) k q Hwz Hk Hkz HG').
  assert (kle c k) as Hck by (apply (cmp_le_trans c (user_key z) k); [apply HI|done..]).
  change (e :: es) with ([e] ++ es). rewrite <- (inv_after _ _ _ _ _ HI k q Hk Hck). split; [done|].
  intros (a & Ha & Hlt & _). exfalso. rewrite Forall_forall in Hzs. pose proof (Hzs a Ha).
  assert (wf (user_key a)) as Hwa by (destruct (inv_keys _ _ _ _ _ HI) as [_ Hf']; rewrite Forall_forall in Hf'; by apply Hf').
  apply (klt_not_le k (user_key a)); [done..|]. by apply (cmp_le_trans (user_key a) (user_key z) k).
Qed.

(** *** The constructor, with sorted and with unsorted tombstones *)

Definition icompare := InternalKeyComparator.Compare ucmp.

Lemma icompare_start a b : icompare a b <= 0 → kle (ExtractUserKey a) (ExtractUserKey b).
Proof using.
  unfold icompare, InternalKeyComparator.Compare.
  destruct (Z.eqb_spec (Compare ucmp (ExtractUserKey a) (ExtractUserKey b)) 0); lia.
Qed.

Lemma starts_sorted es : Forall entry_ok es → Sorted (λ e e', icompare (fst e) (fst e') <= 0) es → StronglySorted start_le es.
Proof using ComparatorLaws0.
  intros Hok Hs. apply (Sorted_StronglySorted_on entry_ok); [|done|].
  - intros x y z Hx Hy Hz. unfold start_le. apply (cmp_le_trans (e_start x) (e_start y) (e_start z)); [apply Hx|apply Hy|apply Hz].
  - clear Hok. induction Hs as [|x es Hs IH Hh]; constructor; [done|]. destruct Hh; constructor. by apply icompare_start.
Qed.

Lemma check_sorted_num es : ∀ last num payload s n p, check_sorted ucmp last es num payload = (s, n, p) →
  s = true → n = num + Zlen es.
Proof using.
  induction es as [|[key value] es IH]; intros last num payload s n p; cbn [check_sorted]; [intros [= <- <- <-] _; rewrite Zlen_nil; lia|].
  rewrite Zlen_cons. destruct (_ && _); [by intros [= <- _ _]|]. intros E Hs. rewrite (IH _ _ _ _ _ _ E Hs). lia.
Qed.

Lemma check_sorted_sorted es : ∀ e0 num payload n p, 0 < num → check_sorted ucmp (fst e0) es num payload = (true, n, p) →
  Sorted (λ e e', icompare (fst e) (fst e') <= 0) (e0 :: es).
Proof using.
  induction es as [|[key value] es IH]; intros e0 num payload n p Hn; cbn [check_sorted]; [by repeat constructor|].
  rewrite (proj2 (Z.ltb_lt 0 num)) by done. cbn [andb]. destruct (Z.ltb_spec 0 (InternalKeyComparator.Compare ucmp (fst e0) key)); [done|].
  intros E. constructor; [|by constructor]. by apply (IH (key, value) (num + 1) (payload + (Zlen key + Zlen value)) n p); [lia|].
Qed.

Lemma NewList_spec es : Forall entry_ok es →
  ∃ G, rendered (NewFragmentedRangeTombstoneList ucmp for_compaction snapshots es) G ∧ fragments_of es G.
Proof using All.
  intros Hok. unfold NewFragmentedRangeTombstoneList. destruct (check_sorted ucmp [] es 0 0) as [[s n] p] eqn:E. destruct s.
  - apply FragmentTombstones_spec; [done|done|]. apply starts_sorted; [done|]. destruct es as [|[key value] es]; [constructor|].
    cbn in E. by apply (check_sorted_sorted es (key, value) 1 _ n p) in E.
  - assert (Forall entry_ok (VectorIterator ucmp es)) as Hok' by (unfold VectorIterator; by rewrite sort_by_perm).
    destruct (FragmentTombstones_spec (VectorIterator ucmp es) (mkFragments [] [] [] n
      (fold_left (λ n e, n + (Zlen (fst e) + Zlen (snd e))) es 0))) as (G & Hr & Hf1 & Hf2 & Hf3); [done|done| |].
    { pose proof (InternalKeyOrder.Compare_order wf ucmp) as Ho. apply starts_sorted; [done|]. apply StronglySorted_Sorted.
      assert (StronglySorted (λ a b, (icompare (fst a) (fst b) <=? 0) = true) (VectorIterator ucmp es)) as Hst.
      { apply (sort_by_sorted entry_ok); [|..].
        - intros x y [Hx _] [Hy _]. pose proof (cmp_antisym (fst x) (fst y) Hx Hy). lia.
        - intros x y z [Hx _] [Hy _] [Hz _] H1 H2. apply Z.leb_le. apply (cmp_le_trans (fst x) (fst y) (fst z)); [done..|lia|lia].
        - done. }
      clear -Hst. induction Hst as [|x l Hl IH Hx]; constructor; [done|]. eapply Forall_impl; [exact Hx|]. intros y Hy. by apply Z.leb_le. }
    exists G. split; [done|]. split_and!; [done|done|]. intros k q Hk. rewrite Hf3 by done. unfold covered_in, VectorIterator.
    by setoid_rewrite sort_by_perm.
Qed.

(** ** Looking up a key *)

Lemma e_seq_range e : entry_ok e → 0 <= e_seq e <= kMaxSequenceNumber.
Proof using.
  intros [(Hl & Hb & _) _]. destruct (ikey_split _ Hl Hb) as [_ Hu]. unfold e_seq, GetInternalKeySeqno.
  fold (ExtractInternalKeyFooter (fst e)). rewrite Z.shiftr_div_pow2 by lia. rewrite kMaxSequenceNumber_val. unfold is_u in Hu.
  split; [apply Z.div_pos; lia|]. apply Z.lt_le_pred. apply Z.div_lt_upper_bound; lia.
Qed.

Lemma frag_seqs_range es G f q : Forall entry_ok es → fragments_of es G → f ∈ G → q ∈ f_seqs f → 0 <= q <= kMaxSequenceNumber.
Proof using ComparatorLaws0.
  intros Hok (Hf & _ & Hc) Hin Hq. rewrite Forall_forall in Hf. destruct (Hf f Hin) as (Hw1 & Hw2 & Hlt & _).
  destruct (proj1 (Hc (f_start f) q Hw1)) as (e & He & _ & ->).
  - exists f. split_and!; [done|by rewrite (cmp_refl (wf := wf))|done|done].
  - rewrite Forall_forall in Hok. by apply e_seq_range, Hok.
Qed.

(** Where the reader stands: anywhere for fragments that were made for reads, at
    a snapshot or above all of them for those of a compaction. *)
Definition good_upper (u : Z) : Prop := for_compaction = false ∨ u ∈ snapshots ∨ kMaxSequenceNumber <= u.

Lemma stored_descending q : descending (stored q).
Proof using. unfold stored. destruct for_compaction; [apply snapshot_seqs_descending|]; apply sort_seqs_descending. Qed.

Lemma stored_subset q x : x ∈ stored q → x ∈ q.
Proof using.
  unfold stored. destruct for_compaction; [intros Hx%snapshot_seqs_subset; revert Hx|]; by rewrite elem_of_sort_seqs.
Qed.

Lemma stored_visible u q : (for_compaction = true → StronglySorted Z.le snapshots) → good_upper u →
  Forall (λ x, x <= kMaxSequenceNumber) q → max_seq (visible u (stored q)) = max_seq (visible u q).
Proof using.
  intros Hsnap Hu Hq. transitivity (max_seq (visible u (sort_seqs q))).
  2: { apply max_seq_ext. intros x. unfold visible. by rewrite !list_elem_of_filter, elem_of_sort_seqs. }
  assert (Forall (λ x, x <= kMaxSequenceNumber) (sort_seqs q)) as Hq' by (unfold sort_seqs; by rewrite sort_by_perm).
  unfold stored, good_upper in *. destruct for_compaction; [|done]. destruct Hu as [|[Hu|Hu]]; [done| |].
  - destruct (Z.le_gt_cases u kMaxSequenceNumber) as [Hk|Hk].
    + apply snapshot_seqs_visible; [by apply Hsnap|apply sort_seqs_descending|done|done].
    + apply snapshot_seqs_all; [apply sort_seqs_descending|done|]. eapply Forall_impl; [exact Hq'|]. intros; cbn in *; lia.
  - apply snapshot_seqs_all; [apply sort_seqs_descending|done|]. eapply Forall_impl; [exact Hq'|]. intros; cbn in *; lia.
Qed.

Lemma stored_nonempty q : q ≠ [] → Forall (λ x, x <= kMaxSequenceNumber) q → stored q ≠ [].
Proof using.
  intros Hne Hq. unfold stored. assert (Forall (λ x, x <= kMaxSequenceNumber) (sort_seqs q)) as Hq' by (unfold sort_seqs; by rewrite sort_by_perm).
  destruct (sort_seqs q) as [|x l] eqn:E.
  { unfold sort_seqs in E. pose proof (sort_by_perm (λ a b, b <=? a) q) as Hp. rewrite E in Hp. by apply Permutation_nil_l in Hp. }
  destruct for_compaction; [|done]. cbn [snapshot_seqs]. apply Forall_cons in Hq' as [Hx _].
  rewrite (proj2 (Z.leb_le _ _)) by done. by destruct (count_while _ _).
Qed.

Lemma stacks_lookup off G i : stacks off G !! i =
  (λ f, let o := (off + length (stored_seqs (take i G)))%nat in
        mkStack (f_start f) (f_end f) o (o + length (stored (f_seqs f)))) <$> G !! i.
Proof using.
  revert off i. induction G as [|f G IH]; intros off [|i]; cbn [stacks]; [done|done| |].
  - cbn. by rewrite !Nat.add_0_r.
  - cbn [lookup list_lookup take]. fold (@lookup nat RangeTombstoneStack _ _ i (stacks (off + length (stored (f_seqs f))) G)).
    change (list_lookup i (stacks (off + length (stored (f_seqs f))) G)) with (stacks (off + length (stored (f_seqs f))) G !! i).
    rewrite IH. change (list_lookup i G) with (G !! i). destruct (G !! i) as [g|]; [|done]. cbn. unfold stored_seqs. cbn [map concat].
    rewrite length_app. by rewrite <- !Nat.add_assoc.
Qed.

Lemma length_stacks off G : length (stacks off G) = length G.
Proof using. revert off. induction G as [|f G IH]; intros off; [done|]. cbn. by rewrite IH. Qed.

Lemma stored_seqs_split G i f : G !! i = Some f →
  stored_seqs G = stored_seqs (take i G) ++ stored (f_seqs f) ++ stored_seqs (drop (S i) G).
Proof using.
  intros Hi. rewrite <- (take_drop_middle G i f Hi) at 1. rewrite stored_seqs_app. unfold stored_seqs. done.
Qed.

Lemma stored_slice G i f : G !! i = Some f →
  FragmentedRangeTombstoneIterator.slice_of (stored_seqs G) (length (stored_seqs (take i G)))
    (length (stored_seqs (take i G)) + length (stored (f_seqs f))) = stored (f_seqs f).
Proof using.
  intros Hi. unfold FragmentedRangeTombstoneIterator.slice_of. rewrite (stored_seqs_split G i f Hi).
  by rewrite drop_app_length, Nat.add_comm, Nat.add_sub, take_app_length.
Qed.
End Fragments.
