(* ===== verification/RangeTombstonesIter.v ===== *)
(** * The iterator over fragmented range tombstones

    The answers of [FragmentedRangeTombstoneIterator] over the fragments of
    [RangeTombstonesCorrect], for a comparator without timestamps. *)

From S2P Require Import Prelude SortedLists Status Slice Coding Comparator DbFormat RangeTombstones RangeTombstonesCorrect.
From Stdlib Require Import Sorting.Sorted.
#[local] Open Scope Z_scope.
#[local] Opaque ztake zdrop Zlen.
Import FragmentedRangeTombstoneIterator.

(** The newest of the tombstones that cover a key and are visible at [upper], or
    0. *)
Definition coversb (ucmp : Comparator) (e : bytes * bytes) (k : bytes) : bool :=
  (Compare ucmp (e_start e) k <=? 0) && (Compare ucmp k (e_end e) <? 0).
Definition newest_covering (ucmp : Comparator) (es : list (bytes * bytes)) (upper : Z) (k : bytes) : Z :=
  max_seq (map e_seq (List.filter (λ e, coversb ucmp e k && (e_seq e <=? upper)) es)).

Section Iterator.
Context (wf : bytes → Prop) (ucmp : Comparator) `{!ComparatorLaws wf ucmp} (Hts : timestamp_size ucmp = 0).
Context (for_compaction : bool) (snapshots : list Z).
#[local] Abbreviation stored := (stored for_compaction snapshots).
#[local] Abbreviation stored_seqs := (stored_seqs for_compaction snapshots).
#[local] Abbreviation stacks := (stacks for_compaction snapshots).

Lemma count_stacks (p : bytes → bool) off G :
  count_while (λ s, p (RangeTombstones.end_key s)) (stacks off G) = count_while (λ f, p (f_end f)) G.
Proof using. revert off. induction G as [|f G IH]; intros off; [done|]. cbn. by rewrite IH. Qed.

(** The fragment that ends first after [k] is the only one that can cover it. *)
Lemma covering_fragment G k q f pos : Forall (frag_ok wf ucmp) G → StronglySorted (before ucmp) G → wf k →
  pos = count_while (λ f, negb (Compare ucmp k (f_end f) <? 0)) G → G !! pos = Some f →
  covered_by ucmp G k q ↔ Compare ucmp (f_start f) k <= 0 ∧ q ∈ f_seqs f.
Proof using ComparatorLaws0.
  intros Hok Hs Hk -> Hf. pose proof (count_while_at _ _ _ Hf) as Hlt. cbn in Hlt. apply negb_false_iff, Z.ltb_lt in Hlt. split.
  - intros (g & Hg & H1 & H2 & Hq). apply list_elem_of_lookup in Hg as [j Hj].
    destruct (Nat.lt_trichotomy j (count_while (λ f, negb (Compare ucmp k (f_end f) <? 0)) G)) as [Hlt'|[->|Hgt]].
    + pose proof (count_while_before _ _ _ _ Hj Hlt') as Hb. cbn in Hb. lia.
    + assert (g = f) as -> by congruence. done.
    + pose proof (sorted_lookup _ _ Hs _ _ _ _ Hf Hj Hgt) as Hfg. unfold before in Hfg. exfalso.
      rewrite Forall_forall in Hok. destruct (Hok f) as (_ & Hwf & _); [by eapply list_elem_of_lookup_2|].
      destruct (Hok g) as (Hwg & _); [by eapply list_elem_of_lookup_2|].
      apply (klt_not_le wf ucmp k (f_end f)); [done..|]. by apply (cmp_le_trans (f_end f) (f_start g) k).
  - intros [H1 Hq]. exists f. split_and!; [by eapply list_elem_of_lookup_2|done|done|done].
Qed.

Lemma no_covering_fragment G k q : Forall (frag_ok wf ucmp) G →
  G !! count_while (λ f, negb (Compare ucmp k (f_end f) <? 0)) G = None → ¬ covered_by ucmp G k q.
Proof using.
  intros _ Hn (g & Hg & _ & H2 & _). apply list_elem_of_lookup in Hg as [j Hj]. apply lookup_ge_None in Hn.
  pose proof (lookup_lt_Some _ _ _ Hj) as Hl. pose proof (count_while_before _ _ _ _ Hj ltac:(eapply Nat.lt_le_trans; [exact Hl|exact Hn])) as Hb. cbn in Hb. lia.
Qed.

Lemma newest_covering_spec es upper k (P : Z → Prop) l : (∀ q, P q ↔ covered_in ucmp es k q) → (∀ q, q ∈ l ↔ P q) →
  newest_covering ucmp es upper k = max_seq (visible upper l).
Proof using.
  intros HP Hl. apply max_seq_ext. intros q. unfold visible. rewrite list_elem_of_filter, Hl, HP. rewrite list_elem_of_In, in_map_iff.
  setoid_rewrite List.filter_In. unfold covered_in, e_covers, coversb. split.
  - intros (e & <- & He & Hb). apply andb_true_iff in Hb as [Hb Hu]. apply andb_true_iff in Hb as [H1 H2].
    split; [lia|]. exists e. rewrite list_elem_of_In. split_and!; [done|lia|lia|done].
  - intros [Hu (e & He & [H1 H2] & ->)]. exists e. rewrite list_elem_of_In in He. split_and!; [done|done|].
    rewrite !andb_true_iff. lia.
Qed.

(** ** The position of a stack *)

Context (l : FragmentedRangeTombstoneList) (G : list frag) (Hr : rendered for_compaction snapshots l G).

(** The iterator is over [l], without a bound on timestamps. *)
Definition over (it : t) (upper lower : Z) : Prop :=
  list_ it = l ∧ upper_bound_ it = upper ∧ lower_bound_ it = lower ∧ ts_upper_bound_ it = None.

Lemma over_set_pos it upper lower pos seq_pos : over it upper lower → over (set_pos it pos seq_pos) upper lower.
Proof using. done. Qed.

Definition offset (i : nat) : nat := length (stored_seqs (take i G)).

Lemma at_pos_frag it upper lower f : over it upper lower → G !! pos_ it = Some f →
  at_pos it = mkStack (f_start f) (f_end f) (offset (pos_ it)) (offset (pos_ it) + length (stored (f_seqs f))).
Proof using Hr.
  intros (El & _) Hf. unfold at_pos, tombs. rewrite El. destruct Hr as [-> _]. rewrite stacks_lookup, Hf. done.
Qed.

Lemma tombs_length it upper lower : over it upper lower → length (tombs it) = length G.
Proof using Hr. intros (El & _). unfold tombs. rewrite El. destruct Hr as [-> _]. apply length_stacks. Qed.

Lemma seqs_over it upper lower : over it upper lower → seqs it = stored_seqs G.
Proof using Hr. intros (El & _). unfold seqs. rewrite El. by destruct Hr as [_ ->]. Qed.

Lemma offset_lookup i f n : G !! i = Some f → (n < length (stored (f_seqs f)))%nat →
  stored_seqs G !! (offset i + n)%nat = stored (f_seqs f) !! n.
Proof using.
  intros Hf Hn. rewrite (stored_seqs_split _ _ G i f Hf). unfold offset. rewrite lookup_app_r by lia.
  rewrite Nat.add_comm, Nat.add_sub. by apply lookup_app_l.
Qed.

(** The first of the sequence numbers of a fragment that is visible. *)
Definition visible_idx (upper : Z) (f : frag) : nat := count_while (λ x, upper <? x) (stored (f_seqs f)).

Lemma SetMaxVisible_frag it upper lower f : over it upper lower → G !! pos_ it = Some f →
  SetMaxVisibleSeqAndTimestamp ucmp it = set_pos it (pos_ it) (offset (pos_ it) + visible_idx upper f).
Proof using Hr.
  intros Ho Hf. unfold SetMaxVisibleSeqAndTimestamp. rewrite (at_pos_frag it upper lower f Ho Hf), (seqs_over it upper lower Ho).
  cbn [seq_start_idx seq_end_idx]. unfold offset. rewrite stored_slice by done. destruct Ho as (_ & -> & _ & ->). done.
Qed.

Lemma seq_frag it upper lower f : over it upper lower → G !! pos_ it = Some f →
  (visible_idx upper f < length (stored (f_seqs f)))%nat →
  seq (set_pos it (pos_ it) (offset (pos_ it) + visible_idx upper f)) = default 0 (stored (f_seqs f) !! visible_idx upper f).
Proof using Hr.
  intros Ho Hf Hn. unfold seq. rewrite (seqs_over (set_pos it _ _) upper lower Ho). cbn [seq_pos_ set_pos]. by rewrite offset_lookup with (f := f).
Qed.

Context (es : list (bytes * bytes)) (Hes : Forall (entry_ok wf ucmp) es) (HG : fragments_of wf ucmp es G).
Context (Hsnap : for_compaction = true → StronglySorted Z.le snapshots).

Lemma frag_visible f upper : f ∈ G → good_upper for_compaction snapshots upper →
  default 0 (stored (f_seqs f) !! visible_idx upper f) = max_seq (visible upper (f_seqs f)).
Proof using All.
  intros Hf Hu. rewrite <- (stored_visible for_compaction snapshots) by (done || (apply Forall_forall; intros q Hq;
    by destruct (frag_seqs_range wf ucmp es G f q Hes HG Hf Hq))).
  apply first_visible; [apply stored_descending|]. apply Forall_forall. intros q Hq%stored_subset.
  by destruct (frag_seqs_range wf ucmp es G f q Hes HG Hf Hq).
Qed.

Lemma newest_covering_none upper k : wf k → (∀ q, ¬ covered_by ucmp G k q) → newest_covering ucmp es upper k = 0.
Proof using HG.
  intros Hk Hn. destruct HG as (_ & _ & Hc). apply (newest_covering_spec es upper k (covered_in ucmp es k) []); [done|].
  intros q. rewrite <- Hc by done. split; [by intros ?%elem_of_nil|]. intros Hq. by destruct (Hn q).
Qed.

(** The position of the search, in terms of the fragments. *)
Lemma covering_pos k :
  count_while (λ s, negb (CompareWithoutTimestamp ucmp k (RangeTombstones.end_key s) <? 0)) (tombstones_ l) =
  count_while (λ f, negb (Compare ucmp k (f_end f) <? 0)) G.
Proof using All.
  destruct Hr as [-> _]. rewrite <- (count_stacks (λ e, negb (Compare ucmp k e <? 0)) 0 G). apply count_while_ext. intros s.
  by rewrite (no_ts wf ucmp Hts).
Qed.

(** What is answered at the fragment [f], if [k] is not before it. *)
Lemma ValidPos_frag it upper lower f : over it upper lower → G !! pos_ it = Some f → good_upper for_compaction snapshots upper →
  let it' := SetMaxVisibleSeqAndTimestamp ucmp it in
  start_key it' = f_start f ∧ (if ValidPos it' then seq it' else 0) = max_seq (visible upper (f_seqs f)).
Proof using All.
  intros Ho Hf Hu it'. unfold it'. rewrite (SetMaxVisible_frag it upper lower f Ho Hf). set (it2 := set_pos _ _ _).
  assert (over it2 upper lower) as Ho2 by done. pose proof (lookup_lt_Some _ _ _ Hf) as Hlt.
  unfold start_key, ValidPos, Valid, at_end. rewrite (tombs_length it2 upper lower Ho2), (at_pos_frag it2 upper lower f Ho2 Hf).
  split; [done|]. cbn [seq_end_idx]. change (pos_ it2) with (pos_ it).
  change (seq_pos_ it2) with (offset (pos_ it) + visible_idx upper f)%nat.
  rewrite (proj2 (Nat.eqb_neq (pos_ it) (length G))) by lia. cbn [negb andb].
  rewrite <- (frag_visible f upper) by (done || by eapply list_elem_of_lookup_2).
  destruct (Nat.eqb_spec (offset (pos_ it) + visible_idx upper f) (offset (pos_ it) + length (stored (f_seqs f)))) as [E|Hn]; cbn [negb].
  - by rewrite lookup_ge_None_2 by lia.
  - pose proof (count_while_le (λ x, upper <? x) (stored (f_seqs f))). unfold it2.
    rewrite (seq_frag it upper lower f Ho Hf); [done|]. unfold visible_idx in *. lia.
Qed.

Lemma MaxCovering_spec upper lower k : good_upper for_compaction snapshots upper → wf k →
  snd (MaxCoveringTombstoneSeqnum ucmp (New l upper None lower) k) = newest_covering ucmp es upper k.
Proof using All.
  intros Hu Hk. destruct HG as (Hok & Hs & Hc). set (it0 := New l upper None lower).
  assert (over it0 upper lower) as Ho by done. unfold MaxCoveringTombstoneSeqnum, SeekToCoveringTombstone. cbn [snd].
  assert (tombs it0 = tombstones_ l) as -> by done. rewrite (covering_pos k). set (p := count_while _ G).
  assert (length (tombstones_ l) = length G) as -> by exact (tombs_length it0 upper lower Ho).
  assert (p <= length G)%nat as Hle by apply count_while_le. destruct (Nat.eqb_spec p (length G)) as [E|Hne].
  - assert (ValidPos (set_pos it0 p (length (seqs it0))) = false) as ->.
    { unfold ValidPos, Valid, at_end. change (tombs (set_pos it0 _ _)) with (tombs it0). rewrite (tombs_length it0 upper lower Ho).
      cbn [pos_ set_pos]. by rewrite E, Nat.eqb_refl. }
    symmetry. apply newest_covering_none; [done|]. intros q. apply no_covering_fragment; [done|].
    apply lookup_ge_None. fold p. lia.
  - destruct (lookup_lt_is_Some_2 G p) as [f Hf]; [lia|]. set (it1 := set_pos it0 p (seq_pos_ it0)).
    destruct (ValidPos_frag it1 upper lower f Ho Hf Hu) as [-> Hv]. rewrite (no_ts wf ucmp Hts).
    pose proof (λ q, covering_fragment G k q f p Hok Hs Hk eq_refl Hf) as Hcov.
    destruct (Z.leb_spec (Compare ucmp (f_start f) k) 0) as [Hst|Hst].
    + rewrite andb_true_r, Hv. symmetry. apply (newest_covering_spec es upper k (covered_in ucmp es k)); [done|].
      intros q. rewrite <- Hc, Hcov by done. tauto.
    + rewrite andb_false_r. symmetry. apply newest_covering_none; [done|]. intros q. rewrite Hcov. lia.
Qed.
End Iterator.

(** ** The list is well formed *)

(** The index ranges of the stacks follow each other, from [off] to [n], and none
    is empty. *)
Fixpoint contiguous (off : nat) (ts : list RangeTombstoneStack) (n : nat) : Prop :=
  match ts with
  | [] => off = n
  | s :: ts => seq_start_idx s = off ∧ (off < seq_end_idx s)%nat ∧ contiguous (seq_end_idx s) ts n
  end.
Definition list_ok (l : FragmentedRangeTombstoneList) : Prop :=
  contiguous 0 (tombstones_ l) (length (tombstone_seqs_ l)).

Section WellFormed.
Context (wf : bytes → Prop) (ucmp : Comparator) `{!ComparatorLaws wf ucmp} (Hts : timestamp_size ucmp = 0).
Context (for_compaction : bool) (snapshots : list Z).

Lemma stacks_contiguous off G : Forall (λ f, stored for_compaction snapshots (f_seqs f) ≠ []) G →
  contiguous off (stacks for_compaction snapshots off G) (off + length (stored_seqs for_compaction snapshots G)).
Proof using.
  intros Hne. revert off. induction Hne as [|f G Hf Hne IH]; intros off; [cbn; lia|]. cbn [stacks contiguous seq_start_idx seq_end_idx].
  split_and!; [done|destruct (stored for_compaction snapshots (f_seqs f)); [done|cbn; lia]|].
  unfold stored_seqs. cbn [map concat]. rewrite length_app, Nat.add_assoc. apply IH.
Qed.

Lemma NewList_ok es : Forall (entry_ok wf ucmp) es →
  list_ok (NewFragmentedRangeTombstoneList ucmp for_compaction snapshots es).
Proof using All.
  intros Hes. destruct (NewList_spec wf ucmp Hts for_compaction snapshots es Hes) as (G & [Ht Hq] & HG).
  unfold list_ok. rewrite Ht, Hq. apply (stacks_contiguous 0 G). apply Forall_forall. intros f Hf. destruct HG as (Hok & HG').
  apply stored_nonempty; [rewrite Forall_forall in Hok; by apply Hok|]. apply Forall_forall. intros q Hq'.
  by destruct (frag_seqs_range wf ucmp es G f q Hes (conj Hok HG') Hf Hq').
Qed.

Lemma flush_loop_num A : ∀ n c l,
  num_unfragmented_tombstones_ (fst (flush_loop ucmp for_compaction snapshots n c A l)) = num_unfragmented_tombstones_ l.
Proof using.
  assert (∀ c e A l, num_unfragmented_tombstones_ (flush_fragment ucmp for_compaction snapshots c e A l) =
    num_unfragmented_tombstones_ l) as Hf by (intros; unfold flush_fragment; by destruct (_ && _)).
  induction A as [|a A IH]; intros n c l; [done|]. cbn [flush_loop]. destruct (_ =? 0); [apply IH|].
  destruct (_ <=? 0); [apply Hf|]. rewrite IH. apply Hf.
Qed.

Lemma NewList_num es : num_unfragmented_tombstones_ (NewFragmentedRangeTombstoneList ucmp for_compaction snapshots es) =
  snd (fst (check_sorted ucmp [] es 0 0)).
Proof using.
  assert (∀ es l, num_unfragmented_tombstones_ (FragmentTombstones ucmp for_compaction snapshots es l) =
    num_unfragmented_tombstones_ l) as Hf.
  { clear es. intros es l. unfold FragmentTombstones.
    assert (∀ st, num_unfragmented_tombstones_ (snd (fold_left (fragment_step ucmp for_compaction snapshots) es st)) =
      num_unfragmented_tombstones_ (snd st)) as Hst.
    { induction es as [|e es IH]; intros st; [done|]. cbn [fold_left]. rewrite IH. destruct st as [[c A] l'], e as [ik en].
      cbn [fragment_step snd]. destruct A as [|a A]; [done|]. destruct (negb _); [|done].
      pose proof (flush_loop_num (a :: A) (ExtractUserKey ik) c l') as E. by destruct (flush_loop _ _ _ _ _ _ _). }
    specialize (Hst ([], [], l)). destruct (fold_left _ es _) as [[c A] l']. cbn [snd] in Hst.
    destruct (last A); [by rewrite flush_loop_num|done]. }
  unfold NewFragmentedRangeTombstoneList. destruct (check_sorted ucmp [] es 0 0) as [[[] n] p]; by rewrite Hf.
Qed.

Lemma check_sorted_unsorted es : ∀ last num payload n p, check_sorted ucmp last es num payload = (false, n, p) →
  n < num + Zlen es.
Proof using.
  induction es as [|[key value] es IH]; intros last num payload n p; cbn [check_sorted]; [done|]. rewrite Zlen_cons.
  pose proof (Zlen_nonneg es). destruct (_ && _); [intros [= <- _]; lia|]. intros E%IH. lia.
Qed.

(** Two stacks that do not overlap, in order. *)
Definition stack_before (s s' : RangeTombstoneStack) : Prop :=
  Compare ucmp (RangeTombstones.end_key s) (RangeTombstones.start_key s') <= 0.
Definition stack_range_ok (s : RangeTombstoneStack) : Prop :=
  wf (RangeTombstones.start_key s) ∧ wf (RangeTombstones.end_key s) ∧
  Compare ucmp (RangeTombstones.start_key s) (RangeTombstones.end_key s) < 0.

Lemma NewList_ordered es l : Forall (entry_ok wf ucmp) es →
  l = NewFragmentedRangeTombstoneList ucmp for_compaction snapshots es →
  Forall (λ s, stack_range_ok s ∧
    StronglySorted Z.ge (slice_of (tombstone_seqs_ l) (seq_start_idx s) (seq_end_idx s))) (tombstones_ l) ∧
  StronglySorted stack_before (tombstones_ l).
Proof using All.
  intros Hes ->. destruct (NewList_spec wf ucmp Hts for_compaction snapshots es Hes) as (G & [Ht Hq] & Hok & Hs & _). split.
  - rewrite Ht, Hq. apply Forall_lookup. intros i s Hi. rewrite stacks_lookup in Hi.
    destruct (G !! i) as [f|] eqn:Hf; [|done]. cbn in Hi. injection Hi as <-.
    rewrite Forall_lookup in Hok. destruct (Hok i f Hf) as (H1 & H2 & H3 & _). split; [done|].
    cbn [seq_start_idx seq_end_idx]. rewrite stored_slice by done. apply stored_descending.
  - rewrite Ht. clear -Hs. generalize 0%nat. induction Hs as [|f G Hs IH Hf]; intros off; cbn [stacks]; [constructor|].
    constructor; [apply IH|]. apply Forall_lookup. intros i s Hi. rewrite stacks_lookup in Hi.
    destruct (G !! i) as [g|] eqn:Hg; [|done]. cbn in Hi. injection Hi as <-. rewrite Forall_lookup in Hf. by apply (Hf i g).
Qed.

(** C21: the fragments of range tombstones (of keys without user-defined timestamps)
    are in order and do not overlap: every
    fragment is a range that is not empty and has a sequence number, the next one
    begins where it ends or later, and their sequence numbers lie one after the
    other, newest first within a fragment. The number of tombstones is right if
    they came in order, and too small if they did not. *)
Theorem fragments_disjoint es l : Forall (entry_ok wf ucmp) es →
  l = NewFragmentedRangeTombstoneList ucmp for_compaction snapshots es →
  list_ok l ∧
  Forall (λ s, stack_range_ok s ∧
    StronglySorted Z.ge (slice_of (tombstone_seqs_ l) (seq_start_idx s) (seq_end_idx s))) (tombstones_ l) ∧
  StronglySorted stack_before (tombstones_ l) ∧
  (if fst (fst (check_sorted ucmp [] es 0 0)) then num_unfragmented_tombstones_ l = Zlen es
   else num_unfragmented_tombstones_ l < Zlen es).
Proof using All.
  intros Hes El. destruct (NewList_ordered es l Hes El) as [H1 H2]. split_and!; [subst l; by apply NewList_ok|done|done|].
  rewrite El, NewList_num. destruct (check_sorted ucmp [] es 0 0) as [[[] n] p] eqn:E; cbn [fst snd].
  - by rewrite (check_sorted_num ucmp es _ _ _ _ _ _ E).
  - by apply check_sorted_unsorted in E.
Qed.

(** C19: fragmenting keeps what is deleted, for keys without user-defined timestamps.
    For a reader at any sequence number,
    the newest tombstone that covers a key is the same when it is looked up in the
    fragments as in the tombstones themselves, whether these came in order or not.
    A compaction drops sequence numbers that no snapshot can tell apart: the answer
    is the same for every snapshot, and for a reader of the newest state. *)
Theorem newest_covering_preserved es upper lower k :
  Forall (entry_ok wf ucmp) es → (for_compaction = true → StronglySorted Z.le snapshots) →
  good_upper for_compaction snapshots upper → wf k →
  snd (MaxCoveringTombstoneSeqnum ucmp
    (New (NewFragmentedRangeTombstoneList ucmp for_compaction snapshots es) upper None lower) k) =
  newest_covering ucmp es upper k.
Proof using All.
  intros Hes Hsnap Hu Hk. destruct (NewList_spec wf ucmp Hts for_compaction snapshots es Hes) as (G & Hr & HG).
  by apply (MaxCovering_spec wf ucmp Hts for_compaction snapshots _ G Hr es Hes HG Hsnap).
Qed.
End WellFormed.
#[local] Transparent ztake zdrop Zlen.

Module TombstoneExample.
Definition ikey (user : Z) (seq : Z) : bytes := AppendInternalKey [] (mkParsed [user] seq kTypeRangeDeletion).
(** Three tombstones that overlap, out of order. *)
Definition es : list (bytes * bytes) := [(ikey 5 20, [9]); (ikey 1 10, [7]); (ikey 3 30, [6])].
Definition fragments : FragmentedRangeTombstoneList := NewFragmentedRangeTombstoneList BytewiseComparator true [15; 25] es.

Lemma es_entries_ok : Forall (entry_ok bytes_ok BytewiseComparator) es.
Proof.
  repeat constructor; try (by vm_compute); by apply (bool_decide_unpack _); vm_compute.
Qed.

Lemma fragments_disjoint_witness : num_unfragmented_tombstones_ fragments < Zlen es ∧ list_ok fragments.
Proof.
  destruct (fragments_disjoint bytes_ok BytewiseComparator eq_refl true [15; 25] es fragments es_entries_ok eq_refl)
    as (H1 & _ & _ & H2). split; [exact H2|exact H1].
Defined.

Lemma newest_covering_preserved_witness :
  snd (MaxCoveringTombstoneSeqnum BytewiseComparator (New fragments 25 None 0) [5]) = 20.
Proof.
  apply (newest_covering_preserved bytes_ok BytewiseComparator eq_refl true [15; 25] es 25 0 [5] es_entries_ok).
  - intros _. repeat constructor; lia.
  - right. left. apply elem_of_cons. right. by apply list_elem_of_singleton.
  - by repeat constructor.
Defined.
End TombstoneExample.
