(* ===== verification/RangeTombstonesScan.v ===== *)
(** * Moving over fragmented range tombstones

    The movements of [FragmentedRangeTombstoneIterator] over any well-formed list:
    [Next] and [Prev] go through all sequence numbers of all fragments; the [Top]
    movements and the seeks go through the fragments of which something is visible,
    and show the newest. *)

From S2P Require Import Prelude SortedLists Status Slice Coding Comparator DbFormat RangeTombstones RangeTombstonesCorrect.
From S2P Require Import RangeTombstonesIter.
From Stdlib Require Import Sorting.Sorted.
#[local] Open Scope nat_scope.
Import FragmentedRangeTombstoneIterator.

Definition stack_seqs (l : FragmentedRangeTombstoneList) (s : RangeTombstoneStack) : list Z :=
  slice_of (tombstone_seqs_ l) (seq_start_idx s) (seq_end_idx s).
(** All the tombstones of a list: start, end and sequence number. *)
Definition entries_of (l : FragmentedRangeTombstoneList) : list (bytes * bytes * Z) :=
  concat (map (λ s, map (λ q, (RangeTombstones.start_key s, RangeTombstones.end_key s, q)) (stack_seqs l s)) (tombstones_ l)).

(** ** Positions *)

(** The stack of the sequence number [n]. *)
Definition stack_index (ts : list RangeTombstoneStack) (n : nat) : nat := count_while (λ s, seq_end_idx s <=? n) ts.

Lemma contiguous_le off ts n : contiguous off ts n → off <= n.
Proof. revert off. induction ts as [|s ts IH]; intros off; cbn; [lia|]. intros (_ & Hlt & Hc%IH). lia. Qed.

Lemma stack_at off ts len n : contiguous off ts len → off <= n < len →
  ∃ s, ts !! stack_index ts n = Some s ∧ seq_start_idx s <= n < seq_end_idx s.
Proof.
  revert off. induction ts as [|s ts IH]; intros off; cbn; [lia|]. intros (Hs & Hlt & Hc) Hn.
  destruct (Nat.leb_spec (seq_end_idx s) n).
  - destruct (IH _ Hc ltac:(lia)) as (s' & Hs' & Hn'). eauto.
  - exists s. split; [done|lia].
Qed.

Lemma stack_index_S off ts len n s : contiguous off ts len → off <= n < len → ts !! stack_index ts n = Some s →
  stack_index ts (S n) = if S n =? seq_end_idx s then S (stack_index ts n) else stack_index ts n.
Proof.
  revert off. induction ts as [|s0 ts IH]; intros off; [done|]. intros (Hs0 & Hlt & Hc) Hn.
  unfold stack_index in *. cbn [count_while]. destruct (Nat.leb_spec (seq_end_idx s0) n).
  - rewrite (proj2 (Nat.leb_le _ (S n))) by lia. cbn [lookup list_lookup]. intros Hs. rewrite (IH _ Hc ltac:(lia) Hs).
    by destruct (S n =? seq_end_idx s).
  - intros [= ->]. destruct (Nat.eqb_spec (S n) (seq_end_idx s)) as [E|E].
    + rewrite (proj2 (Nat.leb_le _ (S n))) by lia. f_equal. destruct ts as [|s1 ts]; [done|]. destruct Hc as (Hs1 & Hlt1 & _). cbn.
      by rewrite (proj2 (Nat.leb_gt _ _)) by lia.
    + by rewrite (proj2 (Nat.leb_gt _ (S n))) by lia.
Qed.

Lemma stack_index_end off ts len : contiguous off ts len → stack_index ts len = length ts.
Proof.
  revert off. induction ts as [|s ts IH]; intros off; [done|]. intros (_ & _ & Hc). unfold stack_index in *. cbn.
  rewrite (proj2 (Nat.leb_le _ _)) by by apply contiguous_le in Hc. f_equal. by eapply IH.
Qed.

Lemma contiguous_next off ts len i s s' : contiguous off ts len → ts !! i = Some s → ts !! S i = Some s' →
  seq_start_idx s' = seq_end_idx s.
Proof.
  revert off i. induction ts as [|s0 ts IH]; intros off [|i]; cbn; try done.
  - intros (_ & _ & Hc) [= ->] Hs'. destruct ts as [|s1 ts]; [done|]. injection Hs' as ->. by destruct Hc.
  - intros (_ & _ & Hc). by eapply IH.
Qed.

Lemma contiguous_bounds off ts len s : contiguous off ts len → s ∈ ts → seq_start_idx s < seq_end_idx s <= len.
Proof.
  revert off. induction ts as [|s0 ts IH]; intros off; cbn; [by intros _ ?%elem_of_nil|].
  intros (Hs & Hlt & Hc) [->|Hin]%elem_of_cons; [apply contiguous_le in Hc; lia|]. by eapply IH.
Qed.

Lemma length_slice_of {A} (l : list A) i j : i <= j <= length l → length (slice_of l i j) = j - i.
Proof. intros Hij. unfold slice_of. rewrite length_take, length_drop. lia. Qed.

Lemma slice_of_lookup {A} (l : list A) i j n : i <= n < j → slice_of l i j !! (n - i) = l !! n.
Proof. intros Hn. unfold slice_of. rewrite lookup_take_lt, lookup_drop by lia. f_equal. lia. Qed.

Lemma entries_lookup l off ts n s : contiguous off ts (length (tombstone_seqs_ l)) → off <= n →
  ts !! stack_index ts n = Some s → seq_start_idx s <= n < seq_end_idx s →
  concat (map (λ s, map (λ q, (RangeTombstones.start_key s, RangeTombstones.end_key s, q)) (stack_seqs l s)) ts) !! (n - off) =
    (λ q, (RangeTombstones.start_key s, RangeTombstones.end_key s, q)) <$> tombstone_seqs_ l !! n.
Proof.
  revert off. induction ts as [|s0 ts IH]; intros off; cbn [map concat]; [done|]. intros (Hs0 & Hlt & Hc) Hn Hs Hsn.
  pose proof (contiguous_le _ _ _ Hc) as Hle. unfold stack_index in Hs. cbn [count_while] in Hs.
  assert (length (stack_seqs l s0) = seq_end_idx s0 - off) as El by (unfold stack_seqs; rewrite Hs0; apply length_slice_of; lia).
  destruct (Nat.leb_spec (seq_end_idx s0) n).
  - rewrite lookup_app_r by (rewrite length_map, El; lia). rewrite length_map, El.
    replace (n - off - (seq_end_idx s0 - off)) with (n - seq_end_idx s0) by lia. by apply IH.
  - injection Hs as ->. rewrite lookup_app_l by (rewrite length_map, El; lia). rewrite list_lookup_fmap. f_equal.
    unfold stack_seqs. rewrite Hs0 in *. apply slice_of_lookup. lia.
Qed.

(** ** All the tombstones *)

Lemma entries_of_length l : list_ok l → length (entries_of l) = length (tombstone_seqs_ l).
Proof.
  unfold list_ok, entries_of. intros Hc. rewrite <- (Nat.sub_0_r (length (tombstone_seqs_ l))). revert Hc. generalize 0.
  induction (tombstones_ l) as [|s ts IH]; intros off; cbn [contiguous map concat]; [intros ->; cbn; lia|].
  intros (Hs & Hlt & Hc). pose proof (contiguous_le _ _ _ Hc). rewrite length_app, (IH _ Hc), length_map.
  unfold stack_seqs. rewrite length_slice_of by lia. lia.
Qed.

Section Cursor.
Context (l : FragmentedRangeTombstoneList) (Hl : list_ok l).
Let len := length (tombstone_seqs_ l).

(** The iterator is at the tombstone [n], or at the end. *)
Definition at_entry (it : t) (n : nat) : Prop :=
  list_ it = l ∧ seq_pos_ it = n ∧ pos_ it = stack_index (tombstones_ l) n ∧ n <= len.

Lemma at_entry_shows it n : at_entry it n →
  Valid it = (n <? len) ∧ (n < len → entries_of l !! n = Some (start_key it, end_key it, seq it)).
Proof using Hl.
  intros (El & Es & Ep & Hn). unfold Valid, at_end, tombs. rewrite El, Ep. destruct (Nat.ltb_spec n len) as [Hlt|Hge].
  - destruct (stack_at _ _ _ n Hl ltac:(fold len; lia)) as (s & Hs & Hsn). pose proof (lookup_lt_Some _ _ _ Hs).
    rewrite (proj2 (Nat.eqb_neq _ _)) by lia. split; [done|]. intros _.
    destruct (lookup_lt_is_Some_2 (tombstone_seqs_ l) n Hlt) as [q Hq].
    pose proof (entries_lookup l 0 _ n s Hl ltac:(lia) Hs Hsn) as E. rewrite Nat.sub_0_r, Hq in E. unfold entries_of. rewrite E.
    unfold start_key, end_key, seq, at_pos, tombs, seqs. by rewrite El, Es, Ep, Hs, Hq.
  - assert (n = len) as -> by lia. unfold len. rewrite (stack_index_end _ _ _ Hl), Nat.eqb_refl. split; [done|lia].
Qed.

Lemma at_pos_entry it n s : at_entry it n → tombstones_ l !! stack_index (tombstones_ l) n = Some s → at_pos it = s.
Proof using. intros (El & _ & Ep & _) Hs. unfold at_pos, tombs. by rewrite El, Ep, Hs. Qed.

Lemma Next_entry it n : at_entry it n → n < len → at_entry (Next it) (S n).
Proof using Hl.
  intros Ha Hlt. destruct (stack_at _ _ _ n Hl ltac:(fold len; lia)) as (s & Hs & Hsn).
  unfold Next. rewrite (at_pos_entry it n s Ha Hs). destruct Ha as (El & Es & Ep & _). rewrite Es, Ep.
  split_and!; [done|done| |done]. cbn [pos_ set_pos]. by rewrite (stack_index_S _ _ _ n s Hl ltac:(fold len; lia) Hs).
Qed.

Lemma Prev_entry it n : at_entry it (S n) → at_entry (Prev it) n.
Proof using Hl.
  intros Ha. pose proof Ha as (El & Es & Ep & Hn). destruct (stack_at _ _ _ n Hl ltac:(fold len; lia)) as (s & Hs & Hsn).
  pose proof (stack_index_S _ _ _ n s Hl ltac:(fold len; lia) Hs) as EI. unfold Prev. rewrite Es.
  split_and!; [done|done| |lia]. cbn [pos_ set_pos]. unfold at_end, tombs. rewrite El, Ep.
  destruct (Nat.eqb_spec (S n) (seq_end_idx s)) as [E|E].
  - rewrite EI. destruct (Nat.eqb_spec (S (stack_index (tombstones_ l) n)) (length (tombstones_ l))) as [_|Hne]; [cbn [orb]; lia|].
    destruct (lookup_lt_is_Some_2 (tombstones_ l) (S (stack_index (tombstones_ l) n))) as [s' Hs'].
    { pose proof (lookup_lt_Some _ _ _ Hs). lia. }
    rewrite (at_pos_entry it (S n) s') by (done || by rewrite EI).
    rewrite (contiguous_next _ _ _ _ s s' Hl Hs Hs'), <- E, Nat.eqb_refl. cbn [orb]. lia.
  - rewrite EI. pose proof (lookup_lt_Some _ _ _ Hs). rewrite (proj2 (Nat.eqb_neq _ (length (tombstones_ l)))) by lia.
    rewrite (at_pos_entry it (S n) s) by (done || by rewrite EI). by rewrite (proj2 (Nat.eqb_neq _ (seq_start_idx s))) by lia.
Qed.

Lemma at_entry_end it : list_ it = l → at_entry (Invalidate it) len.
Proof using Hl.
  intros El. split_and!; [done| | |done]; cbn [Invalidate set_pos pos_ seq_pos_]; unfold seqs, tombs; rewrite El; [done|].
  unfold len. by rewrite (stack_index_end _ _ _ Hl).
Qed.

Lemma at_entry_first it : list_ it = l → at_entry (SeekToFirst it) 0.
Proof using Hl.
  intros El. split_and!; [done|done| |lia]. cbn [SeekToFirst set_pos pos_]. unfold stack_index. pose proof Hl as Hc. unfold list_ok in Hc.
  destruct (tombstones_ l) as [|s ts]; [done|]. destruct Hc as (_ & Hlt & _). cbn. by rewrite (proj2 (Nat.leb_gt _ _)).
Qed.

Lemma at_entry_last it : list_ it = l → 0 < len → at_entry (SeekToLast it) (len - 1).
Proof using Hl.
  intros El Hlen. destruct (stack_at _ _ _ (len - 1) Hl ltac:(fold len; lia)) as (s & Hs & Hsn).
  pose proof (stack_index_S _ _ _ (len - 1) s Hl ltac:(fold len; lia) Hs) as EI. replace (S (len - 1)) with len in EI by lia.
  assert (seq_end_idx s <= len) as Hb by (apply (contiguous_bounds _ _ _ s Hl); by eapply list_elem_of_lookup_2).
  unfold len in EI at 1. rewrite (stack_index_end _ _ _ Hl), (proj2 (Nat.eqb_eq _ _)) in EI by lia.
  split_and!; [done| | |lia]; cbn [SeekToLast set_pos pos_ seq_pos_]; unfold seqs, tombs; rewrite El; [done|lia].
Qed.

Inductive Move := MFirst | MLast | MNext | MPrev.
(** The cursor over a list of [n] elements. [None] is a move the code does not
    allow: to the last of none, or beyond the end. *)
Definition cursor_move (n i : nat) (m : Move) : option nat :=
  match m with
  | MFirst => Some 0
  | MLast => if 0 <? n then Some (n - 1) else None
  | MNext => if i <? n then Some (S i) else None
  | MPrev => Some (match i with O => n | S i => i end)
  end.
Definition iter_move (it : t) (m : Move) : t :=
  match m with MFirst => SeekToFirst it | MLast => SeekToLast it | MNext => Next it | MPrev => Prev it end.

Lemma move_entry it i m j : at_entry it i → cursor_move len i m = Some j → at_entry (iter_move it m) j.
Proof using Hl.
  intros Ha. pose proof Ha as (El & Es & _). destruct m; cbn [cursor_move iter_move].
  - intros [= <-]. by apply at_entry_first.
  - destruct (Nat.ltb_spec 0 len); [|done]. intros [= <-]. by apply at_entry_last.
  - destruct (Nat.ltb_spec i len); [|done]. intros [= <-]. by apply Next_entry.
  - intros [= <-]. destruct i as [|i]; [|by apply Prev_entry]. unfold Prev. rewrite Es. by apply at_entry_end.
Qed.
End Cursor.

(** ** The newest visible tombstone of each fragment *)

(** The first index from [i] on, and the last one below [n], of an element with [p]. *)
Fixpoint first_idx {A} (p : A → bool) (i : nat) (xs : list A) : option nat :=
  match xs with
  | [] => None
  | x :: xs => if p x then Some i else first_idx p (S i) xs
  end.
Fixpoint last_idx {A} (p : A → bool) (xs : list A) (n : nat) : option nat :=
  match n with
  | O => None
  | S i => if from_option p false (xs !! i) then Some i else last_idx p xs i
  end.
Lemma first_idx_skip {A} (p q : A → bool) n : ∀ i (xs : list A), n <= length xs →
  (∀ j x, xs !! j = Some x → q x = negb (j <? n)) →
  first_idx (λ x, p x && q x) i xs = first_idx p (i + n) (drop n xs).
Proof.
  induction n as [|n IH]; intros i xs Hn Hq.
  - rewrite Nat.add_0_r, drop_0. clear Hn. revert i Hq. induction xs as [|x xs IH]; intros i Hq; [done|]. cbn [first_idx].
    rewrite (Hq 0 x eq_refl), andb_true_r. rewrite IH; [done|]. intros j y Hy. by rewrite (Hq (S j) y Hy).
  - destruct xs as [|x xs]; [cbn in Hn; lia|]. cbn [first_idx drop]. rewrite (Hq 0 x eq_refl), andb_false_r.
    rewrite IH; [by rewrite Nat.add_succ_comm|cbn in Hn; lia|]. intros j y Hy. by rewrite (Hq (S j) y Hy).
Qed.

Lemma last_idx_skip {A} (p q : A → bool) n (xs : list A) : ∀ m, n <= m → m <= length xs →
  (∀ j x, xs !! j = Some x → q x = (j <? n)) → last_idx (λ x, p x && q x) xs m = last_idx p xs n.
Proof.
  induction m as [|m IH]; intros Hn Hm Hq; [by replace n with 0 by lia|]. cbn [last_idx].
  destruct (lookup_lt_is_Some_2 xs m Hm) as [x Hx]. rewrite Hx. cbn [from_option]. rewrite (Hq m x Hx).
  destruct (Nat.ltb_spec m n) as [Hlt|Hge].
  - assert (n = S m) as -> by lia. cbn [last_idx]. rewrite Hx. cbn [from_option]. rewrite andb_true_r.
    destruct (p x); [done|]. clear IH Hlt Hn Hx x. assert (∀ k, k <= m → last_idx (λ x, p x && q x) xs k = last_idx p xs k) as Hk; [|by apply Hk].
    induction k as [|k IHk]; intros Hk; [done|]. cbn [last_idx]. rewrite IHk by lia.
    destruct (xs !! k) as [y|] eqn:Hy; [|done]. cbn [from_option].
    rewrite (Hq k y Hy), (proj2 (Nat.ltb_lt k (S m))) by lia. by rewrite andb_true_r.
  - rewrite andb_false_r. apply IH; [lia|lia|done].
Qed.

(** A predicate that holds of a prefix of a list: [count_while] is where it ends. *)
Lemma count_while_split {A} (R : A → A → Prop) (p : A → bool) (xs : list A) : StronglySorted R xs →
  (∀ x y, x ∈ xs → y ∈ xs → R x y → p x = false → p y = false) →
  ∀ j x, xs !! j = Some x → p x = (j <? count_while p xs).
Proof.
  intros Hs Hp j x Hj. destruct (Nat.ltb_spec j (count_while p xs)) as [Hlt|Hge].
  - by apply (count_while_before p xs j x).
  - pose proof (lookup_lt_Some _ _ _ Hj) as Hl. destruct (lookup_lt_is_Some_2 xs (count_while p xs)) as [y Hy]; [lia|].
    pose proof (count_while_at _ _ _ Hy) as Hpy. destruct (decide (j = count_while p xs)) as [->|Hne]; [congruence|].
    apply (Hp y x); [by eapply list_elem_of_lookup_2..| |done]. by apply (sorted_lookup _ _ Hs (count_while p xs) j); [..|lia].
Qed.

Section Top.
Context (ucmp : Comparator) (l : FragmentedRangeTombstoneList) (Hl : list_ok l) (upper lower : Z).

(** What is visible of a fragment: its newest sequence number up to [upper],
    unless it is below [lower]. *)
Definition top_of (s : RangeTombstoneStack) : option Z :=
  q ← stack_seqs l s !! count_while (λ x, Z.ltb upper x) (stack_seqs l s);
  if Z.ltb q lower then None else Some q.
Definition is_top (s : RangeTombstoneStack) : bool := match top_of s with Some _ => true | None => false end.

(** The first visible fragment from [i] on, and the last one before [i]. *)
Definition first_top (i : nat) : option nat := first_idx is_top i (drop i (tombstones_ l)).
Definition last_top (i : nat) : option nat := last_idx is_top (tombstones_ l) i.

Definition over_list (it : t) : Prop :=
  list_ it = l ∧ upper_bound_ it = upper ∧ lower_bound_ it = lower ∧ ts_upper_bound_ it = None.
(** The iterator shows the visible tombstone of the fragment [o], or is at the
    end. *)
Definition shows_top (it : t) (o : option nat) : Prop :=
  over_list it ∧
  match o with
  | Some i => ∃ s, tombstones_ l !! i = Some s ∧ pos_ it = i ∧ Valid it = true ∧ top_of s = Some (seq it) ∧
      start_key it = RangeTombstones.start_key s ∧ end_key it = RangeTombstones.end_key s
  | None => Valid it = false
  end.

Lemma set_max_visible it s : over_list it → tombstones_ l !! pos_ it = Some s →
  SetMaxVisibleSeqAndTimestamp ucmp it =
    set_pos it (pos_ it) (seq_start_idx s + count_while (λ x, Z.ltb upper x) (stack_seqs l s)).
Proof using.
  intros (El & Eu & _ & Et) Hs. unfold SetMaxVisibleSeqAndTimestamp, at_pos, tombs, seqs. rewrite El, Hs, Eu, Et. done.
Qed.

(** After [SetMaxVisibleSeqAndTimestamp] the loops look at [top_of]. *)
Lemma invisible_top it s : over_list it → tombstones_ l !! pos_ it = Some s →
  let it' := SetMaxVisibleSeqAndTimestamp ucmp it in
  invisible it' = negb (is_top s) ∧ (is_top s = true → shows_top it' (Some (pos_ it))).
Proof using Hl.
  intros Ho Hs it'. unfold it'. rewrite (set_max_visible it s Ho Hs). set (c := count_while _ _). set (it2 := set_pos _ _ _).
  assert (over_list it2) as Ho2 by done. pose proof Ho2 as (El & Eu & Elo & _).
  assert (at_pos it2 = s) as Ea by (unfold at_pos, tombs; rewrite El; cbn [pos_ it2 set_pos]; by rewrite Hs).
  pose proof (lookup_lt_Some _ _ _ Hs) as Hlt.
  assert (at_end it2 = false) as Ee by (unfold at_end, tombs; rewrite El; cbn [pos_ it2 set_pos]; apply Nat.eqb_neq; lia).
  destruct (contiguous_bounds _ _ _ s Hl ltac:(by eapply list_elem_of_lookup_2)) as [Hse Hle].
  assert (length (stack_seqs l s) = seq_end_idx s - seq_start_idx s) as Elen by (apply length_slice_of; lia).
  pose proof (count_while_le (λ x, Z.ltb upper x) (stack_seqs l s)) as Hc. fold c in Hc.
  assert (c < seq_end_idx s - seq_start_idx s → seq it2 = default 0%Z (stack_seqs l s !! c)) as Eseq.
  { intros Hlt'. unfold seq, seqs. rewrite El. cbn [seq_pos_ it2 set_pos]. unfold stack_seqs.
    rewrite <- (slice_of_lookup (tombstone_seqs_ l) (seq_start_idx s) (seq_end_idx s)) by lia. do 2 f_equal. lia. }
  unfold invisible, is_top, top_of. fold c. rewrite Ee, Ea, Elo. cbn [negb andb]. change (seq_pos_ it2) with (seq_start_idx s + c).
  destruct (Nat.eqb_spec (seq_start_idx s + c) (seq_end_idx s)) as [E|E].
  { rewrite lookup_ge_None_2 by lia. done. }
  destruct (lookup_lt_is_Some_2 (stack_seqs l s) c) as [q Hq]; [lia|]. rewrite Hq in *. cbn in Eseq |- *. rewrite Eseq by lia.
  destruct (Z.ltb q lower) eqn:Eq; [done|]. split; [done|]. intros _. split; [done|]. exists s.
  unfold Valid. rewrite Ee, Eseq by lia. unfold top_of. fold c. rewrite Hq. cbn. rewrite Eq.
  unfold start_key, end_key. by rewrite Ea.
Qed.

Lemma shows_end it : over_list it → shows_top (Invalidate it) None.
Proof using.
  intros Ho. split; [done|]. unfold Valid, at_end, Invalidate. cbn [pos_ set_pos]. unfold tombs. cbn [list_ set_pos].
  by rewrite Nat.eqb_refl.
Qed.

Lemma ScanForward_top fuel : ∀ it s, over_list it → tombstones_ l !! pos_ it = Some s →
  length (tombstones_ l) - pos_ it < fuel →
  ∃ it', ScanForward_loop ucmp fuel (SetMaxVisibleSeqAndTimestamp ucmp it) = Some it' ∧ shows_top it' (first_top (pos_ it)).
Proof using Hl.
  induction fuel as [|fuel IH]; intros it s Ho Hs Hf; [lia|]. cbn [ScanForward_loop].
  destruct (invisible_top it s Ho Hs) as [Ei Hshow]. rewrite Ei. unfold first_top. rewrite (drop_S _ _ _ Hs). cbn [first_idx].
  destruct (is_top s); cbn [negb]; [eauto|]. rewrite (set_max_visible it s Ho Hs). cbn [pos_ set_pos seq_pos_].
  set (it2 := set_pos _ (S (pos_ it)) _). assert (over_list it2) as Ho2 by done. unfold at_end, tombs.
  rewrite (proj1 Ho2). change (pos_ it2) with (S (pos_ it)). pose proof (lookup_lt_Some _ _ _ Hs).
  destruct (Nat.eqb_spec (S (pos_ it)) (length (tombstones_ l))) as [E|E].
  - eexists. split; [done|]. rewrite drop_ge by lia. by apply shows_end.
  - destruct (lookup_lt_is_Some_2 (tombstones_ l) (S (pos_ it))) as [s2 Hs2]; [lia|]. apply (IH it2 s2 Ho2 Hs2). cbn. lia.
Qed.

Lemma ScanBackward_top fuel : ∀ it s, over_list it → tombstones_ l !! pos_ it = Some s → pos_ it < fuel →
  ∃ it', ScanBackward_loop ucmp fuel (SetMaxVisibleSeqAndTimestamp ucmp it) = Some it' ∧ shows_top it' (last_top (S (pos_ it))).
Proof using Hl.
  induction fuel as [|fuel IH]; intros it s Ho Hs Hf; [lia|]. cbn [ScanBackward_loop].
  destruct (invisible_top it s Ho Hs) as [Ei Hshow]. rewrite Ei. unfold last_top. cbn [last_idx]. rewrite Hs. cbn [from_option].
  destruct (is_top s); cbn [negb]; [eauto|]. rewrite (set_max_visible it s Ho Hs). cbn [pos_ set_pos seq_pos_].
  destruct (pos_ it) as [|i] eqn:Ei'.
  - eexists. split; [done|]. by apply shows_end.
  - set (it2 := set_pos _ i _). pose proof (lookup_lt_Some _ _ _ Hs).
    destruct (lookup_lt_is_Some_2 (tombstones_ l) i) as [s2 Hs2]; [lia|]. apply (IH it2 s2 Ho Hs2). cbn. lia.
Qed.
End Top.

(** ** Movements over the visible fragments *)

Inductive TopMove := TFirst | TLast | TSeek (target : bytes) | TSeekForPrev (target : bytes) | TNext | TPrev.

Section TopMoves.
Context (wf : bytes → Prop) (ucmp : Comparator) `{!ComparatorLaws wf ucmp} (Hts : timestamp_size ucmp = 0%Z).
Context (l : FragmentedRangeTombstoneList) (Hl : list_ok l) (upper lower : Z).
Context (Hranges : Forall (stack_range_ok wf ucmp) (tombstones_ l)) (Hsorted : StronglySorted (stack_before ucmp) (tombstones_ l)).
#[local] Abbreviation shows_top := (shows_top l upper lower).
#[local] Abbreviation over_list := (over_list l upper lower).
#[local] Abbreviation is_top := (is_top l upper lower).
#[local] Abbreviation len := (length (tombstones_ l)).

Definition ends_after (k : bytes) (s : RangeTombstoneStack) : bool := Z.ltb (Compare ucmp k (RangeTombstones.end_key s)) 0.
Definition starts_by (k : bytes) (s : RangeTombstoneStack) : bool := Z.leb (Compare ucmp (RangeTombstones.start_key s) k) 0.

(** Where a movement leads from [o]: a search through all the fragments. The outer
    [None] is a movement the code does not allow, beyond the end. *)
Definition top_target (o : option nat) (m : TopMove) : option (option nat) :=
  match m with
  | TFirst => Some (first_idx is_top 0 (tombstones_ l))
  | TLast => Some (last_idx is_top (tombstones_ l) len)
  | TSeek k => Some (first_idx (λ s, is_top s && ends_after k s) 0 (tombstones_ l))
  | TSeekForPrev k => Some (last_idx (λ s, is_top s && starts_by k s) (tombstones_ l) len)
  | TNext => i ← o; Some (first_idx is_top (S i) (drop (S i) (tombstones_ l)))
  | TPrev => Some (last_idx is_top (tombstones_ l) (default len o))
  end.
Definition top_move (it : t) (m : TopMove) : option t :=
  match m with
  | TFirst => SeekToTopFirst ucmp it
  | TLast => SeekToTopLast ucmp it
  | TSeek k => Seek ucmp it k
  | TSeekForPrev k => SeekForPrev ucmp it k
  | TNext => TopNext ucmp it
  | TPrev => TopPrev ucmp it
  end.
Definition move_ok (m : TopMove) : Prop := match m with TSeek k | TSeekForPrev k => wf k | _ => True end.

Lemma forward_from it i : over_list it → pos_ it = i → i < len →
  ∃ it', ScanForwardToVisibleTombstone ucmp (SetMaxVisibleSeqAndTimestamp ucmp it) = Some it' ∧
    shows_top it' (first_top l upper lower i).
Proof using Hl.
  intros Ho <- Hi. destruct (lookup_lt_is_Some_2 (tombstones_ l) (pos_ it) Hi) as [s Hs].
  unfold ScanForwardToVisibleTombstone. apply (ScanForward_top ucmp l Hl upper lower _ it s Ho Hs).
  rewrite (set_max_visible ucmp l upper lower it s Ho Hs). unfold tombs. cbn [list_ set_pos]. rewrite (proj1 Ho). lia.
Qed.

Lemma backward_from it i : over_list it → pos_ it = i → i < len →
  ∃ it', ScanBackwardToVisibleTombstone ucmp (SetMaxVisibleSeqAndTimestamp ucmp it) = Some it' ∧
    shows_top it' (last_top l upper lower (S i)).
Proof using Hl.
  intros Ho <- Hi. destruct (lookup_lt_is_Some_2 (tombstones_ l) (pos_ it) Hi) as [s Hs].
  unfold ScanBackwardToVisibleTombstone. apply (ScanBackward_top ucmp l Hl upper lower _ it s Ho Hs).
  rewrite (set_max_visible ucmp l upper lower it s Ho Hs). unfold tombs. cbn [list_ set_pos]. rewrite (proj1 Ho). lia.
Qed.

(** At the end the loops stop at once. *)
Lemma scan_at_end it : over_list it → at_end it = true →
  ScanForwardToVisibleTombstone ucmp it = Some it ∧ ScanBackwardToVisibleTombstone ucmp it = Some it ∧ shows_top it None.
Proof using.
  intros Ho He. unfold ScanForwardToVisibleTombstone, ScanBackwardToVisibleTombstone. cbn [ScanForward_loop ScanBackward_loop].
  unfold invisible. rewrite He. split_and!; [done..|]. split; [done|]. unfold Valid. by rewrite He.
Qed.

Lemma at_end_pos it : over_list it → at_end it = (pos_ it =? len).
Proof using. intros (El & _). unfold at_end, tombs. by rewrite El. Qed.

Lemma empty_len it : over_list it → RangeTombstones.empty (list_ it) = (len =? 0).
Proof using. intros (El & _). unfold RangeTombstones.empty. rewrite El. by case (tombstones_ l). Qed.

Lemma stack_ok s : s ∈ tombstones_ l → stack_range_ok wf ucmp s.
Proof using Hranges. rewrite Forall_forall in Hranges. apply Hranges. Qed.

Lemma seek_position k : wf k → ∀ j s, tombstones_ l !! j = Some s →
  ends_after k s = negb (j <? count_while (λ s, negb (ends_after k s)) (tombstones_ l)).
Proof using All.
  intros Hk j s Hj. rewrite <- (count_while_split _ _ _ Hsorted) with (x := s); [by rewrite negb_involutive| |done].
  intros x y Hx%stack_ok Hy%stack_ok Hxy. unfold ends_after, stack_before in *. rewrite !negb_false_iff, !Z.ltb_lt.
  destruct Hx as (_ & Hx & _), Hy as (Hy1 & Hy2 & Hy). intros Hkx.
  apply (cmp_lt_trans (wf := wf) k (RangeTombstones.start_key y)); [done..| |done].
  by apply (cmp_lt_le_trans k (RangeTombstones.end_key x)).
Qed.

Lemma seek_prev_position k : wf k → ∀ j s, tombstones_ l !! j = Some s →
  starts_by k s = (j <? count_while (starts_by k) (tombstones_ l)).
Proof using All.
  intros Hk. apply (count_while_split _ _ _ Hsorted). intros x y Hx%stack_ok Hy%stack_ok Hxy.
  unfold starts_by, stack_before in *. rewrite !Z.leb_gt. destruct Hx as (Hx1 & Hx2 & Hx), Hy as (Hy1 & _).
  intros Hkx. destruct (Z.lt_ge_cases 0 (Compare ucmp (RangeTombstones.start_key y) k)) as [|Hle]; [done|]. exfalso.
  pose proof (cmp_le_trans (RangeTombstones.end_key x) _ k Hx2 Hy1 Hk Hxy Hle) as H1.
  pose proof (cmp_le_trans (RangeTombstones.start_key x) _ k Hx1 Hx2 Hk (Z.lt_le_incl _ _ Hx) H1). lia.
Qed.

(** The seeks find the first and last fragment by a search over the ends and the
    starts alone. *)
Lemma Seek_top it k : over_list it → wf k → ∃ it', Seek ucmp it k = Some it' ∧
  shows_top it' (first_idx (λ s, is_top s && ends_after k s) 0 (tombstones_ l)).
Proof using All.
  intros Ho Hk. set (n := count_while (λ s, negb (ends_after k s)) (tombstones_ l)).
  assert (n <= len) as Hn by apply count_while_le.
  rewrite (first_idx_skip _ _ n) by (done || by apply seek_position). cbn [Nat.add].
  unfold Seek, SeekToCoveringTombstone. rewrite (empty_len it Ho).
  destruct (Nat.eqb_spec len 0) as [E0|Hne].
  { eexists. split; [done|]. rewrite drop_ge by lia. by apply shows_end. }
  assert (count_while (λ s, negb (Z.ltb (CompareWithoutTimestamp ucmp k (RangeTombstones.end_key s)) 0)) (tombs it) = n) as ->.
  { unfold tombs. rewrite (proj1 Ho). apply count_while_ext. intros s. unfold ends_after. by rewrite (cl_no_ts_plain Hts). }
  unfold tombs at 1. rewrite (proj1 Ho). destruct (Nat.eqb_spec n len) as [E|E].
  - rewrite drop_ge by lia. set (it2 := set_pos _ _ _).
    destruct (scan_at_end it2) as (-> & _ & Hs); [done|rewrite at_end_pos by done; by apply Nat.eqb_eq|]. eauto.
  - by apply forward_from; [| |lia].
Qed.

Lemma SeekForPrev_top it k : over_list it → wf k → ∃ it', SeekForPrev ucmp it k = Some it' ∧
  shows_top it' (last_idx (λ s, is_top s && starts_by k s) (tombstones_ l) len).
Proof using All.
  intros Ho Hk. set (n := count_while (starts_by k) (tombstones_ l)).
  assert (n <= len) as Hn by apply count_while_le.
  rewrite (last_idx_skip _ _ n) by (done || by apply seek_prev_position).
  unfold SeekForPrev, SeekForPrevToCoveringTombstone. rewrite (empty_len it Ho).
  destruct (Nat.eqb_spec len 0) as [E0|Hne].
  { eexists. split; [done|]. replace n with 0 by lia. by apply shows_end. }
  assert (count_while (λ s, negb (Z.ltb (CompareWithoutTimestamp ucmp k (RangeTombstones.start_key s)) 0)) (tombs it) = n) as ->.
  { unfold tombs. rewrite (proj1 Ho). apply count_while_ext_in. intros s Hs%stack_ok. unfold starts_by.
    rewrite (cl_no_ts_plain Hts). apply eq_true_iff_eq. rewrite negb_true_iff, Z.ltb_ge, Z.leb_le.
    symmetry. by apply cmp_flip_le; [apply Hs|]. }
  destruct n as [|n].
  - destruct (scan_at_end (Invalidate it)) as (_ & -> & Hs); [done|unfold at_end; cbn; by rewrite Nat.eqb_refl|]. eauto.
  - by apply backward_from; [| |lia].
Qed.

Lemma top_move_target it o m o' : shows_top it o → move_ok m → top_target o m = Some o' →
  ∃ it', top_move it m = Some it' ∧ shows_top it' o'.
Proof using All.
  intros [Ho Hpos] Hm. destruct m as [| |k|k| |]; cbn [top_target top_move]; [| | | |destruct o as [i|]; [cbn [mbind option_bind]|done]|];
    intros [= <-].
  - unfold SeekToTopFirst. rewrite (empty_len it Ho). destruct (Nat.eqb_spec len 0) as [E|E].
    + eexists. split; [done|]. rewrite (nil_length_inv _ E). by apply shows_end.
    + by apply forward_from; [| |lia].
  - unfold SeekToTopLast. rewrite (empty_len it Ho). unfold tombs. rewrite (proj1 Ho). destruct (Nat.eqb_spec len 0) as [E|E].
    + eexists. split; [done|]. rewrite E. by apply shows_end.
    + replace (last_idx is_top (tombstones_ l) len) with (last_top l upper lower (S (len - 1))) by (unfold last_top; f_equal; lia).
      apply (backward_from (set_pos it (len - 1) (seq_pos_ it)) (len - 1)); [done|done|lia].
  - by apply Seek_top.
  - by apply SeekForPrev_top.
  - destruct Hpos as (s & Hs%lookup_lt_Some & <- & _). unfold TopNext. set (it2 := set_pos _ _ _).
    rewrite (at_end_pos it2 Ho). change (pos_ it2) with (S (pos_ it)). destruct (Nat.eqb_spec (S (pos_ it)) len) as [E|E].
    + rewrite drop_ge by lia. eexists. split; [done|]. apply (scan_at_end it2 Ho). rewrite (at_end_pos it2 Ho). by apply Nat.eqb_eq.
    + by apply forward_from; [| |lia].
  - assert (default len o = pos_ it ∧ pos_ it <= len) as [-> Hle].
    { destruct o as [i|]; [destruct Hpos as (s & Hs%lookup_lt_Some & -> & _); split; [done|cbn; lia]|].
      unfold Valid in Hpos. rewrite (at_end_pos it Ho) in Hpos. apply negb_false_iff, Nat.eqb_eq in Hpos. split; [done|lia]. }
    unfold TopPrev. destruct (pos_ it) as [|i] eqn:Ei; [eexists; split; [done|by apply shows_end]|].
    by apply backward_from; [| |lia].
Qed.
End TopMoves.

(** ** The iterator over the fragments of a set of tombstones *)

Section Moves.
Context (wf : bytes → Prop) (ucmp : Comparator) `{!ComparatorLaws wf ucmp} (Hts : timestamp_size ucmp = 0%Z).
Context (for_compaction : bool) (snapshots : list Z) (es : list (bytes * bytes)) (Hes : Forall (entry_ok wf ucmp) es).
Let l := NewFragmentedRangeTombstoneList ucmp for_compaction snapshots es.

(** The position after the moves from position [i]; [None] if one is not allowed. *)
Fixpoint cursor_run (n i : nat) (ms : list Move) : option nat :=
  match ms with
  | [] => Some i
  | m :: ms => j ← cursor_move n i m; cursor_run n j ms
  end.
Fixpoint target_run (upper lower : Z) (o : option nat) (ms : list TopMove) : option (option nat) :=
  match ms with
  | [] => Some o
  | m :: ms => o' ← top_target ucmp l upper lower o m; target_run upper lower o' ms
  end.
Fixpoint top_run (it : t) (ms : list TopMove) : option t :=
  match ms with
  | [] => Some it
  | m :: ms => it' ← top_move ucmp it m; top_run it' ms
  end.

(** C22: the iterator is a cursor over all the tombstones of the fragments, for keys
    without user-defined timestamps. After
    any sequence of [SeekToFirst], [SeekToLast], [Next] and [Prev] that stays in the
    list it shows the tombstone at the position of a cursor that makes the same
    moves, and is not valid exactly when that is at the end. *)
Theorem tombstone_cursor_refines upper ts_upper lower ms i :
  cursor_run (length (entries_of l)) (length (entries_of l)) ms = Some i →
  let it := fold_left iter_move ms (New l upper ts_upper lower) in
  Valid it = (i <? length (entries_of l)) ∧
  (i < length (entries_of l) → entries_of l !! i = Some (start_key it, end_key it, seq it)).
Proof using All.
  pose proof (NewList_ok wf ucmp Hts for_compaction snapshots es Hes) as Hl. fold l in Hl.
  rewrite (entries_of_length l Hl). intros Hrun. cbn zeta. apply (at_entry_shows l Hl).
  assert (at_entry l (New l upper ts_upper lower) (length (tombstone_seqs_ l))) as Ha by by apply (at_entry_end l Hl (New _ _ _ _)).
  revert Hrun Ha. generalize (New l upper ts_upper lower). generalize (length (tombstone_seqs_ l)) at 2 3. induction ms as [|m ms IH];
    intros j it Hrun Ha; cbn [cursor_run fold_left] in *; [by injection Hrun as <-|].
  destruct (cursor_move _ j m) as [j'|] eqn:Em; [|done]. apply (IH j' (iter_move it m) Hrun). by apply (move_entry l Hl it j m).
Qed.

(** C20: the [Top] movements and the seeks go through the fragments of which
    something is visible between the bounds of the iterator, for keys without
    user-defined timestamps. After any sequence of
    them the iterator shows the fragment that a search through all fragments finds,
    with its newest visible sequence number, and is at the end exactly when there
    is none; the loops that skip the others always return. *)
Theorem top_movements_refine_search upper lower ms o : Forall (move_ok wf) ms →
  target_run upper lower None ms = Some o →
  ∃ it, top_run (New l upper None lower) ms = Some it ∧ shows_top l upper lower it o.
Proof using All.
  pose proof (NewList_ok wf ucmp Hts for_compaction snapshots es Hes) as Hl. fold l in Hl.
  destruct (NewList_ordered wf ucmp Hts for_compaction snapshots es l Hes eq_refl) as [Hr Hs].
  apply (Forall_impl _ (stack_range_ok wf ucmp)) in Hr; [|by intros s []].
  intros Hms. assert (shows_top l upper lower (New l upper None lower) None) as Ha by by apply (shows_end l upper lower (New _ _ _ _)).
  revert Ha. generalize (New l upper None lower). generalize (@None nat). induction Hms as [|m ms Hm Hms IH]; intros o0 it Ha Hrun;
    cbn [target_run top_run] in *; [injection Hrun as <-; eauto|].
  destruct (top_target _ _ _ _ o0 m) as [o1|] eqn:Em; [|done].
  destruct (top_move_target wf ucmp Hts l Hl upper lower Hr Hs it o0 m o1 Ha Hm Em) as (it' & -> & Ha'). by apply (IH o1 it').
Qed.
End Moves.

Module ScanExample.
Import TombstoneExample.
#[local] Transparent ztake zdrop Zlen.

Lemma tombstone_cursor_refines_witness :
  let it := fold_left iter_move [MLast; MPrev; MPrev; MNext] (New fragments 25 None 0) in
  Valid it = true ∧ entries_of fragments !! 7 = Some (start_key it, end_key it, seq it).
Proof.
  destruct (tombstone_cursor_refines bytes_ok BytewiseComparator eq_refl true [15; 25]%Z es es_entries_ok 25 None 0
    [MLast; MPrev; MPrev; MNext] 7 ltac:(by vm_compute)) as [H1 H2]. split; [exact H1|]. apply H2. vm_compute. lia.
Defined.

(** For a reader at 25, above 15: the tombstone at 20 is visible from 5 to 9. *)
Lemma top_movements_refine_search_witness :
  ∃ it, top_run BytewiseComparator (New fragments 25 None 15) [TFirst; TNext; TSeekForPrev [8]%Z; TPrev] = Some it ∧
    shows_top fragments 25 15 it (Some 3).
Proof.
  apply (top_movements_refine_search bytes_ok BytewiseComparator eq_refl true [15; 25]%Z es es_entries_ok 25 15
    [TFirst; TNext; TSeekForPrev [8]%Z; TPrev] (Some 3)); [|by vm_compute].
  repeat constructor; by vm_compute.
Defined.
End ScanExample.
