(* ===== verification/Crc32c.v ===== *)
(** * CRC-32C

    [util/crc32c.h] and [util/crc32c.cc]: the portable table-driven
    [ExtendImpl<DefaultCRC32>] (the branch without SSE4.2), masking, and the
    folly [Crc32cCombine] that appends zeroes by multiplying in GF(2^32).

    The reference is the bit-serial CRC: [crc_bit] is one shift of the
    register, [crc_raw] feeds the bytes of a string. The theorems show that
    [ExtendImpl] computes it whatever the alignment of the buffer, and that
    [Crc32cCombine] of the checksums of two strings is the checksum of their
    concatenation. *)

From S2P Require Import Prelude Coding Crc32cTables.

(** ** The code *)

Definition crc32c_m : Z := 0x82f63b78.

Definition LE_LOAD32 (p : bytes) : Z := DecodeFixed32 p.

(** One of the two rounds of [DefaultCRC32]: four bytes by four lookups. *)
Definition DefaultCRC32_round (l : Z) (p : bytes) : Z * bytes :=
  let c := u32 (Z.lxor l (LE_LOAD32 p)) in
  (Z.lxor (Z.lxor (Z.lxor (znth table3_ (Z.land c 0xff))
                          (znth table2_ (Z.land (Z.shiftr c 8) 0xff)))
                  (znth table1_ (Z.land (Z.shiftr c 16) 0xff)))
          (znth table0_ (Z.shiftr c 24)),
   zdrop 4 p).

Definition DefaultCRC32 (l : Z) (p : bytes) : Z * bytes :=
  let '(l, p) := DefaultCRC32_round l p in
  DefaultCRC32_round l p.

(** The macro [STEP1]: one byte by one lookup. *)
Definition STEP1 (l b : Z) : Z :=
  let c := Z.lxor (Z.land l 0xff) b in
  Z.lxor (znth table0_ c) (Z.shiftr l 8).

(** [while (p != x) STEP1], [n] bytes away from [x]. *)
Fixpoint STEP1_loop (n : nat) (l : Z) (p : bytes) : Z * bytes :=
  match n, p with
  | S n, b :: p => STEP1_loop n (STEP1 l b) p
  | _, _ => (l, p)
  end.

(** [while ((e - p) >= 16)] and [while ((e - p) >= 8)]; [n_left] is [e - p]. *)
Fixpoint CRC32_loop16 (fuel : nat) (l : Z) (p : bytes) (n_left : Z) : Z * bytes * Z :=
  match fuel with
  | O => (l, p, n_left)
  | S fuel =>
      if n_left >=? 16 then
        let '(l, p) := DefaultCRC32 l p in
        let '(l, p) := DefaultCRC32 l p in
        CRC32_loop16 fuel l p (n_left - 16)
      else (l, p, n_left)
  end.
Fixpoint CRC32_loop8 (fuel : nat) (l : Z) (p : bytes) (n_left : Z) : Z * bytes * Z :=
  match fuel with
  | O => (l, p, n_left)
  | S fuel =>
      if n_left >=? 8 then
        let '(l, p) := DefaultCRC32 l p in CRC32_loop8 fuel l p (n_left - 8)
      else (l, p, n_left)
  end.

(** [pval] is the address of the buffer, which only decides how many bytes are
    processed one at a time before the 16-byte aligned part. *)
Definition ExtendImpl (pval crc : Z) (buf : bytes) : Z :=
  let e := pval + Zlen buf in
  let l := Z.lxor crc 0xffffffff in
  let x := Z.land (pval + (Z.shiftl 1 4 - 1)) (Z.lnot (Z.shiftl 1 4 - 1)) in
  let '(l, p) := if x <=? e then STEP1_loop (Z.to_nat (x - pval)) l buf else (l, buf) in
  let '(l, p, n_left) := CRC32_loop16 (length buf) l p (Zlen p) in
  let '(l, p, n_left) := CRC32_loop8 (length buf) l p n_left in
  let '(l, p) := STEP1_loop (Z.to_nat n_left) l p in
  u32 (Z.lxor l 0xffffffff).

(** Callers see only contents: [ExtendImpl_correct] shows that the address
    does not matter, so address 0 stands for any. *)
Definition Extend (crc : Z) (data : bytes) : Z := ExtendImpl 0 crc data.
Definition Value (data : bytes) : Z := Extend 0 data.

Definition kMaskDelta : Z := 0xa282ead8.
Definition Mask (crc : Z) : Z :=
  u32 (Z.lor (Z.shiftr crc 15) (u32 (Z.shiftl crc 17)) + kMaskDelta).
Definition Unmask (masked_crc : Z) : Z :=
  let rot := u32 (masked_crc - kMaskDelta) in
  Z.lor (Z.shiftr rot 17) (u32 (Z.shiftl rot 15)).

(** [gf_multiply_sw_1]; [n] is [32 - i]. *)
Fixpoint gf_multiply_sw_1 (n : nat) (p a b m : Z) : Z :=
  match n with
  | O => p
  | S n =>
      gf_multiply_sw_1 n
        (Z.lxor p (Z.land (u32 (0 - Z.land (Z.shiftr b 31) 1)) a))
        (Z.lxor (Z.shiftr a 1) (Z.land (u32 (0 - Z.land a 1)) m))
        (u32 (Z.shiftl b 1)) m
  end.
Definition gf_multiply_sw (a b m : Z) : Z := gf_multiply_sw_1 32 0 a b m.
Definition gf_square_sw (a m : Z) : Z := gf_multiply_sw a a m.

Fixpoint gf_powers_memo (i : nat) (m : Z) : Z :=
  match i with
  | O => m
  | S i => gf_square_sw (gf_powers_memo i m) m
  end.
(** [crc32c_powers] is [constexpr]: evaluated once, when the file is compiled. *)
Definition crc32c_powers : list Z :=
  Eval vm_compute in map (λ i, gf_powers_memo i crc32c_m) (seq 0 62).

Fixpoint pos_ctz (p : positive) : Z :=
  match p with xO p => 1 + pos_ctz p | _ => 0 end.
Definition CountTrailingZeroBits (v : Z) : Z :=
  match v with Zpos p => pos_ctz p | _ => 0 end.

(** [while (len_bits)] of [Crc32AppendZeroes]; [powers] is the index of the
    pointer into the array. *)
Fixpoint Crc32AppendZeroes_loop (fuel : nat) (crc len_bits polynomial powers : Z)
    (powers_array : list Z) : Z :=
  match fuel with
  | O => crc
  | S fuel =>
      if len_bits =? 0 then crc
      else
        let r := CountTrailingZeroBits len_bits in
        let len_bits := Z.shiftr len_bits r in
        let powers := powers + r in
        let crc := gf_multiply_sw crc (znth powers_array powers) polynomial in
        let len_bits := Z.shiftr len_bits 1 in
        Crc32AppendZeroes_loop fuel crc len_bits polynomial (powers + 1) powers_array
  end.
Definition Crc32AppendZeroes (crc len_over_4 polynomial : Z) (powers_array : list Z) : Z :=
  Crc32AppendZeroes_loop 64 crc len_over_4 polynomial 0 powers_array.

Definition InvertedToPure (crc : Z) : Z := u32 (Z.lnot crc).
Definition PureToInverted (crc : Z) : Z := u32 (Z.lnot crc).
Definition PureExtend (crc : Z) (buf : bytes) : Z :=
  InvertedToPure (Extend (PureToInverted crc) buf).

Definition Crc32cCombine (crc1 crc2 crc2len : Z) : Z :=
  let pure_crc1_with_init := InvertedToPure crc1 in
  let pure_crc2_with_init := InvertedToPure crc2 in
  let pure_crc2_init := u32 (-1) in
  let zeros := [0; 0; 0; 0] in
  let len := Z.land crc2len 3 in
  let tmp := Z.lxor pure_crc1_with_init pure_crc2_init in
  let tmp := if len =? 0 then tmp else PureExtend tmp (ztake len zeros) in
  PureToInverted
    (Z.lxor (Crc32AppendZeroes tmp (crc2len / 4) crc32c_m crc32c_powers) pure_crc2_with_init).

(** ** The reference *)

(** One shift of the reflected CRC register: multiplication by x. *)
Definition crc_bit (c : Z) : Z :=
  Z.lxor (Z.shiftr c 1) (if Z.odd c then crc32c_m else 0).
Definition crc_shift (n : nat) (c : Z) : Z := Nat.iter n crc_bit c.
Definition crc_byte (l b : Z) : Z := crc_shift 8 (Z.lxor l b).
Definition crc_raw (l : Z) (bs : bytes) : Z := fold_left crc_byte bs l.
Definition crc32c_ref (init : Z) (bs : bytes) : Z :=
  Z.lxor (crc_raw (Z.lxor init 0xffffffff) bs) 0xffffffff.

Example crc32c_check_value : Value [0x31;0x32;0x33;0x34;0x35;0x36;0x37;0x38;0x39] = 0xe3069283.
Proof. vm_compute. reflexivity. Qed.

(** ** Linearity of the register *)

Lemma odd_lxor a b : Z.odd (Z.lxor a b) = xorb (Z.odd a) (Z.odd b).
Proof. by rewrite <- !Z.bit0_odd, Z.lxor_spec. Qed.

Lemma lxor_swap a b c d : Z.lxor (Z.lxor a b) (Z.lxor c d) = Z.lxor (Z.lxor a c) (Z.lxor b d).
Proof.
  rewrite !Z.lxor_assoc. f_equal. rewrite <- !Z.lxor_assoc. f_equal. apply Z.lxor_comm.
Qed.

Lemma crc_bit_lxor a b : crc_bit (Z.lxor a b) = Z.lxor (crc_bit a) (crc_bit b).
Proof.
  unfold crc_bit. rewrite odd_lxor, Z.shiftr_lxor, lxor_swap. f_equal.
  destruct (Z.odd a), (Z.odd b); cbn [xorb];
    by rewrite ?Z.lxor_nilpotent, ?Z.lxor_0_l, ?Z.lxor_0_r.
Qed.
Lemma crc_shift_S n c : crc_shift (S n) c = crc_bit (crc_shift n c).
Proof. done. Qed.
Lemma crc_shift_add n m c : crc_shift (n + m) c = crc_shift n (crc_shift m c).
Proof. apply Nat.iter_add. Qed.
Lemma crc_shift_succ_r n c : crc_shift (S n) c = crc_shift n (crc_bit c).
Proof. replace (S n) with (n + 1)%nat by lia. by rewrite crc_shift_add. Qed.
Lemma crc_shift_lxor n a b : crc_shift n (Z.lxor a b) = Z.lxor (crc_shift n a) (crc_shift n b).
Proof.
  induction n as [|n IH]; [done|]. by rewrite !crc_shift_S, IH, crc_bit_lxor.
Qed.
Lemma crc_shift_0 n : crc_shift n 0 = 0.
Proof. induction n as [|n IH]; [done|]. by rewrite crc_shift_S, IH. Qed.

Lemma crc_bit_range c : is_u 32 c → is_u 32 (crc_bit c).
Proof.
  intros. apply is_u_lxor; [done|by apply is_u_shiftr|]. destruct (Z.odd c); by compute.
Qed.
Lemma crc_shift_range n c : is_u 32 c → is_u 32 (crc_shift n c).
Proof. intros. induction n as [|n IH]; [done|]. rewrite crc_shift_S. by apply crc_bit_range. Qed.

(** Shifting out [n] zero bits only shifts. *)
Lemma crc_shift_shiftl n h : crc_shift n (Z.shiftl h (Z.of_nat n)) = h.
Proof.
  induction n as [|n IH]; [by rewrite Z.shiftl_0_r|].
  rewrite crc_shift_succ_r. rewrite <- IH at 2. f_equal. unfold crc_bit.
  assert (Z.odd (Z.shiftl h (Z.of_nat (S n))) = false) as ->.
  { rewrite <- Z.bit0_odd, Z.shiftl_spec_low; lia. }
  rewrite Z.lxor_0_r. apply Z.bits_inj'. intros i Hi.
  rewrite Z.shiftr_spec, !Z.shiftl_spec by lia. f_equal. lia.
Qed.
Lemma crc_shift_shiftl_add n k h :
  crc_shift (n + k) (Z.shiftl h (Z.of_nat k)) = crc_shift n h.
Proof. by rewrite crc_shift_add, crc_shift_shiftl. Qed.

(** Splitting a register at bit [k]. *)
Lemma split_lxor k c : 0 <= k →
  c = Z.lxor (Z.land c (Z.ones k)) (Z.shiftl (Z.shiftr c k) k).
Proof.
  intros. apply Z.bits_inj'. intros i Hi.
  rewrite Z.lxor_spec, Z.land_spec, testbit_ones by lia. destruct (Z.ltb_spec i k).
  - by rewrite Z.shiftl_spec_low, andb_true_r, xorb_false_r by lia.
  - rewrite Z.shiftl_spec, Z.shiftr_spec by lia. rewrite andb_false_r, xorb_false_l.
    f_equal. lia.
Qed.

Lemma crc_shift_split (n k : nat) c :
  crc_shift (n + k) c =
    Z.lxor (crc_shift (n + k) (Z.land c (Z.ones (Z.of_nat k))))
           (crc_shift n (Z.shiftr c (Z.of_nat k))).
Proof.
  rewrite (split_lxor (Z.of_nat k) c) at 1 by lia.
  by rewrite crc_shift_lxor, crc_shift_shiftl_add.
Qed.

(** ** The tables *)

Definition table_ok (t : list Z) (n : nat) : bool :=
  forallb (λ c, znth t c =? crc_shift n c) (seqZ 0 256).

Lemma table_ok_nth t n c : table_ok t n = true → 0 <= c < 256 → znth t c = crc_shift n c.
Proof.
  unfold table_ok. intros H Hc. rewrite forallb_forall in H.
  specialize (H c). apply Z.eqb_eq, H, list_elem_of_In, elem_of_seqZ. lia.
Qed.

(** Entry [c] of [tableK_] is the register [c] shifted by [K+1] bytes. *)
Lemma table_spec : table_ok table0_ 8 && table_ok table1_ 16 &&
                   table_ok table2_ 24 && table_ok table3_ 32 = true.
Proof. vm_compute. reflexivity. Qed.

Lemma table0_nth c : 0 <= c < 256 → znth table0_ c = crc_shift 8 c.
Proof. apply table_ok_nth. by vm_compute. Qed.
Lemma table1_nth c : 0 <= c < 256 → znth table1_ c = crc_shift 16 c.
Proof. apply table_ok_nth. by vm_compute. Qed.
Lemma table2_nth c : 0 <= c < 256 → znth table2_ c = crc_shift 24 c.
Proof. apply table_ok_nth. by vm_compute. Qed.
Lemma table3_nth c : 0 <= c < 256 → znth table3_ c = crc_shift 32 c.
Proof. apply table_ok_nth. by vm_compute. Qed.

Lemma land_ff_range c : 0 <= Z.land c 0xff < 256.
Proof. change 0xff with (Z.ones 8). rewrite Z.land_ones by lia. apply Z.mod_pos_bound. lia. Qed.

Lemma STEP1_spec l b : is_u 8 b → STEP1 l b = crc_byte l b.
Proof.
  intros Hb. unfold STEP1, crc_byte.
  rewrite table0_nth by (apply (is_u_lxor 8); [done|apply land_ff_range|done]).
  pose proof (crc_shift_split 0 8 (Z.lxor l b)) as E. cbn [Nat.add] in E.
  change (crc_shift 0 ?x) with x in E. change (Z.of_nat 8) with 8 in E. rewrite E. f_equal.
  - f_equal. change 0xff with (Z.ones 8). zbits.
  - zbits.
Qed.

Lemma crc_raw_shift l bs : bytes_ok bs →
  crc_raw l bs = crc_shift (8 * length bs) (Z.lxor l (le_value bs)).
Proof.
  intros H. revert l. induction H as [|b bs Hb Hbs IH]; intros l.
  { cbn. by rewrite Z.lxor_0_r. }
  cbn [crc_raw fold_left]. change (fold_left crc_byte bs ?x) with (crc_raw x bs).
  rewrite IH. cbn [length le_value]. replace (8 * S (length bs))%nat with (8 * length bs + 8)%nat by lia.
  rewrite crc_shift_add. f_equal. unfold crc_byte.
  assert (b + 256 * le_value bs = Z.lxor b (Z.shiftl (le_value bs) 8)) as ->.
  { rewrite Z.shiftl_mul_pow2 by lia. rewrite (Z.mul_comm (le_value bs)). change (2 ^ 8) with 256.
    apply Z.add_nocarry_lxor. apply Z.bits_inj'. intros i Hi. rewrite Z.land_spec, Z.bits_0.
    change 256 with (2 ^ 8). rewrite Z.mul_comm, <- Z.shiftl_mul_pow2 by lia.
    destruct (Z.lt_ge_cases i 8).
    - rewrite Z.shiftl_spec_low by lia. apply andb_false_r.
    - by rewrite (testbit_above 8). }
  rewrite <- Z.lxor_assoc, !crc_shift_lxor. f_equal. symmetry. apply (crc_shift_shiftl 8).
Qed.

Lemma crc_byte_range l b : is_u 32 l → is_u 8 b → is_u 32 (crc_byte l b).
Proof.
  intros. apply crc_shift_range, is_u_lxor; [done..|]. by apply (is_u_mono 8).
Qed.
Lemma crc_raw_range l bs : is_u 32 l → bytes_ok bs → is_u 32 (crc_raw l bs).
Proof.
  intros Hl Hbs. revert l Hl. induction Hbs as [|b bs Hb Hbs IH]; intros l Hl; [done|].
  cbn. apply IH. by apply crc_byte_range.
Qed.
Lemma crc_raw_app l bs bs' : crc_raw l (bs ++ bs') = crc_raw (crc_raw l bs) bs'.
Proof. apply fold_left_app. Qed.
Lemma crc_raw_take n l bs : crc_raw (crc_raw l (ztake n bs)) (zdrop n bs) = crc_raw l bs.
Proof. by rewrite <- crc_raw_app, ztake_zdrop. Qed.

(** Four lookups are a shift of the register by 32 bits. *)
Lemma crc_shift_32_tables c : is_u 32 c →
  Z.lxor (Z.lxor (Z.lxor (znth table3_ (Z.land c 0xff))
                         (znth table2_ (Z.land (Z.shiftr c 8) 0xff)))
                 (znth table1_ (Z.land (Z.shiftr c 16) 0xff)))
         (znth table0_ (Z.shiftr c 24)) = crc_shift 32 c.
Proof.
  intros Hc. rewrite table3_nth, table2_nth, table1_nth by apply land_ff_range.
  rewrite table0_nth.
  2: { rewrite Z.shiftr_div_pow2 by lia. unfold is_u in Hc. zlia. }
  pose proof (crc_shift_split 24 8 c) as E1.
  pose proof (crc_shift_split 16 8 (Z.shiftr c 8)) as E2.
  pose proof (crc_shift_split 8 8 (Z.shiftr c 16)) as E3.
  cbn [Nat.add] in *. change (Z.ones (Z.of_nat 8)) with 0xff in *. change (Z.of_nat 8) with 8 in *.
  rewrite Z.shiftr_shiftr in E2, E3 by lia.
  change (8 + 8) with 16 in E2. change (16 + 8) with 24 in E3.
  by rewrite E1, E2, E3, !Z.lxor_assoc.
Qed.

Lemma DefaultCRC32_round_spec l p : is_u 32 l → bytes_ok p → 4 <= Zlen p →
  DefaultCRC32_round l p = (crc_raw l (ztake 4 p), zdrop 4 p).
Proof.
  intros Hl Hp Hn. unfold DefaultCRC32_round. f_equal.
  assert (is_u 32 (LE_LOAD32 p)) as Hv.
  { unfold LE_LOAD32, DecodeFixed32. pose proof (le_value_range (ztake 4 p)) as H.
    rewrite Zlen_ztake in H by lia. apply H. auto with bytes. }
  rewrite wrap_small by (by apply is_u_lxor).
  rewrite crc_shift_32_tables by (by apply is_u_lxor).
  rewrite crc_raw_shift by auto with bytes.
  assert (length (ztake 4 p) = 4%nat) as ->; [|done].
  pose proof (Zlen_ztake 4 p) as H. unfold Zlen in *. lia.
Qed.

Lemma DefaultCRC32_spec l p : is_u 32 l → bytes_ok p → 8 <= Zlen p →
  DefaultCRC32 l p = (crc_raw l (ztake 8 p), zdrop 8 p).
Proof.
  intros Hl Hp Hn. unfold DefaultCRC32.
  rewrite DefaultCRC32_round_spec by (done || lia).
  rewrite DefaultCRC32_round_spec.
  - rewrite zdrop_zdrop by lia. change (4 + 4) with 8. f_equal.
    rewrite <- crc_raw_app. f_equal. unfold ztake, zdrop.
    change (Z.to_nat 8) with (4 + 4)%nat. change (Z.to_nat 4) with 4%nat.
    by rewrite take_take_drop.
  - apply crc_raw_range; auto with bytes.
  - auto with bytes.
  - rewrite Zlen_zdrop; lia.
Qed.

(** A state of the loops stands for a checksum: what is left to feed. *)
Lemma STEP1_loop_spec n l p : bytes_ok p → Z.of_nat n <= Zlen p →
  STEP1_loop n l p = (crc_raw l (take n p), drop n p).
Proof.
  revert l p. induction n as [|n IH]; intros l p Hp Hn; [by destruct p|].
  destruct p as [|b p]; [rewrite Zlen_nil in Hn; lia|].
  rewrite Zlen_cons in Hn. inversion Hp; subst. cbn [STEP1_loop].
  rewrite STEP1_spec, IH by (done || lia). done.
Qed.

Lemma CRC32_loop16_spec fuel l p : is_u 32 l → bytes_ok p → (length p <= fuel)%nat →
  ∃ l' p', CRC32_loop16 fuel l p (Zlen p) = (l', p', Zlen p') ∧
    is_u 32 l' ∧ bytes_ok p' ∧ (length p' <= fuel)%nat ∧ Zlen p' < 16 ∧
    crc_raw l' p' = crc_raw l p.
Proof.
  revert l p. induction fuel as [|fuel IH]; intros l p Hl Hp Hf; cbn [CRC32_loop16].
  { assert (p = []) as -> by (destruct p; [done|cbn in Hf; lia]). exists l, []. by split_and!. }
  destruct (Z.geb_spec (Zlen p) 16); [|by exists l, p; split_and!; try done; lia].
  rewrite DefaultCRC32_spec by (done || lia).
  rewrite DefaultCRC32_spec; [|auto using crc_raw_range with bytes..|rewrite Zlen_zdrop; lia].
  rewrite zdrop_zdrop by lia. change (8 + 8) with 16.
  assert (Zlen p - 16 = Zlen (zdrop 16 p)) as -> by (rewrite Zlen_zdrop; lia).
  destruct (IH (crc_raw (crc_raw l (ztake 8 p)) (ztake 8 (zdrop 8 p))) (zdrop 16 p))
    as (l' & p' & -> & ? & ? & ? & ? & Hc); [auto 10 using crc_raw_range with bytes|auto with bytes| |].
  { unfold zdrop. rewrite length_drop. unfold Zlen in *. lia. }
  exists l', p'. split_and!; try done; [lia|]. rewrite Hc.
  rewrite <- (crc_raw_take 8 l p), <- (crc_raw_take 8 _ (zdrop 8 p)), zdrop_zdrop by lia. done.
Qed.

Lemma CRC32_loop8_spec fuel l p : is_u 32 l → bytes_ok p → (length p <= fuel)%nat →
  ∃ l' p', CRC32_loop8 fuel l p (Zlen p) = (l', p', Zlen p') ∧
    is_u 32 l' ∧ bytes_ok p' ∧ crc_raw l' p' = crc_raw l p.
Proof.
  revert l p. induction fuel as [|fuel IH]; intros l p Hl Hp Hf; cbn [CRC32_loop8].
  { by exists l, p. }
  destruct (Z.geb_spec (Zlen p) 8); [|by exists l, p; split_and!; try done; lia].
  rewrite DefaultCRC32_spec by (done || lia).
  assert (Zlen p - 8 = Zlen (zdrop 8 p)) as -> by (rewrite Zlen_zdrop; lia).
  destruct (IH (crc_raw l (ztake 8 p)) (zdrop 8 p))
    as (l' & p' & -> & ? & ? & Hc); [auto using crc_raw_range with bytes|auto with bytes| |].
  { unfold zdrop. rewrite length_drop. unfold Zlen in *. lia. }
  exists l', p'. split_and!; try done. by rewrite Hc, crc_raw_take.
Qed.

Lemma ones32 : 0xffffffff = Z.ones 32.
Proof. done. Qed.
Lemma is_u_ones32 : is_u 32 0xffffffff.
Proof. by compute. Qed.
#[export] Hint Resolve is_u_ones32 : bytes.

(** The register after the three loops is the bit-serial register, whatever
    the alignment [pval]. *)
Lemma ExtendImpl_ref pval crc buf : is_u 32 crc → bytes_ok buf →
  ExtendImpl pval crc buf = crc32c_ref crc buf.
Proof.
  intros Hc Hb. unfold ExtendImpl, crc32c_ref. set (l0 := Z.lxor crc 0xffffffff).
  assert (is_u 32 l0) as Hl0 by (apply is_u_lxor; auto with bytes; lia).
  set (x := Z.land _ _).
  assert (pval <= x) as Hx.
  { subst x. rewrite <- Z.ldiff_land. change (Z.shiftl 1 4 - 1) with (Z.ones 4).
    rewrite Z.ldiff_ones_r, Z.shiftr_div_pow2, Z.shiftl_mul_pow2 by lia.
    change (Z.ones 4) with 15. change (2 ^ 4) with 16. zlia. }
  assert (∃ l1 p1, (if x <=? pval + Zlen buf then STEP1_loop (Z.to_nat (x - pval)) l0 buf
                    else (l0, buf)) = (l1, p1) ∧ is_u 32 l1 ∧ bytes_ok p1 ∧
                   (length p1 <= length buf)%nat ∧ crc_raw l1 p1 = crc_raw l0 buf)
    as (l1 & p1 & -> & Hl1 & Hp1 & Hn1 & E1).
  { destruct (Z.leb_spec x (pval + Zlen buf)); [|by exists l0, buf; split_and!].
    rewrite STEP1_loop_spec by (done || lia). eexists _, _. split; [done|]. split_and!.
    - apply crc_raw_range; [done|by apply Forall_take].
    - by apply Forall_drop.
    - rewrite length_drop. lia.
    - by rewrite <- crc_raw_app, take_drop. }
  destruct (CRC32_loop16_spec (length buf) l1 p1) as (l2 & p2 & -> & Hl2 & Hp2 & Hn2 & _ & E2);
    [done..|].
  destruct (CRC32_loop8_spec (length buf) l2 p2) as (l3 & p3 & -> & Hl3 & Hp3 & E3); [done..|].
  pose proof (Zlen_nonneg p3). rewrite STEP1_loop_spec by (done || lia).
  unfold Zlen. rewrite Nat2Z.id, firstn_all.
  rewrite E3, E2, E1. apply wrap_small, is_u_lxor; auto using crc_raw_range with bytes. lia.
Qed.

#[local] Opaque crc_shift.

(** ** Multiplication in GF(2^32) *)

(** Two maps that are linear on 32-bit words and agree on the powers of two
    agree on every 32-bit word. *)
Definition linear32 (f : Z → Z) : Prop :=
  ∀ a b, is_u 32 a → is_u 32 b → f (Z.lxor a b) = Z.lxor (f a) (f b).

Lemma linear32_0 f : linear32 f → f 0 = 0.
Proof.
  intros Hf. assert (is_u 32 0) as H0 by (by compute).
  pose proof (Hf 0 0 H0 H0) as H. change (Z.lxor 0 0) with 0 in H.
  by rewrite H, Z.lxor_nilpotent at 1.
Qed.

Lemma linear32_ext f g : linear32 f → linear32 g →
  (∀ j, 0 <= j < 32 → f (2 ^ j) = g (2 ^ j)) → ∀ x, is_u 32 x → f x = g x.
Proof.
  intros Hf Hg Hb.
  enough (∀ n : nat, Z.of_nat n <= 32 → ∀ x, is_u (Z.of_nat n) x → f x = g x) as H.
  { intros x Hx. by apply (H 32%nat). }
  induction n as [|n IH]; intros Hn x Hx.
  { assert (x = 0) as -> by (unfold is_u in Hx; cbn in Hx; lia).
    by rewrite !linear32_0. }
  rewrite (split_lxor (Z.of_nat n) x) by lia.
  assert (is_u (Z.of_nat n) (Z.land x (Z.ones (Z.of_nat n)))) as Hl.
  { rewrite Z.land_ones by lia. apply wrap_range. lia. }
  unfold is_u in Hx. replace (Z.of_nat (S n)) with (Z.of_nat n + 1) in Hx by lia.
  rewrite Z.pow_add_r in Hx by lia. change (2 ^ 1) with 2 in Hx.
  assert (Z.shiftr x (Z.of_nat n) = 0 ∨ Z.shiftr x (Z.of_nat n) = 1) as [->| ->].
  { rewrite Z.shiftr_div_pow2 by lia.
    assert (0 <= x / 2 ^ Z.of_nat n < 2); [|lia]. split; [apply Z.div_pos; lia|].
    apply Z.div_lt_upper_bound; lia. }
  - rewrite Z.shiftl_0_l, Z.lxor_0_r. apply IH; [lia|done].
  - rewrite Z.shiftl_1_l.
    assert (is_u 32 (Z.land x (Z.ones (Z.of_nat n)))) by (eapply is_u_mono; [done|lia]).
    assert (is_u 32 (2 ^ Z.of_nat n)).
    { split; [apply Z.pow_nonneg; lia|]. apply Z.pow_lt_mono_r; lia. }
    rewrite Hf, Hg by done. f_equal; [apply IH; [lia|done]|apply Hb; lia].
Qed.

Lemma mask_bit (b : bool) a : is_u 32 a →
  Z.land (u32 (0 - Z.b2z b)) a = if b then a else 0.
Proof.
  intros Ha. destruct b; cbn [Z.b2z]; [|done]. change (u32 (0 - 1)) with (Z.ones 32).
  rewrite Z.land_comm, Z.land_ones by lia. by apply wrap_small.
Qed.
Lemma land_1_odd a : Z.land a 1 = Z.b2z (Z.odd a).
Proof. by rewrite land_1, Zmod_odd; destruct (Z.odd a). Qed.

(** One iteration of the multiplication with the CRC polynomial. *)
Lemma gf_multiply_sw_step n p a b : is_u 32 a →
  gf_multiply_sw_1 (S n) p a b crc32c_m =
  gf_multiply_sw_1 n (Z.lxor p (if Z.testbit b 31 then a else 0)) (crc_bit a)
    (u32 (Z.shiftl b 1)) crc32c_m.
Proof.
  intros Ha. cbn [gf_multiply_sw_1]. rewrite !land_1_odd, !mask_bit by (done || by compute).
  f_equal. f_equal. rewrite <- Z.bit0_odd, Z.shiftr_spec by lia. done.
Qed.
#[local] Opaque gf_multiply_sw_1.

Lemma gf_multiply_sw_1_acc n p a b : is_u 32 a →
  gf_multiply_sw_1 n p a b crc32c_m = Z.lxor p (gf_multiply_sw_1 n 0 a b crc32c_m).
Proof.
  revert p a b. induction n as [|n IH]; intros p a b Ha; [symmetry; apply Z.lxor_0_r|].
  rewrite !gf_multiply_sw_step by done. rewrite IH by (by apply crc_bit_range).
  rewrite (IH (Z.lxor 0 _)) by (by apply crc_bit_range). by rewrite Z.lxor_0_l, Z.lxor_assoc.
Qed.

Lemma gf_multiply_sw_1_S n a b : is_u 32 a →
  gf_multiply_sw_1 (S n) 0 a b crc32c_m =
  Z.lxor (if Z.testbit b 31 then a else 0)
    (gf_multiply_sw_1 n 0 (crc_bit a) (u32 (Z.shiftl b 1)) crc32c_m).
Proof.
  intros. rewrite gf_multiply_sw_step, Z.lxor_0_l by done.
  rewrite gf_multiply_sw_1_acc by (by apply crc_bit_range). done.
Qed.

Lemma gf_multiply_sw_1_b0 n a : is_u 32 a → gf_multiply_sw_1 n 0 a 0 crc32c_m = 0.
Proof.
  revert a. induction n as [|n IH]; intros a Ha; [done|].
  rewrite gf_multiply_sw_1_S by done. rewrite Z.bits_0, Z.lxor_0_l.
  apply IH. by apply crc_bit_range.
Qed.

Lemma gf_multiply_linear_b n a : is_u 32 a → linear32 (λ b, gf_multiply_sw_1 n 0 a b crc32c_m).
Proof.
  intros Ha b c Hb Hc. revert a b c Ha Hb Hc.
  induction n as [|n IH]; intros a b c Ha Hb Hc; [done|].
  rewrite !gf_multiply_sw_1_S by done. rewrite Z.shiftl_lxor, lxor_swap.
  assert (u32 (Z.lxor (Z.shiftl b 1) (Z.shiftl c 1))
          = Z.lxor (u32 (Z.shiftl b 1)) (u32 (Z.shiftl c 1))) as -> by zbits.
  rewrite IH by (try apply crc_bit_range; try apply wrap_range; done).
  f_equal. rewrite Z.lxor_spec. destruct (Z.testbit b 31), (Z.testbit c 31); cbn [xorb];
    by rewrite ?Z.lxor_nilpotent, ?Z.lxor_0_r, ?Z.lxor_0_l.
Qed.

Lemma gf_multiply_linear_a n b : linear32 (λ a, gf_multiply_sw_1 n 0 a b crc32c_m).
Proof.
  intros a a' Ha Ha'. revert a a' b Ha Ha'.
  induction n as [|n IH]; intros a a' b Ha Ha'; [done|].
  rewrite !gf_multiply_sw_1_S by (try apply is_u_lxor; done). rewrite lxor_swap, crc_bit_lxor.
  rewrite IH by (by apply crc_bit_range). f_equal.
  destruct (Z.testbit b 31); [done|]. by rewrite Z.lxor_0_r.
Qed.

(** Multiplying by x^k (bit [31 - k] of a reflected word) shifts [k] times. *)
Lemma gf_multiply_pow2 (k n : nat) a : is_u 32 a → (k < 32)%nat → (k < n)%nat →
  gf_multiply_sw_1 n 0 a (2 ^ (31 - Z.of_nat k)) crc32c_m = crc_shift k a.
Proof.
  revert n a. induction k as [|k IH]; intros n a Ha Hk Hn;
    (destruct n as [|n]; [lia|]); rewrite gf_multiply_sw_1_S by done.
  - change (31 - Z.of_nat 0) with 31. rewrite Z.pow2_bits_true by lia.
    change (u32 (Z.shiftl (2 ^ 31) 1)) with 0.
    rewrite gf_multiply_sw_1_b0 by (by apply crc_bit_range). apply Z.lxor_0_r.
  - rewrite Z.pow2_bits_false, Z.lxor_0_l by lia.
    assert (u32 (Z.shiftl (2 ^ (31 - Z.of_nat (S k))) 1) = 2 ^ (31 - Z.of_nat k)) as ->.
    { rewrite Z.shiftl_mul_pow2, <- Z.pow_add_r by lia.
      replace (31 - Z.of_nat (S k) + 1) with (31 - Z.of_nat k) by lia.
      apply wrap_small. split; [apply Z.pow_nonneg; lia|apply Z.pow_lt_mono_r; lia]. }
    rewrite IH by (try apply crc_bit_range; done || lia). by rewrite crc_shift_succ_r.
Qed.

(** The constant [m] is x^32: multiplying by it shifts 32 times. It suffices
    to compare the two linear maps on the 32 basis words. *)
Lemma gf_multiply_m a : is_u 32 a → gf_multiply_sw a crc32c_m crc32c_m = crc_shift 32 a.
Proof.
  apply (linear32_ext (λ a, gf_multiply_sw_1 32 0 a crc32c_m crc32c_m) (crc_shift 32)).
  - apply gf_multiply_linear_a.
  - intros x y _ _. apply crc_shift_lxor.
  - assert (forallb (λ j, gf_multiply_sw_1 32 0 (2 ^ j) crc32c_m crc32c_m =? crc_shift 32 (2 ^ j))
                    (seqZ 0 32) = true) as H by (vm_compute; reflexivity).
    rewrite forallb_forall in H. intros j Hj. apply Z.eqb_eq, H, list_elem_of_In, elem_of_seqZ. lia.
Qed.

Lemma gf_multiply_crc_bit a b : is_u 32 a → is_u 32 b →
  gf_multiply_sw a (crc_bit b) crc32c_m = crc_bit (gf_multiply_sw a b crc32c_m).
Proof.
  intros Ha. unfold gf_multiply_sw.
  apply (linear32_ext (λ b, gf_multiply_sw_1 32 0 a (crc_bit b) crc32c_m)
           (λ b, crc_bit (gf_multiply_sw_1 32 0 a b crc32c_m))).
  - intros x y Hx Hy. rewrite crc_bit_lxor. apply gf_multiply_linear_b; by try apply crc_bit_range.
  - intros x y Hx Hy. rewrite <- crc_bit_lxor. f_equal. by apply gf_multiply_linear_b.
  - intros j Hj. destruct (Z.eq_dec j 0) as [->|Hj0].
    + change (crc_bit (2 ^ 0)) with crc32c_m.
      pose proof (gf_multiply_m a Ha) as Hm. unfold gf_multiply_sw in Hm. rewrite Hm.
      pose proof (gf_multiply_pow2 31 32 a Ha) as H. change (31 - Z.of_nat 31) with 0 in H.
      rewrite H by lia. exact (crc_shift_S 31 a).
    + assert (crc_bit (2 ^ j) = 2 ^ (j - 1)) as ->.
      { unfold crc_bit. rewrite <- Z.bit0_odd, Z.pow2_bits_false, Z.lxor_0_r by lia.
        rewrite Z.shiftr_div_pow2, <- Z.pow_sub_r by lia. done. }
      pose proof (gf_multiply_pow2 (Z.to_nat (31 - j)) 32 a Ha) as H1.
      pose proof (gf_multiply_pow2 (Z.to_nat (32 - j)) 32 a Ha) as H2.
      replace (31 - Z.of_nat (Z.to_nat (31 - j))) with j in H1 by lia.
      replace (31 - Z.of_nat (Z.to_nat (32 - j))) with (j - 1) in H2 by lia.
      rewrite H1, H2 by lia.
      replace (Z.to_nat (32 - j)) with (S (Z.to_nat (31 - j))) by lia. apply crc_shift_S.
Qed.

(** The word 1 (bit 31) and its powers of x. *)
Definition gf_one : Z := 0x80000000.
Lemma gf_one_range : is_u 32 gf_one.
Proof. unfold is_u, gf_one. lia. Qed.

Lemma gf_multiply_xk k a : is_u 32 a →
  gf_multiply_sw a (crc_shift k gf_one) crc32c_m = crc_shift k a.
Proof.
  intros Ha. induction k as [|k IH].
  - change (crc_shift 0 ?x) with x. apply (gf_multiply_pow2 0 32 a Ha); lia.
  - rewrite !crc_shift_S, gf_multiply_crc_bit; [by rewrite IH|done|].
    apply crc_shift_range, gf_one_range.
Qed.

(** [crc32c_powers[i]] is x^(32 * 2^i). *)
Lemma gf_powers_memo_spec i :
  gf_powers_memo i crc32c_m = crc_shift (32 * 2 ^ i) gf_one.
Proof.
  induction i as [|i IH]; [by vm_compute|].
  cbn [gf_powers_memo]. unfold gf_square_sw. rewrite IH at 1.
  rewrite IH, gf_multiply_xk by apply crc_shift_range, gf_one_range.
  rewrite <- crc_shift_add. f_equal. cbn [Nat.pow]. lia.
Qed.

Lemma crc32c_powers_eq : crc32c_powers = map (λ i, gf_powers_memo i crc32c_m) (seq 0 62).
Proof. vm_compute. reflexivity. Qed.
Lemma crc32c_powers_nth i : 0 <= i < 62 →
  znth crc32c_powers i = crc_shift (Z.to_nat (32 * 2 ^ i)) gf_one.
Proof.
  intros Hi. rewrite crc32c_powers_eq. unfold znth.
  set (f := λ i, gf_powers_memo i crc32c_m).
  rewrite (nth_indep _ 0 (f O)) by (rewrite length_map, length_seq; lia).
  rewrite map_nth, seq_nth by lia. subst f. cbv beta. rewrite gf_powers_memo_spec. f_equal. cbn [Nat.add].
  rewrite Z2Nat.inj_mul, Z2Nat.inj_pow by (try apply Z.pow_nonneg; lia).
  by rewrite <- (Z2Nat.id i) at 2 by lia; rewrite Nat2Z.id.
Qed.

Lemma pos_ctz_spec p : ∃ q, Zpos p = 2 ^ pos_ctz p * (2 * q + 1) ∧ 0 <= q ∧ 0 <= pos_ctz p.
Proof.
  induction p as [p IH|p IH|]; cbn [pos_ctz].
  - exists (Zpos p). split_and!; lia.
  - destruct IH as (q & E & ? & ?). exists q. split_and!; [|done|lia].
    rewrite Z.pow_add_r, Pos2Z.inj_xO, E by lia. lia.
  - exists 0. split_and!; lia.
Qed.

(** Each iteration peels the lowest set bit off the length. *)
Lemma Crc32AppendZeroes_loop_spec fuel crc n i :
  is_u 32 crc → 0 <= n < 2 ^ (62 - i) → n < 2 ^ Z.of_nat fuel → 0 <= i <= 62 →
  Crc32AppendZeroes_loop fuel crc n crc32c_m i crc32c_powers
  = crc_shift (Z.to_nat (32 * 2 ^ i * n)) crc.
Proof.
  revert crc n i. induction fuel as [|fuel IH]; intros crc n i Hc Hn Hf Hi.
  { assert (n = 0) as -> by (cbn in Hf; lia). by rewrite Z.mul_0_r. }
  cbn [Crc32AppendZeroes_loop]. destruct (Z.eqb_spec n 0) as [->|Hn0]; [by rewrite Z.mul_0_r|].
  destruct n as [|p|p]; [lia| |lia]. cbn [CountTrailingZeroBits].
  destruct (pos_ctz_spec p) as (q & E & Hq & Hr). set (r := pos_ctz p) in *.
  assert (0 < 2 ^ r) by (apply Z.pow_pos_nonneg; lia).
  assert (Z.shiftr (Zpos p) r = 2 * q + 1) as ->.
  { rewrite E, Z.shiftr_div_pow2, Z.mul_comm, Z.div_mul by lia. done. }
  assert (Z.shiftr (2 * q + 1) 1 = q) as ->.
  { rewrite Z.shiftr_div_pow2 by lia. change (2 ^ 1) with 2. zlia. }
  assert (r < 62 - i) as Hri.
  { destruct (Z.lt_ge_cases r (62 - i)) as [|Hge]; [done|].
    apply (Z.pow_le_mono_r 2) in Hge; [|lia]. nia. }
  rewrite crc32c_powers_nth, gf_multiply_xk by (done || lia).
  rewrite IH; [|by apply crc_shift_range| | |lia].
  - rewrite <- crc_shift_add. f_equal.
    rewrite <- Z2Nat.inj_add by (try apply Z.mul_nonneg_nonneg; try apply Z.mul_nonneg_nonneg;
                                 try apply Z.pow_nonneg; lia).
    f_equal. rewrite E, !Z.pow_add_r by lia. lia.
  - split; [done|]. replace (62 - i) with (r + 1 + (62 - (i + r + 1))) in Hn by lia.
    rewrite !Z.pow_add_r in Hn by lia. change (2 ^ 1) with 2 in Hn.
    assert (2 ^ r * (2 * q) < 2 ^ r * (2 * 2 ^ (62 - (i + r + 1)))) as Hm by lia.
    apply Z.mul_lt_mono_pos_l in Hm; lia.
  - rewrite Nat2Z.inj_succ, Z.pow_succ_r in Hf by lia. nia.
Qed.

Lemma Crc32AppendZeroes_spec crc n : is_u 32 crc → 0 <= n < 2 ^ 62 →
  Crc32AppendZeroes crc n crc32c_m crc32c_powers = crc_shift (Z.to_nat (32 * n)) crc.
Proof.
  intros. unfold Crc32AppendZeroes. rewrite Crc32AppendZeroes_loop_spec; [|done|done| |lia].
  - f_equal.
  - change (2 ^ Z.of_nat 64) with (2 ^ 62 * 4). lia.
Qed.

(** ** The interface of the component *)

Lemma Extend_ref crc bs : is_u 32 crc → bytes_ok bs → Extend crc bs = crc32c_ref crc bs.
Proof. apply ExtendImpl_ref. Qed.
Lemma Extend_range crc bs : is_u 32 crc → bytes_ok bs → is_u 32 (Extend crc bs).
Proof.
  intros. rewrite Extend_ref by done. unfold crc32c_ref.
  repeat apply is_u_lxor; auto using crc_raw_range, is_u_lxor with bytes; try lia.
  apply crc_raw_range; [|done]. apply is_u_lxor; auto with bytes. lia.
Qed.
Lemma lxor_cancel_r a b : Z.lxor (Z.lxor a b) b = a.
Proof. by rewrite Z.lxor_assoc, Z.lxor_nilpotent, Z.lxor_0_r. Qed.
Lemma Extend_app crc bs bs' : is_u 32 crc → bytes_ok bs → bytes_ok bs' →
  Extend (Extend crc bs) bs' = Extend crc (bs ++ bs').
Proof.
  intros Hc Hb Hb'. rewrite (Extend_ref (Extend crc bs)) by (done || by apply Extend_range).
  rewrite !Extend_ref by (try apply bytes_ok_app; done). unfold crc32c_ref.
  by rewrite lxor_cancel_r, crc_raw_app.
Qed.

Lemma u32_lnot c : is_u 32 c → u32 (Z.lnot c) = Z.lxor c 0xffffffff.
Proof.
  intros. rewrite ones32. apply Z.bits_inj'. intros i Hi.
  rewrite testbit_wrap, Z.lnot_spec, Z.lxor_spec, testbit_ones by lia.
  destruct (Z.ltb_spec i 32); cbn [andb]; [by rewrite xorb_true_r|].
  by rewrite (testbit_above 32).
Qed.

Lemma crc_raw_zeros l n : crc_raw l (replicate n 0) = crc_shift (8 * n) l.
Proof.
  rewrite crc_raw_shift by (apply bytes_ok_replicate; by compute).
  rewrite length_replicate. f_equal.
  assert (le_value (replicate n 0) = 0) as ->; [|apply Z.lxor_0_r].
  induction n as [|n IH]; [done|]. cbn [replicate le_value]. rewrite IH. done.
Qed.

Lemma PureExtend_zeros l n : is_u 32 l → 0 <= n <= 4 →
  PureExtend l (ztake n [0; 0; 0; 0]) = crc_shift (Z.to_nat (8 * n)) l.
Proof.
  intros Hl Hn. change [0; 0; 0; 0] with (replicate 4 0). unfold ztake. rewrite take_replicate.
  replace (Z.to_nat n `min` 4)%nat with (Z.to_nat n) by lia.
  unfold PureExtend, PureToInverted, InvertedToPure. rewrite (u32_lnot l) by done.
  assert (is_u 32 (Z.lxor l 0xffffffff)) by (apply is_u_lxor; auto with bytes; lia).
  assert (bytes_ok (replicate (Z.to_nat n) 0)) by (apply bytes_ok_replicate; by compute).
  rewrite u32_lnot by (by apply Extend_range). rewrite Extend_ref by done.
  unfold crc32c_ref. rewrite !lxor_cancel_r, crc_raw_zeros. f_equal. lia.
Qed.

(** The register is affine in its initial value. *)
Lemma crc_raw_affine l bs : bytes_ok bs →
  crc_raw l bs = Z.lxor (crc_shift (8 * length bs) l) (crc_raw 0 bs).
Proof. intros. by rewrite !crc_raw_shift, Z.lxor_0_l, crc_shift_lxor by done. Qed.

Lemma Combine_Extend crc1 bs : is_u 32 crc1 → bytes_ok bs → Zlen bs < 2 ^ 64 →
  Crc32cCombine crc1 (Value bs) (Zlen bs) = Extend crc1 bs.
Proof.
  intros Hc Hb Hn. pose proof (Zlen_nonneg bs). unfold Crc32cCombine, InvertedToPure, PureToInverted.
  set (n := Zlen bs) in *. change (u32 (-1)) with 0xffffffff.
  rewrite (u32_lnot crc1) by done. rewrite lxor_cancel_r.
  assert (Z.land n 3 = n mod 4) as -> by (change 3 with (Z.ones 2); by rewrite Z.land_ones).
  assert ((if n mod 4 =? 0 then crc1 else PureExtend crc1 (ztake (n mod 4) [0; 0; 0; 0]))
          = crc_shift (Z.to_nat (8 * (n mod 4))) crc1) as ->.
  { destruct (Z.eqb_spec (n mod 4) 0) as [->|]; [done|]. apply PureExtend_zeros; [done|zlia]. }
  rewrite Crc32AppendZeroes_spec by (try apply crc_shift_range; try done; zlia).
  rewrite <- crc_shift_add.
  replace (Z.to_nat (32 * (n / 4)) + Z.to_nat (8 * (n mod 4)))%nat with (8 * length bs)%nat
    by (subst n; unfold Zlen in *; zlia).
  assert (is_u 32 (Value bs)) as Hv by (apply Extend_range; [by compute|done]).
  rewrite (u32_lnot (Value bs)) by done.
  assert (is_u 32 (Z.lxor (Value bs) 0xffffffff)) by (apply is_u_lxor; auto with bytes; lia).
  rewrite u32_lnot by (apply is_u_lxor; try apply crc_shift_range; done).
  unfold Value. rewrite !Extend_ref by (done || by compute). unfold crc32c_ref.
  rewrite lxor_cancel_r, Z.lxor_0_l. f_equal.
  rewrite (crc_raw_affine 0xffffffff), (crc_raw_affine (Z.lxor crc1 0xffffffff)) by done.
  by rewrite crc_shift_lxor, Z.lxor_assoc.
Qed.

(** [Unmask] inverts [Mask] on every 32-bit checksum. *)
Lemma Unmask_Mask crc : is_u 32 crc → Unmask (Mask crc) = crc.
Proof.
  intros Hc. unfold Unmask, Mask.
  set (rot := Z.lor (Z.shiftr crc 15) (u32 (Z.shiftl crc 17))).
  assert (is_u 32 rot) as Hr.
  { apply is_u_lor; [lia|by apply is_u_shiftr|by apply wrap_range]. }
  assert (u32 (u32 (rot + kMaskDelta) - kMaskDelta) = rot) as ->.
  { unfold wrap. rewrite Zminus_mod_idemp_l. replace (rot + kMaskDelta - kMaskDelta) with rot by lia.
    by apply wrap_small. }
  subst rot. clear Hr. zbits.
Qed.

(** ** Properties *)

(** C37: the table-driven [ExtendImpl] computes the bit-serial CRC-32C, for
    every address of the buffer: the byte-wise prologue up to the 16-byte
    boundary, the 16- and 8-byte loops and the byte-wise epilogue feed every
    byte exactly once, and the four tables shift the register by 8 to 32 bits. *)
Theorem ExtendImpl_correct pval crc buf : is_u 32 crc → bytes_ok buf →
  ExtendImpl pval crc buf = crc32c_ref crc buf.
Proof. apply ExtendImpl_ref. Qed.
Lemma ExtendImpl_correct_witness :
  ExtendImpl 1003 0 (replicate 40 0x61) = crc32c_ref 0 (replicate 40 0x61).
Proof. apply ExtendImpl_correct; [by compute|apply bytes_ok_replicate; by compute]. Defined.

(** C36: [Crc32cCombine] of the checksum of a string and the checksum of the
    bytes that follow it is the checksum of the concatenation: appending
    zeroes by multiplying with [crc32c_powers] is feeding zero bytes. *)
Theorem Crc32cCombine_correct a b : bytes_ok a → bytes_ok b → Zlen b < 2 ^ 64 →
  Crc32cCombine (Value a) (Value b) (Zlen b) = Value (a ++ b).
Proof.
  intros Ha Hb Hn. assert (is_u 32 0) by (by compute).
  rewrite Combine_Extend by (done || by apply Extend_range).
  unfold Value. by apply Extend_app.
Qed.
Lemma Crc32cCombine_correct_witness :
  Crc32cCombine (Value [1; 2; 3]) (Value (replicate 21 7)) (Zlen (replicate 21 7))
  = Value ([1; 2; 3] ++ replicate 21 7).
Proof.
  apply Crc32cCombine_correct; [repeat constructor; by compute| |by compute].
  apply bytes_ok_replicate. by compute.
Defined.
