(* ===== verification/LogFormat.v ===== *)
(** * The write-ahead log format

    [db/log_format.h]: record types and sizes shared by the writer and the
    reader, and the two meta records of the log ([CompressionTypeRecord] of
    [util/compression.h], [UserDefinedTimestampSizeRecord] of
    [util/udt_util.h]). *)

From S2P Require Import Prelude Status Coding.
#[local] Open Scope Z_scope.

(** The enumerators of [RecordType] are compared as integers: a reader meets
    arbitrary type bytes. *)
Definition kZeroType : Z := 0.
Definition kFullType : Z := 1.
Definition kFirstType : Z := 2.
Definition kMiddleType : Z := 3.
Definition kLastType : Z := 4.
Definition kRecyclableFullType : Z := 5.
Definition kRecyclableFirstType : Z := 6.
Definition kRecyclableMiddleType : Z := 7.
Definition kRecyclableLastType : Z := 8.
Definition kSetCompressionType : Z := 9.
Definition kUserDefinedTimestampSizeType : Z := 10.
Definition kRecyclableUserDefinedTimestampSizeType : Z := 11.
Definition kMaxRecordType : Z := kRecyclableUserDefinedTimestampSizeType.

Definition kBlockSize : Z := 32768.
Definition kHeaderSize : Z := 4 + 2 + 1.
Definition kRecyclableHeaderSize : Z := 4 + 2 + 1 + 4.

(** ** [CompressionTypeRecord] *)

Definition kNoCompression : Z := 0.
Definition kZSTD : Z := 7.

(** Whether ZSTD streaming is supported depends on the linked library. *)
Definition StreamingCompressionTypeSupported (ZSTD_Streaming_Supported : bool)
    (compression_type : Z) : bool :=
  if compression_type =? kNoCompression then true
  else if compression_type =? kZSTD then ZSTD_Streaming_Supported
  else false.

Module CompressionTypeRecord.
Definition EncodeTo (dst : bytes) (compression_type_ : Z) : bytes :=
  PutFixed32 dst (u32 compression_type_).

(** The status, the type, and [src] as it is left. *)
Definition DecodeFrom (ZSTD_Streaming_Supported : bool) (src : bytes) : Status * Z * bytes :=
  match GetFixed32 src with
  | None => (Status_Corruption "CompressionTypeRecord: Error decoding WAL compression type",
             kNoCompression, src)
  | Some (val, src) =>
      (* CompressionType is an 8-bit enum *)
      let compression_type := u8 val in
      if StreamingCompressionTypeSupported ZSTD_Streaming_Supported compression_type
      then (Status_OK, compression_type, src)
      else (Status_Corruption "CompressionTypeRecord: WAL compression type not supported",
            kNoCompression, src)
  end.
End CompressionTypeRecord.

(** ** [UserDefinedTimestampSizeRecord] *)

Module UserDefinedTimestampSizeRecord.
Definition kSizePerColumnFamily : Z := 4 + 2.

Definition EncodeTo (dst : bytes) (cf_to_ts_sz : list (Z * Z)) : bytes :=
  fold_left (λ dst '(cf_id, ts_sz), PutFixed16 (PutFixed32 dst cf_id) (u16 ts_sz))
    cf_to_ts_sz dst.

(** The loop over [num_of_entries]. *)
Fixpoint DecodeEntries (n : nat) (src : bytes) (acc : list (Z * Z)) : Status * list (Z * Z) * bytes :=
  match n with
  | O => (Status_OK, acc, src)
  | S n =>
      match GetFixed32 src with
      | Some (cf_id, src) =>
          match GetFixed16 src with
          | Some (ts_sz, src) => DecodeEntries n src (acc ++ [(cf_id, ts_sz)])
          | None => (Status_Corruption "Error decoding user-defined timestamp size record entry", acc, src)
          end
      | None => (Status_Corruption "Error decoding user-defined timestamp size record entry", acc, src)
      end
  end.

(** The status, the entries, and [src] as it is left. *)
Definition DecodeFrom (src : bytes) : Status * list (Z * Z) * bytes :=
  let total_size := Zlen src in
  if negb (total_size mod kSizePerColumnFamily =? 0) then
    (Status_Corruption "User-defined timestamp size record length is not a multiple of 6", [], src)
  else DecodeEntries (Z.to_nat (total_size / kSizePerColumnFamily)) src [].

Lemma EncodeTo_app dst l : EncodeTo dst l = dst ++ EncodeTo [] l.
Proof.
  unfold EncodeTo. revert dst. induction l as [|[c s] l IH]; intros dst; cbn [fold_left].
  { by rewrite app_nil_r. }
  rewrite IH, (IH (PutFixed16 (PutFixed32 [] c) _)). unfold PutFixed16, PutFixed32. cbn [app].
  by rewrite !app_assoc.
Qed.
Lemma EncodeTo_cons c s l :
  EncodeTo [] ((c, s) :: l) = EncodeFixed32 c ++ EncodeFixed16 (u16 s) ++ EncodeTo [] l.
Proof.
  unfold EncodeTo at 1. cbn [fold_left]. change (fold_left _ l ?d) with (EncodeTo d l).
  rewrite EncodeTo_app. unfold PutFixed16, PutFixed32. cbn [app]. by rewrite app_assoc.
Qed.
Lemma Zlen_EncodeTo l : Zlen (EncodeTo [] l) = 6 * Zlen l.
Proof.
  induction l as [|[c s] l IH]; [done|]. rewrite EncodeTo_cons. zsimp. rewrite IH.
  unfold EncodeFixed16. zsimp. lia.
Qed.
Lemma bytes_ok_EncodeTo l : bytes_ok (EncodeTo [] l).
Proof.
  induction l as [|[c s] l IH]; [constructor|]. rewrite EncodeTo_cons.
  apply bytes_ok_app; split; [auto with bytes|]. apply bytes_ok_app; split; [|done].
  apply bytes_ok_le_bytes.
Qed.

Lemma DecodeEntries_Encode l acc :
  Forall (λ '(c, s), is_u 32 c ∧ is_u 16 s) l →
  DecodeEntries (length l) (EncodeTo [] l) acc = (Status_OK, acc ++ l, []).
Proof.
  intros H. revert acc. induction H as [|[c s] l [Hc Hs] _ IH]; intros acc.
  { by rewrite app_nil_r. }
  rewrite EncodeTo_cons. cbn [length DecodeEntries].
  rewrite round_trip by done. rewrite (wrap_small 16 s) by done.
  assert (GetFixed16 (EncodeFixed16 s ++ EncodeTo [] l) = Some (s, EncodeTo [] l)) as ->.
  { unfold GetFixed16. rewrite DecodeFixed16_Encode, zdrop_app by done.
    rewrite Zlen_app. pose proof (Zlen_nonneg (EncodeTo [] l)).
    destruct (Z.ltb_spec (Zlen (EncodeFixed16 s) + Zlen (EncodeTo [] l)) 2) as [Hlt|]; [|done].
    unfold EncodeFixed16 in Hlt. rewrite Zlen_le_bytes in Hlt. lia. }
  by rewrite IH, <- app_assoc.
Qed.
Lemma DecodeFrom_Encode l :
  Forall (λ '(c, s), is_u 32 c ∧ is_u 16 s) l → DecodeFrom (EncodeTo [] l) = (Status_OK, l, []).
Proof.
  intros H. unfold DecodeFrom. rewrite Zlen_EncodeTo. change kSizePerColumnFamily with 6.
  rewrite (Z.mul_comm 6), Z.mod_mul, Z.div_mul by lia. cbn [Z.eqb negb].
  unfold Zlen. rewrite Nat2Z.id. by apply DecodeEntries_Encode.
Qed.
End UserDefinedTimestampSizeRecord.
