(* ===== verification/LogWriter.v ===== *)
(** * The log writer

    [db/log_writer.h] and [db/log_writer.cc]. The destination file
    ([WritableFileWriter]) and the streaming compressor are interfaces: the
    writer is proved against what they promise. *)

From S2P Require Import Prelude Status Coding Crc32c LogFormat.
From stdpp Require Import gmap.
#[local] Open Scope Z_scope.

(** ** Interfaces *)

(** What [log::Writer] uses of [WritableFileWriter]. [contents] is the ghost
    sequence of bytes appended successfully so far, whether they have reached
    the file system or not. *)
Class WritableFile (F : Type) := {
  Append : F → bytes → Z → Status * F;
  Flush : F → Status * F;
  CloseFile : F → Status * F;
  seen_error : F → bool;
  FileBufferIsEmpty : F → bool;
  contents : F → bytes
}.

Class WritableFileLaws (F : Type) `{!WritableFile F} : Prop := {
  Append_ok : ∀ f d crc s f', Append f d crc = (s, f') → ok s = true → contents f' = contents f ++ d;
  Flush_contents : ∀ f s f', Flush f = (s, f') → contents f' = contents f
}.

(** [StreamingCompress]: [Compress] is given the whole input on every call and
    returns what remains to be compressed (negative on error) and the chunk it
    produced. *)
Class StreamingCompress (C : Type) := {
  CompressReset : C → C;
  Compress : C → bytes → Z * bytes * C;
  CompressCreate : Z → Z → C
}.

Section Writer.
Context {F C : Type} `{!WritableFile F} `{!StreamingCompress C}.

Record Writer := mkWriter {
  dest_ : F;
(** whether [dest_] is non-null: [Close] resets it *)
has_dest_ : bool;
block_offset_ : Z;
log_number_ : Z;
recycle_log_files_ : bool;
type_crc_ : list Z;
manual_flush_ : bool;
compression_type_ : Z;
compress_ : option C;
recorded_cf_to_ts_sz_ : gmap Z Z
}.

Definition set_dest (w : Writer) (f : F) : Writer :=
  mkWriter f (has_dest_ w) (block_offset_ w) (log_number_ w) (recycle_log_files_ w)
    (type_crc_ w) (manual_flush_ w) (compression_type_ w) (compress_ w) (recorded_cf_to_ts_sz_ w).
Definition set_block_offset (w : Writer) (n : Z) : Writer :=
  mkWriter (dest_ w) (has_dest_ w) n (log_number_ w) (recycle_log_files_ w)
    (type_crc_ w) (manual_flush_ w) (compression_type_ w) (compress_ w) (recorded_cf_to_ts_sz_ w).
Definition set_compress (w : Writer) (ct : Z) (c : option C) : Writer :=
  mkWriter (dest_ w) (has_dest_ w) (block_offset_ w) (log_number_ w) (recycle_log_files_ w)
    (type_crc_ w) (manual_flush_ w) ct c (recorded_cf_to_ts_sz_ w).
Definition set_recorded (w : Writer) (m : gmap Z Z) : Writer :=
  mkWriter (dest_ w) (has_dest_ w) (block_offset_ w) (log_number_ w) (recycle_log_files_ w)
    (type_crc_ w) (manual_flush_ w) (compression_type_ w) (compress_ w) m.

(** The constructor: the checksums of the one-byte type strings. *)
Definition NewWriter (dest : F) (log_number : Z) (recycle_log_files manual_flush : bool)
    (compression_type : Z) : Writer :=
  mkWriter dest true 0 log_number recycle_log_files
    (map (λ i, Value [u8 i]) (seqZ 0 (kMaxRecordType + 1)))
    manual_flush compression_type None ∅.

Definition WriteBuffer (w : Writer) : Status * Writer :=
  if seen_error (dest_ w) then (IOStatus_IOError "Seen error. Skip writing buffer.", w)
  else let '(s, f) := Flush (dest_ w) in (s, set_dest w f).

Definition Close (w : Writer) : Status * Writer :=
  if has_dest_ w then
    let '(s, f) := CloseFile (dest_ w) in
    (s, mkWriter f false (block_offset_ w) (log_number_ w) (recycle_log_files_ w)
          (type_crc_ w) (manual_flush_ w) (compression_type_ w) (compress_ w)
          (recorded_cf_to_ts_sz_ w))
  else (Status_OK, w).

(** [~Writer] flushes what is buffered. *)
Definition DestroyWriter (w : Writer) : Writer :=
  if has_dest_ w then snd (WriteBuffer w) else w.

Definition BufferIsEmpty (w : Writer) : bool := FileBufferIsEmpty (dest_ w).

(** The header layouts [EmitPhysicalRecord] chooses between. *)
Definition legacy_type (t : Z) : bool :=
  (t <? kRecyclableFullType) || (t =? kSetCompressionType) || (t =? kUserDefinedTimestampSizeType).

(** [buf[0, header_size)]: checksum, length, type and, in the recyclable
    format, the low 32 bits of the log number. *)
Definition record_header (log_number type_crc t : Z) (payload : bytes) : bytes :=
  let n := Zlen payload in
  let lognum_bytes := if legacy_type t then [] else EncodeFixed32 (u32 log_number) in
  let crc := if legacy_type t then type_crc else Extend type_crc lognum_bytes in
  let payload_crc := Value payload in
  let crc := Crc32cCombine crc payload_crc n in
  let crc := Mask crc in
  EncodeFixed32 crc ++ [u8 (Z.land n 0xff); u8 (Z.shiftr n 8); u8 t] ++ lognum_bytes.

Definition EmitPhysicalRecord (w : Writer) (t : Z) (payload : bytes) : Status * Writer :=
  let n := Zlen payload in
  let header_size := if legacy_type t then kHeaderSize else kRecyclableHeaderSize in
  let buf := record_header (log_number_ w) (znth (type_crc_ w) t) t payload in
  let '(s, f) := Append (dest_ w) buf 0 in
  let '(s, f) := if ok s then Append f payload (Value payload) else (s, f) in
  (s, set_block_offset (set_dest w f) (block_offset_ w + (header_size + n))).

Definition fragment_type (recycle begin end_ : bool) : Z :=
  if begin && end_ then (if recycle then kRecyclableFullType else kFullType)
  else if begin then (if recycle then kRecyclableFirstType else kFirstType)
  else if end_ then (if recycle then kRecyclableLastType else kLastType)
  else (if recycle then kRecyclableMiddleType else kMiddleType).

(** Filling the trailer of a block that has no room for a header; [None] is
    the [break] on a failed append. *)
Definition switch_block (w : Writer) (header_size : Z) : (Status * Writer) + Writer :=
  let leftover := kBlockSize - block_offset_ w in
  if leftover <? header_size then
    if 0 <? leftover then
      let '(s, f) := Append (dest_ w) (ztake leftover (replicate 10 0)) 0 in
      if ok s then inr (set_block_offset (set_dest w f) 0) else inl (s, set_dest w f)
    else inr (set_block_offset w 0)
  else inr w.

(** The call of the compressor at the top of an iteration: [inl] is the
    [break], [inr] carries the data at [ptr] and the new loop variables. *)
Definition maybe_compress (w : Writer) (slice ptr : bytes) (compress_remaining : Z)
    (compress_start : bool) : (Status * Writer) + (Writer * bytes * Z * bool) :=
  match compress_ w with
  | Some c =>
      if compress_start || (Zlen ptr =? 0) then
        let '(compress_remaining, out, c) := Compress c slice in
        let w := set_compress w (compression_type_ w) (Some c) in
        if compress_remaining <? 0 then
          inl (SetDataLoss (IOStatus_IOError "Unexpected WAL compression error") true, w)
        else if (Zlen out =? 0) && negb compress_start then inl (Status_OK, w)
        else inr (w, out, compress_remaining, false)
      else inr (w, ptr, compress_remaining, compress_start)
  | None => inr (w, ptr, compress_remaining, compress_start)
  end.

(** The [do ... while] of [AddRecord]. [ptr] is the data not yet emitted
    ([left] is its length). Running out of [fuel] is [None]. *)
Fixpoint AddRecord_loop (fuel : nat) (w : Writer) (slice ptr : bytes) (begin : bool)
    (compress_remaining : Z) (compress_start : bool) : option (Status * Writer) :=
  match fuel with
  | O => None
  | S fuel =>
      let header_size := if recycle_log_files_ w then kRecyclableHeaderSize else kHeaderSize in
      match switch_block w header_size with
      | inl r => Some r
      | inr w =>
          let avail := kBlockSize - block_offset_ w - header_size in
          match maybe_compress w slice ptr compress_remaining compress_start with
          | inl r => Some r
          | inr (w, ptr, compress_remaining, compress_start) =>
              let left_ := Zlen ptr in
              let fragment_length := if left_ <? avail then left_ else avail in
              let end_ := (left_ =? fragment_length) && (compress_remaining =? 0) in
              let type := fragment_type (recycle_log_files_ w) begin end_ in
              let '(s, w) := EmitPhysicalRecord w type (ztake fragment_length ptr) in
              let ptr := zdrop fragment_length ptr in
              if ok s && ((0 <? left_ - fragment_length) || (0 <? compress_remaining)) then
                AddRecord_loop fuel w slice ptr false compress_remaining compress_start
              else Some (s, w)
          end
      end
  end.

Definition AddRecord (fuel : nat) (w : Writer) (slice : bytes) : option (Status * Writer) :=
  let '(w, compress_start) :=
    match compress_ w with
    | Some c => (set_compress w (compression_type_ w) (Some (CompressReset c)), true)
    | None => (w, false)
    end in
  match AddRecord_loop fuel w slice slice true 0 compress_start with
  | None => None
  | Some (s, w) =>
      if ok s && negb (manual_flush_ w) then
        let '(s, f) := Flush (dest_ w) in Some (s, set_dest w f)
      else Some (s, w)
  end.

Definition AddCompressionTypeRecord (w : Writer) : Status * Writer :=
  if compression_type_ w =? kNoCompression then (Status_OK, w)
  else
    let encode := CompressionTypeRecord.EncodeTo [] (compression_type_ w) in
    let '(s, w) := EmitPhysicalRecord w kSetCompressionType encode in
    if ok s then
      let '(s, w) :=
        if manual_flush_ w then (s, w)
        else let '(s, f) := Flush (dest_ w) in (s, set_dest w f) in
      let max_output_buffer_len :=
        kBlockSize - (if recycle_log_files_ w then kRecyclableHeaderSize else kHeaderSize) in
      (s, set_compress w (compression_type_ w)
            (Some (CompressCreate (compression_type_ w) max_output_buffer_len)))
    else (s, set_compress w kNoCompression (compress_ w)).

(** The loop over the column families; [cf_to_ts_sz] lists the unordered map
    in its iteration order. *)
Definition ts_sz_to_record (recorded : gmap Z Z) (cf_to_ts_sz : list (Z * Z)) :
    gmap Z Z * list (Z * Z) :=
  fold_left (λ '(recorded, l) '(cf_id, ts_sz),
    match recorded !! cf_id with
    | Some _ => (recorded, l)
    | None => if negb (ts_sz =? 0) then (<[cf_id := ts_sz]> recorded, l ++ [(cf_id, ts_sz)])
              else (recorded, l)
    end) cf_to_ts_sz (recorded, []).

Definition MaybeAddUserDefinedTimestampSizeRecord (w : Writer) (cf_to_ts_sz : list (Z * Z)) :
    Status * Writer :=
  let '(recorded, l) := ts_sz_to_record (recorded_cf_to_ts_sz_ w) cf_to_ts_sz in
  let w := set_recorded w recorded in
  match l with
  | [] => (Status_OK, w)
  | _ =>
      let encoded := UserDefinedTimestampSizeRecord.EncodeTo [] l in
      let type := if recycle_log_files_ w then kRecyclableUserDefinedTimestampSizeType
                  else kUserDefinedTimestampSizeType in
      EmitPhysicalRecord w type encoded
  end.
End Writer.
Arguments Writer : clear implicits.

(** ** A file in memory

    [MemFile] keeps everything that was appended and fails the appends and
    flushes listed in [mf_faults] (by operation count): the instance the
    examples run on. *)
Record MemFile := mkMemFile { mf_data : bytes; mf_ops : nat; mf_faults : list nat }.

Definition mf_step (f : MemFile) : Status * MemFile :=
  let s := if bool_decide (mf_ops f ∈ mf_faults f) then IOStatus_IOError "injected" else Status_OK in
  (s, mkMemFile (mf_data f) (S (mf_ops f)) (mf_faults f)).

#[export] Instance MemFile_WritableFile : WritableFile MemFile := {
  Append f d _ :=
    let '(s, f) := mf_step f in
    (s, if ok s then mkMemFile (mf_data f ++ d) (mf_ops f) (mf_faults f) else f);
  Flush f := mf_step f;
  CloseFile f := mf_step f;
  seen_error f := existsb (λ n, Nat.ltb n (mf_ops f)) (mf_faults f);
  FileBufferIsEmpty f := true;
  contents := mf_data
}.

#[export] Instance MemFile_Laws : WritableFileLaws MemFile.
Proof.
  split.
  - intros f d crc s f' H Hs. cbn in H. destruct (bool_decide _); cbn in H; by simplify_eq.
  - intros f s f' H. cbn in H. unfold mf_step in H. simplify_eq. reflexivity.
Qed.

(** No compressor is linked in the examples. *)
#[export] Instance Empty_StreamingCompress : StreamingCompress unit := {
  CompressReset c := c; Compress c _ := (-1, [], c); CompressCreate _ _ := tt
}.
