(* ===== verification/LogReader.v ===== *)
(** * The log reader

    [db/log_reader.h] and [db/log_reader.cc], class [log::Reader]. The file
    ([SequentialFileReader]), the streaming decompressor and the XXH3 hash are
    interfaces. Corruptions reported to the [Reporter] are recorded in order. *)

From S2P Require Import Prelude Status Coding Crc32c LogFormat.
From stdpp Require Import gmap.
#[local] Open Scope Z_scope.

(** ** Interfaces *)

(** [SequentialFileReader::Read(n)]: a status, at most [n] bytes, the advanced
    file. [unread] is the ghost sequence of bytes not yet returned. *)
Class SequentialFile (F : Type) := {
  Read : F → Z → Status * bytes * F;
  unread : F → bytes
}.

(** A file that does not fail returns the next [n] bytes, fewer only at its end. *)
Class SequentialFileLaws (F : Type) `{!SequentialFile F} : Prop := {
  Read_ok : ∀ f n, 0 <= n → ∃ f',
    Read f n = (Status_OK, ztake n (unread f), f') ∧ unread f' = zdrop n (unread f)
}.

(** [StreamingUncompress]: [Uncompress] is given the fragment on the first call
    and a null pointer afterwards; it returns what remains (negative on error)
    and the bytes it produced. *)
Class StreamingUncompress (U : Type) := {
  UncompressReset : U → U;
  Uncompress : U → option bytes → Z → Z * bytes * U;
  UncompressCreate : Z → U;
  ZSTD_Streaming_Supported : bool
}.

Inductive WALRecoveryMode :=
  | kTolerateCorruptedTailRecords | kAbsoluteConsistency
  | kPointInTimeRecovery | kSkipAnyCorruptedRecords.
#[export] Instance WALRecoveryMode_eq_dec : EqDecision WALRecoveryMode.
Proof. solve_decision. Defined.

(** Extra results of [ReadPhysicalRecord]. *)
Definition kEof : Z := kMaxRecordType + 1.
Definition kBadRecord : Z := kMaxRecordType + 2.
Definition kBadHeader : Z := kMaxRecordType + 3.
Definition kOldRecord : Z := kMaxRecordType + 4.
Definition kBadRecordLen : Z := kMaxRecordType + 5.
Definition kBadRecordChecksum : Z := kMaxRecordType + 6.

Section Reader.
Context {F U : Type} `{!SequentialFile F} `{!StreamingUncompress U}.
(** [XXH3_64bits]; a streaming state is the bytes it was updated with. *)
Context (XXH3_64bits : bytes → Z).

Record Reader := mkReader {
  file_ : F;
(** [None] is the null reporter *)
reporter_ : option (list (Z * Status));
checksum_ : bool;
buffer_ : bytes;
eof_ : bool;
read_error_ : bool;
eof_offset_ : Z;
last_record_offset_ : Z;
end_of_buffer_offset_ : Z;
log_number_ : Z;
recycled_ : bool;
first_record_read_ : bool;
compression_type_ : Z;
compression_type_record_read_ : bool;
uncompress_ : option U;
hash_state_ : option bytes;
recorded_cf_to_ts_sz_ : gmap Z Z
}.

Definition NewReader (f : F) (reporter : option (list (Z * Status))) (checksum : bool)
    (log_num : Z) : Reader :=
  mkReader f reporter checksum [] false false 0 0 0 log_num false false kNoCompression false
    None None ∅.

(** Field updates. *)
Definition set_buffer (r : Reader) (b : bytes) : Reader :=
  mkReader (file_ r) (reporter_ r) (checksum_ r) b (eof_ r) (read_error_ r) (eof_offset_ r)
    (last_record_offset_ r) (end_of_buffer_offset_ r) (log_number_ r) (recycled_ r)
    (first_record_read_ r) (compression_type_ r) (compression_type_record_read_ r)
    (uncompress_ r) (hash_state_ r) (recorded_cf_to_ts_sz_ r).
Definition set_file (r : Reader) (f : F) (b : bytes) (eob : Z) : Reader :=
  mkReader f (reporter_ r) (checksum_ r) b (eof_ r) (read_error_ r) (eof_offset_ r)
    (last_record_offset_ r) eob (log_number_ r) (recycled_ r)
    (first_record_read_ r) (compression_type_ r) (compression_type_record_read_ r)
    (uncompress_ r) (hash_state_ r) (recorded_cf_to_ts_sz_ r).
Definition set_eof (r : Reader) (e : bool) (off : Z) : Reader :=
  mkReader (file_ r) (reporter_ r) (checksum_ r) (buffer_ r) e (read_error_ r) off
    (last_record_offset_ r) (end_of_buffer_offset_ r) (log_number_ r) (recycled_ r)
    (first_record_read_ r) (compression_type_ r) (compression_type_record_read_ r)
    (uncompress_ r) (hash_state_ r) (recorded_cf_to_ts_sz_ r).
Definition set_read_error (r : Reader) : Reader :=
  mkReader (file_ r) (reporter_ r) (checksum_ r) (buffer_ r) (eof_ r) true (eof_offset_ r)
    (last_record_offset_ r) (end_of_buffer_offset_ r) (log_number_ r) (recycled_ r)
    (first_record_read_ r) (compression_type_ r) (compression_type_record_read_ r)
    (uncompress_ r) (hash_state_ r) (recorded_cf_to_ts_sz_ r).
Definition set_recycled (r : Reader) : Reader :=
  mkReader (file_ r) (reporter_ r) (checksum_ r) (buffer_ r) (eof_ r) (read_error_ r)
    (eof_offset_ r) (last_record_offset_ r) (end_of_buffer_offset_ r) (log_number_ r) true
    (first_record_read_ r) (compression_type_ r) (compression_type_record_read_ r)
    (uncompress_ r) (hash_state_ r) (recorded_cf_to_ts_sz_ r).
Definition set_last_record_offset (r : Reader) (off : Z) : Reader :=
  mkReader (file_ r) (reporter_ r) (checksum_ r) (buffer_ r) (eof_ r) (read_error_ r)
    (eof_offset_ r) off (end_of_buffer_offset_ r) (log_number_ r) (recycled_ r)
    (first_record_read_ r) (compression_type_ r) (compression_type_record_read_ r)
    (uncompress_ r) (hash_state_ r) (recorded_cf_to_ts_sz_ r).
Definition set_first_record_read (r : Reader) : Reader :=
  mkReader (file_ r) (reporter_ r) (checksum_ r) (buffer_ r) (eof_ r) (read_error_ r)
    (eof_offset_ r) (last_record_offset_ r) (end_of_buffer_offset_ r) (log_number_ r)
    (recycled_ r) true (compression_type_ r) (compression_type_record_read_ r)
    (uncompress_ r) (hash_state_ r) (recorded_cf_to_ts_sz_ r).
Definition set_uncompress (r : Reader) (u : option U) : Reader :=
  mkReader (file_ r) (reporter_ r) (checksum_ r) (buffer_ r) (eof_ r) (read_error_ r)
    (eof_offset_ r) (last_record_offset_ r) (end_of_buffer_offset_ r) (log_number_ r)
    (recycled_ r) (first_record_read_ r) (compression_type_ r) (compression_type_record_read_ r)
    u (hash_state_ r) (recorded_cf_to_ts_sz_ r).
Definition set_hash_state (r : Reader) (h : option bytes) : Reader :=
  mkReader (file_ r) (reporter_ r) (checksum_ r) (buffer_ r) (eof_ r) (read_error_ r)
    (eof_offset_ r) (last_record_offset_ r) (end_of_buffer_offset_ r) (log_number_ r)
    (recycled_ r) (first_record_read_ r) (compression_type_ r) (compression_type_record_read_ r)
    (uncompress_ r) h (recorded_cf_to_ts_sz_ r).
Definition set_recorded (r : Reader) (m : gmap Z Z) : Reader :=
  mkReader (file_ r) (reporter_ r) (checksum_ r) (buffer_ r) (eof_ r) (read_error_ r)
    (eof_offset_ r) (last_record_offset_ r) (end_of_buffer_offset_ r) (log_number_ r)
    (recycled_ r) (first_record_read_ r) (compression_type_ r) (compression_type_record_read_ r)
    (uncompress_ r) (hash_state_ r) m.

Definition ReportDrop (r : Reader) (n : Z) (reason : Status) : Reader :=
  mkReader (file_ r) ((λ l, l ++ [(n, reason)]) <$> reporter_ r) (checksum_ r) (buffer_ r)
    (eof_ r) (read_error_ r) (eof_offset_ r) (last_record_offset_ r)
    (end_of_buffer_offset_ r) (log_number_ r) (recycled_ r) (first_record_read_ r)
    (compression_type_ r) (compression_type_record_read_ r) (uncompress_ r)
    (hash_state_ r) (recorded_cf_to_ts_sz_ r).
Definition ReportCorruption (r : Reader) (n : Z) (reason : string) : Reader :=
  ReportDrop r n (Status_Corruption reason).

Definition LastRecordOffset (r : Reader) : Z := last_record_offset_ r.
Definition GetReadOffset (r : Reader) : Z := end_of_buffer_offset_ r.
Definition LastRecordEnd (r : Reader) : Z := end_of_buffer_offset_ r - Zlen (buffer_ r).
Definition IsCompressedAndEmptyFile (r : Reader) : bool :=
  negb (first_record_read_ r) && compression_type_record_read_ r.

(** [ReadMore]: [inr] is [true]; [inl] is [false] with [*error] and the bytes
    to drop, if it sets them. *)
Definition ReadMore (r : Reader) : (Z * option Z * Reader) + Reader :=
  if negb (eof_ r) && negb (read_error_ r) then
    let '(status, b, f) := Read (file_ r) kBlockSize in
    let r := set_file r f b (end_of_buffer_offset_ r + Zlen b) in
    if negb (ok status) then
      let r := ReportDrop (set_buffer r []) kBlockSize status in
      inl (kEof, None, set_read_error r)
    else if Zlen b <? kBlockSize then inr (set_eof r true (Zlen b))
    else inr r
  else if negb (Zlen (buffer_ r) =? 0) then
    inl (kBadHeader, Some (Zlen (buffer_ r)), set_buffer r [])
  else inl (kEof, None, set_buffer r []).

(** The [do ... while] that uncompresses one fragment; the result is [None]
    on a decompression error. Out of fuel is the outer [None]. *)
Fixpoint Uncompress_loop (fuel : nat) (u : U) (input : option bytes) (length : Z)
    (acc : bytes) : option (option bytes * U) :=
  match fuel with
  | O => None
  | S fuel =>
      let '(remaining, out, u) := Uncompress u input length in
      if remaining <? 0 then Some (None, u)
      else
        let acc := acc ++ out in
        if (0 <? remaining) || (Zlen out =? kBlockSize) then Uncompress_loop fuel u None length acc
        else Some (Some acc, u)
  end.

Record PhysicalRecord := mkPhys {
  pr_type : Z;
  pr_result : bytes;
  pr_drop_size : Z;
  pr_checksum : option Z
}.

(** [ReadPhysicalRecord]. [drop] is [*drop_size] on entry, [fragment] is what
    [*result] holds; [want_checksum] says whether [fragment_checksum] is
    non-null. Each iteration that continues has called [ReadMore]. *)
Fixpoint ReadPhysicalRecord (fuel : nat) (r : Reader) (fragment : bytes) (drop : Z)
    (want_checksum : bool) : option (PhysicalRecord * Reader) :=
  match fuel with
  | O => None
  | S fuel' =>
      let read_more :=
        λ r, match ReadMore r with
             | inl (e, d, r) => Some (mkPhys e fragment (default drop d) None, r)
             | inr r => ReadPhysicalRecord fuel' r fragment drop want_checksum
             end in
      if Zlen (buffer_ r) <? kHeaderSize then read_more r
      else
        let header := buffer_ r in
        let a := Z.land (char_as_u 32 (znth header 4)) 0xff in
        let b := Z.land (char_as_u 32 (znth header 5)) 0xff in
        let type := char_as_u 32 (znth header 6) in
        let length := Z.lor a (u32 (Z.shiftl b 8)) in
        let recyclable := ((kRecyclableFullType <=? type) && (type <=? kRecyclableLastType))
                          || (type =? kRecyclableUserDefinedTimestampSizeType) in
        let header_size := if recyclable then kRecyclableHeaderSize else kHeaderSize in
        let r := if recyclable && (end_of_buffer_offset_ r - Zlen (buffer_ r) =? 0)
                 then set_recycled r else r in
        if recyclable && (Zlen (buffer_ r) <? kRecyclableHeaderSize) then read_more r
        else if recyclable && negb (DecodeFixed32 (zdrop 7 header) =? log_number_ r) then
          Some (mkPhys kOldRecord fragment drop None, r)
        else if Zlen (buffer_ r) <? header_size + length then
          Some (mkPhys kBadRecordLen fragment (Zlen (buffer_ r)) None, set_buffer r [])
        else if (type =? kZeroType) && (length =? 0) then
          Some (mkPhys kBadRecord fragment drop None, set_buffer r [])
        else if checksum_ r &&
                negb (Value (ztake (length + header_size - 6) (zdrop 6 header))
                      =? Unmask (DecodeFixed32 header)) then
          Some (mkPhys kBadRecordChecksum fragment (Zlen (buffer_ r)) None, set_buffer r [])
        else
          let payload := ztake length (zdrop header_size header) in
          let r := set_buffer r (zdrop (header_size + length) header) in
          match uncompress_ r with
          | None => Some (mkPhys type payload drop None, r)
          | Some u =>
              if (type =? kSetCompressionType) || (type =? kUserDefinedTimestampSizeType)
                 || (type =? kRecyclableUserDefinedTimestampSizeType)
              then Some (mkPhys type payload drop None, r)
              else
                match Uncompress_loop fuel' u (Some payload) length [] with
                | None => None
                | Some (None, u) =>
                    Some (mkPhys kBadRecord fragment drop None,
                          set_buffer (set_uncompress r (Some u)) [])
                | Some (Some out, u) =>
                    let r := set_uncompress r (Some u) in
                    if want_checksum then
                      (* the streamed digest and the digest of the whole agree *)
                      Some (mkPhys type out drop (Some (XXH3_64bits out)), r)
                    else Some (mkPhys type out drop None, r)
                end
          end
  end.

Definition InitCompression (r : Reader) (compression_type : Z) : Reader :=
  mkReader (file_ r) (reporter_ r) (checksum_ r) (buffer_ r) (eof_ r) (read_error_ r)
    (eof_offset_ r) (last_record_offset_ r) (end_of_buffer_offset_ r) (log_number_ r)
    (recycled_ r) (first_record_read_ r) compression_type true
    (Some (UncompressCreate compression_type)) (hash_state_ r) (recorded_cf_to_ts_sz_ r).

(** The insertions made before the entry that is refused stay. *)
Fixpoint UpdateRecordedTimestampSize (r : Reader) (cf_to_ts_sz : list (Z * Z)) : Status * Reader :=
  match cf_to_ts_sz with
  | [] => (Status_OK, r)
  | (cf, ts_sz) :: rest =>
      if ts_sz =? 0 then
        (Status_Corruption "User-defined timestamp size record contains zero timestamp size.", r)
      else
        match recorded_cf_to_ts_sz_ r !! cf with
        | Some _ =>
            (Status_Corruption
               "User-defined timestamp size record contains update to recorded column family.", r)
        | None =>
            UpdateRecordedTimestampSize
              (set_recorded r (<[cf := ts_sz]> (recorded_cf_to_ts_sz_ r))) rest
        end
  end.

(** ** [ReadRecord] *)

Definition hash_reset (r : Reader) : Reader :=
  set_hash_state r ((λ _, []) <$> hash_state_ r).
Definition hash_update (r : Reader) (d : bytes) : Reader :=
  set_hash_state r ((λ h, h ++ d) <$> hash_state_ r).
Definition hash_digest (r : Reader) : option Z := XXH3_64bits <$> hash_state_ r.

(** The locals of the loop of [ReadRecord] that survive an iteration. *)
Record Locals := mkLocals {
  in_fragmented_record : bool;
  prospective_record_offset : Z;
  scratch : bytes;
  fragment_ : bytes;
  record_checksum : option Z
}.

(** Either the function returns (whether it read a record, and which), or the
    [while (true)] loop goes round again. *)
Inductive Outcome :=
  | Return (ret : bool) (record : bytes)
  | Again.

Definition strict_mode (mode : WALRecoveryMode) : bool :=
  bool_decide (mode = kAbsoluteConsistency) || bool_decide (mode = kPointInTimeRecovery).

Definition set_scratch (l : Locals) (b : bytes) : Locals :=
  mkLocals (in_fragmented_record l) (prospective_record_offset l) b (fragment_ l) (record_checksum l).
Definition set_in_fragment (l : Locals) (b : bool) : Locals :=
  mkLocals b (prospective_record_offset l) (scratch l) (fragment_ l) (record_checksum l).
Definition set_prospective (l : Locals) (off : Z) : Locals :=
  mkLocals (in_fragmented_record l) off (scratch l) (fragment_ l) (record_checksum l).
Definition set_record_checksum (l : Locals) (c : option Z) : Locals :=
  mkLocals (in_fragmented_record l) (prospective_record_offset l) (scratch l) (fragment_ l) c.

(** [ReportCorruption(scratch->size(), ...)] when a fragmented record is
    dropped: the tail shared by [kBadRecord] and the bad length/checksum cases. *)
Definition drop_fragmented (r : Reader) (l : Locals) : Reader * Locals :=
  if in_fragmented_record l then
    (ReportCorruption r (Zlen (scratch l)) "error in middle of record",
     set_scratch (set_in_fragment l false) [])
  else (r, l).

(** The [kEof] case, also taken by [kBadHeader] and [kOldRecord]. *)
Definition on_eof (mode : WALRecoveryMode) (r : Reader) (l : Locals) : Outcome * Reader * Locals :=
  if in_fragmented_record l then
    let r := if strict_mode mode
             then ReportCorruption r (Zlen (scratch l)) "error reading trailing data" else r in
    (Return false [], r, set_scratch l [])
  else (Return false [], r, l).

Definition on_full (want : bool) (physical_record_offset : Z) (r : Reader) (l : Locals) :
    Outcome * Reader * Locals :=
  let r := if in_fragmented_record l && negb (Zlen (scratch l) =? 0)
           then ReportCorruption r (Zlen (scratch l)) "partial record without end(1)" else r in
  let l := match uncompress_ r with
           | None => if want then set_record_checksum l (Some (XXH3_64bits (fragment_ l))) else l
           | Some _ => l
           end in
  let l := set_scratch (set_prospective l physical_record_offset) [] in
  let r := set_first_record_read (set_last_record_offset r (prospective_record_offset l)) in
  (Return true (fragment_ l), r, l).

Definition on_first (want : bool) (physical_record_offset : Z) (r : Reader) (l : Locals) :
    Outcome * Reader * Locals :=
  let r := if in_fragmented_record l && negb (Zlen (scratch l) =? 0)
           then hash_reset (ReportCorruption r (Zlen (scratch l)) "partial record without end(2)")
           else r in
  let r := if want then hash_update r (fragment_ l) else r in
  let l := set_scratch (set_prospective l physical_record_offset) (fragment_ l) in
  (Again, r, set_in_fragment l true).

Definition on_middle (want : bool) (r : Reader) (l : Locals) : Outcome * Reader * Locals :=
  if negb (in_fragmented_record l) then
    (Again, ReportCorruption r (Zlen (fragment_ l)) "missing start of fragmented record(1)", l)
  else
    let r := if want then hash_update r (fragment_ l) else r in
    (Again, r, set_scratch l (scratch l ++ fragment_ l)).

Definition on_last (want : bool) (r : Reader) (l : Locals) : Outcome * Reader * Locals :=
  if negb (in_fragmented_record l) then
    (Again, ReportCorruption r (Zlen (fragment_ l)) "missing start of fragmented record(2)", l)
  else
    let r := if want then hash_update r (fragment_ l) else r in
    let l := if want then set_record_checksum l (hash_digest r) else l in
    let l := set_scratch l (scratch l ++ fragment_ l) in
    let r := set_first_record_read (set_last_record_offset r (prospective_record_offset l)) in
    (Return true (scratch l), r, l).

Definition on_set_compression (physical_record_offset : Z) (r : Reader) (l : Locals) :
    Outcome * Reader * Locals :=
  let r := if compression_type_record_read_ r
           then ReportCorruption r (Zlen (fragment_ l)) "read multiple SetCompressionType records"
           else r in
  let r := if first_record_read_ r
           then ReportCorruption r (Zlen (fragment_ l)) "SetCompressionType not the first record"
           else r in
  let l := set_scratch (set_prospective l physical_record_offset) [] in
  let r := set_last_record_offset r (prospective_record_offset l) in
  let '(s, ct, fragment) := CompressionTypeRecord.DecodeFrom ZSTD_Streaming_Supported (fragment_ l) in
  if negb (ok s) then
    (Again, ReportCorruption r (Zlen fragment) "could not decode SetCompressionType record", l)
  else (Again, InitCompression r ct, l).

Definition on_timestamp_size (physical_record_offset : Z) (r : Reader) (l : Locals) :
    Outcome * Reader * Locals :=
  let r := if in_fragmented_record l && negb (Zlen (scratch l) =? 0)
           then ReportCorruption r (Zlen (scratch l))
                  "user-defined timestamp size record interspersed partial record" else r in
  let l := set_scratch (set_prospective l physical_record_offset) [] in
  let r := set_last_record_offset r (prospective_record_offset l) in
  let '(s, sizes, fragment) := UserDefinedTimestampSizeRecord.DecodeFrom (fragment_ l) in
  if negb (ok s) then
    (Again, ReportCorruption r (Zlen fragment)
              "could not decode user-defined timestamp size record", l)
  else
    let '(s, r) := UpdateRecordedTimestampSize r sizes in
    if negb (ok s) then (Again, ReportCorruption r (Zlen fragment) (state_ s), l)
    else (Again, r, l).

(** [kBadRecordLen] (not at the end of the file) and [kBadRecordChecksum]. *)
Definition on_bad_body (mode : WALRecoveryMode) (record_type drop_size : Z)
    (r : Reader) (l : Locals) : Outcome * Reader * Locals :=
  if recycled_ r && bool_decide (mode = kTolerateCorruptedTailRecords) then
    (Return false [], r, set_scratch l [])
  else
    let r := if record_type =? kBadRecordLen
             then ReportCorruption r drop_size "bad record length"
             else ReportCorruption r drop_size "checksum mismatch" in
    let '(r, l) := drop_fragmented r l in (Again, r, l).

(** The [switch (record_type)]. *)
Definition ReadRecord_switch (mode : WALRecoveryMode) (want : bool)
    (physical_record_offset drop_size record_type : Z) (r : Reader) (l : Locals) :
    Outcome * Reader * Locals :=
  if (record_type =? kFullType) || (record_type =? kRecyclableFullType) then
    on_full want physical_record_offset r l
  else if (record_type =? kFirstType) || (record_type =? kRecyclableFirstType) then
    on_first want physical_record_offset r l
  else if (record_type =? kMiddleType) || (record_type =? kRecyclableMiddleType) then
    on_middle want r l
  else if (record_type =? kLastType) || (record_type =? kRecyclableLastType) then
    on_last want r l
  else if record_type =? kSetCompressionType then on_set_compression physical_record_offset r l
  else if (record_type =? kUserDefinedTimestampSizeType)
          || (record_type =? kRecyclableUserDefinedTimestampSizeType) then
    on_timestamp_size physical_record_offset r l
  else if record_type =? kBadHeader then
    let r := if strict_mode mode then ReportCorruption r drop_size "truncated header" else r in
    on_eof mode r l
  else if record_type =? kEof then on_eof mode r l
  else if (record_type =? kOldRecord) && negb (bool_decide (mode = kSkipAnyCorruptedRecords)) then
    on_eof mode r l
  else if (record_type =? kOldRecord) || (record_type =? kBadRecord) then
    let '(r, l) := drop_fragmented r l in (Again, r, l)
  else if (record_type =? kBadRecordLen) && eof_ r then
    let r := if strict_mode mode then ReportCorruption r drop_size "truncated record body" else r in
    (Return false [], r, l)
  else if (record_type =? kBadRecordLen) || (record_type =? kBadRecordChecksum) then
    on_bad_body mode record_type drop_size r l
  else
    (* The message names the number of the type. *)
    (Again,
     ReportCorruption r
       (Zlen (fragment_ l) + (if in_fragmented_record l then Zlen (scratch l) else 0))
       "unknown record type",
     set_scratch (set_in_fragment l false) []).

(** [while (true)]. [fuel] bounds the iterations; the physical reader is
    given the same fuel. *)
Fixpoint ReadRecord_loop (fuel : nat) (mode : WALRecoveryMode) (want : bool)
    (r : Reader) (l : Locals) : option (bool * bytes * Reader * Locals) :=
  match fuel with
  | O => None
  | S fuel =>
      let physical_record_offset := end_of_buffer_offset_ r - Zlen (buffer_ r) in
      match ReadPhysicalRecord (S fuel) r (fragment_ l) 0 want with
      | None => None
      | Some (p, r) =>
          let l := mkLocals (in_fragmented_record l) (prospective_record_offset l) (scratch l)
                     (pr_result p)
                     (match pr_checksum p with Some c => Some c | None => record_checksum l end) in
          match ReadRecord_switch mode want physical_record_offset (pr_drop_size p) (pr_type p) r l with
          | (Return ret record, r, l) => Some (ret, record, r, l)
          | (Again, r, l) => ReadRecord_loop fuel mode want r l
          end
      end
  end.

Definition ReadRecord (fuel : nat) (mode : WALRecoveryMode) (want : bool) (r : Reader) :
    option (bool * bytes * Reader * Locals) :=
  let r := if want then set_hash_state r (Some []) else r in
  let r := match uncompress_ r with
           | Some u => set_uncompress r (Some (UncompressReset u))
           | None => r
           end in
  ReadRecord_loop fuel mode want r (mkLocals false 0 [] [] None).

(** ** Resuming after the end of the file *)

(** [UnmarkEOFInternal]: the rest of a partially read block is appended to
    what is left in the buffer. *)
Definition UnmarkEOFInternal (r : Reader) : Reader :=
  let consumed_bytes := eof_offset_ r - Zlen (buffer_ r) in
  let remaining := kBlockSize - eof_offset_ r in
  let '(status, read_buffer, f) := Read (file_ r) remaining in
  let added := Zlen read_buffer in
  let r' := set_file r f (buffer_ r) (end_of_buffer_offset_ r + added) in
  if negb (ok status) then
    set_read_error (if 0 <? added then ReportDrop r' added status else r')
  else
    let r' := set_buffer r' (buffer_ r ++ read_buffer) in
    if added <? remaining then set_eof r' true (eof_offset_ r + added)
    else set_eof r' (eof_ r') 0.

Definition UnmarkEOF (r : Reader) : Reader :=
  if read_error_ r then r
  else
    let r := set_eof r false (eof_offset_ r) in
    if eof_offset_ r =? 0 then r else UnmarkEOFInternal r.
End Reader.
Arguments Reader : clear implicits.

(** ** A file in memory *)

#[export] Instance bytes_SequentialFile : SequentialFile bytes := {
  Read f n := (Status_OK, ztake n f, zdrop n f);
  unread f := f
}.
#[export] Instance bytes_SequentialFileLaws : SequentialFileLaws bytes.
Proof. split. intros f n Hn. by exists (zdrop n f). Qed.

(** No decompressor is linked in the examples. *)
#[export] Instance unit_StreamingUncompress : StreamingUncompress unit := {
  UncompressReset u := u; Uncompress u _ _ := (-1, [], u); UncompressCreate _ := tt;
  ZSTD_Streaming_Supported := false
}.
