(* ===== verification/LogRecord.v ===== *)
(** * Physical log records

    What [Writer::EmitPhysicalRecord] writes is what
    [Reader::ReadPhysicalRecord] accepts: the layout of one physical record
    and the lemmas that read it back, whole or cut short. Used by
    [LogRoundTrip.v]. *)

From S2P Require Import Prelude Status Coding Crc32c LogFormat LogWriter LogReader.
#[local] Open Scope Z_scope.

(** The bytes of a physical record: header and payload. *)
Definition phys_bytes (ln t : Z) (payload : bytes) : bytes :=
  record_header ln (Value [u8 t]) t payload ++ payload.

Definition lognum_bytes (ln t : Z) : bytes :=
  if legacy_type t then [] else EncodeFixed32 (u32 ln).
Definition header_size_of (t : Z) : Z :=
  if legacy_type t then kHeaderSize else kRecyclableHeaderSize.

Lemma Zlen_lognum ln t : Zlen (lognum_bytes ln t) = header_size_of t - kHeaderSize.
Proof. unfold lognum_bytes, header_size_of. by destruct (legacy_type t). Qed.
Lemma bytes_ok_lognum ln t : bytes_ok (lognum_bytes ln t).
Proof. unfold lognum_bytes. destruct (legacy_type t); auto with bytes. Qed.
Lemma header_size_bounds t : 7 <= header_size_of t <= 11.
Proof. unfold header_size_of. destruct (legacy_type t); by compute. Qed.
#[export] Hint Resolve bytes_ok_lognum : bytes.

(** The stored checksum covers type, log number and payload: the incremental
    computation of the writer is the checksum of their concatenation. *)
Lemma record_header_crc ln t payload : is_u 8 t → bytes_ok payload → Zlen payload < 2 ^ 64 →
  record_header ln (Value [u8 t]) t payload =
    EncodeFixed32 (Mask (Value (t :: lognum_bytes ln t ++ payload)))
    ++ [u8 (Z.land (Zlen payload) 0xff); u8 (Z.shiftr (Zlen payload) 8); t]
    ++ lognum_bytes ln t.
Proof.
  intros Ht Hp Hn. unfold record_header. change (if legacy_type t then [] else _)
    with (lognum_bytes ln t). rewrite (wrap_small 8 t) by done.
  assert (is_u 32 0) as H0 by (by compute).
  assert (bytes_ok [t]) as Hbt by (by constructor).
  assert ((if legacy_type t then Value [t] else Extend (Value [t]) (lognum_bytes ln t))
          = Value (t :: lognum_bytes ln t)) as ->.
  { unfold lognum_bytes. destruct (legacy_type t); [done|]. unfold Value.
    rewrite Extend_app by (done || auto with bytes). done. }
  assert (bytes_ok (t :: lognum_bytes ln t)).
  { apply (bytes_ok_app [t]). split; auto with bytes. }
  rewrite Combine_Extend by (done || by apply Extend_range).
  unfold Value at 1. rewrite Extend_app by done. done.
Qed.

Lemma Value_range bs : bytes_ok bs → is_u 32 (Value bs).
Proof. apply Extend_range. by compute. Qed.

Section Phys.
Context (ln t : Z) (payload : bytes).
Context (Ht : 1 <= t <= 11) (Hp : bytes_ok payload) (Hn : Zlen payload < 65536).

#[local] Lemma is_u_t : is_u 8 t.
Proof using Ht. unfold is_u. lia. Qed.

Definition record_crc : Z := Value (t :: lognum_bytes ln t ++ payload).

Lemma record_crc_range : is_u 32 record_crc.
Proof using Ht Hp.
  apply Value_range. apply (bytes_ok_app [t]). split; [constructor; [apply is_u_t|constructor]|].
  apply bytes_ok_app. auto with bytes.
Qed.

(** The record as the reader sees it. *)
Lemma phys_bytes_eq :
  phys_bytes ln t payload =
    EncodeFixed32 (Mask record_crc)
    ++ [Zlen payload mod 256; Zlen payload / 256; t] ++ lognum_bytes ln t ++ payload.
Proof using Ht Hp Hn.
  pose proof (Zlen_nonneg payload). unfold phys_bytes.
  rewrite record_header_crc by (try apply is_u_t; done || lia).
  change 0xff with (Z.ones 8). rewrite Z.land_ones, Z.shiftr_div_pow2 by lia.
  change (2 ^ 8) with 256. rewrite !wrap_small by (unfold is_u; zlia).
  rewrite <- !app_assoc. done.
Qed.

Lemma Zlen_phys_bytes : Zlen (phys_bytes ln t payload) = header_size_of t + Zlen payload.
Proof using Ht Hp Hn.
  rewrite phys_bytes_eq. zsimp. rewrite Zlen_lognum. unfold kHeaderSize. lia.
Qed.

(** Header fields, read from a buffer that starts with at least the header. *)
Lemma phys_prefix k : 7 <= k →
  ∃ tl, ztake k (phys_bytes ln t payload) =
    EncodeFixed32 (Mask record_crc) ++ [Zlen payload mod 256; Zlen payload / 256; t] ++ tl ∧
    tl = ztake (k - 7) (lognum_bytes ln t ++ payload).
Proof using Ht Hp Hn.
  intros Hk. rewrite phys_bytes_eq. eexists. split; [|reflexivity].
  set (a := EncodeFixed32 _). set (tl := lognum_bytes ln t ++ payload).
  rewrite (app_assoc a), (app_assoc a). set (h := a ++ _).
  assert (length h = 7%nat) as Hh by done.
  unfold ztake. rewrite take_app, Hh.
  rewrite (take_ge h) by lia. by replace (Z.to_nat k - 7)%nat with (Z.to_nat (k - 7)) by lia.
Qed.

Lemma char_field x : 0 <= x < 256 → Z.land (char_as_u 32 x) 0xff = x.
Proof using.
  intros. unfold char_as_u. rewrite swrap8 by done. change 0xff with (Z.ones 8).
  rewrite Z.land_ones by lia. unfold wrap. rewrite Z.mod_mod_divide by (by exists (2 ^ 24)).
  change (2 ^ 8) with 256. destruct (Z.ltb_spec x 128); zlia.
Qed.

Lemma header_fields tl :
  let header := EncodeFixed32 (Mask record_crc)
                ++ [Zlen payload mod 256; Zlen payload / 256; t] ++ tl in
  char_as_u 32 (znth header 6) = t ∧
  Z.lor (Z.land (char_as_u 32 (znth header 4)) 0xff)
        (u32 (Z.shiftl (Z.land (char_as_u 32 (znth header 5)) 0xff) 8)) = Zlen payload ∧
  Unmask (DecodeFixed32 header) = record_crc.
Proof using Ht Hp Hn.
  cbv zeta. pose proof (Zlen_nonneg payload).
  assert (∀ i l, 4 <= i → znth (EncodeFixed32 (Mask record_crc) ++ l) i = znth l (i - 4)) as E.
  { intros i l Hi. by rewrite znth_app_r by (by zsimp). }
  split_and!.
  - rewrite (E 6) by lia. cbn [app]. change (znth (_ :: _ :: ?c :: _) (6 - 4)) with c.
    apply char_low; lia.
  - rewrite (E 4), (E 5) by lia. cbn [app]. change (znth (?a :: _) (4 - 4)) with a.
    change (znth (_ :: ?b :: _) (5 - 4)) with b. rewrite !char_field by zlia.
    rewrite wrap_small.
    + rewrite Z.shiftl_mul_pow2 by lia. rewrite <- Z.add_nocarry_lor; [zlia|].
      apply Z.bits_inj'. intros i Hi. rewrite Z.land_spec, Z.bits_0.
      rewrite <- Z.shiftl_mul_pow2 by lia. destruct (Z.lt_ge_cases i 8).
      * rewrite Z.shiftl_spec_low by lia. apply andb_false_r.
      * rewrite (testbit_above 8); [done|unfold is_u; zlia|lia].
    + unfold is_u. rewrite Z.shiftl_mul_pow2 by lia. zlia.
  - rewrite DecodeFixed32_Encode by (by apply wrap_range).
    apply Unmask_Mask, record_crc_range.
Qed.
End Phys.

Lemma legacy_type_reader t : 1 <= t <= 11 →
  ((kRecyclableFullType <=? t) && (t <=? kRecyclableLastType))
    || (t =? kRecyclableUserDefinedTimestampSizeType) = negb (legacy_type t).
Proof.
  intros. unfold legacy_type, kRecyclableFullType, kRecyclableLastType, kSetCompressionType,
    kUserDefinedTimestampSizeType, kRecyclableUserDefinedTimestampSizeType.
  destruct (Z.leb_spec 5 t), (Z.leb_spec t 8), (Z.ltb_spec t 5), (Z.eqb_spec t 9),
    (Z.eqb_spec t 10), (Z.eqb_spec t 11); cbn; lia.
Qed.

Section ReadPhys.
Context {F U : Type} `{!SequentialFile F} `{!StreamingUncompress U} (XXH3_64bits : bytes → Z).
Implicit Types r : Reader F U.

(** Whether the log number stored in a record of type [t] written with log
    number [ln] is the one the reader expects. *)
Definition lognum_matches (r : Reader F U) (ln t : Z) : Prop :=
  legacy_type t = false → log_number_ r = ln ∧ is_u 32 ln.

(** A record is read back whatever follows it in the buffer. *)
Lemma ReadPhysicalRecord_phys fuel r frag drop want ln t p rest :
  1 <= t <= 11 → bytes_ok p → Zlen p < 65536 →
  buffer_ r = phys_bytes ln t p ++ rest → uncompress_ r = None → lognum_matches r ln t →
  ∃ r1, (r1 = r ∨ r1 = set_recycled r) ∧
    ReadPhysicalRecord XXH3_64bits (S fuel) r frag drop want
    = Some (mkPhys t p drop None, set_buffer r1 rest).
Proof.
  intros Ht Hp Hn Hb Hu Hln.
  pose proof (Zlen_nonneg p). pose proof (Zlen_nonneg rest). pose proof (header_size_bounds t).
  pose proof (Zlen_phys_bytes ln t p Ht Hp Hn) as Hlen.
  assert (Zlen (buffer_ r) = header_size_of t + Zlen p + Zlen rest) as Hbl by (rewrite Hb; zsimp; lia).
  cbn [ReadPhysicalRecord].
  destruct (Z.ltb_spec (Zlen (buffer_ r)) kHeaderSize) as [|_]; [unfold kHeaderSize in *; lia|].
  set (header := buffer_ r).
  assert (header = EncodeFixed32 (Mask (record_crc ln t p))
            ++ [Zlen p mod 256; Zlen p / 256; t] ++ (lognum_bytes ln t ++ p ++ rest)) as Hh.
  { unfold header. rewrite Hb, phys_bytes_eq by done. by rewrite <- !app_assoc. }
  destruct (header_fields ln t p Ht Hp Hn (lognum_bytes ln t ++ p ++ rest)) as (E6 & E45 & Ec).
  rewrite <- Hh in E6, E45, Ec. rewrite E6, E45, Ec, legacy_type_reader by done.
  set (r1 := if negb (legacy_type t) && _ then set_recycled r else r).
  assert (r1 = r ∨ r1 = set_recycled r) as Hr1 by (unfold r1; case_match; auto).
  assert (buffer_ r1 = header ∧ log_number_ r1 = log_number_ r ∧ checksum_ r1 = checksum_ r)
    as (Eb1 & El1 & Ek1) by (by destruct Hr1 as [->| ->]).
  assert (uncompress_ (set_buffer r1 rest) = None) as Eu1 by (by destruct Hr1 as [->| ->]).
  exists r1. split; [done|]. clearbody r1. rewrite Eb1, El1, Ek1.
  assert ((if negb (legacy_type t) then kRecyclableHeaderSize else kHeaderSize)
          = header_size_of t) as -> by (unfold header_size_of; by destruct (legacy_type t)).
  fold header in Hbl. rewrite Hbl.
  assert (negb (legacy_type t) && (header_size_of t + Zlen p + Zlen rest <? kRecyclableHeaderSize)
          = false) as ->.
  { unfold header_size_of. destruct (legacy_type t); cbn; [done|]. apply Z.ltb_ge. lia. }
  assert (zdrop 7 header = lognum_bytes ln t ++ p ++ rest) as E7.
  { rewrite Hh, app_assoc. apply zdrop_app. done. }
  assert (negb (legacy_type t) && negb (DecodeFixed32 (zdrop 7 header) =? log_number_ r) = false) as ->.
  { rewrite E7. unfold lognum_bytes. destruct (legacy_type t) eqn:El; cbn [negb andb]; [done|].
    destruct (Hln El) as [-> Hu32]. rewrite (wrap_small 32 ln) by done.
    rewrite DecodeFixed32_Encode by done. by rewrite Z.eqb_refl. }
  destruct (Z.ltb_spec (header_size_of t + Zlen p + Zlen rest) (header_size_of t + Zlen p)); [lia|].
  assert ((t =? kZeroType) = false) as -> by (apply Z.eqb_neq; unfold kZeroType; lia).
  cbn [andb].
  assert (ztake (Zlen p + header_size_of t - 6) (zdrop 6 header) = t :: lognum_bytes ln t ++ p) as ->.
  { assert (zdrop 6 header = (t :: lognum_bytes ln t ++ p) ++ rest) as ->.
    { rewrite Hh. transitivity (zdrop 6 ((EncodeFixed32 (Mask (record_crc ln t p))
        ++ [Zlen p mod 256; Zlen p / 256]) ++ (t :: lognum_bytes ln t ++ p) ++ rest)).
      - f_equal. rewrite <- !app_assoc. cbn [app]. by rewrite <- app_assoc.
      - by apply zdrop_app. }
    apply ztake_app. zsimp. rewrite Zlen_lognum. unfold kHeaderSize. lia. }
  fold (record_crc ln t p). rewrite Z.eqb_refl, andb_false_r.
  assert (zdrop (header_size_of t) header = p ++ rest) as ->.
  { rewrite Hh, app_assoc, app_assoc. apply zdrop_app. zsimp. rewrite Zlen_lognum.
    unfold kHeaderSize. lia. }
  assert (zdrop (header_size_of t + Zlen p) header = rest) as ->.
  { unfold header. rewrite Hb. by apply zdrop_app. }
  rewrite Eu1, ztake_app by done. done.
Qed.

(** [ReadMore] at the end of the file. *)
Lemma ReadMore_eof r : eof_ r = true →
  ReadMore r = inl (if Zlen (buffer_ r) =? 0 then (kEof, None, set_buffer r [])
                    else (kBadHeader, Some (Zlen (buffer_ r)), set_buffer r [])).
Proof. intros He. unfold ReadMore. rewrite He. cbn. by destruct (Zlen (buffer_ r) =? 0). Qed.

(** A record cut short by the end of the file is never returned. *)
Lemma ReadPhysicalRecord_cut fuel r frag drop want ln t p k :
  1 <= t <= 11 → bytes_ok p → Zlen p < 65536 →
  buffer_ r = ztake k (phys_bytes ln t p) → 0 <= k < header_size_of t + Zlen p →
  eof_ r = true → lognum_matches r ln t →
  ∃ ty d r1, (r1 = r ∨ r1 = set_recycled r) ∧ (ty = kEof ∨ ty = kBadHeader ∨ ty = kBadRecordLen) ∧
    ReadPhysicalRecord XXH3_64bits (S fuel) r frag drop want
    = Some (mkPhys ty frag d None, set_buffer r1 []).
Proof.
  intros Ht Hp Hn Hb Hk He Hln.
  pose proof (Zlen_nonneg p). pose proof (header_size_bounds t).
  pose proof (Zlen_phys_bytes ln t p Ht Hp Hn) as Hlen.
  assert (Zlen (buffer_ r) = k) as Hbl by (rewrite Hb, Zlen_ztake; lia).
  cbn [ReadPhysicalRecord].
  destruct (Z.ltb_spec (Zlen (buffer_ r)) kHeaderSize) as [|Hk7].
  { rewrite ReadMore_eof by done. destruct (Z.eqb_spec (Zlen (buffer_ r)) 0); eauto 10. }
  unfold kHeaderSize in Hk7. set (header := buffer_ r).
  destruct (phys_prefix ln t p Ht Hp Hn k) as (tl & Hh & Htl); [lia|]. rewrite <- Hb in Hh.
  fold header in Hh.
  destruct (header_fields ln t p Ht Hp Hn tl) as (E6 & E45 & Ec).
  rewrite <- Hh in E6, E45, Ec. rewrite E6, E45, legacy_type_reader by done.
  set (r1 := if negb (legacy_type t) && _ then set_recycled r else r).
  assert (r1 = r ∨ r1 = set_recycled r) as Hr1 by (unfold r1; case_match; auto).
  assert (buffer_ r1 = header ∧ log_number_ r1 = log_number_ r ∧ eof_ r1 = true)
    as (Eb1 & El1 & Ek1) by (by destruct Hr1 as [->| ->]).
  clearbody r1. rewrite Eb1, El1.
  assert ((if negb (legacy_type t) then kRecyclableHeaderSize else kHeaderSize)
          = header_size_of t) as -> by (unfold header_size_of; by destruct (legacy_type t)).
  destruct (Z.ltb_spec (Zlen header) kRecyclableHeaderSize) as [Hs|Hs].
  - destruct (legacy_type t) eqn:El; cbn [negb andb].
    + fold header in Hbl. rewrite Hbl. destruct (Z.ltb_spec k (header_size_of t + Zlen p)); [|lia].
      eauto 10.
    + rewrite ReadMore_eof by done. rewrite Eb1. fold header in Hbl.
      destruct (Z.eqb_spec (Zlen header) 0); eauto 10.
  - rewrite andb_false_r. fold header in Hbl. unfold kRecyclableHeaderSize in Hs.
    assert (negb (legacy_type t) && negb (DecodeFixed32 (zdrop 7 header) =? log_number_ r) = false) as ->.
    { destruct (legacy_type t) eqn:El; cbn [negb andb]; [done|].
      destruct (Hln El) as [-> Hu32]. apply negb_false_iff, Z.eqb_eq.
      assert (zdrop 7 header = tl) as -> by (rewrite Hh, app_assoc; by apply zdrop_app).
      rewrite Htl. unfold lognum_bytes. rewrite El, (wrap_small 32 ln) by done.
      unfold ztake. rewrite take_app, take_ge by (cbn; lia).
      by apply DecodeFixed32_Encode. }
    rewrite Hbl. destruct (Z.ltb_spec k (header_size_of t + Zlen p)); [|lia]. eauto 10.
Qed.

(** The zero trailer of a block of a recyclable log reads as a bad record. *)
Lemma ReadPhysicalRecord_zeros fuel r frag drop want k :
  7 <= k → buffer_ r = replicate (Z.to_nat k) 0 →
  ReadPhysicalRecord XXH3_64bits (S fuel) r frag drop want
  = Some (mkPhys kBadRecord frag drop None, set_buffer r []).
Proof.
  intros Hk Hb. assert (Zlen (buffer_ r) = k) as Hbl by (rewrite Hb; zsimp; lia).
  cbn [ReadPhysicalRecord]. rewrite Hbl.
  destruct (Z.ltb_spec k kHeaderSize); [unfold kHeaderSize in *; lia|].
  assert (∀ i, znth (buffer_ r) i = 0) as E.
  { intros i. rewrite Hb. apply znth_zeros. }
  rewrite !E. change (char_as_u 32 0) with 0.
  change (Z.lor (Z.land 0 255) (u32 (Z.shiftl (Z.land 0 255) 8))) with 0.
  change (((kRecyclableFullType <=? 0) && (0 <=? kRecyclableLastType))
          || (0 =? kRecyclableUserDefinedTimestampSizeType)) with false. cbn [andb].
  rewrite Hbl. destruct (Z.ltb_spec k (kHeaderSize + 0)); [unfold kHeaderSize in *; lia|]. done.
Qed.

(** A record of the recyclable format whose log number is not the one of the
    reader is left in the buffer. *)
Lemma ReadPhysicalRecord_old fuel r frag drop want ln t p rest :
  1 <= t <= 11 → legacy_type t = false → bytes_ok p → Zlen p < 65536 →
  buffer_ r = phys_bytes ln t p ++ rest → u32 ln ≠ log_number_ r →
  ∃ r1, (r1 = r ∨ r1 = set_recycled r) ∧
    ReadPhysicalRecord XXH3_64bits (S fuel) r frag drop want
    = Some (mkPhys kOldRecord frag drop None, r1).
Proof.
  intros Ht Hleg Hp Hn Hb Hln.
  pose proof (Zlen_nonneg p). pose proof (Zlen_nonneg rest).
  pose proof (Zlen_phys_bytes ln t p Ht Hp Hn) as Hlen.
  assert (header_size_of t = 11) as Eh by (unfold header_size_of; by rewrite Hleg).
  assert (Zlen (buffer_ r) = 11 + Zlen p + Zlen rest) as Hbl by (rewrite Hb; zsimp; lia).
  cbn [ReadPhysicalRecord].
  destruct (Z.ltb_spec (Zlen (buffer_ r)) kHeaderSize) as [|_]; [unfold kHeaderSize in *; lia|].
  set (header := buffer_ r).
  assert (header = EncodeFixed32 (Mask (record_crc ln t p))
            ++ [Zlen p mod 256; Zlen p / 256; t] ++ (lognum_bytes ln t ++ p ++ rest)) as Hh.
  { unfold header. rewrite Hb, phys_bytes_eq by done. by rewrite <- !app_assoc. }
  destruct (header_fields ln t p Ht Hp Hn (lognum_bytes ln t ++ p ++ rest)) as (E6 & _ & _).
  rewrite <- Hh in E6. rewrite E6, legacy_type_reader, Hleg by done. cbn [negb andb].
  set (r1 := if end_of_buffer_offset_ r - _ =? 0 then set_recycled r else r).
  assert (r1 = r ∨ r1 = set_recycled r) as Hr1 by (unfold r1; case_match; auto).
  assert (buffer_ r1 = header ∧ log_number_ r1 = log_number_ r) as (Eb1 & El1)
    by (by destruct Hr1 as [->| ->]).
  exists r1. split; [done|]. clearbody r1. rewrite Eb1, El1. fold header in Hbl. rewrite Hbl.
  destruct (Z.ltb_spec (11 + Zlen p + Zlen rest) kRecyclableHeaderSize);
    [unfold kRecyclableHeaderSize in *; lia|].
  assert (zdrop 7 header = EncodeFixed32 (u32 ln) ++ p ++ rest) as ->.
  { rewrite Hh, app_assoc. unfold lognum_bytes. rewrite Hleg. by apply zdrop_app. }
  rewrite DecodeFixed32_Encode by (by apply wrap_range).
  by destruct (Z.eqb_spec (u32 ln) (log_number_ r)).
Qed.
End ReadPhys.
