(* ===== verification/LogRoundTrip.v ===== *)
(** * The log round trip

    Relates [log::Writer] ([LogWriter.v]) and [log::Reader] ([LogReader.v]).
    [layout] describes, independently of both, how a logical record is split
    into physical records over the blocks of a file; the writer is proved to
    produce a layout and the reader to read one back, whole or cut anywhere. *)

From S2P Require Import Prelude Status Coding Crc32c LogFormat LogWriter LogReader LogRecord.
From stdpp Require Import gmap.
#[local] Open Scope Z_scope.

Ltac consts := unfold kBlockSize, kHeaderSize, kRecyclableHeaderSize in *.

(** ** The layout of a logical record *)

Definition hsize (recycle : bool) : Z := if recycle then kRecyclableHeaderSize else kHeaderSize.

(** Zero trailer and new offset of a block in which [off] bytes are used. *)
Definition pad_of (recycle : bool) (off : Z) : Z * Z :=
  if kBlockSize - off <? hsize recycle then (kBlockSize - off, 0) else (0, off).

(** A physical record with the trailer that precedes it. *)
Record frag := mkFrag { fr_pad : Z; fr_type : Z; fr_data : bytes }.

Definition frag_bytes (ln : Z) (f : frag) : bytes :=
  replicate (Z.to_nat (fr_pad f)) 0 ++ phys_bytes ln (fr_type f) (fr_data f).
Definition frags_bytes (ln : Z) (fs : list frag) : bytes := concat (map (frag_bytes ln) fs).

(** [layout recycle off begin d fs off']: from offset [off] of a block, the data
    [d] (the whole record if [begin], what is left of it otherwise) is stored
    as the physical records [fs], ending at offset [off']. *)
Inductive layout (recycle : bool) : Z → bool → bytes → list frag → Z → Prop :=
  | layout_end off begin d pad off0 :
      pad_of recycle off = (pad, off0) →
      off0 + hsize recycle + Zlen d <= kBlockSize →
      layout recycle off begin d [mkFrag pad (fragment_type recycle begin true) d]
        (off0 + hsize recycle + Zlen d)
  | layout_split off begin a b pad off0 fs off' :
      pad_of recycle off = (pad, off0) →
      off0 + hsize recycle + Zlen a = kBlockSize → b ≠ [] →
      layout recycle kBlockSize false b fs off' →
      layout recycle off begin (a ++ b) (mkFrag pad (fragment_type recycle begin false) a :: fs) off'.

Lemma hsize_range recycle : 7 <= hsize recycle <= 11.
Proof. destruct recycle; by compute. Qed.

Lemma pad_of_spec recycle off pad off0 : 0 <= off <= kBlockSize → pad_of recycle off = (pad, off0) →
  0 <= off0 ∧ off0 + hsize recycle <= kBlockSize ∧ 0 <= pad < hsize recycle ∧
  (pad = 0 ∧ off0 = off ∨ off + pad = kBlockSize ∧ off0 = 0).
Proof.
  intros Ho. unfold pad_of. pose proof (hsize_range recycle).
  destruct (Z.ltb_spec (kBlockSize - off) (hsize recycle)); intros; simplify_eq; consts; lia.
Qed.

Lemma fragment_type_range recycle b e :
  1 <= fragment_type recycle b e <= 11 ∧ legacy_type (fragment_type recycle b e) = negb recycle.
Proof. destruct recycle, b, e; by compute. Qed.

Lemma header_size_fragment recycle b e : header_size_of (fragment_type recycle b e) = hsize recycle.
Proof. unfold header_size_of. rewrite (proj2 (fragment_type_range _ _ _)). by destruct recycle. Qed.

(** ** The writer produces layouts *)

Section WriterLayout.
Context {F C : Type} `{!WritableFile F} `{!WritableFileLaws F} `{!StreamingCompress C}.
Implicit Types w : Writer F C.

(** The invariant of a writer without compression. *)
Record writer_ok (w : Writer F C) : Prop := {
  wo_crc : ∀ t, 0 <= t <= kMaxRecordType → znth (type_crc_ w) t = Value [u8 t];
  wo_offset : 0 <= block_offset_ w <= kBlockSize;
  wo_compress : compress_ w = None;
  wo_dest : has_dest_ w = true
}.

Definition same_config w w' : Prop :=
  LogWriter.log_number_ w' = LogWriter.log_number_ w ∧ recycle_log_files_ w' = recycle_log_files_ w ∧
  manual_flush_ w' = manual_flush_ w.

Lemma NewWriter_ok f ln recycle mf ct : writer_ok (NewWriter f ln recycle mf ct).
Proof.
  split; cbn; try done.
  intros t Ht. change (seqZ 0 (kMaxRecordType + 1)) with [0;1;2;3;4;5;6;7;8;9;10;11].
  unfold kMaxRecordType, kRecyclableUserDefinedTimestampSizeType in Ht.
  assert (t = 0 ∨ t = 1 ∨ t = 2 ∨ t = 3 ∨ t = 4 ∨ t = 5 ∨ t = 6 ∨ t = 7 ∨ t = 8 ∨ t = 9 ∨ t = 10
          ∨ t = 11) as Hc by lia.
  destruct_or! Hc; subst t; reflexivity.
Qed.

(** One physical record, whether or not it fits in the block. *)
Lemma EmitPhysicalRecord_any w t p s w' : writer_ok w → 1 <= t <= 11 →
  EmitPhysicalRecord w t p = (s, w') →
  writer_ok (set_block_offset w' 0) ∧ same_config w w' ∧
  block_offset_ w' = block_offset_ w + header_size_of t + Zlen p ∧
  (ok s = true → contents (dest_ w') = contents (dest_ w) ++ phys_bytes (LogWriter.log_number_ w) t p).
Proof.
  intros Hw Ht HE. unfold EmitPhysicalRecord in HE.
  rewrite (wo_crc _ Hw) in HE by (unfold kMaxRecordType, kRecyclableUserDefinedTimestampSizeType; lia).
  destruct (Append (dest_ w) _ 0) as [s1 f1] eqn:E1.
  destruct (if ok s1 then _ else _) as [s2 f2] eqn:E2. simplify_eq. unfold same_config. cbn.
  fold (header_size_of t). split_and!; try done; [by destruct Hw|lia|].
  intros Hs. destruct (ok s1) eqn:Es1; simplify_eq; [|congruence].
  apply Append_ok in E1; [|done]. apply Append_ok in E2; [|done].
  rewrite E2, E1. unfold phys_bytes. by rewrite <- app_assoc.
Qed.

(** One physical record that fits. *)
Lemma EmitPhysicalRecord_spec w t p s w' : writer_ok w → 1 <= t <= 11 →
  block_offset_ w + header_size_of t + Zlen p <= kBlockSize →
  EmitPhysicalRecord w t p = (s, w') → 
  writer_ok w' ∧ same_config w w' ∧ block_offset_ w' = block_offset_ w + header_size_of t + Zlen p ∧
  (ok s = true → contents (dest_ w') = contents (dest_ w) ++ phys_bytes (LogWriter.log_number_ w) t p).
Proof.
  intros Hw Ht Hfit HE. destruct (EmitPhysicalRecord_any _ _ _ _ _ Hw Ht HE) as ([] & Hc & Eo & Hout).
  split; [|done]. pose proof (wo_offset _ Hw). pose proof (header_size_bounds t).
  pose proof (Zlen_nonneg p). split; try done. lia.
Qed.

Lemma switch_block_spec w w' : writer_ok w →
  switch_block w (hsize (recycle_log_files_ w)) = inr w' →
  ∃ pad, pad_of (recycle_log_files_ w) (block_offset_ w) = (pad, block_offset_ w') ∧
    writer_ok w' ∧ same_config w w' ∧
    contents (dest_ w') = contents (dest_ w) ++ replicate (Z.to_nat pad) 0.
Proof.
  intros Hw. pose proof (wo_offset _ Hw). unfold switch_block, pad_of.
  pose proof (hsize_range (recycle_log_files_ w)).
  destruct (Z.ltb_spec (kBlockSize - block_offset_ w) (hsize (recycle_log_files_ w))); intros HE.
  - destruct (Z.ltb_spec 0 (kBlockSize - block_offset_ w)).
    + destruct (Append _ _ _) as [s f] eqn:E1. destruct (ok s) eqn:Es; simplify_eq.
      apply Append_ok in E1; [|done]. eexists. split; [done|].
      split; [destruct Hw; by split|]. split; [done|]. cbn. rewrite E1. f_equal.
      unfold ztake. rewrite take_replicate. f_equal. consts. lia.
    + simplify_eq. eexists. split; [done|]. split; [destruct Hw; by split|]. split; [done|].
      replace (kBlockSize - block_offset_ w) with 0 by lia. cbn. by rewrite app_nil_r.
  - simplify_eq. eexists. split; [done|]. cbn. by rewrite app_nil_r.
Qed.

Lemma same_config_trans w1 w2 w3 : same_config w1 w2 → same_config w2 w3 → same_config w1 w3.
Proof. unfold same_config. intros (?&?&?) (?&?&?). split_and!; congruence. Qed.

(** The loop of [AddRecord] without compression. *)
Lemma AddRecord_loop_layout fuel w slice ptr begin s w' : writer_ok w →
  AddRecord_loop fuel w slice ptr begin 0 false = Some (s, w') → ok s = true →
  writer_ok w' ∧ same_config w w' ∧ ∃ fs,
    layout (recycle_log_files_ w) (block_offset_ w) begin ptr fs (block_offset_ w') ∧
    contents (dest_ w') = contents (dest_ w) ++ frags_bytes (LogWriter.log_number_ w) fs.
Proof.
  revert w ptr begin. induction fuel as [|fuel IH]; [done|]. intros w ptr begin Hw HE Hs.
  cbn [AddRecord_loop] in HE. fold (hsize (recycle_log_files_ w)) in HE.
  destruct (switch_block w _) as [[s1 w1]|w1] eqn:E1; [|].
  { simplify_eq. exfalso. unfold switch_block in E1. repeat case_match; simplify_eq; congruence. }
  destruct (switch_block_spec w w1 Hw E1) as (pad & Hpad & Hw1 & Hc1 & Ed1).
  destruct Hc1 as (El1 & Er1 & Em1).
  pose proof (pad_of_spec _ _ _ _ (wo_offset _ Hw) Hpad) as (Ho1 & Ho2 & Hp & _).
  unfold maybe_compress in HE. rewrite (wo_compress _ Hw1), Er1 in HE.
  set (avail := kBlockSize - block_offset_ w1 - hsize (recycle_log_files_ w)) in *.
  pose proof (Zlen_nonneg ptr).
  set (n := if Zlen ptr <? avail then Zlen ptr else avail) in *.
  assert (n = Z.min (Zlen ptr) avail) as Hn by (unfold n; destruct (Z.ltb_spec (Zlen ptr) avail); lia).
  clearbody n. rewrite andb_true_r, orb_false_r in HE.
  destruct (EmitPhysicalRecord w1 _ _) as [s2 w2] eqn:E2.
  destruct (fragment_type_range (recycle_log_files_ w) begin (Zlen ptr =? n)) as [Ht _].
  pose proof (header_size_fragment (recycle_log_files_ w) begin (Zlen ptr =? n)) as Eh.
  assert (Zlen (ztake n ptr) = n) as Hlen by (apply Zlen_ztake; lia).
  apply EmitPhysicalRecord_spec in E2 as (Hw2 & Hc2 & Eo2 & Ed2);
    [|done|done|rewrite Eh, Hlen; unfold avail in *; lia].
  rewrite Eh, Hlen in Eo2.
  destruct (Z.eqb_spec (Zlen ptr) n) as [En|En].
  - replace (0 <? Zlen ptr - n) with false in HE by (symmetry; apply Z.ltb_ge; lia).
    rewrite andb_false_r in HE. simplify_eq. rewrite ztake_all in Ed2 by lia.
    split; [done|]. split; [by eapply same_config_trans|].
    eexists. split; [rewrite Eo2, <- En; apply layout_end; [done|unfold avail in *; lia]|].
    rewrite (Ed2 Hs), Ed1, El1. cbn. unfold frag_bytes. cbn. by rewrite app_nil_r, app_assoc.
  - replace (0 <? Zlen ptr - n) with true in HE by (symmetry; apply Z.ltb_lt; lia).
    rewrite andb_true_r in HE. destruct (ok s2) eqn:Es2; [|simplify_eq; congruence].
    destruct (IH _ _ _ Hw2 HE Hs) as (Hw' & Hc' & fs & Hl & Ed').
    destruct Hc2 as (El2 & Er2 & Em2).
    split; [done|]. split; [by apply (same_config_trans _ w1), (same_config_trans _ w2)|].
    exists (mkFrag pad (fragment_type (recycle_log_files_ w) begin false) (ztake n ptr) :: fs).
    split.
    + rewrite <- (ztake_zdrop n ptr) at 1. eapply layout_split; [done|unfold avail in *; lia| |].
      * intros Hnil. apply (f_equal Zlen) in Hnil. rewrite Zlen_zdrop in Hnil by lia.
        rewrite Zlen_nil in Hnil. lia.
      * rewrite Er2, Er1 in Hl. replace (block_offset_ w2) with kBlockSize in Hl; [done|].
        unfold avail in *. lia.
    + rewrite Ed', Ed2, Ed1, El2, El1 by done. unfold frags_bytes. cbn. unfold frag_bytes at 2.
      cbn. by rewrite <- !app_assoc.
Qed.

(** Only the first physical record can be empty without being the last: the
    loop makes at most [length ptr + 2] iterations, whatever the file does. *)
Lemma AddRecord_loop_total fuel w slice ptr begin : writer_ok w →
  (length ptr + (if (block_offset_ w =? kBlockSize)%Z then 0 else 1) < fuel)%nat →
  is_Some (AddRecord_loop fuel w slice ptr begin 0 false).
Proof.
  revert w ptr begin. induction fuel as [|fuel IH]; [lia|]. intros w ptr begin Hw Hf.
  cbn [AddRecord_loop]. fold (hsize (recycle_log_files_ w)).
  destruct (switch_block w _) as [?|w1] eqn:E1; [done|].
  destruct (switch_block_spec w w1 Hw E1) as (pad & Hpad & Hw1 & (El1 & Er1 & Em1) & _).
  pose proof (pad_of_spec _ _ _ _ (wo_offset _ Hw) Hpad) as (Ho1 & Ho2 & Hp & Hcase).
  unfold maybe_compress. rewrite (wo_compress _ Hw1), Er1.
  set (avail := kBlockSize - block_offset_ w1 - hsize (recycle_log_files_ w)) in *.
  pose proof (Zlen_nonneg ptr).
  set (n := if Zlen ptr <? avail then Zlen ptr else avail) in *.
  assert (n = Z.min (Zlen ptr) avail) as Hn by (unfold n; destruct (Z.ltb_spec (Zlen ptr) avail); lia).
  clearbody n. rewrite andb_true_r, orb_false_r.
  destruct (EmitPhysicalRecord w1 _ _) as [s2 w2] eqn:E2.
  destruct (fragment_type_range (recycle_log_files_ w) begin (Zlen ptr =? n)) as [Ht _].
  pose proof (header_size_fragment (recycle_log_files_ w) begin (Zlen ptr =? n)) as Eh.
  assert (Zlen (ztake n ptr) = n) as Hlen by (apply Zlen_ztake; lia).
  apply EmitPhysicalRecord_spec in E2 as (Hw2 & Hc2 & Eo2 & _);
    [|done|done|rewrite Eh, Hlen; unfold avail in *; lia].
  rewrite Eh, Hlen in Eo2.
  destruct (Z.ltb_spec 0 (Zlen ptr - n)); rewrite ?andb_false_r, ?andb_true_r; [|done].
  destruct (ok s2); [|done]. apply IH; [done|]. unfold zdrop. rewrite length_drop.
  assert (block_offset_ w2 = kBlockSize) as -> by (unfold avail in *; lia).
  rewrite Z.eqb_refl. unfold Zlen in *. pose proof (hsize_range (recycle_log_files_ w)).
  destruct (Z.eqb_spec (block_offset_ w) kBlockSize); [|lia].
  assert (block_offset_ w1 = 0) by (consts; lia). unfold avail in *; consts; lia.
Qed.

Lemma AddRecord_total fuel w slice : writer_ok w → (length slice + 2 <= fuel)%nat →
  is_Some (AddRecord fuel w slice).
Proof.
  intros Hw Hf. unfold AddRecord. rewrite (wo_compress _ Hw).
  destruct (AddRecord_loop_total fuel w slice slice true Hw) as [[s w'] ->]; [case_match; lia|].
  destruct (ok s && _); [|done]. by destruct (Flush _).
Qed.

Lemma AddRecord_layout fuel w slice s w' : writer_ok w →
  AddRecord fuel w slice = Some (s, w') → ok s = true →
  writer_ok w' ∧ same_config w w' ∧ ∃ fs,
    layout (recycle_log_files_ w) (block_offset_ w) true slice fs (block_offset_ w') ∧
    contents (dest_ w') = contents (dest_ w) ++ frags_bytes (LogWriter.log_number_ w) fs.
Proof.
  intros Hw HE Hs. unfold AddRecord in HE. rewrite (wo_compress _ Hw) in HE.
  destruct (AddRecord_loop _ _ _ _ _ _ _) as [[s1 w1]|] eqn:E1; [|done].
  destruct (ok s1) eqn:Es1; [|cbn [andb] in HE; simplify_eq; congruence].
  destruct (AddRecord_loop_layout _ _ _ _ _ _ _ Hw E1 Es1) as (Hw1 & Hc1 & fs & Hl & Ed).
  destruct (true && negb (manual_flush_ w1)); [|simplify_eq; eauto 10].
  destruct (Flush (dest_ w1)) as [s2 f2] eqn:E2. apply Flush_contents in E2. simplify_eq.
  split; [destruct Hw1; by split|]. split; [done|]. exists fs. cbn. by rewrite E2.
Qed.
End WriterLayout.

(** ** The reader reads layouts *)

#[local] Opaque ztake zdrop Zlen.

Section ReaderLayout.
Context {F U : Type} `{!SequentialFile F} `{!SequentialFileLaws F} `{!StreamingUncompress U}.
Context (XXH3_64bits : bytes → Z) (ln : Z) (recycle : bool).
Context (Hln : recycle = true → is_u 32 ln).
Implicit Types r : Reader F U.

(** The reader of a file [content] has consumed its first [pos] bytes: the
    buffer holds the rest of the block that starts at [base]. *)
Record at_pos (r : Reader F U) (content : bytes) (pos : Z) : Prop := {
  ap_data : buffer_ r ++ unread (file_ r) = zdrop pos content;
  ap_end : end_of_buffer_offset_ r = pos + Zlen (buffer_ r);
  ap_pos : 0 <= pos <= Zlen content;
  ap_block : ∃ base, base mod kBlockSize = 0 ∧ base <= pos ∧
    pos + Zlen (buffer_ r) <= base + kBlockSize ∧
    (eof_ r = false → pos + Zlen (buffer_ r) = base + kBlockSize);
  ap_eof : eof_ r = true → unread (file_ r) = [];
  ap_err : read_error_ r = false;
  ap_plain : uncompress_ r = None;
  ap_number : log_number_ r = ln
}.

(** What reading never touches on the good paths. *)
Definition frame (r r' : Reader F U) : Prop :=
  reporter_ r' = reporter_ r ∧ hash_state_ r' = hash_state_ r ∧
  recorded_cf_to_ts_sz_ r' = recorded_cf_to_ts_sz_ r ∧ checksum_ r' = checksum_ r.

Lemma frame_trans r1 r2 r3 : frame r1 r2 → frame r2 r3 → frame r1 r3.
Proof. unfold frame. intros (?&?&?&?) (?&?&?&?). split_and!; congruence. Qed.

Lemma at_pos_new f reporter checksum : at_pos (NewReader f reporter checksum ln) (unread f) 0.
Proof.
  split; try done; cbn; [pose proof (Zlen_nonneg (unread f)); lia|].
  exists (- kBlockSize). by split_and!.
Qed.

Lemma at_pos_buffer_len r content pos : at_pos r content pos →
  Zlen (buffer_ r) + Zlen (unread (file_ r)) = Zlen content - pos.
Proof.
  intros H. pose proof (ap_data _ _ _ H) as E. apply (f_equal Zlen) in E.
  rewrite Zlen_app, Zlen_zdrop in E by apply (ap_pos _ _ _ H). done.
Qed.

(** Consuming the first [n] bytes of the buffer. *)
Lemma at_pos_consume r r1 content pos n rest : at_pos r content pos → (r1 = r ∨ r1 = set_recycled r) →
  0 <= n → Zlen (buffer_ r) = n + Zlen rest → zdrop n (buffer_ r) = rest →
  at_pos (set_buffer r1 rest) content (pos + n) ∧ frame r (set_buffer r1 rest).
Proof.
  intros H Hr1 Hn Hlen Hrest. pose proof (Zlen_nonneg rest).
  pose proof (at_pos_buffer_len _ _ _ H) as HL. destruct H as [Hd He Hp Hbl Heof Herr Hpl Hnum].
  pose proof (Zlen_nonneg (unread (file_ r))).
  split; [|by destruct Hr1 as [->| ->]].
  assert (rest ++ unread (file_ r) = zdrop (pos + n) content) as Hd'.
  { rewrite <- zdrop_zdrop, <- Hd by lia. rewrite <- (ztake_zdrop n (buffer_ r)), <- app_assoc, Hrest.
    symmetry. apply zdrop_app. symmetry. apply Zlen_ztake. lia. }
  destruct Hbl as (base & ? & ? & ? & Hb).
  destruct Hr1 as [->| ->]; split; cbn; try done; try lia; exists base; split_and!; try lia;
    intros E; specialize (Hb E); lia.
Qed.

(** Refilling an exhausted buffer. *)
Lemma ReadMore_next r content pos b : at_pos r content pos → eof_ r = false → Zlen (buffer_ r) = b →
  ∃ r', ReadMore r = inr r' ∧ at_pos r' content (pos + b) ∧ frame r r' ∧ (pos + b) mod kBlockSize = 0 ∧
    (eof_ r' = false → Zlen (buffer_ r') = kBlockSize).
Proof.
  intros H He Hb. pose proof (at_pos_buffer_len _ _ _ H) as HL.
  destruct H as [Hd Heo Hp Hbl Heof Herr Hpl Hnum].
  destruct Hbl as (base & Hmod & ? & ? & Hfull). specialize (Hfull He).
  pose proof (Zlen_nonneg (buffer_ r)). pose proof (Zlen_nonneg (unread (file_ r))).
  unfold ReadMore. rewrite He, Herr. cbn [negb andb].
  destruct (Read_ok (file_ r) kBlockSize) as (f' & -> & Hun); [by compute|]. cbn [ok negb].
  assert (unread (file_ r) = zdrop (pos + b) content) as Hu.
  { rewrite <- zdrop_zdrop, <- Hd by lia. symmetry. apply zdrop_app. lia. }
  set (blk := ztake kBlockSize (unread (file_ r))).
  assert (Zlen blk = Z.min kBlockSize (Zlen (unread (file_ r)))) as Hblk.
  { unfold blk. apply Zlen_ztake_min. by compute. }
  assert (blk ++ unread f' = zdrop (pos + b) content) as Hd'.
  { rewrite Hun, <- Hu. apply ztake_zdrop. }
  assert ((pos + b) mod kBlockSize = 0) as Hm.
  { replace (pos + b) with (base + 1 * kBlockSize) by lia. rewrite Z.mod_add; [done|by compute]. }
  assert (∃ base0, base0 mod kBlockSize = 0 ∧ base0 <= pos + b ∧ pos + b + Zlen blk <= base0 + kBlockSize
    ∧ base0 = pos + b) as (base0 & ? & ? & ? & ?) by (exists (pos + b); split_and!; lia).
  change (negb (ok Status_OK)) with false. cbn match.
  destruct (Z.ltb_spec (Zlen blk) kBlockSize) as [Hlt|Hge]; eexists; (split; [done|]); split_and!; try done.
  - split; cbn; try done; try lia; [by exists base0; split_and!|]. intros _. rewrite Hun.
    apply zdrop_all. lia.
  - split; cbn; try done; try lia; [|congruence]. exists base0. split_and!; try lia.
  - cbn. intros _. lia.
Qed.

(** Where the buffer ends, in terms of the position alone. *)
Lemma at_pos_fits r content pos n : at_pos r content pos → 
  Zlen (buffer_ r) ≠ 0 → pos mod kBlockSize + n <= kBlockSize → pos + n <= Zlen content →
  n <= Zlen (buffer_ r).
Proof.
  intros H Hne Hfit Hc. pose proof (at_pos_buffer_len _ _ _ H) as HL.
  destruct (ap_block _ _ _ H) as (base & Hm & Hlo & Hhi & Hfull).
  destruct (eof_ r) eqn:He.
  - rewrite (ap_eof _ _ _ H He), Zlen_nil in HL. lia.
  - specialize (Hfull eq_refl). pose proof (Zlen_nonneg (buffer_ r)).
    enough (pos mod kBlockSize = pos - base) by lia.
    replace pos with ((pos - base) + base / kBlockSize * kBlockSize) at 1.
    + rewrite Z.mod_add, Z.mod_small; [done| |by compute]. lia.
    + rewrite Z.mul_comm. pose proof (Z_div_exact_full_2 base kBlockSize). consts. lia.
Qed.

Lemma buffer_prefix r content pos n tl : at_pos r content pos →
  n <= Zlen (buffer_ r) → zdrop pos content = tl → ztake n (buffer_ r) = ztake n tl.
Proof.
  intros H Hn <-. rewrite <- (ap_data _ _ _ H).
Transparent ztake Zlen. unfold ztake, Zlen in *. rewrite take_app_le by lia. done.
Qed.
#[local] Opaque ztake Zlen.

(** A buffer that starts with the bytes at [pos]. *)
Lemma buffer_starts r content pos a tl : at_pos r content pos →
  Zlen (buffer_ r) ≠ 0 → pos mod kBlockSize + Zlen a <= kBlockSize →
  zdrop pos content = a ++ tl → 
  ∃ rest, buffer_ r = a ++ rest ∧ zdrop (Zlen a) (buffer_ r) = rest.
Proof.
  intros H Hne Hfit Htl.
  assert (Zlen a + Zlen tl = Zlen content - pos) as HL.
  { rewrite <- Zlen_app, <- Htl. apply Zlen_zdrop, (ap_pos _ _ _ H). }
  pose proof (Zlen_nonneg a). pose proof (Zlen_nonneg tl).
  assert (Zlen a <= Zlen (buffer_ r)) as Hle by (eapply at_pos_fits; [done..|lia]).
  exists (zdrop (Zlen a) (buffer_ r)). split; [|done].
  rewrite <- (ztake_zdrop (Zlen a) (buffer_ r)) at 1. f_equal.
  rewrite (buffer_prefix _ _ _ _ _ H Hle Htl). by apply ztake_app.
Qed.

(** A physical record at the current position, inside the current block. *)
Lemma read_phys_here fuel r content pos frag drop want t p rest : at_pos r content pos →
  1 <= t <= 11 → legacy_type t = negb recycle → bytes_ok p →
  zdrop pos content = phys_bytes ln t p ++ rest →
  pos mod kBlockSize + header_size_of t + Zlen p <= kBlockSize → Zlen (buffer_ r) ≠ 0 →
  ∃ r', ReadPhysicalRecord XXH3_64bits (S fuel) r frag drop want = Some (mkPhys t p drop None, r') ∧
    at_pos r' content (pos + header_size_of t + Zlen p) ∧ frame r r'.
Proof using Hln.
  intros H Ht Hleg Hp Hd Hfit Hne. pose proof (Zlen_nonneg p).
  pose proof (header_size_bounds t). pose proof (Z.mod_pos_bound pos kBlockSize eq_refl).
  assert (Zlen p < 65536) as Hn by (consts; lia).
  pose proof (Zlen_phys_bytes ln t p Ht Hp Hn) as Hlen.
  destruct (buffer_starts r content pos (phys_bytes ln t p) rest) as (rest' & Hb & Hb'); [done..|lia|done|].
  destruct (ReadPhysicalRecord_phys XXH3_64bits fuel r frag drop want ln t p rest')
    as (r1 & Hr1 & ->); try done.
  { apply (ap_plain _ _ _ H). }
  { intros E. rewrite Hleg in E. split; [apply (ap_number _ _ _ H)|]. destruct recycle; auto. }
  eexists. split; [done|]. replace (pos + header_size_of t + Zlen p) with
    (pos + Zlen (phys_bytes ln t p)) by lia.
  apply at_pos_consume; try done; rewrite ?Hb, ?Zlen_app; lia.
Qed.

Lemma ReadPhysicalRecord_short fuel r frag drop want : Zlen (buffer_ r) < kHeaderSize →
  ReadPhysicalRecord XXH3_64bits (S fuel) r frag drop want =
    match ReadMore r with
    | inl (e, d, r) => Some (mkPhys e frag (default drop d) None, r)
    | inr r => ReadPhysicalRecord XXH3_64bits fuel r frag drop want
    end.
Proof.
  intros H. cbn [ReadPhysicalRecord]. destruct (Z.ltb_spec (Zlen (buffer_ r)) kHeaderSize); [done|lia].
Qed.

(** Two numbers of bytes below a block size that reach a block boundary. *)
Lemma same_boundary pos a b : (pos + a) mod kBlockSize = 0 → (pos + b) mod kBlockSize = 0 →
  0 <= a < kBlockSize → 0 <= b < kBlockSize → a = b.
Proof. consts. zlia. Qed.

(** A short buffer is the trailer of its block. *)
Lemma at_pos_short r content pos pad n : at_pos r content pos → eof_ r = false →
  Zlen (buffer_ r) < n → 0 <= pad < n → n <= 11 →
  (pad = 0 ∧ pos mod kBlockSize + n <= kBlockSize ∨ (pos + pad) mod kBlockSize = 0) →
  Zlen (buffer_ r) = pad.
Proof.
  intros H He Hb Hpad Hn11 Hcase.
  destruct (ap_block _ _ _ H) as (base & Hm & Hlo & Hhi & Hfull). specialize (Hfull He).
  pose proof (Zlen_nonneg (buffer_ r)).
  assert ((pos + Zlen (buffer_ r)) mod kBlockSize = 0) as Hbm.
  { rewrite Hfull. consts. zlia. }
  destruct Hcase as [[-> Hf]|Hpm].
  - consts. zlia.
  - apply (same_boundary pos); try done; consts; lia.
Qed.

(** A buffer of at least a header does not start with a block trailer. *)
Lemma at_pos_long r content pos pad : at_pos r content pos →
  0 < pad < Zlen (buffer_ r) → (pos + pad) mod kBlockSize = 0 → False.
Proof.
  intros H Hpad Hm. destruct (ap_block _ _ _ H) as (base & Hb & Hlo & Hhi & _).
  consts. zlia.
Qed.

(** A physical record after a trailer shorter than a legacy header. *)
Lemma read_phys fuel r content pos pad frag drop want t p rest : at_pos r content pos →
  1 <= t <= 11 → legacy_type t = negb recycle → bytes_ok p →
  zdrop pos content = replicate (Z.to_nat pad) 0 ++ phys_bytes ln t p ++ rest →
  0 <= pad < kHeaderSize → (pad = 0 ∨ (pos + pad) mod kBlockSize = 0) →
  (pos + pad) mod kBlockSize + header_size_of t + Zlen p <= kBlockSize →
  ∃ r', ReadPhysicalRecord XXH3_64bits (S (S fuel)) r frag drop want
        = Some (mkPhys t p drop None, r') ∧
    at_pos r' content (pos + pad + header_size_of t + Zlen p) ∧ frame r r'.
Proof using Hln SequentialFileLaws0.
  intros H Ht Hleg Hp Hd Hpad Hcase Hfit. pose proof (Zlen_nonneg p).
  pose proof (header_size_bounds t). pose proof (at_pos_buffer_len _ _ _ H) as HL.
  assert (Zlen p < 65536) as Hn.
  { pose proof (Z.mod_pos_bound (pos + pad) kBlockSize eq_refl). consts; lia. }
  pose proof (Zlen_phys_bytes ln t p Ht Hp Hn) as Hlen.
  assert (pad + header_size_of t + Zlen p <= Zlen content - pos) as Hc.
  { rewrite <- Zlen_zdrop, Hd by apply (ap_pos _ _ _ H). rewrite !Zlen_app, Zlen_replicate, Hlen.
    pose proof (Zlen_nonneg rest). lia. }
  destruct (Z.lt_ge_cases (Zlen (buffer_ r)) kHeaderSize) as [Hs|Hs].
  - rewrite ReadPhysicalRecord_short by done.
    assert (eof_ r = false) as He.
    { destruct (eof_ r) eqn:He; [|done]. rewrite (ap_eof _ _ _ H He), Zlen_nil in HL. consts. lia. }
    assert (Zlen (buffer_ r) = pad) as Hb.
    { apply (at_pos_short r content pos pad kHeaderSize); try done. destruct Hcase as [->|?]; [left|by right].
      rewrite Z.add_0_r in Hfit. consts. lia. }
    destruct (ReadMore_next _ _ _ _ H He Hb) as (r1 & -> & Ha1 & Hf1 & Hm & Hfull).
    assert (zdrop (pos + pad) content = phys_bytes ln t p ++ rest) as Hd1.
    { rewrite <- zdrop_zdrop, Hd by (try apply (ap_pos _ _ _ H); lia).
      apply zdrop_app. rewrite Zlen_replicate. lia. }
    destruct (read_phys_here fuel r1 content (pos + pad) frag drop want t p rest)
      as (r2 & -> & Ha2 & Hf2); try done.
    { destruct (eof_ r1) eqn:He1; [|rewrite Hfull by done; by compute].
      pose proof (at_pos_buffer_len _ _ _ Ha1) as HL1. rewrite (ap_eof _ _ _ Ha1 He1), Zlen_nil in HL1. lia. }
    exists r2. split_and!; try done. by eapply frame_trans.
  - assert (pad = 0) as ->.
    { destruct Hcase as [?|Hm]; [done|]. destruct (Z.eq_dec pad 0); [done|].
      exfalso. apply (at_pos_long r content pos pad); try done. lia. }
    rewrite !Z.add_0_r in *.
    destruct (read_phys_here (S fuel) r content pos frag drop want t p rest)
      as (r2 & -> & Ha2 & Hf2); try done; [consts; lia|]. eauto.
Qed.

Definition set_fragment (l : Locals) (p : bytes) : Locals :=
  mkLocals (in_fragmented_record l) (prospective_record_offset l) (scratch l) p (record_checksum l).

Definition continue_with (mode : WALRecoveryMode) (want : bool) (fuel : nat)
    (o : Outcome * Reader F U * Locals) : option (bool * bytes * Reader F U * Locals) :=
  match o with
  | (Return ret record, r, l) => Some (ret, record, r, l)
  | (Again, r, l) => ReadRecord_loop XXH3_64bits fuel mode want r l
  end.

(** One iteration of [ReadRecord] that reads an uncompressed record. *)
Lemma loop_step fuel mode want r l p r' :
  ReadPhysicalRecord XXH3_64bits (S fuel) r (fragment_ l) 0 want = Some (p, r') →
  pr_checksum p = None →
  ReadRecord_loop XXH3_64bits (S fuel) mode want r l =
    continue_with mode want fuel
      (ReadRecord_switch XXH3_64bits mode want (end_of_buffer_offset_ r - Zlen (buffer_ r))
         (pr_drop_size p) (pr_type p) r' (set_fragment l (pr_result p))).
Proof. intros E Ec. cbn [ReadRecord_loop]. rewrite E, Ec. done. Qed.

(** The trailer of a recyclable block that is long enough to look like a
    header is skipped by an iteration of its own. *)
Lemma loop_trailer fuel mode want r l content pos pad tl : at_pos r content pos →
  kHeaderSize <= pad < kRecyclableHeaderSize → (pos + pad) mod kBlockSize = 0 →
  zdrop pos content = replicate (Z.to_nat pad) 0 ++ tl → in_fragmented_record l = false →
  ∃ r', ReadRecord_loop XXH3_64bits (S fuel) mode want r l
        = ReadRecord_loop XXH3_64bits fuel mode want r' l ∧
    at_pos r' content (pos + pad) ∧ frame r r' ∧ eof_ r' = eof_ r.
Proof.
  intros H Hpad Hm Hd Hl. pose proof (Zlen_nonneg tl). pose proof (at_pos_buffer_len _ _ _ H) as HL.
  assert (pad + Zlen tl = Zlen content - pos) as Hc.
  { rewrite <- Zlen_zdrop, Hd by apply (ap_pos _ _ _ H). rewrite Zlen_app, Zlen_replicate. consts. lia. }
  assert (Zlen (buffer_ r) ≠ 0) as Hne.
  { destruct (eof_ r) eqn:He.
    - rewrite (ap_eof _ _ _ H He), Zlen_nil in HL. consts. lia.
    - destruct (Z.eq_dec (Zlen (buffer_ r)) 0) as [E|]; [|done].
      rewrite (at_pos_short r content pos pad 11) in E; auto; consts; lia. }
  destruct (buffer_starts r content pos (replicate (Z.to_nat pad) 0) tl) as (rest & Hb & Hb'); try done.
  { rewrite Zlen_replicate. consts. zlia. }
  assert (rest = []) as ->.
  { apply Zlen_0_nil. pose proof (Zlen_nonneg rest). destruct (Z.eq_dec (Zlen rest) 0); [done|].
    exfalso. apply (at_pos_long r content pos pad); try done.
    rewrite Hb, Zlen_app, Zlen_replicate. consts. lia. }
  rewrite app_nil_r in Hb.
  destruct (at_pos_consume r r content pos pad []) as [Ha Hf]; auto.
  { consts; lia. } { rewrite Hb, Zlen_replicate, Zlen_nil. consts. lia. }
  { rewrite Hb, Zlen_replicate in Hb'. by rewrite Z2Nat.id, <- Hb in Hb' by (consts; lia). }
  exists (set_buffer r []). split; [|done].
  rewrite (loop_step _ _ _ _ _ _ _ (ReadPhysicalRecord_zeros XXH3_64bits fuel r _ 0 want pad
    ltac:(consts; lia) Hb)) by done.
  unfold continue_with. cbn [pr_type pr_result pr_drop_size].
  change (ReadRecord_switch XXH3_64bits mode want ?a ?b kBadRecord ?c ?d)
    with (let '(r, l) := drop_fragmented c d in (@Again, r, l)).
  unfold drop_fragmented. cbn. rewrite Hl. by destruct l.
Qed.

(** Reading the next physical record of a layout, with its trailer. *)
Lemma loop_frag fuel mode want r l content pos off b e pad off0 p rest : at_pos r content pos →
  0 <= off <= kBlockSize → pos mod kBlockSize = off mod kBlockSize →
  pad_of recycle off = (pad, off0) → off0 + hsize recycle + Zlen p <= kBlockSize → bytes_ok p →
  zdrop pos content = frag_bytes ln (mkFrag pad (fragment_type recycle b e) p) ++ rest →
  (in_fragmented_record l = true → off = kBlockSize) →
  ∃ r' fuel' o, ReadRecord_loop XXH3_64bits (S (S (S fuel))) mode want r l =
      continue_with mode want fuel' (ReadRecord_switch XXH3_64bits mode want o 0
        (fragment_type recycle b e) r' (set_fragment l p)) ∧
    (S fuel <= fuel')%nat ∧ pos <= o <= pos + pad ∧
    at_pos r' content (pos + pad + hsize recycle + Zlen p) ∧ frame r r'.
Proof using Hln SequentialFileLaws0.
  intros H Hoff Hpos Hpad Hfit Hp Hd Hl. pose proof (Zlen_nonneg p).
  pose proof (pad_of_spec _ _ _ _ Hoff Hpad) as (Ho1 & Ho2 & Hpr & Hcase).
  destruct (fragment_type_range recycle b e) as [Ht Hleg].
  pose proof (header_size_fragment recycle b e) as Eh. pose proof (hsize_range recycle).
  unfold frag_bytes in Hd. cbn in Hd. rewrite <- app_assoc in Hd.
  assert ((pos + pad) mod kBlockSize = off0) as Hoff0.
  { destruct Hcase as [[-> ->]|[? ->]]; consts; zlia. }
  assert (pad = 0 ∨ (pos + pad) mod kBlockSize = 0) as Hcase' by (destruct Hcase as [[]|[]]; lia).
  destruct (Z.lt_ge_cases pad kHeaderSize) as [Hs|Hs].
  - destruct (read_phys (S fuel) r content pos pad (fragment_ l) 0 want
      (fragment_type recycle b e) p rest) as (r' & E & Ha & Hf); try done; try lia.
    rewrite (loop_step _ _ _ _ _ _ _ E) by done. rewrite Eh in Ha.
    rewrite (ap_end _ _ _ H). eexists r', _, _. split; [done|]. split_and!; try done; lia.
  - assert (kHeaderSize <= pad < kRecyclableHeaderSize) as Hpad'.
    { destruct recycle; cbn in *; lia. }
    destruct (loop_trailer (S (S fuel)) mode want r l content pos pad
      (phys_bytes ln (fragment_type recycle b e) p ++ rest)) as (r1 & -> & Ha1 & Hf1 & _); try done.
    { consts; lia. }
    { destruct (in_fragmented_record l); [|done]. specialize (Hl eq_refl). consts; lia. }
    destruct (read_phys fuel r1 content (pos + pad) 0 (fragment_ l) 0 want
      (fragment_type recycle b e) p rest) as (r' & E & Ha & Hf); try done; auto; try lia.
    { cbn. rewrite <- zdrop_zdrop, Hd by (try apply (ap_pos _ _ _ H); consts; lia).
      apply zdrop_app. rewrite Zlen_replicate. consts; lia. }
    { rewrite Z.add_0_r. lia. }
    rewrite (loop_step _ _ _ _ _ _ _ E) by done. rewrite Eh, Z.add_0_r in Ha.
    rewrite (ap_end _ _ _ Ha1). eexists r', _, _. split; [done|]. split_and!; try done; try lia.
    by eapply frame_trans.
Qed.

Lemma switch_fragment mode want o d b e r l :
  ReadRecord_switch XXH3_64bits mode want o d (fragment_type recycle b e) r l =
    if e then if b then on_full XXH3_64bits want o r l else on_last XXH3_64bits want r l
    else if b then on_first want o r l else on_middle want r l.
Proof. by destruct recycle, b, e. Qed.

(** The state of the loop before the physical records that hold the rest of
    a logical record of which [acc] has been read. *)
Definition loop_inv (begin want : bool) (acc : bytes) (r : Reader F U) (l : Locals) : Prop :=
  in_fragmented_record l = negb begin ∧ (begin = true → acc = []) ∧
  (begin = false → scratch l = acc) ∧ (want = true → hash_state_ r = Some acc) ∧
  (want = false → record_checksum l = None).

Lemma at_pos_same r r' content pos : at_pos r content pos →
  file_ r' = file_ r → buffer_ r' = buffer_ r → eof_ r' = eof_ r → read_error_ r' = read_error_ r →
  end_of_buffer_offset_ r' = end_of_buffer_offset_ r → log_number_ r' = log_number_ r →
  uncompress_ r' = uncompress_ r → at_pos r' content pos.
Proof. intros [] E1 E2 E3 E4 E5 E6 E7. split; rewrite ?E1, ?E2, ?E3, ?E4, ?E5, ?E6, ?E7; auto. Qed.

Definition digest_of (want : bool) (d : bytes) : option Z :=
  if want then Some (XXH3_64bits d) else None.

(** What a call that returns the record [d] leaves. *)
Definition returns (want : bool) (content : bytes) (pos : Z) (d : bytes)
    (rep : option (list (Z * Status))) (res : option (bool * bytes * Reader F U * Locals)) : Prop :=
  ∃ r' l', res = Some (true, d, r', l') ∧ at_pos r' content pos ∧
    reporter_ r' = rep ∧ record_checksum l' = digest_of want d.

Definition frags_len (fs : list frag) : Z := Zlen (frags_bytes ln fs).

Lemma Zlen_frag_bytes pad b e p : 0 <= pad → bytes_ok p → Zlen p < 65536 →
  Zlen (frag_bytes ln (mkFrag pad (fragment_type recycle b e) p)) = pad + hsize recycle + Zlen p.
Proof using.
  intros. unfold frag_bytes. cbn [fr_pad fr_type fr_data]. rewrite Zlen_app, Zlen_replicate, Zlen_phys_bytes
    by (try apply fragment_type_range; done). rewrite header_size_fragment. lia.
Qed.

(** The switch on the last fragment of a record returns it. *)
Lemma returns_end mode want fuel begin o r r' l content pos acc d : at_pos r' content pos →
  reporter_ r' = reporter_ r → loop_inv begin want acc r' l →
  returns want content pos (acc ++ d) (reporter_ r)
    (continue_with mode want fuel
       (if begin then on_full XXH3_64bits want o r' (set_fragment l d)
        else on_last XXH3_64bits want r' (set_fragment l d))).
Proof.
  intros Ha Hr (Hin & Hacc & Hscr & Hh & Hck). unfold returns, digest_of. destruct begin.
  - rewrite (Hacc eq_refl). unfold on_full. cbn [in_fragmented_record set_fragment].
    rewrite Hin. cbn [andb negb]. rewrite (ap_plain _ _ _ Ha). cbv zeta.
    destruct want; (do 2 eexists; split; [reflexivity|]); (split; [by eapply at_pos_same|]);
      split; try done. cbn. auto.
  - unfold on_last. cbn [in_fragmented_record set_fragment]. rewrite Hin. cbn [negb].
    rewrite <- (Hscr eq_refl).
    destruct want; (do 2 eexists; split; [reflexivity|]); (split; [by eapply at_pos_same|]);
      (split; [done|]); cbn; auto. by rewrite (Hh eq_refl), (Hscr eq_refl).
Qed.

(** On any other fragment the loop continues with the data appended. *)
Lemma switch_again mode want fuel begin o r l content pos acc a : at_pos r content pos →
  loop_inv begin want acc r l →
  ∃ r' l', continue_with mode want fuel
      (if begin then on_first want o r (set_fragment l a) else on_middle want r (set_fragment l a))
    = ReadRecord_loop XXH3_64bits fuel mode want r' l' ∧ reporter_ r' = reporter_ r ∧
    at_pos r' content pos ∧ loop_inv false want (acc ++ a) r' l'.
Proof.
  intros Ha (Hin & Hacc & Hscr & Hh & Hck). destruct begin.
  - unfold on_first. cbn [in_fragmented_record set_fragment]. rewrite Hin. cbn [andb negb].
    rewrite (Hacc eq_refl) in *.
    destruct want; (do 2 eexists; split; [reflexivity|]); (split; [done|]);
      (split; [by eapply at_pos_same|]); unfold loop_inv; split_and!; cbn; try done; auto.
    intros _. by rewrite (Hh eq_refl).
  - unfold on_middle. cbn [in_fragmented_record set_fragment]. rewrite Hin. cbn [negb].
    destruct want; (do 2 eexists; split; [reflexivity|]); (split; [done|]);
      (split; [by eapply at_pos_same|]); unfold loop_inv; split_and!; cbn; try done; intros _;
      rewrite ?(Hscr eq_refl); auto. by rewrite (Hh eq_refl).
Qed.

(** A record whose layout is in the file is read back. *)
Lemma read_layout off begin d fs off' : layout recycle off begin d fs off' →
  ∀ fuel mode want r l content pos acc rest, 0 <= off <= kBlockSize → bytes_ok d →
  at_pos r content pos → pos mod kBlockSize = off mod kBlockSize →
  zdrop pos content = frags_bytes ln fs ++ rest → loop_inv begin want acc r l →
  (begin = false → off = kBlockSize) → (2 * length fs + 1 <= fuel)%nat →
  returns want content (pos + frags_len fs) (acc ++ d) (reporter_ r)
    (ReadRecord_loop XXH3_64bits fuel mode want r l).
Proof using Hln SequentialFileLaws0.
  unfold frags_len, frags_bytes.
  induction 1 as [off begin d pad off0 Hpad Hfit|off begin a b pad off0 fs off' Hpad Hfit Hne Hlay IH];
    intros fuel mode want r l content pos acc rest Hoff Hok Ha Hpos Hd Hinv Hbeg Hfuel;
    cbn [map concat length] in *;
    pose proof (pad_of_spec _ _ _ _ Hoff Hpad) as (Ho1 & Ho2 & Hpr & Hcase);
    destruct Hinv as (Hin & Hacc & Hscr & Hh & Hck).
  - destruct fuel as [|[|[|fuel]]]; [lia..|]. rewrite app_nil_r in *.
    destruct (loop_frag fuel mode want r l content pos off begin true pad off0 d rest)
      as (r' & fuel' & o & -> & _ & _ & Ha' & Hf); try done.
    { rewrite Hin. destruct begin; [done|auto]. }
    destruct Hf as (Hf1 & Hf2 & Hf3 & Hf4).
    rewrite Zlen_frag_bytes by (try done; pose proof (hsize_range recycle); consts; lia).
    rewrite switch_fragment. replace (pos + (pad + hsize recycle + Zlen d)) with
      (pos + pad + hsize recycle + Zlen d) by lia.
    apply returns_end; try done. unfold loop_inv. by rewrite Hf2.
  - destruct fuel as [|[|[|fuel]]]; [lia..|]. apply bytes_ok_app in Hok as [Hoka Hokb].
    pose proof (hsize_range recycle).
    assert (Zlen a < 65536) as Hna by (consts; lia). pose proof (Zlen_nonneg a).
    rewrite <- app_assoc in Hd.
    destruct (loop_frag fuel mode want r l content pos off begin false pad off0 a
      (concat (map (frag_bytes ln) fs) ++ rest))
      as (r' & fuel' & o & -> & Hfuel' & _ & Ha' & Hf); try done; [lia| |].
    { rewrite Hin. destruct begin; [done|auto]. }
    destruct Hf as (Hf1 & Hf2 & Hf3 & Hf4).
    assert (0 <= pos) by apply (ap_pos _ _ _ Ha).
    rewrite Zlen_app, Zlen_frag_bytes, switch_fragment by (done || lia).
    set (pos' := pos + pad + hsize recycle + Zlen a) in *.
    replace (pos + (pad + hsize recycle + Zlen a + Zlen (concat (map (frag_bytes ln) fs))))
      with (pos' + Zlen (concat (map (frag_bytes ln) fs))) by lia.
    assert (zdrop pos' content = concat (map (frag_bytes ln) fs) ++ rest) as Hd'.
    { replace pos' with (pos + (pad + hsize recycle + Zlen a)) by lia.
      rewrite <- zdrop_zdrop, Hd by lia. apply zdrop_app. rewrite Zlen_frag_bytes by (done || lia). lia. }
    assert (pos' mod kBlockSize = kBlockSize mod kBlockSize) as Hpos'.
    { unfold pos'. destruct Hcase as [[-> ->]|[? ->]]; consts; zlia. }
    rewrite app_assoc, <- Hf1. unfold continue_with.
    destruct (switch_again mode want fuel' begin o r' l content pos' acc a) as (r2 & l2 & E & Hr2 & Ha2 & Hi2).
    { done. } { unfold loop_inv. by rewrite Hf2. }
    unfold continue_with in E. rewrite E, <- Hr2. eapply IH; try done. lia.
Qed.

(** *** Files cut short *)

(** The results of [ReadPhysicalRecord] at the end of a cut file. *)
Definition stops (ty : Z) (r : Reader F U) : Prop :=
  ty = kEof ∨ ty = kBadHeader ∨ (ty = kBadRecordLen ∧ eof_ r = true).

(** What a call that finds no further record leaves: in the modes that
    tolerate a torn tail nothing is reported. *)
Definition ends (mode : WALRecoveryMode) (rep : option (list (Z * Status)))
    (res : option (bool * bytes * Reader F U * Locals)) : Prop :=
  ∃ r' l', res = Some (false, [], r', l') ∧ (strict_mode mode = false → reporter_ r' = rep).

Lemma switch_stop mode want fuel o d ty r l : stops ty r →
  ends mode (reporter_ r)
    (continue_with mode want fuel (ReadRecord_switch XXH3_64bits mode want o d ty r l)).
Proof.
  intros [->|[->|[-> He]]].
  - change (ReadRecord_switch _ _ _ _ _ _ _ _) with (on_eof mode r l). unfold on_eof.
    destruct (in_fragmented_record l); (do 2 eexists; split; [reflexivity|]); [|done].
    by intros ->.
  - change (ReadRecord_switch XXH3_64bits mode want o d kBadHeader r l) with
      (on_eof mode (if strict_mode mode then ReportCorruption r d "truncated header" else r) l).
    unfold on_eof.
    destruct (in_fragmented_record l); (do 2 eexists; split; [reflexivity|]); by intros ->.
  - change (ReadRecord_switch XXH3_64bits mode want o d kBadRecordLen r l) with
      (if eof_ r then
         (@Return false [], if strict_mode mode then ReportCorruption r d "truncated record body" else r, l)
       else on_bad_body mode kBadRecordLen d r l).
    rewrite He. do 2 eexists. split; [reflexivity|]. by intros ->.
Qed.

Lemma read_eof fuel r frag drop want : eof_ r = true → Zlen (buffer_ r) < kHeaderSize →
  ∃ ty d, ReadPhysicalRecord XXH3_64bits (S fuel) r frag drop want
    = Some (mkPhys ty frag d None, set_buffer r []) ∧ stops ty (set_buffer r []).
Proof.
  intros He Hs. rewrite ReadPhysicalRecord_short, ReadMore_eof by done. unfold stops.
  destruct (Zlen (buffer_ r) =? 0); eauto 10.
Qed.

(** A physical record cut by the end of the file, in the buffer. *)
Lemma read_cut_here fuel r content pos frag drop want t p k : at_pos r content pos →
  1 <= t <= 11 → legacy_type t = negb recycle → bytes_ok p → Zlen p < 65536 →
  zdrop pos content = ztake k (phys_bytes ln t p) → 0 <= k < header_size_of t + Zlen p →
  eof_ r = true →
  ∃ ty d r', ReadPhysicalRecord XXH3_64bits (S fuel) r frag drop want
    = Some (mkPhys ty frag d None, r') ∧ stops ty r' ∧ frame r r'.
Proof using Hln.
  intros H Ht Hleg Hp Hn Hd Hk He.
  destruct (ReadPhysicalRecord_cut XXH3_64bits fuel r frag drop want ln t p k)
    as (ty & d & r1 & Hr1 & Hty & ->); try done.
  { pose proof (ap_data _ _ _ H) as E. rewrite (ap_eof _ _ _ H He), app_nil_r in E. congruence. }
  { intros E. rewrite Hleg in E. split; [apply (ap_number _ _ _ H)|]. destruct recycle; auto. }
  do 3 eexists. split; [done|]. unfold stops. destruct Hr1 as [->| ->]; (split; [|done]); cbn;
    destruct_or! Hty; auto.
Qed.

Lemma read_cut fuel r content pos pad frag drop want t p k : at_pos r content pos →
  1 <= t <= 11 → legacy_type t = negb recycle → bytes_ok p →
  zdrop pos content = ztake k (replicate (Z.to_nat pad) 0 ++ phys_bytes ln t p) →
  0 <= pad < kHeaderSize → (pad = 0 ∨ (pos + pad) mod kBlockSize = 0) →
  (pos + pad) mod kBlockSize + header_size_of t + Zlen p <= kBlockSize →
  0 <= k < pad + header_size_of t + Zlen p →
  ∃ ty d r', ReadPhysicalRecord XXH3_64bits (S (S fuel)) r frag drop want
    = Some (mkPhys ty frag d None, r') ∧ stops ty r' ∧ frame r r'.
Proof using Hln SequentialFileLaws0.
  intros H Ht Hleg Hp Hd Hpad Hcase Hfit Hk. pose proof (Zlen_nonneg p).
  pose proof (header_size_bounds t). pose proof (at_pos_buffer_len _ _ _ H) as HL.
  pose proof (Z.mod_pos_bound (pos + pad) kBlockSize eq_refl).
  pose proof (Zlen_nonneg (buffer_ r)). pose proof (Zlen_nonneg (unread (file_ r))).
  assert (Zlen p < 65536) as Hn by (consts; lia).
  pose proof (Zlen_phys_bytes ln t p Ht Hp Hn) as Hlen.
  assert (Zlen content - pos = k) as Hc.
  { rewrite <- Zlen_zdrop, Hd by apply (ap_pos _ _ _ H). apply Zlen_ztake.
    rewrite Zlen_app, Zlen_replicate, Hlen. lia. }
  destruct (Z.lt_ge_cases (Zlen (buffer_ r)) kHeaderSize) as [Hs|Hs].
  - destruct (eof_ r) eqn:He.
    { destruct (read_eof (S fuel) r frag drop want He Hs) as (ty & d & -> & ?). by do 3 eexists. }
    rewrite ReadPhysicalRecord_short by done.
    assert (Zlen (buffer_ r) = pad) as Hb.
    { apply (at_pos_short r content pos pad kHeaderSize); try done. destruct Hcase as [->|?]; [left|by right].
      rewrite Z.add_0_r in Hfit. consts. lia. }
    destruct (ReadMore_next _ _ _ _ H He Hb) as (r1 & -> & Ha1 & Hf1 & Hm & Hfull).
    destruct (read_cut_here fuel r1 content (pos + pad) frag drop want t p (k - pad))
      as (ty & d & r2 & -> & Hs2 & Hf2); try done; [|lia| |].
    { rewrite <- zdrop_zdrop, Hd by (try apply (ap_pos _ _ _ H); lia).
      apply zdrop_ztake_app; rewrite ?Zlen_replicate; lia. }
    { pose proof (at_pos_buffer_len _ _ _ Ha1). pose proof (Zlen_nonneg (unread (file_ r1))).
      destruct (eof_ r1); [done|]. specialize (Hfull eq_refl). lia. }
    do 3 eexists. split_and!; try done. by eapply frame_trans.
  - assert (pad = 0) as ->.
    { destruct Hcase as [?|Hm]; [done|]. destruct (Z.eq_dec pad 0); [done|].
      exfalso. apply (at_pos_long r content pos pad); try done. lia. }
    rewrite !Z.add_0_r in *. apply (read_cut_here _ _ content pos _ _ _ t p k); try done.
    destruct (eof_ r) eqn:He; [done|]. exfalso.
    assert (∃ n, n = header_size_of t + Zlen p) as [n Hn'] by eauto.
    destruct (ap_block _ _ _ H) as (base & Hbm & Hlo & Hhi & Hfull). specialize (Hfull He).
    consts. zlia.
Qed.

(** A cut inside a block trailer that is long enough to look like a header. *)
Lemma loop_cut_trailer fuel mode want r l content pos pad k : at_pos r content pos →
  kHeaderSize <= pad < kRecyclableHeaderSize → (pos + pad) mod kBlockSize = 0 →
  zdrop pos content = replicate (Z.to_nat k) 0 → 0 <= k < pad → in_fragmented_record l = false →
  ends mode (reporter_ r) (ReadRecord_loop XXH3_64bits (S (S fuel)) mode want r l).
Proof.
  intros H Hpad Hm Hd Hk Hl. pose proof (at_pos_buffer_len _ _ _ H) as HL.
  pose proof (Zlen_nonneg (unread (file_ r))).
  assert (Zlen content - pos = k) as Hc.
  { rewrite <- Zlen_zdrop, Hd, Zlen_replicate by apply (ap_pos _ _ _ H). lia. }
  assert (eof_ r = true) as He.
  { destruct (eof_ r) eqn:He; [done|].
    rewrite (at_pos_short r content pos pad 11) in HL; auto; consts; lia. }
  assert (buffer_ r = replicate (Z.to_nat k) 0) as Hb.
  { rewrite <- Hd, <- (ap_data _ _ _ H), (ap_eof _ _ _ H He). by rewrite app_nil_r. }
  destruct (Z.lt_ge_cases k kHeaderSize) as [Hs|Hs].
  - destruct (read_eof (S fuel) r (fragment_ l) 0 want He) as (ty & d & E & Hst).
    { rewrite Hb, Zlen_replicate. lia. }
    rewrite (loop_step _ _ _ _ _ _ _ E) by done. apply (switch_stop _ _ _ _ _ _ (set_buffer r []) _ Hst).
  - rewrite (loop_step _ _ _ _ _ _ _ (ReadPhysicalRecord_zeros XXH3_64bits (S fuel) r _ 0 want k
      ltac:(consts; lia) Hb)) by done.
    cbn [pr_type pr_result pr_drop_size].
    change (ReadRecord_switch XXH3_64bits mode want ?a ?b kBadRecord ?c ?d)
      with (let '(r, l) := drop_fragmented c d in (@Again, r, l)).
    replace (set_fragment l (fragment_ l)) with l by (by destruct l).
    unfold drop_fragmented, continue_with. rewrite Hl.
    destruct (read_eof fuel (set_buffer r []) (fragment_ l) 0 want) as (ty & d & E & Hst);
      [done|by compute|].
    rewrite (loop_step _ _ _ _ _ _ _ E) by done. apply (switch_stop _ _ _ _ _ _ (set_buffer r []) _ Hst).
Qed.

(** A cut anywhere in a physical record or in the trailer before it. *)
Lemma loop_cut_frag fuel mode want r l content pos off b e pad off0 p k : at_pos r content pos →
  0 <= off <= kBlockSize → pos mod kBlockSize = off mod kBlockSize →
  pad_of recycle off = (pad, off0) → off0 + hsize recycle + Zlen p <= kBlockSize → bytes_ok p →
  zdrop pos content = ztake k (frag_bytes ln (mkFrag pad (fragment_type recycle b e) p)) →
  0 <= k < pad + hsize recycle + Zlen p → (in_fragmented_record l = true → off = kBlockSize) →
  ends mode (reporter_ r) (ReadRecord_loop XXH3_64bits (S (S (S fuel))) mode want r l).
Proof using Hln SequentialFileLaws0.
  intros H Hoff Hpos Hpad Hfit Hp Hd Hk Hl. pose proof (Zlen_nonneg p).
  pose proof (pad_of_spec _ _ _ _ Hoff Hpad) as (Ho1 & Ho2 & Hpr & Hcase).
  destruct (fragment_type_range recycle b e) as [Ht Hleg].
  pose proof (header_size_fragment recycle b e) as Eh. pose proof (hsize_range recycle).
  unfold frag_bytes in Hd. cbn [fr_pad fr_type fr_data] in Hd.
  assert ((pos + pad) mod kBlockSize = off0) as Hoff0.
  { destruct Hcase as [[-> ->]|[? ->]]; consts; zlia. }
  assert (pad = 0 ∨ (pos + pad) mod kBlockSize = 0) as Hcase' by (destruct Hcase as [[]|[]]; lia).
  destruct (Z.lt_ge_cases pad kHeaderSize) as [Hs|Hs].
  - destruct (read_cut (S fuel) r content pos pad (fragment_ l) 0 want
      (fragment_type recycle b e) p k) as (ty & d & r' & E & Hst & Hf); try done; try lia.
    rewrite (loop_step _ _ _ _ _ _ _ E) by done. destruct Hf as (<- & _). by apply switch_stop.
  - assert (kHeaderSize <= pad < kRecyclableHeaderSize) as Hpad' by (destruct recycle; cbn in *; lia).
    assert ((pos + pad) mod kBlockSize = 0) as Hm by (consts; lia).
    assert (in_fragmented_record l = false) as Hin.
    { destruct (in_fragmented_record l); [|done]. specialize (Hl eq_refl). consts; lia. }
    destruct (Z.lt_ge_cases k pad) as [Hkp|Hkp].
    { apply (loop_cut_trailer (S fuel) mode want r l content pos pad k); try done; [|lia].
      rewrite Hd, ztake_app_le by (rewrite Zlen_replicate; lia).
      Transparent ztake. unfold ztake. rewrite take_replicate. f_equal. lia. }
    rewrite ztake_app_ge, Zlen_replicate, Z2Nat.id in Hd by (rewrite ?Zlen_replicate; lia).
    destruct (loop_trailer (S (S fuel)) mode want r l content pos pad
      (ztake (k - pad) (phys_bytes ln (fragment_type recycle b e) p)))
      as (r1 & -> & Ha1 & Hf1 & _); try done.
    destruct (read_cut fuel r1 content (pos + pad) 0 (fragment_ l) 0 want
      (fragment_type recycle b e) p (k - pad)) as (ty & d & r' & E & Hst & Hf);
      try done; auto; try lia.
    { cbn. rewrite <- zdrop_zdrop, Hd by (try apply (ap_pos _ _ _ H); consts; lia).
      apply zdrop_app. rewrite Zlen_replicate. consts; lia. }
    { rewrite Z.add_0_r. lia. }
    rewrite (loop_step _ _ _ _ _ _ _ E) by done. destruct (frame_trans _ _ _ Hf1 Hf) as (<- & _).
    by apply switch_stop.
Qed.
#[local] Opaque ztake.

(** A record whose layout is cut by the end of the file is not returned. *)
Lemma read_cut_layout off begin d fs off' : layout recycle off begin d fs off' →
  ∀ fuel mode want r l content pos acc k, 0 <= off <= kBlockSize → bytes_ok d →
  at_pos r content pos → pos mod kBlockSize = off mod kBlockSize →
  zdrop pos content = ztake k (frags_bytes ln fs) → 0 <= k < frags_len fs →
  loop_inv begin want acc r l → (begin = false → off = kBlockSize) → 2 * k + 3 <= Z.of_nat fuel →
  ends mode (reporter_ r) (ReadRecord_loop XXH3_64bits fuel mode want r l).
Proof using Hln SequentialFileLaws0.
  unfold frags_len, frags_bytes.
  induction 1 as [off begin d pad off0 Hpad Hfit|off begin a b pad off0 fs off' Hpad Hfit Hne Hlay IH];
    intros fuel mode want r l content pos acc k Hoff Hok Ha Hpos Hd Hk Hinv Hbeg Hfuel;
    cbn [map concat length] in *;
    pose proof (pad_of_spec _ _ _ _ Hoff Hpad) as (Ho1 & Ho2 & Hpr & Hcase);
    pose proof (hsize_range recycle); pose proof Hinv as (Hin & _ & _ & Hh & _);
    assert (in_fragmented_record l = true → off = kBlockSize) as Hin'
      by (rewrite Hin; destruct begin; [done|auto]);
    destruct fuel as [|[|[|fuel]]]; try lia.
  - rewrite app_nil_r in *. rewrite Zlen_frag_bytes in Hk by (try done; consts; lia).
    by apply (loop_cut_frag fuel mode want r l content pos off begin true pad off0 d k).
  - apply bytes_ok_app in Hok as [Hoka Hokb]. pose proof (Zlen_nonneg a).
    set (fb := frag_bytes ln _) in *.
    assert (Zlen fb = pad + hsize recycle + Zlen a) as Hfb
      by (apply Zlen_frag_bytes; try done; consts; lia).
    destruct (Z.lt_ge_cases k (Zlen fb)) as [Hkf|Hkf].
    { rewrite ztake_app_le in Hd by lia.
      apply (loop_cut_frag fuel mode want r l content pos off begin false pad off0 a k); try done; lia. }
    rewrite ztake_app_ge in Hd by lia. rewrite Zlen_app in Hk.
    destruct (loop_frag fuel mode want r l content pos off begin false pad off0 a
      (ztake (k - Zlen fb) (concat (map (frag_bytes ln) fs))))
      as (r' & fuel' & o & -> & Hfuel' & _ & Ha' & Hf); try done; [lia|].
    destruct Hf as (<- & Hf2 & _).
    rewrite switch_fragment. set (pos' := pos + pad + hsize recycle + Zlen a) in *.
    destruct (switch_again mode want fuel' begin o r' l content pos' acc a)
      as (r2 & l2 & -> & <- & Ha2 & Hi2); [done|unfold loop_inv in *; by rewrite Hf2|].
    eapply (IH _ _ _ _ _ content pos' (acc ++ a) (k - Zlen fb)); try done; try lia.
    + unfold pos'. destruct Hcase as [[-> ->]|[? ->]]; consts; zlia.
    + replace pos' with (pos + Zlen fb) by lia.
      rewrite <- zdrop_zdrop, Hd by (try apply (ap_pos _ _ _ Ha); lia). by apply zdrop_app.
Qed.

(** Offsets advance with the bytes of a layout. *)
Lemma layout_offset off begin d fs off' : layout recycle off begin d fs off' →
  0 <= off <= kBlockSize → bytes_ok d →
  0 <= off' <= kBlockSize ∧ (off + frags_len fs) mod kBlockSize = off' mod kBlockSize ∧
  Z.of_nat (length fs) <= frags_len fs.
Proof using XXH3_64bits.
  unfold frags_len, frags_bytes.
  induction 1 as [off begin d pad off0 Hpad Hfit|off begin a b pad off0 fs off' Hpad Hfit Hne Hlay IH];
    intros Hoff Hok; cbn [map concat length];
    pose proof (pad_of_spec _ _ _ _ Hoff Hpad) as (Ho1 & Ho2 & Hpr & Hcase);
    pose proof (hsize_range recycle).
  - pose proof (Zlen_nonneg d).
    rewrite app_nil_r, Zlen_frag_bytes by (try done; consts; lia).
    split_and!; [consts; lia..| |lia]. destruct Hcase as [[-> ->]|[? ->]]; consts; zlia.
  - apply bytes_ok_app in Hok as [Hoka Hokb]. pose proof (Zlen_nonneg a).
    rewrite Zlen_app, Zlen_frag_bytes by (try done; consts; lia).
    destruct IH as (Hr & Hm & Hl); [by consts|done|]. split_and!; [lia..| |lia].
    rewrite <- Hm. destruct Hcase as [[-> ->]|[? ->]]; consts; zlia.
Qed.

(** ** Calls of [ReadRecord] *)

Lemma ReadRecord_start fuel mode want r content pos : at_pos r content pos →
  ∃ r', ReadRecord XXH3_64bits fuel mode want r
        = ReadRecord_loop XXH3_64bits fuel mode want r' (mkLocals false 0 [] [] None) ∧
    at_pos r' content pos ∧ reporter_ r' = reporter_ r ∧
    loop_inv true want [] r' (mkLocals false 0 [] [] None).
Proof.
  intros H. unfold ReadRecord. pose proof (ap_plain _ _ _ H).
  destruct want; (eexists; split; [cbn; by case_match|]); cbn;
    (split; [by eapply at_pos_same|]); split; try done; by unfold loop_inv.
Qed.

Lemma ReadRecord_layout off d fs off' fuel mode want r content pos rest :
  layout recycle off true d fs off' → 0 <= off <= kBlockSize → bytes_ok d →
  at_pos r content pos → pos mod kBlockSize = off mod kBlockSize →
  zdrop pos content = frags_bytes ln fs ++ rest → 2 * Zlen content + 3 <= Z.of_nat fuel →
  returns want content (pos + frags_len fs) d (reporter_ r)
    (ReadRecord XXH3_64bits fuel mode want r).
Proof using Hln SequentialFileLaws0.
  intros Hlay Hoff Hok Ha Hpos Hd Hfuel.
  destruct (ReadRecord_start fuel mode want r content pos Ha) as (r1 & -> & Ha1 & <- & Hi).
  apply (read_layout _ _ _ _ _ Hlay fuel mode want r1 _ content pos [] rest); try done.
  destruct (layout_offset _ _ _ _ _ Hlay Hoff Hok) as (_ & _ & Hl).
  assert (frags_len fs <= Zlen content).
  { pose proof (f_equal Zlen Hd) as E. rewrite Zlen_zdrop, Zlen_app in E by apply (ap_pos _ _ _ Ha).
    pose proof (ap_pos _ _ _ Ha). pose proof (Zlen_nonneg rest). unfold frags_len. lia. }
  lia.
Qed.

Lemma ReadRecord_cut off d fs off' fuel mode want r content pos k :
  layout recycle off true d fs off' → 0 <= off <= kBlockSize → bytes_ok d →
  at_pos r content pos → pos mod kBlockSize = off mod kBlockSize →
  zdrop pos content = ztake k (frags_bytes ln fs) → 0 <= k < frags_len fs →
  2 * Zlen content + 3 <= Z.of_nat fuel →
  ends mode (reporter_ r) (ReadRecord XXH3_64bits fuel mode want r).
Proof using Hln SequentialFileLaws0.
  intros Hlay Hoff Hok Ha Hpos Hd Hk Hfuel.
  destruct (ReadRecord_start fuel mode want r content pos Ha) as (r1 & -> & Ha1 & <- & Hi).
  eapply (read_cut_layout _ _ _ _ _ Hlay fuel mode want r1 _ content pos [] k); try done.
  pose proof (f_equal Zlen Hd) as E. rewrite Zlen_zdrop, Zlen_ztake in E by
    (try apply (ap_pos _ _ _ Ha); unfold frags_len in *; lia).
  pose proof (ap_pos _ _ _ Ha). lia.
Qed.

(** At the end of a file that ends with a whole record nothing is reported,
    whatever the mode. *)
Lemma ReadRecord_end fuel mode want r content : at_pos r content (Zlen content) →
  3 <= Z.of_nat fuel →
  ∃ r' l', ReadRecord XXH3_64bits fuel mode want r = Some (false, [], r', l') ∧
    reporter_ r' = reporter_ r.
Proof using SequentialFileLaws0.
  intros Ha Hf. destruct (ReadRecord_start fuel mode want r _ _ Ha) as (r1 & -> & Ha1 & <- & _).
  pose proof (at_pos_buffer_len _ _ _ Ha1). pose proof (Zlen_nonneg (buffer_ r1)).
  pose proof (Zlen_nonneg (unread (file_ r1))).
  assert (Zlen (buffer_ r1) = 0) as Hb by lia. assert (Zlen (buffer_ r1) < kHeaderSize) by (consts; lia).
  assert (∃ r2, ReadPhysicalRecord XXH3_64bits fuel r1 [] 0 want = Some (mkPhys kEof [] 0 None, r2) ∧
    reporter_ r2 = reporter_ r1) as (r2 & E & <-).
  { destruct fuel as [|[|fuel]]; [lia..|]. rewrite ReadPhysicalRecord_short by done.
    destruct (eof_ r1) eqn:He; [rewrite ReadMore_eof, Hb by done; by eexists|].
    destruct (ReadMore_next _ _ _ _ Ha1 He Hb) as (r2 & -> & Ha2 & (<- & _) & _ & Hfull).
    pose proof (at_pos_buffer_len _ _ _ Ha2). pose proof (Zlen_nonneg (buffer_ r2)).
    pose proof (Zlen_nonneg (unread (file_ r2))).
    assert (Zlen (buffer_ r2) = 0) as Hb2 by lia.
    rewrite ReadPhysicalRecord_short by (consts; lia).
    rewrite ReadMore_eof, Hb2 by (destruct (eof_ r2); [done|]; specialize (Hfull eq_refl); consts; lia).
    by eexists. }
  destruct fuel as [|fuel]; [lia|].
  rewrite (loop_step fuel mode want r1 (mkLocals false 0 [] [] None) _ _ E) by done. by do 2 eexists.
Qed.

(** *** Records of an older log *)

(** A record of the recyclable format, written for another log, starts at the
    current position. *)
Definition old_record_at (content : bytes) (pos : Z) : Prop :=
  ∃ ln' t p rest, 1 <= t <= 11 ∧ legacy_type t = false ∧ bytes_ok p ∧ u32 ln' ≠ ln ∧
    pos mod kBlockSize + kRecyclableHeaderSize + Zlen p <= kBlockSize ∧
    zdrop pos content = phys_bytes ln' t p ++ rest.

Lemma old_record_len content pos : 0 <= pos <= Zlen content → old_record_at content pos →
  kRecyclableHeaderSize <= Zlen content - pos.
Proof.
  intros Hpos (ln' & t & p & rest & Ht & Hleg & Hp & _ & Hfit & Hd). pose proof (Zlen_nonneg p).
  pose proof (Zlen_nonneg rest). pose proof (Z.mod_pos_bound pos kBlockSize eq_refl).
  rewrite <- Zlen_zdrop, Hd, Zlen_app, Zlen_phys_bytes by (done || consts; lia).
  unfold header_size_of. rewrite Hleg. lia.
Qed.

Lemma read_old_here fuel r content pos frag drop want : at_pos r content pos →
  old_record_at content pos → Zlen (buffer_ r) ≠ 0 →
  ∃ r1, (r1 = r ∨ r1 = set_recycled r) ∧
    ReadPhysicalRecord XXH3_64bits (S fuel) r frag drop want
    = Some (mkPhys kOldRecord frag drop None, r1).
Proof.
  intros H (ln' & t & p & rest & Ht & Hleg & Hp & Hne & Hfit & Hd) Hb.
  pose proof (Zlen_nonneg p). pose proof (Z.mod_pos_bound pos kBlockSize eq_refl).
  assert (Zlen p < 65536) as Hn by (consts; lia).
  destruct (buffer_starts r content pos (phys_bytes ln' t p) rest) as (rest' & Eb & _); try done.
  { rewrite Zlen_phys_bytes by done. unfold header_size_of. rewrite Hleg. lia. }
  apply (ReadPhysicalRecord_old _ _ _ _ _ _ ln' t p rest'); try done. by rewrite (ap_number _ _ _ H).
Qed.

Lemma read_old fuel r content pos frag drop want : at_pos r content pos → old_record_at content pos →
  (∃ r1, ReadPhysicalRecord XXH3_64bits (S fuel) r frag drop want
     = Some (mkPhys kOldRecord frag drop None, r1) ∧ at_pos r1 content pos ∧ reporter_ r1 = reporter_ r)
  ∨ fuel = O ∧ ReadPhysicalRecord XXH3_64bits (S fuel) r frag drop want = None.
Proof using SequentialFileLaws0.
  intros H Hold. pose proof (old_record_len _ _ (ap_pos _ _ _ H) Hold) as Hl.
  pose proof (at_pos_buffer_len _ _ _ H) as HL.
  assert (∀ r1 r2, at_pos r1 content pos → r2 = r1 ∨ r2 = set_recycled r1 →
    at_pos r2 content pos ∧ reporter_ r2 = reporter_ r1) as Hrec.
  { intros r1 r2 Ha [->| ->]; [done|]. split; [by eapply at_pos_same|done]. }
  destruct (Z.lt_ge_cases (Zlen (buffer_ r)) kHeaderSize) as [Hs|Hs].
  - assert (eof_ r = false) as He.
    { destruct (eof_ r) eqn:He; [|done]. rewrite (ap_eof _ _ _ H He), Zlen_nil in HL. consts. lia. }
    assert (Zlen (buffer_ r) = 0) as Hb.
    { destruct Hold as (ln' & t & p & rest & _ & _ & _ & _ & Hfit & _). pose proof (Zlen_nonneg p).
      apply (at_pos_short r content pos 0 kHeaderSize); try done. left. consts. lia. }
    rewrite ReadPhysicalRecord_short by done.
    destruct (ReadMore_next _ _ _ _ H He Hb) as (r1 & -> & Ha1 & (<- & _) & _ & Hfull).
    rewrite Z.add_0_r in Ha1. destruct fuel as [|fuel]; [by right|left].
    destruct (read_old_here fuel r1 content pos frag drop want) as (r2 & Hr2 & ->); try done.
    { pose proof (at_pos_buffer_len _ _ _ Ha1) as HL1.
      destruct (eof_ r1) eqn:He1; [|rewrite Hfull by done; by compute].
      rewrite (ap_eof _ _ _ Ha1 He1), Zlen_nil in HL1. consts. lia. }
    eexists. split; [done|]. by apply Hrec.
  - left. destruct (read_old_here fuel r content pos frag drop want) as (r2 & Hr2 & ->);
      try done; [consts; lia|]. eexists. split; [done|]. by apply Hrec.
Qed.

(** Every mode but one takes an old record for the end of the log. *)
Lemma ReadRecord_old_stops fuel mode want r content pos : at_pos r content pos →
  old_record_at content pos → mode ≠ kSkipAnyCorruptedRecords → 2 <= Z.of_nat fuel →
  ∃ r' l', ReadRecord XXH3_64bits fuel mode want r = Some (false, [], r', l') ∧
    reporter_ r' = reporter_ r.
Proof using SequentialFileLaws0.
  intros Ha Hold Hmode Hf.
  destruct (ReadRecord_start fuel mode want r _ _ Ha) as (r1 & -> & Ha1 & <- & _).
  destruct fuel as [|[|fuel]]; [lia..|].
  destruct (read_old (S fuel) r1 content pos [] 0 want Ha1 Hold) as [(r2 & E & _ & <-)|[]]; [|done].
  rewrite (loop_step (S fuel) mode want r1 (mkLocals false 0 [] [] None) _ _ E) by done.
  destruct mode; [by do 2 eexists..|done].
Qed.

(** [kSkipAnyCorruptedRecords] goes round the loop again without having
    consumed anything. *)
Lemma loop_old_diverges fuel want r l content pos : at_pos r content pos →
  old_record_at content pos →
  ReadRecord_loop XXH3_64bits fuel kSkipAnyCorruptedRecords want r l = None.
Proof using SequentialFileLaws0.
  revert r l. induction fuel as [|fuel IH]; intros r l Ha Hold; [done|].
  destruct (read_old fuel r content pos (fragment_ l) 0 want Ha Hold) as [(r1 & E & Ha1 & _)|[_ E]].
  - rewrite (loop_step fuel kSkipAnyCorruptedRecords want r l _ _ E) by done.
    cbn [pr_type pr_result pr_drop_size].
    change (ReadRecord_switch XXH3_64bits kSkipAnyCorruptedRecords want ?a ?b kOldRecord ?c ?d)
      with (let '(r, l) := drop_fragmented c d in (@Again, r, l)).
    unfold drop_fragmented, continue_with. destruct (in_fragmented_record _); apply IH; try done.
    by eapply at_pos_same.
  - cbn [ReadRecord_loop]. by rewrite E.
Qed.
End ReaderLayout.

(** ** Whole logs *)

(** Adding records until one fails. *)
Fixpoint AddRecords {F C} `{!WritableFile F} `{!StreamingCompress C} (fuel : nat)
    (w : Writer F C) (ds : list bytes) : option (Status * Writer F C) :=
  match ds with
  | [] => Some (Status_OK, w)
  | d :: ds =>
      match AddRecord fuel w d with
      | None => None
      | Some (s, w) => if ok s then AddRecords fuel w ds else Some (s, w)
      end
  end.

(** [while (reader.ReadRecord(...))]: the records with their checksums, as long
    as there are fewer than [n]. *)
Fixpoint ReadRecords {F U} `{!SequentialFile F} `{!StreamingUncompress U} (XXH3_64bits : bytes → Z)
    (n fuel : nat) (mode : WALRecoveryMode) (want : bool) (r : Reader F U) :
    option (list (bytes * option Z) * Reader F U) :=
  match n with
  | O => None
  | S n =>
      match ReadRecord XXH3_64bits fuel mode want r with
      | None => None
      | Some (false, _, r, _) => Some ([], r)
      | Some (true, d, r, l) =>
          match ReadRecords XXH3_64bits n fuel mode want r with
          | None => None
          | Some (ds, r) => Some ((d, record_checksum l) :: ds, r)
          end
      end
  end.

Section Log.
Context {F C : Type} `{!WritableFile F} `{!WritableFileLaws F} `{!StreamingCompress C}.
Context {R U : Type} `{!SequentialFile R} `{!SequentialFileLaws R} `{!StreamingUncompress U}.
Context (XXH3_64bits : bytes → Z).
Implicit Types (w : Writer F C) (r : Reader R U).

Definition with_digest (want : bool) (d : bytes) : bytes * option Z :=
  (d, digest_of XXH3_64bits want d).

Lemma AddRecords_app fuel w ds1 ds2 s w' : AddRecords fuel w (ds1 ++ ds2) = Some (s, w') →
  ok s = true →
  ∃ s1 w1, AddRecords fuel w ds1 = Some (s1, w1) ∧ ok s1 = true ∧
    AddRecords fuel w1 ds2 = Some (s, w').
Proof.
  revert w. induction ds1 as [|d ds1 IH]; intros w H Hs; cbn in *; [by eauto 10|].
  destruct (AddRecord fuel w d) as [[s1 w1]|]; [|done].
  destruct (ok s1) eqn:E1; [|simplify_eq; congruence]. eauto.
Qed.

(** The reader returns the records [ds] in turn, without a report, each from a
    position in [content]. *)
Inductive reads_to (rfuel : nat) (mode : WALRecoveryMode) (want : bool) (content : bytes) :
    Reader R U → list bytes → Reader R U → Prop :=
  | reads_nil r : reads_to rfuel mode want content r [] r
  | reads_cons r d r1 l ds r' :
      ReadRecord XXH3_64bits rfuel mode want r = Some (true, d, r1, l) → reporter_ r1 = reporter_ r →
      record_checksum l = digest_of XXH3_64bits want d → LastRecordEnd r <= Zlen content →
      reads_to rfuel mode want content r1 ds r' → reads_to rfuel mode want content r (d :: ds) r'.

(** Reading what has been added, whatever follows it. *)
Lemma reads_added fuel w ds s w' : AddRecords fuel w ds = Some (s, w') → ok s = true →
  writer_ok w → (recycle_log_files_ w = true → is_u 32 (LogWriter.log_number_ w)) →
  Forall bytes_ok ds →
  writer_ok w' ∧ same_config w w' ∧
  ∃ out, contents (dest_ w') = contents (dest_ w) ++ out ∧
    (Zlen (contents (dest_ w)) mod kBlockSize = block_offset_ w mod kBlockSize →
     Zlen (contents (dest_ w')) mod kBlockSize = block_offset_ w' mod kBlockSize) ∧
    ∀ rfuel mode want r content pos rest, at_pos (LogWriter.log_number_ w) r content pos →
      pos mod kBlockSize = block_offset_ w mod kBlockSize → zdrop pos content = out ++ rest →
      2 * Zlen content + 3 <= Z.of_nat rfuel →
      ∃ r', at_pos (LogWriter.log_number_ w) r' content (pos + Zlen out) ∧ reporter_ r' = reporter_ r ∧
        reads_to rfuel mode want content r ds r'.
Proof.
  revert w. induction ds as [|d ds IH]; intros w H Hs Hw Hln Hok; cbn [AddRecords] in H.
  { simplify_eq. split; [done|]. split; [done|]. exists []. rewrite app_nil_r. split_and!; try done.
    intros. exists r. rewrite Zlen_nil, Z.add_0_r. split_and!; try done. constructor. }
  destruct (AddRecord fuel w d) as [[s1 w1]|] eqn:E1; [|done].
  destruct (ok s1) eqn:Es1; [|simplify_eq; congruence].
  apply Forall_cons in Hok as [Hd Hok].
  destruct (AddRecord_layout _ _ _ _ _ Hw E1 Es1) as (Hw1 & Hc1 & fs & Hlay & Hout).
  destruct Hc1 as (El1 & Er1 & Em1). pose proof (wo_offset _ Hw) as Hoff.
  destruct (layout_offset XXH3_64bits (LogWriter.log_number_ w) _ _ _ _ _ _ Hlay Hoff Hd) as (_ & Hmod & _).
  unfold frags_len in Hmod. set (o1 := frags_bytes _ fs) in *.
  destruct (IH w1 H Hs Hw1) as (Hw' & Hc' & out & Ho & Hoo & Hread); [by rewrite Er1, El1|done|].
  split; [done|]. split; [by apply (same_config_trans _ w1)|]. exists (o1 ++ out).
  split; [by rewrite Ho, Hout, app_assoc|]. split.
  { intros Hz. apply Hoo. rewrite Hout, Zlen_app, <- Hmod. consts. zlia. }
  intros rfuel mode want r content pos rest Ha Hpos Hdrop Hfuel.
  rewrite <- app_assoc in Hdrop.
  destruct (ReadRecord_layout XXH3_64bits (LogWriter.log_number_ w) (recycle_log_files_ w) Hln
    _ d fs _ rfuel mode want r content pos (out ++ rest) Hlay Hoff Hd Ha Hpos Hdrop Hfuel)
    as (r1 & l1 & Er & Ha1 & Hr1 & Hck).
  rewrite El1 in Hread. unfold frags_len in Ha1. fold o1 in Ha1.
  pose proof (Zlen_nonneg o1). pose proof (ap_pos _ _ _ _ Ha).
  destruct (Hread rfuel mode want r1 content (pos + Zlen o1) rest) as (r' & Ha' & Hr' & E); try done.
  { rewrite <- Hmod. consts. zlia. }
  { rewrite <- zdrop_zdrop, Hdrop by lia. by apply zdrop_app. }
  exists r'. rewrite Zlen_app, Z.add_assoc. split; [done|]. split; [congruence|].
  apply (reads_cons _ _ _ _ r d r1 l1); try done. unfold LastRecordEnd. rewrite (ap_end _ _ _ _ Ha). lia.
Qed.

Lemma ReadRecords_reads rfuel mode want content r ds r' : reads_to rfuel mode want content r ds r' → ∀ n,
  ReadRecords XXH3_64bits (length ds + n) rfuel mode want r =
    (λ '(ds', r), (map (with_digest want) ds ++ ds', r)) <$> ReadRecords XXH3_64bits n rfuel mode want r'.
Proof.
  induction 1 as [r|r d r1 l ds r' E Hr Hck Hend H IH]; intros n; [cbn; by destruct (ReadRecords _ n _ _ _ _) as [[]|]|].
  cbn [ReadRecords length Nat.add map]. rewrite E, IH, Hck. by destruct (ReadRecords _ n _ _ _ r') as [[]|].
Qed.
End Log.
