(* ===== verification/LogCorrect.v ===== *)
(** * Correctness of the write-ahead log

    The theorems on whole logs: what is added is read back, a log cut at any
    byte yields exactly the records that were complete, a recycled file ends
    where the records of its previous life begin, and the two ways in which
    recycling goes wrong. *)

From S2P Require Import Prelude Status Coding Crc32c LogFormat LogWriter LogReader LogRecord LogRoundTrip.
From stdpp Require Import gmap.
#[local] Open Scope Z_scope.
#[local] Opaque ztake zdrop Zlen.

Section Log.
Context {F C : Type} `{!WritableFile F} `{!WritableFileLaws F} `{!StreamingCompress C}.
Context {R U : Type} `{!SequentialFile R} `{!SequentialFileLaws R} `{!StreamingUncompress U}.
Context (XXH3_64bits : bytes → Z).

(** Reading a file that starts with a log made of the records [ds]. *)
Lemma ReadRecords_prefix f ln recycle mf fuel ds s (w : Writer F C) (rf : R) rep checksum tl
    rfuel mode want n :
  contents f = [] → (recycle = true → is_u 32 ln) → Forall bytes_ok ds →
  AddRecords fuel (NewWriter f ln recycle mf kNoCompression) ds = Some (s, w) → ok s = true →
  unread rf = contents (dest_ w) ++ tl → 2 * Zlen (unread rf) + 3 <= Z.of_nat rfuel →
  writer_ok w ∧ LogWriter.log_number_ w = ln ∧ recycle_log_files_ w = recycle ∧
  Zlen (contents (dest_ w)) mod kBlockSize = block_offset_ w mod kBlockSize ∧
  ∃ r' : Reader R U, at_pos ln r' (unread rf) (Zlen (contents (dest_ w))) ∧ reporter_ r' = rep ∧
    reads_to XXH3_64bits rfuel mode want (unread rf) (NewReader rf rep checksum ln) ds r' ∧
    ReadRecords XXH3_64bits (length ds + n) rfuel mode want (NewReader rf rep checksum ln) =
      (λ '(ds', r), (map (with_digest XXH3_64bits want) ds ++ ds', r)) <$>
        ReadRecords XXH3_64bits n rfuel mode want r'.
Proof using All.
  intros Hf Hln Hds HA Hs Hrf Hfuel.
  destruct (reads_added XXH3_64bits _ _ _ _ _ HA Hs (NewWriter_ok f ln recycle mf _) Hln Hds)
    as (Hw & (El & Er & _) & out & Hout & Hoff & Hread). cbn in Hout, El, Er, Hoff.
  rewrite Hf in Hout. cbn in Hout. rewrite Hf in Hoff. specialize (Hoff eq_refl).
  rewrite Hout in *. do 4 (split; [done|]).
  destruct (Hread rfuel mode want (NewReader rf rep checksum ln) (unread rf) 0 tl)
    as (r' & Ha & Hr & E); [apply at_pos_new|done|by rewrite zdrop_0, Hrf|done|].
  exists r'. split_and!; [done..|]. by apply (ReadRecords_reads _ _ _ _ (unread rf)).
Qed.

(** C2: the records added to a new log, in either format and without
    compression, are exactly the records a reader returns from the file, in
    order, each with the checksum of its data; then the reader says that
    there are no more, and it never reports a corruption. *)
Theorem log_round_trip f ln recycle mf fuel ds s (w : Writer F C) (rf : R) rep checksum rfuel mode want :
  contents f = [] → (recycle = true → is_u 32 ln) → Forall bytes_ok ds →
  AddRecords fuel (NewWriter f ln recycle mf kNoCompression) ds = Some (s, w) → ok s = true →
  unread rf = contents (dest_ w) → 2 * Zlen (unread rf) + 3 <= Z.of_nat rfuel →
  ∃ r' : Reader R U,
    ReadRecords XXH3_64bits (S (length ds)) rfuel mode want (NewReader rf rep checksum ln)
    = Some (map (λ d, (d, if want then Some (XXH3_64bits d) else None)) ds, r') ∧ reporter_ r' = rep.
Proof using All.
  intros Hf Hln Hds HA Hs Hrf Hfuel.
  destruct (ReadRecords_prefix f ln recycle mf fuel ds s w rf rep checksum [] rfuel mode want 1)
    as (_ & _ & _ & _ & r' & Ha & Hr & _ & E); try done; [by rewrite app_nil_r|].
  rewrite <- Hrf in Ha. pose proof (Zlen_nonneg (unread rf)).
  destruct (ReadRecord_end XXH3_64bits ln rfuel mode want r' _ Ha) as (r2 & l2 & E2 & Hr2); [lia|].
  exists r2. rewrite Nat.add_1_r in E. rewrite E. cbn. rewrite E2. cbn. rewrite app_nil_r.
  split; [done|congruence].
Qed.

(** A log that is cut within the record that follows [ds]: the records before it
    are read, and then there is no more. *)
Lemma reads_cut f ln recycle mf fuel ds d s (w : Writer F C) s' (w' : Writer F C)
    (rf : R) rep checksum rfuel mode want k :
  contents f = [] → (recycle = true → is_u 32 ln) → Forall bytes_ok (ds ++ [d]) →
  AddRecords fuel (NewWriter f ln recycle mf kNoCompression) ds = Some (s, w) → ok s = true →
  AddRecord fuel w d = Some (s', w') → ok s' = true →
  Zlen (contents (dest_ w)) <= k < Zlen (contents (dest_ w')) →
  unread rf = ztake k (contents (dest_ w')) → 2 * Zlen (unread rf) + 3 <= Z.of_nat rfuel →
  ∃ (r1 r2 : Reader R U) l2,
    reads_to XXH3_64bits rfuel mode want (unread rf) (NewReader rf rep checksum ln) ds r1 ∧ reporter_ r1 = rep ∧
    LastRecordEnd r1 <= Zlen (unread rf) ∧ ReadRecord XXH3_64bits rfuel mode want r1 = Some (false, [], r2, l2) ∧
    (mode = kTolerateCorruptedTailRecords ∨ mode = kSkipAnyCorruptedRecords → reporter_ r2 = rep).
Proof using All.
  intros Hf Hln Hds HA Hs HA' Hs' Hk Hrf Hfuel. apply Forall_app in Hds as [Hds Hd].
  apply Forall_cons in Hd as [Hd _].
  destruct (reads_added XXH3_64bits _ _ _ _ _ HA Hs (NewWriter_ok f ln recycle mf _) Hln Hds)
    as (Hw & (El & Er & _) & _). cbn in El, Er.
  destruct (AddRecord_layout _ _ _ _ _ Hw HA' Hs') as (Hw' & _ & fs & Hlay & Hout).
  rewrite El in Hout. rewrite Er in Hlay. rewrite Hout, ztake_app_ge in Hrf by lia.
  rewrite Hout, Zlen_app in Hk.
  destruct (ReadRecords_prefix f ln recycle mf fuel ds s w rf rep checksum
    (ztake (k - Zlen (contents (dest_ w))) (frags_bytes ln fs)) rfuel mode want 1)
    as (_ & _ & _ & Hoff & r' & Ha & Hr & Hreads & _); try done.
  destruct (ReadRecord_cut XXH3_64bits ln recycle Hln (block_offset_ w) d fs (block_offset_ w')
    rfuel mode want r' (unread rf) (Zlen (contents (dest_ w))) (k - Zlen (contents (dest_ w))))
    as (r2 & l2 & E2 & Hr2); try done; [apply (wo_offset _ Hw)| |unfold frags_len; lia|].
  { rewrite Hrf. by apply zdrop_app. }
  exists r', r2, l2. split_and!; try done.
  - unfold LastRecordEnd. rewrite (ap_end _ _ _ _ Ha). pose proof (ap_pos _ _ _ _ Ha). lia.
  - intros Hmode. rewrite Hr2; [done|]. by destruct Hmode as [->| ->].
Qed.

Lemma ReadRecords_cut f ln recycle mf fuel ds d s (w : Writer F C) s' (w' : Writer F C)
    (rf : R) rep checksum rfuel mode want k :
  contents f = [] → (recycle = true → is_u 32 ln) → Forall bytes_ok (ds ++ [d]) →
  AddRecords fuel (NewWriter f ln recycle mf kNoCompression) ds = Some (s, w) → ok s = true →
  AddRecord fuel w d = Some (s', w') → ok s' = true →
  Zlen (contents (dest_ w)) <= k < Zlen (contents (dest_ w')) →
  unread rf = ztake k (contents (dest_ w')) → 2 * Zlen (unread rf) + 3 <= Z.of_nat rfuel →
  ∃ r' : Reader R U,
    ReadRecords XXH3_64bits (S (length ds)) rfuel mode want (NewReader rf rep checksum ln)
    = Some (map (λ d, (d, if want then Some (XXH3_64bits d) else None)) ds, r') ∧
    (mode = kTolerateCorruptedTailRecords ∨ mode = kSkipAnyCorruptedRecords → reporter_ r' = rep).
Proof using All.
  intros Hf Hln Hds HA Hs HA' Hs' Hk Hrf Hfuel.
  destruct (reads_cut f ln recycle mf fuel ds d s w s' w' rf rep checksum rfuel mode want k)
    as (r1 & r2 & l2 & Hreads & _ & _ & E2 & Hr2); try done.
  exists r2. rewrite <- Nat.add_1_r, (ReadRecords_reads _ _ _ _ _ _ _ _ Hreads). cbn. rewrite E2. cbn. by rewrite app_nil_r.
Qed.

(** C3: a log file cut at an arbitrary byte (a crash before everything was
    written out) yields exactly the records that lie completely before the
    cut: the record in which the cut falls is dropped as a whole, even when
    it spans several blocks, and in the modes that tolerate a torn tail
    nothing is reported. *)
Theorem log_cut_recovers_prefix f ln recycle mf fuel ds d s (w : Writer F C) s' (w' : Writer F C)
    (rf : R) rep checksum rfuel mode want k :
  contents f = [] → (recycle = true → is_u 32 ln) → Forall bytes_ok (ds ++ [d]) →
  AddRecords fuel (NewWriter f ln recycle mf kNoCompression) ds = Some (s, w) → ok s = true →
  AddRecord fuel w d = Some (s', w') → ok s' = true →
  Zlen (contents (dest_ w)) <= k < Zlen (contents (dest_ w')) →
  unread rf = ztake k (contents (dest_ w')) → 2 * Zlen (unread rf) + 3 <= Z.of_nat rfuel →
  ∃ r' : Reader R U,
    ReadRecords XXH3_64bits (S (length ds)) rfuel mode want (NewReader rf rep checksum ln)
    = Some (map (λ d, (d, if want then Some (XXH3_64bits d) else None)) ds, r') ∧
    (mode = kTolerateCorruptedTailRecords ∨ mode = kSkipAnyCorruptedRecords → reporter_ r' = rep).
Proof using All. apply ReadRecords_cut. Qed.

(** C33: a recycled file holds the current log followed by records of the log
    it held before. In every mode but [kSkipAnyCorruptedRecords] reading
    stops, without a report, at the first record of the older log. *)
Theorem recycled_log_stops f ln mf fuel ds s (w : Writer F C) (rf : R) rep checksum rfuel mode want old :
  contents f = [] → is_u 32 ln → Forall bytes_ok ds →
  AddRecords fuel (NewWriter f ln true mf kNoCompression) ds = Some (s, w) → ok s = true →
  unread rf = contents (dest_ w) ++ old → old_record_at ln (unread rf) (Zlen (contents (dest_ w))) →
  2 * Zlen (unread rf) + 3 <= Z.of_nat rfuel → mode ≠ kSkipAnyCorruptedRecords →
  ∃ r' : Reader R U,
    ReadRecords XXH3_64bits (S (length ds)) rfuel mode want (NewReader rf rep checksum ln)
    = Some (map (λ d, (d, if want then Some (XXH3_64bits d) else None)) ds, r') ∧ reporter_ r' = rep.
Proof using All.
  intros Hf Hln Hds HA Hs Hrf Hold Hfuel Hmode.
  destruct (ReadRecords_prefix f ln true mf fuel ds s w rf rep checksum old rfuel mode want 1)
    as (_ & _ & _ & _ & r' & Ha & Hr & _ & E); try done.
  pose proof (Zlen_nonneg (unread rf)).
  destruct (ReadRecord_old_stops XXH3_64bits ln rfuel mode want r' _ _ Ha Hold)
    as (r2 & l2 & E2 & Hr2); [done|lia|].
  exists r2. rewrite Nat.add_1_r in E. rewrite E. cbn. rewrite E2. cbn. rewrite app_nil_r.
  split; [done|congruence].
Qed.

(** C34: under [kSkipAnyCorruptedRecords] the same file is never read to its
    end: [ReadPhysicalRecord] leaves the old record in the buffer and the loop
    of [ReadRecord] meets it again for ever, so that no number of iterations
    is enough. *)
Theorem recycled_log_skip_any_diverges f ln mf fuel ds s (w : Writer F C) (rf : R) rep checksum rfuel
    want old :
  contents f = [] → is_u 32 ln → Forall bytes_ok ds →
  AddRecords fuel (NewWriter f ln true mf kNoCompression) ds = Some (s, w) → ok s = true →
  unread rf = contents (dest_ w) ++ old → old_record_at ln (unread rf) (Zlen (contents (dest_ w))) →
  2 * Zlen (unread rf) + 3 <= Z.of_nat rfuel →
  ReadRecords XXH3_64bits (S (length ds)) rfuel kSkipAnyCorruptedRecords want
    (NewReader (U:=U) rf rep checksum ln) = None.
Proof using All.
  intros Hf Hln Hds HA Hs Hrf Hold Hfuel.
  destruct (ReadRecords_prefix f ln true mf fuel ds s w rf rep checksum old rfuel
    kSkipAnyCorruptedRecords want 1) as (_ & _ & _ & _ & r' & Ha & Hr & _ & E); try done.
  rewrite Nat.add_1_r in E. rewrite E. cbn.
  destruct (ReadRecord_start XXH3_64bits ln rfuel kSkipAnyCorruptedRecords want r' _ _ Ha)
    as (r1 & -> & Ha1 & _ & _).
  by rewrite (loop_old_diverges XXH3_64bits ln rfuel want r1 _ _ _ Ha1).
Qed.


End Log.

Section TimestampRecord.
Context {F C : Type} `{!WritableFile F} `{!WritableFileLaws F} `{!StreamingCompress C}.

(** A record emitted without room for it leaves the offset beyond the block,
    which the next [AddRecord] takes for a block that is exactly full. *)
Lemma AddRecord_overrun fuel (w : Writer F C) d : kBlockSize < block_offset_ w →
  AddRecord (S fuel) w d = AddRecord (S fuel) (set_block_offset w 0) d.
Proof.
  intros Hoff. unfold AddRecord. cbn [compress_ set_block_offset compression_type_].
  assert (∀ w' : Writer F C, block_offset_ w' = block_offset_ w → ∀ b,
    AddRecord_loop (S fuel) w' d d true 0 b
    = AddRecord_loop (S fuel) (set_block_offset w' 0) d d true 0 b) as E.
  { intros w' E b. cbn [AddRecord_loop]. unfold switch_block. rewrite E. cbn [block_offset_ set_block_offset].
    fold (hsize (recycle_log_files_ w')). pose proof (hsize_range (recycle_log_files_ w')).
    destruct (Z.ltb_spec (kBlockSize - block_offset_ w) (hsize (recycle_log_files_ w'))); [|lia].
    destruct (Z.ltb_spec 0 (kBlockSize - block_offset_ w)); [lia|].
    change (recycle_log_files_ (set_block_offset w' 0)) with (recycle_log_files_ w').
    fold (hsize (recycle_log_files_ w')).
    destruct (Z.ltb_spec (kBlockSize - 0) (hsize (recycle_log_files_ w'))); [consts; lia|]. done. }
  destruct (compress_ w); by rewrite E.
Qed.

(** [MaybeAddUserDefinedTimestampSizeRecord] does not start a new block
    when its record does not fit: the record crosses the block boundary, and
    from the next record on the writer's block offset no longer follows the
    position in the file (so that a reader, which reads whole blocks, looks
    for headers in the wrong places). *)
Theorem timestamp_record_overruns_block (w : Writer F C) cf ts_sz s1 w1 fuel d s2 w2 :
  writer_ok w → LogWriter.recorded_cf_to_ts_sz_ w !! cf = None → is_u 16 ts_sz → ts_sz ≠ 0 →
  kBlockSize - block_offset_ w < hsize (recycle_log_files_ w) + 6 →
  MaybeAddUserDefinedTimestampSizeRecord w [(cf, ts_sz)] = (s1, w1) → ok s1 = true →
  bytes_ok d → AddRecord (S fuel) w1 d = Some (s2, w2) → ok s2 = true →
  kBlockSize < block_offset_ w1 ∧
  (Zlen (contents (dest_ w2)) - Zlen (contents (dest_ w))) mod kBlockSize
    ≠ (block_offset_ w2 - block_offset_ w) mod kBlockSize.
Proof using All.
  intros Hw Hcf Hu Hts Hroom HM Hs1 Hd HA Hs2. pose proof (wo_offset _ Hw).
  unfold MaybeAddUserDefinedTimestampSizeRecord, ts_sz_to_record in HM. cbn in HM. rewrite Hcf in HM.
  destruct (Z.eqb_spec ts_sz 0) as [|_]; [done|]. cbn [negb] in HM.
  set (rec := if recycle_log_files_ _ then _ else _) in HM.
  set (p := UserDefinedTimestampSizeRecord.EncodeTo [] _) in HM.
  set (w0 := LogWriter.set_recorded w _) in HM.
  assert (writer_ok w0) as Hw0 by (by destruct Hw).
  assert (1 <= rec <= 11 ∧ header_size_of rec = hsize (recycle_log_files_ w)) as [Hrec Eh].
  { unfold rec. cbn. by destruct (recycle_log_files_ w). }
  assert (Zlen p = 6 ∧ bytes_ok p) as [Hp Hpok].
  { split; [apply UserDefinedTimestampSizeRecord.Zlen_EncodeTo|apply UserDefinedTimestampSizeRecord.bytes_ok_EncodeTo]. }
  clearbody p.
  destruct (EmitPhysicalRecord_any w0 _ _ _ _ Hw0 Hrec HM) as (Hw1 & (El1 & Er1 & _) & Eo1 & Hout1).
  change (block_offset_ w0) with (block_offset_ w) in Eo1. change (dest_ w0) with (dest_ w) in Hout1.
  rewrite Eh, Hp in Eo1. specialize (Hout1 Hs1).
  split; [lia|]. rewrite AddRecord_overrun in HA by lia.
  destruct (AddRecord_layout _ _ _ _ _ Hw1 HA Hs2) as (_ & _ & fs & Hlay & Hout2).
  cbn in Hlay, Hout2.
  destruct (layout_offset (λ _, 0) (LogWriter.log_number_ w1) _ _ _ _ _ _ Hlay) as (_ & Hmod & _);
    [done|done|]. unfold frags_len in Hmod.
  rewrite Hout2, Hout1, !Zlen_app, Zlen_phys_bytes, Eh, Hp by (done || lia).
  pose proof (hsize_range (recycle_log_files_ w)). consts. zlia.
Qed.
End TimestampRecord.

(** ** Examples

    Three records in a file in memory, read back without a decompressor and
    with a toy hash. *)
Module LogExample.
Definition xxh (d : bytes) : Z := fold_left (λ h b, wrap 64 (31 * h + b)) d 17.
Definition records : list bytes := [[1; 2; 3]; []; [200; 201]].
Definition memfile (d : bytes) : MemFile := mkMemFile d 0 [].
Definition new_writer (ln : Z) (recycle : bool) : Writer MemFile unit :=
  NewWriter (memfile []) ln recycle false kNoCompression.
Definition written (ln : Z) (recycle : bool) (ds : list bytes) : Writer MemFile unit :=
  match AddRecords 10 (new_writer ln recycle) ds with Some (_, w) => w | None => new_writer ln recycle end.
Definition file_of (ln : Z) (recycle : bool) (ds : list bytes) : bytes :=
  contents (dest_ (written ln recycle ds)).

Lemma written_ok ln recycle : ln = 5 ∨ ln = 2 ^ 32 + 5 →
  AddRecords 10 (new_writer ln recycle) records = Some (Status_OK, written ln recycle records).
Proof. intros [->| ->]; destruct recycle; vm_compute; reflexivity. Qed.
Lemma records_ok : Forall bytes_ok records.
Proof. repeat constructor; by compute. Qed.

Lemma log_round_trip_witness : ∃ r' : Reader bytes unit,
  ReadRecords xxh 4 200 kAbsoluteConsistency true (NewReader (file_of 5 true records) (Some []) true 5)
  = Some (map (λ d, (d, Some (xxh d))) records, r') ∧ reporter_ r' = Some [].
Proof.
  apply (log_round_trip (U:=unit) xxh (memfile []) 5 true false 10 records Status_OK
  (written 5 true records) (file_of 5 true records) (Some []) true 200 kAbsoluteConsistency true).
  - reflexivity.
  - intros _. by compute.
  - apply records_ok.
  - by apply written_ok; left.
  - reflexivity.
  - reflexivity.
  - vm_compute. discriminate.
Defined.

(** The file is cut one byte before the end of the third record. *)
Lemma log_cut_recovers_prefix_witness : ∃ r' : Reader bytes unit,
  ReadRecords xxh 3 200 kTolerateCorruptedTailRecords false
  (NewReader (ztake 22 (file_of 5 false records)) (Some []) true 5)
  = Some ([([1; 2; 3], None); ([], None)], r') ∧
  (kTolerateCorruptedTailRecords = kTolerateCorruptedTailRecords ∨
   kTolerateCorruptedTailRecords = kSkipAnyCorruptedRecords → reporter_ r' = Some []).
Proof.
  apply (log_cut_recovers_prefix (U:=unit) xxh (memfile []) 5 false false 10 [[1; 2; 3]; []] [200; 201]
  Status_OK (written 5 false [[1; 2; 3]; []]) Status_OK (written 5 false records)
  (ztake 22 (file_of 5 false records)) (Some []) true 200 kTolerateCorruptedTailRecords false 22).
  - reflexivity.
  - discriminate.
  - apply records_ok.
  - vm_compute. reflexivity.
  - reflexivity.
  - vm_compute. reflexivity.
  - reflexivity.
  - vm_compute. split; [discriminate|reflexivity].
  - reflexivity.
  - vm_compute. discriminate.
Defined.

(** Log 5 on top of what log 3 left in the file. *)
Definition recycled : bytes := file_of 5 true records ++ file_of 3 true [[7; 8]].

Lemma recycled_old_record : old_record_at 5 recycled (Zlen (file_of 5 true records)).
Proof.
  exists 3, kRecyclableFullType, [7; 8], []. split_and!; try (by vm_compute).
  repeat constructor; by compute.
Qed.

Lemma recycled_log_stops_witness : ∃ r' : Reader bytes unit,
  ReadRecords xxh 4 200 kPointInTimeRecovery false (NewReader recycled (Some []) true 5)
  = Some (map (λ d, (d, None)) records, r') ∧ reporter_ r' = Some [].
Proof.
  apply (recycled_log_stops (U:=unit) xxh (memfile []) 5 false 10 records Status_OK
  (written 5 true records) recycled (Some []) true 200 kPointInTimeRecovery false
  (file_of 3 true [[7; 8]])).
  - reflexivity.
  - by compute.
  - apply records_ok.
  - by apply written_ok; left.
  - reflexivity.
  - reflexivity.
  - apply recycled_old_record.
  - vm_compute. discriminate.
  - discriminate.
Defined.

Lemma recycled_log_skip_any_diverges_witness :
  ReadRecords xxh 4 200 kSkipAnyCorruptedRecords false
  (NewReader (U:=unit) recycled (Some []) true 5) = None.
Proof.
  apply (recycled_log_skip_any_diverges (U:=unit) xxh (memfile []) 5 false 10 records Status_OK
  (written 5 true records) recycled (Some []) true 200 false (file_of 3 true [[7; 8]])).
  - reflexivity.
  - by compute.
  - apply records_ok.
  - by apply written_ok; left.
  - reflexivity.
  - reflexivity.
  - apply recycled_old_record.
  - vm_compute. discriminate.
Defined.


(** A writer eight bytes before the end of a block. *)
Definition near_end : Writer MemFile unit := set_block_offset (new_writer 5 false) (kBlockSize - 8).
Definition after_ts : Writer MemFile unit := snd (MaybeAddUserDefinedTimestampSizeRecord near_end [(1, 8)]).

Lemma timestamp_record_overruns_block_witness : kBlockSize < block_offset_ after_ts.
Proof.
  refine (proj1 (timestamp_record_overruns_block near_end 1 8 Status_OK after_ts 9 [1]
  Status_OK (match AddRecord 10 after_ts [1] with Some (_, w) => w | None => after_ts end)
  _ _ _ _ _ _ _ _ _ _)).
  - destruct (NewWriter_ok (C:=unit) (memfile []) 5 false false kNoCompression). by split.
  - reflexivity.
  - by compute.
  - discriminate.
  - by compute.
  - vm_compute. reflexivity.
  - reflexivity.
  - repeat constructor; by compute.
  - vm_compute. reflexivity.
  - reflexivity.
Defined.
End LogExample.
