(* ===== verification/WalBatch.v ===== *)
(** * Write batches in the write-ahead log

    The log and the write batches together: each record of a log is the contents
    of a write batch, and after a crash the batches that were written completely
    are replayed, and nothing else. *)

From S2P Require Import Prelude Status Coding Crc32c LogFormat LogWriter LogReader LogRecord LogRoundTrip LogCorrect.
From S2P Require Import SortedLists DbFormat WideColumns WriteBatch WriteBatchCorrect WriteBatchCompose.
#[local] Open Scope Z_scope.
#[local] Opaque ztake zdrop Zlen EncodeVarint32.

(** ** The bytes of a batch are bytes *)

Definition rec_bytes (r : Rec) : Prop :=
  match r with
  | RKeyValue _ _ key value => bytes_ok key ∧ bytes_ok value
  | RKey _ _ key => bytes_ok key
  | RLogData s | RXid _ s => bytes_ok s
  | RMark _ => True
  | RCommitTs xid ts => bytes_ok xid ∧ bytes_ok ts
  end.

Lemma bytes_ok_enc_slice s : bytes_ok s → bytes_ok (enc_slice s).
Proof. intros Hs. unfold enc_slice. apply bytes_ok_app. split; [apply bytes_ok_EncodeVarint32|done]. Qed.

Lemma bytes_ok_enc_cf cf : bytes_ok (enc_cf cf).
Proof. unfold enc_cf. destruct (cf =? 0); [apply bytes_ok_nil|apply bytes_ok_EncodeVarint32]. Qed.

Lemma bytes_ok_enc r : rec_bytes r → bytes_ok (enc r).
Proof.
  intros Hr. constructor.
  - destruct r as [k cf key value|k cf key|blob|k|k xid|xid ts]; cbn [rec_tag]; try (destruct k); unfold pick;
      try (destruct (cf =? 0)); by vm_compute.
  - fold (bytes_ok (enc_body r)). destruct r as [k cf key value|k cf key|blob|k|k xid|xid ts]; cbn [enc_body rec_bytes] in *; rewrite ?bytes_ok_app;
      repeat match goal with H : _ ∧ _ |- _ => destruct H end; split_and?;
      auto using bytes_ok_enc_slice, bytes_ok_enc_cf, bytes_ok_nil.
Qed.

Lemma bytes_ok_batch seq count rs : Forall rec_bytes rs → bytes_ok (batch_bytes seq count rs).
Proof.
  intros Hrs. unfold batch_bytes. rewrite !bytes_ok_app. split_and!; [apply bytes_ok_EncodeFixed64|apply bytes_ok_EncodeFixed32|].
  induction Hrs as [|r rs Hr Hrs IH]; [apply bytes_ok_nil|]. change (enc_all (r :: rs)) with (enc r ++ enc_all rs).
  apply bytes_ok_app. split; [by apply bytes_ok_enc|done].
Qed.

(** ** Replaying a log *)

(** A batch: its sequence number and its records. *)
Definition Batch : Type := Z * list Rec.
Definition contents_of (b : Batch) : bytes := batch_bytes (fst b) (u32 (total (snd b))) (snd b).
Definition batch_wf (b : Batch) : Prop := Forall rec_ok (snd b) ∧ Forall rec_bytes (snd b).

Section Apply.
Context {H : Type} (handler : Handler H).

(** Each record of a log as the contents of a batch, which is iterated over until
    one of them fails. *)
Fixpoint apply_records (ds : list bytes) (h : H) : option (Status * H) :=
  match ds with
  | [] => Some (Status_OK, h)
  | d :: ds =>
      '(s, h) ← Iterate handler (SetContents (NewWriteBatch 0 0) d) h;
      if ok s then apply_records ds h else Some (s, h)
  end.
(** The same on the batches themselves. *)
Fixpoint apply_batches (bs : list Batch) (h : H) : Status * H :=
  match bs with
  | [] => (Status_OK, h)
  | b :: bs =>
      let '(s, h) := outcome true (replay handler (snd b) (mkProgress Status_OK true 0 h)) in
      if ok s then apply_batches bs h else (s, h)
  end.

Lemma apply_records_batches bs h : Forall batch_wf bs → apply_records (map contents_of bs) h = Some (apply_batches bs h).
Proof using.
  intros Hbs. revert h. induction Hbs as [|b bs [Hb _] Hbs IH]; intros h; [done|]. cbn [map apply_records apply_batches].
  rewrite (Iterate_batch handler (SetContents (NewWriteBatch 0 0) (contents_of b)) (fst b) (u32 (total (snd b))) (snd b) h (wrap_range 32 _ ltac:(lia)) Hb eq_refl).
  rewrite Z.eqb_refl. cbn. destruct (outcome _ _) as [s h']. destruct (ok s); [apply IH|done].
Qed.
End Apply.

Section Wal.
Context {F C : Type} `{!WritableFile F} `{!WritableFileLaws F} `{!StreamingCompress C}.
Context {R U : Type} `{!SequentialFile R} `{!SequentialFileLaws R} `{!StreamingUncompress U}.
Context (XXH3_64bits : bytes → Z) {H : Type} (handler : Handler H).

(** C5: write batches survive a crash as wholes. If batches are written to a new
    log and the file is cut at any byte of the last of them, reading the log and
    iterating over its records hands the handler the records of all the batches
    before it, one batch after the other and with the same outcome as if the
    batches themselves were replayed; of the batch in which the cut is, the
    handler sees nothing; and a reader that tolerates a torn tail reports
    nothing. *)
Theorem wal_replays_complete_batches f ln recycle mf fuel bs b s (w : Writer F C) s' (w' : Writer F C)
    (rf : R) rep checksum rfuel mode k h :
  contents f = [] → (recycle = true → is_u 32 ln) → Forall batch_wf (bs ++ [b]) →
  AddRecords fuel (NewWriter f ln recycle mf kNoCompression) (map contents_of bs) = Some (s, w) → ok s = true →
  AddRecord fuel w (contents_of b) = Some (s', w') → ok s' = true →
  Zlen (contents (dest_ w)) <= k < Zlen (contents (dest_ w')) →
  unread rf = ztake k (contents (dest_ w')) → 2 * Zlen (unread rf) + 3 <= Z.of_nat rfuel →
  ∃ ds (r' : Reader R U),
    ReadRecords XXH3_64bits (S (length bs)) rfuel mode false (NewReader rf rep checksum ln) = Some (ds, r') ∧
    apply_records handler (map fst ds) h = Some (apply_batches handler bs h) ∧
    (mode = kTolerateCorruptedTailRecords ∨ mode = kSkipAnyCorruptedRecords → reporter_ r' = rep).
Proof using All.
  intros Hf Hln Hwf HA Hs HA' Hs' Hk Hrf Hfuel.
  destruct (ReadRecords_cut (U := U) XXH3_64bits f ln recycle mf fuel (map contents_of bs) (contents_of b) s w s' w' rf rep
    checksum rfuel mode false k) as (r' & E & Hrep); try done.
  { replace (map contents_of bs ++ [contents_of b]) with (map contents_of (bs ++ [b])) by by rewrite map_app.
    rewrite Forall_map. apply (Forall_impl _ _ _ Hwf). intros x [_ Hx]. by apply bytes_ok_batch. }
  rewrite length_map in E. do 2 eexists. split; [exact E|]. split; [|done].
  rewrite map_map. cbn [fst]. rewrite map_id. apply apply_records_batches. by apply Forall_app in Hwf as [? _].
Qed.
End Wal.
#[local] Transparent ztake zdrop Zlen EncodeVarint32.

Module WalExample.
Import LogExample ComposeExample.
Definition batches : list Batch := [(100, [r1; r2]); (102, [])].
Definition last_batch : Batch := (102, [r2]).

Lemma batches_wf : Forall batch_wf (batches ++ [last_batch]).
Proof. repeat constructor; (done || by vm_compute). Qed.

Lemma wal_replays_complete_batches_witness : ∃ ds (r' : Reader bytes unit),
  ReadRecords xxh 3 300 kTolerateCorruptedTailRecords false
    (NewReader (ztake 60 (file_of 5 false (map contents_of (batches ++ [last_batch])))) (Some []) true 5) = Some (ds, r') ∧
  apply_records recorder (map fst ds) [] = Some (Status_OK, [r1; r2]).
Proof.
  destruct (wal_replays_complete_batches (U := unit) xxh recorder (memfile []) 5 false false 10 batches last_batch
    Status_OK (written 5 false (map contents_of batches)) Status_OK (written 5 false (map contents_of (batches ++ [last_batch])))
    (ztake 60 (file_of 5 false (map contents_of (batches ++ [last_batch])))) (Some []) true 300
    kTolerateCorruptedTailRecords 60 []) as (ds & r' & E1 & E2 & _).
  - reflexivity.
  - discriminate.
  - apply batches_wf.
  - vm_compute. reflexivity.
  - reflexivity.
  - vm_compute. reflexivity.
  - reflexivity.
  - vm_compute. split; [discriminate|reflexivity].
  - reflexivity.
  - vm_compute. discriminate.
  - exists ds, r'. split; [exact E1|exact E2].
Defined.
End WalExample.
