(* ===== verification/WalEdit.v ===== *)
(** * The set of write-ahead logs

    db/wal_edit.h and db/wal_edit.cc: the records by which a version edit adds and
    deletes write-ahead logs, and the set of logs that replaying them gives. *)

From S2P Require Import Prelude SortedLists Status Coding.
From stdpp Require Import pretty.
From Stdlib Require Import Sorting.Sorted.
#[local] Open Scope Z_scope.

(** [Status_Corruption(msg, msg2)] *)
Definition Corruption2 (msg msg2 : string) : Status := Status_Corruption (msg +:+ ": " +:+ msg2).

(** ** Additions and deletions *)

(** [WalMetadata] is its [synced_size_bytes_]. *)
Definition kUnknownWalSize : Z := 2 ^ 64 - 1.
Definition HasSyncedSize (synced_size_bytes_ : Z) : bool := negb (synced_size_bytes_ =? kUnknownWalSize).

Record WalAddition := mkWalAddition { number_ : Z; metadata_ : Z }.

Module WalAdditionTag.
Definition kTerminate : Z := 1.
Definition kSyncedSize : Z := 2.
End WalAdditionTag.

Definition WalAddition_EncodeTo (dst : bytes) (wal : WalAddition) : bytes :=
  let dst := PutVarint64 dst (number_ wal) in
  let dst :=
    if HasSyncedSize (metadata_ wal)
    then PutVarint64 (PutVarint32 dst WalAdditionTag.kSyncedSize) (metadata_ wal) else dst in
  PutVarint32 dst WalAdditionTag.kTerminate.

(** A decoder returns an error, or the value and the rest of the input; [None] is
    out of fuel. *)
Fixpoint WalAddition_loop (fuel : nat) (number metadata : Z) (src : bytes) : option (Status + WalAddition * bytes) :=
  match fuel with
  | O => None
  | S fuel =>
      match GetVarint32 src with
      | None => Some (inl (Corruption2 "WalAddition" "Error decoding tag"))
      | Some (tag_value, src) =>
          if tag_value =? WalAdditionTag.kSyncedSize then
            match GetVarint64 src with
            | None => Some (inl (Corruption2 "WalAddition" "Error decoding WAL file size"))
            | Some (size, src) => WalAddition_loop fuel number size src
            end
          else if tag_value =? WalAdditionTag.kTerminate then Some (inr (mkWalAddition number metadata, src))
          else Some (inl (Corruption2 "WalAddition" ("Unknown tag " +:+ pretty (Z.to_N tag_value))))
      end
  end.
Definition WalAddition_DecodeFrom (src : bytes) : option (Status + WalAddition * bytes) :=
  match GetVarint64 src with
  | None => Some (inl (Corruption2 "WalAddition" "Error decoding WAL log number"))
  | Some (number, src) => WalAddition_loop (S (length src)) number kUnknownWalSize src
  end.

(** [WalDeletion] is its [number_]; [kEmpty] is no deletion. *)
Definition kEmpty : Z := 0.
Definition WalDeletion_IsEmpty (number_ : Z) : bool := number_ =? kEmpty.
Definition WalDeletion_EncodeTo (dst : bytes) (number_ : Z) : bytes := PutVarint64 dst number_.
Definition WalDeletion_DecodeFrom (src : bytes) : Status + Z * bytes :=
  match GetVarint64 src with
  | None => inl (Corruption2 "WalDeletion" "Error decoding WAL log number")
  | Some r => inr r
  end.

(** ** The set *)

(** [wals_] is the map in the order of its keys. *)
Record WalSet := mkWalSet { wals_ : list (Z * Z); min_wal_number_to_keep_ : Z }.
Definition NewWalSet : WalSet := mkWalSet [] 0.

(** [std::map]: the element of a key, and its insertion or replacement. *)
Fixpoint wal_find (number : Z) (wals : list (Z * Z)) : option Z :=
  match wals with
  | [] => None
  | (n, size) :: wals => if n =? number then Some size else wal_find number wals
  end.
Fixpoint wal_put (number size : Z) (wals : list (Z * Z)) : list (Z * Z) :=
  match wals with
  | [] => [(number, size)]
  | (n, s) :: wals' =>
      if number <? n then (number, size) :: wals
      else if number =? n then (number, size) :: wals'
      else (n, s) :: wal_put number size wals'
  end.

Definition AddWal (ws : WalSet) (wal : WalAddition) : Status * WalSet :=
  let put := mkWalSet (wal_put (number_ wal) (metadata_ wal) (wals_ ws)) (min_wal_number_to_keep_ ws) in
  if number_ wal <? min_wal_number_to_keep_ ws then (Status_OK, ws)
  else
    match wal_find (number_ wal) (wals_ ws) with
    | None => (Status_OK, put)
    | Some size =>
        if negb (HasSyncedSize (metadata_ wal)) then
          (Corruption2 "WalSet::AddWal" ("WAL " +:+ pretty (Z.to_N (number_ wal)) +:+ " is created more than once"), ws)
        else if HasSyncedSize size && (metadata_ wal <=? size) then (Status_OK, ws)
        else (Status_OK, put)
    end.
Fixpoint AddWals (ws : WalSet) (wals : list WalAddition) : Status * WalSet :=
  match wals with
  | [] => (Status_OK, ws)
  | wal :: wals => let '(s, ws) := AddWal ws wal in if ok s then AddWals ws wals else (s, ws)
  end.
Definition DeleteWalsBefore (ws : WalSet) (wal : Z) : Status * WalSet :=
  if min_wal_number_to_keep_ ws <? wal
  then (Status_OK, mkWalSet (drop (count_while (λ w, fst w <? wal) (wals_ ws)) (wals_ ws)) wal)
  else (Status_OK, ws).
Definition WalSet_Reset (_ : WalSet) : WalSet := mkWalSet [] 0.

(** [file_size] is [env->GetFileSize] of a log on disk, [None] where the log is not
    listed in [logs_on_disk]. *)
Fixpoint CheckWals (file_size : Z → option (Status * Z)) (wals : list (Z * Z)) : Status :=
  match wals with
  | [] => Status_OK
  | (log_number, size) :: wals =>
      if negb (HasSyncedSize size) then CheckWals file_size wals
      else
        match file_size log_number with
        | None => Status_Corruption ("Missing WAL with log number: " +:+ pretty (Z.to_N log_number) +:+ ".")
        | Some (s, log_file_size) =>
            if negb (ok s) then s
            else if log_file_size <? size then
              Status_Corruption ("Size mismatch: WAL (log number: " +:+ pretty (Z.to_N log_number) +:+ ") in MANIFEST is " +:+
                pretty (Z.to_N size) +:+ " bytes , but actually is " +:+ pretty (Z.to_N log_file_size) +:+ " bytes on disk.")
            else CheckWals file_size wals
        end
  end.

(** ** Round trips *)

Definition wal_ok (wal : WalAddition) : Prop := is_u 64 (number_ wal) ∧ is_u 64 (metadata_ wal).

Lemma WalAddition_Encode_app dst wal : WalAddition_EncodeTo dst wal = dst ++ WalAddition_EncodeTo [] wal.
Proof.
  unfold WalAddition_EncodeTo, PutVarint64, PutVarint32. destruct (HasSyncedSize _); by rewrite <- ?app_assoc.
Qed.

Lemma WalAddition_round_trip wal rest : wal_ok wal →
  WalAddition_DecodeFrom (WalAddition_EncodeTo [] wal ++ rest) = Some (inr (wal, rest)).
Proof.
  intros [Hn Hm]. unfold WalAddition_DecodeFrom, WalAddition_EncodeTo, PutVarint64, PutVarint32.
  assert (is_u 32 WalAdditionTag.kTerminate ∧ is_u 32 WalAdditionTag.kSyncedSize) as [Ht Hsz] by (split; by vm_compute).
  destruct (HasSyncedSize (metadata_ wal)) eqn:Es; rewrite <- !app_assoc; cbn [app]; rewrite (round_trip (number_ wal)) by done.
  - set (p := EncodeVarint64 (metadata_ wal) ++ _). assert (∃ n, length (EncodeVarint32 WalAdditionTag.kSyncedSize ++ p) = S n) as [n ->] by (by eexists).
    cbn [WalAddition_loop]. rewrite (round_trip WalAdditionTag.kSyncedSize) by done. rewrite Z.eqb_refl.
    unfold p. rewrite (round_trip (metadata_ wal)) by done. rewrite (round_trip WalAdditionTag.kTerminate) by done. by destruct wal.
  - cbn [WalAddition_loop]. rewrite (round_trip WalAdditionTag.kTerminate) by done.
    unfold HasSyncedSize in Es. apply negb_false_iff, Z.eqb_eq in Es. rewrite <- Es. by destruct wal.
Qed.

Lemma WalDeletion_round_trip n rest : is_u 64 n → WalDeletion_DecodeFrom (WalDeletion_EncodeTo [] n ++ rest) = inr (n, rest).
Proof. intros Hn. unfold WalDeletion_DecodeFrom, WalDeletion_EncodeTo, PutVarint64. rewrite app_nil_l. by rewrite (round_trip n). Qed.

(** ** What the set holds *)

Inductive WalOp := WAdd (wal : WalAddition) | WDelete (number : Z).
(** Edits are applied until one fails. *)
Definition wal_step (r : Status * WalSet) (op : WalOp) : Status * WalSet :=
  if ok (fst r) then match op with WAdd wal => AddWal (snd r) wal | WDelete n => DeleteWalsBefore (snd r) n end else r.
Definition wal_run (ops : list WalOp) : Status * WalSet := fold_left wal_step ops (Status_OK, NewWalSet).

(** The logs below are obsolete. *)
Definition obsolete_bound (ops : list WalOp) : Z :=
  fold_left (λ b op, match op with WDelete n => Z.max b n | WAdd _ => b end) ops 0.
(** The sizes that were recorded for a log. *)
Definition sizes_of (number : Z) (ops : list WalOp) : list Z :=
  flat_map (λ op, match op with WAdd wal => if number_ wal =? number then [metadata_ wal] else [] | WDelete _ => [] end) ops.
(** The largest size that was synced, unknown if none was. *)
Definition best_size (sizes : list Z) : option Z :=
  match sizes with
  | [] => None
  | _ => Some (match List.filter HasSyncedSize sizes with [] => kUnknownWalSize | synced => fold_left Z.max synced 0 end)
  end.
Definition wal_op_ok (op : WalOp) : Prop := match op with WAdd wal => wal_ok wal | WDelete n => is_u 64 n end.

Definition keys_sorted (wals : list (Z * Z)) : Prop := StronglySorted (λ a b, fst a < fst b) wals.

Lemma wal_find_below number wals : Forall (λ w, number < fst w) wals → wal_find number wals = None.
Proof. induction 1 as [|[n s] wals Hn _ IH]; [done|]. cbn in *. by rewrite (proj2 (Z.eqb_neq _ _)) by lia. Qed.

Lemma wal_put_Forall (P : Z → Prop) number size wals : P number → Forall (λ w, P (fst w)) wals →
  Forall (λ w, P (fst w)) (wal_put number size wals).
Proof.
  intros Hp. induction 1 as [|[n s] wals Hn Hf IH]; cbn; [by repeat constructor|].
  destruct (number <? n); [by repeat constructor|]. destruct (number =? n); by constructor.
Qed.

Lemma wal_put_sorted number size wals : keys_sorted wals → keys_sorted (wal_put number size wals).
Proof.
  induction 1 as [|[n s] wals Hs IH Hf]; cbn; [by repeat constructor|].
  destruct (Z.ltb_spec number n).
  - constructor; [by constructor|]. constructor; [done|]. apply (Forall_impl _ _ _ Hf). intros w Hw. cbn in *. lia.
  - destruct (Z.eqb_spec number n) as [->|Hne]; [by constructor|]. constructor; [done|].
    apply (wal_put_Forall (λ m, n < m)); [lia|done].
Qed.

Lemma wal_find_put number size wals m : keys_sorted wals →
  wal_find m (wal_put number size wals) = if number =? m then Some size else wal_find m wals.
Proof.
  induction 1 as [|[n s] wals Hs IH Hf]; [done|]. cbn [wal_put].
  destruct (Z.ltb_spec number n); [done|]. destruct (Z.eqb_spec number n) as [->|Hne].
  - cbn. by destruct (n =? m).
  - cbn. rewrite IH. destruct (Z.eqb_spec n m) as [->|]; [|done]. by rewrite (proj2 (Z.eqb_neq _ _)).
Qed.

Lemma wal_find_drop b wals m : keys_sorted wals →
  wal_find m (drop (count_while (λ w, fst w <? b) wals) wals) = if m <? b then None else wal_find m wals.
Proof.
  induction 1 as [|[n s] wals Hs IH Hf]; [by destruct (m <? b)|]. cbn [count_while fst].
  destruct (Z.ltb_spec n b); cbn [drop].
  - rewrite IH. destruct (Z.ltb_spec m b); [done|]. cbn. by rewrite (proj2 (Z.eqb_neq _ _)) by lia.
  - destruct (Z.ltb_spec m b); [|done]. apply wal_find_below. constructor; [cbn; lia|].
    apply (Forall_impl _ _ _ Hf). intros w Hw. cbn in *. lia.
Qed.

Lemma keys_sorted_drop k wals : keys_sorted wals → keys_sorted (drop k wals).
Proof. revert wals. induction k as [|k IH]; intros wals Hs; [done|]. destruct Hs; [constructor|by apply IH]. Qed.

Lemma sizes_of_snoc m ops op : sizes_of m (ops ++ [op]) = sizes_of m ops ++ sizes_of m [op].
Proof. apply flat_map_app. Qed.

Lemma fold_max_nonneg l : ∀ b, 0 <= b → 0 <= fold_left Z.max l b.
Proof. induction l as [|x l IH]; intros b Hb; cbn; [done|]. apply IH. lia. Qed.

(** One more size. *)
Lemma best_size_snoc l x : Forall (is_u 64) l → is_u 64 x → best_size (l ++ [x]) =
  Some (match best_size l with
        | Some size => if HasSyncedSize x then if HasSyncedSize size && (x <=? size) then size else x else size
        | None => x
        end).
Proof.
  intros Hl Hx. assert (best_size (l ++ [x]) =
    Some (match List.filter HasSyncedSize (l ++ [x]) with [] => kUnknownWalSize | synced => fold_left Z.max synced 0 end)) as ->
    by by destruct l. f_equal. rewrite List.filter_app. cbn [List.filter]. unfold is_u in *.
  destruct l as [|y l']; [cbn [best_size List.filter app]|cbn [best_size]; set (l := y :: l') in *].
  - destruct (HasSyncedSize x) eqn:Ex; [cbn; lia|]. apply negb_false_iff, Z.eqb_eq in Ex. done.
  - assert (Forall (λ s, HasSyncedSize s = true ∧ 0 <= s < 2 ^ 64) (List.filter HasSyncedSize l)) as Hf.
    { apply Forall_forall. intros s Hs. apply list_elem_of_In, List.filter_In in Hs as [Hs E]. split; [done|].
      rewrite Forall_forall in Hl. by apply Hl, list_elem_of_In. }
    set (fl := List.filter HasSyncedSize l) in *. destruct (HasSyncedSize x) eqn:Ex.
    + destruct fl as [|z fl]; [replace (HasSyncedSize kUnknownWalSize) with false by done; cbn; lia|]. cbn [app]. change (z :: fl ++ [x]) with ((z :: fl) ++ [x]).
      rewrite fold_left_app. cbn [fold_left]. set (m := fold_left Z.max fl (Z.max 0 z)).
      assert (HasSyncedSize m = true) as ->.
      { assert (∀ l b, Forall (λ s, HasSyncedSize s = true ∧ 0 <= s < 2 ^ 64) l → HasSyncedSize b = true →
          HasSyncedSize (fold_left Z.max l b) = true) as H.
        { clear. induction l as [|s l IH]; intros b Hf Hb; [done|]. apply Forall_cons in Hf as [[Hs _] Hf]. cbn. apply IH; [done|].
          by destruct (Z.max_spec b s) as [[_ ->]|[_ ->]]. }
        apply Forall_cons in Hf as [[Hz Hzr] Hf]. apply H; [done|]. by rewrite Z.max_r by lia. }
      destruct (Z.leb_spec x m); cbn [andb]; lia.
    + rewrite app_nil_r. done.
Qed.

Lemma best_size_none l : best_size l = None ↔ l = [].
Proof. by destruct l. Qed.

Record wal_set_spec (ops : list WalOp) (ws : WalSet) : Prop := {
  ws_sorted : keys_sorted (wals_ ws);
  ws_min : min_wal_number_to_keep_ ws = obsolete_bound ops;
  ws_find m : wal_find m (wals_ ws) = if m <? obsolete_bound ops then None else best_size (sizes_of m ops)
}.

Lemma sizes_of_ok m ops : Forall wal_op_ok ops → Forall (is_u 64) (sizes_of m ops).
Proof.
  induction 1 as [|op ops Hop _ IH]; [constructor|]. change (op :: ops) with ([op] ++ ops). unfold sizes_of. rewrite flat_map_app.
  apply Forall_app. split; [|done]. destruct op as [wal|]; cbn; [|constructor]. destruct (_ =? _); [|constructor].
  apply Forall_singleton, Hop.
Qed.

(** The log of an addition is in the set, and the addition does not say how much of
    it is synced: the log is created again. *)
Definition recreates (taken : list WalOp) (op : WalOp) : bool :=
  match op with
  | WAdd wal => negb (HasSyncedSize (metadata_ wal)) && (obsolete_bound taken <=? number_ wal) &&
      match sizes_of (number_ wal) taken with [] => false | _ => true end
  | WDelete _ => false
  end.

(** An operation fails exactly if it creates a log again, and then changes nothing. *)
Lemma wal_step_status ops ws op : wal_set_spec ops ws →
  let r := wal_step (Status_OK, ws) op in
  if recreates ops op then IsCorruption (fst r) = true ∧ snd r = ws else fst r = Status_OK.
Proof.
  intros [_ Hmin Hf]. destruct op as [wal|n]; cbn [recreates].
  2: { cbn. unfold DeleteWalsBefore. by destruct (_ <? _). }
  change (wal_step (Status_OK, ws) (WAdd wal)) with (AddWal ws wal). cbn zeta.
  unfold AddWal. rewrite Hmin. rewrite Z.leb_antisym. specialize (Hf (number_ wal)).
  destruct (Z.ltb_spec (number_ wal) (obsolete_bound ops)); cbn [negb andb]; [by rewrite andb_false_r|]. rewrite andb_true_r.
  rewrite Hf. destruct (sizes_of (number_ wal) ops) as [|x l]; [by rewrite andb_false_r|]. rewrite andb_true_r.
  unfold best_size. destruct (HasSyncedSize (metadata_ wal)); cbn [negb]; [|done]. by destruct (_ && _).
Qed.

Lemma wal_step_spec ops ws op s' ws' : Forall wal_op_ok ops → wal_op_ok op → wal_set_spec ops ws →
  wal_step (Status_OK, ws) op = (s', ws') → ok s' = true → wal_set_spec (ops ++ [op]) ws' ∧ s' = Status_OK.
Proof.
  intros Hops Hop [Hs Hmin Hf]. unfold wal_step. cbn [fst snd ok code_ Status_OK].
  assert (obsolete_bound (ops ++ [op]) = match op with WDelete n => Z.max (obsolete_bound ops) n | _ => obsolete_bound ops end) as Eb
    by (unfold obsolete_bound; by rewrite fold_left_app). destruct op as [wal|n].
  - unfold AddWal. rewrite Hmin. destruct (Z.ltb_spec (number_ wal) (obsolete_bound ops)) as [Hlt|Hge].
    { intros [= <- <-] _. split; [|done]. split; [done|congruence|]. intros m. rewrite Hf, Eb, sizes_of_snoc. destruct (Z.ltb_spec m (obsolete_bound ops)); [done|].
      cbn. by rewrite (proj2 (Z.eqb_neq _ _)), app_nil_r by lia. }
    assert (∀ size, (number_ wal <? obsolete_bound ops) = false → best_size (sizes_of (number_ wal) (ops ++ [WAdd wal])) = Some size →
      wal_set_spec (ops ++ [WAdd wal]) (mkWalSet (wal_put (number_ wal) size (wals_ ws)) (obsolete_bound ops))) as Hput.
    { intros size Hb Hsz. split; cbn; [by apply wal_put_sorted|congruence|]. intros m. rewrite wal_find_put, Hf, Eb by done.
      destruct (Z.eqb_spec (number_ wal) m) as [<-|Hne]; [by rewrite Hb, Hsz|]. rewrite sizes_of_snoc. cbn.
      by rewrite (proj2 (Z.eqb_neq _ _)), app_nil_r. }
    assert ((number_ wal <? obsolete_bound ops) = false) as Hb by by apply Z.ltb_ge.
    assert (best_size (sizes_of (number_ wal) (ops ++ [WAdd wal])) = Some (match wal_find (number_ wal) (wals_ ws) with
      | Some size => if HasSyncedSize (metadata_ wal) then if HasSyncedSize size && (metadata_ wal <=? size) then size else metadata_ wal else size
      | None => metadata_ wal end)) as Hbest.
    { rewrite sizes_of_snoc, Hf, Hb. cbn. rewrite Z.eqb_refl. apply best_size_snoc; [by apply sizes_of_ok|apply Hop]. }
    destruct (wal_find (number_ wal) (wals_ ws)) as [size|] eqn:Ef; [|intros [= <- <-] _; split; [by apply Hput|done]].
    destruct (HasSyncedSize (metadata_ wal)); cbn [negb]; [|by intros [= <- _]].
    destruct (HasSyncedSize size && (metadata_ wal <=? size)); intros [= <- <-] _; (split; [|done]); [|by apply Hput].
    split; [done|congruence|]. intros m. rewrite Eb. destruct (Z.eqb_spec (number_ wal) m) as [<-|Hne]; [by rewrite Hb, Ef, Hbest|].
    rewrite Hf, sizes_of_snoc. cbn. by rewrite (proj2 (Z.eqb_neq _ _)), app_nil_r.
  - unfold DeleteWalsBefore. rewrite Hmin. destruct (Z.ltb_spec (obsolete_bound ops) n) as [Hlt|Hge]; intros [= <- <-] _; (split; [|done]).
    + split; cbn; [by apply keys_sorted_drop|lia|]. intros m. rewrite wal_find_drop, Hf, Eb, sizes_of_snoc, app_nil_r by done.
      rewrite Z.max_r by lia. destruct (Z.ltb_spec m n); [done|]. by rewrite (proj2 (Z.ltb_ge _ _)) by lia.
    + split; [done|rewrite Hmin, Eb; lia|]. intros m. rewrite Hf, Eb, sizes_of_snoc, app_nil_r. by rewrite Z.max_l by lia.
Qed.

Lemma NewWalSet_spec : wal_set_spec [] NewWalSet.
Proof. split; [constructor|done|]. intros m. by destruct (m <? obsolete_bound []). Qed.

Lemma wal_stuck s ws ops : ok s = false → fold_left wal_step ops (s, ws) = (s, ws).
Proof. intros Hs. induction ops as [|op ops IH]; [done|]. cbn [fold_left]. unfold wal_step at 2. cbn [fst]. by rewrite Hs. Qed.

Definition never_recreates (taken : list WalOp) : Prop := ∀ before op after, taken = before ++ op :: after → recreates before op = false.

(** The run takes the operations up to the first that creates a log again. *)
Lemma wal_run_takes rest : ∀ taken ws, Forall wal_op_ok (taken ++ rest) → wal_set_spec taken ws → never_recreates taken →
  ∃ more left ws' s, fold_left wal_step rest (Status_OK, ws) = (s, ws') ∧ rest = more ++ left ∧
    wal_set_spec (taken ++ more) ws' ∧ never_recreates (taken ++ more) ∧
    match left with [] => s = Status_OK | op :: _ => IsCorruption s = true ∧ recreates (taken ++ more) op = true end.
Proof.
  induction rest as [|op rest IH]; intros taken ws Hok Hspec Hnever.
  { exists [], [], ws, Status_OK. by rewrite (app_nil_r taken). }
  pose proof (wal_step_status taken ws op Hspec) as Hst. cbn [fold_left]. destruct (wal_step (Status_OK, ws) op) as [s1 ws1] eqn:E1.
  cbn [fst snd] in Hst. destruct (recreates taken op) eqn:Er.
  - destruct Hst as [Hc ->]. exists [], (op :: rest), ws, s1. rewrite wal_stuck by (by destruct s1 as [[] ? ?]). by rewrite (app_nil_r taken).
  - subst s1. assert (taken ++ op :: rest = (taken ++ [op]) ++ rest) as Ea by by rewrite <- app_assoc. rewrite Ea in Hok.
    pose proof (proj1 (Forall_app _ _ _) Hok) as [[Hok1 Hop]%Forall_app _]. apply Forall_cons in Hop as [Hop _].
    destruct (wal_step_spec taken ws op Status_OK ws1 Hok1 Hop Hspec E1 eq_refl) as [Hspec1 _].
    destruct (IH (taken ++ [op]) ws1 Hok Hspec1) as (more & left & ws' & s & Hr & -> & Hspec' & Hnever' & Hleft).
    { intros before op' after Hsplit. destruct after as [|y after _] using rev_ind.
      - apply app_inj_tail in Hsplit as [-> ->]. done.
      - rewrite app_comm_cons, app_assoc in Hsplit. apply app_inj_tail in Hsplit as [-> _]. by apply (Hnever before op' after). }
    exists (op :: more), left, ws', s. rewrite <- !app_assoc in *. done.
Qed.

(** A fold whose steps commute does not depend on the order of the list. *)
Lemma fold_left_Permutation {A B} (f : B → A → B) (l l' : list A) : (∀ b x y, f (f b x) y = f (f b y) x) → l ≡ₚ l' →
  ∀ b, fold_left f l b = fold_left f l' b.
Proof. intros Hf. induction 1 as [|x l l' _ IH|x y l|l1 l2 l3 _ IH1 _ IH2]; intros b; cbn; [done|apply IH|by rewrite Hf|by rewrite IH1]. Qed.

Lemma obsolete_bound_Permutation ops ops' : ops ≡ₚ ops' → obsolete_bound ops = obsolete_bound ops'.
Proof. intros Hp. apply fold_left_Permutation; [|done]. intros b [|n] [|m]; lia. Qed.
Lemma best_size_Permutation l l' : l ≡ₚ l' → best_size l = best_size l'.
Proof.
  intros Hp. unfold best_size. assert (List.filter HasSyncedSize l ≡ₚ List.filter HasSyncedSize l') as Hf.
  { induction Hp; cbn; [done|by destruct (HasSyncedSize x); [constructor|]| |by etransitivity].
    destruct (HasSyncedSize x), (HasSyncedSize y); done || constructor. }
  assert (fold_left Z.max (List.filter HasSyncedSize l) 0 = fold_left Z.max (List.filter HasSyncedSize l') 0) as Em
    by (apply fold_left_Permutation; [lia|done]).
  destruct l as [|x l], l' as [|y l']; [done|by apply Permutation_nil_cons in Hp|by symmetry in Hp; apply Permutation_nil_cons in Hp|].
  f_equal. destruct (List.filter _ (x :: l)), (List.filter _ (y :: l')); [done|by apply Permutation_nil_cons in Hf|
    by symmetry in Hf; apply Permutation_nil_cons in Hf|done].
Qed.

(** The map is what it finds. *)
Lemma wal_find_ext a b : keys_sorted a → keys_sorted b → (∀ m, wal_find m a = wal_find m b) → a = b.
Proof.
  intros Ha. revert b. induction Ha as [|[n s] a Ha IH Hn]; intros b Hb Hf.
  { destruct b as [|[n s] b]; [done|]. specialize (Hf n). cbn in Hf. by rewrite Z.eqb_refl in Hf. }
  destruct Hb as [|[n' s'] b Hb Hn']; [specialize (Hf n); cbn in Hf; by rewrite Z.eqb_refl in Hf|].
  assert (∀ m, m < n → wal_find m ((n, s) :: a) = None) as L1.
  { intros m Hm. apply wal_find_below. constructor; [done|]. apply (Forall_impl _ _ _ Hn). intros w Hw. cbn in *. lia. }
  assert (∀ m, m < n' → wal_find m ((n', s') :: b) = None) as L2.
  { intros m Hm. apply wal_find_below. constructor; [done|]. apply (Forall_impl _ _ _ Hn'). intros w Hw. cbn in *. lia. }
  assert (n = n') as <-.
  { destruct (Z.lt_trichotomy n n') as [Hlt|[?|Hlt]]; [|done|].
    - specialize (Hf n). rewrite L2 in Hf by done. cbn in Hf. by rewrite Z.eqb_refl in Hf.
    - specialize (Hf n'). rewrite L1 in Hf by done. cbn in Hf. by rewrite Z.eqb_refl in Hf. }
  pose proof (Hf n) as E. cbn in E. rewrite Z.eqb_refl in E. injection E as <-. f_equal. apply IH; [done|]. intros m.
  specialize (Hf m). cbn in Hf. destruct (Z.eqb_spec n m) as [Em|]; [|done]. rewrite <- Em. by rewrite !wal_find_below.
Qed.
Lemma wal_set_spec_unique ops ops' ws ws' : ops ≡ₚ ops' → wal_set_spec ops ws → wal_set_spec ops' ws' → ws = ws'.
Proof.
  intros Hp [Hs Hm Hf] [Hs' Hm' Hf']. destruct ws as [wals m], ws' as [wals' m']. cbn in *.
  rewrite (obsolete_bound_Permutation ops ops' Hp) in *. f_equal; [|congruence]. apply wal_find_ext; [done..|]. intros n.
  rewrite Hf, Hf'. destruct (_ <? _); [done|]. apply best_size_Permutation. unfold sizes_of. by rewrite Hp.
Qed.

(** C18: replaying additions and deletions of write-ahead logs from an empty set takes
    the operations up to the first that creates again a log of the set that is not
    obsolete, that is, adds it without a synced size; it fails there, as corrupt, and
    succeeds if there is none. What it has taken gives the logs that are not obsolete,
    each with the largest size that was ever synced. The order of the operations does
    not matter otherwise: two orders of the same operations that succeed give the same
    set. *)
Theorem wal_set_replay ops : Forall wal_op_ok ops →
  (∃ taken left ws s, wal_run ops = (s, ws) ∧ ops = taken ++ left ∧ wal_set_spec taken ws ∧ never_recreates taken ∧
    match left with [] => s = Status_OK | op :: _ => IsCorruption s = true ∧ recreates taken op = true end) ∧
  (ok (fst (wal_run ops)) = true ↔ never_recreates ops) ∧
  (∀ ops', ops ≡ₚ ops' → never_recreates ops → never_recreates ops' → wal_run ops' = wal_run ops).
Proof.
  assert (∀ ops, Forall wal_op_ok ops → ∃ taken left ws s, wal_run ops = (s, ws) ∧ ops = taken ++ left ∧ wal_set_spec taken ws ∧
    never_recreates taken ∧ match left with [] => s = Status_OK | op :: _ => IsCorruption s = true ∧ recreates taken op = true end) as Htakes.
  { intros l Hl. exact (wal_run_takes l [] NewWalSet Hl NewWalSet_spec ltac:(by intros [])). }
  assert (∀ ops, Forall wal_op_ok ops → never_recreates ops → ∃ ws, wal_run ops = (Status_OK, ws) ∧ wal_set_spec ops ws) as Hall.
  { intros l Hl Hn. destruct (Htakes l Hl) as (taken & left & ws & s & E & -> & Hspec & _ & Hleft). destruct left as [|op left].
    - subst s. exists ws. by rewrite app_nil_r in *.
    - destruct Hleft as [_ Hr]. by rewrite (Hn taken op left eq_refl) in Hr. }
  intros Hops. split_and!; [by apply Htakes| |].
  - split; [|intros Hn; by destruct (Hall ops Hops Hn) as (ws & -> & _)].
    destruct (Htakes ops Hops) as (taken & left & ws & s & -> & -> & _ & Hn & Hleft). cbn [fst]. intros Hs.
    destruct left as [|op left]; [by rewrite app_nil_r|]. destruct Hleft as [Hc _]. by destruct s as [[] ? ?].
  - intros ops' Hp Hn Hn'. destruct (Hall ops Hops Hn) as (ws & -> & Hspec).
    destruct (Hall ops') as (ws' & -> & Hspec'); [by rewrite <- Hp|done|]. by rewrite (wal_set_spec_unique ops ops' ws ws').
Qed.

Module WalEditExample.
(** The sizes of log 7 are committed out of order, and 5 becomes obsolete. *)
Definition ops : list WalOp :=
  [WAdd (mkWalAddition 5 kUnknownWalSize); WAdd (mkWalAddition 7 kUnknownWalSize); WAdd (mkWalAddition 7 200);
   WDelete 6; WAdd (mkWalAddition 7 100); WAdd (mkWalAddition 5 300)].
(** Another order, and an operation that is refused. *)
Definition ops' : list WalOp := drop 1 ops ++ [WAdd (mkWalAddition 5 kUnknownWalSize)].
Definition bad_ops : list WalOp := ops ++ [WAdd (mkWalAddition 7 kUnknownWalSize)].
Definition ws : WalSet := mkWalSet [(7, 200)] 6.

Lemma bad_ops_ok : Forall wal_op_ok bad_ops.
Proof. repeat constructor; vm_compute; congruence. Qed.
Lemma never_recreates_dec l : forallb (λ k, match drop k l with op :: _ => negb (recreates (take k l) op) | [] => true end)
  (seq 0 (length l)) = true → never_recreates l.
Proof.
  rewrite forallb_forall. intros H before op after ->. specialize (H (length before)).
  rewrite drop_app_length, take_app_length in H. apply negb_true_iff, H, in_seq. rewrite length_app. cbn. lia.
Qed.

Lemma wal_set_replay_witness :
  wal_run ops = (Status_OK, ws) ∧ wal_run ops' = wal_run ops ∧ ok (fst (wal_run bad_ops)) = false.
Proof.
  split; [vm_compute; reflexivity|]. split.
  - apply (wal_set_replay ops); [apply (proj1 (proj1 (Forall_app _ ops _) bad_ops_ok))| |apply never_recreates_dec; vm_compute; reflexivity..].
    apply Permutation_cons_append.
  - destruct (ok (fst (wal_run bad_ops))) eqn:E; [|done]. apply (wal_set_replay bad_ops bad_ops_ok) in E.
    by specialize (E ops _ [] eq_refl).
Defined.
End WalEditExample.
