(* ===== verification/VersionEdit.v ===== *)
(** * Version edits

    db/version_edit.h and db/version_edit.cc, db/blob/blob_file_addition.cc,
    db/blob/blob_file_garbage.cc and the unique identifiers of src/unique_id.rs: the
    records of the manifest. A version edit says which files are added to and
    deleted from the levels of a column family; its encoding is a sequence of tagged
    fields, which older versions must be able to read or to skip. *)

From S2P Require Import Prelude SortedLists Status Slice Coding DbFormat WalEdit.
#[local] Open Scope Z_scope.

(** ** Tags *)

Module Tag.
Abbreviation kComparator := 1.
Abbreviation kLogNumber := 2.
Abbreviation kNextFileNumber := 3.
Abbreviation kLastSequence := 4.
Abbreviation kCompactCursor := 5.
Abbreviation kDeletedFile := 6.
Abbreviation kNewFile := 7.
Abbreviation kPrevLogNumber := 9.
Abbreviation kMinLogNumberToKeep := 10.
Abbreviation kNewFile2 := 100.
Abbreviation kNewFile3 := 102.
Abbreviation kNewFile4 := 103.
Abbreviation kColumnFamily := 200.
Abbreviation kColumnFamilyAdd := 201.
Abbreviation kColumnFamilyDrop := 202.
Abbreviation kMaxColumnFamily := 203.
Abbreviation kInAtomicGroup := 300.
Abbreviation kBlobFileAddition := 400.
Abbreviation kBlobFileGarbage := 401.
Abbreviation kTagSafeIgnoreMask := 8192.
Abbreviation kDbId := 8193.
Abbreviation kBlobFileAddition_DEPRECATED := 8194.
Abbreviation kBlobFileGarbage_DEPRECATED := 8195.
Abbreviation kWalAddition := 8196.
Abbreviation kWalDeletion := 8197.
Abbreviation kFullHistoryTsLow := 8198.
Abbreviation kWalAddition2 := 8199.
Abbreviation kWalDeletion2 := 8200.
End Tag.

Module NewFileCustomTag.
Abbreviation kTerminate := 1.
Abbreviation kNeedCompaction := 2.
Abbreviation kMinLogNumberToKeepHack := 3.
Abbreviation kOldestBlobFileNumber := 4.
Abbreviation kOldestAncesterTime := 5.
Abbreviation kFileCreationTime := 6.
Abbreviation kFileChecksum := 7.
Abbreviation kFileChecksumFuncName := 8.
Abbreviation kTemperature := 9.
Abbreviation kUniqueId := 12.
Abbreviation kEpochNumber := 13.
Abbreviation kCompensatedRangeDeletionSize := 14.
Abbreviation kTailSize := 15.
Abbreviation kUserDefinedTimestampsPersisted := 16.
Abbreviation kCustomTagNonSafeIgnoreMask := 64.
Abbreviation kPathId := 65.
End NewFileCustomTag.

(** ** Files *)

Definition kFileNumberMask : Z := 0x3FFFFFFFFFFFFFFF.
Definition PackFileNumberAndPathId (number path_id : Z) : Z := Z.lor number (u64 (path_id * (kFileNumberMask + 1))).

(** The table reader that a file may have open is left out. *)
Record FileDescriptor := mkFd {
  packed_number_and_path_id : Z;
  file_size : Z;
  smallest_seqno : Z;
  largest_seqno : Z
}.
Definition NewFileDescriptor (number path_id file_size smallest_seqno largest_seqno : Z) : FileDescriptor :=
  mkFd (PackFileNumberAndPathId number path_id) file_size smallest_seqno largest_seqno.
Definition GetNumber (fd : FileDescriptor) : Z := Z.land (packed_number_and_path_id fd) kFileNumberMask.
Definition GetPathId (fd : FileDescriptor) : Z := u32 (packed_number_and_path_id fd / (kFileNumberMask + 1)).

(** [UniqueId64x2] *)
Definition UniqueId : Type := Z * Z.
Definition UniqueId_null : UniqueId := (0, 0).
Definition encode_bytes (id : UniqueId) : bytes := EncodeFixed64 (fst id) ++ EncodeFixed64 (snd id).
Definition decode_bytes (s : bytes) : option UniqueId :=
  if negb (Zlen s =? 16) then None else Some (DecodeFixed64 (ztake 8 s), DecodeFixed64 (ztake 8 (zdrop 8 s))).

(** [Temperature] is its byte. *)
Definition kTemperatureUnknown : Z := 0.
Definition kCold : Z := 0x0C.
Definition kInvalidBlobFileNumber : Z := 0.
Definition kUnknownEpochNumber : Z := 0.
(** The name Unknown. *)
Definition kUnknownFileChecksumFuncName : bytes := [85; 110; 107; 110; 111; 119; 110].

(** What is written to the manifest of a file. The statistics, the reference count
    and the state of its compaction are kept in memory only, and are left out. *)
Record FileMetaData := mkFile {
  fd : FileDescriptor;
  smallest : bytes;
  largest : bytes;
  compensated_range_deletion_size : Z;
  marked_for_compaction : bool;
  temperature : Z;
  oldest_blob_file_number : Z;
  oldest_ancester_time : Z;
  file_creation_time : Z;
  epoch_number : Z;
  file_checksum : bytes;
  file_checksum_func_name : bytes;
  unique_id : UniqueId;
  tail_size : Z;
  user_defined_timestamps_persisted : bool
}.
Definition DefaultFileMetaData : FileMetaData :=
  mkFile (NewFileDescriptor 0 0 0 kMaxSequenceNumber 0) [] [] 0 false kTemperatureUnknown kInvalidBlobFileNumber 0 0
    kUnknownEpochNumber [] kUnknownFileChecksumFuncName UniqueId_null 0 true.
Definition set_fd (f : FileMetaData) (x : FileDescriptor) : FileMetaData :=
  mkFile x (smallest f) (largest f) (compensated_range_deletion_size f) (marked_for_compaction f) (temperature f)
    (oldest_blob_file_number f) (oldest_ancester_time f) (file_creation_time f) (epoch_number f) (file_checksum f)
    (file_checksum_func_name f) (unique_id f) (tail_size f) (user_defined_timestamps_persisted f).
Definition set_compensated_range_deletion_size (f : FileMetaData) (x : Z) : FileMetaData :=
  mkFile (fd f) (smallest f) (largest f) x (marked_for_compaction f) (temperature f) (oldest_blob_file_number f)
    (oldest_ancester_time f) (file_creation_time f) (epoch_number f) (file_checksum f) (file_checksum_func_name f)
    (unique_id f) (tail_size f) (user_defined_timestamps_persisted f).
Definition set_marked_for_compaction (f : FileMetaData) (x : bool) : FileMetaData :=
  mkFile (fd f) (smallest f) (largest f) (compensated_range_deletion_size f) x (temperature f)
    (oldest_blob_file_number f) (oldest_ancester_time f) (file_creation_time f) (epoch_number f) (file_checksum f)
    (file_checksum_func_name f) (unique_id f) (tail_size f) (user_defined_timestamps_persisted f).
Definition set_temperature (f : FileMetaData) (x : Z) : FileMetaData :=
  mkFile (fd f) (smallest f) (largest f) (compensated_range_deletion_size f) (marked_for_compaction f) x
    (oldest_blob_file_number f) (oldest_ancester_time f) (file_creation_time f) (epoch_number f) (file_checksum f)
    (file_checksum_func_name f) (unique_id f) (tail_size f) (user_defined_timestamps_persisted f).
Definition set_oldest_blob_file_number (f : FileMetaData) (x : Z) : FileMetaData :=
  mkFile (fd f) (smallest f) (largest f) (compensated_range_deletion_size f) (marked_for_compaction f) (temperature f)
    x (oldest_ancester_time f) (file_creation_time f) (epoch_number f) (file_checksum f) (file_checksum_func_name f)
    (unique_id f) (tail_size f) (user_defined_timestamps_persisted f).
Definition set_oldest_ancester_time (f : FileMetaData) (x : Z) : FileMetaData :=
  mkFile (fd f) (smallest f) (largest f) (compensated_range_deletion_size f) (marked_for_compaction f) (temperature f)
    (oldest_blob_file_number f) x (file_creation_time f) (epoch_number f) (file_checksum f)
    (file_checksum_func_name f) (unique_id f) (tail_size f) (user_defined_timestamps_persisted f).
Definition set_file_creation_time (f : FileMetaData) (x : Z) : FileMetaData :=
  mkFile (fd f) (smallest f) (largest f) (compensated_range_deletion_size f) (marked_for_compaction f) (temperature f)
    (oldest_blob_file_number f) (oldest_ancester_time f) x (epoch_number f) (file_checksum f)
    (file_checksum_func_name f) (unique_id f) (tail_size f) (user_defined_timestamps_persisted f).
Definition set_epoch_number (f : FileMetaData) (x : Z) : FileMetaData :=
  mkFile (fd f) (smallest f) (largest f) (compensated_range_deletion_size f) (marked_for_compaction f) (temperature f)
    (oldest_blob_file_number f) (oldest_ancester_time f) (file_creation_time f) x (file_checksum f)
    (file_checksum_func_name f) (unique_id f) (tail_size f) (user_defined_timestamps_persisted f).
Definition set_file_checksum (f : FileMetaData) (x : bytes) : FileMetaData :=
  mkFile (fd f) (smallest f) (largest f) (compensated_range_deletion_size f) (marked_for_compaction f) (temperature f)
    (oldest_blob_file_number f) (oldest_ancester_time f) (file_creation_time f) (epoch_number f) x
    (file_checksum_func_name f) (unique_id f) (tail_size f) (user_defined_timestamps_persisted f).
Definition set_file_checksum_func_name (f : FileMetaData) (x : bytes) : FileMetaData :=
  mkFile (fd f) (smallest f) (largest f) (compensated_range_deletion_size f) (marked_for_compaction f) (temperature f)
    (oldest_blob_file_number f) (oldest_ancester_time f) (file_creation_time f) (epoch_number f) (file_checksum f) x
    (unique_id f) (tail_size f) (user_defined_timestamps_persisted f).
Definition set_unique_id (f : FileMetaData) (x : UniqueId) : FileMetaData :=
  mkFile (fd f) (smallest f) (largest f) (compensated_range_deletion_size f) (marked_for_compaction f) (temperature f)
    (oldest_blob_file_number f) (oldest_ancester_time f) (file_creation_time f) (epoch_number f) (file_checksum f)
    (file_checksum_func_name f) x (tail_size f) (user_defined_timestamps_persisted f).
Definition set_tail_size (f : FileMetaData) (x : Z) : FileMetaData :=
  mkFile (fd f) (smallest f) (largest f) (compensated_range_deletion_size f) (marked_for_compaction f) (temperature f)
    (oldest_blob_file_number f) (oldest_ancester_time f) (file_creation_time f) (epoch_number f) (file_checksum f)
    (file_checksum_func_name f) (unique_id f) x (user_defined_timestamps_persisted f).
Definition set_user_defined_timestamps_persisted (f : FileMetaData) (x : bool) : FileMetaData :=
  mkFile (fd f) (smallest f) (largest f) (compensated_range_deletion_size f) (marked_for_compaction f) (temperature f)
    (oldest_blob_file_number f) (oldest_ancester_time f) (file_creation_time f) (epoch_number f) (file_checksum f)
    (file_checksum_func_name f) (unique_id f) (tail_size f) x.
Definition set_boundaries (f : FileMetaData) (s l : bytes) : FileMetaData :=
  mkFile (fd f) s l (compensated_range_deletion_size f) (marked_for_compaction f) (temperature f)
    (oldest_blob_file_number f) (oldest_ancester_time f) (file_creation_time f) (epoch_number f) (file_checksum f)
    (file_checksum_func_name f) (unique_id f) (tail_size f) (user_defined_timestamps_persisted f).

(** ** Blob files *)

Record BlobFileAddition := mkBlobFileAddition {
  blob_file_number_ : Z;
  total_blob_count_ : Z;
  total_blob_bytes_ : Z;
  checksum_method_ : bytes;
  checksum_value_ : bytes
}.
Record BlobFileGarbage := mkBlobFileGarbage {
  garbage_file_number_ : Z;
  garbage_blob_count_ : Z;
  garbage_blob_bytes_ : Z
}.

Definition kEndMarker : Z := 0.
Definition kForwardIncompatibleMask : Z := Z.shiftl 1 6.

Definition BlobFileAddition_EncodeTo (output : bytes) (a : BlobFileAddition) : bytes :=
  let output := PutVarint64 output (blob_file_number_ a) in
  let output := PutVarint64 output (total_blob_count_ a) in
  let output := PutVarint64 output (total_blob_bytes_ a) in
  let output := PutLengthPrefixedSlice output (checksum_method_ a) in
  let output := PutLengthPrefixedSlice output (checksum_value_ a) in
  PutVarint32 output kEndMarker.
Definition BlobFileGarbage_EncodeTo (output : bytes) (g : BlobFileGarbage) : bytes :=
  let output := PutVarint64 output (garbage_file_number_ g) in
  let output := PutVarint64 output (garbage_blob_count_ g) in
  let output := PutVarint64 output (garbage_blob_bytes_ g) in
  PutVarint32 output kEndMarker.

(** The loop over custom fields, the same in both classes. [None] is out of fuel. *)
Fixpoint skip_custom_fields (class_name : string) (fuel : nat) (input : bytes) : option (Status + bytes) :=
  match fuel with
  | O => None
  | S fuel =>
      match GetVarint32 input with
      | None => Some (inl (Corruption2 class_name "Error decoding custom field tag"))
      | Some (custom_field_tag, input) =>
          if custom_field_tag =? kEndMarker then Some (inr input)
          else if negb (Z.land custom_field_tag kForwardIncompatibleMask =? 0) then
            Some (inl (Corruption2 class_name "Forward incompatible custom field encountered"))
          else
            match GetLengthPrefixedSlice input with
            | None => Some (inl (Corruption2 class_name "Error decoding custom field value"))
            | Some (_, input) => skip_custom_fields class_name fuel input
            end
      end
  end.
Definition with_custom_fields {A} (class_name : string) (x : A) (input : bytes) : option (Status + A * bytes) :=
  match skip_custom_fields class_name (S (length input)) input with
  | None => None
  | Some (inl s) => Some (inl s)
  | Some (inr input) => Some (inr (x, input))
  end.

(** [r] or the error. *)
Definition field {A B} (r : option A) (class_name msg : string) (k : A → option (Status + B)) : option (Status + B) :=
  match r with None => Some (inl (Corruption2 class_name msg)) | Some x => k x end.

Definition BlobFileAddition_DecodeFrom (input : bytes) : option (Status + BlobFileAddition * bytes) :=
  let class_name := "BlobFileAddition"%string in
  field (GetVarint64 input) class_name "Error decoding blob file number" (λ '(number, input),
  field (GetVarint64 input) class_name "Error decoding total blob count" (λ '(count, input),
  field (GetVarint64 input) class_name "Error decoding total blob bytes" (λ '(size, input),
  field (GetLengthPrefixedSlice input) class_name "Error decoding checksum method" (λ '(checksum_method, input),
  field (GetLengthPrefixedSlice input) class_name "Error decoding checksum value" (λ '(checksum_value, input),
  with_custom_fields class_name (mkBlobFileAddition number count size checksum_method checksum_value) input))))).
Definition BlobFileGarbage_DecodeFrom (input : bytes) : option (Status + BlobFileGarbage * bytes) :=
  let class_name := "BlobFileGarbage"%string in
  field (GetVarint64 input) class_name "Error decoding blob file number" (λ '(number, input),
  field (GetVarint64 input) class_name "Error decoding garbage blob count" (λ '(count, input),
  field (GetVarint64 input) class_name "Error decoding garbage blob bytes" (λ '(size, input),
  with_custom_fields class_name (mkBlobFileGarbage number count size) input))).

(** ** The edit *)

(** A value with its flag [has_..._] is an option; so are the name of a column
    family with [is_column_family_add_] and the remaining entries with
    [is_in_atomic_group_]. [deleted_files_] is a set, in order. *)
Record VersionEdit := mkEdit {
  max_level_ : Z;
  db_id_ : option bytes;
  comparator_ : option bytes;
  log_number_ : option Z;
  prev_log_number_ : option Z;
  next_file_number_ : option Z;
  max_column_family_ : option Z;
  min_log_number_to_keep_ : option Z;
  last_sequence_ : option Z;
  compact_cursors_ : list (Z * bytes);
  deleted_files_ : list (Z * Z);
  new_files_ : list (Z * FileMetaData);
  blob_file_additions_ : list BlobFileAddition;
  blob_file_garbages_ : list BlobFileGarbage;
  wal_additions_ : list WalAddition;
  wal_deletion_ : Z;
  column_family_ : Z;
  column_family_name_ : option bytes;
  is_column_family_drop_ : bool;
  remaining_entries_ : option Z;
  full_history_ts_low_ : bytes
}.
Definition Clear : VersionEdit :=
  mkEdit 0 None None None None None None None None [] [] [] [] [] [] kEmpty 0 None false None [].

Definition set_max_level (e : VersionEdit) (level : Z) : VersionEdit :=
  mkEdit level (db_id_ e) (comparator_ e) (log_number_ e) (prev_log_number_ e) (next_file_number_ e)
    (max_column_family_ e) (min_log_number_to_keep_ e) (last_sequence_ e) (compact_cursors_ e) (deleted_files_ e)
    (new_files_ e) (blob_file_additions_ e) (blob_file_garbages_ e) (wal_additions_ e) (wal_deletion_ e)
    (column_family_ e) (column_family_name_ e) (is_column_family_drop_ e) (remaining_entries_ e)
    (full_history_ts_low_ e).
Definition SetDBId (e : VersionEdit) (db_id : bytes) : VersionEdit :=
  mkEdit (max_level_ e) (Some db_id) (comparator_ e) (log_number_ e) (prev_log_number_ e) (next_file_number_ e)
    (max_column_family_ e) (min_log_number_to_keep_ e) (last_sequence_ e) (compact_cursors_ e) (deleted_files_ e)
    (new_files_ e) (blob_file_additions_ e) (blob_file_garbages_ e) (wal_additions_ e) (wal_deletion_ e)
    (column_family_ e) (column_family_name_ e) (is_column_family_drop_ e) (remaining_entries_ e)
    (full_history_ts_low_ e).
Definition SetComparatorName (e : VersionEdit) (name : bytes) : VersionEdit :=
  mkEdit (max_level_ e) (db_id_ e) (Some name) (log_number_ e) (prev_log_number_ e) (next_file_number_ e)
    (max_column_family_ e) (min_log_number_to_keep_ e) (last_sequence_ e) (compact_cursors_ e) (deleted_files_ e)
    (new_files_ e) (blob_file_additions_ e) (blob_file_garbages_ e) (wal_additions_ e) (wal_deletion_ e)
    (column_family_ e) (column_family_name_ e) (is_column_family_drop_ e) (remaining_entries_ e)
    (full_history_ts_low_ e).
Definition SetLogNumber (e : VersionEdit) (num : Z) : VersionEdit :=
  mkEdit (max_level_ e) (db_id_ e) (comparator_ e) (Some num) (prev_log_number_ e) (next_file_number_ e)
    (max_column_family_ e) (min_log_number_to_keep_ e) (last_sequence_ e) (compact_cursors_ e) (deleted_files_ e)
    (new_files_ e) (blob_file_additions_ e) (blob_file_garbages_ e) (wal_additions_ e) (wal_deletion_ e)
    (column_family_ e) (column_family_name_ e) (is_column_family_drop_ e) (remaining_entries_ e)
    (full_history_ts_low_ e).
Definition SetPrevLogNumber (e : VersionEdit) (num : Z) : VersionEdit :=
  mkEdit (max_level_ e) (db_id_ e) (comparator_ e) (log_number_ e) (Some num) (next_file_number_ e)
    (max_column_family_ e) (min_log_number_to_keep_ e) (last_sequence_ e) (compact_cursors_ e) (deleted_files_ e)
    (new_files_ e) (blob_file_additions_ e) (blob_file_garbages_ e) (wal_additions_ e) (wal_deletion_ e)
    (column_family_ e) (column_family_name_ e) (is_column_family_drop_ e) (remaining_entries_ e)
    (full_history_ts_low_ e).
Definition SetNextFile (e : VersionEdit) (num : Z) : VersionEdit :=
  mkEdit (max_level_ e) (db_id_ e) (comparator_ e) (log_number_ e) (prev_log_number_ e) (Some num)
    (max_column_family_ e) (min_log_number_to_keep_ e) (last_sequence_ e) (compact_cursors_ e) (deleted_files_ e)
    (new_files_ e) (blob_file_additions_ e) (blob_file_garbages_ e) (wal_additions_ e) (wal_deletion_ e)
    (column_family_ e) (column_family_name_ e) (is_column_family_drop_ e) (remaining_entries_ e)
    (full_history_ts_low_ e).
Definition SetMaxColumnFamily (e : VersionEdit) (max_column_family : Z) : VersionEdit :=
  mkEdit (max_level_ e) (db_id_ e) (comparator_ e) (log_number_ e) (prev_log_number_ e) (next_file_number_ e)
    (Some max_column_family) (min_log_number_to_keep_ e) (last_sequence_ e) (compact_cursors_ e) (deleted_files_ e)
    (new_files_ e) (blob_file_additions_ e) (blob_file_garbages_ e) (wal_additions_ e) (wal_deletion_ e)
    (column_family_ e) (column_family_name_ e) (is_column_family_drop_ e) (remaining_entries_ e)
    (full_history_ts_low_ e).
Definition SetMinLogNumberToKeep (e : VersionEdit) (num : Z) : VersionEdit :=
  mkEdit (max_level_ e) (db_id_ e) (comparator_ e) (log_number_ e) (prev_log_number_ e) (next_file_number_ e)
    (max_column_family_ e) (Some num) (last_sequence_ e) (compact_cursors_ e) (deleted_files_ e) (new_files_ e)
    (blob_file_additions_ e) (blob_file_garbages_ e) (wal_additions_ e) (wal_deletion_ e) (column_family_ e)
    (column_family_name_ e) (is_column_family_drop_ e) (remaining_entries_ e) (full_history_ts_low_ e).
Definition SetLastSequence (e : VersionEdit) (seq : Z) : VersionEdit :=
  mkEdit (max_level_ e) (db_id_ e) (comparator_ e) (log_number_ e) (prev_log_number_ e) (next_file_number_ e)
    (max_column_family_ e) (min_log_number_to_keep_ e) (Some seq) (compact_cursors_ e) (deleted_files_ e)
    (new_files_ e) (blob_file_additions_ e) (blob_file_garbages_ e) (wal_additions_ e) (wal_deletion_ e)
    (column_family_ e) (column_family_name_ e) (is_column_family_drop_ e) (remaining_entries_ e)
    (full_history_ts_low_ e).
Definition set_compact_cursors (e : VersionEdit) (cursors : list (Z * bytes)) : VersionEdit :=
  mkEdit (max_level_ e) (db_id_ e) (comparator_ e) (log_number_ e) (prev_log_number_ e) (next_file_number_ e)
    (max_column_family_ e) (min_log_number_to_keep_ e) (last_sequence_ e) cursors (deleted_files_ e) (new_files_ e)
    (blob_file_additions_ e) (blob_file_garbages_ e) (wal_additions_ e) (wal_deletion_ e) (column_family_ e)
    (column_family_name_ e) (is_column_family_drop_ e) (remaining_entries_ e) (full_history_ts_low_ e).
Definition AddCompactCursor (e : VersionEdit) (level : Z) (cursor : bytes) : VersionEdit :=
  set_compact_cursors e (compact_cursors_ e ++ [(level, cursor)]).
Definition SetCompactCursors (e : VersionEdit) (compact_cursors_by_level : list bytes) : VersionEdit :=
  set_compact_cursors e
    (List.filter (λ c, InternalKey.Valid (snd c)) (imap (λ i c, (Z.of_nat i, c)) compact_cursors_by_level)).

(** [std::set<std::pair<int, uint64_t>>] *)
Fixpoint deleted_insert (d : Z * Z) (s : list (Z * Z)) : list (Z * Z) :=
  match s with
  | [] => [d]
  | x :: s' =>
      if (fst d <? fst x) || ((fst d =? fst x) && (snd d <? snd x)) then d :: s
      else if (fst d =? fst x) && (snd d =? snd x) then s
      else x :: deleted_insert d s'
  end.
Definition DeleteFile (e : VersionEdit) (level file : Z) : VersionEdit :=
  mkEdit (max_level_ e) (db_id_ e) (comparator_ e) (log_number_ e) (prev_log_number_ e) (next_file_number_ e)
    (max_column_family_ e) (min_log_number_to_keep_ e) (last_sequence_ e) (compact_cursors_ e)
    (deleted_insert (level, file) (deleted_files_ e)) (new_files_ e) (blob_file_additions_ e) (blob_file_garbages_ e)
    (wal_additions_ e) (wal_deletion_ e) (column_family_ e) (column_family_name_ e) (is_column_family_drop_ e)
    (remaining_entries_ e) (full_history_ts_low_ e).
Definition push_new_file (e : VersionEdit) (level : Z) (f : FileMetaData) : VersionEdit :=
  mkEdit (max_level_ e) (db_id_ e) (comparator_ e) (log_number_ e) (prev_log_number_ e) (next_file_number_ e)
    (max_column_family_ e) (min_log_number_to_keep_ e) (last_sequence_ e) (compact_cursors_ e) (deleted_files_ e)
    (new_files_ e ++ [(level, f)]) (blob_file_additions_ e) (blob_file_garbages_ e) (wal_additions_ e)
    (wal_deletion_ e) (column_family_ e) (column_family_name_ e) (is_column_family_drop_ e) (remaining_entries_ e)
    (full_history_ts_low_ e).
Definition AddFile (e : VersionEdit) (level : Z) (f : FileMetaData) : VersionEdit :=
  let e := push_new_file e level f in
  let seq := largest_seqno (fd f) in
  match last_sequence_ e with
  | Some last => if last <? seq then SetLastSequence e seq else e
  | None => SetLastSequence e seq
  end.
Definition AddBlobFile (e : VersionEdit) (a : BlobFileAddition) : VersionEdit :=
  mkEdit (max_level_ e) (db_id_ e) (comparator_ e) (log_number_ e) (prev_log_number_ e) (next_file_number_ e)
    (max_column_family_ e) (min_log_number_to_keep_ e) (last_sequence_ e) (compact_cursors_ e) (deleted_files_ e)
    (new_files_ e) (blob_file_additions_ e ++ [a]) (blob_file_garbages_ e) (wal_additions_ e) (wal_deletion_ e)
    (column_family_ e) (column_family_name_ e) (is_column_family_drop_ e) (remaining_entries_ e)
    (full_history_ts_low_ e).
Definition AddBlobFileGarbage (e : VersionEdit) (g : BlobFileGarbage) : VersionEdit :=
  mkEdit (max_level_ e) (db_id_ e) (comparator_ e) (log_number_ e) (prev_log_number_ e) (next_file_number_ e)
    (max_column_family_ e) (min_log_number_to_keep_ e) (last_sequence_ e) (compact_cursors_ e) (deleted_files_ e)
    (new_files_ e) (blob_file_additions_ e) (blob_file_garbages_ e ++ [g]) (wal_additions_ e) (wal_deletion_ e)
    (column_family_ e) (column_family_name_ e) (is_column_family_drop_ e) (remaining_entries_ e)
    (full_history_ts_low_ e).
Definition AddWalAddition (e : VersionEdit) (wal : WalAddition) : VersionEdit :=
  mkEdit (max_level_ e) (db_id_ e) (comparator_ e) (log_number_ e) (prev_log_number_ e) (next_file_number_ e)
    (max_column_family_ e) (min_log_number_to_keep_ e) (last_sequence_ e) (compact_cursors_ e) (deleted_files_ e)
    (new_files_ e) (blob_file_additions_ e) (blob_file_garbages_ e) (wal_additions_ e ++ [wal]) (wal_deletion_ e)
    (column_family_ e) (column_family_name_ e) (is_column_family_drop_ e) (remaining_entries_ e)
    (full_history_ts_low_ e).
Definition SetWalDeletion (e : VersionEdit) (number : Z) : VersionEdit :=
  mkEdit (max_level_ e) (db_id_ e) (comparator_ e) (log_number_ e) (prev_log_number_ e) (next_file_number_ e)
    (max_column_family_ e) (min_log_number_to_keep_ e) (last_sequence_ e) (compact_cursors_ e) (deleted_files_ e)
    (new_files_ e) (blob_file_additions_ e) (blob_file_garbages_ e) (wal_additions_ e) number (column_family_ e)
    (column_family_name_ e) (is_column_family_drop_ e) (remaining_entries_ e) (full_history_ts_low_ e).
Definition SetColumnFamily (e : VersionEdit) (column_family_id : Z) : VersionEdit :=
  mkEdit (max_level_ e) (db_id_ e) (comparator_ e) (log_number_ e) (prev_log_number_ e) (next_file_number_ e)
    (max_column_family_ e) (min_log_number_to_keep_ e) (last_sequence_ e) (compact_cursors_ e) (deleted_files_ e)
    (new_files_ e) (blob_file_additions_ e) (blob_file_garbages_ e) (wal_additions_ e) (wal_deletion_ e)
    column_family_id (column_family_name_ e) (is_column_family_drop_ e) (remaining_entries_ e)
    (full_history_ts_low_ e).
Definition AddColumnFamily (e : VersionEdit) (name : bytes) : VersionEdit :=
  mkEdit (max_level_ e) (db_id_ e) (comparator_ e) (log_number_ e) (prev_log_number_ e) (next_file_number_ e)
    (max_column_family_ e) (min_log_number_to_keep_ e) (last_sequence_ e) (compact_cursors_ e) (deleted_files_ e)
    (new_files_ e) (blob_file_additions_ e) (blob_file_garbages_ e) (wal_additions_ e) (wal_deletion_ e)
    (column_family_ e) (Some name) (is_column_family_drop_ e) (remaining_entries_ e) (full_history_ts_low_ e).
Definition DropColumnFamily (e : VersionEdit) : VersionEdit :=
  mkEdit (max_level_ e) (db_id_ e) (comparator_ e) (log_number_ e) (prev_log_number_ e) (next_file_number_ e)
    (max_column_family_ e) (min_log_number_to_keep_ e) (last_sequence_ e) (compact_cursors_ e) (deleted_files_ e)
    (new_files_ e) (blob_file_additions_ e) (blob_file_garbages_ e) (wal_additions_ e) (wal_deletion_ e)
    (column_family_ e) (column_family_name_ e) true (remaining_entries_ e) (full_history_ts_low_ e).
Definition MarkAtomicGroup (e : VersionEdit) (remaining_entries : Z) : VersionEdit :=
  mkEdit (max_level_ e) (db_id_ e) (comparator_ e) (log_number_ e) (prev_log_number_ e) (next_file_number_ e)
    (max_column_family_ e) (min_log_number_to_keep_ e) (last_sequence_ e) (compact_cursors_ e) (deleted_files_ e)
    (new_files_ e) (blob_file_additions_ e) (blob_file_garbages_ e) (wal_additions_ e) (wal_deletion_ e)
    (column_family_ e) (column_family_name_ e) (is_column_family_drop_ e) (Some remaining_entries)
    (full_history_ts_low_ e).
Definition SetFullHistoryTsLow (e : VersionEdit) (full_history_ts_low : bytes) : VersionEdit :=
  mkEdit (max_level_ e) (db_id_ e) (comparator_ e) (log_number_ e) (prev_log_number_ e) (next_file_number_ e)
    (max_column_family_ e) (min_log_number_to_keep_ e) (last_sequence_ e) (compact_cursors_ e) (deleted_files_ e)
    (new_files_ e) (blob_file_additions_ e) (blob_file_garbages_ e) (wal_additions_ e) (wal_deletion_ e)
    (column_family_ e) (column_family_name_ e) (is_column_family_drop_ e) (remaining_entries_ e) full_history_ts_low.

(** Number of edits *)
Definition NumEntries (e : VersionEdit) : Z :=
  Zlen (new_files_ e) + Zlen (deleted_files_ e) + Zlen (blob_file_additions_ e) + Zlen (blob_file_garbages_ e)
  + Zlen (wal_additions_ e) + (if WalDeletion_IsEmpty (wal_deletion_ e) then 0 else 1).
Definition IsWalManipulation (e : VersionEdit) : bool :=
  (0 <? NumEntries e) &&
  ((NumEntries e =? Zlen (wal_additions_ e)) ||
   (NumEntries e =? (if WalDeletion_IsEmpty (wal_deletion_ e) then 0 else 1))).

(** ** Encoding *)

(** [dst] extended with a value, if there is one *)
Definition put_opt {A} (put : bytes → A → bytes) (dst : bytes) (x : option A) : bytes :=
  match x with Some x => put dst x | None => dst end.

Definition EncodeFileBoundaries (dst : bytes) (meta : FileMetaData) (ts_sz : Z) : bytes :=
  if (ts_sz =? 0) || user_defined_timestamps_persisted meta then
    PutLengthPrefixedSlice (PutLengthPrefixedSlice dst (InternalKey.Encode (smallest meta))) (InternalKey.Encode (largest meta))
  else
    PutLengthPrefixedSlice
      (PutLengthPrefixedSlice dst (StripTimestampFromInternalKey [] (InternalKey.Encode (smallest meta)) ts_sz))
      (StripTimestampFromInternalKey [] (InternalKey.Encode (largest meta)) ts_sz).

(** A custom field: its tag and its bytes with their length *)
Definition put_custom (dst : bytes) (tag : Z) (field : bytes) : bytes := PutLengthPrefixedSlice (PutVarint32 dst tag) field.
Definition put_custom_if (cond : bool) (dst : bytes) (tag : Z) (field : bytes) : bytes :=
  if cond then put_custom dst tag field else dst.

(** [min_log] is the number to keep, unless a file before has written it. *)
Definition EncodeNewFile4 (dst : bytes) (ts_sz : Z) (min_log : option Z) (level : Z) (f : FileMetaData) : bytes :=
  let dst := PutVarint32 dst Tag.kNewFile4 in
  let dst := PutVarint32Varint64 dst (u32 level) (GetNumber (fd f)) in
  let dst := PutVarint64 dst (file_size (fd f)) in
  let dst := EncodeFileBoundaries dst f ts_sz in
  let dst := PutVarint64Varint64 dst (smallest_seqno (fd f)) (largest_seqno (fd f)) in
  let dst := put_custom dst NewFileCustomTag.kOldestAncesterTime (EncodeVarint64 (oldest_ancester_time f)) in
  let dst := put_custom dst NewFileCustomTag.kFileCreationTime (EncodeVarint64 (file_creation_time f)) in
  let dst := put_custom dst NewFileCustomTag.kEpochNumber (EncodeVarint64 (epoch_number f)) in
  let dst := put_custom dst NewFileCustomTag.kFileChecksum (file_checksum f) in
  let dst := put_custom dst NewFileCustomTag.kFileChecksumFuncName (file_checksum_func_name f) in
  let dst := put_custom_if (negb (GetPathId (fd f) =? 0)) dst NewFileCustomTag.kPathId [u8 (GetPathId (fd f))] in
  let dst := put_custom_if (negb (temperature f =? kTemperatureUnknown)) dst NewFileCustomTag.kTemperature [temperature f] in
  let dst := put_custom_if (marked_for_compaction f) dst NewFileCustomTag.kNeedCompaction [1] in
  let dst :=
    match min_log with
    | Some min_log_number_to_keep =>
        put_custom dst NewFileCustomTag.kMinLogNumberToKeepHack (EncodeFixed64 min_log_number_to_keep)
    | None => dst
    end in
  let dst := put_custom_if (negb (oldest_blob_file_number f =? kInvalidBlobFileNumber)) dst
               NewFileCustomTag.kOldestBlobFileNumber (EncodeVarint64 (oldest_blob_file_number f)) in
  let dst := put_custom_if (negb (bool_decide (unique_id f = UniqueId_null))) dst
               NewFileCustomTag.kUniqueId (encode_bytes (unique_id f)) in
  let dst := put_custom_if (negb (compensated_range_deletion_size f =? 0)) dst
               NewFileCustomTag.kCompensatedRangeDeletionSize (EncodeVarint64 (compensated_range_deletion_size f)) in
  let dst := put_custom_if (negb (tail_size f =? 0)) dst NewFileCustomTag.kTailSize (EncodeVarint64 (tail_size f)) in
  let dst := put_custom_if (negb (user_defined_timestamps_persisted f)) dst
               NewFileCustomTag.kUserDefinedTimestampsPersisted [0] in
  PutVarint32 dst NewFileCustomTag.kTerminate.

(** The files in turn; the result is whether all of them can be encoded. *)
Fixpoint EncodeNewFiles (dst : bytes) (ts_sz : Z) (min_log : option Z) (new_files : list (Z * FileMetaData)) : bool * bytes :=
  match new_files with
  | [] => (true, dst)
  | (level, f) :: new_files =>
      if negb (InternalKey.Valid (smallest f)) || negb (InternalKey.Valid (largest f)) || (epoch_number f =? kUnknownEpochNumber)
      then (false, dst)
      else EncodeNewFiles (EncodeNewFile4 dst ts_sz min_log level f) ts_sz None new_files
  end.

(** The fields before the new files, and those after them. *)
Definition EncodeTo_head (e : VersionEdit) (dst : bytes) : bytes :=
  let dst := put_opt (λ dst, PutLengthPrefixedSlice (PutVarint32 dst Tag.kDbId)) dst (db_id_ e) in
  let dst := put_opt (λ dst, PutLengthPrefixedSlice (PutVarint32 dst Tag.kComparator)) dst (comparator_ e) in
  let dst := put_opt (λ dst, PutVarint32Varint64 dst Tag.kLogNumber) dst (log_number_ e) in
  let dst := put_opt (λ dst, PutVarint32Varint64 dst Tag.kPrevLogNumber) dst (prev_log_number_ e) in
  let dst := put_opt (λ dst, PutVarint32Varint64 dst Tag.kNextFileNumber) dst (next_file_number_ e) in
  let dst := put_opt (λ dst, PutVarint32Varint32 dst Tag.kMaxColumnFamily) dst (max_column_family_ e) in
  let dst := put_opt (λ dst, PutVarint32Varint64 dst Tag.kMinLogNumberToKeep) dst (min_log_number_to_keep_ e) in
  let dst := put_opt (λ dst, PutVarint32Varint64 dst Tag.kLastSequence) dst (last_sequence_ e) in
  let dst := fold_left (λ dst cursor,
    if InternalKey.Valid (snd cursor) then
      PutLengthPrefixedSlice (PutVarint32 (PutVarint32 dst Tag.kCompactCursor) (u32 (fst cursor))) (InternalKey.Encode (snd cursor))
    else dst) (compact_cursors_ e) dst in
  fold_left (λ dst deleted, PutVarint32Varint32Varint64 dst Tag.kDeletedFile (u32 (fst deleted)) (snd deleted)) (deleted_files_ e) dst.
Definition EncodeTo_tail (e : VersionEdit) (dst : bytes) : bytes :=
  let dst := fold_left (λ dst a, BlobFileAddition_EncodeTo (PutVarint32 dst Tag.kBlobFileAddition) a) (blob_file_additions_ e) dst in
  let dst := fold_left (λ dst g, BlobFileGarbage_EncodeTo (PutVarint32 dst Tag.kBlobFileGarbage) g) (blob_file_garbages_ e) dst in
  let dst := fold_left (λ dst wal, PutLengthPrefixedSlice (PutVarint32 dst Tag.kWalAddition2) (WalAddition_EncodeTo [] wal))
               (wal_additions_ e) dst in
  let dst := if WalDeletion_IsEmpty (wal_deletion_ e) then dst
             else PutLengthPrefixedSlice (PutVarint32 dst Tag.kWalDeletion2) (WalDeletion_EncodeTo [] (wal_deletion_ e)) in
  let dst := if column_family_ e =? 0 then dst else PutVarint32Varint32 dst Tag.kColumnFamily (column_family_ e) in
  let dst := put_opt (λ dst, PutLengthPrefixedSlice (PutVarint32 dst Tag.kColumnFamilyAdd)) dst (column_family_name_ e) in
  let dst := if is_column_family_drop_ e then PutVarint32 dst Tag.kColumnFamilyDrop else dst in
  let dst := put_opt (λ dst, PutVarint32 (PutVarint32 dst Tag.kInAtomicGroup)) dst (remaining_entries_ e) in
  match full_history_ts_low_ e with
  | [] => dst
  | full_history_ts_low => PutLengthPrefixedSlice (PutVarint32 dst Tag.kFullHistoryTsLow) full_history_ts_low
  end.
(** [ts_sz] is the value of the optional argument, which is there if there are new
    files. *)
Definition EncodeTo (e : VersionEdit) (dst : bytes) (ts_sz : Z) : bool * bytes :=
  let '(encoded, dst) := EncodeNewFiles (EncodeTo_head e dst) ts_sz (min_log_number_to_keep_ e) (new_files_ e) in
  if encoded then (true, EncodeTo_tail e dst) else (false, dst).

(** ** Decoding *)

Definition GetInternalKey (input : bytes) : option (bytes * bytes) :=
  '(str, input) ← GetLengthPrefixedSlice input;
  if InternalKey.Valid (InternalKey.DecodeFrom str) then Some (InternalKey.DecodeFrom str, input) else None.

(** The level, which is an [int], and the edit with [max_level_]. *)
Definition GetLevel (e : VersionEdit) (input : bytes) : option (Z * VersionEdit * bytes) :=
  '(v, input) ← GetVarint32 input;
  let level := swrap 32 v in
  Some (level, if max_level_ e <? level then set_max_level e level else e, input).

(** What a step of decoding leads to: on with the next field, the end of the loop
    with a message, or a status that is returned at once. The edit is in each of
    them, as an error leaves it. *)
Inductive Outcome :=
  | Go (e : VersionEdit) (input : bytes)
  | Msg (msg : string) (e : VersionEdit)
  | Ret (s : Status) (e : VersionEdit).

(** One custom field of a new file, [inl] the message. *)
Definition custom_field (e : VersionEdit) (f : FileMetaData) (path_id custom_tag : Z) (field : bytes) :
    string + VersionEdit * FileMetaData * Z :=
  let varint (set : Z → FileMetaData) (msg : string) : string + VersionEdit * FileMetaData * Z :=
    match GetVarint64 field with None => inl msg | Some (v, _) => inr (e, set v, path_id) end in
  let byte (set : Z → FileMetaData) (msg : string) : string + VersionEdit * FileMetaData * Z :=
    if negb (Zlen field =? 1) then inl msg else inr (e, set (znth field 0), path_id) in
  if custom_tag =? NewFileCustomTag.kPathId then
    if negb (Zlen field =? 1) then inl "path_id field wrong size"%string
    else
      let path_id := char_as_u 32 (znth field 0) in
      if 3 <? path_id then inl "path_id wrong vaue"%string else inr (e, f, path_id)
  else if custom_tag =? NewFileCustomTag.kOldestAncesterTime then varint (set_oldest_ancester_time f) "invalid oldest ancester time"%string
  else if custom_tag =? NewFileCustomTag.kFileCreationTime then varint (set_file_creation_time f) "invalid file creation time"%string
  else if custom_tag =? NewFileCustomTag.kEpochNumber then varint (set_epoch_number f) "invalid epoch number"%string
  else if custom_tag =? NewFileCustomTag.kFileChecksum then inr (e, set_file_checksum f field, path_id)
  else if custom_tag =? NewFileCustomTag.kFileChecksumFuncName then inr (e, set_file_checksum_func_name f field, path_id)
  else if custom_tag =? NewFileCustomTag.kNeedCompaction then
    byte (λ b, set_marked_for_compaction f (b =? 1)) "need_compaction field wrong size"%string
  else if custom_tag =? NewFileCustomTag.kMinLogNumberToKeepHack then
    match GetFixed64 field with
    | None => inl "deleted log number malformatted"%string
    | Some (v, _) => inr (SetMinLogNumberToKeep e v, f, path_id)
    end
  else if custom_tag =? NewFileCustomTag.kOldestBlobFileNumber then
    varint (set_oldest_blob_file_number f) "invalid oldest blob file number"%string
  else if custom_tag =? NewFileCustomTag.kTemperature then
    byte (λ b, if b <=? kCold then set_temperature f b else f) "temperature field wrong size"%string
  else if custom_tag =? NewFileCustomTag.kUniqueId then
    match decode_bytes field with
    | None => inl "invalid unique id"%string
    | Some id => inr (e, set_unique_id f id, path_id)
    end
  else if custom_tag =? NewFileCustomTag.kCompensatedRangeDeletionSize then
    varint (set_compensated_range_deletion_size f) "Invalid compensated range deletion size"%string
  else if custom_tag =? NewFileCustomTag.kTailSize then varint (set_tail_size f) "invalid tail start offset"%string
  else if custom_tag =? NewFileCustomTag.kUserDefinedTimestampsPersisted then
    byte (λ b, set_user_defined_timestamps_persisted f (b =? 1)) "user-defined timestamps persisted field wrong size"%string
  else if negb (Z.land custom_tag NewFileCustomTag.kCustomTagNonSafeIgnoreMask =? 0) then
    inl "new-file4 custom field not supported"%string
  else inr (e, f, path_id).

(** The loop over the custom fields; [None] is out of fuel. A field that fails has
    changed nothing but through the fields before it. *)
Fixpoint custom_fields (fuel : nat) (e : VersionEdit) (f : FileMetaData) (path_id : Z) (input : bytes) :
    option (string * VersionEdit + VersionEdit * FileMetaData * Z * bytes) :=
  match fuel with
  | O => None
  | S fuel =>
      match GetVarint32 input with
      | None => Some (inl ("new-file4 custom field"%string, e))
      | Some (custom_tag, input) =>
          if custom_tag =? NewFileCustomTag.kTerminate then Some (inr (e, f, path_id, input))
          else
            match GetLengthPrefixedSlice input with
            | None => Some (inl ("new-file4 custom field length prefixed slice error"%string, e))
            | Some (field, input) =>
                match custom_field e f path_id custom_tag field with
                | inl msg => Some (inl (msg, e))
                | inr (e, f, path_id) => custom_fields fuel e f path_id input
                end
            end
      end
  end.

(** A chain of reads, the first of which may change the edit: [k] if all succeed,
    the edit as the failing one leaves it if not. *)
Definition with_level (e : VersionEdit) (input : bytes) (fail : VersionEdit → option Outcome)
    (k : Z → VersionEdit → bytes → option Outcome) : option Outcome :=
  match GetLevel e input with None => fail e | Some (level, e, input) => k level e input end.
Definition with_read {A} (r : option (A * bytes)) (fail : option Outcome) (k : A → bytes → option Outcome) : option Outcome :=
  match r with None => fail | Some (x, input) => k x input end.

Definition DecodeNewFile4From (e : VersionEdit) (input : bytes) : option Outcome :=
  let fail e := Some (Msg "new-file4 entry" e) in
  with_level e input fail (λ level e input,
  with_read (GetVarint64 input) (fail e) (λ number input,
  with_read (GetVarint64 input) (fail e) (λ file_size input,
  with_read (GetInternalKey input) (fail e) (λ smallest input,
  with_read (GetInternalKey input) (fail e) (λ largest input,
  with_read (GetVarint64 input) (fail e) (λ smallest_seqno input,
  with_read (GetVarint64 input) (fail e) (λ largest_seqno input,
  match custom_fields (S (length input)) e (set_boundaries DefaultFileMetaData smallest largest) 0 input with
  | None => None
  | Some (inl (msg, e)) => Some (Msg msg e)
  | Some (inr (e, f, path_id, input)) =>
      Some (Go (push_new_file e level (set_fd f (NewFileDescriptor number path_id file_size smallest_seqno largest_seqno))) input)
  end))))))).

(** A new file of an older format: the path is read if [has_path], the sequence
    numbers if [has_seqnos]. *)
Definition DecodeOldNewFile (has_path has_seqnos : bool) (msg : string) (e : VersionEdit) (input : bytes) : option Outcome :=
  let fail e := Some (Msg msg e) in
  with_level e input fail (λ level e input,
  with_read (GetVarint64 input) (fail e) (λ number input,
  with_read (if has_path then GetVarint32 input else Some (0, input)) (fail e) (λ path_id input,
  with_read (GetVarint64 input) (fail e) (λ file_size input,
  with_read (GetInternalKey input) (fail e) (λ smallest input,
  with_read (GetInternalKey input) (fail e) (λ largest input,
  with_read (if has_seqnos then GetVarint64 input else Some (kMaxSequenceNumber, input)) (fail e) (λ smallest_seqno input,
  with_read (if has_seqnos then GetVarint64 input else Some (0, input)) (fail e) (λ largest_seqno input,
  Some (Go (push_new_file e level (set_fd (set_boundaries DefaultFileMetaData smallest largest)
    (NewFileDescriptor number path_id file_size smallest_seqno largest_seqno))) input))))))))).

(** A part that has a decoder of its own, whose error is returned. *)
Definition with_decoder {A} (r : option (Status + A * bytes)) (e : VersionEdit) (k : A → VersionEdit) : option Outcome :=
  match r with
  | None => None
  | Some (inl s) => Some (Ret s e)
  | Some (inr (x, input)) => Some (Go (k x) input)
  end.
(** The same in a length prefixed slice, the rest of which is skipped. *)
Definition with_sized_decoder {A} (msg : string) (decode : bytes → option (Status + A * bytes)) (e : VersionEdit) (input : bytes)
    (k : A → VersionEdit) : option Outcome :=
  with_read (GetLengthPrefixedSlice input) (Some (Msg msg e)) (λ encoded input,
  match decode encoded with
  | None => None
  | Some (inl s) => Some (Ret s e)
  | Some (inr (x, _)) => Some (Go (k x) input)
  end).

Definition slice_field (msg : string) (e : VersionEdit) (input : bytes) (set : bytes → VersionEdit) : option Outcome :=
  with_read (GetLengthPrefixedSlice input) (Some (Msg msg e)) (λ str input, Some (Go (set str) input)).
Definition varint64_field (msg : string) (e : VersionEdit) (input : bytes) (set : Z → VersionEdit) : option Outcome :=
  with_read (GetVarint64 input) (Some (Msg msg e)) (λ v input, Some (Go (set v) input)).
Definition varint32_field (msg : string) (e : VersionEdit) (input : bytes) (set : Z → VersionEdit) : option Outcome :=
  with_read (GetVarint32 input) (Some (Msg msg e)) (λ v input, Some (Go (set v) input)).

(** The [switch] *)
Definition decode_field (tag : Z) (e : VersionEdit) (input : bytes) : option Outcome :=
  if tag =? Tag.kDbId then slice_field "db id" e input (SetDBId e)
  else if tag =? Tag.kComparator then slice_field "comparator name" e input (SetComparatorName e)
  else if tag =? Tag.kLogNumber then varint64_field "log number" e input (SetLogNumber e)
  else if tag =? Tag.kPrevLogNumber then varint64_field "previous log number" e input (SetPrevLogNumber e)
  else if tag =? Tag.kNextFileNumber then varint64_field "next file number" e input (SetNextFile e)
  else if tag =? Tag.kMaxColumnFamily then varint32_field "max column family" e input (SetMaxColumnFamily e)
  else if tag =? Tag.kMinLogNumberToKeep then varint64_field "min log number to kee" e input (SetMinLogNumberToKeep e)
  else if tag =? Tag.kLastSequence then varint64_field "last sequence number" e input (SetLastSequence e)
  else if tag =? Tag.kCompactCursor then
    let fail e := Some (Msg "compaction cursor" e) in
    with_level e input fail (λ level e input,
    with_read (GetInternalKey input) (fail e) (λ key input, Some (Go (AddCompactCursor e level key) input)))
  else if tag =? Tag.kDeletedFile then
    let fail e := Some (Msg "deleted file" e) in
    with_level e input fail (λ level e input,
    with_read (GetVarint64 input) (fail e) (λ number input, Some (Go (DeleteFile e level number) input)))
  else if tag =? Tag.kNewFile then DecodeOldNewFile false false "new-file entry" e input
  else if tag =? Tag.kNewFile2 then DecodeOldNewFile false true "new-file2 entry" e input
  else if tag =? Tag.kNewFile3 then DecodeOldNewFile true true "new-file3 entry" e input
  else if tag =? Tag.kNewFile4 then DecodeNewFile4From e input
  else if (tag =? Tag.kBlobFileAddition) || (tag =? Tag.kBlobFileAddition_DEPRECATED) then
    with_decoder (BlobFileAddition_DecodeFrom input) e (AddBlobFile e)
  else if (tag =? Tag.kBlobFileGarbage) || (tag =? Tag.kBlobFileGarbage_DEPRECATED) then
    with_decoder (BlobFileGarbage_DecodeFrom input) e (AddBlobFileGarbage e)
  else if tag =? Tag.kWalAddition then with_decoder (WalAddition_DecodeFrom input) e (AddWalAddition e)
  else if tag =? Tag.kWalAddition2 then
    with_sized_decoder "WalAddition not prefixed by length" WalAddition_DecodeFrom e input (AddWalAddition e)
  else if tag =? Tag.kWalDeletion then with_decoder (Some (WalDeletion_DecodeFrom input)) e (SetWalDeletion e)
  else if tag =? Tag.kWalDeletion2 then
    with_sized_decoder "WalDeletion not prefixed by length" (λ encoded, Some (WalDeletion_DecodeFrom encoded)) e input (SetWalDeletion e)
  else if tag =? Tag.kColumnFamily then varint32_field "set column family id" e input (SetColumnFamily e)
  else if tag =? Tag.kColumnFamilyAdd then slice_field "column family add" e input (AddColumnFamily e)
  else if tag =? Tag.kColumnFamilyDrop then Some (Go (DropColumnFamily e) input)
  else if tag =? Tag.kInAtomicGroup then
    varint32_field "remaining entries" (MarkAtomicGroup e (default 0 (remaining_entries_ e))) input (MarkAtomicGroup e)
  else if tag =? Tag.kFullHistoryTsLow then
    with_read (GetLengthPrefixedSlice input) (Some (Msg "full_history_ts_low" e)) (λ str input,
    match str with
    | [] => Some (Msg "full_history_ts_low: empty" e)
    | _ => Some (Go (SetFullHistoryTsLow e str) input)
    end)
  else if negb (Z.land tag Tag.kTagSafeIgnoreMask =? 0) then
    let fail := Some (Msg "safely ignoreable tag length error" e) in
    with_read (GetVarint32 input) fail (λ field_len input,
    if Zlen input <? field_len then fail else Some (Go e (zdrop field_len input)))
  else Some (Msg "unknown tag" e).

(** [None] is out of fuel. *)
Fixpoint DecodeFrom_loop (fuel : nat) (e : VersionEdit) (input : bytes) : option (Status * VersionEdit) :=
  match fuel with
  | O => None
  | S fuel =>
      match GetVarint32 input with
      | None => Some (match input with [] => Status_OK | _ => Corruption2 "VersionEdit" "invalid tag" end, e)
      | Some (tag, input) =>
          match decode_field tag e input with
          | None => None
          | Some (Go e input) => DecodeFrom_loop fuel e input
          | Some (Msg msg e) => Some (Corruption2 "VersionEdit" msg, e)
          | Some (Ret s e) => Some (s, e)
          end
      end
  end.
(** What the edit held before is cleared. *)
Definition DecodeFrom (_ : VersionEdit) (src : bytes) : option (Status * VersionEdit) :=
  DecodeFrom_loop (S (length src)) Clear src.
