(* ===== verification/VersionEditCorrect.v ===== *)
(** * Version edits: encoding and decoding

    A version edit as a list of fields: encoding writes the fields one after the
    other, and decoding applies them. What is read back of an edit is what it says,
    and the fields of a later version of the program that may be skipped change
    nothing. *)

From S2P Require Import Prelude SortedLists Status Slice Coding DbFormat WalEdit VersionEdit.
From stdpp Require Import pretty.
From Stdlib Require Import Sorting.Sorted.
#[local] Open Scope Z_scope.
#[local] Opaque EncodeVarint32 EncodeVarint64 GetVarint32 GetVarint64 GetLengthPrefixedSlice GetFixed64 EncodeFixed64 ztake zdrop Zlen.

(** ** Reading single values *)

Lemma GetVarint32_Put v rest : is_u 32 v → GetVarint32 (EncodeVarint32 v ++ rest) = Some (v, rest).
Proof. apply (round_trip v rest). Qed.
Lemma GetVarint64_Put v rest : is_u 64 v → GetVarint64 (EncodeVarint64 v ++ rest) = Some (v, rest).
Proof. apply (round_trip v rest). Qed.
Lemma GetVarint64_Encode v : is_u 64 v → GetVarint64 (EncodeVarint64 v) = Some (v, []).
Proof. intros Hv. rewrite <- (app_nil_r (EncodeVarint64 v)). by apply GetVarint64_Put. Qed.
Lemma GetFixed64_Encode v : is_u 64 v → GetFixed64 (EncodeFixed64 v) = Some (v, []).
Proof. intros Hv. rewrite <- (app_nil_r (EncodeFixed64 v)). by apply (round_trip v []). Qed.

Definition sized (s : bytes) : bytes := PutLengthPrefixedSlice [] s.
Definition short (s : bytes) : Prop := Zlen s < 2 ^ 32.
Lemma GetSlice_Put s rest : short s → GetLengthPrefixedSlice (sized s ++ rest) = Some (s, rest).
Proof. intros Hs. exact (LengthPrefixedSlice_RoundTrip s rest Hs). Qed.
Lemma PutSlice_sized dst s : PutLengthPrefixedSlice dst s = dst ++ sized s.
Proof. unfold sized. apply PutLengthPrefixedSlice_app. Qed.

Definition key_ok (k : bytes) : Prop := InternalKey.Valid k = true ∧ short k.
Lemma GetInternalKey_Put k rest : key_ok k → GetInternalKey (sized k ++ rest) = Some (k, rest).
Proof. intros [Hv Hl]. unfold GetInternalKey. rewrite GetSlice_Put by done. cbn. unfold InternalKey.DecodeFrom. by rewrite Hv. Qed.

Definition level_ok (level : Z) : Prop := 0 <= level < 2 ^ 31.
Definition raise_level (e : VersionEdit) (level : Z) : VersionEdit :=
  if max_level_ e <? level then set_max_level e level else e.
Lemma u32_level level : level_ok level → u32 level = level.
Proof. intros Hl. unfold level_ok in Hl. apply wrap_small. unfold is_u. lia. Qed.
Lemma GetLevel_Put e level rest : level_ok level →
  GetLevel e (EncodeVarint32 level ++ rest) = Some (level, raise_level e level, rest).
Proof.
  intros Hl. unfold level_ok in Hl. unfold GetLevel. rewrite GetVarint32_Put by (unfold is_u; lia). cbn.
  assert (swrap 32 level = level) as -> by (unfold swrap; rewrite Z.mod_small by lia; lia). done.
Qed.

(** ** The custom fields of a new file *)

Definition enc_customs (cs : list (Z * bytes)) : bytes := concat (map (λ c, EncodeVarint32 (fst c) ++ sized (snd c)) cs).
Lemma enc_customs_app cs cs' : enc_customs (cs ++ cs') = enc_customs cs ++ enc_customs cs'.
Proof. unfold enc_customs. by rewrite map_app, concat_app. Qed.

Lemma put_custom_enc dst tag x : put_custom dst tag x = dst ++ enc_customs [(tag, x)].
Proof. unfold put_custom, PutVarint32, enc_customs. cbn. by rewrite PutSlice_sized, app_nil_r, <- app_assoc. Qed.
Lemma put_custom_if_enc c dst tag x : put_custom_if c dst tag x = dst ++ enc_customs (if c then [(tag, x)] else []).
Proof. unfold put_custom_if. destruct c; [apply put_custom_enc|]. unfold enc_customs. cbn. by rewrite app_nil_r. Qed.

(** The state of the loop. *)
Abbreviation CState := (VersionEdit * FileMetaData * Z)%type.
Fixpoint apply_customs (st : CState) (cs : list (Z * bytes)) : string * VersionEdit + CState :=
  match cs with
  | [] => inr st
  | (tag, x) :: cs =>
      match custom_field (fst (fst st)) (snd (fst st)) (snd st) tag x with
      | inl msg => inl (msg, fst (fst st))
      | inr st => apply_customs st cs
      end
  end.
Lemma apply_customs_app st cs cs' : apply_customs st (cs ++ cs') =
  match apply_customs st cs with inl r => inl r | inr st => apply_customs st cs' end.
Proof.
  revert st. induction cs as [|[tag x] cs IH]; intros st; [done|]. cbn [app apply_customs].
  destruct (custom_field _ _ _ _ _); [done|apply IH].
Qed.

Definition custom_wf (c : Z * bytes) : Prop := is_u 32 (fst c) ∧ fst c ≠ NewFileCustomTag.kTerminate ∧ short (snd c).

Lemma custom_fields_enc cs : Forall custom_wf cs → ∀ fuel e f path_id rest, (length cs < fuel)%nat →
  custom_fields fuel e f path_id (enc_customs cs ++ EncodeVarint32 NewFileCustomTag.kTerminate ++ rest) =
  Some (match apply_customs (e, f, path_id) cs with
        | inl r => inl r
        | inr (e, f, path_id) => inr (e, f, path_id, rest)
        end).
Proof.
  induction 1 as [|[tag x] cs (H1 & H2 & H3) Hcs IH]; intros [|fuel] e f path_id rest Hf; try lia; cbn [custom_fields].
  - cbn [enc_customs map concat app]. rewrite GetVarint32_Put by done. done.
  - unfold enc_customs. cbn [map concat fst snd]. rewrite <- !app_assoc. rewrite GetVarint32_Put by done.
    cbn [fst snd] in *. rewrite (proj2 (Z.eqb_neq _ _) H2), GetSlice_Put by done. cbn [apply_customs fst snd].
    destruct (custom_field e f path_id tag x) as [msg|[[e' f'] path_id']]; [done|]. apply IH. cbn in Hf. lia.
Qed.


(** The custom tags that the [switch] has a case for, and the end of the fields. *)
Definition known_custom_tags : list Z :=
  [NewFileCustomTag.kTerminate; NewFileCustomTag.kNeedCompaction; NewFileCustomTag.kMinLogNumberToKeepHack;
   NewFileCustomTag.kOldestBlobFileNumber; NewFileCustomTag.kOldestAncesterTime; NewFileCustomTag.kFileCreationTime;
   NewFileCustomTag.kFileChecksum; NewFileCustomTag.kFileChecksumFuncName; NewFileCustomTag.kTemperature;
   NewFileCustomTag.kUniqueId; NewFileCustomTag.kEpochNumber; NewFileCustomTag.kCompensatedRangeDeletionSize;
   NewFileCustomTag.kTailSize; NewFileCustomTag.kUserDefinedTimestampsPersisted; NewFileCustomTag.kPathId].
Definition known_custom (c : Z * bytes) : bool := bool_decide (fst c ∈ known_custom_tags).
Definition must_know (tag : Z) : bool := negb (Z.land tag NewFileCustomTag.kCustomTagNonSafeIgnoreMask =? 0).

Lemma unknown_custom_field e f p tag x : tag ∉ known_custom_tags →
  custom_field e f p tag x = if must_know tag then inl "new-file4 custom field not supported"%string else inr (e, f, p).
Proof.
  intros H. unfold known_custom_tags in H. repeat (apply not_elem_of_cons in H as [? H]). unfold custom_field.
  repeat match goal with |- context [tag =? ?t] => rewrite (proj2 (Z.eqb_neq tag t)) by done end. done.
Qed.

(** Fields that are not known and may be skipped do nothing. *)
Lemma apply_customs_known cs : Forall (λ c, known_custom c = false → must_know (fst c) = false) cs → ∀ st,
  apply_customs st cs = apply_customs st (List.filter known_custom cs).
Proof.
  induction 1 as [|[tag x] cs Hc Hcs IH]; intros st; [done|]. cbn [apply_customs List.filter]. destruct (known_custom (tag, x)) eqn:E.
  - cbn [apply_customs]. destruct (custom_field _ _ _ tag x); [done|apply IH].
  - apply bool_decide_eq_false in E as Hk. rewrite unknown_custom_field by done. cbn [fst] in Hc. rewrite Hc by done.
    destruct st as [[e f] p]. apply IH.
Qed.

(** A field that may be left out, because its value is the default. *)
Lemma apply_custom_if st st' (c : bool) tag x :
  (c = true → custom_field (fst (fst st)) (snd (fst st)) (snd st) tag x = inr st') → (c = false → st = st') →
  apply_customs st (if c then [(tag, x)] else []) = inr st'.
Proof. destruct c; intros H1 H2; cbn; [by rewrite H1|by rewrite H2]. Qed.

(** ** New files *)

(** The file as it is read back: user-defined timestamps that are not persisted are
    cut off its boundaries. *)
Definition persisted_file (ts_sz : Z) (f : FileMetaData) : FileMetaData :=
  if (ts_sz =? 0) || user_defined_timestamps_persisted f then f
  else set_boundaries f (StripTimestampFromInternalKey [] (smallest f) ts_sz) (StripTimestampFromInternalKey [] (largest f) ts_sz).

(** Its numbers and names fit their types; nothing is said of the keys. *)
Record file_ok (f : FileMetaData) : Prop := {
  fo_packed : is_u 64 (packed_number_and_path_id (fd f));
  fo_size : is_u 64 (file_size (fd f));
  fo_smallest_seqno : is_u 64 (smallest_seqno (fd f));
  fo_largest_seqno : is_u 64 (largest_seqno (fd f));
  fo_smallest : short (smallest f);
  fo_largest : short (largest f);
  fo_range_deletion_size : is_u 64 (compensated_range_deletion_size f);
  fo_temperature : 0 <= temperature f <= kCold;
  fo_blob : is_u 64 (oldest_blob_file_number f);
  fo_ancester : is_u 64 (oldest_ancester_time f);
  fo_creation : is_u 64 (file_creation_time f);
  fo_epoch : is_u 64 (epoch_number f);
  fo_checksum : short (file_checksum f);
  fo_func_name : short (file_checksum_func_name f);
  fo_unique_id : is_u 64 (fst (unique_id f)) ∧ is_u 64 (snd (unique_id f));
  fo_tail : is_u 64 (tail_size f)
}.

Definition keys_valid (f : FileMetaData) : Prop := InternalKey.Valid (smallest f) = true ∧ InternalKey.Valid (largest f) = true.
(** The assertion of [StripTimestampFromInternalKey], which is called for keys that are valid. *)
Definition strip_ok (ts_sz : Z) (k : bytes) : Prop := InternalKey.Valid k = true → 0 <= ts_sz ∧ ts_sz + kNumInternalBytes <= Zlen k.
Definition boundaries_ok (ts_sz : Z) (f : FileMetaData) : Prop :=
  (ts_sz =? 0) || user_defined_timestamps_persisted f = false → strip_ok ts_sz (smallest f) ∧ strip_ok ts_sz (largest f).

(** Cutting off the timestamp does not change the footer, and so keeps a key valid. *)
Lemma Valid_strip ts_sz k : strip_ok ts_sz k → InternalKey.Valid k = true →
  InternalKey.Valid (StripTimestampFromInternalKey [] k ts_sz) = true.
Proof.
  intros Hs Hv. destruct (Hs Hv) as [H0 Hl]. revert Hv. unfold InternalKey.Valid, ParseInternalKey, StripTimestampFromInternalKey.
  cbn [app]. unfold kNumInternalBytes in *.
  assert (Zlen (ztake (Zlen k - 8 - ts_sz) k) = Zlen k - 8 - ts_sz) as E1 by (rewrite Zlen_ztake; lia).
  assert (Zlen (zdrop (Zlen k - 8) k) = 8) as E2 by (rewrite Zlen_zdrop; lia).
  rewrite Zlen_app, E1, E2. replace (Zlen k - 8 - ts_sz + 8 - 8) with (Zlen k - 8 - ts_sz) by lia.
  rewrite zdrop_app by done. destruct (Z.ltb_spec (Zlen k) 8); [lia|]. destruct (Z.ltb_spec (Zlen k - 8 - ts_sz + 8) 8); [lia|].
  by destruct (IsExtendedValueType _).
Qed.
Lemma keys_valid_persisted ts_sz f : boundaries_ok ts_sz f → keys_valid f → keys_valid (persisted_file ts_sz f).
Proof.
  intros Hb [H1 H2]. unfold persisted_file, boundaries_ok in *. destruct (_ || _); [done|]. destruct (Hb eq_refl).
  split; by apply Valid_strip.
Qed.

Lemma GetPathId_range fd : is_u 64 (packed_number_and_path_id fd) → 0 <= GetPathId fd <= 3 ∧
  GetPathId fd = packed_number_and_path_id fd / 2 ^ 62.
Proof.
  unfold is_u. intros H. unfold GetPathId. change (kFileNumberMask + 1) with (2 ^ 62).
  assert (0 <= packed_number_and_path_id fd / 2 ^ 62 <= 3) as Hr by (split; [apply Z.div_pos; lia|apply Z.lt_succ_r, Z.div_lt_upper_bound; lia]).
  rewrite wrap_small by (unfold is_u; lia). done.
Qed.

(** The number and the path of a file are put together again. *)
Lemma NewFileDescriptor_parts fd : is_u 64 (packed_number_and_path_id fd) →
  NewFileDescriptor (GetNumber fd) (GetPathId fd) (file_size fd) (smallest_seqno fd) (largest_seqno fd) = fd.
Proof.
  intros H. destruct (GetPathId_range fd H) as [Hr ->]. destruct fd as [p sz s l]. cbn in *. unfold NewFileDescriptor, GetNumber, PackFileNumberAndPathId.
  cbn. f_equal. change kFileNumberMask with (Z.ones 62). change (Z.ones 62 + 1) with (2 ^ 62).
  unfold is_u in H. rewrite wrap_small.
  2: { unfold is_u. split; [|pose proof (Z.mul_div_le p (2 ^ 62) ltac:(lia)); lia]. apply Z.mul_nonneg_nonneg; [apply Z.div_pos|]; lia. }
  rewrite <- Z.shiftr_div_pow2, <- Z.shiftl_mul_pow2 by lia. apply Z.bits_inj'. intros n Hn.
  rewrite Z.lor_spec, Z.land_spec, testbit_ones by lia. destruct (Z.ltb_spec n 62).
  - rewrite andb_true_r, Z.shiftl_spec_low by lia. by rewrite orb_false_r.
  - rewrite andb_false_r, Z.shiftl_spec, Z.shiftr_spec by lia. cbn. f_equal. lia.
Qed.

Lemma decode_encode_bytes id : is_u 64 (fst id) → is_u 64 (snd id) → decode_bytes (encode_bytes id) = Some id.
Proof.
  intros H1 H2. unfold decode_bytes, encode_bytes. rewrite Zlen_app, !Zlen_EncodeFixed64. cbn [negb Z.add Z.eqb Pos.add Pos.eqb].
  rewrite ztake_app, zdrop_app by by rewrite Zlen_EncodeFixed64. rewrite ztake_all by by rewrite Zlen_EncodeFixed64.
  rewrite <- (app_nil_r (EncodeFixed64 (fst id))), <- (app_nil_r (EncodeFixed64 (snd id))), !DecodeFixed64_Encode by done.
  by destruct id.
Qed.

(** The custom fields in the order in which they are written. *)
Definition customs (min_log : option Z) (f : FileMetaData) : list (Z * bytes) :=
  [(NewFileCustomTag.kOldestAncesterTime, EncodeVarint64 (oldest_ancester_time f));
   (NewFileCustomTag.kFileCreationTime, EncodeVarint64 (file_creation_time f));
   (NewFileCustomTag.kEpochNumber, EncodeVarint64 (epoch_number f));
   (NewFileCustomTag.kFileChecksum, file_checksum f);
   (NewFileCustomTag.kFileChecksumFuncName, file_checksum_func_name f)] ++
  (if negb (GetPathId (fd f) =? 0) then [(NewFileCustomTag.kPathId, [u8 (GetPathId (fd f))])] else []) ++
  (if negb (temperature f =? kTemperatureUnknown) then [(NewFileCustomTag.kTemperature, [temperature f])] else []) ++
  (if marked_for_compaction f then [(NewFileCustomTag.kNeedCompaction, [1])] else []) ++
  (match min_log with Some n => [(NewFileCustomTag.kMinLogNumberToKeepHack, EncodeFixed64 n)] | None => [] end) ++
  (if negb (oldest_blob_file_number f =? kInvalidBlobFileNumber)
   then [(NewFileCustomTag.kOldestBlobFileNumber, EncodeVarint64 (oldest_blob_file_number f))] else []) ++
  (if negb (bool_decide (unique_id f = UniqueId_null)) then [(NewFileCustomTag.kUniqueId, encode_bytes (unique_id f))] else []) ++
  (if negb (compensated_range_deletion_size f =? 0)
   then [(NewFileCustomTag.kCompensatedRangeDeletionSize, EncodeVarint64 (compensated_range_deletion_size f))] else []) ++
  (if negb (tail_size f =? 0) then [(NewFileCustomTag.kTailSize, EncodeVarint64 (tail_size f))] else []) ++
  (if negb (user_defined_timestamps_persisted f) then [(NewFileCustomTag.kUserDefinedTimestampsPersisted, [0])] else []).

Definition enc_file_head (level : Z) (f : FileMetaData) : bytes :=
  EncodeVarint32 level ++ EncodeVarint64 (GetNumber (fd f)) ++ EncodeVarint64 (file_size (fd f)) ++ sized (smallest f) ++
  sized (largest f) ++ EncodeVarint64 (smallest_seqno (fd f)) ++ EncodeVarint64 (largest_seqno (fd f)).
(** A new file with the custom fields [cs], and with those that this version writes. *)
Definition enc_file (level : Z) (f : FileMetaData) (cs : list (Z * bytes)) : bytes :=
  enc_file_head level f ++ enc_customs cs ++ EncodeVarint32 NewFileCustomTag.kTerminate.
Definition enc_new_file (min_log : option Z) (level : Z) (f : FileMetaData) : bytes := enc_file level f (customs min_log f).

Lemma EncodeFileBoundaries_enc dst f ts_sz :
  EncodeFileBoundaries dst f ts_sz = dst ++ sized (smallest (persisted_file ts_sz f)) ++ sized (largest (persisted_file ts_sz f)).
Proof.
  unfold EncodeFileBoundaries, persisted_file, InternalKey.Encode. destruct (_ || _); by rewrite !PutSlice_sized, <- app_assoc.
Qed.

Lemma persisted_file_customs ts_sz min_log f : customs min_log (persisted_file ts_sz f) = customs min_log f.
Proof. unfold persisted_file. by destruct (_ || _). Qed.
Lemma persisted_file_fd ts_sz f : fd (persisted_file ts_sz f) = fd f.
Proof. unfold persisted_file. by destruct (_ || _). Qed.

Lemma EncodeNewFile4_enc dst ts_sz min_log level f : level_ok level →
  EncodeNewFile4 dst ts_sz min_log level f =
  dst ++ EncodeVarint32 Tag.kNewFile4 ++ enc_new_file min_log level (persisted_file ts_sz f).
Proof.
  intros Hl. unfold EncodeNewFile4, enc_new_file, enc_file, enc_file_head. rewrite persisted_file_customs, persisted_file_fd, (u32_level level Hl).
  rewrite EncodeFileBoundaries_enc. unfold PutVarint32, PutVarint32Varint64, PutVarint64, PutVarint64Varint64, customs.
  rewrite !enc_customs_app. rewrite !put_custom_if_enc. destruct min_log as [n|]; rewrite !put_custom_enc.
  all: change (enc_customs [?a; ?b; ?c; ?d; ?e]) with (enc_customs ([a] ++ [b] ++ [c] ++ [d] ++ [e])).
  all: rewrite !enc_customs_app, <- !app_assoc; done.
Qed.

(** ** Reading a new file back *)

Definition set_min_log (e : VersionEdit) (min_log : option Z) : VersionEdit :=
  match min_log with Some n => SetMinLogNumberToKeep e n | None => e end.

Lemma short_varint64 v : short (EncodeVarint64 v).
Proof. unfold short. pose proof (Zlen_EncodeVarint64 v). lia. Qed.
Lemma short_byte b : short [b].
Proof. unfold short. by rewrite Zlen_cons, Zlen_nil. Qed.

Lemma customs_wf min_log f : file_ok f → Forall custom_wf (customs min_log f).
Proof.
  intros Hf. unfold customs. repeat (apply Forall_app; split).
  all: repeat (match goal with |- Forall _ (if ?c then _ else _) => destruct c | |- Forall _ (match ?o with _ => _ end) => destruct o end).
  all: repeat (apply Forall_cons; split); try apply Forall_nil; try done; (split; [by vm_compute|split; [by vm_compute|]]); cbn [snd].
  all: try apply short_varint64; try apply short_byte; try apply Hf.
Qed.

(** The fields that are always written. *)
Lemma apply_fixed_customs e f0 p f : file_ok f →
  apply_customs (e, f0, p)
    [(NewFileCustomTag.kOldestAncesterTime, EncodeVarint64 (oldest_ancester_time f));
     (NewFileCustomTag.kFileCreationTime, EncodeVarint64 (file_creation_time f));
     (NewFileCustomTag.kEpochNumber, EncodeVarint64 (epoch_number f));
     (NewFileCustomTag.kFileChecksum, file_checksum f);
     (NewFileCustomTag.kFileChecksumFuncName, file_checksum_func_name f)] =
  inr (e, set_file_checksum_func_name (set_file_checksum (set_epoch_number (set_file_creation_time
    (set_oldest_ancester_time f0 (oldest_ancester_time f)) (file_creation_time f)) (epoch_number f)) (file_checksum f))
    (file_checksum_func_name f), p).
Proof.
  intros Hf. cbn [apply_customs fst snd]. unfold custom_field. cbn [Z.eqb Pos.eqb].
  rewrite !GetVarint64_Encode by apply Hf. done.
Qed.

Lemma custom_varint e f0 p v x (set : FileMetaData → Z → FileMetaData) (tag : Z) :
  x = EncodeVarint64 v → is_u 64 v →
  (tag, set) ∈ [(NewFileCustomTag.kOldestBlobFileNumber, set_oldest_blob_file_number);
    (NewFileCustomTag.kCompensatedRangeDeletionSize, set_compensated_range_deletion_size);
    (NewFileCustomTag.kTailSize, set_tail_size)] →
  custom_field e f0 p tag x = inr (e, set f0 v, p).
Proof.
  intros -> Hv Hin. repeat (apply elem_of_cons in Hin as [[= -> ->]|Hin]); [..|by apply elem_of_nil in Hin].
  all: unfold custom_field; cbn [Z.eqb Pos.eqb]; by rewrite GetVarint64_Encode.
Qed.

Lemma byte_size (b : Z) : negb (Zlen [b] =? 1) = false.
Proof. by rewrite Zlen_cons, Zlen_nil. Qed.
Lemma byte_value b : znth [b] 0 = b.
Proof. done. Qed.

Lemma char_small b w : 8 <= w → 0 <= b <= 3 → char_as_u w (u8 b) = b.
Proof. intros Hw Hb. rewrite u8_small by lia. apply char_low; lia. Qed.

Lemma apply_customs_file e min_log f : file_ok f → (∀ n, min_log = Some n → is_u 64 n) →
  apply_customs (e, set_boundaries DefaultFileMetaData (smallest f) (largest f), 0) (customs min_log f) =
  inr (set_min_log e min_log, set_fd f (fd DefaultFileMetaData), GetPathId (fd f)).
Proof.
  intros Hf Hm. unfold customs. destruct (GetPathId_range (fd f) (fo_packed f Hf)) as [Hp _].
  rewrite apply_customs_app, apply_fixed_customs by done.
  rewrite apply_customs_app. erewrite apply_custom_if with (st' := (e, _, GetPathId (fd f))).
  2: { intros _. cbn [fst snd]. unfold custom_field. cbn [Z.eqb Pos.eqb]. rewrite byte_size, byte_value.
       rewrite char_small by lia. rewrite (proj2 (Z.ltb_ge 3 _)) by lia. reflexivity. }
  2: { intros E%negb_false_iff%Z.eqb_eq. by rewrite E. }
  set (f1 := set_file_checksum_func_name _ _).
  rewrite apply_customs_app. rewrite apply_custom_if with (st' := (e, set_temperature f1 (temperature f), GetPathId (fd f))).
  2: { intros _. cbn [fst snd]. unfold custom_field. cbn [Z.eqb Pos.eqb]. rewrite byte_size, byte_value.
       by rewrite (proj2 (Z.leb_le _ _)) by apply Hf. }
  2: { intros E%negb_false_iff%Z.eqb_eq. by rewrite E. }
  set (f2 := set_temperature _ _).
  rewrite apply_customs_app. rewrite apply_custom_if with (st' := (e, set_marked_for_compaction f2 (marked_for_compaction f), GetPathId (fd f))).
  2: { intros ->. done. }
  2: { intros ->. done. }
  set (f3 := set_marked_for_compaction _ _).
  rewrite apply_customs_app. replace (apply_customs (e, f3, GetPathId (fd f)) (match min_log with Some n => _ | None => [] end))
    with (inr (A := string * VersionEdit) (set_min_log e min_log, f3, GetPathId (fd f))).
  2: { destruct min_log as [n|]; [|done]. cbn [apply_customs fst snd]. unfold custom_field. cbn [Z.eqb Pos.eqb].
       by rewrite (GetFixed64_Encode n) by by apply Hm. }
  set (e1 := set_min_log e min_log).
  rewrite apply_customs_app. rewrite apply_custom_if with (st' := (e1, set_oldest_blob_file_number f3 (oldest_blob_file_number f), GetPathId (fd f))).
  2: { intros _. apply custom_varint; [done|apply Hf|rewrite !elem_of_cons; auto]. }
  2: { intros E%negb_false_iff%Z.eqb_eq. by rewrite E. }
  set (f4 := set_oldest_blob_file_number _ _).
  rewrite apply_customs_app. rewrite apply_custom_if with (st' := (e1, set_unique_id f4 (unique_id f), GetPathId (fd f))).
  2: { intros _. cbn [fst snd]. unfold custom_field. cbn [Z.eqb Pos.eqb]. by rewrite decode_encode_bytes by apply Hf. }
  2: { intros E%negb_false_iff%bool_decide_eq_true. by rewrite E. }
  set (f5 := set_unique_id _ _).
  rewrite apply_customs_app. rewrite apply_custom_if with (st' := (e1, set_compensated_range_deletion_size f5 (compensated_range_deletion_size f), GetPathId (fd f))).
  2: { intros _. apply custom_varint; [done|apply Hf|rewrite !elem_of_cons; auto]. }
  2: { intros E%negb_false_iff%Z.eqb_eq. by rewrite E. }
  set (f6 := set_compensated_range_deletion_size _ _).
  rewrite apply_customs_app. rewrite apply_custom_if with (st' := (e1, set_tail_size f6 (tail_size f), GetPathId (fd f))).
  2: { intros _. apply custom_varint; [done|apply Hf|rewrite !elem_of_cons; auto]. }
  2: { intros E%negb_false_iff%Z.eqb_eq. by rewrite E. }
  rewrite apply_custom_if with (st' := (e1, set_fd f (fd DefaultFileMetaData), GetPathId (fd f))); [done|..].
  - intros E%negb_true_iff. cbn [fst snd]. unfold custom_field. cbn [Z.eqb Pos.eqb]. rewrite byte_size, byte_value.
    destruct f. cbn in E. subst. done.
  - intros E%negb_false_iff. destruct f. cbn in E. subst. done.
Qed.

Lemma enc_customs_length cs : (length cs <= length (enc_customs cs))%nat.
Proof.
  induction cs as [|c cs IH]; [done|]. unfold enc_customs in *. cbn [map concat length]. rewrite !length_app.
  pose proof (Zlen_EncodeVarint32 (fst c)) as Hz. rewrite Zlen_length in Hz. lia.
Qed.

Lemma GetNumber_range fd : is_u 64 (packed_number_and_path_id fd) → is_u 64 (GetNumber fd).
Proof. intros H. unfold GetNumber. apply is_u_land; [lia|done|done]. Qed.

(** The head of a new file is read, then its custom fields. *)
Lemma DecodeNewFile4_head e level f rest : level_ok level → file_ok f → keys_valid f →
  DecodeNewFile4From e (enc_file_head level f ++ rest) =
  match custom_fields (S (length rest)) (raise_level e level) (set_boundaries DefaultFileMetaData (smallest f) (largest f)) 0 rest with
  | None => None
  | Some (inl (msg, e)) => Some (Msg msg e)
  | Some (inr (e, f', path_id, rest)) =>
      Some (Go (push_new_file e level (set_fd f' (NewFileDescriptor (GetNumber (fd f)) path_id (file_size (fd f))
        (smallest_seqno (fd f)) (largest_seqno (fd f))))) rest)
  end.
Proof.
  intros Hl Hf [Hk1 Hk2]. unfold DecodeNewFile4From, enc_file_head, with_level. rewrite <- !app_assoc, GetLevel_Put by done.
  unfold with_read. rewrite GetVarint64_Put by apply GetNumber_range, Hf. rewrite GetVarint64_Put by apply Hf.
  rewrite !GetInternalKey_Put by (split; [done|apply Hf]). rewrite !GetVarint64_Put by apply Hf. done.
Qed.

(** The custom fields of a file as a later version writes them: those of this
    version in their order, and among them others. *)
Record later_customs (min_log : option Z) (f : FileMetaData) (cs : list (Z * bytes)) : Prop := {
  lc_wf : Forall custom_wf cs;
  lc_skip : Forall (λ c, known_custom c = false → must_know (fst c) = false) cs;
  lc_known : List.filter known_custom cs = customs min_log f
}.
Lemma customs_known min_log f : List.filter known_custom (customs min_log f) = customs min_log f.
Proof.
  unfold customs. rewrite !List.filter_app.
  repeat match goal with |- context [if ?c then _ else _] => destruct c end; destruct min_log; reflexivity.
Qed.
Lemma customs_later min_log f : file_ok f → later_customs min_log f (customs min_log f).
Proof.
  intros Hf. split; [by apply customs_wf| |apply customs_known]. apply Forall_forall. intros c Hc.
  rewrite <- (customs_known min_log f) in Hc. apply list_elem_of_In, List.filter_In in Hc as [_ Hc]. congruence.
Qed.

Lemma DecodeNewFile4_enc e min_log level f cs rest : level_ok level → file_ok f → keys_valid f → (∀ n, min_log = Some n → is_u 64 n) →
  later_customs min_log f cs →
  DecodeNewFile4From e (enc_file level f cs ++ rest) =
  Some (Go (push_new_file (set_min_log (raise_level e level) min_log) level f) rest).
Proof.
  intros Hl Hf Hk Hm [Hw Hs Hc]. unfold enc_file. rewrite <- !app_assoc, DecodeNewFile4_head by done.
  pose proof (enc_customs_length cs). rewrite custom_fields_enc by (done || (rewrite length_app; lia)).
  rewrite apply_customs_known, Hc, apply_customs_file by done.
  do 2 f_equal. unfold set_fd at 1. cbn [fd smallest largest]. rewrite NewFileDescriptor_parts by apply Hf. by destruct f.
Qed.

(** ** Fields *)

Inductive EditField :=
  | FDbId (s : bytes) | FComparator (s : bytes) | FLogNumber (n : Z) | FPrevLogNumber (n : Z) | FNextFile (n : Z)
  | FMaxColumnFamily (n : Z) | FMinLogNumber (n : Z) | FLastSequence (n : Z)
  | FCursor (level : Z) (key : bytes) | FDeletedFile (level number : Z)
  | FNewFile (min_log : option Z) (level : Z) (f : FileMetaData)
  | FBlobAddition (a : BlobFileAddition) | FBlobGarbage (g : BlobFileGarbage)
  | FWalAddition (wal : WalAddition) | FWalDeletion (n : Z)
  | FColumnFamily (n : Z) | FColumnFamilyAdd (name : bytes) | FColumnFamilyDrop | FAtomicGroup (n : Z) | FTsLow (s : bytes)
  (* as a later version may write them *)
  | FUnknown (tag : Z) (payload : bytes)
  | FLaterFile (min_log : option Z) (level : Z) (f : FileMetaData) (cs : list (Z * bytes))
  | FLaterBlobAddition (a : BlobFileAddition) (cs : list (Z * bytes)) | FLaterBlobGarbage (g : BlobFileGarbage) (cs : list (Z * bytes)).

Definition field_tag (x : EditField) : Z :=
  match x with
  | FDbId _ => Tag.kDbId | FComparator _ => Tag.kComparator | FLogNumber _ => Tag.kLogNumber
  | FPrevLogNumber _ => Tag.kPrevLogNumber | FNextFile _ => Tag.kNextFileNumber | FMaxColumnFamily _ => Tag.kMaxColumnFamily
  | FMinLogNumber _ => Tag.kMinLogNumberToKeep | FLastSequence _ => Tag.kLastSequence | FCursor _ _ => Tag.kCompactCursor
  | FDeletedFile _ _ => Tag.kDeletedFile | FNewFile _ _ _ => Tag.kNewFile4 | FBlobAddition _ => Tag.kBlobFileAddition
  | FBlobGarbage _ => Tag.kBlobFileGarbage | FWalAddition _ => Tag.kWalAddition2 | FWalDeletion _ => Tag.kWalDeletion2
  | FColumnFamily _ => Tag.kColumnFamily | FColumnFamilyAdd _ => Tag.kColumnFamilyAdd | FColumnFamilyDrop => Tag.kColumnFamilyDrop
  | FAtomicGroup _ => Tag.kInAtomicGroup | FTsLow _ => Tag.kFullHistoryTsLow | FUnknown tag _ => tag
  | FLaterFile _ _ _ _ => Tag.kNewFile4 | FLaterBlobAddition _ _ => Tag.kBlobFileAddition | FLaterBlobGarbage _ _ => Tag.kBlobFileGarbage
  end.
(** Blob files without the end of their custom fields, and with custom fields. *)
Definition enc_blob_addition (a : BlobFileAddition) : bytes :=
  EncodeVarint64 (blob_file_number_ a) ++ EncodeVarint64 (total_blob_count_ a) ++ EncodeVarint64 (total_blob_bytes_ a) ++
  sized (checksum_method_ a) ++ sized (checksum_value_ a).
Definition enc_blob_garbage (g : BlobFileGarbage) : bytes :=
  EncodeVarint64 (garbage_file_number_ g) ++ EncodeVarint64 (garbage_blob_count_ g) ++ EncodeVarint64 (garbage_blob_bytes_ g).
Definition enc_body (x : EditField) : bytes :=
  match x with
  | FDbId s | FComparator s | FColumnFamilyAdd s | FTsLow s | FUnknown _ s => sized s
  | FLogNumber n | FPrevLogNumber n | FNextFile n | FMinLogNumber n | FLastSequence n => EncodeVarint64 n
  | FMaxColumnFamily n | FColumnFamily n | FAtomicGroup n => EncodeVarint32 n
  | FCursor level key => EncodeVarint32 level ++ sized key
  | FDeletedFile level number => EncodeVarint32 level ++ EncodeVarint64 number
  | FNewFile min_log level f => enc_new_file min_log level f
  | FBlobAddition a => BlobFileAddition_EncodeTo [] a
  | FBlobGarbage g => BlobFileGarbage_EncodeTo [] g
  | FWalAddition wal => sized (WalAddition_EncodeTo [] wal)
  | FWalDeletion n => sized (WalDeletion_EncodeTo [] n)
  | FColumnFamilyDrop => []
  | FLaterFile min_log level f cs => enc_file level f cs
  | FLaterBlobAddition a cs => enc_blob_addition a ++ enc_customs cs ++ EncodeVarint32 kEndMarker
  | FLaterBlobGarbage g cs => enc_blob_garbage g ++ enc_customs cs ++ EncodeVarint32 kEndMarker
  end.
Definition enc_field (x : EditField) : bytes := EncodeVarint32 (field_tag x) ++ enc_body x.
Definition enc_fields (xs : list EditField) : bytes := concat (map enc_field xs).

Definition apply_field (e : VersionEdit) (x : EditField) : VersionEdit :=
  match x with
  | FDbId s => SetDBId e s
  | FComparator s => SetComparatorName e s
  | FLogNumber n => SetLogNumber e n
  | FPrevLogNumber n => SetPrevLogNumber e n
  | FNextFile n => SetNextFile e n
  | FMaxColumnFamily n => SetMaxColumnFamily e n
  | FMinLogNumber n => SetMinLogNumberToKeep e n
  | FLastSequence n => SetLastSequence e n
  | FCursor level key => AddCompactCursor (raise_level e level) level key
  | FDeletedFile level number => DeleteFile (raise_level e level) level number
  | FNewFile min_log level f | FLaterFile min_log level f _ => push_new_file (set_min_log (raise_level e level) min_log) level f
  | FBlobAddition a | FLaterBlobAddition a _ => AddBlobFile e a
  | FBlobGarbage g | FLaterBlobGarbage g _ => AddBlobFileGarbage e g
  | FWalAddition wal => AddWalAddition e wal
  | FWalDeletion n => SetWalDeletion e n
  | FColumnFamily n => SetColumnFamily e n
  | FColumnFamilyAdd name => AddColumnFamily e name
  | FColumnFamilyDrop => DropColumnFamily e
  | FAtomicGroup n => MarkAtomicGroup e n
  | FTsLow s => SetFullHistoryTsLow e s
  | FUnknown _ _ => e
  end.

(** The tags that the [switch] has a case for. *)
Definition known_tags : list Z :=
  [Tag.kComparator; Tag.kLogNumber; Tag.kNextFileNumber; Tag.kLastSequence; Tag.kCompactCursor; Tag.kDeletedFile; Tag.kNewFile;
   Tag.kPrevLogNumber; Tag.kMinLogNumberToKeep; Tag.kNewFile2; Tag.kNewFile3; Tag.kNewFile4; Tag.kColumnFamily; Tag.kColumnFamilyAdd;
   Tag.kColumnFamilyDrop; Tag.kMaxColumnFamily; Tag.kInAtomicGroup; Tag.kBlobFileAddition; Tag.kBlobFileGarbage; Tag.kDbId;
   Tag.kBlobFileAddition_DEPRECATED; Tag.kBlobFileGarbage_DEPRECATED; Tag.kWalAddition; Tag.kWalDeletion; Tag.kFullHistoryTsLow;
   Tag.kWalAddition2; Tag.kWalDeletion2].
Definition unknown_tag (tag : Z) : Prop := is_u 32 tag ∧ tag ∉ known_tags.
(** A tag that this version does not know and may skip. *)
Definition ignorable (tag : Z) : Prop := unknown_tag tag ∧ Z.land tag Tag.kTagSafeIgnoreMask ≠ 0.
(** A custom field of a blob file that may be skipped. *)
Definition blob_custom_ok (c : Z * bytes) : Prop :=
  is_u 32 (fst c) ∧ fst c ≠ kEndMarker ∧ Z.land (fst c) kForwardIncompatibleMask = 0 ∧ short (snd c).
Definition blob_addition_ok (a : BlobFileAddition) : Prop :=
  is_u 64 (blob_file_number_ a) ∧ is_u 64 (total_blob_count_ a) ∧ is_u 64 (total_blob_bytes_ a) ∧
  short (checksum_method_ a) ∧ short (checksum_value_ a).
Definition blob_garbage_ok (g : BlobFileGarbage) : Prop :=
  is_u 64 (garbage_file_number_ g) ∧ is_u 64 (garbage_blob_count_ g) ∧ is_u 64 (garbage_blob_bytes_ g).
Definition field_ok (x : EditField) : Prop :=
  match x with
  | FDbId s | FComparator s | FColumnFamilyAdd s => short s
  | FTsLow s => s ≠ [] ∧ short s
  | FUnknown tag s => ignorable tag ∧ short s
  | FLogNumber n | FPrevLogNumber n | FNextFile n | FMinLogNumber n | FLastSequence n | FWalDeletion n => is_u 64 n
  | FMaxColumnFamily n | FColumnFamily n | FAtomicGroup n => is_u 32 n
  | FCursor level key => level_ok level ∧ key_ok key
  | FDeletedFile level number => level_ok level ∧ is_u 64 number
  | FNewFile min_log level f => level_ok level ∧ file_ok f ∧ keys_valid f ∧ (∀ n, min_log = Some n → is_u 64 n)
  | FBlobAddition a => blob_addition_ok a
  | FBlobGarbage g => blob_garbage_ok g
  | FWalAddition wal => wal_ok wal
  | FColumnFamilyDrop => True
  | FLaterFile min_log level f cs =>
      level_ok level ∧ file_ok f ∧ keys_valid f ∧ (∀ n, min_log = Some n → is_u 64 n) ∧ later_customs min_log f cs
  | FLaterBlobAddition a cs => blob_addition_ok a ∧ Forall blob_custom_ok cs
  | FLaterBlobGarbage g cs => blob_garbage_ok g ∧ Forall blob_custom_ok cs
  end.

Lemma BlobFileAddition_enc dst a : BlobFileAddition_EncodeTo dst a = dst ++ BlobFileAddition_EncodeTo [] a.
Proof. unfold BlobFileAddition_EncodeTo, PutVarint64, PutVarint32. rewrite !PutSlice_sized, <- !app_assoc. done. Qed.
Lemma BlobFileGarbage_enc dst g : BlobFileGarbage_EncodeTo dst g = dst ++ BlobFileGarbage_EncodeTo [] g.
Proof. unfold BlobFileGarbage_EncodeTo, PutVarint64, PutVarint32. rewrite <- !app_assoc. done. Qed.

(** The custom fields of a blob file are skipped up to what follows them. *)
Lemma skip_custom_fields_prefix class_name cs : Forall blob_custom_ok cs → ∀ fuel rest,
  skip_custom_fields class_name (length cs + fuel) (enc_customs cs ++ rest) = skip_custom_fields class_name fuel rest.
Proof.
  induction 1 as [|[tag x] cs (H1 & H2 & H3 & H4) Hcs IH]; intros fuel rest; [done|]. cbn [length Nat.add skip_custom_fields].
  unfold enc_customs. cbn [map concat fst snd] in *. rewrite <- !app_assoc, GetVarint32_Put by done.
  rewrite (proj2 (Z.eqb_neq _ _) H2), H3, GetSlice_Put by done. apply IH.
Qed.
Lemma with_custom_fields_prefix {A} class_name (x : A) cs tail : Forall blob_custom_ok cs → ∃ fuel,
  with_custom_fields class_name x (enc_customs cs ++ tail) =
  match skip_custom_fields class_name (S fuel) tail with
  | None => None
  | Some (inl s) => Some (inl s)
  | Some (inr input) => Some (inr (x, input))
  end.
Proof.
  intros Hcs. unfold with_custom_fields. pose proof (enc_customs_length cs). exists (length (enc_customs cs) - length cs + length tail)%nat.
  rewrite length_app. replace (S (length (enc_customs cs) + length tail)) with
    (length cs + S (length (enc_customs cs) - length cs + length tail))%nat by lia.
  by rewrite skip_custom_fields_prefix.
Qed.
Lemma with_custom_fields_end {A} class_name (x : A) cs rest : Forall blob_custom_ok cs →
  with_custom_fields class_name x (enc_customs cs ++ EncodeVarint32 kEndMarker ++ rest) = Some (inr (x, rest)).
Proof.
  intros Hcs. destruct (with_custom_fields_prefix class_name x cs (EncodeVarint32 kEndMarker ++ rest) Hcs) as [fuel ->].
  cbn [skip_custom_fields]. by rewrite GetVarint32_Put.
Qed.

Lemma BlobFileAddition_head a rest : blob_addition_ok a →
  BlobFileAddition_DecodeFrom (enc_blob_addition a ++ rest) = with_custom_fields "BlobFileAddition" a rest.
Proof.
  intros (H1 & H2 & H3 & H4 & H5). unfold enc_blob_addition, BlobFileAddition_DecodeFrom, field.
  rewrite <- !app_assoc. rewrite !GetVarint64_Put by done. rewrite !GetSlice_Put by done. by destruct a.
Qed.
Lemma BlobFileGarbage_head g rest : blob_garbage_ok g →
  BlobFileGarbage_DecodeFrom (enc_blob_garbage g ++ rest) = with_custom_fields "BlobFileGarbage" g rest.
Proof.
  intros (H1 & H2 & H3). unfold enc_blob_garbage, BlobFileGarbage_DecodeFrom, field.
  rewrite <- !app_assoc. rewrite !GetVarint64_Put by done. by destruct g.
Qed.
(** Encoding writes no custom fields. *)
Lemma BlobFileAddition_parts a : BlobFileAddition_EncodeTo [] a = enc_blob_addition a ++ enc_customs [] ++ EncodeVarint32 kEndMarker.
Proof.
  unfold BlobFileAddition_EncodeTo, enc_blob_addition, PutVarint64, PutVarint32. rewrite !PutSlice_sized, <- !app_assoc. done.
Qed.
Lemma BlobFileGarbage_parts g : BlobFileGarbage_EncodeTo [] g = enc_blob_garbage g ++ enc_customs [] ++ EncodeVarint32 kEndMarker.
Proof. unfold BlobFileGarbage_EncodeTo, enc_blob_garbage, PutVarint64, PutVarint32. rewrite <- !app_assoc. done. Qed.
Lemma BlobFileAddition_round_trip a cs rest : blob_addition_ok a → Forall blob_custom_ok cs →
  BlobFileAddition_DecodeFrom ((enc_blob_addition a ++ enc_customs cs ++ EncodeVarint32 kEndMarker) ++ rest) = Some (inr (a, rest)).
Proof. intros Ha Hcs. rewrite <- !app_assoc, BlobFileAddition_head by done. by apply with_custom_fields_end. Qed.
Lemma BlobFileGarbage_round_trip g cs rest : blob_garbage_ok g → Forall blob_custom_ok cs →
  BlobFileGarbage_DecodeFrom ((enc_blob_garbage g ++ enc_customs cs ++ EncodeVarint32 kEndMarker) ++ rest) = Some (inr (g, rest)).
Proof. intros Hg Hcs. rewrite <- !app_assoc, BlobFileGarbage_head by done. by apply with_custom_fields_end. Qed.

(** The default of the [switch] *)
Lemma unknown_tag_field tag e input : unknown_tag tag →
  decode_field tag e input =
  if negb (Z.land tag Tag.kTagSafeIgnoreMask =? 0) then
    let fail := Some (Msg "safely ignoreable tag length error" e) in
    with_read (GetVarint32 input) fail (λ field_len input,
    if Zlen input <? field_len then fail else Some (Go e (zdrop field_len input)))
  else Some (Msg "unknown tag" e).
Proof.
  intros [_ H]. unfold known_tags in H. repeat (apply not_elem_of_cons in H as [? H]). unfold decode_field.
  repeat match goal with |- context [tag =? ?t] => rewrite (proj2 (Z.eqb_neq tag t)) by done end. done.
Qed.
Lemma unknown_tag_skipped tag e s rest : ignorable tag → short s → decode_field tag e (sized s ++ rest) = Some (Go e rest).
Proof.
  intros [Ht Hm] Hs. rewrite unknown_tag_field by done.
  rewrite (proj2 (Z.eqb_neq _ 0) Hm). cbn [negb]. unfold with_read, sized, PutLengthPrefixedSlice, PutVarint32. rewrite <- !app_assoc. cbn [app].
  pose proof (Zlen_nonneg s). pose proof (Zlen_nonneg rest). unfold short in Hs. rewrite wrap_small by (unfold is_u; lia).
  rewrite GetVarint32_Put by (unfold is_u; lia). rewrite Zlen_app, (proj2 (Z.ltb_ge _ _)) by lia. by rewrite zdrop_app.
Qed.

Lemma field_tag_range x : field_ok x → is_u 32 (field_tag x).
Proof. destruct x; intros Hx; try (clear Hx; unfold is_u; cbn [field_tag]; lia). apply Hx. Qed.

Lemma short_WalAddition wal : short (WalAddition_EncodeTo [] wal).
Proof.
  unfold short, WalAddition_EncodeTo, PutVarint64, PutVarint32. pose proof (Zlen_EncodeVarint64 (number_ wal)).
  pose proof (Zlen_EncodeVarint64 (metadata_ wal)). pose proof (Zlen_EncodeVarint32 WalAdditionTag.kSyncedSize).
  pose proof (Zlen_EncodeVarint32 WalAdditionTag.kTerminate). destruct (HasSyncedSize _); rewrite !Zlen_app, Zlen_nil; lia.
Qed.

(** A field is read back, whatever follows it. *)
Lemma decode_field_enc e x rest : field_ok x → decode_field (field_tag x) e (enc_body x ++ rest) = Some (Go (apply_field e x) rest).
Proof.
  intros Hx. destruct x as [s|s|n|n|n|n|n|n|level key|level number|min_log level f|a|g|wal|n|n|name| |n|s|tag s|min_log level f cs|a cs|g cs];
    cbn [field_tag enc_body apply_field field_ok] in *; try (by apply unknown_tag_skipped; apply Hx);
    unfold decode_field; cbn [Z.eqb Pos.eqb orb];
    unfold slice_field, varint64_field, varint32_field, with_sized_decoder, with_level, with_decoder, with_read; rewrite <- ?app_assoc.
  all: try (rewrite GetVarint64_Put by done; done). all: try (rewrite GetVarint32_Put by done; done).
  all: try (rewrite GetSlice_Put by done; done).
  - destruct Hx. by rewrite GetLevel_Put, GetInternalKey_Put.
  - destruct Hx. by rewrite GetLevel_Put, GetVarint64_Put.
  - destruct Hx as (? & ? & ? & ?). apply DecodeNewFile4_enc; [done..|by apply customs_later].
  - by rewrite BlobFileAddition_parts, BlobFileAddition_round_trip by (done || apply Forall_nil).
  - by rewrite BlobFileGarbage_parts, BlobFileGarbage_round_trip by (done || apply Forall_nil).
  - rewrite GetSlice_Put by apply short_WalAddition. pose proof (WalAddition_round_trip wal [] Hx) as E. rewrite app_nil_r in E. by rewrite E.
  - rewrite GetSlice_Put by apply short_varint64. pose proof (WalDeletion_round_trip n [] Hx) as E. rewrite app_nil_r in E. by rewrite E.
  - done.
  - destruct Hx. rewrite GetSlice_Put by done. by destruct s.
  - destruct Hx as (? & ? & ? & ? & ?). by apply DecodeNewFile4_enc.
  - destruct Hx. rewrite !app_assoc, <- (app_assoc (enc_blob_addition a)). by rewrite BlobFileAddition_round_trip.
  - destruct Hx. rewrite !app_assoc, <- (app_assoc (enc_blob_garbage g)). by rewrite BlobFileGarbage_round_trip.
Qed.

Lemma enc_fields_app xs ys : enc_fields (xs ++ ys) = enc_fields xs ++ enc_fields ys.
Proof. unfold enc_fields. by rewrite map_app, concat_app. Qed.
Lemma enc_fields_length xs : (length xs <= length (enc_fields xs))%nat.
Proof.
  induction xs as [|x xs IH]; [done|]. unfold enc_fields, enc_field in *. cbn [map concat length]. rewrite !length_app.
  pose proof (Zlen_EncodeVarint32 (field_tag x)) as Hz. rewrite Zlen_length in Hz. lia.
Qed.

Lemma DecodeFrom_loop_fields xs : Forall field_ok xs → ∀ fuel e rest, 
  DecodeFrom_loop (length xs + fuel) e (enc_fields xs ++ rest) = DecodeFrom_loop fuel (fold_left apply_field xs e) rest.
Proof.
  induction 1 as [|x xs Hx Hxs IH]; intros fuel e rest; [done|]. cbn [length Nat.add DecodeFrom_loop fold_left].
  unfold enc_fields, enc_field. cbn [map concat]. rewrite <- !app_assoc, GetVarint32_Put by by apply field_tag_range.
  rewrite decode_field_enc by done. apply IH.
Qed.

(** Decoding applies the fields. *)
Lemma DecodeFrom_fields e xs : Forall field_ok xs → DecodeFrom e (enc_fields xs) = Some (Status_OK, fold_left apply_field xs Clear).
Proof.
  intros Hxs. unfold DecodeFrom. pose proof (enc_fields_length xs).
  replace (S (length (enc_fields xs))) with (length xs + S (length (enc_fields xs) - length xs))%nat by lia.
  rewrite <- (app_nil_r (enc_fields xs)) at 2. by rewrite DecodeFrom_loop_fields.
Qed.

(** ** The fields of an edit *)

Definition opt_field {A} (f : A → EditField) (x : option A) : list EditField := match x with Some x => [f x] | None => [] end.

Fixpoint new_file_fields (ts_sz : Z) (min_log : option Z) (fs : list (Z * FileMetaData)) : list EditField :=
  match fs with
  | [] => []
  | (level, f) :: fs => FNewFile min_log level (persisted_file ts_sz f) :: new_file_fields ts_sz None fs
  end.
Definition opt_fields (e : VersionEdit) : list EditField :=
  opt_field FDbId (db_id_ e) ++ opt_field FComparator (comparator_ e) ++ opt_field FLogNumber (log_number_ e) ++
  opt_field FPrevLogNumber (prev_log_number_ e) ++ opt_field FNextFile (next_file_number_ e) ++
  opt_field FMaxColumnFamily (max_column_family_ e) ++ opt_field FMinLogNumber (min_log_number_to_keep_ e) ++
  opt_field FLastSequence (last_sequence_ e).
Definition head_fields (e : VersionEdit) : list EditField :=
  opt_fields e ++
  map (λ c, FCursor (fst c) (snd c)) (List.filter (λ c, InternalKey.Valid (snd c)) (compact_cursors_ e)) ++
  map (λ d, FDeletedFile (fst d) (snd d)) (deleted_files_ e).
Definition list_fields (e : VersionEdit) : list EditField :=
  map FBlobAddition (blob_file_additions_ e) ++ map FBlobGarbage (blob_file_garbages_ e) ++ map FWalAddition (wal_additions_ e).
Definition last_fields (e : VersionEdit) : list EditField :=
  (if WalDeletion_IsEmpty (wal_deletion_ e) then [] else [FWalDeletion (wal_deletion_ e)]) ++
  (if column_family_ e =? 0 then [] else [FColumnFamily (column_family_ e)]) ++
  opt_field FColumnFamilyAdd (column_family_name_ e) ++ (if is_column_family_drop_ e then [FColumnFamilyDrop] else []) ++
  opt_field FAtomicGroup (remaining_entries_ e) ++
  (match full_history_ts_low_ e with [] => [] | s => [FTsLow s] end).
Definition tail_fields (e : VersionEdit) : list EditField := list_fields e ++ last_fields e.
Definition fields_of (ts_sz : Z) (e : VersionEdit) : list EditField :=
  head_fields e ++ new_file_fields ts_sz (min_log_number_to_keep_ e) (new_files_ e) ++ tail_fields e.

(** The condition under which [EncodeTo] returns true. *)
Definition encodable (f : FileMetaData) : bool :=
  InternalKey.Valid (smallest f) && InternalKey.Valid (largest f) && negb (epoch_number f =? kUnknownEpochNumber).

(** What the types and the assertion of [StripTimestampFromInternalKey] require. *)
Record edit_ok (ts_sz : Z) (e : VersionEdit) : Prop := {
  eo_head : Forall field_ok (head_fields e);
  eo_files : Forall (λ lf, level_ok (fst lf) ∧ file_ok (persisted_file ts_sz (snd lf)) ∧ boundaries_ok ts_sz (snd lf)) (new_files_ e);
  eo_tail : Forall field_ok (tail_fields e)
}.

Lemma encodable_valid f : encodable f = true → keys_valid f.
Proof. unfold encodable, keys_valid. rewrite !andb_true_iff. tauto. Qed.

Lemma edit_ok_fields ts_sz e : edit_ok ts_sz e → forallb (λ lf, encodable (snd lf)) (new_files_ e) = true →
  Forall field_ok (fields_of ts_sz e).
Proof.
  intros [Hh Hf Ht] He. unfold fields_of. apply Forall_app. split; [done|]. apply Forall_app. split; [|done].
  assert (∀ n, min_log_number_to_keep_ e = Some n → is_u 64 n) as Hm.
  { intros n Hn. rewrite Forall_forall in Hh. apply (Hh (FMinLogNumber n)). unfold head_fields, opt_fields. rewrite Hn.
    rewrite !elem_of_app. left. do 6 right. left. by apply list_elem_of_singleton. }
  revert Hm He. generalize (min_log_number_to_keep_ e). induction Hf as [|[level f] fs (Hl & Hf & Hb) Hfs IH]; intros m Hm He; [constructor|].
  cbn in He. apply andb_true_iff in He as [He Hes]. constructor; [|by apply IH].
  split_and!; [done..| |done]. by apply keys_valid_persisted, encodable_valid.
Qed.

(** ** Encoding writes the fields *)

Lemma put_opt_enc {A} (put : bytes → A → bytes) (f : A → EditField) dst x :
  (∀ dst x, put dst x = dst ++ enc_field (f x)) → put_opt put dst x = dst ++ enc_fields (opt_field f x).
Proof. intros H. destruct x as [x|]; cbn; [rewrite H|]; unfold enc_fields; cbn; by rewrite !app_nil_r. Qed.

Lemma fold_put_enc {A} (put : bytes → A → bytes) (f : A → EditField) l dst :
  (∀ dst x, x ∈ l → put dst x = dst ++ enc_field (f x)) → fold_left put l dst = dst ++ enc_fields (map f l).
Proof.
  revert dst. induction l as [|x l IH]; intros dst H; cbn [fold_left map]; [by rewrite app_nil_r|].
  rewrite IH by (intros ? y Hy; apply H; by right). rewrite H by left. unfold enc_fields. cbn [map concat]. by rewrite app_assoc.
Qed.

Lemma put_if_enc (c : bool) dst dst' x : dst' = dst ++ enc_field x → (if c then dst' else dst) = dst ++ enc_fields (if c then [x] else []).
Proof. intros ->. destruct c; unfold enc_fields; cbn; by rewrite app_nil_r. Qed.

Ltac enc_one := intros; unfold enc_field, PutVarint32Varint32Varint64, PutVarint32Varint64, PutVarint32Varint32, PutVarint32;
  cbn [field_tag enc_body]; rewrite ?PutSlice_sized, <- ?app_assoc; try done.

Lemma fold_filter_enc {A} (p : A → bool) (put : bytes → A → bytes) l dst :
  fold_left (λ dst x, if p x then put dst x else dst) l dst = fold_left put (List.filter p l) dst.
Proof. revert dst. induction l as [|x l IH]; intros dst; [done|]. cbn. destruct (p x); apply IH. Qed.

Lemma head_enc e dst : Forall field_ok (head_fields e) → EncodeTo_head e dst = dst ++ enc_fields (head_fields e).
Proof.
  intros Hok. unfold EncodeTo_head, head_fields in *. apply Forall_app in Hok as [_ [Hc Hd]%Forall_app]. unfold opt_fields. rewrite !enc_fields_app.
  rewrite Forall_map in Hc, Hd.
  rewrite fold_filter_enc, (fold_put_enc _ (λ d : Z * Z, FDeletedFile (fst d) (snd d))).
  2: { intros dst' d Hin. rewrite Forall_forall in Hd. destruct (Hd d Hin) as [Hl _]. rewrite u32_level by done. enc_one. }
  rewrite (fold_put_enc _ (λ c : Z * bytes, FCursor (fst c) (snd c))).
  2: { intros dst' c Hin. rewrite Forall_forall in Hc. destruct (Hc c Hin) as [Hl _]. rewrite u32_level by done. enc_one. }
  rewrite (put_opt_enc _ FLastSequence), (put_opt_enc _ FMinLogNumber), (put_opt_enc _ FMaxColumnFamily), (put_opt_enc _ FNextFile),
    (put_opt_enc _ FPrevLogNumber), (put_opt_enc _ FLogNumber), (put_opt_enc _ FComparator), (put_opt_enc _ FDbId) by enc_one.
  by rewrite <- !app_assoc.
Qed.

Lemma tail_enc e dst : EncodeTo_tail e dst = dst ++ enc_fields (tail_fields e).
Proof.
  unfold EncodeTo_tail, tail_fields, list_fields, last_fields. rewrite !enc_fields_app.
  rewrite (fold_put_enc _ FBlobAddition) by (intros; rewrite BlobFileAddition_enc; enc_one).
  rewrite (fold_put_enc _ FBlobGarbage) by (intros; rewrite BlobFileGarbage_enc; enc_one).
  rewrite (fold_put_enc _ FWalAddition) by enc_one.
  assert (∀ (c : bool) dst x, (if c then dst else dst ++ enc_field x) = dst ++ enc_fields (if c then [] else [x])) as Hneg
    by (intros [] dst' x; unfold enc_fields; cbn; by rewrite ?app_nil_r).
  rewrite (put_opt_enc _ FColumnFamilyAdd), (put_opt_enc _ FAtomicGroup) by enc_one.
  assert (∀ dst, PutLengthPrefixedSlice (PutVarint32 dst Tag.kWalDeletion2) (WalDeletion_EncodeTo [] (wal_deletion_ e)) =
    dst ++ enc_field (FWalDeletion (wal_deletion_ e))) as -> by enc_one.
  assert (∀ dst, PutVarint32Varint32 dst Tag.kColumnFamily (column_family_ e) = dst ++ enc_field (FColumnFamily (column_family_ e))) as -> by enc_one.
  rewrite !Hneg. rewrite (put_if_enc _ _ _ FColumnFamilyDrop) by (unfold enc_field; cbn [field_tag enc_body]; by rewrite app_nil_r).
  destruct (full_history_ts_low_ e) as [|b s] eqn:E; [rewrite <- !app_assoc; unfold enc_fields at 9; cbn; by rewrite app_nil_r|].
  assert (∀ dst, PutLengthPrefixedSlice (PutVarint32 dst Tag.kFullHistoryTsLow) (b :: s) = dst ++ enc_fields [FTsLow (b :: s)]) as ->
    by (intros; unfold enc_fields; cbn [map concat]; rewrite app_nil_r; enc_one).
  by rewrite <- !app_assoc.
Qed.

Lemma new_files_enc ts_sz fs : Forall (λ lf, level_ok (fst lf)) fs → forallb (λ lf, encodable (snd lf)) fs = true → ∀ m dst,
  EncodeNewFiles dst ts_sz m fs = (true, dst ++ enc_fields (new_file_fields ts_sz m fs)).
Proof.
  induction 1 as [|[level f] fs Hl Hfs IH]; intros He m dst; cbn [EncodeNewFiles new_file_fields]; [by rewrite app_nil_r|].
  cbn in He. apply andb_true_iff in He as [He Hes]. unfold encodable in He. rewrite !andb_true_iff, negb_true_iff in He.
  destruct He as ((-> & ->) & ->). cbn [negb orb]. rewrite IH by done. rewrite EncodeNewFile4_enc by done.
  unfold enc_fields, enc_field. cbn [map concat field_tag enc_body]. by rewrite <- !app_assoc.
Qed.

Lemma EncodeTo_fields ts_sz e dst : edit_ok ts_sz e → forallb (λ lf, encodable (snd lf)) (new_files_ e) = true →
  EncodeTo e dst ts_sz = (true, dst ++ enc_fields (fields_of ts_sz e)).
Proof.
  intros [Hh Hf Ht] He. unfold EncodeTo, fields_of. rewrite head_enc by done.
  rewrite new_files_enc by (done || (apply (Forall_impl _ _ _ Hf); by intros lf [? _])). rewrite tail_enc, !enc_fields_app. by rewrite <- !app_assoc.
Qed.

(** A file that cannot be encoded makes the whole edit fail. *)
Lemma EncodeNewFiles_false ts_sz fs : forallb (λ lf, encodable (snd lf)) fs = false → ∀ m dst, fst (EncodeNewFiles dst ts_sz m fs) = false.
Proof.
  induction fs as [|[level f] fs IH]; intros He m dst; [done|]. cbn [EncodeNewFiles]. cbn in He. unfold encodable in He.
  destruct (InternalKey.Valid (smallest f)), (InternalKey.Valid (largest f)), (epoch_number f =? kUnknownEpochNumber); try done.
  cbn [negb orb]. by apply IH.
Qed.

(** ** What is read back *)

Lemma raise_level_max e level : raise_level e level = set_max_level e (Z.max (max_level_ e) level).
Proof.
  unfold raise_level. destruct (Z.ltb_spec (max_level_ e) level); [by rewrite Z.max_r by lia|]. rewrite Z.max_l by lia. by destruct e.
Qed.

Definition set_deleted_files (e : VersionEdit) (ds : list (Z * Z)) : VersionEdit :=
  mkEdit (max_level_ e) (db_id_ e) (comparator_ e) (log_number_ e) (prev_log_number_ e) (next_file_number_ e) (max_column_family_ e)
    (min_log_number_to_keep_ e) (last_sequence_ e) (compact_cursors_ e) ds (new_files_ e) (blob_file_additions_ e)
    (blob_file_garbages_ e) (wal_additions_ e) (wal_deletion_ e) (column_family_ e) (column_family_name_ e)
    (is_column_family_drop_ e) (remaining_entries_ e) (full_history_ts_low_ e).
Definition set_new_files (e : VersionEdit) (fs : list (Z * FileMetaData)) : VersionEdit :=
  mkEdit (max_level_ e) (db_id_ e) (comparator_ e) (log_number_ e) (prev_log_number_ e) (next_file_number_ e) (max_column_family_ e)
    (min_log_number_to_keep_ e) (last_sequence_ e) (compact_cursors_ e) (deleted_files_ e) fs (blob_file_additions_ e)
    (blob_file_garbages_ e) (wal_additions_ e) (wal_deletion_ e) (column_family_ e) (column_family_name_ e)
    (is_column_family_drop_ e) (remaining_entries_ e) (full_history_ts_low_ e).
Definition max_of (levels : list Z) (m : Z) : Z := fold_left Z.max levels m.

Lemma apply_cursors cs : ∀ e, fold_left apply_field (map (λ c, FCursor (fst c) (snd c)) cs) e =
  set_max_level (set_compact_cursors e (compact_cursors_ e ++ cs)) (max_of (map fst cs) (max_level_ e)).
Proof.
  induction cs as [|[level c] cs IH]; intros e; cbn [map fold_left apply_field fst snd]; [rewrite app_nil_r; by destruct e|].
  rewrite IH, raise_level_max. unfold AddCompactCursor. destruct e. cbn. by rewrite <- app_assoc.
Qed.

(** [std::set]: strictly increasing. *)
Definition deleted_lt (a b : Z * Z) : Prop := fst a < fst b ∨ (fst a = fst b ∧ snd a < snd b).
Lemma deleted_insert_last ds d : Forall (λ x, deleted_lt x d) ds → deleted_insert d ds = ds ++ [d].
Proof.
  induction 1 as [|x ds Hx Hds IH]; [done|]. cbn [deleted_insert app]. unfold deleted_lt in Hx.
  destruct (Z.ltb_spec (fst d) (fst x)); [lia|]. cbn [orb]. destruct (Z.eqb_spec (fst d) (fst x)); cbn [andb]; [|by rewrite IH].
  destruct (Z.ltb_spec (snd d) (snd x)); [lia|]. destruct (Z.eqb_spec (snd d) (snd x)); [lia|]. by rewrite IH.
Qed.
(** Deleting a file keeps the set a set. *)
Lemma deleted_insert_sorted d ds : StronglySorted deleted_lt ds → StronglySorted deleted_lt (deleted_insert d ds).
Proof.
  induction 1 as [|x ds Hs IH Hx]; [by repeat constructor|]. cbn [deleted_insert].
  destruct ((fst d <? fst x) || ((fst d =? fst x) && (snd d <? snd x))) eqn:E1.
  { assert (deleted_lt d x) as Hd by (unfold deleted_lt; lia). constructor; [by constructor|]. constructor; [done|].
    apply (Forall_impl _ _ _ Hx). intros y Hy. unfold deleted_lt in *. lia. }
  destruct ((fst d =? fst x) && (snd d =? snd x)) eqn:E2; [by constructor|]. constructor; [done|].
  assert (deleted_lt x d) as Hd by (unfold deleted_lt; lia). clear -Hx Hd. induction Hx as [|y ds Hy Hds IH]; cbn; [by apply Forall_singleton|].
  destruct (_ || _); [by do 2 (constructor; [done|])|]. destruct (_ && _); by constructor.
Qed.

Lemma apply_deleted ds : ∀ e, StronglySorted deleted_lt (deleted_files_ e ++ ds) →
  fold_left apply_field (map (λ d, FDeletedFile (fst d) (snd d)) ds) e =
  set_max_level (set_deleted_files e (deleted_files_ e ++ ds)) (max_of (map fst ds) (max_level_ e)).
Proof.
  induction ds as [|[level n] ds IH]; intros e Hs; cbn [map fold_left apply_field fst snd]; [rewrite app_nil_r; by destruct e|].
  assert (deleted_insert (level, n) (deleted_files_ e) = deleted_files_ e ++ [(level, n)]) as Ei.
  { apply deleted_insert_last, Forall_lookup. intros i x Hx. pose proof (lookup_lt_Some _ _ _ Hx).
    apply (sorted_lookup _ _ Hs i (length (deleted_files_ e))); [by rewrite lookup_app_l|by rewrite lookup_app_r, Nat.sub_diag|done]. }
  rewrite raise_level_max, IH; destruct e; cbn in *; rewrite Ei, <- app_assoc; done.
Qed.

Lemma apply_new_files ts_sz fs : ∀ m e, m = None ∨ m = min_log_number_to_keep_ e →
  fold_left apply_field (new_file_fields ts_sz m fs) e =
  set_max_level (set_new_files e (new_files_ e ++ map (λ lf, (fst lf, persisted_file ts_sz (snd lf))) fs)) (max_of (map fst fs) (max_level_ e)).
Proof.
  induction fs as [|[level f] fs IH]; intros m e Hm; cbn [new_file_fields fold_left apply_field map]; [rewrite app_nil_r; by destruct e|].
  rewrite IH by by left. rewrite raise_level_max. assert (set_min_log (set_max_level e (Z.max (max_level_ e) level)) m =
    set_max_level e (Z.max (max_level_ e) level)) as ->.
  { destruct Hm as [->| ->]; [done|]. destruct e as [? ? ? ? ? ? ? [n|]]; done. }
  destruct e. cbn. by rewrite <- app_assoc.
Qed.

Lemma apply_opts a b c d x y z w : fold_left apply_field (opt_field FDbId a ++ opt_field FComparator b ++ opt_field FLogNumber c ++
    opt_field FPrevLogNumber d ++ opt_field FNextFile x ++ opt_field FMaxColumnFamily y ++ opt_field FMinLogNumber z ++
    opt_field FLastSequence w) Clear =
  mkEdit 0 a b c d x y z w [] [] [] [] [] [] kEmpty 0 None false None [].
Proof. destruct a, b, c, d, x, y, z, w; reflexivity. Qed.

Lemma apply_lists l1 l2 l3 : ∀ e, fold_left apply_field (map FBlobAddition l1 ++ map FBlobGarbage l2 ++ map FWalAddition l3) e =
  mkEdit (max_level_ e) (db_id_ e) (comparator_ e) (log_number_ e) (prev_log_number_ e) (next_file_number_ e) (max_column_family_ e)
    (min_log_number_to_keep_ e) (last_sequence_ e) (compact_cursors_ e) (deleted_files_ e) (new_files_ e) (blob_file_additions_ e ++ l1)
    (blob_file_garbages_ e ++ l2) (wal_additions_ e ++ l3) (wal_deletion_ e) (column_family_ e) (column_family_name_ e)
    (is_column_family_drop_ e) (remaining_entries_ e) (full_history_ts_low_ e).
Proof.
  induction l1 as [|x l1 IH1]; intros e; cbn [map app fold_left]; [|rewrite IH1; cbn; by rewrite <- app_assoc].
  revert e. induction l2 as [|x l2 IH2]; intros e; cbn [map app fold_left]; [|rewrite IH2; cbn; by rewrite <- app_assoc].
  revert e. induction l3 as [|x l3 IH3]; intros e; cbn [map app fold_left]; [rewrite !app_nil_r; by destruct e|].
  rewrite IH3. cbn. by rewrite <- app_assoc.
Qed.

(** The edit as a reader of its encoding sees it. The highest level is that of the
    entries; cursors that are not valid are not written. *)
Definition persisted (ts_sz : Z) (e : VersionEdit) : VersionEdit :=
  let cursors := List.filter (λ c, InternalKey.Valid (snd c)) (compact_cursors_ e) in
  let files := map (λ lf, (fst lf, persisted_file ts_sz (snd lf))) (new_files_ e) in
  mkEdit (max_of (map fst cursors ++ map fst (deleted_files_ e) ++ map fst (new_files_ e)) 0) (db_id_ e) (comparator_ e)
    (log_number_ e) (prev_log_number_ e) (next_file_number_ e) (max_column_family_ e) (min_log_number_to_keep_ e) (last_sequence_ e)
    cursors (deleted_files_ e) files (blob_file_additions_ e) (blob_file_garbages_ e) (wal_additions_ e) (wal_deletion_ e)
    (column_family_ e) (column_family_name_ e) (is_column_family_drop_ e) (remaining_entries_ e) (full_history_ts_low_ e).

Lemma apply_last e0 e : wal_deletion_ e0 = kEmpty → column_family_ e0 = 0 → column_family_name_ e0 = None →
  is_column_family_drop_ e0 = false → remaining_entries_ e0 = None → full_history_ts_low_ e0 = [] →
  fold_left apply_field (last_fields e) e0 =
  mkEdit (max_level_ e0) (db_id_ e0) (comparator_ e0) (log_number_ e0) (prev_log_number_ e0) (next_file_number_ e0)
    (max_column_family_ e0) (min_log_number_to_keep_ e0) (last_sequence_ e0) (compact_cursors_ e0) (deleted_files_ e0)
    (new_files_ e0) (blob_file_additions_ e0) (blob_file_garbages_ e0) (wal_additions_ e0) (wal_deletion_ e) (column_family_ e)
    (column_family_name_ e) (is_column_family_drop_ e) (remaining_entries_ e) (full_history_ts_low_ e).
Proof.
  intros E1 E2 E3 E4 E5 E6. unfold last_fields, WalDeletion_IsEmpty. destruct e0; cbn in *; subst.
  destruct (Z.eqb_spec (wal_deletion_ e) kEmpty) as [->|_], (Z.eqb_spec (column_family_ e) 0) as [->|_],
    (column_family_name_ e), (is_column_family_drop_ e), (remaining_entries_ e), (full_history_ts_low_ e); reflexivity.
Qed.

Lemma apply_fields_of ts_sz e : StronglySorted deleted_lt (deleted_files_ e) →
  fold_left apply_field (fields_of ts_sz e) Clear = persisted ts_sz e.
Proof.
  intros Hs. unfold fields_of, head_fields, tail_fields. rewrite !fold_left_app. unfold opt_fields. rewrite apply_opts.
  rewrite apply_cursors, apply_deleted by done. rewrite apply_new_files by by right. unfold list_fields. rewrite apply_lists.
  rewrite apply_last by done. unfold persisted, max_of. cbn. by rewrite !fold_left_app.
Qed.

(** C17: a version edit is read back from its encoding as it was, whatever the object
    held that reads it: all numbers and names, files with their keys, blob files,
    logs, column families and atomic groups. Only what is not written is missing:
    cursors that are not valid, and the timestamps in the keys of a file whose
    timestamps are not persisted. Encoding succeeds if and only if every new file
    has valid boundary keys and an epoch number; nothing is assumed of the keys but
    that their lengths fit, and the assertion of [StripTimestampFromInternalKey] where
    timestamps are cut off. *)
Theorem version_edit_round_trip ts_sz e e0 : edit_ok ts_sz e → StronglySorted deleted_lt (deleted_files_ e) →
  fst (EncodeTo e [] ts_sz) = forallb (λ lf, encodable (snd lf)) (new_files_ e) ∧
  (fst (EncodeTo e [] ts_sz) = true → DecodeFrom e0 (snd (EncodeTo e [] ts_sz)) = Some (Status_OK, persisted ts_sz e)).
Proof.
  intros Hok Hs. destruct (forallb _ (new_files_ e)) eqn:He.
  - rewrite EncodeTo_fields by done. split; [done|]. intros _. cbn [snd app]. rewrite DecodeFrom_fields by by apply edit_ok_fields.
    by rewrite apply_fields_of.
  - pose proof (EncodeNewFiles_false ts_sz _ He (min_log_number_to_keep_ e) (EncodeTo_head e [])) as E. unfold EncodeTo.
    destruct (EncodeNewFiles _ _ _ _) as [b dst]. cbn in E. subst b. done.
Qed.

(** ** Edits of a later version *)









(** ** Decoding returns *)

Definition shrinks {A} (dec : bytes → option (A * bytes)) : Prop := ∀ p x rest, dec p = Some (x, rest) → (length rest < length p)%nat.
Lemma prefix_reader_shrinks {A} (dec : bytes → option (A * bytes)) `{!PrefixReader dec} : dec [] = None → shrinks dec.
Proof.
  intros E0 p x rest E. destruct (prefix_reader [] p x rest E) as [(? & ? & _)|[_ Hl]]; [congruence|]. rewrite !Zlen_length in Hl. lia.
Qed.
Lemma GetVarint32_shrinks : shrinks GetVarint32.
Proof. by apply prefix_reader_shrinks; [apply _|]. Qed.
Lemma GetVarint64_shrinks : shrinks GetVarint64.
Proof. by apply prefix_reader_shrinks; [apply _|]. Qed.
Lemma GetSlice_shrinks : shrinks GetLengthPrefixedSlice.
Proof. by apply prefix_reader_shrinks; [apply _|]. Qed.
Lemma GetInternalKey_shrinks : shrinks GetInternalKey.
Proof.
  intros p x rest. unfold GetInternalKey. destruct (GetLengthPrefixedSlice p) as [[s r]|] eqn:E; [|done]. cbn.
  destruct (InternalKey.Valid _); [|done]. intros [= _ <-]. by apply GetSlice_shrinks in E.
Qed.

(** A decoder returns, with an error that is a corruption, or with a part of its
    input that is left. *)
Definition part_ok {A} (n : nat) (r : option (Status + A * bytes)) : Prop :=
  match r with
  | Some (inl s) => IsCorruption s = true
  | Some (inr (_, rest)) => (length rest <= n)%nat
  | None => False
  end.
Definition outcome_ok (n : nat) (r : option Outcome) : Prop :=
  match r with
  | Some (Go _ rest) => (length rest <= n)%nat
  | Some (Msg _ _) => True
  | Some (Ret s _) => IsCorruption s = true
  | None => False
  end.

Lemma WalAddition_loop_ok fuel : ∀ number metadata src, (length src < fuel)%nat →
  part_ok (length src) (WalAddition_loop fuel number metadata src).
Proof.
  induction fuel as [|fuel IH]; intros number metadata src Hf; [lia|]. cbn [WalAddition_loop].
  destruct (GetVarint32 src) as [[tag src1]|] eqn:E1; [|done]. apply GetVarint32_shrinks in E1.
  destruct (tag =? WalAdditionTag.kSyncedSize).
  - destruct (GetVarint64 src1) as [[size src2]|] eqn:E2; [|done]. apply GetVarint64_shrinks in E2.
    pose proof (IH number size src2 ltac:(lia)) as H. destruct (WalAddition_loop fuel number size src2) as [[s|[x r]]|]; cbn in *; [done|lia|done].
  - destruct (tag =? WalAdditionTag.kTerminate); [cbn; lia|done].
Qed.
Lemma WalAddition_DecodeFrom_ok src : part_ok (length src) (WalAddition_DecodeFrom src).
Proof.
  unfold WalAddition_DecodeFrom. destruct (GetVarint64 src) as [[n src1]|] eqn:E; [|done]. apply GetVarint64_shrinks in E.
  pose proof (WalAddition_loop_ok (S (length src1)) n kUnknownWalSize src1 ltac:(lia)) as H.
  destruct (WalAddition_loop _ _ _ _) as [[s|[x r]]|]; cbn in *; [done|lia|done].
Qed.
Lemma WalDeletion_DecodeFrom_ok src : part_ok (length src) (Some (WalDeletion_DecodeFrom src)).
Proof.
  unfold WalDeletion_DecodeFrom. destruct (GetVarint64 src) as [[n src1]|] eqn:E; [|done]. apply GetVarint64_shrinks in E. cbn. lia.
Qed.

Lemma skip_custom_fields_ok class_name fuel : ∀ input, (length input < fuel)%nat →
  match skip_custom_fields class_name fuel input with
  | Some (inl s) => IsCorruption s = true
  | Some (inr rest) => (length rest <= length input)%nat
  | None => False
  end.
Proof.
  induction fuel as [|fuel IH]; intros input Hf; [lia|]. cbn [skip_custom_fields].
  destruct (GetVarint32 input) as [[tag i1]|] eqn:E1; [|done]. apply GetVarint32_shrinks in E1.
  destruct (tag =? kEndMarker); [lia|]. destruct (negb _); [done|].
  destruct (GetLengthPrefixedSlice i1) as [[s i2]|] eqn:E2; [|done]. apply GetSlice_shrinks in E2. pose proof (IH i2 ltac:(lia)) as H.
  destruct (skip_custom_fields class_name fuel i2) as [[s'|r]|]; [done|lia|done].
Qed.
Lemma with_custom_fields_ok {A} class_name (x : A) n input : (length input <= n)%nat → part_ok n (with_custom_fields class_name x input).
Proof.
  intros Hn. unfold with_custom_fields. pose proof (skip_custom_fields_ok class_name (S (length input)) input ltac:(lia)) as H.
  destruct (skip_custom_fields _ _ _) as [[s|r]|]; cbn in *; [done|lia|done].
Qed.

Ltac read_step := match goal with
  | |- context [GetVarint64 ?i] => let E := fresh "E" in destruct (GetVarint64 i) as [[? ?]|] eqn:E; [apply GetVarint64_shrinks in E|try done]
  | |- context [GetVarint32 ?i] => let E := fresh "E" in destruct (GetVarint32 i) as [[? ?]|] eqn:E; [apply GetVarint32_shrinks in E|try done]
  | |- context [GetLengthPrefixedSlice ?i] =>
      let E := fresh "E" in destruct (GetLengthPrefixedSlice i) as [[? ?]|] eqn:E; [apply GetSlice_shrinks in E|try done]
  | |- context [GetInternalKey ?i] =>
      let E := fresh "E" in destruct (GetInternalKey i) as [[? ?]|] eqn:E; [apply GetInternalKey_shrinks in E|try done]
  end.

Lemma BlobFileAddition_DecodeFrom_ok input : part_ok (length input) (BlobFileAddition_DecodeFrom input).
Proof. unfold BlobFileAddition_DecodeFrom, field. repeat read_step. apply with_custom_fields_ok. lia. Qed.
Lemma BlobFileGarbage_DecodeFrom_ok input : part_ok (length input) (BlobFileGarbage_DecodeFrom input).
Proof. unfold BlobFileGarbage_DecodeFrom, field. repeat read_step. apply with_custom_fields_ok. lia. Qed.

Lemma custom_fields_ok fuel : ∀ e f path_id input, (length input < fuel)%nat →
  match custom_fields fuel e f path_id input with
  | Some (inl _) => True
  | Some (inr (_, rest)) => (length rest <= length input)%nat
  | None => False
  end.
Proof.
  induction fuel as [|fuel IH]; intros e f path_id input Hf; [lia|]. cbn [custom_fields].
  destruct (GetVarint32 input) as [[tag i1]|] eqn:E1; [|done]. apply GetVarint32_shrinks in E1.
  destruct (tag =? NewFileCustomTag.kTerminate); [lia|].
  destruct (GetLengthPrefixedSlice i1) as [[x i2]|] eqn:E2; [|done]. apply GetSlice_shrinks in E2.
  destruct (custom_field e f path_id tag x) as [msg|[[e' f'] p']]; [done|]. pose proof (IH e' f' p' i2 ltac:(lia)) as H.
  destruct (custom_fields fuel e' f' p' i2) as [[|[? r]]|]; [done|lia|done].
Qed.

Lemma with_decoder_ok {A} n (r : option (Status + A * bytes)) e k : part_ok n r → outcome_ok n (with_decoder r e k).
Proof. destruct r as [[s|[x rest]]|]; done. Qed.
Lemma with_sized_decoder_ok {A} msg (decode : bytes → option (Status + A * bytes)) e input k :
  (∀ src, part_ok (length src) (decode src)) → outcome_ok (length input) (with_sized_decoder msg decode e input k).
Proof.
  intros H. unfold with_sized_decoder, with_read. destruct (GetLengthPrefixedSlice input) as [[enc i1]|] eqn:E; [|done].
  apply GetSlice_shrinks in E. specialize (H enc). destruct (decode enc) as [[s|[x rest]]|]; cbn in *; [done|lia|done].
Qed.

Ltac read_steps := unfold slice_field, varint64_field, varint32_field, with_level, GetLevel; cbn zeta;
  repeat first [progress unfold with_read | read_step; cbn [mbind option_bind outcome_ok]]; try (cbn; lia).

Lemma DecodeOldNewFile_ok has_path has_seqnos msg e input : outcome_ok (length input) (DecodeOldNewFile has_path has_seqnos msg e input).
Proof. unfold DecodeOldNewFile. destruct has_path, has_seqnos; read_steps. Qed.
Lemma DecodeNewFile4_ok e input : outcome_ok (length input) (DecodeNewFile4From e input).
Proof.
  unfold DecodeNewFile4From. read_steps. match goal with |- outcome_ok _ (match custom_fields ?n ?e ?f ?p ?i with _ => _ end) =>
    pose proof (custom_fields_ok n e f p i ltac:(lia)) as H; destruct (custom_fields n e f p i) as [[[? ?]|[[[? ?] ?] r]]|] end; cbn in *; [done|lia|done].
Qed.

Lemma decode_field_ok tag e input : outcome_ok (length input) (decode_field tag e input).
Proof.
  unfold decode_field.
  repeat match goal with |- context [if ?c then _ else _] => match c with context [tag] => destruct c end end.
  all: try apply DecodeOldNewFile_ok; try apply DecodeNewFile4_ok; try (by read_steps).
  all: try (apply with_decoder_ok; first [apply BlobFileAddition_DecodeFrom_ok | apply BlobFileGarbage_DecodeFrom_ok
    | apply WalAddition_DecodeFrom_ok | apply WalDeletion_DecodeFrom_ok]).
  all: try (apply with_sized_decoder_ok; first [apply WalAddition_DecodeFrom_ok | apply WalDeletion_DecodeFrom_ok]).
  - unfold with_read. destruct (GetLengthPrefixedSlice input) as [[s i1]|] eqn:E; [|done]. apply GetSlice_shrinks in E. destruct s; cbn; lia || done.
  - unfold with_read. destruct (GetVarint32 input) as [[n i1]|] eqn:E; [|done]. apply GetVarint32_shrinks in E.
    destruct (_ <? _); [done|]. cbn. pose proof (ztake_zdrop n i1) as Hl. apply (f_equal length) in Hl. rewrite length_app in Hl. lia.
Qed.

(** C29: decoding a version edit returns for every byte string, and its status is OK
    or a corruption. *)
Theorem DecodeFrom_terminates e0 src : ∃ s e, DecodeFrom e0 src = Some (s, e) ∧ (s = Status_OK ∨ IsCorruption s = true).
Proof.
  unfold DecodeFrom. assert (∀ fuel e input, (length input < fuel)%nat →
    ∃ s e', DecodeFrom_loop fuel e input = Some (s, e') ∧ (s = Status_OK ∨ IsCorruption s = true)) as H; [|apply H; lia].
  induction fuel as [|fuel IH]; intros e input Hf; [lia|]. cbn [DecodeFrom_loop].
  destruct (GetVarint32 input) as [[tag i1]|] eqn:E; [|destruct input; eauto]. apply GetVarint32_shrinks in E.
  pose proof (decode_field_ok tag e i1) as Ho. destruct (decode_field tag e i1) as [[e' i2|msg e'|s e']|]; cbn in Ho; [|eauto..|done].
  apply IH. lia.
Qed.
#[local] Transparent EncodeVarint32 EncodeVarint64 GetVarint32 GetVarint64 GetLengthPrefixedSlice GetFixed64 EncodeFixed64 ztake zdrop Zlen.

Module EditExample.
Definition ikey (k : Z) : bytes := InternalKey.New [k] 7 kTypeValue.
Definition file : FileMetaData :=
  mkFile (NewFileDescriptor 12 1 4096 3 9) (ikey 97) (ikey 122) 0 true kCold 5 100 200 1 [1; 2] [67; 82; 67] (1, 2) 0 true.
Definition edit : VersionEdit :=
  MarkAtomicGroup (AddWalAddition (AddBlobFile (AddFile (DeleteFile (DeleteFile (AddCompactCursor (SetMinLogNumberToKeep
    (SetComparatorName Clear [99]) 4) 1 (ikey 98)) 2 8) 1 6) 3 file) (mkBlobFileAddition 5 10 1000 [] [])) (mkWalAddition 4 77)) 2.

Ltac ok_list l := let v := eval vm_compute in l in change l with v;
  repeat (apply Forall_cons; split); try apply Forall_nil; cbn; unfold key_ok; (by split_and?; vm_compute) || by vm_compute.

Lemma edit_edit_ok : edit_ok 0 edit.
Proof.
  split.
  - ok_list (head_fields edit).
  - apply Forall_cons. split; [|by apply Forall_nil]. split; [by vm_compute|].
    split; unfold key_ok; (by split_and?; vm_compute) || by vm_compute.
  - ok_list (tail_fields edit).
Qed.

Lemma edit_deleted : StronglySorted deleted_lt (deleted_files_ edit).
Proof.
  assert (deleted_files_ edit = [(1, 6); (2, 8)]) as -> by reflexivity.
  apply SSorted_cons; [by repeat constructor|]. apply Forall_cons. split; [left; cbn; lia|by apply Forall_nil].
Qed.

(** A file whose smallest key has no footer cannot be encoded. *)
Definition bad_edit : VersionEdit := AddFile edit 3 (set_boundaries file [97] (ikey 122)).
Lemma bad_edit_ok : edit_ok 0 bad_edit.
Proof.
  split.
  - ok_list (head_fields bad_edit).
  - apply Forall_cons. split; [exact (Forall_inv (eo_files _ _ edit_edit_ok))|]. apply Forall_cons. split; [|by apply Forall_nil].
    split; [by vm_compute|]. split; (by split_and?; vm_compute) || by vm_compute.
  - ok_list (tail_fields bad_edit).
Qed.

Lemma bad_edit_deleted : StronglySorted deleted_lt (deleted_files_ bad_edit).
Proof. assert (deleted_files_ bad_edit = deleted_files_ edit) as -> by (vm_compute; reflexivity). apply edit_deleted. Qed.

Lemma version_edit_round_trip_witness :
  DecodeFrom Clear (snd (EncodeTo edit [] 0)) = Some (Status_OK, set_max_level edit 3) ∧ fst (EncodeTo bad_edit [] 0) = false.
Proof.
  split.
  - assert (set_max_level edit 3 = persisted 0 edit) as -> by (vm_compute; reflexivity).
    apply (version_edit_round_trip 0 edit Clear edit_edit_ok edit_deleted). vm_compute. reflexivity.
  - etransitivity; [apply (version_edit_round_trip 0 bad_edit Clear bad_edit_ok bad_edit_deleted)|]. vm_compute. reflexivity.
Defined.



End EditExample.
