(* ===== verification/Manifest.v ===== *)
(** * Replaying the manifest

    The manifest is a log of version edits. [VersionEditHandlerBase::Iterate]
    (db/version_edit_handler.cc) reads and decodes them and hands them to a handler;
    [AtomicGroupReadBuffer] (db/version_set.cc) keeps back the edits of an atomic
    group until all of them are there. Two handlers are modelled: the one that lists
    the column families, and the one that collects the checksums of the files
    (util/file_checksum_helper.cc). *)

From S2P Require Import Prelude Status Coding DbFormat Crc32c LogFormat LogWriter LogReader LogRecord LogRoundTrip LogCorrect.
From S2P Require Import WalEdit VersionEdit VersionEditCorrect.
From stdpp Require Import gmap.
From Stdlib Require Import Sorting.Sorted.
#[local] Open Scope Z_scope.

(** ** Atomic groups *)

Record AtomicGroupReadBuffer := mkBuffer {
  read_edits_in_atomic_group_ : Z;
  replay_buffer_ : list VersionEdit
}.
Definition EmptyBuffer : AtomicGroupReadBuffer := mkBuffer 0 [].

Definition AddEdit (b : AtomicGroupReadBuffer) (edit : VersionEdit) : Status * AtomicGroupReadBuffer :=
  match remaining_entries_ edit with
  | Some remaining =>
      let buffer := match replay_buffer_ b with
                    | [] => replicate (Z.to_nat (u32 (remaining + 1))) Clear
                    | buffer => buffer
                    end in
      let read := u64 (read_edits_in_atomic_group_ b + 1) in
      if negb (u64 (read + remaining) =? u32 (Zlen buffer)) then
        (Status_Corruption "corrupted atomic group", mkBuffer read buffer)
      else (Status_OK, mkBuffer read (<[Z.to_nat (read - 1) := edit]> buffer))
  | None =>
      match replay_buffer_ b with
      | [] => (Status_OK, b)
      | _ => (Status_Corruption "corrupted atomic group", b)
      end
  end.
Definition IsFull (b : AtomicGroupReadBuffer) : bool := read_edits_in_atomic_group_ b =? Zlen (replay_buffer_ b).
Definition IsEmpty (b : AtomicGroupReadBuffer) : bool := match replay_buffer_ b with [] => true | _ => false end.
Definition ClearBuffer (_ : AtomicGroupReadBuffer) : AtomicGroupReadBuffer := mkBuffer 0 [].

(** ** Iteration *)

(** [VersionSet::LogReporter]: the first corruption that was reported. *)
Definition log_read_status (reports : option (list (Z * Status))) : Status :=
  fold_left (λ status report, if ok status then snd report else status) (default [] reports) Status_OK.

Section Iterate.
Context {R U : Type} `{!SequentialFile R} `{!StreamingUncompress U} (XXH3_64bits : bytes → Z).

(** The virtual methods of the handler, on its state. *)
Record EditHandler (H : Type) := mkEditHandler {
  Initialize : H → Status * H;
  ApplyVersionEdit : H → VersionEdit → Status * H;
  CheckIterationResult : H → Reader R U → Status → Status * H
}.
Context {H : Type} (handler : EditHandler H) (max_manifest_read_size_ : Z).

(** Edits in turn, until one fails; [s] is the status before them. *)
Fixpoint ApplyEdits (s : Status) (h : H) (edits : list VersionEdit) : Status * H :=
  match edits with
  | [] => (s, h)
  | e :: edits => let '(s, h) := ApplyVersionEdit H handler h e in if ok s then ApplyEdits s h edits else (s, h)
  end.

(** What is done with an edit, and with a record: the status, the buffer and the
    handler after it. [None] is out of fuel. *)
Definition handle_edit (edit : VersionEdit) (buffer : AtomicGroupReadBuffer) (h : H) : Status * AtomicGroupReadBuffer * H :=
  let '(s, buffer) := AddEdit buffer edit in
  if negb (ok s) then (s, buffer, h)
  else
    match remaining_entries_ edit with
    | Some _ =>
        if IsFull buffer then
          let '(s, h) := ApplyEdits s h (replay_buffer_ buffer) in (s, if ok s then ClearBuffer buffer else buffer, h)
        else (s, buffer, h)
    | None => let '(s, h) := ApplyVersionEdit H handler h edit in (s, buffer, h)
    end.
Definition handle_record (record : bytes) (buffer : AtomicGroupReadBuffer) (h : H) : option (Status * AtomicGroupReadBuffer * H) :=
  '(s, edit) ← DecodeFrom Clear record;
  Some (if negb (ok s) then (s, buffer, h) else handle_edit edit buffer h).

(** The loop; [n] bounds the number of records, [fuel] is that of the reader. *)
Fixpoint Iterate_loop (n fuel : nat) (r : Reader R U) (buffer : AtomicGroupReadBuffer) (h : H) (s : Status) :
    option (Status * AtomicGroupReadBuffer * H * Reader R U) :=
  match n with
  | O => None
  | S n =>
      if (LastRecordEnd r <? max_manifest_read_size_) && ok s then
        match ReadRecord XXH3_64bits fuel kTolerateCorruptedTailRecords false r with
        | None => None
        | Some (false, _, r, _) => Some (s, buffer, h, r)
        | Some (true, record, r, _) =>
            if ok (log_read_status (reporter_ r)) then
              match handle_record record buffer h with
              | None => None
              | Some (s, buffer, h) => Iterate_loop n fuel r buffer h s
              end
            else Some (s, buffer, h, r)
        end
      else Some (s, buffer, h, r)
  end.

(** The message of a corruption names the file; the new status has the flags of a
    fresh one. *)
Definition name_file (file_name : string) (s : Status) : Status :=
  if IsCorruption s then
    mkStatus (code_ s) (state_ s +:+ " " +:+ " The file " +:+ file_name +:+ " may be corrupted.") false
  else s.
(** [status_], which starts as OK and is set to a status that is not, the buffer and
    the handler. *)
Definition Iterate (n fuel : nat) (file_name : string) (r : Reader R U) (h : H) : option (Status * AtomicGroupReadBuffer * H) :=
  let '(s, h) := Initialize H handler h in
  match Iterate_loop n fuel r EmptyBuffer h s with
  | None => None
  | Some (s, buffer, h, r) =>
      let s := if ok (log_read_status (reporter_ r)) then s else log_read_status (reporter_ r) in
      let '(s, h) := CheckIterationResult H handler h r s in
      Some (if ok s then Status_OK else name_file file_name s, buffer, h)
  end.

(** ** Handlers *)

Definition kDefaultColumnFamilyName : bytes := [100; 101; 102; 97; 117; 108; 116].

(** [ListColumnFamiliesHandler]: [column_family_names_] *)
Definition ListColumnFamilies_init : gmap Z bytes := {[ 0 := kDefaultColumnFamilyName ]}.
Definition ListColumnFamilies_ApplyVersionEdit (names : gmap Z bytes) (edit : VersionEdit) : Status * gmap Z bytes :=
  match column_family_name_ edit with
  | Some name =>
      match names !! column_family_ edit with
      | Some _ => (Status_Corruption "Manifest adding the same column family twice", names)
      | None => (Status_OK, <[column_family_ edit := name]> names)
      end
  | None =>
      if is_column_family_drop_ edit then
        match names !! column_family_ edit with
        | None => (Status_Corruption "Manifest - dropping non-existing column family", names)
        | Some _ => (Status_OK, delete (column_family_ edit) names)
        end
      else (Status_OK, names)
  end.
Definition ListColumnFamiliesHandler : EditHandler (gmap Z bytes) :=
  mkEditHandler _ (λ h, (Status_OK, h)) ListColumnFamilies_ApplyVersionEdit (λ h _ s, (s, h)).

(** [FileChecksumListImpl]: the checksum and the name of its function, by file *)
Definition InsertOneFileChecksum (m : gmap Z (bytes * bytes)) (file_number : Z) (checksum func_name : bytes) : gmap Z (bytes * bytes) :=
  <[file_number := (checksum, func_name)]> m.
Definition RemoveOneFileChecksum (m : gmap Z (bytes * bytes)) (file_number : Z) : Status * gmap Z (bytes * bytes) :=
  match m !! file_number with None => (Status_NotFound "", m) | Some _ => (Status_OK, delete file_number m) end.

Fixpoint remove_deleted (m : gmap Z (bytes * bytes)) (deleted : list (Z * Z)) : Status * gmap Z (bytes * bytes) :=
  match deleted with
  | [] => (Status_OK, m)
  | (_, number) :: deleted => let '(s, m) := RemoveOneFileChecksum m number in if ok s then remove_deleted m deleted else (s, m)
  end.
Definition FileChecksumRetriever_ApplyVersionEdit (m : gmap Z (bytes * bytes)) (edit : VersionEdit) : Status * gmap Z (bytes * bytes) :=
  let '(s, m) := remove_deleted m (deleted_files_ edit) in
  if negb (ok s) then (s, m)
  else
    let m := fold_left (λ m lf, InsertOneFileChecksum m (GetNumber (fd (snd lf))) (file_checksum (snd lf)) (file_checksum_func_name (snd lf)))
               (new_files_ edit) m in
    let m := fold_left (λ m a,
      match checksum_method_ a with
      | [] => InsertOneFileChecksum m (blob_file_number_ a) [] kUnknownFileChecksumFuncName
      | checksum_method => InsertOneFileChecksum m (blob_file_number_ a) (checksum_value_ a) checksum_method
      end) (blob_file_additions_ edit) m in
    (Status_OK, m).
Definition FileChecksumRetriever : EditHandler (gmap Z (bytes * bytes)) :=
  mkEditHandler _ (λ h, (Status_OK, h)) FileChecksumRetriever_ApplyVersionEdit (λ h _ s, (s, h)).
End Iterate.
#[local] Opaque Zlen.

(** ** Groups are replayed as wholes *)

(** An edit by itself, or an atomic group: each edit says how many follow it. *)
Inductive group_wf : list VersionEdit → Prop :=
  | group_single e : remaining_entries_ e = None → group_wf [e]
  | group_atomic g : g ≠ [] → Zlen g < 2 ^ 32 →
      (∀ i e, g !! i = Some e → remaining_entries_ e = Some (Zlen g - 1 - Z.of_nat i)) → group_wf g.

(** The edits of the groups that are complete within the first [k] edits. *)
Fixpoint complete_groups (k : nat) (gs : list (list VersionEdit)) : list VersionEdit :=
  match gs with
  | [] => []
  | g :: gs => if (length g <=? k)%nat then g ++ complete_groups (k - length g) gs else []
  end.

Section Replay.
Context {R U : Type} `{!SequentialFile R} `{!StreamingUncompress U}.
Context {H : Type} (handler : EditHandler (R := R) (U := U) H).

Fixpoint replay (st : Status * AtomicGroupReadBuffer * H) (es : list VersionEdit) : Status * AtomicGroupReadBuffer * H :=
  match es with
  | [] => st
  | e :: es => if ok (fst (fst st)) then replay (handle_edit handler e (snd (fst st)) (snd st)) es else st
  end.

Lemma replay_app st es es' : replay st (es ++ es') = replay (replay st es) es'.
Proof using.
  revert st. induction es as [|e es IH]; intros st; [done|]. cbn [app replay]. destruct (ok (fst (fst st))) eqn:E; [apply IH|].
  destruct es'; [done|]. cbn. by rewrite E.
Qed.

Lemma ApplyEdits_app s h es es' : ok s = true → ApplyEdits handler s h (es ++ es') =
  let '(s, h) := ApplyEdits handler s h es in if ok s then ApplyEdits handler s h es' else (s, h).
Proof using.
  revert s h. induction es as [|e es IH]; intros s h Hs; cbn [app ApplyEdits]; [by rewrite Hs|].
  destruct (ApplyVersionEdit H handler h e) as [s1 h']. destruct (ok s1) eqn:E; [by apply IH|]. by rewrite E.
Qed.

(** The same failure, or both successful. *)
Definition same_status (s s' : Status) : Prop := if ok s then ok s' = true else s' = s.

Section Group.
Context (g : list VersionEdit) (Hlen : Zlen g < 2 ^ 32).
Context (Hg : ∀ i e, g !! i = Some e → remaining_entries_ e = Some (Zlen g - 1 - Z.of_nat i)).

(** The buffer after [j] edits of the group. *)
Definition filled (j : nat) : AtomicGroupReadBuffer :=
  match j with O => EmptyBuffer | _ => mkBuffer (Z.of_nat j) (take j g ++ replicate (length g - j) Clear) end.

Lemma insert_filled j e : g !! j = Some e →
  <[j := e]> (take j g ++ replicate (length g - j) Clear) = take (S j) g ++ replicate (length g - S j) Clear.
Proof using.
  intros Hj. pose proof (lookup_lt_Some _ _ _ Hj). replace (length g - j)%nat with (S (length g - S j)) by lia.
  rewrite (take_S_r _ _ _ Hj), <- app_assoc. cbn [replicate app].
  rewrite insert_app_r_alt by (rewrite length_take; lia). rewrite length_take, Nat.min_l, Nat.sub_diag by lia. done.
Qed.

Lemma AddEdit_filled j e : g !! j = Some e → AddEdit (filled j) e = (Status_OK, filled (S j)).
Proof using Hg Hlen.
  intros Hj. pose proof (lookup_lt_Some _ _ _ Hj) as Hlt. unfold AddEdit. rewrite (Hg j e Hj). rewrite Zlen_length in *.
  set (buffer := match replay_buffer_ (filled j) with [] => _ | b => b end).
  assert (buffer = take j g ++ replicate (length g - j) Clear) as ->.
  { unfold buffer. destruct j as [|j]; cbn [filled EmptyBuffer replay_buffer_].
    - rewrite Nat.sub_0_r. rewrite take_0. cbn [app]. f_equal. rewrite (wrap_small 32) by (unfold is_u; lia); lia.
    - destruct g as [|x g']; [done|]. done. }
  assert (read_edits_in_atomic_group_ (filled j) = Z.of_nat j) as -> by by destruct j.
  assert (u64 (Z.of_nat j + 1) = Z.of_nat j + 1) as -> by (apply wrap_small; unfold is_u; lia).
  rewrite Zlen_length, length_app, length_take, length_replicate. rewrite !wrap_small by (unfold is_u; lia).
  rewrite (proj2 (Z.eqb_eq _ _)) by lia. cbn [negb]. f_equal. cbn [filled]. f_equal; [lia|].
  replace (Z.to_nat (Z.of_nat j + 1 - 1)) with j by lia. by apply insert_filled.
Qed.

Lemma replay_prefix s h j : ok s = true → (j < length g)%nat →
  ∃ s', ok s' = true ∧ replay (s, EmptyBuffer, h) (take j g) = (s', filled j, h).
Proof using Hg Hlen.
  intros Hs. induction j as [|j IH]; intros Hj; [by exists s|]. destruct (lookup_lt_is_Some_2 g j) as [e He]; [lia|].
  destruct IH as (s' & Hs' & IH); [lia|]. exists Status_OK. split; [done|].
  rewrite (take_S_r _ _ _ He), replay_app, IH. cbn [replay fst snd]. rewrite Hs'. unfold handle_edit.
  rewrite (AddEdit_filled j e He). cbn [negb ok code_ Status_OK]. rewrite (Hg j e He). unfold IsFull.
  cbn [filled read_edits_in_atomic_group_ replay_buffer_]. rewrite Zlen_length, length_app, length_take, length_replicate.
  by rewrite (proj2 (Z.eqb_neq _ _)) by lia.
Qed.

Lemma replay_group s h : ok s = true → g ≠ [] → replay (s, EmptyBuffer, h) g =
  let '(s, h) := ApplyEdits handler Status_OK h g in (s, if ok s then EmptyBuffer else filled (length g), h).
Proof using Hg Hlen.
  intros Hs Hne. assert (0 < length g)%nat as Hp by (destruct g; cbn; [done|lia]). set (j := (length g - 1)%nat).
  destruct (lookup_lt_is_Some_2 g j) as [e He]; [lia|]. rewrite <- (firstn_all g) at 1. replace (length g) with (S j) at 1 by lia.
  destruct (replay_prefix s h j Hs) as (s' & Hs' & Hp'); [lia|].
  rewrite (take_S_r _ _ _ He), replay_app, Hp'. cbn [replay fst snd]. rewrite Hs'. unfold handle_edit.
  rewrite (AddEdit_filled j e He). cbn [negb ok code_ Status_OK]. rewrite (Hg j e He). unfold IsFull. replace (S j) with (length g) by lia.
  assert (filled (length g) = mkBuffer (Zlen g) g) as ->.
  { unfold filled. destruct (length g) eqn:E; [lia|]. rewrite <- E, firstn_all, Nat.sub_diag, app_nil_r, Zlen_length. done. }
  cbn [read_edits_in_atomic_group_ replay_buffer_]. rewrite Z.eqb_refl. done.
Qed.
End Group.

Lemma replay_one s h g : ok s = true → group_wf g → ∃ b, replay (s, EmptyBuffer, h) g =
  let '(s, h) := ApplyEdits handler Status_OK h g in (s, if ok s then EmptyBuffer else b, h).
Proof using.
  intros Hs [e He|g' Hne Hlen Hg]; [|exists (filled g' (length g')); by apply replay_group].
  exists EmptyBuffer. cbn [replay fst snd ApplyEdits]. rewrite Hs. unfold handle_edit, AddEdit. rewrite He.
  cbn [EmptyBuffer replay_buffer_ negb ok code_ Status_OK].
  destruct (ApplyVersionEdit H handler h e) as [s1 h']. by destruct (ok s1) eqn:E; rewrite ?E.
Qed.

Lemma replay_not_ok st es : ok (fst (fst st)) = false → replay st es = st.
Proof using. intros E. destruct es; [done|]. cbn. by rewrite E. Qed.

(** The first [k] edits of a sequence of groups: the complete ones are applied, the
    other one is not. *)
Lemma replay_groups gs : Forall group_wf gs → ∀ k s s0 h, ok s = true → ok s0 = true → ∃ s' buffer,
  let '(s0, h0) := ApplyEdits handler s0 h (complete_groups k gs) in
  replay (s, EmptyBuffer, h) (take k (concat gs)) = (s', buffer, h0) ∧ same_status s0 s'.
Proof using.
  induction 1 as [|g gs Hg Hgs IH]; intros k s s0 h Hs Hs0; cbn [concat complete_groups].
  { exists s, EmptyBuffer. rewrite take_nil. cbn. unfold same_status. by rewrite Hs0. }
  destruct (Nat.leb_spec (length g) k) as [Hle|Hlt].
  - rewrite take_app_ge, replay_app, ApplyEdits_app by (done || lia).
    destruct (replay_one s h g Hs Hg) as [b Hb]. rewrite Hb.
    assert (ApplyEdits handler s0 h g = ApplyEdits handler Status_OK h g) as -> by by destruct Hg as [|[|]].
    destruct (ApplyEdits handler Status_OK h g) as [s1 h1]. destruct (ok s1) eqn:E; [by apply IH|].
    exists s1, b. rewrite replay_not_ok by done. unfold same_status. by rewrite E.
  - rewrite take_app_le by lia. cbn [ApplyEdits]. unfold same_status. rewrite Hs0. destruct Hg as [e He|g Hne Hlen Hg].
    + cbn in Hlt. replace k with 0%nat by lia. by exists s, EmptyBuffer.
    + destruct (replay_prefix g Hlen Hg s h k Hs Hlt) as (s' & Hs' & ->). by exists s', (filled g k).
Qed.

(** The loop over records that are read without a report, up to the end of the log. *)
Lemma Iterate_loop_reads XXH3_64bits max_size fuel content (r r1 : Reader R U) ds :
  reads_to XXH3_64bits fuel kTolerateCorruptedTailRecords false content r ds r1 →
  ∀ r2 l2 es n buffer h s,
  ReadRecord XXH3_64bits fuel kTolerateCorruptedTailRecords false r1 = Some (false, [], r2, l2) →
  LastRecordEnd r1 <= Zlen content < max_size → ok (log_read_status (reporter_ r)) = true →
  reporter_ r2 = reporter_ r1 →
  Forall2 (λ d e, DecodeFrom Clear d = Some (Status_OK, e)) ds es → (length es < n)%nat →
  ∃ r', Iterate_loop XXH3_64bits handler max_size n fuel r buffer h s = Some (replay (s, buffer, h) es, r') ∧
    ok (log_read_status (reporter_ r')) = true.
Proof using.
  induction 1 as [r|r d r1 l ds r' Hread Hrep Hsum Hend Hreads IH]; intros r2 l2 es n buffer h s Hr2 Hmax Hlog Hsame Hes Hn;
    inversion Hes as [|? e ? es' Hd Hes']; subst; cbn [length] in Hn; (destruct n as [|n]; [lia|]); cbn [Iterate_loop replay fst snd].
  - rewrite (proj2 (Z.ltb_lt _ _)), Hr2 by lia. cbn [andb]. destruct (ok s); [exists r2; by rewrite Hsame|by exists r].
  - rewrite (proj2 (Z.ltb_lt _ _)) by lia. cbn [andb]. destruct (ok s) eqn:Hs; [|by exists r].
    rewrite Hread, Hrep, Hlog. unfold handle_record. rewrite Hd. cbn.
    destruct (handle_edit handler e buffer h) as [[s1 b1] h1] eqn:E.
    apply (IH r2 l2); rewrite ?Hrep; (done || lia).
Qed.
End Replay.

(** ** Manifests *)

(** An edit that can be written: [VersionSet] fills it in this way, and the deleted
    files are in the order of the set they are kept in. *)
Record edit_wf (ts_sz : Z) (e : VersionEdit) : Prop := {
  ew_ok : edit_ok ts_sz e;
  ew_deleted : StronglySorted deleted_lt (deleted_files_ e);
  ew_files : forallb (λ lf, encodable (snd lf)) (new_files_ e) = true
}.
(** The record of an edit. *)
Definition record_of (ts_sz : Z) (e : VersionEdit) : bytes := snd (EncodeTo e [] ts_sz).

Lemma DecodeFrom_record ts_sz e : edit_wf ts_sz e → DecodeFrom Clear (record_of ts_sz e) = Some (Status_OK, persisted ts_sz e).
Proof.
  intros [Hok Hs Hf]. unfold record_of. rewrite EncodeTo_fields by done. cbn [snd app].
  rewrite DecodeFrom_fields by by apply edit_ok_fields. by rewrite apply_fields_of.
Qed.

Lemma group_wf_persisted ts_sz g : group_wf g → group_wf (map (persisted ts_sz) g).
Proof.
  intros [e He|g' Hne Hlen Hg]; [by apply group_single|]. apply group_atomic.
  - by destruct g'.
  - by rewrite Zlen_length, length_map, <- Zlen_length.
  - intros i e He. apply list_lookup_fmap_Some in He as (e' & -> & He). rewrite Zlen_length, length_map, <- Zlen_length. exact (Hg i e' He).
Qed.

Section Manifest.
Context {F C : Type} `{!WritableFile F} `{!WritableFileLaws F} `{!StreamingCompress C}.
Context {R U : Type} `{!SequentialFile R} `{!SequentialFileLaws R} `{!StreamingUncompress U}.
Context (XXH3_64bits : bytes → Z) {H : Type} (handler : EditHandler (R := R) (U := U) H).

Lemma Iterate_complete_groups f ln recycle mf fuel ts_sz gs es e rest s (w : Writer F C) s' (w' : Writer F C)
    (rf : R) rep checksum rfuel max_size n file_name k h0 :
  contents f = [] → (recycle = true → is_u 32 ln) →
  Forall group_wf gs → Forall (edit_wf ts_sz) (es ++ [e]) → concat gs = es ++ e :: rest →
  Forall bytes_ok (map (record_of ts_sz) (es ++ [e])) →
  AddRecords fuel (NewWriter f ln recycle mf kNoCompression) (map (record_of ts_sz) es) = Some (s, w) → ok s = true →
  AddRecord fuel w (record_of ts_sz e) = Some (s', w') → ok s' = true →
  Zlen (contents (dest_ w)) <= k < Zlen (contents (dest_ w')) →
  unread rf = ztake k (contents (dest_ w')) → 2 * Zlen (unread rf) + 3 <= Z.of_nat rfuel → Zlen (unread rf) < max_size →
  ok (log_read_status rep) = true → ok (fst (Initialize H handler h0)) = true →
  (length es < n)%nat →
  ∃ buffer r1 s1, let '(s, h) := ApplyEdits handler Status_OK (snd (Initialize H handler h0))
                                   (complete_groups (length es) (map (map (persisted ts_sz)) gs)) in
    same_status s s1 ∧ Iterate XXH3_64bits handler max_size n rfuel file_name (NewReader rf rep checksum ln) h0 =
      let '(s, h) := CheckIterationResult H handler h r1 s1 in Some (if ok s then Status_OK else name_file file_name s, buffer, h).
Proof using All.
  intros Hf Hln Hgs Hwf Hes Hb HA Hs HA' Hs' Hk Hrf Hfuel Hmax Hrep Hi Hn. apply Forall_app in Hwf as [Hwf _].
  destruct (reads_cut (U := U) XXH3_64bits f ln recycle mf fuel (map (record_of ts_sz) es) (record_of ts_sz e) s w s' w' rf rep
    checksum rfuel kTolerateCorruptedTailRecords false k) as (r1 & r2 & l2 & Hreads & Hr1 & Hend & Hr2 & Hr2'); try done.
  { by rewrite map_app in Hb. }
  unfold Iterate. destruct (Initialize H handler h0) as [si hi]. cbn [fst snd] in *.
  destruct (Iterate_loop_reads handler XXH3_64bits max_size rfuel _ _ _ _ Hreads r2 l2 (map (persisted ts_sz) es) n EmptyBuffer hi si)
    as (r' & Hloop & Hlog); try done.
  { rewrite Hr1. by apply Hr2'; left. }
  { clear -Hwf. induction Hwf as [|x xs Hx Hxs IH]; constructor; [by apply DecodeFrom_record|done]. }
  { by rewrite length_map. }
  rewrite Hloop. clear Hloop.
  assert (map (persisted ts_sz) es = take (length es) (concat (map (map (persisted ts_sz)) gs))) as ->.
  { rewrite <- concat_map, Hes, map_app, take_app_le by by rewrite length_map. by rewrite <- (length_map (persisted ts_sz) es), firstn_all. }
  destruct (replay_groups handler (map (map (persisted ts_sz)) gs)) with (k := length es) (s := si) (s0 := Status_OK) (h := hi)
    as (s1 & buffer & Hr); try done.
  { rewrite Forall_map. apply (Forall_impl _ _ _ Hgs). apply group_wf_persisted. }
  exists buffer, r', s1. destruct (ApplyEdits _ _ _ _) as [s0 h1]. destruct Hr as [-> Hsame]. by rewrite Hlog.
Qed.

(** C7: version edits survive a crash in atomic groups. If edits, each by itself or in
    an atomic group, are written to a new manifest and the file is cut at any byte of
    the last record, iterating over the manifest applies to the handler the edits of
    the groups that are complete before that record, in order and as they were
    encoded, and stops at the first one that the handler refuses, whose status it
    returns; nothing of the group that is cut is applied, whichever of its edits were
    written. *)
Theorem manifest_replays_complete_groups f ln recycle mf fuel ts_sz gs es e rest s (w : Writer F C) s' (w' : Writer F C)
    (rf : R) rep checksum rfuel max_size n file_name k h :
  contents f = [] → (recycle = true → is_u 32 ln) →
  Forall group_wf gs → Forall (edit_wf ts_sz) (es ++ [e]) → concat gs = es ++ e :: rest →
  Forall bytes_ok (map (record_of ts_sz) (es ++ [e])) →
  AddRecords fuel (NewWriter f ln recycle mf kNoCompression) (map (record_of ts_sz) es) = Some (s, w) → ok s = true →
  AddRecord fuel w (record_of ts_sz e) = Some (s', w') → ok s' = true →
  Zlen (contents (dest_ w)) <= k < Zlen (contents (dest_ w')) →
  unread rf = ztake k (contents (dest_ w')) → 2 * Zlen (unread rf) + 3 <= Z.of_nat rfuel → Zlen (unread rf) < max_size →
  ok (log_read_status rep) = true → ok (fst (Initialize H handler h)) = true →
  (∀ h r s, CheckIterationResult H handler h r s = (s, h)) → (length es < n)%nat →
  ∃ buffer, Iterate XXH3_64bits handler max_size n rfuel file_name (NewReader rf rep checksum ln) h =
    let '(s, h) := ApplyEdits handler Status_OK (snd (Initialize H handler h))
                     (complete_groups (length es) (map (map (persisted ts_sz)) gs)) in
    Some (if ok s then Status_OK else name_file file_name s, buffer, h).
Proof using All.
  intros Hf Hln Hgs Hwf Hes Hb HA Hs HA' Hs' Hk Hrf Hfuel Hmax Hrep Hi Hc Hn.
  destruct (Iterate_complete_groups f ln recycle mf fuel ts_sz gs es e rest s w s' w' rf rep checksum rfuel max_size n file_name k h)
    as (buffer & r1 & s1 & Hr); try done.
  exists buffer. destruct (ApplyEdits _ _ _ _) as [s0 h0]. destruct Hr as [Hsame ->]. rewrite Hc.
  unfold same_status in Hsame. destruct (ok s0) eqn:E; [by rewrite Hsame|]. subst s1. by rewrite E.
Qed.
End Manifest.
#[local] Transparent Zlen.

Module ManifestExample.
Import LogExample.
Definition add_cf (id : Z) (name : bytes) : VersionEdit := AddColumnFamily (SetColumnFamily Clear id) name.
Definition edit1 : VersionEdit := add_cf 1 [97].
Definition edit2 : VersionEdit := MarkAtomicGroup (add_cf 2 [98]) 1.
Definition edit3 : VersionEdit := MarkAtomicGroup (add_cf 3 [99]) 0.
Definition records : list bytes := map (record_of 0) [edit1; edit2].

Lemma edits_wf : Forall (edit_wf 0) [edit1; edit2; edit3].
Proof.
  repeat (apply Forall_cons; split); try apply Forall_nil; split; try done; try constructor.
  all: repeat constructor; by vm_compute.
Qed.

Lemma groups_wf : Forall group_wf [[edit1]; [edit2; edit3]].
Proof.
  apply Forall_cons. split; [by apply group_single|]. apply Forall_cons. split; [|by apply Forall_nil].
  apply group_atomic; [done|by vm_compute|]. intros [|[|i]] e; [intros [= <-]; done..|done].
Qed.

(** The manifest is cut in the last record: of the atomic group, nothing is applied. *)
Lemma manifest_replays_complete_groups_witness : ∃ buffer,
  Iterate (U := unit) xxh ListColumnFamiliesHandler (2 ^ 64 - 1) 5 300 "MANIFEST-000005"
    (NewReader (ztake 40 (file_of 5 false (records ++ [record_of 0 edit3]))) (Some []) true 5) ListColumnFamilies_init =
  Some (Status_OK, buffer, <[1 := [97]]> {[0 := kDefaultColumnFamilyName]}).
Proof.
  destruct (manifest_replays_complete_groups (U := unit) xxh ListColumnFamiliesHandler (memfile []) 5 false false 10 0
    [[edit1]; [edit2; edit3]] [edit1; edit2] edit3 [] Status_OK (written 5 false records)
    Status_OK (written 5 false (records ++ [record_of 0 edit3]))
    (ztake 40 (file_of 5 false (records ++ [record_of 0 edit3]))) (Some []) true 300 (2 ^ 64 - 1) 5 "MANIFEST-000005" 40
    ListColumnFamilies_init) as (buffer & E).
  - reflexivity.
  - discriminate.
  - apply groups_wf.
  - apply edits_wf.
  - reflexivity.
  - vm_compute. repeat constructor; discriminate.
  - vm_compute. reflexivity.
  - reflexivity.
  - vm_compute. reflexivity.
  - reflexivity.
  - vm_compute. split; [discriminate|reflexivity].
  - reflexivity.
  - vm_compute. discriminate.
  - vm_compute. reflexivity.
  - reflexivity.
  - reflexivity.
  - reflexivity.
  - repeat constructor.
  - exists buffer. rewrite E. reflexivity.
Defined.
End ManifestExample.
