(* ===== verification/FileIndexerCorrect.v ===== *)
(** * The index of the next level is exact

    Each walk computes, for every upper file, how many lower files it passes; the
    bounds that [GetNextLevelIndex] returns leave out only files that cannot hold
    the key, and none of its assertions fails. *)

From Stdlib Require Import Sorting.Sorted.
From S2P Require Import Prelude SortedLists Comparator DbFormat VersionEdit FileIndexer.
From stdpp Require Import list sorting.
#[local] Open Scope Z_scope.
Import FileIndexer.

(** ** Vectors *)

Lemma int32_small z : - 2 ^ 31 <= z < 2 ^ 31 → int32 z = z.
Proof. intros H. unfold swrap. rewrite Z.mod_small; lia. Qed.
Lemma vec_at_nat {A} (v : list A) (i : nat) : vec_at v (Z.of_nat i) = v !! i.
Proof. unfold vec_at. rewrite (proj2 (Z.leb_le 0 _)) by lia. by rewrite Nat2Z.id. Qed.
Lemma vec_set_nat {A} (v : list A) (i : nat) x : (i < length v)%nat → vec_set v (Z.of_nat i) x = Some (<[i := x]> v).
Proof.
  intros H. unfold vec_set, Zlen. rewrite (proj2 (Z.leb_le 0 _)), (proj2 (Z.ltb_lt _ _)) by lia. cbn [andb]. by rewrite Nat2Z.id.
Qed.

Lemma zip_with_ext_r {A B C} (f g : A → B → C) l1 l2 : (∀ x y, y ∈ l2 → f x y = g x y) → zip_with f l1 l2 = zip_with g l1 l2.
Proof.
  revert l1. induction l2 as [|y l2 IH]; intros [|x l1] H; cbn; [done..|].
  rewrite (H x y) by left. f_equal. apply IH. intros ???. apply H. by right.
Qed.

Lemma zip_with_map_self {A B C} (f : B → A → C) (g : A → B) l : zip_with f (map g l) l = map (λ x, f (g x) x) l.
Proof. induction l as [|x l IH]; cbn; by rewrite ?IH. Qed.
Lemma replicate_map {A B} (x : B) (l : list A) : replicate (length l) x = map (λ _, x) l.
Proof. induction l as [|y l IH]; cbn; by rewrite ?IH. Qed.
Lemma zip_with_reverse {A B C} (f : A → B → C) l1 : ∀ l2, length l1 = length l2 →
  zip_with f (reverse l1) (reverse l2) = reverse (zip_with f l1 l2).
Proof.
  induction l1 as [|x l1 IH]; intros [|y l2] H; try done. cbn [zip_with]. rewrite !reverse_cons, zip_with_app, IH; [done|by injection H|].
  rewrite !length_reverse. by injection H.
Qed.
Lemma insert_reverse {A} (l : list A) i x : (i < length l)%nat → <[i := x]> (reverse l) = reverse (<[(length l - S i)%nat := x]> l).
Proof.
  intros Hi. apply list_eq. intros j. destruct (decide (j < length l)%nat) as [Hj|Hj].
  - rewrite reverse_lookup, length_insert by (by rewrite length_insert). destruct (decide (i = j)) as [->|].
    + rewrite !list_lookup_insert_eq; rewrite ?length_reverse; [done|lia..].
    + rewrite !list_lookup_insert_ne by lia. by rewrite reverse_lookup.
  - rewrite !lookup_ge_None_2; [done|rewrite ?length_reverse, ?length_insert, ?length_reverse; lia..].
Qed.
Lemma StronglySorted_reverse {A} (R : A → A → Prop) l : StronglySorted R l → StronglySorted (λ x y, R y x) (reverse l).
Proof.
  induction 1 as [|x l Hl IH Hx]; [constructor|]. rewrite reverse_cons. apply StronglySorted_app_2; [|done|repeat constructor].
  intros y z Hy ->%list_elem_of_singleton. rewrite Forall_forall in Hx. apply Hx. by apply elem_of_reverse.
Qed.

(** ** The walks *)

Section Calculate.
Context (upper lower : list FileMetaData) (cmp_op : FileMetaData → FileMetaData → Z) (set_index : IndexUnit → Z → IndexUnit).
Context (Hu : Zlen upper < 2 ^ 31) (Hl : Zlen lower < 2 ^ 31).
#[local] Abbreviation CalculateLB_loop := (CalculateLB_loop upper lower cmp_op set_index).
#[local] Abbreviation CalculateLB_rest := (CalculateLB_rest upper lower set_index).
#[local] Abbreviation CalculateRB_loop := (CalculateRB_loop upper lower cmp_op set_index).
#[local] Abbreviation CalculateRB_rest := (CalculateRB_rest set_index).

(** The number of lower files before the first one that is not below. *)
Definition lb_of (u : FileMetaData) : Z := Z.of_nat (count_while (λ l, 0 <? cmp_op u l) lower).
(** The index of the last lower file that is not above. *)
Definition rb_of (u : FileMetaData) : Z := Zlen lower - 1 - Z.of_nat (count_while (λ l, cmp_op u l <? 0) (reverse lower)).

Lemma set_unit_middle done x rest y : set_unit set_index (done ++ x :: rest) (Zlen done) y = Some (done ++ set_index x y :: rest).
Proof using.
  unfold set_unit, Zlen. rewrite vec_at_nat, list_lookup_middle by done. cbn [mbind option_bind].
  rewrite vec_set_nat by (rewrite length_app; cbn; lia). by rewrite insert_app_r_alt, Nat.sub_diag by lia.
Qed.

Lemma CalculateLB_rest_spec us : ∀ fuel done_us done rest, upper = done_us ++ us → length done = length done_us →
  length rest = length us → (length us < fuel)%nat →
  CalculateLB_rest fuel (Zlen done) (done ++ rest) = Some (done ++ zip_with (λ x _, set_index x (Zlen lower)) rest us).
Proof using Hu Hl.
  induction us as [|u us IH]; intros [|fuel] done_us done rest E Hd Hr Hf; try (cbn in Hf; lia); destruct rest as [|x rest]; try discriminate Hr;
    cbn [FileIndexer.CalculateLB_rest zip_with]; rewrite !int32_small by (unfold Zlen in *; lia).
  - rewrite (proj2 (Z.ltb_ge _ _)); [done|]. rewrite E, app_nil_r. unfold Zlen. lia.
  - rewrite (proj2 (Z.ltb_lt _ _)) by (rewrite E, Zlen_app, Zlen_cons; unfold Zlen; lia).
    rewrite set_unit_middle. cbn [mbind option_bind].
    specialize (IH fuel (done_us ++ [u]) (done ++ [set_index x (Zlen lower)]) rest).
    rewrite Zlen_app, <- !app_assoc in IH. apply IH; [done|rewrite !length_app; cbn; lia|by injection Hr|cbn in Hf; lia].
Qed.

Lemma CalculateLB_loop_spec fuel : ∀ done_us us done rest seen ls, upper = done_us ++ us → lower = seen ++ ls →
  length done = length done_us → length rest = length us → (length us + length ls < fuel)%nat →
  StronglySorted (λ u u', ∀ l, l ∈ lower → 0 < cmp_op u l → 0 < cmp_op u' l) us →
  (∀ u l, u ∈ us → l ∈ seen → 0 < cmp_op u l) →
  (CalculateLB_loop fuel (Zlen done) (Zlen seen) (done ++ rest) ≫= λ '(i, index), CalculateLB_rest (S (length upper)) i index) =
  Some (done ++ zip_with (λ x u, set_index x (lb_of u)) rest us).
Proof using Hu Hl.
  induction fuel as [|fuel IH]; intros done_us us done rest seen ls Eu El Hd Hr Hf Hs Hseen; [lia|].
  cbn [FileIndexer.CalculateLB_loop]. rewrite !int32_small by (unfold Zlen in *; lia).
  assert (∀ u, u ∈ us → lb_of u = Zlen seen + Z.of_nat (count_while (λ l, 0 <? cmp_op u l) ls)) as Hlb.
  { intros u Hin. unfold lb_of. rewrite El, count_while_app; [unfold Zlen; lia|]. apply Forall_forall. intros l Hin'. apply Z.ltb_lt. auto. }
  assert (us = [] ∨ ls = [] → Some (Zlen done, done ++ rest) ≫= (λ '(i, index), CalculateLB_rest (S (length upper)) i index) =
    Some (done ++ zip_with (λ x u, set_index x (lb_of u)) rest us)) as Hend.
  { intros Hnil. cbn [mbind option_bind]. rewrite (CalculateLB_rest_spec us _ done_us); rewrite ?Eu, ?length_app; try done; [|lia].
    f_equal. f_equal. apply zip_with_ext_r. intros x y Hy. destruct Hnil as [-> | ->]; [by apply elem_of_nil in Hy|].
    rewrite (Hlb y Hy), El, app_nil_r. cbn. by rewrite Z.add_0_r. }
  destruct us as [|u us].
  { rewrite (proj2 (Z.ltb_ge (Zlen done) (Zlen upper))) by (rewrite Eu, app_nil_r; unfold Zlen; lia). apply Hend. by left. }
  destruct ls as [|l ls].
  { rewrite (proj2 (Z.ltb_ge (Zlen seen) (Zlen lower))), andb_false_r by (rewrite El, app_nil_r; lia). apply Hend. by right. }
  clear Hend. rewrite !(proj2 (Z.ltb_lt _ _)) by (rewrite ?Eu, ?El, Zlen_app, Zlen_cons; unfold Zlen; lia). cbn [andb].
  replace (vec_at upper (Zlen done)) with (Some u) by (unfold Zlen; by rewrite vec_at_nat, Eu, Hd, list_lookup_middle).
  replace (vec_at lower (Zlen seen)) with (Some l) by (unfold Zlen; by rewrite vec_at_nat, El, list_lookup_middle).
  destruct rest as [|x rest]; [done|]. cbn [mbind option_bind]. rewrite set_unit_middle. cbn [mbind option_bind].
  apply StronglySorted_inv in Hs as [Hs Hsu]. rewrite Forall_forall in Hsu.
  assert (cmp_op u l <= 0 → (CalculateLB_loop fuel (Zlen done + 1) (Zlen seen) (done ++ set_index x (Zlen seen) :: rest)
    ≫= λ '(i, index), CalculateLB_rest (S (length upper)) i index) =
    Some (done ++ zip_with (λ x u, set_index x (lb_of u)) (x :: rest) (u :: us))) as Hstep.
  { intros Hc. specialize (IH (done_us ++ [u]) us (done ++ [set_index x (Zlen seen)]) rest seen (l :: ls)).
    rewrite Zlen_app, <- !app_assoc in IH. cbn [zip_with]. rewrite (Hlb u) by left. cbn [count_while].
    rewrite (proj2 (Z.ltb_ge _ _) Hc), Z.add_0_r. apply IH; try done; [rewrite !length_app; cbn; lia|cbn in *; lia..|].
    intros u' l' Hu' Hl'. apply Hseen; [by right|done]. }
  destruct (Z.eqb_spec (cmp_op u l) 0) as [E|E]; [apply Hstep; lia|]. destruct (Z.ltb_spec 0 (cmp_op u l)) as [Hlt|Hge]; [|by apply Hstep].
  specialize (IH done_us (u :: us) done (x :: rest) (seen ++ [l]) ls). rewrite Zlen_app in IH. apply IH; try done.
  - by rewrite <- app_assoc.
  - cbn in *. lia.
  - constructor; [done|]. by apply Forall_forall.
  - intros u' l' Hu' [Hl'| ->%list_elem_of_singleton]%elem_of_app; [by apply Hseen|].
    apply elem_of_cons in Hu' as [-> |Hu']; [done|]. apply (Hsu u' Hu'); [|done]. rewrite El. apply elem_of_app. right. left.
Qed.

(** The first walk computes the lower bounds. *)
Lemma CalculateLB_spec index : length index = length upper →
  StronglySorted (λ u u', ∀ l, l ∈ lower → 0 < cmp_op u l → 0 < cmp_op u' l) upper →
  CalculateLB upper lower cmp_op set_index index = Some (zip_with (λ x u, set_index x (lb_of u)) index upper).
Proof using Hu Hl.
  intros Hi Hs. apply (CalculateLB_loop_spec _ [] upper [] index [] lower); try done; [lia|]. by intros ? ? ? ?%elem_of_nil.
Qed.
End Calculate.

(** ** The second walk is the first one backwards *)

Section Mirror.
Context (upper lower : list FileMetaData) (cmp_op : FileMetaData → FileMetaData → Z) (set_index : IndexUnit → Z → IndexUnit).
Context (Hu : Zlen upper < 2 ^ 31) (Hl : Zlen lower < 2 ^ 31).
#[local] Abbreviation mirror_cmp := (λ u l, - cmp_op u l).
#[local] Abbreviation mirror_set := (λ x y, set_index x (Zlen lower - 1 - y)).
#[local] Abbreviation n := (Zlen upper).
#[local] Abbreviation m := (Zlen lower).

Lemma vec_at_mirror {A} (v : list A) i : 0 <= i < Zlen v → vec_at (reverse v) (Zlen v - 1 - i) = vec_at v i.
Proof using.
  clear Hu Hl. intros H. unfold vec_at, Zlen in *. rewrite !(proj2 (Z.leb_le 0 _)) by lia. rewrite reverse_lookup by lia. f_equal. lia.
Qed.
Lemma set_unit_mirror index i y : 0 <= i < Zlen index →
  set_unit set_index index i y = reverse <$> set_unit mirror_set (reverse index) (Zlen index - 1 - i) (m - 1 - y).
Proof using.
  clear Hu Hl. intros H. unfold set_unit. rewrite vec_at_mirror by done. destruct (vec_at index i) as [x|]; [|done]. cbn [mbind option_bind].
  replace (m - 1 - (m - 1 - y)) with y by lia. unfold vec_set, Zlen in *. rewrite length_reverse.
  rewrite !(proj2 (Z.leb_le 0 _)), !(proj2 (Z.ltb_lt _ _)) by lia. cbn [andb fmap option_fmap option_map].
  rewrite insert_reverse, reverse_involutive by lia. do 2 f_equal. lia.
Qed.
Lemma set_unit_length f index i y index' : set_unit f index i y = Some index' → length index' = length index.
Proof using.
  unfold set_unit, vec_set. destruct (vec_at index i); [|done]. cbn [mbind option_bind]. case_match; [|done].
  intros [= <-]. apply length_insert.
Qed.

Lemma CalculateRB_rest_mirror fuel : ∀ i index, -1 <= i < n → Zlen index = n →
  CalculateRB_rest set_index fuel i index =
  reverse <$> CalculateLB_rest (reverse upper) (reverse lower) mirror_set fuel (n - 1 - i) (reverse index).
Proof using Hu Hl.
  induction fuel as [|fuel IH]; intros i index Hi Hx; [done|]. cbn [CalculateRB_rest CalculateLB_rest].
  unfold Zlen in Hu, Hl. rewrite !int32_small by (unfold Zlen; rewrite length_reverse; lia).
  replace (Zlen (reverse upper)) with n by (unfold Zlen; by rewrite length_reverse).
  replace (Zlen (reverse lower)) with m by (unfold Zlen; by rewrite length_reverse).
  destruct (Z.leb_spec 0 i).
  - rewrite (proj2 (Z.ltb_lt _ _)), (set_unit_mirror index i (-1)), Hx by lia. replace (m - 1 - -1) with m by lia.
    destruct (set_unit mirror_set (reverse index) (n - 1 - i) m) as [index'|] eqn:E; [|done].
    cbn [fmap option_fmap option_map mbind option_bind]. rewrite IH, reverse_involutive; [do 2 f_equal; lia|lia|].
    apply set_unit_length in E. unfold Zlen in *. rewrite !length_reverse in *. lia.
  - rewrite (proj2 (Z.ltb_ge _ _)) by lia. cbn. by rewrite reverse_involutive.
Qed.
Lemma CalculateRB_loop_mirror fuel : ∀ i j index, -1 <= i < n → -1 <= j < m → Zlen index = n →
  (CalculateRB_loop upper lower cmp_op set_index fuel i j index ≫= λ '(i, index), CalculateRB_rest set_index (S (length upper)) i index) =
  reverse <$> (CalculateLB_loop (reverse upper) (reverse lower) mirror_cmp mirror_set fuel (n - 1 - i) (m - 1 - j) (reverse index)
    ≫= λ '(i, index), CalculateLB_rest (reverse upper) (reverse lower) mirror_set (S (length (reverse upper))) i index).
Proof using Hu Hl.
  induction fuel as [|fuel IH]; intros i j index Hi Hj Hx; [done|]. cbn [CalculateRB_loop CalculateLB_loop].
  unfold Zlen in Hu, Hl. rewrite !int32_small by (unfold Zlen; rewrite length_reverse; lia).
  replace (Zlen (reverse upper)) with n by (unfold Zlen; by rewrite length_reverse).
  replace (Zlen (reverse lower)) with m by (unfold Zlen; by rewrite length_reverse).
  replace (n - 1 - i <? n) with (0 <=? i) by lia. replace (m - 1 - j <? m) with (0 <=? j) by lia.
  destruct ((0 <=? i) && (0 <=? j)) eqn:E.
  - apply andb_prop in E as [Ei%Z.leb_le Ej%Z.leb_le]. rewrite (vec_at_mirror upper i), (vec_at_mirror lower j) by lia.
    destruct (vec_at upper i) as [u|]; [|done]. destruct (vec_at lower j) as [l|]; [|done]. cbn [mbind option_bind].
    rewrite (set_unit_mirror index i j), Hx by lia.
    replace (- cmp_op u l =? 0) with (cmp_op u l =? 0) by lia. replace (0 <? - cmp_op u l) with (cmp_op u l <? 0) by lia.
    destruct (cmp_op u l <? 0) eqn:Elt.
    { replace (cmp_op u l =? 0) with false by lia. rewrite IH by lia. do 3 f_equal. lia. }
    destruct (set_unit mirror_set (reverse index) (n - 1 - i) (m - 1 - j)) as [index'|] eqn:E; [|by case_match].
    apply set_unit_length in E. rewrite length_reverse in E.
    cbn [fmap option_fmap option_map mbind option_bind]. case_match;
      (rewrite IH, reverse_involutive; [do 3 f_equal; lia|lia|lia|unfold Zlen in *; rewrite length_reverse; lia]).
  - cbn [mbind option_bind]. rewrite length_reverse. by apply CalculateRB_rest_mirror.
Qed.

(** The second walk computes the upper bounds. *)
Lemma CalculateRB_spec index : length index = length upper →
  StronglySorted (λ u u', ∀ l, l ∈ lower → cmp_op u' l < 0 → cmp_op u l < 0) upper →
  CalculateRB upper lower cmp_op set_index index = Some (zip_with (λ x u, set_index x (rb_of lower cmp_op u)) index upper).
Proof using Hu Hl.
  intros Hi Hs. unfold CalculateRB. rewrite !int32_small by (unfold Zlen in *; lia).
  rewrite CalculateRB_loop_mirror by (unfold Zlen in *; lia).
  pose proof (CalculateLB_spec (reverse upper) (reverse lower) mirror_cmp mirror_set) as H. unfold CalculateLB in H.
  specialize (H ltac:(unfold Zlen in *; rewrite length_reverse; lia) ltac:(unfold Zlen in *; rewrite length_reverse; lia) (reverse index)).
  rewrite !length_reverse in H.
  replace (n - 1 - (n - 1)) with 0 by lia. replace (m - 1 - (m - 1)) with 0 by lia.
  rewrite length_reverse, H; [|done|].
  - cbn. rewrite zip_with_reverse, reverse_involutive by done. f_equal. apply zip_with_ext_r. intros x u _. f_equal.
    unfold rb_of, lb_of. do 2 f_equal. apply count_while_ext. intros l. lia.
  - apply StronglySorted_reverse in Hs. eapply StronglySorted_weaken; [|exact Hs].
    cbn. intros u u' H' l Hin. rewrite elem_of_reverse in Hin. specialize (H' l Hin). lia.
Qed.
End Mirror.

(** ** The bounds *)

Section Bounds.
Context (wf : bytes → Prop) (c : Comparator) `{!ComparatorLaws wf c}.
#[local] Abbreviation cmp := (CompareWithoutTimestamp c).
#[local] Existing Instance cl_no_ts.

(** The user keys of a file, and of the files of a level: in order, where the last
    key of a file can be the first of the next. *)
Record file_ordered (f : FileMetaData) : Prop := {
  fo_smallest : wf (smallest_user_key f);
  fo_largest : wf (largest_user_key f);
  fo_ordered : cmp (smallest_user_key f) (largest_user_key f) <= 0
}.
Record level_ordered (files : list FileMetaData) : Prop := {
  lo_files : ∀ f, f ∈ files → file_ordered f;
  lo_sorted : StronglySorted (λ a b, cmp (largest_user_key a) (smallest_user_key b) <= 0) files;
  lo_size : Zlen files < 2 ^ 31
}.

(** The lower files that end before a key, and those that do not start after it. *)
Definition key_lb (lower : list FileMetaData) (a : bytes) : Z := Z.of_nat (count_while (λ l, 0 <? cmp a (largest_user_key l)) lower).
Definition key_rb (lower : list FileMetaData) (b : bytes) : Z :=
  Zlen lower - 1 - Z.of_nat (count_while (λ l, cmp b (smallest_user_key l) <? 0) (reverse lower)).
Definition unit_of (lower : list FileMetaData) (u : FileMetaData) : IndexUnit :=
  mkIndexUnit (key_lb lower (smallest_user_key u)) (key_lb lower (largest_user_key u))
    (key_rb lower (smallest_user_key u)) (key_rb lower (largest_user_key u)).

Lemma key_le_trans a b d : wf a → wf b → wf d → cmp a b <= 0 → cmp b d <= 0 → cmp a d <= 0.
Proof using ComparatorLaws0. apply (cmp_le_trans (wf := wf) (cmp := cmp)). Qed.

(** Every bound grows along a level. *)
Lemma level_bounds_grow files : level_ordered files →
  StronglySorted (λ u u', file_ordered u ∧ file_ordered u' ∧ cmp (smallest_user_key u) (smallest_user_key u') <= 0 ∧
    cmp (largest_user_key u) (largest_user_key u') <= 0) files.
Proof using ComparatorLaws0.
  intros [Hf Hs _]. induction Hs as [|u files Hs IH Hu]; constructor.
  - apply IH. intros f Hin. apply Hf. by right.
  - rewrite Forall_forall in Hu |- *. intros u' Hin. destruct (Hf u ltac:(left)) as [H1 H2 H3], (Hf u' ltac:(by right)) as [H1' H2' H3'].
    specialize (Hu u' Hin). split_and!; [done..| |].
    + by apply (key_le_trans _ (largest_user_key u)).
    + by apply (key_le_trans _ (smallest_user_key u')).
Qed.

Lemma index_units_of_spec upper lower : level_ordered upper → level_ordered lower →
  index_units_of c upper lower = Some (map (unit_of lower) upper).
Proof using ComparatorLaws0.
  intros Hup Hlo. pose proof (level_bounds_grow upper Hup) as Hs. destruct Hup as [_ _ Hu], Hlo as [Hlf _ Hl].
  assert (∀ (f : FileMetaData → bytes) (g : FileMetaData → bytes), (∀ u u', file_ordered u → file_ordered u' →
      cmp (smallest_user_key u) (smallest_user_key u') <= 0 → cmp (largest_user_key u) (largest_user_key u') <= 0 →
      wf (f u) ∧ wf (f u') ∧ cmp (f u) (f u') <= 0) → (∀ l, file_ordered l → wf (g l)) →
    StronglySorted (λ u u', ∀ l, l ∈ lower → 0 < cmp (f u) (g l) → 0 < cmp (f u') (g l)) upper ∧
    StronglySorted (λ u u', ∀ l, l ∈ lower → cmp (f u') (g l) < 0 → cmp (f u) (g l) < 0) upper) as Hmono.
  { intros f g Hfu Hg. split; (eapply StronglySorted_weaken; [|exact Hs]); intros u u' (H1 & H2 & H3 & H4) l Hin Hc;
      destruct (Hfu u u' H1 H2 H3 H4) as (Wu & Wu' & Hle); specialize (Hg l (Hlf l Hin)).
    - apply (cmp_flip_lt (g l) (f u')); [done..|]. eapply (cmp_lt_le_trans (g l) (f u)); try done. by apply cmp_flip_lt.
    - by eapply (cmp_le_lt_trans (f u) (f u')). }
  unfold index_units_of. rewrite replicate_map.
  rewrite CalculateLB_spec; [|done|done|by rewrite length_map|apply (Hmono smallest_user_key largest_user_key); [by intros ?? [] []|by intros ? []]].
  cbn [mbind option_bind]. rewrite zip_with_map_self.
  rewrite CalculateLB_spec; [|done|done|by rewrite length_map|apply (Hmono largest_user_key largest_user_key); [by intros ?? [] []|by intros ? []]].
  cbn [mbind option_bind]. rewrite zip_with_map_self.
  rewrite CalculateRB_spec; [|done|done|by rewrite length_map|apply (Hmono smallest_user_key smallest_user_key); [by intros ?? [] []|by intros ? []]].
  cbn [mbind option_bind]. rewrite zip_with_map_self.
  rewrite CalculateRB_spec; [|done|done|by rewrite length_map|apply (Hmono largest_user_key smallest_user_key); [by intros ?? [] []|by intros ? []]].
  by rewrite zip_with_map_self.
Qed.

(** The files at the levels from 1 on are in order. *)
Definition levels_ordered (files : list (list FileMetaData)) : Prop :=
  ∀ l level, (1 <= l)%nat → files !! l = Some level → level_ordered level.

(** [index'] and [rb'] are [index] and [rb] with the levels from [l] on filled in. *)
Record levels_indexed (files : list (list FileMetaData)) (l n : nat) (index : list IndexLevel) (rb : list Z)
    (index' : list IndexLevel) (rb' : list Z) : Prop := {
  li_index : length index' = length index;
  li_rb : length rb' = length rb;
  li_outside : ∀ j, (j < l)%nat ∨ (l + n <= j)%nat → index' !! j = index !! j ∧ rb' !! j = rb !! j;
  li_inside : ∀ j upper lower, (l <= j < l + n)%nat → files !! j = Some upper → files !! S j = Some lower →
    rb' !! j = Some (Zlen upper - 1) ∧ (upper ≠ [] → index' !! j = Some (mkIndexLevel (Zlen upper) (map (unit_of lower) upper)))
}.
Lemma update_levels_spec files n : ∀ l index rb, levels_ordered files → (1 <= l)%nat → (l + n < length files)%nat →
  (l + n <= length index)%nat → (l + n <= length rb)%nat →
  ∃ index' rb', update_levels c n (Z.of_nat l) files index rb = Some (index', rb') ∧ levels_indexed files l n index rb index' rb'.
Proof using ComparatorLaws0.
  induction n as [|n IH]; intros l index rb Hf Hl Hfl Hi Hr; cbn [update_levels].
  { exists index, rb. split; [done|]. split; try done. lia. }
  destruct (lookup_lt_is_Some_2 files l) as [upper Eu]; [lia|]. destruct (lookup_lt_is_Some_2 files (S l)) as [lower El]; [lia|].
  assert (level_ordered upper) as Hu by (by apply (Hf l)). assert (level_ordered lower) as Hlo by (apply (Hf (S l)); [lia|done]).
  rewrite vec_at_nat, Eu. cbn [mbind option_bind]. replace (Z.of_nat l + 1) with (Z.of_nat (S l)) by lia. rewrite vec_at_nat, El.
  cbn [mbind option_bind]. pose proof (lo_size _ Hu). rewrite int32_small by (unfold Zlen in *; lia).
  rewrite vec_set_nat by lia. cbn [mbind option_bind].
  assert (∀ index1, length index1 = length index → (∀ j, j ≠ l → index1 !! j = index !! j) →
    (upper ≠ [] → index1 !! l = Some (mkIndexLevel (Zlen upper) (map (unit_of lower) upper))) →
    ∃ index' rb', update_levels c n (Z.of_nat (S l)) files index1 (<[l := Zlen upper - 1]> rb) = Some (index', rb') ∧
      levels_indexed files l (S n) index rb index' rb') as Hgoal.
  { intros index1 H1 H2 H3. destruct (IH (S l) index1 (<[l := Zlen upper - 1]> rb)) as (index' & rb' & E & [L1 L2 Hout Hin]);
      rewrite ?length_insert; try done; try lia.
    exists index', rb'. split; [exact E|]. rewrite length_insert in L2. split; [congruence|done| |].
    - intros j Hj. destruct (Hout j) as [-> ->]; [lia|]. rewrite H2, list_lookup_insert_ne by lia. done.
    - intros j upper' lower' Hj E1 E2. destruct (decide (j = l)) as [->|]; [|apply (Hin j); [lia|done..]].
      rewrite Eu in E1. rewrite El in E2. injection E1 as <-. injection E2 as <-.
      destruct (Hout l) as [-> ->]; [lia|]. rewrite list_lookup_insert_eq by lia. done. }
  destruct (Z.eqb_spec (Zlen upper) 0) as [E0|E0].
  - apply Hgoal; [done..|]. intros Hne. by apply Zlen_0_nil in E0.
  - rewrite (index_units_of_spec upper lower Hu Hlo). cbn [mbind option_bind]. rewrite vec_set_nat by lia. cbn [mbind option_bind].
    apply Hgoal; [apply length_insert|intros j Hj; by apply list_lookup_insert_ne|]. intros _. apply list_lookup_insert_eq. lia.
Qed.

(** What the index holds of the first [k] levels. *)
Record indexes (t : t) (files : list (list FileMetaData)) (k : nat) : Prop := {
  ix_levels : num_levels_ t = Z.of_nat k;
  ix_small : Z.of_nat k < 2 ^ 32;
  ix_rb : ∃ rb, level_rb_ t = Some rb ∧ ∀ l level, (1 <= l < k)%nat → files !! l = Some level → rb !! l = Some (Zlen level - 1);
  ix_units : ∀ l upper lower, (1 <= l)%nat → (S l < k)%nat → files !! l = Some upper → files !! S l = Some lower → upper ≠ [] →
    next_level_index_ t !! l = Some (mkIndexLevel (Zlen upper) (map (unit_of lower) upper))
}.
Lemma UpdateIndex_spec files k : levels_ordered files → (1 < k <= length files)%nat → Z.of_nat k < 2 ^ 32 →
  ∃ t, UpdateIndex c New (Z.of_nat k) files = Some t ∧ indexes t files k.
Proof using ComparatorLaws0.
  intros Hf Hk Hk32. unfold UpdateIndex. rewrite (proj2 (Z.eqb_neq _ _)) by lia. cbn [New level_rb_ assertion mbind option_bind].
  replace (Z.to_nat (Z.of_nat k - 1) - 1)%nat with (k - 2)%nat by lia. rewrite Nat2Z.id.
  destruct (update_levels_spec files (k - 2) 1 (resize k NewIndexLevel (next_level_index_ New)) (replicate k (-1)))
    as (index & rb & E & [_ L2 _ Hin]); rewrite ?length_resize, ?length_replicate; try done; try lia.
  rewrite length_replicate in L2.
  change (Z.of_nat 1) with 1 in E. rewrite E. cbn [mbind option_bind].
  destruct (lookup_lt_is_Some_2 files (k - 1)) as [last El]; [lia|].
  replace (Z.of_nat k - 1) with (Z.of_nat (k - 1)) by lia. rewrite vec_at_nat, El. cbn [mbind option_bind].
  rewrite vec_set_nat by lia. eexists. split; [done|]. split; cbn [num_levels_ level_rb_ next_level_index_]; [done..| |].
  - eexists. split; [done|]. intros l level Hl Hlv. destruct (decide (l = k - 1)%nat) as [->|].
    + rewrite El in Hlv. injection Hlv as <-. rewrite list_lookup_insert_eq by lia.
      assert (Zlen last < 2 ^ 31) by (apply lo_size, (Hf (k - 1)%nat); [lia|done]). rewrite int32_small by (unfold Zlen in *; lia). done.
    + rewrite list_lookup_insert_ne by lia. destruct (lookup_lt_is_Some_2 files (S l)) as [lower E']; [lia|].
      apply (Hin l level lower); [lia|done..].
  - intros l upper lower Hl Hlk E1 E2 Hne. by apply (Hin l upper lower); [lia|..].
Qed.

(** Bounds for a key leave out only files that end before it or start after it. *)
Record bounds_ok (lower : list FileMetaData) (key : bytes) (left right : Z) : Prop := {
  bo_range : 0 <= left <= right + 1 ∧ right + 1 <= Zlen lower;
  bo_left : ∀ j f, lower !! j = Some f → Z.of_nat j < left → 0 < cmp key (largest_user_key f);
  bo_right : ∀ j f, lower !! j = Some f → right < Z.of_nat j → cmp key (smallest_user_key f) < 0
}.

Lemma key_lb_spec lower a : 0 <= key_lb lower a <= Zlen lower ∧
  ∀ j f, lower !! j = Some f → Z.of_nat j < key_lb lower a → 0 < cmp a (largest_user_key f).
Proof using.
  unfold key_lb, Zlen. pose proof (count_while_le (λ l, 0 <? cmp a (largest_user_key l)) lower). split; [lia|].
  intros j f Hj Hlt. apply Z.ltb_lt. by apply (count_while_before (λ l, 0 <? cmp a (largest_user_key l)) lower j f Hj); lia.
Qed.
Lemma key_rb_spec lower b : -1 <= key_rb lower b < Zlen lower ∧
  ∀ j f, lower !! j = Some f → key_rb lower b < Z.of_nat j → cmp b (smallest_user_key f) < 0.
Proof using.
  unfold key_rb, Zlen. pose proof (count_while_le (λ l, cmp b (smallest_user_key l) <? 0) (reverse lower)) as H. rewrite length_reverse in H.
  split; [lia|]. intros j f Hj Hlt. pose proof (lookup_lt_Some _ _ _ Hj). apply Z.ltb_lt.
  apply (count_while_before (λ l, cmp b (smallest_user_key l) <? 0) (reverse lower) (length lower - S j) f); [|lia].
  rewrite reverse_lookup by lia. rewrite <- Hj. f_equal. lia.
Qed.

(** Bounds from a key that is not above, or none, and from one that is not below. *)
Lemma bounds_between lower key left right : level_ordered lower → wf key →
  left = 0 ∨ (∃ a, wf a ∧ cmp a key <= 0 ∧ left = key_lb lower a) →
  right = Zlen lower - 1 ∨ (∃ b, wf b ∧ cmp key b <= 0 ∧ right = key_rb lower b) → bounds_ok lower key left right.
Proof using ComparatorLaws0.
  intros [Hf _ _] Hk Hleft Hright.
  assert (0 <= left <= Zlen lower ∧ ∀ j f, lower !! j = Some f → Z.of_nat j < left → 0 < cmp key (largest_user_key f)) as [Hl1 Hl2].
  { destruct Hleft as [-> |(a & Ha & Hc & ->)]; [split; [unfold Zlen; lia|intros; lia]|]. destruct (key_lb_spec lower a) as [H1 H2]. split; [done|].
    intros j f Hj Hlt. specialize (H2 j f Hj Hlt). apply list_elem_of_lookup_2, Hf in Hj as [_ Hw _].
    apply cmp_flip_lt in H2; [|done..]. apply cmp_flip_lt; [done..|]. by apply (cmp_lt_le_trans _ a). }
  assert (-1 <= right < Zlen lower ∧ ∀ j f, lower !! j = Some f → right < Z.of_nat j → cmp key (smallest_user_key f) < 0) as [Hr1 Hr2].
  { destruct Hright as [-> |(b & Hb & Hc & ->)].
    - split; [unfold Zlen; lia|]. intros j f Hj%lookup_lt_Some. unfold Zlen. lia.
    - destruct (key_rb_spec lower b) as [H1 H2]. split; [done|]. intros j f Hj Hlt. specialize (H2 j f Hj Hlt).
      apply list_elem_of_lookup_2, Hf in Hj as [Hw _ _]. by apply (cmp_le_lt_trans _ b). }
  split; [|done..]. split; [|lia]. split; [lia|]. destruct (Z_le_gt_dec left (right + 1)) as [|Hgt]; [done|exfalso].
  destruct (lookup_lt_is_Some_2 lower (Z.to_nat (right + 1))) as [f Ef]; [unfold Zlen in *; lia|].
  specialize (Hl2 _ _ Ef ltac:(lia)). specialize (Hr2 _ _ Ef ltac:(lia)). apply list_elem_of_lookup_2, Hf in Ef as [W1 W2 Hle].
  pose proof (cmp_lt_le_trans key _ _ Hk W1 W2 Hr2 Hle). lia.
Qed.

(** The bounds after a file of a level has been compared with a key. A smaller key
    is not below the file before. *)
Lemma GetNextLevelIndex_spec t files k l level i f key cl : indexes t files k → levels_ordered files → (1 <= l < k)%nat →
  (k <= length files)%nat → wf key → files !! l = Some level → level !! i = Some f →
  let cs := cmp key (smallest_user_key f) in (0 <= cs → cl = cmp key (largest_user_key f)) →
  (cs < 0 → ∀ j g, i = S j → level !! j = Some g → 0 <= cmp key (largest_user_key g)) →
  ∃ left right, GetNextLevelIndex t (Z.of_nat l) (Z.of_nat i) cs cl = Some (left, right) ∧
    ∀ lower, files !! S l = Some lower → (S l < k)%nat → bounds_ok lower key left right.
Proof using ComparatorLaws0.
  intros [Hn Hk32 (rb & Erb & Hrb) Hunits] Hf Hl Hk Hkey Elv Ei cs Hcl Hprev. unfold GetNextLevelIndex.
  rewrite Hn, Erb, wrap_small by (unfold is_u; lia). rewrite (proj2 (Z.ltb_lt 0 _)) by lia. cbn [assertion mbind option_bind].
  destruct (Z.eqb_spec (Z.of_nat l) (Z.of_nat k - 1)). { exists 0, (-1). split; [done|]. intros. lia. }
  rewrite (proj2 (Z.ltb_lt (Z.of_nat l) (Z.of_nat k - 1))) by lia. cbn [assertion mbind option_bind].
  assert (level_ordered level) as Hlevel by (apply (Hf l); [lia|done]). pose proof (lo_size _ Hlevel). pose proof (lookup_lt_Some _ _ _ Ei).
  rewrite (vec_at_nat rb), (Hrb l level), int32_small by (first [done|lia|unfold Zlen in *; lia]). cbn [mbind option_bind].
  rewrite (proj2 (Z.leb_le _ _)) by (unfold Zlen in *; lia). cbn [assertion mbind option_bind].
  destruct (lookup_lt_is_Some_2 files (S l)) as [lower El]; [lia|]. assert (level_ordered lower) as Hlower by (apply (Hf (S l)); [lia|done]).
  rewrite (vec_at_nat (next_level_index_ t)), (Hunits l level lower); [|lia..|done|done|by intros ->]. cbn [mbind option_bind index_units].
  rewrite vec_at_nat, list_lookup_fmap, Ei. cbn [fmap option_fmap option_map mbind option_bind].
  replace (Z.of_nat l + 1) with (Z.of_nat (S l)) by lia. rewrite (vec_at_nat rb), (Hrb (S l) lower); [|lia|done]. cbn [mbind option_bind].
  set (bounds := if cs <? 0 then _ else _).
  assert (∃ left right, bounds = Some (left, right) ∧ bounds_ok lower key left right) as (left & right & -> & Hb).
  { pose proof (lo_files _ Hlevel f (list_elem_of_lookup_2 _ _ _ Ei)) as [Ws Wl _].
    assert (cs <= 0 → cmp key (smallest_user_key f) <= 0) by done. assert (0 <= cs → cmp (smallest_user_key f) key <= 0) by (by apply cmp_flip_le).
    assert (0 <= cs → 0 <= cl → cmp (largest_user_key f) key <= 0) by (intros ? Hc; rewrite Hcl in Hc by done; by apply cmp_flip_le).
    assert (0 <= cs → cl <= 0 → cmp key (largest_user_key f) <= 0) by (intros ? Hc; by rewrite Hcl in Hc).
    unfold bounds. destruct (Z.ltb_spec cs 0); [|repeat case_match; (eexists _, _; split; [done|apply bounds_between; eauto 6 with lia])].
    destruct i as [|j].
    - eexists _, _. split; [done|]. apply bounds_between; eauto 6 with lia.
    - destruct (lookup_lt_is_Some_2 level j) as [g Eg]; [lia|]. rewrite (proj2 (Z.ltb_lt 0 (Z.of_nat (S j)))) by lia. cbn [andb].
      replace (Z.of_nat (S j) - 1) with (Z.of_nat j) by lia. rewrite vec_at_nat, list_lookup_fmap, Eg. eexists _, _. split; [done|].
      pose proof (lo_files _ Hlevel g (list_elem_of_lookup_2 _ _ _ Eg)) as [_ Wg _].
      apply bounds_between; [done..| |eauto 6 with lia]. right. eexists. split_and!; [exact Wg| |done].
      apply cmp_flip_le; [done..|]. eauto. }
  pose proof (bo_range _ _ _ _ Hb). cbn [mbind option_bind]. rewrite !(proj2 (Z.leb_le _ _)) by lia. cbn [assertion mbind option_bind].
  exists left, right. split; [done|]. intros lower' E _. congruence.
Qed.
End Bounds.
