(* ===== verification/VersionStorage.v ===== *)
(** * The files of a version

    The part of [VersionStorageInfo] (db/version_set.h, db/version_set.cc) that a
    version builder reads and fills: the table files of each level, the index of
    their locations, the blob files (db/blob/blob_file_meta.h) and the compaction
    cursors; the orders on files (db/version_builder.h, db/version_builder.cc); and
    the consistency checks of the builder. The statistics and what is computed for
    the compaction picker are left out. *)

From S2P Require Import Prelude SortedLists Status Comparator DbFormat WalEdit VersionEdit.
From stdpp Require Import gmap pretty.
#[local] Open Scope Z_scope.

Definition file_number (f : FileMetaData) : Z := GetNumber (fd f).

(** ** Blob files *)

Module BlobFileMetaData.
(** [SharedBlobFileMetaData] has the fields of the record that adds the file. *)
Record t := mk {
  shared_meta_ : BlobFileAddition;
  linked_ssts_ : gset Z;
  garbage_blob_count_ : Z;
  garbage_blob_bytes_ : Z
}.
Definition GetBlobFileNumber (m : t) : Z := blob_file_number_ (shared_meta_ m).
Definition GetTotalBlobCount (m : t) : Z := total_blob_count_ (shared_meta_ m).
End BlobFileMetaData.

(** ** The storage *)

Inductive EpochNumberRequirement := kMightMissing | kMustPresent.

Record VersionStorageInfo := mkVersionStorageInfo {
  files_ : list (list FileMetaData);
  file_locations_ : gmap Z (Z * Z);
  blob_files_ : list BlobFileMetaData.t;
  compact_cursor_ : list bytes;
  force_consistency_checks_ : bool;
  epoch_number_requirement_ : EpochNumberRequirement
}.
Definition set_files (v : VersionStorageInfo) (x : list (list FileMetaData)) : VersionStorageInfo :=
  mkVersionStorageInfo x (file_locations_ v) (blob_files_ v) (compact_cursor_ v) (force_consistency_checks_ v) (epoch_number_requirement_ v).
Definition set_locations (v : VersionStorageInfo) (x : gmap Z (Z * Z)) : VersionStorageInfo :=
  mkVersionStorageInfo (files_ v) x (blob_files_ v) (compact_cursor_ v) (force_consistency_checks_ v) (epoch_number_requirement_ v).
Definition set_blob_files (v : VersionStorageInfo) (x : list BlobFileMetaData.t) : VersionStorageInfo :=
  mkVersionStorageInfo (files_ v) (file_locations_ v) x (compact_cursor_ v) (force_consistency_checks_ v) (epoch_number_requirement_ v).
Definition set_cursors (v : VersionStorageInfo) (x : list bytes) : VersionStorageInfo :=
  mkVersionStorageInfo (files_ v) (file_locations_ v) (blob_files_ v) x (force_consistency_checks_ v) (epoch_number_requirement_ v).
Definition SetEpochNumberRequirement (v : VersionStorageInfo) (x : EpochNumberRequirement) : VersionStorageInfo :=
  mkVersionStorageInfo (files_ v) (file_locations_ v) (blob_files_ v) (compact_cursor_ v) (force_consistency_checks_ v) x.

(** A new storage takes the cursors of the one before it. *)
Definition NewVersionStorageInfo (levels : nat) (ref_vstorage : option VersionStorageInfo) (force : bool)
    (requirement : EpochNumberRequirement) : VersionStorageInfo :=
  let cursors := match ref_vstorage with Some ref => compact_cursor_ ref | None => [] end in
  mkVersionStorageInfo (replicate levels []) ∅ [] (take levels cursors ++ replicate (levels - length cursors) []) force requirement.

Definition num_levels (v : VersionStorageInfo) : Z := Z.of_nat (length (files_ v)).
Definition LevelFiles (v : VersionStorageInfo) (level : Z) : list FileMetaData := default [] (files_ v !! Z.to_nat level).
Definition AddFileTo (v : VersionStorageInfo) (level : Z) (f : FileMetaData) : VersionStorageInfo :=
  set_files v (alter (λ files, files ++ [f]) (Z.to_nat level) (files_ v)).
Definition AddBlobFileTo (v : VersionStorageInfo) (m : BlobFileMetaData.t) : VersionStorageInfo :=
  set_blob_files v (blob_files_ v ++ [m]).
Definition AddCursorForOneLevel (v : VersionStorageInfo) (level : Z) (key : bytes) : VersionStorageInfo :=
  set_cursors v (<[Z.to_nat level := key]> (compact_cursor_ v)).
Definition HasMissingEpochNumber (v : VersionStorageInfo) : bool :=
  existsb (λ files, existsb (λ f, epoch_number f =? kUnknownEpochNumber) files) (files_ v).

(** [GenerateFileLocationIndex]: [emplace] keeps the first location of a number. *)
Definition emplace {A} (k : Z) (x : A) (m : gmap Z A) : gmap Z A := match m !! k with Some _ => m | None => <[k := x]> m end.
Fixpoint locate_files (level pos : Z) (files : list FileMetaData) (m : gmap Z (Z * Z)) : gmap Z (Z * Z) :=
  match files with
  | [] => m
  | f :: files => locate_files level (pos + 1) files (emplace (file_number f) (level, pos) m)
  end.
Fixpoint locate_levels (level : Z) (levels : list (list FileMetaData)) (m : gmap Z (Z * Z)) : gmap Z (Z * Z) :=
  match levels with
  | [] => m
  | files :: levels => locate_levels (level + 1) levels (locate_files level 0 files m)
  end.
Definition GenerateFileLocationIndex (v : VersionStorageInfo) : VersionStorageInfo :=
  set_locations v (locate_levels 0 (files_ v) (file_locations_ v)).

(** [FileLocation::Invalid().GetLevel()] *)
Definition kInvalidLevel : Z := -1.
Definition GetFileLevel (v : VersionStorageInfo) (number : Z) : Z :=
  match file_locations_ v !! number with Some (level, _) => level | None => kInvalidLevel end.
Definition GetFileMetaDataByNumber (v : VersionStorageInfo) (number : Z) : option FileMetaData :=
  '(level, pos) ← file_locations_ v !! number; LevelFiles v level !! Z.to_nat pos.

(** The blob files from a number on, and the one of a number. *)
Definition GetBlobFileMetaDataLB (v : VersionStorageInfo) (number : Z) : list BlobFileMetaData.t :=
  drop (count_while (λ m, BlobFileMetaData.GetBlobFileNumber m <? number) (blob_files_ v)) (blob_files_ v).
Definition GetBlobFileMetaData (v : VersionStorageInfo) (number : Z) : option BlobFileMetaData.t :=
  match GetBlobFileMetaDataLB v number with
  | m :: _ => if BlobFileMetaData.GetBlobFileNumber m =? number then Some m else None
  | [] => None
  end.

(** ** Orders on files *)

Definition NewestFirstBySeqNo (lhs rhs : FileMetaData) : bool :=
  if negb (largest_seqno (fd lhs) =? largest_seqno (fd rhs)) then largest_seqno (fd rhs) <? largest_seqno (fd lhs)
  else if negb (smallest_seqno (fd lhs) =? smallest_seqno (fd rhs)) then smallest_seqno (fd rhs) <? smallest_seqno (fd lhs)
  else file_number rhs <? file_number lhs.
Definition NewestFirstByEpochNumber (lhs rhs : FileMetaData) : bool :=
  if negb (epoch_number lhs =? epoch_number rhs) then epoch_number rhs <? epoch_number lhs
  else NewestFirstBySeqNo lhs rhs.

(** Table files by the blob file they refer to. *)
Abbreviation ExpectedLinkedSsts := (gmap Z (gset Z)).

Section Consistency.
Context (ucmp : Comparator).
#[local] Abbreviation icmp := (InternalKeyComparator.Compare ucmp).

Definition BySmallestKey (lhs rhs : FileMetaData) : bool :=
  let r := icmp (smallest lhs) (smallest rhs) in
  if negb (r =? 0) then r <? 0 else file_number lhs <? file_number rhs.

(** ** Consistency checks

    The messages are shortened: of the files only the numbers are kept. As in a
    release build, the checks run only if they are forced. *)

Definition UpdateExpectedLinkedSsts (table_file_number blob_file_number : Z) (expected : ExpectedLinkedSsts) : ExpectedLinkedSsts :=
  if blob_file_number =? kInvalidBlobFileNumber then expected
  else <[blob_file_number := {[ table_file_number ]} ∪ default ∅ (expected !! blob_file_number)]> expected.

Fixpoint check_pairs (checker : FileMetaData → FileMetaData → Status) (lhs : FileMetaData) (files : list FileMetaData)
    (expected : ExpectedLinkedSsts) : Status * ExpectedLinkedSsts :=
  match files with
  | [] => (Status_OK, expected)
  | rhs :: files =>
      let expected := UpdateExpectedLinkedSsts (file_number rhs) (oldest_blob_file_number rhs) expected in
      let s := checker lhs rhs in
      if ok s then check_pairs checker rhs files expected else (s, expected)
  end.
Definition CheckConsistencyDetailsForLevel (v : VersionStorageInfo) (level : Z) (checker : FileMetaData → FileMetaData → Status)
    (expected : ExpectedLinkedSsts) : Status * ExpectedLinkedSsts :=
  match LevelFiles v level with
  | [] => (Status_OK, expected)
  | f :: files => check_pairs checker f files (UpdateExpectedLinkedSsts (file_number f) (oldest_blob_file_number f) expected)
  end.

Definition two_files (msg : string) (lhs rhs : FileMetaData) : Status :=
  Corruption2 "VersionBuilder" (msg +:+ pretty (file_number lhs) +:+ ", #" +:+ pretty (file_number rhs)).
Definition l0_checker (requirement : EpochNumberRequirement) (lhs rhs : FileMetaData) : Status :=
  match requirement with
  | kMightMissing =>
      if negb (NewestFirstBySeqNo lhs rhs) then two_files "L0 files are not sorted properly: files #" lhs rhs else Status_OK
  | kMustPresent =>
      let range_overlapped := (icmp (smallest lhs) (largest rhs) <=? 0) && (0 <=? icmp (largest lhs) (smallest rhs)) in
      if (epoch_number lhs =? epoch_number rhs) && range_overlapped then
        two_files "L0 files of same epoch number but overlapping range #" lhs rhs
      else if negb (NewestFirstByEpochNumber lhs rhs) then two_files "L0 files are not sorted properly: files #" lhs rhs
      else Status_OK
  end.
Definition level_checker (level : Z) (lhs rhs : FileMetaData) : Status :=
  if negb (BySmallestKey lhs rhs) then
    two_files ("L" +:+ pretty level +:+ " files are not sorted properly: files #") lhs rhs
  else if 0 <=? icmp (largest lhs) (smallest rhs) then
    two_files ("L" +:+ pretty level +:+ " has overlapping ranges: file #") lhs rhs
  else Status_OK.

Fixpoint check_levels (v : VersionStorageInfo) (level : Z) (n : nat) (expected : ExpectedLinkedSsts) : Status * ExpectedLinkedSsts :=
  match n with
  | O => (Status_OK, expected)
  | S n =>
      let '(s, expected) := CheckConsistencyDetailsForLevel v level (level_checker level) expected in
      if ok s then check_levels v (level + 1) n expected else (s, expected)
  end.
Fixpoint check_blob_files (expected : ExpectedLinkedSsts) (metas : list BlobFileMetaData.t) : Status :=
  match metas with
  | [] => Status_OK
  | m :: metas =>
      let number := BlobFileMetaData.GetBlobFileNumber m in
      if BlobFileMetaData.GetTotalBlobCount m <=? BlobFileMetaData.garbage_blob_count_ m then
        Corruption2 "VersionBuilder" ("Blob file #" +:+ pretty number +:+ " consists entirely of garbage")
      else if negb (bool_decide (BlobFileMetaData.linked_ssts_ m = default ∅ (expected !! number))) then
        Corruption2 "VersionBuilder" ("Links are inconsistent between table files and blob file #" +:+ pretty number)
      else check_blob_files expected metas
  end.
Definition CheckConsistencyDetails (levels : Z) (v : VersionStorageInfo) : Status :=
  let '(s, expected) :=
    if 0 <? levels then
      let '(s, expected) := CheckConsistencyDetailsForLevel v 0 (l0_checker (epoch_number_requirement_ v)) ∅ in
      if ok s then check_levels v 1 (Z.to_nat (levels - 1)) expected else (s, expected)
    else (Status_OK, ∅) in
  if ok s then check_blob_files expected (blob_files_ v) else s.

Definition CheckConsistency (levels : Z) (v : VersionStorageInfo) : Status :=
  if negb (force_consistency_checks_ v) then Status_OK
  else
    let s := CheckConsistencyDetails levels v in
    if IsCorruption s then Corruption2 "force_consistency_checks" (state_ s) else s.
End Consistency.
