(* ===== verification/VersionStorageCorrect.v ===== *)
(** * Versions as sets of files

    A version as a map from the numbers of its table files to their levels and
    metadata; the orders on files; and what the consistency checks establish. *)

From S2P Require Import Prelude Coding SortedLists Status Comparator DbFormat WalEdit VersionEdit VersionStorage.
From stdpp Require Import gmap.
From Stdlib Require Import Sorting.Sorted.
#[local] Open Scope Z_scope.

(** ** The table files of a version *)

Abbreviation Lsm := (gmap Z (Z * FileMetaData)).

Fixpoint located (level : Z) (levels : list (list FileMetaData)) : list (Z * (Z * FileMetaData)) :=
  match levels with
  | [] => []
  | files :: levels => map (λ f, (file_number f, (level, f))) files ++ located (level + 1) levels
  end.
Definition lsm_of (v : VersionStorageInfo) : Lsm := list_to_map (located 0 (files_ v)).

(** The index has been generated, and no number occurs twice. *)
Record storage_ok (v : VersionStorageInfo) : Prop := {
  so_numbers : NoDup (map fst (located 0 (files_ v)));
  so_index : file_locations_ v = locate_levels 0 (files_ v) ∅
}.

Lemma elem_of_located level levels n l f :
  (n, (l, f)) ∈ located level levels ↔
  n = file_number f ∧ level <= l ∧ ∃ files, levels !! Z.to_nat (l - level) = Some files ∧ f ∈ files.
Proof.
  revert level. induction levels as [|files levels IH]; intros level; cbn [located].
  - split; [by intros ?%elem_of_nil|]. intros (_ & _ & ? & ? & _). done.
  - rewrite elem_of_app, IH. split.
    + intros [(f' & [= -> -> ->] & Hf)%list_elem_of_fmap|(-> & Hl & fs & Hfs & Hf)].
      * rewrite Z.sub_diag. split_and!; [done|lia|by exists files].
      * split_and!; [done|lia|]. exists fs. replace (Z.to_nat (l - level)) with (S (Z.to_nat (l - (level + 1)))) by lia. done.
    + intros (-> & Hl & fs & Hfs & Hf). destruct (Z.eq_dec l level) as [->|Hne].
      * left. rewrite Z.sub_diag in Hfs. injection Hfs as <-. apply list_elem_of_fmap. by exists f.
      * right. split_and!; [done|lia|]. exists fs. replace (Z.to_nat (l - level)) with (S (Z.to_nat (l - (level + 1)))) in Hfs by lia. done.
Qed.

Lemma lsm_of_lookup v n l f : NoDup (map fst (located 0 (files_ v))) →
  lsm_of v !! n = Some (l, f) ↔ n = file_number f ∧ 0 <= l ∧ f ∈ LevelFiles v l.
Proof.
  intros Hn. unfold lsm_of. rewrite <- elem_of_list_to_map by done. rewrite elem_of_located, Z.sub_0_r. unfold LevelFiles.
  split.
  - intros (-> & Hl & files & -> & Hf). done.
  - intros (-> & Hl & Hf). destruct (files_ v !! Z.to_nat l) as [files|]; [|by apply elem_of_nil in Hf]. split_and!; eauto.
Qed.

(** ** The index *)

Lemma emplace_spec {A} k (x : A) m : m !! k = None → emplace k x m = <[k := x]> m.
Proof. intros E. unfold emplace. by rewrite E. Qed.
Lemma emplace_lookup_ne {A} k (x : A) m k' : k ≠ k' → emplace k x m !! k' = m !! k'.
Proof. intros Hne. unfold emplace. destruct (m !! k); [done|]. by rewrite lookup_insert_ne. Qed.

Lemma locate_files_other level pos files m n : n ∉ map file_number files → locate_files level pos files m !! n = m !! n.
Proof.
  revert pos m. induction files as [|x files IH]; intros pos m Hn; [done|]. cbn [map] in Hn. apply not_elem_of_cons in Hn as [Hx Hn].
  cbn [locate_files]. by rewrite IH, emplace_lookup_ne by done.
Qed.
Lemma locate_files_at level pos files m i f : NoDup (map file_number files) → (∀ f, f ∈ files → m !! file_number f = None) →
  files !! i = Some f → locate_files level pos files m !! file_number f = Some (level, pos + Z.of_nat i).
Proof.
  revert pos m i. induction files as [|x files IH]; intros pos m i Hn Hm Hi; [done|]. cbn [map] in Hn. apply NoDup_cons in Hn as [Hx Hn].
  cbn [locate_files]. rewrite emplace_spec by (apply Hm; left). destruct i as [|i]; cbn in Hi.
  - injection Hi as ->. by rewrite locate_files_other, lookup_insert_eq, Z.add_0_r by done.
  - rewrite (IH (pos + 1) _ i Hn); [f_equal; f_equal; lia| |done]. intros y Hy. rewrite lookup_insert_ne; [apply Hm; by right|].
    intros E. apply Hx. rewrite E. apply list_elem_of_fmap. eauto.
Qed.

Lemma located_fst level files levels :
  map fst (located level (files :: levels)) = map file_number files ++ map fst (located (level + 1) levels).
Proof. cbn [located]. rewrite map_app, map_map. done. Qed.

Lemma locate_levels_other level levels m n : n ∉ map fst (located level levels) → locate_levels level levels m !! n = m !! n.
Proof.
  revert level m. induction levels as [|files levels IH]; intros level m Hn; [done|]. rewrite located_fst in Hn.
  apply not_elem_of_app in Hn as [Hf Hl]. cbn [locate_levels]. by rewrite IH, locate_files_other by done.
Qed.
Lemma locate_levels_at level levels m i files j f : NoDup (map fst (located level levels)) →
  (∀ n, n ∈ map fst (located level levels) → m !! n = None) → levels !! i = Some files → files !! j = Some f →
  locate_levels level levels m !! file_number f = Some (level + Z.of_nat i, Z.of_nat j).
Proof.
  revert level m i. induction levels as [|x levels IH]; intros level m i Hn Hm Hi Hj; [done|]. rewrite located_fst in Hn, Hm.
  apply NoDup_app in Hn as (Hx & Hd & Hl). cbn [locate_levels]. destruct i as [|i]; cbn in Hi.
  - injection Hi as ->. assert (file_number f ∈ map file_number files) as Hf by (apply list_elem_of_fmap; exists f; split; [done|by apply list_elem_of_lookup_2 in Hj]).
    rewrite locate_levels_other by by apply Hd. rewrite (locate_files_at _ _ _ _ j); [f_equal; f_equal; lia|done| |done].
    intros y Hy. apply Hm. rewrite elem_of_app. left. apply list_elem_of_fmap. eauto.
  - rewrite (IH (level + 1) _ i Hl); [f_equal; f_equal; lia| |done..]. intros n Hn.
    rewrite locate_files_other by (intros ?; by apply (Hd n)). apply Hm. rewrite elem_of_app. by right.
Qed.

Section Storage.
Context (v : VersionStorageInfo) (Hv : storage_ok v).

Lemma lookup_location l j f : 0 <= l → LevelFiles v l !! j = Some f → file_locations_ v !! file_number f = Some (l, Z.of_nat j).
Proof using Hv.
  intros Hl Hj. unfold LevelFiles in Hj. destruct (files_ v !! Z.to_nat l) as [files|] eqn:E; [|done].
  rewrite (so_index v Hv), (locate_levels_at 0 _ ∅ (Z.to_nat l) files j f); try done; [|apply (so_numbers v Hv)].
  f_equal. f_equal. lia.
Qed.
Lemma location_none n : lsm_of v !! n = None → file_locations_ v !! n = None.
Proof using Hv.
  intros Hn. rewrite (so_index v Hv), locate_levels_other; [done|].
  intros Hin. apply not_elem_of_list_to_map in Hn. by apply Hn.
Qed.

Lemma GetFileLevel_lsm n : GetFileLevel v n = match lsm_of v !! n with Some (l, _) => l | None => kInvalidLevel end.
Proof using Hv.
  unfold GetFileLevel. destruct (lsm_of v !! n) as [[l f]|] eqn:E; [|by rewrite location_none].
  apply lsm_of_lookup in E as (-> & Hl & Hf); [|apply (so_numbers v Hv)]. apply list_elem_of_lookup_1 in Hf as [j Hj].
  by rewrite (lookup_location l j f).
Qed.
Lemma GetFileMetaDataByNumber_lsm n : GetFileMetaDataByNumber v n = snd <$> lsm_of v !! n.
Proof using Hv.
  unfold GetFileMetaDataByNumber. destruct (lsm_of v !! n) as [[l f]|] eqn:E; [|by rewrite location_none].
  apply lsm_of_lookup in E as (-> & Hl & Hf); [|apply (so_numbers v Hv)]. apply list_elem_of_lookup_1 in Hf as [j Hj].
  rewrite (lookup_location l j f) by done. cbn. by rewrite Nat2Z.id.
Qed.
End Storage.

(** ** Orders on files

    A strict order, total on files with different numbers. *)
Class FileOrder (P : FileMetaData → Prop) (cmp : FileMetaData → FileMetaData → bool) : Prop := {
  fo_asym : ∀ a b, P a → P b → cmp a b = true → cmp b a = false;
  fo_trans : ∀ a b c, P a → P b → P c → cmp b a = false → cmp c b = false → cmp c a = false;
  fo_total : ∀ a b, P a → P b → file_number a ≠ file_number b → cmp a b = false → cmp b a = true
}.

Section FileOrder.
Context {P cmp} `{!FileOrder P cmp}.
Lemma fo_lt_trans a b c : P a → P b → P c → cmp a b = true → cmp b c = true → cmp a c = true.
Proof.
  intros Ha Hb Hc Hab Hbc. destruct (cmp a c) eqn:E; [done|exfalso].
  pose proof (fo_trans c a b Hc Ha Hb E (fo_asym _ _ Ha Hb Hab)). pose proof (fo_asym _ _ Hb Hc Hbc). congruence.
Qed.
Lemma fo_strict a b : P a → P b → file_number a ≠ file_number b → cmp b a = false → cmp a b = true.
Proof. intros Ha Hb Hne H. by apply (fo_total b a). Qed.
End FileOrder.

#[export] Instance NewestFirstBySeqNo_order : FileOrder (λ _, True) NewestFirstBySeqNo.
Proof. split; intros *; unfold NewestFirstBySeqNo; repeat case_match; try lia; congruence. Qed.
#[export] Instance NewestFirstByEpochNumber_order : FileOrder (λ _, True) NewestFirstByEpochNumber.
Proof.
  split; intros *; intros ??; unfold NewestFirstByEpochNumber.
  - pose proof (fo_asym a b I I). repeat case_match; try lia; auto.
  - intros ?. pose proof (fo_trans a b c I I I). repeat case_match; try lia; auto.
  - intros Hne. pose proof (fo_total a b I I Hne). repeat case_match; try lia; auto.
Qed.

#[local] Existing Instance InternalKeyOrder.Compare_order.

Section SmallestKey.
Context (wf : bytes → Prop) (c : Comparator) `{!ComparatorLaws wf c}.
#[local] Abbreviation ikey_ok := (InternalKeyOrder.ikey_ok wf).
#[local] Abbreviation icmp := (InternalKeyComparator.Compare c).

(** The bounds of a file are keys that the comparator can order. *)
Definition keys_ok (f : FileMetaData) : Prop := ikey_ok (smallest f) ∧ ikey_ok (largest f).

#[export] Instance BySmallestKey_order : FileOrder keys_ok (BySmallestKey c).
Proof using All.
  assert (∀ a b, keys_ok a → keys_ok b → Z.sgn (icmp (smallest b) (smallest a)) = - Z.sgn (icmp (smallest a) (smallest b))) as Hs.
  { intros a b [Ha _] [Hb _]. by apply (cmp_antisym (wf := ikey_ok)). }
  split; unfold BySmallestKey.
  - intros a b Ha Hb. specialize (Hs a b Ha Hb). repeat case_match; lia.
  - intros a b d Ha Hb Hd. pose proof (Hs a b Ha Hb). pose proof (Hs b d Hb Hd). pose proof (Hs a d Ha Hd).
    pose proof (cmp_le_trans (wf := ikey_ok) (cmp := icmp) _ _ _ (proj1 Ha) (proj1 Hb) (proj1 Hd)).
    pose proof (cmp_lt_le_trans (wf := ikey_ok) (cmp := icmp) _ _ _ (proj1 Ha) (proj1 Hb) (proj1 Hd)).
    pose proof (cmp_le_lt_trans (wf := ikey_ok) (cmp := icmp) _ _ _ (proj1 Ha) (proj1 Hb) (proj1 Hd)).
    repeat case_match; lia.
  - intros a b Ha Hb Hne. specialize (Hs a b Ha Hb). repeat case_match; lia.
Qed.
End SmallestKey.

(** ** What the consistency checks establish *)

(** A relation between neighbours. *)
Fixpoint adjacent {A} (R : A → A → Prop) (l : list A) : Prop :=
  match l with
  | x :: (y :: _) as tl => R x y ∧ adjacent R tl
  | _ => True
  end.
Lemma adjacent_and {A} (R S : A → A → Prop) l : adjacent (λ x y, R x y ∧ S x y) l ↔ adjacent R l ∧ adjacent S l.
Proof. induction l as [|x [|y l] IH]; [done..|]. cbn in *. tauto. Qed.
Lemma adjacent_impl {A} (R S : A → A → Prop) l : (∀ x y, R x y → S x y) → adjacent R l → adjacent S l.
Proof. intros H. induction l as [|x [|y l] IH]; [done..|]. cbn [adjacent] in *. intros [? ?]. split; [by apply H|by apply IH]. Qed.
Lemma adjacent_sorted {A} (R : A → A → Prop) l : adjacent R l ↔ Sorted R l.
Proof.
  induction l as [|x [|y l] IH]; [by split|by split; [repeat constructor|]|]. cbn [adjacent]. rewrite IH. split.
  - intros [Hxy Hl]. constructor; [done|by constructor].
  - intros Hs. apply Sorted_inv in Hs as [Hl Hx]. by apply HdRel_inv in Hx.
Qed.
Lemma adjacent_strong {A} (P : A → Prop) (R : A → A → Prop) l :
  (∀ x y z, P x → P y → P z → R x y → R y z → R x z) → Forall P l → adjacent R l ↔ StronglySorted R l.
Proof.
  intros Ht HP. rewrite adjacent_sorted. split; [by apply (Sorted_StronglySorted_on P)|apply StronglySorted_Sorted].
Qed.

(** The table files that refer to a blob file. *)
Definition links_of (files : list FileMetaData) (blob n : Z) : Prop :=
  blob ≠ kInvalidBlobFileNumber ∧ ∃ f, f ∈ files ∧ file_number f = n ∧ oldest_blob_file_number f = blob.
Definition expects (expected : ExpectedLinkedSsts) (files : list FileMetaData) : Prop :=
  ∀ blob n, n ∈ default ∅ (expected !! blob) ↔ links_of files blob n.

Lemma expects_update expected files f : expects expected files →
  expects (UpdateExpectedLinkedSsts (file_number f) (oldest_blob_file_number f) expected) (files ++ [f]).
Proof.
  intros He blob n. unfold links_of, UpdateExpectedLinkedSsts.
  assert ((blob ≠ kInvalidBlobFileNumber ∧ ∃ g, g ∈ files ++ [f] ∧ file_number g = n ∧ oldest_blob_file_number g = blob) ↔
    links_of files blob n ∨ blob ≠ kInvalidBlobFileNumber ∧ file_number f = n ∧ oldest_blob_file_number f = blob) as ->.
  { unfold links_of. split.
    - intros (Hb & g & [Hg| ->%list_elem_of_singleton]%elem_of_app & Hn & Ho); [left; eauto|by right].
    - intros [(Hb & g & Hg & Hn & Ho)|(Hb & Hn & Ho)]; (split; [done|]).
      + exists g. rewrite elem_of_app. auto.
      + exists f. rewrite elem_of_app, list_elem_of_singleton. auto. }
  rewrite <- (He blob n). destruct (Z.eqb_spec (oldest_blob_file_number f) kInvalidBlobFileNumber) as [E|E].
  - split; [by left|]. intros [H|(Hb & _ & Ho)]; [done|congruence].
  - destruct (Z.eq_dec (oldest_blob_file_number f) blob) as [<-|Hne].
    + rewrite lookup_insert_eq. cbn. rewrite elem_of_union, elem_of_singleton. intuition congruence.
    + rewrite lookup_insert_ne by done. intuition congruence.
Qed.

Lemma check_pairs_spec checker files : ∀ lhs before expected, expects expected (before ++ [lhs]) →
  let '(s, expected) := check_pairs checker lhs files expected in
  (ok s = true ↔ adjacent (λ a b, ok (checker a b) = true) (lhs :: files)) ∧
  (ok s = true → expects expected (before ++ lhs :: files)).
Proof.
  induction files as [|rhs files IH]; intros lhs before expected He; cbn [check_pairs]; [by split|].
  destruct (ok (checker lhs rhs)) eqn:E.
  - specialize (IH rhs (before ++ [lhs]) _ (expects_update _ _ rhs He)). destruct (check_pairs _ _ _ _) as [s x].
    destruct IH as [IH1 IH2]. cbn [adjacent]. rewrite <- app_assoc in IH2. split; [|done]. rewrite IH1. cbn [adjacent]. tauto.
  - cbn [adjacent]. rewrite E. split; intuition congruence.
Qed.

Lemma check_level_spec v level checker expected before : expects expected before →
  let '(s, expected) := CheckConsistencyDetailsForLevel v level checker expected in
  (ok s = true ↔ adjacent (λ a b, ok (checker a b) = true) (LevelFiles v level)) ∧
  (ok s = true → expects expected (before ++ LevelFiles v level)).
Proof.
  intros He. unfold CheckConsistencyDetailsForLevel. destruct (LevelFiles v level) as [|f files]; [by rewrite app_nil_r|].
  apply check_pairs_spec. by apply expects_update.
Qed.

Fixpoint levels_from (v : VersionStorageInfo) (level : Z) (n : nat) : list FileMetaData :=
  match n with O => [] | S n => LevelFiles v level ++ levels_from v (level + 1) n end.

Section Check.
Context (wf : bytes → Prop) (c : Comparator) `{!ComparatorLaws wf c}.
#[local] Abbreviation icmp := (InternalKeyComparator.Compare c).

Lemma check_levels_spec v n : ∀ level expected before, expects expected before →
  let '(s, expected) := check_levels c v level n expected in
  (ok s = true ↔ ∀ l, level <= l < level + Z.of_nat n → adjacent (λ a b, ok (level_checker c l a b) = true) (LevelFiles v l)) ∧
  (ok s = true → expects expected (before ++ levels_from v level n)).
Proof using.
  induction n as [|n IH]; intros level expected before He; cbn [check_levels levels_from].
  { rewrite app_nil_r. split; [split; [lia|done]|done]. }
  pose proof (check_level_spec v level (level_checker c level) expected before He) as H.
  destruct (CheckConsistencyDetailsForLevel _ _ _ _) as [s x]. destruct H as [H1 H2]. destruct (ok s) eqn:E.
  - specialize (IH (level + 1) x _ (H2 eq_refl)). destruct (check_levels _ _ _ _ _) as [s' x']. destruct IH as [IH1 IH2].
    rewrite <- app_assoc in IH2. split; [|done]. rewrite IH1. split.
    + intros Hl l Hr. destruct (Z.eq_dec l level) as [->|]; [by apply H1|]. apply Hl. lia.
    + intros Hl l Hr. apply Hl. lia.
  - rewrite E. split; [|congruence]. split; [done|]. intros Hl. apply H1, Hl. lia.
Qed.

Definition l0_order (requirement : EpochNumberRequirement) : FileMetaData → FileMetaData → bool :=
  match requirement with kMightMissing => NewestFirstBySeqNo | kMustPresent => NewestFirstByEpochNumber end.
Definition overlap (a b : FileMetaData) : Prop := icmp (smallest a) (largest b) <= 0 ∧ 0 <= icmp (largest a) (smallest b).

(** A well-formed version: the files of level 0 from the newest to the oldest, the
    files of every other level in order and disjoint, and every blob file with
    blobs that are not garbage and linked with the table files that refer to it. *)
Record version_wf (v : VersionStorageInfo) : Prop := {
  vw_l0 : StronglySorted (λ a b, l0_order (epoch_number_requirement_ v) a b = true) (LevelFiles v 0);
  vw_epochs : epoch_number_requirement_ v = kMustPresent →
    adjacent (λ a b, epoch_number a = epoch_number b → ¬ overlap a b) (LevelFiles v 0);
  vw_level : ∀ level, 1 <= level < num_levels v →
    StronglySorted (λ a b, BySmallestKey c a b = true ∧ icmp (largest a) (smallest b) < 0) (LevelFiles v level);
  vw_blobs : ∀ m, m ∈ blob_files_ v →
    BlobFileMetaData.garbage_blob_count_ m < BlobFileMetaData.GetTotalBlobCount m ∧
    ∀ n, n ∈ BlobFileMetaData.linked_ssts_ m ↔
      links_of (levels_from v 0 (length (files_ v))) (BlobFileMetaData.GetBlobFileNumber m) n
}.

Lemma ok_l0_checker requirement a b : ok (l0_checker c requirement a b) = true ↔
  l0_order requirement a b = true ∧ (requirement = kMustPresent → epoch_number a = epoch_number b → ¬ overlap a b).
Proof using.
  unfold l0_checker, l0_order, overlap, two_files, Corruption2. destruct requirement.
  - destruct (NewestFirstBySeqNo a b); cbn; intuition congruence.
  - destruct (Z.eqb_spec (epoch_number a) (epoch_number b)) as [E|E]; cbn [andb].
    + destruct (Z.leb_spec (icmp (smallest a) (largest b)) 0), (Z.leb_spec 0 (icmp (largest a) (smallest b))); cbn [andb];
        destruct (NewestFirstByEpochNumber a b); cbn; intuition (try congruence; try lia).
    + destruct (NewestFirstByEpochNumber a b); cbn; intuition congruence.
Qed.
Lemma ok_level_checker level a b : ok (level_checker c level a b) = true ↔
  BySmallestKey c a b = true ∧ icmp (largest a) (smallest b) < 0.
Proof using.
  unfold level_checker, two_files, Corruption2. destruct (BySmallestKey c a b), (Z.leb_spec 0 (icmp (largest a) (smallest b)));
    cbn; intuition (try congruence; try lia).
Qed.
Lemma ok_check_blob_files expected metas : ok (check_blob_files expected metas) = true ↔
  ∀ m, m ∈ metas → BlobFileMetaData.garbage_blob_count_ m < BlobFileMetaData.GetTotalBlobCount m ∧
    BlobFileMetaData.linked_ssts_ m = default ∅ (expected !! BlobFileMetaData.GetBlobFileNumber m).
Proof using.
  induction metas as [|m metas IH]; cbn [check_blob_files]; [split; [by intros _ ? ?%elem_of_nil|done]|].
  unfold Corruption2. destruct (Z.leb_spec (BlobFileMetaData.GetTotalBlobCount m) (BlobFileMetaData.garbage_blob_count_ m)).
  { split; [done|]. intros H'. destruct (H' m); [left|lia]. }
  case_bool_decide as E; cbn [negb].
  - rewrite IH. split; [intros H' m' [-> |Hm]%elem_of_cons; auto|]. intros H' m' Hm. apply H'. by right.
  - split; [done|]. intros H'. destruct (H' m); [left|done].
Qed.

Lemma keys_ok_level v l : (∀ f, f ∈ levels_from v 0 (length (files_ v)) → keys_ok wf f) → 0 <= l < num_levels v →
  Forall (keys_ok wf) (LevelFiles v l).
Proof using.
  intros H Hl. apply Forall_forall. intros f Hf. apply H.
  assert (∀ n level, level <= l < level + Z.of_nat n → f ∈ levels_from v level n) as Hin.
  { induction n as [|n IH]; intros level Hr; cbn [levels_from]; [lia|]. rewrite elem_of_app.
    destruct (Z.eq_dec l level) as [->|]; [by left|]. right. apply IH. lia. }
  apply Hin. unfold num_levels in Hl. lia.
Qed.

Lemma level_pairs_trans a b d : keys_ok wf a → keys_ok wf b → keys_ok wf d →
  BySmallestKey c a b = true ∧ icmp (largest a) (smallest b) < 0 → BySmallestKey c b d = true ∧ icmp (largest b) (smallest d) < 0 →
  BySmallestKey c a d = true ∧ icmp (largest a) (smallest d) < 0.
Proof using All.
  intros Ha Hb Hd [Hab1 Hab2] [Hbd1 Hbd2]. split; [by apply (fo_lt_trans (P := keys_ok wf) a b d)|].
  apply (cmp_lt_le_trans (wf := InternalKeyOrder.ikey_ok wf) (cmp := icmp) _ (smallest b)); [apply Ha|apply Hb|apply Hd|done|].
  unfold BySmallestKey in Hbd1. case_match; lia.
Qed.

Lemma l0_pairs requirement files : adjacent (λ a b, ok (l0_checker c requirement a b) = true) files ↔
  StronglySorted (λ a b, l0_order requirement a b = true) files ∧
  (requirement = kMustPresent → adjacent (λ a b, epoch_number a = epoch_number b → ¬ overlap a b) files).
Proof using.
  assert (adjacent (λ a b, ok (l0_checker c requirement a b) = true) files ↔
    adjacent (λ a b, l0_order requirement a b = true ∧ (requirement = kMustPresent → epoch_number a = epoch_number b → ¬ overlap a b)) files) as ->.
  { split; apply adjacent_impl; intros a b; apply ok_l0_checker. }
  rewrite adjacent_and, (adjacent_strong (λ _, True)); [|intros x y z _ _ _|by apply Forall_true].
  - split; intros [Hs Ha]; (split; [done|]).
    + intros ->. revert Ha. apply adjacent_impl. auto.
    + destruct requirement; [clear; induction files as [|x [|y l] IH]; [done..|by split]|]. generalize (Ha eq_refl). apply adjacent_impl. auto.
  - destruct requirement; apply (fo_lt_trans (P := λ _, True)); done.
Qed.
Lemma level_pairs level files : Forall (keys_ok wf) files → adjacent (λ a b, ok (level_checker c level a b) = true) files ↔
  StronglySorted (λ a b, BySmallestKey c a b = true ∧ icmp (largest a) (smallest b) < 0) files.
Proof using All.
  intros Hk. rewrite <- (adjacent_strong (keys_ok wf)); [|apply level_pairs_trans|done].
  split; apply adjacent_impl; intros a b; apply ok_level_checker.
Qed.

Lemma CheckConsistencyDetails_exact v : files_ v ≠ [] → (∀ f, f ∈ levels_from v 0 (length (files_ v)) → keys_ok wf f) →
  ok (CheckConsistencyDetails c (num_levels v) v) = true ↔ version_wf v.
Proof using All.
  intros Hne Hkeys. unfold CheckConsistencyDetails.
  assert (∃ n, length (files_ v) = S n) as [n Hn] by (destruct (files_ v); [done|eauto]).
  assert (num_levels v = Z.of_nat (S n)) as Hnum by (unfold num_levels; by rewrite Hn).
  rewrite Hnum, (proj2 (Z.ltb_lt _ _)) by lia. replace (Z.to_nat (Z.of_nat (S n) - 1)) with n by lia.
  assert (expects ∅ []) as He. { intros blob m. rewrite lookup_empty. cbn. split; [by intros ?%elem_of_empty|]. by intros (_ & f & ?%elem_of_nil & _). }
  pose proof (check_level_spec v 0 (l0_checker c (epoch_number_requirement_ v)) ∅ [] He) as H0.
  destruct (CheckConsistencyDetailsForLevel _ _ _ _) as [s0 x0]. destruct H0 as [H0 Hx0]. rewrite l0_pairs in H0.
  destruct (ok s0) eqn:E0; [|rewrite E0; split; [congruence|intros Hv; discriminate (proj2 H0 (conj (vw_l0 v Hv) (vw_epochs v Hv)))]].
  destruct (proj1 H0 eq_refl) as [Hl0 Hep]. specialize (Hx0 eq_refl). cbn [app] in Hx0.
  pose proof (check_levels_spec v n 1 x0 _ Hx0) as H1. destruct (check_levels _ _ _ _ _) as [s1 x1]. destruct H1 as [H1 Hx1].
  assert (∀ l, 1 <= l < 1 + Z.of_nat n → Forall (keys_ok wf) (LevelFiles v l)) as Hk by (intros l Hl; apply keys_ok_level; [done|lia]).
  destruct (ok s1) eqn:E1.
  - specialize (Hx1 eq_refl). change (LevelFiles v 0 ++ levels_from v 1 n) with (levels_from v 0 (S n)) in Hx1. rewrite ok_check_blob_files, <- Hn in *.
    split.
    + intros Hb. split; [done..| |].
      * intros l Hl. apply (level_pairs l); [apply Hk; lia|]. apply (proj1 H1 eq_refl). lia.
      * intros m Hm. destruct (Hb m Hm) as [Hg Hl]. split; [done|]. intros k. rewrite Hl. apply Hx1.
    + intros Hv m Hm. destruct (vw_blobs v Hv m Hm) as [Hg Hl]. split; [done|]. apply set_eq. intros k. by rewrite Hl, (Hx1 _ k).
  - rewrite E1. split; [congruence|]. intros Hv. enough (false = true) by done. apply H1. intros l Hl. apply level_pairs; [by apply Hk|]. apply (vw_level v Hv). lia.
Qed.

(** C10: A version with at least one level, whose files have keys that can be ordered,
    passes the consistency checks if and only if it is well formed: level 0 is sorted
    by age, and neighbours with the same epoch number do not overlap where all files
    have one; the files of every other level are sorted by key and do not overlap,
    none with any other although only neighbours are compared; no blob file consists
    of garbage alone; and the links of each blob file are exactly the table files of
    the version that refer to it. *)
Theorem consistency_checks_exact v : files_ v ≠ [] → (∀ f, f ∈ levels_from v 0 (length (files_ v)) → keys_ok wf f) →
  ok (CheckConsistencyDetails c (num_levels v) v) = true ↔ version_wf v.
Proof using All. apply CheckConsistencyDetails_exact. Qed.

Lemma CheckConsistencyDetails_empty k v : (∀ l, LevelFiles v l = []) → blob_files_ v = [] → CheckConsistencyDetails c k v = Status_OK.
Proof using.
  intros Hf Hb. unfold CheckConsistencyDetails, CheckConsistencyDetailsForLevel. rewrite Hf, Hb. cbn [ok code_ Status_OK].
  assert (∀ n l expected, check_levels c v l n expected = (Status_OK, expected)) as Hl.
  { induction n as [|n IH]; intros l expected; [done|]. cbn [check_levels]. unfold CheckConsistencyDetailsForLevel. rewrite Hf. apply IH. }
  destruct (0 <? k); [rewrite Hl|]; done.
Qed.
Lemma ok_CheckConsistency k v : ok (CheckConsistency c k v) = true ↔ (force_consistency_checks_ v = true → ok (CheckConsistencyDetails c k v) = true).
Proof using.
  unfold CheckConsistency. destruct (force_consistency_checks_ v); cbn [negb]; [|done].
  destruct (IsCorruption _) eqn:E; [|naive_solver]. unfold IsCorruption in E. unfold ok. destruct (code_ (CheckConsistencyDetails c k v)); cbn; naive_solver.
Qed.
End Check.

(** Two levels of table files, and a blob file to which one of them refers *)
Module VersionExample.
#[local] Open Scope Z_scope.
Definition file (number seqno epoch blob lo hi : Z) : FileMetaData :=
  mkFile (NewFileDescriptor number 0 100 seqno seqno) (lo :: EncodeFixed64 (seqno * 256 + 1)) (hi :: EncodeFixed64 (seqno * 256 + 1))
    0 false kTemperatureUnknown blob 0 0 epoch [] kUnknownFileChecksumFuncName UniqueId_null 0 true.
Definition blob (number : Z) : BlobFileAddition := mkBlobFileAddition number 4 400 [] [].
Definition base : VersionStorageInfo :=
  GenerateFileLocationIndex (mkVersionStorageInfo
    [[file 8 9 3 0 97 99; file 6 7 2 0 98 99]; [file 4 5 1 3 97 98; file 5 5 1 0 99 100]] ∅
    [BlobFileMetaData.mk (blob 3) {[4]} 1 100] [[]; []] true kMustPresent).

Lemma file_keys number seqno epoch blob lo hi : is_u 8 lo → is_u 8 hi → is_u 56 seqno → keys_ok bytes_ok (file number seqno epoch blob lo hi).
Proof.
  intros Hlo Hhi Hs. assert (∀ k, is_u 8 k → InternalKeyOrder.ikey_ok bytes_ok (k :: EncodeFixed64 (seqno * 256 + 1))) as H; [|split; by apply H].
  intros k Hk. assert (bytes_ok (k :: EncodeFixed64 (seqno * 256 + 1))) as Hb by (constructor; [done|apply bytes_ok_EncodeFixed64]).
  split_and!; [rewrite Zlen_cons, Zlen_EncodeFixed64; done|done|]. apply bytes_ok_ztake; done.
Qed.
Lemma base_keys level f : f ∈ LevelFiles base level → keys_ok bytes_ok f.
Proof.
  unfold LevelFiles. destruct (files_ base !! Z.to_nat level) as [fs|] eqn:E; [|by intros ?%elem_of_nil]. cbn. intros Hf.
  assert (Forall (Forall (keys_ok bytes_ok)) (files_ base)) as H by (repeat first [apply Forall_nil_2|apply Forall_cons_2]; apply file_keys; by vm_compute).
  rewrite Forall_lookup in H. specialize (H _ _ E). rewrite Forall_forall in H. by apply H.
Qed.
Lemma consistency_checks_exact_witness : version_wf BytewiseComparator base.
Proof.
  apply (consistency_checks_exact bytes_ok BytewiseComparator base).
  - discriminate.
  - intros f [Hf|[Hf|Hf%elem_of_nil]%elem_of_app]%elem_of_app; [by apply (base_keys 0)|by apply (base_keys 1)|done].
  - vm_compute. reflexivity.
Defined.
End VersionExample.
