(* ===== verification/VersionPrepare.v ===== *)
(** * The files of a version, prepared for reading

    What a version computes from its files before it is used, and the questions it
    answers with it (db/version_set.cc): the arrays of files by level, the index
    between levels, the overlap of a range of keys with a level, and the files at the
    bottom of the tree. A failed assertion and an access out of range are [None]. *)

From S2P Require Import Prelude SortedLists Comparator DbFormat VersionEdit FileIndexer VersionStorage.
From stdpp Require Import list gmap.
#[local] Open Scope Z_scope.

(** ** The files of a level *)

Record FdWithKeyRange := mkFdWithKeyRange {
  range_fd : FileDescriptor;
  file_metadata : FileMetaData;
  smallest_key : bytes;
  largest_key : bytes
}.
Record LevelFilesBrief := mkLevelFilesBrief { num_files : Z; brief_files : list FdWithKeyRange }.

Definition NewFdWithKeyRange (f : FileMetaData) : FdWithKeyRange :=
  mkFdWithKeyRange (fd f) f (InternalKey.Encode (smallest f)) (InternalKey.Encode (largest f)).
Definition DoGenerateLevelFilesBrief (files : list FileMetaData) : LevelFilesBrief :=
  mkLevelFilesBrief (Zlen files) (map NewFdWithKeyRange files).

Section Search.
Context (ucmp : Comparator).
#[local] Abbreviation icmp := (InternalKeyComparator.Compare ucmp).
#[local] Abbreviation cmp := (CompareWithoutTimestamp ucmp).

Definition FindFileInRange (file_level : LevelFilesBrief) (key : bytes) (left right : Z) : option Z :=
  let b := brief_files file_level in
  _ ← assertion ((0 <=? left) && (left <=? right) && (right <=? Zlen b));
  Some (left + Z.of_nat (count_while (λ f, icmp (largest_key f) key <? 0) (ztake (right - left) (zdrop left b)))).
Definition FindFile (file_level : LevelFilesBrief) (key : bytes) : option Z :=
  FindFileInRange file_level key 0 (u32 (num_files file_level)).

(** [None] stands for the null pointer: no bound. *)
Definition AfterFile (user_key : option bytes) (f : FdWithKeyRange) : bool :=
  match user_key with Some k => 0 <? cmp k (ExtractUserKey (largest_key f)) | None => false end.
Definition BeforeFile (user_key : option bytes) (f : FdWithKeyRange) : bool :=
  match user_key with Some k => cmp k (ExtractUserKey (smallest_key f)) <? 0 | None => false end.

Definition SomeFileOverlapsRange (disjoint_sorted_files : bool) (file_level : LevelFilesBrief)
    (smallest_user_key largest_user_key : option bytes) : option bool :=
  if negb disjoint_sorted_files then
    (* Need to check against all files *)
    Some (existsb (λ f, negb (AfterFile smallest_user_key f || BeforeFile largest_user_key f)) (brief_files file_level))
  else
    index ← (match smallest_user_key with
             | Some k => FindFile file_level (InternalKey.Encode (InternalKey.SetMinPossibleForUserKey [] k))
             | None => Some 0
             end);
    if num_files file_level <=? index then Some false
    else f ← vec_at (brief_files file_level) index; Some (negb (BeforeFile largest_user_key f)).

(** ** The state that is prepared *)

Record Prepared := mkPrepared {
  storage : VersionStorageInfo;
  num_non_empty_levels_ : Z;
  file_indexer_ : FileIndexer.t;
  level_files_brief_ : list LevelFilesBrief;
  level0_non_overlapping_ : bool;
  bottommost_files_ : list (Z * FileMetaData)
}.
Definition NewPrepared (v : VersionStorageInfo) : Prepared := mkPrepared v 0 FileIndexer.New [] false [].

Fixpoint non_empty_levels (n : nat) (files : list (list FileMetaData)) : Z :=
  match n with
  | O => 0
  | S i => match files !! i with Some (_ :: _) => Z.of_nat n | _ => non_empty_levels i files end
  end.
Definition UpdateNumNonEmptyLevels (p : Prepared) : Prepared :=
  mkPrepared (storage p) (non_empty_levels (length (files_ (storage p))) (files_ (storage p)))
    (file_indexer_ p) (level_files_brief_ p) (level0_non_overlapping_ p) (bottommost_files_ p).
Definition GenerateFileIndexer (p : Prepared) : option Prepared :=
  indexer ← FileIndexer.UpdateIndex ucmp (file_indexer_ p) (num_non_empty_levels_ p) (files_ (storage p));
  Some (mkPrepared (storage p) (num_non_empty_levels_ p) indexer (level_files_brief_ p) (level0_non_overlapping_ p) (bottommost_files_ p)).
Definition GenerateLevelFilesBrief (p : Prepared) : Prepared :=
  mkPrepared (storage p) (num_non_empty_levels_ p) (file_indexer_ p)
    (map DoGenerateLevelFilesBrief (ztake (num_non_empty_levels_ p) (files_ (storage p))))
    (level0_non_overlapping_ p) (bottommost_files_ p).

Fixpoint disjoint_neighbours (prev : FdWithKeyRange) (files : list FdWithKeyRange) : bool :=
  match files with
  | [] => true
  | f :: files => if 0 <=? icmp (largest_key prev) (smallest_key f) then false else disjoint_neighbours f files
  end.
Definition GenerateLevel0NonOverlapping (p : Prepared) : Prepared :=
  mkPrepared (storage p) (num_non_empty_levels_ p) (file_indexer_ p) (level_files_brief_ p)
    (match level_files_brief_ p with
     | [] => true
     | level0 :: _ =>
         match sort_by (λ f1 f2, icmp (smallest_key f1) (smallest_key f2) <=? 0) (brief_files level0) with
         | [] => true
         | f :: files => disjoint_neighbours f files
         end
     end) (bottommost_files_ p).

Definition OverlapInLevel (p : Prepared) (level : Z) (smallest_user_key largest_user_key : option bytes) : option bool :=
  if num_non_empty_levels_ p <=? level then Some false
  else
    file_level ← vec_at (level_files_brief_ p) level;
    SomeFileOverlapsRange (0 <? level) file_level smallest_user_key largest_user_key.

Fixpoint exists_below (p : Prepared) (smallest_user_key largest_user_key : bytes) (last_level : Z) (n : nat) (level : Z) : option bool :=
  match n with
  | O => Some false
  | S n =>
      found ← (if Zlen (LevelFiles (storage p) level) =? 0 then Some false
               else if last_level =? 0 then Some true
               else OverlapInLevel p level (Some smallest_user_key) (Some largest_user_key));
      if found : bool then Some true else exists_below p smallest_user_key largest_user_key last_level n (level + 1)
  end.
Definition RangeMightExistAfterSortedRun (p : Prepared) (smallest_user_key largest_user_key : bytes) (last_level last_l0_idx : Z) :
    option bool :=
  _ ← assertion (eqb (negb (last_l0_idx =? -1)) (last_level =? 0));
  if (last_level =? 0) && negb (last_l0_idx =? int32 (u64 (Zlen (LevelFiles (storage p) 0) - 1))) then Some true
  else exists_below p smallest_user_key largest_user_key last_level (Z.to_nat (num_levels (storage p) - (last_level + 1))) (last_level + 1).

Fixpoint bottommost_in_level (p : Prepared) (level file_idx : Z) (files : list FdWithKeyRange) : option (list (Z * FileMetaData)) :=
  match files with
  | [] => Some []
  | f :: files =>
      let l0_file_idx := if level =? 0 then int32 file_idx else -1 in
      below ← RangeMightExistAfterSortedRun p (ExtractUserKey (smallest_key f)) (ExtractUserKey (largest_key f)) level l0_file_idx;
      rest ← bottommost_in_level p level (file_idx + 1) files;
      Some (if below : bool then rest else (level, file_metadata f) :: rest)
  end.
Fixpoint bottommost_in_levels (p : Prepared) (level : Z) (levels : list LevelFilesBrief) : option (list (Z * FileMetaData)) :=
  match levels with
  | [] => Some []
  | file_level :: levels =>
      here ← bottommost_in_level p level 0 (brief_files file_level);
      rest ← bottommost_in_levels p (level + 1) levels;
      Some (here ++ rest)
  end.
Definition GenerateBottommostFiles (p : Prepared) : option Prepared :=
  _ ← assertion (match bottommost_files_ p with [] => true | _ :: _ => false end);
  files ← bottommost_in_levels p 0 (level_files_brief_ p);
  Some (mkPrepared (storage p) (num_non_empty_levels_ p) (file_indexer_ p) (level_files_brief_ p) (level0_non_overlapping_ p) files).

(** The sizes and the order of compaction are left out. *)
Definition PrepareForVersionAppend (allow_ingest_behind : bool) (v : VersionStorageInfo) : option Prepared :=
  let p := UpdateNumNonEmptyLevels (NewPrepared v) in
  p ← GenerateFileIndexer p;
  let p := GenerateLevel0NonOverlapping (GenerateLevelFilesBrief p) in
  p ← (if negb allow_ingest_behind then GenerateBottommostFiles p else Some p);
  Some (mkPrepared (GenerateFileLocationIndex (storage p)) (num_non_empty_levels_ p) (file_indexer_ p) (level_files_brief_ p)
    (level0_non_overlapping_ p) (bottommost_files_ p)).
End Search.
