(* ===== verification/VersionPrepareCorrect.v ===== *)
(** * What a version prepares is exact

    The levels that have files, the index between them, the overlap of a range with
    a level and the files at the bottom of the tree, for a version whose files are in
    order; every operation is defined. *)

From Stdlib Require Import Sorting.Sorted.
From S2P Require Import Prelude SortedLists Coding Comparator DbFormat VersionEdit FileIndexer FileIndexerCorrect.
From S2P Require Import VersionStorage VersionStorageCorrect VersionPrepare.
From stdpp Require Import list.
#[local] Open Scope Z_scope.
Import FileIndexer (smallest_user_key, largest_user_key).

#[local] Existing Instance InternalKeyOrder.Compare_order.
#[local] Existing Instance cl_no_ts.

(** ** The order of internal keys and of user keys *)

Section Keys.
Context (wf : bytes → Prop) (c : Comparator) `{!ComparatorLaws wf c}.
#[local] Abbreviation ikey_ok := (InternalKeyOrder.ikey_ok wf).
#[local] Abbreviation icmp := (InternalKeyComparator.Compare c).
#[local] Abbreviation cmp := (CompareWithoutTimestamp c).

Lemma user_key_lt a b : ikey_ok a → ikey_ok b → cmp (ExtractUserKey a) (ExtractUserKey b) < 0 → icmp a b < 0.
Proof using ComparatorLaws0.
  intros (_ & _ & Ha) (_ & _ & Hb) H. apply cl_no_ts_coarser in H; [|done..]. unfold InternalKeyComparator.Compare.
  rewrite (proj2 (Z.eqb_neq _ _)) by lia. done.
Qed.
Lemma user_key_le a b : ikey_ok a → ikey_ok b → icmp a b <= 0 → cmp (ExtractUserKey a) (ExtractUserKey b) <= 0.
Proof using ComparatorLaws0.
  intros Ha Hb H. destruct (Z_le_gt_dec (cmp (ExtractUserKey a) (ExtractUserKey b)) 0) as [|Hgt]; [done|].
  assert (icmp b a < 0) by (apply user_key_lt; [done..|]; apply cmp_flip_lt; [apply Hb|apply Ha|lia]).
  apply cmp_flip_le in H; [|done..]. lia.
Qed.

(** The files of a level from 1 on: each with its bounds in order, disjoint, and in
    the order of their keys. *)
Record level_sorted (files : list FileMetaData) : Prop := {
  ls_keys : ∀ f, f ∈ files → keys_ok wf f ∧ icmp (smallest f) (largest f) <= 0;
  ls_sorted : StronglySorted (λ a b, icmp (largest a) (smallest b) < 0) files;
  ls_size : Zlen files < 2 ^ 31
}.
Lemma level_sorted_ordered files : level_sorted files → level_ordered wf c files.
Proof using ComparatorLaws0.
  intros [Hk Hs Hz]. assert (∀ f, f ∈ files → keys_ok wf f) as Hk1 by (intros f Hf; apply (Hk f Hf)). split; [|clear Hk Hz|done].
  - intros f Hf. destruct (Hk f Hf) as [[Hs1 Hl1] Hle]. split; [apply Hs1|apply Hl1|by apply user_key_le].
  - induction Hs as [|f files Hs IH Hf]; constructor; [apply IH; intros; apply Hk1; by right|].
    rewrite Forall_forall in Hf |- *. intros g Hg. apply user_key_le; [apply (Hk1 f); left|apply (Hk1 g); by right|].
    specialize (Hf g Hg). lia.
Qed.
Lemma level_largest_grow files i j f g : level_sorted files → files !! i = Some f → files !! j = Some g → (i <= j)%nat →
  icmp (largest f) (largest g) <= 0.
Proof using ComparatorLaws0.
  intros [Hk Hs _] Ei Ej Hij. destruct (Hk f (list_elem_of_lookup_2 _ _ _ Ei)) as [[_ Hf] _].
  destruct (Hk g (list_elem_of_lookup_2 _ _ _ Ej)) as [[Hgs Hgl] Hg]. destruct (decide (i = j)) as [->|].
  - rewrite Ei in Ej. injection Ej as <-. rewrite cmp_refl; [done|exact Hf].
  - pose proof (sorted_lookup _ _ Hs i j f g Ei Ej ltac:(lia)) as H.
    pose proof (cmp_lt_le_trans (wf := ikey_ok) (cmp := icmp) _ _ _ Hf Hgs Hgl H Hg). lia.
Qed.

(** The binary search, in a part of a level. *)
Lemma FindFileInRange_spec files k left right : level_sorted files → ikey_ok k → 0 <= left <= right → right <= Zlen files →
  ∃ n : nat, FindFileInRange c (DoGenerateLevelFilesBrief files) k left right = Some (Z.of_nat n) ∧ left <= Z.of_nat n <= right ∧
    (∀ j f, files !! j = Some f → left <= Z.of_nat j < Z.of_nat n → icmp (largest f) k < 0) ∧
    (Z.of_nat n < right → ∀ j f, files !! j = Some f → (n <= j)%nat → icmp k (largest f) <= 0).
Proof using ComparatorLaws0.
  intros Hf Hk Hl Hr. unfold FindFileInRange, assertion. cbn [brief_files DoGenerateLevelFilesBrief].
  replace (Zlen (map NewFdWithKeyRange files)) with (Zlen files) by (unfold Zlen; by rewrite length_map).
  rewrite !(proj2 (Z.leb_le _ _)) by lia. cbn [andb mbind option_bind].
  set (part := ztake (right - left) (zdrop left (map NewFdWithKeyRange files))). set (n := count_while _ part).
  assert (length part = Z.to_nat (right - left)) as Hlen.
  { unfold part, ztake, zdrop. rewrite length_take, length_drop, length_map. unfold Zlen in Hr. lia. }
  pose proof (count_while_le (λ f, icmp (largest_key f) k <? 0) part) as Hn. fold n in Hn.
  assert (∀ j f, files !! j = Some f → left <= Z.of_nat j < right → part !! (j - Z.to_nat left)%nat = Some (NewFdWithKeyRange f)) as Hat.
  { intros j f Ej Hj. unfold part, ztake, zdrop. rewrite lookup_take_lt, lookup_drop by lia.
    replace (Z.to_nat left + (j - Z.to_nat left))%nat with j by lia. by rewrite list_lookup_fmap, Ej. }
  exists (Z.to_nat left + n)%nat. split; [f_equal; lia|]. split; [lia|]. split.
  - intros j f Ej Hj. apply Z.ltb_lt.
    apply (count_while_before (λ f, icmp (largest_key f) k <? 0) part _ (NewFdWithKeyRange f) (Hat j f Ej ltac:(lia))). fold n. lia.
  - intros Hlt j f Ej Hj. destruct (lookup_lt_is_Some_2 files (Z.to_nat left + n)) as [g Eg]; [unfold Zlen in Hr; lia|].
    pose proof (Hat _ g Eg ltac:(lia)) as Hg. replace (Z.to_nat left + n - Z.to_nat left)%nat with n in Hg by lia.
    apply (count_while_at (λ f, icmp (largest_key f) k <? 0) part), Z.ltb_ge in Hg. cbn [largest_key NewFdWithKeyRange InternalKey.Encode] in Hg.
    pose proof (proj1 (ls_keys _ Hf g (list_elem_of_lookup_2 _ _ _ Eg))) as [_ Wg].
    pose proof (proj1 (ls_keys _ Hf f (list_elem_of_lookup_2 _ _ _ Ej))) as [_ Wf].
    apply (cmp_le_trans (wf := ikey_ok) (cmp := icmp) k (largest g)); [done..|by apply cmp_flip_le|]. by apply (level_largest_grow files _ _ g f Hf Eg Ej).
Qed.
End Keys.

(** ** Overlap with a level *)

Section Overlap.
Context (wf : bytes → Prop) (c : Comparator) `{!ComparatorLaws wf c}.
#[local] Abbreviation ikey_ok := (InternalKeyOrder.ikey_ok wf).
#[local] Abbreviation icmp := (InternalKeyComparator.Compare c).
#[local] Abbreviation cmp := (CompareWithoutTimestamp c).

(** A key of a type that is written to tables: no key of its user key is before the
    one that [SetMinPossibleForUserKey] makes. *)
Definition key_typed (k : bytes) : Prop := ExtractInternalKeyFooter k <= PackSequenceAndType kMaxSequenceNumber kValueTypeForSeek.

Lemma min_key_ok u : bytes_ok u → wf u → ikey_ok (InternalKey.SetMinPossibleForUserKey [] u).
Proof using.
  intros Hb Hw. apply InternalKeyOrder.ikey_ok_parsed. split; [|done]. by split_and!.
Qed.
Lemma min_key_le u k : bytes_ok u → wf u → ikey_ok k → key_typed k →
  icmp (InternalKey.SetMinPossibleForUserKey [] u) k <= 0 ↔ Compare c u (ExtractUserKey k) <= 0.
Proof using.
  intros Hb Hw Hk Ht. rewrite InternalKeyOrder.Compare_lex. unfold InternalKey.SetMinPossibleForUserKey. rewrite AppendInternalKey_eq.
  cbn [user_key sequence type]. rewrite ExtractUserKey_app, footer_app by (by apply Pack_range).
  unfold key_typed in Ht. destruct (Z.eqb_spec (Compare c u (ExtractUserKey k)) 0) as [->|]; cbn [negb]; [|done].
  unfold InternalKeyComparator.footer_compare. repeat case_match; lia.
Qed.

Definition overlaps (lo hi : option bytes) (f : FileMetaData) : bool :=
  negb (AfterFile c lo (NewFdWithKeyRange f) || BeforeFile c hi (NewFdWithKeyRange f)).
(** A bound of a range of user keys: none, or a key that can be ordered. *)
Definition bound_ok (k : option bytes) : Prop := ∀ u, k = Some u → bytes_ok u ∧ wf u.

Lemma overlaps_spec lo hi f : overlaps lo hi f = true ↔
  (∀ k, lo = Some k → cmp k (largest_user_key f) <= 0) ∧ (∀ k, hi = Some k → 0 <= cmp k (smallest_user_key f)).
Proof using.
  unfold overlaps, AfterFile, BeforeFile. change (ExtractUserKey (largest_key (NewFdWithKeyRange f))) with (largest_user_key f).
  change (ExtractUserKey (smallest_key (NewFdWithKeyRange f))) with (smallest_user_key f).
  rewrite negb_true_iff, orb_false_iff. split.
  - intros [H1 H2]. split; intros k ->; lia.
  - intros [H1 H2]. split; [destruct lo as [k|]; [specialize (H1 k eq_refl); lia|done]|destruct hi as [k|]; [specialize (H2 k eq_refl); lia|done]].
Qed.
Lemma overlaps_after lo hi f k : lo = Some k → 0 < cmp k (largest_user_key f) → overlaps lo hi f = false.
Proof using. intros -> H. apply not_true_is_false. rewrite overlaps_spec. intros [H1 _]. specialize (H1 k eq_refl). lia. Qed.

(** The first file that the range can start in, and whether the range is before it. *)
Lemma disjoint_overlap level lo hi n : level_ordered wf c level → bound_ok hi →
  (∀ j f, level !! j = Some f → (j < n)%nat → overlaps lo hi f = false) →
  (∀ j f k, level !! j = Some f → (n <= j)%nat → lo = Some k → cmp k (largest_user_key f) <= 0) →
  existsb (overlaps lo hi) level = match level !! n with Some f => negb (BeforeFile c hi (NewFdWithKeyRange f)) | None => false end.
Proof using ComparatorLaws0.
  intros Hlv Hhi Hbefore Hafter. apply eq_true_iff_eq. rewrite existsb_exists. split.
  - intros (f & Hin & Hov). apply list_elem_of_In, list_elem_of_lookup_1 in Hin as [j Ej].
    destruct (le_lt_dec n j) as [Hnj|Hlt]; [|by rewrite (Hbefore j f Ej Hlt) in Hov].
    destruct (lookup_lt_is_Some_2 level n) as [g Eg]; [apply lookup_lt_Some in Ej; lia|]. rewrite Eg.
    apply overlaps_spec in Hov as [_ Hov]. unfold BeforeFile. destruct hi as [k|]; [|done]. specialize (Hov k eq_refl).
    destruct (Hhi k eq_refl) as [_ Wk]. change (ExtractUserKey _) with (smallest_user_key g).
    rewrite negb_true_iff. apply Z.ltb_ge. destruct (decide (n = j)) as [->|]; [congruence|].
    pose proof (sorted_lookup _ _ (level_bounds_grow wf c level Hlv) n j g f Eg Ej ltac:(lia)) as ([Wg _ _] & [Wf _ _] & Hle & _).
    apply cmp_flip_le; [done..|]. apply cmp_flip_le in Hov; [|done..]. by apply (key_le_trans wf c _ (smallest_user_key f)).
  - destruct (level !! n) as [f|] eqn:E; [|done]. intros H. exists f. split; [by apply list_elem_of_In, (list_elem_of_lookup_2 _ n)|].
    apply overlaps_spec. split; [by intros k ->; apply (Hafter n f k)|]. intros k ->. unfold BeforeFile in H. cbn in H.
    apply negb_true_iff, Z.ltb_ge in H. exact H.
Qed.

Lemma FindFile_spec level k : level_sorted wf c level → ikey_ok k →
  ∃ n : nat, FindFile c (DoGenerateLevelFilesBrief level) k = Some (Z.of_nat n) ∧ (n <= length level)%nat ∧
    (∀ j f, level !! j = Some f → (j < n)%nat → icmp (largest f) k < 0) ∧ (∀ j f, level !! j = Some f → (n <= j)%nat → icmp k (largest f) <= 0).
Proof using ComparatorLaws0.
  intros Hlv Hk. unfold FindFile. cbn [num_files DoGenerateLevelFilesBrief]. pose proof (ls_size _ _ _ Hlv). pose proof (Zlen_nonneg level).
  rewrite wrap_small by (unfold is_u; lia).
  destruct (FindFileInRange_spec wf c level k 0 (Zlen level)) as (n & E & Hn & H1 & H2); [done..|lia|lia|].
  exists n. split; [done|]. split; [unfold Zlen in *; lia|]. split; intros j f Ej Hj; [apply (H1 j); [done|lia]|].
  apply (H2 ltac:(apply lookup_lt_Some in Ej; unfold Zlen; lia) j f Ej Hj).
Qed.

(** Without timestamps the search finds whether a file of the level overlaps. *)
Lemma SomeFileOverlapsRange_spec disjoint level lo hi : bound_ok lo → bound_ok hi →
  (disjoint = true → level_sorted wf c level ∧ timestamp_size c = 0 ∧ ∀ f, f ∈ level → key_typed (largest f)) →
  SomeFileOverlapsRange c disjoint (DoGenerateLevelFilesBrief level) lo hi = Some (existsb (overlaps lo hi) level).
Proof using ComparatorLaws0.
  intros Hlo Hhi Hd. unfold SomeFileOverlapsRange. destruct disjoint; cbn [negb].
  2: { f_equal. cbn [brief_files DoGenerateLevelFilesBrief]. induction level as [|f level IH]; [done|]. cbn. rewrite IH; done. }
  destruct (Hd eq_refl) as (Hlv & Hts & Htyped). pose proof (level_sorted_ordered wf c level Hlv) as Hord.
  assert (∃ n : nat, (match lo with Some k => FindFile c (DoGenerateLevelFilesBrief level) (InternalKey.Encode (InternalKey.SetMinPossibleForUserKey [] k))
      | None => Some 0 end) = Some (Z.of_nat n) ∧ (∀ j f, level !! j = Some f → (j < n)%nat → overlaps lo hi f = false) ∧
      (∀ j f k, level !! j = Some f → (n <= j)%nat → lo = Some k → cmp k (largest_user_key f) <= 0)) as (n & -> & Hbefore & Hafter).
  { destruct lo as [k|]; [|exists 0%nat; split_and!; [done|intros; lia|done]]. destruct (Hlo k eq_refl) as [Hb Hw].
    destruct (FindFile_spec level _ Hlv (min_key_ok k Hb Hw)) as (n & E & _ & H1 & H2). exists n. split; [exact E|].
    assert (∀ j f, level !! j = Some f → ikey_ok (largest f) ∧ key_typed (largest f)) as Hl.
    { intros j f Ej. apply list_elem_of_lookup_2 in Ej. split; [by apply (ls_keys _ _ _ Hlv f)|by apply Htyped]. }
    split; [intros j f Ej Hj; apply (overlaps_after _ hi f k eq_refl)|intros j f k' Ej Hj [= <-]]; destruct (Hl j f Ej) as [Hf Ht];
      rewrite cl_no_ts_plain by done; pose proof (min_key_le k (largest f) Hb Hw Hf Ht).
    - specialize (H1 j f Ej Hj). apply cmp_flip_lt in H1; [|done|by apply min_key_ok]. unfold largest_user_key. lia.
    - specialize (H2 j f Ej Hj). unfold largest_user_key. tauto. }
  cbn [mbind option_bind num_files brief_files DoGenerateLevelFilesBrief]. rewrite (disjoint_overlap level lo hi n) by done.
  destruct (Z.leb_spec (Zlen level) (Z.of_nat n)).
  - rewrite lookup_ge_None_2; [done|]. unfold Zlen in *. lia.
  - destruct (lookup_lt_is_Some_2 level n) as [f Ef]; [unfold Zlen in *; lia|]. by rewrite vec_at_nat, list_lookup_fmap, Ef.
Qed.
End Overlap.

(** ** The version *)

Lemma non_empty_levels_spec n files : (n <= length files)%nat →
  ∃ k, non_empty_levels n files = Z.of_nat k ∧ (k <= n)%nat ∧ ∀ l level, (k <= l < n)%nat → files !! l = Some level → level = [].
Proof.
  induction n as [|n IH]; intros Hn; cbn [non_empty_levels]; [exists 0%nat; split_and!; [done..|lia]|].
  destruct (lookup_lt_is_Some_2 files n) as [level E]; [lia|]. rewrite E. destruct level as [|f level].
  - destruct IH as (k & -> & Hk & Hempty); [lia|]. exists k. split_and!; [done|lia|]. intros l level Hl El.
    destruct (decide (l = n)) as [->|]; [congruence|]. apply (Hempty l); [lia|done].
  - exists (S n). split_and!; [done..|]. lia.
Qed.

Section Prepare.
Context (wf : bytes → Prop) (c : Comparator) `{!ComparatorLaws wf c} (v : VersionStorageInfo).
#[local] Abbreviation icmp := (InternalKeyComparator.Compare c).
#[local] Abbreviation files := (files_ v).

(** A version whose files are in order. *)
Record files_in_order : Prop := {
  fi_levels : ∀ l level, (1 <= l)%nat → files !! l = Some level → level_sorted wf c level;
  fi_keys : ∀ level f, level ∈ files → f ∈ level → keys_ok wf f ∧ icmp (smallest f) (largest f) <= 0;
  fi_size : ∀ level, level ∈ files → Zlen level < 2 ^ 31;
  fi_count : num_levels v < 2 ^ 31
}.
Context (Hv : files_in_order).

Lemma files_levels_ordered : levels_ordered wf c files.
Proof using Hv ComparatorLaws0. intros l level Hl E. apply level_sorted_ordered; [done|]. by apply (fi_levels Hv l). Qed.

(** What is prepared, apart from the files at the bottom. *)
Record prepared (p : Prepared) (k : nat) : Prop := {
  pr_files : files_ (storage p) = files;
  pr_levels : num_non_empty_levels_ p = Z.of_nat k ∧ (k <= length files)%nat;
  pr_empty : ∀ l level, (k <= l)%nat → files !! l = Some level → level = [];
  pr_brief : level_files_brief_ p = map DoGenerateLevelFilesBrief (take k files);
  pr_indexer : (1 < k)%nat → indexes c (file_indexer_ p) files k
}.

Lemma UpdateIndex_total k : (k <= length files)%nat →
  ∃ t, FileIndexer.UpdateIndex c FileIndexer.New (Z.of_nat k) files = Some t ∧ ((1 < k)%nat → indexes c t files k).
Proof using Hv ComparatorLaws0.
  intros Hk. pose proof (fi_count Hv). unfold num_levels in *. destruct k as [|[|k]].
  - eexists. split; [done|lia].
  - unfold FileIndexer.UpdateIndex. destruct (lookup_lt_is_Some_2 files 0) as [level E]; [lia|].
    assert (vec_at files (Z.of_nat 1 - 1) = Some level) as E0 by (rewrite <- E; apply (vec_at_nat files 0)).
    rewrite E0. cbn. eexists. split; [done|lia].
  - destruct (UpdateIndex_spec wf c files (S (S k))) as (t & E & Ht); [apply files_levels_ordered|lia|lia|]. by exists t.
Qed.

(** The state before the files at the bottom are looked for. *)
Lemma prepare_spec : ∃ p k, GenerateFileIndexer c (UpdateNumNonEmptyLevels (NewPrepared v)) = Some p ∧ bottommost_files_ p = [] ∧
  prepared (GenerateLevel0NonOverlapping c (GenerateLevelFilesBrief p)) k.
Proof using Hv ComparatorLaws0.
  unfold GenerateFileIndexer, UpdateNumNonEmptyLevels, NewPrepared.
  cbn [storage num_non_empty_levels_ file_indexer_ level_files_brief_ level0_non_overlapping_ bottommost_files_].
  destruct (non_empty_levels_spec (length files) files) as (k & -> & Hk & Hempty); [done|].
  destruct (UpdateIndex_total k Hk) as (t & -> & Ht). cbn [mbind option_bind]. eexists _, k. split; [done|]. split; [done|].
  unfold GenerateLevel0NonOverlapping, GenerateLevelFilesBrief, ztake.
  split; cbn [storage num_non_empty_levels_ file_indexer_ level_files_brief_]; try done.
  - intros l level Hl E. apply (Hempty l); [|done]. split; [done|]. by apply lookup_lt_Some in E.
  - by rewrite Nat2Z.id.
Qed.

(** ** The files at the bottom *)

Section Bottom.
Context (p : Prepared) (k : nat) (Hp : prepared p k).

Lemma prepared_level l : LevelFiles (storage p) (Z.of_nat l) = default [] (files !! l).
Proof using Hp. unfold LevelFiles. by rewrite (pr_files _ _ Hp), Nat2Z.id. Qed.

Lemma FindFile_total level key : Zlen level < 2 ^ 31 →
  ∃ n, FindFile c (DoGenerateLevelFilesBrief level) key = Some n ∧ 0 <= n.
Proof using.
  intros H. unfold FindFile, FindFileInRange, assertion. cbn [num_files brief_files DoGenerateLevelFilesBrief].
  pose proof (Zlen_nonneg level). rewrite wrap_small by (unfold is_u; lia).
  replace (Zlen (map NewFdWithKeyRange level)) with (Zlen level) by (unfold Zlen; by rewrite length_map).
  rewrite !(proj2 (Z.leb_le _ _)) by lia. cbn. eexists. split; [done|]. lia.
Qed.
Lemma SomeFileOverlapsRange_total disjoint level lo hi : Zlen level < 2 ^ 31 →
  is_Some (SomeFileOverlapsRange c disjoint (DoGenerateLevelFilesBrief level) lo hi).
Proof using.
  intros H. unfold SomeFileOverlapsRange. destruct disjoint; cbn [negb]; [|by eexists].
  assert (∃ n, (match lo with Some k => FindFile c (DoGenerateLevelFilesBrief level) (InternalKey.Encode (InternalKey.SetMinPossibleForUserKey [] k))
    | None => Some 0 end) = Some n ∧ 0 <= n) as (n & -> & Hn) by (destruct lo; [by apply FindFile_total|by exists 0]).
  cbn [mbind option_bind num_files brief_files DoGenerateLevelFilesBrief]. destruct (Z.leb_spec (Zlen level) n); [by eexists|].
  destruct (lookup_lt_is_Some_2 level (Z.to_nat n)) as [f E]; [unfold Zlen in *; lia|].
  replace n with (Z.of_nat (Z.to_nat n)) by lia. rewrite vec_at_nat, list_lookup_fmap, E. by eexists.
Qed.
Lemma OverlapInLevel_total l lo hi : is_Some (OverlapInLevel c p (Z.of_nat l) lo hi).
Proof using Hp Hv.
  unfold OverlapInLevel. destruct (pr_levels _ _ Hp) as [-> Hk]. destruct (Z.leb_spec (Z.of_nat k) (Z.of_nat l)); [by eexists|].
  destruct (lookup_lt_is_Some_2 files l) as [level E]; [lia|].
  rewrite (pr_brief _ _ Hp), vec_at_nat, list_lookup_fmap, lookup_take_lt, E by lia. cbn [fmap option_fmap option_map mbind option_bind].
  apply SomeFileOverlapsRange_total, (fi_size Hv), (list_elem_of_lookup_2 _ _ _ E).
Qed.
Lemma OverlapInLevel_spec l lo hi : bound_ok wf lo → bound_ok wf hi → timestamp_size c = 0 →
  (∀ level f, level ∈ files → f ∈ level → key_typed (largest f)) →
  OverlapInLevel c p (Z.of_nat l) lo hi = Some (existsb (overlaps c lo hi) (default [] (files !! l))).
Proof using Hp Hv ComparatorLaws0.
  intros Hlo Hhi Hts Hty. unfold OverlapInLevel. destruct (pr_levels _ _ Hp) as [-> Hk]. destruct (Z.leb_spec (Z.of_nat k) (Z.of_nat l)).
  - destruct (files !! l) as [level|] eqn:E; [|done]. by rewrite (pr_empty _ _ Hp l level) by (done || lia).
  - destruct (lookup_lt_is_Some_2 files l) as [level E]; [lia|].
    rewrite (pr_brief _ _ Hp), vec_at_nat, list_lookup_fmap, lookup_take_lt, E by lia. cbn [fmap option_fmap option_map mbind option_bind default].
    apply (SomeFileOverlapsRange_spec wf); [done..|]. intros Hl. split; [apply (fi_levels Hv l); [lia|done]|]. split; [done|].
    intros f Hf. apply (Hty level); [|done]. apply (list_elem_of_lookup_2 _ _ _ E).
Qed.

(** Whether a level has a file that counts as below a file with these bounds. *)
Definition counts_below (top : bool) (lo hi : bytes) (j : nat) : bool :=
  match default [] (files !! j) with
  | [] => false
  | _ => top || default false (OverlapInLevel c p (Z.of_nat j) (Some lo) (Some hi))
  end.
Lemma exists_below_spec lo hi last n : ∀ l,
  exists_below c p lo hi last n (Z.of_nat l) = Some (existsb (counts_below (last =? 0) lo hi) (seq l n)).
Proof using Hp Hv.
  induction n as [|n IH]; intros l; [done|]. cbn [exists_below seq existsb]. rewrite prepared_level. unfold counts_below at 1.
  replace (Z.of_nat l + 1) with (Z.of_nat (S l)) by lia. rewrite IH.
  destruct (default [] (files !! l)) as [|f level]; [done|]. rewrite (proj2 (Z.eqb_neq (Zlen (f :: level)) 0)) by (unfold Zlen; cbn; lia).
  destruct (last =? 0); [done|]. destruct (OverlapInLevel_total l (Some lo) (Some hi)) as [b ->]. cbn. by destruct b.
Qed.

(** Files of level [l] are numbered from the newest if it is level 0. *)
Definition might_exist_after (l i : nat) (f : FileMetaData) : bool :=
  (Nat.eqb l 0 && negb (Nat.eqb (S i) (length (default [] (files !! l))))) ||
  existsb (counts_below (Nat.eqb l 0) (smallest_user_key f) (largest_user_key f)) (seq (S l) (length files - S l)).
Lemma RangeMightExist_spec l i f : (l < length files)%nat → default [] (files !! l) !! i = Some f →
  RangeMightExistAfterSortedRun c p (smallest_user_key f) (largest_user_key f) (Z.of_nat l) (if Z.of_nat l =? 0 then int32 (Z.of_nat i) else -1) =
  Some (might_exist_after l i f).
Proof using Hp Hv.
  intros Hl Hi. unfold RangeMightExistAfterSortedRun, might_exist_after. pose proof (lookup_lt_Some _ _ _ Hi) as Hlen.
  destruct (files !! l) as [level|] eqn:E; [|done]. cbn [default from_option Datatypes.id] in *.
  assert (Zlen level < 2 ^ 31) by (apply (fi_size Hv), (list_elem_of_lookup_2 _ _ _ E)). unfold Zlen in *. rewrite (int32_small (Z.of_nat i)) by lia.
  replace (Z.of_nat l + 1) with (Z.of_nat (S l)) by lia. unfold num_levels. rewrite (pr_files _ _ Hp), exists_below_spec.
  replace (Z.to_nat (Z.of_nat (length files) - Z.of_nat (S l))) with (length files - S l)%nat by lia.
  replace (Z.of_nat l =? 0) with (Nat.eqb l 0) by (destruct l; done || (cbn; lia)).
  destruct l as [|l]; [|done]. change (Nat.eqb 0 0) with true. cbn [andb]. change (LevelFiles (storage p) 0) with (LevelFiles (storage p) (Z.of_nat 0)).
  rewrite prepared_level, E. cbn [default from_option Datatypes.id]. rewrite wrap_small, int32_small by (unfold is_u; lia).
  rewrite (proj2 (Z.eqb_neq (Z.of_nat i) (-1))) by lia. cbn [negb eqb assertion mbind option_bind].
  replace (Z.of_nat i =? Z.of_nat (length level) - 1) with (Nat.eqb (S i) (length level)).
  - by destruct (Nat.eqb (S i) (length level)).
  - destruct (Nat.eqb_spec (S i) (length level)); lia.
Qed.

Definition bottom_of_level (l i : nat) (level : list FileMetaData) : list (Z * FileMetaData) :=
  omap id (imap (λ j f, if might_exist_after l (i + j) f then None else Some (Z.of_nat l, f)) level).
Lemma bottommost_in_level_spec l rest : (l < length files)%nat → ∀ i, drop i (default [] (files !! l)) = rest →
  bottommost_in_level c p (Z.of_nat l) (Z.of_nat i) (map NewFdWithKeyRange rest) = Some (bottom_of_level l i rest).
Proof using Hp Hv.
  intros Hl. induction rest as [|f rest IH]; intros i Hd; [done|]. cbn [map bottommost_in_level file_metadata NewFdWithKeyRange].
  assert (default [] (files !! l) !! i = Some f) as Ei by (rewrite <- (Nat.add_0_r i), <- lookup_drop, Hd; done).
  change (ExtractUserKey (smallest_key _)) with (smallest_user_key f). change (ExtractUserKey (largest_key _)) with (largest_user_key f).
  rewrite (RangeMightExist_spec l i f Hl Ei). cbn [mbind option_bind].
  replace (Z.of_nat i + 1) with (Z.of_nat (S i)) by lia.
  rewrite (IH (S i)) by (by rewrite <- Nat.add_1_r, <- drop_drop, Hd). cbn [mbind option_bind].
  unfold bottom_of_level. rewrite imap_cons. cbn [omap list_omap]. rewrite Nat.add_0_r.
  replace (omap id (imap _ rest)) with (omap id (imap ((λ j f, if might_exist_after l (i + j) f then None else Some (Z.of_nat l, f)) ∘ S) rest)).
  - by destruct (might_exist_after l i f).
  - f_equal. apply imap_ext. intros j g _. cbn. by rewrite Nat.add_succ_r.
Qed.

Definition bottom_of_levels (l n : nat) : list (Z * FileMetaData) :=
  concat (map (λ j, bottom_of_level j 0 (default [] (files !! j))) (seq l n)).
Lemma bottommost_in_levels_spec n : ∀ l, (l + n <= length files)%nat →
  bottommost_in_levels c p (Z.of_nat l) (map DoGenerateLevelFilesBrief (take n (drop l files))) = Some (bottom_of_levels l n).
Proof using Hp Hv.
  induction n as [|n IH]; intros l Hl; [done|]. destruct (lookup_lt_is_Some_2 files l) as [level E]; [lia|].
  rewrite (drop_S _ _ _ E). cbn [take map bottommost_in_levels brief_files DoGenerateLevelFilesBrief].
  change 0 with (Z.of_nat 0) at 1. rewrite (bottommost_in_level_spec l level) by (lia || by rewrite E). cbn [mbind option_bind].
  replace (Z.of_nat l + 1) with (Z.of_nat (S l)) by lia. rewrite IH by lia. cbn [mbind option_bind].
  unfold bottom_of_levels. cbn [seq map concat]. by rewrite E.
Qed.
End Bottom.

(** A prepared version, with the files at the bottom. *)
Lemma PrepareForVersionAppend_spec allow_ingest_behind : ∃ p0 p k, PrepareForVersionAppend c allow_ingest_behind v = Some p ∧
  prepared p0 k ∧ prepared p k ∧ (allow_ingest_behind = false → bottommost_files_ p = bottom_of_levels p0 0 k).
Proof using Hv ComparatorLaws0.
  destruct prepare_spec as (q & k & Eq & Hbot & Hp). exists (GenerateLevel0NonOverlapping c (GenerateLevelFilesBrief q)).
  unfold PrepareForVersionAppend. rewrite Eq. cbn [mbind option_bind]. set (p0 := GenerateLevel0NonOverlapping _ _) in *.
  destruct allow_ingest_behind; cbn [negb mbind option_bind].
  - eexists _, k. split; [done|]. split; [done|]. split; [|done]. destruct Hp. by split.
  - unfold GenerateBottommostFiles. replace (bottommost_files_ p0) with (@nil (Z * FileMetaData)) by (by rewrite <- Hbot).
    cbn [assertion mbind option_bind]. rewrite (pr_brief _ _ Hp). pose proof (bottommost_in_levels_spec p0 k Hp k 0) as H.
    rewrite drop_0 in H. change (Z.of_nat 0) with 0 in H. rewrite H by apply (pr_levels _ _ Hp). cbn [mbind option_bind].
    eexists _, k. split; [done|]. split; [done|]. split; [|done]. destruct Hp. by split.
Qed.
End Prepare.

(** ** The properties *)

Section Properties.
Context (wf : bytes → Prop) (c : Comparator) `{!ComparatorLaws wf c}.
#[local] Abbreviation icmp := (InternalKeyComparator.Compare c).
#[local] Abbreviation cmp := (CompareWithoutTimestamp c).

(** The bounds of the files of a version are keys in order, and its vectors have
    sizes that fit the integers that index them. *)
Record version_bounds (v : VersionStorageInfo) : Prop := {
  vb_keys : ∀ level f, level ∈ files_ v → f ∈ level → keys_ok wf f ∧ icmp (smallest f) (largest f) <= 0;
  vb_size : ∀ level, level ∈ files_ v → Zlen level < 2 ^ 31;
  vb_count : num_levels v < 2 ^ 31
}.
Lemma version_in_order v : version_wf c v → version_bounds v → files_in_order wf c v.
Proof using.
  intros Hw [Hk Hs Hc]. split; [|done..]. intros l level Hl E. pose proof (list_elem_of_lookup_2 _ _ _ E) as Hin. split; [by intros f; apply Hk| |by apply Hs].
  pose proof (vw_level _ _ Hw (Z.of_nat l)) as H. unfold LevelFiles in H. rewrite Nat2Z.id, E in H.
  eapply StronglySorted_weaken; [|apply H]; [by intros a b [_ ?]|]. apply lookup_lt_Some in E. unfold num_levels. lia.
Qed.

Lemma elem_of_bottom v p l n x : x ∈ bottom_of_levels c v p l n ↔ ∃ j i f, x = (Z.of_nat j, f) ∧ (l <= j < l + n)%nat ∧
  default [] (files_ v !! j) !! i = Some f ∧ might_exist_after c v p j i f = false.
Proof using.
  unfold bottom_of_levels. rewrite list_elem_of_In, in_concat. split.
  - intros (y & (j & <- & [H1 H2]%in_seq)%in_map_iff & Hx). apply list_elem_of_In, list_elem_of_omap in Hx as (o & Ho & Ex).
    apply elem_of_lookup_imap in Ho as (i & f & -> & Ei). cbn in Ex. destruct (might_exist_after c v p j i f) eqn:E; [done|].
    injection Ex as <-. exists j, i, f. done.
  - intros (j & i & f & -> & Hj & Ei & Em). exists (bottom_of_level c v p j 0 (default [] (files_ v !! j))). split.
    + apply in_map_iff. exists j. split; [done|]. apply in_seq. lia.
    + apply list_elem_of_In, list_elem_of_omap. eexists. split; [|done]. apply elem_of_lookup_imap. exists i, f. split; [|done].
      cbn. by rewrite Em.
Qed.

(** No file below has a key in the range of the file; below level 0 every file
    counts, and so do the older files of level 0 itself. *)
Definition at_bottom (v : VersionStorageInfo) (l : Z) (i : nat) (f : FileMetaData) : Prop :=
  if decide (l = 0) then S i = length (LevelFiles v 0) ∧ ∀ l', 0 < l' → LevelFiles v l' = []
  else ∀ l' g, l < l' → g ∈ LevelFiles v l' →
    0 < cmp (smallest_user_key f) (largest_user_key g) ∨ cmp (largest_user_key f) (smallest_user_key g) < 0.

Section AtBottom.
Context (v : VersionStorageInfo) (p : Prepared) (k : nat) (Hp : prepared c v p k) (Hv : files_in_order wf c v).
Context (Hts : timestamp_size c = 0) (Hty : ∀ level f, level ∈ files_ v → f ∈ level → key_typed (largest f)).

Lemma level_outside l' : (l' < length (files_ v))%nat ∨ default [] (files_ v !! l') = [].
Proof using. destruct (files_ v !! l') eqn:E; [left; by apply lookup_lt_Some in E|by right]. Qed.
Lemma might_exist_level0 i f : might_exist_after c v p 0 i f = false ↔ at_bottom v 0 i f.
Proof using.
  unfold might_exist_after, at_bottom, LevelFiles. rewrite orb_false_iff, decide_True by done.
  change (Nat.eqb 0 0) with true. cbn [andb]. rewrite negb_false_iff, Nat.eqb_eq. change (Z.to_nat 0) with 0%nat.
  apply and_iff_compat_l. split.
  - intros H l' Hl'. destruct (level_outside (Z.to_nat l')) as [Hlt|]; [|done]. rewrite <- not_true_iff_false, existsb_exists in H.
    destruct (default [] (files_ v !! Z.to_nat l')) as [|g level] eqn:E; [done|]. exfalso. apply H. exists (Z.to_nat l').
    split; [apply in_seq; lia|]. unfold counts_below. by rewrite E.
  - intros H. apply not_true_iff_false. rewrite existsb_exists. intros (j & Hj%in_seq & Hc). unfold counts_below in Hc.
    specialize (H (Z.of_nat j) ltac:(lia)). rewrite Nat2Z.id in H. by rewrite H in Hc.
Qed.

Lemma counts_below_overlaps l i f j : LevelFiles v l !! i = Some f → counts_below c v p false (smallest_user_key f) (largest_user_key f) j =
  existsb (overlaps c (Some (smallest_user_key f)) (Some (largest_user_key f))) (LevelFiles v (Z.of_nat j)).
Proof using All.
  intros Ei. unfold counts_below, LevelFiles in *. rewrite Nat2Z.id.
  assert (∀ u, (u = smallest_user_key f ∨ u = largest_user_key f) → bytes_ok u ∧ wf u) as Hu.
  { destruct (files_ v !! Z.to_nat l) as [level|] eqn:E; [|done]. destruct (fi_keys _ _ _ Hv level f) as [[Hs Hl] _].
    - by apply (list_elem_of_lookup_2 _ _ _ E).
    - by apply (list_elem_of_lookup_2 _ _ _ Ei).
    - intros u [-> | ->]; (split; [by apply bytes_ok_ztake, Hs || by apply bytes_ok_ztake, Hl|apply Hs || apply Hl]). }
  rewrite (OverlapInLevel_spec wf c v Hv p k Hp) by (try done; intros u [= <-]; auto). by destruct (default [] (files_ v !! j)).
Qed.
Lemma might_exist_upper l i f : LevelFiles v (Z.of_nat (S l)) !! i = Some f →
  might_exist_after c v p (S l) i f = false ↔ at_bottom v (Z.of_nat (S l)) i f.
Proof using All.
  intros Ei. unfold might_exist_after, at_bottom. rewrite orb_false_iff, decide_False by lia.
  change (Nat.eqb (S l) 0) with false. cbn [andb]. split.
  - intros [_ H] l' g Hl' Hg. apply not_true_iff_false in H. rewrite existsb_exists in H.
    destruct (overlaps c (Some (smallest_user_key f)) (Some (largest_user_key f)) g) eqn:E.
    + exfalso. apply H. exists (Z.to_nat l'). destruct (level_outside (Z.to_nat l')) as [Hlt|En].
      * split; [apply in_seq; lia|]. rewrite (counts_below_overlaps _ _ _ _ Ei), Z2Nat.id by lia.
        apply existsb_exists. exists g. split; [by apply list_elem_of_In|done].
      * unfold LevelFiles in Hg. rewrite En in Hg. by apply elem_of_nil in Hg.
    + apply not_true_iff_false in E. rewrite overlaps_spec in E. destruct (Z_le_gt_dec (cmp (smallest_user_key f) (largest_user_key g)) 0); [|lia].
      right. apply Z.nle_gt. intros Hle. apply E. split; by intros ? [= <-].
  - intros H. split; [done|]. apply not_true_iff_false. rewrite existsb_exists. intros (j & Hj%in_seq & Hcj).
    rewrite (counts_below_overlaps _ _ _ _ Ei), existsb_exists in Hcj. destruct Hcj as (g & Hg & Ho).
    apply overlaps_spec in Ho as [H1 H2]. specialize (H1 _ eq_refl). specialize (H2 _ eq_refl).
    destruct (H (Z.of_nat j) g); [lia|by apply list_elem_of_In|lia..].
Qed.
End AtBottom.

(** C16: in a well-formed version whose keys have no timestamps, the files that
    [PrepareForVersionAppend] finds to be at the bottom of the tree are exactly those
    with no file below them that their range of user keys overlaps; a file of level 0
    is at the bottom only if it is the oldest and there are no files below. The binary
    search of each level answers what looking at every file would, and no assertion
    fails. *)
Theorem bottommost_files_exact v : version_wf c v → version_bounds v → timestamp_size c = 0 →
  (∀ level f, level ∈ files_ v → f ∈ level → key_typed (largest f)) →
  ∃ p, PrepareForVersionAppend c false v = Some p ∧
    ∀ l f, (l, f) ∈ bottommost_files_ p ↔ ∃ i, 0 <= l ∧ LevelFiles v l !! i = Some f ∧ at_bottom v l i f.
Proof using ComparatorLaws0.
  intros Hw Hb Hts Hty. pose proof (version_in_order v Hw Hb) as Hv.
  destruct (PrepareForVersionAppend_spec wf c v Hv false) as (p0 & p & k & E & Hp0 & Hp & Hbot). exists p. split; [exact E|].
  assert (∀ l i f, LevelFiles v (Z.of_nat l) !! i = Some f → might_exist_after c v p0 l i f = false ↔ at_bottom v (Z.of_nat l) i f) as Hm.
  { intros [|l] i f Ei; [apply might_exist_level0|by apply (might_exist_upper v p0 k)]. }
  intros l f. rewrite (Hbot eq_refl), elem_of_bottom. split.
  - intros (j & i & f' & [= -> ->] & Hj & Ei & Em). exists i. split; [lia|].
    assert (LevelFiles v (Z.of_nat j) !! i = Some f') as Ei' by (unfold LevelFiles; by rewrite Nat2Z.id). split; [done|]. by apply Hm.
  - intros (i & Hl & Ei & Hat). exists (Z.to_nat l), i, f. rewrite Z2Nat.id by done. rewrite Hm by (by rewrite Z2Nat.id).
    rewrite Z2Nat.id by done. split_and!; try done; [lia|]. apply Nat.nle_gt. intros Hge. unfold LevelFiles in Ei.
    destruct (files_ v !! Z.to_nat l) as [level|] eqn:El; [|done]. assert (level = []) as -> by (apply (pr_empty _ _ _ _ Hp0 (Z.to_nat l)); [lia|done]). done.
Qed.
End Properties.

(** Four levels, one of them empty; a user key at the end of a file and at the start of
    the next *)
Module PrepareExample.
Import VersionExample.
Definition tree : VersionStorageInfo := mkVersionStorageInfo
  [[file 8 9 3 0 97 99]; [file 4 5 1 0 97 98; file 5 4 1 0 98 100]; []; [file 2 2 1 0 97 97; file 3 2 1 0 98 99]] ∅ []
  [[]; []; []; []] true kMustPresent.

Lemma tree_files (P : FileMetaData → Prop) : Forall (Forall P) (files_ tree) → ∀ level f, level ∈ files_ tree → f ∈ level → P f.
Proof. intros H level f Hl Hf. rewrite Forall_forall in H. specialize (H level Hl). rewrite Forall_forall in H. by apply H. Qed.
Lemma tree_keys level f : level ∈ files_ tree → f ∈ level → keys_ok bytes_ok f.
Proof.
  apply (tree_files (keys_ok bytes_ok)). repeat first [apply Forall_nil_2|apply Forall_cons_2]; apply file_keys; by vm_compute.
Qed.
Lemma tree_bounds : version_bounds bytes_ok BytewiseComparator tree.
Proof.
  split; [|intros level Hl|done].
  - intros level f Hl Hf. split; [by apply (tree_keys level)|]. revert level f Hl Hf. apply tree_files.
    repeat first [apply Forall_nil_2|apply Forall_cons_2]; by vm_compute.
  - assert (Forall (λ level, Zlen level < 2 ^ 31) (files_ tree)) as H by (repeat first [apply Forall_nil_2|apply Forall_cons_2]; by vm_compute).
    rewrite Forall_forall in H. by apply H.
Qed.
Lemma tree_typed level f : level ∈ files_ tree → f ∈ level → key_typed (largest f).
Proof. apply (tree_files (λ f, key_typed (largest f))). repeat first [apply Forall_nil_2|apply Forall_cons_2]; by vm_compute. Qed.
Lemma tree_wf : version_wf BytewiseComparator tree.
Proof.
  apply (CheckConsistencyDetails_exact bytes_ok BytewiseComparator tree); [done| |by vm_compute].
  assert (levels_from tree 0 (length (files_ tree)) = concat (files_ tree)) as -> by done.
  intros f Hf%list_elem_of_In%in_concat. destruct Hf as (level & Hl & Hf). apply (tree_keys level); by apply list_elem_of_In.
Qed.

Lemma bottommost_files_exact_witness : ∃ p, PrepareForVersionAppend BytewiseComparator false tree = Some p ∧
  (3, file 3 2 1 0 98 99) ∈ bottommost_files_ p.
Proof.
  destruct (bottommost_files_exact bytes_ok BytewiseComparator tree tree_wf tree_bounds eq_refl tree_typed) as (p & E & H).
  exists p. split; [exact E|]. apply H. exists 1%nat. split; [lia|]. split; [done|].
  intros l' g Hl' Hg. unfold LevelFiles in Hg. rewrite lookup_ge_None_2 in Hg; [by apply elem_of_nil in Hg|]. cbn. lia.
Defined.
End PrepareExample.
