(* ===== verification/FilePicker.v ===== *)
(** * Choosing the files to search for a key

    [FilePicker] of db/version_set.cc: level by level, the files whose range has the
    key, found by a binary search that the index of the level above narrows. A failed
    assertion and an access out of range are [None]. *)

From S2P Require Import Prelude SortedLists Comparator DbFormat VersionEdit FileIndexer VersionStorage VersionPrepare.
From stdpp Require Import list.
#[local] Open Scope Z_scope.

Module FilePicker.

Record t := mk {
  curr_level_ : Z;
  returned_file_level_ : Z;
  hit_file_level_ : Z;
  search_left_bound_ : Z;
  search_right_bound_ : Z;
  search_ended_ : bool;
  is_hit_file_last_in_level_ : bool;
  curr_file_level_ : option LevelFilesBrief;
  curr_index_in_curr_level_ : Z;
  start_index_in_curr_level_ : Z
}.

Definition GetCurrentLevel (p : t) : Z := int32 (curr_level_ p).
Definition GetHitFileLevel (p : t) : Z := hit_file_level_ p.
Definition IsHitFileLastInLevel (p : t) : bool := is_hit_file_last_in_level_ p.

(** The fields that a step assigns together. *)
Definition set_level (p : t) (level : Z) : t :=
  mk level (returned_file_level_ p) (hit_file_level_ p) (search_left_bound_ p) (search_right_bound_ p) (search_ended_ p)
    (is_hit_file_last_in_level_ p) (curr_file_level_ p) (curr_index_in_curr_level_ p) (start_index_in_curr_level_ p).
Definition set_bounds (p : t) (left right : Z) : t :=
  mk (curr_level_ p) (returned_file_level_ p) (hit_file_level_ p) left right (search_ended_ p)
    (is_hit_file_last_in_level_ p) (curr_file_level_ p) (curr_index_in_curr_level_ p) (start_index_in_curr_level_ p).
Definition set_file_level (p : t) (x : LevelFilesBrief) : t :=
  mk (curr_level_ p) (returned_file_level_ p) (hit_file_level_ p) (search_left_bound_ p) (search_right_bound_ p) (search_ended_ p)
    (is_hit_file_last_in_level_ p) (Some x) (curr_index_in_curr_level_ p) (start_index_in_curr_level_ p).
Definition set_start (p : t) (i : Z) : t :=
  mk (curr_level_ p) (returned_file_level_ p) (hit_file_level_ p) (search_left_bound_ p) (search_right_bound_ p) (search_ended_ p)
    (is_hit_file_last_in_level_ p) (curr_file_level_ p) i i.
Definition set_index (p : t) (i : Z) : t :=
  mk (curr_level_ p) (returned_file_level_ p) (hit_file_level_ p) (search_left_bound_ p) (search_right_bound_ p) (search_ended_ p)
    (is_hit_file_last_in_level_ p) (curr_file_level_ p) i (start_index_in_curr_level_ p).
Definition set_hit (p : t) (level : Z) (last : bool) : t :=
  mk (curr_level_ p) (returned_file_level_ p) level (search_left_bound_ p) (search_right_bound_ p) (search_ended_ p)
    last (curr_file_level_ p) (curr_index_in_curr_level_ p) (start_index_in_curr_level_ p).
Definition set_returned (p : t) (level : Z) : t :=
  mk (curr_level_ p) level (hit_file_level_ p) (search_left_bound_ p) (search_right_bound_ p) (search_ended_ p)
    (is_hit_file_last_in_level_ p) (curr_file_level_ p) (curr_index_in_curr_level_ p) (start_index_in_curr_level_ p).
Definition set_ended (p : t) (b : bool) : t :=
  mk (curr_level_ p) (returned_file_level_ p) (hit_file_level_ p) (search_left_bound_ p) (search_right_bound_ p) b
    (is_hit_file_last_in_level_ p) (curr_file_level_ p) (curr_index_in_curr_level_ p) (start_index_in_curr_level_ p).

Section Picker.
Context (ucmp : Comparator) (user_key_ ikey_ : bytes).
Context (level_files_brief_ : list LevelFilesBrief) (num_levels_ : Z) (file_indexer_ : FileIndexer.t).
#[local] Abbreviation cmp := (CompareWithoutTimestamp ucmp).
#[local] Abbreviation kLevelMaxIndex := FileIndexer.kLevelMaxIndex.

(** Since no comparison is done in this level, all files of the next are searched. *)
Definition skip_level (p : t) : t := set_level (set_bounds p 0 kLevelMaxIndex) (u32 (curr_level_ p + 1)).

(** The index of the first file to look at in the current level, which has files, or
    none if no file of the level has the key. *)
Definition start_index (p : t) (file_level : LevelFilesBrief) : option (option Z * t) :=
  if curr_level_ p =? 0 then Some (Some 0, p)
  else if search_left_bound_ p <=? search_right_bound_ p then
    let p := if search_right_bound_ p =? kLevelMaxIndex
             then set_bounds p (search_left_bound_ p) (int32 (num_files file_level) - 1) else p in
    start_index ← FindFileInRange ucmp file_level ikey_ (u32 (search_left_bound_ p)) (u32 (u32 (search_right_bound_ p) + 1));
    if start_index =? search_right_bound_ p + 1 then Some (None, p) else Some (Some start_index, p)
  else Some (None, p).

Fixpoint PrepareNextLevel_loop (fuel : nat) (p : t) : option (bool * t) :=
  match fuel with
  | O => None
  | S fuel =>
      if curr_level_ p <? num_levels_ then
        file_level ← vec_at level_files_brief_ (curr_level_ p);
        let p := set_file_level p file_level in
        if num_files file_level =? 0 then
          _ ← assertion (search_left_bound_ p =? 0);
          _ ← assertion ((search_right_bound_ p =? -1) || (search_right_bound_ p =? kLevelMaxIndex));
          PrepareNextLevel_loop fuel (skip_level p)
        else
          '(start, p) ← start_index p file_level;
          match start with
          | Some i => Some (true, set_start p (u32 i))
          | None => PrepareNextLevel_loop fuel (skip_level p)
          end
      else Some (false, p)
  end.
Definition PrepareNextLevel (p : t) : option (bool * t) :=
  PrepareNextLevel_loop (S (Z.to_nat num_levels_)) (set_level p (u32 (curr_level_ p + 1))).

(** The prefetching of the tables of level 0 is left out. *)
Definition New : option t :=
  '(found, p) ← PrepareNextLevel (mk (u32 (-1)) (u32 (-1)) (u32 (-1)) 0 kLevelMaxIndex false false None 0 0);
  Some (set_ended p (negb found)).

(** The files of the current level: the file that is returned, or none when the
    search goes on at the next level. *)
Fixpoint GetNextFile_level (fuel : nat) (p : t) : option (option FdWithKeyRange * t) :=
  match fuel with
  | O => None
  | S fuel =>
      file_level ← curr_file_level_ p;
      let i := curr_index_in_curr_level_ p in
      if i <? num_files file_level then
        f ← vec_at (brief_files file_level) i;
        let p := set_hit p (curr_level_ p) (i =? u64 (num_files file_level - 1)) in
        let return_file (cmp_largest : Z) (p : t) :=
          let p := set_returned p (curr_level_ p) in
          if (0 <? curr_level_ p) && (cmp_largest <? 0) then
            '(found, p) ← PrepareNextLevel p; Some (Some f, set_ended p (negb found))
          else Some (Some f, set_index p (u32 (i + 1))) in
        if (1 <? num_levels_) || (3 <? num_files file_level) then
          _ ← assertion ((curr_level_ p =? 0) || (i =? start_index_in_curr_level_ p) ||
                         (cmp user_key_ (ExtractUserKey (smallest_key f)) <=? 0));
          let cmp_smallest := cmp user_key_ (ExtractUserKey (smallest_key f)) in
          let cmp_largest := if 0 <=? cmp_smallest then cmp user_key_ (ExtractUserKey (largest_key f)) else -1 in
          p ← (if 0 <? curr_level_ p then
                 '(left_bound, right_bound) ← FileIndexer.GetNextLevelIndex file_indexer_ (curr_level_ p) i cmp_smallest cmp_largest;
                 Some (set_bounds p left_bound right_bound)
               else Some p);
          if (cmp_smallest <? 0) || (0 <? cmp_largest) then
            if curr_level_ p =? 0 then GetNextFile_level fuel (set_index p (u32 (i + 1)))
            else Some (None, p)
          else return_file cmp_largest p
        else return_file (-1) p
      else Some (None, p)
  end.
Fixpoint GetNextFile_loop (fuel : nat) (p : t) : option (option FdWithKeyRange * t) :=
  match fuel with
  | O => None
  | S fuel =>
      if search_ended_ p then Some (None, p)
      else
        file_level ← curr_file_level_ p;
        '(r, p) ← GetNextFile_level (S (length (brief_files file_level))) p;
        match r with
        | Some f => Some (Some f, p)
        | None => '(found, p) ← PrepareNextLevel p; GetNextFile_loop fuel (set_ended p (negb found))
        end
  end.
Definition GetNextFile (p : t) : option (option FdWithKeyRange * t) := GetNextFile_loop (S (S (Z.to_nat num_levels_))) p.
End Picker.
End FilePicker.
