(* ===== verification/FilePickerCorrect.v ===== *)
(** * The file picker finds every file that can hold a key

    The files that [FilePicker] returns are those a search of every file of every
    level would choose; the index between levels and the binary search lose none, and
    no assertion fails. *)

From Stdlib Require Import Sorting.Sorted.
From S2P Require Import Prelude SortedLists Coding Comparator DbFormat VersionEdit FileIndexer FileIndexerCorrect.
From S2P Require Import VersionStorage VersionStorageCorrect VersionPrepare VersionPrepareCorrect FilePicker.
From stdpp Require Import list.
#[local] Open Scope Z_scope.
Import FileIndexer (kLevelMaxIndex, smallest_user_key, largest_user_key).
Import FilePicker.

#[local] Existing Instance InternalKeyOrder.Compare_order.
#[local] Existing Instance cl_no_ts.

(** ** The reference *)

Section Reference.
Context (c : Comparator) (ikey : bytes) (files : list (list FileMetaData)) (k : nat).
#[local] Abbreviation icmp := (InternalKeyComparator.Compare c).
#[local] Abbreviation cmp := (CompareWithoutTimestamp c).
#[local] Abbreviation key := (ExtractUserKey ikey).

(** A file that is returned, its level, and whether it is the last of its level. *)
Definition Hit : Type := FdWithKeyRange * Z * bool.

Definition in_range (f : FileMetaData) : bool :=
  (0 <=? cmp key (smallest_user_key f)) && (cmp key (largest_user_key f) <=? 0).
(** At level 0 every file whose range has the key, or all of them if there is no
    other level and they are few; at the other levels also the internal key must not
    be after the file. *)
Definition wanted (level : nat) (n : Z) (f : FileMetaData) : bool :=
  match level with
  | O => if (1 <? Z.of_nat k) || (3 <? n) then in_range f else true
  | S _ => in_range f && (icmp ikey (largest f) <=? 0)
  end.
Definition hits_from (l : nat) (level : list FileMetaData) (i : nat) : list Hit :=
  omap id (drop i (imap (λ i f, if wanted l (Zlen level) f
    then Some (NewFdWithKeyRange f, Z.of_nat l, bool_decide (S i = length level)) else None) level)).
Definition level_hits (l : nat) : list Hit := match files !! l with Some level => hits_from l level 0 | None => [] end.
Definition hits_below (l : nat) : list Hit := concat (map level_hits (seq l (k - l))).

Lemma hits_below_step l : (l < k)%nat → hits_below l = level_hits l ++ hits_below (S l).
Proof using. intros H. unfold hits_below. replace (k - l)%nat with (S (k - S l)) by lia. done. Qed.
Lemma hits_below_end l : (k <= l)%nat → hits_below l = [].
Proof using. intros H. unfold hits_below. by replace (k - l)%nat with 0%nat by lia. Qed.

Lemma hits_from_step l level i f : level !! i = Some f → hits_from l level i =
  (if wanted l (Zlen level) f then [(NewFdWithKeyRange f, Z.of_nat l, bool_decide (S i = length level))] else []) ++ hits_from l level (S i).
Proof using.
  intros Hi. unfold hits_from. erewrite (drop_S (imap _ level)); [|by rewrite list_lookup_imap, Hi]. cbn [omap list_omap].
  by destruct (wanted l (Zlen level) f).
Qed.
Lemma hits_from_end l level i : (length level <= i)%nat → hits_from l level i = [].
Proof using. intros H. unfold hits_from. by rewrite drop_ge by (by rewrite length_imap). Qed.

(** Files that are not wanted are skipped. *)
Lemma hits_from_skip l level i i' : (i <= i')%nat →
  (∀ j f, level !! j = Some f → (i <= j < i')%nat → wanted l (Zlen level) f = false) → hits_from l level i = hits_from l level i'.
Proof using.
  intros Hi. induction Hi as [|i' Hi IH]; intros H; [done|].
  rewrite IH by (intros j f Hj Hr; apply (H j); [done|lia]). destruct (level !! i') as [f|] eqn:E.
  - rewrite (hits_from_step l level i' f E), (H i' f E) by lia. done.
  - apply lookup_ge_None in E. rewrite !hits_from_end by lia. done.
Qed.
Lemma hits_from_none l level i : (∀ j f, level !! j = Some f → (i <= j)%nat → wanted l (Zlen level) f = false) → hits_from l level i = [].
Proof using.
  intros H. destruct (le_lt_dec i (length level)).
  - rewrite (hits_from_skip l level i (length level)), hits_from_end; [done..|]. intros j f Hj Hr. apply (H j f Hj). lia.
  - apply hits_from_end. lia.
Qed.
End Reference.

(** ** The picker *)

Section Picker.
Context (wf : bytes → Prop) (c : Comparator) `{!ComparatorLaws wf c}.
Context (ikey : bytes) (files : list (list FileMetaData)) (k : nat) (indexer : FileIndexer.t).
#[local] Abbreviation icmp := (InternalKeyComparator.Compare c).
#[local] Abbreviation cmp := (CompareWithoutTimestamp c).
#[local] Abbreviation key := (ExtractUserKey ikey).
#[local] Abbreviation briefs := (map DoGenerateLevelFilesBrief (take k files)).
#[local] Abbreviation bounds_ok := (bounds_ok c).
#[local] Abbreviation wanted := (wanted c ikey k).
#[local] Abbreviation hits_from := (hits_from c ikey k).
#[local] Abbreviation hits_below := (hits_below c ikey files k).
Context (Hikey : InternalKeyOrder.ikey_ok wf ikey) (Hk : (k <= length files)%nat) (Hk31 : Z.of_nat k < 2 ^ 31).
Context (Hsize : ∀ level, level ∈ files → Zlen level < 2 ^ 31).
Context (Hlevels : ∀ l level, (1 <= l)%nat → files !! l = Some level → level_sorted wf c level).
Context (Hindex : (1 < k)%nat → indexes c indexer files k).

Lemma levels_are_ordered : levels_ordered wf c files.
Proof using Hlevels ComparatorLaws0. intros l level Hl E. apply level_sorted_ordered; [done|]. by apply (Hlevels l). Qed.
Lemma key_wf : wf key.
Proof using Hikey. apply Hikey. Qed.

(** The bounds for level [l]: none yet, or those of the index. *)
Definition bounds_for (l : nat) (left right : Z) : Prop :=
  (left = 0 ∧ right = kLevelMaxIndex) ∨ ∀ level, files !! l = Some level → (l < k)%nat → bounds_ok level key left right.

(** The picker is at file [i] of level [l]. *)
Record at_file (p : t) (l : nat) (level : list FileMetaData) (i : nat) : Prop := {
  af_level : curr_level_ p = Z.of_nat l ∧ (l < k)%nat;
  af_files : files !! l = Some level ∧ curr_file_level_ p = Some (DoGenerateLevelFilesBrief level);
  af_index : curr_index_in_curr_level_ p = Z.of_nat i ∧ (i <= length level)%nat;
  af_first : l = 0%nat → bounds_for 1 (search_left_bound_ p) (search_right_bound_ p);
  af_after : l ≠ 0%nat → ∀ j f, level !! j = Some f → (i <= j)%nat → icmp ikey (largest f) <= 0;
  af_before : l ≠ 0%nat → ∀ j f, i = S j → level !! j = Some f → 0 <= cmp key (largest_user_key f);
  af_start : l ≠ 0%nat → start_index_in_curr_level_ p = Z.of_nat i ∨ ∃ j f, i = S j ∧ level !! j = Some f ∧ cmp key (largest_user_key f) <= 0;
  af_last : l ≠ 0%nat → i = length level → bounds_for (S l) (search_left_bound_ p) (search_right_bound_ p)
}.
(** What the picker will still return. *)
Definition remains (p : t) (hits : list Hit) : Prop :=
  (search_ended_ p = true ∧ hits = []) ∨
  (search_ended_ p = false ∧ ∃ l level i, at_file p l level i ∧ hits = hits_from l level i ++ hits_below (S l)).

Lemma not_wanted_before l n f : keys_ok wf f → icmp (largest f) ikey < 0 → wanted (S l) n f = false.
Proof using All.
  intros [_ Hf] H. unfold FilePickerCorrect.wanted. apply cmp_flip_lt in H; [|done..].
  rewrite (proj2 (Z.leb_gt _ _)), andb_false_r by lia. done.
Qed.
Lemma not_wanted_left l n f : keys_ok wf f → 0 < cmp key (largest_user_key f) → wanted (S l) n f = false.
Proof using.
  intros _ H. unfold FilePickerCorrect.wanted, in_range. rewrite (proj2 (Z.leb_gt _ _) H), andb_false_r. done.
Qed.
Lemma not_wanted_right l n f : cmp key (smallest_user_key f) < 0 → wanted (S l) n f = false.
Proof using. intros H. unfold FilePickerCorrect.wanted, in_range. by rewrite (proj2 (Z.leb_gt _ _) H). Qed.

(** The binary search of a level whose bounds are known. *)
Lemma start_index_spec p l level : curr_level_ p = Z.of_nat (S l) → (S l < k)%nat → files !! S l = Some level → level ≠ [] →
  bounds_for (S l) (search_left_bound_ p) (search_right_bound_ p) →
  ∃ start right, start_index c ikey p (DoGenerateLevelFilesBrief level) = Some (start, set_bounds p (search_left_bound_ p) right) ∧
    match start with
    | Some i => ∃ n, i = Z.of_nat n ∧ (n < length level)%nat ∧ (∀ j f, level !! j = Some f → (n <= j)%nat → icmp ikey (largest f) <= 0) ∧
        (∀ j f, level !! j = Some f → (j < n)%nat → icmp (largest f) ikey < 0)
    | None => hits_from (S l) level 0 = []
    end.
Proof using All.
  intros El Hl Elv Hne Hb. unfold start_index. rewrite El, (proj2 (Z.eqb_neq (Z.of_nat (S l)) 0)) by lia. cbn [num_files DoGenerateLevelFilesBrief].
  assert (Zlen level < 2 ^ 31) as Hsz by (apply Hsize, (list_elem_of_lookup_2 _ _ _ Elv)).
  assert (0 < Zlen level) by (destruct level; [done|unfold Zlen; cbn; lia]). rewrite int32_small by lia.
  set (left := search_left_bound_ p) in *. set (right := search_right_bound_ p) in *.
  set (right' := if right =? kLevelMaxIndex then Zlen level - 1 else right).
  assert (bounds_ok level key left right' ∧ (left <=? right) = (left <=? right')) as [[Hr Hbl Hbr] Ele].
  { unfold right'. destruct Hb as [[-> ->]|Hb].
    - rewrite Z.eqb_refl. split; [|unfold kLevelMaxIndex; lia]. split; [lia|intros; lia|]. intros j f ?%lookup_lt_Some. unfold Zlen. lia.
    - specialize (Hb level Elv Hl). pose proof (bo_range _ _ _ _ _ Hb). unfold kLevelMaxIndex. rewrite (proj2 (Z.eqb_neq _ _)) by lia. done. }
  rewrite Ele. destruct (Hlevels (S l) level) as [Hkeys Hsorted _]; [lia|done|].
  destruct (Z.leb_spec left right').
  2: { exists None, right. split; [by destruct p|]. apply hits_from_none. intros j f Ej _.
       destruct (Z_lt_ge_dec (Z.of_nat j) left); [apply not_wanted_left; eauto|apply not_wanted_right, (Hbr j); [done|lia]].
       apply (Hkeys f), (list_elem_of_lookup_2 _ _ _ Ej). }
  replace (if right =? kLevelMaxIndex then _ else p) with (set_bounds p left right') by (unfold right'; case_match; [done|by destruct p]).
  cbn [search_left_bound_ search_right_bound_ set_bounds].
  rewrite !(wrap_small 32) by (unfold is_u; rewrite ?wrap_small; unfold is_u; lia).
  destruct (FindFileInRange_spec wf c level ikey left (right' + 1)) as (n & -> & Hn & Hbefore & Hafter); [by apply (Hlevels (S l)); [lia|]|done|lia..|].
  cbn [mbind option_bind]. destruct (Z.eqb_spec (Z.of_nat n) (right' + 1)) as [E|E].
  - exists None, right'. split; [done|]. apply hits_from_none. intros j f Ej _. pose proof (proj1 (Hkeys f (list_elem_of_lookup_2 _ _ _ Ej))).
    destruct (Z_lt_ge_dec (Z.of_nat j) left); [apply not_wanted_left; eauto|].
    destruct (Z_lt_ge_dec right' (Z.of_nat j)); [by apply not_wanted_right, (Hbr j)|]. apply not_wanted_before; [done|]. apply (Hbefore j); [done|lia].
  - exists (Some (Z.of_nat n)), right'. split; [done|]. exists n. split_and!; [done|unfold Zlen in *; lia|apply Hafter; lia|].
    intros j f Ej Hj. destruct (Z_lt_ge_dec (Z.of_nat j) left) as [Hjl|]; [|apply (Hbefore j); [done|lia]].
    pose proof (proj1 (Hkeys f (list_elem_of_lookup_2 _ _ _ Ej))) as [_ Wf]. apply user_key_lt with (wf := wf); [done..|].
    apply cmp_flip_lt; [apply Wf|apply Hikey|]. by apply (Hbl j).
Qed.

#[local] Abbreviation PrepareNextLevel_loop := (PrepareNextLevel_loop c ikey briefs (Z.of_nat k)).
#[local] Abbreviation PrepareNextLevel := (PrepareNextLevel c ikey briefs (Z.of_nat k)).

Lemma brief_at l level : (l < k)%nat → files !! l = Some level → vec_at briefs (Z.of_nat l) = Some (DoGenerateLevelFilesBrief level).
Proof using. intros Hl E. by rewrite vec_at_nat, list_lookup_fmap, lookup_take_lt, E. Qed.

Lemma at_start p l level n : curr_level_ p = Z.of_nat (S l) → (S l < k)%nat → files !! S l = Some level →
  curr_file_level_ p = Some (DoGenerateLevelFilesBrief level) → (n < length level)%nat →
  (∀ j f, level !! j = Some f → (n <= j)%nat → icmp ikey (largest f) <= 0) →
  (∀ j f, level !! j = Some f → (j < n)%nat → icmp (largest f) ikey < 0) →
  at_file (set_start p (Z.of_nat n)) (S l) level n ∧ hits_from (S l) level 0 = hits_from (S l) level n.
Proof using All.
  intros El Hl Elv Efl Hn Hafter Hbefore. destruct (Hlevels (S l) level) as [Hkeys _ _]; [lia|done|].
  assert (∀ j f, level !! j = Some f → keys_ok wf f) as Hlk by (intros j f Ej; apply (Hkeys f), (list_elem_of_lookup_2 _ _ _ Ej)).
  split.
  - split; cbn; try done; [split; [done|lia]| |by left|lia].
    intros _ j f -> Ej. destruct (Hlk j f Ej) as [_ Wf]. apply cmp_flip_le; [apply Wf|apply Hikey|].
    apply user_key_le with (wf := wf); [done..|]. specialize (Hbefore j f Ej ltac:(lia)). lia.
  - apply hits_from_skip; [lia|]. intros j f Ej Hj. apply not_wanted_before; [by apply (Hlk j)|]. apply (Hbefore j); [done|lia].
Qed.

(** The next level with a file to look at, from level [l] on. *)
Definition next_level (l : nat) (found : bool) (p p' : t) : Prop :=
  hit_file_level_ p' = hit_file_level_ p ∧ is_hit_file_last_in_level_ p' = is_hit_file_last_in_level_ p ∧
  if found then ∃ l' level i, (l <= l')%nat ∧ at_file p' l' level i ∧ hits_below l = hits_from l' level i ++ hits_below (S l')
  else hits_below l = [].

Lemma PrepareNextLevel_loop_spec fuel : ∀ p l, curr_level_ p = Z.of_nat l → (l <= k < l + fuel)%nat →
  bounds_for l (search_left_bound_ p) (search_right_bound_ p) → (l = 0%nat → search_left_bound_ p = 0 ∧ search_right_bound_ p = kLevelMaxIndex) →
  ∃ found p', PrepareNextLevel_loop fuel p = Some (found, p') ∧ next_level l found p p'.
Proof using All.
  induction fuel as [|fuel IH]; intros p l El Hl Hb H0; [lia|]. cbn [FilePicker.PrepareNextLevel_loop]. rewrite El.
  destruct (Z.ltb_spec (Z.of_nat l) (Z.of_nat k)) as [Hlk|Hlk].
  2: { eexists _, _. split; [done|]. unfold next_level. by rewrite hits_below_end by lia. }
  destruct (lookup_lt_is_Some_2 files l) as [level Elv]; [lia|]. rewrite (brief_at l level) by (done || lia). cbn [mbind option_bind].
  cbn [num_files DoGenerateLevelFilesBrief search_left_bound_ search_right_bound_ set_file_level].
  assert (∀ left right, level_hits c ikey files k l = [] →
    ∃ found p', PrepareNextLevel_loop fuel (skip_level (set_bounds (set_file_level p (DoGenerateLevelFilesBrief level)) left right)) =
      Some (found, p') ∧ next_level l found p p') as Hskip.
  { intros left right Hnone. destruct (IH (skip_level (set_bounds (set_file_level p (DoGenerateLevelFilesBrief level)) left right)) (S l))
      as (found & p' & E & H1 & H2 & H3); cbn; try lia.
    - rewrite El, wrap_small by (unfold is_u; lia). lia.
    - by left.
    - exists found, p'. split; [exact E|]. split; [exact H1|]. split; [exact H2|].
      rewrite (hits_below_step c ikey files k l), Hnone by lia. destruct found; [|done].
      destruct H3 as (l' & level' & i & Hl' & Hat & Hh). exists l', level', i. split; [lia|done]. }
  destruct (Z.eqb_spec (Zlen level) 0) as [E0|E0].
  { apply Zlen_0_nil in E0 as ->. assert (search_left_bound_ p = 0 ∧ (search_right_bound_ p = -1 ∨ search_right_bound_ p = kLevelMaxIndex)) as [E1 E2].
    { destruct Hb as [[-> ->]|Hb]; [by auto|]. pose proof (bo_range _ _ _ _ _ (Hb [] Elv ltac:(lia))). unfold Zlen in *. cbn in *. lia. }
    rewrite E1, Z.eqb_refl. cbn [assertion mbind option_bind].
    replace (_ || _) with true by (destruct E2 as [-> | ->]; cbn; by rewrite ?orb_true_r).
    cbn [assertion mbind option_bind]. specialize (Hskip (search_left_bound_ p) (search_right_bound_ p)).
    apply Hskip. unfold level_hits. by rewrite Elv. }
  assert (level ≠ []) as Hne by (by intros ->). assert (Zlen level < 2 ^ 31) by (apply Hsize, (list_elem_of_lookup_2 _ _ _ Elv)).
  assert (hits_below l = hits_from l level 0 ++ hits_below (S l)) as Hhits.
  { rewrite (hits_below_step c ikey files k l) by lia. unfold level_hits. by rewrite Elv. }
  destruct l as [|l].
  - unfold start_index. cbn [curr_level_ set_file_level]. rewrite El. cbn [Z.of_nat Z.eqb mbind option_bind].
    eexists _, _. split; [done|]. split; [done|]. split; [done|]. exists 0%nat, level, 0%nat. split; [done|]. split; [|done].
    split; cbn; try done; try (split; [done|lia]). intros _. left. by apply H0.
  - destruct (start_index_spec (set_file_level p (DoGenerateLevelFilesBrief level)) l level) as (start & right & -> & Hstart); try done; [lia|].
    cbn [mbind option_bind]. destruct start as [i|]; [|apply Hskip; unfold level_hits; by rewrite Elv].
    destruct Hstart as (n & -> & Hn & Hafter & Hbefore). eexists _, _. split; [done|]. split; [done|]. split; [done|].
    rewrite wrap_small by (unfold is_u, Zlen in *; lia).
    destruct (at_start (set_bounds (set_file_level p (DoGenerateLevelFilesBrief level)) (search_left_bound_ p) right) l level n) as [Hat Eh]; try done; [lia|].
    exists (S l), level, n. split; [done|]. split; [exact Hat|]. by rewrite Hhits, Eh.
Qed.
Lemma PrepareNextLevel_spec p l : curr_level_ p = Z.of_nat l → (l < k)%nat → bounds_for (S l) (search_left_bound_ p) (search_right_bound_ p) →
  ∃ found p', PrepareNextLevel p = Some (found, p') ∧ next_level (S l) found p p'.
Proof using All.
  intros El Hl Hb. unfold FilePicker.PrepareNextLevel. rewrite El, wrap_small by (unfold is_u; lia).
  destruct (PrepareNextLevel_loop_spec (S (Z.to_nat (Z.of_nat k))) (set_level p (Z.of_nat l + 1)) (S l)) as (found & p' & E & Hn);
    cbn [curr_level_ set_level search_left_bound_ search_right_bound_]; try done; [lia..|].
  by exists found, p'.
Qed.

(** ** The next file *)

#[local] Abbreviation GetNextFile_level := (GetNextFile_level c key ikey briefs (Z.of_nat k) indexer).

(** The outcome of looking at the files of level [l] from [i] on. *)
Definition level_outcome (l : nat) (level : list FileMetaData) (i : nat) (r : option FdWithKeyRange) (p' : t) : Prop :=
  match r with
  | Some f => ∃ rest, hits_from l level i ++ hits_below (S l) = (f, GetHitFileLevel p', IsHitFileLastInLevel p') :: rest ∧ remains p' rest
  | None => curr_level_ p' = Z.of_nat l ∧ bounds_for (S l) (search_left_bound_ p') (search_right_bound_ p') ∧ hits_from l level i = []
  end.

Lemma found_remains p p' l found : next_level l found p p' → remains (set_ended p' (negb found)) (hits_below l).
Proof using.
  intros (_ & _ & H). destruct found; cbn [negb]; [right|by left]. split; [done|].
  destruct H as (l' & level & i & _ & [] & ->). exists l', level, i. split; [by split|done].
Qed.

(** From a file on whose last key is above the key, no other file has it. *)
Lemma hits_from_above l level i f : files !! S l = Some level → level !! i = Some f → cmp key (largest_user_key f) < 0 →
  hits_from (S l) level (S i) = [].
Proof using All.
  intros Elv Ei Hlt. apply hits_from_none. intros j g Ej Hj. apply not_wanted_right.
  destruct (levels_are_ordered (S l) level) as [Hf Hs _]; [lia|done|].
  destruct (Hf f (list_elem_of_lookup_2 _ _ _ Ei)) as [_ Wl _], (Hf g (list_elem_of_lookup_2 _ _ _ Ej)) as [Ws _ _].
  apply (cmp_lt_le_trans key (largest_user_key f)); [apply key_wf|done..|]. by apply (sorted_lookup _ _ Hs i j).
Qed.
Lemma hits_from_below l level i f : files !! S l = Some level → level !! i = Some f → cmp key (smallest_user_key f) < 0 →
  hits_from (S l) level i = [].
Proof using All.
  intros Elv Ei Hlt. rewrite (hits_from_step c ikey k (S l) level i f Ei), (not_wanted_right l (Zlen level) f Hlt). cbn [app].
  apply (hits_from_above l level i f Elv Ei). destruct (levels_are_ordered (S l) level) as [Hf _ _]; [lia|done|].
  destruct (Hf f (list_elem_of_lookup_2 _ _ _ Ei)) as [Ws Wl Hle]. by apply (cmp_lt_le_trans key (smallest_user_key f)); [apply key_wf|..].
Qed.

Lemma next_level_bounds l level i f cl : files !! S l = Some level → (S l < k)%nat → level !! i = Some f →
  let cs := cmp key (smallest_user_key f) in (0 <= cs → cl = cmp key (largest_user_key f)) →
  (∀ j g, i = S j → level !! j = Some g → 0 <= cmp key (largest_user_key g)) →
  ∃ left right, FileIndexer.GetNextLevelIndex indexer (Z.of_nat (S l)) (Z.of_nat i) cs cl = Some (left, right) ∧ bounds_for (S (S l)) left right.
Proof using All.
  intros Elv Hl Ei cs Hcl Hprev.
  destruct (GetNextLevelIndex_spec wf c indexer files k (S l) level i f key cl) as (left & right & E & Hb);
    first [done|lia|apply Hindex; lia|apply levels_are_ordered|apply key_wf|by intros _|idtac].
  exists left, right. split; [exact E|]. by right.
Qed.

Lemma is_last_index (level : list FileMetaData) (i : nat) : Zlen level < 2 ^ 31 → Z.of_nat i < Zlen level →
  (Z.of_nat i =? u64 (Zlen level - 1)) = bool_decide (S i = length level).
Proof using.
  clear. intros H Hi. unfold Zlen in *. rewrite wrap_small by (unfold is_u; lia). case_bool_decide; lia.
Qed.
Lemma upper_assertion p l level i f : at_file p (S l) level i → level !! i = Some f →
  (Z.of_nat (S l) =? 0) || (Z.of_nat i =? start_index_in_curr_level_ p) || (cmp key (smallest_user_key f) <=? 0) = true.
Proof using All.
  intros [_ [Elv _] _ _ _ _ Hstart _] Ef. destruct Hstart as [->|(j & g & -> & Eg & Hc)]; [done|by rewrite Z.eqb_refl, orb_true_r|].
  rewrite (proj2 (Z.leb_le (cmp key (smallest_user_key f)) 0)); [by rewrite orb_true_r|].
  destruct (levels_are_ordered (S l) level) as [Hf Hs _]; [lia|done|].
  destruct (Hf f (list_elem_of_lookup_2 _ _ _ Ef)) as [Ws _ _], (Hf g (list_elem_of_lookup_2 _ _ _ Eg)) as [_ Wl _].
  apply (key_le_trans wf c key (largest_user_key g)); [apply key_wf|done..|]. apply (sorted_lookup _ _ Hs j (S j) g f Eg Ef). lia.
Qed.

Lemma GetNextFile_upper fuel p l level i : at_file p (S l) level i → search_ended_ p = false →
  ∃ r p', GetNextFile_level (S fuel) p = Some (r, p') ∧ level_outcome (S l) level i r p'.
Proof using All.
  intros Hat Hend. pose proof Hat as [[El Hl] [Elv Efl] [Ei Hi] _ Hafter Hbefore _ Hlast]. specialize (Hafter ltac:(done)).
  specialize (Hbefore ltac:(done)). specialize (Hlast ltac:(done)).
  assert (Zlen level < 2 ^ 31) as Hsz by (apply Hsize, (list_elem_of_lookup_2 _ _ _ Elv)).
  cbn [FilePicker.GetNextFile_level]. rewrite Efl, Ei. cbn [mbind option_bind num_files brief_files DoGenerateLevelFilesBrief].
  destruct (Z.ltb_spec (Z.of_nat i) (Zlen level)) as [Hlt|Hge].
  2: { eexists _, _. split; [done|]. assert (i = length level) as -> by (unfold Zlen in *; lia).
       split; [done|]. split; [by apply Hlast|by apply hits_from_end]. }
  destruct (lookup_lt_is_Some_2 level i) as [f Ef]; [unfold Zlen in *; lia|].
  rewrite vec_at_nat, list_lookup_fmap, Ef. cbn [fmap option_fmap option_map mbind option_bind].
  rewrite (proj2 (Z.ltb_lt 1 _)) by lia. cbn [orb].
  change (ExtractUserKey (smallest_key (NewFdWithKeyRange f))) with (smallest_user_key f).
  change (ExtractUserKey (largest_key (NewFdWithKeyRange f))) with (largest_user_key f).
  cbn [curr_level_ set_hit start_index_in_curr_level_]. rewrite El.
  rewrite (is_last_index level i), (upper_assertion p l level i f) by done. cbn [assertion mbind option_bind].
  set (cs := cmp key (smallest_user_key f)). set (cl := if 0 <=? cs then cmp key (largest_user_key f) else -1).
  rewrite (proj2 (Z.ltb_lt 0 (Z.of_nat (S l)))) by lia.
  destruct (next_level_bounds l level i f cl) as (left & right & Eb & Hb); try done; [unfold cl, cs; by intros ->%Z.leb_le|].
  fold cs in Eb. rewrite Eb. clear Eb.
  cbn [mbind option_bind curr_level_ set_bounds set_hit]. rewrite El.
  assert (cl <= 0) as Hcl.
  { unfold cl. destruct (0 <=? cs); [|lia]. apply user_key_le with (wf := wf); [done..| |by apply (Hafter i)].
    apply (Hlevels (S l) level); [lia|done|]. apply (list_elem_of_lookup_2 _ _ _ Ef). }
  rewrite (proj2 (Z.ltb_ge 0 cl)), orb_false_r by done. destruct (Z.ltb_spec cs 0) as [Hcs|Hcs].
  { eexists _, _. split; [done|]. split; [done|]. split; [exact Hb|by apply (hits_from_below l level i f)]. }
  replace cl with (cmp key (largest_user_key f)) in * by (unfold cl; by rewrite (proj2 (Z.leb_le 0 cs))).
  assert (wanted (S l) (Zlen level) f = true) as Hw.
  { unfold FilePickerCorrect.wanted, in_range. fold cs. rewrite !(proj2 (Z.leb_le _ _)); try done. by apply (Hafter i). }
  cbv zeta. cbn [curr_level_ set_returned set_bounds set_hit]. rewrite El, (proj2 (Z.ltb_lt 0 (Z.of_nat (S l)))) by lia. cbn [andb].
  pose proof (hits_from_step c ikey k (S l) level i f Ef) as Hstep. rewrite Hw in Hstep.
  destruct (Z.ltb_spec (cmp key (largest_user_key f)) 0) as [Hlt'|Hge'].
  - match goal with |- context [FilePicker.PrepareNextLevel _ _ _ _ ?q] =>
      destruct (PrepareNextLevel_spec q (S l)) as (found & p' & -> & Hn); [done..|] end. cbn [mbind option_bind].
    eexists _, _. split; [done|]. exists (hits_below (S (S l))). split; [|by eapply found_remains].
    rewrite Hstep, (hits_from_above l level i f) by done. destruct Hn as (H1 & H2 & _).
    cbn [GetHitFileLevel IsHitFileLastInLevel]. unfold GetHitFileLevel, IsHitFileLastInLevel. cbn. rewrite H1, H2. done.
  - eexists _, _. split; [done|]. unfold level_outcome. rewrite Hstep. eexists. split; [done|]. right. split; [done|]. exists (S l), level, (S i). split; [|done].
    rewrite wrap_small by (unfold is_u; lia). split; cbn; try done; [split; [lia|apply lookup_lt_Some in Ef; lia]| | |].
    + intros _ j g Ej Hj. apply (Hafter j); [done|lia].
    + intros _ j g [= <-] Ej. rewrite Ef in Ej. by injection Ej as <-.
    + intros _. right. by exists i, f.
Qed.

Lemma at_file_advance p level i x y : at_file p 0 level i → Z.of_nat i < Zlen level → Zlen level < 2 ^ 31 →
  at_file (set_index (set_hit p x y) (u32 (Z.of_nat i + 1))) 0 level (S i).
Proof using.
  clear. intros [Hl Hf [Hi _] H0 _ _ _ _] Hlt Hsz. unfold Zlen in *. rewrite wrap_small by (unfold is_u; lia).
  split; cbn; try done. split; lia.
Qed.

Lemma GetNextFile_first fuel : ∀ p level i, at_file p 0 level i → search_ended_ p = false → (length level - i < fuel)%nat →
  ∃ r p', GetNextFile_level fuel p = Some (r, p') ∧ level_outcome 0 level i r p'.
Proof using All.
  induction fuel as [|fuel IH]; intros p level i Hat Hend Hf; [lia|]. pose proof Hat as [[El Hl] [Elv Efl] [Ei Hi] Hb _ _ _ _].
  assert (Zlen level < 2 ^ 31) as Hsz by (apply Hsize, (list_elem_of_lookup_2 _ _ _ Elv)).
  cbn [FilePicker.GetNextFile_level]. rewrite Efl, Ei. cbn [mbind option_bind num_files brief_files DoGenerateLevelFilesBrief].
  destruct (Z.ltb_spec (Z.of_nat i) (Zlen level)) as [Hlt|Hge].
  2: { eexists _, _. split; [done|]. split; [done|]. split; [by apply Hb|]. apply hits_from_end. unfold Zlen in *. lia. }
  destruct (lookup_lt_is_Some_2 level i) as [f Ef]; [unfold Zlen in *; lia|].
  rewrite vec_at_nat, list_lookup_fmap, Ef. cbn [fmap option_fmap option_map mbind option_bind].
  change (ExtractUserKey (smallest_key (NewFdWithKeyRange f))) with (smallest_user_key f).
  change (ExtractUserKey (largest_key (NewFdWithKeyRange f))) with (largest_user_key f).
  rewrite (is_last_index level i) by done. pose proof (hits_from_step c ikey k 0 level i f Ef) as Hstep.
  unfold FilePickerCorrect.wanted in Hstep. cbv zeta. cbn [curr_level_ set_hit set_returned]. rewrite El. cbn [Z.of_nat Z.ltb Z.eqb Z.compare orb andb assertion mbind option_bind].
  change (Z.of_nat 0) with 0 in *. change (0 =? 0) with true. change (0 <? 0) with false. cbn [orb andb assertion mbind option_bind].
  cbn [curr_level_ set_hit set_returned]. rewrite El. change (0 =? 0) with true. change (0 <? 0) with false. cbn [andb].
  pose proof (at_file_advance p level i 0 (bool_decide (S i = length level)) Hat Hlt Hsz) as Hnext.
  assert (hits_from 0 level i = [(NewFdWithKeyRange f, 0, bool_decide (S i = length level))] ++ hits_from 0 level (S i) →
    level_outcome 0 level i (Some (NewFdWithKeyRange f))
      (set_index (set_returned (set_hit p 0 (bool_decide (S i = length level))) 0) (u32 (Z.of_nat i + 1)))) as Hret.
  { intros E. exists (hits_from 0 level (S i) ++ hits_below 1). rewrite E. split; [done|]. right. split; [done|].
    exists 0%nat, level, (S i). split; [|done]. destruct Hnext. by split. }
  assert (length level - S i < fuel)%nat as Hf' by (unfold Zlen in *; lia).
  destruct ((1 <? Z.of_nat k) || (3 <? Zlen level)); [|eexists _, _; split; [done|by apply Hret]].
  unfold in_range in Hstep. set (cs := cmp key (smallest_user_key f)) in *.
  destruct (Z.ltb_spec cs 0) as [Hcs|Hcs], (Z.leb_spec 0 cs) as [Hcs'|Hcs']; try lia; cbn [orb andb] in *.
  2: destruct (Z.ltb_spec 0 (cmp key (largest_user_key f))) as [Hcl|Hcl], (Z.leb_spec (cmp key (largest_user_key f)) 0) as [Hcl'|Hcl']; try lia;
    cbn [orb andb] in *; [|eexists _, _; split; [done|by apply Hret]].
  all: destruct (IH _ level (S i) Hnext Hend Hf') as (r & p' & E & Ho); exists r, p'; split; [exact E|];
    unfold level_outcome in *; by rewrite Hstep.
Qed.

#[local] Abbreviation GetNextFile := (GetNextFile c key ikey briefs (Z.of_nat k) indexer).

Lemma GetNextFile_loop_spec fuel : ∀ p l level i, at_file p l level i → search_ended_ p = false → (k < l + fuel)%nat → (1 < fuel)%nat →
  ∃ r p', GetNextFile_loop c key ikey briefs (Z.of_nat k) indexer fuel p = Some (r, p') ∧
    match r with
    | Some f => ∃ rest, hits_from l level i ++ hits_below (S l) = (f, GetHitFileLevel p', IsHitFileLastInLevel p') :: rest ∧ remains p' rest
    | None => hits_from l level i ++ hits_below (S l) = []
    end.
Proof using All.
  induction fuel as [|fuel IH]; intros p l level i Hat Hend Hf Hf2; [lia|]. cbn [GetNextFile_loop]. rewrite Hend.
  pose proof Hat as [[El Hl] [Elv Efl] [Ei Hi] _ _ _ _ _]. rewrite Efl. cbn [mbind option_bind brief_files DoGenerateLevelFilesBrief].
  assert (∃ r p', GetNextFile_level (S (length (map NewFdWithKeyRange level))) p = Some (r, p') ∧ level_outcome l level i r p') as (r & p1 & -> & Ho).
  { destruct l as [|l]; [|by apply GetNextFile_upper]. apply GetNextFile_first; [done..|]. rewrite length_map. lia. }
  cbn [mbind option_bind]. destruct r as [f|]; [by exists (Some f), p1|]. destruct Ho as (E1 & Hb & ->). cbn [app].
  destruct (PrepareNextLevel_spec p1 l E1 Hl Hb) as (found & p2 & -> & _ & _ & Hn). cbn [mbind option_bind]. destruct found; cbn [negb].
  - destruct Hn as (l' & level' & i' & Hl' & [] & ->). apply IH; [by split|done|lia|].
    destruct af_level0. lia.
  - destruct fuel as [|fuel]; [lia|]. cbn [GetNextFile_loop search_ended_ set_ended]. by eexists _, _.
Qed.

(** Every call returns the next of the files that remain. *)
Lemma GetNextFile_spec p hits : remains p hits → ∃ r p', GetNextFile p = Some (r, p') ∧
  match r with
  | Some f => ∃ rest, hits = (f, GetHitFileLevel p', IsHitFileLastInLevel p') :: rest ∧ remains p' rest
  | None => hits = []
  end.
Proof using All.
  unfold FilePicker.GetNextFile. intros [[He ->]|(He & l & level & i & Hat & ->)].
  - cbn [GetNextFile_loop]. rewrite He. by eexists _, _.
  - destruct (GetNextFile_loop_spec (S (S (Z.to_nat (Z.of_nat k)))) p l level i Hat He) as (r & p' & E & H); [lia..|]. by exists r, p'.
Qed.

Lemma New_spec : ∃ p, New c ikey briefs (Z.of_nat k) = Some p ∧ remains p (hits_below 0).
Proof using All.
  unfold New, FilePicker.PrepareNextLevel. cbn [curr_level_]. change (u32 (u32 (-1) + 1)) with (Z.of_nat 0).
  match goal with |- context [FilePicker.PrepareNextLevel_loop _ _ _ _ ?n ?q] =>
    destruct (PrepareNextLevel_loop_spec n q 0) as (found & p' & -> & Hn); [done|lia|by left|done|] end.
  cbn [mbind option_bind]. eexists. split; [done|]. by eapply found_remains.
Qed.
End Picker.

(** ** The property *)

(** The calls of [GetNextFile] until there is no file left. *)
Fixpoint pick_files (ucmp : Comparator) (ikey : bytes) (p : Prepared) (n : nat) (q : FilePicker.t) : option (list Hit) :=
  match n with
  | O => None
  | S n =>
      '(r, q) ← GetNextFile ucmp (ExtractUserKey ikey) ikey (level_files_brief_ p) (num_non_empty_levels_ p) (file_indexer_ p) q;
      match r with
      | Some f => rest ← pick_files ucmp ikey p n q; Some ((f, GetHitFileLevel q, IsHitFileLastInLevel q) :: rest)
      | None => Some []
      end
  end.

Section Property.
Context (wf : bytes → Prop) (c : Comparator) `{!ComparatorLaws wf c}.
#[local] Abbreviation icmp := (InternalKeyComparator.Compare c).
#[local] Abbreviation cmp := (CompareWithoutTimestamp c).

Lemma elem_of_hits_below ikey files k l i level f : files !! l = Some level → level !! i = Some f → (l < k)%nat →
  wanted c ikey k l (Zlen level) f = true →
  (NewFdWithKeyRange f, Z.of_nat l, bool_decide (S i = length level)) ∈ hits_below c ikey files k 0.
Proof using.
  intros El Ei Hl Hw. unfold hits_below. apply list_elem_of_In, in_concat. exists (level_hits c ikey files k l). split.
  - apply in_map. apply in_seq. lia.
  - unfold level_hits. rewrite El. apply list_elem_of_In. unfold hits_from. rewrite drop_0. apply list_elem_of_omap. eexists. split; [|done].
    apply elem_of_lookup_imap. exists i, f. by rewrite Hw.
Qed.

(** A file that holds an entry of the key which the lookup can see is wanted. *)
Lemma entry_wanted ikey k l n f entry : InternalKeyOrder.ikey_ok wf ikey → InternalKeyOrder.ikey_ok wf entry → keys_ok wf f →
  icmp (smallest f) entry <= 0 → icmp entry (largest f) <= 0 → cmp (ExtractUserKey ikey) (ExtractUserKey entry) = 0 → icmp ikey entry <= 0 →
  wanted c ikey k l n f = true.
Proof using ComparatorLaws0.
  intros Hi He [Hs Hl] H1 H2 Hu Hle. assert (in_range c ikey f = true) as Hr.
  { apply user_key_le with (wf := wf) in H1, H2; [|done..]. unfold in_range, smallest_user_key, largest_user_key.
    pose proof (cmp_eq_l (wf := wf) (cmp := cmp) _ _ (ExtractUserKey (largest f)) (proj2 (proj2 Hi)) (proj2 (proj2 He)) (proj2 (proj2 Hl)) Hu).
    pose proof (cmp_eq_l (wf := wf) (cmp := cmp) _ _ (ExtractUserKey (smallest f)) (proj2 (proj2 Hi)) (proj2 (proj2 He)) (proj2 (proj2 Hs)) Hu).
    pose proof (proj1 (cmp_flip_le (wf := wf) (cmp := cmp) _ _ (proj2 (proj2 Hs)) (proj2 (proj2 He))) H1). apply andb_true_intro. split; lia. }
  unfold wanted. rewrite Hr. destruct l; [by case_match|]. cbn [andb]. apply Z.leb_le.
  by apply (cmp_le_trans (wf := InternalKeyOrder.ikey_ok wf) (cmp := icmp) ikey entry).
Qed.

Lemma pick_files_step ikey p n q : pick_files c ikey p (S n) q =
  ('(r, q) ← GetNextFile c (ExtractUserKey ikey) ikey (level_files_brief_ p) (num_non_empty_levels_ p) (file_indexer_ p) q;
   match r with
   | Some f => rest ← pick_files c ikey p n q; Some ((f, GetHitFileLevel q, IsHitFileLastInLevel q) :: rest)
   | None => Some []
   end).
Proof using. done. Qed.
Lemma pick_files_spec ikey p files k : InternalKeyOrder.ikey_ok wf ikey → (k <= length files)%nat → Z.of_nat k < 2 ^ 31 →
  (∀ level, level ∈ files → Zlen level < 2 ^ 31) → (∀ l level, (1 <= l)%nat → files !! l = Some level → level_sorted wf c level) →
  ((1 < k)%nat → indexes c (file_indexer_ p) files k) → num_non_empty_levels_ p = Z.of_nat k →
  level_files_brief_ p = map DoGenerateLevelFilesBrief (take k files) →
  ∀ hits q, remains c ikey files k q hits → pick_files c ikey p (S (length hits)) q = Some hits.
Proof using ComparatorLaws0.
  intros Hi Hk Hk31 Hs Hl Hix Hn Hbr hits. induction hits as [|h hits IH]; intros q Hq; rewrite pick_files_step, Hn, Hbr;
    destruct (GetNextFile_spec wf c ikey files k (file_indexer_ p) Hi Hk Hk31 Hs Hl Hix q _ Hq) as ([f|] & q' & -> & Hr);
    cbn [mbind option_bind]; try done; [by destruct Hr as (? & ? & _)|].
  destruct Hr as (rest & [= -> ->] & Hr). cbn [length]. by rewrite (IH q' Hr).
Qed.

(** C12: in a well-formed version, the calls of [GetNextFile] for a lookup return
    exactly the files that looking at every file of every level would choose, level
    by level and in the order of each level, with the right level and the right mark
    for the last file of a level: at level 0 the files whose range of user keys has
    the key, or all of them if there is no other level and at most three; at the
    other levels those that in addition do not end before the internal key. The index
    between levels and the binary search within its bounds lose none, and no assertion
    fails. So every file that holds an entry of the user key which the lookup may see
    is returned. *)
Theorem file_picker_exact v allow_ingest_behind ikey : version_wf c v → version_bounds wf c v → InternalKeyOrder.ikey_ok wf ikey →
  ∃ p hits, PrepareForVersionAppend c allow_ingest_behind v = Some p ∧
    hits = hits_below c ikey (files_ v) (Z.to_nat (num_non_empty_levels_ p)) 0 ∧
    (q ← New c ikey (level_files_brief_ p) (num_non_empty_levels_ p); pick_files c ikey p (S (length hits)) q) = Some hits ∧
    ∀ l f entry, 0 <= l → f ∈ LevelFiles v l → InternalKeyOrder.ikey_ok wf entry →
      icmp (smallest f) entry <= 0 → icmp entry (largest f) <= 0 → cmp (ExtractUserKey ikey) (ExtractUserKey entry) = 0 →
      icmp ikey entry <= 0 → ∃ last, (NewFdWithKeyRange f, l, last) ∈ hits.
Proof using ComparatorLaws0.
  intros Hw Hb Hi. pose proof (version_in_order wf c v Hw Hb) as Hv.
  destruct (PrepareForVersionAppend_spec wf c v Hv allow_ingest_behind) as (_ & p & k & E & _ & [Hf [Hn Hk] He Hbr Hix] & _).
  exists p, (hits_below c ikey (files_ v) k 0). split; [exact E|]. rewrite Hn, Nat2Z.id, Hbr. split; [done|].
  assert (Z.of_nat k < 2 ^ 31) as Hk31 by (pose proof (fi_count _ _ _ Hv); unfold num_levels in *; lia). split.
  - destruct (New_spec wf c ikey (files_ v) k (file_indexer_ p) Hi Hk Hk31 (fi_size _ _ _ Hv) (fi_levels _ _ _ Hv) Hix) as (q & -> & Hq).
    cbn [mbind option_bind]. apply (pick_files_spec ikey p (files_ v) k); try done; apply Hv.
  - intros l f entry Hl Hfl Hen H1 H2 Hu Hle. unfold LevelFiles in Hfl. destruct (files_ v !! Z.to_nat l) as [level|] eqn:El; [|by apply elem_of_nil in Hfl].
    cbn in Hfl. pose proof (fi_keys _ _ _ Hv level f (list_elem_of_lookup_2 _ _ _ El) Hfl) as [Hkf _]. apply list_elem_of_lookup_1 in Hfl as [i Ei].
    exists (bool_decide (S i = length level)). rewrite <- (Z2Nat.id l) by done. apply (elem_of_hits_below ikey _ k _ i level f El Ei).
    + apply Nat.nle_gt. intros Hge. by rewrite (He _ _ Hge El) in Ei.
    + by apply (entry_wanted ikey k _ _ f entry).
Qed.
End Property.

Module PickerExample.
Import VersionExample PrepareExample.

(** The files for key 98 as of sequence number 6: one at each level with files, and a
    second one at level 1. *)
Lemma file_picker_exact_witness : ∃ p q, PrepareForVersionAppend BytewiseComparator false tree = Some p ∧
  New BytewiseComparator (98 :: EncodeFixed64 (6 * 256 + kValueTypeForSeek)) (level_files_brief_ p) (num_non_empty_levels_ p) = Some q ∧
  (map (λ h : Hit, let '(f, l, last) := h in (file_number (file_metadata f), l, last)) <$>
    pick_files BytewiseComparator (98 :: EncodeFixed64 (6 * 256 + kValueTypeForSeek)) p 5 q) =
  Some [(8, 0, true); (4, 1, false); (5, 1, true); (3, 3, true)].
Proof.
  destruct (file_picker_exact bytes_ok BytewiseComparator tree false (98 :: EncodeFixed64 (6 * 256 + kValueTypeForSeek)) tree_wf tree_bounds)
    as (p & hits & E & Eh & Ep & _).
  { split_and!; [done|repeat constructor; by vm_compute|repeat constructor; by vm_compute]. }
  assert (num_non_empty_levels_ p = 4) as En.
  { enough (num_non_empty_levels_ <$> PrepareForVersionAppend BytewiseComparator false tree = Some 4) as H by (rewrite E in H; by injection H).
    by vm_compute. }
  rewrite En in Eh. assert (length hits = 4%nat) as Hlen by (rewrite Eh; by vm_compute).
  destruct (New _ _ _ _) as [q|] eqn:Eq; [|done]. exists p, q. split; [exact E|]. split; [done|].
  rewrite Hlen in Ep. cbn [mbind option_bind] in Ep. rewrite Ep, Eh. by vm_compute.
Defined.
End PickerExample.
