(* ===== verification/CompactionInputs.v ===== *)
(** * Choosing the inputs of a compaction

    The searches of a version for the files that overlap a range
    (db/version_set.cc), the comparison of file boundaries
    (db/compaction/compaction.cc), and what the compaction pickers build on them
    (db/compaction/compaction_picker.cc): the range of a set of files, its expansion
    to a clean cut, and the files of the output level. Whether a file takes part in
    another compaction is a flag of the file that changes while versions do not; it is
    an argument here. A failed assertion and an access out of range are [None]. *)

From S2P Require Import Prelude SortedLists Comparator DbFormat VersionEdit FileIndexer VersionStorage VersionPrepare.
From stdpp Require Import list.
#[local] Open Scope Z_scope.

(** ** File boundaries *)

Definition kRangeTombstoneSentinel : Z := PackSequenceAndType kMaxSequenceNumber kTypeRangeDeletion.
Definition sstableKeyCompare (uc : Comparator) (a b : bytes) : Z :=
  let c := CompareWithoutTimestamp uc (ExtractUserKey a) (ExtractUserKey b) in
  if negb (c =? 0) then c
  else
    let a_footer := ExtractInternalKeyFooter a in
    let b_footer := ExtractInternalKeyFooter b in
    if a_footer =? kRangeTombstoneSentinel then (if negb (b_footer =? kRangeTombstoneSentinel) then -1 else 0)
    else if b_footer =? kRangeTombstoneSentinel then 1 else 0.

(** What a search returns: the files, the index of the first of them in its level, and,
    if the caller asks for it, the smallest key of the next file; it is written through
    a pointer, which is null once there is no next file. *)
Record Overlap := mkOverlap { inputs_ : list FileMetaData; file_index_ : Z; next_smallest_ : option (option bytes) }.

Definition set_next (next_smallest : option (option bytes)) (key : option bytes) : option (option (option bytes)) :=
  match next_smallest, key with
  | None, _ => Some None
  | Some _, None => Some (Some None)
  | Some (Some _), Some k => Some (Some (Some k))
  | Some None, Some _ => None
  end.

Section Overlaps.
Context (ucmp : Comparator).
#[local] Abbreviation cmp := (CompareWithoutTimestamp ucmp).
#[local] Abbreviation sst_cmp := (sstableKeyCompare ucmp).

(** ** Levels from 1 on *)

(** Skips files that start where the file before ends, and, from the right, files that
    end where the file after starts. *)
Fixpoint skip_right (fuel : nat) (files : list FdWithKeyRange) (start_index : Z) : option Z :=
  match fuel with
  | O => None
  | S fuel =>
      if start_index <? Zlen files then
        pre ← vec_at files (start_index - 1); cur ← vec_at files start_index;
        if sst_cmp (largest (file_metadata pre)) (smallest (file_metadata cur)) =? 0
        then skip_right fuel files (start_index + 1) else Some start_index
      else Some start_index
  end.
Fixpoint skip_left (fuel : nat) (files : list FdWithKeyRange) (start_index end_index : Z) : option Z :=
  match fuel with
  | O => None
  | S fuel =>
      if start_index <? end_index then
        next ← vec_at files end_index; cur ← vec_at files (end_index - 1);
        if sst_cmp (largest (file_metadata cur)) (smallest (file_metadata next)) =? 0
        then skip_left fuel files start_index (end_index - 1) else Some end_index
      else Some end_index
  end.

Definition range_start (files : list FdWithKeyRange) (begin_ : option bytes) (hint_index : Z) (within_interval : bool) : option Z :=
  match begin_ with
  | None => Some 0
  | Some k =>
      let last := if hint_index =? -1 then Zlen files else hint_index in
      _ ← assertion ((0 <=? last) && (last <=? Zlen files));
      let file_key f := if within_interval then smallest (file_metadata f) else largest (file_metadata f) in
      let start_index := Z.of_nat (count_while (λ f, sst_cmp (file_key f) k <? 0) (ztake last files)) in
      if (0 <? start_index) && within_interval then skip_right (S (length files)) files start_index else Some start_index
  end.
Definition range_end (files : list FdWithKeyRange) (start_index : Z) (end_ : option bytes) (within_interval : bool) : option Z :=
  match end_ with
  | None => Some (Zlen files)
  | Some k =>
      let file_key f := if within_interval then largest (file_metadata f) else smallest (file_metadata f) in
      let end_index := start_index + Z.of_nat (count_while (λ f, negb (sst_cmp k (file_key f) <? 0)) (zdrop start_index files)) in
      if (end_index <? Zlen files) && within_interval then skip_left (S (length files)) files start_index end_index else Some end_index
  end.

Definition GetOverlappingInputsRangeBinarySearch (p : Prepared) (level : Z) (begin_ end_ : option bytes) (inputs : list FileMetaData)
    (hint_index file_index : Z) (within_interval : bool) (next_smallest : option (option bytes)) : option Overlap :=
  _ ← assertion (0 <? level);
  file_level ← vec_at (level_files_brief_ p) level;
  let files := brief_files file_level in
  start_index ← range_start files begin_ hint_index within_interval;
  end_index ← range_end files start_index end_ within_interval;
  _ ← assertion (start_index <=? end_index);
  if start_index =? end_index then
    next ← set_next next_smallest None; Some (mkOverlap inputs file_index next)
  else
    let level_files := LevelFiles (storage p) level in
    next ← set_next next_smallest (smallest <$> (if end_index <? Zlen level_files then vec_at level_files end_index else None));
    Some (mkOverlap (inputs ++ ztake (end_index - start_index) (zdrop start_index level_files)) start_index next).

(** ** Level 0 *)

Record Pass := mkPass {
  user_begin : option bytes;
  user_end : option bytes;
  pass_inputs : list FileMetaData;
  pass_file_index : Z
}.
Definition wider (expand_range : bool) (s : Pass) (file_start file_limit : bytes) : option bytes * option bytes :=
  if expand_range then
    (match user_begin s with Some b => Some (if cmp file_start b <? 0 then file_start else b) | None => None end,
     match user_end s with Some e => Some (if 0 <? cmp file_limit e then file_limit else e) | None => None end)
  else (user_begin s, user_end s).

(** One pass over the files that are left: those that do not overlap, and whether one
    did. *)
Fixpoint overlap_pass (p : Prepared) (expand_range : bool) (files : list FdWithKeyRange) (index : list Z) (s : Pass) :
    option (list Z * bool * Pass) :=
  match index with
  | [] => Some ([], false, s)
  | i :: index =>
      f ← vec_at files i;
      let file_start := ExtractUserKey (smallest_key f) in
      let file_limit := ExtractUserKey (largest_key f) in
      if (match user_begin s with Some b => cmp file_limit b <? 0 | None => false end) ||
         (match user_end s with Some e => 0 <? cmp file_start e | None => false end) then
        '(left_over, found, s) ← overlap_pass p expand_range files index s; Some (i :: left_over, found, s)
      else
        meta ← vec_at (LevelFiles (storage p) 0) i;
        let '(b, e) := wider expand_range s file_start file_limit in
        let s := mkPass b e (pass_inputs s ++ [meta]) (if pass_file_index s =? -1 then int32 i else pass_file_index s) in
        '(left_over, _, s) ← overlap_pass p expand_range files index s; Some (left_over, true, s)
  end.
Fixpoint overlap_loop (fuel : nat) (p : Prepared) (expand_range : bool) (files : list FdWithKeyRange) (index : list Z) (s : Pass) : option Pass :=
  match fuel with
  | O => None
  | S fuel =>
      match index with
      | [] => Some s
      | _ =>
          '(left_over, found, s) ← overlap_pass p expand_range files index s;
          if found : bool then overlap_loop fuel p expand_range files left_over s else Some s
      end
  end.

Definition GetOverlappingInputs (p : Prepared) (level : Z) (begin_ end_ : option bytes) (inputs : list FileMetaData)
    (hint_index file_index : Z) (expand_range : bool) (next_smallest : option (option bytes)) : option Overlap :=
  if num_non_empty_levels_ p <=? level then Some (mkOverlap inputs file_index next_smallest)
  else if 0 <? level then GetOverlappingInputsRangeBinarySearch p level begin_ end_ [] hint_index (-1) false next_smallest
  else
    next ← set_next next_smallest None;
    file_level ← vec_at (level_files_brief_ p) level;
    let index := map Z.of_nat (seq 0 (length (brief_files file_level))) in
    s ← overlap_loop (S (length index)) p expand_range (brief_files file_level) index
          (mkPass (ExtractUserKey <$> begin_) (ExtractUserKey <$> end_) [] (-1));
    Some (mkOverlap (pass_inputs s) (pass_file_index s) next).

Definition GetCleanInputsWithinInterval (p : Prepared) (level : Z) (begin_ end_ : option bytes) (hint_index : Z) : option (list FileMetaData) :=
  if (num_non_empty_levels_ p <=? level) || (level =? 0) then Some []
  else
    file_level ← vec_at (level_files_brief_ p) level;
    if num_files file_level =? 0 then Some []
    else inputs_ <$> GetOverlappingInputsRangeBinarySearch p level begin_ end_ [] hint_index (-1) true None.
End Overlaps.
