(* ===== verification/CompactionPicker.v ===== *)
(** * Setting up a compaction

    What every compaction picker shares (db/compaction/compaction_picker.cc): the range
    of the inputs, their expansion to a clean cut, the files of the output level and,
    where that does not change them, more files of the input level. Whether a file is
    being compacted is an argument; the column family, its options apart from the two
    that bound the inputs, and log messages are left out. *)

From S2P Require Import Prelude SortedLists Comparator DbFormat VersionEdit FileIndexer VersionStorage VersionPrepare CompactionInputs.
From stdpp Require Import list.
#[local] Open Scope Z_scope.

Record CompactionInputFiles := mkCompactionInputFiles { input_level : Z; input_files : list FileMetaData }.
Definition inputs_empty (c : CompactionInputFiles) : bool := match input_files c with [] => true | _ => false end.

Definition TotalFileSize (files : list FileMetaData) : Z := fold_left (λ sum f, u64 (sum + file_size (fd f))) files 0.

Section Picker.
Context (ucmp : Comparator) (being_compacted : FileMetaData → bool).
#[local] Abbreviation icmp := (InternalKeyComparator.Compare ucmp).

Definition AreFilesInCompaction (files : list FileMetaData) : bool := existsb being_compacted files.

(** ** The range of the inputs *)

Definition wider_range (r : bytes * bytes) (f : FileMetaData) : bytes * bytes :=
  (if icmp (smallest f) (fst r) <? 0 then smallest f else fst r, if 0 <? icmp (largest f) (snd r) then largest f else snd r).
Definition GetRange (inputs : CompactionInputFiles) : option (bytes * bytes) :=
  match input_files inputs with
  | [] => None
  | f :: files =>
      if input_level inputs =? 0 then Some (fold_left wider_range files (smallest f, largest f))
      else Some (smallest f, largest (List.last (f :: files) f))
  end.
Definition GetRange2 (inputs1 inputs2 : CompactionInputFiles) : option (bytes * bytes) :=
  _ ← assertion (negb (inputs_empty inputs1) || negb (inputs_empty inputs2));
  if inputs_empty inputs1 then GetRange inputs2
  else if inputs_empty inputs2 then GetRange inputs1
  else
    '(smallest1, largest1) ← GetRange inputs1;
    '(smallest2, largest2) ← GetRange inputs2;
    Some (if icmp smallest1 smallest2 <? 0 then smallest1 else smallest2, if icmp largest1 largest2 <? 0 then largest2 else largest1).

(** ** Clean cuts *)

Fixpoint expand_loop (fuel : nat) (p : Prepared) (level : Z) (files : list FileMetaData) (hint_index : Z)
    (next_smallest : option (option bytes)) : option Overlap :=
  match fuel with
  | O => None
  | S fuel =>
      let old_size := length files in
      '(smallest, largest) ← GetRange (mkCompactionInputFiles level files);
      o ← GetOverlappingInputs ucmp p level (Some smallest) (Some largest) [] hint_index hint_index true next_smallest;
      if (old_size <? length (inputs_ o))%nat then expand_loop fuel p level (inputs_ o) (file_index_ o) (next_smallest_ o) else Some o
  end.
(** The result, the inputs and the smallest key of the next file. *)
Definition ExpandInputsToCleanCut (p : Prepared) (inputs : CompactionInputFiles) (next_smallest : option (option bytes)) :
    option (bool * CompactionInputFiles * option (option bytes)) :=
  _ ← assertion (negb (inputs_empty inputs));
  let level := input_level inputs in
  if level =? 0 then Some (true, inputs, next_smallest)
  else
    o ← expand_loop (S (length (LevelFiles (storage p) level))) p level (input_files inputs) (-1) next_smallest;
    let inputs := mkCompactionInputFiles level (inputs_ o) in
    _ ← assertion (negb (inputs_empty inputs));
    Some (negb (AreFilesInCompaction (input_files inputs)), inputs, next_smallest_ o).

(** ** The files of the output level *)

Record MutableCFOptions := mkMutableCFOptions { max_compaction_bytes : Z; ignore_max_compaction_bytes_for_input : bool }.

Fixpoint no_files_between (p : Prepared) (level : Z) (n : nat) : bool :=
  match n with O => true | S n => (Zlen (LevelFiles (storage p) level) =? 0) && no_files_between p (level + 1) n end.

(** Whether the inputs may grow to [expanded]. *)
Definition may_expand (o : MutableCFOptions) (inputs expanded output_level_inputs : list FileMetaData) (expanded_size : Z) : bool :=
  (length inputs <? length expanded)%nat &&
  (ignore_max_compaction_bytes_for_input o || (u64 (TotalFileSize output_level_inputs + expanded_size) <? max_compaction_bytes o)) &&
  negb (AreFilesInCompaction expanded).

(** The larger inputs, if the output level has the same files for them, and the index
    of its first file. *)
Definition try_overlapping (o : MutableCFOptions) (p : Prepared) (inputs output_level_inputs : CompactionInputFiles)
    (begin_ end_ : bytes) (parent_index base_index : Z) : option (option (list FileMetaData) * Z) :=
  ov ← GetOverlappingInputs ucmp p (input_level inputs) (Some begin_) (Some end_) [] base_index (-1) true None;
  let expanded_size := TotalFileSize (inputs_ ov) in
  '(clean, expanded, _) ← ExpandInputsToCleanCut p (mkCompactionInputFiles (input_level inputs) (inputs_ ov)) None;
  if clean && may_expand o (input_files inputs) (input_files expanded) (input_files output_level_inputs) expanded_size then
    '(new_start, new_limit) ← GetRange expanded;
    out ← GetOverlappingInputs ucmp p (input_level output_level_inputs) (Some new_start) (Some new_limit) [] parent_index parent_index true None;
    _ ← assertion (match inputs_ out with [] => false | _ => true end);
    if negb (AreFilesInCompaction (inputs_ out)) then
      '(clean, expanded_out, _) ← ExpandInputsToCleanCut p (mkCompactionInputFiles (input_level output_level_inputs) (inputs_ out)) None;
      Some (if clean && (length (input_files expanded_out) =? length (input_files output_level_inputs))%nat
            then Some (input_files expanded) else None, file_index_ out)
    else Some (None, file_index_ out)
  else Some (None, parent_index).

Definition expand_inputs (o : MutableCFOptions) (p : Prepared) (inputs output_level_inputs : CompactionInputFiles) (smallest : bytes)
    (parent_index base_index : Z) (only_expand_towards_right : bool) : option (CompactionInputFiles * Z) :=
  '(all_start, all_limit) ← GetRange2 inputs output_level_inputs;
  '(expanded, parent_index) ← try_overlapping o p inputs output_level_inputs
     (if only_expand_towards_right then smallest else all_start) all_limit parent_index base_index;
  match expanded with
  | Some files => Some (mkCompactionInputFiles (input_level inputs) files, parent_index)
  | None =>
      files ← GetCleanInputsWithinInterval ucmp p (input_level inputs) (Some all_start) (Some all_limit) base_index;
      Some (if may_expand o (input_files inputs) files (input_files output_level_inputs) (TotalFileSize files)
            then mkCompactionInputFiles (input_level inputs) files else inputs, parent_index)
  end.

(** The result, the inputs of both levels and the index of the first file of the
    output level. *)
Definition SetupOtherInputs (o : MutableCFOptions) (p : Prepared) (inputs : CompactionInputFiles) (output_level parent_index base_index : Z)
    (only_expand_towards_right : bool) : option (bool * CompactionInputFiles * CompactionInputFiles * Z) :=
  _ ← assertion (negb (inputs_empty inputs));
  let none := mkCompactionInputFiles output_level [] in
  if input_level inputs =? output_level then Some (true, inputs, none, parent_index)
  else
    _ ← assertion (no_files_between p (input_level inputs + 1) (Z.to_nat (output_level - (input_level inputs + 1))));
    '(smallest, largest) ← GetRange inputs;
    ov ← GetOverlappingInputs ucmp p output_level (Some smallest) (Some largest) [] parent_index parent_index true None;
    let out := mkCompactionInputFiles output_level (inputs_ ov) in
    if AreFilesInCompaction (input_files out) then Some (false, inputs, out, file_index_ ov)
    else if inputs_empty out then Some (true, inputs, out, file_index_ ov)
    else
      '(clean, out, _) ← ExpandInputsToCleanCut p out None;
      if negb clean then Some (false, inputs, out, file_index_ ov)
      else
        '(inputs, parent_index) ← expand_inputs o p inputs out smallest (file_index_ ov) base_index only_expand_towards_right;
        Some (true, inputs, out, parent_index).
End Picker.
