(* ===== verification/CompactionInputsCorrect.v ===== *)
(** * The inputs of a compaction are those that overlap

    The searches of a level find the files that touch a range of keys, and the largest
    run of files within a range that ends in clean cuts; at level 0 they find the least
    set of files that is closed under overlap. *)

From Stdlib Require Import Sorting.Sorted.
From S2P Require Import Prelude SortedLists Coding Comparator DbFormat VersionEdit FileIndexer FileIndexerCorrect.
From S2P Require Import VersionStorage VersionStorageCorrect VersionPrepare VersionPrepareCorrect CompactionInputs.
From stdpp Require Import list.
#[local] Open Scope Z_scope.
Import FileIndexer (smallest_user_key, largest_user_key).

#[local] Existing Instance InternalKeyOrder.Compare_order.
#[local] Existing Instance cl_no_ts.

(** ** The order of file boundaries *)

Section Boundaries.
Context (wf : bytes → Prop) (c : Comparator) `{!ComparatorLaws wf c}.
#[local] Abbreviation ikey_ok := (InternalKeyOrder.ikey_ok wf).
#[local] Abbreviation icmp := (InternalKeyComparator.Compare c).
#[local] Abbreviation cmp := (CompareWithoutTimestamp c).
#[local] Abbreviation sst_cmp := (sstableKeyCompare c).

(** A sentinel, the end of a range tombstone, is before the keys of its user key. *)
Definition sentinel_rank (k : bytes) : Z := if ExtractInternalKeyFooter k =? kRangeTombstoneSentinel then 0 else 1.
Lemma sstableKeyCompare_lex a b : sst_cmp a b = if negb (cmp (ExtractUserKey a) (ExtractUserKey b) =? 0)
  then cmp (ExtractUserKey a) (ExtractUserKey b) else sentinel_rank a - sentinel_rank b.
Proof using. unfold sstableKeyCompare, sentinel_rank. by repeat case_match. Qed.
#[export] Instance sstableKeyCompare_order : CompareOrder ikey_ok sst_cmp.
Proof using ComparatorLaws0.
  assert (CompareOrder ikey_ok (λ a b, if negb (cmp (ExtractUserKey a) (ExtractUserKey b) =? 0)
    then cmp (ExtractUserKey a) (ExtractUserKey b) else sentinel_rank a - sentinel_rank b)) as [H1 H2].
  { apply order_lex; [|split; intros; lia]. apply (order_map ikey_ok wf ExtractUserKey); [by intros a (_ & _ & ?)|]. apply cl_no_ts. }
  split; intros *; rewrite !sstableKeyCompare_lex; [apply H1|apply H2].
Qed.

(** A boundary of a file: the sentinel or a key with a sequence number that an entry
    can have. *)
Definition boundary_typed (k : bytes) : Prop := ExtractInternalKeyFooter k <= kRangeTombstoneSentinel.
Lemma boundary_key_typed k : boundary_typed k → key_typed k.
Proof using.
  unfold boundary_typed, key_typed. intros H. apply (Z.le_trans _ _ _ H). by vm_compute.
Qed.

(** Without timestamps, the order of boundaries is coarser than that of keys. *)
Lemma sst_cmp_coarser a b : timestamp_size c = 0 → ikey_ok a → ikey_ok b → boundary_typed a → icmp a b <= 0 → sst_cmp a b <= 0.
Proof using ComparatorLaws0.
  intros Hts Ha Hb Hta H. rewrite sstableKeyCompare_lex. rewrite InternalKeyOrder.Compare_lex in H.
  rewrite !(cl_no_ts_plain (ComparatorLaws := ComparatorLaws0) Hts).
  destruct (Z.eqb_spec (Compare c (ExtractUserKey a) (ExtractUserKey b)) 0) as [E|E]; cbn [negb] in *; [|done].
  unfold InternalKeyComparator.footer_compare in H. unfold sentinel_rank, boundary_typed in *. repeat case_match; lia.
Qed.

(** The files of a level, by their boundaries: the end of a file may be the start of
    the next. *)
Record level_cut (files : list FileMetaData) : Prop := {
  lc_keys : ∀ f, f ∈ files → keys_ok wf f ∧ sst_cmp (smallest f) (largest f) <= 0;
  lc_sorted : StronglySorted (λ a b, sst_cmp (largest a) (smallest b) <= 0) files;
  lc_size : Zlen files < 2 ^ 31
}.
Lemma level_sorted_cut files : timestamp_size c = 0 → level_sorted wf c files →
  (∀ f, f ∈ files → boundary_typed (smallest f) ∧ boundary_typed (largest f)) → level_cut files.
Proof using ComparatorLaws0.
  intros Hts [Hk Hs Hz] Ht. split; [|clear Hz|done].
  - intros f Hf. destruct (Hk f Hf) as [[Hs1 Hl1] Hle]. split; [done|]. apply sst_cmp_coarser; [done..| |done]. by apply Ht.
  - induction Hs as [|f files Hs IH Hf]; constructor; [apply IH; intros; [apply Hk|apply Ht]; by right|].
    rewrite Forall_forall in Hf |- *. intros g Hg. destruct (Hk f ltac:(left)) as [[_ Wf] _], (Hk g ltac:(by right)) as [[Wg _] _].
    apply sst_cmp_coarser; [done..|apply Ht; left|]. specialize (Hf g Hg). lia.
Qed.
End Boundaries.

(** ** Searches of a sorted level *)

Lemma count_while_take {A} (p : A → bool) l n : count_while p (take n l) = (n `min` count_while p l)%nat.
Proof.
  revert n. induction l as [|x l IH]; intros [|n]; cbn; try done. destruct (p x); [|done]. by rewrite IH.
Qed.
Lemma count_while_partition {A} (p : A → bool) l j y : (∀ i x, l !! i = Some x → (i <= j)%nat → p y = true → p x = true) →
  l !! j = Some y → (j < count_while p l)%nat ↔ p y = true.
Proof.
  intros Hmono Ey. split; [by apply count_while_before|]. intros Hy. apply Nat.nle_gt. intros Hle.
  destruct (lookup_lt_is_Some_2 l (count_while p l)) as [x Ex]; [apply lookup_lt_Some in Ey; lia|].
  pose proof (count_while_at p l x Ex). rewrite (Hmono _ x Ex Hle Hy) in *. done.
Qed.

(** The files from [s] to [e]. *)
Definition run (fs : list FileMetaData) (s e : nat) : list FileMetaData := take (e - s) (drop s fs).
Lemma run_lookup fs s e j : (j < e - s)%nat → run fs s e !! j = fs !! (s + j)%nat.
Proof. intros H. unfold run. by rewrite lookup_take_lt, lookup_drop. Qed.
Lemma run_length fs s e : (s <= e <= length fs)%nat → length (run fs s e) = (e - s)%nat.
Proof. intros H. unfold run. rewrite length_take, length_drop. lia. Qed.
Lemma elem_of_run fs s e f : (e <= length fs)%nat → f ∈ run fs s e ↔ ∃ j, fs !! j = Some f ∧ (s <= j < e)%nat.
Proof.
  intros He. rewrite list_elem_of_lookup. split.
  - intros [j Hj]. assert (j < e - s)%nat by (apply lookup_lt_Some in Hj; unfold run in Hj; rewrite length_take in Hj; lia).
    rewrite run_lookup in Hj by done. exists (s + j)%nat. split; [done|lia].
  - intros (j & Ej & Hj). exists (j - s)%nat. rewrite run_lookup by lia. by replace (s + (j - s))%nat with j by lia.
Qed.

Section Level.
Context (wf : bytes → Prop) (c : Comparator) `{!ComparatorLaws wf c} (fs : list FileMetaData) (Hfs : level_cut wf c fs).
#[local] Abbreviation ikey_ok := (InternalKeyOrder.ikey_ok wf).
#[local] Abbreviation sst_cmp := (sstableKeyCompare c).
#[local] Abbreviation sst_le_trans := (cmp_le_trans (wf := ikey_ok) (cmp := sst_cmp)).

Lemma cut_keys j f : fs !! j = Some f → ikey_ok (smallest f) ∧ ikey_ok (largest f) ∧ sst_cmp (smallest f) (largest f) <= 0.
Proof using Hfs. intros E. destruct (lc_keys _ _ _ Hfs f (list_elem_of_lookup_2 _ _ _ E)) as [[H1 H2] H3]. done. Qed.
Lemma cut_order i j f g : fs !! i = Some f → fs !! j = Some g → (i < j)%nat → sst_cmp (largest f) (smallest g) <= 0.
Proof using Hfs. intros Ef Eg H. by apply (sorted_lookup _ _ (lc_sorted _ _ _ Hfs) i j). Qed.
Lemma cut_grow i j f g : fs !! i = Some f → fs !! j = Some g → (i <= j)%nat →
  sst_cmp (smallest f) (smallest g) <= 0 ∧ sst_cmp (largest f) (largest g) <= 0 ∧ sst_cmp (smallest f) (largest g) <= 0.
Proof using Hfs ComparatorLaws0.
  intros Ef Eg H. destruct (cut_keys i f Ef) as (W1 & W2 & H1), (cut_keys j g Eg) as (W3 & W4 & H2).
  destruct (decide (i = j)) as [->|Hne].
  - rewrite Ef in Eg. injection Eg as <-. rewrite !(cmp_refl (wf := ikey_ok) (cmp := sst_cmp)) by done. done.
  - pose proof (cut_order i j f g Ef Eg ltac:(lia)) as H3. pose proof (sst_le_trans _ _ _ W1 W2 W3 H1 H3) as H4.
    pose proof (sst_le_trans _ _ _ W2 W3 W4 H3 H2). pose proof (sst_le_trans _ _ _ W1 W3 W4 H4 H2). done.
Qed.

(** The files before a key, by their smallest or their largest key. *)
Definition count_before (key : FileMetaData → bytes) (k : bytes) : nat := count_while (λ f, sst_cmp (key f) k <? 0) fs.
Definition monotone (key : FileMetaData → bytes) : Prop :=
  ∀ i j f g, fs !! i = Some f → fs !! j = Some g → (i <= j)%nat → ikey_ok (key f) ∧ ikey_ok (key g) ∧ sst_cmp (key f) (key g) <= 0.
Lemma monotone_smallest : monotone smallest.
Proof using Hfs ComparatorLaws0. intros i j f g Ef Eg H. destruct (cut_keys i f Ef), (cut_keys j g Eg). split_and!; [done..|]. by apply (cut_grow i j). Qed.
Lemma monotone_largest : monotone largest.
Proof using Hfs ComparatorLaws0. intros i j f g Ef Eg H. destruct (cut_keys i f Ef) as (_ & ? & _), (cut_keys j g Eg) as (_ & ? & _). split_and!; [done..|]. by apply (cut_grow i j). Qed.

Lemma count_before_spec key k j f : monotone key → ikey_ok k → fs !! j = Some f → (j < count_before key k)%nat ↔ sst_cmp (key f) k < 0.
Proof using ComparatorLaws0.
  intros Hm Hk Ef. unfold count_before. rewrite (count_while_partition _ _ _ f), Z.ltb_lt; [done| |done].
  intros i g Eg Hi. rewrite !Z.ltb_lt. destruct (Hm i j g f Eg Ef Hi) as (W1 & W2 & Hle).
  by apply (cmp_le_lt_trans (wf := ikey_ok) (cmp := sst_cmp)).
Qed.
Lemma count_from_spec key k s j f : monotone key → ikey_ok k → fs !! j = Some f → (s <= j)%nat →
  (j < s + count_while (λ f, negb (sst_cmp k (key f) <? 0)%Z) (drop s fs))%nat ↔ 0 <= sst_cmp k (key f).
Proof using ComparatorLaws0.
  intros Hm Hk Ef Hs. rewrite <- Z.ltb_ge, <- negb_true_iff.
  rewrite <- (count_while_partition (λ f, negb (sst_cmp k (key f) <? 0)) (drop s fs) (j - s) f); [lia| |].
  - intros i g Eg Hi. rewrite lookup_drop in Eg. rewrite !negb_true_iff, !Z.ltb_ge. destruct (Hm (s + i)%nat j g f Eg Ef ltac:(lia)) as (W1 & W2 & Hle).
    intros H. apply (cmp_flip_le (wf := ikey_ok) (cmp := sst_cmp)) in H; [|done..]. apply (cmp_flip_le (wf := ikey_ok) (cmp := sst_cmp)); [done..|].
    by apply (sst_le_trans _ (key f)).
  - rewrite lookup_drop, <- Ef. f_equal. lia.
Qed.

(** A bound is missing or a key; a hint is missing or the index of a file that is not
    before the first bound. *)
Definition key_bound (k : option bytes) : Prop := ∀ x, k = Some x → ikey_ok x.
Definition hint_ok (key : FileMetaData → bytes) (b : option bytes) (hint : Z) : Prop :=
  hint = -1 ∨ 0 <= hint <= Zlen fs ∧ ∀ k f, b = Some k → fs !! Z.to_nat hint = Some f → 0 <= sst_cmp (key f) k.
Definition before (key : FileMetaData → bytes) (b : option bytes) (f : FileMetaData) : Prop := ∃ k, b = Some k ∧ sst_cmp (key f) k < 0.
Definition after (key : FileMetaData → bytes) (e : option bytes) (f : FileMetaData) : Prop := ∃ k, e = Some k ∧ sst_cmp k (key f) < 0.
#[local] Abbreviation briefs := (map NewFdWithKeyRange fs).

Lemma Zlen_briefs : Zlen briefs = Zlen fs.
Proof using. unfold Zlen. by rewrite length_map. Qed.
Lemma hint_count key k hint : monotone key → ikey_ok k → hint_ok key (Some k) hint →
  let last := if hint =? -1 then Zlen fs else hint in
  0 <= last <= Zlen fs ∧ count_while (λ f, sst_cmp (key (file_metadata f)) k <? 0) (ztake last briefs) = count_before key k.
Proof using ComparatorLaws0.
  intros Hm Hk Hh last. unfold ztake. rewrite count_while_take, (count_while_map NewFdWithKeyRange).
  change (count_while _ fs) with (count_before key k).
  assert (count_before key k <= length fs)%nat as Hle by apply count_while_le. subst last.
  destruct Hh as [-> |[Hr Hh]]; [cbn; unfold Zlen; split; lia|].
  destruct (Z.eqb_spec hint (-1)); [lia|]. split; [done|]. apply Nat.min_r, Nat.nlt_ge. intros Hlt.
  destruct (lookup_lt_is_Some_2 fs (Z.to_nat hint)) as [f Ef]; [lia|]. apply (count_before_spec key k _ f Hm Hk Ef) in Hlt.
  specialize (Hh k f eq_refl Ef). lia.
Qed.

Lemma range_start_plain b hint : key_bound b → hint_ok largest b hint → ∃ s : nat, range_start c briefs b hint false = Some (Z.of_nat s) ∧
  (s <= length fs)%nat ∧ ∀ j f, fs !! j = Some f → (j < s)%nat ↔ before largest b f.
Proof using Hfs ComparatorLaws0.
  intros Hb Hh. destruct b as [k|]; cbn [range_start].
  2: { exists 0%nat. split_and!; [done|lia|]. intros j f _. split; [lia|by intros (? & ? & _)]. }
  destruct (hint_count largest k hint monotone_largest (Hb k eq_refl) Hh) as [Hl Hc]. rewrite Zlen_briefs.
  rewrite !(proj2 (Z.leb_le _ _)) by lia. cbn [andb assertion mbind option_bind]. rewrite Hc, andb_false_r.
  exists (count_before largest k). split; [done|]. split; [apply count_while_le|]. intros j f Ef.
  rewrite (count_before_spec largest k j f monotone_largest (Hb k eq_refl) Ef). split; [by exists k|]. by intros (? & [= <-] & ?).
Qed.
Lemma range_end_plain s e : key_bound e → (s <= length fs)%nat → ∃ n : nat, range_end c briefs (Z.of_nat s) e false = Some (Z.of_nat n) ∧
  (s <= n <= length fs)%nat ∧ ∀ j f, fs !! j = Some f → (s <= j)%nat → (j < n)%nat ↔ ¬ after smallest e f.
Proof using Hfs ComparatorLaws0.
  intros He Hs. destruct e as [k|]; cbn [range_end].
  2: { exists (length fs). rewrite Zlen_briefs. split_and!; [done|lia..|]. intros j f Ef%lookup_lt_Some _. split; [by intros _ (? & ? & _)|done]. }
  rewrite andb_false_r. unfold zdrop. rewrite Nat2Z.id, <- fmap_drop. change (NewFdWithKeyRange <$> drop s fs) with (map NewFdWithKeyRange (drop s fs)).
  rewrite (count_while_map NewFdWithKeyRange). cbn [file_metadata NewFdWithKeyRange].
  pose proof (count_while_le (λ f, negb (sst_cmp k (smallest f) <? 0)) (drop s fs)) as Hle. rewrite length_drop in Hle.
  eexists. split; [by rewrite <- Nat2Z.inj_add|]. split; [lia|]. intros j f Ef Hj.
  rewrite (count_from_spec smallest k s j f monotone_smallest (He k eq_refl) Ef Hj). split.
  - intros H (? & [= <-] & ?). lia.
  - intros H. apply Z.nlt_ge. intros Hlt. apply H. by exists k.
Qed.

(** ** Clean cuts *)

(** No key of file [i] is also in the file before it. *)
Definition clean_at (i : nat) : Prop := ∀ j f g, i = S j → fs !! j = Some f → fs !! i = Some g → sst_cmp (largest f) (smallest g) ≠ 0.
Lemma clean_at_0 : clean_at 0.
Proof using. by intros ???. Qed.
Lemma clean_at_end i : (length fs <= i)%nat → clean_at i.
Proof using. intros H j f g _ _ Eg%lookup_lt_Some. lia. Qed.

Lemma briefs_at i f : fs !! i = Some f → vec_at briefs (Z.of_nat i) = Some (NewFdWithKeyRange f).
Proof using. intros E. by rewrite vec_at_nat, list_lookup_fmap, E. Qed.

Lemma skip_right_spec fuel : ∀ i, (0 < i <= length fs)%nat → (length fs - i < fuel)%nat → ∃ s : nat,
  skip_right c fuel briefs (Z.of_nat i) = Some (Z.of_nat s) ∧ (i <= s <= length fs)%nat ∧ clean_at s ∧ ∀ j, (i <= j < s)%nat → ¬ clean_at j.
Proof using.
  induction fuel as [|fuel IH]; intros i Hi Hf; [lia|]. cbn [skip_right]. rewrite Zlen_briefs. unfold Zlen.
  destruct (Z.ltb_spec (Z.of_nat i) (Z.of_nat (length fs))) as [Hlt|Hge].
  2: { exists i. split_and!; [done|lia|lia|apply clean_at_end; lia|lia]. }
  destruct i as [|i]; [lia|]. destruct (lookup_lt_is_Some_2 fs i) as [f Ef]; [lia|]. destruct (lookup_lt_is_Some_2 fs (S i)) as [g Eg]; [lia|].
  replace (Z.of_nat (S i) - 1) with (Z.of_nat i) by lia. rewrite (briefs_at i f Ef), (briefs_at (S i) g Eg). cbn [mbind option_bind file_metadata NewFdWithKeyRange].
  destruct (Z.eqb_spec (sst_cmp (largest f) (smallest g)) 0) as [E|E].
  - replace (Z.of_nat (S i) + 1) with (Z.of_nat (S (S i))) by lia. destruct (IH (S (S i))) as (s & -> & Hs & Hc & Hn); [lia..|].
    exists s. split_and!; [done|lia|lia|done|]. intros j Hj. destruct (decide (j = S i)) as [->|]; [|apply Hn; lia].
    intros Hcj. by apply (Hcj i f g).
  - exists (S i). split_and!; [done|lia|lia| |lia]. intros j f' g' [= <-] Ef' Eg'. congruence.
Qed.
Lemma skip_left_spec fuel s : ∀ n, (s <= n < length fs)%nat → (n - s < fuel)%nat → ∃ e : nat,
  skip_left c fuel briefs (Z.of_nat s) (Z.of_nat n) = Some (Z.of_nat e) ∧ (s <= e <= n)%nat ∧ (s < e → clean_at e)%nat ∧
  ∀ j, (e < j <= n)%nat → ¬ clean_at j.
Proof using.
  induction fuel as [|fuel IH]; intros n Hn Hf; [lia|]. cbn [skip_left].
  destruct (Z.ltb_spec (Z.of_nat s) (Z.of_nat n)) as [Hlt|Hge].
  2: { exists n. split_and!; [done|lia..]. }
  destruct n as [|n]; [lia|]. destruct (lookup_lt_is_Some_2 fs n) as [f Ef]; [lia|]. destruct (lookup_lt_is_Some_2 fs (S n)) as [g Eg]; [lia|].
  replace (Z.of_nat (S n) - 1) with (Z.of_nat n) by lia. rewrite (briefs_at n f Ef), (briefs_at (S n) g Eg). cbn [mbind option_bind file_metadata NewFdWithKeyRange].
  destruct (Z.eqb_spec (sst_cmp (largest f) (smallest g)) 0) as [E|E].
  - destruct (IH n) as (e & -> & He & Hc & Hnc); [lia..|]. exists e. split_and!; [done|lia|lia|done|].
    intros j Hj. destruct (decide (j = S n)) as [->|]; [|apply Hnc; lia]. intros Hcj. by apply (Hcj n f g).
  - exists (S n). split_and!; [done|lia|lia| |lia]. intros _ j f' g' [= <-] Ef' Eg'. congruence.
Qed.

Lemma range_start_within b hint : key_bound b → hint_ok smallest b hint → ∃ s : nat, range_start c briefs b hint true = Some (Z.of_nat s) ∧
  (s <= length fs)%nat ∧ clean_at s ∧ (∀ j f, fs !! j = Some f → (s <= j)%nat → ¬ before smallest b f) ∧
  ∀ i f, fs !! i = Some f → clean_at i → ¬ before smallest b f → (s <= i)%nat.
Proof using Hfs ComparatorLaws0.
  intros Hb Hh. destruct b as [k|]; cbn [range_start].
  2: { exists 0%nat. split_and!; [done|lia|apply clean_at_0|by intros j f _ _ (? & ? & _)|lia]. }
  destruct (hint_count smallest k hint monotone_smallest (Hb k eq_refl) Hh) as [Hl Hc]. rewrite Zlen_briefs.
  rewrite !(proj2 (Z.leb_le _ _)) by lia. cbn [andb assertion mbind option_bind]. rewrite Hc, andb_true_r.
  assert (count_before smallest k <= length fs)%nat as Hle by apply count_while_le.
  assert (∀ j f, fs !! j = Some f → (count_before smallest k <= j)%nat ↔ ¬ before smallest (Some k) f) as Hbf.
  { intros j f Ef. pose proof (count_before_spec smallest k j f monotone_smallest (Hb k eq_refl) Ef) as Hiff. split.
    - intros Hj (? & [= <-] & Hlt). apply Hiff in Hlt. lia.
    - intros Hn. apply Nat.nlt_ge. intros Hlt. apply Hn. exists k. split; [done|]. by apply Hiff. }
  destruct (Z.ltb_spec 0 (Z.of_nat (count_before smallest k))) as [Hpos|H0].
  - rewrite length_map. destruct (skip_right_spec (S (length fs)) (count_before smallest k)) as (s & -> & Hs & Hcl & Hn); [lia..|].
    exists s. split_and!; [done|lia|done| |].
    + intros j f Ef Hj. apply (Hbf j f Ef). lia.
    + intros i f Ef Hci Hbi. apply (Hbf i f Ef) in Hbi. apply Nat.nlt_ge. intros Hlt. by apply (Hn i); [lia|].
  - exists (count_before smallest k). assert (count_before smallest k = 0%nat) as E by lia. split_and!; [done|lia|rewrite E; apply clean_at_0| |lia].
    intros j f Ef Hj. apply (Hbf j f Ef). lia.
Qed.
Lemma range_end_within s e : key_bound e → (s <= length fs)%nat → ∃ n : nat, range_end c briefs (Z.of_nat s) e true = Some (Z.of_nat n) ∧
  (s <= n <= length fs)%nat ∧ (s < n → clean_at n)%nat ∧ (∀ j f, fs !! j = Some f → (s <= j < n)%nat → ¬ after largest e f) ∧
  ∀ j f, fs !! j = Some f → (s <= j)%nat → clean_at (S j) → ¬ after largest e f → (S j <= n)%nat.
Proof using Hfs ComparatorLaws0.
  intros He Hs. destruct e as [k|]; cbn [range_end].
  2: { exists (length fs). rewrite Zlen_briefs. split_and!; [done|lia|lia|intros _; by apply clean_at_end|by intros j f _ _ (? & ? & _)|].
       intros j f Ef%lookup_lt_Some _ _ _. lia. }
  rewrite andb_true_r, length_map, Zlen_briefs. unfold zdrop. rewrite Nat2Z.id, <- fmap_drop.
  change (NewFdWithKeyRange <$> drop s fs) with (map NewFdWithKeyRange (drop s fs)).
  rewrite (count_while_map NewFdWithKeyRange). cbn [file_metadata NewFdWithKeyRange].
  pose proof (count_while_le (λ f, negb (sst_cmp k (largest f) <? 0)) (drop s fs)) as Hle. rewrite length_drop in Hle.
  pose proof (λ j f Ef Hj, count_from_spec largest k s j f monotone_largest (He k eq_refl) Ef Hj) as Hcnt.
  rewrite <- Nat2Z.inj_add. set (n := (s + count_while _ (drop s fs))%nat) in *.
  assert (∀ j f, fs !! j = Some f → (s <= j)%nat → (j < n)%nat ↔ ¬ after largest (Some k) f) as Haf.
  { intros j f Ef Hj. rewrite (Hcnt j f Ef Hj). split; [intros H (? & [= <-] & ?); lia|].
    intros H. apply Z.nlt_ge. intros Hlt. apply H. by exists k. }
  unfold Zlen. destruct (Z.ltb_spec (Z.of_nat n) (Z.of_nat (length fs))).
  - destruct (skip_left_spec (S (length fs)) s n) as (e & -> & Hes & Hc & Hn); [lia..|]. exists e. split_and!; [done|lia|lia|done| |].
    + intros j f Ef Hj. apply (Haf j f Ef); lia.
    + intros j f Ef Hj Hcj Hna. apply (Haf j f Ef Hj) in Hna. apply Nat.nlt_ge. intros Hlt. by apply (Hn (S j)); [lia|].
  - exists n. split_and!; [done|lia|lia|intros _; apply clean_at_end; lia| |].
    + intros j f Ef Hj. apply (Haf j f Ef); lia.
    + intros j f Ef Hj _ Hna. apply (Haf j f Ef Hj) in Hna. lia.
Qed.
End Level.

(** ** The searches of a version *)

(** A file with a boundary between two bounds, or across one. *)
Definition touches (c : Comparator) (b e : option bytes) (f : FileMetaData) : Prop := ¬ before c largest b f ∧ ¬ after c smallest e f.
(** The smallest key of the file after a run, for a caller that asks for it. *)
Definition next_of (fs : list FileMetaData) (n : nat) (next : option (option bytes)) : option (option bytes) :=
  match next with None => None | Some _ => Some (smallest <$> fs !! n) end.

(** Files [s] to [n] are the largest run within a range that starts and ends in clean
    cuts. *)
Record largest_clean_run (c : Comparator) (fs : list FileMetaData) (b e : option bytes) (s n : nat) : Prop := {
  lr_range : (s <= n <= length fs)%nat;
  lr_clean : (s < n)%nat → clean_at c fs s ∧ clean_at c fs n;
  lr_within : ∀ j f, fs !! j = Some f → (s <= j < n)%nat → ¬ before c smallest b f ∧ ¬ after c largest e f;
  lr_largest : ∀ a m, (a < m <= length fs)%nat → clean_at c fs a → clean_at c fs m →
    (∀ j f, fs !! j = Some f → (a <= j < m)%nat → ¬ before c smallest b f ∧ ¬ after c largest e f) → (s <= a)%nat ∧ (m <= n)%nat
}.

Section Version.
Context (wf : bytes → Prop) (c : Comparator) `{!ComparatorLaws wf c} (v : VersionStorageInfo) (p : Prepared) (k : nat).
#[local] Abbreviation ikey_ok := (InternalKeyOrder.ikey_ok wf).
#[local] Abbreviation sst_cmp := (sstableKeyCompare c).
#[local] Abbreviation level_of l := (default [] (files_ v !! l)).
Context (Hv : files_in_order wf c v) (Hp : prepared c v p k) (Hts : timestamp_size c = 0).
Context (Hty : ∀ level f, level ∈ files_ v → f ∈ level → boundary_typed (smallest f) ∧ boundary_typed (largest f)).

Lemma level_of_cut l : (1 <= l)%nat → level_cut wf c (level_of l).
Proof using Hv Hts Hty ComparatorLaws0.
  intros Hl. destruct (files_ v !! l) as [level|] eqn:E; cbn; [|split; [by intros ? ?%elem_of_nil|constructor|done]].
  apply level_sorted_cut; [done..|by apply (fi_levels _ _ _ Hv l)|]. intros f Hf. apply (Hty level); [|done]. apply (list_elem_of_lookup_2 _ _ _ E).
Qed.
Lemma prepared_brief l : (l < k)%nat → vec_at (level_files_brief_ p) (Z.of_nat l) = Some (DoGenerateLevelFilesBrief (level_of l)).
Proof using Hp.
  intros Hl. destruct (pr_levels _ _ _ _ Hp) as [_ Hk]. destruct (lookup_lt_is_Some_2 (files_ v) l) as [level E]; [lia|].
  by rewrite (pr_brief _ _ _ _ Hp), vec_at_nat, list_lookup_fmap, lookup_take_lt, E.
Qed.
Lemma level_of_empty l : (k <= l)%nat → level_of l = [].
Proof using Hp. intros Hl. destruct (files_ v !! l) as [level|] eqn:E; [|done]. by apply (pr_empty _ _ _ _ Hp l). Qed.

Lemma search_result l b e hint fi within next s n : (1 <= l < k)%nat → (s <= n <= length (level_of l))%nat →
  range_start c (map NewFdWithKeyRange (level_of l)) b hint within = Some (Z.of_nat s) →
  range_end c (map NewFdWithKeyRange (level_of l)) (Z.of_nat s) e within = Some (Z.of_nat n) →
  (next = Some None → n = length (level_of l)) → (s < n)%nat →
  GetOverlappingInputsRangeBinarySearch c p (Z.of_nat l) b e [] hint fi within next =
  Some (mkOverlap (run (level_of l) s n) (Z.of_nat s) (next_of (level_of l) n next)).
Proof using Hp.
  intros Hl Hr Es Ee Hn Hlt. unfold GetOverlappingInputsRangeBinarySearch. rewrite (proj2 (Z.ltb_lt 0 _)) by lia.
  cbn [assertion mbind option_bind]. rewrite prepared_brief by lia. cbn [mbind option_bind brief_files DoGenerateLevelFilesBrief]. rewrite Es.
  cbn [mbind option_bind]. rewrite Ee. cbn [mbind option_bind]. rewrite (proj2 (Z.leb_le _ _)), (proj2 (Z.eqb_neq _ _)) by lia.
  cbn [assertion mbind option_bind app]. rewrite (prepared_level c v p k Hp).
  assert ((smallest <$> (if Z.of_nat n <? Zlen (level_of l) then vec_at (level_of l) (Z.of_nat n) else None)) = smallest <$> level_of l !! n) as ->.
  { destruct (Z.ltb_spec (Z.of_nat n) (Zlen (level_of l))); [by rewrite vec_at_nat|]. rewrite lookup_ge_None_2; [done|]. unfold Zlen in *. lia. }
  assert (set_next next (smallest <$> level_of l !! n) = Some (next_of (level_of l) n next)) as ->.
  { unfold next_of. destruct next as [[k'|]|]; [by destruct (level_of l !! n)| |done]. rewrite (Hn eq_refl), lookup_ge_None_2; done. }
  cbn [mbind option_bind]. unfold run, ztake, zdrop. rewrite Nat2Z.id. by replace (Z.to_nat (Z.of_nat n - Z.of_nat s)) with (n - s)%nat by lia.
Qed.
Lemma search_none l b e hint fi within next s : (1 <= l < k)%nat → (s <= length (level_of l))%nat →
  range_start c (map NewFdWithKeyRange (level_of l)) b hint within = Some (Z.of_nat s) →
  range_end c (map NewFdWithKeyRange (level_of l)) (Z.of_nat s) e within = Some (Z.of_nat s) →
  GetOverlappingInputsRangeBinarySearch c p (Z.of_nat l) b e [] hint fi within next =
  Some (mkOverlap [] fi (match next with None => None | Some _ => Some None end)).
Proof using Hp.
  intros Hl Hr Es Ee. unfold GetOverlappingInputsRangeBinarySearch. rewrite (proj2 (Z.ltb_lt 0 _)) by lia.
  cbn [assertion mbind option_bind]. rewrite prepared_brief by lia. cbn [mbind option_bind brief_files DoGenerateLevelFilesBrief]. rewrite Es.
  cbn [mbind option_bind]. rewrite Ee. cbn [mbind option_bind]. rewrite Z.leb_refl, Z.eqb_refl. by destruct next as [[]|].
Qed.

(** A level from 1 on: the run of the files that touch the range. *)
Lemma overlapping_upper l b e hint fi expand next : (1 <= l < k)%nat → key_bound wf b → key_bound wf e →
  hint_ok c (level_of l) largest b hint →
  ∃ s n, (s <= n <= length (level_of l))%nat ∧ (∀ j f, level_of l !! j = Some f → (s <= j < n)%nat ↔ touches c b e f) ∧
    ((next = Some None → n = length (level_of l)) →
     GetOverlappingInputs c p (Z.of_nat l) b e [] hint fi expand next =
     Some (if decide (s < n)%nat then mkOverlap (run (level_of l) s n) (Z.of_nat s) (next_of (level_of l) n next)
           else mkOverlap [] (-1) (match next with None => None | Some _ => Some None end))).
Proof using All.
  intros Hl Hb He Hh. pose proof (level_of_cut l ltac:(lia)) as Hc.
  destruct (range_start_plain wf c (level_of l) Hc b hint Hb Hh) as (s & Es & Hs & Hsj).
  destruct (range_end_plain wf c (level_of l) Hc s e He Hs) as (n & Ee & Hn & Hnj). exists s, n. split; [done|]. split.
  - intros j f Ef. unfold touches. rewrite <- (Hsj j f Ef). split.
    + intros Hj. split; [lia|]. apply (Hnj j f Ef); lia.
    + intros [H1 H2]. split; [lia|]. apply (Hnj j f Ef); [lia|done].
  - intros Hnx. unfold GetOverlappingInputs. destruct (pr_levels _ _ _ _ Hp) as [-> _]. rewrite (proj2 (Z.leb_gt _ _)), (proj2 (Z.ltb_lt 0 _)) by lia.
    case_decide as Hlt; [by apply search_result|]. assert (n = s) as -> by lia. by apply (search_none l b e hint (-1) false next s).
Qed.

Lemma clean_within l b e hint : (1 <= l)%nat → key_bound wf b → key_bound wf e → hint_ok c (level_of l) smallest b hint →
  ∃ s n, GetCleanInputsWithinInterval c p (Z.of_nat l) b e hint = Some (run (level_of l) s n) ∧ largest_clean_run c (level_of l) b e s n.
Proof using All.
  intros Hl Hb He Hh. pose proof (level_of_cut l Hl) as Hc. unfold GetCleanInputsWithinInterval. destruct (pr_levels _ _ _ _ Hp) as [-> _].
  rewrite (proj2 (Z.eqb_neq (Z.of_nat l) 0)), orb_false_r by lia.
  assert (level_of l = [] → ∃ s n, Some [] = Some (run (level_of l) s n) ∧ largest_clean_run c (level_of l) b e s n) as Hnil.
  { intros ->. exists 0%nat, 0%nat. split; [done|]. split; cbn; try done; intros; lia. }
  destruct (Z.leb_spec (Z.of_nat k) (Z.of_nat l)) as [Hge|Hlt]; [apply Hnil, level_of_empty; lia|].
  rewrite prepared_brief by lia. cbn [mbind option_bind num_files DoGenerateLevelFilesBrief].
  destruct (Z.eqb_spec (Zlen (level_of l)) 0) as [E0|_]; [by apply Hnil, Zlen_0_nil|]. clear Hnil.
  destruct (range_start_within wf c (level_of l) Hc b hint Hb Hh) as (s & Es & Hs & Hcs & Hbs & Hms).
  destruct (range_end_within wf c (level_of l) Hc s e He Hs) as (n & Ee & Hn & Hcn & Haf & Hmn). exists s, n. split; [|split; [done|..]].
  - destruct (decide (s < n)%nat) as [Hsn|]; [by rewrite (search_result l b e hint (-1) true None s n) by (done || lia)|].
    assert (n = s) as -> by lia. rewrite (search_none l b e hint (-1) true None s) by (done || lia). cbn. unfold run. by rewrite Nat.sub_diag.
  - intros Hsn. split; [done|by apply Hcn].
  - intros j f Ef Hj. split; [apply (Hbs j f Ef); lia|by apply (Haf j f Ef)].
  - intros a m Ham Hca Hcm Hw. destruct (lookup_lt_is_Some_2 (level_of l) a) as [f Ef]; [lia|].
    assert (s <= a)%nat as Hsa by (apply (Hms a f Ef Hca), (Hw a f Ef); lia). split; [done|]. destruct m as [|m]; [lia|].
    destruct (lookup_lt_is_Some_2 (level_of l) m) as [g Eg]; [lia|]. apply (Hmn m g Eg); [lia|done|]. apply (Hw m g Eg). lia.
Qed.
End Version.

(** ** Level 0 *)

Section Level0.
Context (wf : bytes → Prop) (c : Comparator) `{!ComparatorLaws wf c} (fs : list FileMetaData).
#[local] Abbreviation cmp := (CompareWithoutTimestamp c).
Context (Hfs : ∀ f, f ∈ fs → file_ordered wf c f).

(** A range of user keys; a file that has a key in it, and one whose keys are all in it. *)
Definition Range : Type := option bytes * option bytes.
Definition range_ok (r : Range) : Prop := (∀ b, fst r = Some b → wf b) ∧ (∀ e, snd r = Some e → wf e).
Definition user_touches (r : Range) (f : FileMetaData) : bool :=
  negb ((match fst r with Some b => cmp (largest_user_key f) b <? 0 | None => false end) ||
        (match snd r with Some e => 0 <? cmp (smallest_user_key f) e | None => false end)).
Definition covers (r : Range) (f : FileMetaData) : Prop :=
  (∀ b, fst r = Some b → cmp b (smallest_user_key f) <= 0) ∧ (∀ e, snd r = Some e → cmp (largest_user_key f) e <= 0).
Definition contains (r' r : Range) : Prop :=
  (∀ b', fst r' = Some b' → ∃ b, fst r = Some b ∧ cmp b' b <= 0) ∧ (∀ e', snd r' = Some e' → ∃ e, snd r = Some e ∧ cmp e e' <= 0).
Definition closed (r : Range) : Prop := ∀ f, f ∈ fs → user_touches r f = true → covers r f.

Lemma user_touches_spec r f : user_touches r f = true ↔
  (∀ b, fst r = Some b → 0 <= cmp (largest_user_key f) b) ∧ (∀ e, snd r = Some e → cmp (smallest_user_key f) e <= 0).
Proof using.
  unfold user_touches. rewrite negb_true_iff, orb_false_iff. destruct r as [[b|] [e|]]; cbn [fst snd]; rewrite ?Z.ltb_ge; split; intros [H1 H2]; split;
    try done; try (by intros ? [= <-]); by (apply H1 || apply H2).
Qed.
Lemma contains_touches r' r f : range_ok r' → range_ok r → f ∈ fs → contains r' r → user_touches r f = true → user_touches r' f = true.
Proof using Hfs ComparatorLaws0.
  intros [W1 W2] [W3 W4] Hf [H1 H2]. rewrite !user_touches_spec. destruct (Hfs f Hf) as [Ws Wl _]. intros [T1 T2]. split.
  - intros b' E. destruct (H1 b' E) as (b & Eb & Hle). specialize (T1 b Eb). apply cmp_flip_le in T1; auto. apply cmp_flip_le; auto.
    apply (key_le_trans wf c b' b); auto.
  - intros e' E. destruct (H2 e' E) as (e & Ee & Hle). specialize (T2 e Ee). apply (key_le_trans wf c _ e); auto.
Qed.
Lemma contains_refl r : range_ok r → contains r r.
Proof using ComparatorLaws0. intros [W1 W2]. split; intros x E; exists x; (split; [done|]); rewrite cmp_refl; auto; done. Qed.
Lemma contains_trans r1 r2 r3 : range_ok r1 → range_ok r2 → range_ok r3 → contains r1 r2 → contains r2 r3 → contains r1 r3.
Proof using ComparatorLaws0.
  intros [W1 W1'] [W2 W2'] [W3 W3'] [H1 H1'] [H2 H2']. split; intros x E.
  - destruct (H1 x E) as (y & Ey & Hy), (H2 y Ey) as (z & Ez & Hz). exists z. split; [done|]. apply (key_le_trans wf c x y z); auto.
  - destruct (H1' x E) as (y & Ey & Hy), (H2' y Ey) as (z & Ez & Hz). exists z. split; [done|]. apply (key_le_trans wf c z y x); auto.
Qed.

#[local] Abbreviation pass_range s := (user_begin s, user_end s).

(** The range grows to cover the file, and no further than a closed range. *)
Lemma wider_spec expand s f : range_ok (pass_range s) → f ∈ fs → user_touches (pass_range s) f = true →
  let r := wider c expand s (smallest_user_key f) (largest_user_key f) in
  range_ok r ∧ contains r (pass_range s) ∧ (expand = true → covers r f) ∧ (expand = false → r = pass_range s) ∧
  ∀ R, range_ok R → closed R → contains R (pass_range s) → contains R r.
Proof using Hfs ComparatorLaws0.
  intros Hok Hf Ht r. destruct (Hfs f Hf) as [Ws Wl _]. unfold r, wider. destruct expand; cbn [fst snd].
  2: { split_and!; try done. by apply contains_refl. }
  pose proof Hok as [W1 W2]. cbn [fst snd] in W1, W2.
  assert (∀ R, range_ok R → closed R → contains R (pass_range s) → covers R f) as Hcov.
  { intros R WR Hcl Hc. apply Hcl; [done|]. by apply (contains_touches R (pass_range s)). }
  split_and!; try done.
  - split; cbn [fst snd].
    + intros b. destruct (user_begin s) as [b0|]; [|done]. intros [= <-]. case_match; auto.
    + intros e. destruct (user_end s) as [e0|]; [|done]. intros [= <-]. case_match; auto.
  - split; cbn [fst snd].
    + intros b. destruct (user_begin s) as [b0|]; [|done]. intros [= <-]. exists b0. split; [done|]. specialize (W1 b0 eq_refl).
      destruct (Z.ltb_spec (cmp (smallest_user_key f) b0) 0); [lia|]. rewrite cmp_refl; done.
    + intros e. destruct (user_end s) as [e0|]; [|done]. intros [= <-]. exists e0. split; [done|]. specialize (W2 e0 eq_refl).
      destruct (Z.ltb_spec 0 (cmp (largest_user_key f) e0)) as [H|]; [apply cmp_flip_lt in H; [lia|done..]|]. rewrite cmp_refl; done.
  - intros _. split; cbn [fst snd].
    + intros b. destruct (user_begin s) as [b0|]; [|done]. intros [= <-]. specialize (W1 b0 eq_refl).
      destruct (Z.ltb_spec (cmp (smallest_user_key f) b0) 0); [rewrite cmp_refl; done|]. by apply cmp_flip_le.
    + intros e. destruct (user_end s) as [e0|]; [|done]. intros [= <-]. specialize (W2 e0 eq_refl).
      destruct (Z.ltb_spec 0 (cmp (largest_user_key f) e0)); [rewrite cmp_refl; done|done].
  - intros R WR Hcl Hc. destruct (Hcov R WR Hcl Hc) as [C1 C2]. destruct Hc as [H1 H2]. split; cbn [fst snd] in *.
    + intros b' E. destruct (H1 b' E) as (b & Eb & Hb). rewrite Eb. eexists. split; [done|]. case_match; auto.
    + intros e' E. destruct (H2 e' E) as (e & Ee & He). rewrite Ee. eexists. split; [done|]. case_match; auto.
Qed.

(** What passes over the files [idx] do: [fl] are the files that are taken. *)
Record passed (expand : bool) (idx left_over : list nat) (fl : list FileMetaData) (s s' : Pass) : Prop := {
  ps_taken : ∃ taken, taken ++ left_over ≡ₚ idx ∧ Forall2 (λ i f, fs !! i = Some f) taken fl;
  ps_inputs : pass_inputs s' = pass_inputs s ++ fl;
  ps_range : range_ok (pass_range s') ∧ contains (pass_range s') (pass_range s);
  ps_touch : ∀ f, f ∈ fl → user_touches (pass_range s') f = true;
  ps_cover : expand = true → ∀ f, f ∈ fl → covers (pass_range s') f;
  ps_same : expand = false → pass_range s' = pass_range s;
  ps_least : ∀ R, range_ok R → closed R → contains R (pass_range s) → contains R (pass_range s')
}.
Lemma covers_contains r' r f : range_ok r' → range_ok r → f ∈ fs → contains r' r → covers r f → covers r' f.
Proof using Hfs ComparatorLaws0.
  intros [W1 W2] [W3 W4] Hf [H1 H2] [C1 C2]. destruct (Hfs f Hf) as [Ws Wl _]. split.
  - intros b' E. destruct (H1 b' E) as (b & Eb & Hb). apply (key_le_trans wf c b' b); auto.
  - intros e' E. destruct (H2 e' E) as (e & Ee & He). apply (key_le_trans wf c _ e e'); auto.
Qed.
Lemma passed_trans expand idx left1 left2 fl1 fl2 s s1 s2 : range_ok (pass_range s) → passed expand idx left1 fl1 s s1 →
  passed expand left1 left2 fl2 s1 s2 → passed expand idx left2 (fl1 ++ fl2) s s2.
Proof using Hfs ComparatorLaws0.
  intros W [(t1 & P1 & F1) I1 [W1 C1] T1 V1 S1 L1] [(t2 & P2 & F2) I2 [W2 C2] T2 V2 S2 L2].
  assert (∀ f, f ∈ fl1 → f ∈ fs) as Hin.
  { intros f [i Ei]%list_elem_of_lookup_1. destruct (Forall2_lookup_r _ _ _ _ _ F1 Ei) as (j & _ & E). by apply (list_elem_of_lookup_2 _ j). }
  split.
  - exists (t1 ++ t2). split; [by rewrite <- app_assoc, P2|by apply Forall2_app].
  - by rewrite I2, I1, app_assoc.
  - split; [done|]. by apply (contains_trans _ (pass_range s1)).
  - intros f [Hf|Hf]%elem_of_app; [|by apply T2]. apply (contains_touches _ (pass_range s1)); auto.
  - intros He f [Hf|Hf]%elem_of_app; [|by apply V2]. apply (covers_contains _ (pass_range s1)); auto.
  - intros He. by rewrite S2, S1.
  - intros R WR Hcl Hc. apply L2; [done..|]. by apply L1.
Qed.

Context (p : Prepared) (Hp : LevelFiles (storage p) 0 = fs) (Hsize : Zlen fs < 2 ^ 31).

Lemma passed_nil expand idx s : range_ok (pass_range s) → passed expand idx idx [] s s.
Proof using ComparatorLaws0.
  intros W. split; try done; [by exists []|by rewrite app_nil_r|by split; [|apply contains_refl]|..]; by intros ? ?%elem_of_nil || intros ? ? ?%elem_of_nil.
Qed.

Lemma overlap_pass_spec expand idx : ∀ s, (∀ i, i ∈ idx → (i < length fs)%nat) → range_ok (pass_range s) → ∃ left_over fl found s',
  overlap_pass c p expand (map NewFdWithKeyRange fs) (map Z.of_nat idx) s = Some (map Z.of_nat left_over, found, s') ∧
  passed expand idx left_over fl s s' ∧
  if found : bool then (length left_over < length idx)%nat
  else s' = s ∧ left_over = idx ∧ ∀ i f, i ∈ idx → fs !! i = Some f → user_touches (pass_range s) f = false.
Proof using Hfs Hp Hsize ComparatorLaws0.
  induction idx as [|i idx IH]; intros s Hidx W; cbn [map overlap_pass].
  { exists [], [], false, s. split; [done|]. split; [by apply passed_nil|]. split_and!; try done. by intros ? ? ?%elem_of_nil. }
  destruct (lookup_lt_is_Some_2 fs i) as [f Ef]; [apply Hidx; left|]. pose proof (list_elem_of_lookup_2 _ _ _ Ef) as Hf.
  rewrite (vec_at_nat (map NewFdWithKeyRange fs)), list_lookup_fmap, Ef. cbn [fmap option_fmap option_map mbind option_bind].
  change (ExtractUserKey (smallest_key (NewFdWithKeyRange f))) with (smallest_user_key f).
  change (ExtractUserKey (largest_key (NewFdWithKeyRange f))) with (largest_user_key f).
  assert (∀ i, i ∈ idx → (i < length fs)%nat) as Hidx' by (intros; apply Hidx; by right).
  match goal with |- context [if ?b then _ else _] => replace b with (negb (user_touches (pass_range s) f)) by (unfold user_touches; apply negb_involutive) end.
  destruct (user_touches (pass_range s) f) eqn:Et; cbn [negb].
  - rewrite Hp, vec_at_nat, Ef. cbn [mbind option_bind].
    destruct (wider_spec expand s f W Hf Et) as (W1 & C1 & V1 & S1 & L1). destruct (wider c expand s _ _) as [b e].
    set (s1 := mkPass b e _ _). destruct (IH s1 Hidx' W1) as (left_over & fl & found & s' & -> & Hps & Hfd). cbn [mbind option_bind].
    exists left_over, ([f] ++ fl), true, s'. split; [done|].
    assert (passed expand (i :: idx) idx [f] s s1) as Hone.
    { split; try done.
      - exists [i]. split; [done|]. repeat constructor; done.
      - intros g ->%list_elem_of_singleton. by apply (contains_touches _ (pass_range s)).
      - intros He g ->%list_elem_of_singleton. by apply V1. }
    split; [by apply (passed_trans _ _ idx _ _ _ _ s1)|]. destruct (ps_taken _ _ _ _ _ _ Hps) as (t & Hperm & _).
    apply Permutation_length in Hperm. rewrite length_app in Hperm. cbn. lia.
  - destruct (IH s Hidx' W) as (left_over & fl & found & s' & -> & Hps & Hfd). cbn [mbind option_bind].
    exists (i :: left_over), fl, found, s'. split; [done|]. split.
    + destruct Hps as [(t & Hperm & Ht) ? ? ? ? ? ?]. split; try done. exists t. split; [|done]. by rewrite <- Permutation_middle, Hperm.
    + destruct found; [cbn; lia|]. destruct Hfd as (-> & -> & Hn). split_and!; try done.
      intros j g [-> |Hj]%elem_of_cons Eg; [congruence|by apply (Hn j)].
Qed.

Lemma overlap_loop_spec fuel expand : ∀ idx s, (length idx < fuel)%nat → (∀ i, i ∈ idx → (i < length fs)%nat) → range_ok (pass_range s) →
  ∃ left_over fl s', overlap_loop c fuel p expand (map NewFdWithKeyRange fs) (map Z.of_nat idx) s = Some s' ∧ passed expand idx left_over fl s s' ∧
    ∀ i f, i ∈ left_over → fs !! i = Some f → user_touches (pass_range s') f = false.
Proof using Hfs Hp Hsize ComparatorLaws0.
  induction fuel as [|fuel IH]; intros idx s Hf Hidx W; [lia|]. cbn [overlap_loop].
  destruct (overlap_pass_spec expand idx s Hidx W) as (left1 & fl1 & found & s1 & E & Hps & Hfd). rewrite E.
  destruct idx as [|i0 idx0] eqn:Ei; cbn [map].
  { exists [], [], s. split; [done|]. split; [by apply passed_nil|]. by intros ? ? ?%elem_of_nil. }
  rewrite <- Ei in *. clear Ei i0 idx0. cbn [mbind option_bind]. destruct found.
  - destruct (ps_taken _ _ _ _ _ _ Hps) as (t & Hperm & _).
    assert (∀ i, i ∈ left1 → (i < length fs)%nat) as Hidx1 by (intros i Hi; apply Hidx; rewrite <- Hperm; apply elem_of_app; by right).
    destruct (IH left1 s1 ltac:(lia) Hidx1) as (left2 & fl2 & s2 & -> & Hps2 & Hn); [apply Hps|].
    exists left2, (fl1 ++ fl2), s2. split; [done|]. split; [by apply (passed_trans _ _ left1 _ _ _ _ s1)|done].
  - destruct Hfd as (-> & -> & Hn). exists idx, fl1, s. by split_and!.
Qed.
End Level0.

(** ** The property *)

#[export] Instance touches_dec c b e f : Decision (touches c b e f).
Proof.
  unfold touches, before, after. apply and_dec; apply not_dec.
  - destruct b as [k|]; [|right; by intros (? & ? & _)].
    destruct (decide (sstableKeyCompare c (largest f) k < 0)); [left; by exists k|right; by intros (? & [= <-] & ?)].
  - destruct e as [k|]; [|right; by intros (? & ? & _)].
    destruct (decide (sstableKeyCompare c k (smallest f) < 0)); [left; by exists k|right; by intros (? & [= <-] & ?)].
Defined.

Lemma run_filter (P : FileMetaData → Prop) `{!∀ f, Decision (P f)} fs s n : (s <= n <= length fs)%nat →
  (∀ j f, fs !! j = Some f → (s <= j < n)%nat ↔ P f) → run fs s n = filter P fs.
Proof.
  intros Hr HP. rewrite <- (take_drop s fs) at 2. rewrite <- (take_drop (n - s) (drop s fs)), !filter_app. fold (run fs s n).
  rewrite (filter_drops P (take s fs)), (filter_drops P (drop (n - s) (drop s fs))), (filter_keeps P (run fs s n)), app_nil_r; [done|..].
  - intros f Hf. apply elem_of_run in Hf as (j & Ej & Hj); [|lia]. by apply (HP j f Ej).
  - intros f [j Ej]%list_elem_of_lookup_1. rewrite drop_drop, lookup_drop in Ej. rewrite <- (HP _ f Ej). lia.
  - intros f [j Ej]%list_elem_of_lookup_1. apply lookup_take_Some in Ej as [Ej Hj]. rewrite <- (HP _ f Ej). lia.
Qed.

Lemma taken_filter (P : FileMetaData → Prop) `{!∀ f, Decision (P f)} fs taken left_over fl : taken ++ left_over ≡ₚ seq 0 (length fs) →
  Forall2 (λ i f, fs !! i = Some f) taken fl → (∀ f, f ∈ fl → P f) → (∀ i f, i ∈ left_over → fs !! i = Some f → ¬ P f) → fl ≡ₚ filter P fs.
Proof.
  intros Hperm Hfl Hin Hout. set (g i := default DefaultFileMetaData (fs !! i)).
  assert (map g taken = fl) as <-.
  { clear -Hfl. induction Hfl as [|i f taken fl E _ IH]; [done|]. cbn. f_equal; [|done]. unfold g. by rewrite E. }
  assert (map g (seq 0 (length fs)) = fs) as Hg.
  { apply list_eq. intros i. rewrite list_lookup_fmap. destruct (decide (i < length fs)%nat) as [Hi|Hi].
    - rewrite lookup_seq_lt by done. cbn. unfold g. by destruct (lookup_lt_is_Some_2 fs i Hi) as [f ->].
    - rewrite lookup_seq_ge, lookup_ge_None_2 by lia. done. }
  rewrite <- Hg, <- Hperm, map_app, filter_app, filter_keeps by done. rewrite filter_drops, app_nil_r; [done|].
  intros f Hf. apply list_elem_of_In, in_map_iff in Hf as (i & <- & Hi%list_elem_of_In).
  assert (i < length fs)%nat as Hlt. { assert (i ∈ seq 0 (length fs)) as Hs by (rewrite <- Hperm; apply elem_of_app; by right). apply elem_of_seq in Hs. lia. }
  destruct (lookup_lt_is_Some_2 fs i Hlt) as [f E]. unfold g. rewrite E. cbn. by apply (Hout i).
Qed.

Section Property.
Context (wf : bytes → Prop) (c : Comparator) `{!ComparatorLaws wf c}.
#[local] Abbreviation ikey_ok := (InternalKeyOrder.ikey_ok wf).
Definition user_range (b e : option bytes) : Range := (ExtractUserKey <$> b, ExtractUserKey <$> e).

(** Level 0: [r] is the range that the result covers. *)
Record level0_overlap (fs : list FileMetaData) (b e : option bytes) (expand : bool) (inputs : list FileMetaData) (r : Range) : Prop := {
  l0_inputs : inputs ≡ₚ filter (λ f, user_touches c r f = true) fs;
  l0_range : range_ok wf r ∧ contains c r (user_range b e);
  l0_covers : expand = true → ∀ f, f ∈ inputs → covers c r f;
  l0_least : expand = true → ∀ R, range_ok wf R → closed c fs R → contains c R (user_range b e) → contains c R r;
  l0_same : expand = false → r = user_range b e
}.
Lemma overlapping_level0 v p k b e hint fi expand next : prepared c v p k → files_in_order wf c v → (0 < k)%nat →
  key_bound wf b → key_bound wf e → ∃ o r, GetOverlappingInputs c p 0 b e [] hint fi expand next = Some o ∧
    level0_overlap (LevelFiles v 0) b e expand (inputs_ o) r.
Proof using ComparatorLaws0.
  intros Hp Hv Hk Hb He. unfold GetOverlappingInputs. destruct (pr_levels _ _ _ _ Hp) as [-> Hkl]. rewrite (proj2 (Z.leb_gt _ _)) by lia.
  change (0 <? 0) with false. cbv iota. destruct (lookup_lt_is_Some_2 (files_ v) 0) as [fs E]; [lia|].
  pose proof (list_elem_of_lookup_2 _ _ _ E) as Hin. assert (LevelFiles v 0 = fs) as -> by (unfold LevelFiles; change (Z.to_nat 0) with 0%nat; by rewrite E).
  assert (∃ nx, set_next next None = Some nx) as [nx ->] by (destruct next as [[]|]; by eexists). cbn [mbind option_bind].
  pose proof (prepared_brief c v p k Hp 0 Hk) as Ebr. change (Z.of_nat 0) with 0 in Ebr. rewrite Ebr, E. cbn [mbind option_bind default from_option Datatypes.id].
  cbn [brief_files DoGenerateLevelFilesBrief]. rewrite length_map, length_map.
  assert (∀ f, f ∈ fs → file_ordered wf c f) as Hfs.
  { intros f Hf. destruct (fi_keys _ _ _ Hv fs f Hin Hf) as [[Hs Hl] Hle]. split; [apply Hs|apply Hl|by apply user_key_le with (wf := wf)]. }
  assert (LevelFiles (storage p) 0 = fs) as Hst. { unfold LevelFiles. rewrite (pr_files _ _ _ _ Hp). change (Z.to_nat 0) with 0%nat. by rewrite E. }
  destruct (overlap_loop_spec wf c fs Hfs p Hst (fi_size _ _ _ Hv fs Hin) (S (length (seq 0 (length fs)))) expand (seq 0 (length fs))
    (mkPass (ExtractUserKey <$> b) (ExtractUserKey <$> e) [] (-1))) as (left_over & fl & s & El & [(t & Ht1 & Ht2) Hi [W C] T V S L] & Hn).
  - lia.
  - intros i Hi%elem_of_seq. lia.
  - split; cbn; intros x Hx; [destruct b as [y|]; [|done]|destruct e as [y|]; [|done]]; injection Hx as <-; [apply (Hb y)|apply (He y)]; done.
  - rewrite length_seq in El. rewrite length_seq, El. cbn [mbind option_bind]. eexists _, (user_begin s, user_end s). split; [done|].
    cbn [inputs_]. rewrite Hi. split; try done.
    apply (taken_filter _ fs t left_over); try done. intros i f Hil Ef. by rewrite (Hn i f Hil Ef).
Qed.

(** C14: in a well-formed version whose keys have no timestamps, [GetOverlappingInputs]
    finds exactly the files that overlap the range, and no assertion fails. At a level
    from 1 on it returns, in order, the files neither of whose boundaries is beyond the
    range on that side, with the index of the first, whatever hint the caller gives
    that is the index of a file not before the range. At level 0 it returns the files
    that have a user key in a range around the one asked for, which is the range itself
    if it is not to be expanded, and otherwise the least one that contains every file
    that it touches. *)
Theorem overlapping_inputs_exact v : version_wf c v → version_bounds wf c v → timestamp_size c = 0 →
  (∀ level f, level ∈ files_ v → f ∈ level → boundary_typed (smallest f) ∧ boundary_typed (largest f)) →
  ∃ p, PrepareForVersionAppend c false v = Some p ∧
    ∀ l b e hint expand, 0 <= l < num_non_empty_levels_ p → key_bound wf b → key_bound wf e → hint_ok c (LevelFiles v l) largest b hint →
      ∃ o, GetOverlappingInputs c p l b e [] hint (-1) expand None = Some o ∧
        if decide (l = 0) then ∃ r, level0_overlap (LevelFiles v 0) b e expand (inputs_ o) r
        else inputs_ o = filter (touches c b e) (LevelFiles v l) ∧
             (inputs_ o ≠ [] → LevelFiles v l !! Z.to_nat (file_index_ o) = inputs_ o !! 0%nat) ∧ (inputs_ o = [] → file_index_ o = -1).
Proof using ComparatorLaws0.
  intros Hw Hbd Hts Hty. pose proof (version_in_order wf c v Hw Hbd) as Hv.
  destruct (PrepareForVersionAppend_spec wf c v Hv false) as (_ & p & k & E & _ & Hp & _). exists p. split; [exact E|].
  intros l b e hint expand Hl Hb He Hh. destruct (pr_levels _ _ _ _ Hp) as [Hn _]. rewrite Hn in Hl. case_decide as H0.
  - subst l. destruct (overlapping_level0 v p k b e hint (-1) expand None Hp Hv ltac:(lia) Hb He) as (o & r & Eo & Ho). exists o. split; [done|by exists r].
  - replace l with (Z.of_nat (Z.to_nat l)) in * by lia. set (n := Z.to_nat l) in *. unfold LevelFiles in *. rewrite Nat2Z.id in *.
    destruct (overlapping_upper wf c v p k Hv Hp Hts Hty n b e hint (-1) expand None ltac:(lia) Hb He Hh) as (s & m & Hr & Ht & Eo).
    rewrite Eo by done. eexists. split; [done|]. rewrite <- (run_filter _ _ s m Hr Ht). case_decide as Hsm; cbn [inputs_ file_index_].
    + split; [done|]. rewrite Nat2Z.id, run_lookup, Nat.add_0_r by lia. split; [done|]. intros Hnil.
      assert (length (run (default [] (files_ v !! n)) s m) = 0%nat) as Hlen by (by rewrite Hnil). rewrite run_length in Hlen; lia.
    + split; [|done]. unfold run. by replace (m - s)%nat with 0%nat by lia.
Qed.
End Property.

Module OverlapExample.
Import VersionExample PrepareExample.
Lemma tree_boundaries level f : level ∈ files_ tree → f ∈ level → boundary_typed (smallest f) ∧ boundary_typed (largest f).
Proof.
  apply (tree_files (λ f, boundary_typed (smallest f) ∧ boundary_typed (largest f))). repeat first [apply Forall_nil_2|apply Forall_cons_2]; by vm_compute.
Qed.

(** The files of level 1 that touch a range of the keys 99 to 100: the second one. *)
Lemma overlapping_inputs_exact_witness : ∃ p o, PrepareForVersionAppend BytewiseComparator false tree = Some p ∧
  GetOverlappingInputs BytewiseComparator p 1 (Some (99 :: EncodeFixed64 257)) (Some (100 :: EncodeFixed64 257)) [] 1 (-1) true None = Some o ∧
  inputs_ o = [file 5 4 1 0 98 100].
Proof.
  destruct (overlapping_inputs_exact bytes_ok BytewiseComparator tree tree_wf tree_bounds eq_refl tree_boundaries) as (p & E & H).
  assert (num_non_empty_levels_ p = 4) as En.
  { enough (num_non_empty_levels_ <$> PrepareForVersionAppend BytewiseComparator false tree = Some 4) as Hn by (rewrite E in Hn; by injection Hn).
    by vm_compute. }
  assert (∀ k, is_u 8 k → InternalKeyOrder.ikey_ok bytes_ok (k :: EncodeFixed64 257)) as Hk.
  { intros k Hk. split_and!; [done|constructor; [done|apply bytes_ok_EncodeFixed64]|]. constructor; [done|by constructor]. }
  destruct (H 1 (Some (99 :: EncodeFixed64 257)) (Some (100 :: EncodeFixed64 257)) 1 true) as (o & Eo & Ho & _).
  - lia.
  - intros ? [= <-]. by apply Hk.
  - intros ? [= <-]. by apply Hk.
  - right. split; [by vm_compute|]. intros ? f [= <-] [= <-]. by vm_compute.
  - exists p, o. split; [exact E|]. split; [exact Eo|]. rewrite Ho. by vm_compute.
Defined.
End OverlapExample.
