(* ===== verification/CompactionPickerCorrect.v ===== *)
(** * The inputs of a compaction are closed

    [ExpandInputsToCleanCut] finds the least run of files around its inputs that ends
    in clean cuts, and [SetupOtherInputs] takes every file of the output level that
    overlaps the inputs, also after the inputs have grown. *)

From Stdlib Require Import Sorting.Sorted.
From S2P Require Import Prelude SortedLists Coding Comparator DbFormat VersionEdit FileIndexer FileIndexerCorrect VersionStorage VersionStorageCorrect.
From S2P Require Import VersionPrepare VersionPrepareCorrect CompactionInputs CompactionInputsCorrect CompactionPicker.
From stdpp Require Import list.
#[local] Open Scope Z_scope.

#[local] Existing Instance cl_no_ts.
#[local] Existing Instance sstableKeyCompare_order.
#[local] Existing Instance InternalKeyOrder.Compare_order.

(** Files [s] to [n] are the least run around files [a] to [m] that starts and ends in
    clean cuts. *)
Record least_clean_run (c : Comparator) (fs : list FileMetaData) (a m s n : nat) : Prop := {
  lcr_range : (s <= a)%nat ∧ (m <= n <= length fs)%nat;
  lcr_clean : clean_at c fs s ∧ clean_at c fs n;
  lcr_least : ∀ a' m', (a' <= a)%nat → (m <= m' <= length fs)%nat → clean_at c fs a' → clean_at c fs m' → (a' <= s)%nat ∧ (n <= m')%nat
}.

(** Keys of files touch a range by their order. *)
Lemma touches_iff wf c `{!ComparatorLaws wf c} s e f : InternalKeyOrder.ikey_ok wf s → InternalKeyOrder.ikey_ok wf e → keys_ok wf f →
  touches c (Some s) (Some e) f ↔ sstableKeyCompare c s (largest f) <= 0 ∧ sstableKeyCompare c (smallest f) e <= 0.
Proof.
  intros Ws We [W1 W2]. unfold touches, before, after. pose proof (cmp_flip_le (cmp := sstableKeyCompare c) _ _ Ws W2).
  pose proof (cmp_flip_le (cmp := sstableKeyCompare c) _ _ W1 We). split.
  - intros [H1 H2]. split; apply Z.nlt_ge; intros Hlt; [apply H1|apply H2]; eexists; (split; [done|]); lia.
  - intros [H1 H2]. split; intros (? & [= <-] & ?); lia.
Qed.

Section Run.
Context (wf : bytes → Prop) (c : Comparator) `{!ComparatorLaws wf c} (fs : list FileMetaData) (Hfs : level_cut wf c fs).
#[local] Abbreviation ikey_ok := (InternalKeyOrder.ikey_ok wf).
#[local] Abbreviation sst_cmp := (sstableKeyCompare c).
#[local] Abbreviation flip_le := (cmp_flip_le (wf := ikey_ok) (cmp := sst_cmp)).

Lemma GetRange_run l a m f g : l ≠ 0 → (a < m <= length fs)%nat → fs !! a = Some f → fs !! (m - 1)%nat = Some g →
  GetRange c (mkCompactionInputFiles l (run fs a m)) = Some (smallest f, largest g).
Proof using.
  intros Hl Ham Ef Eg. unfold GetRange. cbn [input_files input_level].
  assert (run fs a m !! 0%nat = Some f) as E0 by (rewrite run_lookup, Nat.add_0_r by lia; done).
  assert (last (run fs a m) = Some g) as El. { rewrite last_lookup, run_length, run_lookup by lia. rewrite <- Eg. f_equal. lia. }
  destruct (run fs a m) as [|f' files]; [done|]. injection E0 as ->. rewrite (proj2 (Z.eqb_neq _ _)) by done.
  do 2 f_equal. assert (∀ (l : list FileMetaData) d, last l = Some g → List.last l d = g) as H.
  { clear. intros l d. induction l as [|x [|y l] IH]; [done|by intros [= ->]|]. exact IH. }
  by rewrite (H (f :: files) f El).
Qed.

(** A clean cut is strictly between the files on its sides. *)
Lemma clean_before i j j' g h : clean_at c fs i → (j < i <= j')%nat → fs !! j = Some g → fs !! j' = Some h → sst_cmp (largest g) (smallest h) < 0.
Proof using All.
  intros Hc Hj Eg Eh. pose proof (lookup_lt_Some _ _ _ Eh). destruct (lookup_lt_is_Some_2 fs (i - 1)) as [g' Eg']; [lia|].
  destruct (lookup_lt_is_Some_2 fs i) as [h' Eh']; [lia|]. destruct (cut_grow wf c fs Hfs j (i - 1) g g' Eg Eg' ltac:(lia)) as (_ & H1 & _).
  destruct (cut_grow wf c fs Hfs i j' h' h Eh' Eh ltac:(lia)) as (H2 & _). pose proof (Hc (i - 1)%nat g' h' ltac:(lia) Eg' Eh') as Hne.
  pose proof (cut_order wf c fs Hfs (i - 1) i g' h' Eg' Eh' ltac:(lia)). destruct (cut_keys wf c fs Hfs _ _ Eg) as (_ & W1 & _),
    (cut_keys wf c fs Hfs _ _ Eg') as (_ & W2 & _), (cut_keys wf c fs Hfs _ _ Eh') as (W3 & _), (cut_keys wf c fs Hfs _ _ Eh) as (W4 & _).
  apply (cmp_le_lt_trans (wf := ikey_ok) (cmp := sst_cmp) _ (largest g')); [done..|].
  apply (cmp_lt_le_trans (wf := ikey_ok) (cmp := sst_cmp) _ (smallest h')); [done..|lia|done].
Qed.

(** One round: the files that touch the range of a run. *)
Section Round.
Context (a m s n : nat) (f g : FileMetaData).
Context (Ham : (a < m <= length fs)%nat) (Ef : fs !! a = Some f) (Eg : fs !! (m - 1)%nat = Some g) (Hr : (s <= n <= length fs)%nat).
Context (Ht : ∀ j h, fs !! j = Some h → (s <= j < n)%nat ↔ touches c (Some (smallest f)) (Some (largest g)) h).

Lemma touch_iff j h : fs !! j = Some h → (s <= j < n)%nat ↔ sst_cmp (smallest f) (largest h) <= 0 ∧ sst_cmp (smallest h) (largest g) <= 0.
Proof using All.
  intros Eh. rewrite (Ht j h Eh). destruct (cut_keys wf c fs Hfs _ _ Ef) as (W1 & _ & _), (cut_keys wf c fs Hfs _ _ Eg) as (_ & W2 & _),
    (cut_keys wf c fs Hfs _ _ Eh) as (W3 & W4 & _). by apply (touches_iff wf c).
Qed.
Lemma round_grows : (s <= a)%nat ∧ (m <= n)%nat.
Proof using All.
  assert (s <= a < n)%nat as Ha.
  { apply (touch_iff a f Ef). split; [apply (cut_keys wf c fs Hfs a f Ef)|]. apply (cut_grow wf c fs Hfs a (m - 1)); [done..|lia]. }
  assert (s <= m - 1 < n)%nat. { apply (touch_iff _ g Eg). split; [|apply (cut_keys wf c fs Hfs _ g Eg)]. apply (cut_grow wf c fs Hfs a (m - 1)); [done..|lia]. }
  lia.
Qed.
Lemma round_stays : (n - s <= m - a)%nat → s = a ∧ n = m ∧ clean_at c fs a ∧ clean_at c fs m.
Proof using All.
  intros Hle. destruct round_grows as [H1 H2]. assert (s = a) as Es by lia. assert (n = m) as En by lia. split; [done|]. split; [done|]. split.
  - intros j h f' Ej Eh Ef' H0. rewrite Ef in Ef'. injection Ef' as <-. enough (s <= j)%nat by lia. apply (touch_iff j h Eh). split.
    + apply flip_le; [apply (cut_keys wf c fs Hfs _ f Ef)|apply (cut_keys wf c fs Hfs j h Eh)|lia].
    + apply (cut_grow wf c fs Hfs j (m - 1)); [done..|lia].
  - intros j h h' Ej Eh Eh' H0. replace j with (m - 1)%nat in Eh by lia. rewrite Eg in Eh. injection Eh as <-.
    enough (m < n)%nat by lia. apply (touch_iff m h' Eh'). split.
    + apply (cut_grow wf c fs Hfs a m); [done..|lia].
    + apply flip_le; [apply (cut_keys wf c fs Hfs _ h' Eh')|apply (cut_keys wf c fs Hfs _ g Eg)|lia].
Qed.
Lemma round_least a' m' : (a' <= a)%nat → (m <= m' <= length fs)%nat → clean_at c fs a' → clean_at c fs m' → (a' <= s)%nat ∧ (n <= m')%nat.
Proof using All.
  intros Ha Hm Hca Hcm. destruct round_grows as [H1 H2]. split; apply Nat.nlt_ge; intros Hlt.
  - destruct a' as [|j]; [lia|]. destruct (lookup_lt_is_Some_2 fs j) as [h Eh]; [lia|]. destruct (lookup_lt_is_Some_2 fs (S j)) as [f' Ef']; [lia|].
    apply (Hca j h f' eq_refl Eh Ef'). destruct (cut_keys wf c fs Hfs _ _ Eh) as (_ & W1 & _), (cut_keys wf c fs Hfs _ _ Ef') as (W2 & _ & _).
    destruct (proj1 (touch_iff j h Eh) ltac:(lia)) as [H3 _]. pose proof (cut_order wf c fs Hfs j (S j) h f' Eh Ef' ltac:(lia)).
    destruct (cut_grow wf c fs Hfs (S j) a f' f Ef' Ef ltac:(lia)) as [H4 _]. destruct (cut_keys wf c fs Hfs _ _ Ef) as (W3 & _ & _).
    pose proof (cmp_le_trans (wf := ikey_ok) (cmp := sst_cmp) _ _ _ W2 W3 W1 H4 H3) as H5. apply flip_le in H5; [lia|done..].
  - destruct (lookup_lt_is_Some_2 fs (m' - 1)) as [g' Eg']; [lia|]. destruct (lookup_lt_is_Some_2 fs m') as [h Eh]; [lia|].
    apply (Hcm (m' - 1)%nat g' h ltac:(lia) Eg' Eh). destruct (cut_keys wf c fs Hfs _ _ Eh) as (W1 & _ & _), (cut_keys wf c fs Hfs _ _ Eg') as (_ & W2 & _).
    destruct (proj1 (touch_iff m' h Eh) ltac:(lia)) as [_ H3]. pose proof (cut_order wf c fs Hfs (m' - 1) m' g' h Eg' Eh ltac:(lia)).
    destruct (cut_grow wf c fs Hfs (m - 1) (m' - 1) g g' Eg Eg' ltac:(lia)) as (_ & H4 & _). destruct (cut_keys wf c fs Hfs _ _ Eg) as (_ & W3 & _).
    pose proof (cmp_le_trans (wf := ikey_ok) (cmp := sst_cmp) _ _ _ W1 W3 W2 H3 H4) as H5. apply flip_le in H5; [lia|done..].
Qed.
End Round.
End Run.

Section Version.
Context (wf : bytes → Prop) (c : Comparator) `{!ComparatorLaws wf c} (v : VersionStorageInfo) (p : Prepared) (k : nat).
Context (being_compacted : FileMetaData → bool).
#[local] Abbreviation ikey_ok := (InternalKeyOrder.ikey_ok wf).
#[local] Abbreviation sst_cmp := (sstableKeyCompare c).
#[local] Abbreviation level_of l := (default [] (files_ v !! l)).
Context (Hv : files_in_order wf c v) (Hp : prepared c v p k) (Hts : timestamp_size c = 0).
Context (Hty : ∀ level f, level ∈ files_ v → f ∈ level → boundary_typed (smallest f) ∧ boundary_typed (largest f)).

Lemma hint_at l a f : level_of l !! a = Some f → (1 <= l)%nat → hint_ok c (level_of l) largest (Some (smallest f)) (Z.of_nat a).
Proof using All.
  intros Ef Hl. right. split; [apply lookup_lt_Some in Ef; unfold Zlen; lia|]. intros k' f' [= <-] Ef'. rewrite Nat2Z.id in Ef'.
  rewrite Ef in Ef'. injection Ef' as <-. destruct (cut_keys wf c _ (level_of_cut wf c v Hv Hts Hty l Hl) _ _ Ef) as (W1 & W2 & Hle).
  by apply (cmp_flip_le (wf := ikey_ok) (cmp := sst_cmp)) in Hle.
Qed.

Lemma expand_loop_spec l fuel : (1 <= l < k)%nat → ∀ a m hint next, (a < m <= length (level_of l))%nat →
  (∀ f, level_of l !! a = Some f → hint_ok c (level_of l) largest (Some (smallest f)) hint) →
  (next = Some None → m = length (level_of l)) → (length (level_of l) - (m - a) < fuel)%nat →
  ∃ s n i, expand_loop c fuel p (Z.of_nat l) (run (level_of l) a m) hint next =
    Some (mkOverlap (run (level_of l) s n) i (next_of (level_of l) n next)) ∧ least_clean_run c (level_of l) a m s n.
Proof using All.
  intros Hl. pose proof (level_of_cut wf c v Hv Hts Hty l ltac:(lia)) as Hc. induction fuel as [|fuel IH]; intros a m hint next Ham Hh Hn Hf; [lia|].
  cbn [expand_loop]. destruct (lookup_lt_is_Some_2 (level_of l) a) as [f Ef]; [lia|].
  destruct (lookup_lt_is_Some_2 (level_of l) (m - 1)) as [g Eg]; [lia|].
  rewrite (GetRange_run c (level_of l) (Z.of_nat l) a m f g) by (done || lia). cbn [mbind option_bind].
  destruct (cut_keys wf c _ Hc _ _ Ef) as (W1 & _ & _), (cut_keys wf c _ Hc _ _ Eg) as (_ & W2 & _).
  destruct (overlapping_upper wf c v p k Hv Hp Hts Hty l (Some (smallest f)) (Some (largest g)) hint hint true next Hl) as (s & n & Hr & Ht & Eo);
    [by intros ? [= <-]..|by apply Hh|].
  destruct (round_grows wf c _ Hc a m s n f g Ham Ef Eg Hr Ht) as [G1 G2]. pose proof (round_least wf c _ Hc a m s n f g Ham Ef Eg Hr Ht) as Hleast.
  rewrite Eo, decide_True by (intros; (lia || (rewrite Hn in * by done; lia))). cbn [mbind option_bind inputs_ file_index_ next_smallest_].
  rewrite !run_length by lia. destruct (Nat.ltb_spec (m - a) (n - s)) as [Hlt|Hge].
  - destruct (IH s n (Z.of_nat s) (next_of (level_of l) n next)) as (s' & n' & i & -> & [H1 H2 H3]); try lia.
    + intros h Eh. by apply hint_at; [|lia].
    + unfold next_of. destruct next as [nx|]; [|done]. intros [= E]. apply fmap_None in E. apply lookup_ge_None in E. lia.
    + exists s', n', i. split; [by destruct next|]. split; [lia|done|]. intros a' m' Ha Hm Hca Hcm.
      destruct (Hleast a' m' Ha Hm Hca Hcm). by apply H3; [lia..| |].
  - destruct (round_stays wf c _ Hc a m s n f g Ham Ef Eg Hr Ht Hge) as (-> & -> & Hca & Hcm). eexists a, m, _. split; [done|]. split; [lia|done|].
    intros a' m' Ha Hm _ _. lia.
Qed.

(** ** The least clean cut *)

Lemma ExpandInputs_spec l a m next : (1 <= l)%nat → (a < m <= length (level_of l))%nat → next ≠ Some None →
  ∃ s n, least_clean_run c (level_of l) a m s n ∧
    ExpandInputsToCleanCut c being_compacted p (mkCompactionInputFiles (Z.of_nat l) (run (level_of l) a m)) next =
    Some (negb (AreFilesInCompaction being_compacted (run (level_of l) s n)), mkCompactionInputFiles (Z.of_nat l) (run (level_of l) s n),
      next_of (level_of l) n next).
Proof using All.
  intros Hl Ham Hn. assert (l < k)%nat as Hlk. { apply Nat.nle_gt. intros Hge. rewrite (level_of_empty c v p k Hp l Hge) in Ham. cbn in Ham. lia. }
  assert (∀ s n, (s < n <= length (level_of l))%nat → inputs_empty (mkCompactionInputFiles (Z.of_nat l) (run (level_of l) s n)) = false) as Hne.
  { intros s n Hsn. unfold inputs_empty. cbn [input_files]. destruct (run (level_of l) s n) eqn:E; [|done].
    assert (length (run (level_of l) s n) = 0%nat) as H by (by rewrite E). rewrite run_length in H; lia. }
  destruct (expand_loop_spec l (S (length (level_of l))) ltac:(lia) a m (-1) next Ham) as (s & n & i & E & Hlc); [by left|done|lia|].
  exists s, n. split; [done|]. unfold ExpandInputsToCleanCut. rewrite Hne by done. cbn [negb assertion mbind option_bind input_level input_files].
  rewrite (proj2 (Z.eqb_neq _ _)), (prepared_level c v p k Hp), E by lia. cbn [mbind option_bind inputs_ next_smallest_].
  rewrite Hne by (destruct (lcr_range _ _ _ _ _ _ Hlc); lia). done.
Qed.

(** ** Ranges *)

#[local] Abbreviation sst_le_trans := (cmp_le_trans (wf := ikey_ok) (cmp := sst_cmp)).

(** Files of a level; from level 1 on a run of them. *)
Record input_of (l : nat) (files : list FileMetaData) : Prop := {
  io_some : files ≠ [];
  io_level : ∀ f, f ∈ files → f ∈ level_of l;
  io_run : l ≠ 0%nat → ∃ a m, (a < m <= length (level_of l))%nat ∧ files = run (level_of l) a m
}.
(** The smallest and the largest boundary of some files. *)
Record hull (s e : bytes) (files : list FileMetaData) : Prop := {
  hu_smallest : ∃ f, f ∈ files ∧ s = smallest f;
  hu_largest : ∃ g, g ∈ files ∧ e = largest g;
  hu_all : ∀ f, f ∈ files → sst_cmp s (smallest f) <= 0 ∧ sst_cmp (largest f) e <= 0
}.

Lemma level_file l f : f ∈ level_of l → keys_ok wf f ∧ InternalKeyComparator.Compare c (smallest f) (largest f) <= 0 ∧
  boundary_typed (smallest f) ∧ boundary_typed (largest f).
Proof using All.
  destruct (files_ v !! l) as [level|] eqn:E; cbn; [|by intros ?%elem_of_nil]. intros Hf. pose proof (list_elem_of_lookup_2 _ _ _ E) as Hl.
  destruct (fi_keys _ _ _ Hv level f Hl Hf). split_and!; [done..|by apply (Hty level)|by apply (Hty level)].
Qed.
Lemma file_range l f : f ∈ level_of l → ikey_ok (smallest f) ∧ ikey_ok (largest f) ∧ sst_cmp (smallest f) (largest f) <= 0.
Proof using All.
  intros Hf. destruct (level_file l f Hf) as ([W1 W2] & Hle & T1 & T2). split_and!; [done..|]. by apply sst_cmp_coarser with (wf := wf).
Qed.
Lemma level0_ordered f : f ∈ level_of 0%nat → file_ordered wf c f.
Proof using All.
  intros Hf. destruct (level_file 0 f Hf) as ([Hs Hl] & Hle & _). split; [apply Hs|apply Hl|by apply user_key_le with (wf := wf)].
Qed.
Lemma hull_keys l s e files : input_of l files → hull s e files → ikey_ok s ∧ ikey_ok e ∧ sst_cmp s e <= 0.
Proof using All.
  intros Hi [(f & Hf & ->) (g & Hg & ->) Ha]. destruct (file_range l f (io_level _ _ Hi f Hf)) as (W1 & W2 & H1).
  destruct (file_range l g (io_level _ _ Hi g Hg)) as (W3 & W4 & H2). split_and!; [done..|].
  destruct (Ha g Hg) as [H3 _]. by apply (sst_le_trans _ (smallest g)).
Qed.
Lemma hull_mono l l' s e files s' e' files' : input_of l files → input_of l' files' → hull s e files → hull s' e' files' →
  (∀ f, f ∈ files → f ∈ files') → sst_cmp s' s <= 0 ∧ sst_cmp e e' <= 0.
Proof using.
  intros _ _ [(f & Hf & ->) (g & Hg & ->) _] [_ _ Ha] Hsub. split; [by apply Ha, Hsub|by apply Ha, Hsub].
Qed.

(** A hull by internal keys is one by boundaries. *)
#[local] Abbreviation icmp := (InternalKeyComparator.Compare c).
Lemma hull_union l1 l2 s1 e1 s2 e2 fl1 fl2 s e : (∀ f, f ∈ fl1 → f ∈ level_of l1) → (∀ f, f ∈ fl2 → f ∈ level_of l2) →
  hull s1 e1 fl1 → hull s2 e2 fl2 → (s = s1 ∨ s = s2) → icmp s s1 <= 0 → icmp s s2 <= 0 → (e = e1 ∨ e = e2) → icmp e1 e <= 0 → icmp e2 e <= 0 →
  hull s e (fl1 ++ fl2).
Proof using All.
  intros Hin1 Hin2 [(f1 & Hf1 & E1) (g1 & Hg1 & E2) Ha1] [(f2 & Hf2 & E3) (g2 & Hg2 & E4) Ha2] Hs Hs1 Hs2 He He1 He2.
  destruct (level_file l1 f1 (Hin1 f1 Hf1)) as ([W1 _] & _ & T1 & _), (level_file l1 g1 (Hin1 g1 Hg1)) as ([_ W2] & _ & _ & T2).
  destruct (level_file l2 f2 (Hin2 f2 Hf2)) as ([W3 _] & _ & T3 & _), (level_file l2 g2 (Hin2 g2 Hg2)) as ([_ W4] & _ & _ & T4).
  rewrite <- E1 in W1, T1. rewrite <- E2 in W2, T2. rewrite <- E3 in W3, T3. rewrite <- E4 in W4, T4.
  assert (ikey_ok s ∧ boundary_typed s) as [Ws Ts] by (by destruct Hs as [-> | ->]). assert (ikey_ok e) as We by (by destruct He as [-> | ->]).
  apply (sst_cmp_coarser wf c) in Hs1, Hs2, He1, He2; [|done..]. split.
  - destruct Hs as [-> | ->]; [exists f1|exists f2]; (split; [apply elem_of_app; auto|done]).
  - destruct He as [-> | ->]; [exists g1|exists g2]; (split; [apply elem_of_app; auto|done]).
  - intros f [Hf|Hf]%elem_of_app.
    + destruct (Ha1 f Hf) as [H1 H2], (level_file l1 f (Hin1 f Hf)) as ([W5 W6] & _).
      split; [apply (sst_le_trans s s1)|apply (sst_le_trans (largest f) e1)]; done.
    + destruct (Ha2 f Hf) as [H1 H2], (level_file l2 f (Hin2 f Hf)) as ([W5 W6] & _).
      split; [apply (sst_le_trans s s2)|apply (sst_le_trans (largest f) e2)]; done.
Qed.
Lemma hull_one l f : f ∈ level_of l → hull (smallest f) (largest f) [f].
Proof using All.
  intros Hf. destruct (level_file l f Hf) as ([W1 W2] & _). split; [exists f; split; [left|done]|exists f; split; [left|done]|].
  intros g ->%list_elem_of_singleton. rewrite !(cmp_refl (wf := ikey_ok) (cmp := sst_cmp)) by done. done.
Qed.
Lemma icmp_le_or a b : ikey_ok a → ikey_ok b → (icmp a b <? 0) = false → icmp b a <= 0.
Proof using ComparatorLaws0.
  intros Ha Hb H%Z.ltb_ge. by apply (proj2 (cmp_flip_le (wf := ikey_ok) (cmp := icmp) b a Hb Ha)).
Qed.
Lemma icmp_refl a : ikey_ok a → icmp a a = 0.
Proof using ComparatorLaws0. apply (cmp_refl (wf := ikey_ok) (cmp := icmp)). Qed.

Lemma fold_wider files : ∀ s e taken, (∀ f, f ∈ taken ++ files → f ∈ level_of 0%nat) → hull s e taken →
  hull (fst (fold_left (wider_range c) files (s, e))) (snd (fold_left (wider_range c) files (s, e))) (taken ++ files).
Proof using All.
  induction files as [|f files IH]; intros s e taken Hin Hh; cbn [fold_left]; [by rewrite app_nil_r|].
  replace (taken ++ f :: files) with ((taken ++ [f]) ++ files) in * by (by rewrite <- app_assoc).
  unfold wider_range at 2 4. cbn [fst snd]. apply IH; [done|].
  assert (∀ g, g ∈ taken → g ∈ level_of 0%nat) as Hin' by (intros g Hg; apply Hin; rewrite !elem_of_app; auto).
  assert (f ∈ level_of 0%nat) as Hf by (apply Hin; rewrite !elem_of_app; left; right; left).
  destruct (level_file 0 f Hf) as ([W1 W2] & _). pose proof Hh as [(f1 & Hf1 & E1) (g1 & Hg1 & E2) _].
  destruct (level_file 0 f1 (Hin' f1 Hf1)) as ([W3 _] & _), (level_file 0 g1 (Hin' g1 Hg1)) as ([_ W4] & _). rewrite <- E1 in W3. rewrite <- E2 in W4.
  apply (hull_union 0 0 s e (smallest f) (largest f)); [done|by intros g ->%list_elem_of_singleton|done|by apply (hull_one 0)|..];
    repeat case_match; rewrite ?icmp_refl by done; auto using icmp_le_or; try lia.
  - apply (cmp_flip_le (wf := ikey_ok) (cmp := icmp)); [done..|lia].
Qed.

Lemma GetRange_hull l files : input_of l files → ∃ s e, GetRange c (mkCompactionInputFiles (Z.of_nat l) files) = Some (s, e) ∧ hull s e files.
Proof using All.
  intros [Hne Hin Hrun]. destruct l as [|l].
  - unfold GetRange. cbn [input_files input_level]. destruct files as [|f files]; [done|]. change (Z.of_nat 0 =? 0) with true. cbv iota.
    eexists _, _. split; [by rewrite <- surjective_pairing|]. apply (fold_wider files (smallest f) (largest f) [f] Hin). apply (hull_one 0), Hin. left.
  - destruct (Hrun ltac:(done)) as (a & m & Ham & ->). pose proof (level_of_cut wf c v Hv Hts Hty (S l) ltac:(lia)) as Hc.
    destruct (lookup_lt_is_Some_2 (level_of (S l)) a) as [f Ef]; [lia|]. destruct (lookup_lt_is_Some_2 (level_of (S l)) (m - 1)) as [g Eg]; [lia|].
    exists (smallest f), (largest g). split; [by apply GetRange_run; [lia..| |]|]. split.
    + exists f. split; [|done]. apply elem_of_run; [lia|]. exists a. split; [done|lia].
    + exists g. split; [|done]. apply elem_of_run; [lia|]. exists (m - 1)%nat. split; [done|lia].
    + intros h (j & Ej & Hj)%elem_of_run; [|lia]. split; [apply (cut_grow wf c _ Hc a j f h Ef Ej); lia|apply (cut_grow wf c _ Hc j (m - 1) h g Ej Eg); lia].
Qed.

(** ** The searches for inputs *)

Lemma out_search l s e hint : (1 <= l)%nat → ikey_ok s → ikey_ok e → hint_ok c (level_of l) largest (Some s) hint →
  ∃ a n i, (a <= n <= length (level_of l))%nat ∧ (∀ j f, level_of l !! j = Some f → (a <= j < n)%nat ↔ touches c (Some s) (Some e) f) ∧
    ((a < n)%nat → i = Z.of_nat a) ∧
    GetOverlappingInputs c p (Z.of_nat l) (Some s) (Some e) [] hint hint true None = Some (mkOverlap (run (level_of l) a n) i None).
Proof using All.
  intros Hl Ws We Hh. destruct (decide (l < k)%nat) as [Hlk|Hlk].
  - destruct (overlapping_upper wf c v p k Hv Hp Hts Hty l (Some s) (Some e) hint hint true None) as (a & n & Hr & Ht & E); [lia|by intros ? [= <-]..|done|].
    rewrite E by done. case_decide as Han; [by exists a, n, (Z.of_nat a)|]. exists a, n, (-1). split_and!; [lia..|done|lia|].
    unfold run. by replace (n - a)%nat with 0%nat by lia.
  - rewrite (level_of_empty c v p k Hp l) by lia. exists 0%nat, 0%nat, hint. split; [cbn; lia|]. split; [done|]. split; [lia|].
    unfold GetOverlappingInputs. destruct (pr_levels _ _ _ _ Hp) as [-> _]. by rewrite (proj2 (Z.leb_le _ _)) by lia.
Qed.

Lemma sst_user a b : sst_cmp a b <= 0 → CompareWithoutTimestamp c (ExtractUserKey a) (ExtractUserKey b) <= 0.
Proof using. rewrite sstableKeyCompare_lex. destruct (Z.eqb_spec (CompareWithoutTimestamp c (ExtractUserKey a) (ExtractUserKey b)) 0); cbn [negb]; lia. Qed.

(** A range around the inputs finds them again. *)
Lemma input_search l files s e hint : input_of l files → ikey_ok s → ikey_ok e →
  (∀ f, f ∈ files → sst_cmp s (smallest f) <= 0 ∧ sst_cmp (largest f) e <= 0) → hint_ok c (level_of l) largest (Some s) hint →
  ∃ o, GetOverlappingInputs c p (Z.of_nat l) (Some s) (Some e) [] hint (-1) true None = Some o ∧ input_of l (inputs_ o) ∧
    (∀ f, f ∈ files → f ∈ inputs_ o).
Proof using All.
  intros [Hne Hin Hrun] Ws We Hall Hh. assert (l < k)%nat as Hlk.
  { destruct files as [|f files]; [done|]. apply Nat.nle_gt. intros Hge. specialize (Hin f ltac:(left)).
    by rewrite (level_of_empty c v p k Hp l Hge), elem_of_nil in Hin. }
  assert (∀ f, f ∈ files → sst_cmp s (largest f) <= 0 ∧ sst_cmp (smallest f) e <= 0) as Htouch.
  { intros f Hf. destruct (Hall f Hf) as [H1 H2], (file_range l f (Hin f Hf)) as (W1 & W2 & H3).
    split; [apply (sst_le_trans s (smallest f))|apply (sst_le_trans (smallest f) (largest f))]; done. }
  assert (∀ o, (∀ f, f ∈ files → f ∈ inputs_ o) → inputs_ o ≠ []) as Hsome.
  { intros o Ho. destruct files as [|f files]; [done|]. specialize (Ho f ltac:(left)). by destruct (inputs_ o); [apply elem_of_nil in Ho|]. }
  destruct l as [|l].
  - destruct (overlapping_level0 wf c v p k (Some s) (Some e) hint (-1) true None Hp Hv ltac:(lia)) as (o & r & E & [Hi [Hr Hcr] _ _ _]);
      [by intros ? [= <-]..|]. exists o. split; [exact E|]. change (LevelFiles v 0) with (level_of 0%nat) in Hi.
    assert (∀ f, f ∈ files → f ∈ inputs_ o) as Hsub.
    { intros f Hf. rewrite Hi, list_elem_of_filter. split; [|by apply Hin]. destruct (Htouch f Hf) as [H1 H2], (file_range 0 f (Hin f Hf)) as (W1 & W2 & _).
      apply (contains_touches wf c (level_of 0%nat) (λ f Hf, level0_ordered f Hf) r (user_range (Some s) (Some e))); try done.
      - split; intros ? [= <-]; [apply Ws|apply We].
      - by apply Hin.
      - apply user_touches_spec. split; intros ? [= <-]; [|by apply sst_user]. apply (cmp_flip_le (wf := wf)); [apply Ws|apply W2|by apply sst_user]. }
    split; [|done]. split; [by apply Hsome| |done]. intros f Hf. rewrite Hi, list_elem_of_filter in Hf. apply Hf.
  - destruct (overlapping_upper wf c v p k Hv Hp Hts Hty (S l) (Some s) (Some e) hint (-1) true None) as (a & n & Hr & Ht & E); [lia|by intros ? [= <-]..|done|].
    assert (∀ f, f ∈ files → f ∈ run (level_of (S l)) a n) as Hsub.
    { intros f Hf. apply elem_of_run; [lia|]. destruct (list_elem_of_lookup_1 _ _ (Hin f Hf)) as [j Ej]. exists j. split; [done|].
      apply (Ht j f Ej), (touches_iff wf c); [done..| |by apply Htouch]. apply (level_file (S l) f), Hin, Hf. }
    assert (a < n)%nat as Han. { specialize (Hsome (mkOverlap (run (level_of (S l)) a n) 0 None) Hsub). cbn [inputs_] in Hsome.
      apply Nat.nle_gt. intros Hge. apply Hsome. unfold run. by replace (n - a)%nat with 0%nat by lia. }
    rewrite E, decide_True by done. eexists. split; [done|]. cbn [inputs_]. split; [|done]. split.
    + by apply (Hsome (mkOverlap (run (level_of (S l)) a n) 0 None)).
    + intros f (j & Ej & _)%elem_of_run; [|lia]. by apply list_elem_of_lookup_2 in Ej.
    + intros _. exists a, n. split; [lia|done].
Qed.
Lemma input_expand l files : input_of l files → ∃ b files', ExpandInputsToCleanCut c being_compacted p (mkCompactionInputFiles (Z.of_nat l) files) None =
  Some (b, mkCompactionInputFiles (Z.of_nat l) files', None) ∧ input_of l files' ∧ (∀ f, f ∈ files → f ∈ files').
Proof using All.
  intros Hi. pose proof Hi as [Hne Hin Hrun]. destruct l as [|l].
  - exists true, files. unfold ExpandInputsToCleanCut, inputs_empty. cbn [input_files]. by destruct files.
  - destruct (Hrun ltac:(done)) as (a & m & Ham & ->). destruct (ExpandInputs_spec (S l) a m None ltac:(lia) Ham ltac:(done)) as (s & n & [Hr _ _] & ->).
    eexists _, _. split; [done|]. split; [split|].
    + intros Hnil. assert (length (run (level_of (S l)) s n) = 0%nat) as H by (by rewrite Hnil). rewrite run_length in H; lia.
    + intros f (j & Ej & _)%elem_of_run; [|lia]. by apply list_elem_of_lookup_2 in Ej.
    + intros _. exists s, n. split; [lia|done].
    + intros f (j & Ej & Hj)%elem_of_run; [|lia]. apply elem_of_run; [lia|]. exists j. split; [done|lia].
Qed.

(** ** Both levels of a compaction *)

(** Files of two levels with boundaries in common. *)
Definition files_overlap (f g : FileMetaData) : Prop := sst_cmp (smallest f) (largest g) <= 0 ∧ sst_cmp (smallest g) (largest f) <= 0.

Section Levels.
Context (l lo : nat) (Hlo : (l < lo)%nat) (files : list FileMetaData) (Hi : input_of l files).
Context (Hclean : l ≠ 0%nat → ∃ a m, (a < m <= length (level_of l))%nat ∧ files = run (level_of l) a m ∧ clean_at c (level_of l) a ∧ clean_at c (level_of l) m).
#[local] Abbreviation outs := (level_of lo).

Lemma outs_cut : level_cut wf c outs.
Proof using All. apply (level_of_cut wf c v Hv Hts Hty). lia. Qed.

(** If the files that touch a range are taken, then so are those that overlap a file in
    the range. *)
Lemma covered_closed rs re s n : ikey_ok rs → ikey_ok re → (n <= length outs)%nat →
  (∀ j g, outs !! j = Some g → touches c (Some rs) (Some re) g → (s <= j < n)%nat) →
  ∀ f g, f ∈ level_of l → sst_cmp rs (smallest f) <= 0 ∧ sst_cmp (largest f) re <= 0 → g ∈ outs → files_overlap f g → g ∈ run outs s n.
Proof using All.
  intros Ws We Hn Ht f g Hf [H1 H2] Hg [H3 H4]. apply elem_of_run; [done|]. destruct (list_elem_of_lookup_1 _ _ Hg) as [j Ej]. exists j. split; [done|].
  destruct (file_range l f Hf) as (W1 & W2 & _), (file_range lo g Hg) as (W3 & W4 & _). apply (Ht j g Ej), (touches_iff wf c); [done..|].
  split; [by apply (sst_le_trans rs (smallest f))|by apply (sst_le_trans (smallest g) (largest f))].
Qed.

Context (S_ L_ : bytes) (HR : hull S_ L_ files).
Context (s0 n0 s n : nat) (Hn0 : (s0 < n0 <= length outs)%nat) (Ht0 : ∀ j g, outs !! j = Some g → (s0 <= j < n0)%nat ↔ touches c (Some S_) (Some L_) g).
Context (Hout : least_clean_run c outs s0 n0 s n).

(** The inputs that a compaction may have, beside the files of the output level. *)
Record closed_inputs (files' : list FileMetaData) : Prop := {
  ci_level : ∀ f, f ∈ files' → f ∈ level_of l;
  ci_more : ∀ f, f ∈ files → f ∈ files';
  ci_overlap : ∀ f g, f ∈ files' → g ∈ outs → files_overlap f g → g ∈ run outs s n
}.

Lemma same_inputs : closed_inputs files.
Proof using All.
  destruct (hull_keys l S_ L_ files Hi HR) as (W1 & W2 & _). split; [apply Hi|done|]. intros f g Hf Hg.
  destruct (lcr_range _ _ _ _ _ _ Hout). apply (covered_closed S_ L_); [done..|lia| |by apply Hi|by apply HR|done].
  intros j h Ej Hh. apply (Ht0 j h Ej) in Hh. lia.
Qed.

Lemma touch_keys a b j g : ikey_ok a → ikey_ok b → outs !! j = Some g →
  touches c (Some a) (Some b) g ↔ sst_cmp a (largest g) <= 0 ∧ sst_cmp (smallest g) b <= 0.
Proof using All. intros Wa Wb Ej. apply (touches_iff wf c); [done..|]. apply (level_file lo g), (list_elem_of_lookup_2 _ _ _ Ej). Qed.
Lemma touch_wider s1 e1 j g : ikey_ok s1 → ikey_ok e1 → sst_cmp s1 S_ <= 0 → sst_cmp L_ e1 <= 0 → outs !! j = Some g →
  touches c (Some S_) (Some L_) g → touches c (Some s1) (Some e1) g.
Proof using All.
  intros W1 W2 Hs He Ej. destruct (hull_keys l S_ L_ files Hi HR) as (W3 & W4 & _). rewrite !(touch_keys _ _ j g) by done.
  destruct (cut_keys wf c outs outs_cut j g Ej) as (W5 & W6 & _). intros [H1 H2].
  split; [by apply (sst_le_trans s1 S_)|by apply (sst_le_trans (smallest g) L_)].
Qed.
Lemma runs_nested s3 n3 : (∀ j g, outs !! j = Some g → (s0 <= j < n0)%nat → (s3 <= j < n3)%nat) → (s3 <= s0 ∧ n0 <= n3)%nat.
Proof using All.
  intros H. destruct (lookup_lt_is_Some_2 outs s0) as [f Ef]; [lia|]. destruct (lookup_lt_is_Some_2 outs (n0 - 1)) as [g Eg]; [lia|].
  pose proof (H s0 f Ef ltac:(lia)). pose proof (H (n0 - 1)%nat g Eg ltac:(lia)). lia.
Qed.

Lemma try_overlapping_spec o b e base : ikey_ok b → ikey_ok e → (∀ f, f ∈ files → sst_cmp b (smallest f) <= 0 ∧ sst_cmp (largest f) e <= 0) →
  hint_ok c (level_of l) largest (Some b) base → ∃ r i, try_overlapping c being_compacted o p (mkCompactionInputFiles (Z.of_nat l) files)
    (mkCompactionInputFiles (Z.of_nat lo) (run outs s n)) b e (Z.of_nat s0) base = Some (r, i) ∧
  ∀ files', r = Some files' → closed_inputs files' ∧ AreFilesInCompaction being_compacted files' = false.
Proof using All.
  intros Wb We Hbe Hh. unfold try_overlapping. cbn [input_level input_files].
  destruct (input_search l files b e base Hi Wb We Hbe Hh) as (o1 & -> & Hi1 & Hsub1). cbn [mbind option_bind].
  destruct (input_expand l (inputs_ o1) Hi1) as (clean & files' & -> & Hi2 & Hsub2). cbn [mbind option_bind input_files].
  destruct (clean && _) eqn:Em; [|by eexists _, _]. apply andb_true_iff in Em as [_ [_ Hnc%negb_true_iff]%andb_true_iff].
  destruct (GetRange_hull l files' Hi2) as (s1 & e1 & -> & HR1). cbn [mbind option_bind].
  destruct (hull_keys l s1 e1 files' Hi2 HR1) as (W1 & W2 & _), (hull_keys l S_ L_ files Hi HR) as (W3 & W4 & _).
  destruct (hull_mono l l S_ L_ files s1 e1 files' Hi Hi2 HR HR1) as [Hs1 He1]; [by intros f Hf; apply Hsub2, Hsub1|].
  pose proof (λ j g, touch_wider s1 e1 j g W1 W2 Hs1 He1) as Hwide.
  destruct (out_search lo s1 e1 (Z.of_nat s0)) as (s3 & n3 & i3 & Hr3 & Ht3 & _ & E3); [lia|done|done| |].
  { right. split; [unfold Zlen; lia|]. intros ? g [= <-] Eg. rewrite Nat2Z.id in Eg. apply (cmp_flip_le (wf := ikey_ok) (cmp := sst_cmp));
      [done|by apply (cut_keys wf c outs outs_cut s0)|]. apply (touch_keys s1 e1 s0 g W1 W2 Eg), (Hwide s0 g Eg), (Ht0 s0 g Eg). lia. }
  rewrite E3. cbn [mbind option_bind inputs_ file_index_].
  destruct (runs_nested s3 n3) as [G1 G2]; [by intros j g Ej Hj%(Ht0 j g Ej)%(Hwide j g Ej)%(Ht3 j g Ej)|].
  assert (run outs s3 n3 ≠ []) as Hne. { intros H. assert (length (run outs s3 n3) = 0%nat) as H0 by (by rewrite H). rewrite run_length in H0; lia. }
  destruct (run outs s3 n3) as [|x xs] eqn:E; [done|]. cbn [assertion mbind option_bind]. rewrite <- E.
  destruct (negb _); [|by eexists _, _]. destruct (ExpandInputs_spec lo s3 n3 None ltac:(lia) ltac:(lia) ltac:(done)) as (s4 & n4 & Hl4 & ->).
  cbn [mbind option_bind input_files]. eexists _, _. split; [done|]. destruct (_ && _) eqn:Eq; [|done]. intros ? [= <-].
  apply andb_true_iff in Eq as [_ Eq%Nat.eqb_eq]. destruct (lcr_range _ _ _ _ _ _ Hl4), (lcr_range _ _ _ _ _ _ Hout). rewrite !run_length in Eq by lia.
  destruct (lcr_least _ _ _ _ _ _ Hout s4 n4) as [G3 G4]; [lia..|apply Hl4|apply Hl4|]. split; [|done].
  split; [apply Hi2|by intros f Hf; apply Hsub2, Hsub1|]. intros f g Hf Hg. apply (covered_closed s1 e1); [done..|lia| |by apply Hi2|by apply HR1|done].
  intros j h Ej Hj%(Ht3 j h Ej). lia.
Qed.

Lemma out_inputs : input_of lo (run outs s n).
Proof using All.
  destruct (lcr_range _ _ _ _ _ _ Hout). split.
  - intros Hnil. assert (length (run outs s n) = 0%nat) as Hz by (by rewrite Hnil). rewrite run_length in Hz; lia.
  - intros f (j & Ej & _)%elem_of_run; [|lia]. by apply list_elem_of_lookup_2 in Ej.
  - intros _. exists s, n. split; [lia|done].
Qed.
Lemma both_keys A_ B_ : hull A_ B_ (files ++ run outs s n) → ikey_ok A_ ∧ ikey_ok B_.
Proof using All.
  intros [(f1 & Hf1 & ->) (f2 & Hf2 & ->) _]. assert (∀ f, f ∈ files ++ run outs s n → ikey_ok (smallest f) ∧ ikey_ok (largest f)) as Hk.
  { intros f [Hf%Hi|Hf%out_inputs]%elem_of_app; [destruct (file_range l f Hf) as (? & ? & _)|destruct (file_range lo f Hf) as (? & ? & _)]; done. }
  split; [apply (Hk f1 Hf1)|apply (Hk f2 Hf2)].
Qed.
(** The range of both levels touches no more files of the output level. *)
Lemma both_touch A_ B_ j g : hull A_ B_ (files ++ run outs s n) → outs !! j = Some g → touches c (Some A_) (Some B_) g → (s <= j < n)%nat.
Proof using All.
  intros HA Ej Ht. destruct (both_keys A_ B_ HA) as [W5 W6], HA as [(f1 & Hf1 & EA) (f2 & Hf2 & EB) _].
  destruct (lcr_range _ _ _ _ _ _ Hout) as [G1 G2], (lcr_clean _ _ _ _ _ _ Hout) as [Cs Cn].
  destruct (hull_keys l S_ L_ files Hi HR) as (W1 & W2 & _), (cut_keys wf c outs outs_cut j g Ej) as (W3 & W4 & _).
  apply (touch_keys A_ B_ j g W5 W6 Ej) in Ht as [H1 H2].
  split; apply Nat.nlt_ge || apply Nat.nle_gt; intros Hj.
  - apply elem_of_app in Hf1 as [Hf1|Hf1].
    + destruct (lookup_lt_is_Some_2 outs s0) as [g0 E0]; [lia|]. destruct (proj1 (touch_keys S_ L_ s0 g0 W1 W2 E0)) as [_ H3]; [apply (Ht0 s0 g0 E0); lia|].
      enough (s0 <= j < n0)%nat by lia. apply (Ht0 j g Ej), (touch_keys S_ L_ j g W1 W2 Ej). split.
      * apply (sst_le_trans S_ A_); [done..| |done]. rewrite EA. by apply HR.
      * apply (sst_le_trans _ (smallest g0)); [done|by apply (cut_keys wf c outs outs_cut s0)|done| |done]. apply (cut_grow wf c outs outs_cut j s0); [done..|lia].
    + apply elem_of_run in Hf1 as (i & Ei & Hi'); [|lia]. pose proof (clean_before wf c outs outs_cut s j i g f1 Cs ltac:(lia) Ej Ei) as H3.
      rewrite <- EA in H3. apply (cmp_flip_lt (wf := ikey_ok) (cmp := sst_cmp)) in H3; [lia|done..].
  - apply elem_of_app in Hf2 as [Hf2|Hf2].
    + destruct (lookup_lt_is_Some_2 outs (n0 - 1)) as [g0 E0]; [lia|].
      destruct (proj1 (touch_keys S_ L_ (n0 - 1) g0 W1 W2 E0)) as [H3 _]; [apply (Ht0 _ g0 E0); lia|].
      enough (s0 <= j < n0)%nat by lia. apply (Ht0 j g Ej), (touch_keys S_ L_ j g W1 W2 Ej). split.
      * apply (sst_le_trans _ (largest g0)); [done|by apply (cut_keys wf c outs outs_cut (n0 - 1))|done..|]. apply (cut_grow wf c outs outs_cut (n0 - 1) j); [done..|lia].
      * apply (sst_le_trans _ B_); [done..|]. rewrite EB. by apply HR.
    + apply elem_of_run in Hf2 as (i & Ei & Hi'); [|lia]. pose proof (clean_before wf c outs outs_cut n i j f2 g Cn ltac:(lia) Ei Ej) as H3.
      rewrite <- EB in H3. apply (cmp_flip_lt (wf := ikey_ok) (cmp := sst_cmp)) in H3; [lia|done..].
Qed.
Lemma GetRange2_hull : ∃ A_ B_, GetRange2 c (mkCompactionInputFiles (Z.of_nat l) files) (mkCompactionInputFiles (Z.of_nat lo) (run outs s n)) = Some (A_, B_) ∧
  hull A_ B_ (files ++ run outs s n).
Proof using All.
  pose proof out_inputs as Ho. destruct (GetRange_hull l files Hi) as (s1 & e1 & E1 & H1), (GetRange_hull lo _ Ho) as (s2 & e2 & E2 & H2).
  assert (∀ l' fl, input_of l' fl → inputs_empty (mkCompactionInputFiles (Z.of_nat l') fl) = false) as Hne.
  { intros l' fl [? _ _]. unfold inputs_empty. cbn. by destruct fl. }
  unfold GetRange2. rewrite (Hne l files Hi), (Hne lo _ Ho), E1, E2. cbn [negb orb assertion mbind option_bind]. eexists _, _. split; [done|].
  destruct (hull_keys l s1 e1 files Hi H1) as (W1 & W2 & _), (hull_keys lo s2 e2 _ Ho H2) as (W3 & W4 & _).
  apply (hull_union l lo s1 e1 s2 e2); [apply Hi|apply Ho|done|done|..]; repeat case_match; rewrite ?icmp_refl by done; auto using icmp_le_or; try lia.
Qed.

(** The index of an input, as a hint. *)
Definition input_hint (base : Z) : Prop := base = -1 ∨ ∃ b f, base = Z.of_nat b ∧ level_of l !! b = Some f ∧ f ∈ files.
Lemma input_hint_ok key b base : (key = smallest ∨ key = largest) → ikey_ok b → (∀ f, f ∈ files → sst_cmp b (smallest f) <= 0) → input_hint base →
  hint_ok c (level_of l) key (Some b) base.
Proof using All.
  intros Hkey Wb Hb [->|(i & f & -> & Ei & Hf)]; [by left|]. right. apply lookup_lt_Some in Ei as Hlt. split; [unfold Zlen; lia|].
  intros ? f' [= <-] Ef'. rewrite Nat2Z.id, Ei in Ef'. injection Ef' as <-. destruct (file_range l f (io_level _ _ Hi f Hf)) as (W1 & W2 & Hle).
  destruct Hkey as [-> | ->]; apply (cmp_flip_le (wf := ikey_ok) (cmp := sst_cmp)); [done|done|by apply Hb|done|done|].
  apply (sst_le_trans b (smallest f)); [done..|by apply Hb|done].
Qed.

Lemma within_spec A_ B_ base : hull A_ B_ (files ++ run outs s n) → input_hint base →
  ∃ fl, GetCleanInputsWithinInterval c p (Z.of_nat l) (Some A_) (Some B_) base = Some fl ∧ (fl = [] ∨ closed_inputs fl).
Proof using All.
  intros HA Hb. destruct (decide (l = 0%nat)) as [H0|H0].
  { exists []. split; [|by left]. unfold GetCleanInputsWithinInterval. rewrite H0. by rewrite orb_true_r. }
  destruct (both_keys A_ B_ HA) as [WA WB]. pose proof (hu_all _ _ _ HA) as Hall.
  assert (∀ f, f ∈ files → sst_cmp A_ (smallest f) <= 0 ∧ sst_cmp (largest f) B_ <= 0) as Hin by (intros f Hf; apply Hall, elem_of_app; by left).
  destruct (clean_within wf c v p k Hv Hp Hts Hty l (Some A_) (Some B_) base ltac:(lia)) as (s1 & n1 & E & [Hr _ Hw Hl]); [by intros ? [= <-]..| |].
  { apply input_hint_ok; [by left|done| |done]. intros f Hf. by apply Hin. }
  eexists. split; [exact E|]. right. destruct (Hclean H0) as (a & m & Ham & Efl & Ca & Cm).
  assert (∀ f, f ∈ level_of l → ¬ before c smallest (Some A_) f ∧ ¬ after c largest (Some B_) f ↔ sst_cmp A_ (smallest f) <= 0 ∧ sst_cmp (largest f) B_ <= 0) as Hiff.
  { intros f Hf. destruct (file_range l f Hf) as (W1 & W2 & _). pose proof (cmp_flip_le (wf := ikey_ok) (cmp := sst_cmp) _ _ WA W1).
    pose proof (cmp_flip_le (wf := ikey_ok) (cmp := sst_cmp) _ _ W2 WB). unfold before, after. split.
    - intros [T1 T2]. split; apply Z.nlt_ge; intros Hlt; [apply T1|apply T2]; eexists; (split; [done|]); lia.
    - intros [T1 T2]. split; intros (? & [= <-] & ?); lia. }
  destruct (Hl a m Ham Ca Cm) as [G1 G2].
  { intros j f Ej Hj. apply Hiff; [by apply list_elem_of_lookup_2 in Ej|]. apply Hin. rewrite Efl. apply elem_of_run; [lia|by exists j]. }
  assert (∀ f, f ∈ run (level_of l) s1 n1 → f ∈ level_of l) as Hlev by (intros f (j & Ej & _)%elem_of_run; [|lia]; by apply list_elem_of_lookup_2 in Ej).
  split; [done| |].
  - intros f Hf. rewrite Efl in Hf. apply elem_of_run in Hf as (j & Ej & Hj); [|lia]. apply elem_of_run; [lia|]. exists j. split; [done|lia].
  - intros f g Hf Hg. destruct (lcr_range _ _ _ _ _ _ Hout). apply (covered_closed A_ B_); [done..|lia| |by apply Hlev| |done].
    + intros j h Ej. by apply both_touch.
    + apply Hiff; [by apply Hlev|]. apply elem_of_run in Hf as (j & Ej & Hj); [|lia]. by apply (Hw j).
Qed.

Lemma expand_inputs_spec o base right_only : input_hint base →
  ∃ fl i, expand_inputs c being_compacted o p (mkCompactionInputFiles (Z.of_nat l) files) (mkCompactionInputFiles (Z.of_nat lo) (run outs s n)) S_
    (Z.of_nat s0) base right_only = Some (mkCompactionInputFiles (Z.of_nat l) fl, i) ∧ closed_inputs fl ∧
    (fl = files ∨ AreFilesInCompaction being_compacted fl = false).
Proof using All.
  intros Hb. unfold expand_inputs. destruct GetRange2_hull as (A_ & B_ & -> & HA). cbn [mbind option_bind input_level input_files].
  destruct (both_keys A_ B_ HA) as [WA WB], (hull_keys l S_ L_ files Hi HR) as (WS & _ & _). pose proof (hu_all _ _ _ HA) as Hall.
  assert (∀ f, f ∈ files → sst_cmp (if right_only then S_ else A_) (smallest f) <= 0 ∧ sst_cmp (largest f) B_ <= 0) as Hin.
  { intros f Hf. destruct (Hall f) as [H1 H2]; [apply elem_of_app; by left|]. split; [|done]. destruct right_only; [by apply HR|done]. }
  destruct (try_overlapping_spec o (if right_only then S_ else A_) B_ base) as (r & i & -> & Hr); [by destruct right_only|done|done| |].
  { apply input_hint_ok; [by right|by destruct right_only| |done]. intros f Hf. by apply Hin. }
  cbn [mbind option_bind]. destruct r as [fl|].
  - destruct (Hr fl eq_refl). eexists _, _. split; [done|]. split; [done|by right].
  - destruct (within_spec A_ B_ base HA Hb) as (fl & -> & Hfl). cbn [mbind option_bind]. unfold may_expand.
    destruct (_ && _) eqn:Em; [|exists files, i; split; [done|]; split; [apply same_inputs|by left]].
    apply andb_true_iff in Em as [[Hlt%Nat.ltb_lt _]%andb_true_iff Hn%negb_true_iff]. exists fl, i. split; [done|]. split; [|by right].
    destruct Hfl as [->|]; [cbn in Hlt; lia|done].
Qed.
End Levels.

Lemma no_files_between_true l n : (∀ i, (l <= i < l + n)%nat → level_of i = []) → no_files_between p (Z.of_nat l) n = true.
Proof using Hp.
  revert l. induction n as [|n IH]; intros l Hl; [done|]. cbn [no_files_between]. rewrite (prepared_level c v p k Hp), (Hl l) by lia.
  change (Zlen [] =? 0) with true. cbn [andb]. replace (Z.of_nat l + 1) with (Z.of_nat (S l)) by lia. apply IH. intros i H. apply Hl. lia.
Qed.

(** What [SetupOtherInputs] promises: files [s] to [n] of the output level. *)
Record other_inputs (l lo : nat) (files : list FileMetaData) (ok : bool) (fl : list FileMetaData) (s n : nat) : Prop := {
  oi_range : (s <= n <= length (level_of lo))%nat;
  oi_closed : ok = true → closed_inputs l lo files s n fl;
  oi_clean : ok = true → (s < n)%nat → clean_at c (level_of lo) s ∧ clean_at c (level_of lo) n;
  oi_free : ok = true → AreFilesInCompaction being_compacted (run (level_of lo) s n) = false ∧
    (fl = files ∨ AreFilesInCompaction being_compacted fl = false);
  oi_fails : ok = false → fl = files ∧ AreFilesInCompaction being_compacted (run (level_of lo) s n) = true
}.
Lemma SetupOtherInputs_spec o l lo files base right_only : (l < lo)%nat → input_of l files →
  (l ≠ 0%nat → ∃ a m, (a < m <= length (level_of l))%nat ∧ files = run (level_of l) a m ∧ clean_at c (level_of l) a ∧ clean_at c (level_of l) m) →
  (∀ i, (l < i < lo)%nat → level_of i = []) → input_hint l files base →
  ∃ ok fl s n i, SetupOtherInputs c being_compacted o p (mkCompactionInputFiles (Z.of_nat l) files) (Z.of_nat lo) (-1) base right_only =
    Some (ok, mkCompactionInputFiles (Z.of_nat l) fl, mkCompactionInputFiles (Z.of_nat lo) (run (level_of lo) s n), i) ∧ other_inputs l lo files ok fl s n.
Proof using All.
  intros Hlo Hi Hclean Hbetween Hb. unfold SetupOtherInputs, inputs_empty. cbn [input_files input_level].
  destruct (GetRange_hull l files Hi) as (S_ & L_ & ER & HR). destruct (hull_keys l S_ L_ files Hi HR) as (WS & WL & _).
  rewrite ER. assert (match files with [] => true | _ => false end = false) as -> by (destruct Hi, files; done). cbn [negb assertion mbind option_bind].
  rewrite (proj2 (Z.eqb_neq _ _)) by lia. replace (Z.of_nat l + 1) with (Z.of_nat (S l)) by lia.
  rewrite (no_files_between_true (S l)) by (intros i Hi'; apply Hbetween; lia). cbn [assertion mbind option_bind].
  destruct (out_search lo S_ L_ (-1)) as (s0 & n0 & i0 & Hr0 & Ht0 & Ei0 & ->); [lia|done|done|by left|]. cbn [mbind option_bind inputs_ file_index_].
  destruct (AreFilesInCompaction _ _) eqn:Ef; [by exists false, files, s0, n0, i0|].
  destruct (decide (s0 < n0)%nat) as [Hsn|Hsn].
  - assert (match run (level_of lo) s0 n0 with [] => true | _ => false end = false) as ->.
    { destruct (run (level_of lo) s0 n0) eqn:E; [|done]. assert (length (run (level_of lo) s0 n0) = 0%nat) as Hz by (by rewrite E). rewrite run_length in Hz; lia. }
    destruct (ExpandInputs_spec lo s0 n0 None ltac:(lia) ltac:(lia) ltac:(done)) as (s & n & Hl & ->). cbn [mbind option_bind]. rewrite negb_involutive.
    pose proof (lcr_range _ _ _ _ _ _ Hl). destruct (AreFilesInCompaction _ (run _ s n)) eqn:Ef'.
    { exists false, files, s, n, i0. split; [done|]. split; [lia|done..]. }
    rewrite Ei0 by done. destruct (expand_inputs_spec l lo Hlo files Hi Hclean S_ L_ HR s0 n0 s n ltac:(lia) Ht0 Hl o base right_only Hb) as (fl & i & -> & Hc & Hn).
    cbn [mbind option_bind]. exists true, fl, s, n, i. split; [done|]. split; [lia|done| |done|done]. intros _ _. apply Hl.
  - assert (run (level_of lo) s0 n0 = []) as Enil by (unfold run; by replace (n0 - s0)%nat with 0%nat by lia). rewrite Enil in *.
    exists true, files, s0, n0, i0. rewrite Enil. split; [done|]. split; [lia| |lia|by rewrite Enil; auto|done]. intros _. split; [apply Hi|done|].
    intros f g Hf Hg. apply (covered_closed l lo Hlo files Hi Hclean S_ L_); [done..|lia| |by apply Hi|by apply HR|done]. intros j h Ej. apply Ht0, Ej.
Qed.
End Version.

(** ** Properties *)

Section Property.
Context (wf : bytes → Prop) (c : Comparator) `{!ComparatorLaws wf c} (being_compacted : FileMetaData → bool).
#[local] Abbreviation level_of v l := (default [] (files_ v !! l)).

(** C13: at a level from 1 on of a well-formed version without timestamps, no compaction
    separates the versions of a user key: [ExpandInputsToCleanCut] turns a run of files
    into the least one around it neither of whose ends shares a boundary with the file
    beyond, and fails exactly if a file of it is being compacted already;
    [GetCleanInputsWithinInterval] finds the largest such run inside a range of keys. *)
Theorem clean_cuts_exact v : version_wf c v → version_bounds wf c v → timestamp_size c = 0 →
  (∀ level f, level ∈ files_ v → f ∈ level → boundary_typed (smallest f) ∧ boundary_typed (largest f)) →
  ∃ p, PrepareForVersionAppend c false v = Some p ∧ ∀ l, (1 <= l)%nat →
    (∀ a m, (a < m <= length (level_of v l))%nat → ∃ s n, least_clean_run c (level_of v l) a m s n ∧
       ExpandInputsToCleanCut c being_compacted p (mkCompactionInputFiles (Z.of_nat l) (run (level_of v l) a m)) None =
       Some (negb (existsb being_compacted (run (level_of v l) s n)), mkCompactionInputFiles (Z.of_nat l) (run (level_of v l) s n), None)) ∧
    (∀ b e, key_bound wf b → key_bound wf e → ∃ s n, largest_clean_run c (level_of v l) b e s n ∧
       GetCleanInputsWithinInterval c p (Z.of_nat l) b e (-1) = Some (run (level_of v l) s n)).
Proof using ComparatorLaws0.
  intros Hw Hbd Hts Hty. pose proof (version_in_order wf c v Hw Hbd) as Hv.
  destruct (PrepareForVersionAppend_spec wf c v Hv false) as (_ & p & k & E & _ & Hp & _). exists p. split; [exact E|]. intros l Hl. split.
  - intros a m Ham. destruct (ExpandInputs_spec wf c v p k being_compacted Hv Hp Hts Hty l a m None Hl Ham ltac:(done)) as (s & n & H1 & H2). by exists s, n.
  - intros b e Hb He. destruct (clean_within wf c v p k Hv Hp Hts Hty l b e (-1) Hl Hb He ltac:(by left)) as (s & n & H1 & H2). by exists s, n.
Qed.

(** C11: the inputs of a compaction of level [l] into level [lo] are closed, for a user
    comparator without timestamps. Given files
    of level [l], which from level 1 on are a run that ends in clean cuts, and no files
    between the levels, [SetupOtherInputs] returns without a failed assertion. It fails
    only if a file that it wants of the output level is being compacted already.
    Otherwise its inputs contain those given and are of level [l]; every file of the
    output level that overlaps one of them, also after they have grown, is among the
    files that it takes there; those end in clean cuts; and of the files that it adds
    none is being compacted. *)
Theorem setup_other_inputs_closed v o : version_wf c v → version_bounds wf c v → timestamp_size c = 0 →
  (∀ level f, level ∈ files_ v → f ∈ level → boundary_typed (smallest f) ∧ boundary_typed (largest f)) →
  ∃ p, PrepareForVersionAppend c false v = Some p ∧ ∀ l lo files base right_only, (l < lo)%nat → input_of v l files →
    (l ≠ 0%nat → ∃ a m, (a < m <= length (level_of v l))%nat ∧ files = run (level_of v l) a m ∧ clean_at c (level_of v l) a ∧ clean_at c (level_of v l) m) →
    (∀ i, (l < i < lo)%nat → level_of v i = []) → input_hint v l files base →
    ∃ ok fl s n i, SetupOtherInputs c being_compacted o p (mkCompactionInputFiles (Z.of_nat l) files) (Z.of_nat lo) (-1) base right_only =
      Some (ok, mkCompactionInputFiles (Z.of_nat l) fl, mkCompactionInputFiles (Z.of_nat lo) (run (level_of v lo) s n), i) ∧
      other_inputs c v being_compacted l lo files ok fl s n.
Proof using ComparatorLaws0.
  intros Hw Hbd Hts Hty. pose proof (version_in_order wf c v Hw Hbd) as Hv.
  destruct (PrepareForVersionAppend_spec wf c v Hv false) as (_ & p & k & E & _ & Hp & _). exists p. split; [exact E|].
  intros l lo files base right_only. by apply (SetupOtherInputs_spec wf c v p k being_compacted Hv Hp Hts Hty).
Qed.
End Property.

Module CompactionExample.
Import VersionExample PrepareExample OverlapExample.

(** The first file of level 1 ends in the user key in which the second starts. *)
Lemma clean_cuts_exact_witness : ∃ p, PrepareForVersionAppend BytewiseComparator false tree = Some p ∧
  (map file_number <$> (input_files <$> (snd <$> (fst <$>
    ExpandInputsToCleanCut BytewiseComparator (λ _, false) p (mkCompactionInputFiles 1 [file 4 5 1 0 97 98]) None)))) = Some [4; 5].
Proof.
  destruct (clean_cuts_exact bytes_ok BytewiseComparator (λ _, false) tree tree_wf tree_bounds eq_refl tree_boundaries) as (p & E & H).
  exists p. split; [exact E|]. destruct (H 1%nat ltac:(lia)) as [H1 _]. destruct (H1 0%nat 1%nat) as (s & n & [Hr [_ Hc] _] & Ee); [cbn; lia|].
  change (run _ 0 1) with [file 4 5 1 0 97 98] in Ee. change (Z.of_nat 1) with 1 in Ee. rewrite Ee. cbn [fmap option_fmap option_map fst snd input_files].
  change (length _) with 2%nat in Hr. destruct (decide (n = 1%nat)) as [->|Hn]; [exfalso; by apply (Hc 0%nat _ _ eq_refl eq_refl eq_refl)|].
  replace s with 0%nat by lia. by replace n with 2%nat by lia.
Defined.
(** The files of level 1, which has clean cuts only around both, into level 3. *)
Lemma setup_other_inputs_closed_witness : ∃ p, PrepareForVersionAppend BytewiseComparator false tree = Some p ∧
  ∃ r, SetupOtherInputs BytewiseComparator (λ _, false) (mkMutableCFOptions 1000 false) p
    (mkCompactionInputFiles 1 [file 4 5 1 0 97 98; file 5 4 1 0 98 100]) 3 (-1) 1 false = Some r.
Proof.
  destruct (setup_other_inputs_closed bytes_ok BytewiseComparator (λ _, false) tree (mkMutableCFOptions 1000 false) tree_wf tree_bounds eq_refl tree_boundaries)
    as (p & E & H). exists p. split; [exact E|].
  destruct (H 1%nat 3%nat [file 4 5 1 0 97 98; file 5 4 1 0 98 100] 1 false ltac:(lia)) as (ok & fl & s & n & i & Es & _).
  - split; [done|done|]. intros _. exists 0%nat, 2%nat. split; [cbn; lia|done].
  - intros _. exists 0%nat, 2%nat. split; [cbn; lia|]. split; [done|]. split; [apply clean_at_0|by apply clean_at_end].
  - intros i Hi. by replace i with 2%nat by lia.
  - right. exists 1%nat, (file 5 4 1 0 98 100). split; [done|]. split; [done|right; left].
  - eexists. exact Es.
Defined.

(** The fallback of [SetupOtherInputs] also grows the inputs to the left when they may
    only grow to the right: file 11 is before file 12 in its level. *)
Definition wide : VersionStorageInfo := mkVersionStorageInfo
  [[]; [file 11 9 3 0 97 98; file 12 9 3 0 99 100; file 13 9 3 0 101 122]; [file 21 3 1 0 97 101; file 22 3 1 0 120 122]] ∅ []
  [[]; []; []] true kMustPresent.
Lemma round_robin_grows_left : (p ← PrepareForVersionAppend BytewiseComparator false wide;
   '(_, inputs, _, _) ← SetupOtherInputs BytewiseComparator (λ _, false) (mkMutableCFOptions 1000000 false) p
      (mkCompactionInputFiles 1 [file 12 9 3 0 99 100]) 2 (-1) 1 true;
   Some (map file_number (input_files inputs))) = Some [11; 12].
Proof. by vm_compute. Qed.
End CompactionExample.
