(* ===== verification/BlobIndex.v ===== *)
(** * Blob indexes

    [BlobIndex] (db/blob/blob_index.h): what a table file stores in place of a value
    that is in a blob file. A decoder that reads past the end of an empty slice, where
    the code has an assertion, is [None]. *)

From S2P Require Import Prelude Status Coding FileIndexer.
From stdpp Require Import list.
#[local] Open Scope Z_scope.

Module BlobIndex.
(** The types, as the byte that is stored. *)
Definition kInlinedTTL : Z := 0.
Definition kBlob : Z := 1.
Definition kBlobTTL : Z := 2.
Definition kUnknown : Z := 3.
Record t := mk { type_ : Z; expiration_ : Z; value_ : bytes; file_number_ : Z; offset_ : Z; size_ : Z; compression_ : Z }.
Definition New : t := mk kUnknown 0 [] 0 0 0 0.

Definition IsInlined (b : t) : bool := type_ b =? kInlinedTTL.
Definition HasTTL (b : t) : bool := (type_ b =? kInlinedTTL) || (type_ b =? kBlobTTL).
Definition expiration (b : t) : option Z := _ ← assertion (HasTTL b); Some (expiration_ b).
Definition value (b : t) : option bytes := _ ← assertion (IsInlined b); Some (value_ b).
Definition file_number (b : t) : option Z := _ ← assertion (negb (IsInlined b)); Some (file_number_ b).
Definition offset (b : t) : option Z := _ ← assertion (negb (IsInlined b)); Some (offset_ b).
Definition size (b : t) : option Z := _ ← assertion (negb (IsInlined b)); Some (size_ b).
Definition compression (b : t) : option Z := _ ← assertion (negb (IsInlined b)); Some (compression_ b).

Definition set_type (b : t) (x : Z) : t := mk x (expiration_ b) (value_ b) (file_number_ b) (offset_ b) (size_ b) (compression_ b).
Definition set_expiration (b : t) (x : Z) : t := mk (type_ b) x (value_ b) (file_number_ b) (offset_ b) (size_ b) (compression_ b).
Definition set_value (b : t) (x : bytes) : t := mk (type_ b) (expiration_ b) x (file_number_ b) (offset_ b) (size_ b) (compression_ b).
Definition set_place (b : t) (f o s : Z) : t := mk (type_ b) (expiration_ b) (value_ b) f o s (compression_ b).
Definition set_compression (b : t) (x : Z) : t := mk (type_ b) (expiration_ b) (value_ b) (file_number_ b) (offset_ b) (size_ b) x.

(** The file number, the offset, the size and the compression of a blob. *)
Definition decode_place (b : t) (slice : bytes) : Status * t :=
  let fail b := (Status_Corruption "Error while decoding blob index: Corrupted blob offset", b) in
  match GetVarint64 slice with
  | None => fail b
  | Some (f, slice) =>
      let b := set_place b f (offset_ b) (size_ b) in
      match GetVarint64 slice with
      | None => fail b
      | Some (o, slice) =>
          let b := set_place b f o (size_ b) in
          match GetVarint64 slice with
          | Some (s, [c]) => (Status_OK, set_compression (set_place b f o s) c)
          | Some (s, _) => fail (set_place b f o s)
          | None => fail b
          end
      end
  end.
Definition DecodeFrom (b : t) (slice : bytes) : option (Status * t) :=
  match slice with
  | [] => None
  | type :: slice =>
      let b := set_type b type in
      if kUnknown <=? type then Some (Status_Corruption "Error while decoding blob index: Unknown blob index type", b)
      else
        match (if HasTTL b then GetVarint64 slice else Some (expiration_ b, slice)) with
        | None => Some (Status_Corruption "Error while decoding blob index: Corrupted expiration", b)
        | Some (e, slice) =>
            let b := set_expiration b e in
            Some (if IsInlined b then (Status_OK, set_value b slice) else decode_place b slice)
        end
  end.

Definition EncodeInlinedTTL (expiration : Z) (value : bytes) : bytes := PutVarint64 [kInlinedTTL] expiration ++ value.
Definition EncodeBlob (file_number offset size compression : Z) : bytes :=
  PutVarint64 (PutVarint64 (PutVarint64 [kBlob] file_number) offset) size ++ [compression].
Definition EncodeBlobTTL (expiration file_number offset size compression : Z) : bytes :=
  PutVarint64 (PutVarint64 (PutVarint64 (PutVarint64 [kBlobTTL] expiration) file_number) offset) size ++ [compression].
End BlobIndex.

(** Each of the three forms is decoded to what was encoded. *)
Section RoundTrips.
Import BlobIndex.
#[local] Abbreviation varint := (round_trip (enc := EncodeVarint64)).

Lemma decode_place_encoded b f o s c : is_u 64 f → is_u 64 o → is_u 64 s →
  decode_place b (EncodeVarint64 f ++ EncodeVarint64 o ++ EncodeVarint64 s ++ [c]) = (Status_OK, set_compression (set_place b f o s) c).
Proof. intros Hf Ho Hs. unfold decode_place. by rewrite !(varint) by done. Qed.
Lemma blob_index_round_trips e v f o s c b : is_u 64 e → is_u 64 f → is_u 64 o → is_u 64 s →
  DecodeFrom b (EncodeInlinedTTL e v) = Some (Status_OK, set_value (set_expiration (set_type b kInlinedTTL) e) v) ∧
  DecodeFrom b (EncodeBlob f o s c) = Some (Status_OK, set_compression (set_place (set_type b kBlob) f o s) c) ∧
  DecodeFrom b (EncodeBlobTTL e f o s c) = Some (Status_OK, set_compression (set_place (set_expiration (set_type b kBlobTTL) e) f o s) c).
Proof.
  intros He Hf Ho Hs. unfold EncodeInlinedTTL, EncodeBlob, EncodeBlobTTL, PutVarint64. rewrite <- !app_assoc. split_and!; cbn [app DecodeFrom].
  - unfold HasTTL. cbn [set_type type_]. change (kUnknown <=? kInlinedTTL) with false. cbn [orb]. change (kInlinedTTL =? kInlinedTTL) with true.
    cbn [orb]. by rewrite varint by done.
  - change (kUnknown <=? kBlob) with false. unfold HasTTL. cbn [set_type type_]. change ((kBlob =? kInlinedTTL) || (kBlob =? kBlobTTL)) with false. cbv iota.
    change (IsInlined _) with false. cbv iota. by rewrite decode_place_encoded.
  - change (kUnknown <=? kBlobTTL) with false. unfold HasTTL. cbn [set_type type_]. change ((kBlobTTL =? kInlinedTTL) || (kBlobTTL =? kBlobTTL)) with true.
    cbv iota. rewrite varint by done. change (IsInlined _) with false. cbv iota. by rewrite decode_place_encoded.
Qed.
End RoundTrips.
