(* ===== verification/CompactionIterator.v ===== *)
(** * The compaction iterator

    [CompactionIterator] (db/compaction/compaction_iterator.cc): the loop of a flush or a
    compaction that reads the merged entries in order, drops those that no snapshot can
    see, filters and rewrites the others and hands them out.

    The input is the list of the entries that are still to be read; [IterKey]s and
    slices are byte strings, except that [key_] may point into [current_key_]. What the
    code reaches through virtual interfaces or other components is a parameter: the
    compaction ([CompactionProxy]), the filter, the snapshot checker, range tombstones,
    merges, the writing and the reading of blobs, and the flags by which other threads
    stop it, which may differ at each read. Statistics and log messages are left out. A
    failed assertion is [None]. *)

From S2P Require Import Prelude SortedLists Status Slice Coding Comparator DbFormat WideColumns FileIndexer BlobIndex.
From stdpp Require Import list sorting.
#[local] Open Scope Z_scope.

(** ** The environment *)

Inductive SnapshotCheckerResult := kInSnapshot | kNotInSnapshot | kSnapshotReleased.
#[export] Instance SnapshotCheckerResult_eq_dec : EqDecision SnapshotCheckerResult.
Proof. solve_decision. Defined.

Module CompactionFilter.
Inductive ValueType := kValue | kMergeOperand | kBlobIndex | kWideColumnEntity.
Inductive Decision := kKeep | kRemove | kChangeValue | kRemoveAndSkipUntil | kChangeBlobIndex | kIOError | kPurge | kChangeWideColumnEntity | kUndetermined.
Inductive BlobDecision := kBlobKeep | kBlobChangeValue | kBlobCorruption | kBlobIOError.
#[export] Instance Decision_eq_dec : EqDecision Decision.
Proof. solve_decision. Defined.

(** The new value and the key to skip to are written through pointers. *)
Record t := mk {
  IsStackedBlobDbInternalCompactionFilter : bool;
  FilterBlobByKey : Z → bytes → Decision * bytes * bytes;
  FilterV3 : Z → bytes → ValueType → option bytes → option (list WideColumn) → bytes → bytes → Decision * bytes * list WideColumn * bytes;
  PrepareBlobOutput : bytes → bytes → BlobDecision * bytes
}.
End CompactionFilter.
#[export] Existing Instance CompactionFilter.Decision_eq_dec.

Record CompactionProxy := mkCompactionProxy {
  level : Z;
  KeyNotExistsBeyondOutputLevel : bytes → list Z → bool * list Z;
  bottommost_level : bool;
  number_levels : Z;
  allow_ingest_behind : bool;
  enable_blob_garbage_collection : bool;
  SupportsPerKeyPlacement : bool;
  WithinPenultimateLevelOutputRange : bytes → bool
}.

(** An entry of the input; a sentinel is the start of a range tombstone. *)
Record Entry := mkEntry { entry_key : bytes; entry_value : bytes; IsDeleteRangeSentinelKey : bool }.

(** What [MergeHelper::MergeUntil] returns: its status, the entries that it made, in the
    order in which they are handed out, the rest of the input, and the key up to which
    a filter wants to skip. *)
Record Merged := mkMerged { merge_status : Status; merge_output : list (bytes * bytes); merge_rest : list Entry; FilteredUntil : option bytes }.

Record CompactionIteratorOptions (B : Type) := mkCompactionIteratorOptions {
  snapshots_ : list Z;
  earliest_write_conflict_snapshot_ : Z;
  job_snapshot_ : Z;
  snapshot_checker_ : option (Z → Z → SnapshotCheckerResult);
  expect_valid_internal_key_ : bool;
  enforce_single_del_contracts_ : bool;
  compaction_ : option CompactionProxy;
  compaction_filter_ : option CompactionFilter.t;
  full_history_ts_low_ : option bytes;
  preserve_time_min_seqno_ : Z;
  preclude_last_level_min_seqno_ : Z;
  blob_garbage_collection_cutoff_file_number_ : Z;
  (** [CompactionRangeDelAggregator::ShouldDelete] *)
  ShouldDelete : bytes → bool;
  (** [MergeHelper] *)
  HasOperator : bool;
  MergeUntil : list Entry → Z → bool → Merged;
  (** [BlobFileBuilder::Add], and [BlobFetcher::FetchBlob] *)
  blob_file_builder_ : option (B → bytes → bytes → B * Status * bytes);
  FetchBlob : bytes → BlobIndex.t → Status * bytes;
  (** the status of the input when it has been read, and the flags of other threads at
      each of their reads *)
  input_status : Status;
  manual_compaction_canceled_ : nat → bool;
  shutting_down_ : nat → bool
}.
#[global] Arguments snapshots_ {B}. #[global] Arguments earliest_write_conflict_snapshot_ {B}. #[global] Arguments job_snapshot_ {B}.
#[global] Arguments snapshot_checker_ {B}. #[global] Arguments expect_valid_internal_key_ {B}. #[global] Arguments enforce_single_del_contracts_ {B}.
#[global] Arguments compaction_ {B}. #[global] Arguments compaction_filter_ {B}. #[global] Arguments full_history_ts_low_ {B}.
#[global] Arguments preserve_time_min_seqno_ {B}. #[global] Arguments preclude_last_level_min_seqno_ {B}.
#[global] Arguments blob_garbage_collection_cutoff_file_number_ {B}. #[global] Arguments ShouldDelete {B}. #[global] Arguments HasOperator {B}.
#[global] Arguments MergeUntil {B}. #[global] Arguments blob_file_builder_ {B}. #[global] Arguments FetchBlob {B}. #[global] Arguments input_status {B}.
#[global] Arguments manual_compaction_canceled_ {B}. #[global] Arguments shutting_down_ {B}.

Inductive ValidContext :=
  | kMerge1 | kMerge2 | kParseKeyError | kCurrentKeyUncommitted | kKeepSDAndClearPut | kKeepTsHistory | kKeepSDForConflictCheck
  | kKeepSDForSnapshot | kKeepSD | kKeepDel | kNewUserKey | kRangeDeletion.

(** A slice that points into the input, or into [current_key_]. *)
Inductive KeySlice := OfInput (k : bytes) | OfCurrent.

Module CompactionIterator.
Section Iterator.
Context {B : Type}.

(** [reads_] counts the reads of the flags of other threads. *)
Record t := mk {
  input_ : list Entry; reads_ : nat; released_snapshots_ : list Z; validity_info_ : option ValidContext; key_ : KeySlice;
  value_ : bytes; blob_value_ : bytes; status_ : Status; ikey_ : ParsedInternalKey; has_current_user_key_ : bool; at_next_ : bool;
  current_key_ : bytes; current_user_key_ : bytes; curr_ts_ : bytes; current_user_key_sequence_ : Z;
  current_user_key_snapshot_ : Z; has_outputted_key_ : bool; clear_and_output_next_key_ : bool;
  merge_out_iter_ : list (bytes * bytes); merge_until_status_ : Status; blob_builder_ : B; level_ptrs_ : list Z;
  current_key_committed_ : bool; cmp_with_history_ts_low_ : Z; last_key_seq_zeroed_ : bool; output_to_penultimate_level_ : bool;
  is_range_del_ : bool
}.
#[local] Ltac field s p x q := tryif constr_eq p q then exact x else exact (q s).
#[local] Ltac update s p x := refine (mk _ _ _ _ _ _ _ _ _ _ _ _ _ _ _ _ _ _ _ _ _ _ _ _ _ _ _);
  [field s p x input_|field s p x reads_|field s p x released_snapshots_|field s p x validity_info_|field s p x key_|
   field s p x value_|field s p x blob_value_|field s p x status_|field s p x ikey_|field s p x has_current_user_key_|
   field s p x at_next_|field s p x current_key_|field s p x current_user_key_|field s p x curr_ts_|
   field s p x current_user_key_sequence_|field s p x current_user_key_snapshot_|field s p x has_outputted_key_|
   field s p x clear_and_output_next_key_|field s p x merge_out_iter_|field s p x merge_until_status_|field s p x blob_builder_|
   field s p x level_ptrs_|field s p x current_key_committed_|field s p x cmp_with_history_ts_low_|
   field s p x last_key_seq_zeroed_|field s p x output_to_penultimate_level_|field s p x is_range_del_].
Definition set_input (s : t) (x : list Entry) : t := ltac:(update s input_ x).
Definition set_reads (s : t) (x : nat) : t := ltac:(update s reads_ x).
Definition set_released_snapshots (s : t) (x : list Z) : t := ltac:(update s released_snapshots_ x).
Definition set_validity_info (s : t) (x : option ValidContext) : t := ltac:(update s validity_info_ x).
Definition set_key (s : t) (x : KeySlice) : t := ltac:(update s key_ x).
Definition set_value (s : t) (x : bytes) : t := ltac:(update s value_ x).
Definition set_blob_value (s : t) (x : bytes) : t := ltac:(update s blob_value_ x).
Definition set_status (s : t) (x : Status) : t := ltac:(update s status_ x).
Definition set_ikey (s : t) (x : ParsedInternalKey) : t := ltac:(update s ikey_ x).
Definition set_has_current_user_key (s : t) (x : bool) : t := ltac:(update s has_current_user_key_ x).
Definition set_at_next (s : t) (x : bool) : t := ltac:(update s at_next_ x).
Definition set_current_key (s : t) (x : bytes) : t := ltac:(update s current_key_ x).
Definition set_current_user_key (s : t) (x : bytes) : t := ltac:(update s current_user_key_ x).
Definition set_curr_ts (s : t) (x : bytes) : t := ltac:(update s curr_ts_ x).
Definition set_current_user_key_sequence (s : t) (x : Z) : t := ltac:(update s current_user_key_sequence_ x).
Definition set_current_user_key_snapshot (s : t) (x : Z) : t := ltac:(update s current_user_key_snapshot_ x).
Definition set_has_outputted_key (s : t) (x : bool) : t := ltac:(update s has_outputted_key_ x).
Definition set_clear_and_output_next_key (s : t) (x : bool) : t := ltac:(update s clear_and_output_next_key_ x).
Definition set_merge_out_iter (s : t) (x : list (bytes * bytes)) : t := ltac:(update s merge_out_iter_ x).
Definition set_merge_until_status (s : t) (x : Status) : t := ltac:(update s merge_until_status_ x).
Definition set_blob_builder (s : t) (x : B) : t := ltac:(update s blob_builder_ x).
Definition set_level_ptrs (s : t) (x : list Z) : t := ltac:(update s level_ptrs_ x).
Definition set_current_key_committed (s : t) (x : bool) : t := ltac:(update s current_key_committed_ x).
Definition set_cmp_with_history_ts_low (s : t) (x : Z) : t := ltac:(update s cmp_with_history_ts_low_ x).
Definition set_last_key_seq_zeroed (s : t) (x : bool) : t := ltac:(update s last_key_seq_zeroed_ x).
Definition set_output_to_penultimate_level (s : t) (x : bool) : t := ltac:(update s output_to_penultimate_level_ x).
Definition set_is_range_del (s : t) (x : bool) : t := ltac:(update s is_range_del_ x).
End Iterator.
#[global] Arguments t : clear implicits.

Section Operations.
Context {B : Type} (cmp_ : Comparator) (o : CompactionIteratorOptions B).
#[local] Abbreviation t := (t B).
#[local] Abbreviation type := DbFormat.type.

(** ** The fields that the constructor computes *)

Definition bottommost_level_ : bool :=
  match compaction_ o with None => false | Some c => bottommost_level c && negb (allow_ingest_behind c) end.
Definition visible_at_tip_ : bool := match snapshots_ o with [] => true | _ => false end.
Definition earliest_snapshot_ : Z := match snapshots_ o with [] => kMaxSequenceNumber | s :: _ => s end.
Definition level_ : Z := match compaction_ o with None => 0 | Some c => level c end.
#[local] Abbreviation timestamp_size_ := (timestamp_size cmp_).

Fixpoint increasing (l : list Z) : bool :=
  match l with a :: (b :: _) as l' => (a <? b) && increasing l' | _ => true end.
Definition New (input : list Entry) (blob_builder : B) : option t :=
  _ ← assertion (preserve_time_min_seqno_ o <=? preclude_last_level_min_seqno_ o);
  _ ← assertion (increasing (snapshots_ o));
  _ ← assertion ((timestamp_size_ =? 0) || match full_history_ts_low_ o with None => true | Some low => timestamp_size_ =? Zlen low end);
  let ptrs := match compaction_ o with None => [] | Some c => replicate (Z.to_nat (number_levels c)) 0 end in
  Some (mk input 0 [] None (OfInput []) [] [] Status_OK clear_parsed false false [] [] [] 0 0 false false [] Status_OK blob_builder ptrs
    false 0 false false false).

Definition Valid (s : t) : bool := match validity_info_ s with Some _ => true | None => false end.
Definition SetValid (s : t) (c : ValidContext) : t := set_validity_info s (Some c).
Definition Invalidate (s : t) : t := set_validity_info s None.
Definition key (s : t) : bytes := match key_ s with OfInput k => k | OfCurrent => current_key_ s end.
Definition current_output_user_key (s : t) : bytes := if is_range_del_ s then user_key (ikey_ s) else current_user_key_ s.

(** ** Snapshots *)

Definition KeyCommitted (seq : Z) : bool :=
  match snapshot_checker_ o with None => true | Some check => bool_decide (check seq (job_snapshot_ o) = kInSnapshot) end.
Definition DefinitelyInSnapshot (seq snapshot : Z) : bool :=
  (seq <=? snapshot) && match snapshot_checker_ o with None => true | Some check => bool_decide (check seq snapshot = kInSnapshot) end.
Definition DefinitelyNotInSnapshot (seq snapshot : Z) : bool :=
  (snapshot <? seq) || match snapshot_checker_ o with None => false | Some check => bool_decide (check seq snapshot = kNotInSnapshot) end.

(** The snapshot, the one before it and the released snapshots. *)
Fixpoint check_snapshots (check : Z → Z → SnapshotCheckerResult) (released : list Z) (seq : Z) (l : list Z) (prev : Z) : option (Z * Z * list Z) :=
  match l with
  | [] => Some (kMaxSequenceNumber, prev, released)
  | cur :: l =>
      _ ← assertion (seq <=? cur);
      if bool_decide (cur ∈ released) then check_snapshots check released seq l prev
      else match check seq cur with
           | kInSnapshot => Some (cur, prev, released)
           | kNotInSnapshot => check_snapshots check released seq l cur
           | kSnapshotReleased => check_snapshots check (cur :: released) seq l cur
           end
  end.
Definition findEarliestVisibleSnapshot (released : list Z) (seq : Z) : option (Z * Z * list Z) :=
  _ ← assertion (match snapshots_ o with [] => false | _ => true end);
  let n := count_while (λ x, x <? seq) (snapshots_ o) in
  let prev := match n with O => 0 | S n => default 0 (snapshots_ o !! n) end in
  _ ← assertion ((n =? 0)%nat || (prev <? seq));
  match snapshot_checker_ o with
  | None => Some (default kMaxSequenceNumber (snapshots_ o !! n), prev, released)
  | Some check => check_snapshots check released seq (drop n (snapshots_ o)) prev
  end.

(** ** The compaction filter *)

(** Set the type of the current entry, in [ikey_] and in [current_key_]. *)
Definition retype (s : t) (ty : Z) : t :=
  let s := set_ikey s (mkParsed (user_key (ikey_ s)) (sequence (ikey_ s)) ty) in
  set_current_key s (UpdateInternalKey (current_key_ s) (sequence (ikey_ s)) ty).
Definition fail_with (s : t) (st : Status) : t := Invalidate (set_status s st).

(** The integrated BlobDB reads the value of a blob for the filter. *)
Definition fetch_for_filter (s : t) : option (bool * t) :=
  match compaction_ o with
  | None => Some (false, fail_with s (Status_Corruption "Unexpected blob index outside of compaction"))
  | Some _ =>
      '(st, blob_index) ← BlobIndex.DecodeFrom BlobIndex.New (value_ s);
      if negb (ok st) then Some (false, fail_with s st)
      else
        let '(st, v) := FetchBlob o (user_key (ikey_ s)) blob_index in
        if negb (ok st) then Some (false, fail_with s st) else Some (true, set_blob_value s v)
  end.
(** The decision, the new value, the new columns and the key to skip to, or none if an
    error was found. *)
Definition FilterResult : Type := CompactionFilter.Decision * bytes * list WideColumn * bytes.
Definition filter_decision (f : CompactionFilter.t) (s : t) : option (option FilterResult * t) :=
  let stacked := CompactionFilter.IsStackedBlobDbInternalCompactionFilter f in
  let is_blob := type (ikey_ s) =? kTypeBlobIndex in
  let filter_key := if negb is_blob || negb stacked then user_key (ikey_ s) else key s in
  let '(decision, new_value, skip_until) :=
    if is_blob then CompactionFilter.FilterBlobByKey f level_ filter_key else (CompactionFilter.kUndetermined, [], []) in
  if negb (bool_decide (decision = CompactionFilter.kUndetermined)) then Some (Some (decision, new_value, [], skip_until), s)
  else
    '(found, s) ← (if is_blob && negb stacked then fetch_for_filter s else Some (true, s));
    if negb found then Some (None, s)
    else if negb (type (ikey_ s) =? kTypeWideColumnEntity) then
      let value_type := if is_blob && stacked then CompactionFilter.kBlobIndex else CompactionFilter.kValue in
      let existing_val := match blob_value_ s with [] => value_ s | v => v end in
      Some (Some (CompactionFilter.FilterV3 f level_ filter_key value_type (Some existing_val) None new_value skip_until), s)
    else
      let '(st, _, existing_columns) := Deserialize (value_ s) in
      if negb (ok st) then Some (None, fail_with s st)
      else Some (Some (CompactionFilter.FilterV3 f level_ filter_key CompactionFilter.kWideColumnEntity None (Some existing_columns)
                         new_value skip_until), s).

Definition column_le (a b : WideColumn) : Prop := slice_compare (column_name a) (column_name b) <= 0.
#[local] Instance column_le_dec : RelDecision column_le.
Proof. intros a b. unfold column_le. apply _. Defined.

(** Whether to go on, whether to skip, and up to which key. *)
Definition apply_decision (f : CompactionFilter.t) (s : t) (r : FilterResult) : bool * bool * bytes * t :=
  let '(decision, new_value, new_columns, skip_until) := r in
  let stacked := CompactionFilter.IsStackedBlobDbInternalCompactionFilter f in
  let go s := (true, false, [], s) in
  let fail st := (false, false, [], fail_with s st) in
  match decision with
  | CompactionFilter.kUndetermined => fail (Status_NotSupported "FilterV2/FilterV3 should never return kUndetermined")
  | CompactionFilter.kKeep => go s
  | CompactionFilter.kRemove => go (set_value (retype s kTypeDeletion) [])
  | CompactionFilter.kPurge => go (set_value (retype s kTypeSingleDeletion) [])
  | CompactionFilter.kChangeValue =>
      go (set_value (if negb (type (ikey_ s) =? kTypeValue) then retype s kTypeValue else s) new_value)
  | CompactionFilter.kRemoveAndSkipUntil =>
      if Compare cmp_ skip_until (user_key (ikey_ s)) <=? 0 then go s
      else (true, true, InternalKey.ConvertFromUserKey skip_until kMaxSequenceNumber kValueTypeForSeek, s)
  | CompactionFilter.kChangeBlobIndex =>
      if negb stacked then fail (Status_NotSupported "Only stacked BlobDB's internal compaction filter can return kChangeBlobIndex.")
      else go (set_value (if negb (type (ikey_ s) =? kTypeBlobIndex) then retype s kTypeBlobIndex else s) new_value)
  | CompactionFilter.kIOError =>
      if negb stacked then fail (Status_NotSupported "CompactionFilter for integrated BlobDB should not return kIOError")
      else fail (Status_IOError "Failed to access blob during compaction filter")
  | CompactionFilter.kChangeWideColumnEntity =>
      let '(st, new_value) := Serialize (merge_sort column_le new_columns) new_value in
      if negb (ok st) then fail st
      else go (set_value (if negb (type (ikey_ s) =? kTypeWideColumnEntity) then retype s kTypeWideColumnEntity else s) new_value)
  end.
Definition InvokeFilterIfNeeded (s : t) : option (bool * bool * bytes * t) :=
  match compaction_filter_ o with
  | None => Some (true, false, [], s)
  | Some f =>
      let ty := type (ikey_ s) in
      if negb (ty =? kTypeValue) && negb (ty =? kTypeBlobIndex) && negb (ty =? kTypeWideColumnEntity) then Some (true, false, [], s)
      else
        '(r, s) ← filter_decision f s;
        Some (match r with None => (false, false, [], s) | Some r => apply_decision f s r end)
  end.

(** ** The input *)

Definition AdvanceInputIter (s : t) : t := set_input s (tail (input_ s)).
Fixpoint seek_entries (l : list Entry) (target : bytes) : list Entry :=
  match l with
  | e :: l' => if InternalKeyComparator.Compare cmp_ (entry_key e) target <? 0 then seek_entries l' target else l
  | [] => []
  end.
Definition SkipUntil (s : t) (skip_until : bytes) : t := set_input s (seek_entries (input_ s) skip_until).
Definition IsPausingManualCompaction (s : t) : bool * t := (manual_compaction_canceled_ o (reads_ s), set_reads s (S (reads_ s))).
Definition IsShuttingDown (s : t) : bool * t := (shutting_down_ o (reads_ s), set_reads s (S (reads_ s))).
(** [IsPausingManualCompaction() || IsShuttingDown()] *)
Definition stopping (s : t) : bool * t :=
  let '(paused, s) := IsPausingManualCompaction s in if paused then (true, s) else IsShuttingDown s.

(** The next entry, if it can be parsed and has the user key of the current one. *)
Definition same_user_key (s : t) (e : Entry) : option ParsedInternalKey :=
  let '(st, next_ikey) := ParseInternalKey (entry_key e) in
  if ok st && EqualWithoutTimestamp cmp_ (user_key (ikey_ s)) (user_key next_ikey) then Some next_ikey else None.
Definition next_same_key (s : t) : option ParsedInternalKey :=
  match input_ s with [] => None | e :: _ => same_user_key s e end.
Fixpoint skip_sentinels (s : t) (l : list Entry) : list Entry :=
  match l with
  | e :: l' => if IsDeleteRangeSentinelKey e && match same_user_key s e with Some _ => true | None => false end then skip_sentinels s l' else l
  | [] => []
  end.
(** The versions of the current key in the same range of snapshots are skipped, unless
    another thread stops the compaction. *)
Fixpoint skip_stripe (s : t) (prev_snapshot : Z) (l : list Entry) : t :=
  let '(stop, s) := stopping s in
  if stop then set_input s l
  else match l with
       | [] => set_input s []
       | e :: l' =>
           match same_user_key s e with
           | Some next_ikey =>
               if (prev_snapshot =? 0) || IsDeleteRangeSentinelKey e || DefinitelyNotInSnapshot (sequence next_ikey) prev_snapshot
               then skip_stripe s prev_snapshot l' else set_input s l
           | None => set_input s l
           end
       end.

(** ** The user key *)

Definition UpdateTimestampAndCompareWithFullHistoryLow (s : t) : t :=
  if timestamp_size_ =? 0 then s
  else
    let ts := ExtractTimestampFromUserKey (user_key (ikey_ s)) timestamp_size_ in
    let s := set_curr_ts s ts in
    match full_history_ts_low_ o with None => s | Some low => set_cmp_with_history_ts_low s (CompareTimestamp cmp_ ts low) end.

(** The key was not seen before, or with another timestamp. *)
Definition first_occurrence (s : t) (user_key_equal_without_ts : bool) : option (bool * bool * bytes * t) :=
  let has := has_current_user_key_ s in
  let s := set_key (set_current_key s (key s)) OfCurrent in
  let prev_cmp_with_ts_low :=
    match full_history_ts_low_ o, curr_ts_ s with None, _ | _, [] => 0 | Some low, ts => CompareTimestamp cmp_ ts low end in
  let s := UpdateTimestampAndCompareWithFullHistoryLow s in
  let s :=
    if negb has || (timestamp_size_ =? 0) || match full_history_ts_low_ o with None => true | Some _ => false end ||
       negb user_key_equal_without_ts || (0 <=? cmp_with_history_ts_low_ s) || (0 <=? prev_cmp_with_ts_low)
    then set_has_current_user_key (set_current_user_key_snapshot (set_current_user_key_sequence s kMaxSequenceNumber) 0) true
    else s in
  let s := set_current_user_key s (user_key (ikey_ s)) in
  let s := set_last_key_seq_zeroed (set_has_outputted_key s false) false in
  let s := set_current_key_committed s (KeyCommitted (sequence (ikey_ s))) in
  if current_key_committed_ s then InvokeFilterIfNeeded s else Some (true, false, [], s).
Definition next_version (s : t) : option (bool * bool * bytes * t) :=
  let s := set_key (set_current_key s (UpdateInternalKey (current_key_ s) (sequence (ikey_ s)) (type (ikey_ s)))) OfCurrent in
  let s := set_ikey s (mkParsed (ExtractUserKey (current_key_ s)) (sequence (ikey_ s)) (type (ikey_ s))) in
  if current_key_committed_ s then Some (true, false, [], s)
  else
    _ ← assertion (match snapshot_checker_ o with None => false | Some _ => true end);
    let s := set_current_key_committed s (KeyCommitted (sequence (ikey_ s))) in
    if current_key_committed_ s then InvokeFilterIfNeeded s else Some (true, false, [], s).
Definition update_user_key (s : t) : option (bool * bool * bytes * t) :=
  let user_key_equal_without_ts := has_current_user_key_ s && EqualWithoutTimestamp cmp_ (user_key (ikey_ s)) (current_user_key_ s) in
  let cmp_ts :=
    if has_current_user_key_ s && negb (timestamp_size_ =? 0)
    then CompareTimestamp cmp_ (ExtractTimestampFromUserKey (user_key (ikey_ s)) timestamp_size_) (curr_ts_ s) else 0 in
  if negb (has_current_user_key_ s) || negb user_key_equal_without_ts || negb (cmp_ts =? 0)
  then first_occurrence s user_key_equal_without_ts else next_version s.

(** ** The rules *)

(** What a rule does: go on, perhaps after skipping to a key, or return. *)
Inductive Rule := Done (s : t) (skip_until : option bytes) | Stop (s : t).

(** A value after a single deletion that is kept for the check of write conflicts. *)
Definition clear_put (s : t) (last_snapshot : Z) : option Rule :=
  let ty := type (ikey_ s) in
  _ ← assertion ((ty =? kTypeValue) || (ty =? kTypeBlobIndex) || (ty =? kTypeWideColumnEntity));
  _ ← assertion (negb (current_user_key_snapshot_ s <? last_snapshot));
  let s := if (ty =? kTypeBlobIndex) || (ty =? kTypeWideColumnEntity) then retype s kTypeValue else s in
  Some (Done (set_clear_and_output_next_key (SetValid (set_value s []) kKeepSDAndClearPut) false) None).

(** [KeyNotExistsBeyondOutputLevel], after the tests that precede it in a condition. *)
Definition key_not_beyond (s : t) (guard : bool) : bool * t :=
  match compaction_ o with
  | Some c =>
      if guard && DefinitelyInSnapshot (sequence (ikey_ s)) earliest_snapshot_ then
        let '(b, ptrs) := KeyNotExistsBeyondOutputLevel c (user_key (ikey_ s)) (level_ptrs_ s) in (b, set_level_ptrs s ptrs)
      else (false, s)
  | None => (false, s)
  end.

(** A single deletion with the next version of its key. *)
Definition single_deletion_pair (s : t) (next_ikey : ParsedInternalKey) (prev_snapshot : Z) (eligible : bool) : option Rule :=
  if last_key_seq_zeroed_ s then
    _ ← assertion bottommost_level_;
    Some (Done (AdvanceInputIter s) None)
  else if (prev_snapshot =? 0) || DefinitelyNotInSnapshot (sequence next_ikey) prev_snapshot then
    if type next_ikey =? kTypeSingleDeletion then Some (Done s None)
    else if type next_ikey =? kTypeDeletion then
      Some (if enforce_single_del_contracts_ o
            then Stop (fail_with s (Status_Corruption "Found SD and type: 0 on the same key, violating the contract of SingleDelete. Check your application to make sure the application does not mix SingleDelete and Delete for the same key. If you are using write-prepared/write-unprepared transactions, and use SingleDelete to delete certain keys, then make sure TransactionDBOptions::rollback_deletion_type_callback is configured properly. Mixing SD and DEL can lead to undefined behaviors"))
            else Done s None)
    else if negb eligible then Some (Done (SetValid s kKeepTsHistory) None)
    else if has_outputted_key_ s || DefinitelyInSnapshot (sequence (ikey_ s)) (earliest_write_conflict_snapshot_ o) ||
            ((earliest_snapshot_ <? earliest_write_conflict_snapshot_ o) && DefinitelyInSnapshot (sequence (ikey_ s)) earliest_snapshot_)
    then Some (Done (AdvanceInputIter s) None)
    else Some (Done (set_clear_and_output_next_key (SetValid s kKeepSDForConflictCheck) true) None)
  else Some (Done (SetValid s kKeepSDForSnapshot) None).
(** A single deletion without one. *)
Definition single_deletion_alone (s : t) (eligible : bool) : option Rule :=
  let s := set_has_current_user_key s false in
  let '(gone, s) := key_not_beyond s true in
  if gone && eligible then Some (Done s None)
  else if last_key_seq_zeroed_ s then
    _ ← assertion bottommost_level_;
    Some (Done s None)
  else Some (Done (SetValid s kKeepSD) None).
Definition single_deletion (s : t) (prev_snapshot : Z) : option Rule :=
  let eligible := (timestamp_size_ =? 0) ||
    match full_history_ts_low_ o with None => false | Some _ => cmp_with_history_ts_low_ s <? 0 end in
  let s := AdvanceInputIter s in
  let s := set_input s (skip_sentinels s (input_ s)) in
  r ← (match next_same_key s with
       | Some next_ikey =>
           _ ← assertion (match input_ s with e :: _ => negb (IsDeleteRangeSentinelKey e) | [] => true end);
           single_deletion_pair s next_ikey prev_snapshot eligible
       | None => single_deletion_alone s eligible
       end);
  Some (match r with Done s skip => Done (if Valid s then set_at_next s true else s) skip | Stop s => Stop s end).

(** A deletion at the bottommost level, after a snapshot. The assertion reads
    [level_ptrs_] and leaves it as a build without assertions does. *)
Definition bottommost_deletion (s : t) (prev_snapshot : Z) : option Rule :=
  _ ← assertion (match compaction_ o with
                 | None => true
                 | Some c => fst (KeyNotExistsBeyondOutputLevel c (user_key (ikey_ s)) (level_ptrs_ s))
                 end);
  let s := AdvanceInputIter s in
  let s := skip_stripe s prev_snapshot (input_ s) in
  Some (Done (match next_same_key s with Some _ => set_at_next (SetValid s kKeepDel) true | None => s end) None).

Definition merge_entry (s : t) (prev_snapshot : Z) : option Rule :=
  if negb (HasOperator o) then Some (Stop (set_status s (Status_InvalidArgument "merge_operator is not properly initialized.")))
  else
    let m := MergeUntil o (input_ s) prev_snapshot bottommost_level_ in
    let s := set_merge_out_iter (set_merge_until_status (set_input s (merge_rest m)) (merge_status m)) (merge_output m) in
    if negb (ok (merge_status m)) && negb (IsMergeInProgress (merge_status m)) then Some (Stop (set_status s (merge_status m)))
    else
      match merge_output m with
      | (k, v) :: _ =>
          let '(st, ikey) := ParseInternalKey k in
          _ ← assertion (ok st);
          let s := set_key (set_current_key (set_value s v) (UpdateInternalKey (current_key_ s) (sequence ikey) (type ikey))) OfCurrent in
          Some (Done (SetValid (set_ikey s (mkParsed (ExtractUserKey (current_key_ s)) (sequence ikey) (type ikey))) kMerge2) None)
      | [] => Some (Done (set_has_current_user_key s false) (FilteredUntil m))
      end.

Definition new_stripe (s : t) : t :=
  if ((timestamp_size_ =? 0) || (cmp_with_history_ts_low_ s <? 0)) && ShouldDelete o (key s) then AdvanceInputIter s else SetValid s kNewUserKey.

(** The rules in their order, for an entry that is committed. *)
Definition apply_rules (s : t) (skip_until : option bytes) : option Rule :=
  let last_sequence := current_user_key_sequence_ s in
  let s := set_current_user_key_sequence s (sequence (ikey_ s)) in
  let last_snapshot := current_user_key_snapshot_ s in
  '(snapshot, prev_snapshot, released) ←
    (if visible_at_tip_ then Some (earliest_snapshot_, 0, released_snapshots_ s)
     else findEarliestVisibleSnapshot (released_snapshots_ s) (sequence (ikey_ s)));
  let s := set_released_snapshots (set_current_user_key_snapshot s snapshot) released in
  let ty := type (ikey_ s) in
  let deletion := (ty =? kTypeDeletion) || ((ty =? kTypeDeletionWithTimestamp) && (cmp_with_history_ts_low_ s <? 0)) in
  match skip_until with
  | Some _ => Some (Done s skip_until)
  | None =>
      if clear_and_output_next_key_ s then clear_put s last_snapshot
      else if ty =? kTypeSingleDeletion then single_deletion s prev_snapshot
      else if (last_snapshot =? snapshot) || ((0 <? last_snapshot) && (last_snapshot <? snapshot)) then
        _ ← assertion (negb (last_sequence <? current_user_key_sequence_ s));
        Some (Done (AdvanceInputIter s) None)
      else
        let '(obsolete, s) := key_not_beyond s deletion in
        if obsolete then Some (Done (AdvanceInputIter s) None)
        else if deletion && bottommost_level_ then bottommost_deletion s prev_snapshot
        else if ty =? kTypeMerge then merge_entry s prev_snapshot
        else Some (Done (new_stripe s) None)
  end.

(** ** [NextFromInput] *)

(** One turn of the loop: go on, leave it, or return. *)
Inductive Turn := Again (s : t) | Break (s : t) | Return (s : t).

Definition turn (s : t) (e : Entry) : option Turn :=
  let s := set_key s (OfInput (entry_key e)) in
  let s := set_is_range_del (set_blob_value (set_value s (entry_value e)) []) (IsDeleteRangeSentinelKey e) in
  let '(pik_status, ikey) := ParseInternalKey (entry_key e) in
  let s := set_ikey s ikey in
  if negb (ok pik_status) then
    if expect_valid_internal_key_ o then Some (Return (set_status s pik_status))
    else
      let s := set_has_current_user_key (set_key (set_current_key s (key s)) OfCurrent) false in
      let s := set_current_user_key_snapshot (set_current_user_key_sequence s kMaxSequenceNumber) 0 in
      Some (Break (SetValid s kParseKeyError))
  else if is_range_del_ s then Some (Break (SetValid s kRangeDeletion))
  else
    '(go, need_skip, skip_until, s) ← update_user_key s;
    if negb go then Some (Break s)
    else if negb (current_key_committed_ s) then
      _ ← assertion (match snapshot_checker_ o with None => false | Some _ => true end);
      Some (Break (SetValid s kCurrentKeyUncommitted))
    else
      r ← apply_rules s (if need_skip : bool then Some skip_until else None);
      Some (match r with
            | Done s None => Again s
            | Done s (Some skip_until) => Again (SkipUntil s skip_until)
            | Stop s => Return s
            end).

(** The state, and whether the loop was left. *)
Fixpoint NextFromInput_loop (fuel : nat) (s : t) : option (bool * t) :=
  match fuel with
  | O => None
  | S fuel =>
      if Valid s then Some (true, s)
      else match input_ s with
           | [] => Some (true, s)
           | e :: _ =>
               let '(stop, s) := stopping s in
               if stop then Some (true, s)
               else
                 r ← turn s e;
                 match r with Again s => NextFromInput_loop fuel s | Break s => Some (true, s) | Return s => Some (false, s) end
           end
  end.
Definition NextFromInput (s : t) : option t :=
  let s := Invalidate (set_at_next s false) in
  '(left_loop, s) ← NextFromInput_loop (S (S (length (input_ s)))) s;
  if negb left_loop then Some s
  else
    let '(shutting_down, s) := if Valid s then (false, s) else IsShuttingDown s in
    let s := if shutting_down then set_status s Status_ShutdownInProgress else s in
    let '(paused, s) := IsPausingManualCompaction s in
    let s := if paused then set_status s Status_ManualCompactionPaused else s in
    Some (match input_ s with [] => if IsCorruption (input_status o) then set_status s (input_status o) else s | _ => s end).

(** ** The output *)

Definition ExtractLargeValueIfNeededImpl (s : t) : bool * t :=
  match blob_file_builder_ o with
  | None => (false, s)
  | Some add =>
      let '(b, st, blob_index) := add (blob_builder_ s) (current_output_user_key s) (value_ s) in
      let s := set_blob_builder s b in
      if negb (ok st) then (false, fail_with s st)
      else match blob_index with [] => (false, s) | _ => (true, set_value s blob_index) end
  end.
Definition ExtractLargeValueIfNeeded (s : t) : option t :=
  _ ← assertion (type (ikey_ s) =? kTypeValue);
  let '(extracted, s) := ExtractLargeValueIfNeededImpl s in
  Some (if extracted then retype s kTypeBlobIndex else s).

Definition GarbageCollectBlobIfNeeded (s : t) : option t :=
  _ ← assertion (type (ikey_ s) =? kTypeBlobIndex);
  match compaction_ o with
  | None => Some s
  | Some c =>
      if enable_blob_garbage_collection c then
        '(st, blob_index) ← BlobIndex.DecodeFrom BlobIndex.New (value_ s);
        if negb (ok st) then Some (fail_with s st)
        else
          file_number ← BlobIndex.file_number blob_index;
          if blob_garbage_collection_cutoff_file_number_ o <=? file_number then Some s
          else
            let '(st, v) := FetchBlob o (current_output_user_key s) blob_index in
            if negb (ok st) then Some (fail_with s st)
            else
              let '(extracted, s) := ExtractLargeValueIfNeededImpl (set_value (set_blob_value s v) v) in
              Some (if extracted then s else retype s kTypeValue)
      else match compaction_filter_ o with
           | Some f =>
               if CompactionFilter.IsStackedBlobDbInternalCompactionFilter f then
                 let '(decision, v) := CompactionFilter.PrepareBlobOutput f (current_output_user_key s) (value_ s) in
                 Some (match decision with
                       | CompactionFilter.kBlobCorruption => fail_with s (Status_Corruption "Corrupted blob reference encountered during GC")
                       | CompactionFilter.kBlobIOError => fail_with s (Status_IOError "Could not relocate blob during GC")
                       | CompactionFilter.kBlobChangeValue => set_value s v
                       | CompactionFilter.kBlobKeep => s
                       end)
               else Some s
           | None => Some s
           end
  end.

Definition DecideOutputLevel (c : CompactionProxy) (s : t) : option t :=
  _ ← assertion (SupportsPerKeyPlacement c);
  let seq := sequence (ikey_ s) in
  Some (if (preclude_last_level_min_seqno_ o <? seq) || (earliest_snapshot_ <? seq) then
          if WithinPenultimateLevelOutputRange c (user_key (ikey_ s)) then set_output_to_penultimate_level s true
          else
            let s := set_output_to_penultimate_level s false in
            if earliest_snapshot_ <? seq
            then set_status s (Status_Corruption "Unsafe to store Seq later than snapshot in the last level if per_key_placement is enabled")
            else s
        else set_output_to_penultimate_level s false).

(** [current_key_.UpdateInternalKey(seq, type, &ts)]: the timestamp is replaced too. *)
Definition update_key_and_timestamp (k : bytes) (seq ty : Z) (ts : bytes) : bytes :=
  ztake (Zlen k - kNumInternalBytes - Zlen ts) k ++ ts ++ EncodeFixed64 (PackSequenceAndType seq ty).

(** The sequence number of an entry that every snapshot sees, and with nothing below it,
    is set to zero. *)
Definition zero_sequence (s : t) : option t :=
  let ty := type (ikey_ s) in
  _ ← assertion (negb ((ty =? kTypeDeletion) || ((ty =? kTypeSingleDeletion) && (timestamp_size_ =? 0))));
  let s := set_last_key_seq_zeroed (set_ikey s (mkParsed (user_key (ikey_ s)) 0 ty)) true in
  Some (if timestamp_size_ =? 0 then set_current_key s (UpdateInternalKey (current_key_ s) 0 ty)
        else match full_history_ts_low_ o with
             | Some _ =>
                 if cmp_with_history_ts_low_ s <? 0 then
                   let ts := replicate (Z.to_nat timestamp_size_) 0 in
                   set_current_key (set_ikey s (SetTimestamp (ikey_ s) ts)) (update_key_and_timestamp (current_key_ s) 0 ty ts)
                 else s
             | None => s
             end).
Definition PrepareOutput (s : t) : option t :=
  if negb (Valid s) then Some s
  else
    s ← (if is_range_del_ s then Some s
         else if type (ikey_ s) =? kTypeValue then ExtractLargeValueIfNeeded s
         else if type (ikey_ s) =? kTypeBlobIndex then GarbageCollectBlobIfNeeded s
         else Some s);
    match compaction_ o with
    | None => Some s
    | Some c =>
        s ← (if SupportsPerKeyPlacement c then DecideOutputLevel c s else Some s);
        if Valid s && negb (allow_ingest_behind c) && bottommost_level_ && DefinitelyInSnapshot (sequence (ikey_ s)) earliest_snapshot_ &&
           negb (type (ikey_ s) =? kTypeMerge) && current_key_committed_ s && negb (output_to_penultimate_level_ s) &&
           (sequence (ikey_ s) <? preserve_time_min_seqno_ o) && negb (is_range_del_ s)
        then zero_sequence s else Some s
    end.

(** ** Movements *)

Definition SeekToFirst (s : t) : option t := s ← NextFromInput s; PrepareOutput s.

(** The next entry of a merge. *)
Definition next_merged (s : t) (k v : bytes) : option t :=
  let '(st, ikey) := ParseInternalKey k in
  _ ← assertion (ok st);
  let current :=
    if timestamp_size_ =? 0 then UpdateInternalKey (current_key_ s) (sequence ikey) (type ikey)
    else update_key_and_timestamp (current_key_ s) (sequence ikey) (type ikey) (GetTimestamp ikey timestamp_size_) in
  let s := set_key (set_current_key (set_value s v) current) OfCurrent in
  Some (SetValid (set_ikey s (mkParsed (ExtractUserKey current) (sequence ikey) (type ikey))) kMerge1).
Definition Next (s : t) : option t :=
  s ← (match merge_out_iter_ s with
       | _ :: rest =>
           let s := set_merge_out_iter s rest in
           match rest with
           | (k, v) :: _ => next_merged s k v
           | [] => NextFromInput (if IsMergeInProgress (merge_until_status_ s) then set_has_current_user_key s false else s)
           end
       | [] => NextFromInput (if at_next_ s then s else AdvanceInputIter s)
       end);
  PrepareOutput (if Valid s then set_has_outputted_key s true else s).

(** The loop that writes a table: the entries that are put out. *)
Definition output (s : t) : Entry := mkEntry (key s) (value_ s) (is_range_del_ s).
Fixpoint outputs (fuel : nat) (s : t) : option (list Entry * t) :=
  if negb (Valid s) then Some ([], s)
  else match fuel with
       | O => None
       | S fuel => s' ← Next s; '(l, s') ← outputs fuel s'; Some (output s :: l, s')
       end.
Definition run (input : list Entry) (blob_builder : B) : option (list Entry * t) :=
  s ← New input blob_builder; s ← SeekToFirst s; outputs (length input) s.
End Operations.
End CompactionIterator.
