(* ===== verification/CompactionViews.v ===== *)
(** * What the snapshots see of a list of entries

    A reader at a sequence number sees, of the versions of a user key, the newest one
    that is not newer than itself, unless it is a deletion or is covered by a range
    tombstone. Snapshots divide the sequence numbers into stripes: a reader that sees one
    entry of a stripe sees the others too. This file has the ways in which a compaction
    may change a list of entries without a change in what any snapshot sees. *)

From Stdlib Require Import Sorting.Sorted.
From S2P Require Import Prelude SortedLists Status Slice Coding Comparator DbFormat WideColumns FileIndexer BlobIndex CompactionIterator.
From stdpp Require Import list.
#[local] Open Scope Z_scope.

(** ** Entries *)

Definition entry_user_key (e : Entry) : bytes := user_key (parsed_of (entry_key e)).
Definition entry_seq (e : Entry) : Z := sequence (parsed_of (entry_key e)).
Definition entry_type (e : Entry) : Z := DbFormat.type (parsed_of (entry_key e)).
Definition is_value (ty : Z) : bool := (ty =? kTypeValue) || (ty =? kTypeBlobIndex) || (ty =? kTypeWideColumnEntity).
Definition point_type (ty : Z) : bool := is_value ty || (ty =? kTypeDeletion) || (ty =? kTypeSingleDeletion).

(** ** Stripes *)

Section Stripes.
Context (snapshots : list Z).
#[local] Abbreviation index seq := (count_while (λ x, x <? seq) snapshots).
Definition stripe (seq : Z) : Z := default kMaxSequenceNumber (snapshots !! index seq).
(** The readers: the snapshots and the current state. *)
Definition reader (r : Z) : Prop := r ∈ snapshots ∨ r = kMaxSequenceNumber.
Definition snapshots_ok : Prop := StronglySorted Z.lt snapshots ∧ (∀ s, s ∈ snapshots → 0 <= s < kMaxSequenceNumber).
Context (Hs : snapshots_ok).

Lemma stripe_ge seq : seq <= kMaxSequenceNumber → seq <= stripe seq.
Proof using Hs.
  intros H. unfold stripe. destruct (snapshots !! _) as [x|] eqn:E; cbn; [|done]. apply count_while_at in E. apply Z.ltb_ge in E. lia.
Qed.
Lemma stripe_reader seq : reader (stripe seq).
Proof using.
  unfold stripe. destruct (snapshots !! _) as [x|] eqn:E; cbn; [left; by apply list_elem_of_lookup_2 in E|by right].
Qed.
(** The number zero stands for no stripe: no entry of the input may have this one. *)
Lemma stripe_pos seq : seq <= kMaxSequenceNumber → (0 ∈ snapshots → 0 < seq) → 0 < stripe seq.
Proof using Hs.
  intros Hm H0. pose proof (stripe_ge seq Hm). destruct (stripe_reader seq) as [H'|H']; [|rewrite H'; by vm_compute].
  destruct (Z.eq_dec (stripe seq) 0) as [E|]; [rewrite E in H'; specialize (H0 H'); lia|apply Hs in H'; lia].
Qed.
(** A reader sees an entry exactly if it is not before the entry's stripe. *)
Lemma stripe_le seq r : seq <= kMaxSequenceNumber → reader r → seq <= r ↔ stripe seq <= r.
Proof using Hs.
  intros Hm Hr. split; [|pose proof (stripe_ge seq Hm); lia]. intros Hle. unfold stripe.
  destruct Hr as [Hr| ->]; [|destruct (snapshots !! _) as [x|] eqn:E; cbn; [apply list_elem_of_lookup_2, Hs in E; lia|done]].
  destruct (list_elem_of_lookup_1 _ _ Hr) as [i Ei]. assert (index seq <= i)%nat as Hi.
  { apply Nat.nlt_ge. intros Hlt. apply (count_while_before _ _ i r Ei), Z.ltb_lt in Hlt. lia. }
  destruct (snapshots !! index seq) as [x|] eqn:E; cbn.
  - destruct (decide (index seq = i)) as [Heq|Hne]; [rewrite Heq, Ei in E; injection E; lia|].
    pose proof (sorted_lookup Z.lt snapshots (proj1 Hs) _ i x r E Ei ltac:(lia)). lia.
  - apply lookup_ge_None in E. apply lookup_lt_Some in Ei. lia.
Qed.
Lemma stripe_mono a b : a <= b → b <= kMaxSequenceNumber → stripe a <= stripe b.
Proof using Hs. intros Hab Hb. apply (proj1 (stripe_le a (stripe b) ltac:(lia) (stripe_reader b))). pose proof (stripe_ge b Hb). lia. Qed.
End Stripes.

(** ** Views *)

Section Views.
Context (c : Comparator).

(** A tombstone covers older entries of its range, for the readers that see it. *)
Definition covering (T : list RangeTombstone) (u : bytes) (seq r : Z) : bool :=
  existsb (λ t, (Compare c (start_key_ t) u <=? 0) && (Compare c u (end_key_ t) <? 0) && (seq <? seq_ t) && (seq_ t <=? r)) T.
Definition visible (r : Z) (u : bytes) (e : Entry) : bool :=
  negb (IsDeleteRangeSentinelKey e) && (Compare c (entry_user_key e) u =? 0) && (entry_seq e <=? r).
Definition seen (T : list RangeTombstone) (r : Z) (e : Entry) : option (Z * bytes) :=
  if is_value (entry_type e) && negb (covering T (entry_user_key e) (entry_seq e) r) then Some (entry_type e, entry_value e) else None.

(** Entries, each with the tombstones that are in force for it. *)
Definition Content : Type := list (Entry * list RangeTombstone).
Fixpoint look (r : Z) (u : bytes) (l : Content) : option (Z * bytes) :=
  match l with
  | [] => None
  | (e, T) :: l => if visible r u e then seen T r e else look r u l
  end.
Definition under (T : list RangeTombstone) (l : list Entry) : Content := map (λ e, (e, T)) l.
(** What a reader sees of a user key. *)
Definition view (T : list RangeTombstone) (r : Z) (u : bytes) (l : list Entry) : option (Z * bytes) := look r u (under T l).

Definition blind (r : Z) (u : bytes) (l : Content) : Prop := Forall (λ x, visible r u (fst x) = false) l.
Lemma look_blind r u l l' : blind r u l → look r u (l ++ l') = look r u l'.
Proof. induction 1 as [|[e T] l Hv _ IH]; [done|]. cbn in *. by rewrite Hv. Qed.
Lemma blind_or_seen r u l : blind r u l ∨ ∀ l', look r u (l ++ l') = look r u l.
Proof.
  induction l as [|[e T] l IH]; [left; constructor|]. cbn. destruct (visible r u e) eqn:E; [by right|].
  destruct IH as [H|H]; [left; by constructor|by right].
Qed.
(** Behind an entry that a reader sees nothing matters. *)
Lemma look_hidden r u A B B' : ¬ blind r u A → look r u (A ++ B) = look r u (A ++ B').
Proof. intros H. destruct (blind_or_seen r u A) as [|E]; [done|]. by rewrite !E. Qed.
Lemma look_same_tail r u A B B' : look r u B = look r u B' → look r u (A ++ B) = look r u (A ++ B').
Proof. intros H. destruct (blind_or_seen r u A) as [Hb|E]; [by rewrite !look_blind|by rewrite !E]. Qed.
Lemma look_under_filter r u (p : Entry → bool) T l B : (∀ e, e ∈ l → p e = false → visible r u e = false) →
  look r u (under T (List.filter p l) ++ B) = look r u (under T l ++ B).
Proof.
  induction l as [|e l IH]; intros H; [done|]. cbn. destruct (p e) eqn:E; cbn.
  - destruct (visible r u e); [done|]. apply IH. intros e' He'. apply H. by right.
  - rewrite (H e ltac:(left) E). apply IH. intros e' He'. apply H. by right.
Qed.
Lemma blind_under r u T l : blind r u (under T l) ↔ ∀ e, e ∈ l → visible r u e = false.
Proof.
  unfold blind, under. rewrite Forall_map, Forall_forall. done.
Qed.
End Views.

(** ** Sorted entries *)

Section Steps.
Context (wf : bytes → Prop) (c : Comparator) `{!ComparatorLaws wf c} (snapshots : list Z) (Hsn : snapshots_ok snapshots).
#[local] Abbreviation ikey_ok := (InternalKeyOrder.ikey_ok wf).
#[local] Abbreviation stripe := (stripe snapshots).
#[local] Abbreviation reader := (reader snapshots).

Definition same_key (u : bytes) (e : Entry) : bool := Compare c (entry_user_key e) u =? 0.
Definition version_of (u : bytes) (e : Entry) : bool := negb (IsDeleteRangeSentinelKey e) && same_key u e.
Definition single_del (e : Entry) : bool := entry_type e =? kTypeSingleDeletion.

Record entry_ok (e : Entry) : Prop := {
  eo_key : ikey_ok (entry_key e);
  eo_type : IsExtendedValueType (entry_type e) = true;
  eo_point : IsDeleteRangeSentinelKey e = false → point_type (entry_type e) = true
}.
(** Entries are in the order of their keys, and versions of a key have different
    sequence numbers. *)
Definition entry_before (a b : Entry) : Prop := InternalKeyComparator.Compare c (entry_key a) (entry_key b) <= 0 ∧
  (IsDeleteRangeSentinelKey a = false → IsDeleteRangeSentinelKey b = false → Compare c (entry_user_key a) (entry_user_key b) = 0 → entry_seq b < entry_seq a).
Definition entries_ok (l : list Entry) : Prop := Forall entry_ok l ∧ StronglySorted entry_before l.
(** The order of the entries of a table: of those that are no markers of tombstones. *)
Definition entry_lt (a b : Entry) : Prop :=
  IsDeleteRangeSentinelKey a = false → IsDeleteRangeSentinelKey b = false → InternalKeyComparator.Compare c (entry_key a) (entry_key b) < 0.

Lemma entry_parsed e : entry_ok e → wf (entry_user_key e) ∧ 0 <= entry_seq e <= kMaxSequenceNumber.
Proof using.
  intros [(Hl & Hb & Hu) _ _]. destruct (parsed_of_ok _ Hb Hl) as [(_ & Hs & _) _]. unfold entry_user_key, entry_seq.
  rewrite kMaxSequenceNumber_val. unfold is_u in Hs. split; [|lia]. unfold parsed_of. by destruct (UnPackSequenceAndType _).
Qed.
Lemma entry_lt_iff a b : entry_ok a → entry_ok b → InternalKeyComparator.Compare c (entry_key a) (entry_key b) < 0 ↔
  Compare c (entry_user_key a) (entry_user_key b) < 0 ∨ Compare c (entry_user_key a) (entry_user_key b) = 0 ∧
    (entry_seq b < entry_seq a ∨ entry_seq b = entry_seq a ∧ entry_type b < entry_type a).
Proof using ComparatorLaws0.
  intros [(La & Ba & Ua) _ _] [(Lb & Bb & Ub) _ _]. destruct (parsed_of_ok _ Ba La) as [Pa Ea], (parsed_of_ok _ Bb Lb) as [Pb Eb].
  rewrite <- Ea, <- Eb, (InternalKeyOrder.Compare_parsed c _ _ Pa Pb). unfold InternalKeyComparator.CompareParsed.
  fold (entry_user_key a) (entry_user_key b) (entry_seq a) (entry_seq b) (entry_type a) (entry_type b). repeat case_match; lia.
Qed.
Lemma entries_order a b : entry_ok a → entry_ok b → InternalKeyComparator.Compare c (entry_key a) (entry_key b) <= 0 →
  Compare c (entry_user_key a) (entry_user_key b) <= 0 ∧ (Compare c (entry_user_key a) (entry_user_key b) = 0 → entry_seq b <= entry_seq a).
Proof using ComparatorLaws0.
  intros [(La & Ba & Ua) _ _] [(Lb & Bb & Ub) _ _] H. destruct (parsed_of_ok _ Ba La) as [Pa Ea], (parsed_of_ok _ Bb Lb) as [Pb Eb].
  rewrite <- Ea, <- Eb, (InternalKeyOrder.Compare_parsed c _ _ Pa Pb) in H. unfold InternalKeyComparator.CompareParsed in H.
  fold (entry_user_key a) (entry_user_key b) (entry_seq a) (entry_seq b) in H. repeat case_match; lia.
Qed.

Lemma key_eq_trans a b d : wf a → wf b → wf d → Compare c a b = 0 → Compare c b d = 0 → Compare c a d = 0.
Proof using ComparatorLaws0. intros Wa Wb Wd H1 H2. pose proof (cmp_eq_l (cmp := Compare c) a b d Wa Wb Wd H1). lia. Qed.
(** Two versions of a key, by their user keys. *)
Lemma same_key_spec u e : same_key u e = true ↔ Compare c (entry_user_key e) u = 0.
Proof using. apply Z.eqb_eq. Qed.
Lemma same_key_cong u w e : wf u → wf w → entry_ok e → Compare c u w = 0 → same_key w e = same_key u e.
Proof using ComparatorLaws0.
  intros Wu Ww Ho E. destruct (entry_parsed e Ho) as [We _]. unfold same_key. apply eq_iff_eq_true. rewrite !Z.eqb_eq. split; intros H.
  - apply (key_eq_trans _ w); [done..|]. by apply cmp_flip_eq.
  - by apply (key_eq_trans _ u).
Qed.

(** ** Dead entries

    While a key is being read, the entries of the stripe that was read last, if there is
    one, that are not single deletions will be dropped. *)
Definition dead (u : bytes) (k : Z) (e : Entry) : bool := version_of u e && (stripe (entry_seq e) =? k) && negb (single_del e || (k =? 0)).
Definition live (cur : option (bytes * Z)) (l : list Entry) : list Entry :=
  match cur with None => l | Some (u, k) => List.filter (λ e, negb (dead u k e)) l end.
(** What has been read of the current key, as seen from the rest of the input. *)
Definition cur_ok (cur : option (bytes * Z)) (rest : list Entry) : Prop :=
  match cur with
  | None => True
  | Some (u, k) => wf u ∧ ∀ e, e ∈ rest → Compare c u (entry_user_key e) <= 0 ∧ (version_of u e = true → k = 0 ∨ stripe (entry_seq e) <= k)
  end.

Context (T T' : list RangeTombstone) (below : list Entry).
Definition content (out : list Entry) (cur : option (bytes * Z)) (rest : list Entry) : Content :=
  under T' out ++ under T (live cur rest) ++ under T below.
(** Two contents that look the same to every reader. *)
Definition same_views (l l' : Content) : Prop := ∀ r u, reader r → wf u → look c r u l = look c r u l'.

Lemma live_cons_live u k e rest : dead u k e = false → live (Some (u, k)) (e :: rest) = e :: live (Some (u, k)) rest.
Proof using. intros H. cbn. by rewrite H. Qed.
Lemma live_cons_dead u k e rest : dead u k e = true → live (Some (u, k)) (e :: rest) = live (Some (u, k)) rest.
Proof using. intros H. cbn. by rewrite H. Qed.
Lemma live_all u k rest : (∀ e, e ∈ rest → dead u k e = false) → live (Some (u, k)) rest = rest.
Proof using.
  induction rest as [|e rest IH]; intros H; [done|]. rewrite live_cons_live by (apply H; left). f_equal. apply IH. intros e' He'. apply H. by right.
Qed.
Lemma dead_visible u k r w e : entry_ok e → wf u → wf w → reader r → dead u k e = true → visible c r w e = true → Compare c u w = 0 ∧ k <= r.
Proof using All.
  intros Ho Wu Ww Hr Hd Hv. unfold dead, version_of, visible in *. rewrite !andb_true_iff, !Z.eqb_eq in Hv. rewrite !andb_true_iff, Z.eqb_eq, same_key_spec in Hd.
  destruct Hd as [[[_ Hu] <-] _], Hv as [[_ Hw] Hs%Z.leb_le]. destruct (entry_parsed e Ho) as [We Hq]. split.
  - apply (key_eq_trans _ (entry_user_key e)); [done..| |done]. by apply cmp_flip_eq.
  - by apply (proj1 (stripe_le snapshots Hsn (entry_seq e) r (proj2 Hq) Hr)).
Qed.

(** Dead entries that a reader does not see may be left out. *)
Lemma live_unseen u k rest r w B : Forall entry_ok rest → wf u → wf w → reader r → (Compare c u w = 0 → k = 0 ∨ r < k) →
  look c r w (under T (live (Some (u, k)) rest) ++ B) = look c r w (under T rest ++ B).
Proof using All.
  intros Ho Wu Ww Hr Hk. apply look_under_filter. intros e He Hd%negb_false_iff. destruct (visible c r w e) eqn:E; [|done].
  rewrite Forall_forall in Ho. destruct (dead_visible u k r w e (Ho e He) Wu Ww Hr Hd E) as [H1 H2]. specialize (Hk H1).
  unfold dead in Hd. rewrite !andb_true_iff, negb_true_iff, orb_false_iff in Hd. destruct Hd as [_ [_ Hs%Z.eqb_neq]]. lia.
Qed.

(** An entry that is put out looks to the readers like the one that was read. *)
Definition stands_for (e' e : Entry) : Prop :=
  IsDeleteRangeSentinelKey e' = false ∧ Compare c (entry_user_key e') (entry_user_key e) = 0 ∧ wf (entry_user_key e') ∧
  ∀ r, reader r → (entry_seq e' <= r ↔ entry_seq e <= r) ∧ (entry_seq e <= r → seen c T' r e' = seen c T r e).
Lemma stands_visible e' e r w : entry_ok e → IsDeleteRangeSentinelKey e = false → wf w → reader r → stands_for e' e → visible c r w e' = visible c r w e.
Proof using All.
  intros Ho Hn Ww Hr (Hn' & Hk & We' & Hs). destruct (entry_parsed e Ho) as [We _]. unfold visible. rewrite Hn, Hn'. cbn [negb andb].
  apply eq_iff_eq_true. rewrite !andb_true_iff, !Z.eqb_eq, !Z.leb_le. destruct (Hs r Hr) as [Hq _]. rewrite Hq.
  pose proof (cmp_eq_l (cmp := Compare c) _ _ w We' We Ww Hk). split; intros []; (split; [lia|done]).
Qed.

Section Step.
Context (out rest : list Entry) (e : Entry) (u : bytes) (k0 : Z).
Context (Hrest : Forall entry_ok rest) (He : entry_ok e) (Hpt : IsDeleteRangeSentinelKey e = false) (Hu : same_key u e = true).
Context (Hcur : cur_ok (Some (u, k0)) (e :: rest)) (Hseq : ∀ x, x ∈ rest → version_of u x = true → entry_seq x <= entry_seq e).
#[local] Abbreviation k := (stripe (entry_seq e)).

Lemma step_key : wf u ∧ Compare c (entry_user_key e) u = 0 ∧ wf (entry_user_key e) ∧ 0 <= entry_seq e <= kMaxSequenceNumber.
Proof using All. destruct Hcur as [W _], (entry_parsed e He). split_and!; try done; try lia. by apply same_key_spec. Qed.
Lemma step_old : k0 = 0 ∨ k <= k0.
Proof using All. destruct Hcur as [_ H]. destruct (H e ltac:(left)) as [_ Hv]. apply Hv. unfold version_of. by rewrite Hpt, Hu. Qed.
Lemma cur_next : cur_ok (Some (u, k)) rest.
Proof using All.
  destruct Hcur as [W H]. split; [done|]. intros x Hx. split; [apply (H x); by right|]. intros Hv. right. apply stripe_mono; [done|by apply Hseq|].
  apply step_key.
Qed.
(** A reader that does not see the entry sees none of its stripe, nor of the last one. *)
Lemma unseen_before r : reader r → r < entry_seq e → (k = 0 ∨ r < k) ∧ (k0 = 0 ∨ r < k0).
Proof using All.
  intros Hr Hlt. destruct step_key as (_ & _ & _ & Hq). assert (r < k).
  { apply Z.nle_gt. intros Hle. apply (proj2 (stripe_le snapshots Hsn (entry_seq e) r (proj2 Hq) Hr)) in Hle. lia. }
  destruct step_old; lia.
Qed.
Lemma step_invisible r w : wf w → visible c r w e = false → Compare c u w = 0 → r < entry_seq e.
Proof using All.
  intros Ww Hv Hw. destruct step_key as (Wu & Hk & We & _). unfold visible in Hv. rewrite Hpt in Hv. cbn [negb andb] in Hv.
  rewrite (proj2 (Z.eqb_eq _ _)) in Hv by (by apply (key_eq_trans _ u)). by apply Z.leb_gt in Hv.
Qed.

(** ** Putting out *)

Lemma emit_step e' : stands_for e' e → dead u k0 e = false →
  same_views (content (out ++ [e']) (Some (u, k)) rest) (content out (Some (u, k0)) (e :: rest)).
Proof using All.
  intros Hs Hd r w Hr Ww. unfold content. rewrite live_cons_live by done. unfold under at 1. rewrite map_app, <- app_assoc. cbn [map app].
  apply look_same_tail. cbn [under map app look]. rewrite (stands_visible e' e r w) by done. destruct step_key as (Wu & _ & _).
  destruct (visible c r w e) eqn:E.
  - unfold visible in E. rewrite !andb_true_iff, Z.leb_le in E. apply Hs; [done|apply E].
  - fold (under T (live (Some (u, k)) rest)) (under T (live (Some (u, k0)) rest)). rewrite !live_unseen; try done.
    + intros Hw. apply (unseen_before r Hr), (step_invisible r w Ww E Hw).
    + intros Hw. apply (unseen_before r Hr), (step_invisible r w Ww E Hw).
Qed.

(** ** Dropping *)

(** The reader sees nothing of the key: the first version is no value, or covered. *)
Definition nothing (r : Z) (l : Content) : Prop := ∀ w, wf w → Compare c u w = 0 → look c r w l = None.

(** The entry is dropped, and the input goes on with [rest'] at stripe [k]: a reader that
    saw the entry saw nothing and still does, the others see no difference. *)
Lemma drop_step rest' : dead u k0 e = false → Forall entry_ok rest' → (∀ r, reader r → entry_seq e <= r → seen c T r e = None) →
  (∀ r, reader r → entry_seq e <= r → nothing r (under T (live (Some (u, k)) rest') ++ under T below)) →
  (∀ r w, reader r → wf w → (Compare c u w = 0 → r < entry_seq e) → look c r w (under T rest' ++ under T below) = look c r w (under T rest ++ under T below)) →
  same_views (content out (Some (u, k)) rest') (content out (Some (u, k0)) (e :: rest)).
Proof using All.
  intros Hd Ho' Hs Hn Hw r w Hr Ww. unfold content. rewrite live_cons_live by done. apply look_same_tail. cbn [under map app look].
  fold (under T (live (Some (u, k0)) rest)). destruct step_key as (Wu & Hk & We & _). destruct (visible c r w e) eqn:E.
  - unfold visible in E. rewrite !andb_true_iff, Z.leb_le, Z.eqb_eq in E. destruct E as [[_ Ew] Eq]. rewrite Hs by done. apply Hn; [done..|].
    apply (key_eq_trans _ (entry_user_key e)); [done..| |done]. by apply cmp_flip_eq.
  - rewrite !live_unseen; try done; [apply Hw; try done; by apply step_invisible| |];
      (intros Hw'; apply (unseen_before r Hr), (step_invisible r w Ww E Hw')).
Qed.

(** No version of the key is seen. *)
Lemma nothing_seen r l : (∀ x Tx, (x, Tx) ∈ l → version_of u x = true → seen c Tx r x = None) → Forall (λ x, entry_ok (fst x)) l → nothing r l.
Proof using All.
  intros H Ho w Ww Hw. destruct step_key as (Wu & _). induction l as [|[x Tx] l IH]; [done|]. cbn. inversion_clear Ho as [|? ? Hx Hl].
  destruct (visible c r w x) eqn:E.
  - apply H; [left|]. unfold visible in E. rewrite !andb_true_iff in E. destruct E as [[Hn Hv] _].
    unfold version_of. rewrite Hn. cbn. by rewrite <- (same_key_cong u w x Wu Ww Hx Hw).
  - apply IH; [|done]. intros y Ty Hy. apply H. by right.
Qed.
Lemma seen_no_value Tx r x : is_value (entry_type x) = false → seen c Tx r x = None.
Proof using. unfold seen. by intros ->. Qed.

Context (Hbelow : Forall entry_ok below).
Lemma rest_elem x : x ∈ rest → entry_ok x.
Proof using Hrest. intros Hx. by apply (proj1 (Forall_forall _ _) Hrest). Qed.
Lemma below_elem x : x ∈ below → entry_ok x.
Proof using Hbelow. intros Hx. by apply (proj1 (Forall_forall _ _) Hbelow). Qed.
Lemma live_below_ok cur rest' : Forall entry_ok rest' → Forall (λ x, entry_ok (fst x)) (under T (live cur rest') ++ under T below).
Proof using All.
  intros Ho. apply Forall_app. unfold under. rewrite !Forall_map. split; [|done]. cbn. destruct cur as [[u0 k']|]; [|done]. cbn.
  rewrite Forall_forall in *. intros x Hx. apply Ho. apply list_elem_of_In, List.filter_In in Hx as [Hx _]. by apply list_elem_of_In.
Qed.
Lemma elem_of_under x Tx T0 l : (x, Tx) ∈ under T0 l ↔ x ∈ l ∧ Tx = T0.
Proof using. unfold under. rewrite list_elem_of_fmap. split; [intros (y & [= -> ->] & ?); done|intros [? ->]; by exists x]. Qed.
Lemma elem_of_live x u' k' l : x ∈ live (Some (u', k')) l ↔ x ∈ l ∧ dead u' k' x = false.
Proof using. cbn. rewrite list_elem_of_In, List.filter_In, <- list_elem_of_In, negb_true_iff. done. Qed.

(** A deletion that every reader sees, of a key that is not below. *)
Lemma drop_obsolete : 0 < k → dead u k0 e = false → is_value (entry_type e) = false → (∀ r, reader r → entry_seq e <= r) →
  (∀ x, x ∈ below → version_of u x = false) → same_views (content out (Some (u, k)) rest) (content out (Some (u, k0)) (e :: rest)).
Proof using All.
  intros Hpos Hd Hv Hall Hno. apply drop_step; try done; [intros; by apply seen_no_value|]. intros r Hr Hle. apply nothing_seen; [|by apply live_below_ok].
  intros x Tx [Hx|Hx]%elem_of_app Hver; apply elem_of_under in Hx as [Hx ->]; [|by rewrite (Hno x Hx) in Hver].
  apply elem_of_live in Hx as [Hx Hdx]. apply seen_no_value. unfold dead in Hdx. rewrite Hver in Hdx. cbn [andb] in Hdx.
  destruct (entry_parsed x (rest_elem x Hx)) as [_ Hq]. destruct step_key as (_ & _ & _ & Hqe).
  assert (stripe (entry_seq x) = k) as E.
  { apply Z.le_antisymm; [apply stripe_mono; [done|by apply Hseq|lia]|].
    apply (proj1 (stripe_le snapshots Hsn (entry_seq e) _ (proj2 Hqe) (stripe_reader snapshots (entry_seq x)))). apply Hall, stripe_reader. }
  rewrite E, Z.eqb_refl in Hdx. cbn [andb] in Hdx. rewrite (proj2 (Z.eqb_neq k 0)), orb_false_r in Hdx by lia. apply negb_false_iff in Hdx. unfold single_del in Hdx. apply Z.eqb_eq in Hdx. by rewrite Hdx.
Qed.
(** Whoever does not see the entry does not see the versions of its stripe. *)
Lemma skipped_unseen r w x : entry_ok x → reader r → wf w → (Compare c u w = 0 → r < entry_seq e) →
  IsDeleteRangeSentinelKey x = true ∨ version_of u x = true ∧ stripe (entry_seq x) = k → visible c r w x = false.
Proof using All.
  intros Hx Hr Ww Hw Hsk. unfold visible. destruct Hsk as [-> |[Hv Hst]]; [done|]. destruct (entry_parsed x Hx) as [Wx Hq], step_key as (Wu & _ & _ & Hqe).
  unfold version_of in Hv. apply andb_true_iff in Hv as [_ Hv%same_key_spec]. destruct (Compare c (entry_user_key x) w =? 0) eqn:E; [|by rewrite andb_false_r].
  apply Z.eqb_eq in E. rewrite (proj2 (Z.leb_gt _ _)); [by rewrite andb_false_r|]. apply Z.nle_gt. intros Hle.
  apply (proj1 (stripe_le snapshots Hsn (entry_seq x) r (proj2 Hq) Hr)) in Hle. rewrite Hst in Hle.
  apply (proj2 (stripe_le snapshots Hsn (entry_seq e) r (proj2 Hqe) Hr)) in Hle. enough (r < entry_seq e) by lia. apply Hw.
  apply (key_eq_trans _ (entry_user_key x)); [done..| |done]. by apply cmp_flip_eq.
Qed.
(** A deletion with the rest of its stripe, if that was all there is of the key. *)
Lemma drop_stripe skipped rest' : rest = skipped ++ rest' → dead u k0 e = false → is_value (entry_type e) = false →
  (∀ x, x ∈ skipped → IsDeleteRangeSentinelKey x = true ∨ version_of u x = true ∧ stripe (entry_seq x) = k) → (∀ x, x ∈ rest' ++ below → version_of u x = false) →
  same_views (content out (Some (u, k)) rest') (content out (Some (u, k0)) (e :: rest)).
Proof using All.
  intros Er Hd Hv Hsk Hno. pose proof Hrest as Ho. rewrite Er in Ho. apply Forall_app in Ho as [Hos Ho']. destruct step_key as (Wu & _ & _ & Hqe).
  apply drop_step; try done; [intros; by apply seen_no_value| |].
  - intros r Hr Hle. apply nothing_seen; [|by apply live_below_ok]. intros x Tx Hx Hver. exfalso. rewrite (Hno x) in Hver; [done|].
    apply elem_of_app in Hx as [Hx|Hx]; apply elem_of_under in Hx as [Hx ->]; [apply elem_of_live in Hx as [Hx _]|]; apply elem_of_app; auto.
  - intros r w Hr Ww Hw. rewrite Er. unfold under at 3. rewrite map_app, <- app_assoc. symmetry. apply look_blind. apply (blind_under c r w T).
    intros x Hx. rewrite Forall_forall in Hos. by apply (skipped_unseen r w x (Hos x Hx) Hr Ww Hw), Hsk.
Qed.
(** An entry that is covered by a tombstone of its stripe. *)
Lemma drop_covered t : dead u k0 e = false → t ∈ T → Compare c (start_key_ t) (entry_user_key e) <= 0 → Compare c (entry_user_key e) (end_key_ t) < 0 →
  wf (start_key_ t) → wf (end_key_ t) → entry_seq e < seq_ t <= k → (∀ x, x ∈ below → version_of u x = true → entry_seq x <= entry_seq e) →
  same_views (content out (Some (u, k)) rest) (content out (Some (u, k0)) (e :: rest)).
Proof using All.
  intros Hd Ht H1 H2 Wst Wen Hq Hno. destruct step_key as (Wu & Eu & We & Hqe).
  assert (∀ r x, reader r → entry_seq e <= r → entry_ok x → version_of u x = true → entry_seq x <= entry_seq e → seen c T r x = None) as Hcov.
  { intros r x Hr Hle Hx Hv Hle'. apply (proj1 (stripe_le snapshots Hsn (entry_seq e) r (proj2 Hqe) Hr)) in Hle. destruct (entry_parsed x Hx) as [Wx _].
    unfold version_of in Hv. apply andb_true_iff in Hv as [_ Hv%same_key_spec].
    assert (Compare c (entry_user_key x) (entry_user_key e) = 0) as Exe by (apply (key_eq_trans _ u); [done..|by apply cmp_flip_eq]).
    pose proof (cmp_eq_l (cmp := Compare c) _ _ (end_key_ t) Wx We Wen Exe). apply cmp_flip_eq in Exe; [|done..].
    assert (covering c T (entry_user_key x) (entry_seq x) r = true) as Hc; [|unfold seen; by rewrite Hc, andb_false_r].
    unfold covering. apply existsb_exists. exists t. split; [by apply list_elem_of_In|]. rewrite !andb_true_iff, !Z.ltb_lt, !Z.leb_le.
    split_and!; [|lia..]. apply (cmp_le_trans _ (entry_user_key e)); [done..|lia]. }
  apply drop_step; try done.
  - intros r Hr Hle. apply Hcov; try done. unfold version_of. by rewrite Hpt, Hu.
  - intros r Hr Hle. apply nothing_seen; [|by apply live_below_ok].
    intros x Tx [Hx|Hx]%elem_of_app Hver; apply elem_of_under in Hx as [Hx ->]; [apply elem_of_live in Hx as [Hx _]|];
      (apply Hcov; auto using rest_elem, below_elem).
Qed.
(** The first version of the key is a single deletion, if there is one. *)
Definition first_single_del (l : list Entry) : Prop :=
  match List.filter (version_of u) l with [] => True | x :: _ => single_del x = true end.
Lemma first_live l : first_single_del (l ++ below) → first_single_del (live (Some (u, k)) l ++ below).
Proof using.
  unfold first_single_del. rewrite !List.filter_app. induction l as [|x l IH]; [done|]. cbn [live List.filter]. unfold dead at 1.
  destruct (version_of u x) eqn:E; cbn [andb negb].
  - cbn [app]. intros Hx. rewrite Hx, andb_false_r. cbn [negb List.filter]. by rewrite E.
  - cbn [List.filter]. rewrite E. exact IH.
Qed.
Lemma nothing_first r l : Forall entry_ok l → first_single_del l → (∀ x, x ∈ l → version_of u x = true → entry_seq x <= r) → nothing r (under T l).
Proof using All.
  intros Ho Hf Hle w Ww Hw. destruct step_key as (Wu & _). induction l as [|x l IH]; [done|]. inversion_clear Ho as [|? ? Hx Hl]. cbn.
  destruct (version_of u x) eqn:Ev.
  - unfold first_single_del in Hf. cbn in Hf. rewrite Ev in Hf. destruct (visible c r w x) eqn:E.
    + apply seen_no_value. unfold single_del in Hf. apply Z.eqb_eq in Hf. by rewrite Hf.
    + exfalso. specialize (Hle x ltac:(left) Ev). unfold version_of in Ev. apply andb_true_iff in Ev as [Hn Hv]. unfold visible in E.
      rewrite Hn in E. fold (same_key w x) in E. rewrite (same_key_cong u w x Wu Ww Hx Hw), Hv in E. apply Z.leb_gt in E. lia.
  - destruct (visible c r w x) eqn:E.
    + exfalso. unfold visible in E. fold (same_key w x) in E. rewrite (same_key_cong u w x Wu Ww Hx Hw) in E. unfold version_of in Ev.
      apply andb_true_iff in E as [E _]. congruence.
    + apply IH; [done| |]. { unfold first_single_del in *. cbn in Hf. by rewrite Ev in Hf. } intros y Hy. apply Hle. by right.
Qed.

(** A single deletion and the value that it deletes, both of one stripe. *)
Lemma drop_pair skipped n rest' : rest = skipped ++ n :: rest' → single_del e = true →
  (∀ x, x ∈ skipped → IsDeleteRangeSentinelKey x = true) → version_of u n = true → stripe (entry_seq n) = k → first_single_del (rest' ++ below) →
  (∀ x, x ∈ below → version_of u x = true → entry_seq x <= entry_seq e) →
  same_views (content out (Some (u, k)) rest') (content out (Some (u, k0)) (e :: rest)).
Proof using All.
  intros Er Hsd Hsk Hvn Hstn Hf Hno. pose proof Hrest as Ho. rewrite Er in Ho. apply Forall_app in Ho as [Hos Ho']. inversion_clear Ho' as [|? ? Hn Ho''].
  apply drop_step; try done.
  - unfold dead. by rewrite Hsd, andb_false_r.
  - intros r Hr Hle. apply seen_no_value. unfold single_del in Hsd. apply Z.eqb_eq in Hsd. by rewrite Hsd.
  - intros r Hr Hle. unfold under. rewrite <- map_app. apply nothing_first; [|by apply first_live|].
    + pose proof (live_below_ok (Some (u, k)) rest' Ho'') as H. unfold under in H. rewrite <- map_app, Forall_map in H. exact H.
    + intros x [Hx|Hx]%elem_of_app Hv; [|specialize (Hno x Hx Hv); lia]. apply elem_of_live in Hx as [Hx _]. enough (entry_seq x <= entry_seq e) by lia.
      apply Hseq; [|done]. rewrite Er. apply elem_of_app. right. by right.
  - intros r w Hr Ww Hw. rewrite Er. unfold under at 3. rewrite map_app, <- app_assoc. symmetry.
    replace (map (λ e, (e, T)) (n :: rest') ++ under T below) with (under T [n] ++ under T rest' ++ under T below) by done. rewrite app_assoc.
    apply look_blind. unfold under. rewrite <- map_app. apply (blind_under c r w T). intros x [Hx| ->%list_elem_of_singleton]%elem_of_app.
    + apply (skipped_unseen r w x); auto. by apply (proj1 (Forall_forall _ _) Hos).
    + apply (skipped_unseen r w n); auto.
Qed.
End Step.

(** ** Behind an entry that was put out *)

(** Something of the key that the readers from [k] on see was put out. *)
Definition anchored (out : list Entry) (u : bytes) (k : Z) : Prop :=
  ∃ a, a ∈ out ∧ IsDeleteRangeSentinelKey a = false ∧ Compare c (entry_user_key a) u = 0 ∧ wf (entry_user_key a) ∧ ∀ r, reader r → k <= r → entry_seq a <= r.
Lemma anchored_not_blind out u k r w : wf u → wf w → anchored out u k → reader r → k <= r → Compare c u w = 0 → ¬ blind c r w (under T' out).
Proof using ComparatorLaws0.
  intros Wu Ww (a & Ha & Hn & Hk & Wa & Hq) Hr Hle Hw Hb. rewrite blind_under in Hb. specialize (Hb a Ha). unfold visible in Hb. rewrite Hn in Hb.
  rewrite (proj2 (Z.eqb_eq _ _)) in Hb by (by apply (key_eq_trans _ u)). cbn [negb andb] in Hb. apply Z.leb_gt in Hb. specialize (Hq r Hr Hle). lia.
Qed.

(** What is behind it does not matter; entries of other keys stay. *)
Lemma hidden_step out u cur cur' rest skipped : wf u → Forall entry_ok rest → Forall entry_ok skipped → anchored out u 0 →
  (∀ x, x ∈ skipped → IsDeleteRangeSentinelKey x = true ∨ version_of u x = true) →
  (∀ u' k', cur = Some (u', k') → u' = u) → (∀ u' k', cur' = Some (u', k') → u' = u) →
  same_views (content out cur' rest) (content out cur (skipped ++ rest)).
Proof using All.
  intros Wu Ho Hos Ha Hsk Hc Hc' r w Hr Ww. unfold content. destruct (Z.eqb_spec (Compare c u w) 0) as [Hw|Hw].
  - apply look_hidden, (anchored_not_blind out u 0); try done. destruct Hr as [Hr| ->]; [apply Hsn in Hr; lia|by vm_compute].
  - apply look_same_tail. assert (∀ cur0 l, (∀ u' k', cur0 = Some (u', k') → u' = u) → Forall entry_ok l →
      look c r w (under T (live cur0 l) ++ under T below) = look c r w (under T l ++ under T below)) as Hl.
    { intros [[u' k']|] l H Hl; [|done]. rewrite (H u' k' eq_refl). apply live_unseen; try done. }
    rewrite !Hl; [|done|by apply Forall_app|done|done]. unfold under at 3. rewrite map_app, <- app_assoc. symmetry. apply look_blind, (blind_under c r w T).
    intros x Hx. unfold visible. destruct (Hsk x Hx) as [-> |Hv]; [done|]. unfold version_of in Hv. apply andb_true_iff in Hv as [_ Hv%same_key_spec].
    rewrite (proj2 (Z.eqb_neq _ _)); [by rewrite andb_false_r|]. intros E. apply Hw. rewrite Forall_forall in Hos.
    destruct (entry_parsed x (Hos x Hx)) as [Wx _]. apply (key_eq_trans _ (entry_user_key x)); [done..| |done]. by apply cmp_flip_eq.
Qed.
(** A version of the key may be put out behind it. *)
Lemma emit_hidden out u k rest e e' : wf u → anchored out u k → dead u k e = true → Compare c (entry_user_key e') u = 0 → wf (entry_user_key e') →
  (∀ r, reader r → entry_seq e' <= r → k <= r) → same_views (content (out ++ [e']) (Some (u, k)) rest) (content out (Some (u, k)) (e :: rest)).
Proof using All.
  intros Wu Ha Hd He' We' Hq r w Hr Ww. unfold content. rewrite live_cons_dead by done. unfold under at 1. rewrite map_app, <- app_assoc. cbn [map app].
  fold (under T' out). destruct (visible c r w e') eqn:E.
  - apply look_hidden, (anchored_not_blind out u k); try done; unfold visible in E; rewrite !andb_true_iff, Z.eqb_eq, Z.leb_le in E.
    + apply Hq; [done|apply E].
    + apply (key_eq_trans _ (entry_user_key e')); [done..| |apply E]. by apply cmp_flip_eq.
  - apply look_same_tail. cbn [look]. by rewrite E.
Qed.
(** Dead entries and sentinels may be skipped. *)
Lemma skip_step out u k rest skipped : (∀ x, x ∈ skipped → IsDeleteRangeSentinelKey x = true ∨ dead u k x = true) →
  same_views (content out (Some (u, k)) rest) (content out (Some (u, k)) (skipped ++ rest)).
Proof using.
  intros Hsk r w Hr Ww. unfold content. apply look_same_tail. cbn [live]. rewrite List.filter_app. unfold under at 3. rewrite map_app, <- app_assoc.
  symmetry. apply look_blind, (blind_under c r w T). intros x Hx%list_elem_of_In%List.filter_In. destruct Hx as [Hx Hd%negb_true_iff].
  apply list_elem_of_In in Hx. unfold visible. destruct (Hsk x Hx) as [-> |]; [done|congruence].
Qed.
End Steps.
