(* ===== verification/CompactionIteratorCorrect.v ===== *)
(** * A compaction changes nothing that a snapshot sees

    The loop of [CompactionIterator], without merges, filters, timestamps and the
    rewriting of blobs: every entry that it drops, clears or renumbers is one that no
    snapshot and no later reader can tell from what was there before. *)

From Stdlib Require Import Sorting.Sorted.
From S2P Require Import Prelude SortedLists Status Slice Coding Comparator DbFormat WideColumns FileIndexer BlobIndex CompactionIterator CompactionViews.
From stdpp Require Import list sorting.
#[local] Open Scope Z_scope.
Import CompactionIterator.

(** ** What the iterator relies on *)

Section Contracts.
Context (wf : bytes → Prop) (c : Comparator).

(** No timestamps, transactions, filters, blobs to rewrite or interruptions. *)
Record plain {B} (o : CompactionIteratorOptions B) : Prop := {
  pl_ts : timestamp_size c = 0;
  pl_checker : snapshot_checker_ o = None;
  pl_filter : compaction_filter_ o = None;
  pl_blobs : blob_file_builder_ o = None;
  pl_compaction : ∀ cp, compaction_ o = Some cp → enable_blob_garbage_collection cp = false;
  pl_signals : ∀ n, manual_compaction_canceled_ o n = false ∧ shutting_down_ o n = false;
  pl_input : IsCorruption (input_status o) = false;
  pl_conflicts : earliest_snapshot_ o <= earliest_write_conflict_snapshot_ o;
  pl_times : preserve_time_min_seqno_ o <= preclude_last_level_min_seqno_ o
}.

(** [KeyNotExistsBeyondOutputLevel] is asked about keys in order; [ptrs_ok] says that the
    indices it keeps are good for the keys from one on. *)
Class BeyondOutputLevel {B} (o : CompactionIteratorOptions B) (below : list Entry) (ptrs_ok : bytes → list Z → Prop) : Prop := {
  bo_start : ∀ cp u, compaction_ o = Some cp → wf u → ptrs_ok u (replicate (Z.to_nat (number_levels cp)) 0);
  bo_mono : ∀ u u' ptrs, wf u → wf u' → Compare c u u' <= 0 → ptrs_ok u ptrs → ptrs_ok u' ptrs;
  bo_keeps : ∀ cp u ptrs, compaction_ o = Some cp → wf u → ptrs_ok u ptrs → ptrs_ok u (snd (KeyNotExistsBeyondOutputLevel cp u ptrs));
  bo_absent : ∀ cp u ptrs, compaction_ o = Some cp → wf u → ptrs_ok u ptrs → fst (KeyNotExistsBeyondOutputLevel cp u ptrs) = true →
    ∀ x, x ∈ below → version_of c u x = false;
  bo_bottommost : ∀ cp u ptrs, compaction_ o = Some cp → bottommost_level cp = true → wf u → ptrs_ok u ptrs →
    below = [] ∧ fst (KeyNotExistsBeyondOutputLevel cp u ptrs) = true
}.

(** The tombstones are those of the compaction: an entry is deleted by one of its stripe. *)
Definition should_delete_law {B} (o : CompactionIteratorOptions B) (T : list RangeTombstone) : Prop :=
  ∀ k, InternalKeyOrder.ikey_ok wf k → let p := parsed_of k in
    ShouldDelete o k = true ↔ ∃ t, t ∈ T ∧ Compare c (start_key_ t) (user_key p) <= 0 ∧ Compare c (user_key p) (end_key_ t) < 0 ∧
      sequence p < seq_ t <= stripe (snapshots_ o) (sequence p).
(** A bottommost compaction drops the tombstones that every snapshot sees. *)
Definition kept_tombstones {B} (o : CompactionIteratorOptions B) (T : list RangeTombstone) : list RangeTombstone :=
  if bottommost_level_ o then List.filter (λ t, earliest_snapshot_ o <? seq_ t) T else T.

(** With per-key placement, an entry that not every snapshot sees may not go to the last
    level: the iterator reports it if it is outside the range of the other output. *)
Definition unsafe_placement {B} (o : CompactionIteratorOptions B) (e : Entry) : bool :=
  match compaction_ o with
  | Some cp => SupportsPerKeyPlacement cp && (earliest_snapshot_ o <? entry_seq e) && negb (WithinPenultimateLevelOutputRange cp (entry_user_key e))
  | None => false
  end.
Definition unsafe_status : Status :=
  Status_Corruption "Unsafe to store Seq later than snapshot in the last level if per_key_placement is enabled".

(** The contract of [SingleDelete]: of a key that is deleted in this way, values and
    single deletions alternate. *)
Definition single_del_contract (l : list Entry) : Prop := ∀ u, wf u → let vs := List.filter (version_of c u) l in
  (∃ e, e ∈ vs ∧ single_del e = true) →
  (∀ e, e ∈ vs → single_del e = true ∨ is_value (entry_type e) = true) ∧
  (∀ i a b, vs !! i = Some a → vs !! S i = Some b → single_del b = negb (single_del a)).
End Contracts.

Section Loop.
Context (wf : bytes → Prop) (c : Comparator) `{!ComparatorLaws wf c} {B : Type} (o : CompactionIteratorOptions B) (Ho : plain c o).
Context (T : list RangeTombstone) (below : list Entry) (ptrs_ok : bytes → list Z → Prop) `{!BeyondOutputLevel wf c o below ptrs_ok}.
Context (Hsn : snapshots_ok (snapshots_ o)) (Hsd : should_delete_law wf c o T) (Hbelow : Forall (entry_ok wf) below).
Context (HT : ∀ t, t ∈ T → wf (start_key_ t) ∧ wf (end_key_ t)).
#[local] Abbreviation ikey_ok := (InternalKeyOrder.ikey_ok wf).
#[local] Abbreviation entry_ok := (entry_ok wf).
#[local] Abbreviation stripe := (stripe (snapshots_ o)).
#[local] Abbreviation reader := (reader (snapshots_ o)).
#[local] Abbreviation version_of := (version_of c).
#[local] Abbreviation T' := (kept_tombstones o T).
#[local] Abbreviation content := (content c (snapshots_ o) T T' below).
#[local] Abbreviation dead := (dead c (snapshots_ o)).
#[local] Abbreviation same_views := (same_views wf c (snapshots_ o)).
#[local] Abbreviation anchored := (anchored wf c (snapshots_ o)).
#[local] Abbreviation cur_ok := (cur_ok wf c (snapshots_ o)).
#[local] Abbreviation entries_ok := (entries_ok wf c).
#[local] Abbreviation contract := (single_del_contract wf c).
#[local] Abbreviation type := DbFormat.type.

(** ** The state between two entries *)

Record Core := mkCore {
  c_input : list Entry; c_has : bool; c_user_key : bytes; c_snapshot : Z; c_seq : Z; c_clear : bool; c_zeroed : bool; c_ptrs : list Z;
  c_current : bytes; c_committed : bool; c_merge : list (bytes * bytes); c_status : Status
}.
Definition core (s : t B) : Core := mkCore (input_ s) (has_current_user_key_ s) (current_user_key_ s) (current_user_key_snapshot_ s)
  (current_user_key_sequence_ s) (clear_and_output_next_key_ s) (last_key_seq_zeroed_ s) (level_ptrs_ s) (current_key_ s)
  (current_key_committed_ s) (merge_out_iter_ s) (status_ s).
Definition cur (a : Core) : option (bytes * Z) := if c_has a then Some (c_user_key a, c_snapshot a) else None.

(** Versions of a key whose sequence number was set to zero will be dropped; other
    entries come after those that were put out. *)
Definition in_front (a : Core) (y x : Entry) : Prop := IsDeleteRangeSentinelKey y = false → IsDeleteRangeSentinelKey x = false →
  Compare c (entry_user_key y) (entry_user_key x) <= 0 ∧ (Compare c (entry_user_key y) (entry_user_key x) = 0 →
    entry_seq x < entry_seq y ∨ c_has a = true ∧ c_zeroed a = true ∧ version_of (c_user_key a) x = true).

(** [out] was put out and the rest of the input, without the entries that will be
    dropped, looks the same together with it as [start], which also has the status. *)
Record inv (start : Content * Status) (out : list Entry) (a : Core) : Prop := {
  in_views : same_views (content out (cur a) (c_input a)) (fst start);
  in_input : entries_ok (c_input a);
  in_cur : cur_ok (cur a) (c_input a);
  in_seq : c_has a = true → ∀ e, e ∈ c_input a → version_of (c_user_key a) e = true → entry_seq e <= c_seq a;
  in_key : c_has a = true → ikey_ok (c_current a) ∧ ExtractUserKey (c_current a) = c_user_key a ∧ c_committed a = true;
  in_clear : c_clear a = true → c_has a = true ∧ c_zeroed a = false ∧ anchored out (c_user_key a) (c_snapshot a) ∧
    ∃ n rest, c_input a = n :: rest ∧ dead (c_user_key a) (c_snapshot a) n = true ∧ is_value (entry_type n) = true;
  in_zeroed : c_has a = true → c_zeroed a = true → anchored out (c_user_key a) 0 ∧ bottommost_level_ o = true ∧ c_snapshot a = earliest_snapshot_ o ∧ 0 < earliest_snapshot_ o;
  in_contract : contract (c_input a ++ below);
  in_older : ∀ e x, e ∈ c_input a → x ∈ below → version_of (entry_user_key e) x = true → entry_seq x <= entry_seq e;
  in_ptrs : ∀ e, e ∈ c_input a → ptrs_ok (entry_user_key e) (c_ptrs a) ∨ compaction_ o = None;
  in_merge : c_merge a = [];
  in_status : c_status a = snd start;
  in_out : Forall entry_ok out ∧ StronglySorted (entry_lt c) out;
  in_order : ∀ y x, y ∈ out → x ∈ c_input a → in_front a y x;
  in_positive : ∀ e, e ∈ c_input a → 0 < stripe (entry_seq e)
}.

(** ** Snapshots *)

Lemma earliest_reader r : reader r → earliest_snapshot_ o <= r.
Proof using Hsn.
  destruct Hsn as [Hs Hp]. unfold earliest_snapshot_. unfold reader. destruct (snapshots_ o) as [|s0 l]; intros [Hr| ->]; [by apply elem_of_nil in Hr|done| |].
  - apply elem_of_cons in Hr as [-> |Hr]; [done|]. inversion_clear Hs as [|? ? _ Hf]. rewrite Forall_forall in Hf. specialize (Hf r Hr). lia.
  - specialize (Hp s0 ltac:(left)). lia.
Qed.
Lemma earliest_is_reader : reader (earliest_snapshot_ o).
Proof using Hsn. unfold earliest_snapshot_, reader. destruct (snapshots_ o); [by right|left; left]. Qed.

(** The stripe of an entry, and the snapshot before it: an older entry is of the same
    stripe exactly if it is not in that snapshot. *)
Lemma snapshot_spec rel seq : seq <= kMaxSequenceNumber → ∃ prev,
  (if visible_at_tip_ o then Some (earliest_snapshot_ o, 0, rel) else findEarliestVisibleSnapshot o rel seq) = Some (stripe seq, prev, rel) ∧
  (∀ x, x <= seq → 0 < stripe x → (prev =? 0) || DefinitelyNotInSnapshot o x prev = (stripe x =? stripe seq)) ∧
  (prev = 0 ∨ earliest_snapshot_ o <= prev < seq).
Proof using Ho Hsn.
  intros Hq. pose proof Hsn as [Hs Hp]. pose proof earliest_reader as He. unfold findEarliestVisibleSnapshot, DefinitelyNotInSnapshot. rewrite (pl_checker _ _ Ho).
  destruct (visible_at_tip_ o) eqn:Et.
  { unfold visible_at_tip_ in Et. exists 0. unfold earliest_snapshot_, stripe. destruct (snapshots_ o); [|done]. split; [done|]. split; [done|by left]. }
  assert (match snapshots_ o with [] => false | _ => true end = true) as -> by (unfold visible_at_tip_ in Et; by destruct (snapshots_ o)).
  cbn [assertion mbind option_bind]. assert (stripe seq = default kMaxSequenceNumber (snapshots_ o !! count_while (λ x, x <? seq) (snapshots_ o))) as Est by done.
  destruct (count_while (λ x, x <? seq) (snapshots_ o)) as [|m] eqn:En.
  - exists 0. cbn [Nat.eqb orb assertion mbind option_bind]. rewrite <- Est. split; [done|]. split; [|by left]. intros x Hx. cbn [Z.eqb orb]. symmetry. apply Z.eqb_eq.
    assert (count_while (λ y, y <? x) (snapshots_ o) = 0%nat) as E0; [|rewrite Est; unfold CompactionViews.stripe; by rewrite E0].
    destruct (snapshots_ o) as [|s0 l]; [done|]. cbn in *. destruct (s0 <? seq) eqn:E1; [done|]. rewrite (proj2 (Z.ltb_ge _ _)); [done|]. apply Z.ltb_ge in E1. lia.
  - pose proof (count_while_le (λ x, x <? seq) (snapshots_ o)) as Hle. rewrite En in Hle. destruct (lookup_lt_is_Some_2 (snapshots_ o) m) as [pv Ep]; [lia|].
    pose proof (count_while_before (λ x, x <? seq) (snapshots_ o) m pv Ep) as Hlt. rewrite En in Hlt. specialize (Hlt ltac:(lia)). cbv beta in Hlt. cbv zeta iota. rewrite Ep. change (S m =? 0)%nat with false. cbn [default from_option orb Datatypes.id]. rewrite Hlt.
    cbn [assertion mbind option_bind]. apply Z.ltb_lt in Hlt. pose proof (list_elem_of_lookup_2 _ _ _ Ep) as Hin. exists pv. rewrite <- Est.
    split; [done|]. split; [|right; split; [apply He; by left|done]]. intros x Hx Hpx. assert ((pv =? 0) = true → (pv <? x) = true) as Hz.
    { rewrite Z.eqb_eq, Z.ltb_lt. intros Hpv. apply Z.nle_gt. intros Hle'. pose proof (proj1 (stripe_le _ Hsn x pv ltac:(lia) (or_introl Hin)) Hle'). lia. }
    transitivity (pv <? x); [destruct (pv =? 0); [by rewrite Hz|by rewrite orb_false_r]|]. apply eq_iff_eq_true. rewrite Z.ltb_lt, Z.eqb_eq. pose proof (stripe_ge _ Hsn seq Hq). split; intros Hx'.
    + apply Z.le_antisymm; [by apply stripe_mono|]. apply (proj1 (stripe_le _ Hsn seq _ Hq (stripe_reader _ x))).
      pose proof (stripe_ge _ Hsn x ltac:(lia)) as Hge. destruct (stripe_reader (snapshots_ o) x) as [Hr|Hr]; [|rewrite Hr; done].
      destruct (list_elem_of_lookup_1 _ _ Hr) as [i Ei]. apply Z.nlt_ge. intros Hlt'. assert (i < S m)%nat as Hi.
      { apply Nat.nle_gt. intros Hge'. destruct (lookup_lt_is_Some_2 (snapshots_ o) (S m)) as [y Ey]; [apply lookup_lt_Some in Ei; lia|].
        pose proof (count_while_at (λ x, x <? seq) (snapshots_ o) y) as Hy. rewrite En in Hy. specialize (Hy Ey). apply Z.ltb_ge in Hy.
        destruct (decide (i = S m)) as [-> |Hne]; [rewrite Ei in Ey; injection Ey; lia|]. pose proof (sorted_lookup Z.lt _ Hs (S m) i y _ Ey Ei ltac:(lia)). lia. }
      destruct (decide (i = m)) as [-> |Hne]; [rewrite Ei in Ep; injection Ep; lia|]. pose proof (sorted_lookup Z.lt _ Hs i m _ pv Ei Ep ltac:(lia)). lia.
    + apply Z.nle_gt. intros Hle'. assert (stripe x <= pv) by (apply (proj1 (stripe_le _ Hsn x pv ltac:(lia) (or_introl Hin))); done). lia.
Qed.

(** ** Keys *)

Lemma entry_key_parts e : entry_ok e → ParseInternalKey (entry_key e) = (Status_OK, mkParsed (entry_user_key e) (entry_seq e) (entry_type e)) ∧
  ExtractUserKey (entry_key e) = entry_user_key e ∧ entry_key e = AppendInternalKey [] (mkParsed (entry_user_key e) (entry_seq e) (entry_type e)) ∧
  InternalKeyOrder.key_ok wf (mkParsed (entry_user_key e) (entry_seq e) (entry_type e)).
Proof using.
  intros [(Hl & Hb & Hu) Ht _]. destruct (parsed_of_ok _ Hb Hl) as [Hp E]. unfold entry_type in Ht.
  assert (mkParsed (entry_user_key e) (entry_seq e) (entry_type e) = parsed_of (entry_key e)) as -> by (unfold entry_user_key, entry_seq, entry_type; by destruct (parsed_of _)).
  assert (ExtractUserKey (entry_key e) = user_key (parsed_of (entry_key e))) as Eu by (unfold parsed_of; by destruct (UnPackSequenceAndType _)).
  rewrite ParseInternalKey_parsed, Ht by done. split; [done|]. split; [done|]. split; [done|]. split; [done|by rewrite <- Eu].
Qed.
Lemma update_key k u seq ty : ikey_ok k → ExtractUserKey k = u → UpdateInternalKey k seq ty = AppendInternalKey [] (mkParsed u seq ty).
Proof using. intros _ <-. rewrite AppendInternalKey_eq. done. Qed.
Lemma append_key p : InternalKeyOrder.key_ok wf p → ikey_ok (AppendInternalKey [] p) ∧ ExtractUserKey (AppendInternalKey [] p) = user_key p ∧ parsed_of (AppendInternalKey [] p) = p.
Proof using ComparatorLaws0.
  intros Hp. split; [by apply InternalKeyOrder.ikey_ok_parsed|]. destruct (ikey_of_parsed p (proj1 Hp)) as (E1 & E2 & _). split; [done|].
  unfold parsed_of. rewrite E1, E2. destruct Hp as [(_ & Hs & Ht) _]. rewrite UnPack_Pack by done. by destruct p.
Qed.
Lemma equal_keys a b : wf a → wf b → EqualWithoutTimestamp c a b = (Compare c a b =? 0).
Proof using All. intros Wa Wb. rewrite (cl_equal_no_ts (ComparatorLaws := ComparatorLaws0)) by done. by rewrite (cl_no_ts_plain (ComparatorLaws := ComparatorLaws0) (pl_ts _ _ Ho)). Qed.

(** ** An entry is read *)

Declare Reduction core_red := cbn [core c_input c_has c_user_key c_snapshot c_seq c_clear c_zeroed c_ptrs c_current c_committed c_merge c_status cur
  input_ reads_ released_snapshots_ validity_info_ key_ value_ blob_value_ status_ ikey_ has_current_user_key_ at_next_ current_key_ current_user_key_ curr_ts_
  current_user_key_sequence_ current_user_key_snapshot_ has_outputted_key_ clear_and_output_next_key_ merge_out_iter_ merge_until_status_ blob_builder_ level_ptrs_
  current_key_committed_ cmp_with_history_ts_low_ last_key_seq_zeroed_ output_to_penultimate_level_ is_range_del_
  set_input set_reads set_released_snapshots set_validity_info set_key set_value set_blob_value set_status set_ikey set_has_current_user_key set_at_next
  set_current_key set_current_user_key set_curr_ts set_current_user_key_sequence set_current_user_key_snapshot set_has_outputted_key
  set_clear_and_output_next_key set_merge_out_iter set_merge_until_status set_blob_builder set_level_ptrs set_current_key_committed
  set_cmp_with_history_ts_low set_last_key_seq_zeroed set_output_to_penultimate_level set_is_range_del SetValid Invalidate AdvanceInputIter key user_key sequence DbFormat.type].
Ltac core_simpl := unfold cur, core; match goal with |- ?g => let g' := eval core_red in g in change g' end.
Ltac core_simpl_in H := unfold cur, core in H; let h := type of H in let h' := eval core_red in h in change h' in H.
Ltac core_simpl_all := unfold cur, core in *; repeat match goal with H : ?h |- _ => let h' := eval core_red in h in progress change h' in H end; core_simpl.

Record ready (start : Content * Status) (out : list Entry) (s : t B) (e : Entry) (rest : list Entry) : Prop := {
  rd_inv : inv start out (core s);
  rd_input : input_ s = e :: rest;
  rd_has : has_current_user_key_ s = true;
  rd_point : IsDeleteRangeSentinelKey e = false;
  rd_version : same_key c (current_user_key_ s) e = true;
  rd_ikey : ikey_ s = mkParsed (current_user_key_ s) (entry_seq e) (entry_type e);
  rd_key : key_ s = OfCurrent;
  rd_current : current_key_ s = AppendInternalKey [] (mkParsed (current_user_key_ s) (entry_seq e) (entry_type e));
  rd_value : value_ s = entry_value e;
  rd_sentinel : is_range_del_ s = false;
  rd_valid : validity_info_ s = None;
  rd_at_next : at_next_ s = false
}.
(** The state as [turn] has it when the key has been parsed. *)
Definition header (s : t B) (e : Entry) : t B :=
  set_ikey (set_is_range_del (set_blob_value (set_value (set_key s (OfInput (entry_key e))) (entry_value e)) []) (IsDeleteRangeSentinelKey e))
    (mkParsed (entry_user_key e) (entry_seq e) (entry_type e)).

Lemma rest_keys e rest u : entries_ok (e :: rest) → wf u → Compare c u (entry_user_key e) < 0 → ∀ x, x ∈ e :: rest → Compare c u (entry_user_key x) < 0.
Proof using ComparatorLaws0.
  intros [Hf Hs] Wu Hlt x [-> |Hx]%elem_of_cons; [done|]. inversion_clear Hs as [|? ? _ Hall]. rewrite Forall_forall in Hall, Hf.
  pose proof (Hf e ltac:(left)) as He. pose proof (Hf x ltac:(by right)) as Hx'. destruct (entries_order wf c e x He Hx' (proj1 (Hall x Hx))) as [Hle _].
  destruct (entry_parsed wf e He) as [We _], (entry_parsed wf x Hx') as [Wx _]. by apply (cmp_lt_le_trans _ (entry_user_key e)).
Qed.

(** No entry is dead for a key that was not yet read, or for one that was passed. *)
Lemma live_fresh u l : live c (snapshots_ o) (Some (u, 0)) l = l.
Proof using.
  apply live_all. intros e _. unfold CompactionViews.dead. by rewrite orb_true_r, andb_false_r.
Qed.
Lemma live_passed u k l : wf u → Forall entry_ok l → (∀ x, x ∈ l → Compare c u (entry_user_key x) < 0) → live c (snapshots_ o) (Some (u, k)) l = l.
Proof using ComparatorLaws0.
  intros Wu Hl Hlt. apply live_all. intros e He. unfold CompactionViews.dead, CompactionViews.version_of, same_key. rewrite Forall_forall in Hl.
  destruct (entry_parsed wf e (Hl e He)) as [We _]. specialize (Hlt e He). apply cmp_flip_lt in Hlt; [|done..]. rewrite (proj2 (Z.eqb_neq _ _)) by lia.
  by rewrite andb_false_r.
Qed.

Lemma invoke_plain s : InvokeFilterIfNeeded c o s = Some (true, false, [], s).
Proof using Ho. unfold InvokeFilterIfNeeded. by rewrite (pl_filter _ _ Ho). Qed.
Lemma committed_plain seq : KeyCommitted o seq = true.
Proof using Ho. unfold KeyCommitted. by rewrite (pl_checker _ _ Ho). Qed.

(** A key that is not the current one. *)
Lemma inv_new_key start out s e rest : inv start out (core s) → input_ s = e :: rest →
  has_current_user_key_ s && (Compare c (entry_user_key e) (current_user_key_ s) =? 0) = false →
  inv start out (mkCore (e :: rest) true (entry_user_key e) 0 kMaxSequenceNumber (clear_and_output_next_key_ s) false (level_ptrs_ s) (entry_key e) true
    (merge_out_iter_ s) (status_ s)).
Proof using All.
  intros [Hv Hi Hc Hq Hk Hcl Hz Hcon Hold Hp Hm Hst Hout Hord Hps] Ei Hne. core_simpl_all. rewrite Ei in *. pose proof Hi as [Hf Hso]. rewrite Forall_forall in Hf.
  pose proof (Hf e ltac:(left)) as He. destruct (entry_parsed wf e He) as [We Hqe]. destruct (entry_key_parts e He) as (_ & Eu & _).
  assert (has_current_user_key_ s = true → wf (current_user_key_ s) ∧ ∀ x, x ∈ e :: rest → Compare c (current_user_key_ s) (entry_user_key x) < 0) as Hpass.
  { intros Eh. rewrite Eh in Hc, Hne. cbn [andb] in Hne. apply Z.eqb_neq in Hne. destruct Hc as [Wu Hge]. destruct (Hge e ltac:(left)) as [Hle _]. split; [done|]. apply rest_keys; [done..|].
    destruct (Z.eq_dec (Compare c (current_user_key_ s) (entry_user_key e)) 0) as [E|]; [|lia]. apply cmp_flip_eq in E; [congruence|done..]. }
  split; core_simpl; try done.
  - intros r w Hr Ww. rewrite <- (Hv r w Hr Ww). unfold CompactionViews.content. rewrite live_fresh.
    destruct (has_current_user_key_ s) eqn:Eh; [|done]. destruct (Hpass eq_refl). rewrite live_passed; [done..|apply Hi|done].
  - split; [done|]. intros x Hx. split; [|intros _; by left]. apply elem_of_cons in Hx as [-> |Hx]; [by rewrite cmp_refl|]. inversion_clear Hso as [|? ? _ Hall].
    rewrite Forall_forall in Hall. apply (entries_order wf c e x He (Hf x ltac:(by right)) (proj1 (Hall x Hx))).
  - intros _ x Hx _. by apply (entry_parsed wf x (Hf x Hx)).
  - intros _. split_and!; [apply He|done|done].
  - intros Hclear. destruct (Hcl Hclear) as (Hh & _ & _ & n & rest' & [= <- <-] & Hd & _). exfalso. rewrite Hh in Hne. cbn [andb] in Hne.
    unfold CompactionViews.dead, CompactionViews.version_of, same_key in Hd. rewrite Hne, andb_false_r in Hd. done.
  - intros y x Hy Hx Hny Hnx. destruct (Hord y x Hy Hx Hny Hnx) as [Hle Hz']. split; [done|]. intros E. destruct (Hz' E) as [|(Hh & _ & Hver)]; [by left|exfalso]. destruct (Hpass Hh) as [Wu Hlt].
    core_simpl_in Hver. unfold CompactionViews.version_of in Hver. apply andb_true_iff in Hver as [_ Hver%same_key_spec]. specialize (Hlt x Hx). apply cmp_flip_lt in Hlt; [lia|done|].
    apply (entry_parsed wf x (Hf x Hx)).
Qed.

Lemma update_spec start out s e rest : inv start out (core s) → validity_info_ s = None → at_next_ s = false → input_ s = e :: rest →
  IsDeleteRangeSentinelKey e = false → ∃ s', update_user_key c o (header s e) = Some (true, false, [], s') ∧ ready start out s' e rest.
Proof using All.
  intros Hinv Hval Hat Ei Hpt. pose proof (in_input _ _ _ Hinv) as Hi. core_simpl_in Hi. rewrite Ei in Hi. pose proof (proj1 (Forall_forall _ _) (proj1 Hi) e ltac:(left)) as He.
  destruct (entry_parsed wf e He) as [We Hqe]. destruct (entry_key_parts e He) as (_ & Eu & Ek & Hko). unfold update_user_key, header.
  rewrite (pl_ts _ _ Ho). core_simpl. rewrite andb_false_r. change (negb (0 =? 0)) with false. rewrite orb_false_r.
  assert (has_current_user_key_ s && EqualWithoutTimestamp c (entry_user_key e) (current_user_key_ s) =
          has_current_user_key_ s && (Compare c (entry_user_key e) (current_user_key_ s) =? 0)) as ->.
  { destruct (has_current_user_key_ s) eqn:Eh; [|done]. pose proof (in_cur _ _ _ Hinv) as Hc. core_simpl_in Hc. rewrite Eh in Hc. by rewrite equal_keys by (done || apply Hc). }
  destruct (has_current_user_key_ s && (Compare c (entry_user_key e) (current_user_key_ s) =? 0)) eqn:Es.
  - apply andb_true_iff in Es as [Eh Es]. rewrite Eh. cbn [negb orb]. unfold next_version. core_simpl.
    destruct (in_key _ _ _ Hinv Eh) as (Hk & Eku & Hcm). core_simpl_in Hk. core_simpl_in Eku. core_simpl_in Hcm. rewrite Hcm.
    pose proof (in_cur _ _ _ Hinv) as Hc. core_simpl_in Hc. rewrite Eh in Hc. destruct Hc as [Wu _].
    rewrite (update_key _ _ _ _ Hk Eku). assert (InternalKeyOrder.key_ok wf (mkParsed (current_user_key_ s) (entry_seq e) (entry_type e))) as Hko'.
    { destruct Hko as [(_ & H1 & H2) _]. split; [split_and!; try done|done]. rewrite <- Eku. apply bytes_ok_ztake, Hk. }
    destruct (append_key _ Hko') as (K1 & K2 & _). cbn [user_key] in K2. eexists. split; [done|]. rewrite K2. split; core_simpl; try done.
    destruct Hinv as [Hv Hi' Hc Hq Hkey Hcl Hz Hcon Hold Hp Hm Hst Hout Hord Hps]. core_simpl_all. split; core_simpl; done.
  - assert (negb (has_current_user_key_ s) || negb false = true) as -> by (by destruct (has_current_user_key_ s)). unfold first_occurrence. core_simpl.
    rewrite (pl_ts _ _ Ho). unfold UpdateTimestampAndCompareWithFullHistoryLow. rewrite (pl_ts _ _ Ho). cbn [Z.eqb]. rewrite orb_true_r. cbn [orb]. core_simpl.
    rewrite committed_plain. core_simpl. rewrite invoke_plain. eexists. split; [done|].
    pose proof (inv_new_key start out s e rest Hinv Ei Es) as Hn. split; core_simpl; try done.
    + by rewrite Ei.
    + unfold same_key. by rewrite cmp_refl.
Qed.

(** ** An entry is put out *)

Definition advanced (s : t B) : t B := if at_next_ s then s else AdvanceInputIter s.
Record output_ok (start : Content * Status) (out : list Entry) (s : t B) : Prop := {
  oo_valid : Valid s = true;
  oo_inv : inv start (out ++ [output s]) (core (advanced s));
  oo_point : is_range_del_ s = false → key_ s = OfCurrent ∧ current_key_ s = AppendInternalKey [] (ikey_ s) ∧ InternalKeyOrder.key_ok wf (ikey_ s) ∧
    user_key (ikey_ s) = current_user_key_ s ∧ point_type (type (ikey_ s)) = true;
  oo_zero : is_range_del_ s = false → bottommost_level_ o = true → sequence (ikey_ s) <= earliest_snapshot_ o → is_value (type (ikey_ s)) = true;
  oo_after : is_range_del_ s = false → is_value (type (ikey_ s)) = true → let a := core (advanced s) in
    c_has a = true ∧ c_clear a = false ∧ c_snapshot a = stripe (sequence (ikey_ s)) ∧ 0 < c_snapshot a;
  oo_sentinel : is_range_del_ s = true → parsed_of (key s) = ikey_ s
}.
(** An entry as it is put out: its key is written anew. *)
Definition written (u : bytes) (seq ty : Z) (v : bytes) : Entry := mkEntry (AppendInternalKey [] (mkParsed u seq ty)) v false.
Lemma written_parts u seq ty v : InternalKeyOrder.key_ok wf (mkParsed u seq ty) →
  entry_user_key (written u seq ty v) = u ∧ entry_seq (written u seq ty v) = seq ∧ entry_type (written u seq ty v) = ty.
Proof using ComparatorLaws0. intros Hk. destruct (append_key _ Hk) as (_ & _ & E). unfold entry_user_key, entry_seq, entry_type, written. cbn [entry_key]. by rewrite E. Qed.

Lemma covering_cong T0 u u' seq r : wf u → wf u' → (∀ t, t ∈ T0 → wf (start_key_ t) ∧ wf (end_key_ t)) → Compare c u u' = 0 → covering c T0 u seq r = covering c T0 u' seq r.
Proof using ComparatorLaws0.
  intros Wu Wu' Ht E. unfold covering. induction T0 as [|t T0 IH]; [done|]. cbn. rewrite IH by (intros t' ?; apply Ht; by right). f_equal.
  destruct (Ht t ltac:(left)) as [W1 W2]. pose proof (cmp_eq_l (cmp := Compare c) u u' (end_key_ t) Wu Wu' W2 E). f_equal. f_equal. f_equal.
  - apply eq_iff_eq_true. rewrite !Z.leb_le. pose proof (cmp_flip_eq (cmp := Compare c) u u' Wu Wu' E). split; intros Hle.
    + apply (cmp_le_trans _ u); [done..|lia].
    + apply (cmp_le_trans _ u'); [done..|lia].
  - apply eq_iff_eq_true. rewrite !Z.ltb_lt. lia.
Qed.
(** The tombstones that a bottommost compaction drops do not cover an entry that
    [ShouldDelete] leaves. *)
Lemma kept_covers u seq ty r : InternalKeyOrder.key_ok wf (mkParsed u seq ty) → ShouldDelete o (AppendInternalKey [] (mkParsed u seq ty)) = false →
  covering c T' u seq r = covering c T u seq r.
Proof using All.
  intros Hk Hsd0. unfold kept_tombstones. destruct (bottommost_level_ o); [|done]. destruct (append_key _ Hk) as (K1 & _ & K3).
  apply eq_iff_eq_true. unfold covering. rewrite !existsb_exists. split; [intros (t & [Ht _]%List.filter_In & H); by exists t|].
  intros (t & Ht & H). exists t. split; [|done]. apply List.filter_In. split; [done|]. apply Z.ltb_lt. rewrite !andb_true_iff, !Z.leb_le, !Z.ltb_lt in H.
  destruct H as [[[H1 H2] H3] H4]. apply Z.nle_gt. intros Hle. enough (ShouldDelete o (AppendInternalKey [] (mkParsed u seq ty)) = true) by congruence.
  apply Hsd; [done|]. rewrite K3. cbn [user_key sequence]. exists t. split; [by apply list_elem_of_In|]. split_and!; [done..|].
  apply Z.le_trans with (earliest_snapshot_ o); [done|]. apply earliest_reader, stripe_reader.
Qed.

(** ** The rest of the input *)

Lemma contract_tail e l : contract (e :: l) → contract l.
Proof using.
  intros H u Wu vs (x & Hx & Hs). destruct (H u Wu) as [H1 H2].
  { exists x. split; [|done]. cbn. destruct (version_of u e); [by right|done]. }
  cbn in H1, H2. destruct (version_of u e); [|done]. split; [intros y Hy; apply H1; by right|]. intros i a b Ha Hb. by apply (H2 (S i)).
Qed.
Lemma contract_suffix l l' : contract (l ++ l') → contract l'.
Proof using. induction l as [|e l IH]; [done|]. cbn. intros H%contract_tail. by apply IH. Qed.
Lemma entries_suffix l l' : entries_ok (l ++ l') → entries_ok l'.
Proof using.
  intros [Hf Hs]. split; [by apply Forall_app in Hf as [_ ?]|]. induction l as [|e l IH]; [done|]. inversion_clear Hf. inversion_clear Hs. by apply IH.
Qed.

Section Ready.
Context (start : Content * Status) (out : list Entry) (s : t B) (e : Entry) (rest : list Entry) (Hr : ready start out s e rest).
#[local] Abbreviation u := (current_user_key_ s).
#[local] Abbreviation k0 := (current_user_key_snapshot_ s).
#[local] Abbreviation k := (stripe (entry_seq e)).

Lemma ready_inv : inv start out (mkCore (e :: rest) true u k0 (current_user_key_sequence_ s) (clear_and_output_next_key_ s) (last_key_seq_zeroed_ s)
  (level_ptrs_ s) (current_key_ s) (current_key_committed_ s) (merge_out_iter_ s) (status_ s)).
Proof using Hr. pose proof (rd_inv _ _ _ _ _ Hr) as H. unfold core in H. by rewrite (rd_input _ _ _ _ _ Hr), (rd_has _ _ _ _ _ Hr) in H. Qed.
Lemma ready_entries : Forall entry_ok rest ∧ entry_ok e ∧ cur_ok (Some (u, k0)) (e :: rest) ∧ wf u ∧ (∀ x, x ∈ rest → version_of u x = true → entry_seq x <= entry_seq e).
Proof using All.
  destruct ready_inv as [_ [Hf Hs] Hc _ _ _ _ _ _ _ _ _ _ _]. cbn in Hf, Hs, Hc. inversion_clear Hf as [|? ? He Hf']. inversion_clear Hs as [|? ? _ Hall]. split_and!; try done; [apply Hc|].
  intros x Hx Hv. rewrite Forall_forall in Hall, Hf'. destruct (entries_order wf c e x He (Hf' x Hx) (proj1 (Hall x Hx))) as [_ H]. apply H.
  unfold CompactionViews.version_of in Hv. apply andb_true_iff in Hv as [_ Hv%same_key_spec]. pose proof (rd_version _ _ _ _ _ Hr) as Hu%same_key_spec.
  destruct (entry_parsed wf e He) as [We _], (entry_parsed wf x (Hf' x Hx)) as [Wx _]. apply (key_eq_trans wf c _ u); [done|apply Hc|done|done|]. apply cmp_flip_eq; [done|apply Hc|done].
Qed.
Lemma ready_key ty : is_u 8 ty → InternalKeyOrder.key_ok wf (mkParsed u (entry_seq e) ty).
Proof using All.
  intros Ht. destruct ready_entries as (_ & He & _ & Wu & _). destruct (entry_key_parts e He) as (_ & _ & _ & [(_ & Hq & _) _]).
  destruct (in_key _ _ _ ready_inv eq_refl) as (Hk & Eu & _). cbn in Hk, Eu. split; [|done]. split_and!; try done. cbn [user_key]. rewrite <- Eu. apply bytes_ok_ztake, Hk.
Qed.
Lemma ready_type : is_u 8 (entry_type e) ∧ point_type (entry_type e) = true.
Proof using All.
  destruct ready_entries as (_ & He & _). destruct (entry_key_parts e He) as (_ & _ & _ & [(_ & _ & Ht) _]). split; [done|]. apply He, Hr.
Qed.
Lemma ready_version : version_of u e = true.
Proof using Hr. unfold CompactionViews.version_of. by rewrite (rd_point _ _ _ _ _ Hr), (rd_version _ _ _ _ _ Hr). Qed.

Lemma ready_positive : 0 < k.
Proof using Hr. apply (in_positive _ _ _ ready_inv). left. Qed.
Lemma rest_positive x : x ∈ rest → 0 < stripe (entry_seq x).
Proof using Hr. intros Hx. apply (in_positive _ _ _ ready_inv). by right. Qed.
Lemma ready_stripe : 0 <= earliest_snapshot_ o <= k ∧ (k0 = 0 ∨ k <= k0).
Proof using All.
  destruct ready_entries as (Hf & He & Hc & Wu & Hseq). split; [|by apply (step_old wf c _ Hsn T T' below out rest e u k0); try done; apply Hr]. split; [|apply earliest_reader, stripe_reader].
  destruct earliest_is_reader as [H|H]; [apply Hsn in H; lia|rewrite H; by vm_compute].
Qed.

(** The state after an entry: the input goes on with [rest']. *)
Definition next_in_front (y x : Entry) : Prop := IsDeleteRangeSentinelKey y = false → IsDeleteRangeSentinelKey x = false →
  Compare c (entry_user_key y) (entry_user_key x) <= 0 ∧ (Compare c (entry_user_key y) (entry_user_key x) = 0 →
    entry_seq x < entry_seq y ∨ last_key_seq_zeroed_ s = true ∧ version_of u x = true).
Lemma inv_next out' skipped rest' clear' ptrs' current' : rest = skipped ++ rest' → (∀ x, x ∈ out → x ∈ out') →
  same_views (content out' (Some (u, k)) rest') (content out (Some (u, k0)) (e :: rest)) →
  (ptrs' = level_ptrs_ s ∨ ptrs_ok u ptrs' ∨ compaction_ o = None) → ikey_ok current' → ExtractUserKey current' = u →
  (clear' = true → last_key_seq_zeroed_ s = false ∧ anchored out' u k ∧ ∃ n l, rest' = n :: l ∧ dead u k n = true ∧ is_value (entry_type n) = true) →
  Forall entry_ok out' ∧ StronglySorted (entry_lt c) out' → (∀ y x, y ∈ out' → x ∈ rest' → next_in_front y x) →
  inv start out' (mkCore rest' true u k (entry_seq e) clear' (last_key_seq_zeroed_ s) ptrs' current' true (merge_out_iter_ s) (status_ s)).
Proof using All.
  intros Er Hsub Hviews Hptrs Hcur' Hcu Hclear Hout' Hord'. destruct ready_entries as (Hf & He & Hc & Wu & Hseq). pose proof ready_inv as Hinv. pose proof ready_stripe as [Hpos Hold0].
  assert (∀ x, x ∈ rest' → x ∈ rest) as Hin by (intros x Hx; rewrite Er; apply elem_of_app; by right).
  pose proof (cur_next wf c _ Hsn T T' below out rest e u k0 Hf He (rd_point _ _ _ _ _ Hr) (rd_version _ _ _ _ _ Hr) Hc Hseq) as [_ Hc'].
  destruct Hinv as [Hv Hi _ _ Hkey _ Hz Hcon Hold Hp Hm Hst Hout Hord Hps]. core_simpl_all. split; core_simpl; try done.
  - intros r w Hr' Ww. rewrite Hviews by done. by apply Hv.
  - apply (entries_suffix (e :: skipped)). cbn [app]. by rewrite <- Er.
  - split; [done|]. intros x Hx. by apply Hc', Hin.
  - intros _ x Hx. by apply Hseq, Hin.
  - intros Hcl. split; [done|]. by apply Hclear.
  - intros _ Hz'. destruct (Hz eq_refl Hz') as [(a & Ha & Hrest) (Hb & Hk & Hk')]. split; [exists a; split; [by apply Hsub|done]|]. split; [done|lia].
  - apply (contract_suffix (e :: skipped)). cbn [app]. by rewrite app_assoc, <- Er.
  - intros x y Hx. apply Hold. right. by apply Hin.
  - intros x Hx. destruct Hptrs as [-> |[Hpt|]]; [by apply Hp; right; apply Hin| |by right]. left. destruct (Hc' x (Hin x Hx)) as [Hle _].
    rewrite Forall_forall in Hf. eapply (bo_mono wf c u); try done. apply (entry_parsed wf x (Hf x (Hin x Hx))).
  - intros y x Hy Hx Hny Hnx. destruct (Hord' y x Hy Hx Hny Hnx) as [Hle Hz']. split; [done|]. intros E. destruct (Hz' E) as [|[? ?]]; [by left|by right].
  - intros x Hx. apply Hps. right. by apply Hin.
Qed.

(** The next key is another one. *)
Definition other_key_first (l : list Entry) : Prop := match l with [] => True | x :: _ => same_key c u x = false end.
Lemma rest_ok skipped rest' : rest = skipped ++ rest' → entries_ok rest' ∧ ∀ x, x ∈ rest' → x ∈ rest ∧ Compare c u (entry_user_key x) <= 0.
Proof using All.
  intros Er. split; [|intros x Hx; assert (x ∈ rest) by (rewrite Er; apply elem_of_app; by right)].
  - apply (entries_suffix (e :: skipped)). cbn. rewrite <- Er. apply (in_input _ _ _ ready_inv).
  - split; [done|]. destruct ready_entries as (_ & _ & [_ Hc] & _). apply Hc. by right.
Qed.
Lemma passed_rest skipped rest' : rest = skipped ++ rest' → other_key_first rest' → ∀ x, x ∈ rest' → Compare c u (entry_user_key x) < 0.
Proof using All.
  intros Er Hk. destruct (rest_ok skipped rest' Er) as [Hi Hge]. destruct rest' as [|y l]; [intros x Hx; by apply elem_of_nil in Hx|]. destruct ready_entries as (_ & _ & _ & Wu & _).
  apply rest_keys; [done..|]. destruct (Hge y ltac:(left)) as [_ Hle]. cbn in Hk. unfold same_key in Hk. apply Z.eqb_neq in Hk.
  destruct (Z.eq_dec (Compare c u (entry_user_key y)) 0) as [E|]; [|lia]. apply cmp_flip_eq in E; [done..|]. apply (entry_parsed wf y). apply (proj1 (Forall_forall _ _) (proj1 Hi)). left.
Qed.
Lemma inv_forget skipped out' rest' q clear' zeroed' ptrs' current' committed' m st : rest = skipped ++ rest' → other_key_first rest' →
  inv start out' (mkCore rest' true u k q clear' zeroed' ptrs' current' committed' m st) → inv start out' (mkCore rest' false u k q false zeroed' ptrs' current' committed' m st).
Proof using All.
  intros Er Hot [Hv Hi _ _ _ _ _ Hcon Hold Hp Hm Hst Hout Hord Hps]. destruct ready_entries as (_ & _ & _ & Wu & _). core_simpl_all. pose proof (passed_rest skipped rest' Er Hot) as Hlt. split; core_simpl; try done.
  - intros r w Hr' Ww. rewrite <- (Hv r w Hr' Ww). unfold CompactionViews.content. rewrite live_passed; [done..|apply Hi|done].
  - intros y x Hy Hx Hny Hnx. destruct (Hord y x Hy Hx Hny Hnx) as [Hle Hz']. split; [done|]. intros E. destruct (Hz' E) as [|(_ & _ & Hver)]; [by left|exfalso]. specialize (Hlt x Hx).
    core_simpl_in Hver. unfold CompactionViews.version_of in Hver. apply andb_true_iff in Hver as [_ Hver%same_key_spec]. destruct Hi as [Hf _]. rewrite Forall_forall in Hf.
    destruct (entry_parsed wf x (Hf x Hx)) as [Wx _]. apply cmp_flip_lt in Hlt; [lia|done..].
Qed.

Lemma forget_if skipped out' has rest' q clear' zeroed' ptrs' current' committed' m st : rest = skipped ++ rest' → (has = false → other_key_first rest' ∧ clear' = false) →
  inv start out' (mkCore rest' true u k q clear' zeroed' ptrs' current' committed' m st) → inv start out' (mkCore rest' has u k q clear' zeroed' ptrs' current' committed' m st).
Proof using All. intros Er Hot Hi. destruct has; [done|]. destruct (Hot eq_refl) as [H ->]. by apply (inv_forget skipped out' rest' q false). Qed.

(** ** The rules *)

(** What a rule leaves: the rest of the input, or an entry to put out. *)
Definition rule_ok (r : option (Rule (B := B))) : Prop := ∃ s', r = Some (Done s' None) ∧
  (Valid s' = false ∧ at_next_ s' = false ∧ inv start out (core s') ∧ (length (input_ s') <= length rest)%nat ∨
   output_ok start out s' ∧ (length (input_ (advanced s')) <= length rest)%nat).
(** The state in which the rules are tried. *)
Definition entered : t B := set_released_snapshots (set_current_user_key_snapshot (set_current_user_key_sequence s (entry_seq e)) k) (released_snapshots_ s).
Definition after (has : bool) (rest' : list Entry) (clear' : bool) (ptrs' : list Z) (ty : Z) : Core :=
  mkCore rest' has u k (entry_seq e) clear' (last_key_seq_zeroed_ s) ptrs' (AppendInternalKey [] (mkParsed u (entry_seq e) ty)) true (merge_out_iter_ s) (status_ s).

Lemma ready_committed : current_key_committed_ s = true.
Proof using Hr. destruct (in_key _ _ _ ready_inv eq_refl) as (_ & _ & H). exact H. Qed.
#[local] Ltac state := unfold advanced, entered, after; core_simpl; rewrite ?(rd_at_next _ _ _ _ _ Hr); core_simpl;
  rewrite ?(rd_input _ _ _ _ _ Hr), ?(rd_has _ _ _ _ _ Hr), ?(rd_ikey _ _ _ _ _ Hr), ?(rd_value _ _ _ _ _ Hr), ?ready_committed; core_simpl.
#[local] Ltac fields := unfold Valid; state; rewrite ?(rd_valid _ _ _ _ _ Hr), ?(rd_current _ _ _ _ _ Hr); cbn [tail]; try first [done | solve [apply Hr] | by left].
Lemma point_extended ty : point_type ty = true → IsExtendedValueType ty = true.
Proof using. unfold point_type, is_value. rewrite !orb_true_iff, !Z.eqb_eq. by intros [[[[-> | ->]| ->]| ->]| ->]. Qed.
Lemma written_entry_ok ty v : is_u 8 ty → point_type ty = true → entry_ok (written u (entry_seq e) ty v).
Proof using All.
  intros Ht Hpt. pose proof (ready_key ty Ht) as Hk. destruct (written_parts _ _ _ v Hk) as (_ & _ & E). split; [apply (append_key _ Hk)|rewrite E; by apply point_extended|by rewrite E].
Qed.
Lemma drop_order skipped rest' y x : rest = skipped ++ rest' → y ∈ out → x ∈ rest' → next_in_front y x.
Proof using All.
  intros Er Hy Hx Hny Hnx. destruct (in_order _ _ _ ready_inv y x Hy) as [Hle Hz]; [right; rewrite Er; apply elem_of_app; by right|done..|]. split; [done|]. intros E. destruct (Hz E) as [|(_ & ? & ?)]; [by left|by right].
Qed.
(** What is put out comes after what was put out before, and before the rest. *)
Lemma emit_order skipped rest' ty v : rest = skipped ++ rest' → last_key_seq_zeroed_ s = false → is_u 8 ty → point_type ty = true → let w := written u (entry_seq e) ty v in
  (Forall entry_ok (out ++ [w]) ∧ StronglySorted (entry_lt c) (out ++ [w])) ∧ ∀ y x, y ∈ out ++ [w] → x ∈ rest' → next_in_front y x.
Proof using All.
  intros Er Hz Ht Hpt w. pose proof (written_entry_ok ty v Ht Hpt) as Hw. fold w in Hw. destruct (written_parts _ _ _ v (ready_key ty Ht)) as (W1 & W2 & _). fold w in W1, W2.
  destruct ready_entries as (Hf & He & [_ Hc] & Wu & _). pose proof (rd_version _ _ _ _ _ Hr) as Hue%same_key_spec. destruct (entry_parsed wf e He) as [We _].
  destruct (in_out _ _ _ ready_inv) as [Ho1 Ho2]. split; [split; [by apply Forall_app; split; [|constructor]|apply StronglySorted_snoc; [done|]]|].
  - intros y Hy Hny _. rewrite Forall_forall in Ho1. pose proof (Ho1 y Hy) as Hoy. destruct (entry_parsed wf y Hoy) as [Wy _]. destruct (in_order _ _ _ ready_inv y e Hy ltac:(left) Hny (rd_point _ _ _ _ _ Hr)) as [Hle Hlt].
    apply (entry_lt_iff wf c); [done..|]. rewrite W1, W2. assert (Compare c (entry_user_key y) u <= 0) as Hle' by (apply (cmp_le_trans _ (entry_user_key e)); [done..|lia]).
    destruct (Z.eq_dec (Compare c (entry_user_key y) u) 0) as [E|]; [right|left; lia]. split; [done|]. left. destruct Hlt as [|(_ & Hz' & _)]; [|done|cbn in Hz'; congruence].
    apply (key_eq_trans wf c _ u); [done..|]. by apply cmp_flip_eq.
  - intros y x [Hy| ->%list_elem_of_singleton]%elem_of_app Hx; [by apply (drop_order skipped rest')|]. intros _ Hnx. rewrite W1, W2.
    assert (x ∈ rest) as Hxr by (rewrite Er; apply elem_of_app; by right). split; [apply (Hc x); by right|]. intros E. left.
    destruct (in_input _ _ _ ready_inv) as [_ Hs]. cbn in Hs. inversion_clear Hs as [|? ? _ Hall]. rewrite Forall_forall in Hall, Hf. apply (Hall x Hxr); [apply Hr|done|].
    destruct (entry_parsed wf x (Hf x Hxr)) as [Wx _]. by apply (key_eq_trans wf c _ u).
Qed.
Lemma emit_rule s1 has skipped rest' clear' ptrs' ty v : rest = skipped ++ rest' → (has = false → other_key_first rest' ∧ clear' = false) → core (advanced s1) = after has rest' clear' ptrs' ty →
  Valid s1 = true → is_range_del_ s1 = false → key_ s1 = OfCurrent → ikey_ s1 = mkParsed u (entry_seq e) ty → value_ s1 = v → is_u 8 ty → point_type ty = true →
  same_views (content (out ++ [written u (entry_seq e) ty v]) (Some (u, k)) rest') (content out (Some (u, k0)) (e :: rest)) →
  (ptrs' = level_ptrs_ s ∨ ptrs_ok u ptrs' ∨ compaction_ o = None) →
  (clear' = true → ∃ n l, rest' = n :: l ∧ dead u k n = true ∧ is_value (entry_type n) = true) →
  (bottommost_level_ o = true → entry_seq e <= earliest_snapshot_ o → is_value ty = true) → last_key_seq_zeroed_ s = false → (is_value ty = true → has = true ∧ clear' = false) →
  rule_ok (Some (Done s1 None)).
Proof using All.
  intros Er Hot Ec Hv Hn Hk Hik Hval Ht Hpt Hviews Hptrs Hclear Hzero Hnz Hval'. exists s1. split; [done|]. right. destruct (append_key _ (ready_key ty Ht)) as (K1 & K2 & _). cbn [user_key] in K2.
  destruct (written_parts u (entry_seq e) ty v (ready_key ty Ht)) as (W1 & W2 & _). destruct ready_entries as (_ & He & _ & Wu & _). destruct (entry_parsed wf e He) as [_ Hq].
  assert (current_key_ s1 = AppendInternalKey [] (mkParsed u (entry_seq e) ty)) as Ecur.
  { pose proof (f_equal c_current Ec) as H. unfold advanced in H. by destruct (at_next_ s1). }
  assert (output s1 = written u (entry_seq e) ty v) as Eo by (unfold output, written, key; by rewrite Hk, Hn, Hval, Ecur).
  split; [|pose proof (f_equal c_input Ec) as H; cbn in H; rewrite H, Er, length_app; lia]. destruct (emit_order skipped rest' ty v Er Hnz Ht Hpt) as [Hso Hord]. split; [done| | | | |by rewrite Hn].
  - rewrite Ec, Eo. unfold after. apply (forget_if skipped); [done..|]. apply (inv_next _ skipped rest'); try done; [intros x Hx; apply elem_of_app; by left|]. intros Hcl. split; [done|]. split; [|by apply Hclear].
    exists (written u (entry_seq e) ty v). split; [apply elem_of_app; right; left|]. split; [done|]. rewrite W1, W2. split; [by apply cmp_refl|]. split; [done|].
    intros r Hr' Hle. by apply (proj2 (stripe_le _ Hsn _ _ (proj2 Hq) Hr')).
  - intros _. rewrite Hik. split_and!; try done; [by apply ready_key|]. pose proof (f_equal c_user_key Ec) as H. unfold advanced in H. by destruct (at_next_ s1).
  - intros _. by rewrite Hik.
  - intros _. rewrite Hik, Ec. intros Hvt. destruct (Hval' Hvt) as [-> ->]. split_and!; [done..|apply ready_positive].
Qed.
Lemma drop_rule s1 has skipped rest' ptrs' : rest = skipped ++ rest' → (has = false → other_key_first rest') → core s1 = after has rest' false ptrs' (entry_type e) → Valid s1 = false → at_next_ s1 = false →
  same_views (content out (Some (u, k)) rest') (content out (Some (u, k0)) (e :: rest)) →
  (ptrs' = level_ptrs_ s ∨ ptrs_ok u ptrs' ∨ compaction_ o = None) → rule_ok (Some (Done s1 None)).
Proof using All.
  intros Er Hot Ec Hv Ha Hviews Hptrs. exists s1. split; [done|]. left. destruct (append_key _ (ready_key (entry_type e) (proj1 ready_type))) as (K1 & K2 & _).
  split_and!; try done; [|pose proof (f_equal c_input Ec) as H; cbn in H; rewrite H, Er, length_app; lia]. rewrite Ec. unfold after. apply (forget_if skipped); [done|by intros ->; split; [apply Hot|]|]. apply (inv_next _ skipped rest'); try done; [apply (in_out _ _ _ ready_inv)|]. intros y x. by apply (drop_order skipped).
Qed.

(** A value behind a single deletion is put out without its value. *)
Lemma clear_rule : clear_and_output_next_key_ s = true → rule_ok (clear_put entered k0).
Proof using All.
  intros Hcl. destruct (in_clear _ _ _ ready_inv Hcl) as (_ & Hnz & Ha & n & l & Hin & Hd & Hv). cbn in Hnz, Ha, Hin, Hd. injection Hin as <- <-.
  destruct ready_entries as (_ & He & _ & Wu & _). destruct (entry_parsed wf e He) as [_ Hq]. pose proof Hd as Hk. unfold CompactionViews.dead in Hk. rewrite !andb_true_iff, Z.eqb_eq in Hk.
  destruct Hk as [[_ Hk] _]. unfold clear_put, entered. state. unfold is_value in Hv. rewrite Hv.
  rewrite <- Hk, Z.ltb_irrefl. cbn [negb assertion mbind option_bind].
  assert (is_u 8 kTypeValue) as Ht by (by vm_compute). destruct (written_parts u (entry_seq e) kTypeValue [] (ready_key _ Ht)) as (W1 & W2 & _).
  assert (same_views (content (out ++ [written u (entry_seq e) kTypeValue []]) (Some (u, k)) rest) (content out (Some (u, k0)) (e :: rest))) as Hviews.
  { rewrite Hk. apply emit_hidden; try done; rewrite ?W1, ?W2; [by apply cmp_refl|done|]. intros r Hr' Hle. rewrite <- Hk. by apply (proj1 (stripe_le _ Hsn _ _ (proj2 Hq) Hr')). }
  destruct (entry_type e =? kTypeValue) eqn:Ev.
  - apply Z.eqb_eq in Ev. rewrite Ev. change ((kTypeValue =? kTypeBlobIndex) || (kTypeValue =? kTypeWideColumnEntity)) with false. cbv iota.
    apply (emit_rule _ true [] rest false (level_ptrs_ s) kTypeValue []); try done; fields; by rewrite Ev.
  - cbn [orb] in Hv. rewrite Hv. unfold retype. state. apply (emit_rule _ true [] rest false (level_ptrs_ s) kTypeValue []); try done; fields.
    destruct (in_key _ _ _ ready_inv eq_refl) as (Hk1 & Hk2 & _). cbn in Hk1, Hk2. rewrite (rd_current _ _ _ _ _ Hr) in Hk1, Hk2. by rewrite (update_key _ _ _ _ Hk1 Hk2).
Qed.

Lemma ready_same : wf (entry_user_key e) ∧ Compare c (entry_user_key e) u = 0 ∧ Compare c u (entry_user_key e) = 0.
Proof using All.
  destruct ready_entries as (_ & He & _ & Wu & _). destruct (entry_parsed wf e He) as [We _]. pose proof (rd_version _ _ _ _ _ Hr) as Hv%same_key_spec.
  split_and!; try done. by apply cmp_flip_eq.
Qed.
Lemma ready_ptrs : ptrs_ok u (level_ptrs_ s) ∨ compaction_ o = None.
Proof using All.
  destruct (in_ptrs _ _ _ ready_inv e ltac:(left)) as [H|]; [left|by right]. cbn in H. destruct ready_same as (We & H1 & H2). destruct ready_entries as (_ & _ & _ & Wu & _).
  eapply (bo_mono wf c (entry_user_key e)); try done. lia.
Qed.
Lemma ready_older x : x ∈ below → version_of u x = true → entry_seq x <= entry_seq e.
Proof using All.
  intros Hx Hv. apply (in_older _ _ _ ready_inv e x ltac:(left) Hx). destruct ready_same as (We & H1 & H2). destruct ready_entries as (_ & _ & _ & Wu & _).
  unfold CompactionViews.version_of in *. apply andb_true_iff in Hv as [Hn Hv]. rewrite Hn. rewrite Forall_forall in Hbelow. by rewrite (same_key_cong wf c u (entry_user_key e) x Wu We (Hbelow x Hx) H2).
Qed.
Lemma all_see r : reader r → entry_seq e <= earliest_snapshot_ o → entry_seq e <= r.
Proof using All. intros Hr' Hle. pose proof (earliest_reader r Hr'). lia. Qed.

Lemma beyond_spec s1 guard : ikey_ s1 = mkParsed u (entry_seq e) (entry_type e) → level_ptrs_ s1 = level_ptrs_ s → ∃ b ptrs, key_not_beyond o s1 guard = (b, set_level_ptrs s1 ptrs) ∧
  (ptrs_ok u ptrs ∨ compaction_ o = None) ∧ (b = true → guard = true ∧ entry_seq e <= earliest_snapshot_ o ∧ ∀ x, x ∈ below → version_of u x = false) ∧
  (b = false → guard = true → bottommost_level_ o = true → earliest_snapshot_ o < entry_seq e).
Proof using All.
  intros Ei Ep. unfold key_not_beyond. pose proof ready_ptrs as Hp. destruct ready_entries as (_ & _ & _ & Wu & _).
  assert (s1 = set_level_ptrs s1 (level_ptrs_ s)) as E1 by (rewrite <- Ep; by destruct s1).
  destruct (compaction_ o) as [cp|] eqn:Ec; [|exists false, (level_ptrs_ s); split_and!; try done; [by rewrite <- E1|unfold bottommost_level_; by rewrite Ec]].
  unfold DefinitelyInSnapshot. rewrite (pl_checker _ _ Ho), andb_true_r, Ei. core_simpl. destruct Hp as [Hp|]; [|done].
  destruct (guard && (entry_seq e <=? earliest_snapshot_ o)) eqn:Eg.
  - apply andb_true_iff in Eg as [-> Hle%Z.leb_le]. rewrite Ep. destruct (KeyNotExistsBeyondOutputLevel cp u (level_ptrs_ s)) as [b ptrs] eqn:Eb.
    pose proof (bo_keeps wf c cp u _ Ec Wu Hp) as Hk. pose proof (bo_absent wf c cp u _ Ec Wu Hp) as Ha. pose proof (λ H, bo_bottommost wf c cp u _ Ec H Wu Hp) as Hb.
    rewrite Eb in Hk, Ha, Hb. exists b, ptrs. split_and!; try done; [by left|intros ->; split_and!; try done; by apply Ha|]. intros -> _ Hbm.
    unfold bottommost_level_ in Hbm. rewrite Ec in Hbm. apply andb_true_iff in Hbm as [Hbm _]. by destruct (Hb Hbm).
  - exists false, (level_ptrs_ s). split_and!; try done; [by rewrite <- E1|by left|]. intros _ -> _. cbn [andb] in Eg. apply Z.leb_gt in Eg. lia.
Qed.

(** An entry that is hidden by a newer one of its stripe. *)
Lemma hidden_rule : clear_and_output_next_key_ s = false → single_del e = false → k0 = k → rule_ok (Some (Done (AdvanceInputIter entered) None)).
Proof using All.
  intros Hcl Hs Hk. apply (drop_rule _ true [] rest (level_ptrs_ s)); try done; fields; [by rewrite Hcl|].
  intros r w Hr' Ww. rewrite Hk. unfold CompactionViews.content. rewrite live_cons_dead; [done|]. unfold CompactionViews.dead. pose proof ready_positive.
  by rewrite ready_version, Hs, Z.eqb_refl, (proj2 (Z.eqb_neq k 0)) by lia.
Qed.
Lemma not_dead : k0 ≠ k → dead u k0 e = false.
Proof using All. intros Hk. unfold CompactionViews.dead. rewrite (proj2 (Z.eqb_neq _ _)) by done. by rewrite andb_false_r. Qed.
Lemma not_zeroed : k0 ≠ k → last_key_seq_zeroed_ s = false.
Proof using All.
  intros Hk. destruct (last_key_seq_zeroed_ s) eqn:E; [|done]. destruct (in_zeroed _ _ _ ready_inv eq_refl E) as (_ & _ & E'). cbn in E'. pose proof ready_stripe. lia.
Qed.
Lemma obsolete_rule ptrs : clear_and_output_next_key_ s = false → k0 ≠ k → is_value (entry_type e) = false → entry_seq e <= earliest_snapshot_ o → (∀ x, x ∈ below → version_of u x = false) →
  (ptrs_ok u ptrs ∨ compaction_ o = None) → rule_ok (Some (Done (AdvanceInputIter (set_level_ptrs entered ptrs)) None)).
Proof using All.
  intros Hcl Hk Hv Hle Hno Hp. destruct ready_entries as (Hf & He & Hc & Wu & Hseq). apply (drop_rule _ true [] rest ptrs); try done; fields; [by rewrite Hcl| |by right].
  apply drop_obsolete; try exact ready_positive; try done; try apply Hr; [by apply not_dead|]. intros r Hr'. by apply all_see.
Qed.

(** An entry stands for itself, unless a tombstone that is dropped covers it. *)
Lemma stands_written : (is_value (entry_type e) = true → ShouldDelete o (AppendInternalKey [] (mkParsed u (entry_seq e) (entry_type e))) = false) →
  stands_for wf c (snapshots_ o) T T' (written u (entry_seq e) (entry_type e) (entry_value e)) e.
Proof using All.
  intros Hsd0. pose proof (ready_key _ (proj1 ready_type)) as Hko. destruct (written_parts _ _ _ (entry_value e) Hko) as (W1 & W2 & W3). destruct ready_same as (We & H1 & H2).
  destruct ready_entries as (_ & _ & _ & Wu & _). split; [done|]. rewrite W1, W2. split; [done|]. split; [done|]. intros r Hr'. split; [done|]. intros Hle. unfold seen. rewrite W1, W2, W3.
  destruct (is_value (entry_type e)) eqn:Ev; [|done]. rewrite (kept_covers _ _ _ r Hko) by auto. by rewrite (covering_cong T u (entry_user_key e)).
Qed.
Lemma new_rule ptrs : clear_and_output_next_key_ s = false → k0 ≠ k → single_del e = false → ((entry_type e =? kTypeDeletion) && bottommost_level_ o = false) →
  (ptrs_ok u ptrs ∨ compaction_ o = None) → rule_ok (Some (Done (new_stripe c o (set_level_ptrs entered ptrs)) None)).
Proof using All.
  intros Hcl Hk Hs Hdel Hp. destruct ready_entries as (Hf & He & Hc & Wu & Hseq). pose proof (not_dead Hk) as Hnd. destruct ready_same as (We & H1 & H2). destruct ready_type as [Ht Hpt].
  unfold new_stripe. rewrite (pl_ts _ _ Ho). cbn [Z.eqb orb andb]. unfold entered, key. core_simpl. rewrite (rd_key _ _ _ _ _ Hr), (rd_current _ _ _ _ _ Hr).
  destruct (ShouldDelete o _) eqn:Esd.
  - destruct (append_key _ (ready_key _ Ht)) as (K1 & _ & K3). apply (Hsd _ K1) in Esd. cbv zeta in Esd. rewrite K3 in Esd. cbn [user_key sequence] in Esd.
    destruct Esd as (t & Ht' & T1 & T2 & T3). destruct (HT t Ht') as [Wst Wen]. pose proof (cmp_eq_l (cmp := Compare c) _ _ (end_key_ t) We Wu Wen H1).
    apply (drop_rule _ true [] rest ptrs); try done; fields; [by rewrite Hcl| |by right].
    apply (drop_covered wf c _ Hsn T T' below out rest e u k0) with t; try done; try apply Hr; [|lia|apply ready_older]. apply (cmp_le_trans _ u); [done..|lia].
  - apply (emit_rule _ true [] rest false ptrs (entry_type e) (entry_value e)); try done; fields; [by rewrite Hcl| |by right| |by apply not_zeroed].
    + apply emit_step; try done; try apply Hr. by apply stands_written.
    + intros Hb _. rewrite Hb, andb_true_r in Hdel. unfold single_del in Hs. unfold point_type in Hpt. rewrite Hs, Hdel, !orb_false_r in Hpt. done.
Qed.

(** ** The entries that follow *)

Lemma next_key (s1 : t B) x : user_key (ikey_ s1) = u → entry_ok x →
  same_user_key c s1 x = if same_key c u x then Some (mkParsed (entry_user_key x) (entry_seq x) (entry_type x)) else None.
Proof using All.
  intros Eu Hx. destruct ready_entries as (_ & _ & _ & Wu & _). destruct (entry_parsed wf x Hx) as [Wx _], (entry_key_parts x Hx) as (E & _). unfold same_user_key. rewrite E, Eu.
  cbn [user_key]. change (ok Status_OK) with true. cbn [andb]. rewrite equal_keys by done. unfold same_key.
  replace (Compare c u (entry_user_key x) =? 0) with (Compare c (entry_user_key x) u =? 0); [done|]. apply eq_iff_eq_true. rewrite !Z.eqb_eq. split; by apply cmp_flip_eq.
Qed.
Lemma no_version_left skipped rest' : rest = skipped ++ rest' → other_key_first rest' → ∀ x, x ∈ rest' → version_of u x = false.
Proof using All.
  intros Er Hk x Hx. pose proof (passed_rest _ _ Er Hk x Hx) as Hlt. destruct (rest_ok _ _ Er) as [[Hf _] _]. destruct ready_entries as (_ & _ & _ & Wu & _).
  destruct (entry_parsed wf x (proj1 (Forall_forall _ _) Hf x Hx)) as [Wx _]. unfold CompactionViews.version_of, same_key. apply cmp_flip_lt in Hlt; [|done..].
  rewrite (proj2 (Z.eqb_neq _ _)) by lia. by rewrite andb_false_r.
Qed.

Definition same_stripe (prev : Z) : Prop := ∀ x, x <= entry_seq e → 0 < stripe x → (prev =? 0) || DefinitelyNotInSnapshot o x prev = (stripe x =? k).
Lemma skip_stripe_spec (s1 : t B) prev l : user_key (ikey_ s1) = u → Forall entry_ok l → (∀ x, x ∈ l → version_of u x = true → entry_seq x <= entry_seq e) →
  (∀ x, x ∈ l → 0 < stripe (entry_seq x)) → same_stripe prev →
  ∃ skipped rest' n, l = skipped ++ rest' ∧ skip_stripe c o s1 prev l = set_input (set_reads s1 n) rest' ∧
    (∀ x, x ∈ skipped → IsDeleteRangeSentinelKey x = true ∨ version_of u x = true ∧ stripe (entry_seq x) = k).
Proof using All.
  intros Eu Hl Hle Hpos Hst. revert s1 Eu. induction l as [|x l IH]; intros s1 Eu; cbn [skip_stripe]; unfold stopping, IsPausingManualCompaction, IsShuttingDown; core_simpl;
    rewrite (proj1 (pl_signals _ _ Ho _)), (proj2 (pl_signals _ _ Ho _)).
  - exists [], [], (S (S (reads_ s1))). split_and!; try done. intros x Hx. by apply elem_of_nil in Hx.
  - assert (∃ skipped rest' n, x :: l = skipped ++ rest' ∧ set_input (set_reads (set_reads s1 (S (reads_ s1))) (S (S (reads_ s1)))) (x :: l) = set_input (set_reads s1 n) rest' ∧
      (∀ y, y ∈ skipped → IsDeleteRangeSentinelKey y = true ∨ version_of u y = true ∧ stripe (entry_seq y) = k)) as Hstop.
    { exists [], (x :: l), (S (S (reads_ s1))). split_and!; try done. intros y Hy. by apply elem_of_nil in Hy. }
    inversion_clear Hl as [|? ? Hx Hl']. rewrite next_key by (done || core_simpl; done). destruct (same_key c u x) eqn:Ek; [|exact Hstop]. cbn [sequence].
    destruct ((prev =? 0) || IsDeleteRangeSentinelKey x || DefinitelyNotInSnapshot o (entry_seq x) prev) eqn:Eg; [|exact Hstop].
    destruct (IH Hl' ltac:(intros y Hy; apply Hle; by right) ltac:(intros y Hy; apply Hpos; by right) (set_reads (set_reads s1 (S (reads_ s1))) (S (S (reads_ s1)))) Eu) as (skipped & rest' & n & -> & Es & Hsk).
    exists (x :: skipped), rest', n. split; [done|]. split; [exact Es|]. intros y [-> |Hy]%elem_of_cons; [|by apply Hsk]. destruct (IsDeleteRangeSentinelKey x) eqn:En; [by left|right].
    rewrite orb_false_r in Eg. assert (version_of u x = true) as Hv by (unfold CompactionViews.version_of; by rewrite En, Ek). split; [done|].
    rewrite (Hst (entry_seq x)) in Eg; [by apply Z.eqb_eq|apply Hle; [left|done]|apply Hpos; left].
Qed.

(** An entry is put out, and what follows of its stripe is skipped. *)
Lemma keep_views skipped rest' : rest = skipped ++ rest' → (∀ x, x ∈ skipped → IsDeleteRangeSentinelKey x = true ∨ dead u k x = true) → dead u k0 e = false →
  (is_value (entry_type e) = true → ShouldDelete o (AppendInternalKey [] (mkParsed u (entry_seq e) (entry_type e))) = false) →
  same_views (content (out ++ [written u (entry_seq e) (entry_type e) (entry_value e)]) (Some (u, k)) rest') (content out (Some (u, k0)) (e :: rest)).
Proof using All.
  intros Er Hsk Hnd Hv r w Hr' Ww. destruct ready_entries as (Hf & He & Hc & Wu & Hseq). rewrite (skip_step wf c (snapshots_ o) T T' below _ u k rest' skipped Hsk r w Hr' Ww), <- Er.
  revert r w Hr' Ww. apply emit_step; try done; try apply Hr. by apply stands_written.
Qed.

(** ** Versions of the key *)

Lemma versions_first : List.filter (version_of u) ((e :: rest) ++ below) = e :: List.filter (version_of u) (rest ++ below).
Proof using All. cbn. by rewrite ready_version. Qed.
Lemma no_single_del : single_del e = false → is_value (entry_type e) = false → ∀ x, x ∈ rest → version_of u x = true → single_del x = false.
Proof using All.
  intros Hs Hv x Hx Hvx. destruct (single_del x) eqn:Esd; [|done]. exfalso. destruct ready_entries as (_ & _ & _ & Wu & _).
  destruct (in_contract _ _ _ ready_inv u Wu) as [H _]; cbn [c_input] in *; rewrite versions_first in *.
  - exists x. split; [|done]. right. apply list_elem_of_In, List.filter_In. split; [|done]. apply list_elem_of_In, elem_of_app. by left.
  - destruct (H e ltac:(left)); congruence.
Qed.
Lemma single_del_next skipped n rest' : rest = skipped ++ n :: rest' → (∀ x, x ∈ skipped → IsDeleteRangeSentinelKey x = true) → version_of u n = true → single_del e = true →
  is_value (entry_type n) = true ∧ first_single_del c u (rest' ++ below).
Proof using All.
  intros Er Hsk Hvn Hse. destruct ready_entries as (_ & _ & _ & Wu & _). assert (List.filter (version_of u) ((e :: rest) ++ below) = e :: n :: List.filter (version_of u) (rest' ++ below)) as Ef.
  { rewrite versions_first, Er, <- app_assoc, List.filter_app. cbn [app List.filter]. rewrite Hvn. f_equal. clear Er. induction skipped as [|x l IH]; [done|].
    cbn [List.filter]. unfold CompactionViews.version_of at 1. rewrite (Hsk x ltac:(left)). cbn [negb andb]. apply IH. intros y Hy. apply Hsk. by right. }
  destruct (in_contract _ _ _ ready_inv u Wu) as [H1 H2]; cbn [c_input] in *; rewrite Ef in *; [exists e; split; [left|done]|].
  pose proof (H2 0%nat e n eq_refl eq_refl) as Hn. rewrite Hse in Hn. cbn [negb] in Hn. split; [destruct (H1 n ltac:(right; left)); [congruence|done]|].
  unfold first_single_del. destruct (List.filter (version_of u) (rest' ++ below)) as [|y l] eqn:Ey; [done|]. by rewrite (H2 1%nat n y eq_refl eq_refl), Hn.
Qed.

(** A deletion at the bottommost level goes, with the rest of its stripe, unless older
    versions stay. *)
Lemma bottommost_rule prev ptrs : clear_and_output_next_key_ s = false → k0 ≠ k → entry_type e = kTypeDeletion → bottommost_level_ o = true → earliest_snapshot_ o < entry_seq e →
  same_stripe prev → (ptrs_ok u ptrs ∨ compaction_ o = None) → rule_ok (bottommost_deletion c o (set_level_ptrs entered ptrs) prev).
Proof using All.
  intros Hcl Hk Hty Hb Hlt Hst Hp. destruct ready_entries as (Hf & He & Hc & Wu & Hseq). pose proof (not_dead Hk) as Hnd.
  assert (single_del e = false ∧ is_value (entry_type e) = false) as [Hs Hv] by (unfold single_del; by rewrite Hty).
  destruct (compaction_ o) as [cp|] eqn:Ec; [|unfold bottommost_level_ in Hb; by rewrite Ec in Hb]. destruct Hp as [Hp|]; [|done].
  assert (below = [] ∧ fst (KeyNotExistsBeyondOutputLevel cp u ptrs) = true) as [Hbe Hno].
  { apply (bo_bottommost wf c); try done. unfold bottommost_level_ in Hb. rewrite Ec in Hb. by apply andb_true_iff in Hb as [Hb _]. }
  unfold bottommost_deletion. rewrite Ec. unfold entered. state. rewrite Hno. cbn [assertion mbind option_bind tail].
  edestruct (skip_stripe_spec (AdvanceInputIter (set_level_ptrs entered ptrs)) prev rest) as (skipped & rest' & n & Er & Es & Hsk); [fields|done|done|apply rest_positive|done|].
  unfold entered in Es. rewrite Es. clear Es.
  destruct (rest_ok _ _ Er) as [[Hf' _] _]. unfold next_same_key. core_simpl.
  assert (∀ x, x ∈ skipped → IsDeleteRangeSentinelKey x = true ∨ dead u k x = true) as Hsk'.
  { intros x Hx. destruct (Hsk x Hx) as [|[Hvx Hsx]]; [by left|right]. unfold CompactionViews.dead. pose proof ready_positive.
    rewrite Hvx, Hsx, Z.eqb_refl, (no_single_del Hs Hv x), (proj2 (Z.eqb_neq k 0)) by (done || lia || (rewrite Er; apply elem_of_app; by left)). done. }
  assert (rule_ok (Some (Done (set_at_next (SetValid (set_input (set_reads (AdvanceInputIter (set_level_ptrs entered ptrs)) n) rest') kKeepDel) true) None))) as Hkeep.
  { apply (emit_rule _ true skipped rest' false ptrs (entry_type e) (entry_value e)); try done; fields; try apply ready_type; [by rewrite Hcl| |by right; left|lia|by apply not_zeroed].
    apply (keep_views skipped); try done. congruence. }
  assert (other_key_first rest' → rule_ok (Some (Done (set_input (set_reads (AdvanceInputIter (set_level_ptrs entered ptrs)) n) rest') None))) as Hdrop.
  { intros Hot. apply (drop_rule _ true skipped rest' ptrs); try done; fields; [by rewrite Hcl| |by right; left].
    apply (drop_stripe wf c _ Hsn T T' below out rest e u k0) with skipped; try done; try apply Hr. rewrite Hbe, app_nil_r. by apply (no_version_left skipped). }
  destruct rest' as [|y l]; [by apply Hdrop|]. inversion_clear Hf' as [|? ? Hy _]. rewrite next_key; [|fields|done]. destruct (same_key c u y) eqn:Ey; [exact Hkeep|by apply Hdrop].
Qed.

(** ** Single deletions *)

Lemma skip_sentinels_spec (s1 : t B) l : user_key (ikey_ s1) = u → Forall entry_ok l → ∃ skipped rest', l = skipped ++ rest' ∧ skip_sentinels c s1 l = rest' ∧
  (∀ x, x ∈ skipped → IsDeleteRangeSentinelKey x = true) ∧ match rest' with [] => True | x :: _ => same_key c u x = true → IsDeleteRangeSentinelKey x = false end.
Proof using All.
  intros Eu. induction l as [|x l IH]; intros Hl; [exists [], []; split_and!; try done; intros y Hy; by apply elem_of_nil in Hy|]. inversion_clear Hl as [|? ? Hx Hl']. cbn [skip_sentinels].
  rewrite next_key by done. destruct (IsDeleteRangeSentinelKey x) eqn:En; cbn [andb]; [destruct (same_key c u x) eqn:Ek|].
  - destruct (IH Hl') as (skipped & rest' & -> & E & Hsk & Hh). exists (x :: skipped), rest'. split_and!; try done. intros y [-> |Hy]%elem_of_cons; auto.
  - exists [], (x :: l). split_and!; try done; [intros y Hy; by apply elem_of_nil in Hy|congruence].
  - exists [], (x :: l). split_and!; try done. intros y Hy. by apply elem_of_nil in Hy.
Qed.

Section SingleDel.
Context (Hcl : clear_and_output_next_key_ s = false) (Hs : single_del e = true) (skipped rest' : list Entry) (Er : rest = skipped ++ rest').
Context (Hsk : ∀ x, x ∈ skipped → IsDeleteRangeSentinelKey x = true).
#[local] Abbreviation moved := (set_input (AdvanceInputIter entered) rest').

Lemma single_del_facts : entry_type e = kTypeSingleDeletion ∧ is_value (entry_type e) = false ∧ dead u k0 e = false.
Proof using Hs.
  unfold single_del in Hs. apply Z.eqb_eq in Hs as E. split; [done|]. rewrite E. split; [done|]. unfold CompactionViews.dead, single_del. by rewrite Hs, andb_false_r.
Qed.
(** Behind an entry whose sequence number was set to zero everything goes. *)
Lemma zeroed_views more rest'' : rest' = more ++ rest'' → (∀ x, x ∈ more → version_of u x = true) → last_key_seq_zeroed_ s = true →
  bottommost_level_ o = true ∧ same_views (content out (Some (u, k)) rest'') (content out (Some (u, k0)) (e :: rest)).
Proof using All.
  intros Em Hm Hz. destruct (in_zeroed _ _ _ ready_inv eq_refl Hz) as [Ha [Hb _]]. cbn in Ha. destruct ready_entries as (Hf & He & _ & Wu & _). split; [done|].
  assert (rest = (skipped ++ more) ++ rest'') as Er' by (by rewrite <- app_assoc, <- Em). rewrite Er' in Hf |- *. apply Forall_app in Hf as [Hf1 Hf2].
  change (e :: (skipped ++ more) ++ rest'') with ((e :: skipped ++ more) ++ rest''). apply (hidden_step wf c _ Hsn T T' below out u); try done; [by constructor| |congruence..].
  intros x [-> |[Hx|Hx]%elem_of_app]%elem_of_cons; [right; apply ready_version|left; auto|right; auto].
Qed.
Lemma keep_single_del s1 has clear' ptrs : (has = false → other_key_first rest' ∧ clear' = false) → core (advanced s1) = after has rest' clear' ptrs (entry_type e) →
  Valid s1 = true → is_range_del_ s1 = false → key_ s1 = OfCurrent → ikey_ s1 = mkParsed u (entry_seq e) (entry_type e) → value_ s1 = entry_value e →
  (ptrs = level_ptrs_ s ∨ ptrs_ok u ptrs ∨ compaction_ o = None) → (clear' = true → ∃ n l, rest' = n :: l ∧ dead u k n = true ∧ is_value (entry_type n) = true) →
  (bottommost_level_ o = true → earliest_snapshot_ o < entry_seq e) → last_key_seq_zeroed_ s = false → rule_ok (Some (Done s1 None)).
Proof using All.
  intros Hot Ec Hv Hn Hk Hik Hval Hp Hclear Hlt Hnz. destruct single_del_facts as (Et & Hv' & Hnd). apply (emit_rule s1 has skipped rest' clear' ptrs (entry_type e) (entry_value e)); try done; try apply ready_type.
  - apply (keep_views skipped); try done; [|congruence]. intros x Hx. left. auto.
  - intros Hb Hle. specialize (Hlt Hb). lia.
  - congruence.
Qed.

(** A single deletion that is put out leaves the input at the next entry. *)
Definition marked (r : option (Rule (B := B))) : option Rule :=
  r ← r; Some (match r with Done s skip => Done (if Valid s then set_at_next s true else s) skip | Stop s => Stop s end).

Lemma pair_rule n l prev : rest' = n :: l → version_of u n = true → same_stripe prev → (prev = 0 ∨ earliest_snapshot_ o <= prev < entry_seq e) →
  rule_ok (marked (single_deletion_pair o moved (mkParsed (entry_user_key n) (entry_seq n) (entry_type n)) prev true)).
Proof using All.
  intros En Hvn Hst Hprev. destruct single_del_facts as (Et & Hv & Hnd). destruct ready_entries as (Hf & He & Hc & Wu & Hseq). pose proof Er as Ern. rewrite En in Ern.
  destruct (single_del_next skipped n l Ern Hsk Hvn Hs) as [Hval Hfirst]. assert (rest = (skipped ++ [n]) ++ l) as Er' by (by rewrite <- app_assoc).
  assert (n ∈ rest) as Hnin by (rewrite Ern; apply elem_of_app; right; left).
  assert (entry_seq n <= entry_seq e) as Hle by (by apply Hseq). pose proof (rest_positive n Hnin) as Hpn. pose proof ready_positive as Hpk.
  unfold marked, single_deletion_pair. state. destruct (last_key_seq_zeroed_ s) eqn:Ez.
  { destruct (zeroed_views [n] l En) as [Hb Hviews]; [by intros x ->%list_elem_of_singleton|done|]. rewrite Hb. cbn [assertion mbind option_bind]. unfold Valid. state. rewrite (rd_valid _ _ _ _ _ Hr).
    apply (drop_rule _ true (skipped ++ [n]) l (level_ptrs_ s)); try done; fields. by rewrite En, Hcl. }
  rewrite (Hst _ Hle Hpn). destruct (stripe (entry_seq n) =? k) eqn:Ek.
  - assert (entry_type n =? kTypeSingleDeletion = false ∧ entry_type n =? kTypeDeletion = false) as [-> ->].
    { unfold is_value in Hval. split; apply Z.eqb_neq; intros E; by rewrite E in Hval. }
    cbn [negb]. set (g := has_outputted_key_ s || _ || _). destruct g eqn:Eg; subst g.
    + unfold Valid. cbn [mbind option_bind]. state. rewrite (rd_valid _ _ _ _ _ Hr). apply (drop_rule _ true (skipped ++ [n]) l (level_ptrs_ s)); try done; fields; [by rewrite En, Hcl|].
      apply (drop_pair wf c _ Hsn T T' below out rest e u k0) with skipped n; try done; try apply Hr; [by apply Z.eqb_eq|apply ready_older].
    + cbn [mbind option_bind]. unfold Valid. state. apply (keep_single_del _ true true (level_ptrs_ s)); try done; fields.
      * intros _. exists n, l. split; [done|]. split; [|done]. unfold CompactionViews.dead. rewrite Hvn, Ek, (proj2 (Z.eqb_neq k 0)), orb_false_r by lia. unfold single_del.
        destruct (entry_type n =? kTypeSingleDeletion) eqn:E; [|done]. apply Z.eqb_eq in E. by rewrite E in Hval.
      * intros _. rewrite !orb_false_iff in Eg. destruct Eg as [[_ Eg] _]. unfold DefinitelyInSnapshot in Eg. rewrite (pl_checker _ _ Ho), andb_true_r in Eg. apply Z.leb_gt in Eg.
        pose proof (pl_conflicts _ _ Ho). lia.
  - cbn [mbind option_bind]. unfold Valid. state. apply (keep_single_del _ true false (level_ptrs_ s)); try done; fields; [by rewrite Hcl|]. intros _.
    destruct Hprev as [-> |]; [|lia]. specialize (Hst _ Hle Hpn). rewrite Ek in Hst. done.
Qed.
Lemma alone_rule : other_key_first rest' → rule_ok (marked (single_deletion_alone o moved true)).
Proof using All.
  intros Hot. destruct single_del_facts as (Et & Hv & Hnd). destruct ready_entries as (Hf & He & Hc & Wu & Hseq). unfold marked, single_deletion_alone.
  edestruct (beyond_spec (set_has_current_user_key moved false) true) as (b & ptrs & -> & Hp & Hgone & Hnot); [fields..|]. rewrite andb_true_r.
  assert (∀ out', same_views (content out' (Some (u, k)) rest') (content out' (Some (u, k)) rest)) as Hskip.
  { intros out'. rewrite Er. apply skip_step. intros x Hx. left. auto. }
  destruct b.
  - cbn [mbind option_bind]. unfold Valid. state. rewrite (rd_valid _ _ _ _ _ Hr). apply (drop_rule _ false skipped rest' ptrs); try done; fields; [by rewrite Hcl| |by right].
    intros r w Hr' Ww. rewrite (Hskip out r w Hr' Ww). revert r w Hr' Ww. destruct (Hgone eq_refl) as (_ & Hle & Hno). apply drop_obsolete; try exact ready_positive; try done; try apply Hr. intros r Hr'. by apply all_see.
  - state. destruct (last_key_seq_zeroed_ s) eqn:Ez.
    + destruct (zeroed_views [] rest' eq_refl) as [Hb Hviews]; [intros x Hx; by apply elem_of_nil in Hx|done|]. rewrite Hb. cbn [assertion mbind option_bind]. unfold Valid. state.
      rewrite (rd_valid _ _ _ _ _ Hr). apply (drop_rule _ false skipped rest' ptrs); try done; fields; [by rewrite Hcl|by right].
    + cbn [mbind option_bind]. unfold Valid. state. apply (keep_single_del _ false false ptrs); try done; fields; [by rewrite Hcl|by right|]. intros Hb. by apply Hnot.
Qed.
End SingleDel.

Lemma single_rule prev : clear_and_output_next_key_ s = false → single_del e = true → same_stripe prev → (prev = 0 ∨ earliest_snapshot_ o <= prev < entry_seq e) →
  rule_ok (single_deletion c o entered prev).
Proof using All.
  intros Hcl Hs Hst Hprev. destruct ready_entries as (Hf & _). unfold single_deletion. rewrite (pl_ts _ _ Ho). cbn [Z.eqb orb].
  edestruct (skip_sentinels_spec (AdvanceInputIter entered) rest) as (skipped & rest' & Er & Es & Hsk & Hh); [fields|done|].
  assert (input_ (AdvanceInputIter entered) = rest) as -> by fields. rewrite Es. unfold next_same_key. core_simpl. destruct rest' as [|n l]; [by apply (alone_rule Hcl Hs skipped)|].
  destruct (rest_ok _ _ Er) as [[Hf' _] _]. inversion_clear Hf' as [|? ? Hn _]. rewrite next_key; [|fields|done]. destruct (same_key c u n) eqn:Ek; [|by apply (alone_rule Hcl Hs skipped)].
  rewrite (Hh eq_refl). apply (pair_rule Hcl Hs skipped (n :: l) Er Hsk n l); try done. unfold CompactionViews.version_of. by rewrite (Hh eq_refl), Ek.
Qed.

Lemma rules_spec : rule_ok (apply_rules c o s None).
Proof using All.
  destruct ready_entries as (_ & He & [_ Hc] & Wu & _). destruct (entry_parsed wf e He) as [_ Hq]. destruct (snapshot_spec (released_snapshots_ s) (entry_seq e) (proj2 Hq)) as (prev & Esnap & Hst & Hprev).
  destruct ready_type as [Ht Hpt]. unfold apply_rules. state. rewrite Esnap. cbn [mbind option_bind]. fold entered. state. fold entered.
  destruct (clear_and_output_next_key_ s) eqn:Hcl; [by apply clear_rule|]. fold (single_del e). destruct (single_del e) eqn:Hs; [by apply single_rule|].
  destruct (Hc e ltac:(left)) as [_ Hk]. specialize (Hk ready_version).
  replace ((k0 =? k) || (0 <? k0) && (k0 <? k)) with (k0 =? k); [|destruct (k0 =? k) eqn:E; [done|]; apply Z.eqb_neq in E; destruct Hk as [-> |Hk]; [done|]; rewrite (proj2 (Z.ltb_ge k0 k)) by done; by rewrite andb_false_r].
  destruct (k0 =? k) eqn:Ek.
  { apply Z.eqb_eq in Ek. rewrite (proj2 (Z.ltb_ge _ _)) by (apply (in_seq _ _ _ ready_inv eq_refl e ltac:(left) ready_version)). cbn [negb assertion mbind option_bind]. by apply hidden_rule. }
  apply Z.eqb_neq in Ek. replace ((entry_type e =? kTypeDeletion) || _) with (entry_type e =? kTypeDeletion).
  2: { destruct (entry_type e =? kTypeDeletionWithTimestamp) eqn:E; [|by rewrite orb_false_r]. apply Z.eqb_eq in E. by rewrite E in Hpt. }
  edestruct (beyond_spec entered (entry_type e =? kTypeDeletion)) as (b & ptrs & -> & Hp & Hgone & Hnot); [fields..|]. destruct b.
  { destruct (Hgone eq_refl) as (Hd%Z.eqb_eq & Hle & Hno). apply obsolete_rule; try done. by rewrite Hd. }
  destruct ((entry_type e =? kTypeDeletion) && bottommost_level_ o) eqn:Ed.
  { apply andb_true_iff in Ed as [Ed Eb]. apply bottommost_rule; try done; [by apply Z.eqb_eq|by apply Hnot]. }
  destruct (entry_type e =? kTypeMerge) eqn:Em; [apply Z.eqb_eq in Em; by rewrite Em in Hpt|]. by apply new_rule.
Qed.
End Ready.

(** ** [NextFromInput] *)

(** The markers of range tombstones are put out as they are. *)
Lemma sentinel_spec start out s e rest : inv start out (core s) → at_next_ s = false → input_ s = e :: rest → IsDeleteRangeSentinelKey e = true →
  output_ok start out (SetValid (header s e) kRangeDeletion).
Proof using All.
  intros [Hv Hi Hc Hq Hk Hcl Hz Hcon Hold Hp Hm Hst Hout Hord Hps] Hat Ei Hn. core_simpl_all. rewrite Ei in *. cbn [app] in *.
  assert (clear_and_output_next_key_ s = false) as Ecl.
  { destruct (clear_and_output_next_key_ s) eqn:E; [|done]. destruct (Hcl eq_refl) as (_ & _ & _ & n & l & [= <- <-] & Hd & _). unfold CompactionViews.dead, CompactionViews.version_of in Hd. by rewrite Hn in Hd. }
  split; unfold header; try done; try (core_simpl; by rewrite Hn). unfold advanced. core_simpl. rewrite Hat. core_simpl. rewrite Ei. cbn [tail].
  split; core_simpl; try done.
  - intros r w Hr' Ww. rewrite <- (Hv r w Hr' Ww). unfold CompactionViews.content, under. rewrite map_app, <- app_assoc. apply look_same_tail. unfold output. cbn [map app look]. core_simpl.
    unfold visible at 1. cbn [IsDeleteRangeSentinelKey]. rewrite Hn. cbn [negb andb].
    assert (∀ cur, live c (snapshots_ o) cur (e :: rest) = e :: live c (snapshots_ o) cur rest) as ->.
    { intros [[u k]|]; [|done]. apply live_cons_live. unfold CompactionViews.dead, CompactionViews.version_of. by rewrite Hn. }
    cbn [map app look]. unfold visible at 1. by rewrite Hn.
  - by apply (entries_suffix [e]).
  - destruct (has_current_user_key_ s); [|done]. destruct Hc as [Wu Hc]. split; [done|]. intros x Hx. apply Hc. by right.
  - intros Hh x Hx. apply Hq; [done|by right].
  - by rewrite Ecl.
  - intros Hh Hz'. destruct (Hz Hh Hz') as [(a & Ha & Hrest) Hb]. split; [|done]. exists a. split; [apply elem_of_app; by left|done].
  - by apply (contract_suffix [e]).
  - intros x y Hx. apply Hold. by right.
  - intros x Hx. apply Hp. by right.
  - destruct Hi as [Hf _]. inversion_clear Hf as [|? ? He _]. destruct Hout as [Ho1 Ho2]. unfold output. core_simpl. rewrite Hn. split.
    + apply Forall_app. split; [done|]. constructor; [|constructor]. split; [apply He|apply He|done].
    + apply StronglySorted_snoc; [done|]. intros y _ _ Hs. done.
  - intros y x [Hy| ->%list_elem_of_singleton]%elem_of_app Hx Hny Hnx; [|unfold output in Hny; core_simpl_in Hny; cbn [IsDeleteRangeSentinelKey] in Hny; congruence]. by apply (Hord y x Hy ltac:(by right)).
  - intros x Hx. apply Hps. by right.
Qed.

Definition gone_on start out (s : t B) n : Prop := Valid s = false ∧ at_next_ s = false ∧ inv start out (core s) ∧ (length (input_ s) <= n)%nat.
Definition put_out start out (s : t B) n : Prop := output_ok start out s ∧ (length (input_ (advanced s)) <= n)%nat.
Lemma turn_spec start out s e rest : inv start out (core s) → Valid s = false → at_next_ s = false → input_ s = e :: rest →
  (∃ s', turn c o s e = Some (Again s') ∧ (gone_on start out s' (length rest) ∨ put_out start out s' (length rest))) ∨
  (∃ s', turn c o s e = Some (Break s') ∧ put_out start out s' (length rest)).
Proof using All.
  intros Hinv Hval Hat Ei. pose proof (in_input _ _ _ Hinv) as [Hf _]. core_simpl_in Hf. rewrite Ei in Hf. inversion_clear Hf as [|? ? He _].
  destruct (entry_key_parts e He) as (Epik & _). unfold turn. rewrite Epik. change (ok Status_OK) with true. cbn [negb]. core_simpl. fold (header s e).
  destruct (IsDeleteRangeSentinelKey e) eqn:En; [right|left].
  - eexists. split; [done|]. unfold header. rewrite En. split; [pose proof (sentinel_spec start out s e rest Hinv Hat Ei En) as H; unfold header in H; by rewrite En in H|].
    unfold advanced. core_simpl. rewrite Hat. core_simpl. by rewrite Ei.
  - assert (validity_info_ s = None) as Hvi by (unfold Valid in Hval; by destruct (validity_info_ s)). destruct (update_spec start out s e rest Hinv Hvi Hat Ei En) as (s1 & Eu & Hr).
    rewrite Eu. cbn [mbind option_bind negb]. rewrite (ready_committed _ _ _ _ _ Hr). cbn [negb].
    destruct (rules_spec _ _ _ _ _ Hr) as (s2 & -> & H). cbn [mbind option_bind]. exists s2. split; [done|]. destruct H as [H|H]; [by left|by right].
Qed.

Lemma output_ok_reads start out s n : output_ok start out s → output_ok start out (set_reads s n).
Proof using.
  intros [H1 H2 H3 H4 H5 H6]. assert (core (advanced (set_reads s n)) = core (advanced s)) as E by (unfold advanced; core_simpl; by destruct (at_next_ s)).
  split; rewrite ?E; [exact H1|exact H2|exact H3|exact H4|exact H5|exact H6].
Qed.
Lemma put_out_reads start out s n m : put_out start out s m → put_out start out (set_reads s n) m.
Proof using. intros [H1 H2]. split; [by apply output_ok_reads|]. unfold advanced in *. core_simpl. by destruct (at_next_ s). Qed.
Lemma stopping_plain s : stopping o s = (false, set_reads s (S (S (reads_ s)))).
Proof using Ho. unfold stopping, IsPausingManualCompaction, IsShuttingDown. core_simpl. by rewrite (proj1 (pl_signals _ _ Ho _)), (proj2 (pl_signals _ _ Ho _)). Qed.

(** An entry was found, or the input is at its end. *)
Definition found start out (s : t B) n : Prop :=
  put_out start out s (Nat.pred n) ∧ n ≠ 0%nat ∨ Valid s = false ∧ input_ s = [] ∧ at_next_ s = false ∧ inv start out (core s).
Lemma found_weaken start out s n m : found start out s n → (n <= m)%nat → found start out s m.
Proof using. intros [[[H1 H2] Hn]|H] Hle; [left|by right]. split; [split; [done|]|]; lia. Qed.
Lemma loop_spec fuel start out s : inv start out (core s) → Valid s = false → at_next_ s = false → (S (length (input_ s)) < fuel)%nat →
  ∃ s', NextFromInput_loop c o fuel s = Some (true, s') ∧ found start out s' (length (input_ s)).
Proof using All.
  revert s. induction fuel as [|fuel IH]; intros s Hinv Hval Hat Hfuel; [lia|]. cbn [NextFromInput_loop]. rewrite Hval. destruct (input_ s) as [|e rest] eqn:Ei.
  { exists s. split; [done|]. right. by rewrite Ei. }
  rewrite stopping_plain. set (s0 := set_reads s (S (S (reads_ s)))).
  destruct (turn_spec start out s0 e rest Hinv Hval Hat Ei) as [(s1 & -> & H)|(s1 & -> & H)]; cbn [mbind option_bind].
  - destruct H as [(Hv1 & Ha1 & Hi1 & Hl1)|[Ho1 Hl1]].
    + destruct (IH s1 Hi1 Hv1 Ha1) as (s2 & E & Hf); [cbn in Hfuel; lia|]. exists s2. split; [done|]. apply (found_weaken _ _ _ _ _ Hf). cbn. lia.
    + exists s1. destruct fuel as [|fuel]; [cbn in Hfuel; lia|]. cbn [NextFromInput_loop]. rewrite (oo_valid _ _ _ Ho1). split; [done|]. by left.
  - exists s1. split; [done|]. by left.
Qed.
Lemma next_from_input_spec start out s : inv start out (core s) → ∃ s', NextFromInput c o s = Some s' ∧ found start out s' (length (input_ s)).
Proof using All.
  intros Hinv. unfold NextFromInput. destruct (loop_spec (S (S (length (input_ s)))) start out (Invalidate (set_at_next s false))) as (s1 & E & Hf); [exact Hinv|done|done|core_simpl; lia|].
  core_simpl. core_simpl_in E. rewrite E. cbn [mbind option_bind negb]. core_simpl_in Hf. unfold IsPausingManualCompaction, IsShuttingDown.
  destruct Hf as [[Ho1 Hn]|(Hv & Hi & Ha & Hin)].
  - rewrite (oo_valid _ _ _ (proj1 Ho1)). rewrite (proj1 (pl_signals _ _ Ho _)). core_simpl. eexists. split; [done|]. left. split; [|done].
    destruct (input_ s1); [rewrite (pl_input _ _ Ho)|]; by apply put_out_reads.
  - rewrite Hv, (proj2 (pl_signals _ _ Ho _)), (proj1 (pl_signals _ _ Ho _)). core_simpl. rewrite Hi, (pl_input _ _ Ho). eexists. split; [done|]. by right.
Qed.

(** ** [PrepareOutput] *)

Lemma reader_pos r : reader r → 0 <= r.
Proof using Hsn. intros [Hr'| ->]; [apply Hsn in Hr'; lia|by vm_compute]. Qed.
(** To the readers, an entry that they all see looks the same with the sequence number
    zero. *)
Lemma zero_same u seq ty v r w : InternalKeyOrder.key_ok wf (mkParsed u seq ty) → InternalKeyOrder.key_ok wf (mkParsed u 0 ty) → reader r → bottommost_level_ o = true →
  seq <= earliest_snapshot_ o → 0 <= seq → visible c r w (written u 0 ty v) = visible c r w (written u seq ty v) ∧ seen c T' r (written u 0 ty v) = seen c T' r (written u seq ty v).
Proof using All.
  intros Hk Hk0 Hr Hb Hle H0. destruct (written_parts _ _ _ v Hk) as (E1 & E2 & E3), (written_parts _ _ _ v Hk0) as (F1 & F2 & F3). unfold visible, seen. rewrite E1, E2, E3, F1, F2, F3.
  cbn [IsDeleteRangeSentinelKey written entry_value]. pose proof (earliest_reader r Hr). pose proof (reader_pos r Hr). rewrite !(proj2 (Z.leb_le _ r)) by lia. split; [done|].
  assert (covering c T' u 0 r = covering c T' u seq r) as ->; [|done]. unfold covering, kept_tombstones. rewrite Hb. apply eq_iff_eq_true. rewrite !existsb_exists.
  split; intros (t & Ht & Hc); exists t; (split; [done|]); apply List.filter_In in Ht as [_ Ht%Z.ltb_lt]; rewrite !andb_true_iff, !Z.ltb_lt in *; intuition lia.
Qed.
Lemma zero_key_of u seq ty : InternalKeyOrder.key_ok wf (mkParsed u seq ty) → 0 <= seq ∧ InternalKeyOrder.key_ok wf (mkParsed u 0 ty).
Proof using. intros [(K1 & Hs & K2) K3]. split; [unfold is_u in Hs; cbn in Hs; lia|]. by split; [split_and!|]. Qed.
Section Zero.
Context (start : Content * Status) (out : list Entry) (a : Core) (seq ty : Z) (v : bytes).
#[local] Abbreviation u := (c_user_key a).
#[local] Abbreviation e0 := (written u 0 ty v).
#[local] Abbreviation e1 := (written u seq ty v).
Context (Hk : InternalKeyOrder.key_ok wf (mkParsed u seq ty)) (Hb : bottommost_level_ o = true) (Hle : seq <= earliest_snapshot_ o).
Context (Hinv : inv start (out ++ [e1]) a) (Hhas : c_has a = true) (Hclear : c_clear a = false) (Hsnap : c_snapshot a = stripe seq) (Hsnap0 : 0 < c_snapshot a).

Lemma zero_key : 0 <= seq ∧ InternalKeyOrder.key_ok wf (mkParsed u 0 ty).
Proof using Hk. exact (zero_key_of _ _ _ Hk). Qed.
Lemma zero_parts : entry_user_key e0 = u ∧ entry_seq e0 = 0 ∧ entry_type e0 = ty ∧ entry_user_key e1 = u ∧ entry_seq e1 = seq ∧ entry_type e1 = ty.
Proof using ComparatorLaws0 Hk. destruct zero_key as [_ Hk0]. destruct (written_parts _ _ _ v Hk) as (? & ? & ?), (written_parts _ _ _ v Hk0) as (? & ? & ?). split_and!; done. Qed.
Lemma zero_order : Forall entry_ok (out ++ [e0]) ∧ StronglySorted (entry_lt c) (out ++ [e0]).
Proof using All.
  destruct zero_key as [Hs Hk0]. destruct zero_parts as (F1 & F2 & F3 & E1 & E2 & E3). destruct (in_out _ _ _ Hinv) as [Hf Hso]. apply Forall_app in Hf as [Hf He1]. inversion_clear He1 as [|? ? He _].
  assert (entry_ok e0) as He0 by (split; [apply (append_key _ Hk0)|rewrite F3, <- E3; apply He|rewrite F3, <- E3; apply He]). split; [by apply Forall_app; split; [|constructor]|].
  apply StronglySorted_snoc; [by apply StronglySorted_app_1_l in Hso|]. intros y Hy Hny _. rewrite Forall_forall in Hf.
  pose proof (StronglySorted_app_1_elem_of _ _ _ y e1 Hso Hy ltac:(left) Hny eq_refl) as Hlt. apply (entry_lt_iff wf c) in Hlt; [|by apply Hf|done]. apply (entry_lt_iff wf c); [by apply Hf|done|].
  rewrite F1, F2, F3. rewrite E1, E2, E3 in Hlt. lia.
Qed.
Lemma zero_front y x : y ∈ out ++ [e0] → x ∈ c_input a → IsDeleteRangeSentinelKey y = false → IsDeleteRangeSentinelKey x = false →
  Compare c (entry_user_key y) (entry_user_key x) <= 0 ∧ (Compare c (entry_user_key y) (entry_user_key x) = 0 → entry_seq x < entry_seq y ∨ version_of u x = true).
Proof using All.
  destruct zero_parts as (F1 & F2 & F3 & E1 & E2 & E3). intros [Hy| ->%list_elem_of_singleton]%elem_of_app Hx Hny Hnx.
  - destruct (in_order _ _ _ Hinv y x) as [H1 H2]; [apply elem_of_app; by left|done..|]. split; [done|]. intros E. destruct (H2 E) as [|(_ & _ & ?)]; [by left|by right].
  - destruct (in_order _ _ _ Hinv e1 x) as [H1 _]; [apply elem_of_app; right; left|done..|]. rewrite E1 in H1. rewrite F1. split; [done|]. intros E. right. unfold CompactionViews.version_of.
    rewrite Hnx. apply same_key_spec. destruct (in_input _ _ _ Hinv) as [Hf _]. rewrite Forall_forall in Hf. apply cmp_flip_eq; [apply Hk|apply (entry_parsed wf x (Hf x Hx))|done].
Qed.
Lemma zero_core : inv start (out ++ [e0]) (mkCore (c_input a) (c_has a) u (c_snapshot a) (c_seq a) (c_clear a) true (c_ptrs a)
  (AppendInternalKey [] (mkParsed u 0 ty)) (c_committed a) (c_merge a) (c_status a)).
Proof using All.
  destruct zero_key as [Hs Hk0]. destruct zero_parts as (F1 & F2 & F3 & E1 & E2 & E3). destruct (append_key _ Hk0) as (L1 & L2 & _). cbn [user_key] in L2. assert (wf u) as Wu by apply Hk0.
  pose proof zero_order as Hord. pose proof zero_front as Hfr. pose proof Hinv as [Hv Hi Hc Hq Hkey Hcl Hz Hcon Hold Hp Hm Hst _ _ Hps]. unfold cur in Hc. split; core_simpl; try done.
  - intros r w Hr Ww. rewrite <- (Hv r w Hr Ww). unfold CompactionViews.content, under. rewrite !map_app, <- !app_assoc. apply look_same_tail. cbn [map app look].
    destruct (zero_same u seq ty v r w Hk Hk0 Hr Hb Hle Hs) as [-> ->]. done.
  - intros Hh. split_and!; try done. by apply Hkey.
  - congruence.
  - intros _ _. split; [|split; [done|]].
    + exists e0. rewrite F1, F2. split; [apply elem_of_app; right; left|]. split; [done|]. split; [by apply cmp_refl|]. split; [done|]. intros r Hr _. by apply reader_pos.
    + enough (c_snapshot a = earliest_snapshot_ o) as E by (split; [done|lia]). rewrite Hsnap. apply Z.le_antisymm; [|apply earliest_reader, stripe_reader]. apply (proj1 (stripe_le _ Hsn seq _ ltac:(pose proof (earliest_reader kMaxSequenceNumber ltac:(by right)); lia) earliest_is_reader)). done.
  - intros y x Hy Hx Hny Hnx. destruct (Hfr y x Hy Hx Hny Hnx) as [H1 H2]. split; [done|]. intros E. destruct (H2 E) as [|?]; [by left|right]. split_and!; done.
Qed.
End Zero.

Definition zeroed (s : t B) : t B := set_current_key (set_last_key_seq_zeroed (set_ikey s (mkParsed (user_key (ikey_ s)) 0 (type (ikey_ s)))) true)
  (UpdateInternalKey (current_key_ s) 0 (type (ikey_ s))).
Lemma zeroed_inv start out s : output_ok start out s → is_range_del_ s = false → bottommost_level_ o = true → sequence (ikey_ s) <= earliest_snapshot_ o →
  inv start (out ++ [output (zeroed s)]) (core (advanced (zeroed s))).
Proof using All.
  intros [_ Hinv Hpt Hzero Haft] Hn Hb Hle. destruct (Hpt Hn) as (Hk & Hcur & Hko & Hu & _). destruct (Haft Hn (Hzero Hn Hb Hle)) as (Hhas & Hclear & Hsnap & Hsnap0).
  set (seq := sequence (ikey_ s)) in *. set (ty := type (ikey_ s)) in *. set (a := core (advanced s)) in *.
  assert (c_user_key a = current_user_key_ s) as Eu by (unfold a, advanced; by destruct (at_next_ s)).
  assert (ikey_ s = mkParsed (c_user_key a) seq ty) as Ei by (rewrite Eu, <- Hu; by destruct (ikey_ s)). rewrite Ei in Hko, Hcur. destruct (append_key _ Hko) as (K1 & K2 & _). cbn [user_key] in K2.
  assert (output s = written (c_user_key a) seq ty (value_ s)) as Eo by (unfold output, written, key; by rewrite Hk, Hn, Hcur). rewrite Eo in Hinv.
  assert (output (zeroed s) = written (c_user_key a) 0 ty (value_ s)) as -> by (unfold output, written, key, zeroed; core_simpl; rewrite Hk, Hn, Hcur; by rewrite (update_key _ _ _ _ K1 K2)).
  pose proof (zero_core start out a seq ty (value_ s) Hko Hb Hle Hinv Hhas Hclear Hsnap Hsnap0) as Hz.
  assert (core (advanced (zeroed s)) = mkCore (c_input a) (c_has a) (c_user_key a) (c_snapshot a) (c_seq a) (c_clear a) true (c_ptrs a)
    (AppendInternalKey [] (mkParsed (c_user_key a) 0 ty)) (c_committed a) (c_merge a) (c_status a)) as ->; [|done].
  unfold a, advanced, zeroed in *. core_simpl. destruct (at_next_ s); core_simpl; rewrite Hcur; by rewrite (update_key _ _ _ _ K1 K2).
Qed.

(** The level of the output is decided, which may set the status. *)
Definition place (st : Status) (e : Entry) : Status := if unsafe_placement o e then unsafe_status else st.
Lemma inv_status start out a st : inv start out a → inv (fst start, st) out (mkCore (c_input a) (c_has a) (c_user_key a) (c_snapshot a) (c_seq a) (c_clear a)
  (c_zeroed a) (c_ptrs a) (c_current a) (c_committed a) (c_merge a) st).
Proof using. intros [Hv Hi Hc Hq Hk Hcl Hz Hcon Hold Hp Hm Hst Hout Hord Hps]. by split. Qed.
Lemma output_ok_status start out s b st : output_ok start out s → output_ok (fst start, st) out (set_status (set_output_to_penultimate_level s b) st).
Proof using.
  intros [H1 H2 H3 H4 H5 H6]. pose proof (inv_status _ _ _ st H2) as H2'.
  assert (core (advanced (set_status (set_output_to_penultimate_level s b) st)) = let a := core (advanced s) in mkCore (c_input a) (c_has a) (c_user_key a)
    (c_snapshot a) (c_seq a) (c_clear a) (c_zeroed a) (c_ptrs a) (c_current a) (c_committed a) (c_merge a) st) as E by (unfold advanced; core_simpl; by destruct (at_next_ s)).
  split; rewrite ?E; [exact H1|exact H2'|exact H3|exact H4|exact H5|exact H6].
Qed.
Lemma output_ok_level start out s b : output_ok start out s → output_ok start out (set_output_to_penultimate_level s b).
Proof using.
  intros [H1 H2 H3 H4 H5 H6].
  assert (core (advanced (set_output_to_penultimate_level s b)) = core (advanced s)) as E by (unfold advanced; core_simpl; by destruct (at_next_ s)).
  split; rewrite ?E; [exact H1|exact H2|exact H3|exact H4|exact H5|exact H6].
Qed.
Lemma output_parts start out s : output_ok start out s → entry_user_key (output s) = user_key (ikey_ s) ∧ entry_seq (output s) = sequence (ikey_ s).
Proof using ComparatorLaws0.
  intros H. assert (parsed_of (key s) = ikey_ s) as E; [|unfold entry_user_key, entry_seq, output; cbn [entry_key]; by rewrite E].
  destruct (is_range_del_ s) eqn:En; [by apply (oo_sentinel _ _ _ H)|]. destruct (oo_point _ _ _ H En) as (Hk & Hcur & Hko & _).
  unfold key. rewrite Hk, Hcur. apply (append_key _ Hko).
Qed.
(** What deciding the level leaves as it is *)
Definition same_output (s s' : t B) : Prop := Valid s' = Valid s ∧ output s' = output s ∧ ikey_ s' = ikey_ s ∧ is_range_del_ s' = is_range_del_ s ∧
  input_ (advanced s') = input_ (advanced s).
Lemma decide_spec start out s cp : compaction_ o = Some cp → output_ok start out s →
  ∃ s', (if SupportsPerKeyPlacement cp then DecideOutputLevel o cp s else Some s) = Some s' ∧ output_ok (fst start, place (snd start) (output s)) out s' ∧ same_output s s'.
Proof using ComparatorLaws0.
  intros Ec Hok. destruct (output_parts _ _ _ Hok) as [Eu Eq]. assert (∀ b st, same_output s (set_status (set_output_to_penultimate_level s b) st) ∧
    same_output s (set_output_to_penultimate_level s b)) as Hsame.
  { intros b st. split; (split_and!; [done..|]); unfold advanced; core_simpl; by destruct (at_next_ s). }
  unfold place, unsafe_placement, DecideOutputLevel. rewrite Ec, Eu, Eq. destruct (SupportsPerKeyPlacement cp); cbn [andb assertion mbind option_bind].
  2: { exists s. by destruct start. }
  eexists. split; [done|]. destruct (earliest_snapshot_ o <? sequence (ikey_ s)); rewrite ?orb_true_r, ?orb_false_r; cbn [andb].
  - destruct (WithinPenultimateLevelOutputRange cp (user_key (ikey_ s))); cbn [negb].
    + split; [|apply (Hsame _ Status_OK)]. destruct start. by apply output_ok_level.
    + split; [by apply output_ok_status|apply Hsame].
  - assert (∀ b, output_ok (fst start, snd start) out (set_output_to_penultimate_level s b)) as Hl by (intros b; destruct start; by apply output_ok_level).
    destruct (preclude_last_level_min_seqno_ o <? sequence (ikey_ s)); [destruct (WithinPenultimateLevelOutputRange cp (user_key (ikey_ s)))|];
      (split; [apply Hl|apply (Hsame _ Status_OK)]).
Qed.

Definition prepared start out (s : t B) n : Prop := Valid s = true ∧ inv start (out ++ [output s]) (core (advanced s)) ∧ (length (input_ (advanced s)) <= n)%nat.
(** Setting the sequence number to zero makes no placement unsafe. *)
Lemma place_zeroed start out s st : output_ok start out s → is_range_del_ s = false → sequence (ikey_ s) <= earliest_snapshot_ o →
  place st (output (zeroed s)) = place st (output s).
Proof using All.
  intros Hok Hn Hle. destruct (output_parts _ _ _ Hok) as [Eu Eq]. destruct (oo_point _ _ _ Hok Hn) as (Hk & Hcur & Hko & Hu & _).
  destruct (append_key _ Hko) as (K1 & K2 & _). assert (ikey_ s = mkParsed (user_key (ikey_ s)) (sequence (ikey_ s)) (type (ikey_ s))) as Ei by by destruct (ikey_ s).
  rewrite Ei in Hko. destruct (zero_key_of _ _ _ Hko) as [H0 Hk0].
  assert (output (zeroed s) = written (user_key (ikey_ s)) 0 (type (ikey_ s)) (value_ s)) as Eo
    by (unfold output, written, key, zeroed; core_simpl; rewrite Hk, Hn, Hcur; by rewrite (update_key _ _ _ _ K1 K2)).
  destruct (written_parts _ _ _ (value_ s) Hk0) as (_ & E2 & _). unfold place, unsafe_placement. rewrite Eq, Eo, E2.
  rewrite !(proj2 (Z.ltb_ge (earliest_snapshot_ o) _)) by lia. destruct (compaction_ o); by rewrite ?andb_false_r.
Qed.
Lemma prepare_output_spec start out s n : put_out start out s n → ∃ s', PrepareOutput c o s = Some s' ∧ prepared (fst start, place (snd start) (output s')) out s' n.
Proof using All.
  intros [Hok Hn]. pose proof Hok as [Hval Hinv _ _]. unfold PrepareOutput. rewrite Hval. cbn [negb].
  assert ((if is_range_del_ s then Some s else if type (ikey_ s) =? kTypeValue then ExtractLargeValueIfNeeded o s
           else if type (ikey_ s) =? kTypeBlobIndex then GarbageCollectBlobIfNeeded o s else Some s) = Some s) as ->.
  { destruct (is_range_del_ s); [done|]. destruct (type (ikey_ s) =? kTypeValue) eqn:E; [unfold ExtractLargeValueIfNeeded, ExtractLargeValueIfNeededImpl; by rewrite E, (pl_blobs _ _ Ho)|].
    destruct (type (ikey_ s) =? kTypeBlobIndex) eqn:E'; [|done]. unfold GarbageCollectBlobIfNeeded. rewrite E', (pl_filter _ _ Ho). cbn [assertion mbind option_bind].
    destruct (compaction_ o) as [cp|] eqn:Ec; [|done]. by rewrite (pl_compaction _ _ Ho cp Ec). }
  cbn [mbind option_bind]. destruct (compaction_ o) as [cp|] eqn:Ec.
  2: { exists s. split; [done|]. unfold place, unsafe_placement. rewrite Ec. by destruct start. }
  destruct (decide_spec start out s cp Ec Hok) as (s1 & -> & Hok1 & (Hv1 & Eo & Eik & Erd & Ein)). cbn [mbind option_bind]. rewrite <- Eo, <- Ein in *.
  match goal with |- context [if ?g then _ else _] => destruct g eqn:Eg end.
  2: { exists s1. split; [done|]. split; [apply Hok1|]. split; [apply Hok1|done]. }
  rewrite !andb_true_iff, negb_true_iff in Eg.
  destruct Eg as [[[[[[[[_ _] Hb] Hsee] _] _] _] _] Hnr%negb_true_iff]. unfold DefinitelyInSnapshot in Hsee. rewrite (pl_checker _ _ Ho), andb_true_r in Hsee. apply Z.leb_le in Hsee.
  pose proof (oo_zero _ _ _ Hok1 Hnr Hb Hsee) as Hzero. unfold zero_sequence. rewrite (pl_ts _ _ Ho).
  assert ((type (ikey_ s1) =? kTypeDeletion) || (type (ikey_ s1) =? kTypeSingleDeletion) && (0 =? 0) = false) as ->.
  { apply not_true_is_false. rewrite orb_true_iff, andb_true_iff, !Z.eqb_eq. by intros [E|[E _]]; rewrite E in Hzero. }
  change (0 =? 0) with true. cbn [negb assertion mbind option_bind]. eexists. split; [done|]. pose proof (zeroed_inv _ out s1 Hok1 Hnr Hb Hsee) as Hz.
  rewrite <- (place_zeroed _ out s1 (snd start) Hok1 Hnr Hsee) in Hz. unfold zeroed in Hz. split; [apply Hok1|]. split; [exact Hz|].
  clear -Hn. unfold advanced in *. core_simpl. destruct (at_next_ s1); exact Hn.
Qed.

(** ** The whole run *)

Definition ended start out (s : t B) : Prop := Valid s = false ∧ input_ s = [] ∧ inv start out (core s).
Lemma prepare_found start out s n : found start out s n → ∃ s', PrepareOutput c o s = Some s' ∧
  (prepared (fst start, place (snd start) (output s')) out s' (Nat.pred n) ∧ n ≠ 0%nat ∨ ended start out s').
Proof using All.
  intros [[Hp Hn]|(Hv & Hi & Ha & Hin)].
  - destruct (prepare_output_spec _ _ _ _ Hp) as (s' & E & H). exists s'. split; [done|]. by left.
  - exists s. unfold PrepareOutput. rewrite Hv. split; [done|]. by right.
Qed.
Lemma found_outputted start out s n : found start out s n → found start out (if Valid s then set_has_outputted_key s true else s) n.
Proof using.
  intros [[[[H1 H2 H3 H4 H5 H6] Hl] Hn]|H]; [left|right; destruct H as [Hv H]; by rewrite Hv]. rewrite H1. split; [|done].
  assert (core (advanced (set_has_outputted_key s true)) = core (advanced s)) as E by (unfold advanced; core_simpl; by destruct (at_next_ s)).
  split; [split; rewrite ?E; [exact H1|exact H2|exact H3|exact H4|exact H5|exact H6]|]. unfold advanced in *; core_simpl; by destruct (at_next_ s).
Qed.
Lemma next_spec start out s n : prepared start out s n →
  ∃ s', Next c o s = Some s' ∧
  (prepared (fst start, place (snd start) (output s')) (out ++ [output s]) s' (Nat.pred n) ∧ n ≠ 0%nat ∨ ended start (out ++ [output s]) s').
Proof using All.
  intros (Hval & Hinv & Hn). unfold Next. assert (merge_out_iter_ s = []) as ->.
  { pose proof (in_merge _ _ _ Hinv) as Hm. unfold advanced in Hm. by destruct (at_next_ s). }
  fold (advanced s). destruct (next_from_input_spec _ _ _ Hinv) as (s1 & -> & Hf). cbn [mbind option_bind].
  apply prepare_found, found_outputted. by apply (found_weaken _ _ _ _ _ Hf).
Qed.
Lemma outputs_ended fuel start out s : ended start out s → outputs c o fuel s = Some ([], s).
Proof using. intros [Hv _]. destruct fuel; cbn [outputs]; by rewrite Hv. Qed.
Lemma outputs_spec fuel start out s n : prepared start out s n → (n < fuel)%nat →
  ∃ l s', outputs c o fuel s = Some (output s :: l, s') ∧ ended (fst start, fold_left place l (snd start)) (out ++ output s :: l) s'.
Proof using All.
  revert start out s n. induction fuel as [|fuel IH]; intros start out s n Hp Hn; [lia|].
  cbn [outputs]. rewrite (proj1 Hp). cbn [negb]. destruct (next_spec _ _ _ _ Hp) as (s1 & -> & H1). cbn [mbind option_bind]. destruct H1 as [[H1 Hne]|H1].
  - destruct (IH _ _ _ _ H1 ltac:(lia)) as (l & s2 & -> & H2). cbn [mbind option_bind]. exists (output s1 :: l), s2. split; [done|].
    rewrite <- app_assoc in H2. exact H2.
  - rewrite (outputs_ended _ _ _ _ H1). cbn [mbind option_bind]. exists [], s1. split; [done|]. by destruct start.
Qed.
End Loop.
