(* ===== verification/CompactionBeyond.v ===== *)
(** * What is below the output of a compaction

    [Compaction::KeyNotExistsBeyondOutputLevel] and
    [Compaction::KeyRangeNotExistsBeyondOutputLevel] (db/compaction/compaction.cc): they
    are asked about keys in order and keep, for every level, the index of the first file
    that does not end before the last key. They answer as a search of all the files
    below would, and so a compaction iterator may rely on them. *)

From Stdlib Require Import Sorting.Sorted.
From S2P Require Import Prelude SortedLists Comparator DbFormat VersionEdit FileIndexer VersionStorage VersionStorageCorrect VersionPrepareCorrect.
From S2P Require Import CompactionIterator CompactionViews CompactionIteratorCorrect.
From stdpp Require Import list.
#[local] Open Scope Z_scope.

Module Compaction.
Section Beyond.
Context (user_cmp : Comparator) (input_vstorage_ : VersionStorageInfo) (number_levels_ output_level_ : Z) (bottommost_level_ level_style : bool).

(** One level: files that are [past] are passed; the first that is not decides. *)
Fixpoint advance (past hit : FileMetaData → bool) (files : list FileMetaData) (ptr : Z) : bool * Z :=
  match files with
  | [] => (false, ptr)
  | f :: files => if past f then advance past hit files (ptr + 1) else (hit f, ptr)
  end.
Fixpoint beyond_levels (past hit : FileMetaData → bool) (n : nat) (lvl : Z) (level_ptrs : list Z) : option (bool * list Z) :=
  match n with
  | O => Some (true, level_ptrs)
  | S n =>
      ptr ← vec_at level_ptrs lvl;
      let '(found, ptr) := advance past hit (drop (Z.to_nat ptr) (LevelFiles input_vstorage_ lvl)) ptr in
      level_ptrs ← vec_set level_ptrs lvl ptr;
      if found : bool then Some (false, level_ptrs) else beyond_levels past hit n (lvl + 1) level_ptrs
  end.
Definition not_beyond (past hit : FileMetaData → bool) (level_ptrs : list Z) : option (bool * list Z) :=
  _ ← assertion (Zlen level_ptrs =? number_levels_);
  if bottommost_level_ then Some (true, level_ptrs)
  else if negb (output_level_ =? 0) && level_style
       then beyond_levels past hit (Z.to_nat (number_levels_ - (output_level_ + 1))) (output_level_ + 1) level_ptrs
       else Some (false, level_ptrs).

Definition KeyNotExistsBeyondOutputLevel (user_key : bytes) (level_ptrs : list Z) : option (bool * list Z) :=
  not_beyond (λ f, negb (Compare user_cmp user_key (ExtractUserKey (largest f)) <=? 0))
    (λ f, 0 <=? CompareWithoutTimestamp user_cmp user_key (ExtractUserKey (smallest f))) level_ptrs.
Definition KeyRangeNotExistsBeyondOutputLevel (begin_key end_key : bytes) (level_ptrs : list Z) : option (bool * list Z) :=
  _ ← assertion (CompareWithoutTimestamp user_cmp begin_key end_key <? 0);
  not_beyond (λ f, 0 <? CompareWithoutTimestamp user_cmp begin_key (ExtractUserKey (largest f)))
    (λ f, negb (CompareWithoutTimestamp user_cmp end_key (ExtractUserKey (smallest f)) <=? 0)) level_ptrs.
End Beyond.
End Compaction.

(** ** The searches *)

Section Search.
Context (v : VersionStorageInfo) (past hit : FileMetaData → bool).

Lemma advance_spec fs ptr : StronglySorted (λ a b, hit b = true → hit a = true) fs → ∃ n h, Compaction.advance past hit fs ptr = (h, ptr + Z.of_nat n) ∧
  (∀ f, f ∈ take n fs → past f = true) ∧ (h = true ↔ ∃ f, f ∈ fs ∧ past f = false ∧ hit f = true).
Proof.
  intros Hs. revert ptr. induction Hs as [|f fs Hs IH Hf]; intros ptr; cbn [Compaction.advance].
  { exists 0%nat, false. rewrite Z.add_0_r. split_and!; [done|intros f Hf; by apply elem_of_nil in Hf|]. split; [done|]. intros (f & Hf & _). by apply elem_of_nil in Hf. }
  destruct (past f) eqn:Ep.
  - destruct (IH (ptr + 1)) as (n & h & -> & Hn & Hh). exists (S n), h. split; [f_equal; lia|]. split; [intros g [-> |Hg]%elem_of_cons; auto|]. rewrite Hh.
    split; intros (g & Hg & H1 & H2); exists g; (split; [|done]); [by right|]. apply elem_of_cons in Hg as [-> |Hg]; [congruence|done].
  - exists 0%nat, (hit f). rewrite Z.add_0_r. split_and!; [done|intros g Hg; by apply elem_of_nil in Hg|]. split; [intros H; exists f; split; [left|done]|].
    intros (g & [-> |Hg]%elem_of_cons & _ & H); [done|]. rewrite Forall_forall in Hf. by apply (Hf g).
Qed.

(** The indices are good: the files before them are past. *)
Definition ptr_ok (ptrs : list Z) (l : Z) : Prop := ∃ p, vec_at ptrs l = Some p ∧ 0 <= p ∧ ∀ f, f ∈ take (Z.to_nat p) (LevelFiles v l) → past f = true.
Lemma levels_spec n lvl ptrs : 0 <= lvl → (∀ l, lvl <= l < lvl + Z.of_nat n → StronglySorted (λ a b, hit b = true → hit a = true) (LevelFiles v l)) →
  (∀ l, lvl <= l < lvl + Z.of_nat n → ptr_ok ptrs l) → ∃ b ptrs', Compaction.beyond_levels v past hit n lvl ptrs = Some (b, ptrs') ∧ length ptrs' = length ptrs ∧
    (∀ l, ptr_ok ptrs l → ptr_ok ptrs' l) ∧ (b = true ↔ ∀ l f, lvl <= l < lvl + Z.of_nat n → f ∈ LevelFiles v l → past f = false → hit f = false).
Proof.
  revert lvl ptrs. induction n as [|n IH]; intros lvl ptrs H0 Hs Hp; cbn [Compaction.beyond_levels]; [exists true, ptrs; split_and!; [done..|split; [lia|done]]|].
  destruct (Hp lvl ltac:(lia)) as (p & Ep & Hp0 & Hpast). rewrite Ep. cbn [mbind option_bind]. set (fs := LevelFiles v lvl) in *. set (k := Z.to_nat p) in *.
  assert (StronglySorted (λ a b, hit b = true → hit a = true) (drop k fs)) as Hs' by (apply StronglySorted_drop, Hs; lia).
  destruct (advance_spec (drop k fs) p Hs') as (m & h & -> & Hm & Hh).
  assert (h = true ↔ ∃ f, f ∈ fs ∧ past f = false ∧ hit f = true) as Hh'.
  { rewrite Hh. split; intros (f & Hf & H1 & H2); exists f; (split; [|done]); [rewrite <- (take_drop k fs); apply elem_of_app; by right|].
    rewrite <- (take_drop k fs) in Hf. apply elem_of_app in Hf as [Hf|Hf]; [|done]. rewrite Hpast in H1 by done. congruence. }
  unfold vec_at in Ep. destruct (0 <=? lvl) eqn:El; [|done]. pose proof (lookup_lt_Some _ _ _ Ep) as Hlt. unfold vec_set. rewrite El.
  rewrite (proj2 (Z.ltb_lt _ _)) by (unfold Zlen; lia). cbn [andb mbind option_bind]. set (ptrs1 := <[Z.to_nat lvl := p + Z.of_nat m]> ptrs).
  assert (∀ l, ptr_ok ptrs l → ptr_ok ptrs1 l) as Hok.
  { intros l (q & Eq & Hq). unfold ptr_ok, vec_at in *. destruct (0 <=? l) eqn:E0; [|done]. destruct (decide (l = lvl)) as [-> |Hne].
    - exists (p + Z.of_nat m). unfold ptrs1. rewrite list_lookup_insert_eq by done. split_and!; [done|lia|]. fold fs. replace (Z.to_nat (p + Z.of_nat m)) with (k + m)%nat by lia.
      intros f Hf. rewrite <- take_take_drop in Hf. apply elem_of_app in Hf as [Hf|Hf]; auto.
    - exists q. unfold ptrs1. rewrite list_lookup_insert_ne by (apply Z.leb_le in E0; lia). done. }
  destruct h.
  - exists false, ptrs1. split_and!; [done|unfold ptrs1; by rewrite length_insert|done|]. split; [done|]. intros Hno. destruct (proj1 Hh' eq_refl) as (f & Hf & H1 & H2).
    rewrite (Hno lvl f) in H2; [done|lia|done..].
  - destruct (IH (lvl + 1) ptrs1) as (b & ptrs' & -> & Hl & Hok' & Hb); [lia|intros l Hr; apply Hs; lia|intros l Hr; apply Hok, Hp; lia|].
    exists b, ptrs'. split_and!; [done|by rewrite Hl; unfold ptrs1; rewrite length_insert|auto|]. rewrite Hb. split.
    + intros H l f Hr Hf H1. destruct (decide (l = lvl)) as [-> |]; [|apply (H l); [lia|done..]]. destruct (hit f) eqn:E; [|done]. enough (false = true) by done. apply Hh'. by exists f.
    + intros H l f Hr. apply H. lia.
Qed.
End Search.

(** ** A version *)

Section Version.
Context (wf : bytes → Prop) (c : Comparator) `{!ComparatorLaws wf c} (v : VersionStorageInfo) (Hv : files_in_order wf c v) (Hts : timestamp_size c = 0).
Context (number_levels_ output_level_ : Z) (Hout : 0 <= output_level_) (bottommost_level_ level_style : bool).
#[local] Abbreviation lo f := (ExtractUserKey (smallest f)).
#[local] Abbreviation hi f := (ExtractUserKey (largest f)).

Lemma version_file l f : f ∈ LevelFiles v l → wf (lo f) ∧ wf (hi f) ∧ Compare c (lo f) (hi f) <= 0.
Proof using ComparatorLaws0 Hv Hts.
  unfold LevelFiles. destruct (files_ v !! Z.to_nat l) as [level|] eqn:E; [|intros Hf; by apply elem_of_nil in Hf]. cbn. intros Hf.
  destruct (fi_keys _ _ _ Hv level f (list_elem_of_lookup_2 _ _ _ E) Hf) as [[Hlo Hhi] Hle]. split_and!; [apply Hlo|apply Hhi|]. apply (user_key_le wf c) in Hle; [|done..].
  by rewrite (cl_no_ts_plain (ComparatorLaws := ComparatorLaws0) Hts) in Hle.
Qed.
Lemma level_starts l : 1 <= l → StronglySorted (λ a b, a ∈ LevelFiles v l ∧ b ∈ LevelFiles v l ∧ Compare c (lo a) (lo b) <= 0) (LevelFiles v l).
Proof using ComparatorLaws0 Hv Hts.
  intros Hl. assert (StronglySorted (λ a b, InternalKeyComparator.Compare c (largest a) (smallest b) < 0) (LevelFiles v l)) as Hs.
  { unfold LevelFiles. destruct (files_ v !! Z.to_nat l) as [level|] eqn:E; [|constructor]. apply (fi_levels _ _ _ Hv (Z.to_nat l)); [lia|done]. }
  assert (∀ fs, (∀ f, f ∈ fs → f ∈ LevelFiles v l) → StronglySorted (λ a b, InternalKeyComparator.Compare c (largest a) (smallest b) < 0) fs →
    StronglySorted (λ a b, a ∈ LevelFiles v l ∧ b ∈ LevelFiles v l ∧ Compare c (lo a) (lo b) <= 0) fs) as H; [|by apply H].
  induction 2 as [|f fs _ IH Hf]; [constructor|]. constructor; [apply IH; intros g Hg; apply H; by right|]. rewrite Forall_forall in *. intros g Hg. specialize (Hf g Hg).
  assert (f ∈ LevelFiles v l) as H1 by (apply H; left). assert (g ∈ LevelFiles v l) as H2 by (apply H; by right). split_and!; [done..|].
  destruct (version_file l f H1) as (W1 & W2 & Hle), (version_file l g H2) as (W3 & _ & _). apply (cmp_le_trans _ (hi f)); [done..|].
  unfold LevelFiles in H1, H2. destruct (files_ v !! Z.to_nat l) as [level|] eqn:E; [|by apply elem_of_nil in H1]. cbn in H1, H2. pose proof (list_elem_of_lookup_2 _ _ _ E) as Hin.
  rewrite <- (cl_no_ts_plain (ComparatorLaws := ComparatorLaws0) Hts). apply (user_key_le wf c); [apply (fi_keys _ _ _ Hv level f Hin H1)|apply (fi_keys _ _ _ Hv level g Hin H2)|lia].
Qed.

Definition ends_before (u : bytes) (f : FileMetaData) : bool := negb (Compare c u (hi f) <=? 0).
Definition level_ptrs_ok (u : bytes) (ptrs : list Z) : Prop := Zlen ptrs = number_levels_ ∧ ∀ l, output_level_ < l < number_levels_ → ptr_ok v (ends_before u) ptrs l.
(** No file below the output has a key that is not before [u] and for which [hit]. *)
Definition nothing_beyond (u : bytes) (hit : FileMetaData → bool) : Prop := bottommost_level_ = true ∨ output_level_ ≠ 0 ∧ level_style = true ∧
  ∀ l f, output_level_ < l < number_levels_ → f ∈ LevelFiles v l → Compare c u (hi f) <= 0 → hit f = false.

Lemma not_beyond_spec u past hit ptrs : wf u → (∀ l f, f ∈ LevelFiles v l → past f = ends_before u f) →
  (∀ a b l, a ∈ LevelFiles v l → b ∈ LevelFiles v l → Compare c (lo a) (lo b) <= 0 → hit b = true → hit a = true) → level_ptrs_ok u ptrs →
  ∃ b ptrs', Compaction.not_beyond v number_levels_ output_level_ bottommost_level_ level_style past hit ptrs = Some (b, ptrs') ∧ level_ptrs_ok u ptrs' ∧ (b = true ↔ nothing_beyond u hit).
Proof using All.
  intros Wu Hpast Hhit [Hl Hp]. unfold Compaction.not_beyond, nothing_beyond. rewrite Hl, Z.eqb_refl. cbn [assertion mbind option_bind]. destruct bottommost_level_; [exists true, ptrs; split_and!; [done..|tauto]|].
  destruct (negb (output_level_ =? 0) && level_style) eqn:E.
  2: { exists false, ptrs. split_and!; [done..|]. split; [done|]. intros [|(H1 & -> & _)]; [done|]. rewrite (proj2 (Z.eqb_neq _ _)) in E by done. done. }
  apply andb_true_iff in E as [E%negb_true_iff%Z.eqb_neq ->]. set (n := Z.to_nat (number_levels_ - (output_level_ + 1))).
  assert (∀ l, output_level_ + 1 <= l < output_level_ + 1 + Z.of_nat n → output_level_ < l < number_levels_) as Hn by lia.
  assert (∀ q l, ptr_ok v (ends_before u) q l ↔ ptr_ok v past q l) as Hpo.
  { intros q l. unfold ptr_ok. split; intros (p & H1 & H2 & H3); exists p; (split_and!; [done..|]); intros f Hf; specialize (H3 f Hf);
      apply elem_of_take in Hf as (i & Hi%list_elem_of_lookup_2 & _); specialize (Hpast l f Hi); congruence. }
  destruct (levels_spec v past hit n (output_level_ + 1) ptrs) as (b & ptrs' & -> & Hlen & Hok & Hb); [lia| |intros l Hr; by apply Hpo, Hp, Hn|].
  - intros l Hr. eapply StronglySorted_weaken; [|apply level_starts; lia]. cbn. intros x y (Hx & Hy & Hle). by apply (Hhit x y l).
  - exists b, ptrs'. split; [done|]. split; [split; [unfold Zlen in *; lia|intros l Hr; by apply Hpo, Hok, Hpo, Hp]|]. rewrite Hb. split.
    + intros H. right. split_and!; [done..|]. intros l f Hr Hf Hle. apply (H l); [lia|done|]. rewrite (Hpast l f Hf). unfold ends_before. by rewrite (proj2 (Z.leb_le _ _)).
    + intros [|(_ & _ & H)]; [done|]. intros l f Hr Hf Hpf. apply (H l); [lia|done|]. rewrite (Hpast l f Hf) in Hpf. unfold ends_before in Hpf. by apply negb_false_iff, Z.leb_le in Hpf.
Qed.

Lemma plain_compare a b : CompareWithoutTimestamp c a b = Compare c a b.
Proof using ComparatorLaws0 Hts. by rewrite (cl_no_ts_plain (ComparatorLaws := ComparatorLaws0) Hts). Qed.
Lemma nothing_beyond_ext u hit hit' : (∀ l f, f ∈ LevelFiles v l → hit f = hit' f) → nothing_beyond u hit ↔ nothing_beyond u hit'.
Proof using. intros H. unfold nothing_beyond. split; (intros [|(H1 & H2 & H3)]; [by left|right; split_and!; [done..|]]); intros l f Hr Hf Hle; [rewrite <- (H l)|rewrite (H l)]; eauto. Qed.
Lemma key_search u ptrs : wf u → level_ptrs_ok u ptrs →
  ∃ b ptrs', Compaction.KeyNotExistsBeyondOutputLevel c v number_levels_ output_level_ bottommost_level_ level_style u ptrs = Some (b, ptrs') ∧ level_ptrs_ok u ptrs' ∧
    (b = true ↔ nothing_beyond u (λ f, Compare c (lo f) u <=? 0)).
Proof using All.
  intros Wu Hp. edestruct (not_beyond_spec u) as (b & ptrs' & E & Hp' & Hb); [done| | |exact Hp|exists b, ptrs'; split; [exact E|]; split; [done|]].
  - done.
  - cbn. intros a b l Ha Hb Hle. destruct (version_file l a Ha) as (W1 & _), (version_file l b Hb) as (W2 & _). rewrite !plain_compare, !Z.leb_le.
    rewrite <- !(cmp_flip_le (cmp := Compare c)) by done. intros H. by apply (cmp_le_trans _ (lo b)).
  - rewrite Hb. apply nothing_beyond_ext. intros l f Hf. destruct (version_file l f Hf) as (W1 & _). rewrite plain_compare. apply eq_iff_eq_true. rewrite !Z.leb_le.
    by rewrite (cmp_flip_le (cmp := Compare c) _ u).
Qed.

(** C15: in a well-formed version whose keys have no timestamps, and with indices that
    are good for the keys from the one asked about on, no access of
    [KeyNotExistsBeyondOutputLevel] and [KeyRangeNotExistsBeyondOutputLevel] is out of
    range and the indices stay good. They answer yes exactly if the level is the
    bottommost one, or, in a leveled compaction whose output is not level 0, no file of
    a level below the output has the key between its bounds, or overlaps the range from
    the begin key up to and without the end key. *)
Theorem beyond_output_level_exact u e ptrs : wf u → wf e → level_ptrs_ok u ptrs →
  (∃ b ptrs', Compaction.KeyNotExistsBeyondOutputLevel c v number_levels_ output_level_ bottommost_level_ level_style u ptrs = Some (b, ptrs') ∧ level_ptrs_ok u ptrs' ∧
    (b = true ↔ nothing_beyond u (λ f, Compare c (lo f) u <=? 0))) ∧
  (Compare c u e < 0 →
   ∃ b ptrs', Compaction.KeyRangeNotExistsBeyondOutputLevel c v number_levels_ output_level_ bottommost_level_ level_style u e ptrs = Some (b, ptrs') ∧ level_ptrs_ok u ptrs' ∧
    (b = true ↔ nothing_beyond u (λ f, Compare c (lo f) e <? 0))).
Proof using All.
  intros Wu We Hp. split; [by apply key_search|]. intros Hlt. unfold Compaction.KeyRangeNotExistsBeyondOutputLevel. rewrite plain_compare, (proj2 (Z.ltb_lt _ _)) by done. cbn [assertion mbind option_bind].
  edestruct (not_beyond_spec u) as (b & ptrs' & E & Hp' & Hb); [done| | |exact Hp|exists b, ptrs'; split; [exact E|]; split; [done|]].
  - intros l f Hf. cbn. rewrite plain_compare. unfold ends_before. by rewrite Z.leb_antisym, negb_involutive.
  - cbn. intros a b l Ha Hb Hle. destruct (version_file l a Ha) as (W1 & _), (version_file l b Hb) as (W2 & _). rewrite !plain_compare, !negb_true_iff, !Z.leb_gt.
    rewrite <- !(cmp_flip_lt (cmp := Compare c)) by done. by apply (cmp_le_lt_trans _ (lo b)).
  - rewrite Hb. apply nothing_beyond_ext. intros l f Hf. destruct (version_file l f Hf) as (W1 & _). rewrite plain_compare. apply eq_iff_eq_true. rewrite negb_true_iff, Z.leb_gt, Z.ltb_lt.
    by rewrite (cmp_flip_lt (cmp := Compare c) _ e).
Qed.
End Version.
