(* ===== verification/CompactionRun.v ===== *)
(** * A compaction keeps what its readers see

    The run of a compaction iterator from the start to the end of its input, and the
    searches below the output as its source of what exists there. *)

From Stdlib Require Import Sorting.Sorted.
From S2P Require Import Prelude SortedLists Status Slice Coding Comparator DbFormat VersionEdit FileIndexer VersionStorage VersionStorageCorrect VersionPrepareCorrect.
From S2P Require Import CompactionIterator CompactionViews CompactionIteratorCorrect CompactionBeyond.
From stdpp Require Import list.
#[local] Open Scope Z_scope.
Import CompactionIterator.

(** ** The searches discharge what the iterator relies on *)

Section Searches.
Context (wf : bytes → Prop) (c : Comparator) `{!ComparatorLaws wf c} (v : VersionStorageInfo) (Hv : files_in_order wf c v) (Hts : timestamp_size c = 0).
Context (number_levels_ output_level_ : Z) (Hout : 0 <= output_level_ < number_levels_) (bottommost level_style : bool).
Context {B : Type} (o : CompactionIteratorOptions B) (cp : CompactionProxy) (Ho : compaction_ o = Some cp) (below : list Entry).

(** The entries below are in the files of the levels below the output. *)
Record beyond_files : Prop := {
  bf_search : ∀ u ptrs, KeyNotExistsBeyondOutputLevel cp u ptrs =
    default (false, ptrs) (Compaction.KeyNotExistsBeyondOutputLevel c v number_levels_ output_level_ bottommost level_style u ptrs);
  bf_bottommost : bottommost_level cp = bottommost;
  bf_levels : number_levels cp = number_levels_;
  bf_entries : ∀ x, x ∈ below → wf (entry_user_key x) ∧ ∃ l f, output_level_ < l < number_levels_ ∧ f ∈ LevelFiles v l ∧
    Compare c (ExtractUserKey (smallest f)) (entry_user_key x) <= 0 ∧ Compare c (entry_user_key x) (ExtractUserKey (largest f)) <= 0;
  bf_nothing : bottommost = true → below = []
}.
Lemma ptrs_start u : level_ptrs_ok c v number_levels_ output_level_ u (replicate (Z.to_nat number_levels_) 0).
Proof using Hout.
  split; [unfold Zlen; rewrite length_replicate; lia|]. intros l Hl. exists 0. unfold vec_at. rewrite (proj2 (Z.leb_le 0 l)) by lia.
  rewrite lookup_replicate_2 by lia. split_and!; [done..|]. intros f Hf. by apply elem_of_nil in Hf.
Qed.
Lemma ptrs_later u u' ptrs : wf u → wf u' → Compare c u u' <= 0 → level_ptrs_ok c v number_levels_ output_level_ u ptrs → level_ptrs_ok c v number_levels_ output_level_ u' ptrs.
Proof using ComparatorLaws0 Hv Hts.
  intros Wu Wu' Hle [Hl Hp]. split; [done|]. intros l Hr. destruct (Hp l Hr) as (p & E & H0 & H). exists p. split_and!; [done..|]. intros f Hf. specialize (H f Hf). unfold ends_before in *.
  apply elem_of_take in Hf as (i & Hi%list_elem_of_lookup_2 & _). destruct (version_file wf c v Hv Hts l f Hi) as (_ & W2 & _).
  rewrite negb_true_iff, Z.leb_gt in *. rewrite <- (cmp_flip_lt (cmp := Compare c)) in * by done. by apply (cmp_lt_le_trans _ u).
Qed.
Lemma search_beyond : beyond_files → BeyondOutputLevel wf c o below (level_ptrs_ok c v number_levels_ output_level_).
Proof using All.
  intros [Hs Hb Hl He Hn]. pose proof (key_search wf c v Hv Hts number_levels_ output_level_ ltac:(lia) bottommost level_style) as Hk. split.
  - intros cp' u E _. rewrite Ho in E. injection E as <-. rewrite Hl. apply ptrs_start.
  - intros u u' ptrs. apply ptrs_later.
  - intros cp' u ptrs E Wu Hp. rewrite Ho in E. injection E as <-. rewrite Hs. by destruct (Hk u ptrs Wu Hp) as (b & ptrs' & -> & Hp' & _).
  - intros cp' u ptrs E Wu Hp Htrue x Hx. rewrite Ho in E. injection E as <-. rewrite Hs in Htrue. destruct (Hk u ptrs Wu Hp) as (b & ptrs' & Es & _ & Hb'). rewrite Es in Htrue. cbn in Htrue. subst b.
    destruct (proj1 Hb' eq_refl) as [Hbm|(_ & _ & Hno)]; [rewrite (Hn Hbm) in Hx; by apply elem_of_nil in Hx|]. destruct (He x Hx) as (Wx & l & f & Hr & Hf & H1 & H2).
    destruct (version_file wf c v Hv Hts l f Hf) as (W1 & W2 & _). apply not_true_is_false. unfold version_of. rewrite andb_true_iff, same_key_spec. intros [_ Ex].
    pose proof (cmp_eq_l (cmp := Compare c) _ _ (ExtractUserKey (largest f)) Wx Wu W2 Ex) as Hhi. specialize (Hno l f Hr Hf ltac:(lia)). apply Z.leb_gt in Hno.
    assert (Compare c (ExtractUserKey (smallest f)) u <= 0); [|lia]. apply (cmp_le_trans _ (entry_user_key x)); [done..|lia].
  - intros cp' u ptrs E Hbm Wu Hp. rewrite Ho in E. injection E as <-. rewrite Hb in Hbm. split; [by apply Hn|]. rewrite Hs. destruct (Hk u ptrs Wu Hp) as (b & ptrs' & -> & _ & Hb'). cbn. apply Hb'. by left.
Qed.
End Searches.

(** ** The run *)

Section Run.
Context (wf : bytes → Prop) (c : Comparator) `{!ComparatorLaws wf c} {B : Type} (o : CompactionIteratorOptions B).
Context (T : list RangeTombstone) (below : list Entry) (ptrs_ok : bytes → list Z → Prop) `{!BeyondOutputLevel wf c o below ptrs_ok}.

(** The entries of the input in order, those below, which are older, the snapshots, and
    the tombstones. Under a snapshot of an empty database, which has the number zero, no
    entry of the input has this number. *)
Record compaction_ok (input : list Entry) : Prop := {
  co_plain : plain c o;
  co_snapshots : snapshots_ok (snapshots_ o);
  co_zero : 0 ∈ snapshots_ o → ∀ e, e ∈ input → 0 < entry_seq e;
  co_input : entries_ok wf c input;
  co_below : Forall (entry_ok wf) below;
  co_older : ∀ e x, e ∈ input → x ∈ below → version_of c (entry_user_key e) x = true → entry_seq x <= entry_seq e;
  co_contract : single_del_contract wf c (input ++ below);
  co_tombstones : ∀ t, t ∈ T → wf (start_key_ t) ∧ wf (end_key_ t);
  co_deletes : should_delete_law wf c o T
}.
Lemma increasing_sorted l : StronglySorted Z.lt l → increasing l = true.
Proof using.
  induction 1 as [|a l Hs IH Ha]; [done|]. destruct l as [|b l]; [done|]. cbn in *. rewrite IH, (proj2 (Z.ltb_lt _ _)); [done|]. by inversion_clear Ha.
Qed.
Lemma kept_below u l : wf u → under (kept_tombstones o T) l ++ under T below = under (kept_tombstones o T) (l ++ below).
Proof using All.
  intros Wu. unfold under. rewrite map_app. f_equal. unfold kept_tombstones. destruct (bottommost_level_ o) eqn:Eb; [|done].
  unfold bottommost_level_ in Eb. destruct (compaction_ o) as [cp|] eqn:Ec; [|done]. apply andb_true_iff in Eb as [Eb _].
  by destruct (bo_bottommost wf c cp u _ Ec Eb Wu (bo_start wf c cp u Ec Wu)) as [-> _].
Qed.
Lemma run_starts input b : compaction_ok input → ∃ s, New c o input b = Some s ∧ input_ s = input ∧
  inv wf c o T below ptrs_ok (under T (input ++ below), Status_OK) [] (core s).
Proof using All.
  intros [Ho Hsn H0 Hin Hbe Hold Hcon HT Hsd]. unfold New. rewrite (proj2 (Z.leb_le _ _) (pl_times _ _ Ho)), (increasing_sorted _ (proj1 Hsn)), (pl_ts _ _ Ho). cbn [assertion mbind option_bind Z.eqb orb].
  eexists. split; [done|]. split; [done|]. split; cbn; try done.
  - intros r u Hr Wu. unfold content, under. by rewrite map_app.
  - intros e He. destruct (compaction_ o) as [cp|] eqn:Ec; [left|by right]. apply (bo_start wf c); [done|]. apply (entry_parsed wf e). destruct Hin as [Hf _]. rewrite Forall_forall in Hf. by apply Hf.
  - split; [constructor|apply SSorted_nil].
  - intros y x Hy. by apply elem_of_nil in Hy.
  - intros e He. destruct Hin as [Hf _]. rewrite Forall_forall in Hf. apply stripe_pos; [done|apply (entry_parsed wf e (Hf e He))|]. intros Hz. by apply H0.
Qed.
(** The status of the whole run. *)
Lemma place_all out : ∀ st, fold_left (place o) out st = if existsb (unsafe_placement o) out then unsafe_status else st.
Proof using.
  induction out as [|e out IH]; intros st; [done|]. cbn [fold_left existsb]. rewrite IH. unfold place. destruct (unsafe_placement o e); [by destruct (existsb _ out)|done].
Qed.

(** C9: a compaction changes nothing that a reader can see, if it is one without merge
    operands, compaction filter, user-defined timestamps, snapshot checker, blob files to
    write or collect, cancellation or errors of its input, and if the earliest snapshot
    for write conflicts is not before the earliest snapshot. The iterator reads all of
    its input without a failed assertion; and for every snapshot and for the current
    state, the newest version of a user key that is not newer than the reader is a value,
    and the same value, in what was put out on top of the levels below exactly if it was
    in the input on top of them. For this, single deletions must have been used as their
    contract requires, the input must have no entry of sequence number zero if there is
    a snapshot of this number, and a bottommost compaction may drop the range tombstones
    that every snapshot sees. What was put out is well formed and strictly in the order
    of the internal keys, as a table builder requires, even where sequence numbers were
    set to zero. The status is OK, except that with per-key placement it is a corruption
    exactly if an entry was put out that some snapshot does not see and that is outside
    the range of the penultimate level. *)
Theorem compaction_keeps_views input b : compaction_ok input → ∃ out s, run c o input b = Some (out, s) ∧ input_ s = [] ∧
  status_ s = (if existsb (unsafe_placement o) out then unsafe_status else Status_OK) ∧
  Forall (entry_ok wf) out ∧ StronglySorted (entry_lt c) out ∧
  ∀ r u, reader (snapshots_ o) r → wf u → view c (kept_tombstones o T) r u (out ++ below) = view c T r u (input ++ below).
Proof using All.
  intros Hc. destruct (run_starts input b Hc) as (s0 & En & Ei & Hinv). destruct Hc as [Ho Hsn H0 Hin Hbe Hold Hcon HT Hsd]. unfold run, SeekToFirst. rewrite En. cbn [mbind option_bind].
  edestruct (next_from_input_spec wf c o Ho T below ptrs_ok Hsn Hsd Hbe HT) as (s1 & -> & Hf); [exact Hinv|]. cbn [mbind option_bind].
  edestruct (prepare_found wf c o Ho T below ptrs_ok Hsn Hsd Hbe HT) as (s2 & -> & H2); [exact Hf|]. cbn [mbind option_bind]. rewrite Ei in H2.
  assert (∃ out s3, outputs c o (length input) s2 = Some (out, s3) ∧ ended wf c o T below ptrs_ok (under T (input ++ below), fold_left (place o) out Status_OK) out s3)
    as (out & s3 & E & (_ & Hi & Hend)).
  { destruct H2 as [[Hp Hn]|He]; [|exists [], s2; split; [by apply (outputs_ended wf c o T below ptrs_ok _ _ _ _ He)|exact He]].
    destruct (outputs_spec wf c o Ho T below ptrs_ok Hsn Hsd Hbe HT (length input) _ _ _ _ Hp ltac:(lia)) as (l & s3 & E & He). exists (output s2 :: l), s3. split; [done|exact He]. }
  exists out, s3. split; [exact E|]. split; [done|]. split; [rewrite <- place_all; apply Hend|]. destruct (in_out _ _ _ _ _ _ _ _ _ Hend). split; [done|]. split; [done|].
  intros r u Hr Wu. unfold view. pose proof (in_views _ _ _ _ _ _ _ _ _ Hend r u Hr Wu) as Hview. cbn [fst] in Hview. rewrite <- (kept_below u out Wu), <- Hview.
  cbn [app c_input core]. rewrite Hi. unfold content. by destruct (cur _) as [[? ?]|].
Qed.
End Run.

(** Files of level 0 and of level 1 into level 1, over the version of four levels: one
    snapshot and one of the empty database, a version that is hidden, a deletion that must stay since the key exists
    in level 3, a single deletion with its value, and a range tombstone; without and with
    per-key placement. *)
Module RunExample.
Import VersionExample PrepareExample.
Definition entry (k seq ty : Z) (v : bytes) : Entry := mkEntry (k :: EncodeFixed64 (seq * 256 + ty)) v (ty =? kTypeRangeDeletion).
Definition inputs : list Entry :=
  [entry 97 9 kTypeValue [1]; entry 97 7 kTypeValue [2]; entry 97 4 kTypeDeletion []; entry 98 8 kTypeSingleDeletion []; entry 98 6 kTypeValue [3];
   entry 99 4 kTypeRangeDeletion []; entry 99 3 kTypeValue [4]].
Definition older : list Entry := [entry 97 2 kTypeValue [5]].
Definition tombstones : list RangeTombstone := [NewRangeTombstone [99] [100] 4].
Definition proxy (placement : bool) : CompactionProxy := mkCompactionProxy 0
  (λ u ptrs, default (false, ptrs) (Compaction.KeyNotExistsBeyondOutputLevel BytewiseComparator tree 4 1 false true u ptrs)) false 4 false false placement (λ _, false).
Definition options (placement : bool) : CompactionIteratorOptions unit := mkCompactionIteratorOptions unit [0; 5] kMaxSequenceNumber kMaxSequenceNumber None true true (Some (proxy placement)) None None 0 0 0
  (λ k, let p := parsed_of k in covering BytewiseComparator tombstones (user_key p) (sequence p) (stripe [0; 5] (sequence p)))
  false (λ l _ _, mkMerged Status_OK [] l None) None (λ _ _, (Status_OK, [])) Status_OK (λ _, false) (λ _, false).

Lemma entry_good k seq ty v : is_u 8 k → IsExtendedValueType (entry_type (entry k seq ty v)) = true →
  (ty =? kTypeRangeDeletion = false → point_type (entry_type (entry k seq ty v)) = true) → entry_ok bytes_ok (entry k seq ty v).
Proof.
  intros Hk Ht Hp. split; [|done..]. cbn [entry entry_key]. assert (bytes_ok (k :: EncodeFixed64 (seq * 256 + ty))) as Hb by (constructor; [done|apply bytes_ok_EncodeFixed64]).
  split_and!; [rewrite Zlen_cons, Zlen_EncodeFixed64; done|done|]. by apply bytes_ok_ztake.
Qed.
Lemma all_good : Forall (entry_ok bytes_ok) (inputs ++ older).
Proof. repeat first [apply Forall_nil_2|apply Forall_cons_2]; apply entry_good; by vm_compute. Qed.
Lemma contract_good : single_del_contract bytes_ok BytewiseComparator (inputs ++ older).
Proof.
  intros u Wu vs (e & He & Hs). apply list_elem_of_In, List.filter_In in He as [He Hv]. assert (u = [98]) as ->.
  { apply andb_true_iff in Hv as [_ Hv%same_key_spec]. symmetry. repeat (destruct He as [<-|He]; [try done|]); [|done]. apply lexcmp_eq. by rewrite <- slice_compare_lex. }
  clear. assert (vs = [entry 98 8 kTypeSingleDeletion []; entry 98 6 kTypeValue [3]]) as -> by (by vm_compute). split.
  - intros e He. repeat (apply elem_of_cons in He as [-> |He]; [auto|]). by apply elem_of_nil in He.
  - intros [|[|i]] a b Ha Hb; [injection Ha as <-; injection Hb as <-; done|done..].
Qed.
Lemma example_ok placement : compaction_ok bytes_ok BytewiseComparator (options placement) tombstones older inputs.
Proof.
  pose proof all_good as [Hi Hb]%Forall_app. split; [split; try done; intros cp [= <-]; done| | |split; [done|]|done| |apply contract_good| |].
  - split; [repeat constructor|]. intros s Hs. repeat (apply elem_of_cons in Hs as [-> |Hs]; [by vm_compute|]). by apply elem_of_nil in Hs.
  - intros _. apply Forall_forall. repeat first [apply Forall_nil_2|apply Forall_cons_2]; by vm_compute.
  - repeat first [apply SSorted_nil|apply SSorted_cons|apply Forall_nil_2|apply Forall_cons_2]; (split; [by vm_compute|intros ???; by vm_compute]).
  - intros e x He ->%list_elem_of_singleton _. revert e He. apply Forall_forall. repeat first [apply Forall_nil_2|apply Forall_cons_2]; by vm_compute.
  - intros t ->%list_elem_of_singleton. split; by repeat constructor.
  - intros k _. cbn [options ShouldDelete snapshots_]. unfold covering. rewrite existsb_exists. split; intros (t & Ht & H); exists t; (split; [by apply list_elem_of_In|]);
      rewrite !andb_true_iff, !Z.leb_le, !Z.ltb_lt in *; intuition.
Qed.
Lemma example_beyond placement : BeyondOutputLevel bytes_ok BytewiseComparator (options placement) older (level_ptrs_ok BytewiseComparator tree 4 1).
Proof.
  apply (search_beyond bytes_ok BytewiseComparator tree (version_in_order _ _ tree tree_wf tree_bounds) eq_refl 4 1 ltac:(lia) false true (options placement) (proxy placement) eq_refl). split; try done.
  intros x ->%list_elem_of_singleton. split; [by repeat constructor|]. exists 3, (file 2 2 1 0 97 97). split_and!; [lia|lia|left|by vm_compute..].
Qed.

Definition expected : list Entry := [entry 97 9 kTypeValue [1]; entry 97 4 kTypeDeletion []; entry 99 4 kTypeRangeDeletion []].
Lemma example_run placement : fst <$> run BytewiseComparator (options placement) inputs tt = Some expected.
Proof. destruct placement; by vm_compute. Qed.
Lemma compaction_keeps_views_witness :
  (∃ s, run BytewiseComparator (options false) inputs tt = Some (expected, s) ∧ status_ s = Status_OK) ∧
  (∃ s, run BytewiseComparator (options true) inputs tt = Some (expected, s) ∧ status_ s = unsafe_status).
Proof.
  split.
  - destruct (compaction_keeps_views bytes_ok BytewiseComparator (options false) tombstones older _ (BeyondOutputLevel0 := example_beyond false) inputs tt (example_ok false))
      as (out & s & E & _ & Hs & _). pose proof (example_run false) as H. rewrite E in H. injection H as ->. exists s. split; [exact E|]. rewrite Hs. vm_compute. reflexivity.
  - destruct (compaction_keeps_views bytes_ok BytewiseComparator (options true) tombstones older _ (BeyondOutputLevel0 := example_beyond true) inputs tt (example_ok true))
      as (out & s & E & _ & Hs & _). pose proof (example_run true) as H. rewrite E in H. injection H as ->. exists s. split; [exact E|]. rewrite Hs. vm_compute. reflexivity.
Defined.

(** Below level 1, the key 98 is between the bounds of a file of level 3. *)
Lemma beyond_output_level_exact_witness : ∃ ptrs, Compaction.KeyNotExistsBeyondOutputLevel BytewiseComparator tree 4 1 false true [98] [0; 0; 0; 0] = Some (false, ptrs).
Proof.
  destruct (beyond_output_level_exact bytes_ok BytewiseComparator tree (version_in_order _ _ tree tree_wf tree_bounds) eq_refl 4 1 ltac:(lia) false true [98] [99] [0; 0; 0; 0])
    as [(b & ptrs & E & _ & Hb) _]; [by repeat constructor..|by apply ptrs_start|].
  exists ptrs. rewrite E. destruct b; [|done]. destruct (proj1 Hb eq_refl) as [|(_ & _ & H)]; [done|]. exfalso.
  specialize (H 3 (file 3 2 1 0 98 99) ltac:(lia) ltac:(right; left) ltac:(by vm_compute)). by vm_compute in H.
Defined.

(** With a snapshot of sequence number zero, the only version of a key that has this
    number itself is taken for one that was seen before: it is dropped, although the
    snapshot and the current state see it. *)
Lemma zero_snapshot_loses_key :
  let o := mkCompactionIteratorOptions unit [0] kMaxSequenceNumber kMaxSequenceNumber None true true None None None 0 0 0 (λ _, false)
    false (λ l _ _, mkMerged Status_OK [] l None) None (λ _ _, (Status_OK, [])) Status_OK (λ _, false) (λ _, false) in
  fst <$> run BytewiseComparator o [entry 97 0 kTypeValue [1]] tt = Some [] ∧ view BytewiseComparator [] 0 [97] [entry 97 0 kTypeValue [1]] = Some (kTypeValue, [1]).
Proof. by vm_compute. Qed.
End RunExample.
