(* ===== verification/VersionBuilder.v ===== *)
(** * The version builder

    [VersionBuilder::Rep] (db/version_builder.cc) accumulates version edits on top
    of a base version and saves the result into a new one. The objects of table
    files are values: the builder keeps its own copies of added files, so a file of
    the base version and an added one are never the same object. Left out: loading
    of table readers, the reservation of memory for file metadata, reference counts,
    and the key in the message of [ApplyCompactCursors]. As in a release build,
    [SaveTo] does not check the base version again. *)

From S2P Require Import Prelude SortedLists Status Comparator DbFormat WalEdit VersionEdit VersionStorage.
From stdpp Require Import gmap pretty.
#[local] Open Scope Z_scope.

(** ** Blob files *)

Module MutableBlobFileMetaData.
(** [BlobFileMetaDataDelta] *)
Record Delta := mkDelta {
  additional_garbage_count_ : Z;
  additional_garbage_bytes_ : Z;
  newly_linked_ssts_ : gset Z;
  newly_unlinked_ssts_ : gset Z
}.
Definition NewDelta : Delta := mkDelta 0 0 ∅ ∅.
Definition Delta_IsEmpty (d : Delta) : bool :=
  (additional_garbage_count_ d =? 0) && (additional_garbage_bytes_ d =? 0) &&
  bool_decide (newly_linked_ssts_ d = ∅) && bool_decide (newly_unlinked_ssts_ d = ∅).
Definition Delta_AddGarbage (d : Delta) (count bytes : Z) : Delta :=
  mkDelta (u64 (additional_garbage_count_ d + count)) (u64 (additional_garbage_bytes_ d + bytes))
    (newly_linked_ssts_ d) (newly_unlinked_ssts_ d).
Definition Delta_LinkSst (d : Delta) (number : Z) : Delta :=
  if bool_decide (number ∈ newly_unlinked_ssts_ d) then
    mkDelta (additional_garbage_count_ d) (additional_garbage_bytes_ d) (newly_linked_ssts_ d) (newly_unlinked_ssts_ d ∖ {[number]})
  else
    mkDelta (additional_garbage_count_ d) (additional_garbage_bytes_ d) ({[number]} ∪ newly_linked_ssts_ d) (newly_unlinked_ssts_ d).
Definition Delta_UnlinkSst (d : Delta) (number : Z) : Delta :=
  if bool_decide (number ∈ newly_linked_ssts_ d) then
    mkDelta (additional_garbage_count_ d) (additional_garbage_bytes_ d) (newly_linked_ssts_ d ∖ {[number]}) (newly_unlinked_ssts_ d)
  else
    mkDelta (additional_garbage_count_ d) (additional_garbage_bytes_ d) (newly_linked_ssts_ d) ({[number]} ∪ newly_unlinked_ssts_ d).

Record t := mk {
  shared_meta_ : BlobFileAddition;
  delta_ : Delta;
  linked_ssts_ : gset Z;
  garbage_blob_count_ : Z;
  garbage_blob_bytes_ : Z
}.
(** The constructors for a new and for an existing blob file *)
Definition OfShared (shared : BlobFileAddition) : t := mk shared NewDelta ∅ 0 0.
Definition OfMeta (m : BlobFileMetaData.t) : t :=
  mk (BlobFileMetaData.shared_meta_ m) NewDelta (BlobFileMetaData.linked_ssts_ m)
    (BlobFileMetaData.garbage_blob_count_ m) (BlobFileMetaData.garbage_blob_bytes_ m).
Definition HasDelta (m : t) : bool := negb (Delta_IsEmpty (delta_ m)).
Definition AddGarbage (m : t) (count bytes : Z) : option t :=
  if (total_blob_count_ (shared_meta_ m) <? u64 (garbage_blob_count_ m + count)) ||
     (total_blob_bytes_ (shared_meta_ m) <? u64 (garbage_blob_bytes_ m + bytes)) then None
  else Some (mk (shared_meta_ m) (Delta_AddGarbage (delta_ m) count bytes) (linked_ssts_ m)
         (u64 (garbage_blob_count_ m + count)) (u64 (garbage_blob_bytes_ m + bytes))).
Definition LinkSst (m : t) (number : Z) : t :=
  mk (shared_meta_ m) (Delta_LinkSst (delta_ m) number) ({[number]} ∪ linked_ssts_ m) (garbage_blob_count_ m) (garbage_blob_bytes_ m).
Definition UnlinkSst (m : t) (number : Z) : t :=
  mk (shared_meta_ m) (Delta_UnlinkSst (delta_ m) number) (linked_ssts_ m ∖ {[number]}) (garbage_blob_count_ m) (garbage_blob_bytes_ m).
(** [CreateBlobFileMetaData] *)
Definition Create (m : t) : BlobFileMetaData.t :=
  BlobFileMetaData.mk (shared_meta_ m) (linked_ssts_ m) (garbage_blob_count_ m) (garbage_blob_bytes_ m).
End MutableBlobFileMetaData.

(** ** The state *)

Record LevelState := mkLevelState { deleted_files : gset Z; added_files : gmap Z FileMetaData }.

Record Rep := mkRep {
  base_vstorage_ : VersionStorageInfo;
  levels_ : list LevelState;
  invalid_level_sizes_ : gmap Z Z;
  has_invalid_levels_ : bool;
  table_file_levels_ : gmap Z Z;
  updated_compact_cursors_ : gmap Z bytes;
  mutable_blob_file_metas_ : gmap Z MutableBlobFileMetaData.t
}.
Definition NewRep (base : VersionStorageInfo) : Rep :=
  mkRep base (replicate (length (files_ base)) (mkLevelState ∅ ∅)) ∅ false ∅ ∅ ∅.
Definition num_levels_ (r : Rep) : Z := Z.of_nat (length (levels_ r)).

Definition set_levels (r : Rep) (x : list LevelState) : Rep :=
  mkRep (base_vstorage_ r) x (invalid_level_sizes_ r) (has_invalid_levels_ r) (table_file_levels_ r)
    (updated_compact_cursors_ r) (mutable_blob_file_metas_ r).
Definition set_invalid_sizes (r : Rep) (x : gmap Z Z) : Rep :=
  mkRep (base_vstorage_ r) (levels_ r) x (has_invalid_levels_ r) (table_file_levels_ r)
    (updated_compact_cursors_ r) (mutable_blob_file_metas_ r).
Definition set_has_invalid (r : Rep) (x : bool) : Rep :=
  mkRep (base_vstorage_ r) (levels_ r) (invalid_level_sizes_ r) x (table_file_levels_ r)
    (updated_compact_cursors_ r) (mutable_blob_file_metas_ r).
Definition set_file_level (r : Rep) (number level : Z) : Rep :=
  mkRep (base_vstorage_ r) (levels_ r) (invalid_level_sizes_ r) (has_invalid_levels_ r) (<[number := level]> (table_file_levels_ r))
    (updated_compact_cursors_ r) (mutable_blob_file_metas_ r).
Definition set_updated_cursors (r : Rep) (x : gmap Z bytes) : Rep :=
  mkRep (base_vstorage_ r) (levels_ r) (invalid_level_sizes_ r) (has_invalid_levels_ r) (table_file_levels_ r) x (mutable_blob_file_metas_ r).
Definition set_blob_metas (r : Rep) (x : gmap Z MutableBlobFileMetaData.t) : Rep :=
  mkRep (base_vstorage_ r) (levels_ r) (invalid_level_sizes_ r) (has_invalid_levels_ r) (table_file_levels_ r)
    (updated_compact_cursors_ r) x.

(** [levels_[level]]: [None] if that is outside of the array. *)
Definition level_state (r : Rep) (level : Z) : option LevelState :=
  if level <? 0 then None else levels_ r !! Z.to_nat level.
Definition put_level_state (r : Rep) (level : Z) (st : LevelState) : Rep := set_levels r (<[Z.to_nat level := st]> (levels_ r)).

(** ** Applying an edit *)

Definition CheckConsistencyForNumLevels (r : Rep) : bool :=
  negb (has_invalid_levels_ r) && forallb (λ p, snd p =? 0) (map_to_list (invalid_level_sizes_ r)).

Definition IsBlobFileInVersion (r : Rep) (number : Z) : bool :=
  match mutable_blob_file_metas_ r !! number with
  | Some _ => true
  | None => match GetBlobFileMetaData (base_vstorage_ r) number with Some _ => true | None => false end
  end.
(** The object, and the builder in which it is. *)
Definition GetOrCreateMutableBlobFileMetaData (r : Rep) (number : Z) : option (MutableBlobFileMetaData.t * Rep) :=
  match mutable_blob_file_metas_ r !! number with
  | Some m => Some (m, r)
  | None =>
      match GetBlobFileMetaData (base_vstorage_ r) number with
      | Some meta =>
          let m := MutableBlobFileMetaData.OfMeta meta in
          Some (m, set_blob_metas r (<[number := m]> (mutable_blob_file_metas_ r)))
      | None => None
      end
  end.
Definition put_blob_meta (r : Rep) (number : Z) (m : MutableBlobFileMetaData.t) : Rep :=
  set_blob_metas r (<[number := m]> (mutable_blob_file_metas_ r)).

Definition ApplyBlobFileAddition (r : Rep) (a : BlobFileAddition) : Status * Rep :=
  let number := blob_file_number_ a in
  if IsBlobFileInVersion r number then
    (Corruption2 "VersionBuilder" ("Blob file #" +:+ pretty number +:+ " already added"), r)
  else (Status_OK, put_blob_meta r number (MutableBlobFileMetaData.OfShared a)).

Definition ApplyBlobFileGarbage (r : Rep) (g : BlobFileGarbage) : Status * Rep :=
  let number := garbage_file_number_ g in
  match GetOrCreateMutableBlobFileMetaData r number with
  | None => (Corruption2 "VersionBuilder" ("Blob file #" +:+ pretty number +:+ " not found"), r)
  | Some (m, r) =>
      match MutableBlobFileMetaData.AddGarbage m (garbage_blob_count_ g) (garbage_blob_bytes_ g) with
      | None => (Corruption2 "VersionBuilder" ("Garbage overflow for blob file #" +:+ pretty number), r)
      | Some m => (Status_OK, put_blob_meta r number m)
      end
  end.

Definition GetCurrentLevelForTableFile (r : Rep) (number : Z) : Z :=
  match table_file_levels_ r !! number with
  | Some level => level
  | None => GetFileLevel (base_vstorage_ r) number
  end.
(** [None]: an access outside of the array of levels, or to a file that is not
    there. *)
Definition GetOldestBlobFileNumberForTableFile (r : Rep) (level number : Z) : option Z :=
  st ← level_state r level;
  match added_files st !! number with
  | Some meta => Some (oldest_blob_file_number meta)
  | None => meta ← GetFileMetaDataByNumber (base_vstorage_ r) number; Some (oldest_blob_file_number meta)
  end.

(** Linking a table file to the blob file it refers to, if the version has it. *)
Definition with_blob_file (r : Rep) (number : Z) (update : MutableBlobFileMetaData.t → MutableBlobFileMetaData.t) : Rep :=
  if number =? kInvalidBlobFileNumber then r
  else
    match GetOrCreateMutableBlobFileMetaData r number with
    | Some (m, r) => put_blob_meta r number (update m)
    | None => r
    end.

Definition ApplyFileDeletion (r : Rep) (level number : Z) : option (Status * Rep) :=
  let current_level := GetCurrentLevelForTableFile r number in
  if negb (level =? current_level) then
    let r := if num_levels_ r <=? level then set_has_invalid r true else r in
    Some (Corruption2 "VersionBuilder" ("Cannot delete table file #" +:+ pretty number +:+ " from level " +:+ pretty level +:+
            " since it is " +:+ (if current_level =? kInvalidLevel then "not in the LSM tree" else "on level " +:+ pretty current_level)), r)
  else if num_levels_ r <=? level then
    let size := default 0 (invalid_level_sizes_ r !! level) in
    let r := set_invalid_sizes r (<[level := u64 (size - 1)]> (invalid_level_sizes_ r)) in
    Some (Status_OK, set_file_level r number kInvalidLevel)
  else
    blob_file_number ← GetOldestBlobFileNumberForTableFile r level number;
    let r := with_blob_file r blob_file_number (λ m, MutableBlobFileMetaData.UnlinkSst m number) in
    st ← level_state r level;
    let r := put_level_state r level (mkLevelState ({[number]} ∪ deleted_files st) (delete number (added_files st))) in
    Some (Status_OK, set_file_level r number kInvalidLevel).

Definition ApplyFileAddition (r : Rep) (level : Z) (meta : FileMetaData) : option (Status * Rep) :=
  let number := file_number meta in
  let current_level := GetCurrentLevelForTableFile r number in
  if negb (current_level =? kInvalidLevel) then
    let r := if num_levels_ r <=? level then set_has_invalid r true else r in
    Some (Corruption2 "VersionBuilder" ("Cannot add table file #" +:+ pretty number +:+ " to level " +:+ pretty level +:+
            " since it is already in the LSM tree on level " +:+ pretty current_level), r)
  else if num_levels_ r <=? level then
    let size := default 0 (invalid_level_sizes_ r !! level) in
    let r := set_invalid_sizes r (<[level := u64 (size + 1)]> (invalid_level_sizes_ r)) in
    Some (Status_OK, set_file_level r number level)
  else
    st ← level_state r level;
    let st := mkLevelState (deleted_files st ∖ {[number]}) (emplace number meta (added_files st)) in
    let r := put_level_state r level st in
    let r := with_blob_file r (oldest_blob_file_number meta) (λ m, MutableBlobFileMetaData.LinkSst m number) in
    Some (Status_OK, set_file_level r number level).

Definition ApplyCompactCursors (r : Rep) (level : Z) (key : bytes) : Status * Rep :=
  if level <? 0 then
    (Corruption2 "VersionBuilder" ("Cannot add compact cursor due to invalid level (level = " +:+ pretty level +:+ ")"), r)
  else if level <? num_levels_ r then (Status_OK, set_updated_cursors r (<[level := key]> (updated_compact_cursors_ r)))
  else (Status_OK, r).

(** A loop that stops at the first status that is not OK. *)
Fixpoint apply_each {A} (apply : Rep → A → option (Status * Rep)) (r : Rep) (l : list A) : option (Status * Rep) :=
  match l with
  | [] => Some (Status_OK, r)
  | x :: l => '(s, r) ← apply r x; if ok s then apply_each apply r l else Some (s, r)
  end.
Definition and_then (x : option (Status * Rep)) (k : Rep → option (Status * Rep)) : option (Status * Rep) :=
  '(s, r) ← x; if ok s then k r else Some (s, r).

Section Builder.
Context (ucmp : Comparator).

Definition Apply (r : Rep) (edit : VersionEdit) : option (Status * Rep) :=
  let s := CheckConsistency ucmp (num_levels_ r) (base_vstorage_ r) in
  if negb (ok s) then Some (s, r)
  else
    and_then (apply_each (λ r a, Some (ApplyBlobFileAddition r a)) r (blob_file_additions_ edit)) (λ r,
    and_then (apply_each (λ r g, Some (ApplyBlobFileGarbage r g)) r (blob_file_garbages_ edit)) (λ r,
    and_then (apply_each (λ r d, ApplyFileDeletion r (fst d) (snd d)) r (deleted_files_ edit)) (λ r,
    and_then (apply_each (λ r n, ApplyFileAddition r (fst n) (snd n)) r (new_files_ edit)) (λ r,
    apply_each (λ r c, Some (ApplyCompactCursors r (fst c) (snd c))) r (compact_cursors_ edit))))).

(** ** Saving *)

(** The walk over the blob files of the base version and of the builder, in the
    order of their numbers. The functions are for a file that is in the one, in the
    other or in both, and say whether to go on. *)
Section Merge.
Context {S : Type} (process_base : BlobFileMetaData.t → S → bool * S) (process_mutable : MutableBlobFileMetaData.t → S → bool * S).
Context (process_both : BlobFileMetaData.t → MutableBlobFileMetaData.t → S → bool * S).

Fixpoint merge_metas (base : list BlobFileMetaData.t) : list (Z * MutableBlobFileMetaData.t) → S → S :=
  fix merge_mutable (mutable : list (Z * MutableBlobFileMetaData.t)) (st : S) {struct mutable} : S :=
  match base, mutable with
  | [], [] => st
  | b :: base, [] => let '(go, st) := process_base b st in if go then merge_metas base [] st else st
  | [], m :: mutable => let '(go, st) := process_mutable (snd m) st in if go then merge_mutable mutable st else st
  | b :: base', m :: mutable' =>
      if BlobFileMetaData.GetBlobFileNumber b <? fst m then
        let '(go, st) := process_base b st in if go then merge_metas base' mutable st else st
      else if fst m <? BlobFileMetaData.GetBlobFileNumber b then
        let '(go, st) := process_mutable (snd m) st in if go then merge_mutable mutable' st else st
      else let '(go, st) := process_both b (snd m) st in if go then merge_metas base' mutable' st else st
  end.
Definition MergeBlobFileMetas (r : Rep) (first_blob_file : Z) (st : S) : S :=
  merge_metas (GetBlobFileMetaDataLB (base_vstorage_ r) first_blob_file)
    (List.filter (λ p, first_blob_file <=? fst p) (map_entries (mutable_blob_file_metas_ r))) st.
End Merge.

(** [CheckLinkedSsts]: stop at a blob file with links. *)
Definition CheckLinkedSsts (number : Z) (linked : gset Z) (min_oldest_blob_file_num : Z) : bool * Z :=
  if bool_decide (linked = ∅) then (true, min_oldest_blob_file_num) else (false, number).
Definition GetMinOldestBlobFileNumber (r : Rep) : Z :=
  let base m := CheckLinkedSsts (BlobFileMetaData.GetBlobFileNumber m) (BlobFileMetaData.linked_ssts_ m) in
  let mutable m := CheckLinkedSsts (blob_file_number_ (MutableBlobFileMetaData.shared_meta_ m)) (MutableBlobFileMetaData.linked_ssts_ m) in
  MergeBlobFileMetas base mutable (λ _ m, mutable m) r kInvalidBlobFileNumber kInvalidBlobFileNumber.

Definition AddBlobFileIfNeeded (v : VersionStorageInfo) (m : BlobFileMetaData.t) : VersionStorageInfo :=
  if bool_decide (BlobFileMetaData.linked_ssts_ m = ∅) &&
     (BlobFileMetaData.GetTotalBlobCount m <=? BlobFileMetaData.garbage_blob_count_ m) then v
  else AddBlobFileTo v m.
Definition SaveBlobFilesTo (r : Rep) (v : VersionStorageInfo) : VersionStorageInfo :=
  let oldest_blob_file_with_linked_ssts := GetMinOldestBlobFileNumber r in
  MergeBlobFileMetas
    (λ b v, (true, AddBlobFileIfNeeded v b))
    (λ m v, (true, AddBlobFileIfNeeded v (MutableBlobFileMetaData.Create m)))
    (λ b m v, (true, AddBlobFileIfNeeded v (if negb (MutableBlobFileMetaData.HasDelta m) then b else MutableBlobFileMetaData.Create m)))
    r oldest_blob_file_with_linked_ssts v.

(** [added]: the file is the object that the builder added, not one of the base. *)
Definition MaybeAddFile (r : Rep) (v : VersionStorageInfo) (level : Z) (added : bool) (f : FileMetaData) : VersionStorageInfo :=
  let st := default (mkLevelState ∅ ∅) (level_state r level) in
  if bool_decide (file_number f ∈ deleted_files st) then v
  else
    match added_files st !! file_number f with
    | Some _ => if negb added then v else AddFileTo v level f
    | None => AddFileTo v level f
    end.

Section SaveLevel.
Context (r : Rep) (level : Z) (cmp : FileMetaData → FileMetaData → bool).
Fixpoint save_files (base : list FileMetaData) : list FileMetaData → VersionStorageInfo → VersionStorageInfo :=
  fix save_added (added : list FileMetaData) (v : VersionStorageInfo) {struct added} : VersionStorageInfo :=
  match base, added with
  | [], [] => v
  | [], a :: added => save_added added (MaybeAddFile r v level true a)
  | b :: base, [] => save_files base [] (MaybeAddFile r v level false b)
  | b :: base', a :: added' =>
      if cmp a b then save_added added' (MaybeAddFile r v level true a)
      else save_files base' added (MaybeAddFile r v level false b)
  end.
(** The added files are sorted by the strict order [cmp], which decides the result. *)
Definition SaveLevelTo (v : VersionStorageInfo) : VersionStorageInfo :=
  let st := default (mkLevelState ∅ ∅) (level_state r level) in
  let added := sort_by (λ a b, negb (cmp b a)) (map snd (map_to_list (added_files st))) in
  save_files (LevelFiles (base_vstorage_ r) level) added v.
End SaveLevel.

Definition PromoteEpochNumberRequirementIfNeeded (r : Rep) (v : VersionStorageInfo) : VersionStorageInfo :=
  if HasMissingEpochNumber v then v
  else if existsb (λ st, existsb (λ p, epoch_number (snd p) =? kUnknownEpochNumber) (map_to_list (added_files st))) (levels_ r) then v
  else SetEpochNumberRequirement v kMustPresent.
Fixpoint save_levels (r : Rep) (level : Z) (n : nat) (v : VersionStorageInfo) : VersionStorageInfo :=
  match n with
  | O => v
  | S n => save_levels r (level + 1) n (SaveLevelTo r level (BySmallestKey ucmp) v)
  end.
Definition SaveSSTFilesTo (r : Rep) (v : VersionStorageInfo) : VersionStorageInfo :=
  if num_levels_ r =? 0 then v
  else
    let v := match epoch_number_requirement_ v with
             | kMightMissing => PromoteEpochNumberRequirementIfNeeded r v
             | kMustPresent => v
             end in
    let v := SaveLevelTo r 0 (match epoch_number_requirement_ v with
                              | kMightMissing => NewestFirstBySeqNo
                              | kMustPresent => NewestFirstByEpochNumber
                              end) v in
    save_levels r 1 (Z.to_nat (num_levels_ r - 1)) v.

Definition SaveCompactCursorsTo (r : Rep) (v : VersionStorageInfo) : VersionStorageInfo :=
  fold_left (λ v c, AddCursorForOneLevel v (fst c) (snd c)) (map_to_list (updated_compact_cursors_ r)) v.

Definition SaveTo (r : Rep) (v : VersionStorageInfo) : Status * VersionStorageInfo :=
  let s := CheckConsistency ucmp (num_levels_ r) v in
  if negb (ok s) then (s, v)
  else
    let v := SaveCompactCursorsTo r (SaveBlobFilesTo r (SaveSSTFilesTo r v)) in
    (CheckConsistency ucmp (num_levels_ r) v, v).
End Builder.
