(* ===== verification/VersionBuilderCorrect.v ===== *)
(** * The version builder refines a map of files

    Applying edits to a builder is deleting from and adding to the map of the table
    files of the base version, and saving the builder gives a version of the files
    of the resulting map, in order. *)

From S2P Require Import Prelude SortedLists Status Comparator DbFormat WalEdit VersionEdit VersionStorage VersionStorageCorrect.
From S2P Require Import VersionBuilder.
From stdpp Require Import gmap pretty.
From Stdlib Require Import Sorting.Sorted.
#[local] Open Scope Z_scope.

(** ** Edits on the map *)

Definition lsm_level (m : Lsm) (n : Z) : Z := match m !! n with Some (l, _) => l | None => kInvalidLevel end.
Definition lsm_delete (m : Lsm) (d : Z * Z) : option Lsm :=
  if lsm_level m (snd d) =? fst d then Some (delete (snd d) m) else None.
Definition lsm_add (m : Lsm) (x : Z * FileMetaData) : option Lsm :=
  match m !! file_number (snd x) with Some _ => None | None => Some (<[file_number (snd x) := x]> m) end.
(** One after the other, as long as they succeed *)
Fixpoint each {S A} (f : S → A → option S) (st : S) (l : list A) : option S :=
  match l with [] => Some st | x :: l => st ← f st x; each f st l end.
(** Files are deleted before others are added. *)
Definition lsm_apply (m : Lsm) (e : VersionEdit) : option Lsm :=
  m ← each lsm_delete m (deleted_files_ e); each lsm_add m (new_files_ e).

(** How many files are on a level *)
Definition count_at (m : Lsm) (l : Z) : nat := size (filter (λ p, fst (snd p) = l) m).

Lemma count_at_insert m n l x : m !! n = None → count_at (<[n := x]> m) l = ((if decide (fst x = l) then 1 else 0) + count_at m l)%nat.
Proof.
  intros Hn. unfold count_at. destruct (decide (fst x = l)) as [E|E].
  - rewrite map_filter_insert_True by done. rewrite map_size_insert_None; [done|]. apply map_lookup_filter_None. by left.
  - rewrite map_filter_insert_False by done. rewrite delete_id by done. done.
Qed.
Lemma count_at_delete m n l x : m !! n = Some x → count_at m l = ((if decide (fst x = l) then 1 else 0) + count_at (delete n m) l)%nat.
Proof. intros Hn. rewrite <- (insert_delete_id m n x Hn) at 1. apply count_at_insert, lookup_delete_eq. Qed.
Lemma count_at_0 m l : count_at m l = 0%nat ↔ ∀ n f, m !! n ≠ Some (l, f).
Proof.
  unfold count_at. rewrite map_size_empty_iff. split.
  - intros E n f Hn. assert (filter (λ p, fst (snd p) = l) m !! n = Some (l, f)) as H by by apply map_lookup_filter_Some.
    by rewrite E in H.
  - intros H. apply map_empty. intros n. apply map_lookup_filter_None. right. intros [l' f] Hn E. cbn in E. subst l'. by apply (H n f).
Qed.

(** ** The state of the builder *)

Record tracks (r : Rep) (m : Lsm) : Prop := {
  tr_length : length (levels_ r) = length (files_ (base_vstorage_ r));
  tr_base : storage_ok (base_vstorage_ r);
  tr_current : ∀ n, GetCurrentLevelForTableFile r n = lsm_level m n;
  tr_wf : ∀ n l f, m !! n = Some (l, f) → 0 <= l ∧ file_number f = n;
  tr_added : ∀ l st n f, level_state r l = Some st → added_files st !! n = Some f → m !! n = Some (l, f);
  tr_deleted : ∀ l st n f, level_state r l = Some st → n ∈ deleted_files st → m !! n ≠ Some (l, f);
  tr_live : ∀ l st n f, level_state r l = Some st → m !! n = Some (l, f) →
    added_files st !! n = Some f ∨ added_files st !! n = None ∧ lsm_of (base_vstorage_ r) !! n = Some (l, f);
  tr_gone : ∀ l st n f, level_state r l = Some st → lsm_of (base_vstorage_ r) !! n = Some (l, f) → n ∉ deleted_files st →
    ∃ f', m !! n = Some (l, f');
  tr_sizes : ∀ l, num_levels_ r <= l → default 0 (invalid_level_sizes_ r !! l) = u64 (Z.of_nat (count_at m l));
  tr_invalid : ∀ l k, invalid_level_sizes_ r !! l = Some k → num_levels_ r <= l;
  tr_valid : has_invalid_levels_ r = false
}.

Lemma level_state_some r l : 0 <= l < num_levels_ r → ∃ st, level_state r l = Some st.
Proof.
  intros Hl. unfold level_state, num_levels_ in *. destruct (Z.ltb_spec l 0); [lia|]. apply lookup_lt_is_Some_2. lia.
Qed.
Lemma level_state_range r l st : level_state r l = Some st → 0 <= l < num_levels_ r.
Proof.
  unfold level_state, num_levels_. destruct (Z.ltb_spec l 0); [done|]. intros E. apply lookup_lt_Some in E. lia.
Qed.
Lemma level_state_put r l st l' st' : level_state (put_level_state r l st) l' = Some st' → 0 <= l →
  (l' = l ∧ st' = st) ∨ (l' ≠ l ∧ level_state r l' = Some st').
Proof.
  unfold level_state, put_level_state. cbn. intros H Hl. destruct (Z.ltb_spec l' 0); [done|].
  destruct (Z.eq_dec l' l) as [->|Hne]; [left|right; rewrite list_lookup_insert_ne in H by lia; done].
  rewrite list_lookup_insert in H. case_decide as Hd; [by injection H as <-|]. apply lookup_lt_Some in H. tauto.
Qed.

(** ** Blob files do not matter here *)

Record same_files (r r' : Rep) : Prop := {
  sf_base : base_vstorage_ r' = base_vstorage_ r;
  sf_levels : levels_ r' = levels_ r;
  sf_sizes : invalid_level_sizes_ r' = invalid_level_sizes_ r;
  sf_invalid : has_invalid_levels_ r' = has_invalid_levels_ r;
  sf_table : table_file_levels_ r' = table_file_levels_ r
}.
Lemma same_files_refl r : same_files r r.
Proof. done. Qed.
Lemma same_files_tracks r r' m : same_files r r' → tracks r m → tracks r' m.
Proof.
  intros [E1 E2 E3 E4 E5] H. destruct r, r'; cbn in *; subst. destruct H; split; done.
Qed.
Lemma same_files_with_blob_file r n f : same_files r (with_blob_file r n f).
Proof.
  unfold with_blob_file, GetOrCreateMutableBlobFileMetaData. repeat case_match; simplify_eq; done.
Qed.

(** ** Deletions and additions *)

Lemma lsm_level_None m n : lsm_level m n = kInvalidLevel → (∀ l f, m !! n = Some (l, f) → 0 <= l) → m !! n = None.
Proof.
  unfold lsm_level. destruct (m !! n) as [[l f]|]; [|done]. intros -> H. specialize (H _ _ eq_refl). unfold kInvalidLevel in H. lia.
Qed.
Lemma current_set_level r n l n' : GetCurrentLevelForTableFile (set_file_level r n l) n' = if decide (n' = n) then l else GetCurrentLevelForTableFile r n'.
Proof.
  unfold GetCurrentLevelForTableFile. cbn. case_decide as E; [subst; by rewrite lookup_insert_eq|by rewrite lookup_insert_ne].
Qed.
Lemma lsm_level_delete m n n' : lsm_level (delete n m) n' = if decide (n' = n) then kInvalidLevel else lsm_level m n'.
Proof. unfold lsm_level. case_decide as E; [subst; by rewrite lookup_delete_eq|by rewrite lookup_delete_ne]. Qed.
Lemma lsm_level_insert m n x n' : lsm_level (<[n := x]> m) n' = if decide (n' = n) then fst x else lsm_level m n'.
Proof. unfold lsm_level. case_decide as E; [subst; rewrite lookup_insert_eq; by destruct x|by rewrite lookup_insert_ne]. Qed.

(** A file on a level that the version does not have *)
Lemma tracks_delete_invalid r m n l f : tracks r m → m !! n = Some (l, f) → num_levels_ r <= l →
  tracks (set_file_level (set_invalid_sizes r (<[l := u64 (default 0 (invalid_level_sizes_ r !! l) - 1)]> (invalid_level_sizes_ r))) n kInvalidLevel)
    (delete n m).
Proof.
  intros H Hn Hl. pose proof H as [H1 H2 H3 H4 H5 H6 H7 H8 H9 H10 H11]. split; try done.
  - intros k. rewrite current_set_level, lsm_level_delete. case_decide; [done|]. apply H3.
  - intros k l' f' Hk. apply lookup_delete_Some in Hk as [_ Hk]. by apply H4.
  - intros l' st k f' Hst Hk. apply lookup_delete_Some. pose proof (H5 _ _ _ _ Hst Hk). split; [|done]. intros <-.
    apply level_state_range in Hst. change (num_levels_ _) with (num_levels_ r) in Hst. rewrite Hn in H0. injection H0 as -> _. lia.
  - intros l' st k f' Hst Hk [_ Hk']%lookup_delete_Some. by apply (H6 l' st k f').
  - intros l' st k f' Hst [_ Hk']%lookup_delete_Some. by apply (H7 l' st k f').
  - intros l' st k f' Hst Hb Hd. destruct (H8 l' st k f' Hst Hb Hd) as [f'' Hk]. exists f''. apply lookup_delete_Some. split; [|done].
    intros <-. apply level_state_range in Hst. change (num_levels_ _) with (num_levels_ r) in Hst. rewrite Hn in Hk. injection Hk as -> _. lia.
  - intros l' Hl'. cbn. destruct (Z.eq_dec l' l) as [->|Hne].
    + rewrite lookup_insert_eq. cbn. rewrite H9 by done. rewrite (count_at_delete m n l _ Hn). cbn [fst]. rewrite decide_True by done.
      unfold wrap. rewrite Zminus_mod_idemp_l. f_equal. lia.
    + rewrite lookup_insert_ne, H9 by done. rewrite (count_at_delete m n l' _ Hn). cbn [fst]. by rewrite decide_False.
  - intros l' k. cbn. intros [[<- _]|[_ Hk]]%lookup_insert_Some; [done|]. by apply (H10 l' k).
Qed.

(** The table file [n] leaves or enters a level. *)
Definition delete_from (r : Rep) (l n : Z) (st : LevelState) : Rep :=
  set_file_level (put_level_state r l (mkLevelState ({[n]} ∪ deleted_files st) (delete n (added_files st)))) n kInvalidLevel.
Definition add_to (r : Rep) (l : Z) (f : FileMetaData) (st : LevelState) : Rep :=
  set_file_level (put_level_state r l (mkLevelState (deleted_files st ∖ {[file_number f]}) (<[file_number f := f]> (added_files st))))
    (file_number f) l.

Lemma level_state_change r l n l' st l'' st'' :
  level_state (set_file_level (put_level_state r l st) n l') l'' = Some st'' → 0 <= l →
  (l'' = l ∧ st'' = st) ∨ (l'' ≠ l ∧ level_state r l'' = Some st'').
Proof. apply level_state_put. Qed.
Lemma num_levels_change r l n l' st : num_levels_ (set_file_level (put_level_state r l st) n l') = num_levels_ r.
Proof. unfold num_levels_. cbn. by rewrite length_insert. Qed.

Lemma tracks_delete r m l n f st : tracks r m → m !! n = Some (l, f) → level_state r l = Some st →
  tracks (delete_from r l n st) (delete n m).
Proof.
  intros H Hn Hst. pose proof H as [H1 H2 H3 H4 H5 H6 H7 H8 H9 H10 H11]. pose proof (level_state_range _ _ _ Hst) as Hl.
  split; try done.
  - cbn. by rewrite length_insert.
  - intros k. unfold delete_from. rewrite current_set_level, lsm_level_delete. case_decide; [done|]. apply H3.
  - intros k l' f' Hk. apply lookup_delete_Some in Hk as [_ Hk]. by apply H4.
  - intros l' st' k f' [[-> ->]|[Hne Hst']]%level_state_change Hk; [| |lia].
    + cbn in Hk. apply lookup_delete_Some in Hk as [Hne Hk]. apply lookup_delete_Some. split; [done|]. by apply (H5 l st).
    + apply lookup_delete_Some. pose proof (H5 _ _ _ _ Hst' Hk). split; [intros <-; congruence|done].
  - intros l' st' k f' [[-> ->]|[Hne Hst']]%level_state_change Hk [Hnk Hk']%lookup_delete_Some; [| |lia].
    + cbn in Hk. apply elem_of_union in Hk as [Hk%elem_of_singleton|Hk]; [congruence|]. by apply (H6 l st k f').
    + by apply (H6 l' st' k f').
  - intros l' st' k f' [[-> ->]|[Hne Hst']]%level_state_change [Hnk Hk']%lookup_delete_Some; [| |lia].
    + cbn. rewrite lookup_delete_ne by done. by apply (H7 l st).
    + by apply (H7 l' st').
  - intros l' st' k f' [[-> ->]|[Hne Hst']]%level_state_change Hb Hd; [| |lia].
    + cbn in Hd. apply not_elem_of_union in Hd as [Hnk Hd]. apply not_elem_of_singleton in Hnk. destruct (H8 l st k f' Hst Hb Hd) as [f'' Hk].
      exists f''. apply lookup_delete_Some. done.
    + destruct (H8 l' st' k f' Hst' Hb Hd) as [f'' Hk]. exists f''. apply lookup_delete_Some. split; [intros <-; congruence|done].
  - unfold delete_from. rewrite num_levels_change. intros l' Hl'. cbn. rewrite H9 by done. rewrite (count_at_delete m n l' _ Hn). cbn [fst].
    by rewrite decide_False by lia.
  - unfold delete_from. rewrite num_levels_change. exact H10.
Qed.

Lemma tracks_add r m l f st : tracks r m → m !! file_number f = None → level_state r l = Some st →
  tracks (add_to r l f st) (<[file_number f := (l, f)]> m).
Proof.
  intros H Hn Hst. pose proof H as [H1 H2 H3 H4 H5 H6 H7 H8 H9 H10 H11]. pose proof (level_state_range _ _ _ Hst) as Hl.
  split; try done.
  - cbn. by rewrite length_insert.
  - intros k. unfold add_to. rewrite current_set_level, lsm_level_insert. case_decide; [done|]. apply H3.
  - intros k l' f' [[<- [= <- <-]]|[_ Hk]]%lookup_insert_Some; [split; [lia|done]|]. by apply H4.
  - intros l' st' k f' [[-> ->]|[Hne Hst']]%level_state_change Hk; [| |lia].
    + cbn in Hk. apply lookup_insert_Some in Hk as [[<- ->]|[Hne Hk]]; [by rewrite lookup_insert_eq|]. rewrite lookup_insert_ne by done. by apply (H5 l st).
    + pose proof (H5 _ _ _ _ Hst' Hk). rewrite lookup_insert_ne; [done|congruence].
  - intros l' st' k f' Hs Hk Hx. apply level_state_change in Hs as [[-> ->]|[Hne Hst']]; [..|lia];
      apply lookup_insert_Some in Hx as [[<- Hx]|[Hnk Hx]]; simplify_eq.
    + cbn in Hk. set_solver.
    + cbn in Hk. apply elem_of_difference in Hk as [Hk _]. by apply (H6 l st k f').
    + by apply (H6 l' st' k f').
  - intros l' st' k f' Hs Hx. apply level_state_change in Hs as [[-> ->]|[Hne Hst']]; [..|lia];
      apply lookup_insert_Some in Hx as [[<- Hx]|[Hnk Hx]]; simplify_eq.
    + left. cbn. by rewrite lookup_insert_eq.
    + cbn. rewrite lookup_insert_ne by done. by apply (H7 l st).
    + by apply (H7 l' st').
  - intros l' st' k f' [[-> ->]|[Hne Hst']]%level_state_change Hb Hd; [| |lia].
    + destruct (Z.eq_dec k (file_number f)) as [->|Hk]; [exists f; by rewrite lookup_insert_eq|]. rewrite lookup_insert_ne by done.
      apply (H8 l st k f' Hst Hb). cbn in Hd. set_solver.
    + destruct (H8 l' st' k f' Hst' Hb Hd) as [f'' Hk]. exists f''. rewrite lookup_insert_ne; [done|congruence].
  - unfold add_to. rewrite num_levels_change. intros l' Hl'. cbn. rewrite H9 by done. rewrite count_at_insert by done. cbn [fst].
    by rewrite decide_False by lia.
  - unfold add_to. rewrite num_levels_change. exact H10.
Qed.

Lemma tracks_add_invalid r m l f : tracks r m → m !! file_number f = None → num_levels_ r <= l →
  tracks (set_file_level (set_invalid_sizes r (<[l := u64 (default 0 (invalid_level_sizes_ r !! l) + 1)]> (invalid_level_sizes_ r))) (file_number f) l)
    (<[file_number f := (l, f)]> m).
Proof.
  intros H Hn Hl. pose proof H as [H1 H2 H3 H4 H5 H6 H7 H8 H9 H10 H11].
  assert (∀ l' st, level_state r l' = Some st → l' < num_levels_ r) as Hr by (intros l' st Hst; apply level_state_range in Hst; lia).
  split; try done.
  - intros k. rewrite current_set_level, lsm_level_insert. case_decide; [done|]. apply H3.
  - intros k l' f' [[<- [= <- <-]]|[_ Hk]]%lookup_insert_Some; [|by apply H4]. split; [|done]. unfold num_levels_ in Hl. lia.
  - intros l' st k f' Hst Hk. rewrite lookup_insert_ne; [by apply (H5 l' st)|]. intros <-. pose proof (H5 _ _ _ _ Hst Hk). congruence.
  - intros l' st k f' Hst Hk Hx. apply lookup_insert_Some in Hx as [[<- [= -> _]]|[_ Hx]]; [|by apply (H6 l' st k f')].
    specialize (Hr l' st Hst). lia.
  - intros l' st k f' Hst Hx. apply lookup_insert_Some in Hx as [[<- [= -> _]]|[_ Hx]]; [|by apply (H7 l' st k f')].
    specialize (Hr l' st Hst). lia.
  - intros l' st k f' Hst Hb Hd. destruct (H8 l' st k f' Hst Hb Hd) as [f'' Hk]. exists f''. rewrite lookup_insert_ne; [done|congruence].
  - intros l' Hl'. cbn. rewrite count_at_insert by done. cbn [fst]. destruct (Z.eq_dec l' l) as [->|Hne].
    + rewrite lookup_insert_eq. cbn. rewrite H9, decide_True by done. unfold wrap. rewrite Zplus_mod_idemp_l. f_equal. lia.
    + by rewrite lookup_insert_ne, H9, decide_False by done.
  - intros l' k. cbn. intros [[<- _]|[_ Hk]]%lookup_insert_Some; [done|]. by apply (H10 l' k).
Qed.

Lemma GetOldestBlobFileNumber_tracks r m l n f st : tracks r m → m !! n = Some (l, f) → level_state r l = Some st →
  GetOldestBlobFileNumberForTableFile r l n = Some (oldest_blob_file_number f).
Proof.
  intros H Hn Hst. unfold GetOldestBlobFileNumberForTableFile. rewrite Hst. cbn.
  destruct (tr_live r m H l st n f Hst Hn) as [->|[-> Hb]]; [done|]. rewrite GetFileMetaDataByNumber_lsm by apply H. by rewrite Hb.
Qed.

(** What a deletion and an addition do. *)
Definition deletion (r : Rep) (l n : Z) (f : FileMetaData) : Rep :=
  match level_state r l with
  | Some st => delete_from (with_blob_file r (oldest_blob_file_number f) (λ m, MutableBlobFileMetaData.UnlinkSst m n)) l n st
  | None => set_file_level (set_invalid_sizes r (<[l := u64 (default 0 (invalid_level_sizes_ r !! l) - 1)]> (invalid_level_sizes_ r))) n kInvalidLevel
  end.
Definition addition (r : Rep) (l : Z) (f : FileMetaData) : Rep :=
  match level_state r l with
  | Some st => add_to (with_blob_file r (oldest_blob_file_number f) (λ m, MutableBlobFileMetaData.LinkSst m (file_number f))) l f st
  | None => set_file_level (set_invalid_sizes r (<[l := u64 (default 0 (invalid_level_sizes_ r !! l) + 1)]> (invalid_level_sizes_ r))) (file_number f) l
  end.

Lemma level_state_same r r' l : same_files r r' → level_state r' l = level_state r l.
Proof. intros [_ E _ _ _]. unfold level_state. by rewrite E. Qed.
Lemma level_state_cases r l : 0 <= l → (num_levels_ r <= l ∧ level_state r l = None) ∨ (l < num_levels_ r ∧ ∃ st, level_state r l = Some st).
Proof.
  intros Hl. destruct (Z.lt_ge_cases l (num_levels_ r)) as [Hlt|Hge].
  - right. split; [done|]. by apply level_state_some.
  - left. split; [done|]. destruct (level_state r l) eqn:E; [|done]. apply level_state_range in E. lia.
Qed.

Lemma tracks_deletion r m l n f : tracks r m → m !! n = Some (l, f) → tracks (deletion r l n f) (delete n m).
Proof.
  intros H Hn. destruct (tr_wf r m H n l f Hn) as [Hl _]. unfold deletion. destruct (level_state_cases r l Hl) as [[Hge ->]|[_ [st Hst]]].
  - by apply (tracks_delete_invalid r m n l f).
  - rewrite Hst. apply (tracks_delete _ m l n f).
    + apply (same_files_tracks r); [apply same_files_with_blob_file|done].
    + done.
    + by rewrite (level_state_same r) by apply same_files_with_blob_file.
Qed.
Lemma tracks_addition r m l f : tracks r m → 0 <= l → m !! file_number f = None → tracks (addition r l f) (<[file_number f := (l, f)]> m).
Proof.
  intros H Hl Hn. unfold addition. destruct (level_state_cases r l Hl) as [[Hge ->]|[_ [st Hst]]].
  - by apply tracks_add_invalid.
  - rewrite Hst. apply tracks_add.
    + apply (same_files_tracks r); [apply same_files_with_blob_file|done].
    + done.
    + by rewrite (level_state_same r) by apply same_files_with_blob_file.
Qed.

Lemma ApplyFileDeletion_spec r m l n : tracks r m → 0 <= l →
  match lsm_delete m (l, n) with
  | None => ∃ s r', ApplyFileDeletion r l n = Some (s, r') ∧ IsCorruption s = true
  | Some m' => ∃ f, m !! n = Some (l, f) ∧ m' = delete n m ∧ ApplyFileDeletion r l n = Some (Status_OK, deletion r l n f)
  end.
Proof.
  intros H Hl. unfold lsm_delete, ApplyFileDeletion. cbn [fst snd]. rewrite (tr_current r m H), Z.eqb_sym.
  destruct (Z.eqb_spec l (lsm_level m n)) as [E|E]; cbn [negb]; [|by eexists _, _].
  unfold lsm_level in E. destruct (m !! n) as [[l' f]|] eqn:Hn; [|unfold kInvalidLevel in E; lia]. subst l'. exists f. split_and!; [done..|].
  unfold deletion. destruct (level_state_cases r l Hl) as [[Hge ->]|[Hlt [st Hst]]].
  - by rewrite (proj2 (Z.leb_le _ _)).
  - rewrite (proj2 (Z.leb_gt _ _)) by done. rewrite (GetOldestBlobFileNumber_tracks r m l n f st) by done. cbn [mbind option_bind].
    rewrite (level_state_same r) by apply same_files_with_blob_file. by rewrite Hst.
Qed.
Lemma ApplyFileAddition_spec r m l f : tracks r m → 0 <= l →
  match lsm_add m (l, f) with
  | None => ∃ s r', ApplyFileAddition r l f = Some (s, r') ∧ IsCorruption s = true
  | Some m' => m !! file_number f = None ∧ m' = <[file_number f := (l, f)]> m ∧ ApplyFileAddition r l f = Some (Status_OK, addition r l f)
  end.
Proof.
  intros H Hl. unfold lsm_add, ApplyFileAddition. cbn [fst snd]. rewrite (tr_current r m H). unfold lsm_level.
  destruct (m !! file_number f) as [[l' f']|] eqn:Hn.
  { destruct (tr_wf r m H _ _ _ Hn) as [Hl' _]. rewrite (proj2 (Z.eqb_neq _ _)) by (unfold kInvalidLevel; lia). by eexists _, _. }
  rewrite Z.eqb_refl. cbn [negb]. split_and!; [done..|]. unfold addition. destruct (level_state_cases r l Hl) as [[Hge ->]|[Hlt [st Hst]]].
  - by rewrite (proj2 (Z.leb_le _ _)).
  - rewrite (proj2 (Z.leb_gt _ _)) by done. rewrite Hst. cbn [mbind option_bind]. rewrite emplace_spec.
    2: { destruct (added_files st !! file_number f) eqn:E; [|done]. pose proof (tr_added r m H _ _ _ _ Hst E). congruence. }
    f_equal. f_equal. unfold add_to, put_level_state, with_blob_file, GetOrCreateMutableBlobFileMetaData. cbn.
    destruct (_ =? _); [done|]. destruct (mutable_blob_file_metas_ r !! _); [done|]. by destruct (GetBlobFileMetaData _ _).
Qed.
