(* ===== verification/VersionBuilderBlobs.v ===== *)
(** * The blob files of a version builder

    The blob files of the builder are a map from their numbers to their totals and
    garbage; the links to table files follow from the table files. *)

From S2P Require Import Prelude SortedLists Status Comparator DbFormat WalEdit VersionEdit VersionStorage VersionStorageCorrect.
From S2P Require Import VersionBuilder VersionBuilderCorrect.
From stdpp Require Import gmap pretty sorting.
From Stdlib Require Import Sorting.Sorted.
#[local] Open Scope Z_scope.

#[local] Abbreviation Meta := BlobFileMetaData.t.
#[local] Abbreviation meta_number := BlobFileMetaData.GetBlobFileNumber.

(** ** The blob files of a version *)

Definition blobs_of (v : VersionStorageInfo) : gmap Z Meta := list_to_map (map (λ x, (meta_number x, x)) (blob_files_ v)).
Definition blobs_sorted (v : VersionStorageInfo) : Prop := StronglySorted (λ x y, meta_number x < meta_number y) (blob_files_ v).

Lemma sorted_numbers (l : list Meta) : StronglySorted (λ x y, meta_number x < meta_number y) l → NoDup (map meta_number l).
Proof.
  induction 1 as [|x l Hl IH Hx]; cbn; [constructor|]. apply NoDup_cons. split; [|done].
  intros (y & E & Hy)%list_elem_of_fmap. rewrite Forall_forall in Hx. specialize (Hx y Hy). lia.
Qed.
Lemma blobs_of_lookup v n x : blobs_sorted v → blobs_of v !! n = Some x ↔ x ∈ blob_files_ v ∧ meta_number x = n.
Proof.
  intros Hs. unfold blobs_of. rewrite <- elem_of_list_to_map by (rewrite map_map; by apply sorted_numbers).
  rewrite list_elem_of_fmap. split; [intros (y & [= -> ->] & Hy); done|]. intros [Hx <-]. by exists x.
Qed.

(** The lower bound in a sorted list *)
Lemma drop_count_sorted (l : list Meta) n : StronglySorted (λ x y, meta_number x < meta_number y) l →
  drop (count_while (λ m, meta_number m <? n) l) l = List.filter (λ m, n <=? meta_number m) l.
Proof.
  induction 1 as [|x l Hl IH Hx]; [done|]. cbn. rewrite Z.leb_antisym. destruct (Z.ltb_spec (meta_number x) n) as [E|E]; cbn; [done|].
  f_equal. clear -Hx E. induction Hx as [|y l Hy Hl IH]; [done|]. cbn. rewrite (proj2 (Z.leb_le _ _)) by lia. by f_equal.
Qed.
Lemma GetBlobFileMetaDataLB_sorted v n : blobs_sorted v → GetBlobFileMetaDataLB v n = List.filter (λ m, n <=? meta_number m) (blob_files_ v).
Proof. apply drop_count_sorted. Qed.
Lemma GetBlobFileMetaData_lookup v n : blobs_sorted v → GetBlobFileMetaData v n = blobs_of v !! n.
Proof.
  intros Hs. unfold GetBlobFileMetaData. rewrite GetBlobFileMetaDataLB_sorted by done.
  pose proof (StronglySorted_list_filter _ (λ m, n <=? meta_number m) _ Hs) as Hf.
  pose proof (elem_of_list_filter_bool (λ m, n <=? meta_number m) (blob_files_ v)) as Hin.
  destruct (List.filter _ _) as [|x l].
  - destruct (blobs_of v !! n) as [y|] eqn:E; [|done]. apply blobs_of_lookup in E as [Hy <-]; [|done].
    assert (y ∈ []) as ?%elem_of_nil by (apply Hin; split; [done|lia]). done.
  - destruct (proj1 (Hin x)) as [Hx Hn]; [left|]. destruct (Z.eqb_spec (meta_number x) n) as [E|E].
    + symmetry. by apply blobs_of_lookup.
    + destruct (blobs_of v !! n) as [y|] eqn:Ey; [|done]. apply blobs_of_lookup in Ey as [Hy <-]; [|done].
      assert (y ∈ x :: l) as [-> |Hyl]%elem_of_cons by (apply Hin; split; [done|lia]); [done|].
      apply StronglySorted_inv in Hf as [_ Hf]. rewrite Forall_forall in Hf. specialize (Hf y Hyl). lia.
Qed.

(** ** Edits on the map *)

(** The record that added the file, and the number and the size of its garbage. *)
#[local] Abbreviation Blobs := (gmap Z (BlobFileAddition * (Z * Z))).

Definition blob_add (b : Blobs) (a : BlobFileAddition) : option Blobs :=
  match b !! blob_file_number_ a with Some _ => None | None => Some (<[blob_file_number_ a := (a, (0, 0))]> b) end.
Definition blob_garbage (b : Blobs) (g : BlobFileGarbage) : option Blobs :=
  '(a, (count, size)) ← b !! garbage_file_number_ g;
  if (total_blob_count_ a <? count + garbage_blob_count_ g) || (total_blob_bytes_ a <? size + garbage_blob_bytes_ g) then None
  else Some (<[garbage_file_number_ g := (a, (count + garbage_blob_count_ g, size + garbage_blob_bytes_ g))]> b).

(** The table files on the first [k] levels that refer to a blob file *)
Definition linked_in (k : Z) (m : Lsm) (blob : Z) : gset Z :=
  dom (filter (λ p, fst (snd p) < k ∧ oldest_blob_file_number (snd (snd p)) = blob) m).
Definition meta_in (k : Z) (m : Lsm) (blob : Z) (x : BlobFileAddition * (Z * Z)) : Meta :=
  BlobFileMetaData.mk (fst x) (linked_in k m blob) (fst (snd x)) (snd (snd x)).

Lemma elem_of_linked_in k m blob n : n ∈ linked_in k m blob ↔ ∃ l f, m !! n = Some (l, f) ∧ l < k ∧ oldest_blob_file_number f = blob.
Proof.
  unfold linked_in. rewrite elem_of_dom. unfold is_Some. split.
  - intros [[l f] H]. apply map_lookup_filter_Some in H as [Hn [Hl Ho]]. by exists l, f.
  - intros (l & f & Hn & Hl & Ho). exists (l, f). by apply map_lookup_filter_Some.
Qed.
Lemma linked_in_insert k m blob n l f : m !! n = None →
  linked_in k (<[n := (l, f)]> m) blob = (if decide (l < k ∧ oldest_blob_file_number f = blob) then {[n]} else ∅) ∪ linked_in k m blob.
Proof.
  intros Hn. apply set_eq. intros n'. rewrite elem_of_union, !elem_of_linked_in. split.
  - intros (l' & f' & [[<- [= <- <-]]|[Hne Hn']]%lookup_insert_Some & Hl & Ho); [left; rewrite decide_True by done; set_solver|eauto 10].
  - intros [H|(l' & f' & Hn' & Hl & Ho)].
    + case_decide as Hd; [|set_solver]. apply elem_of_singleton in H as ->. exists l, f. by rewrite lookup_insert_eq.
    + exists l', f'. rewrite lookup_insert_ne by congruence. done.
Qed.
Lemma linked_in_delete k m blob n l f : m !! n = Some (l, f) →
  linked_in k (delete n m) blob = (if decide (l < k ∧ oldest_blob_file_number f = blob) then linked_in k m blob ∖ {[n]} else linked_in k m blob).
Proof.
  intros Hn. apply set_eq. intros n'. rewrite elem_of_linked_in. split.
  - intros (l' & f' & [Hne Hn']%lookup_delete_Some & Hl & Ho). assert (n' ∈ linked_in k m blob) by (apply elem_of_linked_in; eauto).
    case_decide; set_solver.
  - case_decide as Hd.
    + intros [(l' & f' & Hn' & Hl & Ho)%elem_of_linked_in Hne%not_elem_of_singleton]%elem_of_difference. exists l', f'.
      by rewrite lookup_delete_ne by done.
    + intros (l' & f' & Hn' & Hl & Ho)%elem_of_linked_in. exists l', f'. rewrite lookup_delete_ne; [done|]. intros <-.
      rewrite Hn in Hn'. injection Hn' as <- <-. by apply Hd.
Qed.

(** ** The state of the builder *)

#[local] Abbreviation Mutable := MutableBlobFileMetaData.t.

Definition blob_meta (r : Rep) (n : Z) : option Meta :=
  match mutable_blob_file_metas_ r !! n with
  | Some mm => Some (MutableBlobFileMetaData.Create mm)
  | None => GetBlobFileMetaData (base_vstorage_ r) n
  end.

(** The delta is the difference from the file of the base version. *)
Record delta_rel (x : Meta) (mm : Mutable) : Prop := {
  dr_shared : MutableBlobFileMetaData.shared_meta_ mm = BlobFileMetaData.shared_meta_ x;
  dr_linked : MutableBlobFileMetaData.newly_linked_ssts_ (MutableBlobFileMetaData.delta_ mm) =
    MutableBlobFileMetaData.linked_ssts_ mm ∖ BlobFileMetaData.linked_ssts_ x;
  dr_unlinked : MutableBlobFileMetaData.newly_unlinked_ssts_ (MutableBlobFileMetaData.delta_ mm) =
    BlobFileMetaData.linked_ssts_ x ∖ MutableBlobFileMetaData.linked_ssts_ mm;
  dr_count : MutableBlobFileMetaData.garbage_blob_count_ mm =
    u64 (BlobFileMetaData.garbage_blob_count_ x + MutableBlobFileMetaData.additional_garbage_count_ (MutableBlobFileMetaData.delta_ mm));
  dr_bytes : MutableBlobFileMetaData.garbage_blob_bytes_ mm =
    u64 (BlobFileMetaData.garbage_blob_bytes_ x + MutableBlobFileMetaData.additional_garbage_bytes_ (MutableBlobFileMetaData.delta_ mm));
  dr_range : is_u 64 (BlobFileMetaData.garbage_blob_count_ x) ∧ is_u 64 (BlobFileMetaData.garbage_blob_bytes_ x)
}.

Lemma delta_rel_none x mm : delta_rel x mm → MutableBlobFileMetaData.HasDelta mm = false → MutableBlobFileMetaData.Create mm = x.
Proof.
  intros [E1 E2 E3 E4 E5 [R1 R2]] Hd. unfold MutableBlobFileMetaData.HasDelta, MutableBlobFileMetaData.Delta_IsEmpty in Hd.
  apply negb_false_iff in Hd. apply andb_true_iff in Hd as [Hd Hu%bool_decide_eq_true_1]. apply andb_true_iff in Hd as [Hd Hl%bool_decide_eq_true_1].
  apply andb_true_iff in Hd as [Hc%Z.eqb_eq Hb%Z.eqb_eq]. rewrite Hl in E2. rewrite Hu in E3. rewrite Hc, Z.add_0_r, wrap_small in E4 by done.
  rewrite Hb, Z.add_0_r, wrap_small in E5 by done. destruct x, mm; cbn in *. unfold MutableBlobFileMetaData.Create. cbn. subst. f_equal. symmetry in E2, E3. apply (anti_symm (⊆)); apply empty_difference_subseteq_L; done.
Qed.
Lemma delta_rel_link x mm n : delta_rel x mm → n ∉ MutableBlobFileMetaData.linked_ssts_ mm → delta_rel x (MutableBlobFileMetaData.LinkSst mm n).
Proof.
  intros [E1 E2 E3 E4 E5 R] Hn. unfold MutableBlobFileMetaData.LinkSst, MutableBlobFileMetaData.Delta_LinkSst.
  case_bool_decide as H; split; try done; cbn; set_solver.
Qed.
Lemma delta_rel_unlink x mm n : delta_rel x mm → n ∈ MutableBlobFileMetaData.linked_ssts_ mm → delta_rel x (MutableBlobFileMetaData.UnlinkSst mm n).
Proof.
  intros [E1 E2 E3 E4 E5 R] Hn. unfold MutableBlobFileMetaData.UnlinkSst, MutableBlobFileMetaData.Delta_UnlinkSst.
  case_bool_decide as H; split; try done; cbn; rewrite ?E2, ?E3 in *; apply set_eq; intros z; destruct (decide (n ∈ BlobFileMetaData.linked_ssts_ x)), (decide (z = n)) as [->|]; rewrite ?elem_of_union, ?elem_of_difference, ?elem_of_singleton in *; tauto.
Qed.
Lemma delta_rel_garbage x mm count size mm' : delta_rel x mm → MutableBlobFileMetaData.AddGarbage mm count size = Some mm' → delta_rel x mm'.
Proof.
  intros [E1 E2 E3 E4 E5 R] H. unfold MutableBlobFileMetaData.AddGarbage in H. case_match; [done|]. injection H as <-. split; try done; cbn.
  - rewrite E4. unfold wrap. rewrite Zplus_mod_idemp_l, Zplus_mod_idemp_r. f_equal. lia.
  - rewrite E5. unfold wrap. rewrite Zplus_mod_idemp_l, Zplus_mod_idemp_r. f_equal. lia.
Qed.

Definition blob_wf (n : Z) (x : BlobFileAddition * (Z * Z)) : Prop :=
  0 < n ∧ blob_file_number_ (fst x) = n ∧ 0 <= fst (snd x) <= total_blob_count_ (fst x) ∧ total_blob_count_ (fst x) < 2 ^ 63 ∧
  0 <= snd (snd x) <= total_blob_bytes_ (fst x) ∧ total_blob_bytes_ (fst x) < 2 ^ 63.

Record tracks_blobs (r : Rep) (m : Lsm) (b : Blobs) : Prop := {
  tb_sorted : blobs_sorted (base_vstorage_ r);
  tb_meta : ∀ n, blob_meta r n = meta_in (num_levels_ r) m n <$> b !! n;
  tb_wf : ∀ n x, b !! n = Some x → blob_wf n x;
  tb_delta : ∀ n x mm, GetBlobFileMetaData (base_vstorage_ r) n = Some x → mutable_blob_file_metas_ r !! n = Some mm → delta_rel x mm
}.

Lemma tracks_blobs_same r r' m b : base_vstorage_ r' = base_vstorage_ r → num_levels_ r' = num_levels_ r →
  mutable_blob_file_metas_ r' = mutable_blob_file_metas_ r → tracks_blobs r m b → tracks_blobs r' m b.
Proof.
  intros E1 E2 E3 [H1 H2 H3 H4]. split; unfold blob_meta in *; rewrite ?E1, ?E2, ?E3; done.
Qed.

(** A new state of a blob file, after table files have changed. *)
Lemma tracks_blobs_put r m m' b n mm x : tracks_blobs r m b → MutableBlobFileMetaData.Create mm = meta_in (num_levels_ r) m' n x → blob_wf n x →
  (∀ n', n' ≠ n → is_Some (b !! n') → linked_in (num_levels_ r) m' n' = linked_in (num_levels_ r) m n') →
  (∀ x0, GetBlobFileMetaData (base_vstorage_ r) n = Some x0 → delta_rel x0 mm) →
  tracks_blobs (put_blob_meta r n mm) m' (<[n := x]> b).
Proof.
  intros [H1 H2 H3 H4] Hmm Hx Hl Hd. split; [done|..].
  - intros n'. unfold blob_meta. cbn. change (num_levels_ (put_blob_meta r n mm)) with (num_levels_ r). destruct (Z.eq_dec n' n) as [->|Hne].
    + rewrite !lookup_insert_eq. cbn. by rewrite Hmm.
    + rewrite !lookup_insert_ne by done. fold (blob_meta r n'). rewrite H2. destruct (b !! n') as [y|] eqn:E; [|done]. cbn. f_equal.
      unfold meta_in. f_equal. symmetry. apply Hl; [done|by exists y].
  - intros n' y [[<- <-]|[_ Hy]]%lookup_insert_Some; [done|by apply H3].
  - intros n' x0 mm' Hx0 Hmm'. apply (lookup_insert_Some (mutable_blob_file_metas_ r)) in Hmm' as [[<- <-]|[_ Hy]]; [by apply Hd|by apply (H4 n' x0)].
Qed.

(** The object of a blob file that is in the version *)
Lemma GetOrCreate_tracks r m b n : tracks_blobs r m b →
  match b !! n with
  | None => GetOrCreateMutableBlobFileMetaData r n = None
  | Some x => ∃ mm r', GetOrCreateMutableBlobFileMetaData r n = Some (mm, r') ∧ MutableBlobFileMetaData.Create mm = meta_in (num_levels_ r) m n x ∧
      (∀ mm', put_blob_meta r' n mm' = put_blob_meta r n mm') ∧
      (∀ x0, GetBlobFileMetaData (base_vstorage_ r) n = Some x0 → delta_rel x0 mm)
  end.
Proof.
  intros [H1 H2 H3 H4]. pose proof (H2 n) as Hn. unfold blob_meta in Hn. unfold GetOrCreateMutableBlobFileMetaData.
  destruct (mutable_blob_file_metas_ r !! n) as [mm|] eqn:Em.
  { destruct (b !! n) as [x|]; [|done]. apply (inj Some) in Hn. exists mm, r. split_and!; [done..|]. intros x0 Hx0. by apply (H4 n). }
  destruct (b !! n) as [x|] eqn:Eb; cbn in Hn; rewrite Hn; [|done]. eexists _, _. split_and!; [done|by destruct x as [? []]| |].
  - intros mm'. unfold put_blob_meta. cbn. by rewrite insert_insert_eq.
  - intros x0 [= <-]. destruct (H3 n x Eb) as (_ & _ & Hc1 & Hc2 & Hs1 & Hs2).
    split; cbn; try set_solver; try (rewrite Z.add_0_r, wrap_small; [done|]); unfold is_u; lia.
Qed.

Lemma in_version r m b n : tracks_blobs r m b → IsBlobFileInVersion r n = match b !! n with Some _ => true | None => false end.
Proof.
  intros H. pose proof (tb_meta r m b H n) as Hn. unfold blob_meta in Hn. unfold IsBlobFileInVersion.
  destruct (mutable_blob_file_metas_ r !! n), (b !! n); try done; cbn in Hn; by rewrite Hn.
Qed.

Lemma ApplyBlobFileAddition_spec r m b a : tracks_blobs r m b → blob_wf (blob_file_number_ a) (a, (0, 0)) →
  linked_in (num_levels_ r) m (blob_file_number_ a) = ∅ →
  match blob_add b a with
  | None => IsCorruption (fst (ApplyBlobFileAddition r a)) = true
  | Some b' => ∃ r', ApplyBlobFileAddition r a = (Status_OK, r') ∧ tracks_blobs r' m b' ∧ same_files r r'
  end.
Proof.
  intros H Ha Hl. unfold blob_add, ApplyBlobFileAddition. rewrite (in_version r m b) by done.
  destruct (b !! blob_file_number_ a) eqn:E; [done|]. eexists. split_and!; [done| |done].
  apply (tracks_blobs_put r m m); try done.
  - unfold meta_in. by rewrite Hl.
  - intros x0 Hx0. pose proof (tb_meta r m b H (blob_file_number_ a)) as Hn. unfold blob_meta in Hn. rewrite E in Hn.
    destruct (mutable_blob_file_metas_ r !! _); [done|]. cbn in Hn. congruence.
Qed.

Lemma ApplyBlobFileGarbage_spec r m b g : tracks_blobs r m b → 0 <= garbage_blob_count_ g < 2 ^ 63 → 0 <= garbage_blob_bytes_ g < 2 ^ 63 →
  match blob_garbage b g with
  | None => IsCorruption (fst (ApplyBlobFileGarbage r g)) = true
  | Some b' => ∃ r', ApplyBlobFileGarbage r g = (Status_OK, r') ∧ tracks_blobs r' m b' ∧ same_files r r'
  end.
Proof.
  intros H Hc Hs. unfold blob_garbage, ApplyBlobFileGarbage. pose proof (GetOrCreate_tracks r m b (garbage_file_number_ g) H) as Hg.
  destruct (b !! garbage_file_number_ g) as [[a [count size]]|] eqn:E; [|by rewrite Hg]. destruct Hg as (mm & r' & -> & Hmm & Hput & Hd). cbn [mbind option_bind].
  destruct (tb_wf r m b H _ _ E) as (H0 & H1 & H2 & H3 & H4 & H5). cbn in H1, H2, H3, H4, H5.
  assert (MutableBlobFileMetaData.shared_meta_ mm = a ∧ MutableBlobFileMetaData.garbage_blob_count_ mm = count ∧
    MutableBlobFileMetaData.garbage_blob_bytes_ mm = size) as (Ea & Ec & Es) by (unfold meta_in in Hmm; cbn in Hmm; unfold MutableBlobFileMetaData.Create in Hmm; by simplify_eq).
  destruct (MutableBlobFileMetaData.AddGarbage mm (garbage_blob_count_ g) (garbage_blob_bytes_ g)) as [mm'|] eqn:Eg;
    pose proof Eg as Eg'; unfold MutableBlobFileMetaData.AddGarbage in Eg; rewrite Ea, Ec, Es, !wrap_small in Eg by (unfold is_u; lia).
  - destruct (_ || _) eqn:Eo in Eg; [done|]. rewrite Eo. apply orb_false_iff in Eo as [Eo1%Z.ltb_ge Eo2%Z.ltb_ge].
    eexists. rewrite Hput. split_and!; [done| |done].
    apply (tracks_blobs_put r m m); try done.
    + injection Eg as <-. unfold meta_in, MutableBlobFileMetaData.Create in *. cbn in *. injection Hmm as _ Hm _ _. by rewrite Hm.
    + unfold blob_wf. cbn. lia.
    + intros x0 Hx0. apply (delta_rel_garbage x0 mm _ _ _ (Hd x0 Hx0) Eg').
  - destruct (_ || _) eqn:Eo in Eg; [by rewrite Eo|done].
Qed.

(** Linking and unlinking a table file *)
Lemma tracks_blobs_with r m m' b bn update :
  tracks_blobs r m b → bn ≠ kInvalidBlobFileNumber →
  (∀ n', n' ≠ bn → is_Some (b !! n') → linked_in (num_levels_ r) m' n' = linked_in (num_levels_ r) m n') →
  (∀ mm x, b !! bn = Some x → MutableBlobFileMetaData.Create mm = meta_in (num_levels_ r) m bn x →
    MutableBlobFileMetaData.Create (update mm) = meta_in (num_levels_ r) m' bn x ∧ (∀ x0, delta_rel x0 mm → delta_rel x0 (update mm))) →
  tracks_blobs (with_blob_file r bn update) m' b.
Proof.
  intros H Hbn Hl Hu. unfold with_blob_file. rewrite (proj2 (Z.eqb_neq _ _)) by done.
  pose proof (GetOrCreate_tracks r m b bn H) as Hg. destruct (b !! bn) as [x|] eqn:E.
  - destruct Hg as (mm & r' & -> & Hmm & Hput & Hd). destruct (Hu mm x eq_refl Hmm) as [Hc Hdu]. rewrite Hput.
    rewrite <- (insert_id b bn x E). apply (tracks_blobs_put r m m'); try done.
    + by apply (tb_wf r m b).
    + intros x0 Hx0. by apply Hdu, Hd.
  - rewrite Hg. destruct H as [H1 H2 H3 H4]. split; try done. intros n. rewrite H2. destruct (b !! n) as [y|] eqn:En; [|done]. cbn. f_equal. unfold meta_in. f_equal.
    symmetry. apply Hl; [congruence|by exists y].
Qed.

Lemma tracks_blobs_links r m m' b : tracks_blobs r m b →
  (∀ n, is_Some (b !! n) → linked_in (num_levels_ r) m' n = linked_in (num_levels_ r) m n) → tracks_blobs r m' b.
Proof.
  intros [H1 H2 H3 H4] Hl. split; try done. intros n. rewrite H2. destruct (b !! n) as [y|] eqn:E; [|done]. cbn. f_equal. unfold meta_in. f_equal.
  symmetry. apply Hl. by exists y.
Qed.
Lemma tracks_blobs_valid r m b n : tracks_blobs r m b → is_Some (b !! n) → n ≠ kInvalidBlobFileNumber.
Proof. intros H [x Hx]. destruct (tb_wf r m b H n x Hx) as [Hn _]. unfold kInvalidBlobFileNumber. lia. Qed.

Lemma tracks_blobs_deletion r m b l n f : tracks r m → tracks_blobs r m b → m !! n = Some (l, f) → tracks_blobs (deletion r l n f) (delete n m) b.
Proof.
  intros Ht H Hn. destruct (tr_wf r m Ht n l f Hn) as [Hl _]. unfold deletion. pose proof (linked_in_delete (num_levels_ r) m) as Hd.
  destruct (level_state_cases r l Hl) as [[Hge ->]|[Hlt [st ->]]].
  - apply (tracks_blobs_same r); try done. apply (tracks_blobs_links r m); [done|]. intros k _. rewrite (Hd k n l f Hn). by rewrite decide_False by lia.
  - apply (tracks_blobs_same (with_blob_file r (oldest_blob_file_number f) (λ mm, MutableBlobFileMetaData.UnlinkSst mm n))); [done|apply num_levels_change|done|]. set (bn := oldest_blob_file_number f) in *.
    destruct (Z.eq_dec bn kInvalidBlobFileNumber) as [E|E].
    + unfold with_blob_file. rewrite (proj2 (Z.eqb_eq _ _) E). apply (tracks_blobs_links r m); [done|]. intros k Hk.
      rewrite (Hd k n l f Hn), decide_False; [done|]. pose proof (tracks_blobs_valid r m b k H Hk). fold bn. intros [_ ?]. congruence.
    + apply (tracks_blobs_with r m); [done|done| |].
      * intros k Hk _. rewrite (Hd k n l f Hn), decide_False; [done|]. fold bn. intros [_ ?]. congruence.
      * intros mm x Hx Hmm. split.
        -- unfold MutableBlobFileMetaData.Create, meta_in in *. cbn. injection Hmm as -> E2 -> ->. rewrite E2, (Hd bn n l f Hn). by rewrite decide_True.
        -- intros x0 Hx0. apply delta_rel_unlink; [done|]. assert (MutableBlobFileMetaData.linked_ssts_ mm = linked_in (num_levels_ r) m bn) as ->
             by (unfold MutableBlobFileMetaData.Create, meta_in in Hmm; by injection Hmm). apply elem_of_linked_in. by exists l, f.
Qed.
Lemma tracks_blobs_addition r m b l f : tracks_blobs r m b → 0 <= l → m !! file_number f = None →
  tracks_blobs (addition r l f) (<[file_number f := (l, f)]> m) b.
Proof.
  intros H Hl Hn. unfold addition. pose proof (λ k, linked_in_insert (num_levels_ r) m k (file_number f) l f Hn) as Hd.
  destruct (level_state_cases r l Hl) as [[Hge ->]|[Hlt [st ->]]].
  - apply (tracks_blobs_same r); try done. apply (tracks_blobs_links r m); [done|]. intros k _. rewrite (Hd k). rewrite decide_False by lia. set_solver.
  - apply (tracks_blobs_same (with_blob_file r (oldest_blob_file_number f) (λ mm, MutableBlobFileMetaData.LinkSst mm (file_number f)))); [done|apply num_levels_change|done|]. set (bn := oldest_blob_file_number f) in *.
    destruct (Z.eq_dec bn kInvalidBlobFileNumber) as [E|E].
    + unfold with_blob_file. rewrite (proj2 (Z.eqb_eq _ _) E). apply (tracks_blobs_links r m); [done|]. intros k Hk.
      rewrite (Hd k), decide_False; [set_solver|]. pose proof (tracks_blobs_valid r m b k H Hk). intros [_ ?]. congruence.
    + apply (tracks_blobs_with r m); [done|done| |].
      * intros k Hk _. rewrite (Hd k), decide_False; [set_solver|]. intros [_ ?]. congruence.
      * intros mm x Hx Hmm. split.
        -- unfold MutableBlobFileMetaData.Create, meta_in in *. cbn. injection Hmm as -> E2 -> ->. rewrite E2, (Hd bn). by rewrite decide_True.
        -- intros x0 Hx0. apply delta_rel_link; [done|]. assert (MutableBlobFileMetaData.linked_ssts_ mm = linked_in (num_levels_ r) m bn) as ->
             by (unfold MutableBlobFileMetaData.Create, meta_in in Hmm; by injection Hmm). intros (l' & f' & Hf & _)%elem_of_linked_in. congruence.
Qed.

(** ** Saving *)

(** The blob files of the base version and of the builder in order, those of the
    builder for both. *)
Fixpoint merged (base : list Meta) : list (Z * Mutable) → list Meta :=
  fix merged_mutable (mutable : list (Z * Mutable)) {struct mutable} : list Meta :=
  match base, mutable with
  | [], [] => []
  | b :: base, [] => b :: merged base []
  | [], p :: mutable => MutableBlobFileMetaData.Create (snd p) :: merged_mutable mutable
  | b :: base', p :: mutable' =>
      if meta_number b <? fst p then b :: merged base' mutable
      else if fst p <? meta_number b then MutableBlobFileMetaData.Create (snd p) :: merged_mutable mutable'
      else MutableBlobFileMetaData.Create (snd p) :: merged base' mutable'
  end.

Lemma merged_cons b base p mutable : merged (b :: base) (p :: mutable) =
  if meta_number b <? fst p then b :: merged base (p :: mutable)
  else if fst p <? meta_number b then MutableBlobFileMetaData.Create (snd p) :: merged (b :: base) mutable
  else MutableBlobFileMetaData.Create (snd p) :: merged base mutable.
Proof. reflexivity. Qed.

(** A walk that may stop *)
Fixpoint walk {S} (step : Meta → S → bool * S) (l : list Meta) (st : S) : S :=
  match l with [] => st | x :: l => let '(go, st) := step x st in if go then walk step l st else st end.

Lemma merge_metas_walk {S} (step : Meta → S → bool * S) base_step mutable_step both_step :
  (∀ b st, base_step b st = step b st) → (∀ mm st, mutable_step mm st = step (MutableBlobFileMetaData.Create mm) st) →
  ∀ base mutable, (∀ b p st, b ∈ base → p ∈ mutable → meta_number b = fst p →
    both_step b (snd p) st = step (MutableBlobFileMetaData.Create (snd p)) st) →
  ∀ st, merge_metas base_step mutable_step both_step base mutable st = walk step (merged base mutable) st.
Proof.
  intros Hb Hm. induction base as [|b base IHb].
  - induction mutable as [|p mutable IHm]; intros Hboth st; [done|]. cbn. rewrite Hm. destruct (step _ st) as [[] st']; [|done].
    apply IHm. intros ? ? ? ?%elem_of_nil. done.
  - induction mutable as [|p mutable IHm]; intros Hboth st.
    + cbn. rewrite Hb. destruct (step b st) as [[] st']; [|done]. apply IHb. intros ? ? ? _ ?%elem_of_nil. done.
    + cbn. destruct (Z.ltb_spec (meta_number b) (fst p)) as [E1|E1]; [|destruct (Z.ltb_spec (fst p) (meta_number b)) as [E2|E2]]; cbn [walk].
      * rewrite Hb. destruct (step b st) as [[] st']; [|done]. apply IHb. intros b' p' st'' Hb'. apply Hboth. by right.
      * rewrite Hm. destruct (step _ st) as [[] st']; [|done]. apply IHm. intros b' p' st'' Hb' Hp'. apply Hboth; [done|by right].
      * rewrite (Hboth b p st); [|left|left|lia]. destruct (step _ st) as [[] st']; [|done]. apply IHb.
        intros b' p' st'' Hb' Hp'. apply Hboth; by right.
Qed.

Definition by_number (x y : Meta) : Prop := meta_number x < meta_number y.
Definition by_key (p q : Z * Mutable) : Prop := fst p < fst q.
Definition key_ok (p : Z * Mutable) : Prop := meta_number (MutableBlobFileMetaData.Create (snd p)) = fst p.

Lemma elem_of_merged base mutable x : StronglySorted by_number base → StronglySorted by_key mutable →
  x ∈ merged base mutable ↔ (∃ p, p ∈ mutable ∧ x = MutableBlobFileMetaData.Create (snd p)) ∨ x ∈ base ∧ ∀ p, p ∈ mutable → fst p ≠ meta_number x.
Proof.
  intros Hs. revert mutable. induction Hs as [|b base Hs IHb Hb]; intros mutable Hm.
  - induction Hm as [|p mutable Hm IHm Hp]; cbn [merged].
    + split; [by intros ?%elem_of_nil|]. intros [(p & ?%elem_of_nil & _)|[? _]]; done.
    + rewrite elem_of_cons. setoid_rewrite elem_of_cons. fold (merged [] mutable). rewrite IHm. split.
      * intros [->|[(q & Hq & ->)|[?%elem_of_nil _]]]; [left; eauto|left; eauto|done].
      * intros [(q & [->|Hq] & ->)|[?%elem_of_nil _]]; [by left|right; left; eauto|done].
  - rewrite Forall_forall in Hb. induction Hm as [|p mutable Hm IHm Hp].
    + change (merged (b :: base) []) with (b :: merged base []). rewrite elem_of_cons, IHb by constructor. rewrite elem_of_cons.
      assert (∀ q : Z * Mutable, q ∈ [] → False) as Hnil by (intros q ?%elem_of_nil; done). naive_solver.
    + assert (∀ q, q ∈ p :: mutable → fst p <= fst q) as Hge.
      { rewrite Forall_forall in Hp. intros q [-> |Hq]%elem_of_cons; [done|]. specialize (Hp q Hq). unfold by_key in Hp. lia. }
      rewrite merged_cons. destruct (Z.ltb_spec (meta_number b) (fst p)) as [E1|E1]; [|destruct (Z.ltb_spec (fst p) (meta_number b)) as [E2|E2]].
      * rewrite elem_of_cons, IHb by by constructor. rewrite (elem_of_cons base). split.
        -- intros [->|[H|[H1 H2]]]; [right|by left|right; auto]. split; [by left|]. intros q Hq. specialize (Hge q Hq). lia.
        -- intros [H|[[->|H1] H2]]; auto.
      * rewrite elem_of_cons, IHm. setoid_rewrite (elem_of_cons mutable). split.
        -- intros [->|[(q & Hq & ->)|[H1 H2]]]; [left; eauto|left; eauto|right]. split; [done|]. intros q [->|Hq]; [|by apply H2].
           apply elem_of_cons in H1 as [->|H1]; [lia|]. specialize (Hb x H1). unfold by_number in Hb. lia.
        -- intros [(q & [->|Hq] & ->)|[H1 H2]]; [by left|right; left; eauto|right; right; auto].
      * rewrite elem_of_cons, IHb by done. setoid_rewrite elem_of_cons. split.
        -- intros [->|[(q & Hq & ->)|[H1 H2]]]; [left; eauto|left; eauto|right]. split; [by right|]. intros q [->|Hq]; [|by apply H2].
           specialize (Hb x H1). unfold by_number in Hb. lia.
        -- intros [(q & [->|Hq] & ->)|[[->|H1] H2]]; [by left|right; left; eauto| |right; right; auto].
           exfalso. apply (H2 p); [by left|lia].
Qed.

Lemma merged_sorted base mutable : StronglySorted by_number base → StronglySorted by_key mutable → Forall key_ok mutable →
  StronglySorted by_number (merged base mutable).
Proof.
  assert (∀ base mutable lo, StronglySorted by_number base → StronglySorted by_key mutable → Forall key_ok mutable →
    (∀ x, x ∈ base → lo < meta_number x) → (∀ q, q ∈ mutable → lo < fst q) → Forall (λ y, lo < meta_number y) (merged base mutable)) as Hlo.
  { intros b mu lo Hb Hm Hk H1 H2. rewrite Forall_forall in Hk. apply Forall_forall. intros y Hy. apply elem_of_merged in Hy as [(q & Hq & ->)|[Hy _]]; [|auto|done..].
    rewrite (Hk q Hq). auto. }
  intros Hs. revert mutable. induction Hs as [|b base Hs IHb Hb]; intros mutable Hm Hk.
  - induction Hm as [|p mutable Hm IHm Hp]; cbn [merged]; [constructor|]. apply Forall_cons in Hk as [Hkp Hk]. fold (merged [] mutable).
    constructor; [by apply IHm|]. unfold by_number. rewrite Hkp. apply Hlo; [constructor|done..|by intros ? ?%elem_of_nil|].
    rewrite Forall_forall in Hp. exact Hp.
  - rewrite Forall_forall in Hb. induction Hm as [|p mutable Hm IHm Hp].
    + change (merged (b :: base) []) with (b :: merged base []). constructor; [apply IHb; constructor|].
      apply Hlo; [done|constructor..|exact Hb|by intros ? ?%elem_of_nil].
    + pose proof Hk as Hk0. apply Forall_cons in Hk as [Hkp Hk]. rewrite Forall_forall in Hp. rewrite merged_cons.
      destruct (Z.ltb_spec (meta_number b) (fst p)) as [E1|E1]; [|destruct (Z.ltb_spec (fst p) (meta_number b)) as [E2|E2]].
      * assert (StronglySorted by_key (p :: mutable)) as Hpm by (constructor; [done|by apply Forall_forall]).
        constructor; [by apply IHb|]. apply Hlo; [done..|]. intros q [-> |Hq]%elem_of_cons; [done|]. specialize (Hp q Hq). unfold by_key in Hp. lia.
      * constructor; [by apply IHm|]. unfold by_number. rewrite Hkp.
        apply Hlo; [by constructor; [|apply Forall_forall]|done..| |exact Hp]. intros x [-> |Hx]%elem_of_cons; [done|]. specialize (Hb x Hx). unfold by_number in Hb. lia.
      * constructor; [by apply IHb|]. unfold by_number. rewrite Hkp. apply Hlo; [done..| |exact Hp]. intros x Hx. specialize (Hb x Hx). unfold by_number in Hb. lia.
Qed.

(** The blob files of the resulting version, before those without data are dropped *)
Definition metas (k : Z) (m : Lsm) (b : Blobs) : list Meta := map (λ p, meta_in k m (fst p) (snd p)) (map_entries b).
Definition has_links (x : Meta) : bool := negb (bool_decide (BlobFileMetaData.linked_ssts_ x = ∅)).
(** The first one with links; files before it are dropped, and files that consist
    of garbage and have no links. *)
Definition oldest_linked (l : list Meta) : Z :=
  match List.find has_links l with Some x => meta_number x | None => kInvalidBlobFileNumber end.
Definition kept (l : list Meta) : list Meta :=
  List.filter (λ x, (oldest_linked l <=? meta_number x) &&
    (has_links x || (BlobFileMetaData.garbage_blob_count_ x <? BlobFileMetaData.GetTotalBlobCount x))) l.

Section Save.
Context (r : Rep) (m : Lsm) (b : Blobs) (H : tracks_blobs r m b).
#[local] Abbreviation k := (num_levels_ r).

Lemma meta_number_in n x : b !! n = Some x → meta_number (meta_in k m n x) = n.
Proof using H. intros Hx. by destruct (tb_wf r m b H n x Hx) as (_ & ? & _). Qed.
Lemma blob_meta_number n x : blob_meta r n = Some x → meta_number x = n.
Proof using H.
  rewrite (tb_meta r m b H). destruct (b !! n) as [y|] eqn:E; [|done]. cbn. intros [= <-]. by apply meta_number_in.
Qed.
Lemma elem_of_metas x : x ∈ metas k m b ↔ blob_meta r (meta_number x) = Some x.
Proof using H.
  unfold metas. rewrite list_elem_of_fmap. split.
  - intros ([n y] & -> & Hy). apply elem_of_map_entries in Hy. cbn [fst snd]. rewrite (meta_number_in n y Hy), (tb_meta r m b H), Hy. done.
  - intros Hx. rewrite (tb_meta r m b H) in Hx. destruct (b !! meta_number x) as [y|] eqn:E; [|done]. injection Hx as Hx.
    exists (meta_number x, y). split; [done|]. by apply elem_of_map_entries.
Qed.
Lemma metas_sorted : StronglySorted by_number (metas k m b).
Proof using H.
  unfold metas. apply (StronglySorted_map_in (λ p q, fst p < fst q)); [|apply map_entries_sorted].
  intros [n x] [n' y] Hx%elem_of_map_entries Hy%elem_of_map_entries Hlt. unfold by_number. cbn [fst snd] in *. by rewrite !meta_number_in.
Qed.

Lemma key_ok_mutable p : p ∈ map_entries (mutable_blob_file_metas_ r) → key_ok p ∧ blob_meta r (fst p) = Some (MutableBlobFileMetaData.Create (snd p)).
Proof using H.
  destruct p as [n mm]. intros Hp%elem_of_map_entries. assert (blob_meta r n = Some (MutableBlobFileMetaData.Create mm)) as E by (unfold blob_meta; by rewrite Hp).
  split; [|done]. by apply blob_meta_number.
Qed.

(** What is walked over is the list of blob files from a number on. *)
Lemma merged_metas first :
  merged (GetBlobFileMetaDataLB (base_vstorage_ r) first)
    (List.filter (λ p, first <=? fst p) (map_entries (mutable_blob_file_metas_ r))) =
  List.filter (λ x, first <=? meta_number x) (metas k m b).
Proof using H.
  pose proof (tb_sorted r m b H) as Hs. rewrite GetBlobFileMetaDataLB_sorted by done.
  assert (StronglySorted by_number (List.filter (λ x, first <=? meta_number x) (blob_files_ (base_vstorage_ r)))) as H1 by by apply StronglySorted_list_filter.
  assert (StronglySorted by_key (List.filter (λ p, first <=? fst p) (map_entries (mutable_blob_file_metas_ r)))) as H2
    by apply StronglySorted_list_filter, map_entries_sorted.
  apply (sorted_key_ext meta_number).
  - apply merged_sorted; [done..|]. apply Forall_forall. intros p [Hp _]%elem_of_list_filter_bool. by apply key_ok_mutable.
  - apply StronglySorted_list_filter, metas_sorted.
  - intros x. rewrite elem_of_merged, !elem_of_list_filter_bool, elem_of_metas by done. split.
    + intros [(p & [Hp Hf]%elem_of_list_filter_bool & ->)|[[Hx Hf] Hne]].
      * destruct (key_ok_mutable p Hp) as [-> Hm]. done.
      * split; [|done]. unfold blob_meta. destruct (mutable_blob_file_metas_ r !! meta_number x) as [mm|] eqn:E.
        { exfalso. apply (Hne (meta_number x, mm)); [|done]. apply elem_of_list_filter_bool. split; [|done]. by apply elem_of_map_entries. }
        rewrite GetBlobFileMetaData_lookup by done. by apply blobs_of_lookup.
    + intros [Hx Hf]. unfold blob_meta in Hx. destruct (mutable_blob_file_metas_ r !! meta_number x) as [mm|] eqn:E.
      * left. injection Hx as Hx. exists (meta_number x, mm). split; [|done]. apply elem_of_list_filter_bool. split; [by apply elem_of_map_entries|done].
      * right. rewrite GetBlobFileMetaData_lookup in Hx by done. apply blobs_of_lookup in Hx as [Hx _]; [|done]. split; [done|].
        intros [n mm] [Hp _]%elem_of_list_filter_bool Hn. apply elem_of_map_entries in Hp. cbn in Hn. congruence.
Qed.

Lemma MergeBlobFileMetas_walk {S} (step : Meta → S → bool * S) base_step mutable_step both_step first st :
  (∀ b st, base_step b st = step b st) → (∀ mm st, mutable_step mm st = step (MutableBlobFileMetaData.Create mm) st) →
  (∀ b mm st, delta_rel b mm → both_step b mm st = step (MutableBlobFileMetaData.Create mm) st) →
  MergeBlobFileMetas base_step mutable_step both_step r first st =
  walk step (List.filter (λ x, first <=? meta_number x) (metas k m b)) st.
Proof using H.
  intros Hb Hm Hboth. unfold MergeBlobFileMetas. rewrite (merge_metas_walk step), merged_metas; [done|done|done|].
  intros x [n mm] st' Hx Hp E. apply Hboth. pose proof (tb_sorted r m b H) as Hs. rewrite GetBlobFileMetaDataLB_sorted in Hx by done.
  apply elem_of_list_filter_bool in Hx as [Hx _], Hp as [Hp _]. apply elem_of_map_entries in Hp. cbn in *.
  apply (tb_delta r m b H n); [|done]. rewrite GetBlobFileMetaData_lookup by done. by apply blobs_of_lookup.
Qed.

Lemma metas_positive x : x ∈ metas k m b → 0 < meta_number x.
Proof using H.
  unfold metas. intros ([n y] & -> & Hy%elem_of_map_entries)%list_elem_of_fmap. cbn [fst snd]. rewrite meta_number_in by done.
  by destruct (tb_wf r m b H n y Hy).
Qed.
Lemma filter_all {A} (p : A → bool) l : (∀ x, x ∈ l → p x = true) → List.filter p l = l.
Proof using.
  induction l as [|x l IH]; intros Hp; [done|]. cbn. rewrite Hp by left. f_equal. apply IH. intros y Hy. apply Hp. by right.
Qed.

Lemma GetMinOldestBlobFileNumber_eq : GetMinOldestBlobFileNumber r = oldest_linked (metas k m b).
Proof using H.
  unfold GetMinOldestBlobFileNumber. rewrite (MergeBlobFileMetas_walk (λ x, CheckLinkedSsts (meta_number x) (BlobFileMetaData.linked_ssts_ x))); [|done..].
  rewrite filter_all by (intros x Hx%metas_positive; unfold kInvalidBlobFileNumber; lia). unfold oldest_linked.
  induction (metas k m b) as [|x l IH]; [done|]. cbn. unfold CheckLinkedSsts, has_links. by case_bool_decide.
Qed.

Lemma SaveBlobFilesTo_eq v : SaveBlobFilesTo r v = set_blob_files v (blob_files_ v ++ kept (metas k m b)).
Proof using H.
  unfold SaveBlobFilesTo. rewrite GetMinOldestBlobFileNumber_eq, (MergeBlobFileMetas_walk (λ x v, (true, AddBlobFileIfNeeded v x))); [|done|done|].
  - unfold kept. generalize (oldest_linked (metas k m b)). generalize (metas k m b). intros l first. revert v.
    induction l as [|x l IH]; intros v; cbn; [rewrite app_nil_r; by destruct v|].
    destruct (first <=? meta_number x); cbn [andb]; [|apply IH]. cbn [walk]. rewrite IH. unfold AddBlobFileIfNeeded, has_links.
    rewrite Z.leb_antisym. case_bool_decide; cbn [negb orb andb]; [|cbn; by rewrite <- app_assoc].
    destruct (_ <? _); cbn [negb]; [cbn; by rewrite <- app_assoc|done].
  - intros x mm st Hd. destruct (MutableBlobFileMetaData.HasDelta mm) eqn:E; cbn [negb]; [done|]. by rewrite (delta_rel_none x mm).
Qed.
End Save.
