(* ===== verification/VersionBuilderSave.v ===== *)
(** * Saving a version builder

    The table files that are saved are those of the map, level by level and in the
    order of the level; and the theorem about edits and saving together. *)

From S2P Require Import Prelude SortedLists Status Comparator DbFormat WalEdit VersionEdit VersionStorage VersionStorageCorrect.
From S2P Require Import VersionBuilder VersionBuilderCorrect VersionBuilderBlobs.
From stdpp Require Import gmap pretty.
From Stdlib Require Import Sorting.Sorted.
#[local] Open Scope Z_scope.

(** ** One level *)

Section Level.
Context {P cmp} `{!FileOrder P cmp}.

(** The files in order, [true] for those that were added. *)
Fixpoint merge_tagged (base : list FileMetaData) : list FileMetaData → list (bool * FileMetaData) :=
  fix merge_added (added : list FileMetaData) {struct added} : list (bool * FileMetaData) :=
  match base, added with
  | [], [] => []
  | [], a :: added => (true, a) :: merge_added added
  | b :: base, [] => (false, b) :: merge_tagged base []
  | b :: base', a :: added' => if cmp a b then (true, a) :: merge_added added' else (false, b) :: merge_tagged base' added
  end.
Lemma merge_tagged_cons b base a added : merge_tagged (b :: base) (a :: added) =
  if cmp a b then (true, a) :: merge_tagged (b :: base) added else (false, b) :: merge_tagged base (a :: added).
Proof using. reflexivity. Qed.

Lemma merge_tagged_perm base added : merge_tagged base added ≡ₚ map (pair false) base ++ map (pair true) added.
Proof using.
  revert added. induction base as [|b base IHb].
  - induction added as [|a added IHa]; [done|]. cbn. by f_equiv.
  - induction added as [|a added IHa]; [cbn; f_equiv; apply IHb|]. rewrite merge_tagged_cons. destruct (cmp a b).
    + rewrite IHa. cbn [map]. by rewrite <- Permutation_middle.
    + rewrite IHb. done.
Qed.

Definition tagged_le (x y : bool * FileMetaData) : Prop := cmp (snd y) (snd x) = false.
Definition file_le (a b : FileMetaData) : Prop := cmp b a = false.

Lemma merge_tagged_sorted base added : Forall P base → Forall P added → StronglySorted file_le base → StronglySorted file_le added →
  StronglySorted tagged_le (merge_tagged base added).
Proof using All.
  assert (∀ x base added, P x → Forall P base → Forall P added → Forall (file_le x) base → Forall (file_le x) added →
    Forall (λ y, cmp (snd y) x = false) (merge_tagged base added)) as Hlo.
  { intros x base' added' _ _ _ H1 H2. rewrite merge_tagged_perm. apply Forall_app. by rewrite !Forall_map. }
  intros HPb HPa Hb. revert added HPa. induction Hb as [|b base Hb IHb Hlb]; intros added HPa Ha.
  - induction Ha as [|a added Ha IHa Hla]; [constructor|]. apply Forall_cons in HPa as [Pa HPa].
    change (merge_tagged [] (a :: added)) with ((true, a) :: merge_tagged [] added). constructor; [by apply IHa|]. by apply Hlo.
  - apply Forall_cons in HPb as [Pb HPb]. specialize (IHb HPb). induction Ha as [|a added Ha IHa Hla].
    + change (merge_tagged (b :: base) []) with ((false, b) :: merge_tagged base []). constructor; [by apply IHb; constructor|]. by apply Hlo.
    + pose proof HPa as HPa0. apply Forall_cons in HPa as [Pa HPa]. rewrite merge_tagged_cons. destruct (cmp a b) eqn:E.
      * constructor; [by apply IHa|]. assert (file_le a b) as Hab by by apply fo_asym.
        apply Hlo; [done|by constructor|done| |done]. constructor; [done|]. rewrite Forall_forall in *. intros y Hy. apply (fo_trans a b y); [done|done|by apply HPb|exact Hab|by apply Hlb].
      * constructor; [by apply IHb; [|constructor]|]. apply Hlo; [done..|]. constructor; [done|]. rewrite Forall_forall in *. intros y Hy. apply (fo_trans b a y); [done|done|by apply HPa|exact E|by apply Hla].
Qed.

Lemma sort_by_file_le l : Forall P l → StronglySorted file_le (sort_by (λ a b, negb (cmp b a)) l).
Proof using All.
  intros HP. assert (StronglySorted (λ a b, negb (cmp b a) = true) (sort_by (λ a b, negb (cmp b a)) l)) as Hs.
  { apply (sort_by_sorted P); [..|done].
    - intros x y Px Py. destruct (cmp x y) eqn:E; [left; by rewrite (fo_asym x y)|by right].
    - intros x y z Px Py Pz Hxy%negb_true_iff Hyz%negb_true_iff. apply negb_true_iff. by apply (fo_trans x y z). }
  apply (StronglySorted_map_in _ file_le id) in Hs; [by rewrite map_id in Hs|]. intros x y _ _ E%negb_true_iff. exact E.
Qed.

(** Without files of the same number the order is strict. *)
Lemma tagged_strict l : Forall (λ x, P (snd x)) l → NoDup (map (λ x, file_number (snd x)) l) → StronglySorted tagged_le l →
  StronglySorted (λ a b, cmp a b = true) (map snd l).
Proof using All.
  intros HP Hn Hs. induction Hs as [|x l Hs IH Hx]; cbn; [constructor|]. cbn in Hn. apply NoDup_cons in Hn as [Hnx Hn].
  apply Forall_cons in HP as [Px HP]. constructor; [by apply IH|]. apply Forall_map. rewrite Forall_forall in *. intros y Hy.
  apply fo_strict; [done|by apply HP| |by apply Hx]. intros E. apply Hnx. rewrite E. apply list_elem_of_fmap. by exists y.
Qed.
End Level.

(** ** Saving a level *)

Definition AddFilesTo (v : VersionStorageInfo) (level : Z) (l : list FileMetaData) : VersionStorageInfo :=
  set_files v (alter (λ files, files ++ l) (Z.to_nat level) (files_ v)).
(** Whether [MaybeAddFile] adds the file *)
Definition saved (st : LevelState) (x : bool * FileMetaData) : bool :=
  negb (bool_decide (file_number (snd x) ∈ deleted_files st)) &&
  (fst x || match added_files st !! file_number (snd x) with Some _ => false | None => true end).

Lemma list_alter_same {A} (f : A → A) (l : list A) (i : nat) : (∀ x, f x = x) → alter f i l = l.
Proof. intros Hf. revert i. induction l as [|x l IH]; intros [|i]; cbn; [done..|by rewrite Hf|]. f_equal. apply IH. Qed.
Lemma AddFilesTo_nil v level : AddFilesTo v level [] = v.
Proof. unfold AddFilesTo. rewrite list_alter_same by apply app_nil_r. by destruct v. Qed.
Lemma AddFilesTo_app v level l l' : AddFilesTo (AddFilesTo v level l) level l' = AddFilesTo v level (l ++ l').
Proof.
  unfold AddFilesTo, set_files. cbn. f_equal. generalize (Z.to_nat level) as i. induction (files_ v) as [|x fs IH]; intros [|i]; cbn; [done..| |].
  - by rewrite <- app_assoc.
  - f_equal. apply IH.
Qed.
Lemma MaybeAddFile_saved r v level added f st : level_state r level = Some st →
  MaybeAddFile r v level added f = AddFilesTo v level (if saved st (added, f) then [f] else []).
Proof.
  intros Hst. unfold MaybeAddFile, saved. rewrite Hst. cbn [from_option id fst snd]. case_bool_decide; cbn [negb andb]; [by rewrite AddFilesTo_nil|].
  destruct (added_files st !! file_number f), added; cbn [negb orb]; by rewrite ?AddFilesTo_nil.
Qed.

Lemma save_files_eq r level cmp st base added v : level_state r level = Some st →
  save_files r level cmp base added v = AddFilesTo v level (map snd (List.filter (saved st) (merge_tagged (cmp := cmp) base added))).
Proof.
  intros Hst. revert added v. induction base as [|b base IHb].
  - induction added as [|a added IHa]; intros v; cbn; [by rewrite AddFilesTo_nil|]. fold (save_files r level cmp [] added).
    rewrite IHa, (MaybeAddFile_saved _ _ _ _ _ st Hst), AddFilesTo_app. by destruct (saved st (true, a)).
  - induction added as [|a added IHa]; intros v.
    + cbn. rewrite IHb, (MaybeAddFile_saved _ _ _ _ _ st Hst), AddFilesTo_app. by destruct (saved st (false, b)).
    + rewrite merge_tagged_cons. change (save_files r level cmp (b :: base) (a :: added) v) with
        (if cmp a b then save_files r level cmp (b :: base) added (MaybeAddFile r v level true a)
         else save_files r level cmp base (a :: added) (MaybeAddFile r v level false b)).
      destruct (cmp a b); cbn [List.filter].
      * rewrite IHa, (MaybeAddFile_saved _ _ _ _ _ st Hst), AddFilesTo_app. by destruct (saved st (true, a)).
      * rewrite IHb, (MaybeAddFile_saved _ _ _ _ _ st Hst), AddFilesTo_app. by destruct (saved st (false, b)).
Qed.

Section SaveLevel.
Context {P cmp} `{!FileOrder P cmp}.
Context (r : Rep) (m : Lsm) (H : tracks r m).

Definition level_list (level : Z) (st : LevelState) : list (bool * FileMetaData) :=
  List.filter (saved st) (merge_tagged (cmp := cmp) (LevelFiles (base_vstorage_ r) level)
    (sort_by (λ a b, negb (cmp b a)) (map snd (map_to_list (added_files st))))).

Lemma elem_of_level_list level st t f : level_state r level = Some st →
  (t, f) ∈ level_list level st ↔
  m !! file_number f = Some (level, f) ∧ (t = true ↔ is_Some (added_files st !! file_number f)).
Proof using H.
  intros Hst. pose proof (level_state_range _ _ _ Hst) as Hl. unfold level_list. rewrite elem_of_list_filter_bool, merge_tagged_perm, elem_of_app, !list_elem_of_fmap.
  assert (∀ f, f ∈ sort_by (λ a b, negb (cmp b a)) (map snd (map_to_list (added_files st))) ↔ added_files st !! file_number f = Some f) as Hadd.
  { intros g. rewrite sort_by_perm, list_elem_of_fmap. split.
    - intros ([n g'] & -> & Hg%elem_of_map_to_list). cbn. destruct (tr_wf r m H n level g' (tr_added r m H _ _ _ _ Hst Hg)) as [_ ->]. done.
    - intros Hg. exists (file_number g, g). split; [done|]. by apply elem_of_map_to_list. }
  unfold saved. cbn [fst snd]. split.
  - intros [[(f' & [= -> <-] & Hf)|(f' & [= -> <-] & Hf)] Hs]; apply andb_true_iff in Hs as [Hd%negb_true_iff%bool_decide_eq_false_1 Hs].
    + cbn [orb] in Hs. destruct (added_files st !! file_number f) eqn:Ea; [done|].
      assert (lsm_of (base_vstorage_ r) !! file_number f = Some (level, f)) as Hb by (apply lsm_of_lookup; [apply (tr_base r m H)|]; split_and!; [done|lia|done]).
      destruct (tr_gone r m H level st _ f Hst Hb Hd) as [f' Hf']. destruct (tr_live r m H level st _ f' Hst Hf') as [|[_ Hb']]; [congruence|].
      split; [congruence|]. split; [done|]. by intros [? ?].
    + apply Hadd in Hf. split; [by apply (tr_added r m H level st)|]. by rewrite Hf.
  - intros [Hm Ht]. assert (file_number f ∉ deleted_files st) as Hd by (intros Hd; by apply (tr_deleted r m H level st _ f Hst Hd)).
    destruct (tr_live r m H level st _ f Hst Hm) as [Ha|[Ha Hb]]; rewrite Ha in Ht.
    + assert (t = true) as -> by (apply Ht; eauto). split; [right; exists f; split; [done|by apply Hadd]|]. by rewrite bool_decide_eq_false_2.
    + assert (t = false) as -> by (destruct t; [destruct (proj1 Ht eq_refl); done|done]). rewrite Ha, bool_decide_eq_false_2 by done. split; [|done].
      left. exists f. split; [done|]. apply lsm_of_lookup in Hb as (_ & _ & Hb); [done|]. apply (tr_base r m H).
Qed.

Context (Hbase : ∀ level f, f ∈ LevelFiles (base_vstorage_ r) level → P f) (Hfiles : ∀ n level f, m !! n = Some (level, f) → P f).

Lemma strict_NoDup l : Forall P l → StronglySorted (λ a b, cmp a b = true) l → NoDup l.
Proof using FileOrder0.
  intros HP Hs. induction Hs as [|x l Hs IH Hx]; [constructor|]. apply Forall_cons in HP as [Px HP]. constructor; [|by apply IH].
  intros Hin. rewrite Forall_forall in Hx. pose proof (Hx x Hin) as E. pose proof (fo_asym x x Px Px E). congruence.
Qed.
Lemma level_list_NoDup level st : level_state r level = Some st →
  StronglySorted (λ a b, cmp a b = true) (LevelFiles (base_vstorage_ r) level) → NoDup (map (λ x, file_number (snd x)) (level_list level st)).
Proof using FileOrder0 H Hbase.
  intros Hst Hs. apply NoDup_fmap_2_strong.
  - intros [t f] [t' f'] Hx Hy E. cbn in E. apply (elem_of_level_list level st) in Hx as [Hx Ht], Hy as [Hy Ht']; [|done..].
    rewrite E, Hy in Hx. injection Hx as ->. f_equal. clear E. destruct t, t'; [done|by discriminate (proj2 Ht' (proj1 Ht eq_refl))|by discriminate (proj2 Ht (proj1 Ht' eq_refl))|done].
  - unfold level_list. apply NoDup_ListNoDup, List.NoDup_filter, NoDup_ListNoDup. rewrite merge_tagged_perm. apply NoDup_app. split_and!.
    + apply NoDup_fmap_2_strong; [by intros ? ? _ _ [= ->]|]. apply strict_NoDup; [|done]. apply Forall_forall. apply Hbase.
    + by intros x (a & -> & _)%list_elem_of_fmap (b & [=] & _)%list_elem_of_fmap.
    + apply NoDup_fmap_2_strong; [by intros ? ? _ _ [= ->]|]. rewrite sort_by_perm. apply NoDup_fmap_2_strong; [|apply NoDup_map_to_list].
      intros [n f] [n' f'] Hn%elem_of_map_to_list Hn'%elem_of_map_to_list E. cbn in E. subst f'. f_equal.
      destruct (tr_wf r m H _ _ _ (tr_added r m H _ _ _ _ Hst Hn)) as [_ <-]. by destruct (tr_wf r m H _ _ _ (tr_added r m H _ _ _ _ Hst Hn')) as [_ ?].
Qed.

Lemma SaveLevelTo_spec level st v : level_state r level = Some st →
  StronglySorted (λ a b, cmp a b = true) (LevelFiles (base_vstorage_ r) level) →
  ∃ l, SaveLevelTo r level cmp v = AddFilesTo v level l ∧ StronglySorted (λ a b, cmp a b = true) l ∧
    ∀ f, f ∈ l ↔ m !! file_number f = Some (level, f).
Proof using FileOrder0 H Hbase Hfiles.
  intros Hst Hs. exists (map snd (level_list level st)). split_and!.
  - unfold SaveLevelTo. rewrite Hst. cbn [from_option id]. by rewrite (save_files_eq r level cmp st).
  - apply (tagged_strict (P := P)).
    + apply Forall_forall. intros [t f] Hf. apply elem_of_level_list in Hf as [Hf _]; [|done]. by apply Hfiles in Hf.
    + by apply level_list_NoDup.
    + apply StronglySorted_list_filter, (merge_tagged_sorted (P := P)).
      * apply Forall_forall, Hbase.
      * rewrite sort_by_perm. apply Forall_map, Forall_forall. intros [n f] Hf%elem_of_map_to_list. cbn. by apply (Hfiles n level), (tr_added r m H level st).
      * assert (Forall P (LevelFiles (base_vstorage_ r) level)) as HP by apply Forall_forall, Hbase. revert HP. clear -Hs FileOrder0.
        induction Hs as [|x l Hs IH Hx]; intros HP; constructor; apply Forall_cons in HP as [Px HP]; [by apply IH|].
        rewrite Forall_forall in *. intros y Hy. apply fo_asym; auto.
      * apply sort_by_file_le, Forall_map, Forall_forall. intros [n f] Hf%elem_of_map_to_list. by apply (Hfiles n level), (tr_added r m H level st).
  - intros f. rewrite list_elem_of_fmap. split.
    + intros ([t f'] & -> & Hf). by apply elem_of_level_list in Hf as [Hf _].
    + intros Hf. exists (bool_decide (is_Some (added_files st !! file_number f)), f). split; [done|]. apply elem_of_level_list; [done|].
      split; [done|]. by rewrite bool_decide_eq_true.
Qed.
End SaveLevel.

(** ** All levels *)

Lemma LevelFiles_AddFilesTo v level l level' : 0 <= level < num_levels v → 0 <= level' →
  LevelFiles (AddFilesTo v level l) level' = if level' =? level then LevelFiles v level' ++ l else LevelFiles v level'.
Proof.
  intros Hl Hl'. unfold LevelFiles, AddFilesTo, num_levels in *. cbn. destruct (Z.eqb_spec level' level) as [->|Hne].
  - rewrite list_lookup_alter_eq. destruct (lookup_lt_is_Some_2 (files_ v) (Z.to_nat level)) as [x ->]; [lia|]. done.
  - by rewrite list_lookup_alter_ne by lia.
Qed.
Lemma num_levels_AddFilesTo v level l : num_levels (AddFilesTo v level l) = num_levels v.
Proof. unfold num_levels. cbn. by rewrite length_alter. Qed.

Section SaveAll.
Context (wf : bytes → Prop) (c : Comparator) `{!ComparatorLaws wf c}.
Context (r : Rep) (m : Lsm) (H : tracks r m).
Context (Hbase : ∀ level f, f ∈ LevelFiles (base_vstorage_ r) level → keys_ok wf f) (Hfiles : ∀ n level f, m !! n = Some (level, f) → keys_ok wf f).

Definition level_order (requirement : EpochNumberRequirement) (level : Z) : FileMetaData → FileMetaData → bool :=
  if level =? 0 then l0_order requirement else BySmallestKey c.
(** The level has the files of the map, in order. *)
Definition level_saved (requirement : EpochNumberRequirement) (level : Z) (files : list FileMetaData) : Prop :=
  StronglySorted (λ a b, level_order requirement level a b = true) files ∧ ∀ f, f ∈ files ↔ m !! file_number f = Some (level, f).

(** What saving table files leaves as it was *)
Record same_rest (v v' : VersionStorageInfo) : Prop := {
  sr_levels : num_levels v' = num_levels v;
  sr_blobs : blob_files_ v' = blob_files_ v;
  sr_force : force_consistency_checks_ v' = force_consistency_checks_ v;
  sr_index : file_locations_ v' = file_locations_ v
}.

Lemma save_levels_spec req n : ∀ level v, 1 <= level → level + Z.of_nat n = num_levels_ r → num_levels v = num_levels_ r →
  (∀ l, level <= l < num_levels_ r → StronglySorted (λ a b, BySmallestKey c a b = true) (LevelFiles (base_vstorage_ r) l)) →
  (∀ l, level <= l → LevelFiles v l = []) →
  let v' := save_levels c r level n v in
  same_rest v v' ∧ epoch_number_requirement_ v' = epoch_number_requirement_ v ∧
  (∀ l, 0 <= l < level → LevelFiles v' l = LevelFiles v l) ∧ (∀ l, level <= l < num_levels_ r → level_saved req l (LevelFiles v' l)).
Proof using All.
  induction n as [|n IH]; intros level v Hl Hn Hv Hs He; cbn [save_levels].
  { split_and!; [done|done|done|lia]. }
  destruct (level_state_some r level) as [st Hst]; [lia|].
  destruct (SaveLevelTo_spec (P := keys_ok wf) r m H Hbase Hfiles level st v Hst) as (l & E & Hsort & Hin); [apply Hs; lia|].
  rewrite E. destruct (IH (level + 1) (AddFilesTo v level l)) as ([S1 S2 S3 S4] & Er & Hlow & Hhigh); [lia|lia|by rewrite num_levels_AddFilesTo| | |].
  - intros l' Hl'. apply Hs. lia.
  - intros l' Hl'. rewrite LevelFiles_AddFilesTo by lia. rewrite (proj2 (Z.eqb_neq _ _)) by lia. apply He. lia.
  - split_and!; [split; [by rewrite S1, num_levels_AddFilesTo|done..]|done| |].
    + intros l' Hl'. rewrite Hlow, LevelFiles_AddFilesTo by lia. by rewrite (proj2 (Z.eqb_neq _ _)) by lia.
    + intros l' Hl'. destruct (Z.eq_dec l' level) as [->|]; [|apply Hhigh; lia]. rewrite Hlow, LevelFiles_AddFilesTo by lia.
      rewrite Z.eqb_refl, He by lia. unfold level_saved, level_order. by rewrite (proj2 (Z.eqb_neq _ _)) by lia.
Qed.

(** The requirement on epoch numbers that the new version has in the end *)
Definition saved_requirement (v : VersionStorageInfo) : EpochNumberRequirement :=
  match epoch_number_requirement_ v with
  | kMightMissing => epoch_number_requirement_ (PromoteEpochNumberRequirementIfNeeded r v)
  | kMustPresent => kMustPresent
  end.

Lemma SaveSSTFilesTo_spec v : 0 < num_levels_ r → num_levels v = num_levels_ r → (∀ l, LevelFiles v l = []) →
  (∀ l, 0 <= l < num_levels_ r → StronglySorted (λ a b, level_order (saved_requirement v) l a b = true) (LevelFiles (base_vstorage_ r) l)) →
  let v' := SaveSSTFilesTo c r v in
  same_rest v v' ∧ epoch_number_requirement_ v' = saved_requirement v ∧
  ∀ l, 0 <= l < num_levels_ r → level_saved (saved_requirement v) l (LevelFiles v' l).
Proof using All.
  intros Hpos Hv He Hs. unfold SaveSSTFilesTo. rewrite (proj2 (Z.eqb_neq _ _)) by lia.
  set (v1 := match epoch_number_requirement_ v with kMightMissing => _ | kMustPresent => v end).
  assert (same_rest v v1 ∧ files_ v1 = files_ v ∧ epoch_number_requirement_ v1 = saved_requirement v) as (Hr1 & Hf1 & Hq1).
  { unfold v1, saved_requirement. destruct (epoch_number_requirement_ v) eqn:E; [|done]. split_and!; [|by unfold PromoteEpochNumberRequirementIfNeeded; repeat case_match|done].
    unfold PromoteEpochNumberRequirementIfNeeded. by repeat case_match. }
  rewrite Hq1. destruct (level_state_some r 0) as [st Hst]; [lia|].
  assert (∃ l, SaveLevelTo r 0 (l0_order (saved_requirement v)) v1 = AddFilesTo v1 0 l ∧ level_saved (saved_requirement v) 0 l) as (l & E & Hl0).
  { assert (FileOrder (keys_ok wf) (l0_order (saved_requirement v))) as Ho.
    { destruct (saved_requirement v); split; intros; [eapply (fo_asym (P := λ _, True))|eapply (fo_trans (P := λ _, True))|eapply (fo_total (P := λ _, True))|
        eapply (fo_asym (P := λ _, True))|eapply (fo_trans (P := λ _, True))|eapply (fo_total (P := λ _, True))]; done. }
    destruct (SaveLevelTo_spec (P := keys_ok wf) r m H Hbase Hfiles 0 st v1 Hst (Hs 0 ltac:(lia))) as (l & E & Hl). by exists l. }
  fold (l0_order (saved_requirement v)). rewrite E. clear E.
  assert (∀ l', LevelFiles v1 l' = []) as He1 by (intros l'; unfold LevelFiles; rewrite Hf1; apply He).
  assert (num_levels v1 = num_levels_ r) as Hn1 by (unfold num_levels; rewrite Hf1; exact Hv).
  destruct (save_levels_spec (saved_requirement v) (Z.to_nat (num_levels_ r - 1)) 1 (AddFilesTo v1 0 l)) as ([S1 S2 S3 S4] & Er & Hlow & Hhigh);
    [lia|lia|by rewrite num_levels_AddFilesTo| | |].
  - intros l' Hl'. specialize (Hs l' ltac:(lia)). unfold level_order in Hs. by rewrite (proj2 (Z.eqb_neq _ _)) in Hs by lia.
  - intros l' Hl'. rewrite LevelFiles_AddFilesTo, He1 by lia. by rewrite (proj2 (Z.eqb_neq _ _)) by lia.
  - destruct Hr1 as [R1 R2 R3 R4]. split_and!; [split; rewrite ?S1, ?S2, ?S3, ?S4, ?num_levels_AddFilesTo; done|by rewrite Er|].
    intros l' Hl'. destruct (Z.eq_dec l' 0) as [->|]; [|apply Hhigh; lia]. rewrite Hlow, LevelFiles_AddFilesTo, He1 by lia. done.
Qed.
End SaveAll.
