(* ===== verification/VersionBuilderRefines.v ===== *)
(** * Edits and saving together

    Applying version edits to a version builder and saving it into a new version is
    applying the edits to the maps of table files and blob files of the base. *)

From S2P Require Import Prelude SortedLists Status Comparator DbFormat WalEdit VersionEdit VersionStorage VersionStorageCorrect.
From S2P Require Import VersionBuilder VersionBuilderCorrect VersionBuilderBlobs VersionBuilderSave.
From stdpp Require Import gmap pretty.
From Stdlib Require Import Sorting.Sorted.
#[local] Open Scope Z_scope.

(** The table files and the blob files *)
Definition Contents : Type := gmap Z (Z * FileMetaData) * gmap Z (BlobFileAddition * (Z * Z)).
Definition edit_contents (st : Contents) (e : VersionEdit) : option Contents :=
  b ← each blob_add (snd st) (blob_file_additions_ e);
  b ← each blob_garbage b (blob_file_garbages_ e);
  m ← lsm_apply (fst st) e;
  Some (m, b).

Definition contents_of (v : VersionStorageInfo) : Contents :=
  (lsm_of v, list_to_map (map (λ x, (BlobFileMetaData.GetBlobFileNumber x,
     (BlobFileMetaData.shared_meta_ x, (BlobFileMetaData.garbage_blob_count_ x, BlobFileMetaData.garbage_blob_bytes_ x)))) (blob_files_ v))).

Section Refines.
Context (wf : bytes → Prop) (c : Comparator) `{!ComparatorLaws wf c}.

(** An edit that the database may write on top of these table files, on [k] levels:
    levels are not negative, keys can be ordered, and blob files are added before
    the table files that refer to them. *)
Record edit_fits (k : Z) (m : Lsm) (e : VersionEdit) : Prop := {
  ef_deleted : Forall (λ d, 0 <= fst d) (deleted_files_ e);
  ef_new : Forall (λ n, 0 <= fst n ∧ keys_ok wf (snd n)) (new_files_ e);
  ef_cursors : Forall (λ x, 0 <= fst x) (compact_cursors_ e);
  ef_blobs : Forall (λ a, blob_wf (blob_file_number_ a) (a, (0, 0)) ∧ linked_in k m (blob_file_number_ a) = ∅) (blob_file_additions_ e);
  ef_garbage : Forall (λ g, 0 <= garbage_blob_count_ g < 2 ^ 63 ∧ 0 <= garbage_blob_bytes_ g < 2 ^ 63) (blob_file_garbages_ e)
}.
Fixpoint edits_fit (k : Z) (st : Contents) (es : list VersionEdit) : Prop :=
  match es with
  | [] => True
  | e :: es => edit_fits k (fst st) e ∧ match edit_contents st e with Some st => edits_fit k st es | None => True end
  end.

(** The builder holds these files on top of the base version. *)
Record holds (base : VersionStorageInfo) (r : Rep) (m : Lsm) (b : gmap Z (BlobFileAddition * (Z * Z))) : Prop := {
  ho_base : base_vstorage_ r = base;
  ho_files : tracks r m;
  ho_blobs : tracks_blobs r m b;
  ho_keys : ∀ n l f, m !! n = Some (l, f) → keys_ok wf f
}.

Section Steps.
Context (base : VersionStorageInfo).

Lemma ho_levels r m b : holds base r m b → num_levels_ r = num_levels base.
Proof using. intros [E H _ _]. unfold num_levels_, num_levels. by rewrite (tr_length r m H), E. Qed.
Lemma holds_same r r' m b b' : holds base r m b → same_files r r' → tracks_blobs r' m b' → holds base r' m b'.
Proof using.
  intros [H1 H2 _ H4] Hs Hb. split; [by rewrite (sf_base _ _ Hs)|by apply (same_files_tracks r)|done|done].
Qed.

(** A result of the builder, and of the same on the maps *)
Definition agrees {S} (rel : Rep → S → Prop) (x : option (Status * Rep)) (spec : option S) : Prop :=
  ∃ s r, x = Some (s, r) ∧ match spec with None => IsCorruption s = true | Some st => s = Status_OK ∧ rel r st end.

Lemma corruption_not_ok s : IsCorruption s = true → ok s = false.
Proof using. unfold ok, IsCorruption. by destruct (code_ s). Qed.
Lemma and_then_agrees {S T} (rel : Rep → S → Prop) (rel' : Rep → T → Prop) x spec k kspec : agrees rel x spec →
  (∀ r st, rel r st → agrees rel' (k r) (kspec st)) → agrees rel' (and_then x k) (st ← spec; kspec st).
Proof using.
  intros (s & r & -> & Hs) Hk. unfold and_then. cbn. destruct spec as [st|]; cbn.
  - destruct Hs as [-> Hr]. by apply Hk.
  - exists s, r. by rewrite corruption_not_ok.
Qed.

(** A loop that applies parts of an edit, and the same on the maps *)
Lemma apply_each_agrees {A S} (rel : Rep → S → Prop) (apply : Rep → A → option (Status * Rep)) (spec : S → A → option S) (fits : A → Prop) :
  (∀ r st x, rel r st → fits x → agrees rel (apply r x) (spec st x)) →
  ∀ l r st, rel r st → Forall fits l → agrees rel (apply_each apply r l) (each spec st l).
Proof using.
  intros Hx. induction l as [|x l IH]; intros r st Hr Hl; [by exists Status_OK, r|]. apply Forall_cons in Hl as [Hxf Hl].
  apply (and_then_agrees rel rel (apply r x) (spec st x) (λ r, apply_each apply r l) (λ st, each spec st l)); [by apply Hx|]. intros r' st' Hr'. by apply IH.
Qed.

Lemma blob_addition_step m r b a : holds base r m b → blob_wf (blob_file_number_ a) (a, (0, 0)) ∧ linked_in (num_levels base) m (blob_file_number_ a) = ∅ →
  agrees (λ r b, holds base r m b) (Some (ApplyBlobFileAddition r a)) (blob_add b a).
Proof using.
  intros Hr [Ha Hl]. rewrite <- (ho_levels r m b Hr) in Hl. pose proof (ApplyBlobFileAddition_spec r m b a (ho_blobs _ _ _ _ Hr) Ha Hl) as Hs.
  destruct (blob_add b a) as [b'|].
  - destruct Hs as (r' & -> & Hb' & Hsame). exists Status_OK, r'. split_and!; [done..|]. by apply (holds_same r r' m b).
  - destruct (ApplyBlobFileAddition r a) as [s r']. by exists s, r'.
Qed.
Lemma blob_garbage_step m r b g : holds base r m b → 0 <= garbage_blob_count_ g < 2 ^ 63 ∧ 0 <= garbage_blob_bytes_ g < 2 ^ 63 →
  agrees (λ r b, holds base r m b) (Some (ApplyBlobFileGarbage r g)) (blob_garbage b g).
Proof using.
  intros Hr [Hc Hs]. pose proof (ApplyBlobFileGarbage_spec r m b g (ho_blobs _ _ _ _ Hr) Hc Hs) as Hg.
  destruct (blob_garbage b g) as [b'|].
  - destruct Hg as (r' & -> & Hb' & Hsame). exists Status_OK, r'. split_and!; [done..|]. by apply (holds_same r r' m b).
  - destruct (ApplyBlobFileGarbage r g) as [s r']. by exists s, r'.
Qed.
Lemma base_deletion r l n f : base_vstorage_ (deletion r l n f) = base_vstorage_ r.
Proof using. unfold deletion. destruct (level_state r l); [|done]. exact (sf_base _ _ (same_files_with_blob_file _ _ _)). Qed.
Lemma base_addition r l f : base_vstorage_ (addition r l f) = base_vstorage_ r.
Proof using. unfold addition. destruct (level_state r l); [|done]. exact (sf_base _ _ (same_files_with_blob_file _ _ _)). Qed.

Lemma deletion_step b r m d : holds base r m b → 0 <= fst d →
  agrees (λ r m, holds base r m b) (ApplyFileDeletion r (fst d) (snd d)) (lsm_delete m d).
Proof using.
  intros [E Ht Hb Hk] Hd. destruct d as [l n]. pose proof (ApplyFileDeletion_spec r m l n Ht Hd) as Hs.
  destruct (lsm_delete m (l, n)) as [m'|]; [|done]. destruct Hs as (f & Hn & -> & Ha). cbn [fst snd]. rewrite Ha. do 2 eexists. split_and!; [done..|]. split.
  - by rewrite base_deletion.
  - by apply tracks_deletion.
  - by apply tracks_blobs_deletion.
  - intros n' l' f' [_ Hf]%lookup_delete_Some. by apply (Hk n' l').
Qed.
Lemma addition_step b r m x : holds base r m b → 0 <= fst x ∧ keys_ok wf (snd x) →
  agrees (λ r m, holds base r m b) (ApplyFileAddition r (fst x) (snd x)) (lsm_add m x).
Proof using.
  intros [E Ht Hb Hk] [Hx Hkx]. destruct x as [l f]. pose proof (ApplyFileAddition_spec r m l f Ht Hx) as Hs.
  destruct (lsm_add m (l, f)) as [m'|]; [|done]. destruct Hs as (Hn & -> & Ha). cbn [fst snd]. rewrite Ha. do 2 eexists. split_and!; [done..|]. split.
  - by rewrite base_addition.
  - by apply tracks_addition.
  - by apply tracks_blobs_addition.
  - intros n' l' f' [[_ [= <- <-]]|[_ Hf]]%lookup_insert_Some; [done|]. by apply (Hk n' l').
Qed.
Lemma cursor_step m b r x : holds base r m b → 0 <= fst x →
  agrees (λ r _, holds base r m b) (Some (ApplyCompactCursors r (fst x) (snd x))) (Some tt).
Proof using.
  intros [E Ht Hb Hk] Hx. unfold ApplyCompactCursors. rewrite (proj2 (Z.ltb_ge _ _)) by done.
  destruct (fst x <? num_levels_ r); [|by eexists _, _]. do 2 eexists. split_and!; [done..|]. split; [done| |by apply (tracks_blobs_same r)|done].
  by apply (same_files_tracks r).
Qed.

Lemma apply_edit r st e : ok (CheckConsistency c (num_levels base) base) = true → holds base r (fst st) (snd st) →
  edit_fits (num_levels base) (fst st) e → agrees (λ r st, holds base r (fst st) (snd st)) (Apply c r e) (edit_contents st e).
Proof using.
  intros Hc Hr [F1 F2 F3 F4 F5]. destruct st as [m b]. cbn [fst snd] in *. unfold Apply, edit_contents, lsm_apply.
  rewrite (ho_levels r m b Hr), (ho_base _ _ _ _ Hr), Hc. cbn [negb fst snd].
  apply (and_then_agrees (λ r b, holds base r m b)); [by apply (apply_each_agrees _ _ _ _ (λ r b a, blob_addition_step m r b a))|].
  intros r1 b1 Hr1. apply (and_then_agrees (λ r b, holds base r m b)); [by apply (apply_each_agrees _ _ _ _ (λ r b g, blob_garbage_step m r b g))|].
  intros r2 b2 Hr2. rewrite option_bind_assoc. apply (and_then_agrees (λ r m, holds base r m b2)); [by apply (apply_each_agrees _ _ _ _ (λ r m d, deletion_step b2 r m d))|].
  intros r3 m3 Hr3. apply (and_then_agrees (λ r m, holds base r m b2)); [by apply (apply_each_agrees _ _ _ _ (λ r m x, addition_step b2 r m x))|].
  intros r4 m4 Hr4. destruct (apply_each_agrees (λ r _, holds base r m4 b2) _ (λ _ _, Some tt) _ (λ r _ x, cursor_step m4 b2 r x) (compact_cursors_ e) r4 tt Hr4 F3)
    as (s5 & r5 & -> & H5). exists s5, r5. split; [done|]. assert (∀ l, each (λ (_ : unit) (_ : Z * bytes), Some tt) tt l = Some tt) as E by (induction l; done).
  by rewrite E in H5.
Qed.

Lemma apply_edits es : ok (CheckConsistency c (num_levels base) base) = true → ∀ r st, holds base r (fst st) (snd st) → edits_fit (num_levels base) st es →
  agrees (λ r st, holds base r (fst st) (snd st)) (apply_each (Apply c) r es) (each edit_contents st es).
Proof using.
  intros Hc. induction es as [|e es IH]; intros r st Hr Hf; [by exists Status_OK, r|]. destruct Hf as [He Hf].
  destruct (apply_edit r st e Hc Hr He) as (s & r' & E & Hs). unfold agrees. cbn [apply_each each]. rewrite E. cbn [mbind option_bind].
  destruct (edit_contents st e) as [st'|]; cbn [mbind option_bind].
  - destruct Hs as [-> Hr']. by apply IH.
  - exists s, r'. by rewrite corruption_not_ok.
Qed.
End Steps.

(** ** The base version *)

(** A base version whose index has been generated, which is well formed and has at
    least one level *)
Record base_wf (base : VersionStorageInfo) : Prop := {
  bo_levels : files_ base ≠ [];
  bo_storage : storage_ok base;
  bo_wf : version_wf c base;
  bo_keys : ∀ level f, f ∈ LevelFiles base level → keys_ok wf f;
  bo_sorted : blobs_sorted base;
  bo_blobs : ∀ x, x ∈ blob_files_ base → blob_wf (BlobFileMetaData.GetBlobFileNumber x)
    (BlobFileMetaData.shared_meta_ x, (BlobFileMetaData.garbage_blob_count_ x, BlobFileMetaData.garbage_blob_bytes_ x))
}.
(** The new version on top of it has the same number of levels. Unless level 0 is
    empty, both have epoch numbers for all files. *)
Record base_ok (base : VersionStorageInfo) (requirement : EpochNumberRequirement) : Prop := {
  bo_base : base_wf base;
  bo_l0 : LevelFiles base 0 = [] ∨ epoch_number_requirement_ base = kMustPresent ∧ requirement = kMustPresent
}.

Lemma elem_of_levels_from v n : ∀ level f, f ∈ levels_from v level n ↔ ∃ l, level <= l < level + Z.of_nat n ∧ f ∈ LevelFiles v l.
Proof using.
  induction n as [|n IH]; intros level f; cbn [levels_from]; [split; [by intros ?%elem_of_nil|intros (l & Hl & _); lia]|].
  rewrite elem_of_app, IH. split.
  - intros [Hf|(l & Hl & Hf)]; [exists level; split; [lia|done]|exists l; split; [lia|done]].
  - intros (l & Hl & Hf). destruct (Z.eq_dec l level) as [->|]; [by left|]. right. exists l. split; [lia|done].
Qed.
Lemma LevelFiles_range v l f : f ∈ LevelFiles v l → 0 <= l → l < num_levels v.
Proof using.
  unfold LevelFiles, num_levels. destruct (files_ v !! Z.to_nat l) eqn:E; [|by intros ?%elem_of_nil]. intros _ Hl. apply lookup_lt_Some in E. lia.
Qed.

Section Base.
Context (base : VersionStorageInfo) (requirement : EpochNumberRequirement) (Hb : base_ok base requirement).

Lemma base_linked x : x ∈ blob_files_ base →
  BlobFileMetaData.linked_ssts_ x = linked_in (num_levels base) (lsm_of base) (BlobFileMetaData.GetBlobFileNumber x).
Proof using Hb.
  intros Hx. destruct (vw_blobs c base (bo_wf _ (bo_base _ _ Hb)) x Hx) as [_ Hl]. apply set_eq. intros n. rewrite Hl, elem_of_linked_in. unfold links_of.
  destruct (bo_blobs _ (bo_base _ _ Hb) x Hx) as [Hpos _]. pose proof (so_numbers _ (bo_storage _ (bo_base _ _ Hb))) as Hn. split.
  - intros (_ & f & (l & Hl' & Hf)%elem_of_levels_from & <- & Ho). exists l, f. split_and!; [|unfold num_levels; lia|done].
    apply lsm_of_lookup; [done|]. split_and!; [done|lia|done].
  - intros (l & f & (-> & Hl0 & Hf)%lsm_of_lookup & Hlt & Ho); [|done]. split; [unfold kInvalidBlobFileNumber; lia|]. exists f. split_and!; [|done..].
    apply elem_of_levels_from. exists l. split; [unfold num_levels in Hlt; lia|done].
Qed.

Lemma NewRep_tracks : tracks (NewRep base) (lsm_of base).
Proof using Hb.
  assert (∀ l st, level_state (NewRep base) l = Some st → st = mkLevelState ∅ ∅) as Hst.
  { intros l st. unfold level_state. destruct (l <? 0); [done|]. cbn. by intros [-> _]%lookup_replicate. }
  pose proof (so_numbers _ (bo_storage _ (bo_base _ _ Hb))) as Hn. split; try done.
  - cbn. by rewrite length_replicate.
  - apply Hb.
  - intros n. unfold GetCurrentLevelForTableFile. cbn. rewrite lookup_empty. by apply GetFileLevel_lsm, Hb.
  - intros n l f (-> & Hl & _)%lsm_of_lookup; done.
  - intros l st n f ->%Hst. cbn [added_files]. by rewrite lookup_empty.
  - intros l st n f ->%Hst. cbn [deleted_files]. by intros ?%elem_of_empty.
  - intros l st n f ->%Hst Hf. right. cbn [added_files]. by rewrite lookup_empty.
  - intros l st n f _ Hf _. eauto.
  - intros l Hl. cbn. rewrite lookup_empty. cbn. symmetry. assert (count_at (lsm_of base) l = 0%nat) as ->; [|done].
    apply count_at_0. intros n f (-> & Hl0 & Hf)%lsm_of_lookup; [|done]. apply LevelFiles_range in Hf; [|done].
    unfold num_levels_, NewRep in Hl. cbn in Hl. rewrite length_replicate in Hl. unfold num_levels in Hf. lia.
Qed.

Lemma contents_blob n : snd (contents_of base) !! n = (λ x, (BlobFileMetaData.shared_meta_ x, (BlobFileMetaData.garbage_blob_count_ x, BlobFileMetaData.garbage_blob_bytes_ x))) <$> blobs_of base !! n.
Proof using. unfold contents_of, blobs_of. cbn [snd]. rewrite <- lookup_fmap, <- list_to_map_fmap, map_map. done. Qed.
Lemma NewRep_tracks_blobs : tracks_blobs (NewRep base) (lsm_of base) (snd (contents_of base)).
Proof using Hb.
  assert (num_levels_ (NewRep base) = num_levels base) as Hk by (unfold num_levels_, NewRep, num_levels; cbn; rewrite length_replicate; lia).
  split; [apply Hb| | |].
  - intros n. rewrite contents_blob. unfold blob_meta, NewRep at 1 2. cbn [mutable_blob_file_metas_ base_vstorage_]. rewrite lookup_empty, GetBlobFileMetaData_lookup by apply Hb.
    destruct (blobs_of base !! n) as [x|] eqn:E; [|done]. cbn. f_equal. apply blobs_of_lookup in E as [Hx <-]; [|apply Hb].
    unfold meta_in. rewrite Hk, <- (base_linked x Hx). by destruct x.
  - intros n y. rewrite contents_blob. intros (x & [Hx <-]%blobs_of_lookup & ->)%fmap_Some; [|apply Hb]. by apply (bo_blobs _ (bo_base _ _ Hb)).
  - intros n x mm _. unfold NewRep. cbn [mutable_blob_file_metas_]. by rewrite lookup_empty.
Qed.
Lemma NewRep_holds : holds base (NewRep base) (lsm_of base) (snd (contents_of base)).
Proof using Hb.
  split; [done|apply NewRep_tracks|apply NewRep_tracks_blobs|]. intros n l f (_ & _ & Hf)%lsm_of_lookup; [|apply (so_numbers _ (bo_storage _ (bo_base _ _ Hb)))]. by apply (bo_keys _ (bo_base _ _ Hb) l).
Qed.
Lemma base_consistent : ok (CheckConsistency c (num_levels base) base) = true.
Proof using All.
  apply ok_CheckConsistency. intros _. apply (CheckConsistencyDetails_exact wf c); [apply Hb| |apply Hb]. intros f (l & _ & Hf)%elem_of_levels_from. by apply (bo_keys _ (bo_base _ _ Hb) l).
Qed.

(** ** Saving *)

Lemma SaveCompactCursorsTo_rest r v : let v' := SaveCompactCursorsTo r v in
  files_ v' = files_ v ∧ blob_files_ v' = blob_files_ v ∧ force_consistency_checks_ v' = force_consistency_checks_ v ∧
  epoch_number_requirement_ v' = epoch_number_requirement_ v ∧ file_locations_ v' = file_locations_ v.
Proof using.
  unfold SaveCompactCursorsTo. generalize (map_to_list (updated_compact_cursors_ r)). intros l. revert v.
  induction l as [|x l IH]; intros v; [done|]. cbn [fold_left]. apply (IH (AddCursorForOneLevel v x.1 x.2)).
Qed.

(** The version has the files of the maps. *)
Record saves (m : Lsm) (b : gmap Z (BlobFileAddition * (Z * Z))) (v : VersionStorageInfo) : Prop := {
  sv_levels : num_levels v = num_levels base;
  sv_files : ∀ l, 0 <= l < num_levels base → level_saved c m (epoch_number_requirement_ v) l (LevelFiles v l);
  sv_blobs : blob_files_ v = kept (metas (num_levels base) m b);
  sv_index : file_locations_ v = ∅
}.

Abbreviation new_version force := (NewVersionStorageInfo (length (files_ base)) (Some base) force requirement).

Lemma SaveTo_saves r m b force : holds base r m b → let '(s, v) := SaveTo c r (new_version force) in
  saves m b v ∧ (ok s = true ↔ (force = true → version_wf c v)) ∧ epoch_number_requirement_ v = saved_requirement r (new_version force).
Proof using All.
  intros Hr. pose proof (ho_levels base r m b Hr) as Hk. destruct Hr as [Eb Ht Hbl Hkeys]. unfold SaveTo.
  assert (∀ l, LevelFiles (new_version force) l = []) as He.
  { intros l. unfold LevelFiles, NewVersionStorageInfo. cbn [files_]. destruct (replicate _ _ !! _) eqn:E; [|done]. by apply lookup_replicate in E as [-> _]. }
  assert (ok (CheckConsistency c (num_levels_ r) (new_version force)) = true) as ->.
  { apply ok_CheckConsistency. intros _. by rewrite CheckConsistencyDetails_empty. }
  assert (num_levels (new_version force) = num_levels_ r) as Hn by (rewrite Hk; unfold num_levels, NewVersionStorageInfo; cbn; by rewrite length_replicate).
  assert (0 < num_levels base) as Hpos by (pose proof (bo_levels _ (bo_base _ _ Hb)); unfold num_levels; destruct (files_ base); [done|cbn; lia]).
  destruct (SaveSSTFilesTo_spec wf c r m Ht) with (v := new_version force) as ([S1 S2 S3 S4] & Er & Hl);
    [intros l f; rewrite Eb; apply (bo_keys _ (bo_base _ _ Hb))|done|lia|done|done| |].
  { intros l Hl. rewrite Eb. unfold level_order. destruct (Z.eqb_spec l 0) as [->|].
    - destruct (bo_l0 _ _ Hb) as [->|[E1 E2]]; [constructor|]. unfold saved_requirement. cbn [epoch_number_requirement_ NewVersionStorageInfo].
      rewrite E2, <- E1. apply (vw_l0 c base (bo_wf _ (bo_base _ _ Hb))).
    - eapply StronglySorted_weaken; [|apply (vw_level c base (bo_wf _ (bo_base _ _ Hb)) l)]; [by intros a b' [? _]|lia]. }
  cbn [negb]. set (v1 := SaveSSTFilesTo c r (new_version force)) in *. rewrite (SaveBlobFilesTo_eq r m b Hbl v1).
  destruct (SaveCompactCursorsTo_rest r (set_blob_files v1 (blob_files_ v1 ++ kept (metas (num_levels_ r) m b)))) as (C1 & C2 & C3 & C4 & C5).
  set (v := SaveCompactCursorsTo r _) in *. cbn [files_ blob_files_ force_consistency_checks_ epoch_number_requirement_ set_blob_files] in *.
  assert (saves m b v) as Hv.
  { split; [unfold num_levels in *; rewrite C1; lia| |by rewrite C2, S2, Hk|by rewrite C5; cbn; rewrite S4]. intros l Hl'. unfold LevelFiles. rewrite C1, C4, Er. apply Hl. lia. }
  split_and!; [done| |by rewrite C4, Er]. rewrite ok_CheckConsistency, C3, S3. cbn [force_consistency_checks_ NewVersionStorageInfo].
  rewrite Hk, <- (sv_levels m b v Hv), (CheckConsistencyDetails_exact wf c); [done| |].
  - intros E. pose proof (sv_levels m b v Hv) as E'. unfold num_levels in E', Hpos. rewrite E in E'. cbn in E'. lia.
  - intros f (l & Hl' & Hf)%elem_of_levels_from.
    destruct (sv_files m b v Hv l) as [_ Hin]; [rewrite <- (sv_levels m b v Hv); unfold num_levels; lia|]. by apply Hin, Hkeys in Hf.
Qed.

(** The levels that a version has *)
Definition valid_levels (m : Lsm) : Lsm := filter (λ p, fst (snd p) < num_levels base) m.

Lemma level_order_irrefl req l f : keys_ok wf f → level_order c req l f f = true → False.
Proof using All.
  intros Hf E. assert (level_order c req l f f = false) as E'; [|congruence]. unfold level_order in *. destruct (l =? 0).
  - destruct req; by apply (fo_asym (P := λ _, True)).
  - by apply (fo_asym (P := keys_ok wf)).
Qed.
Lemma located_NoDup (m : Lsm) levels : ∀ level, (∀ i files, levels !! i = Some files →
    NoDup files ∧ ∀ f, f ∈ files → m !! file_number f = Some (level + Z.of_nat i, f)) →
  NoDup (map fst (located level levels)).
Proof using.
  induction levels as [|files levels IH]; intros level Hl; [constructor|]. cbn [located]. rewrite map_app, map_map. cbn [fst].
  destruct (Hl 0%nat files eq_refl) as [Hnd Hm]. apply NoDup_app. split_and!.
  - apply NoDup_fmap_2_strong; [|done]. intros f f' Hf Hf' E. apply Hm in Hf. apply Hm in Hf'. congruence.
  - intros n (f & -> & Hf)%list_elem_of_fmap ([n' [l' f']] & E & (-> & Hle & files' & Hfs & Hf')%elem_of_located)%list_elem_of_fmap. cbn in E.
    apply Hm in Hf. destruct (Hl (S (Z.to_nat (l' - (level + 1)))) files' Hfs) as [_ Hm']. apply Hm' in Hf'. rewrite E in Hf. rewrite Hf' in Hf. injection Hf. lia.
  - apply IH. intros i fs Hi. destruct (Hl (S i) fs Hi) as [Hn' Hm']. split; [done|]. intros f Hf. rewrite (Hm' f Hf). do 2 f_equal. lia.
Qed.

Section Saved.
Context (r : Rep) (m : Lsm) (b : gmap Z (BlobFileAddition * (Z * Z))) (v : VersionStorageInfo).
Context (Hr : holds base r m b) (Hv : saves m b v).

Lemma saved_numbers : NoDup (map fst (located 0 (files_ v))).
Proof using All.
  apply (located_NoDup m). intros i files Hi. destruct (sv_files m b v Hv (Z.of_nat i)) as [Hs Hin].
  { rewrite <- (sv_levels m b v Hv). unfold num_levels. apply lookup_lt_Some in Hi. lia. }
  unfold LevelFiles in Hs, Hin. rewrite Nat2Z.id, Hi in Hs, Hin. cbn [default from_option id] in Hs, Hin. split; [|intros f Hf; by apply Hin].
  eapply StronglySorted_NoDup; [|exact Hs]. intros f Hf E. eapply level_order_irrefl, E. apply Hin, (ho_keys _ _ _ _ Hr) in Hf. done.
Qed.
Lemma saved_lsm : lsm_of v = valid_levels m.
Proof using All.
  apply map_eq. intros n. apply option_eq. intros [l f]. rewrite lsm_of_lookup by apply saved_numbers. unfold valid_levels. rewrite map_lookup_filter_Some. cbn [fst snd]. split.
  - intros (-> & Hl & Hf). assert (l < num_levels base) by (rewrite <- (sv_levels m b v Hv); by eapply LevelFiles_range). split; [|done].
    by apply (sv_files m b v Hv l).
  - intros [Hn Hl]. destruct (tr_wf _ _ (ho_files _ _ _ _ Hr) n l f Hn) as [Hl0 Hfn]. split_and!; [done|done|]. apply (sv_files m b v Hv l); [done|]. by rewrite Hfn.
Qed.
(** The index generated for the new version locates its files. *)
Lemma saved_storage : storage_ok (GenerateFileLocationIndex v).
Proof using All.
  split; [apply saved_numbers|]. unfold GenerateFileLocationIndex. cbn [file_locations_ set_locations files_]. by rewrite (sv_index m b v Hv).
Qed.

Lemma metas_in_number x : x ∈ metas (num_levels base) m b → ∃ y, b !! BlobFileMetaData.GetBlobFileNumber x = Some y ∧
  x = meta_in (num_levels base) m (BlobFileMetaData.GetBlobFileNumber x) y.
Proof using Hr.
  rewrite <- (ho_levels base r m b Hr), (elem_of_metas r m b (ho_blobs _ _ _ _ Hr)), (tb_meta r m b (ho_blobs _ _ _ _ Hr)).
  intros (y & Hy & E)%fmap_Some. by exists y.
Qed.
(** A blob file to which a table file of the version refers stays. *)
Lemma linked_blob_kept n l f y : m !! n = Some (l, f) → l < num_levels base → b !! oldest_blob_file_number f = Some y →
  ∃ x, x ∈ blob_files_ v ∧ BlobFileMetaData.GetBlobFileNumber x = oldest_blob_file_number f ∧ n ∈ BlobFileMetaData.linked_ssts_ x.
Proof using Hr Hv.
  intros Hn Hl Hy. rewrite (sv_blobs m b v Hv), <- (ho_levels base r m b Hr). set (x := meta_in (num_levels_ r) m (oldest_blob_file_number f) y).
  pose proof (meta_number_in r m b (ho_blobs _ _ _ _ Hr) _ _ Hy) as Hx. fold x in Hx.
  assert (n ∈ BlobFileMetaData.linked_ssts_ x) as Hlink by (apply elem_of_linked_in; exists l, f; by rewrite (ho_levels base r m b Hr)).
  assert (has_links x = true) as Hh by (unfold has_links; rewrite bool_decide_eq_false_2; [done|]; intros E; by rewrite E in Hlink).
  exists x. split_and!; [|done|done]. unfold kept. apply elem_of_list_filter_bool.
  assert (x ∈ metas (num_levels_ r) m b) as Hin by (apply (elem_of_metas r m b (ho_blobs _ _ _ _ Hr)); rewrite Hx, (tb_meta r m b (ho_blobs _ _ _ _ Hr)), Hy; done).
  split; [done|]. rewrite Hh, andb_true_r. apply Z.leb_le. unfold oldest_linked.
  pose proof (metas_sorted r m b (ho_blobs _ _ _ _ Hr)) as Hs. induction Hs as [|z zs Hs IH Hz]; [by apply elem_of_nil in Hin|].
  cbn [List.find]. rewrite Forall_forall in Hz. apply elem_of_cons in Hin as [<-|Hin]; [by rewrite Hh|]. destruct (has_links z); [|by apply IH].
  specialize (Hz x Hin). unfold by_number in Hz. lia.
Qed.

Lemma levels_from_index w n : ∀ level, levels_from (GenerateFileLocationIndex w) level n = levels_from w level n.
Proof using. induction n as [|n IH]; intros level; [done|]. cbn [levels_from]. by rewrite IH. Qed.
Lemma version_wf_index w : version_wf c w → version_wf c (GenerateFileLocationIndex w).
Proof using. intros [W1 W2 W3 W4]. split; [exact W1|exact W2|exact W3|]. rewrite levels_from_index. exact W4. Qed.
(** The new version, once its index is generated, is a base for a next builder. *)
Lemma saved_base : version_wf c v → base_wf (GenerateFileLocationIndex v).
Proof using All.
  intros Hwf. pose proof (sv_levels m b v Hv) as Hl. split; [|apply saved_storage|by apply version_wf_index| | |].
  - pose proof (bo_levels _ (bo_base _ _ Hb)) as Hne. unfold GenerateFileLocationIndex, num_levels in *. cbn. intros E. rewrite E in Hl. by destruct (files_ base).
  - intros l f Hf. change (f ∈ LevelFiles v l) in Hf. assert (0 <= l < num_levels base ∨ LevelFiles v l = LevelFiles v 0) as [Hr'|E].
    { unfold LevelFiles. destruct (Z_lt_le_dec l 0); [right; by rewrite !Z2Nat.nonpos by lia|left]. split; [done|]. rewrite <- Hl. by eapply LevelFiles_range. }
    + by apply (sv_files m b v Hv l Hr'), (ho_keys _ _ _ _ Hr) in Hf.
    + rewrite E in Hf. apply (sv_files m b v Hv 0), (ho_keys _ _ _ _ Hr) in Hf; [done|]. rewrite <- Hl. split; [done|]. by eapply LevelFiles_range.
  - unfold blobs_sorted. change (blob_files_ (GenerateFileLocationIndex v)) with (blob_files_ v). rewrite (sv_blobs m b v Hv), <- (ho_levels base r m b Hr).
    apply StronglySorted_list_filter, (metas_sorted r m b (ho_blobs _ _ _ _ Hr)).
  - intros x. change (blob_files_ (GenerateFileLocationIndex v)) with (blob_files_ v). rewrite (sv_blobs m b v Hv). intros [Hx _]%elem_of_list_filter_bool.
    destruct (metas_in_number x Hx) as (y & Hy & E). pose proof (tb_wf r m b (ho_blobs _ _ _ _ Hr) _ _ Hy) as Hw. rewrite E. cbn.
    change (blob_wf (blob_file_number_ (fst y)) (fst y, (fst (snd y), snd (snd y)))). destruct y as [y1 [y2 y3]]. pose proof (proj1 (proj2 Hw)) as En. cbn [fst snd] in *. by rewrite En.
Qed.
End Saved.

Lemma CheckConsistencyForNumLevels_spec r m : tracks r m → Z.of_nat (size m) < 2 ^ 64 →
  CheckConsistencyForNumLevels r = true ↔ ∀ n l f, m !! n = Some (l, f) → l < num_levels_ r.
Proof using.
  intros H Hs. unfold CheckConsistencyForNumLevels. rewrite (tr_valid r m H). cbn [negb andb]. rewrite forallb_forall.
  assert (∀ l, num_levels_ r <= l → default 0 (invalid_level_sizes_ r !! l) = Z.of_nat (count_at m l)) as Hc.
  { intros l Hl. rewrite (tr_sizes r m H l Hl). apply wrap_small. split; [lia|]. unfold count_at.
    pose proof (map_subseteq_size _ _ (map_filter_subseteq (λ p, fst (snd p) = l) m)). lia. }
  split.
  - intros Hz n l f Hn. destruct (Z_lt_le_dec l (num_levels_ r)) as [|Hl]; [done|exfalso]. specialize (Hc l Hl).
    assert (count_at m l = 0%nat) as E; [|by apply (proj1 (count_at_0 m l) E n f)].
    destruct (invalid_level_sizes_ r !! l) as [k|] eqn:Ek; cbn in Hc; [|lia].
    specialize (Hz (l, k)). rewrite <- list_elem_of_In, elem_of_map_to_list in Hz. apply Hz, Z.eqb_eq in Ek. cbn in Ek. lia.
  - intros Hl [l k] Hk%list_elem_of_In%elem_of_map_to_list. cbn [snd]. apply Z.eqb_eq. pose proof (tr_invalid r m H l k Hk) as Hi.
    specialize (Hc l Hi). rewrite Hk in Hc. cbn in Hc. rewrite Hc. assert (count_at m l = 0%nat) as ->; [|done]. apply count_at_0.
    intros n f Hn. specialize (Hl n l f Hn). lia.
Qed.

(** C8: For edits that the database may write on top of a well-formed base version,
    the builder refines the maps of table files and blob files. Applying the edits
    returns a corruption where the maps refuse one (a file is deleted that is not
    there, added twice, or has more garbage than data) and otherwise succeeds. Then
    the check of the number of levels succeeds if and only if every file is on a level
    of the base; saving fills each level with exactly the files of the map on it, in
    order, and the blob files with those that are still needed, of which one that a
    table file refers to is never dropped; the status is OK if and only if the
    version is well formed or the check is off. A well-formed new version with epoch
    numbers is again a base for the next edits. *)
Theorem version_builder_refines es force : edits_fit (num_levels base) (contents_of base) es →
  ∃ s r, apply_each (Apply c) (NewRep base) es = Some (s, r) ∧
  match each edit_contents (contents_of base) es with
  | None => IsCorruption s = true
  | Some (m, b) => s = Status_OK ∧
      (Z.of_nat (size m) < 2 ^ 64 → CheckConsistencyForNumLevels r = true ↔ ∀ n l f, m !! n = Some (l, f) → l < num_levels base) ∧
      ∃ s' v, SaveTo c r (new_version force) = (s', v) ∧ saves m b v ∧ lsm_of v = valid_levels m ∧
        (ok s' = true ↔ (force = true → version_wf c v)) ∧
        (∀ n l f y, m !! n = Some (l, f) → l < num_levels base → b !! oldest_blob_file_number f = Some y →
          ∃ x, x ∈ blob_files_ v ∧ BlobFileMetaData.GetBlobFileNumber x = oldest_blob_file_number f ∧ n ∈ BlobFileMetaData.linked_ssts_ x) ∧
        (version_wf c v → epoch_number_requirement_ v = kMustPresent → base_ok (GenerateFileLocationIndex v) kMustPresent)
  end.
Proof using All.
  intros Hf. destruct (apply_edits base es base_consistent (NewRep base) (contents_of base) NewRep_holds Hf) as (s & r & E & Hs).
  exists s, r. split; [exact E|]. destruct (each edit_contents (contents_of base) es) as [[m b]|]; [|exact Hs]. destruct Hs as [-> Hr]. cbn [fst snd] in Hr.
  split_and!; [done| |].
  - rewrite <- (ho_levels base r m b Hr). apply CheckConsistencyForNumLevels_spec, Hr.
  - pose proof (SaveTo_saves r m b force Hr) as Hv. destruct (SaveTo c r (new_version force)) as [s' v]. destruct Hv as (Hv & Hs & _). exists s', v.
    split_and!; [done|done|by apply (saved_lsm r m b)|exact Hs|by apply (linked_blob_kept r m b)|].
    intros Hwf Eq. split; [by apply (saved_base r m b)|by right].
Qed.
End Base.
End Refines.

(** Two edits: the first adds a blob file and a table file that refers to it and
    deletes a file of level 0; the second deletes the table file that refers to the
    blob file of the base and turns the rest of that blob file into garbage. *)
Module VersionBuilderExample.
Import VersionExample.
Definition edit1 : VersionEdit :=
  AddCompactCursor (DeleteFile (AddFile (AddBlobFile Clear (blob 10)) 1 (file 11 20 4 10 101 102)) 0 6) 1 [97].
Definition edit2 : VersionEdit :=
  AddFile (DeleteFile (AddBlobFileGarbage Clear (mkBlobFileGarbage 3 3 300)) 1 4) 0 (file 12 21 5 10 97 120).

Lemma base_is_ok : base_ok bytes_ok BytewiseComparator base kMustPresent.
Proof.
  split; [split|by right].
  - discriminate.
  - split; [|vm_compute; reflexivity]. refine (bool_decide_unpack _ _). vm_compute. exact I.
  - apply (CheckConsistencyDetails_exact bytes_ok BytewiseComparator base); [discriminate| |vm_compute; reflexivity].
    intros f (l & _ & Hf)%elem_of_levels_from. by apply (base_keys l).
  - apply base_keys.
  - repeat constructor.
  - intros x [->|Hx%elem_of_nil]%elem_of_cons; [|done]. vm_compute. repeat split; done.
Qed.
Lemma edits_are_fit : edits_fit bytes_ok 2 (contents_of base) [edit1; edit2].
Proof.
  split; [|split; [|done]].
  - split; repeat first [apply Forall_nil_2|apply Forall_cons_2]; try (by vm_compute).
    split; [done|]. apply file_keys; by vm_compute.
  - split; repeat first [apply Forall_nil_2|apply Forall_cons_2]; try (by vm_compute).
    split; [done|]. apply file_keys; by vm_compute.
Qed.
Lemma version_builder_refines_witness : ∃ r v, apply_each (Apply BytewiseComparator) (NewRep base) [edit1; edit2] = Some (Status_OK, r) ∧
  snd (SaveTo BytewiseComparator r (NewVersionStorageInfo 2 (Some base) true kMustPresent)) = v ∧
  map (map file_number) (files_ v) = [[12; 8]; [5; 11]] ∧ map BlobFileMetaData.GetBlobFileNumber (blob_files_ v) = [10].
Proof.
  destruct (version_builder_refines bytes_ok BytewiseComparator base kMustPresent base_is_ok [edit1; edit2] true edits_are_fit) as (s & r & E & H).
  exists r. eexists. split; [|split; [reflexivity|]].
  - rewrite E. destruct (each edit_contents (contents_of base) [edit1; edit2]) as [[m b]|] eqn:Ee; [by destruct H as [-> _]|vm_compute in Ee; discriminate].
  - assert (apply_each (Apply BytewiseComparator) (NewRep base) [edit1; edit2] = Some (s, r)) as E' by exact E. vm_compute in E'.
    apply (inj Some) in E'. injection E' as <- <-. split; vm_compute; reflexivity.
Defined.
End VersionBuilderExample.
