(* ===== verification/VersionBuilderTables.v ===== *)
(** * Opening the tables of a version

    [VersionBuilder::Rep::LoadTableHandlers]: which of the added files are opened when
    the builder has all edits, and with what status. The table cache, which reads the
    files, is a parameter. *)

From S2P Require Import Prelude SortedLists Status VersionEdit VersionStorage VersionStorageCorrect VersionBuilder VersionBuilderCorrect.
From stdpp Require Import gmap.
#[local] Open Scope Z_scope.

(** A status with whether its subcode is [kPathNotFound] *)
Abbreviation IOStatus := (Status * bool)%type.
Definition IsPathNotFound (s : IOStatus) : bool := match code_ (fst s) with kIOError | kNotFound => snd s | _ => false end.

(** The table cache as the builder finds it: how many tables it may hold and holds, and
    what opening a file of a level returns, whatever the file system does. *)
Module TableCache.
Record t := mk {
  GetCapacity : Z;
  GetUsage : Z;
  FindTable : FileMetaData → Z → IOStatus
}.
Definition kInfiniteCapacity : Z := 0x400000.
End TableCache.

(** The order in which a [std::unordered_map] is iterated over; every element is
    visited once. *)
Abbreviation MapIteration := (gmap Z FileMetaData → list (Z * FileMetaData)).
Definition visits_all (iterate : MapIteration) : Prop := ∀ m, iterate m ≡ₚ map_to_list m.

Section LoadTables.
Context (table_cache_ : TableCache.t) (iterate : MapIteration) (opened : FileMetaData → bool) (is_initial_load : bool).

(** [max_load], [None] where the cache is full enough to return at once *)
Definition max_load : option Z :=
  let table_cache_capacity := TableCache.GetCapacity table_cache_ in
  let always_load := table_cache_capacity =? TableCache.kInfiniteCapacity in
  if negb always_load then
    let kInitialLoadLimit := 16 in
    let load_limit := if is_initial_load then Z.min kInitialLoadLimit (table_cache_capacity / 4) else table_cache_capacity / 4 in
    let table_cache_usage := TableCache.GetUsage table_cache_ in
    if load_limit <=? table_cache_usage then None else Some (load_limit - table_cache_usage)
  else Some (2 ^ 64 - 1).

(** The two loops that fill [files_meta]; [opened] is whether a file has its
    [table_reader_handle]. *)
Fixpoint collect_level (max level : Z) (files_meta : list (FileMetaData * Z)) (added : list (Z * FileMetaData)) : list (FileMetaData * Z) :=
  match added with
  | [] => files_meta
  | (_, file_meta) :: added =>
      let files_meta := if opened file_meta then files_meta else files_meta ++ [(file_meta, level)] in
      if max <=? Zlen files_meta then files_meta else collect_level max level files_meta added
  end.
Fixpoint collect_levels (max level : Z) (files_meta : list (FileMetaData * Z)) (levels : list LevelState) : list (FileMetaData * Z) :=
  match levels with
  | [] => files_meta
  | st :: levels =>
      let files_meta := collect_level max level files_meta (iterate (added_files st)) in
      if max <=? Zlen files_meta then files_meta else collect_levels max (level + 1) files_meta levels
  end.

(** The first status that is not OK *)
Definition first_error (statuses : list IOStatus) : IOStatus :=
  fold_left (λ ret s, if negb (ok (fst s)) then if ok (fst ret) then s else ret else ret) statuses (Status_OK, false).

(** The threads that open the files write each its own status. *)
Definition LoadTableHandlers (r : Rep) : IOStatus :=
  match max_load with
  | None => (Status_OK, false)
  | Some max =>
      let files_meta := collect_levels max 0 [] (levels_ r) in
      first_error (map (λ '(file_meta, level), TableCache.FindTable table_cache_ file_meta level) files_meta)
  end.

(** ** Which files are opened *)

(** How many at most *)
Definition load_count : Z := default 0 max_load.
Lemma max_load_pos max : max_load = Some max → 0 < max.
Proof using.
  unfold max_load. destruct (negb _); [|intros [= <-]; lia]. set (limit := if is_initial_load then _ else _).
  destruct (Z.leb_spec limit (TableCache.GetUsage table_cache_)); [done|]. intros [= <-]. lia.
Qed.

Definition level_tables (level : Z) (added : list (Z * FileMetaData)) : list (FileMetaData * Z) :=
  map (λ p, (snd p, level)) (List.filter (λ p, negb (opened (snd p))) added).
Fixpoint all_tables (level : Z) (levels : list LevelState) : list (FileMetaData * Z) :=
  match levels with
  | [] => []
  | st :: levels => level_tables level (iterate (added_files st)) ++ all_tables (level + 1) levels
  end.

Lemma collect_level_spec max level added : ∀ files_meta rest, Zlen files_meta < max →
  take (Z.to_nat max) (collect_level max level files_meta added ++ if max <=? Zlen (collect_level max level files_meta added) then [] else rest) =
  take (Z.to_nat max) (files_meta ++ level_tables level added ++ rest).
Proof using.
  induction added as [|[n f] added IH]; intros fm rest Hlt; cbn [collect_level].
  { rewrite (proj2 (Z.leb_gt _ _)) by done. done. }
  unfold level_tables. cbn [List.filter snd]. destruct (opened f); cbn [negb map].
  { rewrite (proj2 (Z.leb_gt _ _)) by done. by apply IH. }
  destruct (Z.leb_spec max (Zlen (fm ++ [(f, level)]))) as [Hle|Hgt].
  - rewrite (proj2 (Z.leb_le _ _)) by done. rewrite Zlen_app, Zlen_cons, Zlen_nil in Hle.
    cbn [app snd]. set (tail := map _ _ ++ rest). assert (fm ++ (f, level) :: tail = (fm ++ [(f, level)]) ++ tail) as -> by by rewrite <- app_assoc.
    assert (Z.to_nat max = length (fm ++ [(f, level)])) as ->; [|by rewrite !take_app_length].
    rewrite Zlen_length in *. rewrite length_app. cbn. lia.
  - rewrite IH by done. unfold level_tables. rewrite <- !app_assoc. done.
Qed.
Lemma collect_levels_spec max levels : ∀ level files_meta, Zlen files_meta < max →
  collect_levels max level files_meta levels = take (Z.to_nat max) (files_meta ++ all_tables level levels).
Proof using.
  assert (∀ level added fm, Zlen fm < max → Zlen (collect_level max level fm added) <= max) as Hlen.
  { induction added as [|[n f] added IH]; intros fm Hfm; cbn [collect_level]; [lia|]. destruct (opened f).
    - destruct (Z.leb_spec max (Zlen fm)); [lia|by apply IH].
    - destruct (Z.leb_spec max (Zlen (fm ++ [(f, level)]))); [|by apply IH]. rewrite Zlen_app, Zlen_cons, Zlen_nil. lia. }
  induction levels as [|st levels IH]; intros level fm Hfm; cbn [collect_levels all_tables].
  { rewrite app_nil_r, take_ge by (rewrite Zlen_length in Hfm; lia). done. }
  rewrite <- collect_level_spec by done. specialize (Hlen level (iterate (added_files st)) fm Hfm).
  destruct (Z.leb_spec max (Zlen (collect_level max level fm (iterate (added_files st))))); [|by apply IH].
  rewrite app_nil_r, take_ge by (rewrite Zlen_length in *; lia). done.
Qed.

Lemma first_error_find l : first_error l = default (Status_OK, false) (List.find (λ s, negb (ok (fst s))) l).
Proof using.
  unfold first_error. set (f := λ ret s, _). assert (∀ l r, ok (fst r) = false → fold_left f l r = r) as Hkeep.
  { intros l' r Hr. induction l' as [|s l' IH]; [done|]. cbn [fold_left]. unfold f at 2. rewrite Hr. by destruct (negb _). }
  induction l as [|s l IH]; [done|]. cbn [fold_left List.find]. unfold f at 2. cbn [fst]. destruct (ok (fst s)) eqn:Es; cbn [negb]; [exact IH|].
  cbn. by apply Hkeep.
Qed.

(** The first files in the order of iteration are opened, as many as may be, and the
    status is the first that is not OK. *)
Lemma LoadTableHandlers_spec r : LoadTableHandlers r =
  default (Status_OK, false) (List.find (λ s, negb (ok (fst s)))
    (map (λ '(file_meta, level), TableCache.FindTable table_cache_ file_meta level) (take (Z.to_nat load_count) (all_tables 0 (levels_ r))))).
Proof using.
  unfold LoadTableHandlers, load_count. pose proof max_load_pos as Hpos. destruct max_load as [max|]; [|done]. cbn [default from_option Datatypes.id].
  by rewrite first_error_find, collect_levels_spec by (rewrite Zlen_nil; by apply Hpos).
Qed.

Context (Hiterate : visits_all iterate).
Lemma elem_of_all_tables f l levels : ∀ level, (f, l) ∈ all_tables level levels ↔
  opened f = false ∧ ∃ i st n, levels !! i = Some st ∧ l = level + Z.of_nat i ∧ added_files st !! n = Some f.
Proof using Hiterate.
  induction levels as [|st levels IH]; intros level; cbn [all_tables].
  { split; [by intros ?%elem_of_nil|]. by intros (_ & i & st & n & ? & _). }
  rewrite elem_of_app, IH. unfold level_tables. rewrite list_elem_of_In, in_map_iff. split.
  - intros [([n f'] & [= -> ->] & [Hin Hop]%List.filter_In)|(Hop & i & st' & n & Hi & -> & Hn)].
    + apply list_elem_of_In in Hin. rewrite (Hiterate _), elem_of_map_to_list in Hin. apply negb_true_iff in Hop.
      split; [done|]. exists 0%nat, st, n. split_and!; [done|lia|done].
    + split; [done|]. exists (S i), st', n. split_and!; [done|lia|done].
  - intros (Hop & [|i] & st' & n & Hi & -> & Hn); cbn in Hi.
    + injection Hi as <-. left. exists (n, f). split; [cbn; f_equal; lia|]. apply List.filter_In. cbn [snd]. rewrite Hop. split; [|done].
      apply list_elem_of_In. by rewrite (Hiterate _), elem_of_map_to_list.
    + right. split; [done|]. exists i, st', n. split_and!; [done|lia|done].
Qed.
End LoadTables.

(** ** The tables of a builder on an empty version *)

Definition table_entry (t : FileMetaData * Z) : Z * (Z * FileMetaData) := (file_number (fst t), (snd t, fst t)).

Section Tables.
Context (iterate : MapIteration) (Hiterate : visits_all iterate).
#[local] Abbreviation none_opened := (λ _ : FileMetaData, false).

Lemma all_tables_numbers (m : Lsm) levels : ∀ level,
  (∀ i st n f, levels !! i = Some st → added_files st !! n = Some f → m !! n = Some (level + Z.of_nat i, f) ∧ file_number f = n) →
  NoDup (map (λ t, file_number (fst t)) (all_tables iterate none_opened level levels)).
Proof using Hiterate.
  induction levels as [|st levels IH]; intros level Hm; cbn [all_tables]; [constructor|]. rewrite map_app. apply NoDup_app. split_and!.
  - unfold level_tables. rewrite map_map. cbn [fst negb].
    assert (List.filter (λ _ : Z * FileMetaData, true) (iterate (added_files st)) = iterate (added_files st)) as ->
      by (induction (iterate (added_files st)) as [|x l IHl]; cbn; congruence).
    assert (map (λ p, file_number (snd p)) (iterate (added_files st)) = (iterate (added_files st)).*1) as ->.
    { apply map_ext_in. intros [n f] Hin%list_elem_of_In. rewrite (Hiterate _), elem_of_map_to_list in Hin.
      exact (proj2 (Hm 0%nat st n f eq_refl Hin)). }
    rewrite (Hiterate _). apply NoDup_fst_map_to_list.
  - intros n H1 H2. apply list_elem_of_fmap in H1 as ([f1 l1] & -> & H1), H2 as ([f2 l2] & E & H2). cbn [fst] in E.
    apply (elem_of_all_tables iterate none_opened Hiterate) in H2 as (_ & i2 & st2 & n2 & Hi2 & -> & Hn2).
    destruct (Hm (S i2) st2 n2 f2 Hi2 Hn2) as [Hm2 Hf2].
    unfold level_tables in H1. apply list_elem_of_In, in_map_iff in H1 as ([n1 f] & [= -> ->] & [Hin _]%List.filter_In).
    apply list_elem_of_In in Hin. rewrite (Hiterate _), elem_of_map_to_list in Hin. destruct (Hm 0%nat st n1 f1 eq_refl Hin) as [Hm1 Hf1].
    assert (n1 = n2) as -> by congruence. rewrite Hm1 in Hm2. injection Hm2 as ?. lia.
  - apply IH. intros i st' n f Hi Hn. destruct (Hm (S i) st' n f Hi Hn) as [-> ?]. split; [do 2 f_equal; lia|done].
Qed.

(** They are the live files on the levels that there are. *)
Lemma all_tables_live r m : tracks r m → lsm_of (base_vstorage_ r) = ∅ →
  map table_entry (all_tables iterate none_opened 0 (levels_ r)) ≡ₚ map_to_list (filter (λ p, fst (snd p) < num_levels_ r) m).
Proof using Hiterate.
  intros Ht Hbase. assert (∀ i st n f, levels_ r !! i = Some st → added_files st !! n = Some f →
    m !! n = Some (0 + Z.of_nat i, f) ∧ file_number f = n) as Hadd.
  { intros i st n f Hi Hn. assert (level_state r (Z.of_nat i) = Some st) as Hl.
    { unfold level_state. rewrite (proj2 (Z.ltb_ge _ _)), Nat2Z.id by lia. done. }
    pose proof (tr_added _ _ Ht _ _ _ _ Hl Hn) as Hm. split; [done|]. by apply (tr_wf _ _ Ht) in Hm as [_ ?]. }
  apply NoDup_Permutation.
  - pose proof (all_tables_numbers m (levels_ r) 0 Hadd) as Hn.
    apply (NoDup_fmap_1 fst). change (NoDup (map fst (map table_entry (all_tables iterate none_opened 0 (levels_ r))))). by rewrite map_map.
  - apply NoDup_map_to_list.
  - intros [n [l f]]. rewrite elem_of_map_to_list, map_lookup_filter_Some. cbn [fst snd]. split.
    + intros ([f' l'] & [= -> -> ->] & Hin)%list_elem_of_fmap.
      apply (elem_of_all_tables iterate none_opened Hiterate) in Hin as (_ & i & st & n' & Hi & -> & Hn').
      destruct (Hadd i st n' f' Hi Hn') as [Hm ->]. split; [done|]. apply lookup_lt_Some in Hi. unfold num_levels_. lia.
    + intros [Hm Hlt]. destruct (tr_wf _ _ Ht _ _ _ Hm) as [Hl0 Hf]. destruct (level_state_some r l ltac:(lia)) as [st Hst].
      destruct (tr_live _ _ Ht _ _ _ _ Hst Hm) as [Ha|[_ Hb]]; [|by rewrite Hbase, lookup_empty in Hb].
      apply list_elem_of_fmap. exists (f, l). split; [unfold table_entry; cbn; by rewrite Hf|].
      apply (elem_of_all_tables iterate none_opened Hiterate). split; [done|]. exists (Z.to_nat l), st, n. split_and!; [|lia|done].
      unfold level_state in Hst. by rewrite (proj2 (Z.ltb_ge _ _)) in Hst by lia.
Qed.
End Tables.
