(* ===== verification/VersionRecovery.v ===== *)
(** * Recovering the version set

    [VersionEditHandler] (db/version_edit_handler.cc) replays a manifest into a version
    set: it creates the column families, applies the edits of each to a version
    builder, and installs the versions in the end. [VersionSet::Recover]
    (db/version_set.cc) runs it and fills in missing epoch numbers.

    Of the version set and of column families (db/column_family.cc) the parts are
    modelled that recovery reads or writes. A pointer to a column family is its
    identifier; one that is dropped is gone from the set, as nothing else refers to
    it during recovery. The tracking of missing files belongs to a derived handler
    and is off. *)

From S2P Require Import Prelude SortedLists Status Comparator DbFormat LogReader WalEdit VersionEdit Manifest VersionStorage VersionBuilder VersionBuilderTables.
From stdpp Require Import gmap strings pretty.
#[local] Open Scope Z_scope.

(** ** Column families *)

(** The options that recovery depends on, after [SanitizeOptions] *)
Record ColumnFamilyOptions := mkCfOptions {
  comparator : Comparator;
  comparator_name : bytes;
  num_levels_option : nat;
  force_consistency_checks_option : bool;
  allow_ingest_behind : bool
}.

Module ColumnFamilyData.
Record t := mk {
  id_ : Z;
  name_ : bytes;
  options_ : ColumnFamilyOptions;
  log_number_ : Z;
  full_history_ts_low_ : bytes;
  current_ : VersionStorageInfo;
  next_epoch_number_ : Z
}.
Definition user_comparator (c : t) : Comparator := comparator (options_ c).
Definition SetLogNumber (c : t) (log_number : Z) : t :=
  mk (id_ c) (name_ c) (options_ c) log_number (full_history_ts_low_ c) (current_ c) (next_epoch_number_ c).
Definition SetFullHistoryTsLow (c : t) (ts_low : bytes) : t :=
  match full_history_ts_low_ c with
  | [] => mk (id_ c) (name_ c) (options_ c) (log_number_ c) ts_low (current_ c) (next_epoch_number_ c)
  | _ => if 0 <? CompareTimestamp (user_comparator c) ts_low (full_history_ts_low_ c)
         then mk (id_ c) (name_ c) (options_ c) (log_number_ c) ts_low (current_ c) (next_epoch_number_ c) else c
  end.
Definition SetCurrent (c : t) (v : VersionStorageInfo) : t :=
  mk (id_ c) (name_ c) (options_ c) (log_number_ c) (full_history_ts_low_ c) v (next_epoch_number_ c).
Definition SetNextEpochNumber (c : t) (n : Z) : t :=
  mk (id_ c) (name_ c) (options_ c) (log_number_ c) (full_history_ts_low_ c) (current_ c) n.
(** [Version::Version]: the storage of a new version *)
Definition NewVersion (options : ColumnFamilyOptions) (current : option VersionStorageInfo) (requirement : EpochNumberRequirement) : VersionStorageInfo :=
  NewVersionStorageInfo (num_levels_option options) current (force_consistency_checks_option options) requirement.
End ColumnFamilyData.

(** ** The version set *)

Module VersionSet.
Record t := mk {
  db_id_ : bytes;
  wals_ : WalSet;
  column_family_set_ : list ColumnFamilyData.t;
  max_column_family_ : Z;
  next_file_number_ : Z;
  min_log_number_to_keep_ : Z;
  last_sequence_ : Z;
  last_allocated_sequence_ : Z;
  last_published_sequence_ : Z;
  descriptor_last_sequence_ : Z;
  prev_log_number_ : Z;
  manifest_file_size_ : Z
}.
Definition New (db_id : bytes) : t := mk db_id (WalSet_Reset (mkWalSet [] 0)) [] 0 2 0 0 0 0 0 0 0.
Definition set_db_id (v : t) (x : bytes) : t :=
  mk x (wals_ v) (column_family_set_ v) (max_column_family_ v) (next_file_number_ v) (min_log_number_to_keep_ v) (last_sequence_ v)
    (last_allocated_sequence_ v) (last_published_sequence_ v) (descriptor_last_sequence_ v) (prev_log_number_ v) (manifest_file_size_ v).
Definition set_wals (v : t) (x : WalSet) : t :=
  mk (db_id_ v) x (column_family_set_ v) (max_column_family_ v) (next_file_number_ v) (min_log_number_to_keep_ v) (last_sequence_ v)
    (last_allocated_sequence_ v) (last_published_sequence_ v) (descriptor_last_sequence_ v) (prev_log_number_ v) (manifest_file_size_ v).
Definition set_column_families (v : t) (x : list ColumnFamilyData.t) (max_column_family : Z) : t :=
  mk (db_id_ v) (wals_ v) x max_column_family (next_file_number_ v) (min_log_number_to_keep_ v) (last_sequence_ v)
    (last_allocated_sequence_ v) (last_published_sequence_ v) (descriptor_last_sequence_ v) (prev_log_number_ v) (manifest_file_size_ v).
Definition set_file_numbers (v : t) (next_file_number min_log_number_to_keep : Z) : t :=
  mk (db_id_ v) (wals_ v) (column_family_set_ v) (max_column_family_ v) next_file_number min_log_number_to_keep (last_sequence_ v)
    (last_allocated_sequence_ v) (last_published_sequence_ v) (descriptor_last_sequence_ v) (prev_log_number_ v) (manifest_file_size_ v).

Definition GetColumnFamily (v : t) (id : Z) : option ColumnFamilyData.t :=
  List.find (λ c, ColumnFamilyData.id_ c =? id) (column_family_set_ v).
Definition update_cf (v : t) (id : Z) (f : ColumnFamilyData.t → ColumnFamilyData.t) : t :=
  set_column_families v (map (λ c, if ColumnFamilyData.id_ c =? id then f c else c) (column_family_set_ v)) (max_column_family_ v).
(** [SetDropped] and [UnrefAndTryDelete] *)
Definition DropColumnFamily (v : t) (id : Z) : t :=
  set_column_families v (List.filter (λ c, negb (ColumnFamilyData.id_ c =? id)) (column_family_set_ v)) (max_column_family_ v).
Definition UpdateMaxColumnFamily (v : t) (x : Z) : t := set_column_families v (column_family_set_ v) (Z.max x (max_column_family_ v)).
Definition MarkFileNumberUsed (v : t) (number : Z) : t :=
  if next_file_number_ v <=? number then set_file_numbers v (u64 (number + 1)) (min_log_number_to_keep_ v) else v.
Definition MarkMinLogNumberToKeep (v : t) (number : Z) : t :=
  if min_log_number_to_keep_ v <? number then set_file_numbers v (next_file_number_ v) number else v.
(** [AppendVersion], after [PrepareAppend] *)
Definition AppendVersion (v : t) (id : Z) (version : VersionStorageInfo) : t :=
  update_cf v id (λ c, ColumnFamilyData.SetCurrent c (GenerateFileLocationIndex version)).
Definition CreateColumnFamily (v : t) (options : ColumnFamilyOptions) (edit : VersionEdit) : ColumnFamilyData.t * t :=
  let current := GenerateFileLocationIndex (ColumnFamilyData.NewVersion options None kMustPresent) in
  let cfd := ColumnFamilyData.mk (column_family_ edit) (default [] (column_family_name_ edit)) options
               (default 0 (log_number_ edit)) [] current 1 in
  (cfd, set_column_families v (column_family_set_ v ++ [cfd]) (Z.max (max_column_family_ v) (column_family_ edit))).
End VersionSet.

(** ** The handler *)

Module VersionEditHandler.
Record t := mk {
  version_set_ : VersionSet.t;
  builders_ : gmap Z Rep;
  name_to_options_ : gmap bytes ColumnFamilyOptions;
  column_families_not_found_ : gmap Z bytes;
  version_edit_params_ : VersionEdit;
  initialized_ : bool
}.
Definition New (version_set : VersionSet.t) : t := mk version_set ∅ ∅ ∅ Clear false.
Definition set_version_set (h : t) (x : VersionSet.t) : t :=
  mk x (builders_ h) (name_to_options_ h) (column_families_not_found_ h) (version_edit_params_ h) (initialized_ h).
Definition set_builders (h : t) (x : gmap Z Rep) : t :=
  mk (version_set_ h) x (name_to_options_ h) (column_families_not_found_ h) (version_edit_params_ h) (initialized_ h).
Definition set_names (h : t) (x : gmap bytes ColumnFamilyOptions) : t :=
  mk (version_set_ h) (builders_ h) x (column_families_not_found_ h) (version_edit_params_ h) (initialized_ h).
Definition set_not_found (h : t) (x : gmap Z bytes) : t :=
  mk (version_set_ h) (builders_ h) (name_to_options_ h) x (version_edit_params_ h) (initialized_ h).
Definition set_params (h : t) (x : VersionEdit) : t :=
  mk (version_set_ h) (builders_ h) (name_to_options_ h) (column_families_not_found_ h) x (initialized_ h).
Definition set_initialized (h : t) : t :=
  mk (version_set_ h) (builders_ h) (name_to_options_ h) (column_families_not_found_ h) (version_edit_params_ h) true.

Definition CheckColumnFamilyId (h : t) (edit : VersionEdit) : bool * bool :=
  (bool_decide (is_Some (column_families_not_found_ h !! column_family_ edit)), bool_decide (is_Some (builders_ h !! column_family_ edit))).

Definition CreateCfAndInit (h : t) (options : ColumnFamilyOptions) (edit : VersionEdit) : t :=
  let '(cfd, version_set) := VersionSet.CreateColumnFamily (version_set_ h) options edit in
  set_builders (set_version_set h version_set) (emplace (column_family_ edit) (NewRep (ColumnFamilyData.current_ cfd)) (builders_ h)).
Definition DestroyCfAndCleanup (h : t) (edit : VersionEdit) : t :=
  set_version_set (set_builders h (delete (column_family_ edit) (builders_ h)))
    (VersionSet.DropColumnFamily (version_set_ h) (column_family_ edit)).

(** The boundaries of files without timestamps get the smallest ones; [need] is
    [file_boundaries_need_handling]. *)
Fixpoint handle_boundaries (ts_sz : Z) (need : bool) (files : list (Z * FileMetaData)) : Status * list (Z * FileMetaData) :=
  match files with
  | [] => (Status_OK, [])
  | (level, meta) :: files' =>
      if user_defined_timestamps_persisted meta then
        if need then (Status_Corruption "New files in one VersionEdit has different user_defined_timestamps_persisted value.", files)
        else (Status_OK, files)
      else
        let meta := set_boundaries meta (PadInternalKeyWithMinTimestamp [] (smallest meta) ts_sz)
                      (PadInternalKeyWithMinTimestamp [] (largest meta) ts_sz) in
        let '(s, files') := handle_boundaries ts_sz true files' in (s, (level, meta) :: files')
  end.
Definition set_new_files (e : VersionEdit) (x : list (Z * FileMetaData)) : VersionEdit :=
  mkEdit (max_level_ e) (db_id_ e) (comparator_ e) (log_number_ e) (prev_log_number_ e) (next_file_number_ e) (max_column_family_ e)
    (min_log_number_to_keep_ e) (last_sequence_ e) (compact_cursors_ e) (deleted_files_ e) x (blob_file_additions_ e) (blob_file_garbages_ e)
    (wal_additions_ e) (wal_deletion_ e) (column_family_ e) (column_family_name_ e) (is_column_family_drop_ e) (remaining_entries_ e)
    (full_history_ts_low_ e).
Definition MaybeHandleFileBoundariesForNewFiles (edit : VersionEdit) (cfd : ColumnFamilyData.t) : Status * VersionEdit :=
  match new_files_ edit with
  | [] => (Status_OK, edit)
  | _ =>
      let ts_sz := timestamp_size (ColumnFamilyData.user_comparator cfd) in
      if ts_sz =? 0 then (Status_OK, edit)
      else let '(s, files) := handle_boundaries ts_sz false (new_files_ edit) in (s, set_new_files edit files)
  end.

(** What the handler is given: the mode, the options of the column families to open
    and of the one for statistics, and how strict it is; and what it meets: the table
    cache when it gets to a column family, and the order of unordered maps. *)
Record Options := mkOptions {
  read_only_ : bool;
  column_families_ : list (bytes * ColumnFamilyOptions);
  PersistentStats : ColumnFamilyOptions;
  no_error_if_files_missing_ : bool;
  skip_load_table_files_ : bool;
  paranoid_checks : bool;
  epoch_requirement_ : EpochNumberRequirement;
  table_cache_ : Z → TableCache.t;
  map_iteration : MapIteration
}.
Definition kPersistentStatsColumnFamilyName : bytes :=
  [95; 95; 95; 114; 111; 99; 107; 115; 100; 98; 95; 115; 116; 97; 116; 115; 95; 104; 105; 115; 116; 111; 114; 121; 95; 95; 95].

Section Handler.
Context (o : Options).

Definition Initialize (h : t) : Status * t :=
  if initialized_ h then (Status_OK, h)
  else
    let names := fold_left (λ m d, match m !! fst d with Some _ => m | None => <[fst d := snd d]> m end) (column_families_ o) (name_to_options_ h) in
    let h := set_names h names in
    match names !! kDefaultColumnFamilyName with
    | None => (Status_InvalidArgument "Default column family not specified", h)
    | Some options => (Status_OK, set_initialized (CreateCfAndInit h options (SetColumnFamily (AddColumnFamily Clear kDefaultColumnFamilyName) 0)))
    end.

(** The handlers of an edit: the status, the column family it is about and the
    handler. *)
Definition OnColumnFamilyAdd (h : t) (edit : VersionEdit) : Status * option Z * t :=
  let '(cf_in_not_found, cf_in_builders) := CheckColumnFamilyId h edit in
  if cf_in_builders || cf_in_not_found then (Status_Corruption "MANIFEST adding the same column family twice: ", None, h)
  else
    let name := default [] (column_family_name_ edit) in
    let is_persistent_stats_column_family := bool_decide (name = kPersistentStatsColumnFamilyName) in
    match name_to_options_ h !! name, is_persistent_stats_column_family with
    | None, false => (Status_OK, None, set_not_found h (emplace (column_family_ edit) name (column_families_not_found_ h)))
    | _, true => (Status_OK, Some (column_family_ edit), CreateCfAndInit h (PersistentStats o) edit)
    | Some options, false => (Status_OK, Some (column_family_ edit), CreateCfAndInit h options edit)
    end.
Definition OnColumnFamilyDrop (h : t) (edit : VersionEdit) : Status * option Z * t :=
  let '(cf_in_not_found, cf_in_builders) := CheckColumnFamilyId h edit in
  if cf_in_builders then (Status_OK, None, DestroyCfAndCleanup h edit)
  else if cf_in_not_found then (Status_OK, None, set_not_found h (delete (column_family_ edit) (column_families_not_found_ h)))
  else (Status_Corruption "MANIFEST - dropping non-existing column family", None, h).
(** Edits about logs have nothing to say about a column family, so it does not matter
    which one an edit before them in the same atomic group was about. *)
Definition OnWalAddition (h : t) (edit : VersionEdit) : Status * option Z * t :=
  let '(s, wals) := AddWals (VersionSet.wals_ (version_set_ h)) (wal_additions_ edit) in
  (s, None, set_version_set h (VersionSet.set_wals (version_set_ h) wals)).
Definition OnWalDeletion (h : t) (edit : VersionEdit) : Status * option Z * t :=
  let '(s, wals) := DeleteWalsBefore (VersionSet.wals_ (version_set_ h)) (wal_deletion_ edit) in
  (s, None, set_version_set h (VersionSet.set_wals (version_set_ h) wals)).

(** [MaybeCreateVersion] with [force_create_version]: without it nothing is done. *)
Definition MaybeCreateVersion (h : t) (cfd : ColumnFamilyData.t) : option (Status * t) :=
  r ← builders_ h !! ColumnFamilyData.id_ cfd;
  let v := ColumnFamilyData.NewVersion (ColumnFamilyData.options_ cfd) (Some (ColumnFamilyData.current_ cfd)) (epoch_requirement_ o) in
  let '(s, v) := SaveTo (ColumnFamilyData.user_comparator cfd) r v in
  Some (s, if ok s then set_version_set h (VersionSet.AppendVersion (version_set_ h) (ColumnFamilyData.id_ cfd) v) else h).

(** [None]: an access to an object that is not there. *)
Definition OnNonCfOperation (h : t) (edit : VersionEdit) : option (Status * option Z * t) :=
  let '(cf_in_not_found, cf_in_builders) := CheckColumnFamilyId h edit in
  if cf_in_not_found then Some (Status_OK, None, h)
  else if negb cf_in_builders then Some (Status_Corruption "MANIFEST record referencing unknown column family", None, h)
  else
    r ← builders_ h !! column_family_ edit;
    cfd ← VersionSet.GetColumnFamily (version_set_ h) (column_family_ edit);
    let '(s, edit) := MaybeHandleFileBoundariesForNewFiles edit cfd in
    if negb (ok s) then Some (s, None, h)
    else
      '(s, r) ← Apply (ColumnFamilyData.user_comparator cfd) r edit;
      Some (s, Some (column_family_ edit), set_builders h (<[column_family_ edit := r]> (builders_ h))).

(** What an edit says about a column family that is open. *)
Definition extract_cf (h : t) (id : Z) (edit : VersionEdit) : option (Status * t) :=
  cfd ← VersionSet.GetColumnFamily (version_set_ h) id;
  let h :=
    match log_number_ edit with
    | Some log_number =>
        if log_number <? ColumnFamilyData.log_number_ cfd then h
        else set_params (set_version_set h (VersionSet.update_cf (version_set_ h) id (λ c, ColumnFamilyData.SetLogNumber c log_number)))
               (SetLogNumber (version_edit_params_ h) log_number)
    | None => h
    end in
  let s :=
    match comparator_ edit with
    | Some name =>
        if bool_decide (name = comparator_name (ColumnFamilyData.options_ cfd)) then Status_OK
        else Status_InvalidArgument "does not match existing comparator "
    | None => Status_OK
    end in
  let h :=
    match full_history_ts_low_ edit with
    | [] => h
    | new_ts => set_version_set h (VersionSet.update_cf (version_set_ h) id (λ c, ColumnFamilyData.SetFullHistoryTsLow c new_ts))
    end in
  Some (s, h).
(** The numbers of the whole database; of [min_log_number_to_keep_] only the value is
    read. *)
Definition extract_params (params edit : VersionEdit) : VersionEdit :=
  let p := match prev_log_number_ edit with Some n => SetPrevLogNumber params n | None => params end in
  let p := match next_file_number_ edit with Some n => SetNextFile p n | None => p end in
  let p := match max_column_family_ edit with Some n => SetMaxColumnFamily p n | None => p end in
  let p := match min_log_number_to_keep_ edit with
           | Some n => SetMinLogNumberToKeep p (Z.max (default 0 (min_log_number_to_keep_ p)) n)
           | None => p
           end in
  let p := match last_sequence_ edit with Some n => SetLastSequence p n | None => p end in
  match prev_log_number_ p with Some _ => p | None => SetPrevLogNumber p 0 end.
Definition ExtractInfoFromVersionEdit (h : t) (cfd : option Z) (edit : VersionEdit) : option (Status * t) :=
  let h :=
    match db_id_ edit with
    | Some db_id => set_params (set_version_set h (VersionSet.set_db_id (version_set_ h) db_id)) (SetDBId (version_edit_params_ h) db_id)
    | None => h
    end in
  '(s, h) ← match cfd with Some id => extract_cf h id edit | None => Some (Status_OK, h) end;
  Some (s, if ok s then set_params h (extract_params (version_edit_params_ h) edit) else h).

Definition ApplyVersionEdit (h : t) (edit : VersionEdit) : option (Status * t) :=
  '(s, cfd, h) ←
    match column_family_name_ edit with
    | Some _ => Some (OnColumnFamilyAdd h edit)
    | None =>
        if is_column_family_drop_ edit then Some (OnColumnFamilyDrop h edit)
        else match wal_additions_ edit with
             | _ :: _ => Some (OnWalAddition h edit)
             | [] => if negb (WalDeletion_IsEmpty (wal_deletion_ edit)) then Some (OnWalDeletion h edit) else OnNonCfOperation h edit
             end
    end;
  if ok s then ExtractInfoFromVersionEdit h cfd edit else Some (s, h).

(** A loop over the column families, until one fails *)
Fixpoint for_cfds (f : t → ColumnFamilyData.t → option (Status * t)) (h : t) (cfds : list ColumnFamilyData.t) : option (Status * t) :=
  match cfds with
  | [] => Some (Status_OK, h)
  | cfd :: cfds => '(s, h) ← f h cfd; if ok s then for_cfds f h cfds else Some (s, h)
  end.
Definition check_num_levels (h : t) (cfd : ColumnFamilyData.t) : option (Status * t) :=
  r ← builders_ h !! ColumnFamilyData.id_ cfd;
  Some (if CheckConsistencyForNumLevels r then Status_OK else Status_InvalidArgument "db has more levels than options.num_levels", h).
(** The files of a builder that has only seen the manifest have no table readers. *)
Definition LoadTables (h : t) (cfd : ColumnFamilyData.t) : option IOStatus :=
  if skip_load_table_files_ o then Some (Status_OK, false)
  else
    r ← builders_ h !! ColumnFamilyData.id_ cfd;
    let s := LoadTableHandlers (table_cache_ o (ColumnFamilyData.id_ cfd)) (map_iteration o) (λ _, false) true r in
    let s := if (IsPathNotFound s || IsCorruption (fst s)) && no_error_if_files_missing_ o then (Status_OK, false) else s in
    Some (if negb (ok (fst s)) && negb (paranoid_checks o) then (Status_OK, false) else s).
Definition load_tables (h : t) (cfd : ColumnFamilyData.t) : option (Status * t) :=
  s ← LoadTables h cfd;
  Some (if negb (ok (fst s)) && IsPathNotFound s then Status_Corruption ("Corruption: " +:+ state_ (fst s)) else fst s, h).

(** The statuses that stand before the versions are created; the names of the
    column families are left out of the message. *)
Definition missing_info (p : VersionEdit) : bool :=
  bool_decide (log_number_ p = None) || bool_decide (next_file_number_ p = None) || bool_decide (last_sequence_ p = None).
Definition info_status (h : t) : Status :=
  let p := version_edit_params_ h in
  if missing_info p then
    Status_Corruption ("no " +:+ String.concat ", " ((if bool_decide (log_number_ p = None) then ["log_file_number"] else []) ++
      (if bool_decide (next_file_number_ p = None) then ["next_file_number"] else []) ++
      (if bool_decide (last_sequence_ p = None) then ["last_sequence"] else [])) +:+ " entry in MANIFEST")
  else if negb (read_only_ o) && negb (bool_decide (column_families_not_found_ h = ∅)) then
    Status_InvalidArgument "Column families not opened: "
  else Status_OK.
Definition mark_numbers (h : t) : t :=
  let p := version_edit_params_ h in
  let v := VersionSet.UpdateMaxColumnFamily (version_set_ h) (default 0 (max_column_family_ p)) in
  let v := VersionSet.MarkMinLogNumberToKeep v (default 0 (min_log_number_to_keep_ p)) in
  let v := VersionSet.MarkFileNumberUsed v (default 0 (prev_log_number_ p)) in
  set_version_set h (VersionSet.MarkFileNumberUsed v (default 0 (log_number_ p))).
Definition raise_sequence (last_seq sequence : Z) : Z :=
  if negb (last_seq =? kMaxSequenceNumber) && (sequence <? last_seq) then last_seq else sequence.
Definition finish (h : t) (read_offset : Z) : t :=
  let p := version_edit_params_ h in
  let v := version_set_ h in
  let last_seq := default 0 (last_sequence_ p) in
  set_version_set h (VersionSet.mk (VersionSet.db_id_ v) (VersionSet.wals_ v) (VersionSet.column_family_set_ v) (VersionSet.max_column_family_ v)
    (u64 (default 0 (next_file_number_ p) + 1)) (VersionSet.min_log_number_to_keep_ v)
    (raise_sequence last_seq (VersionSet.last_sequence_ v)) (raise_sequence last_seq (VersionSet.last_allocated_sequence_ v))
    (raise_sequence last_seq (VersionSet.last_published_sequence_ v)) (raise_sequence last_seq (VersionSet.descriptor_last_sequence_ v))
    (default 0 (prev_log_number_ p)) read_offset).

Definition cfds (h : t) : list ColumnFamilyData.t := VersionSet.column_family_set_ (version_set_ h).
(** Steps in turn, until one fails *)
Definition and_then (x : option (Status * t)) (k : t → option (Status * t)) : option (Status * t) :=
  '(s, h) ← x; if ok s then k h else Some (s, h).
Definition CheckIterationResult (h : t) (read_offset : Z) (s : Status) : option (Status * t) :=
  if negb (ok s) then Some (s, h)
  else if negb (ok (info_status h)) then Some (info_status h, h)
  else
    let h := mark_numbers h in
    and_then (for_cfds check_num_levels h (cfds h)) (λ h,
    and_then (for_cfds load_tables h (cfds h)) (λ h,
    and_then (for_cfds MaybeCreateVersion h (cfds h)) (λ h, Some (Status_OK, finish h read_offset)))).

(** The methods for [VersionEditHandlerBase::Iterate], on a handler or what is left of
    it after an access to an object that is not there. *)
Definition lift (x : option (Status * t)) : Status * option t :=
  match x with Some (s, h) => (s, Some h) | None => (Status_InvalidArgument "", None) end.
Definition Handler {R U} `{!SequentialFile R} : EditHandler (R := R) (U := U) (option t) :=
  mkEditHandler _ (λ h, lift (Initialize <$> h)) (λ h edit, lift (h ← h; ApplyVersionEdit h edit))
    (λ h reader s, lift (h ← h; CheckIterationResult h (GetReadOffset reader) s)).
End Handler.
End VersionEditHandler.

(** ** Epoch numbers *)

(** Every file of a level gets the same number, from the last level to level 1; the
    files of level 0 get one each, from the oldest one on. *)
Fixpoint number_levels (levels : list (list FileMetaData)) (next : Z) : list (list FileMetaData) * Z :=
  match levels with
  | [] => ([], next)
  | files :: levels =>
      let '(levels, next) := number_levels levels next in
      match files with
      | [] => ([] :: levels, next)
      | _ => (map (λ f, set_epoch_number f next) files :: levels, u64 (next + 1))
      end
  end.
Fixpoint number_l0 (files : list FileMetaData) (next : Z) : list FileMetaData * Z :=
  match files with
  | [] => ([], next)
  | f :: files => let '(files, next) := number_l0 files next in (set_epoch_number f next :: files, u64 (next + 1))
  end.
Definition GetMaxEpochNumberOfFiles (v : VersionStorageInfo) : Z :=
  fold_left (λ m files, fold_left (λ m f, Z.max m (epoch_number f)) files m) (files_ v) kUnknownEpochNumber.
(** [VersionStorageInfo::RecoverEpochNumbers]: the version and [next_epoch_number_] *)
Definition RecoverEpochNumbers_storage (allow_ingest_behind : bool) (v : VersionStorageInfo) : VersionStorageInfo * Z :=
  let next := if allow_ingest_behind then 2 else 1 in
  if HasMissingEpochNumber v then
    let '(levels, next) := number_levels (tail (files_ v)) next in
    let '(l0, next) := number_l0 (LevelFiles v 0) next in
    (SetEpochNumberRequirement (set_files v (l0 :: levels)) kMustPresent, next)
  else (v, Z.max (u64 (GetMaxEpochNumberOfFiles v + 1)) next).
Definition RecoverEpochNumbers (v : VersionSet.t) : VersionSet.t :=
  VersionSet.set_column_families v
    (map (λ c, let '(current, next) := RecoverEpochNumbers_storage (allow_ingest_behind (ColumnFamilyData.options_ c)) (ColumnFamilyData.current_ c) in
               ColumnFamilyData.SetNextEpochNumber (ColumnFamilyData.SetCurrent c current) next) (VersionSet.column_family_set_ v))
    (VersionSet.max_column_family_ v).

(** [VersionSet::Recover], from a reader on the current manifest; epoch numbers may be
    missing until the end. [None] is out of fuel or an access to an object that is not
    there. *)
Definition recovery_options (o : VersionEditHandler.Options) : VersionEditHandler.Options :=
  VersionEditHandler.mkOptions (VersionEditHandler.read_only_ o) (VersionEditHandler.column_families_ o) (VersionEditHandler.PersistentStats o)
    (VersionEditHandler.no_error_if_files_missing_ o) false (VersionEditHandler.paranoid_checks o) kMightMissing
    (VersionEditHandler.table_cache_ o) (VersionEditHandler.map_iteration o).
Definition Recover {R U} `{!SequentialFile R} `{!StreamingUncompress U} (XXH3_64bits : bytes → Z) (o : VersionEditHandler.Options)
    (n fuel : nat) (file_name : string) (reader : Reader R U) (v : VersionSet.t) : option (Status * VersionSet.t) :=
  '(s, _, h) ← Iterate XXH3_64bits (VersionEditHandler.Handler (recovery_options o)) (2 ^ 64 - 1) n fuel file_name reader
    (Some (VersionEditHandler.New v));
  h ← h;
  let v := VersionEditHandler.version_set_ h in
  Some (s, if ok s then RecoverEpochNumbers v else v).
