(* ===== verification/VersionRecoveryEpochs.v ===== *)
(** * Epoch numbers of recovered versions

    Recovery gives every file an epoch number if one is missing. The version then has
    the same files up to these numbers, stays well formed, and can be the base of the
    next edits. *)

From S2P Require Import Prelude SortedLists Status Comparator DbFormat WalEdit VersionEdit VersionStorage VersionStorageCorrect.
From S2P Require Import VersionBuilder VersionBuilderCorrect VersionBuilderBlobs VersionBuilderSave VersionBuilderRefines VersionRecovery.
From stdpp Require Import gmap.
From Stdlib Require Import Sorting.Sorted.
#[local] Open Scope Z_scope.

(** The same file with a known epoch number *)
Definition renumbered (f f' : FileMetaData) : Prop := ∃ e, f' = set_epoch_number f e ∧ e ≠ kUnknownEpochNumber.

Lemma number_l0_spec l : ∀ next, 0 < next → next + Zlen l < 2 ^ 64 → let '(l', next') := number_l0 l next in
  Forall2 renumbered l l' ∧ StronglySorted (λ a b, epoch_number b < epoch_number a) l' ∧ Forall (λ f, epoch_number f < next') l' ∧ next' = next + Zlen l.
Proof.
  induction l as [|f l IH]; intros next Hp Hb; cbn [number_l0]; [split_and!; constructor || (unfold Zlen; cbn; lia)|].
  rewrite Zlen_cons in Hb. pose proof (Zlen_nonneg l). specialize (IH next Hp ltac:(lia)). destruct (number_l0 l next) as [l' next']. destruct IH as (H1 & H2 & H3 & ->).
  assert (u64 (next + Zlen l + 1) = next + Zlen l + 1) as -> by (apply wrap_small; unfold is_u; lia). rewrite Zlen_cons. split_and!; [| | |lia].
  - constructor; [|done]. exists (next + Zlen l). split; [done|]. unfold kUnknownEpochNumber. lia.
  - constructor; [done|]. exact H3.
  - constructor; [cbn; lia|]. eapply Forall_impl; [exact H3|]. cbn. lia.
Qed.
Lemma number_levels_spec ls : ∀ next, 0 < next → next + Zlen ls < 2 ^ 64 → let '(ls', next') := number_levels ls next in
  Forall2 (Forall2 renumbered) ls ls' ∧ next <= next' <= next + Zlen ls.
Proof.
  induction ls as [|l ls IH]; intros next Hp Hb; cbn [number_levels]; [split; [constructor|unfold Zlen; cbn; lia]|].
  rewrite Zlen_cons in Hb. pose proof (Zlen_nonneg ls). specialize (IH next Hp ltac:(lia)). destruct (number_levels ls next) as [ls' next']. destruct IH as [H1 H2].
  rewrite Zlen_cons. destruct l as [|f l]; [split; [by constructor|lia]|].
  assert (u64 (next' + 1) = next' + 1) as -> by (apply wrap_small; unfold is_u; lia). split; [|lia]. constructor; [|done].
  apply Forall2_fmap_r, Forall_Forall2_diag, Forall_forall. intros x _. exists next'. split; [done|]. unfold kUnknownEpochNumber. lia.
Qed.

Lemma HasMissing_false v : HasMissingEpochNumber v = false ↔ ∀ l f, 0 <= l → f ∈ LevelFiles v l → epoch_number f ≠ kUnknownEpochNumber.
Proof.
  unfold HasMissingEpochNumber. rewrite <- not_true_iff_false, existsb_exists. split.
  - intros H l f Hl Hf E. apply H. unfold LevelFiles in Hf. destruct (files_ v !! Z.to_nat l) as [fs|] eqn:El; [|by apply elem_of_nil in Hf].
    exists fs. split; [apply list_elem_of_In; by eapply list_elem_of_lookup_2|]. apply existsb_exists. exists f. split; [by apply list_elem_of_In|]. by apply Z.eqb_eq.
  - intros H (fs & [i Hi]%list_elem_of_In%list_elem_of_lookup_1 & (f & Hf%list_elem_of_In & E%Z.eqb_eq)%existsb_exists).
    apply (H (Z.of_nat i) f); [lia| |done]. unfold LevelFiles. by rewrite Nat2Z.id, Hi.
Qed.

(** The version after recovery *)
Record renumbers (v v' : VersionStorageInfo) : Prop := {
  rn_files : Forall2 (Forall2 renumbered) (files_ v) (files_ v');
  rn_requirement : epoch_number_requirement_ v' = kMustPresent;
  rn_blobs : blob_files_ v' = blob_files_ v;
  rn_index : file_locations_ v' = file_locations_ v;
  rn_l0 : v' = v ∨ StronglySorted (λ a b, epoch_number b < epoch_number a) (LevelFiles v' 0)
}.
Lemma set_epoch_number_id f : set_epoch_number f (epoch_number f) = f.
Proof. by destruct f. Qed.

Lemma RecoverEpochNumbers_renumbers behind v : files_ v ≠ [] → (HasMissingEpochNumber v = false → epoch_number_requirement_ v = kMustPresent) →
  Zlen (LevelFiles v 0) + num_levels v < 2 ^ 63 → renumbers v (fst (RecoverEpochNumbers_storage behind v)).
Proof.
  intros Hne Hm Hb. unfold RecoverEpochNumbers_storage. destruct (HasMissingEpochNumber v) eqn:E.
  - destruct (files_ v) as [|l0 ls] eqn:Ef; [done|]. assert (LevelFiles v 0 = l0) as E0 by (unfold LevelFiles; by rewrite Ef). rewrite E0 in *. cbn [tail].
    unfold num_levels in Hb. rewrite Ef in Hb. cbn [length] in Hb. rewrite Nat2Z.inj_succ, <- Zlen_length in Hb.
    set (next := if behind then 2 else 1). assert (1 <= next <= 2) as Hn by (unfold next; destruct behind; lia). pose proof (Zlen_nonneg l0). pose proof (Zlen_nonneg ls).
    pose proof (number_levels_spec ls next ltac:(lia) ltac:(lia)) as H1. destruct (number_levels ls next) as [ls' next1]. destruct H1 as [H1 H1'].
    pose proof (number_l0_spec l0 next1 ltac:(lia) ltac:(lia)) as H2. destruct (number_l0 l0 next1) as [l0' next2]. destruct H2 as (H2 & H2' & _).
    split; [rewrite Ef; by constructor|done|done|done|by right].
  - cbn [fst]. split; [|by apply Hm|done|done|by left]. apply Forall_Forall2_diag, Forall_forall. intros l [i Hi]%list_elem_of_lookup_1. apply Forall_Forall2_diag, Forall_forall.
    intros f Hf. exists (epoch_number f). split; [by rewrite set_epoch_number_id|]. rewrite HasMissing_false in E. apply (E (Z.of_nat i)); [lia|].
    unfold LevelFiles. by rewrite Nat2Z.id, Hi.
Qed.

Section Renumbers.
Context (v v' : VersionStorageInfo) (H : renumbers v v').

Lemma renumbers_level l : Forall2 renumbered (LevelFiles v l) (LevelFiles v' l).
Proof using H.
  unfold LevelFiles. pose proof (rn_files _ _ H) as Hf. destruct (files_ v !! Z.to_nat l) as [fs|] eqn:E.
  - destruct (Forall2_lookup_l _ _ _ _ _ Hf E) as (fs' & -> & Hfs). done.
  - assert (files_ v' !! Z.to_nat l = None) as ->; [|constructor]. apply lookup_ge_None. rewrite <- (Forall2_length _ _ _ Hf). by apply lookup_ge_None.
Qed.
Lemma renumbers_levels : length (files_ v') = length (files_ v).
Proof using H. symmetry. apply (Forall2_length _ _ _ (rn_files _ _ H)). Qed.

Lemma renumbers_located : ∀ level ls ls', Forall2 (Forall2 renumbered) ls ls' →
  Forall2 (λ x x', fst x' = fst x ∧ fst (snd x') = fst (snd x) ∧ renumbered (snd (snd x)) (snd (snd x'))) (located level ls) (located level ls').
Proof using.
  intros level ls ls' Hl. revert level. induction Hl as [|l l' ls ls' Hl Hls IH]; intros level; [constructor|]. cbn [located]. apply Forall2_app; [|apply IH].
  apply Forall2_fmap. eapply Forall2_impl; [exact Hl|]. intros f f' (e & -> & He). cbn. split_and!; [done..|]. by exists e.
Qed.
Lemma renumbers_numbers : map fst (located 0 (files_ v')) = map fst (located 0 (files_ v)).
Proof using H.
  pose proof (renumbers_located 0 _ _ (rn_files _ _ H)) as Hl. induction Hl as [|x x' l l' [E _] _ IH]; [done|]. cbn. by rewrite E, IH.
Qed.
Lemma renumbers_locate : ∀ ls ls', Forall2 (Forall2 renumbered) ls ls' → ∀ level m, locate_levels level ls' m = locate_levels level ls m.
Proof using.
  assert (∀ l l', Forall2 renumbered l l' → ∀ level pos m, locate_files level pos l' m = locate_files level pos l m) as Hl.
  { induction 1 as [|f f' l l' (e & -> & _) _ IH]; intros level pos m; [done|]. cbn [locate_files]. apply IH. }
  induction 1 as [|l l' ls ls' Hll _ IH]; intros level m; [done|]. cbn [locate_levels]. by rewrite (Hl _ _ Hll), IH.
Qed.
Lemma renumbers_storage : storage_ok v → storage_ok v'.
Proof using H.
  intros [H1 H2]. split; [by rewrite renumbers_numbers|]. rewrite (rn_index _ _ H), H2. symmetry. apply renumbers_locate, H.
Qed.
(** The same numbers on the same levels *)
Lemma renumbers_lsm n l : NoDup (map fst (located 0 (files_ v))) →
  (∀ f, lsm_of v !! n = Some (l, f) → ∃ f', renumbered f f' ∧ lsm_of v' !! n = Some (l, f')) ∧
  (∀ f', lsm_of v' !! n = Some (l, f') → ∃ f, renumbered f f' ∧ lsm_of v !! n = Some (l, f)).
Proof using H.
  intros Hn. assert (NoDup (map fst (located 0 (files_ v')))) as Hn' by by rewrite renumbers_numbers. pose proof (renumbers_level l) as Hl. split.
  - intros f (-> & Hl0 & Hf)%lsm_of_lookup; [|done]. apply list_elem_of_lookup_1 in Hf as [i Hi]. destruct (Forall2_lookup_l _ _ _ _ _ Hl Hi) as (f' & Hi' & Hr).
    exists f'. split; [done|]. apply lsm_of_lookup; [done|]. destruct Hr as (e & -> & _). split_and!; [done..|]. by eapply list_elem_of_lookup_2.
  - intros f' (-> & Hl0 & Hf)%lsm_of_lookup; [|done]. apply list_elem_of_lookup_1 in Hf as [i Hi]. destruct (Forall2_lookup_r _ _ _ _ _ Hl Hi) as (f & Hi' & Hr).
    exists f. split; [done|]. apply lsm_of_lookup; [done|]. destruct Hr as (e & -> & _). split_and!; [done..|]. by eapply list_elem_of_lookup_2.
Qed.

Lemma StronglySorted_Forall2 {A B} (Q : A → B → Prop) (R : A → A → Prop) (R' : B → B → Prop) l l' :
  (∀ a a' b b', Q a a' → Q b b' → R a b → R' a' b') → Forall2 Q l l' → StronglySorted R l → StronglySorted R' l'.
Proof using.
  intros HQ. induction 1 as [|x x' l l' Hx Hl IH]; [constructor|]. intros [Hs Hall]%StronglySorted_inv. constructor; [by apply IH|].
  rewrite Forall_forall in Hall. apply Forall_forall. intros y' [j Hj]%list_elem_of_lookup_1. destruct (Forall2_lookup_r _ _ _ _ _ Hl Hj) as (y & Hy & Hq).
  apply (HQ x x' y y'); [done..|]. apply Hall. by eapply list_elem_of_lookup_2.
Qed.
Lemma strict_adjacent c (l : list FileMetaData) : StronglySorted (λ a b, epoch_number b < epoch_number a) l →
  adjacent (λ a b, epoch_number a = epoch_number b → ¬ overlap c a b) l.
Proof using.
  induction 1 as [|x l Hl IH Hx]; [done|]. destruct l as [|y l]; [done|]. split; [|exact IH]. intros E. rewrite Forall_forall in Hx. specialize (Hx y ltac:(left)). lia.
Qed.
Lemma renumbers_from n : ∀ level, Forall2 renumbered (levels_from v level n) (levels_from v' level n).
Proof using H. induction n as [|n IH]; intros level; [constructor|]. cbn [levels_from]. apply Forall2_app; [apply renumbers_level|apply IH]. Qed.
Lemma renumbers_links l l' blob n : Forall2 renumbered l l' → links_of l' blob n ↔ links_of l blob n.
Proof using.
  intros Hl. unfold links_of. split; intros [Hb (f & [i Hi]%list_elem_of_lookup_1 & Hn & Ho)]; (split; [done|]).
  - destruct (Forall2_lookup_r _ _ _ _ _ Hl Hi) as (g & Hg & (e & -> & _)). exists g. split; [by eapply list_elem_of_lookup_2|done].
  - destruct (Forall2_lookup_l _ _ _ _ _ Hl Hi) as (g & Hg & (e & -> & _)). eexists. split; [by eapply list_elem_of_lookup_2|done].
Qed.
Lemma renumbers_wf c : version_wf c v → version_wf c v'.
Proof using H.
  intros [W1 W2 W3 W4]. destruct (rn_l0 _ _ H) as [E|Hs]; [rewrite E; by split|]. split.
  - rewrite (rn_requirement _ _ H). eapply StronglySorted_weaken; [|exact Hs]. intros a b Hab. cbv beta in Hab. cbn. unfold NewestFirstByEpochNumber.
    rewrite (proj2 (Z.eqb_neq _ _)) by lia. cbn. by apply Z.ltb_lt.
  - intros _. by apply strict_adjacent.
  - intros level Hl. unfold num_levels in Hl. rewrite renumbers_levels in Hl.
    eapply (StronglySorted_Forall2 renumbered); [|apply renumbers_level|by apply W3]. by intros a a' b b' (e & -> & _) (e' & -> & _).
  - intros m. rewrite (rn_blobs _ _ H). intros Hm. destruct (W4 m Hm) as [Hg Hl]. split; [done|]. intros n. rewrite Hl, renumbers_levels.
    symmetry. apply renumbers_links, renumbers_from.
Qed.
Lemma renumbers_base wf c : base_wf wf c v → base_ok wf c v' kMustPresent.
Proof using H.
  intros [B1 B2 B3 B4 B5 B6]. split; [|right; split; [apply (rn_requirement _ _ H)|done]]. split.
  - intros E. pose proof renumbers_levels as El. rewrite E in El. by destruct (files_ v).
  - by apply renumbers_storage.
  - by apply renumbers_wf.
  - intros level f [i Hi]%list_elem_of_lookup_1. destruct (Forall2_lookup_r _ _ _ _ _ (renumbers_level level) Hi) as (g & Hg & (e & -> & _)).
    exact (B4 level g (list_elem_of_lookup_2 _ _ _ Hg)).
  - unfold blobs_sorted. by rewrite (rn_blobs _ _ H).
  - intros x. rewrite (rn_blobs _ _ H). apply B6.
Qed.
End Renumbers.
