(* ===== verification/VersionRecoveryCorrect.v ===== *)
(** * Recovery refines a replay of maps

    What a manifest says about the column families, as maps of their table files and
    blob files ([Db]), and that the handler follows it. *)

From S2P Require Import Prelude SortedLists Status Comparator DbFormat LogReader WalEdit VersionEdit Manifest VersionStorage VersionStorageCorrect.
From S2P Require Import VersionBuilder VersionBuilderCorrect VersionBuilderBlobs VersionBuilderSave VersionBuilderRefines VersionBuilderTables VersionRecovery.
From stdpp Require Import gmap.
From Stdlib Require Import Sorting.Sorted.
#[local] Open Scope Z_scope.
Import VersionEditHandler.

(** An open column family: its name and options, its files, the number of the first
    log that it needs, and the timestamp below which history is dropped *)
Record Cf := mkCf {
  cf_name : bytes;
  cf_options : ColumnFamilyOptions;
  cf_contents : Contents;
  cf_log : Z;
  cf_ts_low : bytes
}.
(** The column families that are open, those that are not, the logs, and what the
    edits said about the whole database *)
Record Db := mkDb {
  open_ : gmap Z Cf;
  unopened_ : gmap Z bytes;
  db_wals : WalSet;
  db_params : VersionEdit;
  db_id : bytes
}.

Definition empty_version (options : ColumnFamilyOptions) : VersionStorageInfo :=
  GenerateFileLocationIndex (ColumnFamilyData.NewVersion options None kMustPresent).
(** The column family during the replay: its version is still empty. *)
Definition cfd_of (id : Z) (cf : Cf) : ColumnFamilyData.t :=
  ColumnFamilyData.mk id (cf_name cf) (cf_options cf) (cf_log cf) (cf_ts_low cf) (empty_version (cf_options cf)) 1.

Section Spec.
Context (o : Options).

(** The options of the column families to open; the first of a name counts. *)
Definition opened_names : gmap bytes ColumnFamilyOptions :=
  fold_left (λ m d, match m !! fst d with Some _ => m | None => <[fst d := snd d]> m end) (column_families_ o) ∅.
Definition options_of (name : bytes) : option ColumnFamilyOptions :=
  if bool_decide (name = kPersistentStatsColumnFamilyName) then Some (PersistentStats o) else opened_names !! name.

Definition in_db (d : Db) (id : Z) : bool := bool_decide (is_Some (open_ d !! id)) || bool_decide (is_Some (unopened_ d !! id)).
Definition set_open (d : Db) (x : gmap Z Cf) : Db := mkDb x (unopened_ d) (db_wals d) (db_params d) (db_id d).
Definition set_unopened (d : Db) (x : gmap Z bytes) : Db := mkDb (open_ d) x (db_wals d) (db_params d) (db_id d).
Definition db_set_wals (d : Db) (x : WalSet) : Db := mkDb (open_ d) (unopened_ d) x (db_params d) (db_id d).

(** The files of an edit; edits about column families that are not open are skipped. *)
Definition db_files (d : Db) (e : VersionEdit) : option (Db * option Z) :=
  let id := column_family_ e in
  match unopened_ d !! id with
  | Some _ => Some (d, None)
  | None =>
      cf ← open_ d !! id;
      let '(s, e') := MaybeHandleFileBoundariesForNewFiles e (cfd_of id cf) in
      if ok s then
        contents ← edit_contents (cf_contents cf) e';
        Some (set_open d (<[id := mkCf (cf_name cf) (cf_options cf) contents (cf_log cf) (cf_ts_low cf)]> (open_ d)), Some id)
      else None
  end.
(** The column family it adds, drops or is about *)
Definition db_cf (d : Db) (e : VersionEdit) : option (Db * option Z) :=
  let id := column_family_ e in
  match column_family_name_ e with
  | Some name =>
      if in_db d id then None
      else match options_of name with
           | Some options => Some (set_open d (<[id := mkCf name options (∅, ∅) (default 0 (log_number_ e)) []]> (open_ d)), Some id)
           | None => Some (set_unopened d (<[id := name]> (unopened_ d)), None)
           end
  | None =>
      if is_column_family_drop_ e then
        if bool_decide (is_Some (open_ d !! id)) then Some (set_open d (delete id (open_ d)), None)
        else if bool_decide (is_Some (unopened_ d !! id)) then Some (set_unopened d (delete id (unopened_ d)), None)
        else None
      else
        match wal_additions_ e with
        | _ :: _ => let '(s, wals) := AddWals (db_wals d) (wal_additions_ e) in if ok s then Some (db_set_wals d wals, None) else None
        | [] => if WalDeletion_IsEmpty (wal_deletion_ e) then db_files d e
                else Some (db_set_wals d (snd (DeleteWalsBefore (db_wals d) (wal_deletion_ e))), None)
        end
  end.
(** The number of the log and the timestamp only grow. *)
Definition cf_info (cf : Cf) (e : VersionEdit) : Cf :=
  let c := match log_number_ e with
           | Some n => if n <? cf_log cf then cf_log cf else n
           | None => cf_log cf
           end in
  mkCf (cf_name cf) (cf_options cf) (cf_contents cf) c
    (match full_history_ts_low_ e, cf_ts_low cf with
     | [], ts => ts
     | ts', [] => ts'
     | ts', ts => if 0 <? CompareTimestamp (comparator (cf_options cf)) ts' ts then ts' else ts
     end).
(** The comparator must be the one of the options. *)
Definition db_info (d : Db) (about : option Z) (e : VersionEdit) : option Db :=
  let p := match db_id_ e with Some x => SetDBId (db_params d) x | None => db_params d end in
  let id := match db_id_ e with Some x => x | None => db_id d end in
  match about with
  | None => Some (mkDb (open_ d) (unopened_ d) (db_wals d) (extract_params p e) id)
  | Some i =>
      cf ← open_ d !! i;
      let p := match log_number_ e with Some n => if n <? cf_log cf then p else SetLogNumber p n | None => p end in
      if match comparator_ e with Some name => bool_decide (name = comparator_name (cf_options cf)) | None => true end then
        Some (mkDb (<[i := cf_info cf e]> (open_ d)) (unopened_ d) (db_wals d) (extract_params p e) id)
      else None
  end.
Definition db_edit (d : Db) (e : VersionEdit) : option Db := '(d, about) ← db_cf d e; db_info d about e.
End Spec.

(** ** The handler follows *)

Section Recovers.
Context (o : Options) (wf : ColumnFamilyOptions → bytes → Prop).

(** The options are for a comparator that orders keys, and at least one level. *)
Record options_ok (options : ColumnFamilyOptions) : Prop := {
  oo_laws : ComparatorLaws (wf options) (comparator options);
  oo_levels : (0 < num_levels_option options)%nat
}.

(** What recovery relies on of an edit: an edit of table files fits the files that are
    there, and an edit about logs is about nothing else. *)
Definition db_fits (d : Db) (e : VersionEdit) : Prop :=
  if bool_decide (wal_additions_ e = [] ∧ wal_deletion_ e = kEmpty) then
    ∀ cf, column_family_name_ e = None → is_column_family_drop_ e = false → open_ d !! column_family_ e = Some cf →
      let '(s, e') := MaybeHandleFileBoundariesForNewFiles e (cfd_of (column_family_ e) cf) in
      ok s = true → edit_fits (wf (cf_options cf)) (Z.of_nat (num_levels_option (cf_options cf))) (fst (cf_contents cf)) e'
  else log_number_ e = None ∧ comparator_ e = None ∧ full_history_ts_low_ e = [].
Fixpoint db_edits_fit (d : Db) (es : list VersionEdit) : Prop :=
  match es with
  | [] => True
  | e :: es => db_fits d e ∧ match db_edit o d e with Some d => db_edits_fit d es | None => True end
  end.

Record recovers (h : t) (d : Db) : Prop := {
  rc_names : name_to_options_ h = opened_names o;
  rc_unopened : column_families_not_found_ h = unopened_ d;
  rc_params : version_edit_params_ h = db_params d;
  rc_wals : VersionSet.wals_ (version_set_ h) = db_wals d;
  rc_id : VersionSet.db_id_ (version_set_ h) = db_id d;
  rc_nodup : NoDup (map ColumnFamilyData.id_ (cfds h));
  rc_cfds : ∀ id, VersionSet.GetColumnFamily (version_set_ h) id = cfd_of id <$> open_ d !! id;
  rc_dom : ∀ id, open_ d !! id = None → builders_ h !! id = None;
  rc_builders : ∀ id cf, open_ d !! id = Some cf → options_ok (cf_options cf) ∧
    ∃ r, builders_ h !! id = Some r ∧
      holds (wf (cf_options cf)) (empty_version (cf_options cf)) r (fst (cf_contents cf)) (snd (cf_contents cf))
}.

(** *** The set of column families *)

Lemma find_map_id (l : list ColumnFamilyData.t) id i f : (∀ c, ColumnFamilyData.id_ (f c) = ColumnFamilyData.id_ c) →
  List.find (λ c, ColumnFamilyData.id_ c =? id) (map (λ c, if ColumnFamilyData.id_ c =? i then f c else c) l) =
  (if id =? i then f else λ c, c) <$> List.find (λ c, ColumnFamilyData.id_ c =? id) l.
Proof using.
  intros Hf. induction l as [|c l IH]; [done|]. cbn [map List.find]. destruct (Z.eqb_spec (ColumnFamilyData.id_ c) i) as [E|E].
  - rewrite Hf. destruct (Z.eqb_spec (ColumnFamilyData.id_ c) id) as [E'|E']; [|exact IH]. cbn. rewrite <- E', E, Z.eqb_refl. done.
  - destruct (Z.eqb_spec (ColumnFamilyData.id_ c) id) as [E'|E']; [|exact IH]. cbn. by rewrite (proj2 (Z.eqb_neq _ _)) by congruence.
Qed.
Lemma GetColumnFamily_update v i f id : (∀ c, ColumnFamilyData.id_ (f c) = ColumnFamilyData.id_ c) →
  VersionSet.GetColumnFamily (VersionSet.update_cf v i f) id = (if id =? i then f else λ c, c) <$> VersionSet.GetColumnFamily v id.
Proof using. apply find_map_id. Qed.
Lemma ids_update v i f : (∀ c, ColumnFamilyData.id_ (f c) = ColumnFamilyData.id_ c) →
  map ColumnFamilyData.id_ (VersionSet.column_family_set_ (VersionSet.update_cf v i f)) = map ColumnFamilyData.id_ (VersionSet.column_family_set_ v).
Proof using.
  intros Hf. cbn. rewrite map_map. apply map_ext. intros c. by destruct (_ =? i).
Qed.
Lemma GetColumnFamily_app l c id :
  List.find (λ c, ColumnFamilyData.id_ c =? id) (l ++ [c]) =
  match List.find (λ c, ColumnFamilyData.id_ c =? id) l with Some x => Some x | None => if ColumnFamilyData.id_ c =? id then Some c else None end.
Proof using. induction l as [|x l IH]; [done|]. cbn. destruct (ColumnFamilyData.id_ x =? id); [done|exact IH]. Qed.
Lemma GetColumnFamily_in v id c : VersionSet.GetColumnFamily v id = Some c → c ∈ VersionSet.column_family_set_ v ∧ ColumnFamilyData.id_ c = id.
Proof using. intros [Hc E%Z.eqb_eq]%find_some. split; [by apply list_elem_of_In|done]. Qed.
Lemma GetColumnFamily_none v id c : VersionSet.GetColumnFamily v id = None → c ∈ VersionSet.column_family_set_ v → ColumnFamilyData.id_ c ≠ id.
Proof using. intros H Hc. apply list_elem_of_In in Hc. by apply (find_none _ _ H), Z.eqb_neq in Hc. Qed.
Lemma GetColumnFamily_drop v i id :
  VersionSet.GetColumnFamily (VersionSet.DropColumnFamily v i) id = if id =? i then None else VersionSet.GetColumnFamily v id.
Proof using.
  unfold VersionSet.GetColumnFamily, VersionSet.DropColumnFamily. cbn. induction (VersionSet.column_family_set_ v) as [|c l IH]; [by destruct (id =? i)|].
  cbn. destruct (Z.eqb_spec (ColumnFamilyData.id_ c) i) as [E|E]; cbn.
  - rewrite IH. destruct (Z.eqb_spec id i); [done|]. by rewrite (proj2 (Z.eqb_neq _ _)) by congruence.
  - rewrite IH. destruct (Z.eqb_spec (ColumnFamilyData.id_ c) id); [by rewrite (proj2 (Z.eqb_neq _ _)) by congruence|done].
Qed.

(** *** The empty version *)

Lemma empty_files options : files_ (empty_version options) = replicate (num_levels_option options) [].
Proof using. done. Qed.
Lemma empty_LevelFiles options l : LevelFiles (empty_version options) l = [].
Proof using.
  unfold LevelFiles. rewrite empty_files. destruct (replicate _ _ !! _) eqn:E; [|done]. by apply lookup_replicate in E as [-> _].
Qed.
Lemma located_empty n : ∀ level, located level (replicate n []) = [].
Proof using. induction n as [|n IH]; intros level; [done|]. cbn. apply IH. Qed.
Lemma empty_lsm options : lsm_of (empty_version options) = ∅.
Proof using. unfold lsm_of. by rewrite empty_files, located_empty. Qed.
Lemma empty_levels options : num_levels (empty_version options) = Z.of_nat (num_levels_option options).
Proof using. unfold num_levels. by rewrite empty_files, length_replicate. Qed.
Lemma empty_base_ok options requirement : options_ok options → base_ok (wf options) (comparator options) (empty_version options) requirement.
Proof using.
  intros [Hl Hn]. split; [split|left; apply empty_LevelFiles].
  - rewrite empty_files. destruct (num_levels_option options); [lia|done].
  - split; [by rewrite empty_files, located_empty; constructor|done].
  - split.
    + rewrite empty_LevelFiles. constructor.
    + by rewrite empty_LevelFiles.
    + intros level _. rewrite empty_LevelFiles. constructor.
    + by intros m ?%elem_of_nil.
  - intros level f. rewrite empty_LevelFiles. by intros ?%elem_of_nil.
  - constructor.
  - by intros x ?%elem_of_nil.
Qed.
Lemma empty_holds options : options_ok options → holds (wf options) (empty_version options) (NewRep (empty_version options)) ∅ ∅.
Proof using.
  intros Ho. pose proof (oo_laws _ Ho) as Hl. pose proof (NewRep_holds (wf options) (comparator options) _ _ (empty_base_ok options kMustPresent Ho)) as H.
  by rewrite empty_lsm in H.
Qed.

(** *** Steps *)

Context (Ho : ∀ name options, options_of o name = Some options → options_ok options).

Lemma recovers_found h d e : recovers h d →
  CheckColumnFamilyId h e = (bool_decide (is_Some (unopened_ d !! column_family_ e)), bool_decide (is_Some (open_ d !! column_family_ e))).
Proof using.
  intros H. unfold CheckColumnFamilyId. rewrite (rc_unopened _ _ H). f_equal. apply bool_decide_ext.
  destruct (open_ d !! column_family_ e) as [cf|] eqn:E.
  - destruct (rc_builders _ _ H _ _ E) as (_ & r & -> & _). done.
  - by rewrite (rc_dom _ _ H _ E).
Qed.

Lemma recovers_create h d e name options : recovers h d → open_ d !! column_family_ e = None → column_family_name_ e = Some name →
  options_ok options →
  recovers (CreateCfAndInit h options e) (set_open d (<[column_family_ e := mkCf name options (∅, ∅) (default 0 (log_number_ e)) []]> (open_ d))).
Proof using.
  intros [H1 H2 H3 H4 H5 H6 H7 H8 H9] Hopen Hname Hok. unfold CreateCfAndInit, VersionSet.CreateColumnFamily. rewrite Hname. cbn [default from_option id].
  pose proof (H7 (column_family_ e)) as Hn. rewrite Hopen in Hn. cbn in Hn.
  split; [done..| | | |].
  - unfold cfds. cbn. rewrite map_app. apply NoDup_app. split_and!; [done| |by apply NoDup_singleton]. cbn.
    intros i (c & -> & Hc)%list_elem_of_fmap Hi%list_elem_of_singleton. by apply (GetColumnFamily_none _ _ c Hn) in Hc.
  - intros id. unfold VersionSet.GetColumnFamily. cbn. rewrite GetColumnFamily_app. fold (VersionSet.GetColumnFamily (version_set_ h) id). rewrite H7.
    destruct (Z.eq_dec (column_family_ e) id) as [<-|Hne]; cbn.
    + by rewrite Hopen, lookup_insert_eq, Z.eqb_refl.
    + rewrite lookup_insert_ne, (proj2 (Z.eqb_neq _ _)) by done. by destruct (open_ d !! id).
  - intros id. cbn. intros [Hne Hid]%lookup_insert_None. unfold emplace. rewrite (H8 _ Hopen), lookup_insert_ne by done. by apply H8.
  - intros id cf. cbn. unfold emplace. rewrite (H8 _ Hopen). intros [[<- <-]|[Hne Hid]]%lookup_insert_Some.
    + cbn. split; [done|]. eexists. rewrite lookup_insert_eq. split; [done|]. by apply empty_holds.
    + rewrite lookup_insert_ne by done. by apply H9.
Qed.

(** What the methods of the handler do, against the maps *)
Definition follows (x : option (Status * option Z * t)) (spec : option (Db * option Z)) : Prop :=
  ∃ s about h, x = Some (s, about, h) ∧
  match spec with None => ok s = false | Some (d, about') => ok s = true ∧ about = about' ∧ recovers h d end.

Lemma add_follows h d e name : recovers h d → column_family_name_ e = Some name → follows (Some (OnColumnFamilyAdd o h e)) (db_cf o d e).
Proof using Ho.
  intros H Hname. unfold OnColumnFamilyAdd, db_cf. rewrite (recovers_found h d e H), Hname. unfold in_db. cbn [default from_option id].
  destruct (bool_decide (is_Some (open_ d !! column_family_ e)) || _) eqn:E; [by eexists _, _, _|].
  apply orb_false_iff in E as [Eo%bool_decide_eq_false Eu%bool_decide_eq_false]. apply eq_None_not_Some in Eo, Eu.
  rewrite (rc_names _ _ H). pose proof (Ho name) as Hop. unfold options_of in *.
  case_bool_decide as En.
  - assert (follows (Some (Status_OK, Some (column_family_ e), CreateCfAndInit h (PersistentStats o) e))
      (Some (set_open d (<[column_family_ e := mkCf name (PersistentStats o) (∅, ∅) (default 0 (log_number_ e)) []]> (open_ d)), Some (column_family_ e)))) as Hf.
    { do 3 eexists. split_and!; [done..|]. apply recovers_create; [done..|]. by apply Hop. }
    by destruct (opened_names o !! name).
  - destruct (opened_names o !! name) as [options|] eqn:Eo'.
    + do 3 eexists. split_and!; [done..|]. apply recovers_create; [done..|]. by apply Hop.
    + do 3 eexists. split_and!; [done..|]. destruct H as [H1 H2 H3 H4 H5 H6 H7 H8 H9]. split; try done. cbn. rewrite H2. unfold emplace. by rewrite Eu.
Qed.

Lemma NoDup_map_filter {A B} (f : A → B) (p : A → bool) l : NoDup (map f l) → NoDup (map f (List.filter p l)).
Proof using.
  induction l as [|x l IH]; [done|]. cbn. intros [Hx Hl]%NoDup_cons. destruct (p x); [|by apply IH]. cbn. apply NoDup_cons. split; [|by apply IH].
  intros (y & E & [Hy _]%elem_of_list_filter_bool)%list_elem_of_fmap. apply Hx. rewrite E. by apply list_elem_of_fmap_2.
Qed.
Lemma recovers_drop h d e : recovers h d → recovers (DestroyCfAndCleanup h e) (set_open d (delete (column_family_ e) (open_ d))).
Proof using.
  intros [H1 H2 H3 H4 H5 H6 H7 H8 H9]. split; try done.
  - by apply NoDup_map_filter.
  - intros id. unfold DestroyCfAndCleanup. cbn [version_set_ set_version_set open_ set_open]. rewrite GetColumnFamily_drop, H7. destruct (Z.eqb_spec id (column_family_ e)) as [->|]; [by rewrite lookup_delete_eq|].
    by rewrite lookup_delete_ne by done.
  - intros id. cbn. rewrite !lookup_delete_None. intros [->|Hid]; [by left|right; by apply H8].
  - intros id cf. cbn. intros [Hne Hid]%lookup_delete_Some. rewrite lookup_delete_ne by done. by apply H9.
Qed.
Lemma drop_follows h d e : recovers h d → column_family_name_ e = None → is_column_family_drop_ e = true →
  follows (Some (OnColumnFamilyDrop h e)) (db_cf o d e).
Proof using.
  intros H Hname Hd. unfold OnColumnFamilyDrop, db_cf. rewrite (recovers_found h d e H), Hname, Hd.
  case_bool_decide as Eo; [|case_bool_decide as Eu]; [| |by eexists _, _, _].
  - do 3 eexists. split_and!; [done..|]. by apply recovers_drop.
  - do 3 eexists. split_and!; [done..|]. destruct H as [H1 H2 H3 H4 H5 H6 H7 H8 H9]. split; try done. cbn. by rewrite H2.
Qed.

Lemma recovers_wals h d wals : recovers h d →
  recovers (set_version_set h (VersionSet.set_wals (version_set_ h) wals)) (db_set_wals d wals).
Proof using. by intros [H1 H2 H3 H4 H5 H6 H7 H8 H9]; split. Qed.
Lemma wals_follow h d e : recovers h d → column_family_name_ e = None → is_column_family_drop_ e = false →
  bool_decide (wal_additions_ e = [] ∧ wal_deletion_ e = kEmpty) = false →
  follows (Some (match wal_additions_ e with _ :: _ => OnWalAddition h e | [] => OnWalDeletion h e end)) (db_cf o d e).
Proof using.
  intros H Hname Hd Hw%bool_decide_eq_false. unfold db_cf. rewrite Hname, Hd. destruct (wal_additions_ e) as [|w ws] eqn:Ew.
  - unfold WalDeletion_IsEmpty. rewrite (proj2 (Z.eqb_neq _ _)) by tauto. unfold OnWalDeletion. rewrite (rc_wals _ _ H).
    destruct (DeleteWalsBefore _ _) as [s wals] eqn:E. assert (s = Status_OK) as -> by (unfold DeleteWalsBefore in E; destruct (_ <? _) in E; by injection E).
    do 3 eexists. split_and!; [done..|]. by apply recovers_wals.
  - unfold OnWalAddition. rewrite Ew, (rc_wals _ _ H). destruct (AddWals _ _) as [s wals]. do 3 eexists. split; [done|].
    destruct (ok s) eqn:E; [|done]. split_and!; [done..|]. by apply recovers_wals.
Qed.

Lemma recovers_builder h d id cf r contents : recovers h d → open_ d !! id = Some cf →
  holds (wf (cf_options cf)) (empty_version (cf_options cf)) r (fst contents) (snd contents) →
  recovers (set_builders h (<[id := r]> (builders_ h))) (set_open d (<[id := mkCf (cf_name cf) (cf_options cf) contents (cf_log cf) (cf_ts_low cf)]> (open_ d))).
Proof using.
  intros [H1 H2 H3 H4 H5 H6 H7 H8 H9] Hid Hr. split; try done.
  - intros i. cbn. rewrite H7. destruct (Z.eq_dec i id) as [->|]; [by rewrite Hid, lookup_insert_eq|by rewrite lookup_insert_ne].
  - intros i. cbn. intros [Hne Hi]%lookup_insert_None. rewrite lookup_insert_ne by done. by apply H8.
  - intros i cf'. cbn. intros [[<- <-]|[Hne Hi]]%lookup_insert_Some.
    + split; [by destruct (H9 _ _ Hid)|]. exists r. by rewrite lookup_insert_eq.
    + rewrite lookup_insert_ne by done. by apply H9.
Qed.
Lemma files_follow h d e : recovers h d → db_fits d e → column_family_name_ e = None → is_column_family_drop_ e = false →
  bool_decide (wal_additions_ e = [] ∧ wal_deletion_ e = kEmpty) = true → follows (OnNonCfOperation h e) (db_files d e).
Proof using.
  intros H Hf Hname Hd Hw. unfold OnNonCfOperation, db_files. unfold db_fits in Hf. rewrite Hw in Hf. rewrite (recovers_found h d e H).
  destruct (unopened_ d !! column_family_ e); [by eexists _, _, _|]. rewrite bool_decide_eq_false_2 by apply is_Some_None.
  destruct (open_ d !! column_family_ e) as [cf|] eqn:E; [|by eexists _, _, _]. rewrite bool_decide_eq_true_2 by done. cbn [negb mbind option_bind].
  specialize (Hf cf Hname Hd eq_refl). destruct (rc_builders _ _ H _ _ E) as (Hok & r & Hr & Hh).
  rewrite Hr, (rc_cfds _ _ H), E. cbn [fmap option_fmap option_map mbind option_bind].
  assert (∀ e', snd (MaybeHandleFileBoundariesForNewFiles e (cfd_of (column_family_ e) cf)) = e' → column_family_ e' = column_family_ e) as Hid.
  { intros e' <-. unfold MaybeHandleFileBoundariesForNewFiles. repeat case_match; done. }
  destruct (MaybeHandleFileBoundariesForNewFiles e _) as [s e'] eqn:Eb. specialize (Hid e' eq_refl).
  destruct (ok s) eqn:Es; cbn [negb]; [|by eexists _, _, _].
  pose proof (oo_laws _ Hok) as Hlaws. pose proof (empty_base_ok _ kMustPresent Hok) as Hbase.
  destruct (apply_edit (wf (cf_options cf)) (comparator (cf_options cf)) (empty_version (cf_options cf)) r (cf_contents cf) e')
    as (s' & r' & Ea & Hs'); [by eapply base_consistent|done|by rewrite empty_levels; apply Hf|].
  unfold ColumnFamilyData.user_comparator. cbn [cfd_of ColumnFamilyData.options_]. rewrite Ea. cbn [mbind option_bind].
  do 3 eexists. split; [done|]. destruct (edit_contents (cf_contents cf) e') as [contents|]; cbn [mbind option_bind].
  - destruct Hs' as [-> Hr']. rewrite Hid. split_and!; [done..|]. by apply recovers_builder.
  - by apply corruption_not_ok.
Qed.

(** *** What an edit says besides *)

Definition set_db_params (d : Db) (p : VersionEdit) : Db := mkDb (open_ d) (unopened_ d) (db_wals d) p (db_id d).
Lemma recovers_params h d p : recovers h d → recovers (set_params h p) (set_db_params d p).
Proof using. by intros [H1 H2 H3 H4 H5 H6 H7 H8 H9]; split. Qed.
Lemma recovers_update h d i cf cf' f : recovers h d → open_ d !! i = Some cf → f (cfd_of i cf) = cfd_of i cf' →
  cf_options cf' = cf_options cf → cf_contents cf' = cf_contents cf → (∀ c, ColumnFamilyData.id_ (f c) = ColumnFamilyData.id_ c) →
  recovers (set_version_set h (VersionSet.update_cf (version_set_ h) i f)) (set_open d (<[i := cf']> (open_ d))).
Proof using.
  intros [H1 H2 H3 H4 H5 H6 H7 H8 H9] Hi Hf Ho' Hc Hid. split; try done.
  - unfold cfds. cbn [version_set_ set_version_set]. by rewrite ids_update.
  - intros id. cbn [version_set_ set_version_set open_ set_open]. rewrite GetColumnFamily_update, H7 by done. destruct (Z.eqb_spec id i) as [->|].
    + rewrite Hi, lookup_insert_eq. cbn. by rewrite Hf.
    + rewrite lookup_insert_ne by done. by destruct (open_ d !! id).
  - intros id. cbn. intros [Hid' _]%lookup_insert_None. by apply H8.
  - intros id c. cbn. intros [[<- <-]|[_ Hid']]%lookup_insert_Some; [rewrite Ho', Hc|]; by apply H9.
Qed.

Lemma extract_cf_follows h d i cf e : recovers h d → open_ d !! i = Some cf →
  ∃ s h', extract_cf h i e = Some (s, h') ∧
    ok s = match comparator_ e with Some name => bool_decide (name = comparator_name (cf_options cf)) | None => true end ∧
    recovers h' (set_db_params (set_open d (<[i := cf_info cf e]> (open_ d)))
      (match log_number_ e with Some n => if n <? cf_log cf then db_params d else SetLogNumber (db_params d) n | None => db_params d end)).
Proof using.
  intros H Hi. unfold extract_cf. rewrite (rc_cfds _ _ H), Hi. cbn [fmap option_fmap option_map mbind option_bind].
  change (ColumnFamilyData.log_number_ (cfd_of i cf)) with (cf_log cf). change (ColumnFamilyData.options_ (cfd_of i cf)) with (cf_options cf).
  set (log := match log_number_ e with Some n => if n <? cf_log cf then cf_log cf else n | None => cf_log cf end).
  set (p := match log_number_ e with Some n => if n <? cf_log cf then db_params d else SetLogNumber (db_params d) n | None => db_params d end).
  set (cf1 := mkCf (cf_name cf) (cf_options cf) (cf_contents cf) log (cf_ts_low cf)).
  set (h1 := match log_number_ e with Some log_number => _ | None => h end).
  assert (recovers h1 (set_db_params (set_open d (<[i := cf1]> (open_ d))) p)) as H1.
  { assert (cf1 = cf → p = db_params d → recovers h (set_db_params (set_open d (<[i := cf1]> (open_ d))) p)) as Hsame.
    { intros -> ->. rewrite insert_id by done. by destruct d. }
    unfold h1, p, cf1, log in *. destruct (log_number_ e) as [n|]; [|apply Hsame; by destruct cf]. destruct (n <? cf_log cf); [apply Hsame; by destruct cf|].
    rewrite (rc_params _ _ H). apply recovers_params. by apply (recovers_update h d i cf). }
  eexists _, _. split; [done|]. split; [by destruct (comparator_ e); [case_bool_decide|]|].
  unfold cf_info. fold log. destruct (full_history_ts_low_ e) as [|b ts] eqn:Et; [exact H1|].
  pose proof (recovers_update h1 _ i cf1 (cf_info cf e) (λ c, ColumnFamilyData.SetFullHistoryTsLow c (b :: ts)) H1) as H2.
  unfold cf_info in H2. rewrite Et in H2. fold log in H2. cbn [open_ set_open set_db_params] in H2. rewrite lookup_insert_eq, insert_insert_eq in H2.
  apply H2; try done.
  - unfold ColumnFamilyData.SetFullHistoryTsLow, cfd_of, cf1. cbn. destruct (cf_ts_low cf); [done|]. by destruct (0 <? _).
  - intros c. unfold ColumnFamilyData.SetFullHistoryTsLow. destruct (ColumnFamilyData.full_history_ts_low_ c); [done|]. by destruct (0 <? _).
Qed.

Lemma info_follows h d about e : recovers h d → (∀ i, about = Some i → is_Some (open_ d !! i)) →
  ∃ s h', ExtractInfoFromVersionEdit h about e = Some (s, h') ∧
    match db_info d about e with None => ok s = false | Some d' => ok s = true ∧ recovers h' d' end.
Proof using.
  intros H Ha. unfold ExtractInfoFromVersionEdit, db_info.
  set (h1 := match db_id_ e with Some x => _ | None => h end). set (p := match db_id_ e with Some x => _ | None => db_params d end).
  set (x := match db_id_ e with Some x => x | None => db_id d end).
  assert (recovers h1 (mkDb (open_ d) (unopened_ d) (db_wals d) p x)) as H1.
  { unfold h1, p, x. destruct (db_id_ e); [|by destruct d]. destruct H as [H1 H2 H3 H4 H5 H6 H7 H8 H9]. split; try done. cbn. by rewrite H3. }
  destruct about as [i|].
  - destruct (Ha i eq_refl) as [cf Hi]. destruct (extract_cf_follows _ _ i cf e H1 Hi) as (s & h' & -> & Hs & H'). cbn [mbind option_bind]. rewrite Hi. cbn [mbind option_bind].
    do 2 eexists. split; [done|]. rewrite Hs. destruct (match comparator_ e with Some name => _ | None => true end); [|done]. split; [done|].
    rewrite (rc_params _ _ H'). exact (recovers_params _ _ _ H').
  - cbn [mbind option_bind]. do 2 eexists. split; [done|]. cbn [ok code_ Status_OK]. split; [done|]. rewrite (rc_params _ _ H1). exact (recovers_params _ _ _ H1).
Qed.

(** *** Edits *)

Lemma db_cf_about d e d' i : db_cf o d e = Some (d', Some i) → is_Some (open_ d' !! i).
Proof using.
  unfold db_cf, db_files. intros H. repeat (case_match || done).
  all: repeat match goal with H : Some _ = Some _ |- _ => injection H as <- <- end; try done.
  all: try (cbn; by rewrite lookup_insert_eq).
  all: destruct (open_ d !! column_family_ e) as [cf|]; cbn [mbind option_bind] in H; [|done]; repeat (case_match || done).
  all: destruct (edit_contents _ _); cbn [mbind option_bind] in H; [|done]; injection H as <- <-; cbn; by rewrite lookup_insert_eq.
Qed.

Lemma cf_follows h d e : recovers h d → db_fits d e →
  follows (match column_family_name_ e with
    | Some _ => Some (OnColumnFamilyAdd o h e)
    | None =>
        if is_column_family_drop_ e then Some (OnColumnFamilyDrop h e)
        else match wal_additions_ e with
             | _ :: _ => Some (OnWalAddition h e)
             | [] => if negb (WalDeletion_IsEmpty (wal_deletion_ e)) then Some (OnWalDeletion h e) else OnNonCfOperation h e
             end
    end) (db_cf o d e).
Proof using Ho.
  intros H Hf. destruct (column_family_name_ e) as [name|] eqn:En; [by apply (add_follows h d e name)|].
  destruct (is_column_family_drop_ e) eqn:Ed; [by apply drop_follows|].
  destruct (bool_decide (wal_additions_ e = [] ∧ wal_deletion_ e = kEmpty)) eqn:Ew.
  - pose proof (files_follow h d e H Hf En Ed Ew) as Hff. apply bool_decide_eq_true in Ew as [Ea Ew]. rewrite Ea, Ew. cbn [negb WalDeletion_IsEmpty].
    unfold db_cf. rewrite En, Ed, Ea, Ew. exact Hff.
  - pose proof (wals_follow h d e H En Ed Ew) as Hw. apply bool_decide_eq_false in Ew. destruct (wal_additions_ e) as [|w ws] eqn:Ea; [|exact Hw].
    unfold WalDeletion_IsEmpty. rewrite (proj2 (Z.eqb_neq _ _)) by tauto. exact Hw.
Qed.

Lemma edit_follows h d e : recovers h d → db_fits d e →
  ∃ s h', ApplyVersionEdit o h e = Some (s, h') ∧
    match db_edit o d e with None => ok s = false | Some d' => ok s = true ∧ recovers h' d' end.
Proof using Ho.
  intros H Hf. unfold ApplyVersionEdit, db_edit. destruct (cf_follows h d e H Hf) as (s & about & h1 & -> & Hs). cbn [mbind option_bind].
  destruct (db_cf o d e) as [[d1 about']|] eqn:E; cbn [mbind option_bind].
  - destruct Hs as (-> & -> & H1). apply info_follows; [done|]. intros i ->. by apply (db_cf_about d e).
  - rewrite Hs. by exists s, h1.
Qed.

Lemma edits_follow {R U} `{!SequentialFile R} es : ∀ s h d, ok s = true → recovers h d → db_edits_fit d es →
  ∃ s' h', ApplyEdits (Handler (R := R) (U := U) o) s (Some h) es = (s', Some h') ∧
    match each (db_edit o) d es with None => ok s' = false | Some d' => ok s' = true ∧ recovers h' d' end.
Proof using Ho.
  induction es as [|e es IH]; intros s h d Hs H Hf; [by exists s, h|]. destruct Hf as [He Hf]. cbn [ApplyEdits each].
  destruct (edit_follows h d e H He) as (s1 & h1 & E & H1).
  change (Manifest.ApplyVersionEdit (option t) (Handler o) (Some h) e) with (lift (ApplyVersionEdit o h e)). rewrite E. cbn [lift].
  destruct (db_edit o d e) as [d'|]; cbn [mbind option_bind].
  - destruct H1 as [Hs1 H1]. rewrite Hs1. by apply IH.
  - rewrite H1. by exists s1, h1.
Qed.

(** At the start the default column family is open. *)
Definition initial_db (options : ColumnFamilyOptions) (v : VersionSet.t) : Db :=
  mkDb {[0 := mkCf kDefaultColumnFamilyName options (∅, ∅) 0 []]} ∅ (VersionSet.wals_ v) Clear (VersionSet.db_id_ v).
Lemma Initialize_recovers v options : VersionSet.column_family_set_ v = [] → opened_names o !! kDefaultColumnFamilyName = Some options →
  ∃ h, Initialize o (New v) = (Status_OK, h) ∧ recovers h (initial_db options v).
Proof using Ho.
  intros Hv Hd. unfold Initialize. cbn [New initialized_ name_to_options_]. fold (opened_names o). rewrite Hd. eexists. split; [done|].
  assert (options_ok options) as Hok by (apply (Ho kDefaultColumnFamilyName); unfold options_of; rewrite bool_decide_eq_false_2; done).
  set (e := SetColumnFamily (AddColumnFamily Clear kDefaultColumnFamilyName) 0).
  assert (recovers (set_names (New v) (opened_names o)) (mkDb ∅ ∅ (VersionSet.wals_ v) Clear (VersionSet.db_id_ v))) as H0.
  { split; try done.
    - unfold cfds. cbn. rewrite Hv. constructor.
    - intros id. unfold VersionSet.GetColumnFamily. cbn. by rewrite Hv, lookup_empty. }
  pose proof (recovers_create _ _ e kDefaultColumnFamilyName options H0 (lookup_empty _) eq_refl Hok) as [H1 H2 H3 H4 H5 H6 H7 H8 H9].
  split; try done.
Qed.

(** ** The end of the manifest *)

Lemma recovers_cfd h d c : recovers h d → c ∈ cfds h ↔ ∃ id cf, open_ d !! id = Some cf ∧ c = cfd_of id cf.
Proof using.
  intros H. split.
  - intros Hc. pose proof (rc_nodup _ _ H) as Hn. unfold cfds in *.
    assert (VersionSet.GetColumnFamily (version_set_ h) (ColumnFamilyData.id_ c) = Some c) as E.
    { unfold VersionSet.GetColumnFamily. clear H. induction (VersionSet.column_family_set_ (version_set_ h)) as [|x l IH]; [by apply elem_of_nil in Hc|].
      cbn in Hn |- *. apply NoDup_cons in Hn as [Hx Hn]. apply elem_of_cons in Hc as [->|Hc]; [by rewrite Z.eqb_refl|].
      rewrite (proj2 (Z.eqb_neq _ _)); [by apply IH|]. intros E. apply Hx. rewrite E. by apply list_elem_of_fmap_2. }
    rewrite (rc_cfds _ _ H) in E. apply fmap_Some in E as (cf & Hcf & ->). eauto.
  - intros (id & cf & Hid & ->). pose proof (rc_cfds _ _ H id) as E. rewrite Hid in E. by apply GetColumnFamily_in in E as [E _].
Qed.

(** A loop that changes nothing *)
Lemma for_cfds_check f h l (P : ColumnFamilyData.t → Prop) : (∀ c, c ∈ l → ∃ s, f h c = Some (s, h) ∧ (ok s = true ↔ P c)) →
  ∃ s, for_cfds f h l = Some (s, h) ∧ (ok s = true ↔ ∀ c, c ∈ l → P c).
Proof using.
  induction l as [|c l IH]; intros Hf; [exists Status_OK; split; [done|]; split; [|done]; by intros _ c ?%elem_of_nil|].
  destruct (Hf c) as (s & E & Hs); [left|]. destruct IH as (s' & E' & Hs'); [intros x Hx; apply Hf; by right|]. cbn [for_cfds]. rewrite E. cbn [mbind option_bind].
  destruct (ok s) eqn:Eok.
  - exists s'. split; [done|]. rewrite Hs'. split.
    + intros Hl x [->|Hx]%elem_of_cons; [by apply Hs|by apply Hl].
    + intros Hl x Hx. apply Hl. by right.
  - exists s. split; [done|]. rewrite Eok. split; [done|]. intros Hl. apply Hs. apply Hl. left.
Qed.

(** What marking numbers as used leaves as it was *)
Definition same_parts (v v' : VersionSet.t) : Prop :=
  VersionSet.column_family_set_ v' = VersionSet.column_family_set_ v ∧ VersionSet.wals_ v' = VersionSet.wals_ v ∧
  VersionSet.db_id_ v' = VersionSet.db_id_ v.
Lemma same_parts_file v v' x : same_parts v v' → same_parts v (VersionSet.MarkFileNumberUsed v' x).
Proof using. unfold VersionSet.MarkFileNumberUsed. by destruct (_ <=? _). Qed.
Lemma same_parts_log v v' x : same_parts v v' → same_parts v (VersionSet.MarkMinLogNumberToKeep v' x).
Proof using. unfold VersionSet.MarkMinLogNumberToKeep. by destruct (_ <? _). Qed.
Lemma recovers_mark h d : recovers h d → recovers (mark_numbers h) d ∧ cfds (mark_numbers h) = cfds h.
Proof using.
  intros [H1 H2 H3 H4 H5 H6 H7 H8 H9].
  assert (same_parts (version_set_ h) (version_set_ (mark_numbers h))) as (Hc & Hw & Hi) by by apply same_parts_file, same_parts_file, same_parts_log.
  split; [|exact Hc]. split; try done; unfold cfds; rewrite ?Hc, ?Hw, ?Hi; try done.
  intros id. rewrite <- H7. unfold VersionSet.GetColumnFamily. by rewrite Hc.
Qed.

Definition levels_valid (cf : Cf) : Prop :=
  ∀ n l f, fst (cf_contents cf) !! n = Some (l, f) → l < Z.of_nat (num_levels_option (cf_options cf)).
Definition small (cf : Cf) : Prop :=
  Z.of_nat (size (fst (cf_contents cf))) + Z.of_nat (num_levels_option (cf_options cf)) < 2 ^ 63.

Lemma check_levels_follow h d : recovers h d → (∀ id cf, open_ d !! id = Some cf → small cf) →
  ∃ s, for_cfds check_num_levels h (cfds h) = Some (s, h) ∧ (ok s = true ↔ ∀ id cf, open_ d !! id = Some cf → levels_valid cf).
Proof using.
  intros H Hsmall. destruct (for_cfds_check check_num_levels h (cfds h) (λ c, ∀ id cf, open_ d !! id = Some cf → c = cfd_of id cf → levels_valid cf)) as (s & E & Hs).
  { intros c (id & cf & Hid & ->)%(recovers_cfd h d c H). destruct (rc_builders _ _ H _ _ Hid) as (_ & r & Hr & Hh).
    unfold check_num_levels. cbn [cfd_of ColumnFamilyData.id_]. rewrite Hr. eexists. split; [done|].
    assert ((CheckConsistencyForNumLevels r = true) ↔ levels_valid cf) as Hl.
    { rewrite (CheckConsistencyForNumLevels_spec _ _ (ho_files _ _ _ _ _ Hh)) by (specialize (Hsmall id cf Hid); unfold small in Hsmall; lia).
      unfold levels_valid. rewrite (ho_levels _ _ _ _ _ Hh), empty_levels. done. }
    split.
    - intros Hc id' cf' Hid' E. injection E as <- _ _ _ _. rewrite Hid in Hid'. injection Hid' as <-. apply Hl. by destruct (CheckConsistencyForNumLevels r).
    - intros Hc. by rewrite (proj2 Hl (Hc id cf Hid eq_refl)). }
  exists s. split; [done|]. rewrite Hs. split.
  - intros Hc id cf Hid. apply (Hc (cfd_of id cf)) with (id := id); [|done..]. apply (recovers_cfd h d); [done|]. eauto.
  - intros Hl c _ id cf Hid _. by apply (Hl id).
Qed.

(** A failure to open tables that does not stop recovery: checks are not paranoid, or
    files may be missing and one is missing or corrupt. *)
Definition forgiven (s : IOStatus) : Prop :=
  paranoid_checks o = false ∨ no_error_if_files_missing_ o = true ∧ (IsPathNotFound s = true ∨ IsCorruption (fst s) = true).
(** The first of the tables of a column family that recovery opens and that fails, if
    there is one, is forgiven. *)
Definition tables_open (id : Z) (tables : list (FileMetaData * Z)) : Prop :=
  skip_load_table_files_ o = true ∨
  let opened := take (Z.to_nat (load_count (table_cache_ o id) true)) tables in
  match List.find (λ s, negb (ok (fst s))) (map (λ '(f, level), TableCache.FindTable (table_cache_ o id) f level) opened) with
  | Some s => forgiven s
  | None => True
  end.
(** The tables of a column family in the order in which the maps of its builder are
    iterated over *)
Definition tables_of (h : t) (id : Z) : list (FileMetaData * Z) :=
  match builders_ h !! id with Some r => all_tables (map_iteration o) (λ _, false) 0 (levels_ r) | None => [] end.
(** The files of the column family on the levels that its options have *)
Definition on_levels (cf : Cf) : Lsm := filter (λ p, fst (snd p) < Z.of_nat (num_levels_option (cf_options cf))) (fst (cf_contents cf)).

Lemma tables_of_live h d id cf : visits_all (map_iteration o) → recovers h d → open_ d !! id = Some cf →
  map table_entry (tables_of h id) ≡ₚ map_to_list (on_levels cf).
Proof using.
  intros Hi H Hid. destruct (rc_builders _ _ H _ _ Hid) as (_ & r & Hr & Hh). unfold tables_of, on_levels. rewrite Hr.
  rewrite (all_tables_live _ Hi r (fst (cf_contents cf)) (ho_files _ _ _ _ _ Hh)).
  - rewrite (ho_levels _ _ _ _ _ Hh), empty_levels. done.
  - rewrite (ho_base _ _ _ _ _ Hh). apply empty_lsm.
Qed.

Lemma load_tables_status h c r : builders_ h !! ColumnFamilyData.id_ c = Some r → ∃ s, load_tables o h c = Some (s, h) ∧
  (ok s = true ↔ tables_open (ColumnFamilyData.id_ c) (all_tables (map_iteration o) (λ _, false) 0 (levels_ r))).
Proof using.
  intros Hr. unfold load_tables, LoadTables, tables_open. destruct (skip_load_table_files_ o); [eexists; split; [done|]; split; [by left|done]|].
  rewrite Hr. cbn [mbind option_bind]. eexists. split; [done|]. rewrite LoadTableHandlers_spec.
  destruct (List.find _ _) as [s|] eqn:Ef; cbn [default from_option Datatypes.id]; [|split; [by right|done]].
  apply List.find_some in Ef as [_ Es]. apply negb_true_iff in Es. unfold forgiven.
  destruct (paranoid_checks o); cbn [negb]; [|rewrite andb_true_r].
  - rewrite andb_false_r. destruct (IsPathNotFound s) eqn:Ep, (IsCorruption (fst s)) eqn:Ec, (no_error_if_files_missing_ o);
      cbn [andb orb fst negb ok code_ Status_OK]; rewrite ?Es, ?Ep; cbn [negb andb]; rewrite ?Es; naive_solver.
  - assert (∀ x : IOStatus, ok (fst (if negb (ok (fst x)) then (Status_OK, false) else x)) = true) as Hok.
    { intros x. destruct (ok (fst x)) eqn:E; [done|done]. }
    rewrite Hok. cbn [negb andb]. rewrite Hok. split; [by right; left|done].
Qed.

Lemma load_tables_follow h d : recovers h d →
  ∃ s, for_cfds (load_tables o) h (cfds h) = Some (s, h) ∧ (ok s = true ↔ ∀ id cf, open_ d !! id = Some cf → tables_open id (tables_of h id)).
Proof using.
  intros H. destruct (for_cfds_check (load_tables o) h (cfds h) (λ c, tables_open (ColumnFamilyData.id_ c) (tables_of h (ColumnFamilyData.id_ c))))
    as (s & E & Hs).
  { intros c (id & cf & Hid & ->)%(recovers_cfd h d c H). destruct (rc_builders _ _ H _ _ Hid) as (_ & r & Hr & _).
    unfold tables_of. cbn [cfd_of ColumnFamilyData.id_]. rewrite Hr. by apply load_tables_status. }
  exists s. split; [done|]. rewrite Hs. split.
  - intros Hl id cf Hid. apply (Hl (cfd_of id cf)). apply (recovers_cfd h d); [done|]. eauto.
  - intros Hl c (id & cf & Hid & ->)%(recovers_cfd h d c H). by apply (Hl id cf).
Qed.

(** The versions that are built and installed *)
Definition built (h : t) (c : ColumnFamilyData.t) : Status * VersionStorageInfo :=
  SaveTo (ColumnFamilyData.user_comparator c) (default (NewRep (ColumnFamilyData.current_ c)) (builders_ h !! ColumnFamilyData.id_ c))
    (ColumnFamilyData.NewVersion (ColumnFamilyData.options_ c) (Some (ColumnFamilyData.current_ c)) (epoch_requirement_ o)).
Definition installed (h : t) (c : ColumnFamilyData.t) : ColumnFamilyData.t :=
  ColumnFamilyData.SetCurrent c (GenerateFileLocationIndex (snd (built h c))).
Definition with_cfds (h : t) (l : list ColumnFamilyData.t) : t :=
  set_version_set h (VersionSet.set_column_families (version_set_ h) l (VersionSet.max_column_family_ (version_set_ h))).

Lemma update_middle done todo c f : NoDup (map ColumnFamilyData.id_ (done ++ c :: todo)) →
  map (λ x, if ColumnFamilyData.id_ x =? ColumnFamilyData.id_ c then f x else x) (done ++ c :: todo) = done ++ f c :: todo.
Proof using.
  intros Hn. assert (∀ l, ColumnFamilyData.id_ c ∉ map ColumnFamilyData.id_ l →
    map (λ x, if ColumnFamilyData.id_ x =? ColumnFamilyData.id_ c then f x else x) l = l) as Hl.
  { induction l as [|x l IH]; [done|]. cbn. intros [Hx Hl]%not_elem_of_cons. rewrite IH by done. by rewrite (proj2 (Z.eqb_neq _ _)) by congruence. }
  rewrite map_app in Hn |- *. cbn in Hn |- *. apply NoDup_app in Hn as (_ & H1 & [H2 _]%NoDup_cons). rewrite Z.eqb_refl, Hl, Hl; [done|done|].
  intros Hc. apply (H1 _ Hc). left.
Qed.

Lemma create_versions todo : ∀ done h, cfds h = done ++ todo → NoDup (map ColumnFamilyData.id_ (cfds h)) →
  (∀ c, c ∈ todo → is_Some (builders_ h !! ColumnFamilyData.id_ c)) →
  ∃ s h', for_cfds (MaybeCreateVersion o) h todo = Some (s, h') ∧
    (ok s = true ↔ ∀ c, c ∈ todo → ok (fst (built h c)) = true) ∧
    (ok s = true → h' = with_cfds h (done ++ map (installed h) todo)).
Proof using.
  induction todo as [|c todo IH]; intros done h Hc Hn Hb.
  { exists Status_OK, h. split_and!; [done| |].
    - split; [|done]. by intros _ c ?%elem_of_nil.
    - intros _. rewrite app_nil_r in *. unfold with_cfds. rewrite <- Hc. unfold cfds. by destruct h as [[] ? ? ? ? ?]. }
  destruct (Hb c) as [r Hr]; [left|].
  assert (MaybeCreateVersion o h c = let '(s, v) := built h c in
    Some (s, if ok s then set_version_set h (VersionSet.AppendVersion (version_set_ h) (ColumnFamilyData.id_ c) v) else h)) as Ec
    by (unfold MaybeCreateVersion, built; by rewrite Hr).
  cbn [for_cfds]. rewrite Ec. destruct (built h c) as [s v] eqn:Eb. cbn [mbind option_bind]. destruct (ok s) eqn:Eok.
  - rewrite Hc in Hn. set (h1 := set_version_set h _).
    assert (h1 = with_cfds h (done ++ installed h c :: todo)) as E1.
    { unfold h1, with_cfds, VersionSet.AppendVersion, VersionSet.update_cf. unfold cfds in Hc. rewrite Hc. do 2 f_equal.
      unfold installed. rewrite Eb. by apply update_middle. }
    destruct (IH (done ++ [installed h c]) h1) as (s' & h' & E' & Hs' & Hh').
    + rewrite E1. unfold cfds, with_cfds. cbn. by rewrite <- app_assoc.
    + rewrite E1. unfold cfds, with_cfds. cbn. rewrite map_app in Hn |- *. exact Hn.
    + intros x Hx. rewrite E1. apply Hb. by right.
    + exists s', h'. assert (∀ x, built h1 x = built h x) as Eb1 by (intros x; by rewrite E1). split_and!; [done| |].
      * rewrite Hs'. split.
        -- intros Hl x [->|Hx]%elem_of_cons; [by rewrite Eb|]. rewrite <- Eb1. by apply Hl.
        -- intros Hl x Hx. rewrite Eb1. apply Hl. by right.
      * intros Hok. rewrite (Hh' Hok), E1. unfold with_cfds. cbn. rewrite <- app_assoc. cbn. done.
  - exists s, h. split_and!; [done| |by rewrite Eok]. rewrite Eok. split; [done|]. intros Hl. specialize (Hl c). rewrite Eb in Hl. cbn in Hl. rewrite Eok in Hl. apply Hl. left.
Qed.

Section Check.
Context (h : t) (d : Db) (H : recovers h d).

Lemma built_saves id cf : open_ d !! id = Some cf → let '(s, v) := built h (cfd_of id cf) in
  saves (comparator (cf_options cf)) (empty_version (cf_options cf)) (fst (cf_contents cf)) (snd (cf_contents cf)) v ∧
  (ok s = true ↔ (force_consistency_checks_option (cf_options cf) = true → version_wf (comparator (cf_options cf)) v)) ∧
  ∃ r, builders_ h !! id = Some r ∧
    epoch_number_requirement_ v = saved_requirement r (ColumnFamilyData.NewVersion (cf_options cf) (Some (empty_version (cf_options cf))) (epoch_requirement_ o)).
Proof using H.
  intros Hid. destruct (rc_builders _ _ H _ _ Hid) as (Hok & r & Hr & Hh). pose proof (oo_laws _ Hok) as Hlaws.
  pose proof (SaveTo_saves (wf (cf_options cf)) (comparator (cf_options cf)) (empty_version (cf_options cf)) (epoch_requirement_ o)
    (empty_base_ok _ _ Hok) r _ _ (force_consistency_checks_option (cf_options cf)) Hh) as Hs.
  unfold built. cbn [cfd_of ColumnFamilyData.id_ ColumnFamilyData.options_ ColumnFamilyData.current_]. rewrite Hr. cbn [from_option Datatypes.id].
  unfold ColumnFamilyData.user_comparator, ColumnFamilyData.NewVersion. cbn [cfd_of ColumnFamilyData.options_].
  rewrite empty_files, length_replicate in Hs. destruct (SaveTo _ r _) as [s v]. destruct Hs as (H1 & H2 & H3). split_and!; [done|done|]. by exists r.
Qed.

Definition complete : Prop :=
  missing_info (db_params d) = false ∧ (read_only_ o = true ∨ unopened_ d = ∅) ∧ ∀ id cf, open_ d !! id = Some cf → levels_valid cf.
Definition versions_wf (versions : Z → VersionStorageInfo) : Prop :=
  ∀ id cf, open_ d !! id = Some cf → force_consistency_checks_option (cf_options cf) = true → version_wf (comparator (cf_options cf)) (versions id).

Lemma ok_info_status : ok (info_status o h) = true ↔ missing_info (db_params d) = false ∧ (read_only_ o = true ∨ unopened_ d = ∅).
Proof using H.
  unfold info_status. rewrite (rc_params _ _ H), (rc_unopened _ _ H). destruct (missing_info (db_params d)); [split; [done|by intros [? _]]|].
  destruct (read_only_ o); cbn [negb andb]; [tauto|]. case_bool_decide; cbn; split; naive_solver.
Qed.

(** The version that is built of an open column family *)
Definition version_of (id : Z) : VersionStorageInfo :=
  match open_ d !! id with Some cf => snd (built h (cfd_of id cf)) | None => NewVersionStorageInfo 0 None false kMustPresent end.
Lemma version_of_open id cf : open_ d !! id = Some cf → version_of id = snd (built h (cfd_of id cf)).
Proof using. intros E. unfold version_of. by rewrite E. Qed.

Lemma find_map_same (f : ColumnFamilyData.t → ColumnFamilyData.t) l id : (∀ c, ColumnFamilyData.id_ (f c) = ColumnFamilyData.id_ c) →
  List.find (λ c, ColumnFamilyData.id_ c =? id) (map f l) = f <$> List.find (λ c, ColumnFamilyData.id_ c =? id) l.
Proof using. intros Hf. induction l as [|c l IH]; [done|]. cbn [map List.find]. rewrite Hf. destruct (_ =? id); [done|exact IH]. Qed.

Lemma check_follows off s : ok s = true → (∀ id cf, open_ d !! id = Some cf → small cf) →
  ∃ s' h', CheckIterationResult o h off s = Some (s', h') ∧ (ok s' = true ↔ complete ∧ (∀ id cf, open_ d !! id = Some cf → tables_open id (tables_of h id)) ∧ versions_wf version_of) ∧
    (ok s' = true → (∀ id, VersionSet.GetColumnFamily (version_set_ h') id = installed h <$> (cfd_of id <$> open_ d !! id)) ∧
      VersionSet.wals_ (version_set_ h') = db_wals d ∧
      VersionSet.next_file_number_ (version_set_ h') = u64 (default 0 (next_file_number_ (db_params d)) + 1)).
Proof using H.
  intros Hs Hsmall. unfold CheckIterationResult. rewrite Hs. cbn [negb]. pose proof ok_info_status as Hi. unfold complete.
  destruct (ok (info_status o h)) eqn:Ei; cbn [negb]; [|exists (info_status o h), h; rewrite Ei; split_and!; [done|split; [done|intros [? _]; apply Hi; tauto]|done]].
  destruct (recovers_mark h d H) as [Hm Hc]. set (h1 := mark_numbers h) in *. destruct (check_levels_follow h1 d Hm Hsmall) as (s1 & -> & Hs1).
  unfold and_then at 1. cbn [mbind option_bind]. destruct (ok s1) eqn:E1; [|exists s1, h1; rewrite E1; split_and!; [done|split; [done|intros [(_ & _ & ?) _]; by apply Hs1]|done]].
  destruct (load_tables_follow h1 d Hm) as (s2 & -> & Hs2). unfold and_then at 1. cbn [mbind option_bind].
  change (tables_of h1) with (tables_of h) in Hs2.
  destruct (ok s2) eqn:E2; [|exists s2, h1; rewrite E2; split_and!; [done|split; [done|intros (_ & ? & _); by apply Hs2]|done]].
  destruct (create_versions (cfds h1) [] h1 eq_refl (rc_nodup _ _ Hm)) as (s3 & h3 & -> & Hs3 & Hh3).
  { intros c (id & cf & Hid & ->)%(recovers_cfd h1 d c Hm). destruct (rc_builders _ _ Hm _ _ Hid) as (_ & r & Hr & _). eauto. }
  unfold and_then. cbn [mbind option_bind].
  assert ((ok s3 = true) ↔ versions_wf version_of) as Hwf.
  { rewrite Hs3. unfold versions_wf. split.
    - intros Hl id cf Hid Hforce. rewrite (version_of_open id cf Hid). pose proof (built_saves id cf Hid) as Hb.
      specialize (Hl (cfd_of id cf)). change (built h1 (cfd_of id cf)) with (built h (cfd_of id cf)) in Hl. destruct (built h (cfd_of id cf)) as [s4 v].
      apply Hb; [|done]. apply Hl. apply (recovers_cfd h1 d); [done|]. eauto.
    - intros Hv c (id & cf & Hid & ->)%(recovers_cfd h1 d c Hm). change (built h1 (cfd_of id cf)) with (built h (cfd_of id cf)).
      specialize (Hv id cf Hid). rewrite (version_of_open id cf Hid) in Hv. pose proof (built_saves id cf Hid) as Hb.
      destruct (built h (cfd_of id cf)) as [s4 v]. by apply Hb. }
  destruct (ok s3) eqn:E3; [|exists s3, h3; rewrite E3; split_and!; [done|split; [done|intros (_ & _ & ?); by apply Hwf]|done]].
  exists Status_OK, (finish h3 off). split_and!; [done|split; [intros _; split_and!; [apply Hi; done|apply Hi; done|by apply Hs1|by apply Hs2|by apply Hwf]|done]|].
  intros _. rewrite (Hh3 eq_refl). cbn [app]. split_and!.
  - intros id. unfold VersionSet.GetColumnFamily, finish. cbn. rewrite find_map_same by done. f_equal. exact (rc_cfds _ _ Hm id).
  - exact (rc_wals _ _ Hm).
  - cbn. rewrite (rc_params _ _ H). done.
Qed.
End Check.
End Recovers.
