(* ===== verification/VersionRecoveryRefines.v ===== *)
(** * From the bytes of a manifest to versions

    Recovery from a manifest that was written in atomic groups and cut anywhere: the
    column families and versions of the groups that are complete. *)

From S2P Require Import Prelude SortedLists Status Comparator DbFormat LogFormat LogWriter LogReader LogRecord LogRoundTrip LogCorrect.
From S2P Require Import WalEdit VersionEdit VersionEditCorrect Manifest VersionStorage VersionStorageCorrect.
From S2P Require Import VersionBuilder VersionBuilderCorrect VersionBuilderBlobs VersionBuilderSave VersionBuilderRefines VersionBuilderTables.
From S2P Require Import VersionRecovery VersionRecoveryEpochs VersionRecoveryCorrect.
From stdpp Require Import gmap.
From Stdlib Require Import Sorting.Sorted.
#[local] Open Scope Z_scope.
Import VersionEditHandler.

(** ** Epoch numbers of the versions that are built *)

Section Built.
Context (wf : bytes → Prop) (c : Comparator) `{!ComparatorLaws wf c} (base : VersionStorageInfo) (requirement : EpochNumberRequirement).
Context (Hbase : base_ok wf c base requirement) (r : Rep) (m : Lsm) (b : gmap Z (BlobFileAddition * (Z * Z))) (v : VersionStorageInfo).
Context (Hr : holds wf base r m b) (Hv : saves c base m b v).

Lemma built_promoted v0 : HasMissingEpochNumber v0 = false → epoch_number_requirement_ v = saved_requirement r v0 →
  HasMissingEpochNumber v = false → epoch_number_requirement_ v = kMustPresent.
Proof using Hr Hv.
  intros Hv0 -> Hm. unfold saved_requirement. destruct (epoch_number_requirement_ v0); [|done]. unfold PromoteEpochNumberRequirementIfNeeded. rewrite Hv0.
  destruct (existsb _ (levels_ r)) eqn:E; [|done]. exfalso. apply existsb_exists in E as (st & Hst%list_elem_of_In & E).
  apply existsb_exists in E as ([n f] & Hf%list_elem_of_In%elem_of_map_to_list & E%Z.eqb_eq). cbn in E. apply list_elem_of_lookup_1 in Hst as [i Hi].
  assert (level_state r (Z.of_nat i) = Some st) as Hl by (unfold level_state; rewrite (proj2 (Z.ltb_ge _ _)), Nat2Z.id by lia; done).
  pose proof (level_state_range _ _ _ Hl) as Hrange. rewrite (ho_levels _ _ _ _ _ Hr) in Hrange.
  pose proof (tr_added _ _ (ho_files _ _ _ _ _ Hr) _ _ _ _ Hl Hf) as Hn. destruct (tr_wf _ _ (ho_files _ _ _ _ _ Hr) _ _ _ Hn) as [_ <-].
  rewrite HasMissing_false in Hm. apply (Hm (Z.of_nat i) f); [lia| |done]. by apply (sv_files _ _ _ _ _ Hv).
Qed.
Lemma built_l0 : Zlen (LevelFiles v 0) <= Z.of_nat (size m).
Proof using All.
  pose proof (saved_numbers wf c base requirement Hbase r m b v Hr Hv) as Hn. assert (0 < num_levels base) as Hpos.
  { pose proof (bo_levels _ _ _ (bo_base _ _ _ _ Hbase)) as Hne. unfold num_levels. destruct (files_ base); [done|cbn; lia]. }
  destruct (files_ v) as [|l0 ls] eqn:Ef.
  { pose proof (sv_levels _ _ _ _ _ Hv) as E. unfold num_levels in *. rewrite Ef in E. cbn in E. lia. }
  assert (LevelFiles v 0 = l0) as E0 by (unfold LevelFiles; by rewrite Ef). cbn [located] in Hn. rewrite map_app, map_map in Hn.
  apply NoDup_app in Hn as (Hn & _ & _). change (NoDup (map file_number l0)) in Hn. rewrite Zlen_length, E0. apply Nat2Z.inj_le. rewrite <- (length_map file_number l0), <- (size_list_to_set (C := gset Z) _ Hn), <- size_dom.
  apply subseteq_size. intros n (f & -> & Hf)%elem_of_list_to_set%list_elem_of_fmap. rewrite <- E0 in Hf.
  apply (sv_files _ _ _ _ _ Hv 0 ltac:(lia)) in Hf. apply elem_of_dom. eauto.
Qed.

(** The recovered version has the files of the map, with epoch numbers, and is a base
    for the next edits if it is well formed. *)
Lemma recovered_version behind v0 : HasMissingEpochNumber v0 = false → epoch_number_requirement_ v = saved_requirement r v0 →
  Z.of_nat (size m) + num_levels base < 2 ^ 63 → (∀ n l f, m !! n = Some (l, f) → l < num_levels base) →
  let v' := fst (RecoverEpochNumbers_storage behind (GenerateFileLocationIndex v)) in
  renumbers (GenerateFileLocationIndex v) v' ∧
  (∀ n l f, m !! n = Some (l, f) → ∃ f', renumbered f f' ∧ lsm_of v' !! n = Some (l, f')) ∧
  (∀ n l f', lsm_of v' !! n = Some (l, f') → ∃ f, renumbered f f' ∧ m !! n = Some (l, f)) ∧
  (version_wf c v → base_ok wf c v' kMustPresent).
Proof using All.
  intros Hv0 Hreq Hsmall Hvalid v'. pose proof built_l0 as Hl0. assert (num_levels v = num_levels base) as Hlv by apply (sv_levels _ _ _ _ _ Hv).
  assert (files_ v ≠ []) as Hne.
  { intros E. pose proof (bo_levels _ _ _ (bo_base _ _ _ _ Hbase)) as Hne. unfold num_levels in Hlv. rewrite E in Hlv. by destruct (files_ base). }
  assert (renumbers (GenerateFileLocationIndex v) v') as Hn.
  { apply RecoverEpochNumbers_renumbers; [done| |change (Zlen (LevelFiles v 0) + num_levels v < 2 ^ 63); lia]. by apply (built_promoted v0). }
  pose proof (saved_numbers wf c base requirement Hbase r m b v Hr Hv) as Hnd.
  assert (lsm_of (GenerateFileLocationIndex v) = m) as Hm.
  { change (lsm_of v = m). rewrite (saved_lsm wf c base requirement Hbase r m b v Hr Hv). unfold valid_levels. apply map_filter_id. intros n [l f] Hf. by apply (Hvalid n l f). }
  split_and!; [done| | |].
  - intros n l f Hf. rewrite <- Hm in Hf. by apply (renumbers_lsm _ _ Hn n l Hnd).
  - intros n l f' Hf. rewrite <- Hm. by apply (renumbers_lsm _ _ Hn n l Hnd).
  - intros Hwf. by apply (renumbers_base _ _ Hn), (saved_base wf c base requirement Hbase r m b v Hr Hv).
Qed.
End Built.

(** ** Recovery *)

Lemma ok_name_file file_name s : ok (name_file file_name s) = ok s.
Proof. unfold name_file. destruct (IsCorruption s) eqn:E; [|done]. unfold IsCorruption, ok in *. cbn. by destruct (code_ s). Qed.

(** A column family after recovery: what was replayed for it is there, its version [v]
    with epoch numbers for all files. *)
Record cf_recovered (wf : bytes → Prop) (cf : Cf) (v : VersionStorageInfo) (c : ColumnFamilyData.t) : Prop := {
  cr_name : ColumnFamilyData.name_ c = cf_name cf;
  cr_options : ColumnFamilyData.options_ c = cf_options cf;
  cr_log : ColumnFamilyData.log_number_ c = cf_log cf;
  cr_ts_low : ColumnFamilyData.full_history_ts_low_ c = cf_ts_low cf;
  cr_version : renumbers (GenerateFileLocationIndex v) (ColumnFamilyData.current_ c);
  cr_files : ∀ n l f, fst (cf_contents cf) !! n = Some (l, f) →
    ∃ f', renumbered f f' ∧ lsm_of (ColumnFamilyData.current_ c) !! n = Some (l, f');
  cr_only : ∀ n l f', lsm_of (ColumnFamilyData.current_ c) !! n = Some (l, f') →
    ∃ f, renumbered f f' ∧ fst (cf_contents cf) !! n = Some (l, f);
  cr_base : version_wf (comparator (cf_options cf)) v → base_ok wf (comparator (cf_options cf)) (ColumnFamilyData.current_ c) kMustPresent
}.
(** Exactly the open column families are there. *)
Definition cfs_recovered (wf : ColumnFamilyOptions → bytes → Prop) (d : Db) (versions : Z → VersionStorageInfo) (v : VersionSet.t) : Prop :=
  ∀ id, match VersionSet.GetColumnFamily v id, open_ d !! id with
        | Some c, Some cf => cf_recovered (wf (cf_options cf)) cf (versions id) c
        | None, None => True
        | _, _ => False
        end.

Section Recovery.
Context {F C : Type} `{!WritableFile F} `{!WritableFileLaws F} `{!StreamingCompress C}.
Context {R U : Type} `{!SequentialFile R} `{!SequentialFileLaws R} `{!StreamingUncompress U}.
Context (XXH3_64bits : bytes → Z) (o0 : Options) (wf : ColumnFamilyOptions → bytes → Prop).
#[local] Abbreviation o := (recovery_options o0).
Context (Ho : ∀ name options, options_of o name = Some options → options_ok wf options).
Context (Hiterate : visits_all (map_iteration o0)).

Lemma installed_recovered h d id cf : recovers o wf h d → open_ d !! id = Some cf → small cf → levels_valid cf →
  let c := installed o h (cfd_of id cf) in
  let '(current, next) := RecoverEpochNumbers_storage (allow_ingest_behind (ColumnFamilyData.options_ c)) (ColumnFamilyData.current_ c) in
  cf_recovered (wf (cf_options cf)) cf (version_of o h d id) (ColumnFamilyData.SetNextEpochNumber (ColumnFamilyData.SetCurrent c current) next).
Proof using.
  intros H Hid Hs Hl c. destruct (rc_builders _ _ _ _ H _ _ Hid) as (Hok & r & Hr & Hh). pose proof (oo_laws _ _ Hok) as Hlaws.
  rewrite (version_of_open o h d id cf Hid). pose proof (built_saves o wf h d H id cf Hid) as Hb.
  unfold c, installed. cbn [ColumnFamilyData.SetCurrent ColumnFamilyData.options_ ColumnFamilyData.current_ cfd_of].
  destruct (built o h (cfd_of id cf)) as [s v]. cbn [snd]. destruct Hb as (Hv & _ & r' & Hr' & Hreq). rewrite Hr in Hr'. injection Hr' as <-.
  set (v0 := ColumnFamilyData.NewVersion _ _ _) in Hreq. assert (HasMissingEpochNumber v0 = false) as Hv0.
  { apply HasMissing_false. intros l f _. unfold v0, ColumnFamilyData.NewVersion, NewVersionStorageInfo, LevelFiles. cbn.
    destruct (replicate _ _ !! _) eqn:E; [apply lookup_replicate in E as [-> _]|]; by intros ?%elem_of_nil. }
  destruct (recovered_version (wf (cf_options cf)) (comparator (cf_options cf)) (empty_version (cf_options cf)) kMustPresent
    (empty_base_ok wf _ _ Hok) r _ _ v Hh Hv (allow_ingest_behind (cf_options cf)) v0 Hv0 Hreq) as (H1 & H2 & H3 & H4).
  - rewrite empty_levels. exact Hs.
  - rewrite empty_levels. exact Hl.
  - destruct (RecoverEpochNumbers_storage _ _) as [current next]. split; done.
Qed.

(** C6: Recovery from a manifest refines the replay of its edits on maps. Let edits,
    each by itself or in an atomic group, be written to a new manifest that is then
    cut at any byte of its last record, and let the edits of the complete groups fit
    the files they meet. Recovery fails if the maps refuse one of these edits.
    Otherwise it builds for each column family that is open the version with the
    files of the map, and succeeds if and only if the manifest has the numbers it
    must have, no column family is left unopened (unless reading only), no file is on
    a level that the options do not have, the tables are opened, and every version is
    well formed whose options ask for the check. Of the tables of a column family, in
    the order in which its maps are iterated over, those are opened that the table
    cache has room for (all, if its capacity is infinite); nothing is assumed of what
    opening them returns, and the first that fails makes recovery fail, unless checks
    are not paranoid, or files may be missing and it is missing or corrupt. After success exactly the open column families exist,
    with the files of the complete groups, their log numbers, the remaining logs and
    the next file number; every file has an epoch number, and the well-formed versions
    can be the base of the next edits. *)
Theorem recovery_refines f ln recycle mf fuel ts_sz gs es e rest s (w : Writer F C) s' (w' : Writer F C) (rf : R) rep checksum rfuel n file_name k
    (vs : VersionSet.t) options :
  contents f = [] → (recycle = true → is_u 32 ln) →
  Forall group_wf gs → Forall (edit_wf ts_sz) (es ++ [e]) → concat gs = es ++ e :: rest →
  Forall bytes_ok (map (record_of ts_sz) (es ++ [e])) →
  AddRecords fuel (NewWriter f ln recycle mf kNoCompression) (map (record_of ts_sz) es) = Some (s, w) → ok s = true →
  AddRecord fuel w (record_of ts_sz e) = Some (s', w') → ok s' = true →
  Zlen (contents (dest_ w)) <= k < Zlen (contents (dest_ w')) →
  unread rf = ztake k (contents (dest_ w')) → 2 * Zlen (unread rf) + 3 <= Z.of_nat rfuel → Zlen (unread rf) < 2 ^ 64 - 1 →
  ok (log_read_status rep) = true → (length es < n)%nat →
  VersionSet.column_family_set_ vs = [] → opened_names o !! kDefaultColumnFamilyName = Some options →
  let complete_edits := complete_groups (length es) (map (map (persisted ts_sz)) gs) in
  let replayed := each (db_edit o) (initial_db options vs) complete_edits in
  db_edits_fit o wf (initial_db options vs) complete_edits →
  (∀ d, replayed = Some d → ∀ id cf, open_ d !! id = Some cf → small cf) →
  ∃ s vs', Recover XXH3_64bits o0 n rfuel file_name (NewReader rf rep checksum ln) vs = Some (s, vs') ∧
  match replayed with
  | None => ok s = false
  | Some d => ∃ versions tables,
      (∀ id cf, open_ d !! id = Some cf →
        saves (comparator (cf_options cf)) (empty_version (cf_options cf)) (fst (cf_contents cf)) (snd (cf_contents cf)) (versions id) ∧
        map table_entry (tables id) ≡ₚ map_to_list (on_levels cf)) ∧
      (ok s = true ↔ complete o d ∧ (∀ id cf, open_ d !! id = Some cf → tables_open o id (tables id)) ∧ versions_wf d versions) ∧
      (ok s = true → cfs_recovered wf d versions vs' ∧ VersionSet.wals_ vs' = db_wals d ∧
        VersionSet.next_file_number_ vs' = u64 (default 0 (next_file_number_ (db_params d)) + 1))
  end.
Proof using All.
  intros Hf Hln Hgs Hwf Hes Hb HA Hs HA' Hs' Hk Hrf Hfuel Hmax Hrep Hn Hvs Hopt complete_edits replayed Hfit Hsmall.
  destruct (Initialize_recovers o wf Ho vs options Hvs Hopt) as (h0 & Ei & H0).
  assert (Manifest.Initialize (option t) (Handler (R := R) (U := U) o) (Some (New vs)) = (Status_OK, Some h0)) as Ei' by (change (lift (Some (Initialize o (New vs))) = (Status_OK, Some h0)); by rewrite Ei).
  destruct (Iterate_complete_groups (U := U) XXH3_64bits (Handler o) f ln recycle mf fuel ts_sz gs es e rest s w s' w' rf rep checksum rfuel (2 ^ 64 - 1) n file_name k
    (Some (New vs))) as (buffer & r1 & s1 & Hr); try done; [by rewrite Ei'|].
  rewrite Ei' in Hr. cbn [snd] in Hr. fold complete_edits in Hr.
  destruct (edits_follow o wf Ho (R := R) (U := U) complete_edits Status_OK h0 _ eq_refl H0 Hfit) as (s2 & h2 & E2 & H2). rewrite E2 in Hr. destruct Hr as [Hsame Hit].
  unfold Recover. rewrite Hit. clear Hit. cbn [Handler Manifest.CheckIterationResult mbind option_bind]. fold replayed in H2. unfold same_status in Hsame.
  destruct replayed as [d|].
  - destruct H2 as [Hok2 H2]. rewrite Hok2 in Hsame.
    destruct (check_follows o wf h2 d H2 (GetReadOffset r1) s1 Hsame (Hsmall d eq_refl)) as (s3 & h3 & E3 & Hs3 & Hh3).
    rewrite E3. cbn [lift mbind option_bind]. do 2 eexists. split; [done|]. exists (version_of o h2 d), (tables_of o h2).
    assert (ok (if ok s3 then Status_OK else name_file file_name s3) = ok s3) as -> by (destruct (ok s3) eqn:E; [done|by rewrite ok_name_file]).
    split_and!; [|done|].
    + intros id cf Hid. split; [|by apply (tables_of_live o wf h2 d)]. rewrite (version_of_open o h2 d id cf Hid). pose proof (built_saves o wf h2 d H2 id cf Hid) as Hbs. destruct (built o h2 (cfd_of id cf)) as [s4 v4]. apply Hbs.
    + intros Hok3. destruct (proj1 Hs3 Hok3) as [(_ & _ & Hl) _]. destruct (Hh3 Hok3) as (Hg & Hw & Hnf). rewrite Hok3. split_and!; [|done|done].
      intros id. unfold RecoverEpochNumbers, VersionSet.GetColumnFamily. cbn [VersionSet.column_family_set_ VersionSet.set_column_families].
      rewrite find_map_same by (intros c; by destruct (RecoverEpochNumbers_storage _ _)). fold (VersionSet.GetColumnFamily (version_set_ h3) id). rewrite Hg.
      destruct (open_ d !! id) as [cf|] eqn:Hid; [|done]. cbn [fmap option_fmap option_map].
      pose proof (installed_recovered h2 d id cf H2 Hid (Hsmall d eq_refl id cf Hid) (Hl id cf Hid)) as Hi. cbv zeta in Hi.
      by destruct (RecoverEpochNumbers_storage _ _).
  - rewrite H2 in Hsame. subst s1. unfold CheckIterationResult. rewrite H2. cbn [negb lift mbind option_bind]. do 2 eexists. split; [done|].
    rewrite H2. by rewrite ok_name_file.
Qed.
End Recovery.

(** The manifest has one edit and a part of an atomic group: the file of the edit is
    recovered, those of the group are not. *)
Module RecoveryExample.
Import LogExample VersionExample.
Definition options : ColumnFamilyOptions := mkCfOptions BytewiseComparator [98] 2 true false.
Definition handler_options : Options :=
  mkOptions false [(kDefaultColumnFamilyName, options)] options false false true kMustPresent
    (λ _, TableCache.mk TableCache.kInfiniteCapacity 0 (λ _ _, (Status_OK, false))) map_to_list.
Definition edit1 : VersionEdit := AddFile (SetLastSequence (SetNextFile (SetLogNumber Clear 3) 9) 20) 1 (file 4 5 1 0 97 98).
Definition edit2 : VersionEdit := MarkAtomicGroup (AddFile Clear 0 (file 6 7 2 0 98 99)) 1.
Definition edit3 : VersionEdit := MarkAtomicGroup (AddFile Clear 0 (file 8 9 3 0 97 99)) 0.
Definition records : list bytes := map (record_of 0) [edit1; edit2].
Definition vs : VersionSet.t := VersionSet.New [].

Lemma recovery_edits_wf : Forall (edit_wf 0) [edit1; edit2; edit3].
Proof.
  repeat first [apply Forall_nil_2|apply Forall_cons_2]; (split; [split|repeat constructor|by vm_compute]).
  all: repeat first [apply Forall_nil_2|apply Forall_cons_2]; try (by vm_compute).
  all: split; [by vm_compute|]; split; unfold VersionEditCorrect.key_ok; (by split_and?; vm_compute) || by vm_compute.
Qed.
Lemma recovery_groups_wf : Forall group_wf [[edit1]; [edit2; edit3]].
Proof.
  apply Forall_cons. split; [by apply group_single|]. apply Forall_cons. split; [|by apply Forall_nil].
  apply group_atomic; [done|by vm_compute|]. intros [|[|i]] e; [intros [= <-]; done..|done].
Qed.
Lemma options_are_ok name x : options_of (recovery_options handler_options) name = Some x → options_ok (λ _, bytes_ok) x.
Proof.
  intros H. assert (x = options) as ->; [|split; [apply Bytewise_laws|cbn; lia]].
  unfold options_of in H. case_bool_decide; [by injection H|]. unfold opened_names in H. cbn [recovery_options handler_options column_families_ fold_left fst snd] in H.
  rewrite lookup_empty in H. apply lookup_insert_Some in H as [[_ ?]|[_ H]]; [done|]. by rewrite lookup_empty in H.
Qed.
Lemma edits_fit_db : db_edits_fit (recovery_options handler_options) (λ _, bytes_ok) (initial_db options vs) [persisted 0 edit1].
Proof.
  split; [|by destruct (db_edit _ _ _)]. unfold db_fits. intros cf _ _. intros H. change (column_family_ (persisted 0 edit1)) with 0 in *.
  assert (cf = mkCf kDefaultColumnFamilyName options (∅, ∅) 0 []) as -> by (cbn in H; by injection H). clear H.
  assert (MaybeHandleFileBoundariesForNewFiles (persisted 0 edit1) (cfd_of 0 (mkCf kDefaultColumnFamilyName options (∅, ∅) 0 [])) = (Status_OK, persisted 0 edit1)) as -> by done.
  intros _. split; repeat first [apply Forall_nil_2|apply Forall_cons_2]. split; [done|].
  assert (snd (1, persisted_file 0 (file 4 5 1 0 97 98)) = file 4 5 1 0 97 98) as E by by vm_compute. 
  change (keys_ok bytes_ok (snd (1, persisted_file 0 (file 4 5 1 0 97 98)))). rewrite E. apply file_keys; by vm_compute.
Qed.
(** What is seen of the result: the status, the files and the log of the default
    column family, and the next file number *)
Definition seen (x : option (Status * VersionSet.t)) : option (bool * option (list (list Z) * Z) * Z) :=
  '(s, v) ← x;
  Some (ok s, (λ c, (map (map file_number) (files_ (ColumnFamilyData.current_ c)), ColumnFamilyData.log_number_ c)) <$> VersionSet.GetColumnFamily v 0,
    VersionSet.next_file_number_ v).
Lemma recovery_refines_witness : ∃ s vs', Recover (U := unit) xxh handler_options 5 500 "MANIFEST-000005"
    (NewReader (ztake 150 (file_of 5 false (records ++ [record_of 0 edit3]))) (Some []) true 5) vs = Some (s, vs') ∧
  seen (Some (s, vs')) = Some (true, Some ([[]; [4]], 3), 10).
Proof.
  destruct (recovery_refines (U := unit) xxh handler_options (λ _, bytes_ok) options_are_ok (λ _, Permutation_refl _) (memfile []) 5 false false 10 0
    [[edit1]; [edit2; edit3]] [edit1; edit2] edit3 [] Status_OK (written 5 false records)
    Status_OK (written 5 false (records ++ [record_of 0 edit3]))
    (ztake 150 (file_of 5 false (records ++ [record_of 0 edit3]))) (Some []) true 500 5 "MANIFEST-000005" 150 vs options) as (s & vs' & E & H).
  - reflexivity.
  - discriminate.
  - apply recovery_groups_wf.
  - apply recovery_edits_wf.
  - reflexivity.
  - vm_compute. repeat constructor; discriminate.
  - vm_compute. reflexivity.
  - reflexivity.
  - vm_compute. reflexivity.
  - reflexivity.
  - vm_compute. split; [discriminate|reflexivity].
  - reflexivity.
  - vm_compute. discriminate.
  - vm_compute. reflexivity.
  - reflexivity.
  - repeat constructor.
  - reflexivity.
  - reflexivity.
  - apply edits_fit_db.
  - intros d Hd. assert (match each (db_edit (recovery_options handler_options)) (initial_db options vs) [persisted 0 edit1] with
      | Some d => bool_decide (map_Forall (λ _ cf, Z.of_nat (size (fst (cf_contents cf))) + Z.of_nat (num_levels_option (cf_options cf)) < 2 ^ 63) (open_ d))
      | None => true end = true) as Hs by (vm_compute; reflexivity).
    change (each (db_edit (recovery_options handler_options)) (initial_db options vs) [persisted 0 edit1] = Some d) in Hd.
    rewrite Hd in Hs. apply bool_decide_eq_true in Hs. exact Hs.
  - exists s, vs'. split; [exact E|]. rewrite <- E. vm_compute. reflexivity.
Defined.

(** The table of file 4 is missing: recovery fails, unless files may be missing or
    checks are not paranoid. *)
Definition missing_options (may_miss paranoid : bool) : Options :=
  mkOptions false [(kDefaultColumnFamilyName, options)] options may_miss false paranoid kMustPresent
    (λ _, TableCache.mk 100 3 (λ f _, if file_number f =? 4 then (mkStatus kIOError EmptyString false, true) else (Status_OK, false))) map_to_list.
Lemma missing_table_refused : map (λ '(may_miss, paranoid),
    (λ '(s, v), ok s) <$> Recover (U := unit) xxh (missing_options may_miss paranoid) 5 500 "MANIFEST-000005"
      (NewReader (ztake 150 (file_of 5 false (records ++ [record_of 0 edit3]))) (Some []) true 5) vs)
    [(false, true); (true, true); (false, false)] = [Some false; Some true; Some true].
Proof. vm_compute. reflexivity. Qed.
End RecoveryExample.
